(* ===== verification/_CoqProject ===== *)
-Q . S2P
Prelude.v
Ir.v
Dialect.v
Lex.v
DialectFacts.v
Documents.v
Emit.v
DocumentSet.v
Model.v
Values.v
Canonical.v
Decimal.v
Times.v
BindCheck.v
Keys.v
DocumentFacts.v
Check.v
CheckFacts.v
Plan.v
PlanFacts.v
Render.v
PlanDiff.v
PlanDiffFacts.v
Compare.v
PlanSteps.v
PlanStepsFacts.v
Apply.v
ApplyFacts.v
ApplyCrash.v
ApplySample.v
Relations.v
Meet.v
Validate.v
Params.v
Planner.v
PlannerFacts.v
PlannerBinds.v
PlannerFuel.v
EngineFacts.v
PlannerSteps.v
Split.v
Names.v
GroupRows.v
AppliedAt.v
Unicode.v
Lexer.v
LexerFacts.v
Doubles.v
Literals.v
ParseState.v
Reader.v
CheckReader.v
Validator.v
ParseDocument.v
ParseOk.v
ParseTotal.v
CheckTotal.v
ValidateTotal.v
ParseTextTotal.v
ParseClean.v
ValidateClean.v
ValidateMachine.v
ValidateTables.v
ValidateDocument.v
ParseResult.v
WellFormed.v
PlanDocuments.v
RenderFacts.v
Float32.v
CatalogValue.v
Faults.v
CatalogRows.v
ReadOnly.v
Pools.v
Transactions.v
TransactionFacts.v
Catalog.v
CatalogFacts.v
Sample.v
