(* ===== verification/Prelude.v ===== *)
(** * Verification of the TypeScript client of the polyspec ORM

    The repository holds an ORM whose schema is a set of dbspec documents and
    whose statements come from one request format.  This development models the
    core of its TypeScript package, [src/packages/ts/src/]: the path of a request
    from its checks through the statement compiler to the rows that a caller
    reads; the documents that decide what the compiler knows, their parser and
    their plans; and the programs that talk to a database: the application of
    plans, transactions, and the catalog connection.

    ** Parts and files

    The files are listed in dependency order.  A definition has the name of the
    function it models; a function that is a closure or a loop body in the source
    has a name of its own.

    - [Prelude]: results ([res], the thrown [OrmError]s as values), the state
      monad [M] of the builders, text and list functions of the host, sorting, and
      lemmas that the other files share.
    - [Ir]: the request and plan records ([ir.ts]).
    - [Dialect], [Lex], [DialectFacts]: the dialect interface with its three
      implementations ([engine/dialect.ts]), a lexer of SQL text with placeholders,
      and what the compiler asks of a dialect ([SafeDialect], an interface that each
      dialect is shown to satisfy).
    - [Documents], [Emit], [DocumentSet], [DocumentFacts]: parsed documents
      ([dbspec/model.ts]), their canonical, manifest and schema texts
      ([dbspec/emit.ts], [dbspec/audit.ts]), the check and manifest of a set
      ([dbspec/set.ts], [dbspec/index.ts]) and the comparison of external tables
      with a database.
    - [Model]: the entities that the compiler reads ([engine/model.ts]).
    - [Values], [Canonical]: host values, and the canonical request that keys the
      plan cache ([engine/canonical.ts]).
    - [Decimal], [Times], [BindCheck], [Keys]: value forms, the check of a parameter
      against its slot, and row identities ([decimal.ts], [database.ts],
      [bind_check.ts]).
    - [Check], [CheckFacts]: check expressions ([dbspec/check.ts]) and their
      canonical text.
    - [Plan], [PlanFacts], [PlanDocuments]: the header of a plan, its canonical text,
      the chain of plans ([dbspec/plan.ts]), plan documents and parsed sets
      ([dbspec/document.ts], [dbspec/set_parse.ts]).
    - [Render], [RenderFacts]: the statements that create the tables of a set
      ([dbspec/render.ts], [dbspec/names.ts]).
    - [PlanDiff], [PlanDiffFacts]: the changes of a plan ([dbspec/plan_diff.ts],
      [dbspec/plan_objects.ts]).
    - [Compare]: the differences between two schemas ([dbspec/compare.ts]).
    - [PlanSteps], [PlanStepsFacts]: the statements of a plan
      ([dbspec/plan_steps.ts]).
    - [Apply], [ApplyFacts], [ApplyCrash], [ApplySample], [AppliedAt]: the commands
      that apply, recover, roll back and finalize plans ([dbspec/apply.ts]) as
      programs over a class [Host] (statements, queries, introspection, clock and
      event handler); their sessions and locks; what an interrupted command leaves,
      in a database that keeps the promises of the class [PlanDatabase]; a small
      database that keeps them; and the time of a history row.
    - [Meet], [Validate], [Params], [Planner]: the compiler ([meet.ts],
      [engine/validate.ts], [engine/params.ts], [engine/planner.ts],
      [engine/index.ts]).  [engineCompile] validates a request and plans it.
    - [PlannerFacts], [PlannerBinds], [PlannerFuel], [EngineFacts], [PlannerSteps]:
      theorems about plans.
    - [Relations], [Split]: what the runtime does with the steps of a plan
      ([database.ts]): parent values, chunks within the bind limit, expansion of the
      parent placeholder, grouping, and the split of a read over the bind limit.
    - [Names], [GroupRows]: method names and grouped results ([names.ts],
      [group_rows.ts]).
    - [Unicode], [Lexer], [LexerFacts], [Doubles], [Literals]: the letters of words,
      the lexer of a line, the numbers of the host, and the literals of the document
      language ([dbspec/parse.ts]).
    - [ParseState], [Reader], [CheckReader], [Validator], [ParseDocument]: the parser
      of documents ([dbspec/parse.ts]): the parser object as the state of a monad
      whose errors are the thrown ones, the readers of lines, the reader of check
      expressions, the checks of tables, and [parseDocument], [headerName] and
      [analyzeDocument].
    - [ParseOk], [ParseTotal], [CheckTotal], [ValidateTotal], [ParseTextTotal]: every
      text is parsed to an end.
    - [ParseClean], [ValidateClean], [ValidateMachine], [ValidateTables],
      [ValidateDocument]: what a parse without diagnostics has read and checked.
      [run] states it of one step, [kept] under the invariant of the parser.
    - [ParseResult], [WellFormed]: the result of every parse, the well-formedness of
      documents ([DocumentWf]), and what [parseDocument] promises.
    - [Float32], [CatalogValue], [CatalogRows], [ReadOnly]: the catalog connection
      ([catalog.ts]): the bits of single-precision texts, the values of cells by
      native type, rows, descriptors and snapshots, and the check that a query reads
      only.
    - [Faults]: thrown errors with their causes, the mapping of a driver's error
      ([driver.ts], [runtime_error.ts]), and programs over a world ([Run]).
    - [Transactions], [TransactionFacts]: transactions ([database.ts], [events.ts],
      [utils.ts]) as programs over a connection [Db] and a class [TxHost] (session,
      subscribers, insert of the audit record).  [Tx.transaction] repeats
      [Tx.runOnce], which opens ([Tx.begin]), runs the callback ([Tx.perform]) and
      ends ([Tx.finish]); a callback is a tree of its calls ([Client]).
    - [Catalog], [CatalogFacts]: the reads and row changes of a catalog connection
      as programs over a class [CatalogHost] of the driver's pool and sessions.
    - [Pools]: calls that wait for a connection: the pool of the one SQLite connection
      ([driver.ts]), the pool of flowmark sessions ([markdown.ts]) and a LISTEN
      subscription ([listen.ts]), each a state with the jobs that its promises have
      queued and a function of events.
    - [Sample]: a small document set at which the theorems are applied, and
      behaviour that departs from what the code intends.

    ** What the theorems show

    - Statements: each step of a plan has exactly one placeholder per bind slot, in
      slot order, outside every quoted name and literal; steps are numbered by
      position and refer backwards.  Validation and planning end for every request.
    - The plan cache: canonicalisation is idempotent, numbers parameters in walk
      order, and does not depend on how a request numbered its parameters.
    - Running a plan: parent values are the distinct non-null keys; chunks hold each
      value once and fit the bind limit; rows are grouped under their keys; a split
      read fits the limit and has every value in exactly one part by key.
    - Values: decimals, dates, integers, LIKE patterns, search texts and
      single-precision texts are accepted exactly when they have their meaning, and
      scaled decimals read back.
    - Documents: the check of a set decides reachability along uses; hashes depend on
      the owned tables and the external tables in use alone; an external comparison
      without differences means that the tables are there; a parse of any text and any
      declared set returns; a document that it accepts is well formed, its foreign keys
      up to the tables of the documents that it uses; the diagnostics of a refused one
      are in source order, but for one that stopped the parser.
    - Method names: a key is read exactly when the grammar gives it one meaning.
    - Plans: a plan and a check expression read back from their canonical text; plans
      are ordered into the one chain; a diff without diagnostics loses no table,
      column or value that the plan does not name; a comparison without differences
      means the same tables; every step before the finalize steps can be undone or
      says why not, and what a plan drops is hidden first (renamed, or on SQLite
      carried through the rebuild of its table) and dropped by a finalize step under
      its own holding name.
    - Rendering: each document is rendered once, behind the documents it uses; a text
      literal is read back by its database.
    - Commands, on a database that keeps the promises of [PlanDatabase]: whatever call
      fails, the history row of the last plan agrees with the steps in effect up to the
      one of the failed call, and a command that returns leaves its plan applied, undone
      or done ([command_outcome]; [recover_finalizing] states recover of an interrupted
      finalize).  On any host: a session that takes its lock releases it last
      ([session_releases]) and loses no error; [position] accepts exactly the histories
      that are fronts of the chain.
    - Transactions: a host is recorded by the list of its calls ([recordedTx]) and a
      monitor reads that list ([ghostOf]).  For every callback, host, subscriber and
      option, a transaction that returns committed exactly once in all its attempts
      and one that throws did not commit, but for a COMMIT whose subscriber failed
      ([transaction_commits_once]); sessions are given back, one at a time, closed or
      holding nothing ([transaction_sessions]); a nested transaction that throws
      restores the audit record and the inserted keys ([nested_restores]).  The
      exceptions that the monitor excuses are real: [lock_kept] and
      [rollback_masked] run them.
    - The catalog connection: a row change sends at most one COMMIT on one connection
      that it closes once, and returns exactly when the COMMIT was answered; an
      update has locked the row of its snapshot unchanged; a query is accepted
      exactly when its words read; a read reports every row that it does not give;
      two rows are the same exactly when they hold the same values.
    - Waiting: whatever their callers, signals and connections do, no call of a pool is
      lost and the pool of sessions keeps its bounds ([sqlitePool_settles],
      [markdownPool_settles], [markdownPool_bounds]); the SQLite connection has one
      session when no two calls reserve at once ([sqlitePool_exclusive]) and two when
      they do ([sqlitePool_overlap]); a subscription delivers each notification once, in
      order ([listener_delivers]).
    - Findings: inputs at which the code does something else than it means to.

    ** Fuel

    Recursions of the source that are not structural take fuel and end with
    [OutOfFuel], which is no error of the source.  [planFuel] is twice the size of
    the query plus eight: each level of the planner enters a smaller scope or
    condition group ([engine_compile_terminates] shows that no run ends for want of
    it).  [walk] of a set enters a document not reached before, so one more than
    their number is enough ([walk_walked]).  The tokens of a check expression and its
    parser take one more than the length of the text and of the tokens
    ([readCheck_exprText]), the chain of plans one more than their number
    ([chainPlans_chain]), and the order of documents two more than theirs
    ([useOrder_uses]).  The lexer makes one attempt more than a line has characters,
    a loop of the check reader one turn more than there are tokens, and [parseText]
    enters one document more than are declared, since each adds a name to the chain
    of its users ([parseText_total]).  A transaction needs none: its attempts count
    down from its retry option and a callback is a finite tree.

    ** Assumptions and limits of the model

    - A text is the list of its UTF-8 bytes; names are ASCII, whose byte order is the
      order of UTF-16 code units, so sorting agrees.
    - A request is one whose JSON shape was accepted: the records have the members
      the types declare; null members and unknown members are outside.  A record is a
      list of entries in insertion order, so keys that look like array indexes, which
      a host moves to the front, are outside.
    - An integer of type number is below 10^21 in magnitude; other numbers are held by
      their text.  A [Date] is the text that the key functions write.
    - The time zone of a connection is an offset in minutes; a value that is not a
      text has no date form.
    - The keys of a relation are not empty, which the validator requires.
    - A text that the parser reads is its UTF-8 bytes, an unpaired surrogate the three
      bytes of its code point; indexes count UTF-16 units, as in the source.
    - SHA-256 is a parameter of [dbspecManifest], of the parser and of the catalog.
    - A connection has one open transaction of one flow: the stack of frames of
      several connections and the refusal of concurrent calls are outside, and so are
      elapsed times and the random part of a wait.
    - A session answers or refuses each statement; the promises about what an answered
      statement sets on it (a lock behind GET_LOCK that answers 1, none behind
      RELEASE_LOCK) are in the monitor of [TransactionFacts], not in the programs.

    ** Not modelled

    Opening connections, the pools of the pg and mysql2 packages, the adapters of the
    three drivers, plan caches of texts, the lines of a flowmark session and the
    cancelling of statements ([driver.ts], [markdown.ts], the connection part of
    [database.ts]) are asynchronous I/O.  The
    values of an audit record and its insert run the model classes, and are operations
    of [TxHost].  Model classes ([model.ts], [core.ts]) are proxies of the host over
    the chain grammar of [Names].  Codecs and keys call zlib, YAML and crypto
    libraries.  Introspection of a database is an operation of [Host].  The class
    [PlanDatabase] states what the commands rely on: each statement of a step is done
    or changed nothing, an effect query answers a side on which the plan stands (the
    copy of no rows stands on both), and the history statements do what they say.  The driver adapters of [dbspec/apply.ts] are
    outside.  The changes and the steps of every case of
    [tests/dbspec/plan-cases.json], for the three dialects, and the diagnostics,
    documents, positions and tokens of the documents of [tests/dbspec] were evaluated
    with these definitions and are the expected ones.  The code generator, the command
    line and the editor packages are templates and process I/O, or code of other
    languages. *)

From stdpp Require Export base list strings pretty sorting.
From Stdlib Require Export ZArith Ascii.
From Stdlib Require Import Lia.

#[global] Open Scope Z_scope.

(** ** Results: the errors the source throws *)

(** The error codes of [codes.ts], which the build generates from
    [docs/spec/errors.yaml]; each constant's value is its own name. *)
Inductive Code :=
  | IR_INVALID | VERSION_MISMATCH | SCHEMA_HASH_MISMATCH | SCHEMA_INVALID
  | CONFIG | COLUMN_UNKNOWN | COLUMN_ALIAS_CONFLICT | COLUMN_UNSELECTED
  | ENTITY_UNKNOWN | ENTITY_NOT_JOINED | FUNCTION_UNKNOWN | INDEX_UNKNOWN
  | OPERATOR_NOT_ALLOWED | OPERATOR_UNKNOWN | OR_AT_GROUP_START | EMPTY_IN
  | LIMIT_IN_RELATION | CAPABILITY_UNSUPPORTED | DIALECT_UNKNOWN | INTERNAL
  | CODEC_ENCODE | CODEC_DECODE | CODEC_UNSUPPORTED | CANCELED | ROLLBACK
  | QUERY_READ_ONLY | QUERY_LIMIT_INVALID | CATALOG_LIMIT | CATALOG_VALUE
  | CATALOG_PARAM | CATALOG_CLOSED | TABLE_METADATA_INVALID
  | TABLE_REFERENCE_INVALID | TABLE_NOT_FOUND | TABLE_KIND_UNSUPPORTED
  | TABLE_NAMESPACE_UNSUPPORTED | TABLE_NAMESPACE_UNAVAILABLE
  | TABLE_PAGE_INVALID | TABLE_PAGE_UNSUPPORTED | TABLE_PAGE_METADATA_CHANGED
  | ROW_SNAPSHOT_INVALID | ROW_SNAPSHOT_LIMIT | ROW_INSERT_INVALID
  | ROW_INSERT_IDENTITY_REQUIRED | ROW_UPDATE_INVALID | ROW_UPDATE_LIMIT
  | ROW_CONFLICT | ROW_IDENTITY_AMBIGUOUS | ROW_SCHEMA_CHANGED
  | ROW_WRITE_MISMATCH | ROW_MUTATION_UNSUPPORTED | ROW_COMMIT_REJECTED
  | ROW_COMMIT_INDETERMINATE | ROW_ROLLBACK_FAILED | GRID_TEMPORAL_VALUE
  | GRID_TEMPORAL_PRECISION | LOCK_NOT_AVAILABLE | DEADLOCK | DUPLICATE_KEY
  | FOREIGN_KEY | CONSTRAINT | READ_ONLY | CONNECTION_LOST | DRIVER
  | SUBSCRIBER | FAULT | NO_ROWS | OPTIMISTIC_LOCK.

#[global] Instance Code_eq_dec : EqDecision Code.
Proof. solve_decision. Defined.

(** What a call that does not return throws. [OrmError] is the client's own
    error, [JsError] a plain [Error] (what [present] and unreachable branches
    throw), [JsTypeError] an error of the JavaScript runtime, and [OutOfFuel]
    marks a recursion whose fuel ended, which no real run has. *)
Inductive err :=
  | OrmError (code : Code) (message : string)
  | JsError (message : string)
  | JsTypeError
  | OutOfFuel.

#[global] Instance err_eq_dec : EqDecision err.
Proof. solve_decision. Defined.

Inductive res (A : Type) :=
  | Ok (a : A)
  | Err (e : err).
Arguments Ok {A} a.
Arguments Err {A} e.

#[global] Instance res_eq_dec {A} `{EqDecision A} : EqDecision (res A).
Proof. solve_decision. Defined.

#[global] Instance res_ret : MRet res := fun A a => Ok a.
#[global] Instance res_bind : MBind res := fun A B k m =>
  match m with Ok a => k a | Err e => Err e end.

(** Computations over a mutable object: the state after a throw is never read
    (no caller of the modelled code catches), so only a result carries it. *)
Definition M (S A : Type) := S -> res (A * S).

#[global] Instance M_ret {S} : MRet (M S) := fun A a s => Ok (a, s).
#[global] Instance M_bind {S} : MBind (M S) := fun A B k m s =>
  match m s with Ok (a, s') => k a s' | Err e => Err e end.

Definition fail {S A} (c : Code) (msg : string) : M S A := fun _ => Err (OrmError c msg).
Definition throw {S A} (e : err) : M S A := fun _ => Err e.
Definition lift {S A} (r : res A) : M S A := fun s =>
  match r with Ok a => Ok (a, s) | Err e => Err e end.
Definition get {S} : M S S := fun s => Ok (s, s).
Definition modify {S} (f : S -> S) : M S unit := fun s => Ok (tt, f s).

(** [if (b) fail(code, message)] *)
Definition fail_if (b : bool) (c : Code) (msg : string) : res unit :=
  if b then Err (OrmError c msg) else Ok tt.

(** [value ?? fail(code, message)] *)
Definition or_fail {A} (o : option A) (c : Code) (msg : string) : res A :=
  match o with Some a => Ok a | None => Err (OrmError c msg) end.

(** [present(value, what)] of [present.ts]. *)
Definition present {A} (value : option A) (what : string) : res A :=
  match value with Some a => Ok a | None => Err (JsError (what +:+ " is missing")) end.

(** Loops: [for ... of] with a throwing body, and [map] of a throwing
    function. They are sections so that a recursive function may pass itself. *)
Section loops.
Context {S A B : Type}.

Section map_state.
Variable f : A -> M S B.
Fixpoint mapS (l : list A) : M S (list B) :=
  match l with
  | [] => mret []
  | x :: l => y ← f x; ys ← mapS l; mret (y :: ys)
  end.
Definition optS (o : option A) : M S (option B) :=
  match o with None => mret None | Some x => y ← f x; mret (Some y) end.
End map_state.

Section map_result.
Variable f : A -> res B.
Fixpoint mapR (l : list A) : res (list B) :=
  match l with
  | [] => mret []
  | x :: l => y ← f x; ys ← mapR l; mret (y :: ys)
  end.
End map_result.

Section iter_result.
Variable f : A -> res unit.
Fixpoint iterR (l : list A) : res unit :=
  match l with
  | [] => mret tt
  | x :: l => f x;; iterR l
  end.
End iter_result.

(** A loop that carries a value from one turn to the next. *)
Section fold_result.
Variable f : B -> A -> res B.
Fixpoint foldR (b : B) (l : list A) : res B :=
  match l with
  | [] => mret b
  | x :: l => b' ← f b x; foldR b' l
  end.
End fold_result.

Section fold_state.
Variable f : B -> A -> M S B.
Fixpoint foldS (b : B) (l : list A) : M S B :=
  match l with
  | [] => mret b
  | x :: l => b' ← f b x; foldS b' l
  end.
End fold_state.
End loops.

Section index_loops.
Context {A : Type}.

(** [forEach((x, i) => ...)] *)
Section iteri.
Variable f : nat -> A -> res unit.
Fixpoint iteriR (i : nat) (l : list A) : res unit :=
  match l with
  | [] => mret tt
  | x :: l => f i x;; iteriR (S i) l
  end.
End iteri.
End index_loops.

(** ** Text *)

(** A template literal: the concatenation of its pieces. *)
Fixpoint str (l : list string) : string :=
  match l with [] => "" | s :: l => s +:+ str l end.

(** The double quote character, which a string literal here does not hold. *)
Definition dq : string := String (Ascii.ascii_of_nat 34) "".
Definition dqc : ascii := Ascii.ascii_of_nat 34.

(** [Array.prototype.join] *)
Fixpoint join (sep : string) (l : list string) : string :=
  match l with
  | [] => ""
  | s :: l => match l with [] => s | _ => s +:+ sep +:+ join sep l end
  end.

(** [String.prototype.split] at a one-character separator: never empty. *)
Fixpoint split_on (c : ascii) (s : string) : list string :=
  match s with
  | EmptyString => [""]
  | String a s =>
      if decide (a = c) then "" :: split_on c s
      else match split_on c s with
           | [] => [String a ""]
           | p :: ps => String a p :: ps
           end
  end.

(** [replaceAll] of a one-character text. *)
Fixpoint replace_all (c : ascii) (by_ : string) (s : string) : string :=
  match s with
  | EmptyString => ""
  | String a s => (if decide (a = c) then by_ else String a "") +:+ replace_all c by_ s
  end.

Fixpoint repeat_str (s : string) (n : nat) : string :=
  match n with O => "" | S n => s +:+ repeat_str s n end.

Fixpoint starts_with (p s : string) : bool :=
  match p, s with
  | EmptyString, _ => true
  | String a p, String b s => bool_decide (a = b) && starts_with p s
  | _, _ => false
  end.

Fixpoint ends_with (p s : string) : bool :=
  bool_decide (p = s) || match s with EmptyString => false | String _ s => ends_with p s end.

Fixpoint has_char (c : ascii) (s : string) : bool :=
  match s with EmptyString => false | String a s => bool_decide (a = c) || has_char c s end.

Fixpoint map_str (f : ascii -> ascii) (s : string) : string :=
  match s with EmptyString => "" | String a s => String (f a) (map_str f s) end.

Definition is_upper (a : ascii) : bool := (65 <=? N_of_ascii a)%N && (N_of_ascii a <=? 90)%N.
Definition is_lower (a : ascii) : bool := (97 <=? N_of_ascii a)%N && (N_of_ascii a <=? 122)%N.
Definition is_digit (a : ascii) : bool := (48 <=? N_of_ascii a)%N && (N_of_ascii a <=? 57)%N.
Definition upper (a : ascii) : ascii := if is_lower a then ascii_of_N (N_of_ascii a - 32) else a.
Definition lower (a : ascii) : ascii := if is_upper a then ascii_of_N (N_of_ascii a + 32) else a.
Definition toUpperCase : string -> string := map_str upper.
Definition toLowerCase : string -> string := map_str lower.

(** [list.includes(x)] *)
Definition includes {A} `{EqDecision A} (x : A) (l : list A) : bool := bool_decide (x ∈ l).

(** [Number.isSafeInteger] of an integer. *)
Definition isSafeInteger (z : Z) : bool := (Z.abs z <=? 2 ^ 53 - 1).

(** ** JavaScript maps and records, in insertion order *)

Section assoc.
Context {V : Type}.

(** [map.get(key)] *)
Fixpoint assoc (k : string) (l : list (string * V)) : option V :=
  match l with
  | [] => None
  | (k', v) :: l => if decide (k = k') then Some v else assoc k l
  end.

(** [map.set(key, value)]: a present key keeps its place. *)
Fixpoint assoc_set (k : string) (v : V) (l : list (string * V)) : list (string * V) :=
  match l with
  | [] => [(k, v)]
  | (k', v') :: l => if decide (k = k') then (k', v) :: l else (k', v') :: assoc_set k v l
  end.
End assoc.

(** [set.add(x)] *)
Definition set_add {A} `{EqDecision A} (x : A) (l : list A) : list A :=
  if decide (x ∈ l) then l else l ++ [x].

(** ** Sorting by a text key: the stable sort of [Array.prototype.sort] *)

Section sort.
Context {A : Type} (key : A -> string).

Fixpoint insert_by (x : A) (l : list A) : list A :=
  match l with
  | [] => [x]
  | y :: l' => if String.leb (key x) (key y) then x :: y :: l' else y :: insert_by x l'
  end.

Fixpoint sort_by (l : list A) : list A :=
  match l with [] => [] | x :: l => insert_by x (sort_by l) end.
End sort.

(** ** Reasoning about computations *)

Lemma bindR_ok {A B} (m : res A) (k : A -> res B) b :
  (m ≫= k) = Ok b <-> exists a, m = Ok a /\ k a = Ok b.
Proof. destruct m; simpl; split; [eauto|naive_solver|done|naive_solver]. Qed.

Lemma bindM_ok {S A B} (m : M S A) (k : A -> M S B) s b s' :
  (m ≫= k) s = Ok (b, s') <-> exists a s1, m s = Ok (a, s1) /\ k a s1 = Ok (b, s').
Proof.
  unfold mbind, M_bind. destruct (m s) as [[a s1]|e]; split; [eauto|naive_solver|done|naive_solver].
Qed.

Lemma bindM_step {S A B} (m : M S A) (k : A -> M S B) s a s1 :
  m s = Ok (a, s1) -> (m ≫= k) s = k a s1.
Proof. unfold mbind, M_bind. by intros ->. Qed.

Lemma retM_ok {S A} (a b : A) (s s' : S) : (mret a : M S A) s = Ok (b, s') <-> a = b /\ s = s'.
Proof. unfold mret, M_ret. naive_solver. Qed.

Lemma liftM_ok {S A} (r : res A) (a : A) (s s' : S) : lift r s = Ok (a, s') <-> r = Ok a /\ s = s'.
Proof. unfold lift. destruct r; naive_solver. Qed.

Lemma optS_ok {S A B} (f : A -> M S B) o r s s' :
  optS f o s = Ok (r, s') <->
  match o with
  | None => r = None /\ s = s'
  | Some a => exists b, r = Some b /\ f a s = Ok (b, s')
  end.
Proof.
  destruct o; simpl; [|rewrite retM_ok; naive_solver].
  rewrite bindM_ok. setoid_rewrite retM_ok. naive_solver.
Qed.

Lemma fail_if_ok b c msg : fail_if b c msg = Ok tt <-> b = false.
Proof. destruct b; naive_solver. Qed.

Lemma or_fail_ok {A} (o : option A) c msg a : or_fail o c msg = Ok a <-> o = Some a.
Proof. destruct o; naive_solver. Qed.

Lemma present_ok {A} (o : option A) msg a : present o msg = Ok a <-> o = Some a.
Proof. destruct o; naive_solver. Qed.

(** Splits a successful run into the successful runs of its parts. *)
Ltac ok_step :=
  match goal with
  | H : mbind _ _ _ = Ok _ |- _ => apply bindM_ok in H as (?a & ?s & ? & ?)
  | H : mbind _ _ = Ok _ |- _ => apply bindR_ok in H as (?a & ? & ?)
  | H : mret _ _ = Ok _ |- _ => apply retM_ok in H as [? ?]
  | H : mret _ = Ok _ |- _ => unfold mret, res_ret in H
  | H : lift _ _ = Ok _ |- _ => apply liftM_ok in H as [? ?]
  | H : fail_if _ _ _ = Ok ?u |- _ => try destruct u; apply fail_if_ok in H
  | H : or_fail _ _ _ = Ok _ |- _ => apply or_fail_ok in H
  | H : present _ _ = Ok _ |- _ => apply present_ok in H
  | H : fail _ _ _ = Ok _ |- _ => discriminate H
  | H : throw _ _ = Ok _ |- _ => discriminate H
  | H : Err _ = Ok _ |- _ => discriminate H
  | H : Ok _ = Ok _ |- _ => injection H as H; subst
  | u : unit |- _ => destruct u
  end.
Ltac ok_inv := repeat (ok_step; simplify_eq/=).

(** ** Loop invariants *)

Lemma foldS_inv {S A B} (P : B -> S -> Prop) (f : B -> A -> M S B) l :
  (forall acc x s y s', x ∈ l -> P acc s -> f acc x s = Ok (y, s') -> P y s') ->
  forall acc s y s', P acc s -> foldS f acc l s = Ok (y, s') -> P y s'.
Proof.
  induction l as [|x l IH]; simpl; intros Hf acc s y s' Ha H; ok_inv; [done|].
  eapply IH; [|eapply Hf; [left|done..]|done]. intros. eapply Hf; [by right|done..].
Qed.

Lemma mapS_inv {S A B} (P : S -> Prop) (f : A -> M S B) l :
  (forall x s y s', x ∈ l -> P s -> f x s = Ok (y, s') -> P s') ->
  forall s r s', P s -> mapS f l s = Ok (r, s') -> P s'.
Proof.
  induction l as [|x l IH]; simpl; intros Hf s r s' Hs H; ok_inv; [done|].
  eapply IH; [|eapply Hf; [left|done..]|done]. intros. eapply Hf; [by right|done..].
Qed.

Lemma foldR_inv {A B} (P : B -> Prop) (f : B -> A -> res B) l :
  (forall acc x y, x ∈ l -> P acc -> f acc x = Ok y -> P y) ->
  forall acc y, P acc -> foldR f acc l = Ok y -> P y.
Proof.
  induction l as [|x l IH]; simpl; intros Hf acc y Ha H; ok_inv; [done|].
  eapply IH; [|eapply Hf; [left|done..]|done]. intros. eapply Hf; [by right|done..].
Qed.

Lemma mapR_Forall {A B} (P : B -> Prop) (f : A -> res B) l r :
  (forall a b, f a = Ok b -> P b) -> mapR f l = Ok r -> Forall P r.
Proof. intros Hf. revert r. induction l as [|x l IH]; simpl; intros r H; ok_inv; constructor; eauto. Qed.

Lemma mapR_length {A B} (f : A -> res B) l r : mapR f l = Ok r -> length r = length l.
Proof. revert r. induction l as [|x l IH]; simpl; intros r H; ok_inv; [done|]. simpl. f_equal. eauto. Qed.

Lemma iterR_ok {A} (f : A -> res unit) l : iterR f l = Ok tt <-> forall x, x ∈ l -> f x = Ok tt.
Proof.
  induction l as [|x l IH]; simpl; [split; [intros _ ? []%elem_of_nil|done]|]. rewrite bindR_ok. split.
  - intros ([] & Hx & Hl) y [->|Hy]%elem_of_cons; [done|]. by apply IH.
  - intros Hf. exists tt. split; [apply Hf; left|]. apply IH. intros. apply Hf. by right.
Qed.

Lemma elem_of_concat {A} (x : A) ls : x ∈ concat ls <-> exists l, x ∈ l /\ l ∈ ls.
Proof. rewrite list_elem_of_In, in_concat. setoid_rewrite list_elem_of_In. naive_solver. Qed.

(** ** Maps in insertion order *)

Lemma set_add_elem {A} `{EqDecision A} (x y : A) l : x ∈ set_add y l <-> x = y \/ x ∈ l.
Proof.
  unfold set_add. destruct (decide (y ∈ l)); [split; [auto|intros [->|]; done]|]. rewrite elem_of_app, list_elem_of_singleton. tauto.
Qed.

Lemma set_add_NoDup {A} `{EqDecision A} (x : A) l : NoDup l -> NoDup (set_add x l).
Proof.
  intros Hn. unfold set_add. destruct (decide (x ∈ l)) as [|Hx]; [done|]. apply NoDup_app. split; [done|]. split; [|apply NoDup_singleton].
  intros y Hy ->%list_elem_of_singleton. done.
Qed.

Lemma foldl_set_add {A} `{EqDecision A} (l acc : list A) x : x ∈ foldl (fun l x => set_add x l) acc l <-> x ∈ acc \/ x ∈ l.
Proof.
  revert acc. induction l as [|y l IH]; intros acc; cbn; [rewrite elem_of_nil; tauto|]. rewrite IH, set_add_elem, elem_of_cons. tauto.
Qed.

Lemma foldl_set_add_NoDup {A} `{EqDecision A} (l acc : list A) : NoDup acc -> NoDup (foldl (fun l x => set_add x l) acc l).
Proof. revert acc. induction l as [|y l IH]; intros acc Hn; [done|]. apply IH. by apply set_add_NoDup. Qed.

Lemma assoc_set_get {V} k k' (v : V) l : assoc k (assoc_set k' v l) = if decide (k = k') then Some v else assoc k l.
Proof.
  induction l as [|[k1 v1] l IH]; simpl.
  - destruct (decide (k = k')); done.
  - destruct (decide (k' = k1)) as [->|Hn]; simpl; [by destruct (decide (k = k1))|].
    destruct (decide (k = k1)) as [->|Hn']; [|done]. by rewrite decide_False.
Qed.

Lemma assoc_set_new {V} k (v : V) l : assoc k l = None -> assoc_set k v l = l ++ [(k, v)].
Proof. induction l as [|[k1 v1] l IH]; simpl; [done|]. destruct (decide (k = k1)); [done|]. intros. by rewrite IH. Qed.

Lemma assoc_app {V} (l k : list (string * V)) n : assoc n (l ++ k) = match assoc n l with Some x => Some x | None => assoc n k end.
Proof. induction l as [|[m x] l IH]; [done|]. cbn. by case_decide. Qed.

Lemma assoc_None {V} k (l : list (string * V)) : assoc k l = None <-> k ∉ map fst l.
Proof.
  induction l as [|[k1 v1] l IH]; simpl; [rewrite elem_of_nil; naive_solver|]. rewrite elem_of_cons. destruct (decide (k = k1)); naive_solver.
Qed.

Lemma assoc_in {V} k (v : V) l : NoDup (map fst l) -> assoc k l = Some v <-> (k, v) ∈ l.
Proof.
  induction l as [|[k1 v1] l IH]; simpl; [rewrite elem_of_nil; naive_solver|]. intros [Hn Hd]%NoDup_cons. rewrite elem_of_cons.
  destruct (decide (k = k1)) as [->|Hne]; [|naive_solver]. split; [naive_solver|]. intros [[= ->]|Hin]; [done|].
  destruct Hn. apply list_elem_of_fmap. by exists (k1, v).
Qed.

(** ** Texts *)

Lemma string_app_cons a s t : String a s +:+ t = String a (s +:+ t).
Proof. done. Qed.

Lemma string_app_assoc (a b c : string) : (a +:+ b) +:+ c = a +:+ b +:+ c.
Proof. induction a as [|x a IH]; [done|]. rewrite !string_app_cons. by rewrite IH. Qed.

Lemma string_app_nil_r (a : string) : a +:+ "" = a.
Proof. induction a as [|x a IH]; [done|]. rewrite string_app_cons. by rewrite IH. Qed.

Lemma string_length_app (s t : string) : String.length (s +:+ t) = (String.length s + String.length t)%nat.
Proof. induction s as [|a s IH]; [done|]. rewrite string_app_cons. simpl. by rewrite IH. Qed.

Lemma split_on_ne c s : split_on c s <> [].
Proof. destruct s; simpl; [done|]. by repeat case_match. Qed.

Lemma join_split c s : join (String c "") (split_on c s) = s.
Proof.
  induction s as [|a s IH]; [done|]. simpl. destruct (split_on c s) as [|p ps] eqn:E; [by destruct s; simpl in E; repeat case_match|].
  destruct (decide (a = c)) as [->|Hn]; simpl.
  - change ("" +:+ ?x) with x. rewrite string_app_cons. by rewrite <- IH.
  - rewrite <- IH. by destruct ps.
Qed.

Lemma str_app l k : str (l ++ k) = str l +:+ str k.
Proof. induction l as [|s l IH]; simpl; [done|]. by rewrite IH, string_app_assoc. Qed.

(** ** Sorting by a text key *)

Section sort_facts.
Context {A : Type} (key : A -> string).

Lemma insert_by_perm x l : insert_by key x l ≡ₚ x :: l.
Proof.
  induction l as [|y l IH]; simpl; [done|].
  destruct (String.leb (key x) (key y)); [done|]. rewrite IH. constructor.
Qed.

Lemma sort_by_perm l : sort_by key l ≡ₚ l.
Proof. induction l as [|x l IH]; simpl; [done|]. by rewrite insert_by_perm, IH. Qed.

Lemma elem_of_sort_by x l : x ∈ sort_by key l <-> x ∈ l.
Proof. by rewrite sort_by_perm. Qed.

Lemma insert_by_sorted x l :
  Sorted String.le (map key l) -> Sorted String.le (map key (insert_by key x l)).
Proof.
  induction l as [|y l IH]; simpl; intros Hs; [by repeat constructor|].
  destruct (String.leb (key x) (key y)) eqn:E; simpl.
  { constructor; [done|]. constructor. unfold String.le. by rewrite E. }
  inversion Hs as [|?? Hs' Hhd]; subst. constructor; [auto|].
  destruct l as [|z l]; simpl in *.
  { constructor. destruct (String.leb_total (key x) (key y)) as [E'|E']; [congruence|].
    unfold String.le. by rewrite E'. }
  destruct (String.leb (key x) (key z)); simpl; [|by inversion Hhd; constructor].
  constructor. destruct (String.leb_total (key x) (key y)) as [E'|E']; [congruence|].
  unfold String.le. by rewrite E'.
Qed.

Lemma sort_by_sorted l : Sorted String.le (map key (sort_by key l)).
Proof. induction l as [|x l IH]; simpl; [constructor|]. by apply insert_by_sorted. Qed.

Lemma sort_by_id l : Sorted String.le (map key l) -> sort_by key l = l.
Proof.
  induction l as [|x l IH]; simpl; [done|]. intros Hs. inversion Hs as [|?? Hs' Hhd]; subst.
  rewrite IH by done. destruct l as [|y l]; simpl; [done|].
  inversion Hhd as [|?? Hle]; subst. unfold String.le in Hle. apply Is_true_true in Hle. by rewrite Hle.
Qed.
End sort_facts.

Lemma insert_by_map {A B} (ka : A -> string) (kb : B -> string) (f : A -> B) x l :
  (forall a, kb (f a) = ka a) -> insert_by kb (f x) (map f l) = map f (insert_by ka x l).
Proof.
  intros Hk. induction l as [|y l IH]; simpl; [done|]. rewrite !Hk.
  destruct (String.leb (ka x) (ka y)); simpl; [done|]. by rewrite IH.
Qed.

Lemma sort_by_map {A B} (ka : A -> string) (kb : B -> string) (f : A -> B) l :
  (forall a, kb (f a) = ka a) -> sort_by kb (map f l) = map f (sort_by ka l).
Proof.
  intros Hk. induction l as [|x l IH]; simpl; [done|]. rewrite IH. by apply insert_by_map.
Qed.

(** ** Lockstep simulation of two computations with the same result *)

Section sim.
Context {S1 S2 : Type} (R : S1 -> S2 -> Prop).

Definition sim {A} (m1 : M S1 A) (m2 : M S2 A) : Prop := forall s1 s2 a s1',
  R s1 s2 -> m1 s1 = Ok (a, s1') -> exists s2', m2 s2 = Ok (a, s2') /\ R s1' s2'.

Lemma sim_ret {A} (a : A) : sim (mret a) (mret a).
Proof. intros ???? ? [-> ->]%retM_ok. eexists. split; [done|done]. Qed.

Lemma sim_bind {A B} (m1 : M S1 A) (m2 : M S2 A) (k1 : A -> M S1 B) (k2 : A -> M S2 B) :
  sim m1 m2 -> (forall a, sim (k1 a) (k2 a)) -> sim (m1 ≫= k1) (m2 ≫= k2).
Proof.
  intros Hm Hk s1 s2 b s1' HR (a & t1 & H1 & H2)%bindM_ok.
  destruct (Hm _ _ _ _ HR H1) as (t2 & E & HR'). destruct (Hk _ _ _ _ _ HR' H2) as (s2' & E' & ?).
  exists s2'. split; [|done]. apply bindM_ok. eauto.
Qed.

Lemma sim_fail {A} c msg (m2 : M S2 A) : sim (fail c msg) m2.
Proof. intros ???? _. discriminate. Qed.

Lemma sim_optS {A A' B} (f1 : A -> M S1 B) (f2 : A' -> M S2 B) (g : A -> A') o :
  (forall a, o = Some a -> sim (f1 a) (f2 (g a))) -> sim (optS f1 o) (optS f2 (g <$> o)).
Proof.
  destruct o as [a|]; simpl; intros H; [|apply sim_ret].
  apply sim_bind; [by apply H|]. intros. apply sim_ret.
Qed.

Lemma sim_mapS {A A' B} (f1 : A -> M S1 B) (f2 : A' -> M S2 B) (g : A -> A') l :
  (forall a, a ∈ l -> sim (f1 a) (f2 (g a))) -> sim (mapS f1 l) (mapS f2 (map g l)).
Proof.
  induction l as [|x l IH]; simpl; intros H; [apply sim_ret|].
  apply sim_bind; [apply H; left|]. intros b. apply sim_bind; [apply IH; intros; apply H; by right|].
  intros. apply sim_ret.
Qed.
End sim.

(** A second run over what a first run returned gives it back unchanged.  [Fut]
    says what the first run still reaches: it holds of a state when it holds of
    a later one. *)
Section refix.
Context {S1 S2 : Type} (R : S1 -> S2 -> Prop) (Fut : S1 -> Prop).

Definition refix {A} (m : M S1 A) (k : A -> M S2 A) : Prop := forall s1 a s1',
  m s1 = Ok (a, s1') -> Fut s1' ->
  Fut s1 /\ forall s2, R s1 s2 -> exists s2', k a s2 = Ok (a, s2') /\ R s1' s2'.

Lemma refix_optS {A} (f1 : A -> M S1 A) (f2 : A -> M S2 A) o :
  (forall a, o = Some a -> refix (f1 a) f2) -> refix (optS f1 o) (optS f2).
Proof.
  intros H s1 r s1' Ho HF. rewrite optS_ok in Ho. destruct o as [a|].
  - destruct Ho as (b & -> & Ho). edestruct H as (HF' & K); [done..|]. split; [done|].
    intros s2 HR. destruct (K s2 HR) as (s2' & E & ?). exists s2'. split; [|done]. apply optS_ok. eauto.
  - destruct Ho as [-> ->]. split; [done|]. intros s2 HR. exists s2. split; [by apply optS_ok|done].
Qed.

Lemma refix_mapS {A} (f1 : A -> M S1 A) (f2 : A -> M S2 A) l :
  (forall a, a ∈ l -> refix (f1 a) f2) -> refix (mapS f1 l) (mapS f2).
Proof.
  induction l as [|x l IH]; intros H s1 r s1'; simpl.
  { intros [<- <-]%retM_ok ?. split; [done|]. intros s2 ?. exists s2. by split. }
  intros (y & t1 & Hy & (ys & t1' & Hys & [<- <-]%retM_ok)%bindM_ok)%bindM_ok HF.
  edestruct IH as (HF1 & K1); [by intros; apply H; right|done..|].
  edestruct (H x) as (HF2 & K2); [by left|done..|]. split; [done|]. intros s2 HR.
  destruct (K2 s2 HR) as (t2 & Ey & HR'). destruct (K1 t2 HR') as (t2' & Eys & HR'').
  exists t2'. split; [|done]. simpl. rewrite (bindM_step _ _ _ _ _ Ey), (bindM_step _ _ _ _ _ Eys). done.
Qed.
End refix.
