(* ===== verification/Ir.v ===== *)
(** * The request and plan types of [ir.ts]

    A request is value-free: it names parameters by index.  A member that the
    source declares optional is an [option]; an optional boolean, which the
    source only tests for truth, is a [bool] ([false] when absent).  A
    JavaScript record used as a map is a list of entries in property order.
    Numbers are integers ([Z]): the shape check admits no other. *)

From S2P Require Import Prelude.

(** ** Requests *)

Record OrmFunction := mkFunction { fn_name : string; fn_ps : option (list Z) }.
Record ColumnFunctionIR := mkColumnFunction { cf_column : string; cf_fn : OrmFunction }.
Record JoinedReference := mkJoined { jr_conn : option string; jr_join : string }.
(** A path that is absent is the root of the statement. *)
Record ColumnReferenceIR := mkRef { ref_path : option string; ref_column : string }.
Record Order := mkOrder { o_column : option string; o_desc : bool; o_random : bool; o_fn : option OrmFunction }.
(** A page is written in place or names two parameters, never both. *)
Inductive Limit :=
  | LimitValues (offset count : Z)
  | LimitParams (offset_p count_p : Z).
Record IfParent := mkIfParent { ip_column : string; ip_p : Z }.
Record Assignment := mkAssignment {
  a_column : string; a_p : option Z; a_null : bool; a_plus_p : option Z; a_minus_p : option Z }.
Record Optimistic := mkOptimistic { opt_column : string; opt_p : Z }.
(** The parent column [kp_left] and the child column [kp_right] are equal. *)
Record KeyPair := mkKeyPair { kp_left : string; kp_right : string }.

Inductive RequestQuery : Set := mkQuery {
  q_entity : string;
  q_columns : option Projection;
  q_on : option Group;
  q_where : option Group;
  q_joins : option (list Join);
  q_relations : option (list Relation);
  q_order : option (list Order);
  q_group_by : option (list string);
  q_limit : option Limit;
  q_force_index : option string;
  q_lock : option string;
  q_key_by : option string;
  q_flatten : bool;
  q_limit_per_parent : option Z;
  q_if_parent : option IfParent;
  q_no_cascade_delete : bool }
with Group : Set := mkGroup { g_conn : option string; g_not : bool; g_items : list Item }
with Item : Set := mkItem { i_pred : option Predicate; i_group : option Group; i_joined : option JoinedReference }
with Predicate : Set := mkPred {
  p_conn : option string;
  p_column : option string;
  p_op : option string;
  p_p : option Z;
  p_ps : option (list Z);
  p_ref : option ColumnReferenceIR;
  p_fn : option OrmFunction;
  p_value : option OrmFunction;
  p_cols : option (list string);
  p_sub : option Subquery }
with Subquery : Set := mkSubquery { sq_query : RequestQuery; sq_column : option string; sq_agg : option string }
with Projection : Set := mkProjection {
  c_mode : option string;
  c_add : option (list string);
  c_remove : option (list string);
  c_fn : option (list (string * ColumnFunctionIR));
  c_sub : option (list (string * Subquery)) }
with Relation : Set := mkRelation {
  r_rel : string; r_query : RequestQuery; r_kind : option string; r_keys : option (list KeyPair) }
with Join : Set := mkJoin {
  j_rel : string; j_kind : string; j_query : RequestQuery; j_left : option string; j_right : option string }.

Record Request := mkRequest {
  rq_query : RequestQuery;
  rq_ir_version : Z;
  rq_manifest_hash : string;
  rq_kind : string;
  rq_load : bool;
  rq_set : option (list Assignment);
  rq_on_duplicate : option (list Assignment);
  rq_rows : option (list (list Z));
  rq_optimistic : option Optimistic;
  rq_agg : option string;
  rq_n_params : Z }.

(** ** Plans *)

Record BindSlot := mkSlot {
  bs_from : string;
  bs_param : Z;
  bs_transform : string;
  bs_name : string;
  bs_step : nat;
  bs_column : string;
  bs_host_styles : list string;
  bs_col_type : string;
  bs_key_types : option (list string);
  bs_precision : option Z;
  bs_scale : option Z;
  bs_length : option Z;
  bs_not_null : bool }.

Record KeyReference := mkKeyRef { kr_column : string; kr_index : nat }.
Record PlanIfParent := mkPlanIfParent { pip_column : string; pip_index : nat; pip_param : Z }.
Record ParentReference := mkParentRef {
  pr_step : nat; pr_keys : list KeyReference; pr_if_parent : option PlanIfParent }.
Record OutputColumn := mkOutput {
  oc_index : nat; oc_name : string; oc_column : string; oc_type : string;
  oc_styles : list string; oc_hidden : bool }.

Inductive Assemble := mkAssemble {
  as_entity : string;
  as_alias : string;
  as_columns : list OutputColumn;
  as_children : list Child;
  as_key : list KeyReference;
  as_aes_version : option nat }
with Child : Set := mkChild {
  ch_rel : string;
  ch_kind : string;
  ch_step : nat;
  ch_parent_keys : list KeyReference;
  ch_child_keys : list KeyReference;
  ch_key : list KeyReference;
  ch_flatten : bool;
  ch_cascade : bool;
  ch_assemble : option Assemble }.

Record PlanStep := mkStep {
  st_id : nat;
  st_role : string;
  st_sql : string;
  st_tables : list string;
  st_lock : option string;
  st_bind_slots : list BindSlot;
  st_assemble : option Assemble;
  st_parent : option ParentReference }.

Record Plan := mkPlan { pl_manifest_hash : string; pl_kind : string; pl_steps : list PlanStep }.

(** ** Sizes: the measure of recursions over a request *)

Section sizes.
Context {A : Type} (f : A -> nat).
Definition opt_size (o : option A) : nat := match o with Some a => f a | None => 0%nat end.
Fixpoint list_size (l : list A) : nat :=
  match l with [] => 0%nat | x :: l => (f x + list_size l)%nat end.
End sizes.

Fixpoint query_size (q : RequestQuery) : nat :=
  (1 + opt_size projection_size (q_columns q) + opt_size group_size (q_on q) + opt_size group_size (q_where q)
   + opt_size (list_size join_size) (q_joins q) + opt_size (list_size relation_size) (q_relations q))%nat
with group_size (g : Group) : nat := (1 + list_size item_size (g_items g))%nat
with item_size (i : Item) : nat :=
  (1 + opt_size pred_size (i_pred i) + opt_size group_size (i_group i))%nat
with pred_size (p : Predicate) : nat := (1 + opt_size sub_size (p_sub p))%nat
with sub_size (s : Subquery) : nat := (1 + query_size (sq_query s))%nat
with projection_size (c : Projection) : nat :=
  (1 + opt_size (list_size (fun e => sub_size (snd e))) (c_sub c))%nat
with relation_size (r : Relation) : nat := (1 + query_size (r_query r))%nat
with join_size (j : Join) : nat := (1 + query_size (j_query j))%nat.

Lemma list_size_in {A} (f : A -> nat) x l : x ∈ l -> (f x <= list_size f l)%nat.
Proof. induction 1; simpl; lia. Qed.

(** ** Induction over requests

    The eight types of a request query are mutual and nested in lists; the
    scheme below gives each its own predicate. *)

Section request_induction.
Variables (PQ : RequestQuery -> Prop) (PC : Projection -> Prop) (PG : Group -> Prop) (PI : Item -> Prop)
  (PP : Predicate -> Prop) (PS : Subquery -> Prop) (PR : Relation -> Prop) (PJ : Join -> Prop).
Hypothesis HQ : forall q,
  (forall c, q_columns q = Some c -> PC c) -> (forall g, q_on q = Some g -> PG g) ->
  (forall g, q_where q = Some g -> PG g) -> (forall l j, q_joins q = Some l -> j ∈ l -> PJ j) ->
  (forall l r, q_relations q = Some l -> r ∈ l -> PR r) -> PQ q.
Hypothesis HC : forall c, (forall l e, c_sub c = Some l -> e ∈ l -> PS (snd e)) -> PC c.
Hypothesis HG : forall g, (forall i, i ∈ g_items g -> PI i) -> PG g.
Hypothesis HI : forall i,
  (forall p, i_pred i = Some p -> PP p) -> (forall g, i_group i = Some g -> PG g) -> PI i.
Hypothesis HP : forall p, (forall s, p_sub p = Some s -> PS s) -> PP p.
Hypothesis HS : forall s, PQ (sq_query s) -> PS s.
Hypothesis HR : forall r, PQ (r_query r) -> PR r.
Hypothesis HJ : forall j, PQ (j_query j) -> PJ j.

Lemma request_mut_ind :
  (forall q, PQ q) /\ (forall c, PC c) /\ (forall g, PG g) /\ (forall i, PI i) /\
  (forall p, PP p) /\ (forall s, PS s) /\ (forall r, PR r) /\ (forall j, PJ j).
Proof.
  assert (forall n : nat,
    (forall q, (query_size q < n)%nat -> PQ q) /\ (forall c, (projection_size c < n)%nat -> PC c) /\
    (forall g, (group_size g < n)%nat -> PG g) /\ (forall i, (item_size i < n)%nat -> PI i) /\
    (forall p, (pred_size p < n)%nat -> PP p) /\ (forall s, (sub_size s < n)%nat -> PS s) /\
    (forall r, (relation_size r < n)%nat -> PR r) /\ (forall j, (join_size j < n)%nat -> PJ j)) as Hall.
  { induction n as [|n (Q & C & G & I & P & S' & R & J)]; [repeat split; intros; lia|].
    repeat split.
    - intros [] Hn; simpl in Hn; apply HQ; simpl; intros; subst; simpl in Hn.
      + apply C; lia. + apply G; lia. + apply G; lia.
      + pose proof (list_size_in join_size j l H0). apply J; lia.
      + pose proof (list_size_in relation_size r l H0). apply R; lia.
    - intros [] Hn; simpl in Hn; apply HC; simpl; intros; subst; simpl in Hn.
      pose proof (list_size_in (fun e => sub_size (snd e)) e l H0). apply S'; simpl in *; lia.
    - intros [] Hn; simpl in Hn; apply HG; simpl; intros.
      pose proof (list_size_in item_size i _ H). apply I; lia.
    - intros [] Hn; simpl in Hn; apply HI; simpl; intros; subst; simpl in Hn; [apply P|apply G]; lia.
    - intros [] Hn; simpl in Hn; apply HP; simpl; intros; subst; simpl in Hn; apply S'; lia.
    - intros [] Hn; simpl in Hn; apply HS; simpl; apply Q; lia.
    - intros [] Hn; simpl in Hn; apply HR; simpl; apply Q; lia.
    - intros [] Hn; simpl in Hn; apply HJ; simpl; apply Q; lia. }
  split_and!; intros x; eapply (Hall (S _)); apply Nat.lt_succ_diag_r.
Qed.
End request_induction.
