(* ===== verification/Dialect.v ===== *)
(** * The SQL pieces of the three databases ([engine/dialect.ts])

    A [Dialect] is the record of the interface of the same name.  A member that
    the source gives a callback ([arg], [now], [value]) runs it each time it
    needs one more placeholder, so those members are computations over the
    statement builder, whatever its state [S] is. *)

From S2P Require Import Prelude.

(** ** Functions of columns and of values *)

(** Column types each column function accepts. *)
Definition columnFunctionTypes (name : string) : option (list string) :=
  if includes name ["day_of_week"; "year"; "month"; "date"] then Some ["date"; "datetime"] else None.

(** Function arguments of each column function, not counting the compared value. *)
Definition columnFunctionArity (name : string) : option nat :=
  if includes name ["day_of_week"; "year"; "month"; "date"] then Some 0%nat else None.

(** Interval unit of each relative value function. *)
Definition valueFunctionUnits : list (string * string) :=
  [("seconds_ago", "second"); ("minutes_ago", "minute"); ("hours_ago", "hour"); ("days_ago", "day");
   ("months_ago", "month"); ("seconds_later", "second"); ("minutes_later", "minute");
   ("hours_later", "hour"); ("days_later", "day"); ("months_later", "month")].

(** The largest interval of each unit inside 0001-01-01 to 9999-12-31. *)
Definition intervalBounds : list (string * string) :=
  [("second", "315537897600"); ("minute", "5258964960"); ("hour", "87649416"); ("day", "3652059");
   ("month", "119988")].

Definition isValueFunction (name : string) : bool :=
  bool_decide (is_Some (assoc name valueFunctionUnits)) || bool_decide (name = "now")
  || bool_decide (name = "today").

(** The names that every JavaScript object literal inherits from
    [Object.prototype]: reading one of them from a record that does not hold it
    gives a value that is not [undefined]. *)
Definition objectPrototypeNames : list string :=
  ["constructor"; "__defineGetter__"; "__defineSetter__"; "hasOwnProperty"; "__lookupGetter__";
   "__lookupSetter__"; "isPrototypeOf"; "propertyIsEnumerable"; "toString"; "valueOf"; "__proto__";
   "toLocaleString"].

(** The interval argument of a relative time function, NULL past its bound. *)
Definition guardInterval {S} (unit operandCast : string) (arg : M S string) : M S string :=
  let cast placeholder :=
    if decide (operandCast = "") then placeholder
    else str ["CAST("; placeholder; " AS "; operandCast; ")"] in
  a ← arg;
  let operand := cast a in
  let bound := default "undefined" (assoc unit intervalBounds) in
  a' ← arg;
  mret (str ["CASE WHEN "; operand; " BETWEEN -"; bound; " AND "; bound; " THEN "; cast a'; " END"]).

(** A relative time value, NULL outside the years 0001 to 9999. *)
Definition guardResult {S} (value : M S string) : M S string :=
  v ← value;
  v' ← value;
  mret (str ["CASE WHEN "; v; " BETWEEN '0001-01-01 00:00:00' AND '9999-12-31 23:59:59.999999' THEN "; v'; " END"]).

(** ** The interface *)

Record Dialect := mkDialect {
  d_name : string;
  d_quote : string -> string;
  (** Placeholder for the n-th (1-based) bind. *)
  d_placeholder : nat -> string;
  d_like : string -> string -> string;
  d_limit : string -> string -> string;
  d_forceIndex : string -> string;
  d_insertReturningId : bool;
  d_upsert : list string -> string -> string;
  d_readExpr : string -> list string -> string;
  d_writeExpr : string -> list string -> string;
  d_readTime : string -> Z -> string;
  d_writeTime : string -> string;
  d_readUuid : string -> string;
  d_writeUuid : string -> string;
  d_now : Z -> string;
  d_handlesStage : string -> bool;
  d_decodesStage : string -> bool;
  d_hostNow : bool;
  d_clockOperand : string -> Z -> string;
  d_rowLock : string -> option string;
  (** No dialect reads the arguments of a column function. *)
  d_columnFunction : string -> string -> option string;
  d_valueFunction : forall S : Type, string -> M S string -> M S string -> M S (option string);
  d_containsBinary : forall S : Type, string -> (string -> M S string) -> M S string;
  d_fulltext : forall S : Type, list string -> (string -> M S string) -> bool -> M S (option string);
  d_tupleIn : list string -> list (list string) -> bool -> string;
  d_random : string;
  d_nullsOrder : bool -> string;
  d_restartIdentity : string -> string -> string }.
Arguments d_valueFunction _ {S} _ _ _.
Arguments d_containsBinary _ {S} _ _.
Arguments d_fulltext _ {S} _ _ _.

(** ** Shared pieces *)

Definition backtick : ascii := "`"%char.
Definition quot : ascii := "'"%char.
Definition dot : ascii := "."%char.

Definition quotePart (q : ascii) (part : string) : string :=
  str [String q ""; replace_all q (String q (String q "")) part; String q ""].

Definition quoteWith (q : ascii) (ident : string) : string :=
  join "." (map (quotePart q) (split_on dot ident)).

(** Quotes text as an SQL string literal. *)
Definition literal (text : string) : string :=
  str ["'"; replace_all quot "''" text; "'"].

Definition lockSuffix (mode : string) : option string :=
  if decide (mode = "update") then Some " FOR UPDATE"
  else if decide (mode = "share") then Some " FOR SHARE"
  else if decide (mode = "update_nowait") then Some " FOR UPDATE NOWAIT"
  else if decide (mode = "share_nowait") then Some " FOR SHARE NOWAIT"
  else None.

Definition tupleIn (cols : list string) (rows : list (list string)) (negate values : bool) : string :=
  let list := join ", " (map (fun row => str ["("; join ", " row; ")"]) rows) in
  let list := if values then str ["VALUES "; list] else list in
  str ["("; join ", " cols; ")"; (if negate then " NOT IN " else " IN "); "("; list; ")"].

Definition conflictUpsert (conflict : list string) (assigns : string) : string :=
  str [" ON CONFLICT ("; join ", " (map (quoteWith dqc) conflict); ") DO UPDATE SET "; assigns].

(** 26 nested REPLACE calls, one for each of A to Z with its lower case. *)
Definition asciiLower (x : string) : string :=
  str [repeat_str "REPLACE(" 26; x;
       str (map (fun c => str [", '"; String (ascii_of_nat c) ""; "', '"; String (ascii_of_nat (c + 32)) ""; "')"])
                (seq 65 26))].

Definition columnFunctionOf (table : list (string * (string -> string))) (name col : string) : option string :=
  (fun f => f col) <$> assoc name table.

(** ** MySQL: hex and ip are SQL-side *)

Definition mysql_valueFunction {S} (name : string) (arg now : M S string) : M S (option string) :=
  if decide (name = "now") then mret (Some "NOW(6)")
  else if decide (name = "today") then mret (Some "CURDATE()")
  else match assoc name valueFunctionUnits with
       | None => mret None
       | Some unit =>
           v ← guardResult (
             i ← guardInterval unit "" arg;
             mret (str [(if ends_with "_later" name then "DATE_ADD" else "DATE_SUB"); "(NOW(6), INTERVAL "; i; " ";
                        toUpperCase unit; ")"]));
           mret (Some v)
       end.

Definition mysql_fulltext {S} (cols : list string) (value : string -> M S string) (boolean : bool) : M S (option string) :=
  v ← (if boolean then v ← value "fulltext_boolean"; mret (str [v; " IN BOOLEAN MODE"])
       else v ← value ""; mret (str [v; " IN NATURAL LANGUAGE MODE"]));
  mret (Some (str ["MATCH ("; join ", " cols; ") AGAINST ("; v; ")"])).

Definition likeContains {S} (col : string) (value : string -> M S string) : M S string :=
  v ← value "like_contains"; mret (str [col; " LIKE "; v]).

Definition mysql : Dialect := {|
  d_name := "mysql";
  d_quote := quoteWith backtick;
  d_placeholder _ := "?";
  d_like col ph := str [asciiLower col; " LIKE "; asciiLower ph];
  d_limit offset count := str [" LIMIT "; offset; ", "; count];
  d_forceIndex name := str [" FORCE INDEX ("; quoteWith backtick name; ")"];
  d_insertReturningId := false;
  d_upsert _ assigns := str [" ON DUPLICATE KEY UPDATE "; assigns];
  d_readExpr col stages :=
    foldr (fun s expr => if decide (s = "ip") then str ["INET6_NTOA("; expr; ")"] else expr) col stages;
  d_writeExpr ph stages :=
    foldl (fun expr s => if decide (s = "ip") then str ["INET6_ATON("; expr; ")"] else expr) ph stages;
  d_readTime col _ := str ["CAST("; col; " AS CHAR)"];
  d_writeTime ph := ph;
  d_readUuid col := col;
  d_writeUuid ph := ph;
  d_now precision := if 0 <? precision then str ["CURRENT_TIMESTAMP("; pretty precision; ")"] else "CURRENT_TIMESTAMP";
  d_handlesStage s := bool_decide (s = "ip");
  d_decodesStage s := bool_decide (s = "ip");
  d_hostNow := false;
  d_clockOperand col _ := col;
  d_rowLock := lockSuffix;
  d_columnFunction := columnFunctionOf
    [("day_of_week", fun col => str ["DAYOFWEEK("; col; ")"]); ("year", fun col => str ["YEAR("; col; ")"]);
     ("month", fun col => str ["MONTH("; col; ")"]); ("date", fun col => str ["DATE("; col; ")"])];
  d_valueFunction S := @mysql_valueFunction S;
  d_containsBinary S := @likeContains S;
  d_fulltext S := @mysql_fulltext S;
  d_tupleIn cols rows negate := tupleIn cols rows negate false;
  d_random := "RAND()";
  d_nullsOrder _ := "";
  d_restartIdentity table _ := str ["ALTER TABLE "; quoteWith backtick table; " AUTO_INCREMENT = 1"] |}.

(** ** PostgreSQL: every codec stage is host-side *)

Definition postgresFields : list (string * string) :=
  [("second", "secs"); ("minute", "mins"); ("hour", "hours"); ("day", "days"); ("month", "months")].

Definition postgres_valueFunction {S} (name : string) (arg now : M S string) : M S (option string) :=
  if decide (name = "now") then n ← now; mret (Some (str ["CAST("; n; " AS timestamp(6))"]))
  else if decide (name = "today") then mret (Some "CURRENT_DATE")
  else match assoc name valueFunctionUnits with
       | None => mret None
       | Some unit =>
           match assoc unit postgresFields with
           | None => throw (JsError (str ["the interval unit "; unit; " has no make_interval field"]))
           | Some field =>
               let cast := if decide (field = "secs") then "double precision" else "integer" in
               let operandCast := if decide (cast = "double precision") then cast else "bigint" in
               v ← guardResult (
                 n ← now;
                 let clock := str ["CAST("; n; " AS timestamp(6))"] in
                 i ← guardInterval unit operandCast arg;
                 mret (str ["("; clock; (if ends_with "_later" name then " + " else " - "); "make_interval("; field;
                            " => CAST("; i; " AS "; cast; ")))"]));
               mret (Some v)
           end
       end.

Definition postgres_fulltext {S} (cols : list string) (value : string -> M S string) (boolean : bool) : M S (option string) :=
  v ← value "";
  mret (Some (str ["to_tsvector('simple', "; join " || ' ' || " (map (fun c => str ["coalesce("; c; ", '')"]) cols);
                   ") @@ "; (if boolean then "websearch_to_tsquery" else "plainto_tsquery"); "('simple', "; v; ")"])).

Definition postgres : Dialect := {|
  d_name := "postgres";
  d_quote := quoteWith dqc;
  d_placeholder n := str ["$"; pretty (Z.of_nat n)];
  d_like col ph := str [col; " ILIKE "; ph];
  d_limit offset count := str [" LIMIT "; count; " OFFSET "; offset];
  d_forceIndex _ := "";
  d_insertReturningId := true;
  d_upsert := conflictUpsert;
  d_readExpr col _ := col;
  d_writeExpr ph _ := ph;
  d_readTime col precision :=
    if decide (precision = 0) then str ["to_char("; col; ", 'HH24:MI:SS')"]
    else str ["substr(to_char("; col; ", 'HH24:MI:SS.US'), 1, "; pretty (9 + precision); ")"];
  d_writeTime ph := str ["CAST(CAST("; ph; " AS text) AS time)"];
  d_readUuid col := str ["CAST("; col; " AS text)"];
  d_writeUuid ph := str ["CAST(CAST("; ph; " AS text) AS uuid)"];
  d_now _ := "CURRENT_TIMESTAMP";
  d_handlesStage _ := false;
  d_decodesStage _ := false;
  d_hostNow := true;
  d_clockOperand col _ := col;
  d_rowLock := lockSuffix;
  d_columnFunction := columnFunctionOf
    [("day_of_week", fun col => str ["(EXTRACT(DOW FROM "; col; ")::int + 1)"]);
     ("year", fun col => str ["EXTRACT(YEAR FROM "; col; ")::int"]);
     ("month", fun col => str ["EXTRACT(MONTH FROM "; col; ")::int"]);
     ("date", fun col => str ["CAST("; col; " AS date)"])];
  d_valueFunction S := @postgres_valueFunction S;
  d_containsBinary S := @likeContains S;
  d_fulltext S := @postgres_fulltext S;
  d_tupleIn cols rows negate := tupleIn cols rows negate false;
  d_random := "random()";
  d_nullsOrder desc := if desc : bool then " NULLS LAST" else " NULLS FIRST";
  d_restartIdentity table column :=
    let q := quoteWith dqc column in
    str ["SELECT setval(pg_get_serial_sequence("; literal (quoteWith dqc table); ", "; literal column; "), COALESCE(MAX(";
         q; "), 0) + 1, false) FROM "; quoteWith dqc table] |}.

(** ** SQLite: every codec stage is host-side *)

Definition sqlite_valueFunction {S} (name : string) (arg now : M S string) : M S (option string) :=
  if decide (name = "now") then n ← now; mret (Some n)
  else if decide (name = "today") then n ← now; mret (Some (str ["date("; n; ")"]))
  else match assoc name valueFunctionUnits with
       | None => mret None
       | Some unit =>
           let sign := if ends_with "_later" name then "'+'" else "'-'" in
           v ← guardResult (
             clock ← now;
             a ← arg;
             let modifier := str [sign; " || CAST("; a; " AS TEXT) || ' "; unit; "s'";
                                  (if decide (unit = "month") then ", 'floor'" else "")] in
             n ← now;
             mret (str ["(datetime("; clock; ", "; modifier; ") || substr("; n; ", 20))"]));
           mret (Some v)
       end.

Definition sqlite_containsBinary {S} (col : string) (value : string -> M S string) : M S string :=
  v ← value ""; mret (str ["instr("; col; ", "; v; ") > 0"]).

Definition sqlite_fulltext {S} (cols : list string) (value : string -> M S string) (boolean : bool) : M S (option string) :=
  mret None.

Definition sqlite : Dialect := {|
  d_name := "sqlite";
  d_quote ident := quoteWith dqc (join "__" (split_on dot ident));
  d_placeholder _ := "?";
  d_like col ph := str [col; " LIKE "; ph; " ESCAPE '\'"];
  d_limit offset count := str [" LIMIT "; count; " OFFSET "; offset];
  d_forceIndex name := str [" INDEXED BY "; quoteWith dqc name];
  d_insertReturningId := true;
  d_upsert := conflictUpsert;
  d_readExpr col _ := col;
  d_writeExpr ph _ := ph;
  d_readTime col _ := col;
  d_writeTime ph := ph;
  d_readUuid col := col;
  d_writeUuid ph := ph;
  d_now _ := "CURRENT_TIMESTAMP";
  d_handlesStage _ := false;
  d_decodesStage _ := false;
  d_hostNow := true;
  d_clockOperand col precision :=
    if 6 <=? precision then col
    else if decide (precision = 0) then str ["("; col; " || '.000000')"]
    else str ["("; col; " || '"; repeat_str "0" (Z.to_nat (6 - precision)); "')"];
  d_rowLock mode := match lockSuffix mode with None => None | Some _ => Some "" end;
  d_columnFunction := columnFunctionOf
    [("day_of_week", fun col => str ["(CAST(strftime('%w', "; col; ") AS INTEGER) + 1)"]);
     ("year", fun col => str ["CAST(strftime('%Y', "; col; ") AS INTEGER)"]);
     ("month", fun col => str ["CAST(strftime('%m', "; col; ") AS INTEGER)"]);
     ("date", fun col => str ["date("; col; ")"])];
  d_valueFunction S := @sqlite_valueFunction S;
  d_containsBinary S := @sqlite_containsBinary S;
  d_fulltext S := @sqlite_fulltext S;
  d_tupleIn cols rows negate := tupleIn cols rows negate true;
  d_random := "random()";
  d_nullsOrder _ := "";
  d_restartIdentity table column :=
    str ["UPDATE sqlite_sequence SET seq = (SELECT COALESCE(MAX("; quoteWith dqc column; "), 0) FROM ";
         quoteWith dqc table; ") WHERE name = "; literal table] |}.

Definition dialectOf (name : string) : option Dialect :=
  if decide (name = "mysql") then Some mysql
  else if decide (name = "postgres") then Some postgres
  else if decide (name = "sqlite") then Some sqlite
  else None.
