(* ===== verification/Lex.v ===== *)
(** * SQL text as a database reads it

    A lexer with the three kinds of quotes that the dialects write, the texts
    that hold no placeholder of their own, and fragments: texts that hold the
    placeholders [k + 1] to [k'] in order.  The statements about quoting say
    that a reader of a quoted name or literal gets the text back. *)

From S2P Require Import Prelude Dialect.

(** ** The lexer *)

Inductive lexq := Out | In (q : ascii).

Definition is_quote (a : ascii) : bool := includes a [quot; dqc; backtick].
Definition is_mark (a : ascii) : bool := includes a ["?"%char; "$"%char].

(** The state after a text, or nothing when a placeholder mark stands outside
    quotes.  A doubled quote closes and opens again, which is the same state. *)
Fixpoint lex (st : lexq) (s : string) : option lexq :=
  match s with
  | EmptyString => Some st
  | String a s =>
      match st with
      | Out => if is_mark a then None else lex (if is_quote a then In a else Out) s
      | In q => lex (if decide (a = q) then Out else In q) s
      end
  end.

(** A text that is balanced and holds no placeholder. *)
Definition safe (s : string) : Prop := lex Out s = Some Out.

#[global] Instance safe_dec s : Decision (safe s).
Proof. unfold safe. destruct (lex Out s) as [[|q]|]; [by left|right; naive_solver..]. Defined.

Lemma lex_app st a b : lex st (a +:+ b) = lex st a ≫= fun st => lex st b.
Proof.
  revert st. induction a as [|c a IH]; intros st; [done|]. simpl.
  change (String.append (String c a) b) with (String c (a +:+ b)). simpl.
  destruct st; [destruct (is_mark c); [done|]|]; apply IH.
Qed.

Lemma safe_nil : safe "".
Proof. done. Qed.

Lemma safe_app a b : safe a -> safe b -> safe (a +:+ b).
Proof. unfold safe. rewrite lex_app. by intros ->. Qed.

Lemma safe_str l : Forall safe l -> safe (str l).
Proof. induction 1; simpl; [done|by apply safe_app]. Qed.

Lemma safe_join sep l : safe sep -> Forall safe l -> safe (join sep l).
Proof.
  intros Hs. induction 1 as [|x l Hx Hl IH]; simpl; [done|]. destruct l; [done|]. by repeat apply safe_app.
Qed.

(** Texts that a quote of kind [q] does not end. *)
Fixpoint inside (q : ascii) (s : string) : bool :=
  match s with EmptyString => true | String a s => negb (bool_decide (a = q)) && inside q s end.

Lemma lex_inside q s : inside q s = true -> lex (In q) s = Some (In q).
Proof.
  induction s as [|a s IH]; simpl; [done|]. intros [Ha Hs]%andb_true_iff.
  apply negb_true_iff, bool_decide_eq_false in Ha. rewrite decide_False by done. auto.
Qed.

(** ** Quoted names and literals *)

Lemma is_quote_mark q : is_quote q = true -> is_mark q = false.
Proof.
  unfold is_quote, is_mark, includes. intros H%bool_decide_eq_true. apply bool_decide_eq_false.
  rewrite !elem_of_cons, elem_of_nil in *. intros Hm.
  destruct H as [->|[->|[->|[]]]]; destruct Hm as [[=]|[[=]|[]]].
Qed.

Lemma lex_doubled q s : is_quote q = true -> lex (In q) (replace_all q (String q (String q "")) s) = Some (In q).
Proof.
  intros Hq. induction s as [|a s IH]; simpl; [done|]. rewrite lex_app. destruct (decide (a = q)) as [->|Hne]; simpl.
  - rewrite decide_True by done. simpl. rewrite (is_quote_mark _ Hq), Hq. simpl. exact IH.
  - rewrite decide_False by done. simpl. exact IH.
Qed.

Lemma safe_quotePart q s : is_quote q = true -> safe (quotePart q s).
Proof.
  intros Hq. unfold safe, quotePart. simpl. rewrite (is_quote_mark _ Hq), Hq.
  change (String.append "" ?x) with x. rewrite lex_app, lex_doubled by done. simpl. by rewrite decide_True.
Qed.

Lemma safe_quoteWith q s : is_quote q = true -> safe (quoteWith q s).
Proof.
  intros Hq. apply safe_join; [done|]. apply Forall_forall. intros x. rewrite list_elem_of_In, in_map_iff.
  intros (p & <- & _). by apply safe_quotePart.
Qed.

Lemma literal_quotePart s : literal s = quotePart quot s.
Proof. done. Qed.

Lemma safe_literal s : safe (literal s).
Proof. rewrite literal_quotePart. by apply safe_quotePart. Qed.

(** A reader of a quoted text: a doubled quote is the quote itself, and any
    other quote ends the text. *)
Fixpoint readQuoted (q : ascii) (s : string) : option (string * string) :=
  match s with
  | EmptyString => None
  | String a s =>
      if decide (a = q) then
        match s with
        | String b s' =>
            if decide (b = q) then (fun r => (String q (fst r), snd r)) <$> readQuoted q s' else Some ("", s)
        | EmptyString => Some ("", "")
        end
      else (fun r => (String a (fst r), snd r)) <$> readQuoted q s
  end.

Definition readQuote (q : ascii) (s : string) : option (string * string) :=
  match s with String a s => if decide (a = q) then readQuoted q s else None | EmptyString => None end.

Definition starts_at (q : ascii) (s : string) : bool :=
  match s with String a _ => bool_decide (a = q) | EmptyString => false end.

Lemma readQuoted_replace q s rest :
  starts_at q rest = false ->
  readQuoted q (replace_all q (String q (String q "")) s +:+ String q rest) = Some (s, rest).
Proof.
  intros Hr. induction s as [|a s IH]; simpl.
  - change (String.append "" ?x) with x. rewrite decide_True by done. destruct rest as [|b rest]; [done|].
    simpl in Hr. apply bool_decide_eq_false in Hr. by rewrite decide_False.
  - destruct (decide (a = q)) as [->|Hne].
    + change (String q (String q "") +:+ ?x) with (String q (String q x)).
      change (String.append (String q (String q ?x)) ?y) with (String q (String q (x +:+ y))). simpl.
      rewrite !decide_True by done. by rewrite IH.
    + change (String a "" +:+ ?x) with (String a x). change (String.append (String a ?x) ?y) with (String a (x +:+ y)).
      simpl. rewrite decide_False by done. by rewrite IH.
Qed.

(** ** Fragments *)

Section fragments.
Variable ph : nat -> string.

(** A text that holds the placeholders [k + 1] to [k'], in this order, and
    otherwise only safe text. *)
Inductive Frag : nat -> nat -> string -> Prop :=
  | frag_text k s : safe s -> Frag k k s
  | frag_mark k : Frag k (S k) (ph (S k))
  | frag_app k k1 k2 a b : Frag k k1 a -> Frag k1 k2 b -> Frag k k2 (a +:+ b).

(** A list of such texts, each going on where the one before ends. *)
Inductive Frags : nat -> nat -> list string -> Prop :=
  | frags_nil k : Frags k k []
  | frags_cons k k1 k2 x l : Frag k k1 x -> Frags k1 k2 l -> Frags k k2 (x :: l).

Lemma Frag_le k k' s : Frag k k' s -> (k <= k')%nat.
Proof. induction 1; lia. Qed.

Lemma frag_str k k' l : Frags k k' l -> Frag k k' (str l).
Proof. induction 1; simpl; [by apply frag_text|by eapply frag_app]. Qed.

Lemma frag_join sep k k' l : safe sep -> Frags k k' l -> Frag k k' (join sep l).
Proof.
  intros Hs. induction 1 as [|k k1 k2 x l Hx Hl IH]; [by apply frag_text|]. destruct l as [|y l]; simpl.
  - inversion Hl; subst. done.
  - eapply frag_app; [done|]. eapply frag_app; [by apply frag_text|done].
Qed.

Lemma frags_app k k1 k2 l1 l2 : Frags k k1 l1 -> Frags k1 k2 l2 -> Frags k k2 (l1 ++ l2).
Proof. induction 1; simpl; [done|]. intros. econstructor; eauto. Qed.

Lemma frags_safe k l : Forall safe l -> Frags k k l.
Proof. induction 1; [constructor|]. econstructor; [by apply frag_text|done]. Qed.

Lemma frags_one k k' s : Frag k k' s -> Frags k k' [s].
Proof. intros. econstructor; [done|constructor]. Qed.

(** The texts between the placeholders. *)
Fixpoint weave (texts marks : list string) : string :=
  match texts, marks with
  | t :: texts, m :: marks => t +:+ m +:+ weave texts marks
  | t :: _, [] => t
  | [], _ => ""
  end.

Lemma weave_app t1 l1 x y t2 l2 :
  length t1 = length l1 -> weave (t1 ++ (x +:+ y) :: t2) (l1 ++ l2) = weave (t1 ++ [x]) l1 +:+ weave (y :: t2) l2.
Proof.
  revert l1. induction t1 as [|t t1 IH]; intros [|m l1] Hl; simpl in *; try done.
  - destruct l2; simpl; [done|]. by rewrite string_app_assoc.
  - rewrite IH by lia. by rewrite !string_app_assoc.
Qed.

Lemma Frag_weave k k' s :
  Frag k k' s ->
  exists texts, length texts = S (k' - k) /\ Forall safe texts /\ s = weave texts (map ph (seq (S k) (k' - k))).
Proof.
  induction 1 as [k s Hs|k|k k1 k2 a b Ha (ta & La & Fa & Ea) Hb (tb & Lb & Fb & Eb)].
  - exists [s]. rewrite Nat.sub_diag. split_and!; [done|by constructor|done].
  - exists ["" : string; "" : string]. replace (S k - k)%nat with 1%nat by lia. split_and!; [done|by repeat constructor|].
    simpl. by rewrite string_app_nil_r.
  - pose proof (Frag_le _ _ _ Ha). pose proof (Frag_le _ _ _ Hb).
    assert (ta <> []) as Hne by (intros ->; done). destruct (exists_last Hne) as (ta' & x & ->).
    destruct tb as [|y tb]; [simpl in Lb; lia|].
    rewrite length_app in La. simpl in La, Lb. exists (ta' ++ (x +:+ y) :: tb). split_and!.
    + rewrite length_app. simpl. lia.
    + apply Forall_app in Fa as [? Fx]. inversion Fx; subst. inversion Fb; subst.
      apply Forall_app. split; [done|]. constructor; [by apply safe_app|done].
    + replace (k2 - k)%nat with ((k1 - k) + (k2 - k1))%nat by lia. rewrite seq_app, map_app.
      rewrite weave_app by (rewrite length_map, length_seq; lia). rewrite Ea, Eb.
      by replace (S k + (k1 - k))%nat with (S k1) by lia.
Qed.
End fragments.

(** ** Numbers *)

Lemma safe_pretty_N_go x s : safe s -> safe (pretty_N_go x s).
Proof.
  revert s. induction (N.lt_wf_0 x) as [x _ IH]. intros s Hs.
  destruct (decide (0 < x)%N) as [Hx|Hx].
  - rewrite pretty_N_go_step by done. apply IH; [apply N.div_lt; lia|].
    change (safe (String (pretty_N_char (x mod 10)) "" +:+ s)). apply safe_app; [|done].
    unfold pretty_N_char. destruct (x mod 10)%N as [|p]; [done|].
    do 4 (try destruct p as [p|p|]); done.
  - replace x with 0%N by lia. by rewrite pretty_N_go_0.
Qed.

Lemma safe_pretty_N (x : N) : safe (pretty x).
Proof. unfold pretty, pretty_N. case_decide; [done|]. by apply safe_pretty_N_go. Qed.

Lemma safe_pretty (z : Z) : safe (pretty z).
Proof.
  destruct z as [|p|p]; unfold pretty, pretty_Z; [done|apply safe_pretty_N|].
  change (safe ("-" +:+ pretty (N.pos p))). apply safe_app; [done|apply safe_pretty_N].
Qed.

(** From here on a template literal stays as its list of pieces. *)
#[global] Arguments str : simpl never.
#[global] Arguments join : simpl never.
