(* ===== verification/DialectFacts.v ===== *)
(** * What the statement compiler asks of a dialect

    [SafeDialect] states that the members of a dialect write safe text and keep
    the placeholders of their arguments in order; the three dialects satisfy it. *)

From S2P Require Import Prelude Dialect Lex.

(** ** Automation *)

Create HintDb safe.
#[export] Hint Resolve safe_nil safe_pretty safe_literal : safe.
#[export] Hint Extern 0 (safe _) => reflexivity : safe.

Lemma safe_if (b : bool) x y : safe x -> safe y -> safe (if b then x else y).
Proof. by destruct b. Qed.
Lemma safe_decide (P : Prop) {Hd : Decision P} x y : safe x -> safe y -> safe (if decide P then x else y).
Proof. by destruct (decide P). Qed.
#[export] Hint Resolve safe_if safe_decide : safe.

(** Proves that a text made of safe pieces is safe. *)
Ltac safe_t :=
  repeat first
    [ assumption
    | solve [auto with safe]
    | apply safe_if | apply safe_decide
    | apply safe_str; repeat (apply Forall_cons; split); try apply Forall_nil; try done
    | apply safe_join ].

(** Proves that a text made of pieces holds their placeholders in order. *)
Ltac frag_piece := first [eassumption | apply frag_text; solve [safe_t] | idtac].
Ltac frag_t := apply frag_str; repeat (eapply frags_cons; [frag_piece|]); try apply frags_nil.

(** Pieces that open a quote in one text and close it in a later one. *)
Lemma str_glue l x y z k : str (l ++ x :: y :: z :: k) = str (l ++ (x +:+ y +:+ z) :: k).
Proof.
  rewrite !str_app. f_equal. change (x +:+ y +:+ z +:+ str k = (x +:+ y +:+ z) +:+ str k).
  by rewrite !string_app_assoc.
Qed.

(** ** Computations that write fragments *)

Section counted.
Context {S : Type} (cnt : S -> nat) (ph : nat -> string).

(** A computation whose text holds exactly the placeholders that it adds. *)
Definition fragM (c : M S string) : Prop := forall s x s', c s = Ok (x, s') -> Frag ph (cnt s) (cnt s') x.
Definition fragO (c : M S (option string)) : Prop := forall s x s', c s = Ok (Some x, s') -> Frag ph (cnt s) (cnt s') x.

Lemma guardInterval_frag unit operandCast arg :
  safe operandCast -> assoc unit intervalBounds <> None -> fragM arg -> fragM (guardInterval unit operandCast arg).
Proof.
  intros Hs Hu Ha s x s' H. unfold guardInterval in H. ok_inv.
  match goal with H1 : arg s = Ok (?a, ?s1), H2 : arg ?s1 = Ok (?b, _) |- _ => pose proof (Ha _ _ _ H1); pose proof (Ha _ _ _ H2) end.
  assert (safe (default "undefined" (assoc unit intervalBounds))) as Hb.
  { destruct (assoc unit intervalBounds) as [v|] eqn:E; [|done]. simpl.
    unfold intervalBounds in E. simpl in E. by repeat (case_decide; simplify_eq). }
  set (bound := default "undefined" _) in *.
  destruct (decide (operandCast = "")); frag_t; frag_t.
Qed.

Lemma guardResult_frag value : fragM value -> fragM (guardResult value).
Proof.
  intros Hv s x s' H. unfold guardResult in H. ok_inv.
  match goal with H1 : value s = Ok (?a, ?s1), H2 : value ?s1 = Ok (?b, _) |- _ => pose proof (Hv _ _ _ H1); pose proof (Hv _ _ _ H2) end.
  frag_t.
Qed.

Lemma likeContains_frag col value :
  safe col -> (forall t, fragM (value t)) -> fragM (likeContains col value).
Proof. intros Hc Hv s x s' H. unfold likeContains in H. ok_inv. pose proof (Hv _ _ _ _ H). frag_t. Qed.
End counted.

(** ** The interface *)

Class SafeDialect (d : Dialect) : Prop := {
  sd_quote x : safe (d_quote d x);
  sd_like ph k1 k2 k3 a b : Frag ph k1 k2 a -> Frag ph k2 k3 b -> Frag ph k1 k3 (d_like d a b);
  (** The page of MySQL writes the offset first, that of the others the count. *)
  sd_limit ph k1 k2 k3 offset count :
    (if decide (d_name d = "mysql") then Frag ph k1 k2 offset /\ Frag ph k2 k3 count
     else Frag ph k1 k2 count /\ Frag ph k2 k3 offset) -> Frag ph k1 k3 (d_limit d offset count);
  sd_forceIndex x : safe (d_forceIndex d x);
  sd_upsert ph k k' target assigns : Frag ph k k' assigns -> Frag ph k k' (d_upsert d target assigns);
  sd_readExpr col stages : safe col -> safe (d_readExpr d col stages);
  sd_writeExpr ph k k' x stages : Frag ph k k' x -> Frag ph k k' (d_writeExpr d x stages);
  sd_readTime col p : safe col -> safe (d_readTime d col p);
  sd_writeTime ph k k' x : Frag ph k k' x -> Frag ph k k' (d_writeTime d x);
  sd_readUuid col : safe col -> safe (d_readUuid d col);
  sd_writeUuid ph k k' x : Frag ph k k' x -> Frag ph k k' (d_writeUuid d x);
  sd_now p : safe (d_now d p);
  sd_clockOperand col p : safe col -> safe (d_clockOperand d col p);
  sd_rowLock mode x : d_rowLock d mode = Some x -> safe x;
  sd_columnFunction name col x : safe col -> d_columnFunction d name col = Some x -> safe x;
  sd_valueFunction {S} (cnt : S -> nat) ph name arg now :
    fragM cnt ph arg -> fragM cnt ph now -> fragO cnt ph (d_valueFunction d name arg now);
  sd_containsBinary {S} (cnt : S -> nat) ph col value :
    safe col -> (forall t, fragM cnt ph (value t)) -> fragM cnt ph (d_containsBinary d col value);
  sd_fulltext {S} (cnt : S -> nat) ph cols value boolean :
    Forall safe cols -> (forall t, fragM cnt ph (value t)) -> fragO cnt ph (d_fulltext d cols value boolean);
  sd_tupleIn ph k k' cols rows negate :
    Forall safe cols -> Frags ph k k' (map (fun row => str ["("; join ", " row; ")"]) rows) ->
    Frag ph k k' (d_tupleIn d cols rows negate);
  sd_random : safe (d_random d);
  sd_nullsOrder desc : safe (d_nullsOrder d desc);
  sd_restartIdentity table column : safe (d_restartIdentity d table column) }.

#[export] Hint Resolve sd_quote sd_forceIndex sd_readExpr sd_readTime sd_readUuid sd_now sd_clockOperand
  sd_random sd_nullsOrder sd_restartIdentity : safe.

(** ** The shared pieces *)

Lemma safe_backtick x : safe (quoteWith backtick x).
Proof. by apply safe_quoteWith. Qed.
Lemma safe_dquote x : safe (quoteWith dqc x).
Proof. by apply safe_quoteWith. Qed.
#[export] Hint Resolve safe_backtick safe_dquote : safe.

Lemma lockSuffix_safe mode x : lockSuffix mode = Some x -> safe x.
Proof. unfold lockSuffix. repeat case_decide; intros [= <-]; done. Qed.

Lemma tupleIn_frag ph k k' cols rows negate values :
  Forall safe cols -> Frags ph k k' (map (fun row => str ["("; join ", " row; ")"]) rows) ->
  Frag ph k k' (tupleIn cols rows negate values).
Proof.
  intros Hc Hr. unfold tupleIn. assert (safe (join ", " cols)) by (by apply safe_join).
  destruct values; frag_t; [frag_t; by apply frag_join|]. by apply frag_join.
Qed.

Lemma conflictUpsert_frag ph k k' target assigns :
  Frag ph k k' assigns -> Frag ph k k' (conflictUpsert target assigns).
Proof.
  intros Ha. unfold conflictUpsert. assert (safe (join ", " (map (quoteWith dqc) target))).
  { apply safe_join; [done|]. apply Forall_forall. intros x (y & -> & _)%list_elem_of_fmap. apply safe_dquote. }
  frag_t.
Qed.

Lemma safe_columnFunctionOf table name col x :
  (forall f, f ∈ map snd table -> safe (f col)) -> columnFunctionOf table name col = Some x -> safe x.
Proof.
  intros Hf. unfold columnFunctionOf. induction table as [|[n f] table IH]; simpl in *; [done|].
  case_decide; simpl; [|apply IH; intros; apply Hf; by right]. intros [= <-]. apply Hf. by left.
Qed.

Lemma asciiLower_frag ph k k' x : Frag ph k k' x -> Frag ph k k' (asciiLower x).
Proof. intros Hx. unfold asciiLower. frag_t. Qed.

Lemma value_units name unit : assoc name valueFunctionUnits = Some unit -> unit ∈ ["second"; "minute"; "hour"; "day"; "month"].
Proof.
  unfold valueFunctionUnits. simpl. repeat (case_decide; [intros [= <-]; by vm_compute; repeat constructor|]). done.
Qed.

Lemma interval_known unit : unit ∈ ["second"; "minute"; "hour"; "day"; "month"] -> assoc unit intervalBounds <> None.
Proof. rewrite !elem_of_cons, elem_of_nil. by intros [->|[->|[->|[->|[->|[]]]]]]. Qed.

Lemma safe_unit unit : unit ∈ ["second"; "minute"; "hour"; "day"; "month"] ->
  safe (toUpperCase unit) /\ safe unit /\ safe (" AS TEXT) || ' " +:+ unit +:+ "s'").
Proof. rewrite !elem_of_cons, elem_of_nil. by intros [->|[->|[->|[->|[->|[]]]]]]. Qed.

(** ** MySQL *)

Lemma mysql_value_frag {S} (cnt : S -> nat) ph name arg now :
  fragM cnt ph arg -> fragO cnt ph (mysql_valueFunction name arg now).
Proof.
  intros Ha s x s' H. unfold mysql_valueFunction in H.
  case_decide; [ok_inv; by apply frag_text|]. case_decide; [ok_inv; by apply frag_text|].
  destruct (assoc name valueFunctionUnits) as [unit|] eqn:Eu; [|ok_inv].
  apply value_units in Eu. destruct (safe_unit _ Eu) as (Hup & _ & _). apply interval_known in Eu.
  ok_inv. match goal with H : guardResult _ _ = _ |- _ => revert H end. apply guardResult_frag.
  intros t y t' H'. ok_inv.
  match goal with H : guardInterval _ _ _ _ = _ |- _ => apply (guardInterval_frag cnt ph) in H; [|done..] end.
  frag_t.
Qed.

Lemma mysql_fulltext_frag {S} (cnt : S -> nat) ph cols value boolean :
  Forall safe cols -> (forall t, fragM cnt ph (value t)) -> fragO cnt ph (mysql_fulltext cols value boolean).
Proof.
  intros Hc Hv s x s' H. unfold mysql_fulltext in H. assert (safe (join ", " cols)) by (by apply safe_join).
  destruct boolean; ok_inv;
    match goal with H : value ?t ?a = Ok (?v, ?b) |- _ => pose proof (Hv t a v b H) end; frag_t; frag_t.
Qed.

Lemma mysql_readExpr_safe col stages : safe col -> safe (d_readExpr mysql col stages).
Proof. intros Hc. simpl. induction stages as [|s l IH]; simpl; [done|]. case_decide; [|done]. safe_t. Qed.

Lemma mysql_writeExpr_frag ph k k' x stages : Frag ph k k' x -> Frag ph k k' (d_writeExpr mysql x stages).
Proof.
  simpl. revert x. induction stages as [|s l IH]; simpl; intros x Hx; [done|]. apply IH. case_decide; [|done]. frag_t.
Qed.

#[export] Instance mysql_safe : SafeDialect mysql.
Proof.
  split; simpl; intros; try solve [safe_t].
  - frag_t; by apply asciiLower_frag.
  - destruct H. frag_t.
  - frag_t.
  - by apply mysql_readExpr_safe.
  - by apply mysql_writeExpr_frag.
  - by eapply lockSuffix_safe.
  - eapply safe_columnFunctionOf; [|done]. intros f. simpl. rewrite !elem_of_cons, elem_of_nil.
    intros [->|[->|[->|[->|[]]]]]; safe_t.
  - by apply mysql_value_frag.
  - by apply likeContains_frag.
  - by apply mysql_fulltext_frag.
  - by apply tupleIn_frag.
Qed.

(** ** PostgreSQL *)

Lemma postgres_field unit field :
  assoc unit postgresFields = Some field -> safe field.
Proof. unfold postgresFields. simpl. by repeat (case_decide; [intros [= <-]; done|]). Qed.

Lemma postgres_value_frag {S} (cnt : S -> nat) ph name arg now :
  fragM cnt ph arg -> fragM cnt ph now -> fragO cnt ph (postgres_valueFunction name arg now).
Proof.
  intros Ha Hn s x s' H. unfold postgres_valueFunction in H.
  case_decide. { ok_inv. match goal with H : now _ = _ |- _ => apply Hn in H end. frag_t. }
  case_decide; [ok_inv; by apply frag_text|].
  destruct (assoc name valueFunctionUnits) as [unit|] eqn:Eu; [|ok_inv].
  apply value_units, interval_known in Eu.
  destruct (assoc unit postgresFields) as [field|] eqn:Ef; [|ok_inv]. apply postgres_field in Ef.
  ok_inv. match goal with H : guardResult _ _ = _ |- _ => revert H end. apply guardResult_frag.
  intros t y t' H'. ok_inv.
  match goal with H : guardInterval _ _ _ _ = _ |- _ => apply (guardInterval_frag cnt ph) in H; [|safe_t|done..] end.
  match goal with H : now _ = _ |- _ => apply Hn in H end.
  frag_t. frag_t.
Qed.

Lemma postgres_fulltext_frag {S} (cnt : S -> nat) ph cols value boolean :
  Forall safe cols -> (forall t, fragM cnt ph (value t)) -> fragO cnt ph (postgres_fulltext cols value boolean).
Proof.
  intros Hc Hv s x s' H. unfold postgres_fulltext in H. ok_inv.
  match goal with H : value ?t ?a = Ok (?v, ?b) |- _ => pose proof (Hv t a v b H) end.
  assert (safe (join " || ' ' || " (map (fun c => str ["coalesce("; c; ", '')"]) cols))).
  { apply safe_join; [done|]. apply Forall_fmap. eapply Forall_impl; [done|]. intros c Hs. simpl. safe_t. }
  frag_t.
Qed.

#[export] Instance postgres_safe : SafeDialect postgres.
Proof.
  split; simpl; intros; try solve [safe_t].
  - frag_t.
  - destruct H. frag_t.
  - by apply conflictUpsert_frag.
  - frag_t.
  - frag_t.
  - by eapply lockSuffix_safe.
  - eapply safe_columnFunctionOf; [|done]. intros f. simpl. rewrite !elem_of_cons, elem_of_nil.
    intros [->|[->|[->|[->|[]]]]]; safe_t.
  - by apply postgres_value_frag.
  - by apply likeContains_frag.
  - by apply postgres_fulltext_frag.
  - by apply tupleIn_frag.
Qed.

(** ** SQLite *)

Lemma safe_fraction n : safe (" || '" +:+ repeat_str "0" n +:+ "')").
Proof.
  unfold safe. rewrite lex_app. simpl. rewrite lex_app, lex_inside; [done|].
  induction n as [|n IH]; simpl; [done|]. exact IH.
Qed.

Lemma sqlite_clock_safe col precision : safe col -> safe (d_clockOperand sqlite col precision).
Proof.
  intros Hc. simpl. destruct (6 <=? precision); [done|]. case_decide; [safe_t|].
  set (n := Z.to_nat _). change (safe ("(" +:+ col +:+ (" || '" +:+ repeat_str "0" n +:+ "')" +:+ ""))).
  rewrite string_app_nil_r. apply safe_app; [done|]. apply safe_app; [done|]. apply safe_fraction.
Qed.

Lemma sqlite_value_frag {S} (cnt : S -> nat) ph name arg now :
  fragM cnt ph arg -> fragM cnt ph now -> fragO cnt ph (sqlite_valueFunction name arg now).
Proof.
  intros Ha Hn s x s' H. unfold sqlite_valueFunction in H.
  case_decide. { ok_inv. match goal with H : now _ = _ |- _ => apply Hn in H end. done. }
  case_decide. { ok_inv. match goal with H : now _ = _ |- _ => apply Hn in H end. frag_t. }
  destruct (assoc name valueFunctionUnits) as [unit|] eqn:Eu; [|ok_inv].
  apply value_units in Eu. destruct (safe_unit _ Eu) as (_ & _ & Hunit).
  ok_inv. match goal with H : guardResult _ _ = _ |- _ => revert H end. apply guardResult_frag.
  intros t y t' H'. ok_inv.
  repeat match goal with H : now _ = _ |- _ => apply Hn in H | H : arg _ = _ |- _ => apply Ha in H end.
  set (tail := if decide (unit = "month") then _ else _).
  assert (safe tail) by (unfold tail; safe_t).
  set (sign := if ends_with "_later" name then _ else _). assert (safe sign) by (unfold sign; safe_t).
  pose proof (str_glue [sign; " || CAST("; a0] " AS TEXT) || ' " unit "s'" [tail]) as E. simpl app in E. rewrite E.
  frag_t. frag_t.
Qed.

#[export] Instance sqlite_safe : SafeDialect sqlite.
Proof.
  split; simpl; intros; try solve [safe_t].
  - frag_t.
  - destruct H. frag_t.
  - by apply conflictUpsert_frag.
  - by apply sqlite_clock_safe.
  - destruct (lockSuffix mode); naive_solver.
  - eapply safe_columnFunctionOf; [|done]. intros f. simpl. rewrite !elem_of_cons, elem_of_nil.
    intros [->|[->|[->|[->|[]]]]]; safe_t.
  - by apply sqlite_value_frag.
  - unfold sqlite_containsBinary. intros s x s' Hc. ok_inv.
    match goal with Hv : value ?t ?a = Ok (?v, ?b) |- _ => pose proof (H0 t a v b Hv) end. frag_t.
  - done.
  - by apply tupleIn_frag.
Qed.
