(* ===== verification/Documents.v ===== *)
(** * Parsed documents ([dbspec/model.ts])

    The data of a dbspec document set after parsing.  A comment line is kept on
    the line that follows it; a member that the source declares nullable is an
    [option]. *)

From S2P Require Import Prelude.

Inductive DbspecType :=
  | TI16 | TI32 | TI64 | TBool | TF64 | TText | TBytes | TUuid | TDate
  | TDecimal (precision scale : Z)
  | TVarchar (length : Z)
  | TTime (precision : Z)
  | TDatetime (precision : Z).

#[global] Instance DbspecType_eq_dec : EqDecision DbspecType.
Proof. solve_decision. Defined.

(** The [kind] member of a type. *)
Definition type_kind (t : DbspecType) : string :=
  match t with
  | TI16 => "i16" | TI32 => "i32" | TI64 => "i64" | TBool => "bool" | TF64 => "f64" | TText => "text"
  | TBytes => "bytes" | TUuid => "uuid" | TDate => "date" | TDecimal _ _ => "decimal"
  | TVarchar _ => "varchar" | TTime _ => "time" | TDatetime _ => "datetime"
  end.

Inductive DbspecDefault := DefaultNow | DefaultLiteral (text : string).

#[global] Instance DbspecDefault_eq_dec : EqDecision DbspecDefault.
Proof. solve_decision. Defined.

Inductive DbspecAction := Restrict | Cascade | SetNull.

#[global] Instance DbspecAction_eq_dec : EqDecision DbspecAction.
Proof. solve_decision. Defined.

Record DbspecColumn := mkColumn {
  col_comments : list string; col_name : string; col_type : DbspecType; col_nullable : bool; col_identity : bool;
  col_default : option DbspecDefault }.

Record DbspecPrimaryKey := mkPrimaryKey { pk_comments : list string; pk_columns : list string }.
Record DbspecUnique := mkUnique { un_comments : list string; un_name : string; un_columns : list string }.
Record DbspecIndexColumn := mkIndexColumn { ic_name : string; ic_descending : bool }.
Record DbspecIndex := mkIndex { ix_comments : list string; ix_name : string; ix_columns : list DbspecIndexColumn }.
Record DbspecForeignKey := mkForeignKey {
  fk_comments : list string; fk_name : string; fk_columns : list string; fk_table : string; fk_references : list string;
  fk_onDelete : DbspecAction; fk_onUpdate : DbspecAction }.
Record DbspecCheck := mkCheck { ck_comments : list string; ck_name : string; ck_expression : string }.

(** The clause [shard <column> <period>] of a store setting. *)
Record DbspecStoreShard := mkShard { sh_column : string; sh_period : string }.

(** What follows the column of a [state_machine] line. *)
Inductive DbspecStateLine :=
  | StateInitial (state : string)
  | StateTerminal (state : string) (requires : option (list string))
  | StateTransition (from to : string) (requires : option (list string))
  | StateHistory (table row from to at_ : string)
  | StateLimit (state count : string).

Record DbspecAuditSetting := mkAudit {
  au_into : string; au_column : string; au_references : string; au_action : string; au_previous : string;
  au_tables : option (string * string * string); au_exclude : option (list string); au_include : option (list string) }.

(** The storage of a store setting. *)
Inductive DbspecStorage :=
  | StoreFiles
  | StoreDocument (shape : option string)
  | StoreBlock (foreignKey shape : option string).

Inductive DbspecSetting :=
  | SEntity (name : string)
  | SUpdated (column : string)
  | SSoftDelete (column : string)
  | SAesVersion (column : string)
  | SSelectExplicit (columns : list string)
  | SCodec (column : string) (stages : list string)
  | SBlindIndex (column indexColumn : string)
  | SNavigation (foreignKey childName parentName : string)
  | SMarkdown (column : string)
  | SStore (storage : DbspecStorage) (shard : option DbspecStoreShard)
  | SKeyPrefix (prefix : string)
  | STitle (column : string)
  | SBody (column : string)
  | SOrder (column : string)
  | SCheckbox (column state glyph : string)
  | SStateMachine (column : string) (line : DbspecStateLine)
  | SImmutable
  | SAudit (audit : DbspecAuditSetting).

(** The [kind] member of a setting. *)
Definition setting_kind (s : DbspecSetting) : string :=
  match s with
  | SEntity _ => "entity" | SUpdated _ => "updated" | SSoftDelete _ => "soft_delete" | SAesVersion _ => "aes_version"
  | SSelectExplicit _ => "select_explicit" | SCodec _ _ => "codec" | SBlindIndex _ _ => "blind_index"
  | SNavigation _ _ _ => "navigation" | SMarkdown _ => "markdown" | SStore _ _ => "store" | SKeyPrefix _ => "key_prefix"
  | STitle _ => "title" | SBody _ => "body" | SOrder _ => "order" | SCheckbox _ _ _ => "checkbox"
  | SStateMachine _ _ => "state_machine" | SImmutable => "immutable" | SAudit _ => "audit"
  end.

(** A setting with the comments before its line. *)
Record DbspecSettingLine := mkSettingLine { sl_comments : list string; sl_setting : DbspecSetting }.
Record DbspecSettings := mkSettingsBlock {
  ss_comments : list string; ss_settings : list DbspecSettingLine; ss_closingComments : list string }.

Record DbspecTable := mkTable {
  t_comments : list string;
  t_name : string;
  t_columns : list DbspecColumn;
  t_primaryKey : DbspecPrimaryKey;
  t_uniques : list DbspecUnique;
  t_indexes : list DbspecIndex;
  t_foreignKeys : list DbspecForeignKey;
  t_checks : list DbspecCheck;
  t_settings : option DbspecSettings;
  t_closingComments : list string }.

Record DbspecUse := mkUse { use_comments : list string; use_document : string; use_tables : list string }.
Record DbspecPlacement := mkPlacement { pl_comments : list string; pl_table : string; pl_x : Z; pl_y : Z }.
Record DbspecDiagram := mkDiagram {
  dg_comments : list string; dg_name : string; dg_placements : list DbspecPlacement; dg_closingComments : list string }.

Record DbspecDocument := mkDocument {
  doc_name : string;
  doc_external : bool;
  doc_uses : list DbspecUse;
  doc_tables : list DbspecTable;
  doc_diagrams : list DbspecDiagram;
  doc_closingComments : list string }.

(** One diagnostic: the rule, the line and column of the token, and a message. *)
Record DbspecDiagnostic := mkDiagnostic { dx_rule : string; dx_line : Z; dx_column : Z; dx_message : string }.

#[global] Instance DbspecDiagnostic_eq_dec : EqDecision DbspecDiagnostic.
Proof. solve_decision. Defined.

(** [t.settings?.settings ?? []] *)
Definition tableSettings (t : DbspecTable) : list DbspecSetting :=
  match t_settings t with Some s => map sl_setting (ss_settings s) | None => [] end.
