(* ===== verification/Emit.v ===== *)
(** * Canonical emission of documents ([dbspec/emit.ts], [dbspec/audit.ts])

    The canonical text of a document, the manifest text without comments and
    diagrams, and the schema text that also keeps only the schema settings. *)

From S2P Require Import Prelude Documents.

(** [sortedBy(items, key)]: a stable copy in key order; names are ASCII, whose
    byte order is the order of code units. *)
Definition sortedBy {A} (items : list A) (key : A -> string) : list A := sort_by key items.

(** ** The audit setting *)

(** Tells whether the audit trigger copies a column. *)
Definition auditRecords (a : DbspecAuditSetting) (column : string) : bool :=
  if decide (column = au_column a) then true
  else match au_exclude a with
       | Some exclude => negb (includes column exclude)
       | None => match au_include a with Some include => includes column include | None => true end
       end.

Definition auditExcluded (a : DbspecAuditSetting) (t : DbspecTable) : list string :=
  map col_name (filter (fun c => negb (auditRecords a (col_name c)) = true) (t_columns t)).

Definition auditLine (a : DbspecAuditSetting) (list_ : string) (columns : option (list string)) : string :=
  let tables := match au_tables a with
                | None => ""
                | Some (table, record, name) => str [" tables "; table; " ("; record; ", "; name; ")"]
                end in
  let head := str ["audit into "; au_into a; " column "; au_column a; " references "; au_references a; " action "; au_action a;
                   " previous "; au_previous a; tables] in
  match columns with
  | None | Some [] => head
  | Some columns => str [head; " "; list_; " ("; join ", " columns; ")"]
  end.

(** ** Texts *)

Inductive View := Canonical | Manifest | Schema.

#[global] Instance View_eq_dec : EqDecision View.
Proof. solve_decision. Defined.

Definition settingOrder : list string :=
  ["entity"; "updated"; "soft_delete"; "select_explicit"; "codec"; "aes_version"; "blind_index"; "navigation"; "markdown"; "store";
   "key_prefix"; "title"; "body"; "order"; "checkbox"; "state_machine"; "immutable"; "audit"].

Definition schemaSettings : list string := ["immutable"; "audit"].

Definition comments (lines : list string) (indent : string) (view : View) : list string :=
  if decide (view = Canonical) then map (fun line => indent +:+ line) lines else [].

Definition typeText (t : DbspecType) : string :=
  match t with
  | TDecimal p s => str ["decimal("; pretty p; ","; pretty s; ")"]
  | TVarchar n => str ["varchar("; pretty n; ")"]
  | TTime p => str ["time("; pretty p; ")"]
  | TDatetime p => str ["datetime("; pretty p; ")"]
  | _ => type_kind t
  end.

Definition defaultText (value : DbspecDefault) : string := match value with DefaultNow => "now" | DefaultLiteral text => text end.

Definition settingKey (s : DbspecSetting) : string :=
  match s with
  | SCodec column _ | SBlindIndex column _ | SMarkdown column => column
  | SNavigation foreignKey _ _ => foreignKey
  | _ => ""
  end.

(** The order of the [state_machine] lines. *)
Definition formOrder (s : DbspecSetting) : nat :=
  match s with
  | SStateMachine _ (StateHistory _ _ _ _ _) => 1
  | SStateMachine _ (StateLimit _ _) => 2
  | _ => 0
  end.

Definition quoted (value : string) : string := str ["'"; replace_all "'"%char "''" value; "'"].

Definition requiresText (requires : option (list string)) : string :=
  match requires with None | Some [] => "" | Some l => str [" require ("; join ", " l; ")"] end.

Definition stateLineText (line : DbspecStateLine) : string :=
  match line with
  | StateInitial s => str ["initial "; s]
  | StateTerminal s r => str ["terminal "; s; requiresText r]
  | StateTransition f t r => str [f; " -> "; t; requiresText r]
  | StateHistory table row f t a => str ["history "; table; " row "; row; " from "; f; " to "; t; " at "; a]
  | StateLimit s n => str ["limit "; s; " "; n]
  end.

Definition shardText (shard : option DbspecStoreShard) : string :=
  match shard with None => "" | Some s => str [" shard "; sh_column s; " "; sh_period s] end.

Definition settingText (s : DbspecSetting) (t : DbspecTable) (view : View) : string :=
  match s with
  | SEntity name => str ["entity "; name]
  | SUpdated column | SSoftDelete column | SAesVersion column => str [setting_kind s; " "; column]
  | SSelectExplicit columns => str ["select explicit "; join " " columns]
  | SCodec column stages => str ["codec "; column; " "; join " " stages]
  | SBlindIndex column indexColumn => str ["blind_index "; column; " "; indexColumn]
  | SNavigation foreignKey childName parentName => str ["navigation "; foreignKey; " "; childName; " "; parentName]
  | SImmutable => "immutable"
  | SMarkdown column => str ["markdown "; column]
  | SStore StoreFiles shard => str ["store files"; shardText shard]
  | SStore (StoreDocument shape) shard => str ["store document "; default "" shape; shardText shard]
  | SStore (StoreBlock foreignKey shape) shard => str ["store block "; default "" foreignKey; " "; default "" shape; shardText shard]
  | SKeyPrefix prefix => str ["key_prefix "; quoted prefix]
  | STitle column | SBody column | SOrder column => str [setting_kind s; " "; column]
  | SCheckbox column state glyph => str ["checkbox "; column; " "; state; " "; quoted glyph]
  | SStateMachine column line => str ["state_machine "; column; " "; stateLineText line]
  | SAudit a =>
      if decide (view = Schema) then auditLine a "exclude" (Some (auditExcluded a t))
      else match au_include a with Some l => auditLine a "include" (Some l) | None => auditLine a "exclude" (au_exclude a) end
  end.

Definition indexText (x : DbspecIndex) : string :=
  str ["index "; ix_name x; " ("; join ", " (map (fun c => if ic_descending c then str [ic_name c; " desc"] else ic_name c) (ix_columns x)); ")"].

Definition actionText (a : DbspecAction) : string :=
  match a with Restrict => "restrict" | Cascade => "cascade" | SetNull => "set_null" end.

Definition foreignKeyText (fk : DbspecForeignKey) : string :=
  str ["foreign key "; fk_name fk; " ("; join ", " (fk_columns fk); ") references "; fk_table fk; " ("; join ", " (fk_references fk); ")";
       " on delete "; actionText (fk_onDelete fk); " on update "; actionText (fk_onUpdate fk)].

(** ** Tables and documents *)

Definition columnLine (view : View) (c : DbspecColumn) : list string :=
  comments (col_comments c) "  " view ++
  [str ["  "; col_name c; " "; typeText (col_type c); if col_nullable c then " null" else ""; if col_identity c then " identity" else "";
        match col_default c with Some d => str [" default "; defaultText d] | None => "" end]].

(** [SETTING_ORDER.indexOf(kind)] *)
Fixpoint positionOf (x : string) (l : list string) : nat :=
  match l with [] => 0 | y :: l => if decide (x = y) then 0 else S (positionOf x l) end.

(** The comparison of two settings: by kind, then form, then key. *)
Definition settingBefore (a b : DbspecSetting) : bool :=
  let ka := positionOf (setting_kind a) settingOrder in
  let kb := positionOf (setting_kind b) settingOrder in
  if (ka =? kb)%nat then
    if (formOrder a =? formOrder b)%nat then String.leb (settingKey a) (settingKey b) else (formOrder a <? formOrder b)%nat
  else (ka <? kb)%nat.

Fixpoint insertSetting (s : DbspecSettingLine) (l : list DbspecSettingLine) : list DbspecSettingLine :=
  match l with
  | [] => [s]
  | x :: l' => if settingBefore (sl_setting s) (sl_setting x) then s :: x :: l' else x :: insertSetting s l'
  end.
Definition sortSettings (l : list DbspecSettingLine) : list DbspecSettingLine := foldr insertSetting [] l.

Definition settingsLines (t : DbspecTable) (view : View) (s : DbspecSettings) : list string :=
  let written := filter (fun x => negb (bool_decide (view = Schema)) || includes (setting_kind (sl_setting x)) schemaSettings = true) (ss_settings s) in
  match written with
  | [] => comments (ss_comments s) "  " view ++ comments (ss_closingComments s) "  " view
  | _ =>
      comments (ss_comments s) "  " view ++ ["  settings {"] ++
      concat (map (fun x => comments (sl_comments x) "    " view ++ [str ["    "; settingText (sl_setting x) t view]]) (sortSettings written)) ++
      comments (ss_closingComments s) "    " view ++ ["  }"]
  end.

Definition tableLines (view : View) (t : DbspecTable) : list string :=
  comments (t_comments t) "" view ++
  [str ["table "; t_name t; " {"]] ++
  concat (map (columnLine view) (t_columns t)) ++
  comments (pk_comments (t_primaryKey t)) "  " view ++
  [str ["  primary key ("; join ", " (pk_columns (t_primaryKey t)); ")"]] ++
  concat (map (fun u => comments (un_comments u) "  " view ++ [str ["  unique "; un_name u; " ("; join ", " (un_columns u); ")"]]) (sortedBy (t_uniques t) un_name)) ++
  concat (map (fun x => comments (ix_comments x) "  " view ++ [str ["  "; indexText x]]) (sortedBy (t_indexes t) ix_name)) ++
  concat (map (fun f => comments (fk_comments f) "  " view ++ [str ["  "; foreignKeyText f]]) (sortedBy (t_foreignKeys t) fk_name)) ++
  concat (map (fun c => comments (ck_comments c) "  " view ++ [str ["  check "; ck_name c; " ("; ck_expression c; ")"]]) (sortedBy (t_checks t) ck_name)) ++
  match t_settings t with Some s => settingsLines t view s | None => [] end ++
  comments (t_closingComments t) "  " view ++
  ["}"].

(** [out.join('\n') + '\n'] *)
Definition lineEnd : string := String (ascii_of_nat 10) "".
Definition joinLines (out : list string) : string := join lineEnd out +:+ lineEnd.

Definition diagramLines (view : View) (d : DbspecDiagram) : list string :=
  [""] ++ comments (dg_comments d) "" view ++ [str ["diagram "; dg_name d; " {"]] ++
  concat (map (fun p => comments (pl_comments p) "  " view ++ [str ["  "; pl_table p; " at "; pretty (pl_x p); " "; pretty (pl_y p)]]) (dg_placements d)) ++
  comments (dg_closingComments d) "  " view ++ ["}"].

Definition usesLines (view : View) (uses : list DbspecUse) : list string :=
  match sortedBy uses use_document with
  | [] => []
  | l => "" :: concat (map (fun u => comments (use_comments u) "" view ++ [str ["use "; use_document u; " { "; join ", " (use_tables u); " }"]]) l)
  end.

Definition documentLines (d : DbspecDocument) (view : View) : list string :=
  [str ["dbspec 1 "; doc_name d]] ++ usesLines view (doc_uses d) ++
  concat (map (fun t => "" :: tableLines view t) (doc_tables d)) ++
  (if decide (view = Canonical) then
     concat (map (diagramLines view) (doc_diagrams d)) ++
     match doc_closingComments d with [] => [] | l => "" :: comments l "" view end
   else []).

Definition emitDocument (d : DbspecDocument) (view : View) : string := joinLines (documentLines d view).
