(* ===== verification/DocumentSet.v ===== *)
(** * Document sets ([dbspec/set.ts], [dbspec/index.ts])

    The check of a set, its manifest and schema texts, and the comparison of the
    tables that a set uses from external documents with a database.  SHA-256 is
    the runtime's: a parameter of the manifest. *)

From S2P Require Import Prelude Documents Emit.

(** The column of the document name in the header line. *)
Definition headerNameColumn : Z := 10.

(** [byName.get(name)]: of two documents of one name the map keeps the later. *)
Definition byName (ordered : list DbspecDocument) (name : string) : option DbspecDocument :=
  List.find (fun d => bool_decide (doc_name d = name)) (rev ordered).

Definition headerDiagnostic (rule message : string) : DbspecDiagnostic := mkDiagnostic rule 1 headerNameColumn message.

(** The diagnostics of one document, [before] the document in front of it. *)
Definition checkDocument (ordered : list DbspecDocument) (before : option DbspecDocument) (d : DbspecDocument) : list DbspecDiagnostic :=
  (if decide (doc_name <$> before = Some (doc_name d))
   then [headerDiagnostic "name.duplicate" (str ["document "; doc_name d; " appears twice in the document set"])] else []) ++
  concat (map (fun name =>
    match byName ordered name with
    | Some _ => []
    | None => [headerDiagnostic "use" (str ["document "; doc_name d; " uses "; name; ", which is not in the document set"])]
    end) (sort_by id (map use_document (doc_uses d)))).

Fixpoint checkDocuments (ordered : list DbspecDocument) (before : option DbspecDocument) (rest : list DbspecDocument) : list DbspecDiagnostic :=
  match rest with [] => [] | d :: rest => checkDocument ordered before d ++ checkDocuments ordered (Some d) rest end.

(** [walk]: adds what a document reaches through its uses.  Each level of the
    recursion adds a document, so a fuel above their number is not used up. *)
Fixpoint walk (fuel : nat) (ordered : list DbspecDocument) (reached : list string) (d : DbspecDocument) : list string :=
  match fuel with
  | O => reached
  | S fuel =>
      foldl (fun reached u =>
        match byName ordered (use_document u) with
        | Some next => if includes (doc_name next) reached then reached else walk fuel ordered (reached ++ [doc_name next]) next
        | None => reached
        end) reached (doc_uses d)
  end.

Definition reachedNames (ordered : list DbspecDocument) : list string :=
  foldl (fun reached d => if doc_external d then reached else walk (S (length ordered)) ordered reached d) [] ordered.

(** The documents in name order, and the diagnostics of the set. *)
Definition checkSet (documents : list DbspecDocument) : list DbspecDocument * list DbspecDiagnostic :=
  let ordered := sort_by doc_name documents in
  let reached := reachedNames ordered in
  (ordered,
   checkDocuments ordered None ordered ++
   concat (map (fun d => if doc_external d && negb (includes (doc_name d) reached)
                         then [headerDiagnostic "use" (str ["external document "; doc_name d; " is not used by a document of the set"])]
                         else []) ordered)).

(** ** The manifest *)

Record DbspecManifest := mkManifest {
  mf_manifestText : string; mf_externalText : string; mf_schemaText : string; mf_manifestHash : string; mf_schemaHash : string }.

(** [sha256] gives the lower-case hexadecimal SHA-256 of a UTF-8 text. *)
Definition textHash (sha256 : string -> string) (text : string) : string := "sha256:" +:+ sha256 text.

(** The tables that owned documents use of each document, each once. *)
Definition usedOnce (ordered : list DbspecDocument) : list (string * list string) :=
  foldl (fun used d =>
    if doc_external d then used
    else foldl (fun used u =>
           assoc_set (use_document u) (foldl (fun tables t => set_add t tables) (default [] (assoc (use_document u) used)) (use_tables u)) used)
         used (doc_uses d)) [] ordered.

(** Whether the leading columns of an index are those of one of the foreign keys. *)
Definition leads (foreignKeys : list DbspecForeignKey) (columns : list DbspecIndexColumn) : bool :=
  existsb (fun f => bool_decide (take (length (fk_columns f)) (map ic_name columns) = fk_columns f)) foreignKeys.

Definition externalTable (tables : list string) (t : DbspecTable) : DbspecTable :=
  let foreignKeys := map (fun f => mkForeignKey [] (fk_name f) (fk_columns f) (fk_table f) (fk_references f) (fk_onDelete f) (fk_onUpdate f))
                         (filter (fun f => includes (fk_table f) tables = true) (t_foreignKeys t)) in
  mkTable [] (t_name t) (t_columns t) (mkPrimaryKey [] (pk_columns (t_primaryKey t))) (t_uniques t)
    (map (fun x => mkIndex [] (ix_name x) (ix_columns x)) (filter (fun x => leads foreignKeys (ix_columns x) = true) (t_indexes t)))
    foreignKeys [] None [].

(** The used tables of an external document, reduced; nothing when there is none. *)
Definition externalDocument (d : DbspecDocument) (tables : list string) : option DbspecDocument :=
  match map (externalTable tables) (filter (fun t => includes (t_name t) tables = true) (doc_tables d)) with
  | [] => None
  | kept => Some (mkDocument (doc_name d) false [] kept [] [])
  end.

(** What [dbspecManifest] gathers over the ordered documents. *)
Record Gathered := mkGathered { ga_manifest : string; ga_external : string; ga_uses : list DbspecUse; ga_owned : list DbspecTable }.

Definition gather (used : list (string * list string)) (g : Gathered) (d : DbspecDocument) : Gathered :=
  if doc_external d then
    match externalDocument d (default [] (assoc (doc_name d) used)) with
    | Some trimmed =>
        mkGathered (ga_manifest g) (ga_external g +:+ emitDocument trimmed Manifest)
          (ga_uses g ++ [mkUse [] (doc_name d) (sort_by id (default [] (assoc (doc_name d) used)))]) (ga_owned g)
    | None => g
    end
  else mkGathered (ga_manifest g +:+ emitDocument d Manifest) (ga_external g) (ga_uses g) (ga_owned g ++ doc_tables d).

Definition schemaDocument (uses : list DbspecUse) (owned : list DbspecTable) : DbspecDocument :=
  mkDocument "schema" false uses (sort_by t_name owned) [] [].

Definition dbspecManifest (sha256 : string -> string) (documents : list DbspecDocument) : DbspecManifest + list DbspecDiagnostic :=
  let '(ordered, diagnostics) := checkSet documents in
  match diagnostics with
  | _ :: _ => inr diagnostics
  | [] =>
      let g := foldl (gather (usedOnce ordered)) (mkGathered "" "" [] []) ordered in
      let schemaText := emitDocument (schemaDocument (ga_uses g) (ga_owned g)) Schema in
      inl (mkManifest (ga_manifest g) (ga_external g) schemaText
             (textHash sha256 (ga_manifest g +:+ ga_external g)) (textHash sha256 schemaText))
  end.

(** ** External tables in a database *)

Definition nullText (nullable : bool) : string := if nullable then "null" else "not null".

(** [Array.prototype.find] by name *)
Definition columnOf (t : DbspecTable) (name : string) : option DbspecColumn :=
  List.find (fun c => bool_decide (col_name c = name)) (t_columns t).

Definition tableOf (tables : list DbspecTable) (name : string) : option DbspecTable :=
  List.find (fun t => bool_decide (t_name t = name)) tables.

(** The tables that owned documents use from external documents, each name once. *)
Definition externalTables (documents : list DbspecDocument) : list DbspecTable :=
  let externals := filter (fun d => doc_external d = true) documents in
  let names := concat (map (fun d => if doc_external d then []
    else concat (map (fun u => match byName externals (use_document u) with
                               | Some external => omap (tableOf (doc_tables external)) (use_tables u)
                               | None => [] end) (doc_uses d))) documents) in
  sort_by t_name (foldl (fun acc t => if includes (t_name t) (map t_name acc) then acc else acc ++ [t]) [] names).

Definition columnDifference (table : string) (got : DbspecTable) (c : DbspecColumn) : list string :=
  match columnOf got (col_name c) with
  | None => [str ["column "; table; "."; col_name c; " does not exist"]]
  | Some g =>
      if negb (bool_decide (typeText (col_type g) = typeText (col_type c)))
      then [str ["column "; table; "."; col_name c; " is "; typeText (col_type g); ", not "; typeText (col_type c)]]
      else if negb (Bool.eqb (col_nullable g) (col_nullable c))
      then [str ["column "; table; "."; col_name c; " is "; nullText (col_nullable g); ", not "; nullText (col_nullable c)]]
      else []
  end.

(** [liveTables.get(name)]: of two tables of one name the later. *)
Definition tableDifference (live : DbspecDocument) (want : DbspecTable) : list string :=
  match tableOf (rev (doc_tables live)) (t_name want) with
  | None => [str ["table "; t_name want; " does not exist"]]
  | Some got =>
      concat (map (columnDifference (t_name want) got) (t_columns want)) ++
      (if decide (pk_columns (t_primaryKey got) = pk_columns (t_primaryKey want)) then []
       else [str ["table "; t_name want; " has the primary key ("; join ", " (pk_columns (t_primaryKey got)); "), not (";
                  join ", " (pk_columns (t_primaryKey want)); ")"]]) ++
      concat (map (fun u => if existsb (fun g => bool_decide (un_columns g = un_columns u)) (t_uniques got) then []
                            else [str ["table "; t_name want; " has no unique key ("; join ", " (un_columns u); ")"]]) (t_uniques want))
  end.

Definition externalDifferences (live : DbspecDocument) (documents : list DbspecDocument) : list string :=
  concat (map (tableDifference live) (externalTables documents)).

(** ** What a set reaches *)

Section reach.
Variable ordered : list DbspecDocument.

(** A document uses another of the set. *)
Definition usesName (d : DbspecDocument) (name : string) : Prop :=
  exists u next, u ∈ doc_uses d /\ byName ordered (use_document u) = Some next /\ name = doc_name next.

(** The names that owned documents reach through uses. *)
Inductive Reached : string -> Prop :=
  | reached_owned d name : d ∈ ordered -> doc_external d = false -> usesName d name -> Reached name
  | reached_use name d name' : Reached name -> byName ordered name = Some d -> usesName d name' -> Reached name'.

Lemma byName_some name d : byName ordered name = Some d -> d ∈ ordered /\ doc_name d = name.
Proof.
  intros [Hin Hn]%List.find_some. apply bool_decide_eq_true in Hn. split; [|done]. apply list_elem_of_In. by apply in_rev.
Qed.

Lemma byName_none name : byName ordered name = None <-> name ∉ map doc_name ordered.
Proof.
  unfold byName. split.
  - intros Hno (d & -> & Hd)%list_elem_of_fmap. apply list_elem_of_In, in_rev in Hd. eapply List.find_none in Hno; [|done].
    by apply bool_decide_eq_false in Hno.
  - intros H. destruct (List.find _ _) as [d|] eqn:E; [|done]. exfalso. apply byName_some in E as [Hd <-]. apply H.
    apply list_elem_of_fmap. by exists d.
Qed.

(** The documents whose names are not reached yet: what each level of the walk
    makes smaller. *)
Definition unreached (reached : list string) : nat := length (filter (fun d => doc_name d ∉ reached) ordered).

Lemma filter_length_le {A} (P Q : A -> Prop) `{!forall x, Decision (P x)} `{!forall x, Decision (Q x)} l :
  (forall x, P x -> Q x) -> (length (filter P l) <= length (filter Q l))%nat.
Proof.
  intros Himp. induction l as [|x l IH]; [done|]. rewrite !filter_cons. destruct (decide (P x)) as [Hp|]; destruct (decide (Q x)); simpl; try lia.
  exfalso. eauto.
Qed.

Lemma filter_length_lt {A} (P Q : A -> Prop) `{!forall x, Decision (P x)} `{!forall x, Decision (Q x)} l y :
  (forall x, P x -> Q x) -> y ∈ l -> Q y -> ~ P y -> (length (filter P l) < length (filter Q l))%nat.
Proof.
  intros Himp Hy Qy Py. induction l as [|x l IH]; [by apply elem_of_nil in Hy|]. rewrite !filter_cons.
  apply elem_of_cons in Hy as [->|Hy].
  - rewrite decide_False, decide_True by done. simpl. pose proof (filter_length_le P Q l Himp). lia.
  - specialize (IH Hy). destruct (decide (P x)) as [Hp|]; destruct (decide (Q x)); simpl; try lia. exfalso. eauto.
Qed.

Lemma unreached_mono r r' : (forall x, x ∈ r -> x ∈ r') -> (unreached r' <= unreached r)%nat.
Proof. intros H. apply filter_length_le. intros d Hd Hr. apply Hd. by apply H. Qed.

Lemma unreached_add r d : d ∈ ordered -> doc_name d ∉ r -> (unreached (r ++ [doc_name d]) < unreached r)%nat.
Proof.
  intros Hd Hr. eapply filter_length_lt; [|exact Hd|exact Hr|].
  - intros x Hx Hr'. apply Hx. apply elem_of_app. by left.
  - intros H. apply H. apply elem_of_app. right. by apply list_elem_of_singleton.
Qed.

(** What a walk from [d] gives: it keeps what was reached, has every name that
    [d] uses, and is closed under uses for the names it adds. *)
Record walked (reached : list string) (d : DbspecDocument) (out : list string) : Prop := {
  wk_keeps : forall x, x ∈ reached -> x ∈ out;
  wk_all : forall x, usesName d x -> x ∈ out;
  wk_closed : forall x dx, x ∈ out -> x ∉ reached -> byName ordered x = Some dx -> forall y, usesName dx y -> y ∈ out
}.

(** The same for the uses a walk has gone through so far. *)
Record walkedUses (reached : list string) (us : list DbspecUse) (out : list string) : Prop := {
  wu_keeps : forall x, x ∈ reached -> x ∈ out;
  wu_all : forall u next, u ∈ us -> byName ordered (use_document u) = Some next -> doc_name next ∈ out;
  wu_closed : forall x dx, x ∈ out -> x ∉ reached -> byName ordered x = Some dx -> forall y, usesName dx y -> y ∈ out
}.

Lemma includes_elem (x : string) l : includes x l = true <-> x ∈ l.
Proof. unfold includes. by rewrite bool_decide_eq_true. Qed.

(** One use of the loop. *)
Lemma walkedUses_step fuel reached us acc u :
  (forall r d, (unreached r < fuel)%nat -> walked r d (walk fuel ordered r d)) ->
  (unreached reached <= fuel)%nat -> walkedUses reached us acc ->
  walkedUses reached (us ++ [u])
    match byName ordered (use_document u) with
    | Some next => if includes (doc_name next) acc then acc else walk fuel ordered (acc ++ [doc_name next]) next
    | None => acc
    end.
Proof.
  intros IH Hf [Hk Ha Hc].
  assert (Hsame : (forall next, byName ordered (use_document u) = Some next -> doc_name next ∈ acc) -> walkedUses reached (us ++ [u]) acc).
  { intros Hin. split; [done| |done]. intros u' next [Hu'|Hu']%elem_of_app; [eauto|]. apply list_elem_of_singleton in Hu' as ->. eauto. }
  destruct (byName ordered (use_document u)) as [next|] eqn:E; [|by apply Hsame].
  destruct (includes (doc_name next) acc) eqn:Ei; [apply Hsame; intros ? [= <-]; by apply includes_elem|].
  assert (Hn : doc_name next ∉ acc) by (intros H%includes_elem; congruence).
  destruct (byName_some _ _ E) as [Ho Hname].
  destruct (IH (acc ++ [doc_name next]) next) as [Wk Wa Wc].
  { pose proof (unreached_add acc next Ho Hn). pose proof (unreached_mono reached acc Hk). lia. }
  split.
  - intros x Hx. apply Wk, elem_of_app. left. by apply Hk.
  - intros u' next' [Hu'|Hu']%elem_of_app Hn'.
    + apply Wk, elem_of_app. left. by eapply Ha.
    + apply list_elem_of_singleton in Hu' as ->. rewrite E in Hn'. injection Hn' as <-. apply Wk, elem_of_app. right. by apply list_elem_of_singleton.
  - intros x dx Hx Hr Hd y Hy. destruct (decide (x ∈ acc)) as [Hacc|Hacc].
    + apply Wk, elem_of_app. left. by eapply Hc.
    + destruct (decide (x = doc_name next)) as [->|Hne].
      * apply Wa. rewrite Hname, E in Hd. by injection Hd as ->.
      * eapply Wc; [exact Hx| |exact Hd|exact Hy].
        intros [?|?%list_elem_of_singleton]%elem_of_app; done.
Qed.

(** The walk adds what the document reaches, given fuel for the unreached
    documents: the recursion of [walk] terminates within it. *)
Lemma walk_walked fuel reached d : (unreached reached < fuel)%nat -> walked reached d (walk fuel ordered reached d).
Proof.
  revert reached d. induction fuel as [|fuel IH]; intros reached d Hf; [lia|]. cbn [walk].
  assert (H : walkedUses reached (doc_uses d) (foldl (fun reached u =>
        match byName ordered (use_document u) with
        | Some next => if includes (doc_name next) reached then reached else walk fuel ordered (reached ++ [doc_name next]) next
        | None => reached
        end) reached (doc_uses d))).
  { assert (H0 : walkedUses reached [] reached) by (split; [done|by intros ? ? []%elem_of_nil|done]).
    change (doc_uses d) with ([] ++ doc_uses d) at 1. revert H0. generalize ([] : list DbspecUse) as us. generalize reached at 2 4 as acc.
    induction (doc_uses d) as [|u rest IHr]; intros acc us Ha; simpl; [by rewrite app_nil_r|].
    replace (us ++ u :: rest) with ((us ++ [u]) ++ rest) by (by rewrite <- app_assoc).
    apply IHr. apply walkedUses_step; [exact IH|lia|exact Ha]. }
  destruct H as [Hk Ha Hc]. split; [done| |done]. intros x (u & next & Hu & Hn & ->). by eapply Ha.
Qed.

(** Whatever is closed under uses holds of every name a walk gives. *)
Lemma walk_sound (P : string -> Prop) fuel reached d :
  (forall x dx y, P x -> byName ordered x = Some dx -> usesName dx y -> P y) ->
  (forall x, x ∈ reached -> P x) -> (forall x, usesName d x -> P x) ->
  forall x, x ∈ walk fuel ordered reached d -> P x.
Proof.
  intros Hclosed. revert reached d. induction fuel as [|fuel IH]; intros reached d Hr Hd; [done|]. cbn [walk].
  assert (Hu : forall u next, u ∈ doc_uses d -> byName ordered (use_document u) = Some next -> P (doc_name next)).
  { intros u next Hu Hn. apply Hd. by exists u, next. }
  clear Hd. revert reached Hr. induction (doc_uses d) as [|u rest IHr]; intros reached Hr; simpl; [done|].
  apply IHr; [intros; eapply Hu; [|done]; by right|].
  destruct (byName ordered (use_document u)) as [next|] eqn:E; [|done].
  assert (Pn : P (doc_name next)) by (eapply Hu; [by left|done]).
  destruct (includes _ _); [done|]. apply IH.
  - intros x [?|Hx]%elem_of_app; [auto|]. by apply list_elem_of_singleton in Hx as ->.
  - intros x Hx. eapply Hclosed; [exact Pn| |exact Hx]. by rewrite (proj2 (byName_some _ _ E)).
Qed.

Lemma reachedNames_spec name : name ∈ reachedNames ordered <-> Reached name.
Proof.
  assert (H : forall rest acc, (forall d, d ∈ rest -> d ∈ ordered) ->
    (forall x, x ∈ acc -> Reached x) ->
    (forall x dx y, x ∈ acc -> byName ordered x = Some dx -> usesName dx y -> y ∈ acc) ->
    let out := foldl (fun reached d => if doc_external d then reached else walk (S (length ordered)) ordered reached d) acc rest in
    (forall x, x ∈ out -> Reached x) /\ (forall x, x ∈ acc -> x ∈ out) /\
    (forall d x, d ∈ rest -> doc_external d = false -> usesName d x -> x ∈ out) /\
    (forall x dx y, x ∈ out -> byName ordered x = Some dx -> usesName dx y -> y ∈ out)).
  { induction rest as [|d rest IH]; intros acc Hin Hs Hc; cbn [foldl].
    { cbn zeta. split_and!; [done|done|by intros ? ? []%elem_of_nil|done]. }
    cbn zeta. destruct (doc_external d) eqn:Ed.
    - destruct (IH acc) as (H1 & H2 & H3 & H4); [intros; apply Hin; by right|done|done|].
      split_and!; [done|done| |done]. intros d' x [->|Hd']%elem_of_cons ? ?; [congruence|by eapply H3].
    - destruct (walk_walked (S (length ordered)) acc d) as [Wk Wa Wc].
      { unfold unreached. pose proof (length_filter (fun d => doc_name d ∉ acc) ordered). lia. }
      destruct (IH (walk (S (length ordered)) ordered acc d)) as (H1 & H2 & H3 & H4); [intros; apply Hin; by right| | |].
      + apply walk_sound; [intros; by eapply reached_use|done|]. intros x Hx. eapply reached_owned; [apply Hin; by left|done|done].
      + intros x dx y Hx Hdx Hy. destruct (decide (x ∈ acc)); [apply Wk; by eapply Hc|by eapply Wc].
      + split_and!; [done|auto| |done]. intros d' x [->|Hd']%elem_of_cons ? ?; [by apply H2, Wa|by eapply H3]. }
  destruct (H ordered []) as (H1 & _ & H3 & H4); [done|by intros ? []%elem_of_nil|by intros ? ? ? []%elem_of_nil|].
  split; [apply H1|]. induction 1; [by eapply H3|by eapply H4].
Qed.

End reach.
