(* ===== verification/Model.v ===== *)
(** * The runtime model ([engine/model.ts])

    What the statement compiler reads: the entities of a document set with their
    fields, keys and settings. *)

From S2P Require Import Prelude Documents DocumentSet.

(** ** The runtime model *)

(** One column of an entity. *)
Record Field := mkField {
  f_name : string;
  f_type : string;
  f_nullable : bool;
  f_identity : bool;
  f_hasDefault : bool;
  f_defaultNow : bool;
  f_precision : Z;
  f_scale : Z;
  f_length : Z;
  f_stages : list string;
  f_selected : bool;
  f_primary : bool;
  f_foreign : bool;
  f_blindIndex : string }.

(** One table of the document set. *)
Record Entity := mkEntity {
  e_name : string;
  e_table : string;
  e_fields : list Field;
  e_primaryKey : list string;
  e_identity : string;
  e_uniques : list (list string);
  e_indexes : list string;
  e_indexColumns : list (list string);
  e_updated : string;
  e_softDelete : string;
  e_aesVersion : string;
  e_keyPrefix : string;
  e_order : string;
  e_auditColumn : string;
  e_auditRecord : string;
  e_external : bool }.

Record RuntimeModel := mkModel {
  m_manifestText : string;
  m_manifestHash : string;
  m_externalText : string;
  m_documents : list DbspecDocument;
  m_entities : list (string * Entity) }.

(** The field of an entity: of two fields of one name the map keeps the later. *)
Definition fieldOf (e : Entity) (name : string) : option Field :=
  List.find (fun f => bool_decide (f_name f = name)) (rev (e_fields e)).

Definition entityOf (m : RuntimeModel) (name : string) : option Entity := assoc name (m_entities m).

(** ** From documents to the runtime model *)

Record Sizes := mkSizes { sz_precision : Z; sz_scale : Z; sz_length : Z }.

Definition typeSizes (t : DbspecType) : Sizes :=
  match t with
  | TDecimal p s => mkSizes p s 0
  | TTime p | TDatetime p => mkSizes p 0 0
  | TVarchar n => mkSizes 0 0 n
  | _ => mkSizes 0 0 0
  end.

(** The variables of [entityOfTable] that the settings assign. *)
Record Settings := mkSettings {
  s_name : string; s_updated : string; s_softDelete : string; s_aesVersion : string; s_keyPrefix : string;
  s_order : string; s_auditColumn : string; s_auditRecord : string; s_explicit : list string;
  s_stages : list (string * list string); s_blind : list (string * string) }.

Definition applySetting (v : Settings) (s : DbspecSetting) : Settings :=
  let '(mkSettings n u sd av kp o ac ar ex st bl) := v in
  match s with
  | SEntity name => mkSettings name u sd av kp o ac ar ex st bl
  | SUpdated column => mkSettings n column sd av kp o ac ar ex st bl
  | SSoftDelete column => mkSettings n u column av kp o ac ar ex st bl
  | SAesVersion column => mkSettings n u sd column kp o ac ar ex st bl
  | SKeyPrefix prefix => mkSettings n u sd av prefix o ac ar ex st bl
  | SOrder column => mkSettings n u sd av kp column ac ar ex st bl
  | SSelectExplicit columns => mkSettings n u sd av kp o ac ar (foldl (fun l c => set_add c l) ex columns) st bl
  | SCodec column stages => mkSettings n u sd av kp o ac ar ex (assoc_set column stages st) bl
  | SBlindIndex column indexColumn => mkSettings n u sd av kp o ac ar ex st (assoc_set column indexColumn bl)
  | SAudit a => mkSettings n u sd av kp o (au_column a) (au_references a) ex st bl
  | SNavigation _ _ _ | SImmutable | SMarkdown _ | SStore _ _ | STitle _ | SBody _ | SCheckbox _ _ _ | SStateMachine _ _ => v
  end.

Definition fieldOfColumn (t : DbspecTable) (v : Settings) (c : DbspecColumn) : Field := {|
  f_name := col_name c;
  f_type := type_kind (col_type c);
  f_nullable := col_nullable c;
  f_identity := col_identity c;
  f_hasDefault := bool_decide (is_Some (col_default c));
  f_defaultNow := match col_default c with Some DefaultNow => true | _ => false end;
  f_precision := sz_precision (typeSizes (col_type c));
  f_scale := sz_scale (typeSizes (col_type c));
  f_length := sz_length (typeSizes (col_type c));
  f_stages := default [] (assoc (col_name c) (s_stages v));
  f_selected := negb (includes (col_name c) (s_explicit v));
  f_primary := includes (col_name c) (pk_columns (t_primaryKey t));
  f_foreign := includes (col_name c) (concat (map fk_columns (t_foreignKeys t)));
  f_blindIndex := default "" (assoc (col_name c) (s_blind v)) |}.

Definition entityOfTable (t : DbspecTable) : Entity :=
  let v := foldl applySetting (mkSettings (t_name t) "" "" "" "" "" "" "" [] [] []) (tableSettings t) in
  {| e_name := s_name v;
     e_table := t_name t;
     e_fields := map (fieldOfColumn t v) (t_columns t);
     e_primaryKey := pk_columns (t_primaryKey t);
     e_identity := match List.find col_identity (t_columns t) with Some c => col_name c | None => "" end;
     e_uniques := map un_columns (t_uniques t);
     e_indexes := map un_name (t_uniques t) ++ map ix_name (t_indexes t);
     e_indexColumns := map (fun i => map ic_name (ix_columns i)) (t_indexes t);
     e_updated := s_updated v;
     e_softDelete := s_softDelete v;
     e_aesVersion := s_aesVersion v;
     e_keyPrefix := s_keyPrefix v;
     e_order := s_order v;
     e_auditColumn := s_auditColumn v;
     e_auditRecord := s_auditRecord v;
     e_external := false |}.

(** The table of an external document reduced to its columns and keys. *)
Definition externalEntity (t : DbspecTable) : Entity :=
  let reduced := mkTable (t_comments t) (t_name t) (t_columns t) (t_primaryKey t) (t_uniques t) [] [] [] None (t_closingComments t) in
  let e := entityOfTable reduced in
  {| e_name := e_name e; e_table := e_table e; e_fields := e_fields e; e_primaryKey := e_primaryKey e;
     e_identity := e_identity e; e_uniques := e_uniques e; e_indexes := e_indexes e;
     e_indexColumns := e_indexColumns e; e_updated := e_updated e; e_softDelete := e_softDelete e;
     e_aesVersion := e_aesVersion e; e_keyPrefix := e_keyPrefix e; e_order := e_order e;
     e_auditColumn := e_auditColumn e; e_auditRecord := e_auditRecord e; e_external := true |}.

(** The tables that owned documents use from each external document. *)
Definition usedTables (ordered : list DbspecDocument) : list (string * list string) :=
  foldl (fun used d =>
    if doc_external d then used
    else foldl (fun used u =>
           assoc_set (use_document u) (default [] (assoc (use_document u) used) ++ use_tables u) used)
         used (doc_uses d)) [] ordered.

Definition addEntity (used : list (string * list string)) (d : DbspecDocument)
    (entities : list (string * Entity)) (table : DbspecTable) : res (list (string * Entity)) :=
  if doc_external d && negb (includes (t_name table) (default [] (assoc (doc_name d) used))) then Ok entities
  else
    let e := if doc_external d then externalEntity table else entityOfTable table in
    if bool_decide (is_Some (assoc (e_name e) entities))
    then Err (OrmError SCHEMA_INVALID (str ["entity "; e_name e; " is declared twice in the document set"]))
    else Ok (assoc_set (e_name e) e entities).

(** [result.diagnostics.map(...).join('; ')] *)
Definition diagnosticsText (l : list DbspecDiagnostic) : string :=
  join "; " (map (fun d => str [pretty (dx_line d); ":"; pretty (dx_column d); " "; dx_rule d; ": "; dx_message d]) l).

(** The runtime model of the documents of one set. *)
Definition modelOfDocuments (sha256 : string -> string) (documents : list DbspecDocument) : res RuntimeModel :=
  match dbspecManifest sha256 documents with
  | inr diagnostics => Err (OrmError SCHEMA_INVALID (diagnosticsText diagnostics))
  | inl mf =>
      let ordered := sort_by doc_name documents in
      let used := usedTables ordered in
      entities ← foldR (fun entities d => foldR (addEntity used d) entities (doc_tables d)) [] ordered;
      Ok (mkModel (mf_manifestText mf) (mf_manifestHash mf) (mf_externalText mf) ordered entities)
  end.
