(* ===== verification/Values.v ===== *)
(** * Host values

    The JavaScript values that a caller passes as parameters and that a driver
    returns in a row.  A number is an integer below 10^21 in magnitude, a finite
    number with a fraction (by its text), or one of the non-finite numbers;
    negative zero is a value of its own because [Object.is] tells it apart.  A
    [Date] is held by the text that [dateKeyText] of [database.ts] writes for it,
    and any other value by its [typeof] and by what [JSON.stringify] returns. *)

From S2P Require Import Prelude.

Inductive JsValue :=
  | JUndefined
  | JNull
  | JBool (b : bool)
  | JInt (n : Z)
  | JNegZero
  | JFraction (text : string)
  | JNonFinite (text : string)
  | JBigint (n : Z)
  | JString (s : string)
  | JBytes (bytes : list Z)
  | JDate (instant : string)
  | JOther (typeof : string) (json : option string).

#[global] Instance JsValue_eq_dec : EqDecision JsValue.
Proof. solve_decision. Defined.

(** [typeof value] *)
Definition typeof (v : JsValue) : string :=
  match v with
  | JUndefined => "undefined"
  | JNull | JBytes _ | JDate _ => "object"
  | JBool _ => "boolean"
  | JInt _ | JNegZero | JFraction _ | JNonFinite _ => "number"
  | JBigint _ => "bigint"
  | JString _ => "string"
  | JOther t _ => t
  end.

(** The integer of a value for which [typeof value === 'number' &&
    Number.isSafeInteger(value)] holds. *)
Definition safeNumber (v : JsValue) : option Z :=
  match v with
  | JInt n => if isSafeInteger n then Some n else None
  | JNegZero => Some 0
  | _ => None
  end.
