(* ===== verification/Canonical.v ===== *)
(** * The canonical form of a request ([engine/canonical.ts])

    The plan cache is keyed by the canonical request: an IN list is padded to
    the next power of two, every parameter reference gets a slot of its own in
    the order of a fixed walk, and the parameters follow in slot order. *)

From S2P Require Import Prelude Ir Values.

(** The members of [Canonicalizer] that change: the parameters in slot order,
    and which of the given parameters a reference has named. *)
Record Canon := mkCanon { c_out : list JsValue; c_used : list bool }.

(** The bucket of a list of [n] values: [while (bucket < n) bucket <<= 1].
    The shift is the 32-bit one of JavaScript; a list of that many values does
    not fit in memory, so doubling stands for it.  The fuel [n] is enough. *)
Fixpoint bucketFrom (fuel bucket n : nat) : nat :=
  match fuel with
  | O => bucket
  | S fuel => if (bucket <? n)%nat then bucketFrom fuel (2 * bucket) n else bucket
  end.
Definition bucketOf (n : nat) : nat := bucketFrom n 1 n.

(** The values of an IN list padded to its bucket: [ps[Math.min(j, n - 1)]]. *)
Definition padded (ps : list Z) : list Z :=
  match ps with
  | [] => []
  | p :: _ => map (fun j => nth (Nat.min j (length ps - 1)) ps p) (seq 0 (bucketOf (length ps)))
  end.

(** ** The walk

    The walk of [Canonicalizer.query] over a request, with what it does at a
    parameter reference ([index]), at the values of an IN list ([inlist]) and at
    a page ([limit]) left open. *)

Section Walker.
Context {S : Type}.
Variable index : Z -> M S Z.
Variable inlist : list Z -> M S (list Z).
Variable limit : bool -> Limit -> M S Limit.

Definition walk_ints (ps : list Z) : M S (list Z) := mapS index ps.

Definition walk_fn (f : OrmFunction) : M S OrmFunction :=
  ps ← optS walk_ints (fn_ps f); mret (mkFunction (fn_name f) ps).

Definition walk_column_fn (e : string * ColumnFunctionIR) : M S (string * ColumnFunctionIR) :=
  f ← walk_fn (cf_fn (snd e)); mret (fst e, mkColumnFunction (cf_column (snd e)) f).

Definition walk_assignment (a : Assignment) : M S Assignment :=
  p ← optS index (a_p a);
  plus ← optS index (a_plus_p a);
  minus ← optS index (a_minus_p a);
  mret (mkAssignment (a_column a) p (a_null a) plus minus).

Definition walk_order (o : Order) : M S Order :=
  f ← optS walk_fn (o_fn o); mret (mkOrder (o_column o) (o_desc o) (o_random o) f).

Definition walk_if_parent (i : IfParent) : M S IfParent :=
  p ← index (ip_p i); mret (mkIfParent (ip_column i) p).

Definition walk_optimistic (o : Optimistic) : M S Optimistic :=
  p ← index (opt_p o); mret (mkOptimistic (opt_column o) p).

(** An IN or NOT IN list without a subquery. *)
Definition is_in_list (p : Predicate) : bool :=
  includes (default "" (p_op p)) ["in"; "not_in"] && negb (bool_decide (is_Some (p_sub p))).

Definition walk_ps (p : Predicate) : M S (option (list Z)) :=
  optS (if is_in_list p then inlist else walk_ints) (p_ps p).

(** The entries of a record in key order, which the walk visits. *)
Definition run_entry {A} (e : string * M S A) : M S (string * A) :=
  a ← snd e; mret (fst e, a).

Fixpoint walk_query (root : bool) (q : RequestQuery) {struct q} : M S RequestQuery :=
  columns ← optS walk_columns (q_columns q);
  on ← optS walk_group (q_on q);
  where_ ← optS walk_group (q_where q);
  joins ← optS (mapS walk_join) (q_joins q);
  relations ← optS (mapS walk_relation) (q_relations q);
  order ← optS (mapS walk_order) (q_order q);
  lim ← optS (limit root) (q_limit q);
  if_parent ← optS walk_if_parent (q_if_parent q);
  mret (mkQuery (q_entity q) columns on where_ joins relations order (q_group_by q) lim (q_force_index q)
          (q_lock q) (q_key_by q) (q_flatten q) (q_limit_per_parent q) if_parent (q_no_cascade_delete q))
with walk_columns (c : Projection) {struct c} : M S Projection :=
  fns ← optS (fun l => mapS walk_column_fn (sort_by fst l)) (c_fn c);
  subs ← optS (fun l => mapS run_entry (sort_by fst (map (fun e => (fst e, walk_subquery (snd e))) l))) (c_sub c);
  mret (mkProjection (c_mode c) (c_add c) (c_remove c) fns subs)
with walk_group (g : Group) {struct g} : M S Group :=
  items ← mapS walk_item (g_items g); mret (mkGroup (g_conn g) (g_not g) items)
with walk_item (i : Item) {struct i} : M S Item :=
  pred ← optS walk_predicate (i_pred i);
  group ← optS walk_group (i_group i);
  mret (mkItem pred group (i_joined i))
with walk_predicate (p : Predicate) {struct p} : M S Predicate :=
  v ← optS index (p_p p);
  ps ← walk_ps p;
  fn ← optS walk_fn (p_fn p);
  value ← optS walk_fn (p_value p);
  sub ← optS walk_subquery (p_sub p);
  mret (mkPred (p_conn p) (p_column p) (p_op p) v ps (p_ref p) fn value (p_cols p) sub)
with walk_subquery (s : Subquery) {struct s} : M S Subquery :=
  q ← walk_query false (sq_query s); mret (mkSubquery q (sq_column s) (sq_agg s))
with walk_relation (r : Relation) {struct r} : M S Relation :=
  q ← walk_query false (r_query r); mret (mkRelation (r_rel r) q (r_kind r) (r_keys r))
with walk_join (j : Join) {struct j} : M S Join :=
  q ← walk_query false (j_query j); mret (mkJoin (j_rel j) (j_kind j) q (j_left j) (j_right j)).

Definition walk_request (r : Request) : M S Request :=
  query ← walk_query true (rq_query r);
  set ← optS (mapS walk_assignment) (rq_set r);
  dup ← optS (mapS walk_assignment) (rq_on_duplicate r);
  rows ← optS (mapS walk_ints) (rq_rows r);
  optimistic ← optS walk_optimistic (rq_optimistic r);
  mret (mkRequest query (rq_ir_version r) (rq_manifest_hash r) (rq_kind r) (rq_load r) set dup rows optimistic
          (rq_agg r) (rq_n_params r)).
End Walker.

(** ** The canonicalizer *)

Section Canonicalizer.
Variable params : list JsValue.

(** Adds one slot holding the value of parameter [p] and returns its index. *)
Definition c_index (p : Z) : M Canon Z := fun c =>
  if negb (isSafeInteger p) || (p <? 0) || (Z.of_nat (length params) <=? p)
  then Err (OrmError IR_INVALID (str ["param index "; pretty p; " out of range (n_params "; pretty (Z.of_nat (length params)); ")"]))
  else Ok (Z.of_nat (length (c_out c)),
           mkCanon (c_out c ++ [default JUndefined (params !! Z.to_nat p)])
                   (<[Z.to_nat p := true]> (c_used c))).

(** Adds a root page value at its position in the walk. *)
Definition pageValue (value : Z) : M Canon Z := fun c =>
  if negb (isSafeInteger value)
  then Err (OrmError CODEC_ENCODE "page offset and count must be safe integers")
  else Ok (Z.of_nat (length (c_out c)), mkCanon (c_out c ++ [JInt value]) (c_used c)).

(** Validates and renumbers an already parameterized root page value. *)
Definition pageIndex (p : Z) (is_offset : bool) : M Canon Z :=
  index ← c_index p;
  match safeNumber (default JUndefined (params !! Z.to_nat p)) with
  | None => fail CODEC_ENCODE (str ["page "; (if is_offset then "offset" else "count"); " must be a safe integer"])
  | Some value =>
      if (if is_offset then value <? 0 else value <=? 0) then fail IR_INVALID "limit offset>=0, count>0"
      else mret index
  end.

(** Pads an IN list to its bucket: the slots past the last value repeat it. *)
Definition c_list (ps : list Z) : M Canon (list Z) := mapS c_index (padded ps).

Definition c_limit (root : bool) (l : Limit) : M Canon Limit :=
  match l with
  | LimitValues offset count =>
      if root then
        if negb (isSafeInteger offset) || negb (isSafeInteger count)
        then fail CODEC_ENCODE "page offset and count must be safe integers"
        else if (offset <? 0) || (count <=? 0) then fail IR_INVALID "limit offset>=0, count>0"
        else o ← pageValue offset; n ← pageValue count; mret (LimitParams o n)
      else mret (LimitValues offset count)
  | LimitParams offset_p count_p =>
      if root then o ← pageIndex offset_p true; n ← pageIndex count_p false; mret (LimitParams o n)
      else fail IR_INVALID "limit needs exactly offset and count"
  end.

Definition c_request : Request -> M Canon Request := walk_request c_index c_list c_limit.
End Canonicalizer.

(** The parameters that no reference names, in their order. *)
Fixpoint unused (params : list JsValue) (used : list bool) : list JsValue :=
  match params, used with
  | v :: params, u :: used => (if u : bool then [] else [v]) ++ unused params used
  | _, _ => []
  end.

Definition canonicalize (r : Request) (params : list JsValue) : res (Request * list JsValue) :=
  match c_request params r (mkCanon [] (map (fun _ => false) params)) with
  | Err e => Err e
  | Ok (out, c) =>
      let all := c_out c ++ unused params (c_used c) in
      Ok (mkRequest (rq_query out) (rq_ir_version out) (rq_manifest_hash out) (rq_kind out) (rq_load out)
            (rq_set out) (rq_on_duplicate out) (rq_rows out) (rq_optimistic out) (rq_agg out)
            (Z.of_nat (length all)), all)
  end.

(** ** The buckets of IN lists *)

Lemma bucketFrom_bounds fuel b n :
  (1 <= b)%nat -> (b < 2 * n)%nat -> (n <= b + fuel)%nat ->
  (n <= bucketFrom fuel b n < 2 * n)%nat.
Proof.
  revert b. induction fuel as [|fuel IH]; intros b Hb Hn Hf; simpl; [lia|].
  destruct (Nat.ltb_spec b n); [|lia]. apply IH; lia.
Qed.

Lemma bucketOf_bounds n : (1 <= n)%nat -> (n <= bucketOf n < 2 * n)%nat.
Proof. intros. apply bucketFrom_bounds; lia. Qed.

Lemma bucketFrom_pow fuel b n :
  (exists k, b = 2 ^ k)%nat -> (exists k, bucketFrom fuel b n = 2 ^ k)%nat.
Proof.
  revert b. induction fuel as [|fuel IH]; intros b [k ->]; simpl; [by exists k|].
  destruct (_ <? n)%nat; [|by exists k]. apply IH. exists (S k). simpl. lia.
Qed.

Lemma bucketFrom_twice fuel b n : (exists k, b * 2 ^ k = n)%nat -> (1 <= b)%nat -> (n <= b + fuel)%nat -> bucketFrom fuel b n = n.
Proof.
  revert b. induction fuel as [|fuel IH]; intros b [k Hk] Hb Hf; simpl.
  { destruct k; simpl in Hk; [lia|]. pose proof (Nat.pow_nonzero 2 k). nia. }
  destruct (Nat.ltb_spec b n) as [Hlt|Hge].
  - destruct k as [|k]; simpl in Hk; [lia|]. apply IH; [exists k; simpl in *; lia|lia|lia].
  - destruct k as [|k]; simpl in Hk; [lia|]. pose proof (Nat.pow_nonzero 2 k). nia.
Qed.

(** A bucket is its own bucket. *)
Lemma bucketOf_bucket n : bucketOf (bucketOf n) = bucketOf n.
Proof.
  destruct (decide (n = 0%nat)) as [->|Hn]; [done|].
  pose proof (bucketOf_bounds n ltac:(lia)) as Hb.
  destruct (bucketFrom_pow n 1 n) as [k Hk]; [by exists 0%nat|].
  apply bucketFrom_twice; [exists k; unfold bucketOf in *; lia|lia|lia].
Qed.

Lemma length_padded ps : ps <> [] -> length (padded ps) = bucketOf (length ps).
Proof. destruct ps; [done|]. intros _. unfold padded. by rewrite length_map, length_seq. Qed.

Lemma padded_map f ps : padded (map f ps) = map f (padded ps).
Proof.
  destruct ps as [|p ps]; [done|]. unfold padded. simpl map at 1.
  change (f p :: map f ps) with (map f (p :: ps)). rewrite length_map, map_map.
  apply map_ext. intros j. by rewrite map_nth.
Qed.

(** Padding leaves the values of the list as they are. *)
Lemma elem_of_padded x ps : x ∈ padded ps <-> x ∈ ps.
Proof.
  destruct ps as [|p ps]; [done|]. unfold padded. set (l := p :: ps).
  rewrite list_elem_of_In, in_map_iff. setoid_rewrite in_seq. split.
  - intros (j & <- & _). apply list_elem_of_In, nth_In. subst l. simpl. lia.
  - intros Hx. apply list_elem_of_In, In_nth with (d := p) in Hx as (j & Hj & <-).
    exists j. rewrite Nat.min_l by lia. split; [done|].
    pose proof (bucketOf_bounds (length l) ltac:(subst l; simpl; lia)). lia.
Qed.

Lemma map_nth_seq {A} (l : list A) d : map (fun j => nth j l d) (seq 0 (length l)) = l.
Proof.
  induction l as [|x l IH]; simpl; [done|]. f_equal. by rewrite <- seq_shift, map_map.
Qed.

Lemma padded_full ps : bucketOf (length ps) = length ps -> padded ps = ps.
Proof.
  destruct ps as [|p ps]; [done|]. intros Hb. unfold padded. rewrite Hb. set (l := p :: ps).
  trans (map (fun j => nth j l p) (seq 0 (length l))); [|apply map_nth_seq]. apply map_ext_in. intros j Hj%in_seq. by rewrite Nat.min_l by lia.
Qed.

(** ** The walk as a pure function

    What the walk reads, in order: a parameter, or a page value written in the
    request.  [pure_request] numbers the slots and lists their sources. *)

Inductive Src := SParam (p : Z) | SPage (value : Z).

Definition k_src (x : Src) : M (list Src) Z := fun l => Ok (Z.of_nat (length l), l ++ [x]).
Definition k_index (p : Z) : M (list Src) Z := k_src (SParam p).
Definition k_list (ps : list Z) : M (list Src) (list Z) := mapS k_index (padded ps).
Definition k_limit (root : bool) (l : Limit) : M (list Src) Limit :=
  match l, root with
  | LimitValues o c, true => o ← k_src (SPage o); c ← k_src (SPage c); mret (LimitParams o c)
  | LimitParams o c, true => o ← k_index o; c ← k_index c; mret (LimitParams o c)
  | LimitValues _ _, false => mret l
  | LimitParams _ _, false => fail IR_INVALID "limit needs exactly offset and count"
  end.
Definition pure_request : Request -> M (list Src) Request := walk_request k_index k_list k_limit.

Definition src_value (params : list JsValue) (x : Src) : JsValue :=
  match x with
  | SParam p => default JUndefined (params !! Z.to_nat p)
  | SPage value => JInt value
  end.

(** ** Renaming the parameters of a request *)

Section rename.
Variable f : Z -> Z.
Definition ren_fn (x : OrmFunction) : OrmFunction := mkFunction (fn_name x) (map f <$> fn_ps x).
Definition ren_column_fn (e : string * ColumnFunctionIR) : string * ColumnFunctionIR :=
  (fst e, mkColumnFunction (cf_column (snd e)) (ren_fn (cf_fn (snd e)))).
Definition ren_assignment (a : Assignment) : Assignment :=
  mkAssignment (a_column a) (f <$> a_p a) (a_null a) (f <$> a_plus_p a) (f <$> a_minus_p a).
Definition ren_order (o : Order) : Order :=
  mkOrder (o_column o) (o_desc o) (o_random o) (ren_fn <$> o_fn o).
Definition ren_limit (l : Limit) : Limit :=
  match l with LimitParams o c => LimitParams (f o) (f c) | _ => l end.
Definition ren_if_parent (i : IfParent) : IfParent := mkIfParent (ip_column i) (f (ip_p i)).
Definition ren_optimistic (o : Optimistic) : Optimistic := mkOptimistic (opt_column o) (f (opt_p o)).

Fixpoint ren_query (q : RequestQuery) : RequestQuery :=
  mkQuery (q_entity q) (option_map ren_columns (q_columns q)) (option_map ren_group (q_on q))
    (option_map ren_group (q_where q)) (option_map (map ren_join) (q_joins q))
    (option_map (map ren_relation) (q_relations q)) (map ren_order <$> q_order q) (q_group_by q)
    (ren_limit <$> q_limit q) (q_force_index q) (q_lock q) (q_key_by q) (q_flatten q) (q_limit_per_parent q)
    (ren_if_parent <$> q_if_parent q) (q_no_cascade_delete q)
with ren_columns (c : Projection) : Projection :=
  mkProjection (c_mode c) (c_add c) (c_remove c) (map ren_column_fn <$> c_fn c)
    (option_map (map (fun e => (fst e, ren_subquery (snd e)))) (c_sub c))
with ren_group (g : Group) : Group := mkGroup (g_conn g) (g_not g) (map ren_item (g_items g))
with ren_item (i : Item) : Item :=
  mkItem (option_map ren_pred (i_pred i)) (option_map ren_group (i_group i)) (i_joined i)
with ren_pred (p : Predicate) : Predicate :=
  mkPred (p_conn p) (p_column p) (p_op p) (f <$> p_p p) (map f <$> p_ps p) (p_ref p) (ren_fn <$> p_fn p)
    (ren_fn <$> p_value p) (p_cols p) (option_map ren_subquery (p_sub p))
with ren_subquery (s : Subquery) : Subquery := mkSubquery (ren_query (sq_query s)) (sq_column s) (sq_agg s)
with ren_relation (r : Relation) : Relation := mkRelation (r_rel r) (ren_query (r_query r)) (r_kind r) (r_keys r)
with ren_join (j : Join) : Join := mkJoin (j_rel j) (j_kind j) (ren_query (j_query j)) (j_left j) (j_right j).

Definition ren_request (r : Request) : Request :=
  mkRequest (ren_query (rq_query r)) (rq_ir_version r) (rq_manifest_hash r) (rq_kind r) (rq_load r)
    (map ren_assignment <$> rq_set r) (map ren_assignment <$> rq_on_duplicate r) (map (map f) <$> rq_rows r)
    (ren_optimistic <$> rq_optimistic r) (rq_agg r) (rq_n_params r).
End rename.

(** ** Lockstep of two walks, the second over the renamed request *)

Section walk_sim.
Context {S1 S2 : Type} (R : S1 -> S2 -> Prop) (f : Z -> Z).
Context (index1 : Z -> M S1 Z) (inlist1 : list Z -> M S1 (list Z)) (limit1 : bool -> Limit -> M S1 Limit).
Context (index2 : Z -> M S2 Z) (inlist2 : list Z -> M S2 (list Z)) (limit2 : bool -> Limit -> M S2 Limit).
Hypothesis Hindex : forall p, sim R (index1 p) (index2 (f p)).
Hypothesis Hinlist : forall ps, sim R (inlist1 ps) (inlist2 (map f ps)).
Hypothesis Hlimit : forall root l, sim R (limit1 root l) (limit2 root (ren_limit f l)).

Local Ltac sim_t :=
  repeat (first
    [ apply sim_ret
    | apply (sim_optS R _ _ f) | apply (sim_optS R _ _ (map f)) | apply (sim_optS R _ _ (ren_fn f))
    | apply Hindex | apply Hinlist | apply Hlimit
    | apply sim_bind | apply sim_mapS; intros | progress intros ]).

Lemma sim_ints ps : sim R (walk_ints index1 ps) (walk_ints index2 (map f ps)).
Proof. unfold walk_ints. sim_t. Qed.

Lemma sim_fn x : sim R (walk_fn index1 x) (walk_fn index2 (ren_fn f x)).
Proof. unfold walk_fn. sim_t. Qed.

Lemma sim_column_fn x : sim R (walk_column_fn index1 x) (walk_column_fn index2 (ren_column_fn f x)).
Proof. unfold walk_column_fn. simpl. apply sim_bind; [apply sim_fn|]. sim_t. Qed.

Lemma sim_assignment a : sim R (walk_assignment index1 a) (walk_assignment index2 (ren_assignment f a)).
Proof. unfold walk_assignment. sim_t. Qed.

Lemma sim_order o : sim R (walk_order index1 o) (walk_order index2 (ren_order f o)).
Proof. unfold walk_order. sim_t. Qed.

Lemma sim_ps p : sim R (walk_ps index1 inlist1 p) (walk_ps index2 inlist2 (ren_pred f p)).
Proof.
  unfold walk_ps. replace (is_in_list (ren_pred f p)) with (is_in_list p).
  2:{ destruct p as [?????????[]]; done. }
  replace (p_ps (ren_pred f p)) with (map f <$> p_ps p) by (by destruct p).
  apply (sim_optS R _ _ (map f)). intros ps _. destruct (is_in_list p); [apply Hinlist|apply sim_ints].
Qed.

Local Ltac sim_opt g := apply sim_bind; [apply (sim_optS R _ _ g); intros | intros].

Lemma sim_subs (l : list (string * Subquery)) :
  (forall e, e ∈ l -> sim R (walk_subquery index1 inlist1 limit1 (snd e))
                           (walk_subquery index2 inlist2 limit2 (ren_subquery f (snd e)))) ->
  sim R (mapS run_entry (sort_by fst (map (fun e => (fst e, walk_subquery index1 inlist1 limit1 (snd e))) l)))
        (mapS run_entry (sort_by fst (map (fun e => (fst e, walk_subquery index2 inlist2 limit2 (snd e)))
           (map (fun e => (fst e, ren_subquery f (snd e))) l)))).
Proof.
  intros H. rewrite map_map.
  rewrite (sort_by_map (A := string * Subquery) fst fst) by done.
  rewrite (sort_by_map (A := string * Subquery) fst fst) by done.
  set (l' := sort_by _ _). assert (forall e, e ∈ l' -> e ∈ l) as Hl by (intros e; apply elem_of_sort_by).
  clearbody l'. induction l' as [|e l' IH]; simpl; [apply sim_ret|].
  apply sim_bind.
  - unfold run_entry. simpl. apply sim_bind; [apply H, Hl; by left|]. intros. apply sim_ret.
  - intros. apply sim_bind; [|intros; apply sim_ret]. apply IH. intros. apply Hl. by right.
Qed.

Lemma sim_walk :
  (forall q root, sim R (walk_query index1 inlist1 limit1 root q) (walk_query index2 inlist2 limit2 root (ren_query f q))) /\
  (forall c, sim R (walk_columns index1 inlist1 limit1 c) (walk_columns index2 inlist2 limit2 (ren_columns f c))) /\
  (forall g, sim R (walk_group index1 inlist1 limit1 g) (walk_group index2 inlist2 limit2 (ren_group f g))) /\
  (forall i, sim R (walk_item index1 inlist1 limit1 i) (walk_item index2 inlist2 limit2 (ren_item f i))) /\
  (forall p, sim R (walk_predicate index1 inlist1 limit1 p) (walk_predicate index2 inlist2 limit2 (ren_pred f p))) /\
  (forall s, sim R (walk_subquery index1 inlist1 limit1 s) (walk_subquery index2 inlist2 limit2 (ren_subquery f s))) /\
  (forall r, sim R (walk_relation index1 inlist1 limit1 r) (walk_relation index2 inlist2 limit2 (ren_relation f r))) /\
  (forall j, sim R (walk_join index1 inlist1 limit1 j) (walk_join index2 inlist2 limit2 (ren_join f j))).
Proof.
  apply request_mut_ind.
  - intros [] HC HO HW HJ HR root; simpl in *.
    sim_opt (ren_columns f); [by apply HC|]. sim_opt (ren_group f); [by apply HO|].
    sim_opt (ren_group f); [by apply HW|].
    sim_opt (map (ren_join f)); [apply sim_mapS; by eauto|].
    sim_opt (map (ren_relation f)); [apply sim_mapS; by eauto|].
    sim_opt (map (ren_order f)); [apply sim_mapS; intros; apply sim_order|].
    sim_opt (ren_limit f); [apply Hlimit|].
    sim_opt (ren_if_parent f); [apply sim_bind; [apply Hindex|intros; apply sim_ret]|].
    apply sim_ret.
  - intros [] H; simpl in *.
    sim_opt (map (ren_column_fn f)).
    { rewrite (sort_by_map fst fst) by done. apply sim_mapS. intros. apply sim_column_fn. }
    sim_opt (map (fun e : string * Subquery => (fst e, ren_subquery f (snd e)))); [apply sim_subs; by eauto|]. apply sim_ret.
  - intros [] H; simpl in *. apply sim_bind; [apply sim_mapS; by eauto|intros; apply sim_ret].
  - intros [] HP HG; simpl in *. sim_opt (ren_pred f); [by apply HP|]. sim_opt (ren_group f); [by apply HG|].
    apply sim_ret.
  - intros [] H; simpl in *. sim_opt f; [apply Hindex|].
    apply sim_bind; [eapply sim_ps|intros]. sim_opt (ren_fn f); [apply sim_fn|].
    sim_opt (ren_fn f); [apply sim_fn|]. sim_opt (ren_subquery f); [by apply H|]. apply sim_ret.
  - intros [] H; simpl in *. apply sim_bind; [apply H|intros; apply sim_ret].
  - intros [] H; simpl in *. apply sim_bind; [apply H|intros; apply sim_ret].
  - intros [] H; simpl in *. apply sim_bind; [apply H|intros; apply sim_ret].
Qed.

Lemma sim_request r : sim R (walk_request index1 inlist1 limit1 r) (walk_request index2 inlist2 limit2 (ren_request f r)).
Proof.
  destruct r; unfold walk_request; simpl. apply sim_bind; [apply sim_walk|intros].
  sim_opt (map (ren_assignment f)); [apply sim_mapS; intros; apply sim_assignment|].
  sim_opt (map (ren_assignment f)); [apply sim_mapS; intros; apply sim_assignment|].
  sim_opt (map (map f)); [apply sim_mapS; intros; apply sim_ints|].
  sim_opt (ren_optimistic f); [apply sim_bind; [apply Hindex|intros; apply sim_ret]|].
  apply sim_ret.
Qed.
End walk_sim.

(** ** A second walk over the walked request *)

Lemma mapS_keys {S A B} (g : A -> string) (h : B -> string) (f : A -> M S B) l r s s' :
  (forall a b t t', f a t = Ok (b, t') -> h b = g a) -> mapS f l s = Ok (r, s') -> map h r = map g l.
Proof.
  intros Hk. revert r s. induction l as [|x l IH]; simpl; intros r s H; ok_inv; [done|].
  simpl. f_equal; eauto.
Qed.

Section walk_refix.
Context {S1 S2 : Type} (R : S1 -> S2 -> Prop) (Fut : S1 -> Prop).
Context (index1 : Z -> M S1 Z) (inlist1 : list Z -> M S1 (list Z)) (limit1 : bool -> Limit -> M S1 Limit).
Context (index2 : Z -> M S2 Z) (inlist2 : list Z -> M S2 (list Z)) (limit2 : bool -> Limit -> M S2 Limit).
Hypothesis Hindex : forall p, refix R Fut (index1 p) index2.
Hypothesis Hinlist : forall ps, refix R Fut (inlist1 ps) inlist2.
Hypothesis Hlimit : forall root l, refix R Fut (limit1 root l) (limit2 root).

(** Replays the parts of the first run in the second. *)
Create HintDb refix.
Local Hint Resolve Hindex Hinlist Hlimit refix_optS refix_mapS : refix.
Local Ltac rewind :=
  match goal with
  | HF : Fut ?s1', H : ?m ?s1 = Ok (?a, ?s1') |- _ =>
      let L := fresh "L" in let K := fresh "K" in
      eassert (refix R Fut m _) as L by (solve [eauto 8 with refix]);
      destruct (L s1 a s1' H HF) as [? K]; clear H HF L
  end.
Local Ltac replay :=
  match goal with
  | HR : R ?s1 ?s2, K : forall s2, R ?s1 s2 -> _ |- exists s2', mbind _ _ ?s2 = Ok _ /\ _ =>
      let E := fresh "E" in destruct (K s2 HR) as (? & E & ?); clear HR K;
      rewrite (bindM_step _ _ _ _ _ E); cbn beta; clear E
  end.
Local Ltac replay_all :=
  ok_inv; repeat rewind; split; [done|]; let z := fresh "z" in let h := fresh "HR" in intros z h; cbn -[mbind]; repeat replay; eexists; split; [reflexivity|done].

Lemma refix_ints ps : refix R Fut (walk_ints index1 ps) (walk_ints index2).
Proof. apply refix_mapS. auto. Qed.
Local Hint Resolve refix_ints : refix.

Lemma refix_fn x : refix R Fut (walk_fn index1 x) (walk_fn index2).
Proof. intros s1 a s1' H HF. unfold walk_fn in *. replay_all. Qed.
Local Hint Resolve refix_fn : refix.

Lemma refix_column_fn x : refix R Fut (walk_column_fn index1 x) (walk_column_fn index2).
Proof. intros s1 a s1' H HF. unfold walk_column_fn in *. replay_all. Qed.
Local Hint Resolve refix_column_fn : refix.

Lemma refix_assignment a : refix R Fut (walk_assignment index1 a) (walk_assignment index2).
Proof. intros s1 r s1' H HF. unfold walk_assignment in *. replay_all. Qed.
Local Hint Resolve refix_assignment : refix.

Lemma refix_order o : refix R Fut (walk_order index1 o) (walk_order index2).
Proof. intros s1 r s1' H HF. unfold walk_order in *. replay_all. Qed.
Local Hint Resolve refix_order : refix.

Lemma refix_if_parent i : refix R Fut (walk_if_parent index1 i) (walk_if_parent index2).
Proof. intros s1 r s1' H HF. unfold walk_if_parent in *. replay_all. Qed.
Local Hint Resolve refix_if_parent : refix.

Lemma refix_optimistic o : refix R Fut (walk_optimistic index1 o) (walk_optimistic index2).
Proof. intros s1 r s1' H HF. unfold walk_optimistic in *. replay_all. Qed.
Local Hint Resolve refix_optimistic : refix.

Lemma refix_column_fns l :
  refix R Fut (mapS (walk_column_fn index1) (sort_by fst l)) (fun l => mapS (walk_column_fn index2) (sort_by fst l)).
Proof.
  intros s1 r s1' H HF.
  assert (map fst r = map fst (sort_by fst l)) as Hk.
  { eapply mapS_keys; [|done]. intros ?? t t' ?. unfold walk_column_fn in *. by ok_inv. }
  rewrite (sort_by_id _ r) by (rewrite Hk; apply sort_by_sorted).
  by apply (refix_mapS R Fut _ _ _ (fun x _ => refix_column_fn x) _ _ _ H HF).
Qed.
Local Hint Resolve refix_column_fns : refix.

Lemma refix_run_entries (f1 : Subquery -> M S1 Subquery) (f2 : Subquery -> M S2 Subquery) l :
  (forall e, e ∈ l -> refix R Fut (f1 (snd e)) f2) ->
  refix R Fut (mapS run_entry (map (fun e => (fst e, f1 (snd e))) l))
    (fun l => mapS run_entry (map (fun e => (fst e, f2 (snd e))) l)).
Proof.
  induction l as [|e l IH]; intros Hf s1 r s1'; simpl.
  { intros [<- <-]%retM_ok ?. split; [done|]. intros s2 ?. exists s2. by split. }
  intros (y & t1 & Hy & (ys & t1' & Hys & [<- <-]%retM_ok)%bindM_ok)%bindM_ok HF.
  edestruct IH as (HF1 & K1); [by intros; apply Hf; right|done..|].
  unfold run_entry in Hy. ok_inv. edestruct (Hf e) as (HF2 & K2); [by left|done..|].
  split; [done|]. intros s2 HR.
  destruct (K2 s2 HR) as (t2 & Ey & HR'). destruct (K1 t2 HR') as (t2' & Eys & HR'').
  exists t2'. split; [|done]. simpl. apply bindM_ok. eexists _, t2. split.
  - unfold run_entry. simpl. rewrite (bindM_step _ _ _ _ _ Ey). reflexivity.
  - rewrite (bindM_step _ _ _ _ _ Eys). reflexivity.
Qed.

Lemma refix_entries (f1 : Subquery -> M S1 Subquery) (f2 : Subquery -> M S2 Subquery) l :
  (forall e, e ∈ l -> refix R Fut (f1 (snd e)) f2) ->
  refix R Fut (mapS run_entry (sort_by fst (map (fun e => (fst e, f1 (snd e))) l)))
    (fun l => mapS run_entry (sort_by fst (map (fun e => (fst e, f2 (snd e))) l))).
Proof.
  intros Hf s1 r s1'. rewrite (sort_by_map (A := string * Subquery) fst fst) by done. intros H HF.
  assert (map fst r = map fst (sort_by fst l)) as Hk.
  { trans (map fst (map (fun e : string * Subquery => (fst e, f1 (snd e))) (sort_by fst l))); [|by rewrite map_map].
    eapply mapS_keys; [|done]. intros ?? t t' ?. unfold run_entry in *. by ok_inv. }
  rewrite (sort_by_map (A := string * Subquery) fst fst) by done.
  rewrite (sort_by_id _ r) by (rewrite Hk; apply sort_by_sorted).
  eapply (refix_run_entries f1 f2); [|done..]. intros e. rewrite elem_of_sort_by. apply Hf.
Qed.

Lemma refix_ps p p' : p_op p' = p_op p -> (is_Some (p_sub p) <-> is_Some (p_sub p')) -> forall s1 s1',
  walk_ps index1 inlist1 p s1 = Ok (p_ps p', s1') -> Fut s1' ->
  Fut s1 /\ forall s2, R s1 s2 -> exists s2', walk_ps index2 inlist2 p' s2 = Ok (p_ps p', s2') /\ R s1' s2'.
Proof.
  intros Hop Hsub s1 s1' H HF. unfold walk_ps, is_in_list in *. rewrite Hop.
  rewrite (bool_decide_ext _ _ Hsub) in H.
  destruct (_ && _); eapply (refix_optS R Fut) in H; eauto with refix.
Qed.

Lemma refix_walk :
  (forall q root, refix R Fut (walk_query index1 inlist1 limit1 root q) (walk_query index2 inlist2 limit2 root)) /\
  (forall c, refix R Fut (walk_columns index1 inlist1 limit1 c) (walk_columns index2 inlist2 limit2)) /\
  (forall g, refix R Fut (walk_group index1 inlist1 limit1 g) (walk_group index2 inlist2 limit2)) /\
  (forall i, refix R Fut (walk_item index1 inlist1 limit1 i) (walk_item index2 inlist2 limit2)) /\
  (forall p, refix R Fut (walk_predicate index1 inlist1 limit1 p) (walk_predicate index2 inlist2 limit2)) /\
  (forall s, refix R Fut (walk_subquery index1 inlist1 limit1 s) (walk_subquery index2 inlist2 limit2)) /\
  (forall r, refix R Fut (walk_relation index1 inlist1 limit1 r) (walk_relation index2 inlist2 limit2)) /\
  (forall j, refix R Fut (walk_join index1 inlist1 limit1 j) (walk_join index2 inlist2 limit2)).
Proof.
  apply request_mut_ind.
  - intros [] HC HO HW HJ HL root s1 r s1' H HF; simpl in *. replay_all.
  - intros [] HS s1 r s1' H HF; simpl in *.
    pose proof (fun l E => refix_entries _ _ l (fun e He => HS l e E He)). clear HS. replay_all.
  - intros [] HI s1 r s1' H HF; simpl in *. replay_all.
  - intros [] HP HG s1 r s1' H HF; simpl in *. replay_all.
  - intros p HS s1 r s1' H HF. destruct p eqn:Ep; simpl in *. ok_inv.
    assert (is_Some p_sub <-> is_Some a3) as Hsub.
    { match goal with H : optS (walk_subquery _ _ _) _ _ = _ |- _ => apply optS_ok in H end.
      destruct p_sub; naive_solver. }
    do 3 rewind.
    match goal with
    | HF : Fut ?t, Hps : walk_ps _ _ ?p _ = Ok (?ps, ?t) |- context [mkPred ?c ?n ?o ?v ?ps ?rf ?fn ?va ?cs ?sb] =>
        destruct (refix_ps p (mkPred c n o v ps rf fn va cs sb) eq_refl Hsub _ _ Hps HF) as [? ?]; clear Hps HF
    end.
    rewind. split; [done|]. intros z HR. cbn -[mbind]. repeat replay. eexists; split; [reflexivity|done].
  - intros [] HQ s1 r s1' H HF; simpl in *. replay_all.
  - intros [] HQ s1 r s1' H HF; simpl in *. replay_all.
  - intros [] HQ s1 r s1' H HF; simpl in *. replay_all.
Qed.

Lemma refix_request r : refix R Fut (walk_request index1 inlist1 limit1 r) (walk_request index2 inlist2 limit2).
Proof.
  intros s1 a s1' H HF. pose proof (proj1 refix_walk). unfold walk_request in *. replay_all.
Qed.
End walk_refix.

(** ** Renaming by the identity *)

Lemma option_map_fix {A} (g : A -> A) o : (forall a, o = Some a -> g a = a) -> option_map g o = o.
Proof. destruct o; simpl; intros H; [|done]. by rewrite H. Qed.

Lemma map_fix {A} (g : A -> A) l : (forall a, a ∈ l -> g a = a) -> map g l = l.
Proof.
  induction l as [|x l IH]; simpl; intros H; [done|]. rewrite H by left. rewrite IH; [done|].
  intros. apply H. by right.
Qed.

Section rename_id.
Let f : Z -> Z := fun p => p.

Local Ltac fix_t := first [apply option_map_fix | apply map_fix]; intros.

Lemma ren_fn_id x : ren_fn f x = x.
Proof. destruct x as [n ps]. unfold ren_fn. simpl. f_equal. do 2 fix_t. done. Qed.

Lemma ren_id :
  (forall q, ren_query f q = q) /\ (forall c, ren_columns f c = c) /\ (forall g, ren_group f g = g) /\
  (forall i, ren_item f i = i) /\ (forall p, ren_pred f p = p) /\ (forall s, ren_subquery f s = s) /\
  (forall r, ren_relation f r = r) /\ (forall j, ren_join f j = j).
Proof.
  apply request_mut_ind.
  - intros [] HC HO HW HJ HR; simpl in *. f_equal.
    + fix_t. auto. + fix_t. auto. + fix_t. auto.
    + do 2 fix_t. eauto. + do 2 fix_t. eauto.
    + do 2 fix_t. destruct a0 as [??? fn]. unfold ren_order. simpl. f_equal. fix_t. apply ren_fn_id.
    + fix_t. by destruct a. + fix_t. by destruct a.
  - intros [] H; simpl in *. f_equal.
    + do 2 fix_t. destruct a0 as [k [c fn]]. unfold ren_column_fn. simpl. by rewrite ren_fn_id.
    + do 2 fix_t. destruct a0 as [k s]. simpl. f_equal. by eapply (H a (k, s)).
  - intros [] H; simpl in *. f_equal. fix_t. auto.
  - intros [] H H'; simpl in *. f_equal; fix_t; auto.
  - intros [] H; simpl in *. f_equal.
    + fix_t. done. + do 2 fix_t. done. + fix_t. apply ren_fn_id. + fix_t. apply ren_fn_id. + fix_t. auto.
  - intros [] H; simpl in *. by rewrite H.
  - intros [] H; simpl in *. by rewrite H.
  - intros [] H; simpl in *. by rewrite H.
Qed.

Lemma ren_request_id r : ren_request f r = r.
Proof.
  destruct r. unfold ren_request. simpl. rewrite (proj1 ren_id). f_equal.
  - do 2 fix_t. destruct a0 as [? p ? pl mi]. unfold ren_assignment. simpl. by destruct p, pl, mi.
  - do 2 fix_t. destruct a0 as [? p ? pl mi]. unfold ren_assignment. simpl. by destruct p, pl, mi.
  - do 3 fix_t. done.
  - fix_t. by destruct a.
Qed.
End rename_id.

(** ** The canonicalizer computes the pure walk *)

#[global] Instance Src_eq_dec : EqDecision Src.
Proof. solve_decision. Defined.

(** Which parameters the sources of the slots name. *)
Definition usedBy (params : list JsValue) (l : list Src) : list bool :=
  map (fun i => bool_decide (SParam (Z.of_nat i) ∈ l)) (seq 0 (length params)).

Lemma lookup_usedBy params l i :
  (i < length params)%nat -> usedBy params l !! i = Some (bool_decide (SParam (Z.of_nat i) ∈ l)).
Proof.
  intros Hi. unfold usedBy. rewrite list_lookup_fmap, lookup_seq_lt by done. done.
Qed.

Lemma length_usedBy params l : length (usedBy params l) = length params.
Proof. unfold usedBy. by rewrite length_map, length_seq. Qed.

Lemma usedBy_param params l p :
  0 <= p < Z.of_nat (length params) ->
  <[Z.to_nat p := true]> (usedBy params l) = usedBy params (l ++ [SParam p]).
Proof.
  intros Hp. apply list_eq. intros i.
  destruct (decide (i < length params)%nat) as [Hi|Hi].
  2:{ rewrite !lookup_ge_None_2; rewrite ?length_insert, ?length_usedBy; [done|lia..]. }
  rewrite (lookup_usedBy _ (_ ++ _)) by done. destruct (decide (i = Z.to_nat p)) as [->|Hne].
  - rewrite list_lookup_insert_eq by (rewrite length_usedBy; lia). f_equal. symmetry. apply bool_decide_eq_true_2.
    rewrite Z2Nat.id by lia. apply elem_of_app. right. by left.
  - rewrite list_lookup_insert_ne, lookup_usedBy by done. f_equal. apply bool_decide_ext.
    rewrite elem_of_app, list_elem_of_singleton. split; [by left|]. intros [|[=]]; [done|lia].
Qed.

Lemma usedBy_page params l v : usedBy params l = usedBy params (l ++ [SPage v]).
Proof.
  unfold usedBy. apply map_ext. intros i. apply bool_decide_ext.
  rewrite elem_of_app, list_elem_of_singleton. naive_solver.
Qed.

Section canonical_walk.
Variable params : list JsValue.

(** The canonicalizer's state is determined by the sources of its slots. *)
Definition canon_state (c : Canon) (l : list Src) : Prop :=
  c_out c = map (src_value params) l /\ c_used c = usedBy params l.

Lemma c_index_inv p c i c' :
  c_index params p c = Ok (i, c') ->
  0 <= p < Z.of_nat (length params) /\ i = Z.of_nat (length (c_out c)) /\
  c' = mkCanon (c_out c ++ [src_value params (SParam p)]) (<[Z.to_nat p := true]> (c_used c)).
Proof.
  unfold c_index. destruct (_ || _) eqn:E; [done|]. intros [= <- <-].
  apply orb_false_iff in E as [[_ E1]%orb_false_iff E2]. split; [lia|done].
Qed.

Lemma c_index_sim p : sim canon_state (c_index params p) (k_index p).
Proof.
  intros c l i c' [Ho Hu] (Hp & -> & ->)%c_index_inv. exists (l ++ [SParam p]). split.
  - unfold k_index, k_src. by rewrite Ho, length_map.
  - split; simpl; [by rewrite Ho, map_app|]. by rewrite Hu, usedBy_param.
Qed.

Lemma pageValue_sim v : sim canon_state (pageValue v) (k_src (SPage v)).
Proof.
  intros c l i c' [Ho Hu]. unfold pageValue. destruct (negb _); [done|]. intros [= <- <-].
  exists (l ++ [SPage v]). split.
  - unfold k_src. by rewrite Ho, length_map.
  - split; simpl; [by rewrite Ho, map_app|]. by rewrite Hu, <- usedBy_page.
Qed.

Lemma pageIndex_sim p b : sim canon_state (pageIndex params p b) (k_index p).
Proof.
  intros c l i c' HR H. unfold pageIndex in H. ok_inv.
  destruct (safeNumber _); [|ok_inv]. destruct (if b then _ else _); ok_inv. by eapply c_index_sim.
Qed.

Lemma c_list_sim ps : sim canon_state (c_list params ps) (k_list ps).
Proof.
  unfold c_list, k_list. rewrite <- (map_id (padded ps)) at 2. apply sim_mapS. intros. apply c_index_sim.
Qed.

Lemma c_limit_sim root l : sim canon_state (c_limit params root l) (k_limit root l).
Proof.
  destruct l as [o n|o n], root; simpl; try apply sim_fail; try apply sim_ret.
  - destruct (_ || _); [apply sim_fail|]. destruct (_ || _); [apply sim_fail|].
    repeat (apply sim_bind; [apply pageValue_sim|intros]). apply sim_ret.
  - repeat (apply sim_bind; [apply pageIndex_sim|intros]). apply sim_ret.
Qed.

Lemma c_request_sim r : sim canon_state (c_request params r) (pure_request r).
Proof.
  rewrite <- (ren_request_id r) at 2. unfold c_request, pure_request.
  apply (sim_request canon_state (fun p => p)).
  - apply c_index_sim.
  - intros ps. rewrite map_id. apply c_list_sim.
  - intros root l. replace (ren_limit _ l) with l by (by destruct l). apply c_limit_sim.
Qed.
End canonical_walk.

(** The sources of the slots of a request, in the order of the walk. *)
Definition sources (r : Request) : list Src :=
  match pure_request r [] with Ok (_, l) => l | Err _ => [] end.

Definition with_n_params (r : Request) (n : Z) : Request :=
  mkRequest (rq_query r) (rq_ir_version r) (rq_manifest_hash r) (rq_kind r) (rq_load r) (rq_set r)
    (rq_on_duplicate r) (rq_rows r) (rq_optimistic r) (rq_agg r) n.

Lemma usedBy_nil params : map (fun _ => false) params = usedBy params [].
Proof.
  unfold usedBy. generalize 0%nat. induction params as [|v params IH]; intros k; simpl; [done|]. by rewrite (IH (S k)).
Qed.

Lemma canonicalize_inv r params r' out :
  canonicalize r params = Ok (r', out) ->
  exists q c, c_request params r (mkCanon [] (map (fun _ => false) params)) = Ok (q, c) /\
    pure_request r [] = Ok (q, sources r) /\ canon_state params c (sources r) /\
    out = c_out c ++ unused params (c_used c) /\ r' = with_n_params q (Z.of_nat (length out)).
Proof.
  unfold canonicalize. destruct (c_request _ _ _) as [[q c]|] eqn:E; [|done]. intros [= <- <-].
  edestruct (c_request_sim params r (mkCanon [] (map (fun _ => false) params)) []) as (l & El & HR); [|exact E|].
  { split; [done|]. apply usedBy_nil. }
  assert (sources r = l) as -> by (unfold sources; by rewrite El). exists q, c. by split_and!.
Qed.

(** What the slots hold, for any run that succeeds. *)
Lemma canonicalize_out r params r' out :
  canonicalize r params = Ok (r', out) ->
  out = map (src_value params) (sources r) ++ unused params (usedBy params (sources r)).
Proof. intros (q & c & _ & _ & [Ho Hu] & -> & _)%canonicalize_inv. by rewrite Ho, Hu. Qed.

(** The slots of a numbered list of sources. *)
Definition slots (n : nat) : list Src := map (fun i => SParam (Z.of_nat i)) (seq 0 n).

Lemma slots_S n : slots (S n) = slots n ++ [SParam (Z.of_nat n)].
Proof. unfold slots. by rewrite seq_S, map_app. Qed.

Lemma length_slots n : length (slots n) = n.
Proof. unfold slots. by rewrite length_map, length_seq. Qed.

Section slot_order.
Let R (l1 l2 : list Src) : Prop := l2 = slots (length l1).
Let Fut (l : list Src) : Prop := True.

Lemma k_src_refix x : refix R Fut (k_src x) k_index.
Proof.
  intros l i l' [= <- <-] _. split; [done|]. intros l2 ->. eexists. split.
  - unfold k_index, k_src. by rewrite length_slots.
  - unfold R. rewrite length_app, Nat.add_1_r. by rewrite slots_S.
Qed.

Lemma mapS_length {S A B} (f : A -> M S B) l r s s' : mapS f l s = Ok (r, s') -> length r = length l.
Proof.
  revert r s. induction l as [|x l IH]; simpl; intros r s H; ok_inv; [done|]. simpl. f_equal. eauto.
Qed.

Lemma padded_walked {S} (f : Z -> M S Z) ps r s s' : mapS f (padded ps) s = Ok (r, s') -> padded r = r.
Proof.
  intros H%mapS_length. destruct ps as [|p ps]; [by destruct r|]. apply padded_full. rewrite H.
  rewrite length_padded by done. apply bucketOf_bucket.
Qed.

Lemma k_list_refix ps : refix R Fut (k_list ps) k_list.
Proof.
  intros l r l' H HF. unfold k_list. rewrite (padded_walked _ _ _ _ _ H).
  eapply (refix_mapS R Fut); [|done..]. intros. apply k_src_refix.
Qed.

Lemma k_pair_refix o n l r l' :
  (a ← k_src o; b ← k_src n; mret (LimitParams a b)) l = Ok (r, l') ->
  forall l2, R l l2 -> exists l2', k_limit true r l2 = Ok (r, l2') /\ R l' l2'.
Proof.
  intros (a & l1 & Ha & (b & t & Hb & [<- <-]%retM_ok)%bindM_ok)%bindM_ok l2 HR.
  destruct (k_src_refix _ _ _ _ Ha I) as [_ K]. destruct (K _ HR) as (t1 & E1 & HR1).
  destruct (k_src_refix _ _ _ _ Hb I) as [_ K']. destruct (K' _ HR1) as (t2 & E2 & HR2).
  exists t2. split; [|done]. simpl. by rewrite (bindM_step _ _ _ _ _ E1), (bindM_step _ _ _ _ _ E2).
Qed.

Lemma k_limit_refix root x : refix R Fut (k_limit root x) (k_limit root).
Proof.
  intros l r l' H HF. split; [exact I|]. destruct x as [o n|o n], root; simpl in H.
  - by eapply k_pair_refix.
  - apply retM_ok in H as [<- <-]. intros l2 HR. by exists l2.
  - by eapply k_pair_refix.
  - done.
Qed.

(** The slots of a walked request are numbered from 0 in the order of the walk. *)
Lemma pure_request_slots r q l :
  pure_request r [] = Ok (q, l) -> pure_request q [] = Ok (q, slots (length l)).
Proof.
  intros H. unfold pure_request in *.
  edestruct (refix_request R Fut k_index k_list k_limit k_index k_list k_limit) as [_ K]; [..|exact H|exact I|].
  - intros. apply k_src_refix.
  - apply k_list_refix.
  - apply k_limit_refix.
  - destruct (K [] eq_refl) as (l' & E & ->). exact E.
Qed.
End slot_order.


(** ** Canonicalizing the canonical request again *)

Lemma lookup_prefix_last {A} (l out : list A) x : l ++ [x] `prefix_of` out -> out !! length l = Some x.
Proof. intros [k ->]. rewrite <- app_assoc. simpl. by apply list_lookup_middle. Qed.

Lemma prefix_app_inv {A} (l k out : list A) : l ++ k `prefix_of` out -> l `prefix_of` out.
Proof. intros [m ->]. exists (k ++ m). by rewrite app_assoc. Qed.

Lemma unused_slots_from out n k :
  unused out (map (fun i => bool_decide (SParam (Z.of_nat i) ∈ slots n)) (seq k (length out))) = drop (n - k) out.
Proof.
  assert (forall i, SParam (Z.of_nat i) ∈ slots n <-> (i < n)%nat) as Hin.
  { intros i. unfold slots. rewrite list_elem_of_In, in_map_iff. setoid_rewrite in_seq. split.
    - intros (j & [= Hj] & Hlt). lia.
    - intros Hi. exists i. split; [done|lia]. }
  revert k. induction out as [|v out IH]; intros k; simpl; [by rewrite drop_nil|].
  destruct (decide (k < n)%nat) as [Hlt|Hge].
  - rewrite bool_decide_eq_true_2 by (by apply Hin). simpl. rewrite IH.
    replace (n - k)%nat with (S (n - S k)) by lia. done.
  - rewrite bool_decide_eq_false_2 by (by rewrite Hin). simpl. rewrite IH.
    replace (n - k)%nat with 0%nat by lia. by replace (n - S k)%nat with 0%nat by lia.
Qed.

Section again.
Variables (params out : list JsValue).
Hypothesis Hout : Z.of_nat (length out) < 2 ^ 32.

Let R (c1 c2 : Canon) : Prop :=
  c_out c2 = c_out c1 /\ c_used c2 = usedBy out (slots (length (c_out c1))).
Let Fut (c : Canon) : Prop := c_out c `prefix_of` out.

Lemma c_index_slot c x :
  c_out c ++ [x] `prefix_of` out -> forall c2, R c c2 -> forall used,
  exists c2', c_index out (Z.of_nat (length (c_out c))) c2 = Ok (Z.of_nat (length (c_out c)), c2') /\
    R (mkCanon (c_out c ++ [x]) used) c2'.
Proof.
  intros Hp c2 [Ho Hu] used. pose proof (prefix_length _ _ Hp) as Hlen. rewrite length_app in Hlen. simpl in Hlen.
  unfold c_index, isSafeInteger. rewrite (proj2 (orb_false_iff _ _)).
  2:{ split; [apply orb_false_iff; split|]; [rewrite negb_false_iff|..]; lia. }
  eexists. split; [by rewrite Ho|]. split; simpl.
  - by rewrite Nat2Z.id, (lookup_prefix_last _ _ _ Hp).
  - rewrite length_app, Nat.add_1_r, slots_S, Hu, usedBy_param by lia. done.
Qed.

Lemma c_index_refix p : refix R Fut (c_index params p) (c_index out).
Proof.
  intros c i c' (_ & -> & ->)%c_index_inv HF. split; [by eapply prefix_app_inv|]. intros c2 HR. by eapply c_index_slot.
Qed.

Lemma c_list_refix ps : refix R Fut (c_list params ps) (c_list out).
Proof.
  intros c r c' H HF. unfold c_list. rewrite (padded_walked _ _ _ _ _ H).
  eapply (refix_mapS R Fut); [|done..]. intros. apply c_index_refix.
Qed.

(** A page slot holds a safe integer in range, which is all the second run asks. *)
Definition page_ok (is_offset : bool) (v : JsValue) : Prop :=
  exists n, safeNumber v = Some n /\ (if is_offset then n <? 0 else n <=? 0) = false.

Lemma pageIndex_refix c v b used :
  page_ok b v -> c_out c ++ [v] `prefix_of` out -> forall c2, R c c2 ->
  exists c2', pageIndex out (Z.of_nat (length (c_out c))) b c2 = Ok (Z.of_nat (length (c_out c)), c2') /\
    R (mkCanon (c_out c ++ [v]) used) c2'.
Proof.
  intros (n & Hn & Hb) Hp c2 HR. destruct (c_index_slot c v Hp c2 HR used) as (c2' & E & HR').
  exists c2'. split; [|done]. unfold pageIndex. rewrite (bindM_step _ _ _ _ _ E).
  by rewrite Nat2Z.id, (lookup_prefix_last _ _ _ Hp); simpl; rewrite Hn, Hb.
Qed.

(** What a page value and a page parameter add in the first run. *)
Lemma pageValue_inv v c i c' :
  pageValue v c = Ok (i, c') ->
  isSafeInteger v = true /\ i = Z.of_nat (length (c_out c)) /\ c' = mkCanon (c_out c ++ [JInt v]) (c_used c).
Proof. unfold pageValue. destruct (isSafeInteger v); [|done]. by intros [= <- <-]. Qed.

Lemma pageIndex_inv p b c i c' :
  pageIndex params p b c = Ok (i, c') ->
  exists v used, page_ok b v /\ i = Z.of_nat (length (c_out c)) /\ c' = mkCanon (c_out c ++ [v]) used.
Proof.
  unfold pageIndex. intros (j & s & Hj & H)%bindM_ok. apply c_index_inv in Hj as (_ & -> & ->).
  destruct (safeNumber _) as [n|] eqn:En; [|done]. destruct (if b then _ else _) eqn:Eb; [done|]. ok_inv.
  eexists _, _. split; [|done]. by exists n.
Qed.

Lemma page_pair_refix c v w (u1 u2 : list bool) :
  page_ok true v -> page_ok false w -> (c_out c ++ [v]) ++ [w] `prefix_of` out -> forall c2, R c c2 ->
  let l := LimitParams (Z.of_nat (length (c_out c))) (Z.of_nat (length (c_out c ++ [v]))) in
  exists c2', c_limit out true l c2 = Ok (l, c2') /\ R (mkCanon ((c_out c ++ [v]) ++ [w]) u2) c2'.
Proof.
  intros Hv Hw Hp c2 HR. simpl.
  destruct (pageIndex_refix c v true u1 Hv (prefix_app_inv _ _ _ Hp) c2 HR) as (c3 & E & HR3).
  destruct (pageIndex_refix (mkCanon (c_out c ++ [v]) u1) w false u2 Hw Hp c3 HR3) as (c4 & E' & HR4).
  exists c4. split; [|done]. simpl in E'. by rewrite (bindM_step _ _ _ _ _ E), (bindM_step _ _ _ _ _ E').
Qed.

Lemma c_limit_refix root x : refix R Fut (c_limit params root x) (c_limit out root).
Proof.
  intros c r c' H HF. destruct x as [o n|o n], root; simpl in H; [..|done].
  - destruct (_ || _) eqn:E1 in H; [done|]. destruct (_ || _) eqn:E2 in H; [done|].
    apply orb_false_iff in E2 as [Eo En]. apply bindM_ok in H as (i & s1 & Hi & (j & s2 & Hj & [<- <-]%retM_ok)%bindM_ok).
    apply pageValue_inv in Hi as (So & -> & ->). apply pageValue_inv in Hj as (Sn & -> & ->).
    unfold Fut in *. simpl in *. split; [by do 2 eapply prefix_app_inv|]. intros c2 HR.
    apply (page_pair_refix c (JInt o) (JInt n) (c_used c)); [| |done..]; eexists; simpl; [by rewrite So|by rewrite Sn].
  - apply retM_ok in H as [<- <-]. split; [done|]. intros c2 HR. by exists c2.
  - apply bindM_ok in H as (i & s1 & Hi & (j & s2 & Hj & [<- <-]%retM_ok)%bindM_ok).
    apply pageIndex_inv in Hi as (v & u & Hv & -> & ->). apply pageIndex_inv in Hj as (w & u' & Hw & -> & ->).
    unfold Fut in *. simpl in *. split; [by do 2 eapply prefix_app_inv|]. intros c2 HR.
    by apply (page_pair_refix c v w u).
Qed.

Lemma c_request_refix r : refix R Fut (c_request params r) (c_request out).
Proof.
  exact (refix_request R Fut _ _ _ _ _ _ c_index_refix c_list_refix c_limit_refix r).
Qed.

Lemma c_request_again r q c :
  c_request params r (mkCanon [] (map (fun _ => false) params)) = Ok (q, c) -> c_out c `prefix_of` out ->
  exists c', c_request out q (mkCanon [] (map (fun _ => false) out)) = Ok (q, c') /\
    c_out c' = c_out c /\ unused out (c_used c') = drop (length (c_out c)) out.
Proof.
  intros H HF. destruct (c_request_refix r _ _ _ H HF) as [_ K].
  destruct (K (mkCanon [] (map (fun _ => false) out))) as (c' & E & Ho & Hu).
  { split; [done|]. apply usedBy_nil. }
  exists c'. split_and!; [done..|]. rewrite Hu. unfold usedBy. by rewrite unused_slots_from, Nat.sub_0_r.
Qed.
End again.

Lemma walk_request_n_params {S} (index : Z -> M S Z) inlist limit r n s :
  walk_request index inlist limit (with_n_params r n) s =
  match walk_request index inlist limit r s with
  | Ok (q, s') => Ok (with_n_params q n, s')
  | Err e => Err e
  end.
Proof.
  unfold walk_request, mbind, M_bind, mret, M_ret. simpl.
  repeat (match goal with |- match ?m ?t with _ => _ end = _ => destruct (m t) as [[? ?]|]; simpl; [|done] end). done.
Qed.

(** ** The theorems *)

(** C6: Canonical requests are fixed points: canonicalizing the result, with the
    parameters in slot order, changes neither. *)
Theorem canonicalize_idempotent r params r' out :
  canonicalize r params = Ok (r', out) -> Z.of_nat (length out) < 2 ^ 32 ->
  canonicalize r' out = Ok (r', out).
Proof.
  intros (q & c & Hc & _ & _ & Eo & ->)%canonicalize_inv Hlen.
  destruct (c_request_again params out Hlen r q c Hc) as (c' & E & Ho & Hu); [by exists (unused params (c_used c))|].
  assert (c_out c' ++ unused out (c_used c') = out) as Hall.
  { rewrite Ho, Hu, Eo, drop_app_length. done. }
  unfold canonicalize, c_request in *. rewrite walk_request_n_params, E. by rewrite Hall.
Qed.

(** C7: The slots are numbered 0, 1, ... in the order of the walk, each holds the
    value that its reference had, and what no reference named follows. *)
Theorem canonicalize_slot_order r params r' out :
  canonicalize r params = Ok (r', out) ->
  sources r' = slots (length (sources r)) /\
  map (src_value out) (sources r') = map (src_value params) (sources r) /\
  drop (length (sources r)) out = unused params (usedBy params (sources r)) /\
  rq_n_params r' = Z.of_nat (length out).
Proof.
  intros H. pose proof (canonicalize_out _ _ _ _ H) as Eo.
  apply canonicalize_inv in H as (q & c & _ & Hp & _ & _ & ->).
  assert (sources (with_n_params q (Z.of_nat (length out))) = slots (length (sources r))) as Hs.
  { unfold sources at 1, pure_request. rewrite walk_request_n_params. fold pure_request.
    by rewrite (pure_request_slots _ _ _ Hp). }
  split_and!; [done| |by rewrite Eo, <- (length_map (src_value params)), drop_app_length|done].
  rewrite Hs, Eo. set (l := sources r). generalize (unused params (usedBy params l)). intros tl.
  apply list_eq. intros i. unfold slots. rewrite !list_lookup_fmap.
  destruct (decide (i < length l)%nat) as [Hi|Hi].
  - rewrite lookup_seq_lt by done. simpl. rewrite Nat2Z.id, lookup_app_l by (by rewrite length_map).
    rewrite list_lookup_fmap. by destruct (lookup_lt_is_Some_2 l i Hi) as [x ->].
  - rewrite lookup_seq_ge, lookup_ge_None_2 by lia. done.
Qed.

(** C8: The key does not depend on how the caller numbered its parameters. *)
Theorem canonicalize_key_renumbering (f : Z -> Z) r params1 params2 r1 out1 r2 out2 :
  canonicalize r params1 = Ok (r1, out1) ->
  canonicalize (ren_request f r) params2 = Ok (r2, out2) ->
  (forall n, with_n_params r1 n = with_n_params r2 n) /\
  sources (ren_request f r) = map (fun x => match x with SParam p => SParam (f p) | SPage v => SPage v end) (sources r).
Proof.
  set (g := fun x => match x with SParam p => SParam (f p) | SPage v => SPage v end).
  intros (q1 & c1 & _ & H1 & _ & _ & ->)%canonicalize_inv (q2 & c2 & _ & H2 & _ & _ & ->)%canonicalize_inv.
  assert (forall x, sim (fun l1 l2 => l2 = map g l1) (k_src x) (k_src (g x))) as Hk.
  { intros x l1 l2 a l1' -> [= <- <-]. eexists. split; [unfold k_src; by rewrite length_map|]. by rewrite map_app. }
  destruct (sim_request (fun l1 l2 => l2 = map g l1) f k_index k_list k_limit k_index k_list k_limit) with
    (r := r) (s1 := @nil Src) (s2 := @nil Src) (a := q1) (s1' := sources r) as (l & E & Hl).
  - intros p. apply (Hk (SParam p)).
  - intros ps. unfold k_list. rewrite padded_map. apply sim_mapS. intros p _. apply (Hk (SParam p)).
  - intros [] [o n|o n]; simpl; try apply sim_fail; try apply sim_ret;
      repeat (apply sim_bind; [first [apply (Hk (SParam _)) | apply (Hk (SPage _))]|intros]); apply sim_ret.
  - done.
  - exact H1.
  - unfold pure_request in H2. rewrite E in H2. injection H2 as -> ->. split; [|done].
    intros n. done.
Qed.
