(* ===== verification/Decimal.v ===== *)
(** * Exact decimals ([decimal.ts])

    A decimal value is text; SQLite stores it as an integer scaled by its
    declared scale. *)

From S2P Require Import Prelude Lex Values.

(** ** Digits *)

Definition all_digits (s : string) : bool := forallb is_digit (String.list_ascii_of_string s).

Definition digit_val (a : ascii) : Z := Z.of_N (N_of_ascii a) - 48.

(** The number that a text of digits writes. *)
Fixpoint digits_val (acc : Z) (s : string) : Z :=
  match s with EmptyString => acc | String a s => digits_val (10 * acc + digit_val a) s end.

(** [text.replace(/^0+/, '')] *)
Fixpoint strip_zeros (s : string) : string :=
  match s with
  | String a rest => if decide (a = "0"%char) then strip_zeros rest else s
  | EmptyString => ""
  end.

Definition padEnd (s : string) (n : Z) (c : string) : string := s +:+ repeat_str c (Z.to_nat n - String.length s).
Definition padStart (s : string) (n : Z) (c : string) : string := repeat_str c (Z.to_nat n - String.length s) +:+ s.

(** [JSON.stringify] of a text: the escapes of JSON. *)
Definition jsonEscape (a : ascii) : string :=
  let n := N_of_ascii a in
  if decide (a = dqc) then String "\"%char dq
  else if decide (a = "\"%char) then "\\"
  else if (n =? 8)%N then "\b" else if (n =? 9)%N then "\t" else if (n =? 10)%N then "\n"
  else if (n =? 12)%N then "\f" else if (n =? 13)%N then "\r"
  else if (n <? 16)%N then str ["\u000"; String (if (n <? 10)%N then ascii_of_N (48 + n) else ascii_of_N (87 + n)) ""]
  else if (n <? 32)%N then
    str ["\u001"; String (if (n - 16 <? 10)%N then ascii_of_N (48 + (n - 16)) else ascii_of_N (87 + (n - 16))) ""]
  else String a "".
Definition jsonString (s : string) : string := str [dq; str (map jsonEscape (String.list_ascii_of_string s)); dq].

(** ** The source *)

(** The sign and the two parts of a text that [/^[+-]?[0-9]+(?:\.[0-9]+)?$/] matches. *)
Definition decimalParts (input : string) : option (bool * string * string) :=
  let '(negative, unsigned) :=
    match input with
    | String a rest => if decide (a = "-"%char) then (true, rest) else if decide (a = "+"%char) then (false, rest) else (false, input)
    | EmptyString => (false, input)
    end in
  let digits s := bool_decide (s <> "") && all_digits s in
  match split_on "."%char unsigned with
  | [whole] => if digits whole then Some (negative, whole, "") else None
  | [whole; fraction] => if digits whole && digits fraction then Some (negative, whole, fraction) else None
  | _ => None
  end.

Definition decimalFail {A} (input reason : string) : res A :=
  Err (OrmError CODEC_ENCODE (str ["decimal "; jsonString input; ": "; reason])).

Definition slen (s : string) : Z := Z.of_nat (String.length s).

Definition showDecimal (negative : bool) (whole fraction : string) (scale : Z) : string :=
  str [(if negative then "-" else ""); whole; (if scale =? 0 then "" else str ["."; fraction])].

(** Validates an exact decimal value and pads it to its declared scale. *)
Definition normalizeDecimal (input : string) (precision scale : Z) : res string :=
  if (precision <? 1) || (18 <? precision) || (scale <? 0) || (precision <? scale)
  then decimalFail input "invalid precision or scale"
  else match decimalParts input with
       | None => decimalFail input "invalid text"
       | Some (negative, wholePart, fractionPart) =>
           let whole := if decide (strip_zeros wholePart = "") then "0" else strip_zeros wholePart in
           if scale <? slen fractionPart then decimalFail input "fraction exceeds scale"
           else if precision <? (if decide (whole = "0") then 0 else slen whole) + scale
           then decimalFail input "value exceeds precision"
           else
             let fraction := padEnd fractionPart scale "0" in
             let negative := if bool_decide (whole = "0") && bool_decide (strip_zeros fraction = "") then false else negative in
             Ok (showDecimal negative whole fraction scale)
       end.

(** [BigInt(text)] of a text of digits with an optional sign. *)
Definition bigintOfText (s : string) : Z :=
  match s with
  | String a rest => if decide (a = "-"%char) then - digits_val 0 rest else digits_val 0 s
  | EmptyString => 0
  end.

(** [text.replace('.', '')]: the first one only. *)
Fixpoint drop_first (c : ascii) (s : string) : string :=
  match s with
  | EmptyString => ""
  | String a s => if decide (a = c) then s else String a (drop_first c s)
  end.

(** SQLite stores a declared decimal as an exact scaled signed integer. *)
Definition decimalScaled (input : string) (precision scale : Z) : res Z :=
  t ← normalizeDecimal input precision scale; Ok (bigintOfText (drop_first "."%char t)).

Definition sliceLast (s : string) (n : Z) : string * string :=
  let k := (String.length s - Z.to_nat n)%nat in (String.substring 0 k s, String.substring k (Z.to_nat n) s).

Definition decimalFromScaled (raw : JsValue) (precision scale : Z) : res string :=
  match raw with
  | JBigint raw =>
      let negative := raw <? 0 in
      let digits := padStart (pretty (Z.abs raw)) (scale + 1) "0" in
      let digits := if 0 <? scale then str [fst (sliceLast digits scale); "."; snd (sliceLast digits scale)] else digits in
      match normalizeDecimal (str [(if negative then "-" else ""); digits]) precision scale with
      | Ok t => Ok t
      | Err (OrmError _ msg) => Err (OrmError CODEC_DECODE (str ["invalid scaled decimal cell: OrmError: CODEC_ENCODE: "; msg]))
      | Err e => Err e
      end
  | _ => Err (OrmError CODEC_DECODE (str ["decimal scaled cell has type "; typeof raw]))
  end.

(** ** Digits as numbers *)

Lemma all_digits_cons a s : all_digits (String a s) = is_digit a && all_digits s.
Proof. done. Qed.

Lemma all_digits_app s t : all_digits (s +:+ t) = all_digits s && all_digits t.
Proof. induction s as [|a s IH]; [done|]. rewrite string_app_cons, !all_digits_cons, IH. by rewrite andb_assoc. Qed.

Lemma all_digits_zeros n : all_digits (repeat_str "0" n) = true.
Proof. induction n as [|n IH]; [done|]. exact IH. Qed.

Lemma length_zeros n : String.length (repeat_str "0" n) = n.
Proof. induction n as [|n IH]; [done|]. change (S (String.length (repeat_str "0" n)) = S n). by rewrite IH. Qed.

Lemma digit_range a : is_digit a = true -> 0 <= digit_val a <= 9.
Proof. unfold is_digit, digit_val. intros [?%N.leb_le ?%N.leb_le]%andb_true_iff. lia. Qed.

Lemma digit_inj a b : is_digit a = true -> is_digit b = true -> digit_val a = digit_val b -> a = b.
Proof.
  unfold digit_val. intros _ _ E. rewrite <- (ascii_N_embedding a), <- (ascii_N_embedding b). f_equal. lia.
Qed.

Lemma digits_val_acc acc s : digits_val acc s = acc * 10 ^ slen s + digits_val 0 s.
Proof.
  revert acc. induction s as [|a s IH]; intros acc; [unfold slen; simpl; lia|]. cbn [digits_val].
  rewrite IH, (IH (10 * 0 + digit_val a)). unfold slen. simpl String.length. rewrite Nat2Z.inj_succ, Z.pow_succ_r by lia. ring.
Qed.

Lemma digits_val_app s t : digits_val 0 (s +:+ t) = digits_val 0 s * 10 ^ slen t + digits_val 0 t.
Proof.
  assert (forall acc, digits_val acc (s +:+ t) = digits_val (digits_val acc s) t) as H.
  { induction s as [|a s IH]; [done|]. intros acc. rewrite string_app_cons. cbn [digits_val]. apply IH. }
  rewrite H. apply digits_val_acc.
Qed.

Lemma digits_val_range s : all_digits s = true -> 0 <= digits_val 0 s < 10 ^ slen s.
Proof.
  induction s as [|a s IH]; [unfold slen; simpl; lia|]. rewrite all_digits_cons. intros [Ha Hs]%andb_true_iff.
  apply digit_range in Ha. specialize (IH Hs). cbn [digits_val]. rewrite digits_val_acc.
  unfold slen in *. simpl String.length. rewrite Nat2Z.inj_succ, Z.pow_succ_r by lia.
  pose proof (Z.pow_pos_nonneg 10 (Z.of_nat (String.length s)) ltac:(lia) ltac:(lia)). nia.
Qed.

(** Two texts of digits of one length that write one number are equal. *)
Lemma digits_unique s t :
  all_digits s = true -> all_digits t = true -> String.length s = String.length t -> digits_val 0 s = digits_val 0 t -> s = t.
Proof.
  revert t. induction s as [|a s IH]; intros [|b t] Hs Ht Hl Hv; try done. rewrite all_digits_cons in *.
  apply andb_true_iff in Hs as [Ha Hs], Ht as [Hb Ht]. cbn [digits_val] in Hv. rewrite (digits_val_acc _ s), (digits_val_acc _ t) in Hv.
  assert (slen s = slen t) as El by (unfold slen; simpl in Hl; lia). rewrite El in Hv.
  pose proof (digits_val_range s Hs) as Rs. pose proof (digits_val_range t Ht) as Rt. rewrite El in Rs.
  pose proof (digit_range _ Ha). pose proof (digit_range _ Hb).
  assert (digit_val a = digit_val b) as Ed by nia. f_equal; [by apply digit_inj|]. apply IH; [done|done|simpl in Hl; lia|nia].
Qed.

Lemma digits_val_zeros n : digits_val 0 (repeat_str "0" n) = 0.
Proof. induction n as [|n IH]; [done|]. exact IH. Qed.

Lemma digits_val_strip s : digits_val 0 (strip_zeros s) = digits_val 0 s.
Proof. induction s as [|a s IH]; [done|]. simpl. case_decide; [|done]. subst. by rewrite IH. Qed.

Lemma all_digits_strip s : all_digits s = true -> all_digits (strip_zeros s) = true.
Proof. induction s as [|a s IH]; [done|]. intros H. simpl. case_decide; [|done]. apply IH. by apply andb_true_iff in H as [_ ?]. Qed.

Lemma strip_zeros_idem s : strip_zeros (strip_zeros s) = strip_zeros s.
Proof. induction s as [|a s IH]; [done|]. simpl. case_decide; [done|]. simpl. by rewrite decide_False. Qed.

Lemma length_strip s : (String.length (strip_zeros s) <= String.length s)%nat.
Proof. induction s as [|c s IH]; simpl; [lia|]. case_decide; simpl; lia. Qed.

Lemma strip_empty s : all_digits s = true -> strip_zeros s = "" <-> digits_val 0 s = 0.
Proof.
  intros Hd. rewrite <- digits_val_strip. split; [by intros ->|]. pose proof (all_digits_strip s Hd) as H. pose proof (strip_zeros_idem s) as Hi.
  destruct (strip_zeros s) as [|a t]; [done|]. intros Hv. exfalso. rewrite all_digits_cons in H. apply andb_true_iff in H as [Ha Ht].
  cbn [digits_val] in Hv. rewrite digits_val_acc in Hv. pose proof (digits_val_range t Ht). pose proof (digit_range _ Ha).
  pose proof (Z.pow_pos_nonneg 10 (slen t) ltac:(lia) ltac:(unfold slen; lia)). assert (digit_val a = 0) as E by nia.
  simpl in Hi. destruct (decide (a = "0"%char)) as [->|Hne].
  - apply (f_equal String.length) in Hi. simpl in Hi. pose proof (length_strip t). lia.
  - apply Hne. by apply digit_inj.
Qed.

(** The digits of a number. *)
Lemma digits_pretty_N_go x s : all_digits s = true -> all_digits (pretty_N_go x s) = true /\
  digits_val 0 (pretty_N_go x s) = Z.of_N x * 10 ^ slen s + digits_val 0 s.
Proof.
  revert s. induction (N.lt_wf_0 x) as [x _ IH]. intros s Hs. destruct (decide (0 < x)%N) as [Hx|Hx].
  2:{ replace x with 0%N by lia. rewrite pretty_N_go_0. split; [done|lia]. }
  rewrite pretty_N_go_step by done. pose proof (N.mod_lt x 10 ltac:(lia)) as Hm.
  assert (is_digit (pretty_N_char (x mod 10)) = true /\ digit_val (pretty_N_char (x mod 10)) = Z.of_N (x mod 10)) as [Hc Hv].
  { revert Hm. generalize (x mod 10)%N. intros r Hr. 
    assert (r = 0 \/ r = 1 \/ r = 2 \/ r = 3 \/ r = 4 \/ r = 5 \/ r = 6 \/ r = 7 \/ r = 8 \/ r = 9)%N as H by lia.
    by repeat (destruct H as [->|H]; [done|]); subst. }
  destruct (IH (x / 10)%N (N.div_lt x 10 Hx eq_refl) (String (pretty_N_char (x mod 10)) s)) as [H1 H2].
  { by rewrite all_digits_cons, Hc. }
  split; [done|]. rewrite H2. cbn [digits_val]. rewrite digits_val_acc, Hv. unfold slen. simpl String.length.
  rewrite Nat2Z.inj_succ, Z.pow_succ_r by lia. pose proof (N.div_mod x 10 ltac:(lia)) as Hdm.
  apply (f_equal Z.of_N) in Hdm. rewrite N2Z.inj_add, N2Z.inj_mul in Hdm. change (Z.of_N 10) with 10 in Hdm. nia.
Qed.

Lemma digits_pretty z : 0 <= z -> all_digits (pretty z) = true /\ digits_val 0 (pretty z) = z /\ pretty z <> "".
Proof.
  intros Hz. destruct z as [|p|p]; [done| |lia].
  change (pretty (Z.pos p)) with (pretty (N.pos p)). unfold pretty, pretty_N. rewrite decide_False by done.
  destruct (digits_pretty_N_go (N.pos p) "" eq_refl) as [H1 H2]. split; [done|]. rewrite H2. unfold slen. simpl. split; [lia|].
  intros E. rewrite E in H2. unfold slen in H2. simpl in H2. lia.
Qed.

(** ** Canonical form *)

(** The value of a text's parts in units of [10 ^ -scale]. *)
Definition unitsOf (whole fraction : string) (scale : Z) : Z :=
  digits_val 0 whole * 10 ^ scale + digits_val 0 fraction * 10 ^ (scale - slen fraction).

Definition signed (negative : bool) (n : Z) : Z := if negative then - n else n.

Definition declared (precision scale : Z) : Prop := 1 <= precision <= 18 /\ 0 <= scale <= precision.

(** A whole part as [normalizeDecimal] writes it. *)
Definition canonWhole (whole : string) : Prop :=
  all_digits whole = true /\ (whole = "0" \/ whole <> "" /\ strip_zeros whole = whole).

Record canonDecimal (precision scale : Z) (negative : bool) (whole fraction : string) : Prop := {
  cd_declared : declared precision scale;
  cd_whole : canonWhole whole;
  cd_fraction : all_digits fraction = true;
  cd_scale : slen fraction = scale;
  cd_precision : whole = "0" \/ slen whole + scale <= precision;
  cd_sign : negative = true -> digits_val 0 whole <> 0 \/ digits_val 0 fraction <> 0
}.

Definition wholeText (s : string) : string := if decide (strip_zeros s = "") then "0" else strip_zeros s.

Lemma canonWhole_text s : all_digits s = true -> canonWhole (wholeText s).
Proof.
  intros H. unfold wholeText. case_decide as E; split; auto using all_digits_strip, strip_zeros_idem.
Qed.

Lemma wholeText_val s : all_digits s = true -> digits_val 0 (wholeText s) = digits_val 0 s.
Proof.
  intros H. unfold wholeText. case_decide as E; [|apply digits_val_strip]. apply strip_empty in E; [|done]. by rewrite E.
Qed.

Lemma wholeText_canon s : canonWhole s -> wholeText s = s.
Proof. unfold wholeText. intros [_ [->|[Hne E]]]; [done|]. rewrite E. by rewrite decide_False. Qed.

Lemma slen_nonneg s : 0 <= slen s.
Proof. unfold slen. lia. Qed.

Lemma slen_app s t : slen (s +:+ t) = slen s + slen t.
Proof. unfold slen. rewrite string_length_app. lia. Qed.

Lemma pow10_pos n : 0 <= n -> 0 < 10 ^ n.
Proof. intros. apply Z.pow_pos_nonneg; lia. Qed.

(** A text of digits without a leading zero is as long as its value needs. *)
Lemma stripped_low s : all_digits s = true -> s <> "" -> strip_zeros s = s -> 10 ^ (slen s - 1) <= digits_val 0 s.
Proof.
  destruct s as [|a s]; [done|]. intros [Ha Hs]%andb_true_iff _ E. cbn [digits_val]. rewrite digits_val_acc.
  assert (digit_val a <> 0) as Hn.
  { intros H0. assert (a = "0"%char) as -> by (by apply digit_inj).
    simpl in E. apply (f_equal String.length) in E. pose proof (length_strip s). simpl in E. lia. }
  pose proof (digit_range _ Ha). pose proof (digits_val_range s Hs). pose proof (pow10_pos (slen s) (slen_nonneg s)).
  replace (slen (String a s) - 1) with (slen s) by (unfold slen; simpl String.length; lia). nia.
Qed.

(** Two canonical whole parts of one value are one text. *)
Lemma canonWhole_unique s t : canonWhole s -> canonWhole t -> digits_val 0 s = digits_val 0 t -> s = t.
Proof.
  intros [Ds Hs] [Dt Ht] E.
  assert (forall u, all_digits u = true -> u <> "" -> strip_zeros u = u -> digits_val 0 u <> 0) as Hz.
  { intros u Du Hu Eu Hv. apply Hu. rewrite <- Eu. by apply strip_empty. }
  destruct Hs as [->|[Ns Ss]], Ht as [->|[Nt St]]; [done| | |].
  - exfalso. by apply (Hz t).
  - exfalso. by apply (Hz s).
  - apply digits_unique; try done. pose proof (stripped_low s Ds Ns Ss). pose proof (stripped_low t Dt Nt St).
    pose proof (digits_val_range s Ds). pose proof (digits_val_range t Dt).
    assert (slen s - 1 < slen t) by (apply (Z.pow_lt_mono_r_iff 10); unfold slen in *; lia).
    assert (slen t - 1 < slen s) by (apply (Z.pow_lt_mono_r_iff 10); unfold slen in *; lia). unfold slen in *. lia.
Qed.

(** ** What [decimalParts] reads *)

Lemma is_digit_not a c : is_digit a = true -> is_digit c = false -> a <> c.
Proof. congruence. Qed.

Lemma split_digits s : all_digits s = true -> split_on "."%char s = [s].
Proof.
  induction s as [|a s IH]; [done|]. intros [Ha Hs]%andb_true_iff. simpl. rewrite decide_False by (by apply is_digit_not).
  by rewrite IH.
Qed.

Lemma split_point s t : all_digits s = true -> all_digits t = true -> split_on "."%char (s +:+ String "." t) = [s; t].
Proof.
  intros Hs Ht. induction s as [|a s IH].
  - simpl. by rewrite split_digits.
  - apply andb_true_iff in Hs as [Ha Hs]. rewrite string_app_cons. simpl. rewrite decide_False by (by apply is_digit_not).
    by rewrite IH.
Qed.

Lemma decimalParts_shown negative whole fraction scale :
  whole <> "" -> all_digits whole = true -> all_digits fraction = true -> slen fraction = scale ->
  decimalParts (showDecimal negative whole fraction scale) = Some (negative, whole, fraction).
Proof.
  intros Hw Dw Df Hs. unfold showDecimal.
  assert (str [if negative then "-" else ""; whole; if scale =? 0 then "" else str ["."; fraction]] =
          (if negative then "-" else "") +:+ (whole +:+ (if scale =? 0 then "" else String "." fraction))) as ->.
  { unfold str. destruct negative; simpl; rewrite ?string_app_nil_r; by destruct (scale =? 0); rewrite ?string_app_nil_r. }
  assert (split_on "."%char (whole +:+ (if scale =? 0 then "" else String "." fraction)) = if scale =? 0 then [whole] else [whole; fraction]) as Hsp.
  { destruct (scale =? 0); [rewrite string_app_nil_r; by apply split_digits|by apply split_point]. }
  assert (Hf : if scale =? 0 then fraction = "" else fraction <> "").
  { unfold slen in Hs. destruct (Z.eqb_spec scale 0), fraction; simpl in *; try done; lia. }
  unfold decimalParts. destruct negative; [rewrite string_app_cons|].
  - rewrite decide_True by done. change ("" +:+ ?x) with x. rewrite Hsp. destruct (scale =? 0); subst; rewrite ?Dw, ?Df; rewrite !bool_decide_true by done; done.
  - change ("" +:+ ?x) with x. destruct whole as [|a w]; [done|]. rewrite string_app_cons in *.
    pose proof Dw as [Ha _]%andb_true_iff. rewrite !decide_False by (by apply is_digit_not).
    rewrite Hsp. destruct (scale =? 0); subst; rewrite ?Dw, ?Df; rewrite !bool_decide_true by done; done.
Qed.

Lemma decimalParts_wf input n w f : decimalParts input = Some (n, w, f) -> all_digits w = true /\ all_digits f = true /\ w <> "".
Proof.
  unfold decimalParts. destruct (match input with EmptyString => _ | _ => _ end) as [neg u].
  destruct (split_on _ u) as [|x [|y [|z l]]]; try done.
  - destruct (bool_decide_reflect (x <> "")); [|done]. simpl. destruct (all_digits x) eqn:E; [|done]. by intros [= <- <- <-].
  - destruct (bool_decide_reflect (x <> "")); [|done]. simpl. destruct (all_digits x) eqn:E; [|done]. simpl.
    destruct (bool_decide_reflect (y <> "")); [|done]. simpl. destruct (all_digits y) eqn:E'; [|done]. by intros [= <- <- <-].
Qed.

(** ** What [normalizeDecimal] accepts and returns *)

Lemma padEnd_facts f scale : all_digits f = true -> slen f <= scale ->
  all_digits (padEnd f scale "0") = true /\ slen (padEnd f scale "0") = scale /\
  digits_val 0 (padEnd f scale "0") = digits_val 0 f * 10 ^ (scale - slen f).
Proof.
  intros Hf Hl. unfold padEnd. rewrite all_digits_app, slen_app, digits_val_app, Hf, all_digits_zeros, digits_val_zeros.
  assert (slen (repeat_str "0" (Z.to_nat scale - String.length f)) = scale - slen f) as ->
    by (unfold slen in *; rewrite length_zeros; lia).
  split_and!; [done|lia|ring].
Qed.

Lemma unitsOf_shown whole fraction scale : slen fraction = scale ->
  unitsOf whole fraction scale = digits_val 0 whole * 10 ^ scale + digits_val 0 fraction.
Proof. intros E. unfold unitsOf. rewrite E, Z.sub_diag. change (10 ^ 0) with 1. ring. Qed.

Lemma unitsOf_normal whole fraction scale :
  all_digits whole = true -> all_digits fraction = true -> slen fraction <= scale ->
  unitsOf (wholeText whole) (padEnd fraction scale "0") scale = unitsOf whole fraction scale.
Proof.
  intros Hw Hf Hl. destruct (padEnd_facts fraction scale Hf Hl) as (_ & Hs & Hv).
  rewrite unitsOf_shown by done. unfold unitsOf. by rewrite wholeText_val, Hv.
Qed.

(** The sign that the result keeps: zero has none. *)
Definition keptSign (negative : bool) (whole fraction : string) (scale : Z) : bool :=
  negative && negb (unitsOf whole fraction scale =? 0).

Lemma keptSign_spec n w f scale : all_digits w = true -> all_digits f = true -> slen f <= scale ->
  (if bool_decide (wholeText w = "0") && bool_decide (strip_zeros (padEnd f scale "0") = "") then false else n) = keptSign n w f scale.
Proof.
  intros Hw Hf Hl. pose proof (unitsOf_normal w f scale Hw Hf Hl) as Hu. destruct (padEnd_facts f scale Hf Hl) as (Dp & Lp & Vp).
  rewrite unitsOf_shown in Hu by done. unfold keptSign. rewrite <- Hu.
  pose proof (canonWhole_text w Hw) as Cw. pose proof (slen_nonneg f).
  pose proof (digits_val_range _ Dp). pose proof (digits_val_range (wholeText w) (proj1 Cw)). pose proof (pow10_pos scale ltac:(lia)).
  destruct (decide (wholeText w = "0")) as [E|E].
  - rewrite bool_decide_true by done. rewrite E. change (digits_val 0 "0") with 0. rewrite Z.mul_0_l, Z.add_0_l, andb_true_l.
    destruct (Z.eqb_spec (digits_val 0 (padEnd f scale "0")) 0) as [E0|E0].
    + rewrite bool_decide_true by (by apply strip_empty). by destruct n.
    + rewrite bool_decide_false by (by rewrite strip_empty). by destruct n.
  - rewrite bool_decide_false by done. simpl.
    assert (digits_val 0 (wholeText w) <> 0). { intros Hz. apply E. apply canonWhole_unique; [done|split; auto|exact Hz]. }
    destruct (Z.eqb_spec (digits_val 0 (wholeText w) * 10 ^ scale + digits_val 0 (padEnd f scale "0")) 0); [nia|by destruct n].
Qed.

Lemma declared_test precision scale :
  declared precision scale <-> (precision <? 1) || (18 <? precision) || (scale <? 0) || (precision <? scale) = false.
Proof. unfold declared. rewrite !orb_false_iff, !Z.ltb_ge. lia. Qed.

(** The length of a canonical whole part bounds its value, and the other way round. *)
Lemma whole_fits w n : 0 <= n -> canonWhole w ->
  (if decide (w = "0") then 0 else slen w) <= n <-> digits_val 0 w < 10 ^ n.
Proof.
  intros Hn [Dw Cw]. pose proof (pow10_pos n Hn). case_decide as E.
  - subst. change (digits_val 0 "0") with 0. lia.
  - destruct Cw as [?|[Nw Sw]]; [done|]. pose proof (stripped_low w Dw Nw Sw). pose proof (digits_val_range w Dw).
    pose proof (slen_nonneg w). split; intros Hle.
    + pose proof (Z.pow_le_mono_r 10 (slen w) n ltac:(lia) Hle). lia.
    + assert (slen w - 1 < n) by (apply (Z.pow_lt_mono_r_iff 10); lia). lia.
Qed.

Lemma normalize_accepted input precision scale n w f :
  declared precision scale -> decimalParts input = Some (n, w, f) -> slen f <= scale -> digits_val 0 w < 10 ^ (precision - scale) ->
  normalizeDecimal input precision scale = Ok (showDecimal (keptSign n w f scale) (wholeText w) (padEnd f scale "0") scale).
Proof.
  intros Hd Hp Hl Hv. destruct (decimalParts_wf _ _ _ _ Hp) as (Dw & Df & _). unfold normalizeDecimal.
  rewrite (proj1 (declared_test _ _) Hd), Hp. fold (wholeText w). rewrite (proj2 (Z.ltb_ge _ _) Hl).
  rewrite keptSign_spec by done. assert (precision <? (if decide (wholeText w = "0") then 0 else slen (wholeText w)) + scale = false) as ->; [|done].
  apply Z.ltb_ge. enough ((if decide (wholeText w = "0") then 0 else slen (wholeText w)) <= precision - scale) by lia.
  apply whole_fits; [destruct Hd; lia|by apply canonWhole_text|by rewrite wholeText_val].
Qed.

Lemma normalize_inv input precision scale t : normalizeDecimal input precision scale = Ok t ->
  exists n w f, declared precision scale /\ decimalParts input = Some (n, w, f) /\ slen f <= scale /\ digits_val 0 w < 10 ^ (precision - scale).
Proof.
  unfold normalizeDecimal. destruct (_ || _) eqn:Hd; [done|]. apply declared_test in Hd.
  destruct (decimalParts input) as [[[n w] f]|] eqn:Hp; [|done]. fold (wholeText w). destruct (decimalParts_wf _ _ _ _ Hp) as (Dw & Df & _).
  destruct (scale <? slen f) eqn:Hl; [done|]. destruct (precision <? _) eqn:Hf; [done|]. intros _.
  apply Z.ltb_ge in Hl, Hf. exists n, w, f. split_and!; try done. rewrite <- wholeText_val by done.
  apply whole_fits; [destruct Hd; lia|by apply canonWhole_text|lia].
Qed.

Lemma normal_canon precision scale n w f :
  declared precision scale -> all_digits w = true -> all_digits f = true -> slen f <= scale -> digits_val 0 w < 10 ^ (precision - scale) ->
  canonDecimal precision scale (keptSign n w f scale) (wholeText w) (padEnd f scale "0").
Proof.
  intros Hd Dw Df Hl Hv. destruct (padEnd_facts f scale Df Hl) as (Dp & Lp & Vp). pose proof (canonWhole_text w Dw) as Cw.
  split; try done.
  - assert ((if decide (wholeText w = "0") then 0 else slen (wholeText w)) <= precision - scale) as Hfit.
    { apply whole_fits; [destruct Hd; lia|done|by rewrite wholeText_val]. }
    case_decide; [by left|right; lia].
  - unfold keptSign. rewrite <- unitsOf_normal, unitsOf_shown by done. destruct n; [|done]. simpl.
    intros Hn%negb_true_iff%Z.eqb_neq. destruct (decide (digits_val 0 (wholeText w) = 0)) as [E|]; [right|by left]. lia.
Qed.

Lemma canonDecimal_fits precision scale n w f : canonDecimal precision scale n w f -> digits_val 0 w < 10 ^ (precision - scale).
Proof.
  intros [Hd Cw Df Lf Hp _]. apply whole_fits; [destruct Hd; lia|done|]. destruct Hd. case_decide; [lia|]. destruct Hp; [done|lia].
Qed.

(** ** Scaled integers *)

Lemma normalize_canonical precision scale n w f : canonDecimal precision scale n w f ->
  normalizeDecimal (showDecimal n w f scale) precision scale = Ok (showDecimal n w f scale).
Proof.
  intros C. pose proof (canonDecimal_fits _ _ _ _ _ C) as Hv. destruct C as [Hd Cw Df Lf Hp Hs].
  assert (w <> "") as Nw. { destruct Cw as [_ [->|[? _]]]; done. }
  rewrite (normalize_accepted _ _ _ n w f); [|done|by apply decimalParts_shown; [..|apply Cw| |]|lia|done].
  rewrite wholeText_canon by done. unfold padEnd. replace (Z.to_nat scale - String.length f)%nat with 0%nat by (unfold slen in Lf; lia).
  change (repeat_str "0" 0) with "". rewrite string_app_nil_r. do 2 f_equal. unfold keptSign. rewrite unitsOf_shown by done.
  destruct n; [|done]. destruct (Z.eqb_spec (digits_val 0 w * 10 ^ scale + digits_val 0 f) 0) as [E|]; [exfalso|done].
  pose proof (digits_val_range w (proj1 Cw)). pose proof (digits_val_range f Df). destruct Hd. pose proof (pow10_pos scale ltac:(lia)).
  destruct (Hs eq_refl); nia.
Qed.

Lemma drop_point s t : all_digits s = true -> drop_first "."%char (s +:+ String "." t) = s +:+ t.
Proof.
  induction s as [|a s IH]; [done|]. intros [Ha Hs]%andb_true_iff. rewrite !string_app_cons. simpl.
  rewrite decide_False by (by apply is_digit_not). by rewrite IH.
Qed.

Lemma drop_digits s : all_digits s = true -> drop_first "."%char s = s.
Proof. induction s as [|a s IH]; [done|]. intros [Ha Hs]%andb_true_iff. simpl. rewrite decide_False by (by apply is_digit_not). by rewrite IH. Qed.

Lemma bigint_digits s : all_digits s = true -> bigintOfText s = digits_val 0 s.
Proof. destruct s as [|a s]; [done|]. intros [Ha Hs]%andb_true_iff. simpl. by rewrite decide_False by (by apply is_digit_not). Qed.

Lemma bigint_shown n w f scale : w <> "" -> all_digits w = true -> all_digits f = true -> slen f = scale ->
  bigintOfText (drop_first "."%char (showDecimal n w f scale)) = signed n (unitsOf w f scale).
Proof.
  intros Nw Dw Df Lf. rewrite unitsOf_shown by done.
  assert (drop_first "."%char (w +:+ (if scale =? 0 then "" else String "." f)) = w +:+ f) as Hd.
  { destruct (Z.eqb_spec scale 0) as [E|]; [|by apply drop_point]. rewrite string_app_nil_r, drop_digits by done.
    destruct f; [by rewrite string_app_nil_r|]. unfold slen in Lf. simpl in Lf. lia. }
  assert (showDecimal n w f scale = (if n then "-" else "") +:+ (w +:+ (if scale =? 0 then "" else String "." f))) as ->.
  { unfold showDecimal, str. by destruct n, (scale =? 0); simpl; rewrite ?string_app_nil_r. }
  subst scale. rewrite <- digits_val_app. destruct n.
  - change (bigintOfText (String "-" (drop_first "."%char (w +:+ (if slen f =? 0 then "" else String "." f)))) =
            - digits_val 0 (w +:+ f)). by rewrite Hd.
  - change ("" +:+ ?x) with x. rewrite Hd. apply bigint_digits. by rewrite all_digits_app, Dw, Df.
Qed.

Lemma keptSign_signed n w f scale : signed (keptSign n w f scale) (unitsOf w f scale) = signed n (unitsOf w f scale).
Proof. unfold keptSign. destruct n; [|done]. simpl. destruct (Z.eqb_spec (unitsOf w f scale) 0); simpl; lia. Qed.

Lemma scaled_accepted input precision scale n w f :
  declared precision scale -> decimalParts input = Some (n, w, f) -> slen f <= scale -> digits_val 0 w < 10 ^ (precision - scale) ->
  decimalScaled input precision scale = Ok (signed n (unitsOf w f scale)).
Proof.
  intros Hd Hp Hl Hv. destruct (decimalParts_wf _ _ _ _ Hp) as (Dw & Df & _). unfold decimalScaled.
  rewrite (normalize_accepted _ _ _ n w f) by done. simpl. destruct (padEnd_facts f scale Df Hl) as (Dp & Lp & Vp).
  pose proof (canonWhole_text w Dw) as Cw. rewrite bigint_shown; [|destruct Cw as [_ [->|[? _]]]; done|apply Cw|done|done].
  by rewrite unitsOf_normal, keptSign_signed.
Qed.

Lemma unitsOf_bound precision scale w f :
  declared precision scale -> all_digits w = true -> all_digits f = true -> slen f <= scale -> digits_val 0 w < 10 ^ (precision - scale) ->
  0 <= unitsOf w f scale < 10 ^ precision.
Proof.
  intros [? ?] Dw Df Hl Hv. unfold unitsOf. pose proof (digits_val_range w Dw). pose proof (digits_val_range f Df). pose proof (slen_nonneg f).
  replace (10 ^ precision) with (10 ^ (precision - scale) * 10 ^ scale) by (rewrite <- Z.pow_add_r by lia; f_equal; lia).
  pose proof (pow10_pos (precision - scale) ltac:(lia)). pose proof (pow10_pos (scale - slen f) ltac:(lia)).
  assert (10 ^ scale = 10 ^ slen f * 10 ^ (scale - slen f)) as E by (rewrite <- Z.pow_add_r by lia; f_equal; lia).
  assert (digits_val 0 f * 10 ^ (scale - slen f) < 10 ^ scale) by (rewrite E; nia). nia.
Qed.

Lemma padStart_facts z scale : 0 <= z -> 0 <= scale ->
  let d := padStart (pretty z) (scale + 1) "0" in all_digits d = true /\ digits_val 0 d = z /\ scale < slen d.
Proof.
  intros Hz Hs d. destruct (digits_pretty z Hz) as (Dz & Vz & Nz). unfold d, padStart.
  rewrite all_digits_app, digits_val_app, slen_app, all_digits_zeros, digits_val_zeros, Dz, Vz. unfold slen. rewrite length_zeros.
  split_and!; [done|lia|]. assert (0 < String.length (pretty z))%nat by (destruct (pretty z); simpl; [done|lia]). lia.
Qed.

Lemma substring_all s : String.substring 0 (String.length s) s = s.
Proof. induction s as [|a s IH]; [done|]. simpl. by rewrite IH. Qed.

Lemma substring_split k s : (k <= String.length s)%nat ->
  s = String.substring 0 k s +:+ String.substring k (String.length s - k) s /\
  String.length (String.substring 0 k s) = k /\ String.length (String.substring k (String.length s - k) s) = (String.length s - k)%nat.
Proof.
  revert k. induction s as [|a s IH]; intros [|k] Hk; try (simpl in Hk; lia); [done| |].
  - rewrite Nat.sub_0_r, substring_all. done.
  - simpl. destruct (IH k ltac:(simpl in Hk; lia)) as (E & L & L'). rewrite string_app_cons, <- E, L, L'. done.
Qed.

(** The text that [decimalFromScaled] writes before it normalises it. *)
Lemma scaled_text z scale : 0 <= scale -> exists w f,
  str [(if z <? 0 then "-" else "");
       (let digits := padStart (pretty (Z.abs z)) (scale + 1) "0" in
        if 0 <? scale then str [fst (sliceLast digits scale); "."; snd (sliceLast digits scale)] else digits)] = showDecimal (z <? 0) w f scale /\
  w <> "" /\ all_digits w = true /\ all_digits f = true /\ slen f = scale /\ unitsOf w f scale = Z.abs z.
Proof.
  intros Hs. destruct (padStart_facts (Z.abs z) scale ltac:(lia) Hs) as (Dd & Vd & Ld). cbv zeta.
  set (d := padStart _ _ _) in *. unfold showDecimal. destruct (Z.ltb_spec 0 scale) as [Hp|Hp].
  - rewrite (proj2 (Z.eqb_neq scale 0)) by lia. unfold sliceLast. cbn [fst snd].
    assert (Z.to_nat scale = (String.length d - (String.length d - Z.to_nat scale))%nat) as E by (unfold slen in Ld; lia).
    destruct (substring_split (String.length d - Z.to_nat scale) d ltac:(lia)) as (Ed & Lw & Lf). rewrite <- E in Ed, Lf.
    set (w := String.substring 0 _ d) in *. set (f := String.substring _ (Z.to_nat scale) d) in *. exists w, f.
    rewrite Ed in Dd, Vd. rewrite all_digits_app in Dd. apply andb_true_iff in Dd as [Dw Df]. rewrite digits_val_app in Vd.
    assert (slen f = scale) as Sf by (unfold slen; lia). split_and!; try done.
    + unfold str. by rewrite !string_app_nil_r.
    + intros E0. rewrite E0 in Lw. simpl in Lw. unfold slen in Ld. lia.
    + rewrite unitsOf_shown by done. by rewrite <- Sf.
  - assert (scale = 0) as -> by lia. exists d, "". rewrite unitsOf_shown by done. change (digits_val 0 "") with 0.
    split_and!; try done; [|lia]. intros E0. rewrite E0 in Ld. done.
Qed.

Lemma fromScaled_ok precision scale z : declared precision scale -> Z.abs z < 10 ^ precision ->
  exists w f, canonDecimal precision scale (z <? 0) w f /\ unitsOf w f scale = Z.abs z /\
    decimalFromScaled (JBigint z) precision scale = Ok (showDecimal (z <? 0) w f scale).
Proof.
  intros Hd Hz. pose proof Hd as [? ?]. destruct (scaled_text z scale ltac:(lia)) as (w & f & Et & Nw & Dw & Df & Lf & Hu).
  assert (digits_val 0 w < 10 ^ (precision - scale)) as Hv.
  { rewrite unitsOf_shown in Hu by done. pose proof (digits_val_range f Df). pose proof (pow10_pos scale ltac:(lia)).
    replace (10 ^ precision) with (10 ^ (precision - scale) * 10 ^ scale) in Hz by (rewrite <- Z.pow_add_r by lia; f_equal; lia). nia. }
  assert (keptSign (z <? 0) w f scale = (z <? 0)) as Ek.
  { unfold keptSign. rewrite Hu. destruct (Z.ltb_spec z 0); [|done]. simpl. by rewrite (proj2 (Z.eqb_neq _ _)) by lia. }
  exists (wholeText w), (padEnd f scale "0"). unfold decimalFromScaled. cbv zeta in Et. rewrite Et.
  rewrite (normalize_accepted _ _ _ (z <? 0) w f), Ek; try done; [|by apply decimalParts_shown|lia].
  rewrite <- Ek at 1. rewrite unitsOf_normal by (done || lia). split_and!; [|done|done]. apply normal_canon; (done || lia).
Qed.

(** A canonical decimal is determined by its signed value. *)
Lemma canonDecimal_unique precision scale n w f n' w' f' :
  canonDecimal precision scale n w f -> canonDecimal precision scale n' w' f' ->
  signed n (unitsOf w f scale) = signed n' (unitsOf w' f' scale) -> n = n' /\ w = w' /\ f = f'.
Proof.
  intros [[_ Hsc] Cw Df Lf _ Hs] [_ Cw' Df' Lf' _ Hs'] E. rewrite !unitsOf_shown in E by done.
  pose proof (digits_val_range w (proj1 Cw)). pose proof (digits_val_range f Df). rewrite Lf in *.
  pose proof (digits_val_range w' (proj1 Cw')). pose proof (digits_val_range f' Df'). rewrite Lf' in *.
  pose proof (pow10_pos scale ltac:(lia)).
  assert (n = n') as <-.
  { destruct n, n'; try done; simpl in E; [destruct (Hs eq_refl)|destruct (Hs' eq_refl)]; nia. }
  assert (digits_val 0 w * 10 ^ scale + digits_val 0 f = digits_val 0 w' * 10 ^ scale + digits_val 0 f') as E' by (destruct n; simpl in E; lia).
  assert (digits_val 0 w = digits_val 0 w') as Ew by nia. split; [done|]. split; [by apply canonWhole_unique|].
  apply digits_unique; try done; [unfold slen in *; lia|nia].
Qed.

(** ** What decimals promise *)

(** C23: [normalizeDecimal] accepts a text exactly when precision and scale
    are a declarable pair, the text is an optional sign, digits and an
    optional fraction, the fraction has at most [scale] digits, and the whole
    part is a number of at most [precision - scale] digits, leading zeros
    aside. The result is then the canonical text of the same number: no plus
    sign, no leading zero, exactly [scale] digits of fraction, no sign on
    zero. Everything else is [CODEC_ENCODE]. *)
Theorem normalizeDecimal_accepts (input : string) (precision scale : Z) :
  match normalizeDecimal input precision scale with
  | Ok t => exists n w f, declared precision scale /\ decimalParts input = Some (n, w, f) /\
      slen f <= scale /\ digits_val 0 w < 10 ^ (precision - scale) /\
      exists n' w' f', t = showDecimal n' w' f' scale /\ canonDecimal precision scale n' w' f' /\
        signed n' (unitsOf w' f' scale) = signed n (unitsOf w f scale)
  | Err e => (exists reason, e = OrmError CODEC_ENCODE reason) /\
      ~ exists n w f, declared precision scale /\ decimalParts input = Some (n, w, f) /\
        slen f <= scale /\ digits_val 0 w < 10 ^ (precision - scale)
  end.
Proof.
  destruct (normalizeDecimal input precision scale) as [t|e] eqn:E.
  - destruct (normalize_inv _ _ _ _ E) as (n & w & f & Hd & Hp & Hl & Hv). destruct (decimalParts_wf _ _ _ _ Hp) as (Dw & Df & _).
    exists n, w, f. split_and!; try done. rewrite (normalize_accepted _ _ _ n w f) in E by done. injection E as <-.
    exists (keptSign n w f scale), (wholeText w), (padEnd f scale "0"). split_and!; [done|by apply normal_canon|].
    by rewrite unitsOf_normal, keptSign_signed.
  - split.
    + revert E. unfold normalizeDecimal, decimalFail. repeat case_match; intros [= <-] || intros [=]; eauto.
    + intros (n & w & f & Hd & Hp & Hl & Hv). by rewrite (normalize_accepted _ _ _ n w f) in E.
Qed.

(** normalising is idempotent: the text it returns is its own normal
    form at the same precision and scale. *)
Theorem normalizeDecimal_idempotent (input t : string) (precision scale : Z) :
  normalizeDecimal input precision scale = Ok t -> normalizeDecimal t precision scale = Ok t.
Proof.
  intros E. destruct (normalize_inv _ _ _ _ E) as (n & w & f & Hd & Hp & Hl & Hv). destruct (decimalParts_wf _ _ _ _ Hp) as (Dw & Df & _).
  rewrite (normalize_accepted _ _ _ n w f) in E by done. injection E as <-. apply normalize_canonical. by apply normal_canon.
Qed.

Lemma normalizeDecimal_idempotent_witness : normalizeDecimal "-007.5" 5 2 = Ok "-7.50" /\ normalizeDecimal "-7.50" 5 2 = Ok "-7.50".
Proof. split; [vm_compute; reflexivity|apply (normalizeDecimal_idempotent "-007.5"); vm_compute; reflexivity]. Defined.

(** the integer SQLite stores for a decimal is the exact number the text
    writes, in units of the last declared digit, and it has at most
    [precision] digits, so it always fits the 64-bit cell. *)
Theorem decimalScaled_value (input : string) (precision scale z : Z) :
  decimalScaled input precision scale = Ok z ->
  exists n w f, decimalParts input = Some (n, w, f) /\ slen f <= scale /\ z = signed n (unitsOf w f scale) /\
    Z.abs z < 10 ^ precision /\ - 2 ^ 63 <= z < 2 ^ 63.
Proof.
  intros E. pose proof E as E'. unfold decimalScaled in E'. destruct (normalizeDecimal input precision scale) as [t|] eqn:En; [|done].
  destruct (normalize_inv _ _ _ _ En) as (n & w & f & Hd & Hp & Hl & Hv). destruct (decimalParts_wf _ _ _ _ Hp) as (Dw & Df & _).
  rewrite (scaled_accepted _ _ _ n w f) in E by done. injection E as <-. pose proof (unitsOf_bound precision scale w f Hd Dw Df Hl Hv) as B.
  destruct Hd as [Hp18 _]. pose proof (Z.pow_le_mono_r 10 precision 18 ltac:(lia) ltac:(lia)).
  exists n, w, f. split_and!; try done; destruct n; simpl signed; lia.
Qed.

Lemma decimalScaled_value_witness : decimalScaled "-12.3" 6 3 = Ok (-12300) /\ Z.abs (-12300) < 10 ^ 6.
Proof.
  split; [vm_compute; reflexivity|].
  destruct (decimalScaled_value "-12.3" 6 3 (-12300) ltac:(vm_compute; reflexivity)) as (n & w & f & _ & _ & _ & H & _). exact H.
Defined.

(** C24: a decimal stored as a scaled integer reads back as the canonical
    text it was normalised to. *)
Theorem decimal_scaled_roundtrip (input : string) (precision scale z : Z) :
  decimalScaled input precision scale = Ok z ->
  decimalFromScaled (JBigint z) precision scale = normalizeDecimal input precision scale.
Proof.
  intros E. pose proof E as E'. unfold decimalScaled in E'. destruct (normalizeDecimal input precision scale) as [t|] eqn:En; [|done]. clear E'.
  destruct (normalize_inv _ _ _ _ En) as (n & w & f & Hd & Hp & Hl & Hv). destruct (decimalParts_wf _ _ _ _ Hp) as (Dw & Df & _).
  rewrite (scaled_accepted _ _ _ n w f) in E by done. injection E as <-. rewrite (normalize_accepted _ _ _ n w f) in En by done. injection En as <-.
  pose proof (unitsOf_bound precision scale w f Hd Dw Df Hl Hv) as B.
  destruct (fromScaled_ok precision scale (signed n (unitsOf w f scale)) Hd) as (w' & f' & C & Hu & ->); [destruct n; simpl; lia|].
  destruct (canonDecimal_unique _ _ _ _ _ _ _ _ C (normal_canon precision scale n w f Hd Dw Df Hl Hv)) as (-> & -> & ->); [|done].
  rewrite Hu, unitsOf_normal, keptSign_signed by done. unfold signed at 1. destruct (Z.ltb_spec (signed n (unitsOf w f scale)) 0); lia.
Qed.

Lemma decimal_scaled_roundtrip_witness :
  decimalScaled "+0012.5" 6 2 = Ok 1250 /\ decimalFromScaled (JBigint 1250) 6 2 = normalizeDecimal "+0012.5" 6 2.
Proof. split; [vm_compute; reflexivity|apply (decimal_scaled_roundtrip "+0012.5" 6 2); vm_compute; reflexivity]. Defined.

(** every integer of at most [precision] digits reads as a decimal, and
    storing that decimal gives the integer back. *)
Theorem decimalFromScaled_inverse (precision scale z : Z) :
  declared precision scale -> Z.abs z < 10 ^ precision ->
  exists t, decimalFromScaled (JBigint z) precision scale = Ok t /\ decimalScaled t precision scale = Ok z.
Proof.
  intros Hd Hz. destruct (fromScaled_ok precision scale z Hd Hz) as (w & f & C & Hu & E). eexists. split; [exact E|].
  pose proof (canonDecimal_fits _ _ _ _ _ C). destruct C as [_ Cw Df Lf _ _]. assert (w <> "") by (destruct Cw as [_ [->|[? _]]]; done).
  rewrite (scaled_accepted _ _ _ (z <? 0) w f); try done; [|by apply decimalParts_shown; [|apply Cw| |]|lia].
  rewrite Hu. unfold signed. destruct (Z.ltb_spec z 0); f_equal; lia.
Qed.

Lemma decimalFromScaled_inverse_witness :
  exists t, decimalFromScaled (JBigint (-5)) 4 3 = Ok t /\ decimalScaled t 4 3 = Ok (-5).
Proof. apply (decimalFromScaled_inverse 4 3 (-5)); [split; lia|reflexivity]. Defined.
