(* ===== verification/Times.v ===== *)
(** * Dates and times ([database.ts], the value forms)

    A date, time or datetime parameter is text in one of three forms; a datetime
    with an offset is converted to the time zone of the connection.  The [Date]
    objects of JavaScript are day numbers from 1970-01-01 with the milliseconds
    of the day, computed as ECMAScript defines [MakeDay] and [YearFromTime].  A
    value that is not a text has no form; the callers below have refused it. *)

From S2P Require Import Prelude Lex Values Decimal.

(** ** The calendar of [Date] *)

Definition isLeap (y : Z) : bool := (y mod 4 =? 0) && (negb (y mod 100 =? 0) || (y mod 400 =? 0)).

(** The day number of 1 January. *)
Definition dayFromYear (y : Z) : Z := 365 * (y - 1970) + (y - 1969) / 4 - (y - 1901) / 100 + (y - 1601) / 400.

(** The largest year that starts at or before a day. *)
Definition yearFromDay (d : Z) : Z :=
  let y := 1970 + d * 400 / 146097 in
  if dayFromYear (y + 1) <=? d then y + 1 else if d <? dayFromYear y then y - 1 else y.

(** Days of a year before each month, the month counted from 0. *)
Definition monthStart (leap : bool) (m : Z) : Z :=
  nth (Z.to_nat m) [0; 31; 59; 90; 120; 151; 181; 212; 243; 273; 304; 334; 365] 365 + (if leap && (1 <? m) then 1 else 0).

(** [MakeDay(year, month, date)]; the month may leave 0 to 11. *)
Definition makeDay (year month date : Z) : Z :=
  let y := year + month / 12 in
  dayFromYear y + monthStart (isLeap y) (month mod 12) + date - 1.

Definition yearOf (day : Z) : Z := yearFromDay day.
Definition monthOf (day : Z) : Z :=
  let y := yearFromDay day in
  let n := day - dayFromYear y in
  Z.of_nat (length (filter (fun m => monthStart (isLeap y) (Z.of_nat m) <=? n = true) (seq 1 11))).
Definition dateOf (day : Z) : Z :=
  let y := yearFromDay day in day - dayFromYear y - monthStart (isLeap y) (monthOf day) + 1.

Definition msPerDay : Z := 86400000.

(** [Date.UTC(year, month, date, hours, minutes, seconds)]: a year from 0 to 99 is in the 1900s. *)
Definition dateUTC (year month date h mi s : Z) : Z :=
  let year := if (0 <=? year) && (year <=? 99) then 1900 + year else year in
  makeDay year month date * msPerDay + (h * 3600 + mi * 60 + s) * 1000.

Definition dayOfTime (t : Z) : Z := t / msPerDay.
Definition timeInDay (t : Z) : Z := t mod msPerDay.

(** [date.setUTCFullYear(year)] *)
Definition setUTCFullYear (t year : Z) : Z :=
  makeDay year (monthOf (dayOfTime t)) (dateOf (dayOfTime t)) * msPerDay + timeInDay t.

Definition hoursOf (t : Z) : Z := timeInDay t / 3600000.
Definition minutesOf (t : Z) : Z := timeInDay t / 60000 mod 60.
Definition secondsOf (t : Z) : Z := timeInDay t / 1000 mod 60.
Definition millisecondsOf (t : Z) : Z := timeInDay t mod 1000.

(** ** The texts *)

(** Exactly [n] digits, then the rest. *)
Fixpoint digitsN (n : nat) (s : string) : option (string * string) :=
  match n with
  | O => Some ("", s)
  | S n =>
      match s with
      | String a rest =>
          if is_digit a then match digitsN n rest with Some (d, rest) => Some (String a d, rest) | None => None end else None
      | EmptyString => None
      end
  end.

(** The digits at the front, at most [n] of them. *)
Fixpoint digitsUpTo (n : nat) (s : string) : string * string :=
  match n, s with
  | S n, String a rest => if is_digit a then let '(d, rest) := digitsUpTo n rest in (String a d, rest) else ("", s)
  | _, _ => ("", s)
  end.

Definition char_in (l : list ascii) (s : string) : option string :=
  match s with String a rest => if decide (a ∈ l) then Some rest else None | EmptyString => None end.

(** [(\d{4})-(\d{2})-(\d{2})] *)
Definition readDate (s : string) : option (string * string * string * string) :=
  '(y, s) ← digitsN 4 s; s ← char_in ["-"%char] s; '(m, s) ← digitsN 2 s; s ← char_in ["-"%char] s;
  '(d, s) ← digitsN 2 s; Some (y, m, d, s).

(** [(\d{2}):(\d{2}):(\d{2})(?:\.(\d{1,9}))?]: the fraction is empty when there is none. *)
Definition readClock (s : string) : option (string * string * string * string * string) :=
  '(h, s) ← digitsN 2 s; s ← char_in [":"%char] s; '(mi, s) ← digitsN 2 s; s ← char_in [":"%char] s;
  '(sec, s) ← digitsN 2 s;
  match char_in ["."%char] s with
  | None => Some (h, mi, sec, "", s)
  | Some rest => let '(f, rest) := digitsUpTo 9 rest in if decide (f = "") then Some (h, mi, sec, "", s) else Some (h, mi, sec, f, rest)
  end.

(** The UTF-8 texts of the characters that [\s] matches. *)
Definition bytesText (l : list nat) : string := String.string_of_list_ascii (map ascii_of_nat l).
Definition whitespace : list string :=
  map bytesText
    ([[9]; [10]; [11]; [12]; [13]; [32]; [194; 160]; [225; 154; 128]]
     ++ map (fun n => [226; 128; n]) (seq 128 11)
     ++ [[226; 128; 168]; [226; 128; 169]; [226; 128; 175]; [226; 129; 159]; [227; 128; 128]; [239; 187; 191]])%nat.

(** The text after a whitespace character at its front. *)
Fixpoint after (p s : string) : option string :=
  match p, s with
  | EmptyString, _ => Some s
  | String a p, String b s => if decide (a = b) then after p s else None
  | _, _ => None
  end.
Definition afterSpace (s : string) : option string := head (omap (fun w => after w s) whitespace).

Fixpoint skipSpace (fuel : nat) (s : string) : string :=
  match fuel with
  | O => s
  | S fuel => match afterSpace s with Some rest => skipSpace fuel rest | None => s end
  end.

(** [(Z|[+-]\d{2}(?::?\d{2})?)?$]: the offset in minutes, [None] without a zone. *)
Definition readZone (s : string) : option (option Z) :=
  match s with
  | EmptyString => Some None
  | String a rest =>
      if decide (a = "Z"%char) then if decide (rest = "") then Some (Some 0) else None
      else if decide (a = "+"%char \/ a = "-"%char) then
        '(h, rest) ← digitsN 2 rest;
        let sign := if decide (a = "-"%char) then -1 else 1 in
        if decide (rest = "") then Some (Some (sign * (digits_val 0 h * 60)))
        else
          '(mi, rest) ← digitsN 2 (default rest (char_in [":"%char] rest));
          if decide (rest = "") then Some (Some (sign * (digits_val 0 h * 60 + digits_val 0 mi))) else None
      else None
  end.

Record DateTimeText := mkDateTimeText {
  dt_year : string; dt_month : string; dt_day : string; dt_hour : string; dt_minute : string; dt_second : string;
  dt_fraction : string; dt_offset : option Z }.

Definition readDateTime (s : string) : option DateTimeText :=
  '(y, m, d, s) ← readDate s; s ← char_in [" "%char; "T"%char] s; '(h, mi, sec, f, s) ← readClock s;
  z ← readZone (skipSpace (String.length s) s);
  Some (mkDateTimeText y m d h mi sec f z).

(** ** The source *)

Definition num (s : string) : Z := digits_val 0 s.

Definition validDate (y m d h mi sec : string) : bool :=
  let t := setUTCFullYear (dateUTC (num y) (num m - 1) (num d) (num h) (num mi) (num sec)) (num y) in
  (yearOf (dayOfTime t) =? num y) && (monthOf (dayOfTime t) + 1 =? num m) && (dateOf (dayOfTime t) =? num d)
  && (hoursOf t =? num h) && (minutesOf t =? num mi) && (secondsOf t =? num sec).

(** The fraction digits of a value cut to [precision] digits; none when a cut digit is not zero. *)
Definition fraction (digits : string) (precision : Z) : option string :=
  let all := padEnd digits precision "0" in
  let p := Z.to_nat precision in
  if existsb (fun a => is_digit a && negb (bool_decide (a = "0"%char)))
       (String.list_ascii_of_string (String.substring p (String.length all - p) all))
  then None
  else Some (if precision =? 0 then "" else str ["."; String.substring 0 p all]).

Definition pad2 (n : Z) : string := padStart (pretty n) 2 "0".

(** The offset of a fixed zone such as [+00:00] in minutes east of UTC; the
    definitions below take the zone of the connection as this number. *)
Definition zoneOffset (zone : string) : res Z :=
  let bad := Err (OrmError INTERNAL (str ["connection zone "; zone; " is not a fixed offset"])) in
  match zone with
  | EmptyString => bad
  | String a rest =>
      if decide (a = "+"%char \/ a = "-"%char) then
        match digitsN 2 rest with
        | Some (h, String b rest) =>
            if decide (b = ":"%char) then
              match digitsN 2 rest with
              | Some (mi, EmptyString) => Ok ((if decide (a = "-"%char) then -1 else 1) * (num h * 60 + num mi))
              | _ => bad
              end
            else bad
        | _ => bad
        end
      else bad
  end.

(** Formats an instant, in milliseconds, in a connection time zone, whose
    offset from UTC is [zone] minutes, with six fraction digits. *)
Definition formatInstant (instant zone : Z) : string :=
  let t := instant + zone * 60000 in
  let day := dayOfTime t in
  let year := yearOf day in
  str [(if year <? 0 then str ["-"; padStart (pretty (- year)) 4 "0"] else padStart (pretty year) 4 "0"); "-";
       pad2 (monthOf day + 1); "-"; pad2 (dateOf day); " "; pad2 (hoursOf t); ":"; pad2 (minutesOf t); ":"; pad2 (secondsOf t);
       "."; padStart (pretty (millisecondsOf t)) 3 "0"; "000"].

Definition timeForm (value colType : string) (zone precision : Z) : option string :=
  if decide (colType = "date") then
    '(y, m, d, rest) ← readDate value;
    if bool_decide (rest = "") && validDate y m d "00" "00" "00" then Some value else None
  else if decide (colType = "time") then
    '(h, mi, sec, f, rest) ← readClock value;
    if negb (bool_decide (rest = "")) || (23 <? num h) || (59 <? num mi) || (59 <? num sec) then None
    else f ← fraction f precision; Some (str [h; ":"; mi; ":"; sec; f])
  else
    m ← readDateTime value;
    if negb (validDate (dt_year m) (dt_month m) (dt_day m) (dt_hour m) (dt_minute m) (dt_second m)) then None
    else
      f ← fraction (dt_fraction m) precision;
      match dt_offset m with
      | None => Some (str [dt_year m; "-"; dt_month m; "-"; dt_day m; " "; dt_hour m; ":"; dt_minute m; ":"; dt_second m; f])
      | Some offset =>
          let wall := setUTCFullYear (dateUTC 2000 (num (dt_month m) - 1) (num (dt_day m)) (num (dt_hour m)) (num (dt_minute m))
                        (num (dt_second m))) (num (dt_year m)) in
          Some (str [String.substring 0 19 (formatInstant (wall - offset * 60000) zone); f])
      end.

Definition timeShape (colType : string) (precision : Z) : string :=
  let f := if 0 <? precision then str ["."; repeat_str "f" (Z.to_nat precision)] else "" in
  if decide (colType = "date") then "YYYY-MM-DD"
  else if decide (colType = "time") then str ["HH:MM:SS"; f]
  else str ["YYYY-MM-DD HH:MM:SS"; f; "[Z|±HH:MM]"].

(** Writes a date, time or datetime bind in its stored text form. *)
Definition timeValue (value colType : string) (zone precision : Z) : res string :=
  or_fail (timeForm value colType zone precision) CODEC_ENCODE
    (str [colType; " value "; jsonString value; " is not "; timeShape colType precision]).

(** Reads a stored date, time or datetime cell in its value form. *)
Definition readTime (value colType : string) (zone precision : Z) : res string :=
  or_fail (timeForm value colType zone precision) CODEC_DECODE
    (str [colType; " cell "; jsonString value; " is not "; timeShape colType precision]).

(** ** The calendar *)

Definition yearLength (y : Z) : Z := 365 + (if isLeap y then 1 else 0).

Lemma dayFromYear_succ y : dayFromYear (y + 1) = dayFromYear y + yearLength y.
Proof.
  unfold dayFromYear, yearLength, isLeap.
  destruct (Z.eqb_spec (y mod 4) 0), (Z.eqb_spec (y mod 100) 0), (Z.eqb_spec (y mod 400) 0); simpl;
    Z.to_euclidean_division_equations; lia.
Qed.

Lemma yearFromDay_spec d : dayFromYear (yearFromDay d) <= d < dayFromYear (yearFromDay d + 1).
Proof.
  unfold yearFromDay. set (y := 1970 + d * 400 / 146097).
  destruct (Z.leb_spec (dayFromYear (y + 1)) d); [|destruct (Z.ltb_spec d (dayFromYear y)); [|lia]];
    unfold dayFromYear in *; subst y; Z.to_euclidean_division_equations; lia.
Qed.

Lemma dayFromYear_mono y z : y <= z -> dayFromYear y <= dayFromYear z.
Proof. unfold dayFromYear. intros. Z.to_euclidean_division_equations. lia. Qed.

Lemma yearFromDay_unique d y : dayFromYear y <= d < dayFromYear (y + 1) -> yearFromDay d = y.
Proof.
  intros H. pose proof (yearFromDay_spec d) as H'. destruct (Z.lt_trichotomy (yearFromDay d) y) as [Hl|[He|Hg]]; [|done|].
  - pose proof (dayFromYear_mono (yearFromDay d + 1) y). lia.
  - pose proof (dayFromYear_mono (y + 1) (yearFromDay d)). lia.
Qed.

(** The number of days of a month, the month counted from 0. *)
Definition monthLength (y m : Z) : Z := monthStart (isLeap y) (m + 1) - monthStart (isLeap y) m.

Definition months : list Z := [0; 1; 2; 3; 4; 5; 6; 7; 8; 9; 10; 11].

Lemma month_cases m : 0 <= m <= 11 -> m ∈ months.
Proof. intros. unfold months. rewrite !elem_of_cons. lia. Qed.

(** The month and date of the [n]-th day of a year. *)
Definition monthIn (leap : bool) (n : Z) : Z := Z.of_nat (length (filter (fun m => monthStart leap (Z.of_nat m) <=? n = true) (seq 1 11))).

Lemma monthIn_table : forallb (fun leap : bool => forallb (fun k : nat =>
    let n := Z.of_nat k in let m := monthIn leap n in
    (0 <=? m) && (m <=? 11) && (monthStart leap m <=? n) && (n <? monthStart leap (m + 1)))
  (seq 0 (if leap then 366 else 365)%nat)) [true; false] = true.
Proof. vm_compute. reflexivity. Qed.

Lemma monthIn_spec (leap : bool) n : 0 <= n < (if leap then 366 else 365) ->
  0 <= monthIn leap n <= 11 /\ monthStart leap (monthIn leap n) <= n < monthStart leap (monthIn leap n + 1).
Proof.
  intros Hn. pose proof monthIn_table as H. rewrite forallb_forall in H. specialize (H leap).
  rewrite forallb_forall in H. specialize (H ltac:(destruct leap; simpl; auto) (Z.to_nat n)).
  rewrite in_seq in H. specialize (H ltac:(destruct leap; lia)). cbv zeta in H. rewrite Z2Nat.id in H by lia.
  rewrite !andb_true_iff, !Z.leb_le, Z.ltb_lt in H. lia.
Qed.

Lemma monthStart_mono leap m m' : 0 <= m -> m <= m' -> m' <= 12 -> monthStart leap m <= monthStart leap m'.
Proof.
  intros. assert (forallb (fun l : bool => forallb (fun a => forallb (fun b => negb (a <=? b) || (monthStart l a <=? monthStart l b)) (months ++ [12]))
    (months ++ [12])) [true; false] = true) as Ht by (vm_compute; reflexivity).
  rewrite forallb_forall in Ht. specialize (Ht leap ltac:(destruct leap; simpl; auto)).
  rewrite forallb_forall in Ht. specialize (Ht m). rewrite <- list_elem_of_In in Ht.
  assert (forall x, 0 <= x <= 12 -> x ∈ months ++ [12]) as Hin by (intros; unfold months; simpl; rewrite !elem_of_cons; lia).
  specialize (Ht (Hin m ltac:(lia))). rewrite forallb_forall in Ht. specialize (Ht m'). rewrite <- list_elem_of_In in Ht.
  specialize (Ht (Hin m' ltac:(lia))). apply orb_true_iff in Ht as [Ht|Ht]; [apply negb_true_iff, Z.leb_gt in Ht; lia|by apply Z.leb_le].
Qed.

Lemma monthIn_unique (leap : bool) n m : 0 <= m <= 11 -> monthStart leap m <= n < monthStart leap (m + 1) -> monthIn leap n = m.
Proof.
  intros Hm Hn. assert (0 <= n < (if leap then 366 else 365)) as Hr.
  { pose proof (monthStart_mono leap 0 m). pose proof (monthStart_mono leap (m + 1) 12).
    change (monthStart leap 0) with (0 + if leap && (1 <? 0) then 1 else 0) in *. rewrite andb_false_r in *.
    assert (monthStart leap 12 = if leap then 366 else 365) as E by (by destruct leap). lia. }
  destruct (monthIn_spec leap n Hr) as [Hb Hs]. destruct (Z.lt_trichotomy (monthIn leap n) m) as [Hl|[He|Hg]]; [|done|].
  - pose proof (monthStart_mono leap (monthIn leap n + 1) m). lia.
  - pose proof (monthStart_mono leap (m + 1) (monthIn leap n)). lia.
Qed.

(** The parts of a day, and the day of its parts. *)
Lemma parts_of_day day : let y := yearOf day in let m := monthOf day in let d := dateOf day in
  0 <= m <= 11 /\ 1 <= d <= monthLength y m /\ makeDay y m d = day.
Proof.
  cbv zeta. pose proof (yearFromDay_spec day) as Hy. rewrite dayFromYear_succ in Hy. unfold yearLength in Hy.
  unfold dateOf, monthOf, yearOf, makeDay, monthLength. set (y := yearFromDay day) in *. cbv zeta.
  fold (monthIn (isLeap y) (day - dayFromYear y)).
  destruct (monthIn_spec (isLeap y) (day - dayFromYear y) ltac:(destruct (isLeap y); lia)) as [Hm Hs].
  rewrite Z.div_small, Z.mod_small by lia. rewrite Z.add_0_r. lia.
Qed.

Lemma day_of_parts y m d : 0 <= m <= 11 -> 1 <= d <= monthLength y m ->
  yearOf (makeDay y m d) = y /\ monthOf (makeDay y m d) = m /\ dateOf (makeDay y m d) = d.
Proof.
  intros Hm Hd. unfold monthLength in Hd.
  assert (makeDay y m d = dayFromYear y + (monthStart (isLeap y) m + d - 1)) as Ek.
  { unfold makeDay. rewrite Z.div_small, Z.mod_small by lia. rewrite Z.add_0_r. lia. }
  assert (0 <= monthStart (isLeap y) m + d - 1 < yearLength y) as Hn.
  { pose proof (monthStart_mono (isLeap y) 0 m). pose proof (monthStart_mono (isLeap y) (m + 1) 12).
    unfold yearLength. destruct (isLeap y); simpl in *; unfold monthStart in *; simpl in *; lia. }
  assert (yearFromDay (makeDay y m d) = y) as Ey by (apply yearFromDay_unique; rewrite dayFromYear_succ, Ek; lia).
  assert (monthOf (makeDay y m d) = m) as Em.
  { unfold monthOf. rewrite Ey. cbv zeta. fold (monthIn (isLeap y) (makeDay y m d - dayFromYear y)). apply monthIn_unique; lia. }
  unfold yearOf, dateOf. rewrite Em, Ey. cbv zeta. split_and!; lia.
Qed.

(** A count of milliseconds split into its day and the time of the day. *)
Lemma time_split day ms : 0 <= ms < msPerDay -> dayOfTime (day * msPerDay + ms) = day /\ timeInDay (day * msPerDay + ms) = ms.
Proof.
  unfold dayOfTime, timeInDay, msPerDay. intros. split; Z.to_euclidean_division_equations; lia.
Qed.

Lemma timeInDay_range t : 0 <= timeInDay t < msPerDay.
Proof. apply Z.mod_pos_bound. reflexivity. Qed.

Lemma setUTCFullYear_parts t y :
  dayOfTime (setUTCFullYear t y) = makeDay y (monthOf (dayOfTime t)) (dateOf (dayOfTime t)) /\
  timeInDay (setUTCFullYear t y) = timeInDay t.
Proof. apply time_split, timeInDay_range. Qed.

(** ** What [validDate] accepts *)

(** A date of the proleptic Gregorian calendar. *)
Definition calendarDate (y m d : Z) : Prop := 1 <= m <= 12 /\ 1 <= d <= monthLength y (m - 1).
Definition clockTime (h mi s : Z) : Prop := 0 <= h <= 23 /\ 0 <= mi <= 59 /\ 0 <= s <= 59.

(** A text of exactly [n] digits. *)
Definition digitText (n : nat) (s : string) : Prop := all_digits s = true /\ String.length s = n.

Lemma digitText_range n s : digitText n s -> 0 <= num s < 10 ^ Z.of_nat n.
Proof. intros [Hd <-]. exact (digits_val_range s Hd). Qed.

Lemma isLeap_century y : 1 <= y <= 99 -> isLeap (1900 + y) = isLeap y.
Proof.
  intros. unfold isLeap. replace ((1900 + y) mod 4) with (y mod 4) by (Z.to_euclidean_division_equations; lia).
  replace ((1900 + y) mod 100) with (y mod 100) by (Z.to_euclidean_division_equations; lia).
  replace (y mod 100) with y by (Z.to_euclidean_division_equations; lia). by rewrite (proj2 (Z.eqb_neq y 0)) by lia.
Qed.

Lemma monthLength_leap y z m : isLeap y = isLeap z -> monthLength y m = monthLength z m.
Proof. unfold monthLength. by intros ->. Qed.

Lemma monthLength_1900 m : 0 <= m <= 11 -> m <> 1 -> monthLength 1900 m = monthLength 0 m.
Proof.
  intros Hm Hn. apply month_cases in Hm. unfold months in Hm. rewrite !elem_of_cons, elem_of_nil in Hm.
  destruct_or? Hm; subst; done.
Qed.

(** [Date.UTC] and [setUTCFullYear] leave the parts of a calendar date as they are. *)
Lemma wall_parts y m d h mi s : 0 <= y -> calendarDate y m d -> ~ (y = 0 /\ m = 2 /\ d = 29) -> clockTime h mi s ->
  let t := setUTCFullYear (dateUTC y (m - 1) d h mi s) y in
  dayOfTime t = makeDay y (m - 1) d /\ timeInDay t = (h * 3600 + mi * 60 + s) * 1000.
Proof.
  intros Hy [Hm Hd] Hn (Hh & Hmi & Hs) t. unfold t. clear t. set (Y := if (0 <=? y) && (y <=? 99) then 1900 + y else y).
  assert (1 <= d <= monthLength Y (m - 1)) as HdY.
  { unfold Y. destruct ((0 <=? y) && (y <=? 99)) eqn:E; [|done]. apply andb_true_iff in E as [E1%Z.leb_le E2%Z.leb_le].
    destruct (decide (y = 0)) as [->|]; [|by rewrite (monthLength_leap _ y) by (apply isLeap_century; lia)].
    destruct (decide (m = 2)) as [->|]; [|rewrite Z.add_0_r, monthLength_1900 by lia; done].
    change (monthLength 0 (2 - 1)) with 29 in Hd. change (monthLength (1900 + 0) (2 - 1)) with 28. lia. }
  assert (dateUTC y (m - 1) d h mi s = makeDay Y (m - 1) d * msPerDay + (h * 3600 + mi * 60 + s) * 1000) as -> by done.
  destruct (time_split (makeDay Y (m - 1) d) ((h * 3600 + mi * 60 + s) * 1000)) as [Ed Et]; [unfold msPerDay; lia|].
  destruct (setUTCFullYear_parts (makeDay Y (m - 1) d * msPerDay + (h * 3600 + mi * 60 + s) * 1000) y) as [-> ->].
  rewrite Ed, Et. destruct (day_of_parts Y (m - 1) d ltac:(lia) HdY) as (_ & -> & ->). done.
Qed.

Lemma clock_parts t h mi s : clockTime h mi s -> timeInDay t = (h * 3600 + mi * 60 + s) * 1000 ->
  hoursOf t = h /\ minutesOf t = mi /\ secondsOf t = s.
Proof. unfold clockTime, hoursOf, minutesOf, secondsOf. intros ? ->. split_and!; Z.to_euclidean_division_equations; lia. Qed.

Lemma clock_range t : clockTime (hoursOf t) (minutesOf t) (secondsOf t).
Proof.
  pose proof (timeInDay_range t). unfold msPerDay, clockTime, hoursOf, minutesOf, secondsOf in *.
  split_and!; Z.to_euclidean_division_equations; lia.
Qed.

Lemma validDate_spec (y m d h mi s : string) :
  digitText 4 y -> digitText 2 m -> digitText 2 d -> digitText 2 h -> digitText 2 mi -> digitText 2 s ->
  validDate y m d h mi s = true <->
    calendarDate (num y) (num m) (num d) /\ ~ (num y = 0 /\ num m = 2 /\ num d = 29) /\ clockTime (num h) (num mi) (num s).
Proof.
  intros Hy%digitText_range Hm%digitText_range Hd%digitText_range Hh%digitText_range Hmi%digitText_range Hs%digitText_range.
  unfold validDate. cbv zeta. rewrite !andb_true_iff, !Z.eqb_eq. split.
  - intros (((((Ey & Em) & Ed) & Eh) & Emi) & Es). set (t := setUTCFullYear _ _) in *.
    pose proof (clock_range t) as Hc. rewrite Eh, Emi, Es in Hc.
    destruct (parts_of_day (dayOfTime t)) as (Rm & Rd & _). rewrite Ey, Ed in Rd. split; [|split; [|done]].
    { split; [lia|]. by replace (num m - 1) with (monthOf (dayOfTime t)) by lia. }
    intros (E0 & E2 & E29). rewrite E0, E2, E29 in *.
    assert (dateUTC 0 (2 - 1) 29 (num h) (num mi) (num s) = makeDay 1900 1 29 * msPerDay + (num h * 3600 + num mi * 60 + num s) * 1000)
      as E by done.
    destruct (time_split (makeDay 1900 1 29) ((num h * 3600 + num mi * 60 + num s) * 1000)) as [Ek _];
      [destruct Hc as (? & ? & ?); unfold msPerDay; lia|].
    assert (dayOfTime t = makeDay 0 (monthOf (makeDay 1900 1 29)) (dateOf (makeDay 1900 1 29))) as Ep.
    { unfold t. by rewrite E0, E2, E29, (proj1 (setUTCFullYear_parts _ _)), E, Ek. }
    rewrite Ep in Em. vm_compute in Em. discriminate Em.
  - intros (Hcal & Hn & Hc). destruct (wall_parts _ _ _ _ _ _ (proj1 Hy) Hcal Hn Hc) as [Ek Et].
    destruct Hcal as [Rm Rd]. destruct (day_of_parts (num y) (num m - 1) (num d) ltac:(lia) Rd) as (Ey & Em & Ed).
    destruct (clock_parts _ _ _ _ Hc Et) as (Eh & Emi & Es). rewrite Ek, Ey, Em, Ed, Eh, Emi, Es. split_and!; lia.
Qed.

(** C25: a date and clock text is accepted exactly when its date is one of the
    Gregorian calendar and its clock is one of a day of 24 hours; the two-digit
    years of [Date.UTC] change nothing, save that the leap day of the year 0 is
    refused. *)
Theorem validDate_calendar (y m d h mi s : string) :
  digitText 4 y -> digitText 2 m -> digitText 2 d -> digitText 2 h -> digitText 2 mi -> digitText 2 s ->
  validDate y m d h mi s = true <->
    calendarDate (num y) (num m) (num d) /\ ~ (num y = 0 /\ num m = 2 /\ num d = 29) /\ clockTime (num h) (num mi) (num s).
Proof. apply validDate_spec. Qed.

Lemma validDate_calendar_witness : validDate "2024" "02" "29" "23" "59" "59" = true /\ calendarDate 2024 2 29.
Proof.
  split; [vm_compute; reflexivity|].
  destruct (proj1 (validDate_calendar "2024" "02" "29" "23" "59" "59" (conj eq_refl eq_refl) (conj eq_refl eq_refl)
    (conj eq_refl eq_refl) (conj eq_refl eq_refl) (conj eq_refl eq_refl) (conj eq_refl eq_refl)) ltac:(vm_compute; reflexivity)) as [H _].
  exact H.
Defined.
