(* ===== verification/BindCheck.v ===== *)
(** * The check of a parameter against its slot ([bind_check.ts])

    Before any statement, each parameter is checked against the logical type of
    every slot it fills.  A text is the list of its UTF-8 bytes, so it holds no
    lone surrogate; an integer of type number is below 10^21 in magnitude. *)

From S2P Require Import Prelude Lex Ir Values Decimal Times.

Record ParamSlot := mkParamSlot {
  ps_type : string; ps_precision : Z; ps_scale : Z; ps_length : Z; ps_notNull : bool; ps_column : option string }.

(** The logical type of a param bind slot of a plan step. *)
Definition bindSlotType (slot : BindSlot) : ParamSlot :=
  mkParamSlot (bs_col_type slot) (default 0 (bs_precision slot)) (default 0 (bs_scale slot)) (default 0 (bs_length slot))
    (bs_not_null slot) (Some (bs_column slot)).

(** [/^[0-9a-f]{8}-[0-9a-f]{4}-[0-9a-f]{4}-[0-9a-f]{4}-[0-9a-f]{12}$/] *)
Definition lowerHex (a : ascii) : bool := is_digit a || ((97 <=? N_of_ascii a)%N && (N_of_ascii a <=? 102)%N).
Definition canonicalUuid (s : string) : bool :=
  match map String.length (split_on "-"%char s) with
  | [8; 4; 4; 4; 12]%nat => forallb (fun a => lowerHex a || bool_decide (a = "-"%char)) (String.list_ascii_of_string s)
  | _ => false
  end.

Definition integerRanges : list (string * (Z * Z)) :=
  [("i16", (-32768, 32767)); ("i32", (-2147483648, 2147483647)); ("i64", (-9223372036854775808, 9223372036854775807))].

(** [String(value)]; of a [Date] or another object it is not modelled, and no
    message below shows one. *)
Definition stringOf (v : JsValue) : string :=
  match v with
  | JUndefined => "undefined" | JNull => "null"
  | JBool b => if b then "true" else "false"
  | JInt n | JBigint n => pretty n
  | JNegZero => "0"
  | JFraction t | JNonFinite t => t
  | JString s => s
  | JBytes l => join "," (map pretty l)
  | JDate t | JOther t _ => t
  end.

Definition shown (value : JsValue) : string :=
  match value with JString s => jsonString s | _ => stringOf value end.

(** The number of code points of a text. *)
Definition codePoints (s : string) : nat :=
  length (filter (fun a => negb ((128 <=? N_of_ascii a)%N && (N_of_ascii a <? 192)%N) = true) (String.list_ascii_of_string s)).

(** [error.message] *)
Definition messageOf (e : err) : string :=
  match e with
  | OrmError CODEC_ENCODE m => str ["CODEC_ENCODE: "; m]
  | OrmError _ m | JsError m => m
  | _ => ""
  end.

Definition paramFail {A} (i : Z) (rest : list string) : res A :=
  Err (OrmError CODEC_ENCODE (str ("parameter " :: pretty i :: rest))).

(** Refuses SQL NULL when the slot assigns a non-null column. *)
Definition checkAssign (i : Z) (value : JsValue) (slot : ParamSlot) : res unit :=
  if (bool_decide (value = JNull) || bool_decide (value = JUndefined)) && ps_notNull slot
  then paramFail i [" assigns NULL to the non-null "; default "" (ps_column slot)] else Ok tt.

(** The integer of a value for which [typeof value === 'bigint'] or [Number.isInteger(value)] holds. *)
Definition integerOf (v : JsValue) : option Z :=
  match v with JInt n | JBigint n => Some n | JNegZero => Some 0 | _ => None end.

(** [/^\d{4}-/.test(text)] and the year is not 0000 *)
Definition inYears (text : string) : bool :=
  match digitsN 4 text with
  | Some (y, String a _) => bool_decide (a = "-"%char) && negb (bool_decide (y = "0000"))
  | _ => false
  end.

Definition checkParam (i : Z) (value : JsValue) (slot : ParamSlot) (zone : Z) : res unit :=
  let type := ps_type slot in
  let kind := paramFail i [" ("; typeof value; ") is not a "; type; " value"] in
  if bool_decide (value = JNull) || bool_decide (value = JUndefined) then Ok tt
  else if includes type ["i16"; "i32"; "i64"] then
    match integerOf value with
    | None => kind
    | Some n =>
        let '(low, high) := default (0, 0) (assoc type integerRanges) in
        if (n <? low) || (high <? n) then paramFail i [" ("; shown value; ") is outside "; type] else Ok tt
    end
  else if decide (type = "f64") then
    match value with
    | JBigint _ | JInt _ | JNegZero | JFraction _ => Ok tt
    | JNonFinite t => paramFail i [" ("; t; ") is not a finite f64"]
    | _ => kind
    end
  else if decide (type = "bool") then match value with JBool _ => Ok tt | _ => kind end
  else if decide (type = "decimal") then
    match value with
    | JString s =>
        match normalizeDecimal s (ps_precision slot) (ps_scale slot) with
        | Ok _ => Ok tt
        | Err e => paramFail i [": "; messageOf e]
        end
    | _ => kind
    end
  else if includes type ["varchar"; "text"; "uuid"] then
    match value with
    | JString s =>
        if has_char (ascii_of_nat 0) s then paramFail i [" holds U+0000, which no "; type; " value holds"]
        else
          let n := Z.of_nat (codePoints s) in
          if bool_decide (type = "varchar") && (0 <? ps_length slot) && (ps_length slot <? n)
          then paramFail i [" has "; pretty n; " characters, more than varchar("; pretty (ps_length slot); ")"]
          else if bool_decide (type = "uuid") && negb (canonicalUuid s)
          then paramFail i [" ("; shown value; ") is not a lower-case canonical uuid"] else Ok tt
    | _ => kind
    end
  else if decide (type = "bytes") then match value with JBytes _ | JString _ => Ok tt | _ => kind end
  else if includes type ["date"; "time"; "datetime"] then
    match value with
    | JString s =>
        match timeValue s type zone (ps_precision slot) with
        | Err e => paramFail i [": "; messageOf e]
        | Ok text =>
            if bool_decide (type <> "time") && negb (inYears text)
            then paramFail i [" ("; shown value; ") is outside 0001-01-01 to 9999-12-31"] else Ok tt
        end
    | _ => kind
    end
  else Ok tt.

(** ** Value transforms *)

(** The escapes of a LIKE pattern: the backslash first, then [%] and [_]. *)
Definition likeEscape (value : string) : string :=
  replace_all "_"%char "\_" (replace_all "%"%char "\%" (replace_all "\"%char "\\" value)).

(** [value.split(/\s+/)] *)
Fixpoint splitSpace (fuel : nat) (s : string) : list string :=
  match fuel with
  | O => [s]
  | S fuel =>
      match afterSpace s with
      | Some rest => "" :: splitSpace fuel (skipSpace (String.length rest) rest)
      | None =>
          match s with
          | EmptyString => [""]
          | String a rest =>
              match splitSpace fuel rest with
              | p :: ps => String a p :: ps
              | [] => [String a ""]
              end
          end
      end
  end.

(** The operator characters of a boolean-mode match. *)
Definition booleanOps : list ascii := ["+"; "-"; "<"; ">"; "("; ")"; "~"; "*"; dqc; "@"]%char.

Definition removeOps (t : string) : string :=
  String.string_of_list_ascii (filter (fun a => negb (bool_decide (a ∈ booleanOps)) = true) (String.list_ascii_of_string t)).

Definition fulltextTerms (value : string) : list string :=
  filter (fun t => t <> "") (map removeOps (splitSpace (S (String.length value)) value)).

(** The search text of a MySQL boolean-mode match. *)
Definition fulltextBoolean (value : string) : string :=
  match fulltextTerms value with
  | [] => ""
  | terms => join " " (map (fun t => str ["+"; t]) terms) +:+ "*"
  end.

(** Applies the value transform [kind] to a parameter. *)
Definition transformParam (kind : string) (value : JsValue) : res JsValue :=
  match value with
  | JNull | JUndefined => Ok JNull
  | JString s =>
      let escaped := likeEscape s in
      if decide (kind = "like_contains") then Ok (JString (str ["%"; escaped; "%"]))
      else if decide (kind = "like_starts") then Ok (JString (str [escaped; "%"]))
      else if decide (kind = "like_ends") then Ok (JString (str ["%"; escaped]))
      else if decide (kind = "fulltext_boolean") then
        let out := fulltextBoolean s in
        if decide (out = "") then Err (OrmError IR_INVALID "fulltext search text has no term") else Ok (JString out)
      else Ok (JString s)
  | _ => Err (OrmError CODEC_ENCODE (str [kind; " requires a string value"]))
  end.

(** ** LIKE patterns

    [likeMatch] is LIKE with the backslash as its escape character, which is
    the default of MySQL and PostgreSQL and what the SQLite text names. *)

Fixpoint likeMatch (p t : string) : bool :=
  match p with
  | EmptyString => bool_decide (t = "")
  | String a p' =>
      if decide (a = "%"%char) then
        (fix any t := likeMatch p' t || match t with EmptyString => false | String _ t => any t end) t
      else if decide (a = "\"%char) then
        match p', t with
        | String c p'', String x t => bool_decide (x = c) && likeMatch p'' t
        | _, _ => false
        end
      else match t with
           | String x t => (bool_decide (a = "_"%char) || bool_decide (x = a)) && likeMatch p' t
           | EmptyString => false
           end
  end.

Definition likeChar (a : ascii) : string :=
  if decide (a = "\"%char) then "\\" else if decide (a = "%"%char) then "\%" else if decide (a = "_"%char) then "\_" else String a "".

Lemma replace_all_cons c by_ a s : replace_all c by_ (String a s) = (if decide (a = c) then by_ else String a "") +:+ replace_all c by_ s.
Proof. done. Qed.

Lemma likeEscape_cons a v : likeEscape (String a v) = likeChar a +:+ likeEscape v.
Proof.
  unfold likeEscape, likeChar. rewrite (replace_all_cons "\"%char).
  destruct (decide (a = "\"%char)) as [->|H1]; [done|]. change (String a "" +:+ ?x) with (String a x). rewrite (replace_all_cons "%"%char).
  destruct (decide (a = "%"%char)) as [->|H2]; [done|]. change (String a "" +:+ ?x) with (String a x). rewrite (replace_all_cons "_"%char).
  by destruct (decide (a = "_"%char)) as [->|H3].
Qed.

Lemma likeMatch_any p t : likeMatch (String "%" p) t = true <-> exists a b, t = a +:+ b /\ likeMatch p b = true.
Proof.
  change (likeMatch (String "%" p) t) with
    ((fix any t := likeMatch p t || match t with EmptyString => false | String _ t => any t end) t).
  induction t as [|x t IH]; rewrite orb_true_iff.
  - split; [intros [?|?]; [by exists "", ""|done]|]. intros ([|] & b & E & Hb); [|done]. left. by rewrite E.
  - rewrite IH. split.
    + intros [?|(a & b & -> & Hb)]; [by exists "", (String x t)|]. by exists (String x a), b.
    + intros ([|y a] & b & E & Hb); [left; by rewrite E|]. rewrite string_app_cons in E. injection E as -> ->. right. by exists a, b.
Qed.

Lemma likeMatch_char a p t : likeMatch (likeChar a +:+ p) t = true <-> exists t', t = String a t' /\ likeMatch p t' = true.
Proof.
  unfold likeChar. assert (forall t, likeMatch (String "\" (String a p)) t = true <-> exists t', t = String a t' /\ likeMatch p t' = true) as Hesc.
  { intros u. destruct u as [|x u]; [split; [done|by intros (? & ? & _)]|].
    change (likeMatch (String "\" (String a p)) (String x u)) with (bool_decide (x = a) && likeMatch p u).
    rewrite andb_true_iff, bool_decide_eq_true. split; [intros [-> ?]; eauto|]. by intros (t' & [= -> ->] & ?). }
  repeat (case_decide; [subst; apply Hesc|]).
  change (String a "" +:+ p) with (String a p). destruct t as [|x t]; cbn [likeMatch]; rewrite !decide_False by done.
  { split; [done|by intros (? & ? & _)]. }
  rewrite bool_decide_false, orb_false_l, andb_true_iff, bool_decide_eq_true by done.
  split; [intros [-> ?]; eauto|]. by intros (t' & [= -> ->] & ?).
Qed.

(** An escaped text in a pattern matches the text itself and nothing else. *)
Lemma likeMatch_escape v p t : likeMatch (likeEscape v +:+ p) t = true <-> exists t', t = v +:+ t' /\ likeMatch p t' = true.
Proof.
  revert t. induction v as [|a v IH]; intros t.
  - change (likeEscape "" +:+ p) with p. split; [intros ?; by exists t|]. by intros (t' & -> & ?).
  - rewrite likeEscape_cons, string_app_assoc, likeMatch_char. split.
    + intros (t' & -> & (t'' & -> & ?)%IH). by exists t''.
    + intros (t' & -> & ?). exists (v +:+ t'). split; [done|]. apply IH. eauto.
Qed.

Lemma likeMatch_all t : likeMatch "%" t = true.
Proof. apply likeMatch_any. exists t, "". by rewrite string_app_nil_r. Qed.

Lemma likeMatch_end t : likeMatch "" t = true <-> t = "".
Proof. apply bool_decide_eq_true. Qed.

(** the LIKE pattern that a text parameter becomes matches exactly the
    texts that contain it, start with it or end with it: whatever wildcard or
    escape characters the parameter holds, they match only themselves. *)
Theorem transformParam_like (value text : string) :
  (exists p, transformParam "like_contains" (JString value) = Ok (JString p) /\
     (likeMatch p text = true <-> exists a b, text = a +:+ value +:+ b)) /\
  (exists p, transformParam "like_starts" (JString value) = Ok (JString p) /\
     (likeMatch p text = true <-> exists b, text = value +:+ b)) /\
  (exists p, transformParam "like_ends" (JString value) = Ok (JString p) /\
     (likeMatch p text = true <-> exists a, text = a +:+ value)).
Proof.
  split_and!; eexists; (split; [reflexivity|]).
  - change (str ["%"; likeEscape value; "%"]) with (String "%" (likeEscape value +:+ ("%" +:+ ""))).
    change ("%" +:+ "") with "%". rewrite likeMatch_any. setoid_rewrite likeMatch_escape. split.
    + intros (a & ? & -> & (b & -> & _)). by exists a, b.
    + intros (a & b & ->). exists a, (value +:+ b). split; [done|]. exists b. split; [done|apply likeMatch_all].
  - change (str [likeEscape value; "%"]) with (likeEscape value +:+ ("%" +:+ "")). change ("%" +:+ "") with "%".
    rewrite likeMatch_escape. split; [intros (b & -> & _); eauto|]. intros (b & ->). exists b. split; [done|apply likeMatch_all].
  - change (str ["%"; likeEscape value]) with (String "%" (likeEscape value +:+ "")). rewrite likeMatch_any.
    setoid_rewrite likeMatch_escape. setoid_rewrite likeMatch_end. split.
    + intros (a & ? & -> & (? & -> & ->)). exists a. by rewrite string_app_nil_r.
    + intros (a & ->). exists a, value. split; [done|]. exists "". by rewrite string_app_nil_r.
Qed.

(** ** Full-text terms *)

Lemma after_length p s rest : after p s = Some rest -> (String.length rest <= String.length s)%nat.
Proof.
  revert s. induction p as [|a p IH]; intros s; simpl; [by intros [= ->]|]. destruct s as [|b s]; [done|].
  destruct (decide (a = b)); [|done]. intros ?%IH. simpl. lia.
Qed.

Lemma afterSpace_length s rest : afterSpace s = Some rest -> (String.length rest < String.length s)%nat.
Proof.
  unfold afterSpace. intros (w & Hw & Ha)%head_Some_elem_of%list_elem_of_omap.
  assert (forallb (fun w => negb (bool_decide (w = ""))) whitespace = true) as Hall by (vm_compute; reflexivity).
  rewrite forallb_forall in Hall. apply list_elem_of_In, Hall, negb_true_iff, bool_decide_eq_false in Hw.
  destruct w as [|a w]; [done|]. simpl in Ha. destruct s as [|b s]; [done|]. destruct (decide (a = b)); [|done].
  apply after_length in Ha. simpl. lia.
Qed.

Lemma skipSpace_length fuel s : (String.length (skipSpace fuel s) <= String.length s)%nat.
Proof.
  revert s. induction fuel as [|fuel IH]; intros s; simpl; [lia|]. destruct (afterSpace s) eqn:E; [|lia].
  apply afterSpace_length in E. specialize (IH s0). lia.
Qed.

(** No piece of the split holds a space. *)
Lemma splitSpace_no_space fuel s : (String.length s < fuel)%nat -> Forall (fun t => has_char " " t = false) (splitSpace fuel s).
Proof.
  revert s. induction fuel as [|fuel IH]; intros s Hf; [lia|]. simpl. destruct (afterSpace s) as [rest|] eqn:E.
  - apply afterSpace_length in E. constructor; [done|]. apply IH. pose proof (skipSpace_length (String.length rest) rest). lia.
  - destruct s as [|a s]; [by repeat constructor|]. specialize (IH s ltac:(simpl in Hf; lia)).
    assert (a <> " "%char) as Ha by (intros ->; done).
    destruct (splitSpace fuel s) as [|p ps]; [by repeat constructor; simpl; rewrite bool_decide_false|].
    inversion IH; subst. constructor; [|done]. simpl. by rewrite bool_decide_false.
Qed.

Lemma has_char_list c s : has_char c s = true <-> c ∈ String.list_ascii_of_string s.
Proof.
  induction s as [|a s IH]; simpl; [by rewrite elem_of_nil|]. rewrite orb_true_iff, bool_decide_eq_true, IH, elem_of_cons. naive_solver.
Qed.

Lemma removeOps_has c t : has_char c (removeOps t) = true <-> has_char c t = true /\ c ∉ booleanOps.
Proof.
  rewrite !has_char_list. unfold removeOps. rewrite String.list_ascii_of_string_of_list_ascii, list_elem_of_filter.
  rewrite negb_true_iff, bool_decide_eq_false. naive_solver.
Qed.

(** the text of a boolean-mode match is one plain required term after
    another: each is a plus sign and a non-empty term without a space or an
    operator character, and only the last has a star. The text of the parameter
    cannot put an operator of its own into the search. *)
Theorem fulltextBoolean_terms (value : string) :
  fulltextBoolean value = "" /\ fulltextTerms value = [] \/
  exists terms, terms <> [] /\ fulltextBoolean value = join " " (map (fun t => str ["+"; t]) terms) +:+ "*" /\
    Forall (fun t => t <> "" /\ has_char " " t = false /\ Forall (fun c => has_char c t = false) booleanOps) terms.
Proof.
  unfold fulltextBoolean. assert (Forall (fun t => t <> "" /\ has_char " " t = false /\ Forall (fun c => has_char c t = false) booleanOps)
    (fulltextTerms value)) as Hall.
  { apply Forall_forall. intros t. unfold fulltextTerms. rewrite list_elem_of_filter. intros [Hne Ht].
    apply list_elem_of_fmap in Ht as (u & -> & Hu). split; [done|].
    pose proof (splitSpace_no_space (S (String.length value)) value ltac:(lia)) as Hs. rewrite Forall_forall in Hs. specialize (Hs u Hu).
    split.
    - apply not_true_is_false. rewrite removeOps_has, Hs. naive_solver.
    - apply Forall_forall. intros c Hc. apply not_true_is_false. rewrite removeOps_has. naive_solver. }
  destruct (fulltextTerms value) as [|t ts]; [by left|]. right. exists (t :: ts). done.
Qed.

(** ** Checked parameters *)

(** a parameter passes the check of an integer slot exactly when it is SQL
    NULL or an integer that the two's complement width of the slot holds. *)
Theorem checkParam_integer (i : Z) (value : JsValue) (slot : ParamSlot) (zone width : Z) :
  (ps_type slot, width) ∈ [("i16", 16); ("i32", 32); ("i64", 64)] ->
  checkParam i value slot zone = Ok tt <->
    value = JNull \/ value = JUndefined \/
    exists n, integerOf value = Some n /\ - 2 ^ (width - 1) <= n < 2 ^ (width - 1).
Proof.
  intros Ht. unfold checkParam.
  destruct (decide (value = JNull \/ value = JUndefined)) as [Hn|Hn].
  { assert (bool_decide (value = JNull) || bool_decide (value = JUndefined) = true) as ->.
    { apply orb_true_iff. rewrite !bool_decide_eq_true. done. }
    split; [|done]. intros _. destruct Hn; auto. }
  rewrite !bool_decide_false by naive_solver. rewrite orb_false_l.
  assert (forall low high : Z, low = - 2 ^ (width - 1) -> high = 2 ^ (width - 1) - 1 ->
    assoc (ps_type slot) integerRanges = Some (low, high) -> includes (ps_type slot) ["i16"; "i32"; "i64"] = true ->
    (if includes (ps_type slot) ["i16"; "i32"; "i64"] then
       match integerOf value with
       | None => paramFail i [" ("; typeof value; ") is not a "; ps_type slot; " value"]
       | Some n =>
           let '(low, high) := default (0, 0) (assoc (ps_type slot) integerRanges) in
           if (n <? low) || (high <? n) then paramFail i [" ("; shown value; ") is outside "; ps_type slot] else Ok tt
       end else Ok tt) = Ok tt <->
    value = JNull \/ value = JUndefined \/ exists n, integerOf value = Some n /\ - 2 ^ (width - 1) <= n < 2 ^ (width - 1)) as Hmain.
  { intros low high El Eh Ea Ei. rewrite Ei, Ea. simpl. destruct (integerOf value) as [n|]; [|naive_solver].
    destruct (Z.ltb_spec n low), (Z.ltb_spec high n); naive_solver lia. }
  rewrite !elem_of_cons, elem_of_nil in Ht. destruct Ht as [Ht|[Ht|[Ht|[]]]]; injection Ht as Ht ->; rewrite Ht in *;
    eapply Hmain; reflexivity.
Qed.

Lemma checkParam_integer_witness :
  checkParam 3 (JBigint 32768) (mkParamSlot "i16" 0 0 0 false None) 0 <> Ok tt /\ - 2 ^ (16 - 1) <= 32767 < 2 ^ (16 - 1).
Proof.
  split; [|lia]. intros H. apply (checkParam_integer 3 (JBigint 32768) (mkParamSlot "i16" 0 0 0 false None) 0 16) in H; [|left].
  destruct H as [H|[H|(n & [= <-] & H)]]; [done|done|lia].
Defined.

Lemma includes_cons {A} `{EqDecision A} (x y : A) l : includes x (y :: l) = bool_decide (x = y) || includes x l.
Proof. unfold includes. apply eq_true_iff_eq. rewrite orb_true_iff, !bool_decide_eq_true. apply elem_of_cons. Qed.

Lemma char_in_one c s rest : char_in [c] s = Some rest <-> s = String c rest.
Proof.
  destruct s as [|a s]; simpl; [done|]. destruct (decide (a ∈ [c])) as [Ha|Ha].
  - apply list_elem_of_singleton in Ha as ->. naive_solver.
  - split; [done|]. intros [= -> ->]. destruct Ha. by constructor.
Qed.

Lemma digitsN_spec n s d rest : digitsN n s = Some (d, rest) <-> digitText n d /\ s = d +:+ rest.
Proof.
  revert s d rest. induction n as [|n IH]; intros s d rest; simpl.
  - split; [by intros [= <- <-]|]. intros [[_ Hl] ->]. by destruct d.
  - destruct s as [|a s]; [split; [done|]; intros [[_ Hl] E]; destruct d; [done|by rewrite string_app_cons in E]|].
    destruct (is_digit a) eqn:Ea; [|split; [done|]; intros [[Hd Hl] E]; destruct d as [|b d]; [done|];
      rewrite string_app_cons in E; injection E as -> ->; apply andb_true_iff in Hd as [Hd _]; congruence].
    destruct (digitsN n s) as [[d' rest']|] eqn:E.
    + apply IH in E as [[Hd Hl] ->]. split.
      * intros [= <- <-]. unfold digitText. rewrite all_digits_cons, Ea, Hd. simpl. by rewrite Hl.
      * intros [[Hd' Hl'] E]. destruct d as [|b d]; [done|]. rewrite string_app_cons in E. injection E as -> E.
        apply andb_true_iff in Hd' as [_ Hd']. injection Hl' as Hl'.
        assert (digitsN n (d' +:+ rest') = Some (d, rest)) as E1 by (apply IH; done).
        assert (digitsN n (d' +:+ rest') = Some (d', rest')) as E2 by (apply IH; done). congruence.
    + split; [done|]. intros [[Hd' Hl'] E']. destruct d as [|b d]; [done|]. rewrite string_app_cons in E'. injection E' as -> ->.
      apply andb_true_iff in Hd' as [_ Hd']. injection Hl' as Hl'.
      assert (digitsN n (d +:+ rest) = Some (d, rest)) as E1 by (apply IH; done). congruence.
Qed.

#[local] Arguments digitsN : simpl never.
#[local] Arguments char_in : simpl never.

Lemma readDate_spec s y m d rest : readDate s = Some (y, m, d, rest) <->
  digitText 4 y /\ digitText 2 m /\ digitText 2 d /\ s = y +:+ String "-" (m +:+ String "-" (d +:+ rest)).
Proof.
  unfold readDate. split.
  - destruct (digitsN 4 s) as [[y' s1]|] eqn:E1; [|done]. simpl. destruct (char_in _ s1) as [s2|] eqn:E2; [|done]. simpl.
    destruct (digitsN 2 s2) as [[m' s3]|] eqn:E3; [|done]. simpl. destruct (char_in _ s3) as [s4|] eqn:E4; [|done]. simpl.
    destruct (digitsN 2 s4) as [[d' s5]|] eqn:E5; [|done]. simpl. intros [= -> -> -> ->].
    apply digitsN_spec in E1 as [? ->], E3 as [? ->], E5 as [? ->]. apply char_in_one in E2 as ->, E4 as ->. done.
  - intros (Hy & Hm & Hd & ->). rewrite (proj2 (digitsN_spec 4 _ y _)) by done. simpl.
    rewrite (proj2 (digitsN_spec 2 _ m _)) by done. simpl.
    by rewrite (proj2 (digitsN_spec 2 _ d _)) by done.
Qed.

Lemma checkParam_dateSlot i text slot zone : ps_type slot = "date" ->
  checkParam i (JString text) slot zone =
  match timeValue text "date" zone (ps_precision slot) with
  | Err e => paramFail i [": "; messageOf e]
  | Ok t => if negb (inYears t) then paramFail i [" ("; shown (JString text); ") is outside 0001-01-01 to 9999-12-31"] else Ok tt
  end.
Proof. unfold checkParam. by intros ->. Qed.

(** a text passes the check of a date slot exactly when it is a date of the
    Gregorian calendar from 0001-01-01 to 9999-12-31, written as four, two and
    two digits. *)
Theorem checkParam_date (i : Z) (text : string) (slot : ParamSlot) (zone : Z) :
  ps_type slot = "date" ->
  checkParam i (JString text) slot zone = Ok tt <->
    exists y m d, digitText 4 y /\ digitText 2 m /\ digitText 2 d /\ text = str [y; "-"; m; "-"; d] /\
      1 <= num y /\ calendarDate (num y) (num m) (num d).
Proof.
  intros Ht. rewrite checkParam_dateSlot by done.
  assert (forall y m d, str [y; "-"; m; "-"; d] = y +:+ String "-" (m +:+ String "-" (d +:+ ""))) as Es by done.
  assert (forall y rest, digitText 4 y -> inYears (y +:+ String "-" rest) = true <-> 1 <= num y) as Hin.
  { intros y rest Hy. unfold inYears. rewrite (proj2 (digitsN_spec 4 _ y (String "-" rest))) by done. simpl.
    rewrite negb_true_iff, bool_decide_eq_false. pose proof (digitText_range 4 y Hy). split.
    - intros Hne. destruct (decide (num y = 0)) as [E|]; [|lia]. exfalso. apply Hne. destruct Hy. by apply digits_unique.
    - intros H1 ->. vm_compute in H1. done. }
  unfold timeValue, timeForm. destruct (decide ("date" = "date")) as [_|]; [|done]. split.
  - destruct (readDate text) as [[[[y m] d] rest]|] eqn:E; [|done]. apply readDate_spec in E as (Hy & Hm & Hd & ->).
    cbn [mbind option_bind]. destruct (bool_decide_reflect (rest = "")) as [->|]; [|done].
    destruct (validDate y m d "00" "00" "00") eqn:Ev; [|done]. cbn [andb or_fail].
    destruct (inYears _) eqn:Ei; [|done]. intros _. exists y, m, d. rewrite Es. apply Hin in Ei; [|done].
    apply validDate_spec in Ev as (Hc & _); [|done..]. done.
  - intros (y & m & d & Hy & Hm & Hd & -> & H1 & Hc). rewrite Es. rewrite (proj2 (readDate_spec _ y m d "")) by done.
    cbn [mbind option_bind]. rewrite bool_decide_true by done.
    assert (validDate y m d "00" "00" "00" = true) as ->.
    { apply validDate_spec; try done. split_and!; [done|lia|]. vm_compute. split_and!; done. }
    cbn [andb or_fail]. by rewrite (proj2 (Hin y _ Hy)).
Qed.

Lemma checkParam_date_witness : checkParam 0 (JString "2024-02-29") (mkParamSlot "date" 0 0 0 false None) 0 = Ok tt.
Proof.
  apply (checkParam_date 0 "2024-02-29" (mkParamSlot "date" 0 0 0 false None) 0 eq_refl).
  exists "2024", "02", "29". unfold calendarDate. vm_compute. repeat split; discriminate.
Defined.
