(* ===== verification/Keys.v ===== *)
(** * Row identities ([database.ts], [scalarKey] to [keyText])

    The rows of a relation are grouped, and the parents and the rows of a split
    query are made distinct, by a text that a row's key columns give.  A text is
    the list of its UTF-8 bytes, so [Buffer.byteLength] is its length. *)

From S2P Require Import Prelude Lex Ir Values Decimal.

Definition byteChar (b : Z) : ascii := ascii_of_N (Z.to_N b).

(** U+FFFD in UTF-8. *)
Definition replacement : string := String (ascii_of_nat 239) (String (ascii_of_nat 191) (String (ascii_of_nat 189) "")).

(** [Buffer.from(bytes).toString()]: UTF-8 decoding that writes U+FFFD for each
    part that is not UTF-8.  [pending] holds the bytes of a character begun, of
    which [need] more must come, the next one from [lo] to [hi]. *)
Fixpoint utf8Lossy (pending : string) (need : nat) (lo hi : Z) (l : list Z) : string :=
  match l with
  | [] => match need with O => "" | S _ => replacement end
  | b :: rest =>
      let c := String (byteChar b) "" in
      let start :=
        if b <? 128 then c +:+ utf8Lossy "" 0 128 191 rest
        else if (194 <=? b) && (b <=? 223) then utf8Lossy c 1 128 191 rest
        else if b =? 224 then utf8Lossy c 2 160 191 rest
        else if b =? 237 then utf8Lossy c 2 128 159 rest
        else if (225 <=? b) && (b <=? 239) then utf8Lossy c 2 128 191 rest
        else if b =? 240 then utf8Lossy c 3 144 191 rest
        else if (241 <=? b) && (b <=? 243) then utf8Lossy c 3 128 191 rest
        else if b =? 244 then utf8Lossy c 3 128 143 rest
        else replacement +:+ utf8Lossy "" 0 128 191 rest in
      match need with
      | O => start
      | S more =>
          if (lo <=? b) && (b <=? hi) then
            match more with
            | O => (pending +:+ c) +:+ utf8Lossy "" 0 128 191 rest
            | S _ => utf8Lossy (pending +:+ c) more 128 191 rest
            end
          else replacement +:+ start
      end
  end.
Definition bufferText (bytes : list Z) : string := utf8Lossy "" 0 128 191 bytes.

Definition hexDigit (n : Z) : ascii := ascii_of_N (Z.to_N (if n <? 10 then 48 + n else 87 + n)).
(** [Buffer.toString('hex')] *)
Definition hexText (bytes : list Z) : string :=
  str (map (fun b => String (hexDigit (b / 16)) (String (hexDigit (b mod 16)) "")) bytes).

Definition scalarKey (value : JsValue) : string :=
  match value with
  | JNull | JUndefined => String (ascii_of_nat 0) ""
  | JBool b => if b then "1" else "0"
  | JBytes l => bufferText l
  | JString s => s
  | JInt n | JBigint n => pretty n
  | JNegZero => "0"
  | JFraction t | JNonFinite t => t
  | JDate t => jsonString t
  | JOther t json => default t json
  end.

Definition compositeKeyPart (value : JsValue) : string :=
  let frame tag payload := str [tag; pretty (slen payload); ":"; payload] in
  match value with
  | JBool b => frame "t" (if b then "1" else "0")
  | JBigint n | JInt n => frame "i" (pretty n)
  | JNegZero => frame "i" "0"
  | JString s => frame "s" s
  | JBytes l => frame "b" (hexText l)
  | JDate t => frame "d" t
  | _ => let legacy := scalarKey value in str [pretty (slen legacy); ":"; legacy]
  end.

(** The identity of a collection key; SQL NULL has none. *)
Definition keyText (value : JsValue) : res string :=
  match value with
  | JNull | JUndefined => Err (OrmError CODEC_DECODE "collection row identity contains SQL NULL")
  | JInt n | JBigint n => Ok (str ["n:"; pretty n])
  | JNegZero => Ok "n:0"
  | JFraction t | JNonFinite t => Ok (str ["n:"; t])
  | JBool b => Ok (if b then "b:1" else "b:0")
  | JBytes l => Ok (str ["x:"; hexText l])
  | JDate t => Ok (str ["d:"; t])
  | _ => Ok (str ["s:"; scalarKey value])
  end.

Definition keyOfValues (values : list JsValue) : res string :=
  match values with
  | [v] => keyText v
  | _ => Ok (str (map compositeKeyPart values))
  end.

Definition isNull (v : JsValue) : bool := match v with JNull | JUndefined => true | _ => false end.

(** [row[index]] *)
Definition cell (row : list JsValue) (i : nat) : JsValue := default JUndefined (row !! i).

(** The key of a row, or nothing when a key column holds SQL NULL. *)
Definition rowKey (row : list JsValue) (refs : list KeyReference) : res (option string) :=
  let values := map (fun ref => cell row (kr_index ref)) refs in
  if existsb isNull values then Ok None else k ← keyOfValues values; Ok (Some k).

(** The identity used only while merging split root queries. *)
Definition splitRowKey (row : list JsValue) (refs : list KeyReference) : res string :=
  key ← rowKey row refs;
  or_fail key CODEC_DECODE "split query row identity contains SQL NULL".

(** ** Frames *)

Lemma is_digit_colon : is_digit ":"%char = false.
Proof. done. Qed.

(** Two texts of digits before a colon are read the same way. *)
Lemma digits_colon s s' x x' : all_digits s = true -> all_digits s' = true ->
  s +:+ String ":" x = s' +:+ String ":" x' -> s = s' /\ x = x'.
Proof.
  revert s'. induction s as [|a s IH]; intros [|b s'] Hs Hs' E.
  - by injection E.
  - rewrite string_app_cons in E. apply andb_true_iff in Hs' as [Hb _]. change ("" +:+ ?y) with y in E. injection E as <- _. done.
  - rewrite string_app_cons in E. apply andb_true_iff in Hs as [Ha _]. change ("" +:+ ?y) with y in E. injection E as -> _. done.
  - rewrite !string_app_cons in E. injection E as -> E. apply andb_true_iff in Hs as [_ Hs], Hs' as [_ Hs'].
    by destruct (IH s' Hs Hs' E) as [-> ->].
Qed.

Lemma app_same_length a b x y : String.length a = String.length b -> a +:+ x = b +:+ y -> a = b /\ x = y.
Proof.
  revert b. induction a as [|c a IH]; intros [|d b] Hl E; try done. rewrite !string_app_cons in E. injection E as -> E.
  destruct (IH b ltac:(simpl in Hl; lia) E) as [-> ->]. done.
Qed.

Lemma pretty_Z_inj (m n : Z) : pretty m = pretty n -> m = n.
Proof. apply pretty_Z_inj. Qed.

(** A length, a colon and a text of that length, then anything. *)
Lemma frame_inj a b x y :
  str [pretty (slen a); ":"; a] +:+ x = str [pretty (slen b); ":"; b] +:+ y -> a = b /\ x = y.
Proof.
  assert (forall a x, str [pretty (slen a); ":"; a] +:+ x = pretty (slen a) +:+ String ":" (a +:+ x)) as H.
  { intros. unfold str. rewrite string_app_nil_r, string_app_assoc. done. }
  rewrite !H. intros E. apply digits_colon in E as [E1 E2]; try (apply digits_pretty; apply slen_nonneg).
  apply pretty_Z_inj in E1. apply app_same_length in E2; [done|]. unfold slen in E1. lia.
Qed.

(** The kind of a component and its text: what a frame holds. *)
Definition partId (v : JsValue) : string * string :=
  match v with
  | JBool b => ("t", if b then "1" else "0")
  | JBigint n | JInt n => ("i", pretty n)
  | JNegZero => ("i", "0")
  | JString s => ("s", s)
  | JBytes l => ("b", hexText l)
  | JDate t => ("d", t)
  | _ => ("", scalarKey v)
  end.

Lemma compositeKeyPart_frame v : compositeKeyPart v = fst (partId v) +:+ str [pretty (slen (snd (partId v))); ":"; snd (partId v)].
Proof. by destruct v. Qed.

Definition tags : list string := ["t"; "i"; "s"; "b"; "d"].

Lemma partId_tag v : fst (partId v) = "" \/ fst (partId v) ∈ tags.
Proof. destruct v; simpl; auto; right; unfold tags; rewrite !elem_of_cons; auto 10. Qed.

Lemma frame_front a : exists c r, str [pretty (slen a); ":"; a] = String c r /\ is_digit c = true.
Proof.
  destruct (digits_pretty (slen a) (slen_nonneg a)) as (Hd & _ & Hn). destruct (pretty (slen a)) as [|c r]; [done|].
  apply andb_true_iff in Hd as [Hc _]. exists c. eexists. split; [|exact Hc]. unfold str. rewrite string_app_cons. reflexivity.
Qed.

Lemma part_inj v w x y : compositeKeyPart v +:+ x = compositeKeyPart w +:+ y -> partId v = partId w /\ x = y.
Proof.
  rewrite !compositeKeyPart_frame. destruct (partId v) as [tv pv] eqn:Ev, (partId w) as [tw pw] eqn:Ew. simpl fst. simpl snd.
  pose proof (partId_tag v) as Hv. pose proof (partId_tag w) as Hw. rewrite Ev in Hv. rewrite Ew in Hw. simpl in Hv, Hw.
  destruct (frame_front pv) as (cv & rv & Fv & Dv), (frame_front pw) as (cw & rw & Fw & Dw).
  assert (forall t c, t ∈ tags -> is_digit c = true -> forall u r, t +:+ u <> String c r) as Hno.
  { intros t c Ht Hc u r E. unfold tags in Ht. rewrite !elem_of_cons, elem_of_nil in Ht.
    destruct Ht as [->|[->|[->|[->|[->|[]]]]]]; injection E as <- _; done. }
  rewrite !string_app_assoc. intros E. destruct Hv as [->|Hv], Hw as [->|Hw].
  - change ("" +:+ ?z) with z in E. apply frame_inj in E as [-> ->]. done.
  - exfalso. change ("" +:+ ?z) with z in E. rewrite Fv in E. rewrite string_app_cons in E. by apply eq_sym, Hno in E.
  - exfalso. change ("" +:+ ?z) with z in E. rewrite Fw in E. rewrite string_app_cons in E. by apply Hno in E.
  - assert (tv = tw) as ->.
    { unfold tags in Hv, Hw. rewrite !elem_of_cons, elem_of_nil in Hv, Hw.
      destruct Hv as [->|[->|[->|[->|[->|[]]]]]], Hw as [->|[->|[->|[->|[->|[]]]]]]; try done; injection E; done. }
    apply app_same_length in E as [_ E]; [|done]. apply frame_inj in E as [-> ->]. done.
Qed.

Lemma parts_inj vs ws : str (map compositeKeyPart vs) = str (map compositeKeyPart ws) -> map partId vs = map partId ws.
Proof.
  assert (forall v x, compositeKeyPart v +:+ x <> "") as Hne.
  { intros v x. rewrite compositeKeyPart_frame. destruct (frame_front (snd (partId v))) as (c & r & -> & _).
    destruct (fst (partId v)); done. }
  revert ws. induction vs as [|v vs IH]; intros [|w ws] E; simpl in *; [done| | |].
  - by apply eq_sym, Hne in E.
  - by apply Hne in E.
  - apply part_inj in E as [-> E]. f_equal. by apply IH.
Qed.

(** ** Bytes as hexadecimal text *)

Definition isByte (b : Z) : Prop := 0 <= b < 256.

Lemma hexDigit_inj m n : 0 <= m < 16 -> 0 <= n < 16 -> hexDigit m = hexDigit n -> m = n.
Proof.
  intros Hm Hn E. assert (forallb (fun i : nat => forallb (fun j : nat => negb (bool_decide (hexDigit (Z.of_nat i) = hexDigit (Z.of_nat j))) || bool_decide (i = j)) (seq 0 16)) (seq 0 16) = true)
    as H by (vm_compute; reflexivity).
  rewrite forallb_forall in H. specialize (H (Z.to_nat m)). rewrite forallb_forall in H.
  specialize (H ltac:(apply in_seq; lia) (Z.to_nat n) ltac:(apply in_seq; lia)). rewrite !Z2Nat.id in H by lia.
  rewrite bool_decide_true in H by done. simpl in H. apply bool_decide_eq_true in H. lia.
Qed.

Lemma hexText_inj l k : Forall isByte l -> Forall isByte k -> hexText l = hexText k -> l = k.
Proof.
  unfold hexText. intros Hl. revert k. induction Hl as [|b l Hb Hl IH]; intros [|c k] Hk E; try done.
  apply Forall_cons in Hk as [Hc Hk].
  simpl in E. unfold isByte in *. injection E as E1 E2 E.
  apply hexDigit_inj in E1; [|Z.to_euclidean_division_equations; lia..].
  apply hexDigit_inj in E2; [|Z.to_euclidean_division_equations; lia..].
  f_equal; [|by apply IH]. rewrite (Z.div_mod b 16), (Z.div_mod c 16) by lia. lia.
Qed.

(** ** Identities tell values apart *)

(** The values of key columns: all but SQL NULL, numbers that are not integers,
    and other objects. *)
Definition keyable (v : JsValue) : Prop :=
  match v with
  | JBool _ | JInt _ | JNegZero | JBigint _ | JString _ | JDate _ => True
  | JBytes l => Forall isByte l
  | _ => False
  end.

(** Equal key values: an integer is the same as a number and as a bigint. *)
Definition sameKey (v w : JsValue) : Prop := v = w \/ exists n, (v = JInt n \/ v = JBigint n \/ v = JNegZero /\ n = 0) /\
  (w = JInt n \/ w = JBigint n \/ w = JNegZero /\ n = 0).

Lemma sameKey_integers v w m n : (v = JInt m \/ v = JBigint m \/ v = JNegZero /\ m = 0) ->
  (w = JInt n \/ w = JBigint n \/ w = JNegZero /\ n = 0) -> pretty m = pretty n -> sameKey v w.
Proof. intros Hv Hw ->%pretty_Z_inj. right. eauto. Qed.

Lemma partId_sameKey v w : keyable v -> keyable w -> partId v = partId w <-> sameKey v w.
Proof.
  intros Hv Hw. split.
  - destruct v, w; simpl in *; try done; intros E; try (by left); injection E as E; try (by left; subst); try (by right; eauto 10).
    all: try (eapply sameKey_integers; [..|exact E]; eauto).
    all: try (left; f_equal; by apply hexText_inj).
    all: try (left; f_equal; by destruct b, b0).
    + eapply (sameKey_integers _ _ n 0); eauto.
    + eapply (sameKey_integers _ _ 0 n); eauto.
    + eapply (sameKey_integers _ _ 0 n); eauto.
    + eapply (sameKey_integers _ _ n 0); eauto.
  - intros [->|(n & Hn & Hm)]; [done|]. destruct Hn as [->|[->|[-> ->]]], Hm as [->|[->|[-> E]]]; subst; done.
Qed.

Definition keyPrefix (v : JsValue) : string :=
  match v with JBool _ => "b:" | JBytes _ => "x:" | JDate _ => "d:" | JString _ => "s:" | _ => "n:" end.

Lemma keyText_partId v : keyable v -> keyText v = Ok (keyPrefix v +:+ snd (partId v)).
Proof. destruct v; simpl; try done; intros _; try (unfold str; by rewrite ?string_app_nil_r); by destruct b. Qed.

Lemma keyText_inj v w : keyable v -> keyable w -> keyText v = keyText w <-> sameKey v w.
Proof.
  intros Hv Hw. rewrite <- partId_sameKey by done. rewrite !keyText_partId by done.
  assert (forall u, keyable u -> fst (partId u) = match u with JBool _ => "t" | JBytes _ => "b" | JDate _ => "d" | JString _ => "s" | _ => "i" end) as Hf
    by (by intros []).
  split.
  - intros [= E]. assert (keyPrefix v = keyPrefix w /\ snd (partId v) = snd (partId w)) as [Ep Es].
    { apply app_same_length; [by destruct v, w|done]. }
    apply injective_projections; [|done]. rewrite !Hf by done. destruct v, w; done.
  - intros E. pose proof (Hf v Hv) as Ev. pose proof (Hf w Hw) as Ew. rewrite E in Ev |- *. rewrite Ev in Ew. do 2 f_equal. destruct v, w; done.
Qed.

(** C21: the text by which rows are grouped tells their keys apart: two keys of
    one number of columns have one text exactly when each pair of components is
    one value, where an integer is the same as a number and as a bigint. No
    text, byte string, boolean, integer or date of one key can be read as part
    of another. *)
Theorem keyOfValues_injective (vs ws : list JsValue) :
  length vs = length ws -> Forall keyable vs -> Forall keyable ws ->
  keyOfValues vs = keyOfValues ws <-> Forall2 sameKey vs ws.
Proof.
  intros Hl Hv Hw. destruct (decide (length vs = 1%nat)) as [H1|H1].
  - destruct vs as [|v [|]], ws as [|w [|]]; try done. simpl. rewrite Forall_singleton in Hv, Hw.
    rewrite keyText_inj by done. split; [intros H; by apply Forall2_cons|]. by inversion 1.
  - assert (forall us, length us <> 1%nat -> keyOfValues us = Ok (str (map compositeKeyPart us))) as Hk by (by intros [|? [|]]).
    rewrite !Hk by congruence. split.
    + intros [= E]. apply parts_inj in E. clear Hk H1. revert ws Hl Hw E. induction Hv as [|v vs Kv Hv IH]; intros [|w ws] Hl Hw E; try done.
      inversion Hw; subst. injection E as E1 E. constructor; [by apply partId_sameKey|]. apply IH; [by injection Hl|done|done].
    + intros H. f_equal. f_equal. clear Hk H1 Hl. induction H as [|v w vs ws Hs _ IH]; [done|]. inversion Hv; inversion Hw; subst. simpl.
      f_equal; [|by apply IH]. rewrite !compositeKeyPart_frame. by rewrite (proj2 (partId_sameKey v w ltac:(done) ltac:(done)) Hs).
Qed.

Lemma keyOfValues_injective_witness :
  keyOfValues [JString "1s1:2"; JString ""] <> keyOfValues [JString "1"; JString "2s0:"].
Proof.
  intros H. apply (keyOfValues_injective [JString "1s1:2"; JString ""] [JString "1"; JString "2s0:"] eq_refl) in H;
    [|by repeat constructor..]. inversion H as [|? ? ? ? Hs]; subst. destruct Hs as [Hs|(n & [Hs|[Hs|[Hs _]]] & _)]; discriminate Hs.
Defined.
