(* ===== verification/DocumentFacts.v ===== *)
(** * Facts of document sets

    What the check of a set accepts, what the manifest and schema texts do not
    depend on, and what an external comparison without differences says. *)

From S2P Require Import Prelude Documents Emit DocumentSet Decimal Keys.
From Stdlib Require Import Lia.

(** ** Sorting with distinct keys *)

Lemma string_le_anti (a b : string) : String.le a b -> String.le b a -> a = b.
Proof. intros H1 H2. by apply (anti_symm String.le). Qed.

(** A sorted list without repeated keys is the only one of its permutations. *)
Lemma sorted_unique {A} (key : A -> string) (l k : list A) :
  Sorted String.le (map key l) -> Sorted String.le (map key k) -> NoDup (map key l) -> l ≡ₚ k -> l = k.
Proof.
  intros Hl%(Sorted_StronglySorted _) Hk%(Sorted_StronglySorted _) Hn Hp.
  revert k Hk Hp. induction l as [|x l IH]; intros k Hk Hp; [by apply Permutation_nil_l in Hp|].
  destruct k as [|y k]; [by apply Permutation_nil_r in Hp|].
  simpl in *. apply StronglySorted_inv in Hl as [Hl Hxl]. apply StronglySorted_inv in Hk as [Hk Hyk]. apply NoDup_cons in Hn as [Hx Hn].
  assert (x = y) as ->.
  { assert (Hxk : x ∈ y :: k) by (rewrite <- Hp; by left). assert (Hyl : y ∈ x :: l) by (rewrite Hp; by left).
    apply elem_of_cons in Hxk as [?|Hxk]; [done|]. apply elem_of_cons in Hyl as [?|Hyl]; [done|].
    rewrite Forall_map, Forall_forall in Hxl, Hyk. pose proof (string_le_anti _ _ (Hxl y Hyl) (Hyk x Hxk)) as E.
    destruct Hx. rewrite E. by apply list_elem_of_fmap_2. }
  f_equal. apply IH; [done|done|done|]. by apply Permutation_cons_inv in Hp.
Qed.

Lemma sort_by_unique {A} (key : A -> string) (l k : list A) :
  NoDup (map key l) -> l ≡ₚ k -> sort_by key l = sort_by key k.
Proof.
  intros Hn Hp. apply (sorted_unique key); [apply sort_by_sorted|apply sort_by_sorted| |by rewrite !sort_by_perm].
  by rewrite sort_by_perm.
Qed.

(** ** The check of a set *)

Lemma concat_nil_iff {A B} (f : A -> list B) l : concat (map f l) = [] <-> forall x, x ∈ l -> f x = [].
Proof.
  induction l as [|x l IH]; simpl; [split; [by intros _ ? []%elem_of_nil|done]|].
  rewrite app_nil, IH. split.
  - intros [Hx Hl] y [->|?]%elem_of_cons; auto.
  - intros H. split; [apply H; by left|]. intros y Hy. apply H. by right.
Qed.

Lemma NoDup_adjacent l : Sorted String.le l -> (forall i x, l !! i = Some x -> l !! S i = Some x -> False) -> NoDup l.
Proof.
  intros Hs%(Sorted_StronglySorted _). induction Hs as [|x l Hs IH Hx]; intros Ha; [constructor|].
  constructor; [|apply IH; intros i y; apply (Ha (S i))].
  intros Hin. destruct l as [|y l]; [by apply elem_of_nil in Hin|].
  assert (x = y) as ->; [|by apply (Ha 0%nat y)].
  apply elem_of_cons in Hin as [?|Hin]; [done|]. apply string_le_anti; [by inversion Hx|].
  apply StronglySorted_inv in Hs as [_ Hy]. rewrite Forall_forall in Hy. by apply Hy.
Qed.

(** No two neighbours of a list of documents have one name. *)
Fixpoint apart (before : option DbspecDocument) (l : list DbspecDocument) : Prop :=
  match l with [] => True | d :: l => doc_name <$> before ≠ Some (doc_name d) /\ apart (Some d) l end.

Lemma checkDocuments_nil ordered before l :
  checkDocuments ordered before l = [] <->
  apart before l /\ forall d u, d ∈ l -> u ∈ doc_uses d -> is_Some (byName ordered (use_document u)).
Proof.
  revert before. induction l as [|d l IH]; intros before; simpl; [split; [|done]; intros _; split; [done|by intros ? ? []%elem_of_nil]|].
  unfold checkDocument. rewrite !app_nil, IH, concat_nil_iff. split.
  - intros [[Hb Hu] [Ha Hl]]. split; [split; [|done]; by destruct (decide _)|].
    intros d' u [->|Hd']%elem_of_cons Hin; [|by eapply Hl]. specialize (Hu (use_document u)).
    destruct (byName ordered (use_document u)); [done|]. rewrite elem_of_sort_by in Hu. discriminate Hu. by apply list_elem_of_fmap_2.
  - intros [[Hb Ha] Hl]. split_and!; [by rewrite decide_False| |done|intros; eapply Hl; [by right|done]].
    intros name Hn. apply elem_of_sort_by, list_elem_of_fmap in Hn as (u & -> & Hu). destruct (Hl d u) as [? ->]; [by left|done|done].
Qed.

Lemma apart_NoDup l : Sorted String.le (map doc_name l) -> apart None l <-> NoDup (map doc_name l).
Proof.
  intros Hs. split.
  - intros Ha. apply NoDup_adjacent; [done|]. clear Hs. generalize (@None DbspecDocument) as before, Ha. clear Ha.
    induction l as [|d l IH]; intros before Ha i x; [done|]. destruct i as [|i]; simpl; [|by apply (IH (Some d)); destruct Ha].
    intros [= <-]. destruct l as [|e l]; [done|]. simpl in *. intros [= E]. destruct Ha as [_ [Ha _]]. apply Ha. by rewrite E.
  - clear Hs. assert (H : forall before, NoDup (map doc_name (option_list before ++ l)) -> apart before l); [|apply (H None)].
    induction l as [|d l IH]; intros before Hn; simpl; [done|]. split.
    + destruct before as [b|]; [|done]. simpl in *. intros [= E]. apply NoDup_cons in Hn as [Hb _]. apply Hb. rewrite E. by left.
    + apply IH. destruct before; [|done]. by apply NoDup_cons in Hn as [_ Hn].
Qed.

Section perm.
Context (l k : list DbspecDocument) (Hp : l ≡ₚ k) (Hn : NoDup (map doc_name l)).

Lemma byName_elem ordered d : NoDup (map doc_name ordered) -> d ∈ ordered -> byName ordered (doc_name d) = Some d.
Proof.
  intros Hno Hd. destruct (byName ordered (doc_name d)) as [e|] eqn:E.
  - apply byName_some in E as [He Hname]. f_equal. apply list_elem_of_lookup in Hd as [i Hi], He as [j Hj].
    assert (i = j) as ->; [|congruence]. eapply NoDup_lookup; [exact Hno| |]; rewrite list_lookup_fmap.
    + by rewrite Hi.
    + rewrite Hj. simpl. by rewrite Hname.
  - apply byName_none in E. destruct E. by apply list_elem_of_fmap_2.
Qed.

Lemma byName_perm name : byName l name = byName k name.
Proof.
  destruct (byName l name) as [d|] eqn:E; symmetry.
  - apply byName_some in E as [Hd <-]. apply byName_elem; by rewrite <- Hp.
  - apply byName_none. rewrite <- Hp. by apply byName_none.
Qed.

Lemma Reached_perm name : Reached l name -> Reached k name.
Proof.
  assert (Hu : forall d x, usesName l d x -> usesName k d x).
  { intros d x (u & next & H1 & H2 & H3). exists u, next. by rewrite <- byName_perm. }
  induction 1; [eapply reached_owned; eauto; by rewrite <- Hp|]. eapply reached_use; [done| |eauto]. by rewrite <- byName_perm.
Qed.
End perm.

(** C26: a document set passes its check without a diagnostic exactly when its
    names are distinct, every document that one uses is of the set, and every
    external document is reached from an owned document along uses - the
    depth-first walk of the check, with its early exits, decides reachability. *)
Theorem checkSet_accepts documents :
  snd (checkSet documents) = [] <->
  NoDup (map doc_name documents) /\
  (forall d u, d ∈ documents -> u ∈ doc_uses d -> use_document u ∈ map doc_name documents) /\
  (forall d, d ∈ documents -> doc_external d = true -> Reached documents (doc_name d)).
Proof.
  unfold checkSet. cbn [snd]. set (ordered := sort_by doc_name documents).
  assert (Hp : ordered ≡ₚ documents) by apply sort_by_perm.
  rewrite app_nil, checkDocuments_nil, apart_NoDup by apply sort_by_sorted. rewrite concat_nil_iff. rewrite Hp at 1.
  assert (Hu : (forall d u, d ∈ ordered -> u ∈ doc_uses d -> is_Some (byName ordered (use_document u))) <->
               (forall d u, d ∈ documents -> u ∈ doc_uses d -> use_document u ∈ map doc_name documents)).
  { setoid_rewrite <- Hp. split; intros H d u Hd Hin; specialize (H d u Hd Hin).
    - destruct (decide (use_document u ∈ map doc_name ordered)) as [|Hno]; [done|].
      apply byName_none in Hno. rewrite Hno in H. by destruct H.
    - destruct (byName ordered (use_document u)) eqn:E; [done|]. by apply byName_none in E. }
  rewrite Hu. split.
  - intros [[Hn H1] H2]. split_and!; [done|done|]. intros d Hd He.
    specialize (H2 d). rewrite He in H2. destruct (includes (doc_name d) (reachedNames ordered)) eqn:E.
    + apply includes_elem, reachedNames_spec in E. eapply Reached_perm; [exact Hp| |exact E]. by rewrite Hp.
    + rewrite Hp in H2. by specialize (H2 Hd).
  - intros (Hn & H1 & H2). split; [done|]. intros d Hd. destruct (doc_external d) eqn:He; [|done].
    replace (includes (doc_name d) (reachedNames ordered)) with true; [done|]. symmetry.
    apply includes_elem, reachedNames_spec. eapply Reached_perm; [symmetry; exact Hp|done|]. apply H2; [by rewrite <- Hp|done].
Qed.

(** ** What the texts depend on *)

(** the manifest of a set with distinct names, its texts and both of its
    hashes, or its diagnostics, do not depend on the order of the documents. *)
Theorem manifest_order sha256 l k : NoDup (map doc_name l) -> l ≡ₚ k -> dbspecManifest sha256 l = dbspecManifest sha256 k.
Proof. intros Hn Hp. unfold dbspecManifest, checkSet. by rewrite (sort_by_unique doc_name l k Hn Hp). Qed.

Definition bareColumn (c : DbspecColumn) : DbspecColumn :=
  mkColumn [] (col_name c) (col_type c) (col_nullable c) (col_identity c) (col_default c).
Definition bareUnique (u : DbspecUnique) : DbspecUnique := mkUnique [] (un_name u) (un_columns u).
Definition bareIndex (x : DbspecIndex) : DbspecIndex := mkIndex [] (ix_name x) (ix_columns x).
Definition bareForeignKey (f : DbspecForeignKey) : DbspecForeignKey :=
  mkForeignKey [] (fk_name f) (fk_columns f) (fk_table f) (fk_references f) (fk_onDelete f) (fk_onUpdate f).
Definition bareCheck (c : DbspecCheck) : DbspecCheck := mkCheck [] (ck_name c) (ck_expression c).

(** The settings that a view writes, without their comments. *)
Definition writtenSettings (view : View) (t : DbspecTable) : list DbspecSetting :=
  filter (fun s => negb (bool_decide (view = Schema)) || includes (setting_kind s) schemaSettings = true) (tableSettings t).

(** Two tables that differ in comments, in the order of their unique keys,
    indexes, foreign keys and checks, and in settings a view leaves out. *)
Record sameTable (view : View) (t t' : DbspecTable) : Prop := {
  same_name : t_name t = t_name t';
  same_columns : map bareColumn (t_columns t) = map bareColumn (t_columns t');
  same_primaryKey : pk_columns (t_primaryKey t) = pk_columns (t_primaryKey t');
  same_uniques : map bareUnique (t_uniques t) ≡ₚ map bareUnique (t_uniques t');
  same_indexes : map bareIndex (t_indexes t) ≡ₚ map bareIndex (t_indexes t');
  same_foreignKeys : map bareForeignKey (t_foreignKeys t) ≡ₚ map bareForeignKey (t_foreignKeys t');
  same_checks : map bareCheck (t_checks t) ≡ₚ map bareCheck (t_checks t');
  same_settings : writtenSettings view t = writtenSettings view t'
}.

#[global] Instance sameTable_equivalence view : Equivalence (sameTable view).
Proof.
  split.
  - intros t. constructor; reflexivity.
  - intros t t' []. constructor; by symmetry.
  - intros t1 t2 t3 [] []. constructor; etransitivity; eassumption.
Qed.

(** The names of a table's objects are distinct within their kind. *)
Record distinctNames (t : DbspecTable) : Prop := {
  dn_uniques : NoDup (map un_name (t_uniques t));
  dn_indexes : NoDup (map ix_name (t_indexes t));
  dn_foreignKeys : NoDup (map fk_name (t_foreignKeys t));
  dn_checks : NoDup (map ck_name (t_checks t))
}.

(** The lines of named objects, written in name order, each from its bare form. *)
Lemma sorted_lines {A} (name : A -> string) (bare : A -> A) (f : A -> list string) (l k : list A) :
  (forall a, name (bare a) = name a) -> (forall a, f (bare a) = f a) ->
  NoDup (map name l) -> map bare l ≡ₚ map bare k ->
  concat (map f (sortedBy l name)) = concat (map f (sortedBy k name)).
Proof.
  intros Hname Hf Hn Hp. unfold sortedBy.
  assert (E : forall m, map f (sort_by name m) = map f (sort_by name (map bare m))).
  { intros m. rewrite (sort_by_map name name bare m Hname), map_map. apply map_ext. intros a. by rewrite Hf. }
  rewrite (E l), (E k), (sort_by_unique name (map bare l) (map bare k)); [done| |done].
  rewrite map_map, (map_ext _ name); [done|]. intros a. apply Hname.
Qed.

Lemma comments_none view lines indent : view ≠ Canonical -> comments lines indent view = [].
Proof. intros. unfold comments. by rewrite decide_False. Qed.

Lemma insertSetting_settings s s' l k :
  sl_setting s = sl_setting s' -> map sl_setting l = map sl_setting k ->
  map sl_setting (insertSetting s l) = map sl_setting (insertSetting s' k).
Proof.
  intros Hs. revert k. induction l as [|x l IH]; intros [|y k]; try done; simpl; [by rewrite Hs|].
  intros [= Hx Hl]. rewrite Hs, Hx. destruct (settingBefore _ _); simpl; [by rewrite Hs, Hx, Hl|]. rewrite Hx. f_equal. by apply IH.
Qed.

Lemma sortSettings_settings l k :
  map sl_setting l = map sl_setting k -> map sl_setting (sortSettings l) = map sl_setting (sortSettings k).
Proof.
  revert k. induction l as [|x l IH]; intros [|y k]; try done. simpl. intros [= Hx Hl]. apply insertSetting_settings; auto.
Qed.

Lemma auditExcluded_columns a t t' :
  map bareColumn (t_columns t) = map bareColumn (t_columns t') -> auditExcluded a t = auditExcluded a t'.
Proof.
  unfold auditExcluded. generalize (t_columns t) as l, (t_columns t') as k.
  induction l as [|x l IH]; intros [|y k]; try done. cbn [map]. intros [= En _ _ _ _ Hl]. rewrite !filter_cons, En.
  destruct (decide _); cbn [map]; [rewrite En; f_equal|]; by apply IH.
Qed.

Lemma settingText_columns s t t' view :
  map bareColumn (t_columns t) = map bareColumn (t_columns t') -> settingText s t view = settingText s t' view.
Proof. intros Hc. destruct s; try done. unfold settingText. by rewrite (auditExcluded_columns _ _ _ Hc). Qed.

(** The settings block of a view without comments. *)
Definition settingsBlock (view : View) (t : DbspecTable) (written : list DbspecSettingLine) : list string :=
  match written with
  | [] => []
  | _ => ["  settings {"] ++ map (fun x => str ["    "; settingText x t view]) (map sl_setting (sortSettings written)) ++ ["  }"]
  end.

Lemma settingsLines_written view t : view ≠ Canonical ->
  match t_settings t with Some s => settingsLines t view s | None => [] end =
  settingsBlock view t (filter (fun x => negb (bool_decide (view = Schema)) || includes (setting_kind (sl_setting x)) schemaSettings = true)
                         (match t_settings t with Some s => ss_settings s | None => [] end)).
Proof.
  intros Hv. destruct (t_settings t) as [s|]; [|done]. unfold settingsLines, settingsBlock. rewrite !comments_none by done.
  destruct (filter _ (ss_settings s)) as [|x l]; [done|]. simpl. do 2 f_equal. rewrite map_map.
  induction (insertSetting x (sortSettings l)) as [|y r IH]; [done|]. simpl. rewrite comments_none by done. simpl. by rewrite IH.
Qed.

Lemma filter_map_settings (P : DbspecSetting -> Prop) `{!forall s, Decision (P s)} (l : list DbspecSettingLine) :
  filter P (map sl_setting l) = map sl_setting (filter (fun x => P (sl_setting x)) l).
Proof.
  induction l as [|x l IH]; [done|]. simpl. rewrite !filter_cons.
  destruct (decide (P (sl_setting x))); simpl; [by f_equal|done].
Qed.

Lemma settingsLines_same view t t' : view ≠ Canonical -> sameTable view t t' ->
  match t_settings t with Some s => settingsLines t view s | None => [] end =
  match t_settings t' with Some s => settingsLines t' view s | None => [] end.
Proof.
  intros Hv Hs. rewrite !settingsLines_written by done. pose proof (same_settings _ _ _ Hs) as Hw.
  unfold writtenSettings, tableSettings in Hw.
  assert (E : forall a b, map sl_setting a = map sl_setting b -> settingsBlock view t a = settingsBlock view t' b).
  { intros [|a la] [|b lb] E; try done. unfold settingsBlock. rewrite (sortSettings_settings _ _ E). do 2 f_equal. apply map_ext.
    intros x. do 3 f_equal. apply settingText_columns, Hs. }
  apply E. destruct (t_settings t), (t_settings t'); rewrite ?filter_map_settings in Hw; exact Hw.
Qed.

Lemma columnLines_same view l k : view ≠ Canonical -> map bareColumn l = map bareColumn k ->
  concat (map (columnLine view) l) = concat (map (columnLine view) k).
Proof.
  intros Hv E. f_equal. assert (H : forall m, map (columnLine view) m = map (columnLine view) (map bareColumn m)); [|by rewrite (H l), (H k), E].
  intros m. rewrite map_map. apply map_ext. intros c. unfold columnLine. by rewrite !comments_none.
Qed.

(** The lines of two tables agree part by part. *)
Lemma tableLines_parts view t t' : view ≠ Canonical -> t_name t = t_name t' ->
  map bareColumn (t_columns t) = map bareColumn (t_columns t') -> pk_columns (t_primaryKey t) = pk_columns (t_primaryKey t') ->
  map bareUnique (t_uniques t) ≡ₚ map bareUnique (t_uniques t') -> map bareIndex (t_indexes t) ≡ₚ map bareIndex (t_indexes t') ->
  map bareForeignKey (t_foreignKeys t) ≡ₚ map bareForeignKey (t_foreignKeys t') -> map bareCheck (t_checks t) ≡ₚ map bareCheck (t_checks t') ->
  match t_settings t with Some s => settingsLines t view s | None => [] end =
  match t_settings t' with Some s => settingsLines t' view s | None => [] end ->
  distinctNames t -> tableLines view t = tableLines view t'.
Proof.
  intros Hv En Hcol Hpk Hu Hi Hf Hc Es [Du Di Df Dc]. unfold tableLines. rewrite !comments_none by done.
  rewrite Es, (columnLines_same view (t_columns t) (t_columns t')), En, Hpk by done.
  rewrite (sorted_lines un_name bareUnique _ (t_uniques t) (t_uniques t')) by (done || intros; by rewrite !comments_none).
  rewrite (sorted_lines ix_name bareIndex _ (t_indexes t) (t_indexes t')) by (done || intros; by rewrite !comments_none).
  rewrite (sorted_lines fk_name bareForeignKey _ (t_foreignKeys t) (t_foreignKeys t')) by (done || intros; by rewrite !comments_none).
  by rewrite (sorted_lines ck_name bareCheck _ (t_checks t) (t_checks t')) by (done || intros; by rewrite !comments_none).
Qed.

Lemma tableLines_same view t t' : view ≠ Canonical -> sameTable view t t' -> distinctNames t -> tableLines view t = tableLines view t'.
Proof. intros Hv Hs Hd. apply tableLines_parts; try done; try apply Hs. by apply settingsLines_same. Qed.

(** The tables of the owned documents of a set. *)
Definition ownedTables (documents : list DbspecDocument) : list DbspecTable :=
  concat (map doc_tables (filter (fun d => doc_external d = false) documents)).

(** An owned document of the set names the table [t] of the document [name] in a use line. *)
Definition namesUsed (documents : list DbspecDocument) (name t : string) : Prop :=
  exists d u, d ∈ documents /\ doc_external d = false /\ u ∈ doc_uses d /\ use_document u = name /\ t ∈ use_tables u.

(** The set uses a table of its external document [name]. *)
Definition usesExternal (documents : list DbspecDocument) (name : string) : Prop :=
  exists e t, e ∈ documents /\ doc_external e = true /\ doc_name e = name /\ t ∈ doc_tables e /\ namesUsed documents name (t_name t).

(** The tables that the use lines of the schema text name. *)
Definition usedTable (documents : list DbspecDocument) (name t : string) : Prop := usesExternal documents name /\ namesUsed documents name t.

Section used.
Context (documents : list DbspecDocument).

(** The tables that are named so far. *)
Definition usedIn (used : list (string * list string)) (name : string) : list string := default [] (assoc name used).

Lemma used_uses us : forall used name,
  let used' := foldl (fun used u =>
    assoc_set (use_document u) (foldl (fun tables t => set_add t tables) (usedIn used (use_document u)) (use_tables u)) used) used us in
  (forall t, t ∈ usedIn used' name <-> t ∈ usedIn used name \/ exists u, u ∈ us /\ use_document u = name /\ t ∈ use_tables u) /\
  (NoDup (usedIn used name) -> NoDup (usedIn used' name)).
Proof.
  induction us as [|u us IH]; intros used name; cbn [foldl].
  { split; [|done]. intros t. split; [by left|]. intros [?|(u & Hu & _)]; [done|by apply elem_of_nil in Hu]. }
  destruct (IH (assoc_set (use_document u) (foldl (fun tables t => set_add t tables) (usedIn used (use_document u)) (use_tables u)) used) name) as [H1 H2].
  assert (E : usedIn (assoc_set (use_document u) (foldl (fun tables t => set_add t tables) (usedIn used (use_document u)) (use_tables u)) used) name =
    if decide (name = use_document u) then foldl (fun tables t => set_add t tables) (usedIn used name) (use_tables u) else usedIn used name).
  { unfold usedIn at 1. rewrite assoc_set_get. destruct (decide _) as [->|]; done. }
  cbv zeta in H1, H2 |- *. rewrite E in H1, H2. split.
  - intros t. rewrite H1. setoid_rewrite elem_of_cons. destruct (decide (name = use_document u)) as [->|Hne].
    + rewrite foldl_set_add. split; [intros [[?|?]|(u' & ? & ? & ?)]|intros [?|(u' & [->|?] & ? & ?)]]; eauto 8.
    + split; [intros [?|(u' & ? & ? & ?)]|intros [?|(u' & [->|?] & ? & ?)]]; eauto 8. congruence.
  - intros Hn. apply H2. destruct (decide _); [|done]. by apply foldl_set_add_NoDup.
Qed.

Lemma used_documents l : forall used name,
  let used' := foldl (fun used d => if doc_external d then used else foldl (fun used u =>
    assoc_set (use_document u) (foldl (fun tables t => set_add t tables) (usedIn used (use_document u)) (use_tables u)) used) used (doc_uses d)) used l in
  (forall t, t ∈ usedIn used' name <-> t ∈ usedIn used name \/ namesUsed l name t) /\ (NoDup (usedIn used name) -> NoDup (usedIn used' name)).
Proof.
  induction l as [|d l IH]; intros used name; cbn [foldl].
  { split; [|done]. intros t. split; [by left|]. intros [?|(d & u & Hd & _)]; [done|by apply elem_of_nil in Hd]. }
  assert (Hcons : forall t, namesUsed (d :: l) name t <-> (doc_external d = false /\ exists u, u ∈ doc_uses d /\ use_document u = name /\ t ∈ use_tables u) \/ namesUsed l name t).
  { intros t. unfold namesUsed. setoid_rewrite elem_of_cons. split.
    - intros (d' & u & [->|Hd] & He & Hu); [left; split; [done|by exists u]|right; by exists d', u].
    - intros [[He (u & Hu)]|(d' & u & Hd & Hu)]; [exists d, u; auto|exists d', u; auto]. }
  destruct (doc_external d) eqn:He.
  - destruct (IH used name) as [H1 H2]. split; [|exact H2]. intros t. rewrite H1, Hcons. split; [tauto|]. intros [?|[[? _]|?]]; [by left|done|by right].
  - destruct (used_uses (doc_uses d) used name) as [U1 U2]. cbv zeta in U1, U2. match type of U1 with forall t, t ∈ usedIn ?u _ <-> _ => destruct (IH u name) as [H1 H2] end.
    split; [|tauto]. intros t. rewrite H1, U1, Hcons. tauto.
Qed.

Lemma usedOnce_spec name : NoDup (usedIn (usedOnce documents) name) /\ forall t, t ∈ usedIn (usedOnce documents) name <-> namesUsed documents name t.
Proof.
  destruct (used_documents documents [] name) as [H1 H2]. cbv zeta in H1, H2. split; [apply H2; constructor|].
  intros t. etrans; [apply H1|]. split; [intros [Ht|?]; [by apply elem_of_nil in Ht|done]|by right].
Qed.

(** The use line that an external document leaves in the schema text. *)
Definition ownUseLine (used : list (string * list string)) (d : DbspecDocument) : option DbspecUse :=
  if doc_external d then
    match externalDocument d (usedIn used (doc_name d)) with Some _ => Some (mkUse [] (doc_name d) (sort_by id (usedIn used (doc_name d)))) | None => None end
  else None.

Lemma gather_lines used l : forall g,
  ga_uses (foldl (gather used) g l) = ga_uses g ++ omap (ownUseLine used) l /\ ga_owned (foldl (gather used) g l) = ga_owned g ++ ownedTables l.
Proof.
  induction l as [|d l IH]; intros g; cbn [foldl]; [by rewrite !app_nil_r|].
  destruct (IH (gather used g d)) as [-> ->]. unfold ownedTables, ownUseLine, gather, usedIn. rewrite filter_cons. cbn [omap list_omap].
  destruct (doc_external d) eqn:He.
  - rewrite decide_False by done. destruct (externalDocument d _); cbn [ga_uses ga_owned]; by rewrite <- ?app_assoc.
  - rewrite decide_True by done. cbn [ga_uses ga_owned map concat]. by rewrite <- app_assoc.
Qed.

Lemma externalDocument_some e tables : is_Some (externalDocument e tables) <-> exists t, t ∈ doc_tables e /\ t_name t ∈ tables.
Proof.
  unfold externalDocument. split.
  - destruct (filter _ (doc_tables e)) as [|t l] eqn:E; [by intros [? ?]|intros _]. exists t.
    assert (Ht : t ∈ filter (fun t => includes (t_name t) tables = true) (doc_tables e)) by (rewrite E; by left).
    apply list_elem_of_filter in Ht as [Ht%includes_elem ?]. done.
  - intros (t & Ht & Hin). destruct (filter _ (doc_tables e)) as [|t' l] eqn:E; [|by eexists].
    assert (Ht' : t ∈ filter (fun t => includes (t_name t) tables = true) (doc_tables e)) by (by apply list_elem_of_filter; rewrite includes_elem).
    rewrite E in Ht'. by apply elem_of_nil in Ht'.
Qed.

Lemma useLines_elem u : u ∈ omap (ownUseLine (usedOnce documents)) documents <->
  exists name, usesExternal documents name /\ u = mkUse [] name (sort_by id (usedIn (usedOnce documents) name)).
Proof.
  rewrite list_elem_of_omap. unfold ownUseLine, usesExternal. split.
  - intros (e & He & Hu). destruct (doc_external e) eqn:Ee; [|done]. destruct (externalDocument e _) as [x|] eqn:Ex; [|done]. injection Hu as <-.
    exists (doc_name e). split; [|done]. destruct (proj1 (externalDocument_some e _) (ex_intro _ x Ex)) as (t & Ht & Hn).
    exists e, t. split_and!; try done. by apply usedOnce_spec.
  - intros (name & (e & t & He & Ee & <- & Ht & Hn) & ->). exists e. split; [done|]. rewrite Ee.
    destruct (proj2 (externalDocument_some e (usedIn (usedOnce documents) (doc_name e)))) as [x ->]; [|done]. exists t. split; [done|]. by apply usedOnce_spec.
Qed.

Lemma useLines_names used l : map use_document (omap (ownUseLine used) l) `sublist_of` map doc_name l.
Proof.
  induction l as [|d l IH]; [done|]. cbn [omap list_omap map]. destruct (ownUseLine used d) as [u|] eqn:E; [|by apply sublist_cons].
  cbn [map]. assert (use_document u = doc_name d) as ->; [|by apply sublist_skip].
  unfold ownUseLine in E. destruct (doc_external d); [|done]. destruct (externalDocument d _); [|done]. by injection E as <-.
Qed.
End used.

Lemma namesUsed_perm l k name t : l ≡ₚ k -> namesUsed l name t <-> namesUsed k name t.
Proof. intros Hp. unfold namesUsed. by setoid_rewrite Hp. Qed.
Lemma usedTable_perm l k name t : l ≡ₚ k -> usedTable l name t <-> usedTable k name t.
Proof. intros Hp. unfold usedTable, usesExternal, namesUsed. by setoid_rewrite Hp. Qed.

Lemma sublist_sorted (l k : list string) : l `sublist_of` k -> StronglySorted String.le k -> StronglySorted String.le l.
Proof.
  induction 1 as [|x l k Hs IH|x l k Hs IH]; intros Hk; [constructor|..]; apply StronglySorted_inv in Hk as [Hk Hx]; [|auto].
  constructor; [auto|]. rewrite Forall_forall in Hx |- *. intros y Hy. by apply Hx, (sublist_subseteq _ _ Hs).
Qed.

(** The use lines of the schema texts of two sets that use the same tables. *)
Lemma useLines_same l k : Sorted String.le (map doc_name l) -> Sorted String.le (map doc_name k) -> NoDup (map doc_name l) -> NoDup (map doc_name k) ->
  (forall name t, usedTable l name t <-> usedTable k name t) ->
  omap (ownUseLine (usedOnce l)) l = omap (ownUseLine (usedOnce k)) k.
Proof.
  intros Sl%(Sorted_StronglySorted _) Sk%(Sorted_StronglySorted _) Nl Nk Hu.
  pose proof (useLines_names (usedOnce l) l) as Ll. pose proof (useLines_names (usedOnce k) k) as Lk.
  apply (sorted_unique use_document); [by apply StronglySorted_Sorted, (sublist_sorted _ _ Ll)|by apply StronglySorted_Sorted, (sublist_sorted _ _ Lk)|exact (sublist_NoDup _ _ Nl Ll)|].
  assert (Hsub : forall l k, (forall name t, usedTable l name t <-> usedTable k name t) ->
    forall u, u ∈ omap (ownUseLine (usedOnce l)) l -> u ∈ omap (ownUseLine (usedOnce k)) k).
  { clear. intros l k Hu u. rewrite !useLines_elem. intros (name & Hx & ->). exists name.
    assert (Hk : usesExternal k name) by (destruct Hx as (e & t & He & Ee & En & Ht & Hn); apply (Hu name (t_name t)); split; [by exists e, t|done]).
    split; [done|]. f_equal. destruct (usedOnce_spec l name) as [D1 E1], (usedOnce_spec k name) as [D2 E2].
    apply sort_by_unique; [by rewrite map_id|]. apply NoDup_Permutation; [done|done|]. intros t. rewrite E1, E2. specialize (Hu name t). unfold usedTable in Hu. tauto. }
  apply NoDup_Permutation.
  - apply (NoDup_fmap_1 use_document). exact (sublist_NoDup _ _ Nl Ll).
  - apply (NoDup_fmap_1 use_document). exact (sublist_NoDup _ _ Nk Lk).
  - intros u. split; apply Hsub; [done|]. intros name t. by rewrite Hu.
Qed.

Lemma manifest_schema sha256 documents m : dbspecManifest sha256 documents = inl m ->
  let ordered := sort_by doc_name documents in
  NoDup (map doc_name ordered) /\
  mf_schemaText m = emitDocument (schemaDocument (omap (ownUseLine (usedOnce ordered)) ordered) (ownedTables ordered)) Schema /\
  mf_schemaHash m = textHash sha256 (mf_schemaText m).
Proof.
  unfold dbspecManifest, checkSet. cbv zeta. set (ordered := sort_by doc_name documents). intros H.
  destruct (checkDocuments ordered None ordered ++ _) as [|x l] eqn:E in H; [|done]. injection H as <-. cbn [mf_schemaText mf_schemaHash].
  destruct (gather_lines (usedOnce ordered) ordered (mkGathered "" "" [] [])) as [-> ->]. split; [|done].
  apply app_nil in E as [E _]. apply checkDocuments_nil in E as [E _]. by apply apart_NoDup; [apply sort_by_sorted|].
Qed.

Lemma ownedTables_perm l k : l ≡ₚ k -> ownedTables l ≡ₚ ownedTables k.
Proof. intros Hp. unfold ownedTables. by rewrite Hp. Qed.

Lemma documentLines_tables name uses owned owned' view : view ≠ Canonical ->
  Forall2 (sameTable view) owned owned' -> (forall t, t ∈ owned -> distinctNames t) ->
  documentLines (mkDocument name false uses owned [] []) view = documentLines (mkDocument name false uses owned' [] []) view.
Proof.
  intros Hv Hs Hd. unfold documentLines. cbn [doc_name doc_uses doc_tables]. rewrite !decide_False by done. do 3 f_equal.
  induction Hs as [|t t' l l' H _ IH]; [done|]. simpl. rewrite (tableLines_same view t t'); [|done|done|apply Hd; by left].
  do 2 f_equal. apply IH. intros; apply Hd; by right.
Qed.

Lemma sorted_same view l k : Forall2 (sameTable view) l k -> Forall2 (sameTable view) (sort_by t_name l) (sort_by t_name k).
Proof.
  assert (Hi : forall t t' l k, sameTable view t t' -> Forall2 (sameTable view) l k ->
    Forall2 (sameTable view) (insert_by t_name t l) (insert_by t_name t' k)).
  { intros t t' l' k' Ht. induction 1 as [|x y l' k' Hx Hl IH]; simpl; [by apply Forall2_cons; split; [exact Ht|constructor]|].
    rewrite (same_name _ _ _ Ht), (same_name _ _ _ Hx). destruct (String.leb _ _); apply Forall2_cons; split; try assumption.
    by apply Forall2_cons. }
  induction 1; simpl; [constructor|]. by apply Hi.
Qed.

(** C27: the schema text and the schema hash that engines compare are those of
    the owned tables and of the external tables in use alone: two accepted sets
    whose owned documents name the same tables of their external documents, and
    whose owned tables agree up to their distribution over documents, their order,
    comments, diagrams, the order of keys, indexes, foreign keys and checks, and
    settings other than immutable and audit, have one schema hash. *)
Theorem schema_of_tables sha256 l k m m' tables :
  dbspecManifest sha256 l = inl m -> dbspecManifest sha256 k = inl m' ->
  (forall name t, usedTable l name t <-> usedTable k name t) ->
  NoDup (map t_name (ownedTables l)) -> (forall t, t ∈ ownedTables l -> distinctNames t) ->
  Forall2 (sameTable Schema) (ownedTables l) tables -> tables ≡ₚ ownedTables k ->
  mf_schemaText m = mf_schemaText m' /\ mf_schemaHash m = mf_schemaHash m'.
Proof.
  intros (Nl & Et & Eh)%manifest_schema (Nk & Et' & Eh')%manifest_schema Hu Hn Hd Hs Hp.
  set (ol := sort_by doc_name l) in *. set (ok := sort_by doc_name k) in *.
  assert (Pl : ol ≡ₚ l) by apply sort_by_perm. assert (Pk : ok ≡ₚ k) by apply sort_by_perm.
  assert (E : mf_schemaText m = mf_schemaText m'); [|split; [done|congruence]].
  rewrite Et, Et'. unfold emitDocument. f_equal. unfold schemaDocument.
  rewrite (useLines_same ol ok); [|by apply sort_by_sorted|by apply sort_by_sorted|done|done|].
  2:{ intros name t. by rewrite (usedTable_perm ol l), (usedTable_perm ok k). }
  assert (Hnames : map t_name (ownedTables l) = map t_name tables).
  { clear -Hs. induction Hs as [|x y ? ? H]; simpl; [done|]. f_equal; [apply H|done]. }
  apply ownedTables_perm in Pl, Pk.
  rewrite (sort_by_unique t_name (ownedTables ol) (ownedTables l)); [|by rewrite Pl|done].
  rewrite (sort_by_unique t_name (ownedTables ok) tables); [|by rewrite Pk, <- Hp, <- Hnames|by rewrite Hp].
  apply documentLines_tables; [done|by apply sorted_same|]. intros t Ht. apply Hd. by rewrite <- (sort_by_perm t_name).
Qed.

(** ** External tables in a database *)

Lemma all_digits_no_char c s : is_digit c = false -> all_digits s = true -> has_char c s = false.
Proof.
  intros Hc. induction s as [|a s IH]; [done|]. rewrite all_digits_cons. intros [Ha Hs]%andb_true_iff. simpl. rewrite IH by done.
  rewrite bool_decide_eq_false_2; [done|]. intros ->. congruence.
Qed.

Lemma pretty_no_char c (z : Z) : is_digit c = false -> c <> "-"%char -> has_char c (pretty z) = false.
Proof.
  intros Hc Hm. destruct z as [|p|p].
  - by apply all_digits_no_char, digits_pretty.
  - by apply all_digits_no_char, digits_pretty.
  - change (pretty (Z.neg p)) with (String "-" (pretty (Z.pos p))). simpl. rewrite bool_decide_eq_false_2 by congruence.
    by apply all_digits_no_char, digits_pretty.
Qed.

(** The texts before and after the first occurrence of a character. *)
Lemma app_char_inj c a b x y :
  has_char c a = false -> has_char c b = false -> a +:+ String c x = b +:+ String c y -> a = b /\ x = y.
Proof.
  revert b. induction a as [|d a IH]; intros [|e b] Ha Hb E; simpl in Ha, Hb; rewrite ?string_app_cons in E.
  - by injection E as ->.
  - injection E as -> _. by rewrite bool_decide_eq_true_2 in Hb.
  - injection E as -> _. by rewrite bool_decide_eq_true_2 in Ha.
  - injection E as -> E. apply orb_false_iff in Ha as [_ Ha], Hb as [_ Hb]. by destruct (IH b Ha Hb E) as [-> ->].
Qed.

(** A type is read back from its text. *)
Lemma typeText_inj t t' : typeText t = typeText t' -> t = t'.
Proof.
  assert (Hd : forall p s p' s' : Z, str ["decimal("; pretty p; ","; pretty s; ")"] = str ["decimal("; pretty p'; ","; pretty s'; ")"] -> p = p' /\ s = s').
  { intros p s p' s' E. unfold str in E. simpl in E. injection E as E. apply app_char_inj in E as [Ep E]; try by apply pretty_no_char.
    apply (app_char_inj ")") in E as [Es _]; try by apply pretty_no_char. by apply pretty_Z_inj in Ep, Es. }
  assert (H1 : forall n n' : Z, pretty n +:+ ")" = pretty n' +:+ ")" -> n = n').
  { intros n n' E. apply (app_char_inj ")") in E as [E _]; try by apply pretty_no_char. by apply pretty_Z_inj in E. }
  destruct t, t'; try done; unfold typeText; intros E; try (by unfold str in E; simpl in E; discriminate).
  - by apply Hd in E as [-> ->].
  - unfold str in E. simpl in E. injection E as E. f_equal. by apply H1.
  - unfold str in E. simpl in E. injection E as E. f_equal. by apply H1.
  - unfold str in E. simpl in E. injection E as E. f_equal. by apply H1.
Qed.

(** A live table has what an external document says of one of its tables. *)
Record serves (got want : DbspecTable) : Prop := {
  sv_columns : forall c, c ∈ t_columns want ->
    exists g, columnOf got (col_name c) = Some g /\ col_type g = col_type c /\ col_nullable g = col_nullable c;
  sv_primaryKey : pk_columns (t_primaryKey got) = pk_columns (t_primaryKey want);
  sv_uniques : forall u, u ∈ t_uniques want -> exists g, g ∈ t_uniques got /\ un_columns g = un_columns u
}.

Lemma columnDifference_none table got c :
  columnDifference table got c = [] <->
  exists g, columnOf got (col_name c) = Some g /\ col_type g = col_type c /\ col_nullable g = col_nullable c.
Proof.
  unfold columnDifference. destruct (columnOf got (col_name c)) as [g|]; [|split; [done|by intros (? & ? & _)]].
  rewrite bool_decide_decide. destruct (decide (typeText (col_type g) = typeText (col_type c))) as [E|E]; simpl.
  - apply typeText_inj in E. destruct (Bool.eqb (col_nullable g) (col_nullable c)) eqn:En; simpl.
    + apply eqb_prop in En. split; [by exists g|done].
    + apply eqb_false_iff in En. split; [done|]. by intros (? & [= <-] & _ & ?).
  - split; [done|]. intros (? & [= <-] & Et & _). destruct E. by rewrite Et.
Qed.

Lemma tableDifference_none live want :
  tableDifference live want = [] <-> exists got, tableOf (rev (doc_tables live)) (t_name want) = Some got /\ serves got want.
Proof.
  unfold tableDifference. destruct (tableOf _ _) as [got|]; [|split; [done|by intros (? & ? & _)]].
  rewrite !app_nil, !concat_nil_iff. split.
  - intros (Hc & Hp & Hu). exists got. split; [done|]. split.
    + intros c Hin. by eapply columnDifference_none, Hc.
    + by destruct (decide _).
    + intros u Hin. specialize (Hu u Hin). simpl in Hu. destruct (existsb _ _) eqn:E; [|done].
      apply existsb_exists in E as (g & Hg & E). exists g. split; [by apply list_elem_of_In|]. by apply bool_decide_eq_true in E.
  - intros (? & [= <-] & [Hc Hp Hu]). split_and!.
    + intros c Hin. by apply columnDifference_none, Hc.
    + by rewrite decide_True.
    + intros u Hin. destruct (Hu u Hin) as (g & Hg & E). replace (existsb _ _) with true; [done|]. symmetry.
      apply existsb_exists. exists g. split; [by apply list_elem_of_In|]. by apply bool_decide_eq_true.
Qed.

(** C28: the comparison of a database with the external documents of a set finds
    no difference exactly when the database has every used external table, with
    each of its columns of the same type and nullability, the same primary key
    and, for each of its unique keys, one over the same columns. *)
Theorem externalDifferences_none live documents :
  externalDifferences live documents = [] <->
  forall want, want ∈ externalTables documents ->
    exists got, tableOf (rev (doc_tables live)) (t_name want) = Some got /\ serves got want.
Proof.
  unfold externalDifferences. rewrite concat_nil_iff.
  split; intros H want Hw; apply tableDifference_none, H, Hw.
Qed.

(** ** Instances *)

Section instances.

Definition sampleColumn (comment name : string) : DbspecColumn := mkColumn [comment] name TI32 false false None.
Definition sampleTable (comment name : string) (uniques : list DbspecUnique) (settings : option DbspecSettings) : DbspecTable :=
  mkTable [comment] name [sampleColumn comment "id"; sampleColumn comment "code"] (mkPrimaryKey [comment] ["id"]) uniques [] [] [] settings [].
Definition sampleUniques : list DbspecUnique := [mkUnique [] "u_code" ["code"]; mkUnique ["# both"] "u_both" ["id"; "code"]].

(** A document of another team. *)
Definition bankDocument : DbspecDocument := mkDocument "bank" true [] [sampleTable "# c" "banks" [] None; sampleTable "# c" "rates" [] None] [] [].
Definition bankUse : DbspecUse := mkUse [] "bank" ["banks"].

(** Two tables in one document, and each in its own with other comments,
    settings and order; both sets use a table of the external document. *)
Definition together : list DbspecDocument :=
  [mkDocument "shop" false [bankUse] [sampleTable "# a" "orders" sampleUniques None; sampleTable "# a" "items" [] None] [mkDiagram [] "all" [] []] [];
   bankDocument].
Definition apartDocuments : list DbspecDocument :=
  [mkDocument "two" false [] [sampleTable "# b" "orders" (rev sampleUniques) (Some (mkSettingsBlock [] [mkSettingLine [] (SEntity "Order")] []))] [] [];
   bankDocument; mkDocument "one" false [bankUse] [sampleTable "# b" "items" [] None] [] ["# end"]].

Lemma manifest_order_witness : dbspecManifest id apartDocuments = dbspecManifest id (rev apartDocuments).
Proof.
  apply (manifest_order id apartDocuments (rev apartDocuments)).
  - by apply (bool_decide_unpack _).
  - exact (Permutation_rev apartDocuments).
Defined.

Lemma bank_used documents name t : documents = together \/ documents = apartDocuments -> usedTable documents name t <-> name = "bank" /\ t = "banks".
Proof.
  intros Hd. assert (Hn : namesUsed documents name t <-> name = "bank" /\ t = "banks").
  { split.
    - intros (d & u & Hin & He & Hu & <- & Ht). assert (u = bankUse) as -> by (destruct Hd as [-> | ->];
        repeat (apply elem_of_cons in Hin as [->|Hin]; [first [discriminate He|by apply list_elem_of_singleton in Hu|by apply elem_of_nil in Hu]|]); by apply elem_of_nil in Hin).
      by apply list_elem_of_singleton in Ht.
    - intros [-> ->]. destruct Hd as [-> | ->]; [eexists (mkDocument "shop" _ _ _ _ _), bankUse|eexists (mkDocument "one" _ _ _ _ _), bankUse];
        (split; [repeat first [apply list_elem_of_here|apply list_elem_of_further]|split; [done|split; [by left|split; [done|by left]]]]). }
  unfold usedTable. rewrite Hn. split; [by intros [_ ?]|]. intros [-> ->]. split; [|done].
  exists bankDocument, (sampleTable "# c" "banks" [] None). split; [destruct Hd as [-> | ->]; repeat first [apply list_elem_of_here|apply list_elem_of_further]|].
  split; [done|]. split; [done|]. split; [by left|]. change (t_name (sampleTable "# c" "banks" [] None)) with "banks". tauto.
Qed.

Lemma schema_of_tables_witness : exists m m',
  dbspecManifest id together = inl m /\ dbspecManifest id apartDocuments = inl m' /\
  mf_manifestText m <> mf_manifestText m' /\ mf_schemaText m = mf_schemaText m' /\ mf_schemaHash m = mf_schemaHash m'.
Proof.
  eexists _, _. split; [vm_compute; reflexivity|]. split; [vm_compute; reflexivity|]. split; [discriminate|].
  eapply (schema_of_tables id together apartDocuments _ _
           [sampleTable "# b" "orders" (rev sampleUniques) (Some (mkSettingsBlock [] [mkSettingLine [] (SEntity "Order")] []));
            sampleTable "# b" "items" [] None]).
  - vm_compute. reflexivity.
  - vm_compute. reflexivity.
  - intros name t. by rewrite !bank_used by auto.
  - by apply (bool_decide_unpack _).
  - simpl. intros t Ht. repeat (apply elem_of_cons in Ht as [->|Ht]; [split; by apply (bool_decide_unpack _)|]). by apply elem_of_nil in Ht.
  - repeat (apply Forall2_cons; split); [| |constructor]; constructor; try reflexivity. exact (perm_swap _ _ _).
  - exact (reflexivity _).
Defined.

End instances.
