(* ===== verification/Check.v ===== *)
(** * Check expressions ([dbspec/check.ts] and the texts of [dbspec/plan_objects.ts])

    A verified check keeps only its canonical text; [readCheck] reads the text
    back into a tree, and [exprText] writes a tree with its columns renamed.
    An offset counts the bytes before it; only messages hold it. *)

From S2P Require Import Prelude Documents Keys.
From Stdlib Require Import Lia.

(** ** Data *)

Inductive CheckOperand := OpColumn (name : string) | OpLiteral (text : string).

Inductive LogicalOp := OpAnd | OpOr.

#[global] Instance LogicalOp_eq_dec : EqDecision LogicalOp.
Proof. solve_decision. Defined.

Inductive CheckExpr :=
  | ELogical (op : LogicalOp) (left_ right_ : CheckExpr)
  | ECompare (op : string) (left_ right_ : CheckOperand)
  | EIn (operand : CheckOperand) (negated : bool) (list_ : list string)
  | EIsNull (operand : CheckOperand) (negated : bool).

Inductive TokenKind := KString | KPunct | KOp | KWord.

#[global] Instance TokenKind_eq_dec : EqDecision TokenKind.
Proof. solve_decision. Defined.

Record Token := mkToken { tk_kind : TokenKind; tk_text : string; tk_at : nat }.

Definition comparisons : list string := ["="; "<>"; "<"; "<="; ">"; ">="].
Definition keywords : list string := ["and"; "or"; "not"; "in"; "between"; "is"; "null"].

(** [/^[a-z][a-z0-9_]*$/] *)
Definition nameChar (a : ascii) : bool := is_lower a || is_digit a || bool_decide (a = "_"%char).
Fixpoint all_chars (p : ascii -> bool) (s : string) : bool :=
  match s with EmptyString => true | String a s => p a && all_chars p s end.
Definition isColumn (s : string) : bool :=
  match s with EmptyString => false | String a s => is_lower a && all_chars nameChar s end.

(** Digits, and at least one. *)
Definition digits1 (s : string) : bool := negb (bool_decide (s = "")) && all_chars is_digit s.

(** [/^-?[0-9]+(\.[0-9]+)?$/] *)
Definition isNumber (s : string) : bool :=
  let s := match s with String a s' => if decide (a = "-"%char) then s' else s | EmptyString => s end in
  match split_on "." s with
  | [w] => digits1 w
  | [w; f] => digits1 w && digits1 f
  | _ => false
  end.

(** ** Tokens *)

(** The rest of a string literal after its opening quote, up to its closing
    quote, and the text behind it. *)
Fixpoint stringTail (s : string) : option (string * string) :=
  match s with
  | EmptyString => None
  | String a s' =>
      if decide (a = "'"%char) then
        match s' with
        | String b s'' => if decide (b = "'"%char) then (fun p => ("''" +:+ fst p, snd p)) <$> stringTail s'' else Some ("'", s')
        | EmptyString => Some ("'", s')
        end
      else (fun p => (String a (fst p), snd p)) <$> stringTail s'
  end.

(** A character that ends a word. *)
Definition delimiter (a : ascii) : bool := has_char a " '(),<>=".

Fixpoint wordTail (s : string) : string * string :=
  match s with
  | EmptyString => ("", "")
  | String a s' => if delimiter a then ("", s) else let '(w, r) := wordTail s' in (String a w, r)
  end.

(** [tokens]: each turn of the loop takes at least one character, so a fuel
    above the length of the text is not used up. *)
Fixpoint tokensFrom (fuel : nat) (name : string) (i : nat) (s : string) : res (list Token) :=
  match fuel with
  | O => Err OutOfFuel
  | S fuel =>
      match s with
      | EmptyString => Ok []
      | String c s' =>
          let emit kind text rest := ts ← tokensFrom fuel name (i + String.length text) rest; Ok (mkToken kind text i :: ts) in
          if decide (c = " "%char) then tokensFrom fuel name (S i) s'
          else if decide (c = "'"%char) then
            match stringTail s' with
            | Some (t, rest) => emit KString (String c t) rest
            | None => Err (JsError (str ["check "; name; ": unterminated string at offset "; pretty (Z.of_nat i)]))
            end
          else if has_char c "()," then emit KPunct (String c "") s'
          else if has_char c "<>=" then
            match s' with
            | String d s'' => if includes (String c (String d "")) comparisons then emit KOp (String c (String d "")) s'' else emit KOp (String c "") s'
            | EmptyString => emit KOp (String c "") s'
            end
          else let '(w, rest) := wordTail s in emit KWord w rest
      end
  end.

Definition tokens (text name : string) : res (list Token) := tokensFrom (S (String.length text)) name 0 text.

(** ** Reading *)

Section read.
Variable name : string.

Definition unexpected {A} : M (list Token) A := fun toks =>
  Err (JsError (str ["check "; name; ": unexpected ";
    match toks with [] => "end of expression" | t :: _ => str [tk_text t; " at offset "; pretty (Z.of_nat (tk_at t))] end])).

Definition isToken (kind : TokenKind) (text : string) (t : option Token) : bool :=
  match t with Some t => bool_decide (tk_kind t = kind) && bool_decide (tk_text t = text) | None => false end.

Definition peekWord (word : string) (ahead : nat) (toks : list Token) : bool := isToken KWord word (toks !! ahead).

(** [i++] *)
Definition advance : M (list Token) unit := modify tail.

Definition expect (kind : TokenKind) (text : string) : M (list Token) unit := fun toks =>
  if isToken kind text (head toks) then advance toks else unexpected toks.

Definition isLiteral (t : Token) : bool :=
  match tk_kind t with
  | KString => true
  | KWord => isNumber (tk_text t) || includes (tk_text t) ["true"; "false"]
  | _ => false
  end.

Definition literalText : M (list Token) string := fun toks =>
  match toks with
  | t :: toks' => if isLiteral t then Ok (tk_text t, toks') else unexpected toks
  | [] => unexpected toks
  end.

Definition isColumnWord (t : Token) : bool :=
  bool_decide (tk_kind t = KWord) && negb (includes (tk_text t) keywords) && isColumn (tk_text t) && negb (includes (tk_text t) ["true"; "false"]).

Definition operand : M (list Token) CheckOperand := fun toks =>
  match toks with
  | t :: toks' => if isColumnWord t then Ok (OpColumn (tk_text t), toks') else (l ← literalText; mret (OpLiteral l)) toks
  | [] => (l ← literalText; mret (OpLiteral l)) toks
  end.

(** The loop over the members of an IN list. *)
Fixpoint inItems (fuel : nat) (acc : list string) : M (list Token) (list string) := fun toks =>
  match fuel with
  | O => Err OutOfFuel
  | S fuel => (l ← literalText; toks ← get; if isToken KPunct "," (head toks) then advance;; inItems fuel (acc ++ [l]) else mret (acc ++ [l])) toks
  end.

(** The rest of a predicate after its first operand. *)
Definition predicateTail (fuel : nat) (left_ : CheckOperand) : M (list Token) CheckExpr :=
  next ← get;
  match next with
  | mkToken KOp op _ :: _ => advance;; r ← operand; mret (ECompare op left_ r)
  | _ =>
      let negated := peekWord "not" 0 next && peekWord "in" 1 next in
      (if negated then advance else mret tt);;
      toks ← get;
      if peekWord "in" 0 toks then
        advance;; expect KPunct "(";; l ← inItems fuel []; expect KPunct ")";; mret (EIn left_ negated l)
      else if peekWord "is" 0 toks then
        advance;;
        toks ← get;
        let isNot := peekWord "not" 0 toks in
        (if isNot then advance else mret tt);;
        expect KWord "null";;
        mret (EIsNull left_ isNot)
      else unexpected
  end.

Section level.
Variable inner_ : M (list Token) CheckExpr.

Definition predicate (fuel : nat) : M (list Token) CheckExpr :=
  toks ← get;
  if isToken KPunct "(" (head toks) then advance;; inner ← inner_; expect KPunct ")";; mret inner
  else l ← operand; predicateTail fuel l.

(** [while (peekWord(word))] of [and] and [or]: [item] reads a right side. *)
Fixpoint logicalLoop (word : string) (op : LogicalOp) (item : M (list Token) CheckExpr) (fuel : nat) (left_ : CheckExpr) : M (list Token) CheckExpr :=
  match fuel with
  | O => throw OutOfFuel
  | S fuel =>
      toks ← get;
      if peekWord word 0 toks then advance;; r ← item; logicalLoop word op item fuel (ELogical op left_ r) else mret left_
  end.

Definition and_ (fuel : nat) : M (list Token) CheckExpr :=
  l ← predicate fuel; logicalLoop "and" OpAnd (predicate fuel) fuel l.

Definition orLevel (fuel : nat) : M (list Token) CheckExpr :=
  l ← and_ fuel; logicalLoop "or" OpOr (and_ fuel) fuel l.
End level.

(** Each level below a parenthesis has read its opening token, so the number of
    tokens bounds the depth and the turns of every loop. *)
Fixpoint or_ (fuel : nat) : M (list Token) CheckExpr :=
  match fuel with O => throw OutOfFuel | S fuel => orLevel (or_ fuel) (S fuel) end.

End read.

Definition readCheck (text name : string) : res CheckExpr :=
  toks ← tokens text name;
  r ← or_ name (S (length toks)) toks;
  let '(tree, rest) := r in
  match rest with [] => Ok tree | _ => '(tree, _) ← unexpected (A := CheckExpr) name rest; Ok tree end.

(** ** Writing *)

Definition operandColumns (e : CheckOperand) : list string := match e with OpColumn n => [n] | OpLiteral _ => [] end.

Fixpoint exprColumns (e : CheckExpr) : list string :=
  match e with
  | ELogical _ l r => exprColumns l ++ exprColumns r
  | ECompare _ l r => operandColumns l ++ operandColumns r
  | EIn o _ _ | EIsNull o _ => operandColumns o
  end.

Definition operandText (e : CheckOperand) (f : string -> string) : string :=
  match e with OpColumn n => f n | OpLiteral t => t end.

Definition opText (op : LogicalOp) : string := match op with OpAnd => "and" | OpOr => "or" end.

(** Whether a side of a logical expression takes parentheses. *)
Definition inParentheses (op : LogicalOp) (side : CheckExpr) : bool :=
  match op, side with OpAnd, ELogical OpOr _ _ => true | _, _ => false end.

Fixpoint exprText (e : CheckExpr) (f : string -> string) : string :=
  match e with
  | ELogical op l r =>
      let side q := if inParentheses op q then str ["("; exprText q f; ")"] else exprText q f in
      str [side l; " "; opText op; " "; side r]
  | ECompare op l r => str [operandText l f; " "; op; " "; operandText r f]
  | EIn o negated l => str [operandText o f; if negated then " not" else ""; " in ("; join ", " l; ")"]
  | EIsNull o negated => str [operandText o f; " is "; if negated then "not null" else "null"]
  end.

Definition checkTree (k : DbspecCheck) : res CheckExpr := readCheck (ck_expression k) (ck_name k).

(** The canonical text of a check with its columns mapped by [f]. *)
Definition renameCheck (k : DbspecCheck) (f : string -> string) : res string :=
  e ← checkTree k; Ok (exprText e f).
