(* ===== verification/CheckFacts.v ===== *)
(** * Check expressions are read back from their text

    The tokens of a canonical text, and the reading of a tree from them. *)

From S2P Require Import Prelude Documents Keys Check.
From Stdlib Require Import Lia.

(** ** Tokens of a text *)

(** A token without its place. *)
Definition bare (t : Token) : TokenKind * string := (tk_kind t, tk_text t).

(** A text that ends a word in front of it. *)
Definition delimited (s : string) : Prop := match s with EmptyString => True | String a _ => delimiter a = true end.

Section lexing.
Variable name : string.

(** A text has the given tokens, whatever is in front of it. *)
Definition lexes (s : string) (ts : list (TokenKind * string)) : Prop :=
  forall fuel i, (String.length s < fuel)%nat -> exists toks, tokensFrom fuel name i s = Ok toks /\ map bare toks = ts.

Lemma wordTail_app w s : all_chars (fun a => negb (delimiter a)) w = true -> delimited s -> wordTail (w +:+ s) = (w, s).
Proof.
  intros Hw Hs. induction w as [|a w IH].
  - destruct s as [|b s]; [done|]. simpl in Hs. change ("" +:+ String b s) with (String b s). cbn [wordTail]. by rewrite Hs.
  - cbn [all_chars] in Hw. apply andb_true_iff in Hw as [Ha Hw]. apply negb_true_iff in Ha. rewrite string_app_cons. cbn [wordTail].
    by rewrite Ha, (IH Hw).
Qed.

Lemma stringTail_app n t u s : (String.length t < n)%nat -> stringTail t = Some (u, "") -> delimited s -> starts_with "'" s = false ->
  stringTail (t +:+ s) = Some (u, s).
Proof.
  revert t u. induction n as [|n IH]; intros t u Hn Ht Hd Hs; [lia|]. destruct t as [|a t]; [done|]. simpl in Hn.
  rewrite string_app_cons. cbn [stringTail] in *. destruct (decide (a = "'"%char)) as [->|Ha].
  - destruct t as [|b t].
    + injection Ht as <-. destruct s as [|c s]; [done|]. change ("" +:+ String c s) with (String c s). cbn iota.
      rewrite decide_False; [done|]. intros ->. simpl in Hs. done.
    + rewrite string_app_cons. destruct (decide (b = "'"%char)); [|by injection Ht as <-].
      apply fmap_Some in Ht as ([v r] & Ht & E). simpl in E, Hn. injection E as -> <-. rewrite (IH t v); [done|lia|done|done|done].
  - apply fmap_Some in Ht as ([v r] & Ht & E). simpl in E. injection E as -> <-. rewrite (IH t v); [done|lia|done|done|done].
Qed.

Lemma lexes_nil : lexes "" [].
Proof. intros [|fuel] i Hf; [simpl in Hf; lia|]. by exists []. Qed.

Lemma lexes_space s ts : lexes s ts -> lexes (" " +:+ s) ts.
Proof.
  intros H [|fuel] i Hf; [lia|]. cbn [tokensFrom]. change (" " +:+ s) with (String " " s) in *. cbn iota. rewrite decide_True by done.
  apply H. simpl in Hf. lia.
Qed.

(** One turn that takes a token of the front of the text. *)
Lemma lexes_token kind text s ts : text <> "" ->
  (forall fuel i, tokensFrom (S fuel) name i (text +:+ s) = (ts ← tokensFrom fuel name (i + String.length text) s; Ok (mkToken kind text i :: ts))) ->
  lexes s ts -> lexes (text +:+ s) ((kind, text) :: ts).
Proof.
  intros Hne Hstep H [|fuel] i Hf; [lia|]. rewrite Hstep. rewrite string_length_app in Hf.
  assert (0 < String.length text)%nat by (destruct text; [done|simpl; lia]).
  destruct (H fuel (i + String.length text)%nat) as (toks & -> & <-); [lia|]. eexists. split; [reflexivity|done].
Qed.

Lemma lexes_punct c s ts : has_char c "()," = true -> lexes s ts -> lexes (String c "" +:+ s) ((KPunct, String c "") :: ts).
Proof.
  intros Hc. apply lexes_token; [done|]. intros fuel i. cbn [tokensFrom]. change (String c "" +:+ s) with (String c s). cbn iota.
  rewrite decide_False by (intros ->; done). rewrite decide_False by (intros ->; done). by rewrite Hc.
Qed.

Lemma lexes_word w s ts : w <> "" -> all_chars (fun a => negb (delimiter a)) w = true -> delimited s ->
  lexes s ts -> lexes (w +:+ s) ((KWord, w) :: ts).
Proof.
  intros Hne Hw Hs. apply lexes_token; [done|]. intros fuel i. destruct w as [|c w]; [done|]. rewrite string_app_cons.
  cbn [tokensFrom]. pose proof Hw as Hw'. cbn [all_chars] in Hw'. apply andb_true_iff in Hw' as [Hc _]. apply negb_true_iff in Hc.
  rewrite <- string_app_cons, (wordTail_app _ _ Hw Hs).
  unfold delimiter in Hc. simpl in Hc. rewrite !orb_false_iff, !bool_decide_eq_false in Hc.
  destruct Hc as (H1 & H2 & H3 & H4 & H5 & H6 & H7 & H8 & _).
  rewrite !decide_False by congruence. simpl has_char. by rewrite !bool_decide_eq_false_2.
Qed.

Lemma lexes_string t s ts : stringTail t = Some (t, "") -> delimited s -> starts_with "'" s = false ->
  lexes s ts -> lexes (String "'" t +:+ s) ((KString, String "'" t) :: ts).
Proof.
  intros Ht Hd Hs. apply lexes_token; [done|]. intros fuel i. rewrite string_app_cons. cbn [tokensFrom].
  rewrite decide_False by done. rewrite decide_True by done. by rewrite (stringTail_app (S (String.length t)) t t s) by (done || lia).
Qed.

Lemma lexes_op op s ts : op ∈ comparisons -> lexes (" " +:+ s) ts -> lexes (op +:+ " " +:+ s) ((KOp, op) :: ts).
Proof.
  intros Hop. apply lexes_token.
  - intros ->. by apply (bool_decide_eq_true_2 _) in Hop.
  - intros fuel i. unfold comparisons in Hop. rewrite !elem_of_cons in Hop.
    destruct Hop as [->|[->|[->|[->|[->|[->|[]%elem_of_nil]]]]]]; reflexivity.
Qed.

(** ** The tokens of an expression *)

Definition operandToken (o : CheckOperand) : TokenKind * string :=
  match o with OpColumn n => (KWord, n) | OpLiteral t => (if starts_with "'" t then KString else KWord, t) end.

Definition literalToken (t : string) : TokenKind * string := operandToken (OpLiteral t).

Fixpoint listTokens (l : list string) : list (TokenKind * string) :=
  match l with
  | [] => []
  | [t] => [literalToken t]
  | t :: l => literalToken t :: (KPunct, ",") :: listTokens l
  end.

Fixpoint exprTokens (e : CheckExpr) : list (TokenKind * string) :=
  match e with
  | ELogical op l r =>
      let side q := if inParentheses op q then (KPunct, "(") :: exprTokens q ++ [(KPunct, ")")] else exprTokens q in
      side l ++ (KWord, opText op) :: side r
  | ECompare op l r => [operandToken l; (KOp, op); operandToken r]
  | EIn o negated l =>
      operandToken o :: (if negated then [(KWord, "not")] else []) ++ (KWord, "in") :: (KPunct, "(") :: listTokens l ++ [(KPunct, ")")]
  | EIsNull o negated => operandToken o :: (KWord, "is") :: (if negated then [(KWord, "not")] else []) ++ [(KWord, "null")]
  end.

(** ** Expressions that a reader can give *)

Definition canonicalLiteral (t : string) : bool :=
  match t with
  | String a u => (bool_decide (a = "'"%char) && bool_decide (stringTail u = Some (u, ""))) || isNumber t || includes t ["true"; "false"]
  | EmptyString => false
  end.

Definition canonicalOperand (o : CheckOperand) : bool :=
  match o with
  | OpColumn n => isColumnWord (mkToken KWord n 0)
  | OpLiteral t => canonicalLiteral t
  end.

(** The leaves are operands, comparisons and lists of the language. *)
Fixpoint goodLeaves (e : CheckExpr) : bool :=
  match e with
  | ELogical _ l r => goodLeaves l && goodLeaves r
  | ECompare op l r => includes op comparisons && canonicalOperand l && canonicalOperand r
  | EIn o _ l => canonicalOperand o && negb (bool_decide (l = [])) && forallb canonicalLiteral l
  | EIsNull o _ => canonicalOperand o
  end.

Lemma all_chars_app p s t : all_chars p (s +:+ t) = all_chars p s && all_chars p t.
Proof. induction s as [|a s IH]; [done|]. rewrite string_app_cons. cbn [all_chars]. by rewrite IH, andb_assoc. Qed.

Lemma all_chars_mono (p q : ascii -> bool) s : (forall a, p a = true -> q a = true) -> all_chars p s = true -> all_chars q s = true.
Proof.
  intros H. induction s as [|a s IH]; [done|]. cbn [all_chars]. intros [Ha Hs]%andb_true_iff. by rewrite (H a Ha), (IH Hs).
Qed.

(** The characters of names and numbers. *)
Definition wordChar (a : ascii) : bool := nameChar a || has_char a "-.".

Lemma wordChar_word a : wordChar a = true -> negb (delimiter a) = true.
Proof. destruct a as [[] [] [] [] [] [] [] []]; done. Qed.

Lemma digit_wordChar a : is_digit a = true -> wordChar a = true.
Proof. unfold wordChar, nameChar. intros ->. by rewrite orb_true_r. Qed.

Lemma digits1_chars s : digits1 s = true -> s <> "" /\ all_chars wordChar s = true.
Proof.
  unfold digits1. intros [Hn Hs]%andb_true_iff. apply negb_true_iff, bool_decide_eq_false in Hn.
  split; [done|]. eapply all_chars_mono; [|exact Hs]. apply digit_wordChar.
Qed.

Lemma isNumber_chars t : isNumber t = true -> t <> "" /\ all_chars wordChar t = true.
Proof.
  assert (H : forall s, match split_on "." s with [w] => digits1 w | [w; f] => digits1 w && digits1 f | _ => false end = true ->
    s <> "" /\ all_chars wordChar s = true).
  { intros s. rewrite <- (join_split "." s) at 2 3. destruct (split_on "." s) as [|w [|f [|]]]; try done.
    - apply digits1_chars.
    - change (join "." [w; f]) with (w +:+ "." +:+ f). intros [[Hw Cw]%digits1_chars [_ Cf]%digits1_chars]%andb_true_iff. split; [by destruct w|].
      rewrite !all_chars_app, Cw. simpl. by rewrite Cf. }
  unfold isNumber. destruct t as [|a t]; [done|]. destruct (decide (a = "-"%char)) as [->|_]; [|apply H].
  intros [_ Ht]%H. done.
Qed.

Lemma isColumn_chars n : isColumn n = true -> n <> "" /\ all_chars wordChar n = true.
Proof.
  destruct n as [|a n]; [done|]. cbn [isColumn all_chars]. intros [Ha Hn]%andb_true_iff. split; [done|].
  apply andb_true_iff. split; [unfold wordChar, nameChar; by rewrite Ha|]. eapply all_chars_mono; [|exact Hn].
  intros b Hb. unfold wordChar. by rewrite Hb.
Qed.

Lemma wordChars_quote t : all_chars wordChar t = true -> starts_with "'" t = false.
Proof. destruct t as [|a t]; [done|]. cbn [all_chars]. intros [Ha _]%andb_true_iff. destruct a as [[] [] [] [] [] [] [] []]; done. Qed.

(** What follows a leaf in a text. *)
Definition follows (s : string) : Prop := delimited s /\ starts_with "'" s = false.

Lemma lexes_wordChars w s ts : w <> "" -> all_chars wordChar w = true -> follows s -> lexes s ts -> lexes (w +:+ s) ((KWord, w) :: ts).
Proof. intros Hne Hw [Hs _]. apply lexes_word; [done| |done]. eapply all_chars_mono; [|exact Hw]. apply wordChar_word. Qed.

Lemma lexes_literal t s ts : canonicalLiteral t = true -> follows s -> lexes s ts -> lexes (t +:+ s) (literalToken t :: ts).
Proof.
  intros Ht Hs H. destruct t as [|a u]; [done|].
  assert (Hw : (String a u) <> "" /\ all_chars wordChar (String a u) = true -> lexes (String a u +:+ s) (literalToken (String a u) :: ts)).
  { intros [Hne Hc]. unfold literalToken, operandToken. rewrite (wordChars_quote _ Hc). by apply lexes_wordChars. }
  unfold canonicalLiteral in Ht. rewrite !orb_true_iff, andb_true_iff, !bool_decide_eq_true in Ht.
  destruct Ht as [[[-> Hu]|Hn]|Hb].
  - destruct Hs. by apply lexes_string.
  - apply Hw. by apply isNumber_chars.
  - apply Hw. unfold includes in Hb. apply bool_decide_eq_true in Hb. rewrite !elem_of_cons in Hb.
    by destruct Hb as [E|[E|E%elem_of_nil]]; [injection E as -> ->..|].
Qed.

Lemma lexes_operand o s ts : canonicalOperand o = true -> follows s -> lexes s ts -> lexes (operandText o id +:+ s) (operandToken o :: ts).
Proof.
  destruct o as [n|t]; simpl; [|apply lexes_literal]. unfold isColumnWord. simpl. rewrite !andb_true_iff.
  intros [[_ Hn]_] Hs H. destruct (isColumn_chars n Hn). by apply lexes_wordChars.
Qed.

Lemma follows_char a s : has_char a " ()," = true -> follows (String a s).
Proof. destruct a as [[] [] [] [] [] [] [] []]; try done. Qed.

Lemma lexes_list l s ts : l <> [] -> forallb canonicalLiteral l = true -> follows s -> lexes s ts ->
  lexes (join ", " l +:+ s) (listTokens l ++ ts).
Proof.
  intros Hl Hc Hs H. induction l as [|t l IH]; [done|]. cbn [forallb] in Hc. apply andb_true_iff in Hc as [Ht Hc].
  destruct l as [|u l]; [by apply lexes_literal|].
  change (join ", " (t :: u :: l)) with (t +:+ "," +:+ " " +:+ join ", " (u :: l)). rewrite !string_app_assoc.
  apply lexes_literal; [done|by apply follows_char|]. apply lexes_punct; [done|]. apply lexes_space. by apply IH.
Qed.

(** The text of an expression has its tokens. *)
Lemma lexes_expr e s ts : goodLeaves e = true -> follows s -> lexes s ts -> lexes (exprText e id +:+ s) (exprTokens e ++ ts).
Proof.
  revert s ts. induction e as [op l IHl r IHr|op l r|o negated l|o negated]; intros s ts Hg Hs H; cbn [exprText exprTokens goodLeaves] in *;
    unfold str; rewrite ?string_app_nil_r, ?string_app_assoc.
  - apply andb_true_iff in Hg as [Hl Hr].
    assert (Hside : forall q s ts, (forall s ts, goodLeaves q = true -> follows s -> lexes s ts -> lexes (exprText q id +:+ s) (exprTokens q ++ ts)) ->
      goodLeaves q = true -> follows s -> lexes s ts ->
      lexes ((if inParentheses op q then "(" +:+ exprText q id +:+ ")" +:+ "" else exprText q id) +:+ s)
        ((if inParentheses op q then (KPunct, "(") :: exprTokens q ++ [(KPunct, ")")] else exprTokens q) ++ ts)).
    { intros q s' ts' IH Hq Hs' H'. destruct (inParentheses op q); [|by apply IH].
      rewrite !string_app_assoc. simpl app. rewrite <- app_assoc. apply lexes_punct; [done|]. apply IH; [done|by apply follows_char|].
      change ("" +:+ s') with s'. by apply lexes_punct. }
    rewrite <- app_assoc. apply Hside; [done|done|by apply follows_char|]. apply lexes_space. simpl app.
    destruct op; (apply lexes_wordChars; [done|done|by apply follows_char|]); apply lexes_space; by apply Hside.
  - rewrite !andb_true_iff in Hg. destruct Hg as [[Hop Hl] Hr]. apply bool_decide_eq_true in Hop.
    apply lexes_operand; [done|by apply follows_char|]. apply lexes_space. apply lexes_op; [done|]. apply lexes_space. by apply lexes_operand.
  - rewrite !andb_true_iff in Hg. destruct Hg as [[Ho Hne] Hl]. apply negb_true_iff, bool_decide_eq_false in Hne.
    assert (Hin : forall s ts, lexes s ts -> lexes (" in (" +:+ s) ((KWord, "in") :: (KPunct, "(") :: ts)).
    { intros s' ts' H'. change (" in (" +:+ s') with (" " +:+ ("in" +:+ (" " +:+ ("(" +:+ s')))). apply lexes_space.
      apply lexes_wordChars; [done|done|by apply follows_char|]. apply lexes_space. by apply lexes_punct. }
    assert (Htail : lexes (" in (" +:+ join ", " l +:+ ")" +:+ s) ((KWord, "in") :: (KPunct, "(") :: (listTokens l ++ [(KPunct, ")")]) ++ ts)).
    { apply Hin. rewrite <- app_assoc. apply lexes_list; [done|done|by apply follows_char|]. by apply lexes_punct. }
    simpl app. destruct negated.
    + apply lexes_operand; [done|by apply follows_char|].
      change (" not" +:+ ?x) with (" " +:+ ("not" +:+ x)). apply lexes_space. apply lexes_wordChars; [done|done|by apply follows_char|]. exact Htail.
    + apply lexes_operand; [done|by apply follows_char|]. exact Htail.
  - apply lexes_operand; [done|by destruct negated; apply follows_char|].
    change (" is " +:+ ?x) with (" " +:+ ("is" +:+ (" " +:+ x))). apply lexes_space.
    apply lexes_wordChars; [done|done|by apply follows_char|]. apply lexes_space. destruct negated.
    + change ("not null" +:+ s) with ("not" +:+ (" " +:+ ("null" +:+ s))). simpl app.
      apply lexes_wordChars; [done|done|by apply follows_char|]. apply lexes_space. by apply lexes_wordChars.
    + by apply lexes_wordChars.
Qed.
End lexing.

(** ** Reading tokens *)

Section reading.
Variable name : string.

(** A reader takes the tokens [ts] off the front, given what follows, and
    gives [a]. *)
Definition reads {A} (p : M (list Token) A) (ts : list (TokenKind * string)) (a : A) (next : list Token -> Prop) : Prop :=
  forall toks rest, map bare toks = ts -> next rest -> p (toks ++ rest) = Ok (a, rest).

Definition anything (rest : list Token) : Prop := True.

Lemma map_bare_cons toks kt ts : map bare toks = kt :: ts -> exists t toks', toks = t :: toks' /\ bare t = kt /\ map bare toks' = ts.
Proof. destruct toks as [|t toks]; [done|]. intros [= Ht Hts]. by exists t, toks. Qed.

Lemma map_bare_app toks ts1 ts2 : map bare toks = ts1 ++ ts2 -> exists a b, toks = a ++ b /\ map bare a = ts1 /\ map bare b = ts2.
Proof. intros H. apply map_eq_app in H as (a & b & -> & <- & <-). by exists a, b. Qed.

Lemma isToken_bare kind text t : bare t = (kind, text) -> isToken kind text (Some t) = true.
Proof. destruct t. intros [= -> ->]. unfold isToken. simpl. by rewrite !bool_decide_eq_true_2. Qed.

(** A literal is a quoted text or the word of a number or of a boolean. *)
Lemma literal_cases t : canonicalLiteral t = true ->
  literalToken t = (KString, t) \/ (literalToken t = (KWord, t) /\ isNumber t || includes t ["true"; "false"] = true).
Proof.
  destruct t as [|a u]; [done|]. unfold canonicalLiteral, literalToken, operandToken. rewrite <- orb_assoc. intros [Hc|Hc]%orb_true_iff.
  - left. apply andb_true_iff in Hc as [->%bool_decide_eq_true _]. by destruct u.
  - destruct (starts_with "'" (String a u)); [by left|by right].
Qed.

Lemma canonicalLiteral_token t tok : canonicalLiteral t = true -> bare tok = literalToken t -> isLiteral tok = true /\ tk_text tok = t.
Proof.
  intros Hc Hb. destruct tok as [kind text at_]. unfold isLiteral.
  destruct (literal_cases t Hc) as [E|[E Hw]]; rewrite E in Hb; injection Hb as -> ->; done.
Qed.

Lemma reads_literal t : canonicalLiteral t = true -> reads (literalText name) [literalToken t] t anything.
Proof.
  intros Hc toks rest Ht _. apply map_bare_cons in Ht as (tok & toks' & -> & Hb & Ht). apply map_eq_nil in Ht as ->.
  destruct (canonicalLiteral_token t tok Hc Hb) as [Hl <-]. cbn [app literalText]. by rewrite Hl.
Qed.

Lemma number_not_column t : isNumber t = true -> isColumn t = false.
Proof.
  destruct t as [|a t]; [done|]. unfold isNumber. destruct (decide (a = "-"%char)) as [->|Ha]; [done|]. intros H.
  assert (Hd : is_digit a = true).
  { cbn [split_on] in H. destruct (decide (a = "."%char)) as [->|Hp].
    - destruct (split_on "." t) as [|w [|]]; done.
    - destruct (split_on "." t) as [|w [|f [|]]]; cbn [digits1] in H; unfold digits1 in H; cbn [all_chars] in H; try done;
        rewrite ?andb_true_iff in H; tauto. }
  destruct a as [[] [] [] [] [] [] [] []]; done.
Qed.

Lemma reads_operand o : canonicalOperand o = true -> reads (operand name) [operandToken o] o anything.
Proof.
  intros Hc toks rest Ht _. pose proof Ht as Ht'. apply map_bare_cons in Ht as (tok & toks' & -> & Hb & Ht). apply map_eq_nil in Ht as ->.
  cbn [app operand]. destruct o as [n|t].
  - destruct tok as [kind text at_]. simpl in Hb. injection Hb as -> ->.
    replace (isColumnWord (mkToken KWord n at_)) with (isColumnWord (mkToken KWord n 0)) by done. simpl in Hc. by rewrite Hc.
  - assert (isColumnWord tok = false) as ->.
    { destruct tok as [kind text at_]. unfold isColumnWord. cbn [operandToken] in Hb.
      destruct (literal_cases t Hc) as [E|[E Hw]]; change (if starts_with "'" t then KString else KWord, t) with (literalToken t) in Hb;
        rewrite E in Hb; injection Hb as -> ->; [done|]. cbn [tk_kind tk_text]. apply orb_true_iff in Hw as [Hw|Hw].
      - by rewrite (number_not_column _ Hw), andb_false_r.
      - rewrite Hw. by rewrite andb_false_r. }
    pose proof (reads_literal t Hc [tok] rest Ht' I) as E. cbn [app] in E. unfold mbind, M_bind. by rewrite E.
Qed.

(** A closing parenthesis, which ends a list and an inner expression. *)
Definition closing (rest : list Token) : Prop := isToken KPunct ")" (head rest) = true.

Lemma isToken_other kind text kind' text' o : isToken kind text o = true -> (kind, text) <> (kind', text') -> isToken kind' text' o = false.
Proof.
  destruct o as [[k t a]|]; [|done]. unfold isToken. simpl. rewrite andb_true_iff, !bool_decide_eq_true. intros [-> ->] Hne.
  destruct (decide (kind = kind')) as [->|]; [|by rewrite bool_decide_eq_false_2]. rewrite (bool_decide_eq_false_2 (text = text')) by congruence.
  by rewrite andb_false_r.
Qed.

Lemma reads_list l : l <> [] -> forallb canonicalLiteral l = true ->
  forall fuel acc, (length l <= fuel)%nat -> reads (inItems name fuel acc) (listTokens l) (acc ++ l) closing.
Proof.
  intros Hl Hc. induction l as [|t l IH]; [done|]. cbn [forallb] in Hc. apply andb_true_iff in Hc as [Ht Hc].
  intros [|fuel] acc Hf toks rest Hts Hr; simpl in Hf; [lia|]. cbn [inItems].
  destruct l as [|u l].
  - pose proof (reads_literal t Ht toks rest Hts I) as E. unfold mbind, M_bind, get. rewrite E.
    by rewrite (isToken_other _ _ _ _ _ Hr).
  - cbn [listTokens] in Hts. apply map_bare_cons in Hts as (tok & toks' & -> & Hb & Hts). apply map_bare_cons in Hts as (sep & toks2 & -> & Hs & Hts).
    pose proof (reads_literal t Ht [tok] (sep :: toks2 ++ rest) ltac:(simpl; by rewrite Hb) I) as E. cbn [app] in *.
    unfold mbind, M_bind, get. rewrite E. cbn [head]. rewrite (isToken_bare _ _ _ Hs). unfold advance, modify. cbn [tail].
    rewrite (IH ltac:(done) Hc fuel (acc ++ [t]) ltac:(simpl in *; lia) toks2 rest Hts Hr). by rewrite <- app_assoc.
Qed.

(** Readers in sequence. *)
Lemma reads_bind {A B} (p : M (list Token) A) (k : A -> M (list Token) B) ts1 ts2 a b next next' :
  reads p ts1 a next -> reads (k a) ts2 b next' -> (forall toks rest, map bare toks = ts2 -> next' rest -> next (toks ++ rest)) ->
  reads (p ≫= k) (ts1 ++ ts2) b next'.
Proof.
  intros Hp Hk Hn toks rest Ht Hr. apply map_bare_app in Ht as (t1 & t2 & -> & Ht1 & Ht2). rewrite <- app_assoc.
  unfold mbind, M_bind. rewrite (Hp t1 (t2 ++ rest) Ht1 (Hn t2 rest Ht2 Hr)). by apply Hk.
Qed.

Lemma reads_weaken {A} (p : M (list Token) A) ts a (next next' : list Token -> Prop) :
  reads p ts a next -> (forall rest, next' rest -> next rest) -> reads p ts a next'.
Proof. intros Hp Hn toks rest Ht Hr. by apply Hp; [|apply Hn]. Qed.

Lemma reads_expect kind text : reads (expect name kind text) [(kind, text)] tt anything.
Proof.
  intros toks rest Ht _. apply map_bare_cons in Ht as (tok & toks' & -> & Hb & Ht). apply map_eq_nil in Ht as ->.
  unfold expect. cbn [app head]. by rewrite (isToken_bare _ _ _ Hb).
Qed.

Lemma reads_ret {A} (a : A) next : reads (mret a) [] a next.
Proof. intros toks rest Ht _. by apply map_eq_nil in Ht as ->. Qed.

(** A step of the reader that takes one token. *)
Lemma reads_advance {A} (p : M (list Token) A) kt ts a next : reads p ts a next -> reads (advance;; p) (kt :: ts) a next.
Proof.
  intros Hp toks rest Ht Hr. apply map_bare_cons in Ht as (tok & toks' & -> & _ & Ht). unfold mbind, M_bind, advance, modify. cbn [app tail].
  by apply Hp.
Qed.

Lemma peekWord_bare word toks rest kt ts : map bare toks = kt :: ts ->
  peekWord word 0 (toks ++ rest) = bool_decide (kt = (KWord, word)).
Proof.
  intros Ht. apply map_bare_cons in Ht as (tok & toks' & -> & <- & _). unfold peekWord, isToken, bare. simpl.
  destruct tok as [k x a]. simpl. apply eq_true_iff_eq. rewrite andb_true_iff, !bool_decide_eq_true. naive_solver.
Qed.

Lemma operandToken_kind o : fst (operandToken o) = KWord \/ fst (operandToken o) = KString.
Proof. destruct o as [n|t]; simpl; [by left|]. case_match; auto. Qed.

Lemma reads_compare fuel l op r : canonicalOperand r = true ->
  reads (predicateTail name fuel l) [(KOp, op); operandToken r] (ECompare op l r) anything.
Proof.
  intros Hr toks rest Ht _. apply map_bare_cons in Ht as ([k x a] & toks' & -> & [= -> ->] & Ht).
  unfold predicateTail, mbind, M_bind, get, advance, modify. cbn [app tail].
  by rewrite (reads_operand r Hr toks' rest Ht I).
Qed.

(** The rest of an IN predicate and of a NULL test. *)
Definition inTail (negated : bool) (l : list string) : list (TokenKind * string) :=
  (if negated then [(KWord, "not")] else []) ++ (KWord, "in") :: (KPunct, "(") :: listTokens l ++ [(KPunct, ")")].
Definition nullTail (negated : bool) : list (TokenKind * string) :=
  (KWord, "is") :: (if negated then [(KWord, "not")] else []) ++ [(KWord, "null")].

Lemma reads_items fuel l : l <> [] -> forallb canonicalLiteral l = true -> (length l <= fuel)%nat -> forall left_ negated,
  reads (expect name KPunct "(";; l ← inItems name fuel []; expect name KPunct ")";; mret (EIn left_ negated l))
    ((KPunct, "(") :: listTokens l ++ [(KPunct, ")")]) (EIn left_ negated l) anything.
Proof.
  intros Hl Hc Hf left_ negated.
  apply (reads_bind _ _ [(KPunct, "(")] _ tt _ anything anything); [apply reads_expect| |done].
  apply (reads_bind _ _ (listTokens l) [(KPunct, ")")] l _ closing anything).
  - by apply (reads_list l Hl Hc fuel []).
  - apply (reads_bind _ _ [(KPunct, ")")] [] tt _ anything anything); [apply reads_expect|apply reads_ret|done].
  - intros toks rest Ht _. apply map_bare_cons in Ht as (tok & toks' & -> & Hb & _). unfold closing. cbn [app head]. by apply isToken_bare.
Qed.

Lemma reads_in fuel left_ negated l : l <> [] -> forallb canonicalLiteral l = true -> (length l <= fuel)%nat ->
  reads (predicateTail name fuel left_) (inTail negated l) (EIn left_ negated l) anything.
Proof.
  intros Hl Hc Hf toks rest Ht _. pose proof (reads_items fuel l Hl Hc Hf left_ negated) as Hi. unfold inTail in Ht. destruct negated.
  - apply map_bare_cons in Ht as ([k x a] & toks' & -> & [= -> ->] & Ht). apply map_bare_cons in Ht as ([k x b] & toks2 & -> & [= -> ->] & Ht).
    exact (Hi toks2 rest Ht I).
  - apply map_bare_cons in Ht as ([k x b] & toks2 & -> & [= -> ->] & Ht). exact (Hi toks2 rest Ht I).
Qed.

Lemma reads_null fuel left_ negated : reads (predicateTail name fuel left_) (nullTail negated) (EIsNull left_ negated) anything.
Proof.
  intros toks rest Ht _. unfold nullTail in Ht. apply map_bare_cons in Ht as ([k x a] & toks' & -> & [= -> ->] & Ht). destruct negated.
  - apply map_bare_cons in Ht as ([k x b] & toks2 & -> & [= -> ->] & Ht). apply map_bare_cons in Ht as ([k x c] & toks3 & -> & [= -> ->] & Ht).
    by apply map_eq_nil in Ht as ->.
  - apply map_bare_cons in Ht as ([k x b] & toks2 & -> & [= -> ->] & Ht). by apply map_eq_nil in Ht as ->.
Qed.

Definition leaf (e : CheckExpr) : bool := match e with ELogical _ _ _ => false | _ => true end.

Lemma listTokens_length l : (length l <= length (listTokens l))%nat.
Proof. induction l as [|t [|u l] IH]; simpl in *; lia. Qed.

Lemma reads_leaf inner fuel e : leaf e = true -> goodLeaves e = true -> (length (exprTokens e) <= fuel)%nat ->
  reads (predicate name inner fuel) (exprTokens e) e anything.
Proof.
  intros Hl Hg Hf.
  assert (H : forall o ts, canonicalOperand o = true -> exprTokens e = operandToken o :: ts -> reads (predicateTail name fuel o) ts e anything ->
    reads (predicate name inner fuel) (exprTokens e) e anything).
  { intros o ts Ho E Htail toks rest Ht _. rewrite E in Ht. unfold predicate. unfold mbind at 1, M_bind at 1, get at 1.
    assert (isToken KPunct "(" (head (toks ++ rest)) = false) as ->.
    { apply map_bare_cons in Ht as ([k x a] & toks' & -> & Hb & _). unfold bare in Hb. simpl in Hb.
      destruct (operandToken_kind o) as [Ek|Ek]; rewrite <- Hb in Ek; simpl in Ek; subst k; done. }
    exact (reads_bind _ _ [operandToken o] ts o e anything anything (reads_operand o Ho) Htail ltac:(done) toks rest Ht I). }
  destruct e as [|op l r|o negated l|o negated]; [done| | |]; cbn [goodLeaves] in Hg; rewrite ?andb_true_iff in Hg.
  - destruct Hg as [[_ Ho] Hr]. eapply H; [exact Ho|reflexivity|]. by apply reads_compare.
  - destruct Hg as [[Ho Hne] Hc]. apply negb_true_iff, bool_decide_eq_false in Hne. eapply H; [exact Ho|reflexivity|]. apply reads_in; [done|done|].
    pose proof (listTokens_length l). cbn [exprTokens] in Hf. destruct negated; simpl in Hf; rewrite length_app in Hf; lia.
  - eapply H; [exact Hg|reflexivity|]. apply reads_null.
Qed.

(** Whether an expression is a logical one of an operator. *)
Definition isLogical (op : LogicalOp) (e : CheckExpr) : bool :=
  match e with ELogical op' _ _ => bool_decide (op' = op) | _ => false end.

(** No right side is a logical expression of the operator above it. *)
Fixpoint leftAssociated (e : CheckExpr) : bool :=
  match e with ELogical op l r => leftAssociated l && leftAssociated r && negb (isLogical op r) | _ => true end.

Definition canonicalExpr (e : CheckExpr) : bool := goodLeaves e && leftAssociated e.

Lemma canonical_logical op l r : canonicalExpr (ELogical op l r) = true <->
  canonicalExpr l = true /\ canonicalExpr r = true /\ isLogical op r = false.
Proof. unfold canonicalExpr. cbn [goodLeaves leftAssociated]. rewrite !andb_true_iff, negb_true_iff. tauto. Qed.

(** The tokens of one side of an operator. *)
Definition sideTokens (op : LogicalOp) (q : CheckExpr) : list (TokenKind * string) :=
  if inParentheses op q then (KPunct, "(") :: exprTokens q ++ [(KPunct, ")")] else exprTokens q.

(** How many turns the loop of an operator takes to read an expression. *)
Fixpoint turns (op : LogicalOp) (e : CheckExpr) : nat :=
  match e with ELogical op' l _ => if decide (op' = op) then S (turns op l) else O | _ => O end.

Lemma exprTokens_pos e : (0 < length (exprTokens e))%nat.
Proof.
  destruct e as [op l r|op l r|o negated l|o negated]; cbn [exprTokens]; rewrite ?length_app; simpl; lia.
Qed.

Lemma exprTokens_logical op l r : exprTokens (ELogical op l r) = sideTokens op l ++ (KWord, opText op) :: sideTokens op r.
Proof. done. Qed.

Lemma sideTokens_length op e : (length (exprTokens e) <= length (sideTokens op e))%nat.
Proof. unfold sideTokens. destruct (inParentheses op e); simpl; rewrite ?length_app; lia. Qed.

Lemma turns_length op e : (turns op e < length (exprTokens e))%nat.
Proof.
  induction e as [op' l IHl r IHr| | |]; try apply exprTokens_pos. rewrite exprTokens_logical, length_app. cbn [turns length].
  pose proof (sideTokens_length op' l). destruct (decide (op' = op)); lia.
Qed.

Section levels.
Variables (inner : M (list Token) CheckExpr) (F : nat).
Hypothesis inner_reads : forall e, canonicalExpr e = true -> (length (exprTokens e) + 2 <= F)%nat -> reads inner (exprTokens e) e closing.

Lemma reads_side e : canonicalExpr e = true -> isLogical OpAnd e = false -> (length (sideTokens OpAnd e) <= F)%nat ->
  reads (predicate name inner F) (sideTokens OpAnd e) e anything.
Proof.
  intros Hc Ha Hf. destruct e as [op l r|op l r|o negated l|o negated].
  2-4: unfold canonicalExpr in Hc; apply andb_true_iff in Hc as [Hg _]; by apply reads_leaf.
  destruct op; [done|]. unfold sideTokens in *. cbn [inParentheses] in *. set (e := ELogical OpOr l r) in *.
  intros toks rest Ht _. apply map_bare_cons in Ht as (tok & toks' & -> & Hb & Ht).
  unfold predicate. unfold mbind at 1, M_bind at 1, get at 1. cbn [app head]. rewrite (isToken_bare _ _ _ Hb).
  cbn [length] in Hf. rewrite length_app in Hf. cbn [length] in Hf.
  assert (Hr : reads (inner ← inner; expect name KPunct ")";; mret inner) (exprTokens e ++ [(KPunct, ")")]) e anything).
  { apply (reads_bind _ _ (exprTokens e) [(KPunct, ")")] e e closing anything).
    - apply inner_reads; [done|lia].
    - apply (reads_bind _ _ [(KPunct, ")")] [] tt e anything anything); [apply reads_expect|apply reads_ret|done].
    - intros t rest' Ht' _. apply map_bare_cons in Ht' as (tok' & t' & -> & Hb' & _). unfold closing. cbn [app head]. by apply isToken_bare. }
  exact (Hr toks' rest Ht I).
Qed.

Lemma logicalLoop_stop word op item fuel e rest : (0 < fuel)%nat -> peekWord word 0 rest = false ->
  logicalLoop word op item fuel e rest = Ok (e, rest).
Proof. intros Hf Hp. destruct fuel as [|fuel]; [lia|]. cbn [logicalLoop]. unfold mbind, M_bind, get. by rewrite Hp. Qed.

Lemma logicalLoop_turn word op item fuel k e tok toks rest r rest' : fuel = S k -> bare tok = (KWord, word) ->
  item (toks ++ rest) = Ok (r, rest') -> logicalLoop word op item fuel e (tok :: toks ++ rest) = logicalLoop word op item k (ELogical op e r) rest'.
Proof.
  intros -> Hb Hi. cbn [logicalLoop]. unfold mbind, M_bind, get, advance, modify.
  change (tok :: toks ++ rest) with ([tok] ++ (toks ++ rest)). rewrite (peekWord_bare word [tok] _ (KWord, word) []) by (simpl; by rewrite Hb).
  rewrite bool_decide_eq_true_2 by done. cbn [app tail]. by rewrite Hi.
Qed.

(** [and] reads the left sides of its expression one turn of the loop at a time. *)
Lemma and_read e : canonicalExpr e = true -> (length (sideTokens OpAnd e) <= F)%nat ->
  forall toks rest, map bare toks = sideTokens OpAnd e ->
  and_ name inner F (toks ++ rest) = logicalLoop "and" OpAnd (predicate name inner F) (F - turns OpAnd e) e rest.
Proof.
  induction e as [op l IHl r IHr|op l r|o negated l|o negated]; intros Hc Hf toks rest Ht.
  2-4: unfold and_, mbind, M_bind; rewrite (reads_side _ Hc eq_refl Hf toks rest Ht I); by rewrite Nat.sub_0_r.
  destruct op.
  - apply canonical_logical in Hc as (Hl & Hr & Hn). change (sideTokens OpAnd (ELogical OpAnd l r)) with (exprTokens (ELogical OpAnd l r)) in *.
    rewrite exprTokens_logical in *. rewrite length_app in Hf. simpl in Hf.
    apply map_bare_app in Ht as (t1 & t2 & -> & Ht1 & Ht2). apply map_bare_cons in Ht2 as (tok & t3 & -> & Hb & Ht3).
    rewrite <- app_assoc. cbn [app]. rewrite (IHl Hl) by (done || lia).
    pose proof (turns_length OpAnd l). pose proof (sideTokens_length OpAnd l). cbn [turns]. rewrite decide_True by done.
    apply logicalLoop_turn; [lia|done|]. apply (reads_side r Hr Hn); [lia|done|done].
  - unfold and_, mbind, M_bind. rewrite (reads_side _ Hc eq_refl Hf toks rest Ht I). cbn [turns]. rewrite decide_False by done. by rewrite Nat.sub_0_r.
Qed.

Lemma sideTokens_plain e : isLogical OpOr e = false -> sideTokens OpAnd e = exprTokens e.
Proof. by destruct e as [[]| | |]. Qed.

Lemma and_reads e : canonicalExpr e = true -> (length (sideTokens OpAnd e) <= F)%nat ->
  reads (and_ name inner F) (sideTokens OpAnd e) e (fun rest => peekWord "and" 0 rest = false).
Proof.
  intros Hc Hf toks rest Ht Hr. rewrite (and_read e Hc Hf toks rest Ht). apply logicalLoop_stop; [|done].
  pose proof (turns_length OpAnd e). pose proof (sideTokens_length OpAnd e). lia.
Qed.

Lemma or_read e : canonicalExpr e = true -> (length (exprTokens e) <= F)%nat ->
  forall toks rest, map bare toks = exprTokens e -> peekWord "and" 0 rest = false ->
  orLevel name inner F (toks ++ rest) = logicalLoop "or" OpOr (and_ name inner F) (F - turns OpOr e) e rest.
Proof.
  assert (Hno : forall e, isLogical OpOr e = false -> canonicalExpr e = true -> (length (exprTokens e) <= F)%nat ->
    forall toks rest, map bare toks = exprTokens e -> peekWord "and" 0 rest = false ->
    orLevel name inner F (toks ++ rest) = logicalLoop "or" OpOr (and_ name inner F) F e rest).
  { intros e' Hn Hc Hf toks rest Ht Hp. rewrite <- (sideTokens_plain e' Hn) in *. unfold orLevel, mbind, M_bind.
    by rewrite (and_reads e' Hc Hf toks rest Ht Hp). }
  induction e as [op l IHl r IHr|op l r|o negated l|o negated]; intros Hc Hf toks rest Ht Hp.
  2-4: cbn [turns]; rewrite Nat.sub_0_r; by apply Hno.
  destruct op.
  - cbn [turns]. rewrite decide_False by done. rewrite Nat.sub_0_r. by apply Hno.
  - apply canonical_logical in Hc as (Hl & Hr & Hn). rewrite exprTokens_logical in *. rewrite length_app in Hf. simpl in Hf.
    change (sideTokens OpOr ?q) with (exprTokens q) in *.
    apply map_bare_app in Ht as (t1 & t2 & -> & Ht1 & Ht2). apply map_bare_cons in Ht2 as (tok & t3 & -> & Hb & Ht3).
    rewrite <- app_assoc. cbn [app]. rewrite (IHl Hl).
    2: { lia. }
    2: { done. }
    2: { change (tok :: t3 ++ rest) with ([tok] ++ (t3 ++ rest)). rewrite (peekWord_bare "and" [tok] _ (KWord, "or") []) by (simpl; by rewrite Hb). done. }
    pose proof (turns_length OpOr l). cbn [turns]. rewrite decide_True by done.
    apply logicalLoop_turn; [lia|done|]. rewrite <- (sideTokens_plain r Hn) in *. by apply (and_reads r Hr); [lia|..].
Qed.
End levels.

(** What ends an expression: neither an [and] nor an [or] follows. *)
Definition ended (rest : list Token) : Prop := peekWord "and" 0 rest = false /\ peekWord "or" 0 rest = false.

Lemma or_reads fuel e : canonicalExpr e = true -> (length (exprTokens e) < fuel)%nat -> reads (or_ name fuel) (exprTokens e) e ended.
Proof.
  revert e. induction fuel as [|fuel IH]; intros e Hc Hf toks rest Ht [Ha Ho]; [lia|]. cbn [or_].
  rewrite (or_read (or_ name fuel) (S fuel)) with (e := e); [|..|done|done].
  - apply logicalLoop_stop; [|done]. pose proof (turns_length OpOr e). lia.
  - intros e' Hc' Hf'. apply (reads_weaken _ _ _ ended); [apply IH; [done|lia]|].
    intros rest' Hr. unfold closing in Hr. destruct rest' as [|t r]; [done|]. cbn [head] in Hr.
    split; by apply (isToken_other _ _ _ _ _ Hr).
  - done.
  - lia.
Qed.
End reading.

(** ** The round trip *)

(** An expression put on the right of an operator, in the reading of its text:
    operators of one kind group to the left. *)
Fixpoint attach (op : LogicalOp) (l r : CheckExpr) : CheckExpr :=
  match r with
  | ELogical op' r1 r2 => if decide (op' = op) then ELogical op (attach op l r1) r2 else ELogical op l r
  | _ => ELogical op l r
  end.

(** The tree that reads as the text of an expression. *)
Fixpoint normal (e : CheckExpr) : CheckExpr :=
  match e with ELogical op l r => attach op (normal l) (normal r) | _ => e end.

(** The truth of an expression, unknown included, when [v] gives that of its leaves. *)
Definition logical3 (op : LogicalOp) (a b : option bool) : option bool :=
  let zero := match op with OpAnd => false | OpOr => true end in
  match a, b with
  | Some x, Some y => Some (match op with OpAnd => x && y | OpOr => x || y end)
  | Some x, None | None, Some x => if Bool.eqb x zero then Some zero else None
  | None, None => None
  end.

Fixpoint truth (v : CheckExpr -> option bool) (e : CheckExpr) : option bool :=
  match e with ELogical op l r => logical3 op (truth v l) (truth v r) | _ => v e end.

Lemma attach_logical op l r : isLogical op (attach op l r) = true.
Proof. destruct r as [op' r1 r2| | |]; cbn [attach]; [destruct (decide (op' = op))|..]; cbn [isLogical]; by rewrite bool_decide_eq_true_2. Qed.

Lemma logical_parentheses op op' e : isLogical op' e = true -> inParentheses op e = match op, op' with OpAnd, OpOr => true | _, _ => false end.
Proof. destruct e as [o l r| | |]; try done. cbn [isLogical]. intros <-%bool_decide_eq_true. by destruct op, o. Qed.

Lemma exprText_logical op l r f :
  exprText (ELogical op l r) f = (if inParentheses op l then str ["("; exprText l f; ")"] else exprText l f) +:+ " " +:+ opText op +:+ " " +:+
    (if inParentheses op r then str ["("; exprText r f; ")"] else exprText r f).
Proof. cbn [exprText]. destruct (inParentheses op l), (inParentheses op r); unfold str; by rewrite ?string_app_nil_r. Qed.

Lemma exprText_attach op l r f : exprText (attach op l r) f = exprText (ELogical op l r) f.
Proof.
  induction r as [op' r1 IH1 r2 IH2| | |]; [|done..]. cbn [attach]. destruct (decide (op' = op)) as [->|]; [|done].
  rewrite exprText_logical, (logical_parentheses op op) by apply attach_logical.
  rewrite IH1, !exprText_logical. rewrite (logical_parentheses op op (ELogical op r1 r2)) by (cbn [isLogical]; by rewrite bool_decide_eq_true_2).
  destruct op; rewrite ?string_app_assoc; reflexivity.
Qed.

Lemma canonical_attach op l r : canonicalExpr l = true -> canonicalExpr r = true -> canonicalExpr (attach op l r) = true.
Proof.
  intros Hl. induction r as [op' r1 IH1 r2 IH2| | |]; intros Hr; cbn [attach];
    [|apply canonical_logical; by split_and!..].
  destruct (decide (op' = op)) as [->|Hne]; apply canonical_logical; [|split_and!; [done|done|]].
  - apply canonical_logical in Hr as (H1 & H2 & H3). auto.
  - cbn [isLogical]. by rewrite bool_decide_eq_false_2.
Qed.

Lemma canonical_normal e : goodLeaves e = true -> canonicalExpr (normal e) = true.
Proof.
  induction e as [op l IHl r IHr| | |]; intros Hg;
    [|unfold canonicalExpr; cbn [normal leftAssociated]; by rewrite Hg..]. cbn [goodLeaves] in Hg. apply andb_true_iff in Hg as [Hl Hr].
  apply canonical_attach; auto.
Qed.

Lemma normal_parentheses op e : inParentheses op (normal e) = inParentheses op e.
Proof. destruct e as [op' l r| | |]; [|done..]. cbn [normal]. rewrite (logical_parentheses op op') by apply attach_logical. by destruct op, op'. Qed.

Lemma exprText_normal e f : exprText (normal e) f = exprText e f.
Proof.
  induction e as [op l IHl r IHr| | |]; [|done..]. cbn [normal]. rewrite exprText_attach, !exprText_logical, !normal_parentheses. by rewrite IHl, IHr.
Qed.

Lemma logical3_assoc op a b c : logical3 op (logical3 op a b) c = logical3 op a (logical3 op b c).
Proof. by destruct op, a as [[]|], b as [[]|], c as [[]|]. Qed.

Lemma truth_normal v e : truth v (normal e) = truth v e.
Proof.
  assert (Ha : forall op l r, truth v (attach op l r) = logical3 op (truth v l) (truth v r)).
  { intros op l r. induction r as [op' r1 IH1 r2 IH2| | |]; [|done..]. cbn [attach]. destruct (decide (op' = op)) as [->|]; [|done].
    cbn [truth]. by rewrite IH1, logical3_assoc. }
  induction e as [op l IHl r IHr| | |]; [|done..]. cbn [normal truth]. by rewrite Ha, IHl, IHr.
Qed.

Lemma exprText_length_tokens e name toks : goodLeaves e = true -> tokens (exprText e id) name = Ok toks -> map bare toks = exprTokens e.
Proof.
  intros Hg Ht. destruct (lexes_expr name e "" [] Hg (conj I eq_refl) (lexes_nil name) (S (String.length (exprText e id))) 0%nat) as (toks' & E & Hb).
  { rewrite string_app_nil_r. lia. }
  rewrite string_app_nil_r in E. unfold tokens in Ht. rewrite E in Ht. injection Ht as <-. by rewrite Hb, app_nil_r.
Qed.

(** C34: the text that is written for a check expression is read back, as the
    same expression with operators of one kind grouped to the left: the tree
    that was read has the same text under any renaming of columns and the same
    truth value, unknown included. *)
Theorem readCheck_exprText e name : goodLeaves e = true ->
  readCheck (exprText e id) name = Ok (normal e) /\
  (forall f, exprText (normal e) f = exprText e f) /\ (forall v, truth v (normal e) = truth v e).
Proof.
  intros Hg. split; [|split; intros; [apply exprText_normal|apply truth_normal]].
  rewrite <- (exprText_normal e). pose proof (canonical_normal e Hg) as Hc. unfold canonicalExpr in Hc. apply andb_true_iff in Hc as [Hg' Ha].
  destruct (lexes_expr name (normal e) "" [] Hg' (conj I eq_refl) (lexes_nil name) (S (String.length (exprText (normal e) id))) 0%nat) as (toks & E & Hb).
  { rewrite string_app_nil_r. lia. }
  rewrite string_app_nil_r in E. rewrite app_nil_r in Hb. unfold readCheck, tokens. rewrite E.
  pose proof (or_reads name (S (length toks)) (normal e)) as H. specialize (H ltac:(by apply canonical_normal)).
  rewrite <- Hb, length_map in H. specialize (H ltac:(lia) toks [] eq_refl (conj eq_refl eq_refl)). rewrite app_nil_r in H.
  unfold mbind, res_bind. rewrite H. done.
Qed.

Lemma readCheck_exprText_witness :
  let e := ELogical OpAnd (ECompare ">=" (OpColumn "age") (OpLiteral "-1.5"))
             (ELogical OpAnd (ELogical OpOr (EIn (OpColumn "state") true ["'it''s'"; "'b'"]) (EIsNull (OpColumn "note") true)) (EIsNull (OpColumn "x") false)) in
  readCheck (exprText e id) "ck" = Ok (normal e) /\
  (forall f, exprText (normal e) f = exprText e f) /\ (forall v, truth v (normal e) = truth v e).
Proof. apply (readCheck_exprText _ "ck"). vm_compute. reflexivity. Defined.
