(* ===== verification/Plan.v ===== *)
(** * Plan documents and their chain ([dbspec/plan.ts])

    A plan document is a header of renames and drop permissions and the text of
    the target schema; plans form a chain from the empty database.  [planHeader]
    is what [parsePlan] does before it calls the document parser; the whole of it
    is in PlanDocuments.v.  SHA-256 is a parameter of [planTo]. *)

From S2P Require Import Prelude Documents Emit DocumentSet Keys Check.
From Stdlib Require Import Lia.

(** ** Data *)

Record DbspecTableRename := mkTableRename { tr_old : string; tr_new : string }.
Record DbspecColumnRename := mkColumnRename { cr_table : string; cr_old : string; cr_new : string }.
Record DbspecColumnName := mkColumnName { cn_table : string; cn_name : string }.

(** A plan without its target: [Omit<DbspecPlan, 'schema' | 'to'>]. *)
Record PlanHeader := mkHeader {
  h_name : string; h_from : option string;
  h_renameTables : list DbspecTableRename; h_renameColumns : list DbspecColumnRename;
  h_dropTables : list string; h_dropColumns : list DbspecColumnName }.

Record DbspecPlan := mkPlan { p_header : PlanHeader; p_schema : DbspecDocument; p_to : string }.

Definition p_name (p : DbspecPlan) : string := h_name (p_header p).
Definition p_from (p : DbspecPlan) : option string := h_from (p_header p).

Definition planDiagnostic (rule : string) (line : nat) (message : string) : DbspecDiagnostic := mkDiagnostic rule (Z.of_nat line) 1 message.

Definition failed {A} (line : nat) (message : string) : A + list DbspecDiagnostic := inr [planDiagnostic "plan" line message].

(** ** Header lines *)

(** [RESERVED] of [parse.ts] *)
Definition reserved : list string :=
  ["dbspec"; "use"; "table"; "diagram"; "primary"; "unique"; "index"; "foreign"; "check"; "settings";
   "null"; "identity"; "default"; "true"; "false"; "and"; "or"; "not"; "in"; "between"; "is"].

(** A name that the header accepts beyond its form. *)
Definition allowedName (n : string) : bool := negb (includes n reserved) && (String.length n <=? 63)%nat.

Fixpoint planNames (names : list string) : string :=
  match names with
  | [] => ""
  | n :: names => if negb (allowedName n) then str ["name "; dq; n; dq; " is reserved or longer than 63 bytes"] else planNames names
  end.

(** [PLAN_HEADER] *)
Definition readHeader (line : string) : option string :=
  match split_on " " line with ["dbplan"; "1"; n] => if isColumn n then Some n else None | _ => None end.

Definition is_hex (a : ascii) : bool := is_digit a || ((97 <=? N_of_ascii a)%N && (N_of_ascii a <=? 102)%N).

(** [PLAN_FROM]: what follows [from]. *)
Definition readFrom (line : string) : option string :=
  if starts_with "from " line then
    let t := String.substring 5 (String.length line - 5) line in
    let hash := String.substring 7 (String.length t - 7) t in
    if bool_decide (t = "empty") || (starts_with "sha256:" t && (String.length hash =? 64)%nat && all_chars is_hex hash) then Some t else None
  else None.

(** The four forms of a line, with the parts their patterns capture. *)
Inductive HeaderLine :=
  | LRenameTable (r : DbspecTableRename)
  | LRenameColumn (r : DbspecColumnRename)
  | LDropTable (name : string)
  | LDropColumn (c : DbspecColumnName).

Definition qualifiedName (text : string) : option (string * string) :=
  match split_on "." text with [t; c] => if isColumn t && isColumn c then Some (t, c) else None | _ => None end.

Definition readLine (line : string) : option HeaderLine :=
  match split_on " " line with
  | ["rename"; "table"; old; new] => if isColumn old && isColumn new then Some (LRenameTable (mkTableRename old new)) else None
  | ["rename"; "column"; column; new] =>
      match qualifiedName column with
      | Some (table, old) => if isColumn new then Some (LRenameColumn (mkColumnRename table old new)) else None
      | None => None
      end
  | ["allow"; "drop"; "table"; name] => if isColumn name then Some (LDropTable name) else None
  | ["allow"; "drop"; "column"; column] =>
      match qualifiedName column with Some (table, name) => Some (LDropColumn (mkColumnName table name)) | None => None end
  | _ => None
  end.

Definition lineNames (l : HeaderLine) : list string :=
  match l with
  | LRenameTable r => [tr_old r; tr_new r]
  | LRenameColumn r => [cr_table r; cr_old r; cr_new r]
  | LDropTable n => [n]
  | LDropColumn c => [cn_table c; cn_name c]
  end.

(** The name that a rename gives: its key in [given] and the message of a line
    that gives it again. *)
Definition givenName (l : HeaderLine) : option (string * string) :=
  match l with
  | LRenameTable r => Some (str ["table "; tr_new r], str [" renames another table to "; tr_new r])
  | LRenameColumn r => Some (str ["column "; cr_table r; "."; cr_new r], str [" renames another column to "; cr_table r; "."; cr_new r])
  | _ => None
  end.

Definition addLine (h : PlanHeader) (l : HeaderLine) : PlanHeader :=
  let '(mkHeader name from rt rc dt dc) := h in
  match l with
  | LRenameTable r => mkHeader name from (rt ++ [r]) rc dt dc
  | LRenameColumn r => mkHeader name from rt (rc ++ [r]) dt dc
  | LDropTable t => mkHeader name from rt rc (dt ++ [t]) dc
  | LDropColumn c => mkHeader name from rt rc dt (dc ++ [c])
  end.

(** The maps of the loop: the number of each line, and of each given name. *)
Record Seen := mkSeen { sn_lines : list (string * nat); sn_given : list (string * nat) }.

(** The loop over the header lines, [n] the number of the next line: the header
    and the lines after the blank line. *)
Fixpoint headerLines (n : nat) (lines : list string) (seen : Seen) (h : PlanHeader) : (PlanHeader * list string) + list DbspecDiagnostic :=
  match lines with
  | [] => failed n "a blank line and the target schema text follow the header"
  | line :: lines =>
      if decide (line = "") then inl (h, lines)
      else
        match assoc line (sn_lines seen) with
        | Some at_ => failed n (str ["line "; pretty (Z.of_nat at_); " repeats this line"])
        | None =>
            let seen := mkSeen (assoc_set line n (sn_lines seen)) (sn_given seen) in
            match readLine line with
            | None => failed n "a header line is `rename table`, `rename column`, `allow drop table` or `allow drop column`"
            | Some l =>
                let error := planNames (lineNames l) in
                if negb (bool_decide (error = "")) then failed n error
                else
                  match givenName l with
                  | None => headerLines (S n) lines seen (addLine h l)
                  | Some (key, text) =>
                      match assoc key (sn_given seen) with
                      | Some other => failed n (str ["line "; pretty (Z.of_nat other); text])
                      | None => headerLines (S n) lines (mkSeen (sn_lines seen) (assoc_set key n (sn_given seen))) (addLine h l)
                      end
                  end
            end
        end
  end.

Definition is_space (a : ascii) : bool := bool_decide (a = " "%char) || ((9 <=? N_of_ascii a)%N && (N_of_ascii a <=? 13)%N).

(** [line.split(/\s+/)[1]] of a line that starts with a word and a space. *)
Fixpoint untilSpace (s : string) : string :=
  match s with EmptyString => "" | String a s => if is_space a then "" else String a (untilSpace s) end.
Fixpoint skipSpaces (s : string) : string :=
  match s with EmptyString => "" | String a s' => if is_space a then skipSpaces s' else s end.

(** The number of the first line of the target with a use of another document. *)
Fixpoint useLine (n : nat) (lines : list string) : option (nat * string) :=
  match lines with
  | [] => None
  | line :: lines =>
      if starts_with "use " line then Some (n, untilSpace (skipSpaces (String.substring 3 (String.length line - 3) line))) else useLine (S n) lines
  end.

Definition newline : ascii := ascii_of_nat 10.

(** What [parsePlan] does before it parses the target: the header, the target
    text and the number of lines before it. *)
Definition planHeader (text : string) : (PlanHeader * string * nat) + list DbspecDiagnostic :=
  if negb (ends_with lineEnd text) then failed (length (split_on newline text)) "a plan ends with a line end"
  else
    let lines := split_on newline (String.substring 0 (String.length text - 1) text) in
    match (l ← head lines; n ← readHeader l; if allowedName n then Some n else None) with
    | None => failed 1 "the first line is exactly `dbplan 1 <name>`"
    | Some name =>
        match (l ← lines !! 1%nat; readFrom l) with
        | None => failed 2 "the second line is `from empty` or `from <schemaHash>`"
        | Some from =>
            let from := if decide (from = "empty") then None else Some from in
            match headerLines 3 (drop 2 lines) (mkSeen [] []) (mkHeader name from [] [] [] []) with
            | inr d => inr d
            | inl (h, target) =>
                let offset := (length lines - length target)%nat in
                match useLine (S offset) target with
                | Some (n, document) =>
                    failed n (str ["a plan targets a whole database, and its target uses the external document "; document;
                                   ": install a set that uses external documents with install or addTablesAndColumns"])
                | None => inl (h, joinLines target, offset)
                end
            end
        end
    end.

(** ** Targets and emission *)

(** A target that equals [from] is a diagnostic. *)
Definition planTo (sha256 : string -> string) (header : PlanHeader) (schema : DbspecDocument) (schemaText : string) : DbspecPlan + list DbspecDiagnostic :=
  let to := textHash sha256 schemaText in
  if decide (Some to = h_from header) then failed 2 "the plan starts from its own target schema" else inl (mkPlan header schema to).

(** [emitDbspec] of [document.ts] *)
Definition emitDbspec (document : DbspecDocument) : string := emitDocument document Canonical.

Definition columnPath (table name : string) : string := str [table; "."; name].

Definition lineText (l : HeaderLine) : string :=
  match l with
  | LRenameTable r => str ["rename table "; tr_old r; " "; tr_new r]
  | LRenameColumn r => str ["rename column "; cr_table r; "."; cr_old r; " "; cr_new r]
  | LDropTable t => str ["allow drop table "; t]
  | LDropColumn c => str ["allow drop column "; cn_table c; "."; cn_name c]
  end.

(** The lines of a header in canonical order. *)
Definition sortedLines (h : PlanHeader) : list HeaderLine :=
  map LRenameTable (sortedBy (h_renameTables h) tr_old) ++
  map LRenameColumn (sortedBy (h_renameColumns h) (fun r => columnPath (cr_table r) (cr_old r))) ++
  map LDropTable (sortedBy (h_dropTables h) id) ++
  map LDropColumn (sortedBy (h_dropColumns h) (fun c => columnPath (cn_table c) (cn_name c))).

Definition headerText (h : PlanHeader) : string :=
  str (map (fun line => line +:+ lineEnd)
    (str ["dbplan 1 "; h_name h] :: match h_from h with None => "from empty" | Some from => str ["from "; from] end ::
     map lineText (sortedLines h))).

Definition emitPlan (plan : DbspecPlan) : string := headerText (p_header plan) +:+ lineEnd +:+ emitDbspec (p_schema plan).

(** ** The chain *)

(** The key of a plan that starts from an empty database is the empty text. *)
Definition fromKey (p : DbspecPlan) : string := default "" (p_from p).

(** [byFrom.get(key)?.[0]] *)
Definition firstFrom (plans : list DbspecPlan) (key : string) : option DbspecPlan :=
  List.find (fun p => bool_decide (fromKey p = key)) plans.

Definition chainDiagnostic (message : string) : DbspecDiagnostic := planDiagnostic "chain" 1 message.

(** The groups of plans that start from one schema. *)
Definition sameFrom (plans : list DbspecPlan) : list DbspecDiagnostic :=
  concat (map (fun key =>
    match filter (fun p => fromKey p = key) plans with
    | _ :: _ :: _ as ps => [chainDiagnostic (str ["plans "; join ", " (sort_by id (map p_name ps)); " start from the same schema"])]
    | _ => []
    end) (sort_by id (foldl (fun keys p => set_add (fromKey p) keys) [] plans))).

(** The loop along the chain.  No two plans have one [from] here, so a plan is
    known by its [from]; each turn visits a new one, so one turn more than their
    number is enough. *)
Fixpoint chainFrom (fuel : nat) (plans chain : list DbspecPlan) (p : option DbspecPlan) : res (list DbspecPlan + list DbspecDiagnostic) :=
  match p with
  | None => Ok (inl chain)
  | Some p =>
      match fuel with
      | O => Err OutOfFuel
      | S fuel =>
          if includes (fromKey p) (map fromKey chain) then Ok (inr [chainDiagnostic (str ["plan "; p_name p; " closes a cycle"])])
          else chainFrom fuel plans (chain ++ [p]) (firstFrom plans (p_to p))
      end
  end.

(** [chainPlans] of at least one plan *)
Definition orderPlans (plans : list DbspecPlan) : res (list DbspecPlan + list DbspecDiagnostic) :=
  match sameFrom plans ++ (if firstFrom plans "" then [] else [chainDiagnostic "no plan starts from empty"]) with
  | d :: out => Ok (inr (d :: out))
  | [] =>
      r ← chainFrom (S (length plans)) plans [] (firstFrom plans "");
      match r with
      | inr d => Ok (inr d)
      | inl chain =>
          match sort_by id (map p_name (filter (fun p => includes (fromKey p) (map fromKey chain) = false) plans)) with
          | [] => Ok (inl chain)
          | unreached => Ok (inr [chainDiagnostic (str ["no chain reaches plans "; join ", " unreached])])
          end
      end
  end.

Definition chainPlans (plans : list DbspecPlan) : res (list DbspecPlan + list DbspecDiagnostic) :=
  match plans with [] => Ok (inl []) | _ => orderPlans plans end.
