(* ===== verification/PlanFacts.v ===== *)
(** * The plan chain and the header of a plan

    The order of a chain is the only one whose plans follow each other, and a
    header is read back from its text. *)

From S2P Require Import Prelude Documents Emit DocumentSet Keys DocumentFacts Check CheckFacts Plan.
From Stdlib Require Import Lia.

(** ** The chain *)

(** Each plan starts from the target of the one before. *)
Definition linked (l : list DbspecPlan) : Prop :=
  forall i p q, l !! i = Some p -> l !! S i = Some q -> fromKey q = p_to p.

(** A chain: its first plan starts from an empty database, each next plan from
    the target of the one before, no two plans from one schema, and no plan of it
    from the target of the last. *)
Record isChain (l : list DbspecPlan) : Prop := {
  ch_first : forall p, head l = Some p -> fromKey p = "";
  ch_linked : linked l;
  ch_distinct : NoDup (map fromKey l);
  ch_last : forall p, last l = Some p -> p_to p ∉ map fromKey l
}.

Lemma filter_key_le plans key : NoDup (map fromKey plans) -> (length (filter (fun p => fromKey p = key) plans) <= 1)%nat.
Proof.
  induction plans as [|p plans IH]; [simpl; lia|]. cbn [map]. intros [Hp Hn]%NoDup_cons. rewrite filter_cons. specialize (IH Hn).
  destruct (decide (fromKey p = key)) as [<-|]; [|done]. simpl.
  destruct (filter (fun q => fromKey q = fromKey p) plans) as [|q l] eqn:E; [simpl; lia|]. exfalso. apply Hp.
  assert (Hq : q ∈ filter (fun q => fromKey q = fromKey p) plans) by (rewrite E; by left).
  apply list_elem_of_filter in Hq as [Hk Hq]. rewrite <- Hk. by apply list_elem_of_fmap_2.
Qed.

Lemma filter_key_nodup plans : (forall key, key ∈ map fromKey plans -> (length (filter (fun p => fromKey p = key) plans) <= 1)%nat) -> NoDup (map fromKey plans).
Proof.
  induction plans as [|p plans IH]; intros H; [constructor|]. cbn [map]. constructor.
  - intros (q & Hk & Hq)%list_elem_of_fmap. specialize (H (fromKey p) ltac:(by left)). rewrite filter_cons, decide_True in H by done. simpl in H.
    assert (q ∈ filter (fun q => fromKey q = fromKey p) plans) as Hf by (by apply list_elem_of_filter).
    destruct (filter _ plans); [by apply elem_of_nil in Hf|simpl in H; lia].
  - apply IH. intros key Hk. specialize (H key ltac:(by right)). rewrite filter_cons in H. destruct (decide _); simpl in H; lia.
Qed.

Lemma keys_elem plans keys k : k ∈ foldl (fun keys p => set_add (fromKey p) keys) keys plans <-> k ∈ keys \/ k ∈ map fromKey plans.
Proof.
  revert keys. induction plans as [|p plans IH]; intros keys; simpl; [rewrite elem_of_nil; tauto|].
  rewrite IH, set_add_elem, elem_of_cons. tauto.
Qed.

Lemma sameFrom_nil plans : sameFrom plans = [] <-> NoDup (map fromKey plans).
Proof.
  unfold sameFrom. rewrite concat_nil_iff. setoid_rewrite elem_of_sort_by. split.
  - intros H. apply filter_key_nodup. intros key Hk. specialize (H key). rewrite keys_elem in H. specialize (H (or_intror Hk)).
    destruct (filter _ plans) as [|? [|? ?]]; simpl; [lia|lia|done].
  - intros H key _. pose proof (filter_key_le plans key H). destruct (filter _ plans) as [|? [|? ?]]; [done|done|simpl in *; lia].
Qed.

Section chain.
Context (plans : list DbspecPlan) (Hn : NoDup (map fromKey plans)).

Lemma firstFrom_some key p : firstFrom plans key = Some p <-> p ∈ plans /\ fromKey p = key.
Proof.
  split.
  - intros [Hp Hk]%List.find_some. apply bool_decide_eq_true in Hk. split; [by apply list_elem_of_In|done].
  - intros [Hp <-]. unfold firstFrom. destruct (List.find _ plans) as [q|] eqn:E.
    + apply List.find_some in E as [Hq Hk]. apply bool_decide_eq_true in Hk. apply list_elem_of_In in Hq. f_equal.
      apply list_elem_of_lookup in Hq as [i Hi], Hp as [j Hj].
      assert (i = j) as ->; [|congruence]. eapply NoDup_lookup; [exact Hn| |]; rewrite list_lookup_fmap.
      * by rewrite Hi.
      * rewrite Hj. simpl. by rewrite Hk.
    + exfalso. apply list_elem_of_In in Hp. apply (List.find_none _ _ E) in Hp. by apply bool_decide_eq_false in Hp.
Qed.

Lemma firstFrom_none key : firstFrom plans key = None <-> key ∉ map fromKey plans.
Proof.
  split.
  - intros H (p & -> & Hp)%list_elem_of_fmap. assert (E : firstFrom plans (fromKey p) = Some p) by (by apply firstFrom_some). congruence.
  - intros H. destruct (firstFrom plans key) as [p|] eqn:E; [|done]. apply firstFrom_some in E as [Hp <-]. destruct H. by apply list_elem_of_fmap_2.
Qed.

(** The plans from [p] on, each found by the target of the one before. *)
Inductive follows : option DbspecPlan -> list DbspecPlan -> Prop :=
  | follows_end : follows None []
  | follows_next p l : p ∈ plans -> follows (firstFrom plans (p_to p)) l -> follows (Some p) (p :: l).

(** What the loop gives: the plans that follow, if none of them comes twice. *)
Lemma chainFrom_follows fuel chain p r : NoDup (map fromKey chain) -> (forall q, p = Some q -> q ∈ plans) ->
  chainFrom fuel plans chain p = Ok (inl r) -> exists l, r = chain ++ l /\ follows p l /\ NoDup (map fromKey r).
Proof.
  revert chain p. induction fuel as [|fuel IH]; intros chain p Hc Hp H; destruct p as [p|]; cbn [chainFrom] in H; try done;
    try (injection H as <-; exists []; rewrite app_nil_r; split_and!; [done|constructor|done]).
  destruct (includes (fromKey p) (map fromKey chain)) eqn:Ei; [done|].
  assert (Hni : fromKey p ∉ map fromKey chain) by (intros Hi; unfold includes in Ei; by rewrite bool_decide_eq_true_2 in Ei).
  apply IH in H as (l & -> & Hl & Hr).
  - exists (p :: l). rewrite <- app_assoc in *. split_and!; [done| |done]. constructor; [by apply Hp|done].
  - rewrite map_app. apply NoDup_app. split_and!; [done| |apply NoDup_singleton].
    intros x Hx [->|[]%elem_of_nil]%elem_of_cons. done.
  - intros q Hq. by apply firstFrom_some in Hq as [? _].
Qed.

Lemma follows_chainFrom fuel chain p l : follows p l -> NoDup (map fromKey (chain ++ l)) -> (length l <= fuel)%nat ->
  chainFrom fuel plans chain p = Ok (inl (chain ++ l)).
Proof.
  intros Hf. revert fuel chain. induction Hf as [|p l Hp Hf IH]; intros fuel chain Hnd Hl.
  - rewrite app_nil_r. by destruct fuel.
  - destruct fuel as [|fuel]; [simpl in Hl; lia|]. cbn [chainFrom].
    assert (Hni : includes (fromKey p) (map fromKey chain) = false).
    { unfold includes. apply bool_decide_eq_false. intros Hi. rewrite map_app in Hnd. apply NoDup_app in Hnd as (_ & Hd & _).
      apply (Hd (fromKey p) Hi). by left. }
    rewrite Hni. rewrite (IH fuel (chain ++ [p])); [by rewrite <- app_assoc|by rewrite <- app_assoc|simpl in Hl; lia].
Qed.

(** The loop ends: each turn adds a plan that was not in the chain. *)
Lemma chainFrom_ends fuel chain p : NoDup (map fromKey chain) -> chain ⊆ plans -> (forall q, p = Some q -> q ∈ plans) ->
  (length plans < fuel + length chain)%nat -> exists r, chainFrom fuel plans chain p = Ok r.
Proof.
  assert (Hle : forall chain : list DbspecPlan, NoDup (map fromKey chain) -> chain ⊆ plans -> (length chain <= length plans)%nat).
  { intros l Hl Hs. apply submseteq_length, NoDup_submseteq; [|done]. by apply NoDup_fmap_1 in Hl. }
  revert chain p. induction fuel as [|fuel IH]; intros chain p Hc Hs Hp Hf; [specialize (Hle chain Hc Hs); lia|].
  destruct p as [p|]; cbn [chainFrom]; [|by eexists]. destruct (includes (fromKey p) (map fromKey chain)) eqn:Ei; [by eexists|].
  assert (Hni : fromKey p ∉ map fromKey chain) by (intros Hi; unfold includes in Ei; by rewrite bool_decide_eq_true_2 in Ei).
  apply IH.
  - rewrite map_app. apply NoDup_app. split_and!; [done| |apply NoDup_singleton]. intros x Hx [->|[]%elem_of_nil]%elem_of_cons. done.
  - intros x [Hx|Hx]%elem_of_app; [by apply Hs|]. apply list_elem_of_singleton in Hx as ->. by apply Hp.
  - intros q Hq. by apply firstFrom_some in Hq as [? _].
  - rewrite length_app. simpl. lia.
Qed.

Lemma follows_elem p l : follows p l -> l ⊆ plans.
Proof. induction 1 as [|p l Hp _ IH]; [by intros ? []%elem_of_nil|]. intros x [->|Hx]%elem_of_cons; auto. Qed.

Lemma follows_head p l : follows p l -> head l = p.
Proof. by destruct 1. Qed.

Lemma follows_linked p l : follows p l -> linked l.
Proof.
  induction 1 as [|p l Hp Hf IH]; [done|]. intros [|i] q q' Hq Hq'; simpl in *; [|by eapply IH].
  injection Hq as ->. destruct l as [|r l]; [done|]. injection Hq' as ->. apply follows_head in Hf. simpl in Hf.
  by symmetry in Hf; apply firstFrom_some in Hf as [_ ?].
Qed.

Lemma follows_last p l q : follows p l -> last l = Some q -> p_to q ∉ map fromKey plans.
Proof.
  induction 1 as [|p l Hp Hf IH]; [done|]. destruct l as [|r l].
  - simpl. intros [= ->]. apply follows_head in Hf. simpl in Hf. by apply firstFrom_none.
  - intros H. apply IH. by rewrite <- H.
Qed.

(** A chain of the plans is what the loop follows. *)
Lemma chain_follows l : l ≡ₚ plans -> isChain l -> forall pre suf, l = pre ++ suf -> follows (head suf) suf.
Proof.
  intros Hp [_ Hlink _ Hlast] pre suf. revert pre. induction suf as [|p suf IH]; intros pre E; [constructor|].
  simpl. constructor; [rewrite <- Hp, E; apply elem_of_app; right; by left|].
  specialize (IH (pre ++ [p])). rewrite <- app_assoc in IH. specialize (IH E).
  destruct suf as [|q suf].
  - assert (firstFrom plans (p_to p) = None) as ->; [|done]. apply firstFrom_none. rewrite <- Hp. apply Hlast. rewrite E. by rewrite last_snoc.
  - assert (firstFrom plans (p_to p) = Some q) as ->; [|done]. apply firstFrom_some. split.
    + rewrite <- Hp, E. apply elem_of_app. right. right. by left.
    + apply (Hlink (length pre) p q); rewrite E.
      * by rewrite lookup_app_r, Nat.sub_diag by lia.
      * rewrite lookup_app_r by lia. by replace (S (length pre) - length pre)%nat with 1%nat by lia.
Qed.
Definition unreachedNames (l : list DbspecPlan) : list string :=
  sort_by id (map p_name (filter (fun p => includes (fromKey p) (map fromKey l) = false) plans)).

Lemma unreachedNames_nil l : unreachedNames l = [] <-> forall p, p ∈ plans -> fromKey p ∈ map fromKey l.
Proof.
  unfold unreachedNames. split.
  - intros Hu p Hp. destruct (decide (fromKey p ∈ map fromKey l)) as [|Hi]; [done|]. exfalso.
    assert (Hin : p_name p ∈ sort_by id (map p_name (filter (fun p => includes (fromKey p) (map fromKey l) = false) plans))).
    { apply elem_of_sort_by, list_elem_of_fmap_2, list_elem_of_filter. split; [|done]. unfold includes. by apply bool_decide_eq_false. }
    rewrite Hu in Hin. by apply elem_of_nil in Hin.
  - intros H. destruct (filter _ plans) as [|q out] eqn:Ef; [done|]. exfalso.
    assert (Hq : q ∈ filter (fun p => includes (fromKey p) (map fromKey l) = false) plans) by (rewrite Ef; by left).
    apply list_elem_of_filter in Hq as [Hi Hq]. unfold includes in Hi. apply bool_decide_eq_false in Hi. by apply Hi, H.
Qed.

(** Plans that are followed from the empty database to the last are a chain. *)
Lemma follows_chain p l : firstFrom plans "" = Some p -> follows (Some p) l -> NoDup (map fromKey l) ->
  (forall q, q ∈ plans -> fromKey q ∈ map fromKey l) -> l ≡ₚ plans /\ isChain l.
Proof.
  intros E0 Hl Hd Hall.
  assert (Hp : l ≡ₚ plans).
  { apply NoDup_Permutation; [by apply NoDup_fmap_1 in Hd|by apply NoDup_fmap_1 in Hn|]. intros q. split; [by eapply follows_elem|]. intros Hq.
    apply Hall in Hq as Hi. apply list_elem_of_fmap in Hi as (q' & Hk & Hq'). assert (q = q') as ->; [|done].
    assert (E : firstFrom plans (fromKey q') = Some q) by (by apply firstFrom_some).
    assert (E' : firstFrom plans (fromKey q') = Some q') by (apply firstFrom_some; split; [by eapply follows_elem|done]). congruence. }
  split; [done|]. split; [|by eapply follows_linked|done|].
  - intros q Hq. rewrite (follows_head _ _ Hl) in Hq. injection Hq as <-. by apply firstFrom_some in E0 as [_ ?].
  - intros q Hq. rewrite Hp. by eapply follows_last.
Qed.
End chain.

(** C32: ordering plans always ends, and it gives a chain exactly when the plans
    can be ordered so that the first starts from an empty database, each next
    one from the target of the one before, no two from one schema and none from
    the last target; the result is that order, which is the only one. *)
Theorem chainPlans_chain plans :
  (exists r, chainPlans plans = Ok r) /\
  forall chain, chainPlans plans = Ok (inl chain) <-> chain ≡ₚ plans /\ isChain chain.
Proof.
  destruct plans as [|p0 plans0] eqn:Eplans.
  { split; [by eexists|]. intros chain. simpl. split.
    - intros [= <-]. split; [done|]. split; [done|by intros [|] ? ?|constructor|done].
    - intros [H _]. apply Permutation_nil_r in H. by rewrite H. }
  change (chainPlans (p0 :: plans0)) with (orderPlans (p0 :: plans0)). rewrite <- Eplans.
  assert (Hne : plans <> []) by (by rewrite Eplans). clear Eplans p0 plans0. unfold orderPlans.
  destruct (sameFrom plans ++ _) as [|d out] eqn:Eo.
  2: { split; [eexists; reflexivity|]. intros chain. split; [done|]. intros [Hp Hc]. exfalso.
       assert (Hn : NoDup (map fromKey plans)) by (rewrite <- Hp; apply Hc).
       rewrite (proj2 (sameFrom_nil plans) Hn) in Eo. destruct (firstFrom plans "") eqn:E; [done|].
       apply (firstFrom_none plans Hn) in E. apply E. rewrite <- Hp. destruct chain as [|p chain]; [by apply Permutation_nil_l in Hp|].
       rewrite <- (ch_first _ Hc p eq_refl). by left. }
  apply app_nil in Eo as [Hn%sameFrom_nil Hf]. destruct (firstFrom plans "") as [p|] eqn:E0; [|done].
  assert (Hp0 : forall q, Some p = Some q -> q ∈ plans) by (intros q [= <-]; by apply firstFrom_some in E0 as [? _]).
  destruct (chainFrom_ends plans Hn (S (length plans)) [] (Some p)) as [r Hr]; [constructor|by intros ? []%elem_of_nil|done|simpl; lia|].
  rewrite Hr. unfold mbind, res_bind. split; [destruct r; [case_match|]; by eexists|]. intros chain. split.
  - destruct r as [c|]; [|done]. apply (chainFrom_follows plans Hn) in Hr as (l & -> & Hl & Hd); [|constructor|done]. cbn [app] in *.
    change (sort_by id _) with (unreachedNames plans l). destruct (unreachedNames plans l) eqn:Eu; [|done]. intros [= <-].
    rewrite unreachedNames_nil in Eu. by apply (follows_chain plans Hn p).
  - intros [Hp Hc].
    assert (Hhd : head chain = Some p).
    { destruct chain as [|q chain]; [by apply Permutation_nil_l in Hp|]. simpl. symmetry. rewrite <- E0. apply firstFrom_some; [done|].
      split; [rewrite <- Hp; by left|]. by apply (ch_first _ Hc). }
    pose proof (chain_follows plans Hn chain Hp Hc [] chain eq_refl) as Hl. rewrite Hhd in Hl.
    assert (Hfollow := follows_chainFrom plans (S (length plans)) [] (Some p) chain Hl (ch_distinct _ Hc)).
    rewrite Hr in Hfollow. specialize (Hfollow ltac:(rewrite (Permutation_length Hp); lia)). injection Hfollow as ->. cbn [app].
    change (sort_by id _) with (unreachedNames plans chain).
    rewrite (proj2 (unreachedNames_nil plans chain)); [done|]. intros q Hq. apply list_elem_of_fmap_2. by rewrite Hp.
Qed.

(** ** The header of a plan *)

Lemma has_char_app c s t : has_char c (s +:+ t) = has_char c s || has_char c t.
Proof. induction s as [|a s IH]; [done|]. rewrite string_app_cons. cbn [has_char]. by rewrite IH, orb_assoc. Qed.

Lemma split_plain c s : has_char c s = false -> split_on c s = [s].
Proof.
  induction s as [|a s IH]; [done|]. cbn [has_char split_on]. intros [Ha Hs]%orb_false_iff. apply bool_decide_eq_false in Ha.
  rewrite decide_False by done. by rewrite IH.
Qed.

Lemma split_app c s t : has_char c s = false -> split_on c (s +:+ String c t) = s :: split_on c t.
Proof.
  induction s as [|a s IH]; intros H.
  - change ("" +:+ String c t) with (String c t). cbn [split_on]. by rewrite decide_True.
  - cbn [has_char] in H. apply orb_false_iff in H as [Ha Hs]. apply bool_decide_eq_false in Ha. rewrite string_app_cons. cbn [split_on].
    rewrite decide_False by done. by rewrite IH.
Qed.

Lemma split_join c l : l <> [] -> Forall (fun s => has_char c s = false) l -> split_on c (join (String c "") l) = l.
Proof.
  intros Hl H. induction H as [|s l Hs H IH]; [done|]. destruct l as [|t l]; [by apply split_plain|].
  change (join (String c "") (s :: t :: l)) with (s +:+ String c (join (String c "") (t :: l))). rewrite split_app by done. by rewrite IH.
Qed.

Lemma substring_front s t : String.substring 0 (String.length s) (s +:+ t) = s.
Proof. induction s as [|a s IH]; [by destruct t|]. rewrite string_app_cons. simpl. by rewrite IH. Qed.

Lemma ends_with_app s t : ends_with t (s +:+ t) = true.
Proof.
  induction s as [|a s IH].
  - change ("" +:+ t) with t. destruct t as [|b t]; [done|]. cbn [ends_with]. by rewrite bool_decide_eq_true_2.
  - rewrite string_app_cons. simpl. by rewrite IH, orb_true_r.
Qed.

(** A text of lines gives its lines back. *)
Lemma joinLines_split l : l <> [] -> Forall (fun s => has_char newline s = false) l ->
  ends_with lineEnd (joinLines l) = true /\
  split_on newline (String.substring 0 (String.length (joinLines l) - 1) (joinLines l)) = l.
Proof.
  intros Hl H. unfold joinLines. split; [apply ends_with_app|]. rewrite string_length_app. change (String.length lineEnd) with 1%nat.
  replace (String.length (join lineEnd l) + 1 - 1)%nat with (String.length (join lineEnd l)) by lia. rewrite substring_front. by apply split_join.
Qed.

Lemma joinLines_str l : l <> [] -> joinLines l = str (map (fun s => s +:+ lineEnd) l).
Proof.
  intros Hl. unfold joinLines. induction l as [|s l IH]; [done|]. destruct l as [|t l].
  - cbn [map]. unfold str. by rewrite string_app_nil_r.
  - change (join lineEnd (s :: t :: l)) with (s +:+ lineEnd +:+ join lineEnd (t :: l)). rewrite !string_app_assoc.
    rewrite IH by done. cbn [map]. unfold str at 2. by rewrite string_app_assoc.
Qed.

(** *** Lines *)

Definition goodName (n : string) : bool := isColumn n && allowedName n.

Lemma goodName_char c n : goodName n = true -> wordChar c = false -> has_char c n = false.
Proof.
  intros [Hn _]%andb_true_iff Hc. destruct (isColumn_chars n Hn) as [_ H]. clear Hn. induction n as [|a n IH]; [done|].
  cbn [all_chars has_char] in *. apply andb_true_iff in H as [Ha H]. rewrite IH by done. rewrite bool_decide_eq_false_2; [done|]. by intros ->; congruence.
Qed.

Lemma goodName_dot n : goodName n = true -> has_char "." n = false.
Proof.
  intros [Hn _]%andb_true_iff. destruct n as [|a n]; [done|]. cbn [isColumn] in Hn. apply andb_true_iff in Hn as [Ha Hn].
  cbn [has_char]. apply orb_false_iff. split; [apply bool_decide_eq_false; by intros ->|]. clear Ha. induction n as [|b n IH]; [done|].
  cbn [all_chars has_char] in *. apply andb_true_iff in Hn as [Hb Hn]. rewrite IH by done. rewrite bool_decide_eq_false_2; [done|]. by intros ->.
Qed.

Definition goodLine (l : HeaderLine) : bool := forallb goodName (lineNames l).

Lemma planNames_good names : forallb goodName names = true -> planNames names = "".
Proof.
  induction names as [|n names IH]; [done|]. cbn [forallb planNames]. intros [[_ Ha]%andb_true_iff H]%andb_true_iff. rewrite Ha. by apply IH.
Qed.

(** Names at spaces, and a table and a column at a point. *)
Lemma good_spaces l : Forall (fun s => has_char " " s = false) l -> l <> [] -> split_on " " (join " " l) = l.
Proof. intros. by apply (split_join " "). Qed.

Lemma good_path t c : goodName t = true -> goodName c = true -> qualifiedName (t +:+ "." +:+ c) = Some (t, c) /\ has_char " " (t +:+ "." +:+ c) = false.
Proof.
  intros Ht Hc. split.
  - unfold qualifiedName. change (t +:+ "." +:+ c) with (join "." [t; c]). rewrite (split_join "."); [|done|].
    + by apply andb_true_iff in Ht as [-> _], Hc as [-> _].
    + repeat constructor; by apply goodName_dot.
  - rewrite !has_char_app. by rewrite (goodName_char " " t), (goodName_char " " c).
Qed.

(** The words of a line hold no space. *)
Ltac spaces := repeat (apply Forall_cons; split); first [apply Forall_nil; exact I|done|by apply goodName_char].

Lemma readLine_text l : goodLine l = true -> readLine (lineText l) = Some l /\ lineText l <> "".
Proof.
  destruct l as [[old new]|[table old new]|name|[table name]]; unfold goodLine; cbn [lineNames forallb tr_old tr_new cr_table cr_old cr_new cn_table cn_name];
    rewrite ?andb_true_iff; intros Hg; (split; [|done]); unfold lineText; cbn [tr_old tr_new cr_table cr_old cr_new cn_table cn_name].
  - destruct Hg as (Ho & Hw & _). change (str ["rename table "; old; " "; new]) with ("rename table " +:+ old +:+ " " +:+ new +:+ "").
    rewrite string_app_nil_r. change ("rename table " +:+ old +:+ " " +:+ new) with (join " " ["rename"; "table"; old; new]). unfold readLine.
    rewrite good_spaces by spaces. by apply andb_true_iff in Ho as [-> _], Hw as [-> _].
  - destruct Hg as (Ht & Ho & Hw & _). destruct (good_path table old Ht Ho) as [Hq Hs].
    change (str ["rename column "; table; "."; old; " "; new]) with ("rename column " +:+ table +:+ "." +:+ old +:+ " " +:+ new +:+ "").
    rewrite string_app_nil_r. replace ("rename column " +:+ table +:+ "." +:+ old +:+ " " +:+ new) with (join " " ["rename"; "column"; table +:+ "." +:+ old; new]).
    2: { change (join " " ["rename"; "column"; table +:+ "." +:+ old; new]) with ("rename column " +:+ (table +:+ "." +:+ old) +:+ " " +:+ new).
         by rewrite !string_app_assoc. }
    unfold readLine. rewrite good_spaces by spaces. rewrite Hq. by apply andb_true_iff in Hw as [-> _].
  - destruct Hg as (Hn & _). change (str ["allow drop table "; name]) with ("allow drop table " +:+ name +:+ ""). rewrite string_app_nil_r.
    change ("allow drop table " +:+ name) with (join " " ["allow"; "drop"; "table"; name]). unfold readLine.
    rewrite good_spaces by spaces. by apply andb_true_iff in Hn as [-> _].
  - destruct Hg as (Ht & Hn & _). destruct (good_path table name Ht Hn) as [Hq Hs].
    change (str ["allow drop column "; table; "."; name]) with ("allow drop column " +:+ table +:+ "." +:+ name +:+ ""). rewrite string_app_nil_r.
    change ("allow drop column " +:+ table +:+ "." +:+ name) with (join " " ["allow"; "drop"; "column"; table +:+ "." +:+ name]). unfold readLine.
    rewrite good_spaces by spaces. by rewrite Hq.
Qed.

(** *** The loop over the lines *)

Definition givenKeys (ls : list HeaderLine) : list string := omap (fun l => fst <$> givenName l) ls.

Lemma assoc_set_fst {V} k (v : V) l x : x ∈ map fst (assoc_set k v l) <-> x = k \/ x ∈ map fst l.
Proof.
  induction l as [|[k' v'] l IH]; simpl; [by rewrite elem_of_cons|]. destruct (decide (k = k')) as [->|]; simpl; rewrite !elem_of_cons; [tauto|].
  rewrite IH. tauto.
Qed.

Lemma headerLines_read ls : forall n seen h target, forallb goodLine ls = true ->
  NoDup (map lineText ls) -> (forall l, l ∈ map lineText ls -> l ∉ map fst (sn_lines seen)) ->
  NoDup (givenKeys ls) -> (forall k, k ∈ givenKeys ls -> k ∉ map fst (sn_given seen)) ->
  headerLines n (map lineText ls ++ "" :: target) seen h = inl (foldl addLine h ls, target).
Proof.
  induction ls as [|l ls IH]; intros n seen h target Hg Hn Hs Hk Hgiven; [done|].
  cbn [map forallb] in *. apply andb_true_iff in Hg as [Hl Hg]. apply NoDup_cons in Hn as [Hl' Hn].
  destruct (readLine_text l Hl) as [Hread Hne]. cbn [app headerLines]. rewrite decide_False by done.
  rewrite (proj2 (assoc_None (lineText l) (sn_lines seen))) by (apply Hs; by left). rewrite Hread.
  rewrite (planNames_good (lineNames l)) by done. cbn [negb bool_decide].
  assert (Hs' : forall x, x ∈ map lineText ls -> x ∉ map fst (assoc_set (lineText l) n (sn_lines seen))).
  { intros x Hx [->|Hx']%assoc_set_fst; [done|]. by apply (Hs x); [right|]. }
  unfold givenKeys in *. cbn [omap list_omap] in *. destruct (givenName l) as [[key text]|]; cbn [fmap option_fmap option_map fst] in *.
  - apply NoDup_cons in Hk as [Hkey Hk]. cbn [sn_given sn_lines].
    rewrite (proj2 (assoc_None key (sn_given seen))) by (apply Hgiven; by left). cbn [foldl]. apply IH; try done.
    intros k Hk' [->|Hk2]%assoc_set_fst; [done|]. by apply (Hgiven k); [right|].
  - cbn [foldl]. by apply IH.
Qed.

(** *** The round trip *)

(** The header with its lists in canonical order. *)
Definition canonicalHeader (h : PlanHeader) : PlanHeader :=
  mkHeader (h_name h) (h_from h) (sortedBy (h_renameTables h) tr_old) (sortedBy (h_renameColumns h) (fun r => columnPath (cr_table r) (cr_old r)))
    (sortedBy (h_dropTables h) id) (sortedBy (h_dropColumns h) (fun c => columnPath (cn_table c) (cn_name c))).

Lemma foldl_addLine name from rt rc dt dc a b c d :
  foldl addLine (mkHeader name from rt rc dt dc) (map LRenameTable a ++ map LRenameColumn b ++ map LDropTable c ++ map LDropColumn d) =
  mkHeader name from (rt ++ a) (rc ++ b) (dt ++ c) (dc ++ d).
Proof.
  rewrite !foldl_app.
  assert (Ha : forall rt, foldl addLine (mkHeader name from rt rc dt dc) (map LRenameTable a) = mkHeader name from (rt ++ a) rc dt dc).
  { induction a as [|x a IH]; intros r; simpl; [by rewrite app_nil_r|]. by rewrite IH, <- app_assoc. }
  rewrite Ha. clear Ha. generalize (rt ++ a) as rt'. intros rt'.
  assert (Hb : forall rc, foldl addLine (mkHeader name from rt' rc dt dc) (map LRenameColumn b) = mkHeader name from rt' (rc ++ b) dt dc).
  { induction b as [|x b IH]; intros r; simpl; [by rewrite app_nil_r|]. by rewrite IH, <- app_assoc. }
  rewrite Hb. clear Hb. generalize (rc ++ b) as rc'. intros rc'.
  assert (Hc : forall dt, foldl addLine (mkHeader name from rt' rc' dt dc) (map LDropTable c) = mkHeader name from rt' rc' (dt ++ c) dc).
  { induction c as [|x c IH]; intros r; simpl; [by rewrite app_nil_r|]. by rewrite IH, <- app_assoc. }
  rewrite Hc. clear Hc. generalize (dt ++ c) as dt'. intros dt'.
  revert dc. induction d as [|x d IH]; intros r; simpl; [by rewrite app_nil_r|]. by rewrite IH, <- app_assoc.
Qed.

(** A header that [planHeader] can read: good names, no line and no new name twice. *)
Record goodHeader (h : PlanHeader) : Prop := {
  gh_name : goodName (h_name h) = true;
  gh_from : match h_from h with Some f => exists x, f = "sha256:" +:+ x /\ String.length x = 64%nat /\ all_chars is_hex x = true | None => True end;
  gh_lines : forallb goodLine (sortedLines h) = true;
  gh_distinct : NoDup (map lineText (sortedLines h));
  gh_given : NoDup (givenKeys (sortedLines h))
}.

Lemma readHeader_text n : goodName n = true -> readHeader (str ["dbplan 1 "; n]) = Some n.
Proof.
  intros Hn. change (str ["dbplan 1 "; n]) with ("dbplan 1 " +:+ n +:+ ""). rewrite string_app_nil_r.
  change ("dbplan 1 " +:+ n) with (join " " ["dbplan"; "1"; n]). unfold readHeader. rewrite good_spaces by spaces.
  by apply andb_true_iff in Hn as [-> _].
Qed.

Lemma substring_drop s t : String.substring (String.length s) (String.length (s +:+ t) - String.length s) (s +:+ t) = t.
Proof.
  induction s as [|a s IH].
  - change ("" +:+ t) with t. simpl String.length. rewrite Nat.sub_0_r. rewrite <- (string_app_nil_r t) at 2. apply substring_front.
  - rewrite string_app_cons. exact IH.
Qed.

Lemma readFrom_text f : match f with Some f => exists x, f = "sha256:" +:+ x /\ String.length x = 64%nat /\ all_chars is_hex x = true | None => True end ->
  exists t, readFrom match f with None => "from empty" | Some f => str ["from "; f] end = Some t /\ (if decide (t = "empty") then None else Some t) = f.
Proof.
  destruct f as [f|]; [|by exists "empty"]. intros (x & -> & Hl & Hx). exists ("sha256:" +:+ x). split; [|done].
  change (str ["from "; "sha256:" +:+ x]) with ("from " +:+ ("sha256:" +:+ x) +:+ ""). rewrite string_app_nil_r.
  unfold readFrom. change (starts_with "from " _) with true. cbn iota.
  pose proof (substring_drop "from " ("sha256:" +:+ x)) as E. change (String.length "from ") with 5%nat in E. rewrite E.
  pose proof (substring_drop "sha256:" x) as E'. change (String.length "sha256:") with 7%nat in E'. rewrite E', Hl, Hx. done.
Qed.

Lemma lineText_newline l : goodLine l = true -> has_char newline (lineText l) = false.
Proof.
  unfold goodLine. destruct l as [[old new]|[table old new]|name|[table name]]; cbn [lineNames forallb tr_old tr_new cr_table cr_old cr_new cn_table cn_name];
    rewrite ?andb_true_iff; intros Hg; unfold lineText, str; cbn [tr_old tr_new cr_table cr_old cr_new cn_table cn_name]; rewrite !has_char_app;
    destruct_and?; repeat match goal with H : goodName ?x = true |- _ => rewrite ?(goodName_char newline x H eq_refl); clear H end; done.
Qed.

(** The header text as lines. *)
Definition headerLineTexts (h : PlanHeader) : list string :=
  str ["dbplan 1 "; h_name h] :: match h_from h with None => "from empty" | Some from => str ["from "; from] end :: map lineText (sortedLines h).

Lemma hex_newline x : all_chars is_hex x = true -> has_char newline x = false.
Proof.
  induction x as [|a x IH]; [done|]. cbn [all_chars has_char]. intros [Ha Hx]%andb_true_iff. rewrite IH by done.
  rewrite bool_decide_eq_false_2; [done|]. by intros ->.
Qed.

Lemma headerLineTexts_newline h : goodHeader h -> Forall (fun s => has_char newline s = false) (headerLineTexts h).
Proof.
  intros [Hn Hf Hl _ _]. apply Forall_cons. split; [|apply Forall_cons; split].
  - unfold str. rewrite !has_char_app. by rewrite (goodName_char newline (h_name h)).
  - destruct (h_from h) as [f|]; [|done]. destruct Hf as (x & -> & _ & Hx). unfold str. rewrite !has_char_app. by rewrite (hex_newline x Hx).
  - apply Forall_map, Forall_forall. intros l Hin. apply lineText_newline. rewrite forallb_forall in Hl. by apply Hl, list_elem_of_In.
Qed.

(** The text of a plan is read back: its header in canonical order, the
    text of its target, and the number of the lines before the target. *)
Lemma planHeader_text h target : goodHeader h -> target <> [] ->
  Forall (fun line => has_char newline line = false /\ starts_with "use " line = false) target ->
  planHeader (headerText h +:+ lineEnd +:+ joinLines target) =
  inl (canonicalHeader h, joinLines target, (length (headerLineTexts h) + 1)%nat).
Proof.
  intros Hh Ht Htarget.
  assert (E : headerText h +:+ lineEnd +:+ joinLines target = joinLines (headerLineTexts h ++ "" :: target)).
  { rewrite !joinLines_str by (done || by destruct (headerLineTexts h)). rewrite map_app, str_app. done. }
  assert (Hlines : Forall (fun s => has_char newline s = false) (headerLineTexts h ++ "" :: target)).
  { apply Forall_app. split; [by apply headerLineTexts_newline|]. apply Forall_cons. split; [done|]. eapply Forall_impl; [exact Htarget|]. by intros ? []. }
  destruct (joinLines_split (headerLineTexts h ++ "" :: target)) as [Hend Hsplit]; [by destruct (headerLineTexts h)|done|].
  unfold planHeader. rewrite E, Hend, Hsplit. cbn [negb]. destruct Hh as [Hn Hf Hg Hd Hk]. unfold headerLineTexts. cbn [app head lookup list_lookup].
  unfold mbind, option_bind. rewrite (readHeader_text _ Hn). pose proof Hn as Ha. apply andb_true_iff in Ha as [_ ->].
  destruct (readFrom_text (h_from h) Hf) as (f & -> & Ef). rewrite Ef. change (drop 2 (?a :: ?b :: ?l)) with l.
  rewrite headerLines_read; [|done|done|by intros ? _ []%elem_of_nil|done|by intros ? _ []%elem_of_nil].
  assert (Hu : forall n, useLine n target = None).
  { clear -Htarget. induction Htarget as [|line l [_ Hl] _ IH]; intros n; [done|]. cbn [useLine]. rewrite Hl. apply IH. }
  rewrite Hu. unfold sortedLines. rewrite foldl_addLine. cbn [app]. do 2 f_equal. cbn [length]. rewrite length_app. cbn [length]. lia.
Qed.
