(* ===== verification/Render.v ===== *)
(** * Rendered statements ([dbspec/render.ts], [dbspec/names.ts])

    A document set as the statements of one dialect.  SHA-256 is a parameter of
    the names that the renderer writes. *)

From S2P Require Import Prelude Lex Values Documents Emit DocumentSet Decimal Check.

(** [DbspecDialect] *)
Inductive DbspecDialect := MySql | Postgres | Sqlite.

#[global] Instance DbspecDialect_eq_dec : EqDecision DbspecDialect.
Proof. solve_decision. Defined.

Definition maxNameBytes : nat := 63.
Definition hashDigits : nat := 8.
Definition prefixBytes : nat := maxNameBytes - 1 - hashDigits.

(** The name that the renderer writes for the suffix of a table. *)
Definition rendererName (sha256 : string -> string) (table suffix : string) : string :=
  let plain := str [table; "$"; suffix] in
  if (String.length plain <=? maxNameBytes)%nat then plain
  else str [String.substring 0 prefixBytes plain; "$"; String.substring 0 hashDigits (sha256 plain)].

(** [renderedColumn]: the column whose renderer name is [name]. *)
Definition renderedColumn (sha256 : string -> string) (table name : string) (columns : list string) : option string :=
  List.find (fun column => bool_decide (rendererName sha256 table column = name)) columns.

(** ** The order of documents *)

(** [visit]: marks a document done before its uses, and puts it behind them. *)
Fixpoint visit (fuel : nat) (documents : list DbspecDocument) (state : list string * list DbspecDocument) (d : DbspecDocument)
    : res (list string * list DbspecDocument) :=
  match fuel with
  | O => Err OutOfFuel
  | S fuel =>
      let '(done_, out) := state in
      if includes (doc_name d) done_ then Ok state
      else
        r ← foldR (fun state name => next ← present (byName documents name) "byName.get(name)"; visit fuel documents state next)
              (done_ ++ [doc_name d], out) (sortedBy (map use_document (doc_uses d)) id);
        let '(done_, out) := r in Ok (done_, out ++ [d])
  end.

(** Each nested visit that is not done marks one more document, so a fuel two
    above their number is enough. *)
Definition useOrder (documents : list DbspecDocument) : res (list DbspecDocument) :=
  let names := foldl (fun keys d => set_add (doc_name d) keys) [] documents in
  r ← foldR (fun state name => next ← present (byName documents name) "byName.get(name)"; visit (S (S (length documents))) documents state next)
        ([], []) (sortedBy names id);
  Ok (snd r).

Module Renderer.
Section renderer.
Context (sha256 : string -> string) (d : DbspecDialect).

(** Quotes an identifier. *)
Definition q (name : string) : string :=
  match d with MySql => str ["`"; name; "`"] | _ => str [dq; name; dq] end.

Definition list_ (names : list string) : string := join ", " (map q names).

Definition typeText (t : DbspecType) : string :=
  match d, t with
  | MySql, TI16 => "SMALLINT"
  | MySql, TI32 => "INT"
  | MySql, TI64 => "BIGINT"
  | MySql, TBool => "tinyint(1)"
  | MySql, TDecimal p s => str ["DECIMAL("; pretty p; ","; pretty s; ")"]
  | MySql, TF64 => "DOUBLE"
  | MySql, TVarchar n => str ["varchar("; pretty n; ") CHARACTER SET utf8mb4 COLLATE utf8mb4_0900_bin"]
  | MySql, TText => "LONGTEXT CHARACTER SET utf8mb4 COLLATE utf8mb4_0900_bin"
  | MySql, TBytes => "LONGBLOB"
  | MySql, TUuid => "char(36) CHARACTER SET ascii COLLATE ascii_bin"
  | MySql, TDate => "DATE"
  | MySql, TTime p => str ["TIME("; pretty p; ")"]
  | MySql, TDatetime p => str ["DATETIME("; pretty p; ")"]
  | Postgres, TI16 => "smallint"
  | Postgres, TI32 => "integer"
  | Postgres, TI64 => "bigint"
  | Postgres, TBool => "boolean"
  | Postgres, TDecimal p s => str ["numeric("; pretty p; ","; pretty s; ")"]
  | Postgres, TF64 => "double precision"
  | Postgres, TVarchar n => str ["varchar("; pretty n; ") COLLATE "; dq; "C"; dq]
  | Postgres, TText => str ["text COLLATE "; dq; "C"; dq]
  | Postgres, TBytes => "bytea"
  | Postgres, TUuid => "uuid"
  | Postgres, TDate => "date"
  | Postgres, TTime p => str ["time("; pretty p; ")"]
  | Postgres, TDatetime p => str ["timestamp("; pretty p; ")"]
  | Sqlite, TI16 => "smallint"
  | Sqlite, TI32 => "integer"
  | Sqlite, TI64 => "bigint"
  | Sqlite, TBool => "BOOLEAN"
  | Sqlite, TDecimal p s => str ["DECIMALINT("; pretty p; ","; pretty s; ")"]
  | Sqlite, TF64 => "REAL"
  | Sqlite, TVarchar n => str ["varchar("; pretty n; ")"]
  | Sqlite, TText | Sqlite, TUuid => "TEXT"
  | Sqlite, TBytes => "BLOB"
  | Sqlite, TDate => "DATE"
  | Sqlite, TTime _ => "TIME"
  | Sqlite, TDatetime _ => "DATETIME"
  end.

(** A canonical decimal literal times ten to its scale. *)
Definition scaledDecimal (text : string) : string :=
  let negative := starts_with "-" text in
  let digits := strip_zeros (drop_first "." (if negative then String.substring 1 (String.length text - 1) text else text)) in
  if decide (digits = "") then "0" else if negative then "-" +:+ digits else digits.

Definition backslash : ascii := ascii_of_nat 92.

Definition isDecimal (t : option DbspecType) : bool := match t with Some (TDecimal _ _) => true | _ => false end.

(** A canonical literal of a column of type [t] in the dialect. *)
Definition literal (t : option DbspecType) (text : string) : string :=
  if includes text ["true"; "false"] then
    match d with Postgres => toUpperCase text | _ => if decide (text = "true") then "1" else "0" end
  else if starts_with "'" text then
    match d with MySql => replace_all backslash (String backslash (String backslash "")) text | _ => text end
  else if isDecimal t && bool_decide (d = Sqlite) then scaledDecimal text
  else text.

Definition defaultText (t : DbspecType) (v : DbspecDefault) : res string :=
  match v with
  | DefaultLiteral text => Ok (literal (Some t) text)
  | DefaultNow =>
      match t with
      | TDatetime p =>
          Ok match d with
             | MySql => str ["CURRENT_TIMESTAMP("; pretty p; ")"]
             | Postgres => "statement_timestamp()"
             | Sqlite =>
                 if decide (p = 0) then "(strftime('%Y-%m-%d %H:%M:%S', 'now'))"
                 else if p <=? 3 then str ["(substr(strftime('%Y-%m-%d %H:%M:%f', 'now'), 1, "; pretty (20 + p); "))"]
                 else str ["(strftime('%Y-%m-%d %H:%M:%f', 'now') || '"; repeat_str "0" (Z.to_nat (p - 3)); "')"]
             end
      | _ => Err (JsError (str ["default now of a "; type_kind t; " column"]))
      end
  end.

Definition column (c : DbspecColumn) : res string :=
  if col_identity c then
    Ok match d with
       | MySql => str [q (col_name c); " BIGINT NOT NULL AUTO_INCREMENT"]
       | Postgres => str [q (col_name c); " bigint GENERATED BY DEFAULT AS IDENTITY NOT NULL"]
       | Sqlite => str [q (col_name c); " INTEGER NOT NULL PRIMARY KEY AUTOINCREMENT"]
       end
  else
    let s := str [q (col_name c); " "; typeText (col_type c); if col_nullable c then " NULL" else " NOT NULL"] in
    match col_default c with
    | None => Ok s
    | Some v => t ← defaultText (col_type c) v; Ok (str [s; " DEFAULT "; t])
    end.

Definition actionText (a : DbspecAction) : string :=
  match a with Restrict => "RESTRICT" | Cascade => "CASCADE" | SetNull => "SET NULL" end.

Definition foreignKey (f : DbspecForeignKey) : string :=
  str ["CONSTRAINT "; q (fk_name f); " FOREIGN KEY ("; list_ (fk_columns f); ") REFERENCES "; q (fk_table f); " (";
       list_ (fk_references f); ") ON DELETE "; actionText (fk_onDelete f); " ON UPDATE "; actionText (fk_onUpdate f)].

Definition uuidPattern : string := "^[0-9a-f]{8}-[0-9a-f]{4}-[0-9a-f]{4}-[0-9a-f]{4}-[0-9a-f]{12}$".

Definition hexClass (n : nat) : string := repeat_str "[0-9a-f]" n.
Definition digitClass (n : Z) : string := repeat_str "[0-9]" (Z.to_nat n).

(** The renderer CHECK of a column, or nothing when the dialect enforces the type. *)
Definition typeCheck (c : DbspecColumn) : string :=
  if col_identity c then ""
  else
    let n := q (col_name c) in
    let integer := str ["typeof("; n; ") IN ('integer', 'null')"] in
    match d, col_type c with
    | MySql, TBool => str [n; " IN (0, 1)"]
    | MySql, TUuid => str ["REGEXP_LIKE("; n; ", '"; uuidPattern; "', 'c')"]
    | MySql, TTime _ => str [n; " >= '00:00:00' AND "; n; " < '24:00:00'"]
    | MySql, _ => ""
    | Postgres, TTime _ => str [n; " < '24:00:00'"]
    | Postgres, _ => ""
    | Sqlite, TI16 => str [integer; " AND "; n; " BETWEEN -32768 AND 32767"]
    | Sqlite, TI32 => str [integer; " AND "; n; " BETWEEN -2147483648 AND 2147483647"]
    | Sqlite, TI64 => integer
    | Sqlite, TBool => str [n; " IN (0, 1)"]
    | Sqlite, TDecimal p _ => let limit := repeat_str "9" (Z.to_nat p) in str [integer; " AND "; n; " BETWEEN -"; limit; " AND "; limit]
    | Sqlite, TF64 => str ["typeof("; n; ") IN ('real', 'null')"]
    | Sqlite, TVarchar m => str ["length("; n; ") <= "; pretty m]
    | Sqlite, TUuid => str [n; " GLOB '"; hexClass 8; "-"; hexClass 4; "-"; hexClass 4; "-"; hexClass 4; "-"; hexClass 12; "'"]
    | Sqlite, TDate => str [n; " IS date("; n; ")"]
    | Sqlite, TTime p =>
        if decide (p = 0) then str [n; " IS time("; n; ") AND "; n; " < '24:00:00'"]
        else
          let clock := str ["substr("; n; ", 1, 8)"] in
          str ["length("; n; ") = "; pretty (9 + p); " AND "; clock; " IS time("; clock; ") AND "; clock; " < '24:00:00' AND substr("; n;
               ", 9, 1) = '.' AND substr("; n; ", 10) GLOB '"; digitClass p; "'"]
    | Sqlite, TDatetime p =>
        if decide (p = 0) then str ["length("; n; ") = 19 AND "; n; " IS datetime("; n; ") AND substr("; n; ", 12, 2) < '24'"]
        else
          let stamp := str ["substr("; n; ", 1, 19)"] in
          str ["length("; n; ") = "; pretty (20 + p); " AND "; stamp; " IS datetime("; stamp; ") AND substr("; n; ", 12, 2) < '24' AND substr("; n;
               ", 20, 1) = '.' AND substr("; n; ", 21) GLOB '"; digitClass p; "'"]
    | Sqlite, TText | Sqlite, TBytes => ""
    end.

(** ** Predicates *)

(** The type of the first column among the operands. *)
Fixpoint operandType (t : DbspecTable) (operands : list CheckOperand) : res (option DbspecType) :=
  match operands with
  | [] => Ok None
  | OpColumn n :: _ =>
      match columnOf t n with
      | Some c => Ok (Some (col_type c))
      | None => Err (JsError (str ["check column "; n; " is not a column of table "; t_name t]))
      end
  | OpLiteral _ :: operands => operandType t operands
  end.

Definition operand (type : option DbspecType) (e : CheckOperand) : string :=
  match e with OpColumn n => q n | OpLiteral t => literal type t end.

(** A check predicate of a table in the dialect. *)
Fixpoint predicate (t : DbspecTable) (e : CheckExpr) : res string :=
  match e with
  | ELogical op l r =>
      ls ← predicate t l;
      rs ← predicate t r;
      let side q s := if inParentheses op q then str ["("; s; ")"] else s in
      Ok (str [side l ls; " "; toUpperCase (opText op); " "; side r rs])
  | ECompare op l r => type ← operandType t [l; r]; Ok (str [operand type l; " "; op; " "; operand type r])
  | EIn o negated l =>
      type ← operandType t [o];
      Ok (str [operand type o; if negated then " NOT" else ""; " IN ("; join ", " (map (literal type) l); ")"])
  | EIsNull o negated => Ok (str [operand None o; " IS "; if negated then "NOT NULL" else "NULL"])
  end.

Definition checkText (t : DbspecTable) (k : DbspecCheck) : res string :=
  e ← readCheck (ck_expression k) (ck_name k);
  p ← predicate t e;
  Ok (str ["CONSTRAINT "; q (ck_name k); " CHECK ("; p; ")"]).

(** ** Tables *)

(** The type CHECK of a column, under the name that [checkName] gives. *)
Definition typeCheckText (checkName : string -> string) (c : DbspecColumn) : list string :=
  let check := typeCheck c in
  if decide (check = "") then [] else [str ["CONSTRAINT "; q (checkName (col_name c)); " CHECK ("; check; ")"]].

Definition uniqueText (u : DbspecUnique) : string := str ["CONSTRAINT "; q (un_name u); " UNIQUE ("; list_ (un_columns u); ")"].

(** The CREATE TABLE of a table under [name]; hidden columns follow its columns. *)
Definition createTable (t : DbspecTable) (name : string) (checkName : string -> string) (hidden : list DbspecColumn) : res string :=
  columns ← mapR column (t_columns t);
  hidden ← mapR (fun c => column (mkColumn (col_comments c) (col_name c) (col_type c) true false (col_default c))) hidden;
  checks ← mapR (checkText t) (sortedBy (t_checks t) ck_name);
  let key := if bool_decide (d = Sqlite) && existsb col_identity (t_columns t) then []
             else [str ["PRIMARY KEY ("; list_ (pk_columns (t_primaryKey t)); ")"]] in
  let keys := if decide (d = Sqlite) then map foreignKey (sortedBy (t_foreignKeys t) fk_name) else map uniqueText (sortedBy (t_uniques t) un_name) in
  let parts := columns ++ hidden ++ key ++ keys ++ concat (map (typeCheckText checkName) (t_columns t)) ++ checks in
  Ok (str ["CREATE TABLE "; q name; " ("; join ", " parts; ")";
           if decide (d = MySql) then " ENGINE=InnoDB DEFAULT CHARSET=utf8mb4 COLLATE=utf8mb4_0900_bin" else ""]).

Definition table (t : DbspecTable) : res (list string) :=
  create ← createTable t (t_name t) (rendererName sha256 (t_name t)) [];
  let uniques := if decide (d = Sqlite)
    then map (fun u => str ["CREATE UNIQUE INDEX "; q (un_name u); " ON "; q (t_name t); " ("; list_ (un_columns u); ")"]) (sortedBy (t_uniques t) un_name)
    else [] in
  let indexes := map (fun x => str ["CREATE INDEX "; q (ix_name x); " ON "; q (t_name t); " (";
      join ", " (map (fun c => str [q (ic_name c); if ic_descending c then " DESC" else ""]) (ix_columns x)); ")"]) (sortedBy (t_indexes t) ix_name) in
  Ok (create :: uniques ++ indexes).

(** ** Triggers *)

(** The trigger of one event, whose body is one statement. *)
Definition trigger (t : DbspecTable) (event timing body : string) (rejects : bool) : list string :=
  let name := q (rendererName sha256 (t_name t) event) in
  let on := str [" "; timing; " ON "; q (t_name t); " FOR EACH ROW "] in
  match d with
  | MySql => [str ["CREATE TRIGGER "; name; on; body]]
  | Postgres =>
      [str ["CREATE FUNCTION "; name; "() RETURNS trigger LANGUAGE plpgsql AS $$BEGIN "; body; "; "; if rejects then "END$$" else "RETURN NULL; END$$"];
       str ["CREATE TRIGGER "; name; on; "EXECUTE FUNCTION "; name; "()"]]
  | Sqlite => [str ["CREATE TRIGGER "; name; on; "BEGIN "; body; "; END"]]
  end.

Definition reject (t : DbspecTable) (event timing message : string) : list string :=
  trigger t event timing
    match d with
    | MySql => str ["SIGNAL SQLSTATE '45000' SET MESSAGE_TEXT = '"; message; "'"]
    | Postgres => str ["RAISE EXCEPTION '"; message; "'"]
    | Sqlite => str ["SELECT RAISE(ABORT, '"; message; "')"]
    end true.

Definition history (t : DbspecTable) (a : DbspecAuditSetting) (event timing action previous : string) : list string :=
  let recorded := filter (fun c => auditRecords a (col_name c) = true) (t_columns t) in
  let columns := q (au_action a) :: q (au_previous a) :: map (fun c => q (col_name c)) recorded in
  let values := action :: previous :: map (fun c => str ["NEW."; q (col_name c)]) recorded in
  let body := str ["INSERT INTO "; q (au_into a); " ("; join ", " columns; ") VALUES ("; join ", " values; ")"] in
  let body :=
    match au_tables a with
    | None => body
    | Some (table, record, name) =>
        let tables := str ["INSERT INTO "; q table; " ("; q record; ", "; q name; ") VALUES (NEW."; q (au_column a); ", '"; t_name t; "')"] in
        match d with
        | MySql => str ["BEGIN "; body; "; "; tables; " ON DUPLICATE KEY UPDATE "; q name; " = "; q name; "; END"]
        | _ => str [body; "; "; tables; " ON CONFLICT DO NOTHING"]
        end
    end in
  trigger t event timing body false.

(** The triggers of the immutable and audit settings. *)
Definition triggers (t : DbspecTable) : list string :=
  let settings := tableSettings t in
  (if existsb (fun s => bool_decide (setting_kind s = "immutable")) settings then
     let message := str ["table "; t_name t; " is immutable"] in
     reject t "immutable_update" "BEFORE UPDATE" message ++ reject t "immutable_delete" "BEFORE DELETE" message
   else []) ++
  concat (map (fun s =>
    match s with
    | SAudit a =>
        history t a "audit_insert" "AFTER INSERT" "'insert'" "NULL" ++
        history t a "audit_update" "AFTER UPDATE" "'update'" (str ["OLD."; q (au_column a)]) ++
        reject t "audit_delete" "BEFORE DELETE" (str ["table "; t_name t; " deletes through its soft delete column"])
    | _ => []
    end) settings).

End renderer.
End Renderer.

(** ** The statements of a set *)

(** One rendered statement and the table it creates or changes. *)
Record DbspecRenderedStatement := mkRendered { rs_sql : string; rs_table : string }.

Definition renderDbspecStatements (sha256 : string -> string) (documents : list DbspecDocument) (dialect : DbspecDialect)
    : res (list DbspecRenderedStatement + list DbspecDiagnostic) :=
  match snd (checkSet documents) with
  | d :: out => Ok (inr (d :: out))
  | [] =>
      order ← useOrder documents;
      let tables := concat (map doc_tables (filter (fun d => doc_external d = false) order)) in
      created ← mapR (fun t => sql ← Renderer.table sha256 dialect t; Ok (map (fun s => mkRendered s (t_name t)) sql)) tables;
      let keys := if decide (dialect = Sqlite) then []
        else concat (map (fun t => map (fun f => mkRendered (str ["ALTER TABLE "; Renderer.q dialect (t_name t); " ADD "; Renderer.foreignKey dialect f]) (t_name t))
                                   (sortedBy (t_foreignKeys t) fk_name)) tables) in
      let triggers := concat (map (fun t => map (fun s => mkRendered s (t_name t)) (Renderer.triggers sha256 dialect t)) tables) in
      Ok (inl (concat created ++ keys ++ triggers))
  end.

Definition renderDbspec (sha256 : string -> string) (documents : list DbspecDocument) (dialect : DbspecDialect) : res (list string + list DbspecDiagnostic) :=
  r ← renderDbspecStatements sha256 documents dialect;
  Ok match r with inl statements => inl (map rs_sql statements) | inr d => inr d end.
