(* ===== verification/PlanDiff.v ===== *)
(** * The diff of a plan ([dbspec/plan_diff.ts], [dbspec/plan_objects.ts])

    The changes from the source schema of a plan to its target, or the
    diagnostics of the changes the plan cannot make.  A [Map] is a list of
    entries in insertion order. *)

From S2P Require Import Prelude Documents Emit DocumentSet Check Plan Render.

(** ** Data *)

(** One change: the table is the target name, and the source name of dropped
    tables and objects. *)
Record DbspecChange := mkChange { cg_kind : string; cg_table : string; cg_name : string }.

#[global] Instance DbspecChange_eq_dec : EqDecision DbspecChange.
Proof. solve_decision. Defined.

Record ObjectRef := mkRef { or_kind : string; or_name : string }.

Record PlanDiff := mkPlanDiff {
  pd_source : list (string * DbspecTable);
  pd_target : list (string * DbspecTable);
  pd_tableOf : list (string * string);
  pd_columnOf : list (string * list (string * string));
  pd_created : list string;
  pd_dropped : list string;
  pd_matched : list string;
  pd_added : list (string * list string);
  pd_removed : list (string * list string);
  pd_altered : list (string * list string);
  pd_renamedTables : list DbspecTableRename;
  pd_renamedColumns : list DbspecColumnRename;
  pd_dropObjects : list (string * list ObjectRef);
  pd_addObjects : list (string * list ObjectRef);
  pd_triggers : list string;
  pd_changes : list DbspecChange }.

Definition sortedKeys {V} (m : list (string * V)) : list string := sort_by id (map fst m).

Definition append {V} (m : list (string * list V)) (key : string) (value : V) : list (string * list V) :=
  match assoc key m with None => assoc_set key [value] m | Some l => assoc_set key (l ++ [value]) m end.

Definition renamedOr (m : list (string * string)) (name : string) : string := default name (assoc name m).

(** [typeText(a) === typeText(b)] *)
Definition sameType (a b : DbspecType) : bool := bool_decide (typeText a = typeText b).

Definition sameDefault (a b : option DbspecDefault) : bool := bool_decide (a = b).

(** Whether a type change keeps every value on the three databases. *)
Definition widens (from to : DbspecType) : bool :=
  match from, to with
  | TI16, TI32 | TI16, TI64 | TI32, TI64 => true
  | TVarchar n, TVarchar m => n <=? m
  | TVarchar _, TText => true
  | TDecimal p s, TDecimal q s' => (s' =? s) && (p <=? q)
  | TTime p, TTime q | TDatetime p, TDatetime q => p <=? q
  | _, _ => false
  end.

Definition planError (message : string) : DbspecDiagnostic := planDiagnostic "plan" 1 message.

Definition hashOrEmpty (hash : option string) : string := default "empty" hash.

Definition tableMap (tables : list DbspecTable) : list (string * DbspecTable) :=
  foldl (fun m t => assoc_set (t_name t) t m) [] tables.

(** ** Tables *)

(** One table rename: the diagnostics, the renames by source name and the
    renames that hold. *)
Definition renameTable (source target : list (string * DbspecTable)) (acc : list DbspecDiagnostic * list (string * string) * list DbspecTableRename)
    (r : DbspecTableRename) : list DbspecDiagnostic * list (string * string) * list DbspecTableRename :=
  let '(out, renamedFrom, renamed) := acc in
  let error message := (out ++ [planError (str ["rename table "; tr_old r; ": "; message])], renamedFrom, renamed) in
  if negb (bool_decide (is_Some (assoc (tr_old r) source))) then error (str ["the source has no table "; tr_old r])
  else if bool_decide (is_Some (assoc (tr_new r) source)) then error (str ["the source already has a table "; tr_new r])
  else if negb (bool_decide (is_Some (assoc (tr_new r) target))) then error (str ["the target has no table "; tr_new r])
  else (out, assoc_set (tr_old r) (tr_new r) renamedFrom, renamed ++ [r]).

(** The source tables in name order: matched with a target table, or dropped. *)
Definition matchTable (target : list (string * DbspecTable)) (renamedFrom : list (string * string)) (acc : list (string * string) * list string)
    (name : string) : list (string * string) * list string :=
  let '(tableOf, dropped) := acc in
  let t := renamedOr renamedFrom name in
  if assoc t target then (assoc_set t name tableOf, dropped) else (tableOf, dropped ++ [name]).

(** The errors of table permissions. *)
Definition dropErrors (dropTables dropped : list string) : list DbspecDiagnostic :=
  concat (map (fun t => if includes t dropped then [] else [planError (str ["allow drop table "; t; " drops nothing"])]) dropTables) ++
  concat (map (fun t => if includes t dropTables then [] else [planError (str ["table "; t; " is dropped without allow drop table "; t])]) dropped).

(** ** Columns *)

(** [d.source.get(d.tableOf.get(name))], present *)
Definition sourceTable (source : list (string * DbspecTable)) (tableOf : list (string * string)) (name : string) : res DbspecTable :=
  s ← present (assoc name tableOf) "d.tableOf.get(name)";
  present (assoc s source) "d.source.get(d.tableOf.get(name))".

(** One column rename: as [renameTable], the renames by target table. *)
Definition renameColumn (source target : list (string * DbspecTable)) (tableOf : list (string * string))
    (acc : list DbspecDiagnostic * list (string * list (string * string)) * list DbspecColumnRename) (r : DbspecColumnRename)
    : res (list DbspecDiagnostic * list (string * list (string * string)) * list DbspecColumnRename) :=
  let '(out, renamedColumn, renamed) := acc in
  let error message := Ok (out ++ [planError (str ["rename column "; cr_table r; "."; cr_old r; ": "; message])], renamedColumn, renamed) in
  match assoc (cr_table r) tableOf with
  | None => error (str [cr_table r; " is not a table of both schemas"])
  | Some src =>
      st ← present (assoc src source) "d.source.get(src)";
      if negb (bool_decide (is_Some (columnOf st (cr_old r)))) then error (str ["the source table has no column "; cr_old r])
      else if bool_decide (is_Some (columnOf st (cr_new r))) then error (str ["the source table already has a column "; cr_new r])
      else
        tt_ ← present (assoc (cr_table r) target) "d.target.get(r.table)";
        if negb (bool_decide (is_Some (columnOf tt_ (cr_new r)))) then error (str ["the target table has no column "; cr_new r])
        else Ok (out, assoc_set (cr_table r) (assoc_set (cr_old r) (cr_new r) (default [] (assoc (cr_table r) renamedColumn))) renamedColumn, renamed ++ [r])
  end.

(** What the loop gathers of one matched table. *)
Record TableDiff := mkTableDiff {
  td_out : list DbspecDiagnostic;
  td_used : list string;
  td_columns : list (string * string);
  td_added : list string;
  td_removed : list string;
  td_altered : list string }.

(** A source column: kept under its target name, or removed. *)
Definition sourceColumn (src tgt : DbspecTable) (renames : list (string * string)) (allowed : list string) (s : TableDiff) (c : DbspecColumn) : TableDiff :=
  let n := renamedOr renames (col_name c) in
  match columnOf tgt n with
  | Some _ => mkTableDiff (td_out s) (td_used s) (assoc_set n (col_name c) (td_columns s)) (td_added s) (td_removed s) (td_altered s)
  | None =>
      let ref := columnPath (t_name src) (col_name c) in
      let out := if includes ref allowed then [] else [planError (str ["column "; ref; " is dropped without allow drop column "; ref])] in
      mkTableDiff (td_out s ++ out) (set_add ref (td_used s)) (td_columns s) (td_added s) (td_removed s ++ [col_name c]) (td_altered s)
  end.

Definition addedErrors (name : string) (c : DbspecColumn) : list DbspecDiagnostic :=
  (if negb (col_nullable c) && negb (bool_decide (is_Some (col_default c)))
   then [planError (str ["column "; name; "."; col_name c; " is added non-null without a default; add it null, fill it, and make it non-null in a later plan"])]
   else []) ++
  (if col_identity c then [planError (str ["column "; name; "."; col_name c; " adds an identity, which changes the primary key"])] else []).

(** A target column: added, or matched with a source column. *)
Definition targetColumn (name : string) (src : DbspecTable) (s : TableDiff) (c : DbspecColumn) : res TableDiff :=
  let fails message := Ok (mkTableDiff (td_out s ++ [planError (str ["column "; name; "."; col_name c; message])]) (td_used s) (td_columns s) (td_added s)
                             (td_removed s) (td_altered s)) in
  match assoc (col_name c) (td_columns s) with
  | None => Ok (mkTableDiff (td_out s ++ addedErrors name c) (td_used s) (td_columns s) (td_added s ++ [col_name c]) (td_removed s) (td_altered s))
  | Some old =>
      sc ← present (columnOf src old) "columnOf(src, old)";
      if negb (Bool.eqb (col_identity sc) (col_identity c)) then fails " changes identity; it needs a new table"
      else if negb (sameType (col_type sc) (col_type c)) && negb (widens (col_type sc) (col_type c))
      then fails (str [" changes type from "; typeText (col_type sc); " to "; typeText (col_type c); ", which does not keep every value; it needs a new column"])
      else if negb (sameType (col_type sc) (col_type c)) || negb (Bool.eqb (col_nullable sc) (col_nullable c)) || negb (sameDefault (col_default sc) (col_default c))
      then Ok (mkTableDiff (td_out s) (td_used s) (td_columns s) (td_added s) (td_removed s) (td_altered s ++ [col_name c]))
      else Ok s
  end.

(** The position of the last target column that is kept, or -1. *)
Definition lastKept (kept : string -> bool) (columns : list DbspecColumn) : Z :=
  foldl (fun last e => if kept (col_name (snd e)) then Z.of_nat (fst e) else last) (-1) (zip (seq 0 (length columns)) columns).

(** The errors of the order of columns and of the primary key. *)
Definition orderErrors (name : string) (src tgt : DbspecTable) (renames columns : list (string * string)) : list DbspecDiagnostic :=
  let isKept n := bool_decide (is_Some (assoc n columns)) in
  let kept := filter (fun n => bool_decide (is_Some (columnOf tgt n)) = true) (map (fun c => renamedOr renames (col_name c)) (t_columns src)) in
  let keptTarget := filter (fun n => isKept n = true) (map col_name (t_columns tgt)) in
  let last := lastKept isKept (t_columns tgt) in
  (if decide (kept = keptTarget) then [] else [planError (str ["table "; name; " reorders its columns; columns keep their order"])]) ++
  concat (map (fun e => if negb (isKept (col_name (snd e))) && (Z.of_nat (fst e) <? last)
                        then [planError (str ["column "; name; "."; col_name (snd e); " is added before a kept column; added columns come last"])] else [])
              (zip (seq 0 (length (t_columns tgt))) (t_columns tgt))) ++
  (if decide (map (renamedOr renames) (pk_columns (t_primaryKey src)) = pk_columns (t_primaryKey tgt)) then []
   else [planError (str ["table "; name; " changes its primary key; it needs a new table"])]).

Definition tableDiff (name : string) (src tgt : DbspecTable) (renames : list (string * string)) (allowed : list string) : res TableDiff :=
  let s := foldl (sourceColumn src tgt renames allowed) (mkTableDiff [] [] [] [] [] []) (t_columns src) in
  s ← foldR (targetColumn name src) s (t_columns tgt);
  Ok (mkTableDiff (td_out s ++ orderErrors name src tgt renames (td_columns s)) (td_used s) (td_columns s) (td_added s) (td_removed s) (td_altered s)).

(** ** Objects *)

Section find.
Variable t : DbspecTable.
Definition uniqueOf (name : string) : option DbspecUnique := List.find (fun u => bool_decide (un_name u = name)) (t_uniques t).
Definition indexOf (name : string) : option DbspecIndex := List.find (fun x => bool_decide (ix_name x = name)) (t_indexes t).
Definition foreignKeyOf (name : string) : option DbspecForeignKey := List.find (fun f => bool_decide (fk_name f = name)) (t_foreignKeys t).
Definition checkOf (name : string) : option DbspecCheck := List.find (fun k => bool_decide (ck_name k = name)) (t_checks t).
End find.

Definition indexDef (x : DbspecIndex) (f : string -> string) : string :=
  str (map (fun c => str [f (ic_name c); if ic_descending c then " desc" else ""; ","]) (ix_columns x)).

Definition foreignKeyDef (cols : list string) (parent : string) (refs : list string) (f : DbspecForeignKey) : string :=
  str [join "," cols; ">"; parent; "("; join "," refs; ")"; actionText (fk_onDelete f); "/"; actionText (fk_onUpdate f)].

Definition uniqueDef (u : DbspecUnique) (f : string -> string) : string := join "," (map f (un_columns u)).

(** The renames and changed columns that the comparison of objects reads:
    changed columns are paths of target names. *)
Record ObjectScope := mkScope {
  os_targetTable : string -> string;
  os_column : string -> string -> string;
  os_altered : list string;
  os_renamed : list string }.

Section objects.
Context (sc : ObjectScope) (name : string) (src tgt : DbspecTable).

(** The source column [c] under its target name. *)
Definition renamedColumn (c : string) : string := os_column sc name c.

(** The columns of the dropped unique keys and indexes, in the order of the loops. *)
Definition droppedUnique (u : DbspecUnique) : bool :=
  match uniqueOf tgt (un_name u) with Some t => negb (bool_decide (join "," (un_columns t) = uniqueDef u renamedColumn)) | None => true end.
Definition droppedIndex (x : DbspecIndex) : bool :=
  match indexOf tgt (ix_name x) with Some t => negb (bool_decide (indexDef x renamedColumn = indexDef t id)) | None => true end.
Definition droppedKeys : list string :=
  map (fun u => uniqueDef u renamedColumn) (filter (fun u => droppedUnique u = true) (t_uniques src)) ++
  map (fun x => join "," (map (fun c => renamedColumn (ic_name c)) (ix_columns x))) (filter (fun x => droppedIndex x = true) (t_indexes src)).

Definition forcedFK (cols : list string) (parent : string) (refs : list string) : bool :=
  existsb (fun c => includes (columnPath name c) (os_altered sc)) cols ||
  existsb (fun c => includes (columnPath parent c) (os_altered sc)) refs ||
  existsb (fun k => starts_with (str [join "," cols; ","]) (str [k; ","])) droppedKeys.

(** A source foreign key under the target names. *)
Definition sourceForeignKey (f : DbspecForeignKey) : list string * string * list string :=
  let parent := os_targetTable sc (fk_table f) in (map renamedColumn (fk_columns f), parent, map (os_column sc parent) (fk_references f)).

Definition keptForeignKey (s t : DbspecForeignKey) : bool :=
  let '(cols, parent, refs) := sourceForeignKey s in
  bool_decide (foreignKeyDef cols parent refs s = foreignKeyDef (fk_columns t) (fk_table t) (fk_references t) t) && negb (forcedFK cols parent refs).

Definition forcedCheck (k : DbspecCheck) : res bool :=
  e ← checkTree k;
  Ok (existsb (fun c => includes (columnPath name c) (os_renamed sc) || includes (columnPath name c) (os_altered sc)) (exprColumns e)).

(** Whether a check of both tables is dropped and added again. *)
Definition changedCheck (s t : DbspecCheck) : res bool :=
  es ← checkTree s;
  et ← checkTree t;
  if negb (bool_decide (exprText es renamedColumn = exprText et id)) then Ok true else forcedCheck t.

Definition refsOf {A} (kind : string) (nameOf : A -> string) (l : list A) : list ObjectRef := map (fun a => mkRef kind (nameOf a)) l.

(** [filter] with a predicate that throws. *)
Fixpoint filterR {A} (p : A -> res bool) (l : list A) : res (list A) :=
  match l with [] => Ok [] | x :: l => b ← p x; r ← filterR p l; Ok (if b : bool then x :: r else r) end.

(** The objects of the source table to drop. *)
Definition dropsOf : res (list ObjectRef) :=
  checks ← filterR (fun k => match checkOf tgt (ck_name k) with Some t => changedCheck k t | None => Ok true end) (t_checks src);
  Ok (refsOf "unique" un_name (filter (fun u => droppedUnique u = true) (t_uniques src)) ++
      refsOf "index" ix_name (filter (fun x => droppedIndex x = true) (t_indexes src)) ++
      refsOf "foreign_key" fk_name
        (filter (fun f => match foreignKeyOf tgt (fk_name f) with Some t => negb (keptForeignKey f t) | None => true end = true) (t_foreignKeys src)) ++
      refsOf "check" ck_name checks).

(** The objects of the target table to add. *)
Definition addsOf : res (list ObjectRef) :=
  checks ← filterR (fun k => match checkOf src (ck_name k) with Some s => changedCheck s k | None => Ok true end) (t_checks tgt);
  Ok (refsOf "unique" un_name
        (filter (fun u => match uniqueOf src (un_name u) with Some s => negb (bool_decide (uniqueDef s renamedColumn = join "," (un_columns u))) | None => true end = true)
           (t_uniques tgt)) ++
      refsOf "index" ix_name
        (filter (fun x => match indexOf src (ix_name x) with Some s => negb (bool_decide (indexDef s renamedColumn = indexDef x id)) | None => true end = true)
           (t_indexes tgt)) ++
      refsOf "foreign_key" fk_name
        (filter (fun f => match foreignKeyOf src (fk_name f) with Some s => negb (keptForeignKey s f) | None => true end = true) (t_foreignKeys tgt)) ++
      refsOf "check" ck_name checks).
End objects.

(** [compareRef]: by kind and name. *)
Definition refKey (o : ObjectRef) : string := str [or_kind o; String (ascii_of_nat 0) ""; or_name o].

Definition appendAll {V} (m : list (string * list V)) (key : string) (l : list V) : list (string * list V) := foldl (fun m v => append m key v) m l.

Definition diffObjects (d : PlanDiff) (renamedFrom : list (string * string)) (renamedColumns : list (string * list (string * string)))
    : res (list (string * list ObjectRef) * list (string * list ObjectRef)) :=
  let sc := mkScope (renamedOr renamedFrom) (fun target c => renamedOr (default [] (assoc target renamedColumns)) c)
              (concat (map (fun e => map (columnPath (fst e)) (snd e)) (pd_altered d)))
              (concat (map (fun e => map (fun r => columnPath (fst e) (snd r)) (snd e)) renamedColumns)) in
  r ← foldR (fun acc name =>
        let '(drops, adds) := acc in
        src ← sourceTable (pd_source d) (pd_tableOf d) name;
        tgt ← present (assoc name (pd_target d)) "d.target.get(name)";
        ds ← dropsOf sc name src tgt;
        ads ← addsOf sc name src tgt;
        Ok (appendAll drops (t_name src) ds, appendAll adds name ads)) ([], []) (pd_matched d);
  let '(drops, adds) := r in
  drops ← foldR (fun drops name =>
        t ← present (assoc name (pd_source d)) "d.source.get(name)";
        Ok (appendAll drops name (refsOf "foreign_key" fk_name (t_foreignKeys t)))) drops (pd_dropped d);
  let sorted m := map (fun e => (fst e, sort_by refKey (snd e))) m in
  Ok (sorted drops, sorted adds).

(** The matched tables whose triggers differ in a dialect. *)
Definition diffTriggers (sha256 : string -> string) (d : PlanDiff) : res (list string) :=
  foldR (fun out name =>
    src ← sourceTable (pd_source d) (pd_tableOf d) name;
    tgt ← present (assoc name (pd_target d)) "d.target.get(name)";
    Ok (if existsb (fun dialect => negb (bool_decide (Renderer.triggers sha256 dialect src = Renderer.triggers sha256 dialect tgt))) [MySql; Postgres; Sqlite]
        then set_add name out else out)) [] (pd_matched d).

(** Whether the table has a setting that renders triggers. *)
Definition hasTriggers (t : DbspecTable) : bool := existsb (fun s => includes (setting_kind s) ["immutable"; "audit"]) (tableSettings t).

(** The changes of the objects, each under its table. *)
Definition objectChanges (prefix : string) (m : list (string * list ObjectRef)) : list DbspecChange :=
  concat (map (fun key => map (fun o => mkChange (str [prefix; or_kind o]) key (or_name o)) (default [] (assoc key m))) (sortedKeys m)).

Definition collectChanges (d : PlanDiff) : res (list DbspecChange) :=
  dropped ← mapR (fun name => src ← sourceTable (pd_source d) (pd_tableOf d) name;
                   Ok (if includes name (pd_triggers d) && hasTriggers src then [mkChange "drop_triggers" (default "" (assoc name (pd_tableOf d))) ""] else [])) (pd_matched d);
  removed ← mapR (fun name => s ← present (assoc name (pd_tableOf d)) "d.tableOf.get(name)";
                   Ok (map (mkChange "drop_column" s) (default [] (assoc name (pd_removed d))))) (pd_matched d);
  created ← mapR (fun name => tgt ← present (assoc name (pd_target d)) "d.target.get(name)";
                   Ok (if includes name (pd_triggers d) && hasTriggers tgt then [mkChange "create_triggers" name ""] else [])) (pd_matched d);
  Ok (concat dropped ++
      objectChanges "drop_" (pd_dropObjects d) ++
      map (fun r => mkChange "rename_table" (tr_old r) (tr_new r)) (sortedBy (pd_renamedTables d) tr_old) ++
      map (fun r => mkChange "rename_column" (cr_table r) (str [cr_old r; " "; cr_new r])) (sortedBy (pd_renamedColumns d) (fun r => columnPath (cr_table r) (cr_old r))) ++
      concat removed ++
      map (fun name => mkChange "drop_table" name "") (pd_dropped d) ++
      map (fun name => mkChange "create_table" name "") (pd_created d) ++
      concat (map (fun name => map (mkChange "add_column" name) (default [] (assoc name (pd_added d))) ++
                               map (mkChange "alter_column" name) (default [] (assoc name (pd_altered d)))) (pd_matched d)) ++
      objectChanges "add_" (pd_addObjects d) ++
      concat created).

(** ** The diff *)

(** The matched tables, each with its column differences. *)
Definition matchedDiffs (source target : list (string * DbspecTable)) (tableOf : list (string * string))
    (renamedColumns : list (string * list (string * string))) (allowed : list string) (matched : list string) : res (list (string * TableDiff)) :=
  mapR (fun name =>
    src ← sourceTable source tableOf name;
    tgt ← present (assoc name target) "d.target.get(name)";
    t ← tableDiff name src tgt (default [] (assoc name renamedColumns)) allowed;
    Ok (name, t)) matched.

Definition columnLists (get_ : TableDiff -> list string) (tables : list (string * TableDiff)) : list (string * list string) :=
  foldl (fun m e => appendAll m (fst e) (get_ (snd e))) [] tables.

Definition planDiff (sha256 : string -> string) (source : option DbspecDocument) (p : DbspecPlan) : res (PlanDiff + list DbspecDiagnostic) :=
  match (match source with
         | None => inl None
         | Some s => match dbspecManifest sha256 [s] with inl m => inl (Some (mf_schemaHash m)) | inr d => inr d end
         end) with
  | inr d => Ok (inr d)
  | inl from =>
      if negb (bool_decide (from = p_from p))
      then Ok (inr [planError (str ["the plan starts from "; hashOrEmpty (p_from p); ", and the source schema is "; hashOrEmpty from])])
      else
        let h := p_header p in
        let src := match source with Some s => tableMap (doc_tables s) | None => [] end in
        let tgt := tableMap (doc_tables (p_schema p)) in
        let '(out1, renamedFrom, renamedTables) := foldl (renameTable src tgt) ([], [], []) (sortedBy (h_renameTables h) tr_old) in
        let '(tableOf, dropped) := foldl (matchTable tgt renamedFrom) ([], []) (sortedKeys src) in
        let matched := filter (fun name => is_Some (assoc name tableOf)) (sortedKeys tgt) in
        let created := filter (fun name => ~ is_Some (assoc name tableOf)) (sortedKeys tgt) in
        let out2 := dropErrors (h_dropTables h) dropped in
        r ← foldR (renameColumn src tgt tableOf) ([], [], []) (sortedBy (h_renameColumns h) (fun r => columnPath (cr_table r) (cr_old r)));
        let '(out3, renamedColumns, renamed) := r in
        tables ← matchedDiffs src tgt tableOf renamedColumns (map (fun c => columnPath (cn_table c) (cn_name c)) (h_dropColumns h)) matched;
        let used := concat (map (fun e => td_used (snd e)) tables) in
        let out4 := concat (map (fun e => td_out (snd e)) tables) in
        let out5 := concat (map (fun c => if includes (columnPath (cn_table c) (cn_name c)) used then []
                                          else [planError (str ["allow drop column "; columnPath (cn_table c) (cn_name c); " drops nothing"])]) (h_dropColumns h)) in
        match out1 ++ out2 ++ out3 ++ out4 ++ out5 with
        | e :: out => Ok (inr (e :: out))
        | [] =>
            let d := mkPlanDiff src tgt tableOf (map (fun e => (fst e, td_columns (snd e))) tables) created dropped matched
                       (columnLists td_added tables) (columnLists td_removed tables) (columnLists td_altered tables) renamedTables renamed [] [] [] [] in
            objects ← diffObjects d renamedFrom renamedColumns;
            triggers ← diffTriggers sha256 d;
            let d := mkPlanDiff (pd_source d) (pd_target d) (pd_tableOf d) (pd_columnOf d) (pd_created d) (pd_dropped d) (pd_matched d)
                       (pd_added d) (pd_removed d) (pd_altered d) (pd_renamedTables d) (pd_renamedColumns d) (fst objects) (snd objects) triggers [] in
            changes ← collectChanges d;
            Ok (inl (mkPlanDiff (pd_source d) (pd_target d) (pd_tableOf d) (pd_columnOf d) (pd_created d) (pd_dropped d) (pd_matched d)
                       (pd_added d) (pd_removed d) (pd_altered d) (pd_renamedTables d) (pd_renamedColumns d) (pd_dropObjects d) (pd_addObjects d)
                       (pd_triggers d) changes))
        end
  end.

Definition diffPlan (sha256 : string -> string) (source : option DbspecDocument) (plan : DbspecPlan) : res (list DbspecChange + list DbspecDiagnostic) :=
  r ← planDiff sha256 source plan;
  Ok match r with inl d => inl (pd_changes d) | inr e => inr e end.
