(* ===== verification/PlanDiffFacts.v ===== *)
(** * What an accepted plan diff keeps

    A plan whose diff has no diagnostic keeps the values of every kept column,
    in the order of the columns, and drops only what it permits. *)

From S2P Require Import Prelude Documents Emit DocumentSet Keys DocumentFacts Check Plan PlanFacts Render PlanDiff.
From Stdlib Require Import Lia.

(** ** Values *)

(** A stored value: of an integer, boolean, float, byte, uuid or date column, a
    text of so many characters, a decimal in units of its scale, or a time or
    datetime with so many fraction digits. *)
Inductive Stored :=
  | VInt (z : Z) | VBool | VFloat | VBytes | VUuid | VDate
  | VText (characters : Z)
  | VDecimal (units scale : Z)
  | VTime (digits : Z)
  | VDatetime (digits : Z).

(** What a column of a type holds. *)
Definition holds (t : DbspecType) (v : Stored) : Prop :=
  match t, v with
  | TI16, VInt z => - 2 ^ 15 <= z < 2 ^ 15
  | TI32, VInt z => - 2 ^ 31 <= z < 2 ^ 31
  | TI64, VInt z => - 2 ^ 63 <= z < 2 ^ 63
  | TBool, VBool | TF64, VFloat | TBytes, VBytes | TUuid, VUuid | TDate, VDate | TText, VText _ => True
  | TVarchar n, VText m => m <= n
  | TDecimal p s, VDecimal u s' => s' = s /\ Z.abs u < 10 ^ p
  | TTime p, VTime n | TDatetime p, VDatetime n => n <= p
  | _, _ => False
  end.

Lemma widens_holds a b v : widens a b = true -> holds a v -> holds b v.
Proof.
  destruct a, b; try done; cbn [widens]; intros Hw; destruct v; try done; cbn [holds]; rewrite ?andb_true_iff, ?Z.leb_le, ?Z.eqb_eq in Hw; try lia.
  destruct Hw as [-> Hp]. intros [-> Hu]. split; [done|]. destruct (Z.le_gt_cases 0 precision) as [H0|H0].
  - pose proof (Z.pow_le_mono_r 10 precision precision0 ltac:(lia) Hp). lia.
  - rewrite (Z.pow_neg_r 10 precision) in Hu by lia. lia.
Qed.

(** ** One table *)

(** What a target table keeps of its source table: [columns] maps each kept
    target column to its source column. *)
Record keepsRows (src tgt : DbspecTable) (renames columns : list (string * string)) (added removed allowed : list string) : Prop := {
  kr_order : map col_name (t_columns tgt) = map fst columns ++ added;
  kr_source : map snd columns = filter (fun n => n ∉ removed) (map col_name (t_columns src));
  kr_names : forall n old, (n, old) ∈ columns -> n = renamedOr renames old;
  kr_values : forall n old, (n, old) ∈ columns -> exists sc c, columnOf src old = Some sc /\ columnOf tgt n = Some c /\
    col_identity sc = col_identity c /\ forall v, holds (col_type sc) v -> holds (col_type c) v;
  kr_added : forall c, c ∈ t_columns tgt -> col_name c ∈ added -> (col_nullable c = true \/ is_Some (col_default c)) /\ col_identity c = false;
  kr_removed : forall n, n ∈ removed -> n ∈ map col_name (t_columns src) /\ columnPath (t_name src) n ∈ allowed;
  kr_key : map (renamedOr renames) (pk_columns (t_primaryKey src)) = pk_columns (t_primaryKey tgt)
}.

Section table.
Context (name : string) (src tgt : DbspecTable) (renames : list (string * string)) (allowed : list string).

Definition keptIn (n : string) : bool := bool_decide (is_Some (columnOf tgt n)).

(** The source columns that stay, and their target names. *)
Definition keptNames (l : list DbspecColumn) : list string := filter (fun n => keptIn n = true) (map (fun c => renamedOr renames (col_name c)) l).
Definition keptPairs (l : list DbspecColumn) : list (string * string) :=
  map (fun c => (renamedOr renames (col_name c), col_name c)) (filter (fun c => keptIn (renamedOr renames (col_name c)) = true) l).
Definition goneNames (l : list DbspecColumn) : list string :=
  map col_name (filter (fun c => keptIn (renamedOr renames (col_name c)) = false) l).

Lemma keptPairs_names l : map fst (keptPairs l) = keptNames l.
Proof.
  unfold keptPairs, keptNames. induction l as [|c l IH]; [done|]. cbn [map]. rewrite !filter_cons.
  destruct (decide (keptIn (renamedOr renames (col_name c)) = true)); cbn [map fst]; [by f_equal|done].
Qed.

Lemma sourceColumns_fold l : forall s,
  (forall n, n ∈ keptNames l -> n ∉ map fst (td_columns s)) -> NoDup (keptNames l) ->
  let s' := foldl (sourceColumn src tgt renames allowed) s l in
  td_columns s' = td_columns s ++ keptPairs l /\ td_removed s' = td_removed s ++ goneNames l /\ td_added s' = td_added s /\
  (td_out s' = [] -> td_out s = [] /\ forall n, n ∈ goneNames l -> columnPath (t_name src) n ∈ allowed).
Proof.
  induction l as [|c l IH]; intros s Hf Hn.
  { cbn zeta. rewrite !app_nil_r. split_and!; [done|done|done|]. intros E. split; [done|by intros ? []%elem_of_nil]. }
  unfold keptNames, keptPairs, goneNames in *. cbn [map foldl] in *. rewrite filter_cons in Hf, Hn. rewrite !filter_cons.
  set (n := renamedOr renames (col_name c)) in *.
  destruct (keptIn n) eqn:Ek; unfold keptIn in Ek; (apply bool_decide_eq_true in Ek as [tc Ec] || apply bool_decide_eq_false in Ek).
  - rewrite decide_True in Hf, Hn by done. rewrite decide_True by done. rewrite decide_False by done. apply NoDup_cons in Hn as [Hni Hn].
    unfold sourceColumn at 2 4 6 8. fold n. rewrite Ec.
    destruct (IH (mkTableDiff (td_out s) (td_used s) (assoc_set n (col_name c) (td_columns s)) (td_added s) (td_removed s) (td_altered s))) as (H1 & H2 & H3 & H4).
    + intros m Hm [->|Hm']%assoc_set_fst; [done|]. by apply (Hf m); [right|].
    + done.
    + cbn [td_columns td_removed td_out td_added] in *. rewrite H1, H2, H3. split_and!; [|done|done|done].
      rewrite assoc_set_new by (apply assoc_None, Hf; by left). by rewrite <- app_assoc.
  - rewrite decide_False in Hf, Hn by done. rewrite decide_False by done. rewrite decide_True by done.
    assert (Ec : columnOf tgt n = None) by (destruct (columnOf tgt n); [by destruct Ek|done]).
    unfold sourceColumn at 2 4 6 8. fold n. rewrite Ec.
    destruct (IH (mkTableDiff (td_out s ++ (if includes (columnPath (t_name src) (col_name c)) allowed then []
        else [planError (str ["column "; columnPath (t_name src) (col_name c); " is dropped without allow drop column "; columnPath (t_name src) (col_name c)])]))
        (set_add (columnPath (t_name src) (col_name c)) (td_used s)) (td_columns s) (td_added s) (td_removed s ++ [col_name c]) (td_altered s)))
      as (H1 & H2 & H3 & H4); [done|done|].
    cbn [td_columns td_removed td_out td_added] in *. rewrite H1, H2, H3. split_and!; [done|by rewrite <- app_assoc|done|].
    intros Ho. destruct (H4 Ho) as [Hs Hall]. apply app_nil in Hs as [Hs Hi]. split; [done|].
    intros m [->|Hm]%elem_of_cons; [|by apply Hall]. destruct (includes _ allowed) eqn:E; [|done]. by apply includes_elem.
Qed.

(** What one target column may be: an added column, or the kept column of [old]. *)
Definition columnAccepted (columns : list (string * string)) (c : DbspecColumn) : Prop :=
  match assoc (col_name c) columns with
  | None => addedErrors name c = []
  | Some old => exists sc, columnOf src old = Some sc /\ col_identity sc = col_identity c /\
                  (sameType (col_type sc) (col_type c) = true \/ widens (col_type sc) (col_type c) = true)
  end.

Lemma targetColumn_spec s c s' : targetColumn name src s c = Ok s' ->
  td_columns s' = td_columns s /\ td_removed s' = td_removed s /\
  td_added s' = td_added s ++ (if assoc (col_name c) (td_columns s) then [] else [col_name c]) /\
  (td_out s' = [] -> td_out s = [] /\ columnAccepted (td_columns s) c).
Proof.
  unfold targetColumn, columnAccepted. destruct (assoc (col_name c) (td_columns s)) as [old|].
  2: { intros [= <-]. split_and!; [done|done|done|]. cbn [td_out]. intros H%app_nil. tauto. }
  rewrite app_nil_r. destruct (columnOf src old) as [sc|]; [|done]. unfold present, mbind, res_bind.
  destruct (Bool.eqb (col_identity sc) (col_identity c)) eqn:Ei; cbn [negb].
  2: { intros [= <-]. split_and!; [done|done|done|]. cbn [td_out]. intros H%app_nil. by destruct H. }
  apply eqb_prop in Ei.
  destruct (sameType (col_type sc) (col_type c)) eqn:Es; cbn [negb andb orb]; [|destruct (widens (col_type sc) (col_type c)) eqn:Ew; cbn [negb]].
  3: { intros [= <-]. split_and!; [done|done|done|]. cbn [td_out]. intros H%app_nil. by destruct H. }
  - intros Hs. assert (H : td_columns s' = td_columns s /\ td_removed s' = td_removed s /\ td_added s' = td_added s /\ td_out s' = td_out s).
    { by destruct (negb _ || negb _); injection Hs as <-. }
    destruct H as (-> & -> & -> & ->). split_and!; [done|done|done|]. intros Ho. split; [done|]. exists sc. auto.
  - intros [= <-]. split_and!; [done|done|done|]. cbn [td_out]. intros Ho. split; [done|]. exists sc. auto.
Qed.

Lemma targetColumns_fold l : forall s s', foldR (targetColumn name src) s l = Ok s' ->
  td_columns s' = td_columns s /\ td_removed s' = td_removed s /\
  td_added s' = td_added s ++ filter (fun n => assoc n (td_columns s) = None) (map col_name l) /\
  (td_out s' = [] -> td_out s = [] /\ forall c, c ∈ l -> columnAccepted (td_columns s) c).
Proof.
  induction l as [|c l IH]; intros s s' H.
  { injection H as <-. rewrite app_nil_r. split_and!; [done|done|done|]. intros E. split; [done|by intros ? []%elem_of_nil]. }
  cbn [foldR] in H. unfold mbind, res_bind in H. destruct (targetColumn name src s c) as [s1|] eqn:E; [|done].
  apply targetColumn_spec in E as (C1 & R1 & A1 & O1). apply IH in H as (C2 & R2 & A2 & O2). rewrite C1 in *. split_and!; [done|congruence| |].
  - rewrite A2, A1. cbn [map]. rewrite filter_cons, <- app_assoc. f_equal. destruct (assoc (col_name c) (td_columns s)); [by rewrite decide_False|by rewrite decide_True].
  - intros Ho. destruct (O2 Ho) as [Ho1 Hl]. destruct (O1 Ho1) as [Hs Hc]. split; [done|]. intros c' [->|Hc']%elem_of_cons; auto.
Qed.
End table.

(** ** The order of columns *)

Lemma lastKept_ge kept l j c : l !! j = Some c -> kept (col_name c) = true -> Z.of_nat j <= lastKept kept l.
Proof.
  assert (H : forall l i last, (forall j c, l !! j = Some c -> kept (col_name c) = true ->
      Z.of_nat (i + j) <= foldl (fun last e => if kept (col_name (snd e)) then Z.of_nat (fst e) else last) last (zip (seq i (length l)) l)) /\
      (last < Z.of_nat i -> last <= foldl (fun last e => if kept (col_name (snd e)) then Z.of_nat (fst e) else last) last (zip (seq i (length l)) l))).
  { clear. induction l as [|x l IH]; intros i last; [by split|]. cbn [length seq zip zip_with foldl fst snd].
    destruct (IH (S i) (if kept (col_name x) then Z.of_nat i else last)) as [H1 H2]. split.
    - intros [|j] c Hc Hk; simpl in Hc.
      + injection Hc as ->. rewrite Nat.add_0_r. rewrite Hk in *. apply H2. lia.
      + replace (i + S j)%nat with (S i + j)%nat by lia. by eapply H1.
    - intros Hl. destruct (kept (col_name x)); [|apply H2; lia]. etransitivity; [|apply H2; lia]. lia. }
  intros Hc Hk. destruct (H l 0%nat (-1)) as [H1 _]. by apply (H1 j c).
Qed.

(** A list whose members of one kind all come first. *)
Lemma split_kinds {A} (p : A -> bool) l : (forall i j x y, (i < j)%nat -> l !! i = Some x -> l !! j = Some y -> p x = false -> p y = false) ->
  l = filter (fun x => p x = true) l ++ filter (fun x => p x = false) l.
Proof.
  induction l as [|x l IH]; [done|]. intros H. rewrite !filter_cons. destruct (p x) eqn:E.
  - rewrite decide_True by done. rewrite decide_False by done. cbn [app]. f_equal. apply IH. intros i j y z Hij Hy Hz. apply (H (S i) (S j)); [lia|done|done].
  - rewrite decide_False by done. rewrite decide_True by done.
    assert (Hall : forall y, y ∈ l -> p y = false).
    { intros y [j Hj]%list_elem_of_lookup. by apply (H 0%nat (S j) x y ltac:(lia)). }
    assert (filter (fun x => p x = true) l = []) as ->.
    { destruct (filter (fun x => p x = true) l) as [|y k] eqn:Ef; [done|]. exfalso.
      assert (Hy : y ∈ filter (fun x => p x = true) l) by (rewrite Ef; by left). apply list_elem_of_filter in Hy as [Hp Hy]. rewrite Hall in Hp by done. done. }
    cbn [app]. f_equal. symmetry. clear -Hall. induction l as [|y l IH]; [done|]. rewrite filter_cons, decide_True by (apply Hall; by left).
    f_equal. apply IH. intros; apply Hall; by right.
Qed.

Lemma orderErrors_none name src tgt renames columns : orderErrors name src tgt renames columns = [] ->
  keptNames tgt renames (t_columns src) = filter (fun n => is_Some (assoc n columns)) (map col_name (t_columns tgt)) /\
  map col_name (t_columns tgt) = filter (fun n => is_Some (assoc n columns)) (map col_name (t_columns tgt)) ++
    filter (fun n => assoc n columns = None) (map col_name (t_columns tgt)) /\
  map (renamedOr renames) (pk_columns (t_primaryKey src)) = pk_columns (t_primaryKey tgt).
Proof.
  unfold orderErrors. rewrite !app_nil, concat_nil_iff. intros (Hk & Ho & Hp).
  set (isKept n := bool_decide (is_Some (assoc n columns))) in *.
  assert (Ef : forall l : list string, filter (fun n => is_Some (assoc n columns)) l = filter (fun n => isKept n = true) l).
  { intros l. apply list_filter_iff. intros n. unfold isKept. by rewrite bool_decide_eq_true. }
  assert (Eg : forall l : list string, filter (fun n => assoc n columns = None) l = filter (fun n => isKept n = false) l).
  { intros l. apply list_filter_iff. intros n. unfold isKept. rewrite bool_decide_eq_false, eq_None_not_Some. done. }
  rewrite !Ef, Eg. split_and!.
  - destruct (decide _) as [E|] in Hk; [|done]. exact E.
  - apply split_kinds. intros i j x y Hij Hx Hy Hnk. destruct (isKept y) eqn:Ey; [|done]. exfalso.
    rewrite list_lookup_fmap in Hx, Hy. apply fmap_Some in Hx as (cx & Hx & ->), Hy as (cy & Hy & ->).
    pose proof (lastKept_ge isKept (t_columns tgt) j cy Hy Ey) as Hge. unfold isKept in Hge, Hnk.
    assert (Hin : (i, cx) ∈ zip (seq 0 (length (t_columns tgt))) (t_columns tgt)).
    { apply list_elem_of_lookup_2 with i. rewrite lookup_zip_with. rewrite lookup_seq_lt by (by eapply lookup_lt_Some). simpl. by rewrite Hx. }
    specialize (Ho (i, cx) Hin). cbn [fst snd] in Ho. rewrite Hnk in Ho. cbn [negb andb] in Ho.
    destruct (Z.of_nat i <? _) eqn:El in Ho; [done|]. apply Z.ltb_ge in El. unfold isKept in El. lia.
  - by destruct (decide _) in Hp.
Qed.

Lemma columnOf_some t n c : columnOf t n = Some c -> c ∈ t_columns t /\ col_name c = n.
Proof. intros [Hc Hn]%List.find_some. apply bool_decide_eq_true in Hn. split; [by apply list_elem_of_In|done]. Qed.

Lemma keptPairs_source tgt renames l k : (forall c, c ∈ k -> c ∈ l) ->
  map snd (keptPairs tgt renames k) = filter (fun n => n ∉ goneNames tgt renames l) (map col_name k).
Proof.
  unfold keptPairs, goneNames. intros Hk. induction k as [|c k IH]; [done|]. cbn [map]. rewrite !filter_cons.
  specialize (IH ltac:(intros; apply Hk; by right)). destruct (decide (keptIn tgt (renamedOr renames (col_name c)) = true)) as [E|E].
  - rewrite decide_True; [cbn [map snd]; by f_equal|]. intros (c' & Hn & Hc')%list_elem_of_fmap. apply list_elem_of_filter in Hc' as [E' _].
    rewrite Hn in E. congruence.
  - rewrite decide_False; [done|]. intros H. apply H. apply list_elem_of_fmap_2, list_elem_of_filter. split; [by apply not_true_is_false|].
    apply Hk. by left.
Qed.

Lemma addedErrors_none name c : addedErrors name c = [] -> (col_nullable c = true \/ is_Some (col_default c)) /\ col_identity c = false.
Proof.
  unfold addedErrors. intros [H1 H2]%app_nil. destruct (col_identity c); [done|]. split; [|done].
  destruct (col_nullable c); [by left|]. right. cbn [negb andb] in H1. rewrite bool_decide_decide in H1. by destruct (decide _) in H1.
Qed.

Lemma tableDiff_keeps name src tgt renames allowed s : NoDup (map col_name (t_columns tgt)) ->
  tableDiff name src tgt renames allowed = Ok s -> td_out s = [] ->
  keepsRows src tgt renames (td_columns s) (td_added s) (td_removed s) allowed.
Proof.
  intros Hn H Ho. unfold tableDiff, mbind, res_bind in H.
  set (s0 := foldl (sourceColumn src tgt renames allowed) (mkTableDiff [] [] [] [] [] []) (t_columns src)) in *.
  destruct (foldR (targetColumn name src) s0 (t_columns tgt)) as [s1|] eqn:E; [|done]. injection H as <-. cbn [td_out td_columns td_added td_removed] in *.
  apply app_nil in Ho as [Ho Horder]. apply orderErrors_none in Horder as (Hkept & Hsplit & Hkey).
  apply targetColumns_fold in E as (C1 & R1 & A1 & O1). rewrite C1, R1, A1 in *. destruct (O1 Ho) as [Ho0 Hacc]. clear O1 C1 R1 A1.
  assert (Hnk : NoDup (keptNames tgt renames (t_columns src))) by (rewrite Hkept; by apply NoDup_filter).
  destruct (sourceColumns_fold src tgt renames allowed (t_columns src) (mkTableDiff [] [] [] [] [] [])) as (C0 & R0 & A0 & O0);
    [by intros ? _ []%elem_of_nil|done|]. fold s0 in C0, R0, A0, O0. cbn [td_columns td_removed td_added app] in C0, R0, A0. rewrite A0. cbn [app].
  destruct (O0 Ho0) as [_ Hgone]. rewrite R0.
  assert (Hpair : forall n old, (n, old) ∈ td_columns s0 -> n = renamedOr renames old /\ is_Some (columnOf tgt n)).
  { intros n old Hin. rewrite C0 in Hin. unfold keptPairs in Hin. apply list_elem_of_fmap in Hin as (c & [= -> ->] & Hc).
    apply list_elem_of_filter in Hc as [Hc _]. split; [done|]. by apply bool_decide_eq_true in Hc. }
  assert (Hfst : map fst (td_columns s0) = keptNames tgt renames (t_columns src)) by (by rewrite C0, keptPairs_names).
  split.
  - by rewrite Hfst, Hkept.
  - rewrite C0. by apply keptPairs_source.
  - intros n old Hin. by apply Hpair.
  - intros n old Hin. destruct (Hpair n old Hin) as [_ [c Hc]]. apply columnOf_some in Hc as Hcn. destruct Hcn as [Hcin Hname].
    specialize (Hacc c Hcin). unfold columnAccepted in Hacc. rewrite Hname in Hacc.
    rewrite (proj2 (assoc_in n old (td_columns s0) ltac:(by rewrite Hfst)) Hin) in Hacc. destruct Hacc as (sc & Hsc & Hid & Ht).
    exists sc, c. split_and!; [done|done|done|]. intros v. destruct Ht as [Ht|Ht]; [|by apply widens_holds].
    unfold sameType in Ht. apply bool_decide_eq_true, typeText_inj in Ht. by rewrite Ht.
  - intros c Hc Hadd. specialize (Hacc c Hc). unfold columnAccepted in Hacc. apply list_elem_of_filter in Hadd as [Hnone _].
    rewrite Hnone in Hacc. by apply (addedErrors_none name).
  - intros n Hin. split; [|by apply Hgone]. unfold goneNames in Hin. apply list_elem_of_fmap in Hin as (c & -> & Hc).
    apply list_elem_of_filter in Hc as [_ Hc]. by apply list_elem_of_fmap_2.
  - done.
Qed.

(** ** The whole plan *)

Lemma mapR_elem {A B} (f : A -> res B) l r y : mapR f l = Ok r -> y ∈ r -> exists x, x ∈ l /\ f x = Ok y.
Proof.
  revert r. induction l as [|x l IH]; intros r H Hy; [injection H as <-; by apply elem_of_nil in Hy|]. cbn [mapR] in H.
  unfold mbind, res_bind in H. destruct (f x) as [z|] eqn:E; [|done]. destruct (mapR f l) as [zs|]; [|done]. injection H as <-.
  apply elem_of_cons in Hy as [->|Hy]; [exists x; split; [by left|done]|]. destruct (IH zs eq_refl Hy) as (x' & Hx' & E'). exists x'. split; [by right|done].
Qed.

Lemma mapR_fst {A B} (f : A -> res B) (key : B -> A) l r : mapR f l = Ok r -> (forall x y, f x = Ok y -> key y = x) -> map key r = l.
Proof.
  intros H Hk. revert r H. induction l as [|x l IH]; intros r H; [by injection H as <-|]. cbn [mapR] in H.
  unfold mbind, res_bind in H. destruct (f x) as [z|] eqn:E; [|done]. destruct (mapR f l) as [zs|]; [|done]. injection H as <-.
  cbn [map]. rewrite (Hk _ _ E). f_equal. by apply IH.
Qed.

Lemma concat_map_nil {A B} (f : A -> list B) l x : concat (map f l) = [] -> x ∈ l -> f x = [].
Proof. rewrite concat_nil_iff. auto. Qed.

Lemma append_assoc {V} (m : list (string * list V)) key v k :
  default [] (assoc k (append m key v)) = default [] (assoc k m) ++ (if decide (k = key) then [v] else []).
Proof.
  unfold append. destruct (assoc key m) as [l|] eqn:E; rewrite assoc_set_get; destruct (decide (k = key)) as [->|]; rewrite ?E, ?app_nil_r; done.
Qed.

Lemma appendAll_assoc {V} (l : list V) : forall m key k,
  default [] (assoc k (appendAll m key l)) = default [] (assoc k m) ++ (if decide (k = key) then l else []).
Proof.
  induction l as [|v l IH]; intros m key k; cbn [appendAll foldl]; [by destruct (decide _); rewrite app_nil_r|].
  change (foldl (fun m v => append m key v) ?m' l) with (appendAll m' key l). rewrite IH, append_assoc.
  destruct (decide (k = key)); [by rewrite <- app_assoc|by rewrite !app_nil_r].
Qed.

Lemma columnLists_assoc (get_ : TableDiff -> list string) tables name t : NoDup (map fst tables) -> (name, t) ∈ tables ->
  default [] (assoc name (columnLists get_ tables)) = get_ t.
Proof.
  unfold columnLists. intros Hn Hin.
  assert (H : forall tables m, NoDup (map fst tables) ->
    default [] (assoc name (foldl (fun m e => appendAll m (fst e) (get_ (snd e))) m tables)) =
    default [] (assoc name m) ++ default [] (get_ <$> assoc name tables)).
  { clear. induction tables as [|[k u] tables IH]; intros m Hn; cbn [foldl fst snd assoc]; [by rewrite app_nil_r|].
    cbn [map fst] in Hn. apply NoDup_cons in Hn as [Hk Hn]. rewrite IH by done. rewrite appendAll_assoc, <- app_assoc. f_equal.
    destruct (decide (name = k)) as [->|]; [|done]. apply assoc_None in Hk. rewrite Hk. simpl. by rewrite app_nil_r. }
  rewrite H by done. simpl. by rewrite (proj2 (assoc_in name t tables Hn) Hin).
Qed.

Lemma assoc_set_keys {V} k (v : V) m : NoDup (map fst m) -> NoDup (map fst (assoc_set k v m)).
Proof.
  induction m as [|[k' v'] m IH]; cbn [assoc_set map fst]; [intros _; apply NoDup_singleton|]. intros [Hk Hn]%NoDup_cons.
  destruct (decide (k = k')) as [->|Hne]; cbn [map fst]; apply NoDup_cons; [done|]. split; [|by apply IH].
  intros [->|H]%assoc_set_fst; done.
Qed.

Lemma tableMap_spec tables : NoDup (map fst (tableMap tables)) /\ (forall n t, assoc n (tableMap tables) = Some t -> t ∈ tables /\ t_name t = n).
Proof.
  unfold tableMap.
  assert (H : forall m, NoDup (map fst m) -> (forall n t, assoc n m = Some t -> t ∈ tables /\ t_name t = n) ->
    forall l, (forall t, t ∈ l -> t ∈ tables) ->
    NoDup (map fst (foldl (fun m t => assoc_set (t_name t) t m) m l)) /\
    (forall n t, assoc n (foldl (fun m t => assoc_set (t_name t) t m) m l) = Some t -> t ∈ tables /\ t_name t = n)).
  { intros m Hn Hm l. revert m Hn Hm. induction l as [|t l IH]; intros m Hn Hm Hl; [done|]. cbn [foldl]. apply IH; [by apply assoc_set_keys| |intros; apply Hl; by right].
    intros n u. rewrite assoc_set_get. destruct (decide (n = t_name t)) as [->|]; [|apply Hm]. intros [= <-]. split; [apply Hl; by left|done]. }
  apply H; [constructor|done|done].
Qed.

Lemma sortedKeys_elem {V} (m : list (string * V)) k : k ∈ sortedKeys m <-> is_Some (assoc k m).
Proof.
  unfold sortedKeys. rewrite elem_of_sort_by. destruct (assoc k m) eqn:E.
  - split; [done|]. intros _. destruct (decide (k ∈ map fst m)) as [|H]; [done|]. apply assoc_None in H. congruence.
  - apply assoc_None in E. split; [done|by intros [? ?]].
Qed.

(** The source tables are dropped, or each is that of a matched target table. *)
Section tables.
Context (source target : list (string * DbspecTable)) (renames : list DbspecTableRename).
Hypothesis renames_distinct : NoDup (map tr_new renames).

Lemma renameTable_fold l : (forall r, r ∈ l -> r ∈ renames) -> forall out from renamed out' from' renamed',
  foldl (renameTable source target) (out, from, renamed) l = (out', from', renamed') ->
  (forall a b, assoc a from = Some b -> assoc b source = None /\ exists r, r ∈ renames /\ tr_old r = a /\ tr_new r = b) ->
  forall a b, assoc a from' = Some b -> assoc b source = None /\ exists r, r ∈ renames /\ tr_old r = a /\ tr_new r = b.
Proof.
  induction l as [|r l IH]; intros Hl out from renamed out' from' renamed' H Hf; [injection H as <- <- <-; done|]. cbn [foldl] in H.
  destruct (renameTable source target (out, from, renamed) r) as [[o1 f1] r1] eqn:E. eapply IH; [intros; apply Hl; by right|exact H|].
  unfold renameTable in E. destruct (negb _); [by injection E as <- <- <-|]. case_bool_decide as Hs; [by injection E as <- <- <-|].
  destruct (negb _); [by injection E as <- <- <-|]. injection E as <- <- <-. intros a b. rewrite assoc_set_get.
  destruct (decide (a = tr_old r)) as [->|]; [|apply Hf]. intros [= <-]. split; [by apply eq_None_not_Some|].
  exists r. split_and!; [apply Hl; by left|done|done].
Qed.

Lemma renamedOr_inj from : (forall a b, assoc a from = Some b -> assoc b source = None /\ exists r, r ∈ renames /\ tr_old r = a /\ tr_new r = b) ->
  forall a b, is_Some (assoc a source) -> is_Some (assoc b source) -> renamedOr from a = renamedOr from b -> a = b.
Proof.
  intros Hf a b Ha Hb. unfold renamedOr. destruct (assoc a from) as [x|] eqn:Ea, (assoc b from) as [y|] eqn:Eb; simpl.
  - intros <-. destruct (Hf _ _ Ea) as [_ (r & Hr & <- & Hx)], (Hf _ _ Eb) as [_ (s & Hs & <- & Hy)].
    apply list_elem_of_lookup in Hr as [i Hi], Hs as [j Hj]. assert (i = j) as ->; [|congruence].
    apply (NoDup_lookup _ i j (tr_new r) renames_distinct); rewrite list_lookup_fmap; [by rewrite Hi|rewrite Hj; simpl; congruence].
  - intros ->. destruct (Hf _ _ Ea) as [Hn _]. rewrite Hn in Hb. by destruct Hb.
  - intros <-. destruct (Hf _ _ Eb) as [Hn _]. rewrite Hn in Ha. by destruct Ha.
  - done.
Qed.

Lemma matchTable_fold from l : NoDup l -> (forall a b, a ∈ l -> b ∈ l -> renamedOr from a = renamedOr from b -> a = b) ->
  forall tableOf dropped tableOf' dropped',
  (forall a, a ∈ l -> assoc (renamedOr from a) tableOf = None) ->
  foldl (matchTable target from) (tableOf, dropped) l = (tableOf', dropped') ->
  (forall t s, assoc t tableOf = Some s -> assoc t tableOf' = Some s) /\ (forall a, a ∈ dropped -> a ∈ dropped') /\
  forall a, a ∈ l -> a ∈ dropped' \/ (assoc (renamedOr from a) tableOf' = Some a /\ is_Some (assoc (renamedOr from a) target)).
Proof.
  intros Hn Hi. induction l as [|a l IH]; intros tableOf dropped tableOf' dropped' Hfresh H.
  { injection H as <- <-. split_and!; [done|done|by intros ? []%elem_of_nil]. }
  apply NoDup_cons in Hn as [Ha Hn]. cbn [foldl] in H. unfold matchTable at 2 in H.
  specialize (IH Hn ltac:(intros; apply Hi; [by right|by right|done])).
  destruct (assoc (renamedOr from a) target) eqn:Et.
  - destruct (IH _ _ _ _ ltac:(intros b Hb; rewrite assoc_set_get, decide_False; [apply Hfresh; by right|intros E; apply Hi in E; [by subst|by right|by left]]) H)
      as (H1 & H2 & H3). split_and!; [|done|].
    + intros t s Hs. apply H1. rewrite assoc_set_get, decide_False; [done|]. intros ->. rewrite Hfresh in Hs by (by left). done.
    + intros b [->|Hb]%elem_of_cons; [|by apply H3]. right. split; [|by rewrite Et]. apply H1. by rewrite assoc_set_get, decide_True.
  - destruct (IH _ _ _ _ ltac:(intros b Hb; apply Hfresh; by right) H) as (H1 & H2 & H3). split_and!; [done| |].
    + intros b Hb. apply H2, elem_of_app. by left.
    + intros b [->|Hb]%elem_of_cons; [|by apply H3]. left. apply H2, elem_of_app. right. by apply list_elem_of_singleton.
Qed.
End tables.

Lemma dropErrors_none dropTables dropped : dropErrors dropTables dropped = [] -> forall t, t ∈ dropTables <-> t ∈ dropped.
Proof.
  unfold dropErrors. rewrite app_nil, !concat_nil_iff. intros [H1 H2] t. split; intros Ht; [specialize (H1 t Ht)|specialize (H2 t Ht)];
    apply includes_elem; by destruct (includes _ _).
Qed.

(** The renames that are followed are lines of the header. *)
Lemma renameColumn_fold source target tableOf (renames l : list DbspecColumnRename) : (forall r, r ∈ l -> r ∈ renames) -> forall acc acc',
  (forall t o n, assoc o (default [] (assoc t (snd (fst acc)))) = Some n -> mkColumnRename t o n ∈ renames) ->
  foldR (renameColumn source target tableOf) acc l = Ok acc' ->
  forall t o n, assoc o (default [] (assoc t (snd (fst acc')))) = Some n -> mkColumnRename t o n ∈ renames.
Proof.
  induction l as [|r l IH]; intros Hl acc acc' Hacc; simpl; [by intros [= <-]|].
  unfold mbind, res_bind. destruct (renameColumn _ _ _ acc r) as [s|] eqn:E; [|done].
  apply IH; [intros; apply Hl; by right|]. destruct acc as [[out m] renamed]. cbn [fst snd] in *.
  unfold renameColumn, mbind, res_bind in E.
  repeat match type of E with context [match ?x with _ => _ end] => destruct x eqn:? end; try done; injection E as <-; try exact Hacc.
  cbn [fst snd]. intros t o n. rewrite assoc_set_get. destruct (decide (t = cr_table r)) as [->|]; [|apply Hacc]. simpl.
  rewrite assoc_set_get. destruct (decide (o = cr_old r)) as [->|]; [|apply Hacc].
  intros [= <-]. destruct r. apply Hl. by left.
Qed.

(** C29: a plan whose diff has no diagnostic loses nothing it does not name:
    every source table is kept by a matched target table or named by a drop
    permission; and each matched table keeps its columns in their order under
    their renames, the added ones behind, with types that hold every value of
    before, unchanged identities and primary key, added columns that rows can
    take, and removed columns that a permission names. *)
Theorem planDiff_keeps sha256 source p d :
  NoDup (map tr_new (h_renameTables (p_header p))) ->
  (forall t, t ∈ doc_tables (p_schema p) -> NoDup (map col_name (t_columns t))) ->
  planDiff sha256 source p = Ok (inl d) ->
  (forall s, is_Some (assoc s (pd_source d)) -> s ∈ pd_dropped d \/ exists t, t ∈ pd_matched d /\ assoc t (pd_tableOf d) = Some s) /\
  (forall s, s ∈ pd_dropped d <-> s ∈ h_dropTables (p_header p)) /\
  (forall name, name ∈ pd_matched d -> exists src tgt renames columns,
     sourceTable (pd_source d) (pd_tableOf d) name = Ok src /\ assoc name (pd_target d) = Some tgt /\ assoc name (pd_columnOf d) = Some columns /\
     (forall o n, assoc o renames = Some n -> mkColumnRename name o n ∈ h_renameColumns (p_header p)) /\
     keepsRows src tgt renames columns (default [] (assoc name (pd_added d))) (default [] (assoc name (pd_removed d)))
       (map (fun c => columnPath (cn_table c) (cn_name c)) (h_dropColumns (p_header p)))).
Proof.
  intros Hren Hcols H. unfold planDiff in H. destruct (match source with Some s => _ | None => _ end) as [from|]; [|done].
  destruct (negb _); [done|].
  set (src := match source with Some s => tableMap (doc_tables s) | None => [] end) in *.
  set (tgt := tableMap (doc_tables (p_schema p))) in *.
  destruct (foldl (renameTable src tgt) ([], [], []) _) as [[out1 renamedFrom] renamedTables] eqn:E1.
  destruct (foldl (matchTable tgt renamedFrom) ([], []) _) as [tableOf dropped] eqn:E2.
  unfold mbind, res_bind in H. destruct (foldR (renameColumn src tgt tableOf) _ _) as [[[out3 renamedColumns] renamed]|] eqn:E4; [|done].
  destruct (matchedDiffs _ _ _ _ _ _) as [tables|] eqn:E3; [|done].
  destruct (out1 ++ _) as [|e out] eqn:Eo; [|done].
  repeat (apply app_nil in Eo as [? Eo]). clear Eo.
  destruct (diffObjects _ _ _) as [objects|]; [|done]. destruct (diffTriggers _ _) as [triggers|]; [|done]. destruct (collectChanges _) as [changes|]; [|done].
  injection H as <-. cbn [pd_source pd_target pd_tableOf pd_columnOf pd_dropped pd_matched pd_added pd_removed].
  assert (Hsrc : NoDup (map fst src)) by (unfold src; destruct source; [apply tableMap_spec|constructor]).
  assert (Hfrom := renameTable_fold src tgt (h_renameTables (p_header p)) _ ltac:(intros r Hr; by apply elem_of_sort_by in Hr) _ _ _ _ _ _ E1 ltac:(done)).
  assert (Hinj := renamedOr_inj src _ Hren renamedFrom Hfrom).
  apply matchTable_fold in E2 as (_ & _ & Hall).
  2: { unfold sortedKeys. by rewrite sort_by_perm. }
  2: { intros a b Ha Hb. apply sortedKeys_elem in Ha, Hb. by apply Hinj. }
  2: { done. }
  split_and!.
  - intros s Hs. destruct (Hall s) as [Hd|[Ht Htgt]]; [by apply sortedKeys_elem|by left|]. right. exists (renamedOr renamedFrom s). split; [|done].
    apply list_elem_of_filter. split; [by rewrite Ht|by apply sortedKeys_elem].
  - intros s. symmetry. by apply dropErrors_none.
  - intros name Hname. unfold matchedDiffs in E3.
    assert (Hfst : map fst tables = filter (fun name => is_Some (assoc name tableOf)) (sortedKeys tgt)).
    { eapply mapR_fst; [exact E3|]. intros x y Hxy. unfold mbind, res_bind in Hxy. destruct (sourceTable _ _ x); [|done].
      destruct (present _ _); [|done]. destruct (tableDiff _ _ _ _ _); [|done]. by injection Hxy as <-. }
    assert (Hnd : NoDup (map fst tables)).
    { rewrite Hfst. apply NoDup_filter. unfold sortedKeys. rewrite sort_by_perm. apply tableMap_spec. }
    rewrite <- Hfst in Hname. apply list_elem_of_fmap in Hname as ([n t] & -> & Hin). cbn [fst].
    destruct (mapR_elem _ _ _ _ E3 Hin) as (x & _ & Hx). unfold mbind, res_bind in Hx.
    destruct (sourceTable src tableOf x) as [st|] eqn:Es; [|done]. destruct (assoc x tgt) as [tt_|] eqn:Et; [|done]. cbn [present] in Hx.
    destruct (tableDiff x st tt_ _ _) as [td|] eqn:Ed; [|done]. injection Hx as -> ->.
    exists st, tt_, (default [] (assoc n renamedColumns)), (td_columns t). split_and!; [done|done| | |].
    + apply assoc_in; [by rewrite map_map|]. apply list_elem_of_fmap. by exists (n, t).
    + intros o n'. refine (renameColumn_fold _ _ _ _ _ _ _ _ _ E4 n o n').
      * intros r Hr. by apply elem_of_sort_by in Hr.
      * by intros t' o' n'' ?.
    + rewrite !(columnLists_assoc _ tables n t Hnd Hin). eapply tableDiff_keeps; [|exact Ed|].
      * apply Hcols. by apply tableMap_spec in Et as [? _].
      * by apply (concat_map_nil (fun e : string * TableDiff => td_out (snd e)) tables (n, t)).
Qed.

(** ** A plan *)

Definition planTable (name : string) (columns : list DbspecColumn) : DbspecTable :=
  mkTable [] name columns (mkPrimaryKey [] ["id"]) [] [] [] [] None [].

Definition idColumn : DbspecColumn := mkColumn [] "id" TI64 false true None.

Definition planSource : DbspecDocument :=
  mkDocument "schema" false []
    [planTable "stale" [idColumn];
     planTable "users" [idColumn; mkColumn [] "name" (TVarchar 20) false false None; mkColumn [] "fax" TText true false None;
                        mkColumn [] "age" TI16 false false None]] [] [].

Definition planTarget : DbspecDocument :=
  mkDocument "schema" false []
    [planTable "clients" [idColumn; mkColumn [] "full_name" (TVarchar 40) false false None; mkColumn [] "age" TI32 true false None;
                          mkColumn [] "note" TText true false None]] [] [].

Definition planOf (rt : list DbspecTableRename) (rc : list DbspecColumnRename) (dt : list string) (dc : list DbspecColumnName) (schema : DbspecDocument) : DbspecPlan :=
  mkPlan (mkHeader "change" (Some "sha256:0") rt rc dt dc) schema "sha256:1".

Definition clientsPlan : DbspecPlan :=
  planOf [mkTableRename "users" "clients"] [mkColumnRename "clients" "name" "full_name"] ["stale"] [mkColumnName "users" "fax"] planTarget.

Lemma planDiff_keeps_witness : exists d renames,
  planDiff (fun _ => "0") (Some planSource) clientsPlan = Ok (inl d) /\ pd_matched d = ["clients"] /\ pd_dropped d = ["stale"] /\
  (forall o n, assoc o renames = Some n -> (o, n) = ("name", "full_name")) /\
  map snd [("id", "id"); ("full_name", "name"); ("age", "age")] = filter (fun n => n ∉ ["fax"]) ["id"; "name"; "fax"; "age"] /\
  "full_name" = renamedOr renames "name".
Proof.
  eexists. edestruct (planDiff_keeps (fun _ => "0") (Some planSource) clientsPlan) as (_ & _ & Hk).
  - by apply (bool_decide_unpack _).
  - simpl. intros t [->|Ht]%elem_of_cons; [by apply (bool_decide_unpack _)|]. by apply elem_of_nil in Ht.
  - vm_compute. reflexivity.
  - edestruct (Hk "clients") as (src & tgt & renames & columns & Hs & Ht & Hc & Hn & Hr); [by apply (bool_decide_unpack _)|].
    exists renames. split; [vm_compute; reflexivity|]. split; [reflexivity|]. split; [reflexivity|].
    vm_compute in Hs, Ht, Hc. injection Hs as <-. injection Ht as <-. injection Hc as <-.
    split; [|split; [exact (kr_source _ _ _ _ _ _ _ Hr)|apply (kr_names _ _ _ _ _ _ _ Hr); by apply (bool_decide_unpack _)]].
    intros o n [= -> ->]%Hn%list_elem_of_singleton. reflexivity.
Defined.

(** ** A table renamed twice *)

Definition twiceHeader : string :=
  joinLines ["dbplan 1 change"; "from empty"; "rename table a b"; "rename table a c"; ""; "dbspec 1 schema"].

Definition twicePlan : DbspecPlan :=
  planOf [mkTableRename "a" "b"; mkTableRename "a" "c"] [] [] [] (mkDocument "schema" false [] [planTable "b" [idColumn]; planTable "c" [idColumn]] [] []).

(** two renames of one table are accepted, by the header and by the diff,
    although each of them takes the table away: the changes rename the table
    [a] twice and create the table that the first rename made. *)
Theorem rename_twice_accepted :
  (match planHeader twiceHeader with inl (h, _, _) => h_renameTables h | inr _ => [] end) = h_renameTables (p_header twicePlan) /\
  diffPlan (fun _ => "0") (Some (mkDocument "schema" false [] [planTable "a" [idColumn]] [] [])) twicePlan =
    Ok (inl [mkChange "rename_table" "a" "b"; mkChange "rename_table" "a" "c"; mkChange "create_table" "b" ""]).
Proof. split; vm_compute; reflexivity. Qed.
