(* ===== verification/Compare.v ===== *)
(** * Comparison of two schemas without a plan ([dbspec/compare.ts]) *)

From S2P Require Import Prelude Documents Emit DocumentSet Plan PlanDiff.

Record DbspecDifference := mkDifference { df_kind : string; df_table : string; df_name : string }.

#[global] Instance DbspecDifference_eq_dec : EqDecision DbspecDifference.
Proof. solve_decision. Defined.

(** [KINDS]: the order of the differences of one table. *)
Definition kinds : list string :=
  ["create_table"; "drop_table"; "drop_column"; "add_column"; "alter_column"; "change_column_type"; "change_column_identity";
   "reorder_columns"; "change_primary_key"; "drop_unique"; "add_unique"; "drop_index"; "add_index"; "drop_foreign_key"; "add_foreign_key";
   "drop_check"; "add_check"; "drop_immutable"; "add_immutable"; "drop_audit"; "add_audit"].

(** ** One table *)

(** What the loop over the target columns gathers: the differences as kind and
    name, the kept columns, and the positions of the last kept and the first
    added column, or -1. *)
Record ColumnWalk := mkWalk { wk_found : list (string * string); wk_kept : list string; wk_lastKept : Z; wk_firstAdded : Z }.

(** The differences of a column of both tables. *)
Definition columnChanges (sc c : DbspecColumn) : list (string * string) :=
  let same := sameType (col_type sc) (col_type c) in
  (if (negb same && widens (col_type sc) (col_type c)) || negb (Bool.eqb (col_nullable sc) (col_nullable c)) || negb (sameDefault (col_default sc) (col_default c))
   then [("alter_column", col_name c)] else []) ++
  (if negb same && negb (widens (col_type sc) (col_type c)) then [("change_column_type", col_name c)] else []) ++
  (if negb (Bool.eqb (col_identity sc) (col_identity c)) then [("change_column_identity", col_name c)] else []).

Definition walkColumn (s : DbspecTable) (w : ColumnWalk) (e : nat * DbspecColumn) : ColumnWalk :=
  let '(i, c) := e in
  match columnOf s (col_name c) with
  | None => mkWalk (wk_found w ++ [("add_column", col_name c)]) (wk_kept w) (wk_lastKept w) (if wk_firstAdded w <? 0 then Z.of_nat i else wk_firstAdded w)
  | Some sc => mkWalk (wk_found w ++ columnChanges sc c) (wk_kept w ++ [col_name c]) (Z.of_nat i) (wk_firstAdded w)
  end.

(** Objects matched by name: on one side only, or of another definition. *)
Definition compareObjects {T} (kind : string) (name def : T -> string) (source target : list T) : list (string * string) :=
  let differs o others :=
    match List.find (fun x => bool_decide (name x = name o)) others with None => true | Some other => negb (bool_decide (def other = def o)) end in
  map (fun o => (str ["drop_"; kind], name o)) (filter (fun o => differs o target = true) source) ++
  map (fun o => (str ["add_"; kind], name o)) (filter (fun o => differs o source = true) target).

(** The definition of a setting of [x]; an audit is compared on the columns of
    both tables that it does not record. *)
Definition settingOf (x : DbspecTable) (kind : string) (s t : DbspecTable) : option string :=
  match List.find (fun e => bool_decide (setting_kind e = kind)) (tableSettings x) with
  | None => None
  | Some (SAudit a) =>
      let excluded := map col_name (filter (fun c => bool_decide (is_Some (columnOf s (col_name c))) && negb (auditRecords a (col_name c)) = true) (t_columns t)) in
      let tables := match au_tables a with None => "  " | Some (table, record, name) => str [table; " "; record; " "; name] end in
      Some (join " " (str [au_into a; " "; au_column a; " "; au_references a; " "; au_action a; " "; au_previous a; " "; tables] :: excluded))
  | Some e => Some (setting_kind e)
  end.

Definition compareSettings (s t : DbspecTable) (kind : string) : list (string * string) :=
  let from := settingOf s kind s t in
  let to := settingOf t kind s t in
  if decide (from = to) then []
  else (if from then [(str ["drop_"; kind], "")] else []) ++ (if to then [(str ["add_"; kind], "")] else []).

(** The differences of a table of both sides, in the order they are added. *)
Definition compareTables (s t : DbspecTable) : list (string * string) :=
  let drops := map (fun c => ("drop_column", col_name c)) (filter (fun c => ~ is_Some (columnOf t (col_name c))) (t_columns s)) in
  let w := foldl (walkColumn s) (mkWalk [] [] (-1) (-1)) (zip (seq 0 (length (t_columns t))) (t_columns t)) in
  let kept := map col_name (filter (fun c => is_Some (columnOf t (col_name c))) (t_columns s)) in
  drops ++ wk_found w ++
  (if negb (bool_decide (join "," kept = join "," (wk_kept w))) || ((0 <=? wk_firstAdded w) && (wk_firstAdded w <? wk_lastKept w))
   then [("reorder_columns", "")] else []) ++
  (if decide (join "," (pk_columns (t_primaryKey s)) = join "," (pk_columns (t_primaryKey t))) then [] else [("change_primary_key", "")]) ++
  compareObjects "unique" un_name (fun u => join "," (un_columns u)) (t_uniques s) (t_uniques t) ++
  compareObjects "index" ix_name (fun x => indexDef x id) (t_indexes s) (t_indexes t) ++
  compareObjects "foreign_key" fk_name (fun f => foreignKeyDef (fk_columns f) (fk_table f) (fk_references f) f) (t_foreignKeys s) (t_foreignKeys t) ++
  compareObjects "check" ck_name ck_expression (t_checks s) (t_checks t) ++
  compareSettings s t "immutable" ++ compareSettings s t "audit".

(** ** Two schemas *)

(** The comparison of the sort: by kind, then name. *)
Definition differenceBefore (a b : DbspecDifference) : bool :=
  let ka := positionOf (df_kind a) kinds in
  let kb := positionOf (df_kind b) kinds in
  if (ka =? kb)%nat then String.leb (df_name a) (df_name b) else (ka <? kb)%nat.

Fixpoint insertDifference (d : DbspecDifference) (l : list DbspecDifference) : list DbspecDifference :=
  match l with [] => [d] | x :: l' => if differenceBefore d x then d :: x :: l' else x :: insertDifference d l' end.
Definition sortDifferences (l : list DbspecDifference) : list DbspecDifference := foldr insertDifference [] l.

(** [[...new Set(tables)].sort()] *)
Definition uniqueSorted (names : list string) : list string := sort_by id (foldl (fun seen n => set_add n seen) [] names).

(** Tells whether the canonical emission of a document is its schema text. *)
Definition isSchemaText (document : DbspecDocument) : bool :=
  if negb (bool_decide (doc_name document = "schema")) then false
  else
    let uses := map (fun u => mkUse [] (use_document u) (uniqueSorted (use_tables u))) (doc_uses document) in
    bool_decide (emitDbspec document = emitDocument (mkDocument (doc_name document) false uses (sort_by t_name (doc_tables document)) [] []) Schema).

Definition notSchemaText (side : string) : DbspecDiagnostic :=
  mkDiagnostic "compare" 1 1
    (str ["the "; side; " is not a schema text: one document named schema in canonical form with its tables in name order and only the immutable and audit settings"]).

(** The differences of one table name. *)
Definition tableDifferences (source target : list (string * DbspecTable)) (name : string) : list DbspecDifference :=
  let found :=
    match assoc name source, assoc name target with
    | None, _ => [("create_table", "")]
    | _, None => [("drop_table", "")]
    | Some s, Some t => compareTables s t
    end in
  sortDifferences (map (fun e => mkDifference (fst e) name (snd e)) found).

Definition compareSchemas (source target : DbspecDocument) : list DbspecDifference + list DbspecDiagnostic :=
  match (if isSchemaText source then [] else [notSchemaText "source"]) ++ (if isSchemaText target then [] else [notSchemaText "target"]) with
  | d :: out => inr (d :: out)
  | [] =>
      let s := tableMap (doc_tables source) in
      let t := tableMap (doc_tables target) in
      inl (concat (map (tableDifferences s t) (sortedKeys (foldl (fun m e => assoc_set (fst e) (snd e) m) s t))))
  end.

(** * The comparison of schemas is exact

    A comparison without differences means that the schemas have the same
    tables, and then one schema text. *)

From S2P Require Import Keys DocumentFacts Check CheckFacts PlanFacts PlanDiffFacts.
From Stdlib Require Import Lia.

(** ** Texts of names *)

Definition names (l : list string) : Prop := Forall (fun n => isColumn n = true) l.

Lemma names_char c l : wordChar c = false -> names l -> Forall (fun s => has_char c s = false) l.
Proof.
  unfold names. rewrite !Forall_forall. intros Hc Hl n Hin. specialize (Hl n Hin) as Hn. clear Hin. destruct (isColumn_chars n Hn) as [_ H]. clear Hn. induction n as [|a n IH]; [done|].
  cbn [all_chars has_char] in *. apply andb_true_iff in H as [Ha H]. rewrite IH by done. rewrite bool_decide_eq_false_2; [done|]. by intros ->; congruence.
Qed.

Lemma name_char c n : wordChar c = false -> isColumn n = true -> has_char c n = false.
Proof. intros Hc Hn. pose proof (names_char c [n] Hc ltac:(by repeat constructor)) as H. by inversion H. Qed.

Lemma join_char c l : has_char c "," = false -> Forall (fun s => has_char c s = false) l -> has_char c (join "," l) = false.
Proof.
  intros Hc. induction 1 as [|s l Hs H IH]; [done|]. destruct l as [|t l]; [done|].
  change (join "," (s :: t :: l)) with (s +:+ "," +:+ join "," (t :: l)). by rewrite !has_char_app, Hs, Hc, IH.
Qed.

Lemma join_inj c l k : wordChar c = false -> names l -> names k -> join (String c "") l = join (String c "") k -> l = k.
Proof.
  intros Hc Hl Hk E.
  assert (He : forall l, names l -> join (String c "") l = "" -> l = []).
  { intros [|n [|m m']] H He; [done| |].
    - change (n = "") in He. subst. by inversion H.
    - change (join (String c "") (n :: m :: m')) with (n +:+ String c (join (String c "") (m :: m'))) in He. by destruct n. }
  destruct l as [|n l]; [symmetry; by apply He|]. destruct k as [|m k]; [by apply He|].
  rewrite <- (split_join c (n :: l)), <- (split_join c (m :: k)) by (done || by apply names_char). by rewrite E.
Qed.

Definition indexNames (x : DbspecIndex) : list string := map ic_name (ix_columns x).

Lemma indexDef_inj x y : names (indexNames x) -> names (indexNames y) -> indexDef x id = indexDef y id -> ix_columns x = ix_columns y.
Proof.
  unfold indexDef, indexNames, id. generalize (ix_columns x) as l, (ix_columns y) as k. clear x y.
  assert (Hd : forall c, isColumn (ic_name c) = true -> has_char "," (ic_name c +:+ (if ic_descending c then " desc" else "")) = false).
  { intros c Hc. rewrite has_char_app, (name_char "," _) by done. by destruct (ic_descending c). }
  induction l as [|c l IH]; intros [|e k] Hl Hk; simpl; try done.
  1, 2: unfold str; simpl; rewrite ?string_app_assoc; simpl.
  1: inversion Hk as [|? ? H1 H2]; subst; destruct (ic_name e); done.
  1: inversion Hl as [|? ? H1 H2]; subst; destruct (ic_name c); done.
  inversion Hl as [|? ? H1 H2]; inversion Hk as [|? ? H3 H4]; subst. intros E.
  assert (E' : forall (c : DbspecIndexColumn) s, str (str [ic_name c; if ic_descending c then " desc" else ""; ","] :: s) =
     (ic_name c +:+ (if ic_descending c then " desc" else "")) +:+ String "," (str s)).
  { intros c' s. unfold str. simpl. rewrite !string_app_assoc. by destruct (ic_descending c'). }
  rewrite !E' in E. apply app_char_inj in E as [E1 E2]; [|by apply Hd|by apply Hd]. rewrite (IH k H2 H4 E2). f_equal.
  destruct c as [n b], e as [n' b']. cbn [ic_name ic_descending] in *.
  destruct b, b'; rewrite ?string_app_nil_r in E1.
  - apply (app_char_inj " ") in E1 as [-> _]; [done|by apply name_char|by apply name_char].
  - exfalso. subst n'. apply (name_char " ") in H3; [|done]. by rewrite has_char_app, orb_true_r in H3.
  - exfalso. subst n. apply (name_char " ") in H1; [|done]. by rewrite has_char_app, orb_true_r in H1.
  - by subst.
Qed.

Definition foreignKeyNames (f : DbspecForeignKey) : list string := fk_columns f ++ [fk_table f] ++ fk_references f.

Lemma foreignKeyDef_inj f g : names (foreignKeyNames f) -> names (foreignKeyNames g) ->
  foreignKeyDef (fk_columns f) (fk_table f) (fk_references f) f = foreignKeyDef (fk_columns g) (fk_table g) (fk_references g) g ->
  fk_columns f = fk_columns g /\ fk_table f = fk_table g /\ fk_references f = fk_references g /\
  fk_onDelete f = fk_onDelete g /\ fk_onUpdate f = fk_onUpdate g.
Proof.
  unfold names, foreignKeyNames. rewrite !Forall_app, !Forall_singleton. intros (C1 & T1 & R1) (C2 & T2 & R2). unfold foreignKeyDef, str. simpl.
  assert (Hj : forall c l, wordChar c = false -> c <> ","%char -> Forall (fun n => isColumn n = true) l -> has_char c (join "," l) = false).
  { intros c l Hc Hne Hl. apply join_char; [cbn [has_char]; by rewrite bool_decide_eq_false_2 by done|by apply names_char]. }
  intros E. apply (app_char_inj ">") in E as [EC E]; [|by apply Hj|by apply Hj].
  apply (app_char_inj "(") in E as [-> E]; [|by apply name_char|by apply name_char].
  apply (app_char_inj ")") in E as [ER E]; [|by apply Hj|by apply Hj].
  apply (join_inj ",") in EC, ER; try done. split_and!; try done; revert E; by destruct (fk_onDelete f), (fk_onDelete g), (fk_onUpdate f), (fk_onUpdate g).
Qed.

(** ** Objects and columns *)

Lemma key_inj {A} (key : A -> string) l a b : NoDup (map key l) -> a ∈ l -> b ∈ l -> key a = key b -> a = b.
Proof.
  intros Hn [i Ha]%list_elem_of_lookup [j Hb]%list_elem_of_lookup E.
  assert (i = j) as <-; [|congruence]. eapply NoDup_lookup; [exact Hn| |].
  - rewrite list_lookup_fmap, Ha. reflexivity.
  - rewrite list_lookup_fmap, Hb. simpl. by rewrite E.
Qed.

Lemma find_key {A} (key : A -> string) l a : NoDup (map key l) -> a ∈ l -> List.find (fun x => bool_decide (key x = key a)) l = Some a.
Proof.
  intros Hn Ha. destruct (List.find _ l) as [b|] eqn:E.
  - apply List.find_some in E as [Hb E%bool_decide_eq_true]. f_equal. apply (key_inj key l); [done|by apply list_elem_of_In|done|done].
  - apply List.find_none with (x := a) in E; [|by apply list_elem_of_In]. by rewrite bool_decide_eq_true_2 in E.
Qed.

Lemma compareObjects_nil {T} kind (name def : T -> string) (bare : T -> T) source target :
  NoDup (map name source) -> NoDup (map name target) -> (forall a, name (bare a) = name a) ->
  (forall a b, a ∈ source -> b ∈ target -> name a = name b -> def a = def b <-> bare a = bare b) ->
  compareObjects kind name def source target = [] <-> map bare source ≡ₚ map bare target.
Proof.
  intros Hs Ht Hname Hdef.
  assert (Hb : forall l, NoDup (map name l) -> NoDup (map bare l)).
  { intros l Hl. apply (NoDup_fmap_1 name). change (fmap name (map bare l)) with (map name (map bare l)). rewrite map_map.
    erewrite map_ext; [exact Hl|]. intros a. apply Hname. }
  assert (Hside : forall (P : T -> string * string) differs l, map P (filter (fun o => differs o = true) l) = [] <-> forall o, o ∈ l -> differs o = false).
  { intros P differs l. induction l as [|o l IH]; [split; [by intros _ ? []%elem_of_nil|done]|]. rewrite filter_cons.
    destruct (decide _) as [E|E].
    - simpl. split; [done|]. intros H. by rewrite H in E by (by left).
    - rewrite IH. split; [intros H x [->|Hx]%elem_of_cons; [by destruct (differs o)|by apply H]|intros H x Hx; apply H; by right]. }
  unfold compareObjects. rewrite app_nil, !Hside. split.
  - intros [H1 H2]. apply NoDup_Permutation; [by apply Hb|by apply Hb|]. intros x. rewrite !list_elem_of_fmap. split.
    + intros (a & -> & Ha). specialize (H1 a Ha). destruct (List.find _ target) as [b|] eqn:E; [|done].
      apply negb_false_iff, bool_decide_eq_true in H1. apply List.find_some in E as [Hin%list_elem_of_In E%bool_decide_eq_true].
      exists b. split; [|done]. by apply Hdef.
    + intros (b & -> & Hin). specialize (H2 b Hin). destruct (List.find _ source) as [a|] eqn:E; [|done].
      apply negb_false_iff, bool_decide_eq_true in H2. apply List.find_some in E as [Ha%list_elem_of_In E%bool_decide_eq_true].
      exists a. split; [|done]. symmetry. by apply Hdef.
  - intros Hp. split.
    + intros a Ha. assert (Hx : bare a ∈ map bare target) by (rewrite <- Hp; by apply list_elem_of_fmap_2).
      apply list_elem_of_fmap in Hx as (b & E & Hin). assert (En : name a = name b) by (by rewrite <- (Hname a), E, Hname).
      rewrite En, (find_key name target b) by done. apply negb_false_iff, bool_decide_eq_true. symmetry. by apply Hdef.
    + intros b Hin. assert (Hx : bare b ∈ map bare source) by (rewrite Hp; by apply list_elem_of_fmap_2).
      apply list_elem_of_fmap in Hx as (a & E & Ha). assert (En : name b = name a) by (by rewrite <- (Hname b), E, Hname).
      rewrite En, (find_key name source a) by done. apply negb_false_iff, bool_decide_eq_true. by apply Hdef.
Qed.

Section columns.
Context (s t : DbspecTable).

Definition columnFound (c : DbspecColumn) : list (string * string) :=
  match columnOf s (col_name c) with None => [("add_column", col_name c)] | Some sc => columnChanges sc c end.

Lemma walkColumns_found l : forall k w,
  wk_found (foldl (walkColumn s) w (zip (seq k (length l)) l)) = wk_found w ++ concat (map columnFound l).
Proof.
  induction l as [|c l IH]; intros k w; simpl; [by rewrite app_nil_r|]. rewrite IH. unfold columnFound at 2.
  destruct (columnOf s (col_name c)); simpl; by rewrite <- app_assoc.
Qed.

Lemma walkColumns_kept l : (forall c, c ∈ l -> is_Some (columnOf s (col_name c))) -> forall k w,
  let r := foldl (walkColumn s) w (zip (seq k (length l)) l) in wk_kept r = wk_kept w ++ map col_name l /\ wk_firstAdded r = wk_firstAdded w.
Proof.
  induction l as [|c l IH]; intros Hl k w; simpl; [by rewrite app_nil_r|].
  destruct (Hl c ltac:(by left)) as [sc ->]. destruct (IH ltac:(intros; apply Hl; by right) (S k) (mkWalk (wk_found w ++ columnChanges sc c)
    (wk_kept w ++ [col_name c]) (Z.of_nat k) (wk_firstAdded w))) as [-> ->]. simpl. by rewrite <- app_assoc.
Qed.

Lemma columnChanges_nil sc c : columnChanges sc c = [] <->
  col_type sc = col_type c /\ col_nullable sc = col_nullable c /\ col_default sc = col_default c /\ col_identity sc = col_identity c.
Proof.
  unfold columnChanges, sameType, sameDefault. rewrite !app_nil. split.
  - intros (H1 & H2 & H3). destruct (bool_decide (Emit.typeText _ = _)) eqn:Et.
    + apply bool_decide_eq_true, typeText_inj in Et. simpl in H1.
      destruct (Bool.eqb (col_nullable sc) _) eqn:En; [|done]. apply Bool.eqb_prop in En.
      destruct (bool_decide (col_default sc = _)) eqn:Ed; [|done]. apply bool_decide_eq_true in Ed.
      destruct (Bool.eqb (col_identity sc) _) eqn:Ei; [|done]. by apply Bool.eqb_prop in Ei.
    + simpl in H1, H2. by destruct (widens _ _).
  - intros (-> & -> & -> & ->). by rewrite !bool_decide_eq_true_2, !Bool.eqb_reflx by done.
Qed.

Lemma columnOf_elem x c : NoDup (map col_name (t_columns x)) -> c ∈ t_columns x -> columnOf x (col_name c) = Some c.
Proof. intros. by apply find_key. Qed.

(** The three parts of the column comparison. *)
Definition columnParts : list (string * string) :=
  let w := foldl (walkColumn s) (mkWalk [] [] (-1) (-1)) (zip (seq 0 (length (t_columns t))) (t_columns t)) in
  let kept := map col_name (filter (fun c => is_Some (columnOf t (col_name c))) (t_columns s)) in
  map (fun c => ("drop_column", col_name c)) (filter (fun c => ~ is_Some (columnOf t (col_name c))) (t_columns s)) ++ wk_found w ++
  (if negb (bool_decide (join "," kept = join "," (wk_kept w))) || ((0 <=? wk_firstAdded w) && (wk_firstAdded w <? wk_lastKept w))
   then [("reorder_columns", "")] else []).

Lemma filter_all {A} (P : A -> Prop) `{!forall x, Decision (P x)} (l : list A) : (forall x, x ∈ l -> P x) -> filter P l = l.
Proof.
  induction l as [|x l IH]; [done|]. intros Hl. rewrite filter_cons, decide_True by (apply Hl; by left). f_equal. apply IH. intros. apply Hl. by right.
Qed.

Lemma filter_none {A} (P : A -> Prop) `{!forall x, Decision (P x)} (l : list A) : filter P l = [] <-> forall x, x ∈ l -> ~ P x.
Proof.
  induction l as [|x l IH]; [split; [by intros _ ? []%elem_of_nil|done]|]. rewrite filter_cons. destruct (decide (P x)) as [Hx|Hx].
  - split; [done|]. intros Hl. destruct (Hl x); [by left|done].
  - rewrite IH. split; [intros Hl y [->|Hy]%elem_of_cons; [done|by apply Hl]|intros Hl y Hy; apply Hl; by right].
Qed.

Lemma columnParts_nil : NoDup (map col_name (t_columns s)) -> NoDup (map col_name (t_columns t)) ->
  names (map col_name (t_columns s)) -> names (map col_name (t_columns t)) ->
  columnParts = [] <-> map bareColumn (t_columns s) = map bareColumn (t_columns t).
Proof.
  intros Ns Nt Cs Ct. unfold columnParts. rewrite !app_nil, walkColumns_found. cbn [wk_found app]. split.
  - intros (Hd & Hf & Ho). apply map_eq_nil in Hd. rewrite filter_none in Hd. rewrite concat_nil_iff in Hf.
    assert (Hin : forall c, c ∈ t_columns t -> exists sc, sc ∈ t_columns s /\ bareColumn sc = bareColumn c).
    { intros c Hc. specialize (Hf c Hc). unfold columnFound in Hf. destruct (columnOf s _) as [sc|] eqn:E; [|done].
      apply columnOf_some in E as [Hsc En]. apply columnChanges_nil in Hf as (E1 & E2 & E3 & E4). exists sc. split; [done|].
      unfold bareColumn. by rewrite En, E1, E2, E3, E4. }
    destruct (walkColumns_kept (t_columns t)) with (k := 0%nat) (w := mkWalk [] [] (-1) (-1)) as [Hk _].
    { intros c Hc. destruct (Hin c Hc) as (sc & Hsc & E). injection E as E _. rewrite <- E, columnOf_elem by done. by eexists. }
    rewrite Hk in Ho. clear Hk. cbn [wk_kept app] in Ho.
    rewrite (filter_all _ (t_columns s)) in Ho by (intros c Hc; destruct (decide (is_Some (columnOf t (col_name c)))); [done|by destruct (Hd c Hc)]).
    destruct (bool_decide _) eqn:E in Ho; [|done]. apply bool_decide_eq_true, (join_inj ",") in E; [|done..]. clear Ho Hd Hf.
    apply list_eq. intros i. rewrite !list_lookup_fmap.
    assert (Ei : (map col_name (t_columns s)) !! i = (map col_name (t_columns t)) !! i) by (by rewrite E). rewrite !list_lookup_fmap in Ei.
    destruct (t_columns s !! i) as [a|] eqn:Ea, (t_columns t !! i) as [c|] eqn:Ec; try done. simpl in *. injection Ei as Ei. f_equal.
    destruct (Hin c) as (sc & Hsc & Esc); [by eapply list_elem_of_lookup_2|]. rewrite <- Esc. f_equal.
    apply (key_inj col_name (t_columns s)); [done|by eapply list_elem_of_lookup_2|done|]. injection Esc as -> _. done.
  - intros E. assert (En : map col_name (t_columns s) = map col_name (t_columns t)).
    { pose proof (f_equal (map col_name) E) as H. by rewrite !map_map in H. }
    assert (Hs : forall c, c ∈ t_columns t -> exists sc, columnOf s (col_name c) = Some sc /\ columnChanges sc c = []).
    { intros c Hc. assert (Hb : bareColumn c ∈ map bareColumn (t_columns s)) by (rewrite E; by apply list_elem_of_fmap_2).
      apply list_elem_of_fmap in Hb as (sc & Eb & Hsc). exists sc. injection Eb as E1 E2 E3 E4 E5. split; [by rewrite E1, columnOf_elem|].
      by apply columnChanges_nil. }
    assert (Ht : forall c, c ∈ t_columns s -> is_Some (columnOf t (col_name c))).
    { intros c Hc. assert (Hb : col_name c ∈ map col_name (t_columns t)) by (rewrite <- En; by apply list_elem_of_fmap_2).
      apply list_elem_of_fmap in Hb as (x & -> & Hx). rewrite columnOf_elem by done. by eexists. }
    destruct (walkColumns_kept (t_columns t)) with (k := 0%nat) (w := mkWalk [] [] (-1) (-1)) as [Hk Hfirst].
    { intros c Hc. destruct (Hs c Hc) as (sc & -> & _). by eexists. }
    split_and!.
    + replace (filter _ (t_columns s)) with (@nil DbspecColumn); [done|]. symmetry. apply filter_none. intros c Hc Hn. by apply Hn, Ht.
    + apply concat_nil_iff. intros c Hc. unfold columnFound. by destruct (Hs c Hc) as (sc & -> & ->).
    + rewrite Hk, Hfirst. cbn [wk_kept wk_firstAdded app]. rewrite (filter_all _ (t_columns s)) by done. by rewrite En, bool_decide_eq_true_2.
Qed.
End columns.

(** ** Settings *)

Definition findSetting (kind : string) (x : DbspecTable) : option DbspecSetting :=
  List.find (fun e => bool_decide (setting_kind e = kind)) (tableSettings x).
Definition auditOf (x : DbspecTable) : option DbspecAuditSetting := match findSetting "audit" x with Some (SAudit a) => Some a | _ => None end.
Definition isImmutable (x : DbspecTable) : bool := bool_decide (is_Some (findSetting "immutable" x)).

(** The schema settings of a table, as the schema text writes them. *)
Definition schemaLines (x : DbspecTable) : list string :=
  (if isImmutable x then ["immutable"] else []) ++ match auditOf x with Some a => [auditLine a "exclude" (Some (auditExcluded a x))] | None => [] end.

Lemma setting_immutable s : setting_kind s = "immutable" -> s = SImmutable.
Proof. by destruct s. Qed.
Lemma setting_audit s : setting_kind s = "audit" -> exists a, s = SAudit a.
Proof. destruct s; try done. intros _. by eexists. Qed.

Lemma find_filter {A} (p q : A -> bool) l : (forall x, p x = true -> q x = true) ->
  List.find p (filter (fun x => q x = true) l) = List.find p l.
Proof.
  intros Hq. induction l as [|x l IH]; [done|]. rewrite filter_cons. simpl. destruct (decide _) as [E|E].
  - simpl. by rewrite IH.
  - rewrite IH. destruct (p x) eqn:Ep; [|done]. by apply Hq in Ep.
Qed.

Lemma findSetting_written kind x : includes kind schemaSettings = true ->
  findSetting kind x = List.find (fun e => bool_decide (setting_kind e = kind)) (writtenSettings Schema x).
Proof.
  intros Hk. unfold findSetting, writtenSettings. symmetry. apply (find_filter _ (fun s => negb (bool_decide (Schema = Schema)) || includes (setting_kind s) schemaSettings)).
  intros s ->%bool_decide_eq_true. by rewrite Hk, orb_true_r.
Qed.

Lemma written_kinds ws : NoDup (map setting_kind ws) -> (forall s, s ∈ ws -> includes (setting_kind s) schemaSettings = true) ->
  ws = [] \/ ws = [SImmutable] \/ exists a, ws = [SAudit a] \/ ws = [SImmutable; SAudit a] \/ ws = [SAudit a; SImmutable].
Proof.
  intros Hn Hw.
  assert (Hk : forall s, s ∈ ws -> s = SImmutable \/ exists a, s = SAudit a).
  { intros s Hs. specialize (Hw s Hs). unfold includes, schemaSettings in Hw. apply bool_decide_eq_true in Hw.
    rewrite !elem_of_cons, elem_of_nil in Hw. destruct Hw as [E|[E|[]]]; [left; by apply setting_immutable|right; by apply setting_audit]. }
  destruct ws as [|x ws]; [by left|]. right. destruct ws as [|y ws].
  { destruct (Hk x ltac:(by left)) as [->|[a ->]]; [by left|right; by eauto]. }
  right. destruct ws as [|z ws].
  - destruct (Hk x ltac:(by left)) as [->|[a ->]], (Hk y ltac:(by right; left)) as [->|[b ->]]; try by eauto.
    + simpl in Hn. apply NoDup_cons in Hn as [Hn _]. destruct Hn. by left.
    + simpl in Hn. apply NoDup_cons in Hn as [Hn _]. destruct Hn. by left.
  - exfalso. simpl in Hn. rewrite !NoDup_cons, !not_elem_of_cons in Hn.
    destruct Hn as ((N1 & N2 & _) & (N3 & _) & _).
    destruct (Hk x ltac:(by left)) as [->|[a ->]], (Hk y ltac:(by right; left)) as [->|[b ->]], (Hk z ltac:(by right; right; left)) as [->|[c ->]]; simpl in *; done.
Qed.

Lemma settingsLines_schema x : NoDup (map setting_kind (writtenSettings Schema x)) ->
  match t_settings x with Some s => settingsLines x Schema s | None => [] end =
  match schemaLines x with [] => [] | l => ["  settings {"] ++ map (fun t => str ["    "; t]) l ++ ["  }"] end.
Proof.
  intros Hn. rewrite settingsLines_written by done.
  set (w := filter _ (match t_settings x with Some s => ss_settings s | None => [] end)).
  assert (Ew : map sl_setting w = writtenSettings Schema x).
  { unfold w, writtenSettings, tableSettings. destruct (t_settings x); [|done].
    by rewrite (filter_map_settings (fun s => negb (bool_decide (Schema = Schema)) || includes (setting_kind s) schemaSettings = true)). }
  unfold schemaLines, isImmutable, auditOf. rewrite !findSetting_written by done.
  assert (Hw : forall s, s ∈ writtenSettings Schema x -> includes (setting_kind s) schemaSettings = true).
  { intros s [Hs _]%list_elem_of_filter. by rewrite bool_decide_eq_true_2 in Hs. }
  destruct (written_kinds _ Hn Hw) as [E|[E|(a & [E|[E|E]])]]; rewrite E in Ew |- *; clear E Hn Hw.
  all: destruct w as [|l1 [|l2 [|l3 w]]]; try discriminate Ew; unfold settingsBlock, sortSettings; cbn [foldr insertSetting]; cbn [map] in Ew; [..]; try reflexivity.
  all: try injection Ew as E1 E2; try injection Ew as E1; rewrite ?E1, ?E2; cbn [settingBefore]; try (vm_compute (settingBefore _ _)); cbn [map]; rewrite ?E1, ?E2; reflexivity.
Qed.

Definition auditFields (a : DbspecAuditSetting) : list string :=
  [au_into a; au_column a; au_references a; au_action a; au_previous a] ++
  match au_tables a with None => [""; ""; ""] | Some (table, record, name) => [table; record; name] end.

Definition auditNames (a : DbspecAuditSetting) : list string :=
  [au_into a; au_column a; au_references a; au_action a; au_previous a] ++
  match au_tables a with None => [] | Some (table, record, name) => [table; record; name] end.

(** What an audit setting says of the table [x]. *)
Definition auditMeaning (x : DbspecTable) : option (list string * list string) :=
  match auditOf x with Some a => Some (auditFields a, auditExcluded a x) | None => None end.

Lemma auditFields_line a b list_ columns : names (auditNames a) -> names (auditNames b) -> auditFields a = auditFields b ->
  auditLine a list_ columns = auditLine b list_ columns.
Proof.
  unfold auditFields, auditNames, auditLine. intros Ha Hb [= -> -> -> -> -> E].
  destruct (au_tables a) as [[[t r] n]|], (au_tables b) as [[[t' r'] n']|].
  4: reflexivity.
  1: by injection E as -> -> ->.
  all: unfold names in *; rewrite Forall_app in Ha, Hb; destruct Ha as [_ Ha], Hb as [_ Hb]; injection E as E1 E2 E3; subst;
    first [apply Forall_inv in Ha; discriminate Ha|apply Forall_inv in Hb; discriminate Hb].
Qed.

Lemma auditFields_plain a : names (auditNames a) -> Forall (fun s => has_char " " s = false) (auditFields a).
Proof.
  unfold names, auditNames, auditFields. rewrite !Forall_app. intros [H1 H2].
  split; [by apply names_char|]. destruct (au_tables a) as [[[t r] n]|]; [by apply names_char|by repeat constructor].
Qed.

Lemma join_join sep l k : l <> [] -> join sep (join sep l :: k) = join sep (l ++ k).
Proof.
  intros Hl. assert (Hc : forall x m, join sep (x :: m) = x +:+ match m with [] => "" | _ => sep +:+ join sep m end).
  { intros x [|y m]; [by rewrite string_app_nil_r|done]. }
  induction l as [|x l IH]; [done|]. destruct l as [|y l]; [done|].
  change ((x :: y :: l) ++ k) with (x :: ((y :: l) ++ k)). rewrite (Hc x (y :: l)), (Hc _ k), (Hc x), <- IH, (Hc _ k) by done.
  cbn [app]. by rewrite !string_app_assoc.
Qed.

Lemma filter_same {A} (P Q : A -> Prop) `{!forall x, Decision (P x), !forall x, Decision (Q x)} (l : list A) :
  (forall x, x ∈ l -> P x <-> Q x) -> filter P l = filter Q l.
Proof.
  induction l as [|x l IH]; intros Hl; [done|]. rewrite !filter_cons, IH by (intros; apply Hl; by right).
  specialize (Hl x ltac:(by left)). destruct (decide (P x)), (decide (Q x)); tauto.
Qed.

(** The compared text of an audit joins its fields and the columns it leaves out. *)
Lemma settingOf_audit x s t : map bareColumn (t_columns s) = map bareColumn (t_columns t) ->
  NoDup (map col_name (t_columns s)) -> map bareColumn (t_columns x) = map bareColumn (t_columns t) ->
  settingOf x "audit" s t = match auditMeaning x with Some (fields, excluded) => Some (join " " (fields ++ excluded)) | None => None end.
Proof.
  intros Es Ns Ex. unfold settingOf, auditMeaning, auditOf, findSetting. destruct (List.find _ (tableSettings x)) as [e|] eqn:E; [|done].
  apply List.find_some in E as [_ E%bool_decide_eq_true]. apply setting_audit in E as [a ->]. f_equal.
  rewrite (filter_same _ (fun c => negb (auditRecords a (col_name c)) = true)).
  - fold (auditExcluded a t). rewrite (auditExcluded_columns a x t Ex), <- join_join by done. f_equal. f_equal. unfold auditFields.
    destruct (au_tables a) as [[[? ?] ?]|]; unfold str, join; cbn [foldr app]; by rewrite ?string_app_nil_r.
  - intros c Hc. assert (Hb : bareColumn c ∈ map bareColumn (t_columns s)) by (rewrite Es; by apply list_elem_of_fmap_2).
    apply list_elem_of_fmap in Hb as (sc & Eb & Hsc). injection Eb as -> _. rewrite columnOf_elem by done. done.
Qed.

Lemma settingOf_immutable x s t : settingOf x "immutable" s t = if isImmutable x then Some "immutable" else None.
Proof.
  unfold settingOf, isImmutable, findSetting. destruct (List.find _ (tableSettings x)) as [e|] eqn:E; [|done].
  apply List.find_some in E as [_ E%bool_decide_eq_true]. by apply setting_immutable in E as ->.
Qed.

(** ** Tables *)

(** The names that a table's definitions list. *)
Definition tableNames (t : DbspecTable) : list string :=
  map col_name (t_columns t) ++ pk_columns (t_primaryKey t) ++ concat (map un_columns (t_uniques t)) ++ concat (map indexNames (t_indexes t)) ++
  concat (map foreignKeyNames (t_foreignKeys t)) ++ match auditOf t with Some a => auditNames a | None => [] end.

(** What the checks of the parser promise of a table. *)
Record wellNamed (t : DbspecTable) : Prop := {
  wn_distinct : distinctNames t;
  wn_columns : NoDup (map col_name (t_columns t));
  wn_settings : NoDup (map setting_kind (writtenSettings Schema t));
  wn_names : names (tableNames t)
}.

(** Two tables with the same schema: comments, the order of objects and settings
    outside the schema may differ. *)
Record sameSchema (s t : DbspecTable) : Prop := {
  ss_columns : map bareColumn (t_columns s) = map bareColumn (t_columns t);
  ss_primaryKey : pk_columns (t_primaryKey s) = pk_columns (t_primaryKey t);
  ss_uniques : map bareUnique (t_uniques s) ≡ₚ map bareUnique (t_uniques t);
  ss_indexes : map bareIndex (t_indexes s) ≡ₚ map bareIndex (t_indexes t);
  ss_foreignKeys : map bareForeignKey (t_foreignKeys s) ≡ₚ map bareForeignKey (t_foreignKeys t);
  ss_checks : map bareCheck (t_checks s) ≡ₚ map bareCheck (t_checks t);
  ss_immutable : isImmutable s = isImmutable t;
  ss_audit : auditMeaning s = auditMeaning t
}.

Lemma names_concat {A} (f : A -> list string) l a : names (concat (map f l)) -> a ∈ l -> names (f a).
Proof.
  unfold names. rewrite Forall_concat, Forall_fmap, Forall_forall. intros Hl Ha. by apply Hl.
Qed.

Lemma compareSettings_nil s t kind : compareSettings s t kind = [] <-> settingOf s kind s t = settingOf t kind s t.
Proof.
  unfold compareSettings. destruct (decide _) as [E|E]; [done|]. split; [|done]. rewrite app_nil.
  destruct (settingOf s kind s t), (settingOf t kind s t); try done; by intros [? ?].
Qed.

Lemma auditMeaning_text s t : map bareColumn (t_columns s) = map bareColumn (t_columns t) -> wellNamed s -> wellNamed t ->
  settingOf s "audit" s t = settingOf t "audit" s t <-> auditMeaning s = auditMeaning t.
Proof.
  intros E [_ Ns _ As] [_ _ _ At]. rewrite !settingOf_audit by done. split; [|by intros ->].
  unfold tableNames, names in As, At. rewrite !Forall_app in As, At. destruct As as (Cs & _ & _ & _ & _ & As), At as (Ct & _ & _ & _ & _ & At).
  unfold auditMeaning. destruct (auditOf s) as [a|], (auditOf t) as [b|]; try done. intros [= Ej].
  assert (Hx : forall a x, names (map col_name (t_columns x)) -> names (auditNames a) -> Forall (fun s => has_char " " s = false) (auditFields a ++ auditExcluded a x)).
  { intros a' x Hc Ha. apply Forall_app. split; [by apply auditFields_plain|]. unfold auditExcluded. apply (names_char " "); [done|].
    unfold names in *. rewrite Forall_forall in *. intros n (c & -> & [_ Hin]%list_elem_of_filter)%list_elem_of_fmap. apply Hc. by apply list_elem_of_fmap_2. }
  pose proof (f_equal (split_on " ") Ej) as Es. rewrite !good_spaces in Es by (done || by apply Hx).
  change (auditFields a ++ auditExcluded a s = auditFields b ++ auditExcluded b t) in Es.
  apply app_inj_1 in Es as [E1 E2]; [by rewrite E1, E2|]. unfold auditFields. by destruct (au_tables a) as [[[? ?] ?]|], (au_tables b) as [[[? ?] ?]|].
Qed.

Lemma compareTables_nil s t : wellNamed s -> wellNamed t -> compareTables s t = [] <-> sameSchema s t.
Proof.
  intros Ws Wt. pose proof Ws as [[Us Is Fs Ks] Ns _ As]. pose proof Wt as [[Ut It Ft Kt] Nt _ At].
  unfold tableNames, names in As, At. rewrite !Forall_app in As, At.
  destruct As as (Cs & Ps & Cus & Cis & Cfs & _), At as (Ct & Pt & Cut & Cit & Cft & _).
  assert (E : compareTables s t = columnParts s t ++
    (if decide (join "," (pk_columns (t_primaryKey s)) = join "," (pk_columns (t_primaryKey t))) then [] else [("change_primary_key", "")]) ++
    compareObjects "unique" un_name (fun u => join "," (un_columns u)) (t_uniques s) (t_uniques t) ++
    compareObjects "index" ix_name (fun x => indexDef x id) (t_indexes s) (t_indexes t) ++
    compareObjects "foreign_key" fk_name (fun f => foreignKeyDef (fk_columns f) (fk_table f) (fk_references f) f) (t_foreignKeys s) (t_foreignKeys t) ++
    compareObjects "check" ck_name ck_expression (t_checks s) (t_checks t) ++
    compareSettings s t "immutable" ++ compareSettings s t "audit").
  { unfold compareTables, columnParts. by rewrite <- !app_assoc. }
  rewrite E, !app_nil, columnParts_nil by done. clear E.
  rewrite (compareObjects_nil "unique" un_name _ bareUnique), (compareObjects_nil "index" ix_name _ bareIndex),
    (compareObjects_nil "foreign_key" fk_name _ bareForeignKey), (compareObjects_nil "check" ck_name _ bareCheck); try done.
  - rewrite !compareSettings_nil, !settingOf_immutable. split.
    + intros (E1 & E2 & E3 & E4 & E5 & E6 & E7 & E8). rewrite auditMeaning_text in E8 by done. constructor; try done.
      * destruct (decide _) as [E|] in E2; [|done]. by apply (join_inj ",") in E.
      * by destruct (isImmutable s), (isImmutable t).
    + intros [E1 E2 E3 E4 E5 E6 E7 E8]. rewrite auditMeaning_text, E2, E7, decide_True by done. done.
  - intros a b _ _ En. unfold bareCheck. rewrite En. split; [by intros ->|by intros [= ->]].
  - intros a b Ha Hb En. unfold bareForeignKey. rewrite En. split.
    + intros (-> & -> & -> & -> & ->)%foreignKeyDef_inj; [done|exact (names_concat _ _ _ Cfs Ha)|exact (names_concat _ _ _ Cft Hb)].
    + intros [= E1 E2 E3 E4 E5]. unfold foreignKeyDef. by rewrite E1, E2, E3, E4, E5.
  - intros a b Ha Hb En. unfold bareIndex. rewrite En. split.
    + intros ->%indexDef_inj; [done|exact (names_concat _ _ _ Cis Ha)|exact (names_concat _ _ _ Cit Hb)].
    + intros [= E1]. unfold indexDef. by rewrite E1.
  - intros a b Ha Hb En. unfold bareUnique. rewrite En. split.
    + intros ->%(join_inj ","); [done|done|exact (names_concat _ _ _ Cus Ha)|exact (names_concat _ _ _ Cut Hb)].
    + by intros [= ->].
Qed.

Lemma tableLines_schema s t : t_name s = t_name t -> wellNamed s -> wellNamed t -> sameSchema s t -> tableLines Schema s = tableLines Schema t.
Proof.
  intros En [Ds _ Ks As] [_ _ Kt At] [E1 E2 E3 E4 E5 E6 E7 E8]. apply tableLines_parts; try done.
  rewrite !settingsLines_schema by done. replace (schemaLines t) with (schemaLines s); [done|]. unfold schemaLines. rewrite E7. f_equal.
  unfold tableNames, names in As, At. rewrite !Forall_app in As, At. destruct As as (_ & _ & _ & _ & _ & As), At as (_ & _ & _ & _ & _ & At).
  unfold auditMeaning in E8. destruct (auditOf s) as [a|], (auditOf t) as [b|]; try done. assert (E9 : (auditFields a, auditExcluded a s) = (auditFields b, auditExcluded b t)) by congruence.
  pose proof (f_equal snd E9) as Ee. cbn [snd] in Ee. rewrite Ee. f_equal. apply auditFields_line; [done|done|]. exact (f_equal fst E9).
Qed.

(** ** Schemas *)

Lemma assoc_fold {A V} (key : A -> string) (value : A -> V) l : NoDup (map key l) -> forall m n,
  assoc n (foldl (fun m e => assoc_set (key e) (value e) m) m l) =
  match List.find (fun e => bool_decide (key e = n)) l with Some e => Some (value e) | None => assoc n m end.
Proof.
  induction l as [|x l IH]; intros Hn m n; [done|]. cbn [map] in Hn. apply NoDup_cons in Hn as [Hx Hn]. cbn [foldl List.find]. rewrite IH by done.
  destruct (List.find _ l) as [e|] eqn:E.
  - apply List.find_some in E as [He%list_elem_of_In E%bool_decide_eq_true]. rewrite bool_decide_eq_false_2; [done|].
    intros E'. apply Hx. rewrite E', <- E. by apply list_elem_of_fmap_2.
  - rewrite assoc_set_get. destruct (decide (n = key x)) as [->|Hne]; [by rewrite bool_decide_eq_true_2|]. by rewrite bool_decide_eq_false_2 by done.
Qed.

Lemma tableMap_assoc tables n t : NoDup (map t_name tables) -> assoc n (tableMap tables) = Some t <-> t ∈ tables /\ t_name t = n.
Proof.
  intros Hn. split; [apply tableMap_spec|]. intros [Ht <-]. unfold tableMap. by rewrite (assoc_fold t_name id), (find_key t_name tables t).
Qed.

(** The names of both maps, in order. *)
Lemma mergedKeys_elem {V} (s t : list (string * V)) k : NoDup (map fst t) ->
  k ∈ sortedKeys (foldl (fun m e => assoc_set (fst e) (snd e) m) s t) <-> is_Some (assoc k s) \/ is_Some (assoc k t).
Proof.
  intros Hn. rewrite sortedKeys_elem, (assoc_fold fst snd) by done. destruct (List.find _ t) as [[k' v]|] eqn:E.
  - apply List.find_some in E as [Hin%list_elem_of_In E%bool_decide_eq_true]. cbn [fst] in E. subst k'. apply (assoc_in k v t Hn) in Hin.
    rewrite Hin. split; intros _; [right|]; by eexists.
  - split; [by left|]. intros [H|[v H]]; [done|]. apply assoc_in in H; [|done]. apply List.find_none with (x := (k, v)) in E; [|by apply list_elem_of_In].
    by rewrite bool_decide_eq_true_2 in E.
Qed.

Lemma sortDifferences_nil l : sortDifferences l = [] <-> l = [].
Proof.
  split; [|by intros ->]. destruct l as [|d l]; [done|]. unfold sortDifferences. simpl. generalize (foldr insertDifference [] l) as k.
  intros [|x k]; simpl; [done|]. by destruct (differenceBefore d x).
Qed.

Lemma tableDifferences_nil s t n : tableDifferences s t n = [] <->
  exists a b, assoc n s = Some a /\ assoc n t = Some b /\ compareTables a b = [].
Proof.
  unfold tableDifferences. rewrite sortDifferences_nil. split.
  - intros H%map_eq_nil. destruct (assoc n s) as [a|], (assoc n t) as [b|]; try done. by exists a, b.
  - by intros (a & b & -> & -> & ->).
Qed.

(** The two lists hold the same tables under the same names. *)
Definition sameTables (l k : list DbspecTable) : Prop := Forall2 (fun a b => t_name a = t_name b /\ sameSchema a b) (sort_by t_name l) (sort_by t_name k).

Lemma sameTables_names l k : NoDup (map t_name l) -> NoDup (map t_name k) ->
  sameTables l k <->
  (forall n, n ∈ map t_name l <-> n ∈ map t_name k) /\ (forall a b, a ∈ l -> b ∈ k -> t_name a = t_name b -> sameSchema a b).
Proof.
  intros Hl Hk. unfold sameTables. split.
  - intros H. assert (En : map t_name (sort_by t_name l) = map t_name (sort_by t_name k)).
    { induction H as [|a b l' k' [E _] _ IH]; [done|]. cbn [map]. by rewrite E, IH. }
    assert (Ep : forall n, n ∈ map t_name l <-> n ∈ map t_name k).
    { intros n. rewrite <- (sort_by_perm t_name l), <- (sort_by_perm t_name k). by rewrite En. }
    split; [exact Ep|]. intros a b Ha Hb E. rewrite <- (sort_by_perm t_name l) in Ha. rewrite <- (sort_by_perm t_name k) in Hb.
    apply list_elem_of_lookup in Ha as [i Ha]. destruct (Forall2_lookup_l _ _ _ _ _ H Ha) as (b' & Hb' & En' & Hs).
    assert (b = b') as ->; [|done]. apply (key_inj t_name (sort_by t_name k)); [by rewrite sort_by_perm|done|by eapply list_elem_of_lookup_2|congruence].
  - intros [Hn Hs]. assert (En : map t_name (sort_by t_name l) = map t_name (sort_by t_name k)).
    { apply (sorted_unique id); rewrite ?map_id; [apply sort_by_sorted|apply sort_by_sorted|by rewrite sort_by_perm|].
      rewrite !sort_by_perm. by apply NoDup_Permutation. }
    apply Forall2_same_length_lookup. split; [by rewrite <- (length_map t_name), En, length_map|]. intros i a b Ha Hb.
    assert (E : t_name a = t_name b).
    { pose proof (f_equal (fun m => m !! i) En) as E. cbn beta in E. rewrite !list_lookup_fmap, Ha, Hb in E. by injection E. }
    split; [done|]. apply Hs; [| |done]; rewrite <- (sort_by_perm t_name _); by eapply list_elem_of_lookup_2.
Qed.

Section schemas.
Context (source target : DbspecDocument).
Context (Ns : NoDup (map t_name (doc_tables source))) (Nt : NoDup (map t_name (doc_tables target))).
Context (Hw : forall t, t ∈ doc_tables source \/ t ∈ doc_tables target -> wellNamed t).

Lemma tablesDifferences_nil :
  concat (map (tableDifferences (tableMap (doc_tables source)) (tableMap (doc_tables target)))
    (sortedKeys (foldl (fun m e => assoc_set (fst e) (snd e) m) (tableMap (doc_tables source)) (tableMap (doc_tables target))))) = [] <->
  sameTables (doc_tables source) (doc_tables target).
Proof.
  rewrite sameTables_names, concat_nil_iff by done. split.
  - intros H.
    assert (Hboth : forall n, n ∈ map t_name (doc_tables source) \/ n ∈ map t_name (doc_tables target) ->
      exists a b, a ∈ doc_tables source /\ b ∈ doc_tables target /\ t_name a = n /\ t_name b = n /\ sameSchema a b).
    { intros n Hn. destruct (proj1 (tableDifferences_nil (tableMap (doc_tables source)) (tableMap (doc_tables target)) n)) as (a & b & Ha & Hb & Hc).
      { apply H, mergedKeys_elem; [apply tableMap_spec|].
        destruct Hn as [(x & -> & Hx)%list_elem_of_fmap|(x & -> & Hx)%list_elem_of_fmap]; [left|right]; exists x; by apply tableMap_assoc. }
      apply tableMap_assoc in Ha as [Ha Ea], Hb as [Hb Eb]; [|done..]. exists a, b. split_and!; try done.
      apply compareTables_nil; [apply Hw; by left|apply Hw; by right|done]. }
    split.
    + intros n. split; intros Hn; [destruct (Hboth n) as (a & b & _ & Hb & _ & <- & _); [by left|]|destruct (Hboth n) as (a & b & Ha & _ & <- & _); [by right|]];
        by apply list_elem_of_fmap_2.
    + intros a b Ha Hb E. destruct (Hboth (t_name a)) as (a' & b' & Ha' & Hb' & Ea & Eb & Hs); [left; by apply list_elem_of_fmap_2|].
      apply (key_inj t_name (doc_tables source)) in Ea as ->; [|done..].
      assert (b' = b) as ->; [|done]. apply (key_inj t_name (doc_tables target)); [done..|congruence].
  - intros [Hn Hs] n Hin. apply mergedKeys_elem in Hin; [|apply tableMap_spec]. apply tableDifferences_nil.
    assert (Hsrc : n ∈ map t_name (doc_tables source)).
    { destruct Hin as [[x Hx]|[x Hx]]; apply tableMap_assoc in Hx as [Hx <-]; try done; [|apply Hn]; by apply list_elem_of_fmap_2. }
    pose proof (proj1 (Hn n) Hsrc) as Htgt. apply list_elem_of_fmap in Hsrc as (a & -> & Ha), Htgt as (b & E & Hb). exists a, b.
    split; [by apply tableMap_assoc|]. split; [by apply tableMap_assoc|]. apply compareTables_nil; [apply Hw; by left|apply Hw; by right|by apply Hs].
Qed.

Lemma sameTables_text : sameTables (doc_tables source) (doc_tables target) ->
  emitDocument (schemaDocument [] (doc_tables source)) Schema = emitDocument (schemaDocument [] (doc_tables target)) Schema.
Proof.
  intros H. unfold schemaDocument, emitDocument, documentLines. cbn [doc_name doc_uses doc_tables]. do 4 f_equal.
  unfold sameTables in H. assert (Hl : forall a, a ∈ sort_by t_name (doc_tables source) -> wellNamed a) by (intros a Ha; apply Hw; left; by apply elem_of_sort_by in Ha).
  assert (Hr : forall a, a ∈ sort_by t_name (doc_tables target) -> wellNamed a) by (intros a Ha; apply Hw; right; by apply elem_of_sort_by in Ha).
  revert H Hl Hr. generalize (sort_by t_name (doc_tables source)) as l, (sort_by t_name (doc_tables target)) as k.
  induction 1 as [|a b l k [En Hs] _ IH]; intros Hl Hr; [done|]. cbn [map concat]. rewrite IH; [|intros; apply Hl; by right|intros; apply Hr; by right].
  by rewrite (tableLines_schema a b) by first [done|apply Hl; by left|apply Hr; by left].
Qed.

(** C30: a comparison has no difference exactly when both sides are schema texts
    with the same tables: the same columns in order, primary key, unique keys,
    indexes, foreign keys, checks, and immutable and audit settings; and the
    schema text of the tables, the text that is hashed, is then the same. *)
Theorem compareSchemas_exact :
  (compareSchemas source target = inl [] <->
   isSchemaText source = true /\ isSchemaText target = true /\ sameTables (doc_tables source) (doc_tables target)) /\
  (sameTables (doc_tables source) (doc_tables target) ->
   emitDocument (schemaDocument [] (doc_tables source)) Schema = emitDocument (schemaDocument [] (doc_tables target)) Schema).
Proof.
  split; [|exact sameTables_text]. rewrite <- tablesDifferences_nil. unfold compareSchemas.
  destruct (isSchemaText source), (isSchemaText target); simpl; try (split; [done|by intros (? & ? & ?)]).
  split; [by intros [= ->]|by intros (_ & _ & ->)].
Qed.
End schemas.

(** ** Two documents *)

Definition logged : DbspecSetting := SAudit (mkAudit "log" "record_id" "records" "action" "previous" None (Some ["note"]) None).

Definition orderTable (uniques : list DbspecUnique) (settings : list DbspecSetting) : DbspecTable :=
  mkTable [] "orders" [mkColumn [] "id" TI64 false true None; mkColumn [] "code" (TVarchar 20) false false None;
                       mkColumn [] "note" TText true false None; mkColumn [] "record_id" TI64 false false None]
    (mkPrimaryKey [] ["id"]) uniques [mkIndex [] "i_note" [mkIndexColumn "record_id" true]] [] []
    (Some (mkSettingsBlock [] (map (mkSettingLine []) settings) [])) [].

Definition orderUniques : list DbspecUnique := [mkUnique [] "u_code" ["code"]; mkUnique [] "u_both" ["code"; "record_id"]].

Definition orders (uses : list DbspecUse) : DbspecDocument := mkDocument "schema" false uses [orderTable orderUniques [SImmutable; logged]] [] [].
Definition ordersAgain : DbspecDocument := mkDocument "schema" false [] [orderTable (rev orderUniques) [logged; SImmutable]] [] [].

Lemma orders_named t : t ∈ doc_tables (orders []) \/ t ∈ doc_tables ordersAgain -> wellNamed t.
Proof.
  intros [H|H]; apply list_elem_of_singleton in H as ->; (split; [split|..]); try by apply (bool_decide_unpack _).
  all: unfold names; by repeat constructor.
Qed.

Lemma compareSchemas_exact_witness : compareSchemas (orders []) ordersAgain = inl [] /\ sameTables (doc_tables (orders [])) (doc_tables ordersAgain).
Proof.
  destruct (compareSchemas_exact (orders []) ordersAgain) as [E _].
  - by apply (bool_decide_unpack _).
  - by apply (bool_decide_unpack _).
  - exact orders_named.
  - assert (H : compareSchemas (orders []) ordersAgain = inl []) by (vm_compute; reflexivity). split; [exact H|]. by apply E in H as (_ & _ & H).
Defined.

(** the comparison does not look at [use] lines: two schema texts that use
    different tables of an external document have no difference, although
    their texts, and so their hashes, differ. *)
Theorem compare_ignores_uses :
  compareSchemas (orders [mkUse [] "base" ["users"]]) (orders [mkUse [] "base" ["teams"; "users"]]) = inl [] /\
  emitDbspec (orders [mkUse [] "base" ["users"]]) <> emitDbspec (orders [mkUse [] "base" ["teams"; "users"]]).
Proof. split; [vm_compute; reflexivity|]. vm_compute. discriminate. Qed.
