(* ===== verification/PlanSteps.v ===== *)
(** * The steps of a plan ([dbspec/plan_steps.ts])

    The statements that take a database from the source schema of a plan to its
    target, each with its rollback, its effect and its restore statement.  A
    method of [PlanWriter] is a function that returns the steps it adds;
    SHA-256 is a parameter of the names that the renderer writes. *)

From S2P Require Import Prelude Documents Emit DocumentSet Check Plan Render PlanDiff.

(** ** Data *)

Record DbspecEffect := mkEffect { ef_kind : string; ef_table : string; ef_name : string; ef_present : bool }.

Record DbspecNullCheck := mkNullCheck { nc_table : string; nc_column : string; nc_default : option string }.

Record DbspecPlanStep := mkPlanStep {
  ps_statement : string;
  ps_rollback : string;
  ps_irreversible : string;
  ps_effect : DbspecEffect;
  ps_restore : string;
  ps_rollbackRestore : string;
  ps_restoreIf : option DbspecEffect;
  ps_nullChecks : list DbspecNullCheck;
  ps_finalize : bool }.

#[global] Instance DbspecEffect_eq_dec : EqDecision DbspecEffect.
Proof. solve_decision. Defined.
#[global] Instance DbspecNullCheck_eq_dec : EqDecision DbspecNullCheck.
Proof. solve_decision. Defined.
#[global] Instance DbspecPlanStep_eq_dec : EqDecision DbspecPlanStep.
Proof. solve_decision. Defined.

(** The text form of an effect. *)
Definition effectText (e : DbspecEffect) : string :=
  if decide (ef_kind e = "repeat") then "repeat"
  else str (str [if ef_present e then "present" else "absent"; " "; ef_kind e] ::
            map (fun n => if decide (n = "") then "" else str [" "; n]) [ef_table e; ef_name e]).

Definition irreversiblePrecision : string := "narrowing the precision rounds the values written since".
Definition rebuildTable : string := "dbspec$rebuild".

Definition presentEffect (kind table name : string) : DbspecEffect := mkEffect kind table name true.
Definition absentEffect (kind table name : string) : DbspecEffect := mkEffect kind table name false.
Definition repeatEffect : DbspecEffect := mkEffect "repeat" "" "" true.

(** A step with the optional parts empty, and the parts that a caller adds. *)
Definition step (statement rollback : string) (effect : DbspecEffect) : DbspecPlanStep :=
  mkPlanStep statement rollback "" effect "" "" None [] false.
Definition withChecks (checks : list DbspecNullCheck) (s : DbspecPlanStep) : DbspecPlanStep :=
  mkPlanStep (ps_statement s) (ps_rollback s) (ps_irreversible s) (ps_effect s) (ps_restore s) (ps_rollbackRestore s) (ps_restoreIf s) checks (ps_finalize s).
Definition withIrreversible (reason : string) (s : DbspecPlanStep) : DbspecPlanStep :=
  mkPlanStep (ps_statement s) (ps_rollback s) reason (ps_effect s) (ps_restore s) (ps_rollbackRestore s) (ps_restoreIf s) (ps_nullChecks s) (ps_finalize s).
Definition withRestore (restore rollbackRestore : string) (restoreIf : DbspecEffect) (s : DbspecPlanStep) : DbspecPlanStep :=
  mkPlanStep (ps_statement s) (ps_rollback s) (ps_irreversible s) (ps_effect s) restore rollbackRestore (Some restoreIf) (ps_nullChecks s) (ps_finalize s).
Definition finalStep (s : DbspecPlanStep) : DbspecPlanStep :=
  mkPlanStep (ps_statement s) (ps_rollback s) (ps_irreversible s) (ps_effect s) (ps_restore s) (ps_rollbackRestore s) (ps_restoreIf s) (ps_nullChecks s) true.

(** The precision of a time or datetime. *)
Definition clockPrecision (t : DbspecType) : option Z := match t with TTime p | TDatetime p => Some p | _ => None end.

(** Tells whether the precision of a time or datetime grows. *)
Definition precisionGrows (from to : DbspecType) : bool :=
  match clockPrecision from, clockPrecision to with Some p, Some q => p <? q | _, _ => false end.

Definition concatR {A B} (f : A -> res (list B)) (l : list A) : res (list B) := r ← mapR f l; Ok (concat r).

Section writer.
Context (sha256 : string -> string) (dialect : DbspecDialect) (d : PlanDiff) (holdPrefix : string).

Definition q (name : string) : string := Renderer.q dialect name.
Definition isSqlite : bool := bool_decide (dialect = Sqlite).

(** [known(d.source.get(known(d.tableOf.get(name))))], and the target table. *)
Definition sourceOf (name : string) : res DbspecTable := sourceTable (pd_source d) (pd_tableOf d) name.
Definition targetOf (name : string) : res DbspecTable := present (assoc name (pd_target d)) "d.target.get(name)".
Definition listOf {V} (name : string) (m : list (string * list V)) : list V := default [] (assoc name m).

(** ** Holding names *)

(** The keys of [numberHolds] in order: dropped columns, dropped tables, added columns. *)
Definition holdKeys : res (list string) :=
  removed ← concatR (fun name => mapR (fun c => s ← present (assoc name (pd_tableOf d)) "d.tableOf.get(name)"; Ok (str [s; "."; c])) (listOf name (pd_removed d))) (pd_matched d);
  Ok (removed ++ pd_dropped d ++ concat (map (fun name => map (fun c => str ["+"; name; "."; c]) (listOf name (pd_added d))) (pd_matched d))).

(** [numberHolds]: each key under the prefix and its number from 1. *)
Definition numberHolds (keys : list string) : list (string * string) :=
  foldl (fun m e => assoc_set (snd e) (str [holdPrefix; pretty (Z.of_nat (fst e))]) m) [] (zip (seq 1 (length keys)) keys).

Section holds.
Context (holds : list (string * string)).

Definition hold (key : string) : res string :=
  match assoc key holds with Some h => Ok h | None => Err (JsError (str ["no holding name for "; key])) end.

(** ** Statements *)

Definition renameColumnSql (table from to : string) : string := str ["ALTER TABLE "; q table; " RENAME COLUMN "; q from; " TO "; q to].

Definition renameTableSql (from to : string) : string := str ["ALTER TABLE "; q from; " RENAME TO "; q to].

Definition dropIndex (table name : string) : string :=
  match dialect with MySql => str ["DROP INDEX "; q name; " ON "; q table] | _ => str ["DROP INDEX "; q name] end.

Definition createIndex (x : DbspecIndex) (table : string) : string :=
  str ["CREATE INDEX "; q (ix_name x); " ON "; q table; " (";
       join ", " (map (fun c => str [q (ic_name c); if ic_descending c then " DESC" else ""]) (ix_columns x)); ")"].

Definition createUnique (u : DbspecUnique) (table : string) : string :=
  str ["CREATE UNIQUE INDEX "; q (un_name u); " ON "; q table; " ("; Renderer.list_ dialect (un_columns u); ")"].

(** The unique keys and indexes of a table, named [name], in the renderer's
    order: name, create and drop statement. *)
Definition indexes (t : DbspecTable) (name : string) : list (string * string * string) :=
  (if isSqlite then map (fun u => (un_name u, createUnique u name, dropIndex name (un_name u))) (sortedBy (t_uniques t) un_name) else []) ++
  map (fun x => (ix_name x, createIndex x name, dropIndex name (ix_name x))) (sortedBy (t_indexes t) ix_name).

Definition createIndexes (t : DbspecTable) (name : string) : list DbspecPlanStep :=
  map (fun x => let '(n, create, drop_) := x in step create drop_ (presentEffect "index" name n)) (indexes t name).

Definition dropCheck (table name : string) : string :=
  match dialect with
  | MySql => str ["ALTER TABLE "; q table; " DROP CHECK "; q name]
  | _ => str ["ALTER TABLE "; q table; " DROP CONSTRAINT "; q name]
  end.

Definition addCheck (table name expression : string) : string := str ["ALTER TABLE "; q table; " ADD CONSTRAINT "; q name; " CHECK ("; expression; ")"].

Definition dropRendererCheck (table name expression : string) : DbspecPlanStep :=
  step (dropCheck table name) (addCheck table name expression) (absentEffect "constraint" table name).

(** The statement that adds an object of a table, the one that drops it, and the
    kind of its effect. *)
Definition objectStatements (t : DbspecTable) (name : string) (o : ObjectRef) : res (string * string * string) :=
  if decide (or_kind o = "unique") then
    u ← present (uniqueOf t (or_name o)) "uniqueOf(t, o.name)";
    let create := str ["ALTER TABLE "; q name; " ADD CONSTRAINT "; q (un_name u); " UNIQUE ("; Renderer.list_ dialect (un_columns u); ")"] in
    Ok match dialect with
       | Sqlite => (createUnique u name, dropIndex name (un_name u), "index")
       | MySql => (create, str ["ALTER TABLE "; q name; " DROP INDEX "; q (un_name u)], "index")
       | Postgres => (create, str ["ALTER TABLE "; q name; " DROP CONSTRAINT "; q (un_name u)], "constraint")
       end
  else if decide (or_kind o = "index") then
    x ← present (indexOf t (or_name o)) "indexOf(t, o.name)"; Ok (createIndex x name, dropIndex name (or_name o), "index")
  else if decide (or_kind o = "check") then
    k ← present (checkOf t (or_name o)) "checkOf(t, o.name)";
    e ← readCheck (ck_expression k) (ck_name k);
    p ← Renderer.predicate dialect t e;
    Ok (addCheck name (ck_name k) p, dropCheck name (ck_name k), "constraint")
  else if decide (or_kind o = "foreign_key") then
    f ← present (foreignKeyOf t (or_name o)) "foreignKeyOf(t, o.name)";
    let drop_ := match dialect with
                 | MySql => str ["ALTER TABLE "; q name; " DROP FOREIGN KEY "; q (fk_name f)]
                 | _ => str ["ALTER TABLE "; q name; " DROP CONSTRAINT "; q (fk_name f)]
                 end in
    Ok (str ["ALTER TABLE "; q name; " ADD "; Renderer.foreignKey dialect f], drop_, "constraint")
  else Err (JsError (str ["unknown object kind "; or_kind o])).

(** Drops an object of a source table; the rollback creates it again. *)
Definition dropObject (t : DbspecTable) (o : ObjectRef) : res DbspecPlanStep :=
  r ← objectStatements t (t_name t) o;
  let '(create, drop_, kind) := r in Ok (step drop_ create (absentEffect kind (t_name t) (or_name o))).

Definition addObject (table : string) (o : ObjectRef) : res DbspecPlanStep :=
  t ← present (assoc table (pd_target d)) "this.d.target.get(table)";
  r ← objectStatements t table o;
  let '(create, drop_, kind) := r in Ok (step create drop_ (presentEffect kind table (or_name o))).

(** The renderer CHECK names and expressions of a table. *)
Definition rendererChecks (t : DbspecTable) : list (string * string) :=
  foldl (fun m c => let check := Renderer.typeCheck dialect c in
                    if decide (check = "") then m else assoc_set (str [t_name t; "$"; col_name c]) check m) [] (t_columns t).

(** ** Triggers *)

Record TriggerPart := mkTriggerPart { tp_name : string; tp_create : string; tp_fn : string }.

(** [rest.slice(0, rest.indexOf(' '))] *)
Definition firstWord (rest : string) : string :=
  match String.index 0 " " rest with Some i => String.substring 0 i rest | None => String.substring 0 (String.length rest - 1) rest end.

(** Pairs each CREATE TRIGGER with its name and its PostgreSQL function. *)
Fixpoint partsOf (fn : string) (statements : list string) : list TriggerPart :=
  match statements with
  | [] => []
  | s :: statements =>
      if starts_with "CREATE FUNCTION " s then partsOf s statements
      else
        let quoted := firstWord (String.substring 15 (String.length s - 15) s) in
        mkTriggerPart (String.substring 1 (String.length quoted - 2) quoted) s fn :: partsOf "" statements
  end.
Definition triggerParts (t : DbspecTable) : list TriggerPart := partsOf "" (Renderer.triggers sha256 dialect t).

Definition dropTriggers (t : DbspecTable) : list DbspecPlanStep :=
  concat (map (fun p =>
    match dialect with
    | Postgres =>
        [step (str ["DROP TRIGGER "; q (tp_name p); " ON "; q (t_name t)]) (tp_create p) (absentEffect "trigger" (t_name t) (tp_name p));
         step (str ["DROP FUNCTION "; q (tp_name p); "()"]) (tp_fn p) (absentEffect "function" "" (tp_name p))]
    | _ => [step (str ["DROP TRIGGER "; q (tp_name p)]) (tp_create p) (absentEffect "trigger" (t_name t) (tp_name p))]
    end) (triggerParts t)).

Definition createTriggers (t : DbspecTable) : list DbspecPlanStep :=
  concat (map (fun p =>
    match dialect with
    | Postgres =>
        [step (tp_fn p) (str ["DROP FUNCTION "; q (tp_name p); "()"]) (presentEffect "function" "" (tp_name p));
         step (tp_create p) (str ["DROP TRIGGER "; q (tp_name p); " ON "; q (t_name t)]) (presentEffect "trigger" (t_name t) (tp_name p))]
    | _ => [step (tp_create p) (str ["DROP TRIGGER "; q (tp_name p)]) (presentEffect "trigger" (t_name t) (tp_name p))]
    end) (triggerParts t)).

(** ** Columns *)

Definition withName (c : DbspecColumn) (name : string) : DbspecColumn :=
  mkColumn (col_comments c) name (col_type c) (col_nullable c) (col_identity c) (col_default c).

(** The null check of the rollback that makes a source column non-null again. *)
Definition nullCheck (table column : string) (c : DbspecColumn) : res DbspecNullCheck :=
  match col_default c with
  | None => Ok (mkNullCheck table column None)
  | Some v => t ← Renderer.defaultText dialect (col_type c) v; Ok (mkNullCheck table column (Some t))
  end.

(** Makes a dropped column nullable and hides it under its holding name. *)
Definition hideColumn (table : string) (c : DbspecColumn) (h : string) : res (list DbspecPlanStep) :=
  loosened ← (if col_nullable c then Ok []
    else
      check ← nullCheck table h c;
      match dialect with
      | MySql =>
          loose ← Renderer.column dialect (mkColumn (col_comments c) (col_name c) (col_type c) true (col_identity c) (col_default c));
          own ← Renderer.column dialect c;
          Ok [withChecks [check] (step (str ["ALTER TABLE "; q table; " MODIFY COLUMN "; loose]) (str ["ALTER TABLE "; q table; " MODIFY COLUMN "; own]) repeatEffect)]
      | _ =>
          let prefix := str ["ALTER TABLE "; q table; " ALTER COLUMN "; q (col_name c)] in
          Ok [withChecks [check] (step (str [prefix; " DROP NOT NULL"]) (str [prefix; " SET NOT NULL"]) repeatEffect)]
      end);
  Ok (loosened ++ [step (renameColumnSql table (col_name c) h) (renameColumnSql table h (col_name c)) (presentEffect "column" table h)]).

(** Sets or drops a default. *)
Definition defaultSql (prefix : string) (type : DbspecType) (value : option DbspecDefault) : res string :=
  match value with
  | None => Ok (str [prefix; " DROP DEFAULT"])
  | Some v => t ← Renderer.defaultText dialect type v; Ok (str [prefix; " SET DEFAULT "; t])
  end.

Definition alterColumn (table : string) (from to : DbspecColumn) : res (list DbspecPlanStep) :=
  let irreversible := if precisionGrows (col_type from) (col_type to) then irreversiblePrecision else "" in
  let reversible := bool_decide (irreversible = "") in
  let source := withName from (col_name to) in
  checks ← (if negb (col_nullable from) && col_nullable to then c ← nullCheck table (col_name to) source; Ok [c] else Ok []);
  match dialect with
  | MySql =>
      rollback ← (if reversible then own ← Renderer.column dialect source; Ok (str ["ALTER TABLE "; q table; " MODIFY COLUMN "; own]) else Ok "");
      new ← Renderer.column dialect to;
      Ok [withIrreversible irreversible (withChecks checks (step (str ["ALTER TABLE "; q table; " MODIFY COLUMN "; new]) rollback repeatEffect))]
  | _ =>
      let prefix := str ["ALTER TABLE "; q table; " ALTER COLUMN "; q (col_name to)] in
      let typeChanges := negb (sameType (col_type from) (col_type to)) in
      let type := if typeChanges then
          let rollback := if reversible then str [prefix; " TYPE "; Renderer.typeText dialect (col_type from)] else "" in
          [withIrreversible irreversible (step (str [prefix; " TYPE "; Renderer.typeText dialect (col_type to)]) rollback repeatEffect)]
        else [] in
      let null := if Bool.eqb (col_nullable from) (col_nullable to) then []
        else if col_nullable to then [withChecks checks (step (str [prefix; " DROP NOT NULL"]) (str [prefix; " SET NOT NULL"]) repeatEffect)]
        else [step (str [prefix; " SET NOT NULL"]) (str [prefix; " DROP NOT NULL"]) repeatEffect] in
      defaults ← (if negb (sameDefault (col_default from) (col_default to)) || (bool_decide (is_Some (col_default to)) && typeChanges) then
          back ← defaultSql prefix (col_type from) (col_default from);
          forward ← defaultSql prefix (col_type to) (col_default to);
          Ok [step forward back repeatEffect]
        else Ok []);
      Ok (type ++ null ++ defaults)
  end.

(** ** The SQLite rebuild *)

(** The expression that copies a source value into the target column. *)
Definition copyValue (from to : DbspecColumn) : string :=
  match precisionGrows (col_type from) (col_type to), clockPrecision (col_type from), clockPrecision (col_type to) with
  | true, Some p, Some p' =>
      let pad := repeat_str "0" (Z.to_nat (p' - p)) in
      str [q (col_name to); " || '"; if decide (p = 0) then "." +:+ pad else pad; "'"]
  | _, _, _ => q (col_name to)
  end.

(** The target name of a source table: the first entry of [tableOf] that names it. *)
Definition targetName (source : string) : string :=
  match List.find (fun e => bool_decide (snd e = source)) (pd_tableOf d) with Some e => fst e | None => source end.

(** The target name of a source column of the target table [table]. *)
Definition targetColumnName (table c : string) : string :=
  match List.find (fun e => bool_decide (snd e = c)) (listOf table (pd_columnOf d)) with Some e => fst e | None => c end.

(** The last target name of a source table, as the map [targetOfTable] holds it. *)
Definition targetOfTable (source : string) : string :=
  default source (assoc source (foldl (fun m e => assoc_set (snd e) (fst e) m) [] (pd_tableOf d))).

(** The source table under the names that the renames changed. *)
Definition renamedSource (name : string) : res DbspecTable :=
  src ← sourceOf name;
  let rename := map (targetColumnName name) in
  checks ← mapR (fun k => e ← renameCheck k (targetColumnName name); Ok (mkCheck (ck_comments k) (ck_name k) e)) (t_checks src);
  Ok (mkTable (t_comments src) name
        (map (fun c => withName c (targetColumnName name (col_name c))) (t_columns src))
        (mkPrimaryKey (pk_comments (t_primaryKey src)) (rename (pk_columns (t_primaryKey src))))
        (map (fun u => mkUnique (un_comments u) (un_name u) (rename (un_columns u))) (t_uniques src))
        (map (fun x => mkIndex (ix_comments x) (ix_name x)
                         (map (fun c => mkIndexColumn (targetColumnName name (ic_name c)) (ic_descending c)) (ix_columns x))) (t_indexes src))
        (map (fun f => let parent := targetOfTable (fk_table f) in
                       mkForeignKey (fk_comments f) (fk_name f) (rename (fk_columns f)) parent (map (targetColumnName parent) (fk_references f))
                         (fk_onDelete f) (fk_onUpdate f)) (t_foreignKeys src))
        checks (t_settings src) (t_closingComments src)).

(** Whether SQLite rebuilds a matched table. *)
Definition structural (o : ObjectRef) : bool := includes (or_kind o) ["foreign_key"; "check"].

Definition sqliteRebuilds (name : string) : res bool :=
  if negb (bool_decide (assoc name (pd_tableOf d) = Some name)) || bool_decide (is_Some (assoc name (pd_added d))) ||
     bool_decide (is_Some (assoc name (pd_removed d))) || bool_decide (is_Some (assoc name (pd_altered d))) then Ok true
  else if existsb (fun r => bool_decide (cr_table r = name)) (pd_renamedColumns d) then Ok true
  else
    s ← present (assoc name (pd_tableOf d)) "d.tableOf.get(name)";
    if existsb structural (listOf s (pd_dropObjects d)) then Ok true else Ok (existsb structural (listOf name (pd_addObjects d))).

(** One column of the copy into the new definition: the column, the expression,
    and whether the column was there before. *)
Record CopyColumn := mkCopy { cp_into : string; cp_from : string; cp_kept : bool }.

Definition copyColumn (name : string) (src : DbspecTable) (columns : list (string * string)) (c : DbspecColumn) : res CopyColumn :=
  match assoc (col_name c) columns with
  | Some oldName => sc ← present (columnOf src oldName) "columnOf(src, oldName)"; Ok (mkCopy (q (col_name c)) (copyValue sc c) true)
  | None => h ← hold (str ["+"; name; "."; col_name c]); Ok (mkCopy (q (col_name c)) (q h) false)
  end.

(** One column of the way back: the column, the expression, whether its
    precision grew, and the null check of a column that loses its null. *)
Record BackColumn := mkBack { bk_into : string; bk_from : string; bk_grows : bool; bk_checks : list DbspecNullCheck }.

Definition backColumn (name : string) (src t : DbspecTable) (columns : list (string * string)) (removed : list string) (c : DbspecColumn) : res BackColumn :=
  let sourceName := default (col_name c) (assoc (col_name c) columns) in
  let hidden :=
    h ← hold (str [t_name src; "."; sourceName]);
    checks ← (if col_nullable c then Ok [] else k ← nullCheck name h c; Ok [k]);
    Ok (mkBack (q (col_name c)) (q h) false checks) in
  match columnOf t (col_name c) with
  | Some tc =>
      if includes sourceName removed then hidden
      else
        checks ← (if negb (col_nullable c) && col_nullable tc then k ← nullCheck name (col_name c) c; Ok [k] else Ok []);
        Ok (mkBack (q (col_name c)) (q (col_name c)) (precisionGrows (col_type c) (col_type tc)) checks)
  | None => hidden
  end.

(** The rows of [from] into [into]. *)
Definition copyRows (into : string) (columns : list string) (from : string) (values : list string) : string :=
  str ["INSERT INTO "; q into; " ("; join ", " columns; ") SELECT "; join ", " values; " FROM "; q from].
Definition deleteRows (table : string) : string := str ["DELETE FROM "; q table].
Definition dropTable (table : string) : string := str ["DROP TABLE "; q table].
Definition sequenceSql (to from : string) : string :=
  str ["INSERT INTO sqlite_sequence (name, seq) SELECT '"; to; "', seq FROM sqlite_sequence WHERE name = '"; from; "'"].
Definition unsequenceSql (n : string) : string := str ["DELETE FROM sqlite_sequence WHERE name = '"; n; "'"].

Definition when {A} (b : bool) (x : A) : list A := if b then [x] else [].

(** The columns with their holding names. *)
Definition hiddenColumns (t : DbspecTable) (key : string -> string) (names : list string) : res (list DbspecColumn) :=
  mapR (fun c => x ← present (columnOf t c) "columnOf(t, c)"; h ← hold (key c); Ok (withName x h)) names.

Definition rebuild (name : string) : res (list DbspecPlanStep) :=
  t ← targetOf name;
  src ← sourceOf name;
  let removed := listOf name (pd_removed d) in
  let added := listOf name (pd_added d) in
  columns ← present (assoc name (pd_columnOf d)) "d.columnOf.get(name)";
  hiddenDropped ← hiddenColumns src (fun c => str [t_name src; "."; c]) removed;
  old ← renamedSource name;
  hiddenAdded ← hiddenColumns t (fun c => str ["+"; name; "."; c]) added;
  let newCreate as_ := Renderer.createTable dialect t as_ (rendererName sha256 (t_name t)) hiddenDropped in
  oldCreate ← Renderer.createTable dialect old name (fun c => rendererName sha256 (t_name src) (default c (assoc c columns))) hiddenAdded;
  let newList := map q (map col_name (t_columns t) ++ map col_name hiddenDropped) in
  copies ← mapR (copyColumn name src columns) (t_columns t);
  let kept := filter (fun c => cp_kept c = true) copies in
  let dropped := zip removed hiddenDropped in
  let droppedInto := map (fun e => q (col_name (snd e))) dropped in
  let droppedFrom := map (fun e => q (fst e)) dropped in
  backs ← mapR (backColumn name src t columns removed) (t_columns old);
  let irreversible := if existsb bk_grows backs then irreversiblePrecision else "" in
  let checks := concat (map bk_checks backs) in
  let identity := existsb col_identity (t_columns t) in
  let restoreIf := match hiddenAdded with h :: _ => Some (presentEffect "column" name (col_name h)) | [] => None end in
  createWork ← newCreate rebuildTable;
  createNew ← newCreate name;
  let copyIn := step (copyRows rebuildTable (map cp_into kept ++ droppedInto) name (map cp_from kept ++ droppedFrom)) (deleteRows rebuildTable)
                  (presentEffect "rows" rebuildTable "") in
  let copyBack := copyRows name (map bk_into backs) rebuildTable (map bk_from backs) in
  let emptied := withChecks checks (step (deleteRows name) (if decide (irreversible = "") then copyBack else "") (absentEffect "rows" name "")) in
  Ok ([step createWork (dropTable rebuildTable) (presentEffect "table" rebuildTable "")] ++
      when identity (step (sequenceSql rebuildTable name) (unsequenceSql rebuildTable) (presentEffect "sequence" rebuildTable "")) ++
      [match restoreIf with
       | Some e => withRestore (copyRows rebuildTable (map cp_into copies ++ droppedInto) name (map cp_from copies ++ droppedFrom)) "" e copyIn
       | None => copyIn
       end] ++
      map (fun x => let '(n, create, drop_) := x in step drop_ create (absentEffect "index" name n)) (indexes old name) ++
      [if decide (irreversible = "") then
         match restoreIf with
         | Some e => withRestore "" (copyRows name (map bk_into backs ++ map (fun c => q (col_name c)) hiddenAdded) rebuildTable
                                      (map bk_from backs ++ map q added)) e emptied
         | None => emptied
         end
       else withIrreversible irreversible emptied] ++
      when identity (step (unsequenceSql name) (sequenceSql name rebuildTable) (absentEffect "sequence" name "")) ++
      [step (dropTable name) oldCreate (absentEffect "table" name "");
       step createNew (dropTable name) (presentEffect "table" name "")] ++
      when identity (step (sequenceSql name rebuildTable) (unsequenceSql name) (presentEffect "sequence" name "")) ++
      [step (copyRows name newList rebuildTable newList) (deleteRows name) (presentEffect "rows" name "");
       step (deleteRows rebuildTable) (copyRows rebuildTable newList name newList) (absentEffect "rows" rebuildTable "")] ++
      when identity (step (unsequenceSql rebuildTable) (sequenceSql rebuildTable name) (absentEffect "sequence" rebuildTable "")) ++
      [step (dropTable rebuildTable) createWork (absentEffect "table" rebuildTable "")] ++
      createIndexes t name).

(** ** The groups of steps *)

Section groups.
Context (rebuilt : list string).

Definition rebuilds (name : string) : bool := includes name rebuilt.
Definition triggersChange (name : string) : bool := includes name (pd_triggers d) || rebuilds name.

(** 1. Triggers *)
Definition dropTriggerSteps : res (list DbspecPlanStep) :=
  matched ← concatR (fun name => src ← sourceOf name; Ok (if hasTriggers src && triggersChange name then dropTriggers src else [])) (pd_matched d);
  dropped ← concatR (fun name => src ← present (assoc name (pd_source d)) "d.source.get(name)"; Ok (if hasTriggers src then dropTriggers src else [])) (pd_dropped d);
  Ok (matched ++ dropped).

Definition isForeignKey (o : ObjectRef) : bool := bool_decide (or_kind o = "foreign_key").
Definition isCheck (o : ObjectRef) : bool := bool_decide (or_kind o = "check").

(** The objects of the tables of a map, in name order, that pass the test. *)
Definition objectSteps (m : list (string * list ObjectRef)) (test : ObjectRef -> bool) (f : string -> ObjectRef -> res DbspecPlanStep) : res (list DbspecPlanStep) :=
  concatR (fun s => objects ← present (assoc s m) "objects.get(s)"; mapR (f s) (filter (fun o => test o = true) objects)) (sortedKeys m).

Definition dropSourceObject (s : string) (o : ObjectRef) : res DbspecPlanStep :=
  t ← present (assoc s (pd_source d)) "d.source.get(s)"; dropObject t o.

(** 2. Foreign keys *)
Definition dropKeySteps : res (list DbspecPlanStep) :=
  if isSqlite then Ok [] else objectSteps (pd_dropObjects d) isForeignKey dropSourceObject.

(** 3. Checks, unique keys, indexes, and the objects of dropped tables *)
Definition droppedObjects : res (list (string * list ObjectRef)) :=
  let changed := foldl (fun m e =>
      if isSqlite && (rebuilds (targetName (fst e)) || includes (fst e) (pd_dropped d)) then m
      else appendAll m (fst e) (filter (fun o => negb (isForeignKey o) && negb (isSqlite && isCheck o) = true) (snd e))) [] (pd_dropObjects d) in
  foldR (fun m s =>
    t ← present (assoc s (pd_source d)) "d.source.get(s)";
    Ok (appendAll m s (refsOf "unique" un_name (t_uniques t) ++ refsOf "index" ix_name (t_indexes t) ++
                       if isSqlite then [] else refsOf "check" ck_name (t_checks t)))) changed (pd_dropped d).

Definition dropObjectSteps : res (list DbspecPlanStep) :=
  m ← droppedObjects;
  concatR (fun s => objects ← present (assoc s m) "dropTables.get(s)"; mapR (dropSourceObject s) (sort_by refKey objects)) (sortedKeys m).

(** The renderer CHECKs of [checks] that [other] does not have. *)
Definition otherChecks (checks other : list (string * string)) : res (list (string * string)) :=
  concatR (fun n => check ← present (assoc n checks) "checks.get(n)"; Ok (if decide (assoc n other = Some check) then [] else [(n, check)])) (sortedKeys checks).

Definition dropCheckSteps : res (list DbspecPlanStep) :=
  if isSqlite then Ok []
  else
    matched ← concatR (fun name =>
      src ← sourceOf name;
      tgt ← targetOf name;
      gone ← otherChecks (rendererChecks src) (rendererChecks tgt);
      Ok (map (fun e => dropRendererCheck (t_name src) (fst e) (snd e)) gone)) (pd_matched d);
    dropped ← concatR (fun s =>
      src ← present (assoc s (pd_source d)) "d.source.get(s)";
      gone ← otherChecks (rendererChecks src) [];
      Ok (map (fun e => dropRendererCheck s (fst e) (snd e)) gone)) (pd_dropped d);
    Ok (matched ++ dropped).

(** 4. Renames *)
Definition renameSteps : list DbspecPlanStep :=
  map (fun r => step (renameTableSql (tr_old r) (tr_new r)) (renameTableSql (tr_new r) (tr_old r)) (presentEffect "table" (tr_new r) ""))
    (sortedBy (pd_renamedTables d) tr_old) ++
  map (fun r => step (renameColumnSql (cr_table r) (cr_old r) (cr_new r)) (renameColumnSql (cr_table r) (cr_new r) (cr_old r)) (presentEffect "column" (cr_table r) (cr_new r)))
    (sortedBy (pd_renamedColumns d) (fun r => columnPath (cr_table r) (cr_old r))).

(** 5. Hidden columns and tables *)
Definition hideSteps : res (list DbspecPlanStep) :=
  columns ← (if isSqlite then Ok [] else
    concatR (fun name =>
      src ← sourceOf name;
      concatR (fun c => x ← present (columnOf src c) "columnOf(src, c)"; h ← hold (str [t_name src; "."; c]); hideColumn name x h) (listOf name (pd_removed d)))
      (pd_matched d));
  tables ← mapR (fun name => h ← hold name; Ok (step (renameTableSql name h) (renameTableSql h name) (presentEffect "table" h ""))) (pd_dropped d);
  Ok (columns ++ tables).

(** 6. Created tables *)
Definition createSteps : res (list DbspecPlanStep) :=
  concatR (fun name =>
    t ← targetOf name;
    statements ← Renderer.table sha256 dialect t;
    create ← present (head statements) "this.r.table(t)[0]";
    Ok (step create (dropTable name) (presentEffect "table" name "") :: createIndexes t name)) (pd_created d).

(** 7. Added and altered columns, and the SQLite rebuilds *)
Definition addColumn (name : string) (t : DbspecTable) (c : string) : res DbspecPlanStep :=
  h ← hold (str ["+"; name; "."; c]);
  x ← present (columnOf t c) "columnOf(t, c)";
  sql ← Renderer.column dialect x;
  Ok (withRestore (renameColumnSql name h c) "" (presentEffect "column" name h)
        (step (str ["ALTER TABLE "; q name; " ADD COLUMN "; sql]) (renameColumnSql name c h) (presentEffect "column" name c))).

Definition columnSteps : res (list DbspecPlanStep) :=
  concatR (fun name =>
    if isSqlite then (if rebuilds name then rebuild name else Ok [])
    else
      t ← targetOf name;
      src ← sourceOf name;
      added ← mapR (addColumn name t) (listOf name (pd_added d));
      altered ← concatR (fun c =>
        columns ← present (assoc name (pd_columnOf d)) "d.columnOf.get(name)";
        old ← present (assoc c columns) "d.columnOf.get(name).get(c)";
        from ← present (columnOf src old) "columnOf(src, old)";
        to ← present (columnOf t c) "columnOf(t, c)";
        alterColumn name from to) (listOf name (pd_altered d));
      Ok (added ++ altered)) (pd_matched d).

(** 8. Added unique keys, indexes and checks *)
Definition addObjectSteps : res (list DbspecPlanStep) :=
  objects ← objectSteps (filter (fun e => rebuilds (fst e) = false) (pd_addObjects d)) (fun o => negb (isForeignKey o) && negb (isSqlite && isCheck o)) addObject;
  checks ← (if isSqlite then Ok [] else
    concatR (fun name =>
      src ← sourceOf name;
      tgt ← targetOf name;
      new ← otherChecks (rendererChecks tgt) (rendererChecks src);
      Ok (map (fun e => step (addCheck name (fst e) (snd e)) (dropCheck name (fst e)) (presentEffect "constraint" name (fst e))) new)) (pd_matched d));
  Ok (objects ++ checks).

(** 9. Added foreign keys *)
Definition addKeySteps : res (list DbspecPlanStep) :=
  if isSqlite then Ok []
  else
    created ← concatR (fun name => t ← targetOf name; mapR (addObject name) (refsOf "foreign_key" fk_name (sortedBy (t_foreignKeys t) fk_name))) (pd_created d);
    changed ← objectSteps (pd_addObjects d) isForeignKey addObject;
    Ok (created ++ changed).

(** 10. Triggers *)
Definition createTriggerSteps : res (list DbspecPlanStep) :=
  created ← concatR (fun name => t ← targetOf name; Ok (createTriggers t)) (pd_created d);
  matched ← concatR (fun name => t ← targetOf name; Ok (if hasTriggers t && triggersChange name then createTriggers t else [])) (pd_matched d);
  Ok (created ++ matched).

(** 11. Finalize: the holding name of each key, read back from the key. *)
Definition finalizeKey (key : string) : res (list DbspecPlanStep) :=
  h ← present (assoc key holds) "this.holds.get(key)";
  if starts_with "+" key then Ok []
  else
    match String.index 0 "." key with
    | Some dot =>
        let table := targetName (String.substring 0 dot key) in
        Ok [finalStep (step (str ["ALTER TABLE "; q table; " DROP COLUMN "; q h]) "" (absentEffect "column" table h))]
    | None => Ok [finalStep (step (dropTable h) "" (absentEffect "table" h ""))]
    end.

(** The steps before the finalize steps. *)
Definition forwardSteps : res (list DbspecPlanStep) :=
  triggers ← dropTriggerSteps;
  keys ← dropKeySteps;
  objects ← dropObjectSteps;
  checks ← dropCheckSteps;
  hidden ← hideSteps;
  created ← createSteps;
  columns ← columnSteps;
  newObjects ← addObjectSteps;
  newKeys ← addKeySteps;
  newTriggers ← createTriggerSteps;
  Ok (triggers ++ keys ++ objects ++ checks ++ renameSteps ++ hidden ++ created ++ columns ++ newObjects ++ newKeys ++ newTriggers).

End groups.
End holds.

(** [steps] *)
Definition writeSteps : res (list DbspecPlanStep) :=
  keys ← holdKeys;
  let holds := numberHolds keys in
  rebuilt ← (if isSqlite then filterR sqliteRebuilds (pd_matched d) else Ok []);
  forward ← forwardSteps holds rebuilt;
  final ← concatR (finalizeKey holds) keys;
  Ok (forward ++ final).

End writer.

Definition holdPrefixOf (to : string) : string := str ["dbspec$hold$"; String.substring 7 12 to; "$"].

Definition planSteps (sha256 : string -> string) (source : option DbspecDocument) (plan : DbspecPlan) (dialect : DbspecDialect)
    : res (list DbspecPlanStep + list DbspecDiagnostic) :=
  r ← planDiff sha256 source plan;
  match r with
  | inr diagnostics => Ok (inr diagnostics)
  | inl diff => steps ← writeSteps sha256 dialect diff (holdPrefixOf (p_to plan)); Ok (inl steps)
  end.
