(* ===== verification/PlanStepsFacts.v ===== *)
(** * What the steps of a plan keep

    Every step before the finalize steps can be undone or says why not, and what
    a plan drops is hidden first and dropped by a finalize step. *)

From S2P Require Import Prelude Documents Emit DocumentSet Keys DocumentFacts Check CheckFacts Plan PlanFacts Render PlanDiff PlanDiffFacts Compare PlanSteps.
From Stdlib Require Import Lia.

(** Takes a result of the error monad apart, outermost bind first. *)
Ltac run H := unfold mbind, res_bind in H; repeat match type of H with
  | match ?x with Ok _ => _ | Err _ => _ end = _ => destruct x eqn:?; [|discriminate H]
  | (let '(_, _) := ?x in _) = _ => destruct x
  end.

(** Puts the values of the results in place. *)
Ltac settle := repeat match goal with
  | E : Ok _ = Ok _ |- _ => injection E as <-
  | E : match ?x with Ok _ => _ | Err _ => _ end = Ok _ |- _ => destruct x eqn:?; [|discriminate E]
  end; cbn [app].

(** ** Loops that concatenate *)

Lemma concatR_Forall {A B} (P : B -> Prop) (f : A -> res (list B)) l r :
  (forall a b, a ∈ l -> f a = Ok b -> Forall P b) -> concatR f l = Ok r -> Forall P r.
Proof.
  unfold concatR, mbind, res_bind. intros Hf. destruct (mapR f l) as [rs|] eqn:E; [|done]. intros [= <-].
  apply Forall_concat, Forall_forall. intros b Hb. destruct (mapR_elem f l rs b E Hb) as (a & Ha & Eb). by eapply Hf.
Qed.

Lemma mapR_Forall_in {A B} (P : B -> Prop) (f : A -> res B) l r : (forall a b, a ∈ l -> f a = Ok b -> P b) -> mapR f l = Ok r -> Forall P r.
Proof. intros Hf E. apply Forall_forall. intros b Hb. destruct (mapR_elem f l r b E Hb) as (a & Ha & Eb). by eapply Hf. Qed.

Lemma mapR_pure {A B} (f : A -> res B) (g : A -> B) l : (forall x, f x = Ok (g x)) -> mapR f l = Ok (map g l).
Proof. intros Hf. induction l as [|x l IH]; [done|]. simpl. unfold mbind, res_bind. by rewrite Hf, IH. Qed.

Lemma mapR_all {A B} (f : A -> res B) l r a : mapR f l = Ok r -> a ∈ l -> exists b, f a = Ok b.
Proof.
  revert r. induction l as [|x l IH]; intros r H Ha; [by apply elem_of_nil in Ha|]. simpl in H. run H.
  apply elem_of_cons in Ha as [->|Ha]; [by eexists|by eapply IH].
Qed.

Lemma concatR_all {A B} (f : A -> res (list B)) l r a : concatR f l = Ok r -> a ∈ l -> exists b, f a = Ok b.
Proof. unfold concatR. intros H. run H. by apply mapR_all with (r := a0). Qed.

Lemma mapR_value {A B} (f : A -> res B) l r a b : mapR f l = Ok r -> a ∈ l -> f a = Ok b -> b ∈ r.
Proof.
  revert r. induction l as [|x l IH]; intros r H Ha Eb; [by apply elem_of_nil in Ha|]. simpl in H. run H. injection H as <-.
  apply elem_of_cons in Ha as [->|Ha]; [assert (a0 = b) as -> by congruence; by left|right; by eapply IH].
Qed.

Lemma concatR_app {A B} (f : A -> res (list B)) l k rl rk : concatR f l = Ok rl -> concatR f k = Ok rk -> concatR f (l ++ k) = Ok (rl ++ rk).
Proof.
  unfold concatR, mbind, res_bind. intros Hl Hk. destruct (mapR f k) as [ks|] eqn:Ek; [|done]. injection Hk as <-.
  revert rl Hl. induction l as [|x l IH]; intros rl Hl; simpl in *; [injection Hl as <-; by rewrite Ek|].
  unfold mbind, res_bind in *. destruct (f x) as [y|]; [|done]. destruct (mapR f l) as [ys|]; [|done]. injection Hl as <-.
  specialize (IH _ eq_refl). destruct (mapR f (l ++ k)) as [zs|]; [|done]. injection IH as IH. simpl. by rewrite IH, app_assoc.
Qed.

(** The results of one element stand together. *)
Lemma concatR_sublist {A B} (f : A -> res (list B)) l r a : concatR f l = Ok r -> a ∈ l -> exists b, f a = Ok b /\ b `sublist_of` r.
Proof.
  unfold concatR. intros H Ha. run H. injection H as <-. revert a0 Heqr0. induction l as [|x l IH]; intros rs E; [by apply elem_of_nil in Ha|].
  simpl in E. run E. injection E as <-. cbn [concat]. apply elem_of_cons in Ha as [->|Ha].
  - exists a0. split; [done|]. by apply sublist_inserts_r.
  - destruct (IH Ha _ eq_refl) as (b & Hb & Hs). exists b. split; [done|]. by apply sublist_inserts_l.
Qed.

Lemma mapR_lookup {A B} (f : A -> res B) l r i a : mapR f l = Ok r -> l !! i = Some a -> exists b, r !! i = Some b /\ f a = Ok b.
Proof.
  revert r i. induction l as [|x l IH]; intros r i H Hi; [done|]. simpl in H. run H. injection H as <-.
  destruct i as [|i]; simpl in Hi; [injection Hi as ->; by eexists|]. exact (IH _ i eq_refl Hi).
Qed.

Lemma filterR_elem {A} (p : A -> res bool) l r a : filterR p l = Ok r -> a ∈ l -> p a = Ok true -> a ∈ r.
Proof.
  revert r. induction l as [|x l IH]; intros r H Ha Hp; [by apply elem_of_nil in Ha|]. simpl in H. run H. injection H as <-.
  apply elem_of_cons in Ha as [->|Ha].
  - assert (a0 = true) as -> by congruence. by left.
  - destruct a0; [right|]; by apply IH.
Qed.

Lemma str_full a s l : str (String a s :: l) <> "".
Proof. unfold str. simpl. discriminate. Qed.

Lemma str_head p l : p <> "" -> str (p :: l) <> "".
Proof. destruct p; [done|]. intros _. apply str_full. Qed.

(** ** Triggers *)

Record TriggerSpec := mkSpec { tg_event : string; tg_timing : string; tg_body : string; tg_rejects : bool }.

Section triggers.
Context (sha256 : string -> string) (dialect : DbspecDialect) (t : DbspecTable).

Definition specSql (s : TriggerSpec) : list string := Renderer.trigger sha256 dialect t (tg_event s) (tg_timing s) (tg_body s) (tg_rejects s).

Lemma triggers_specs : exists specs, Renderer.triggers sha256 dialect t = concat (map specSql specs) /\
  Forall (fun s => tg_event s ∈ ["immutable_update"; "immutable_delete"; "audit_insert"; "audit_update"; "audit_delete"]) specs.
Proof.
  unfold Renderer.triggers.
  assert (Ha : forall l, exists specs, concat (map (fun s => match s with
      | SAudit a => Renderer.history sha256 dialect t a "audit_insert" "AFTER INSERT" "'insert'" "NULL" ++
                    Renderer.history sha256 dialect t a "audit_update" "AFTER UPDATE" "'update'" (str ["OLD."; Renderer.q dialect (au_column a)]) ++
                    Renderer.reject sha256 dialect t "audit_delete" "BEFORE DELETE" (str ["table "; t_name t; " deletes through its soft delete column"])
      | _ => [] end) l) = concat (map specSql specs) /\
      Forall (fun s => tg_event s ∈ ["immutable_update"; "immutable_delete"; "audit_insert"; "audit_update"; "audit_delete"]) specs).
  { induction l as [|s l (specs & E & H)]; [by exists []|]. cbn [map concat]. rewrite E. destruct s; try (by exists specs).
    unfold Renderer.history, Renderer.reject.
    eexists (mkSpec "audit_insert" _ _ _ :: mkSpec "audit_update" _ _ _ :: mkSpec "audit_delete" _ _ _ :: specs). split.
    - cbn [map concat]. unfold specSql at 1 2 3. cbn [tg_event tg_timing tg_body tg_rejects]. by rewrite <- !app_assoc.
    - repeat (constructor; [by apply (bool_decide_unpack _)|]). done. }
  destruct (Ha (tableSettings t)) as (specs & E & H). rewrite E. destruct (existsb _ _).
  - unfold Renderer.reject.
    eexists (mkSpec "immutable_update" _ _ _ :: mkSpec "immutable_delete" _ _ _ :: specs). split.
    + cbn [map concat]. unfold specSql at 1 2. cbn [tg_event tg_timing tg_body tg_rejects]. by rewrite <- !app_assoc.
    + repeat (constructor; [by apply (bool_decide_unpack _)|]). done.
  - by exists specs.
Qed.

(** The statements of one trigger, and the part that [triggerParts] reads from them. *)
Definition specFunction (s : TriggerSpec) : string := match dialect with Postgres => default "" (head (specSql s)) | _ => "" end.
Definition specCreate (s : TriggerSpec) : string := default "" (last (specSql s)).
Definition readName (create : string) : string :=
  let quoted := firstWord (String.substring 15 (String.length create - 15) create) in String.substring 1 (String.length quoted - 2) quoted.

End triggers.

Lemma trigger_no_function l : starts_with "CREATE FUNCTION " (str ("CREATE TRIGGER " :: l)) = false.
Proof. reflexivity. Qed.
Lemma function_function l : starts_with "CREATE FUNCTION " (str ("CREATE FUNCTION " :: l)) = true.
Proof. reflexivity. Qed.

Lemma partsOf_specs sha256 dialect t specs : partsOf "" (concat (map (specSql sha256 dialect t) specs)) =
  map (fun s => mkTriggerPart (readName (specCreate sha256 dialect t s)) (specCreate sha256 dialect t s) (specFunction sha256 dialect t s)) specs.
Proof.
  induction specs as [|s specs IH]; [done|]. cbn [map concat]. unfold specCreate at 1 2, specFunction at 1. unfold specSql at 1 3 4 5, Renderer.trigger.
  destruct dialect; cbn [app partsOf last head default]; rewrite ?function_function; cbn [partsOf]; rewrite trigger_no_function; by rewrite IH.
Qed.

Lemma index_char c s x : has_char c s = false -> String.index 0 (String c "") (s +:+ String c x) = Some (String.length s).
Proof.
  induction s as [|a s IH]; intros Hs.
  - change ("" +:+ String c x) with (String c x). simpl. destruct (ascii_dec c c); [|done]. by destruct x.
  - cbn [has_char] in Hs. apply orb_false_iff in Hs as [Ha Hs]. apply bool_decide_eq_false in Ha. rewrite string_app_cons. simpl.
    destruct (ascii_dec c a); [congruence|]. by rewrite IH.
Qed.

Lemma has_char_substring c s : has_char c s = false -> forall i n, has_char c (String.substring i n s) = false.
Proof.
  induction s as [|a s IH]; intros Hs i n; [by destruct i, n|]. cbn [has_char] in Hs. apply orb_false_iff in Hs as [Ha Hs].
  destruct i as [|i]; [destruct n as [|n]; [done|]|]; cbn [String.substring]; [|by apply IH]. cbn [has_char]. by rewrite Ha, IH.
Qed.

Lemma rendererName_char sha256 c table suffix : wordChar c = false -> c <> "$"%char -> isColumn table = true -> has_char c suffix = false ->
  (forall s, has_char c (sha256 s) = false) -> has_char c (rendererName sha256 table suffix) = false.
Proof.
  intros Hc Hd Ht Hs Hh. assert (Hp : has_char c (str [table; "$"; suffix]) = false).
  { unfold str. cbn [foldr]. rewrite !has_char_app, (name_char c table), Hs by done. cbn [has_char]. by rewrite bool_decide_eq_false_2 by congruence. }
  unfold rendererName. destruct (_ <=? _)%nat; [done|]. unfold str at 1. cbn [foldr].
  rewrite !has_char_app, !has_char_substring by done. cbn [has_char]. by rewrite bool_decide_eq_false_2 by congruence.
Qed.

Lemma readName_trigger dialect n l l' : has_char " " n = false -> readName (str ("CREATE TRIGGER " :: Renderer.q dialect n :: str (" " :: l) :: l')) = n.
Proof.
  intros Hn. unfold readName.
  assert (E : str ("CREATE TRIGGER " :: Renderer.q dialect n :: str (" " :: l) :: l') = "CREATE TRIGGER " +:+ (Renderer.q dialect n +:+ String " " (str l +:+ str l'))).
  { reflexivity. }
  assert (Hq : exists c, Renderer.q dialect n = String c (n +:+ String c "") /\ c <> " "%char) by (destruct dialect; unfold Renderer.q, str; simpl; by eexists).
  destruct Hq as (c & Eq & Hc).
  assert (Hs : has_char " " (Renderer.q dialect n) = false).
  { rewrite Eq. cbn [has_char]. rewrite has_char_app, Hn. cbn [has_char]. by rewrite bool_decide_eq_false_2 by congruence. }
  rewrite E. rewrite (substring_drop "CREATE TRIGGER "). unfold firstWord. rewrite index_char by done. rewrite substring_front, Eq.
  change (String.substring 1 ?k (String c ?y)) with (String.substring 0 k y). cbn [String.length]. rewrite string_length_app. cbn [String.length].
  replace (S (String.length n + 1) - 2)%nat with (String.length n) by lia. apply substring_front.
Qed.

Definition triggerEvents : list string := ["immutable_update"; "immutable_delete"; "audit_insert"; "audit_update"; "audit_delete"].

(** the parts read back from the rendered trigger statements of a table are
    those statements, each CREATE TRIGGER behind its PostgreSQL function, and
    each under the name that the renderer gives its event; so the plan drops
    the triggers that the renderer creates. *)
Theorem triggerParts_read sha256 dialect t : isColumn (t_name t) = true -> (forall s, has_char " " (sha256 s) = false) ->
  concat (map (fun p => match dialect with Postgres => [tp_fn p; tp_create p] | _ => [tp_create p] end) (triggerParts sha256 dialect t)) =
    Renderer.triggers sha256 dialect t /\
  Forall (fun p => exists event, event ∈ triggerEvents /\ tp_name p = rendererName sha256 (t_name t) event) (triggerParts sha256 dialect t).
Proof.
  intros Ht Hh. unfold triggerParts. destruct (triggers_specs sha256 dialect t) as (specs & -> & Hev). rewrite partsOf_specs. split.
  - rewrite map_map. cbn [tp_fn tp_create]. f_equal. apply map_ext. intros s. unfold specFunction, specCreate, specSql, Renderer.trigger. by destruct dialect.
  - apply Forall_map. eapply Forall_impl; [exact Hev|]. intros s Hs. exists (tg_event s). split; [exact Hs|]. cbn [tp_name].
    assert (Hn : has_char " " (rendererName sha256 (t_name t) (tg_event s)) = false).
    { apply rendererName_char; try done. unfold has_char. repeat (apply elem_of_cons in Hs as [->|Hs]; [done|]). by apply elem_of_nil in Hs. }
    unfold specCreate, specSql, Renderer.trigger. destruct dialect; cbn [last default]; by apply readName_trigger.
Qed.

(** ** Rollbacks *)

(** A step before the finalize steps: it has a rollback, or a reason why not. *)
Definition undoable (s : DbspecPlanStep) : Prop := ps_finalize s = false /\ (ps_rollback s = "" <-> ps_irreversible s <> "").

Lemma undoable_step st rb e : rb <> "" -> undoable (step st rb e).
Proof. intros H. split; [done|]. simpl. tauto. Qed.
Lemma undoable_checks c s : undoable s -> undoable (withChecks c s).
Proof. done. Qed.
Lemma undoable_restore a b e s : undoable s -> undoable (withRestore a b e s).
Proof. done. Qed.
Lemma undoable_irreversible (b : bool) st rb e : rb <> "" ->
  undoable (withIrreversible (if b then irreversiblePrecision else "") (step st (if bool_decide ((if b then irreversiblePrecision else "") = "") then rb else "") e)).
Proof. intros H. split; [done|]. destruct b; simpl; [done|tauto]. Qed.

Create HintDb undo.
#[local] Hint Resolve undoable_step undoable_checks undoable_restore undoable_irreversible str_full str_head : undo.

Section undo.
Context (sha256 : string -> string) (dialect : DbspecDialect) (d : PlanDiff) (holds : list (string * string)) (rebuilt : list string).

Lemma triggers_undoable t : Forall undoable (dropTriggers sha256 dialect t) /\ Forall undoable (createTriggers sha256 dialect t).
Proof.
  unfold dropTriggers, createTriggers, triggerParts. destruct (triggers_specs sha256 dialect t) as (specs & -> & _). rewrite partsOf_specs.
  assert (Hn : forall s, specCreate sha256 dialect t s <> "" /\ (dialect = Postgres -> specFunction sha256 dialect t s <> "")).
  { intros s. unfold specCreate, specFunction, specSql, Renderer.trigger. destruct dialect; cbn [last default head]; split; intros; try apply str_full; done. }
  split; apply Forall_concat, Forall_map, Forall_map, Forall_forall; intros s _; cbn [tp_name tp_create tp_fn]; destruct (Hn s) as [Hc Hf].
  - destruct dialect; repeat (constructor; [apply undoable_step; auto|]); constructor.
  - destruct dialect; repeat (constructor; [apply undoable_step, str_full|]); constructor.
Qed.

Lemma objectStatements_full t name o create drop_ kind : objectStatements dialect t name o = Ok (create, drop_, kind) -> create <> "" /\ drop_ <> "".
Proof.
  unfold objectStatements, dropCheck, dropIndex, createUnique, createIndex, addCheck. intros H. repeat case_decide; run H; try discriminate H; destruct dialect; injection H as <- <- <-; split; apply str_full.
Qed.

Lemma createIndexes_undoable t name : Forall undoable (createIndexes dialect t name).
Proof.
  unfold createIndexes, indexes. apply Forall_map, Forall_app. split; [destruct (isSqlite dialect); [|constructor]|]; apply Forall_map, Forall_forall; intros x _;
    apply undoable_step; unfold dropIndex; destruct dialect; apply str_full.
Qed.

Lemma dropObject_undoable t o s : dropObject dialect t o = Ok s -> undoable s.
Proof.
  unfold dropObject. intros H. run H. injection H as <-.
  match goal with E : objectStatements _ _ _ _ = Ok _ |- _ => apply objectStatements_full in E as [? ?] end. by apply undoable_step.
Qed.

Lemma addObject_undoable t o s : addObject dialect d t o = Ok s -> undoable s.
Proof.
  unfold addObject. intros H. run H. injection H as <-.
  match goal with E : objectStatements _ _ _ _ = Ok _ |- _ => apply objectStatements_full in E as [? ?] end. by apply undoable_step.
Qed.

Lemma objectSteps_undoable m test f r : (forall s o x, f s o = Ok x -> undoable x) -> objectSteps m test f = Ok r -> Forall undoable r.
Proof.
  intros Hf. apply concatR_Forall. intros s b _ H. run H. eapply mapR_Forall_in; [|exact H]. intros o x _. apply Hf.
Qed.

Lemma hideColumn_undoable table c h r : hideColumn dialect table c h = Ok r -> Forall undoable r.
Proof.
  unfold hideColumn. intros H. unfold renameColumnSql; destruct (col_nullable c), dialect; run H; settle;
    repeat (apply Forall_cons_2; [by eauto with undo|]); apply Forall_nil_2.
Qed.

Lemma defaultSql_full dia prefix type value x : prefix <> "" -> defaultSql dia prefix type value = Ok x -> x <> "".
Proof. intros Hp H. unfold defaultSql in H. destruct value; run H; injection H as <-; by apply str_head. Qed.

Lemma alterColumn_undoable table from to r : alterColumn dialect table from to = Ok r -> Forall undoable r.
Proof.
  unfold alterColumn. intros H. cbv zeta in H. destruct dialect.
  1: { run H. settle. apply Forall_singleton.
       match goal with E : (if bool_decide _ then _ else _) = Ok _ |- _ => rename E into E1 end. split; [done|].
       cbn [ps_rollback ps_irreversible withIrreversible withChecks step]. destruct (precisionGrows _ _); simpl in E1; [by injection E1 as <-|].
       run E1. injection E1 as <-. split; [by intros ?%str_full|done]. }
  all: run H; match goal with E : (if negb (sameDefault _ _) || _ then _ else _) = Ok _ |- _ => rename E into E1 end; injection H as <-; rewrite !Forall_app; split_and!.
  all: match goal with
       | |- Forall _ (if negb (sameType _ _) then _ else _) =>
           destruct (negb (sameType _ _)); [|apply Forall_nil_2]; apply Forall_singleton; apply undoable_irreversible; eauto with undo
       | |- Forall _ (if Bool.eqb _ _ then _ else _) => destruct (Bool.eqb (col_nullable from) _); [apply Forall_nil_2|]; destruct (col_nullable to); apply Forall_singleton; eauto with undo
       | _ => destruct (negb (sameDefault _ _) || _); [|injection E1 as <-; apply Forall_nil_2]; run E1; injection E1 as <-; apply Forall_singleton; apply undoable_step;
              eapply defaultSql_full; [|eassumption]; apply str_full
       end.
Qed.

Lemma createTable_full t name f hidden x : Renderer.createTable dialect t name f hidden = Ok x -> x <> "".
Proof. unfold Renderer.createTable. intros H. run H. injection H as <-. apply str_full. Qed.

Lemma when_undoable b s : undoable s -> Forall undoable (when b s).
Proof. intros H. destruct b; [by apply Forall_singleton|apply Forall_nil_2]. Qed.

Lemma indexes_undoable t name name' : Forall undoable (map (fun x => let '(n, create, drop_) := x in step drop_ create (absentEffect "index" name' n)) (indexes dialect t name)).
Proof.
  unfold indexes. apply Forall_map, Forall_app. split; [destruct (isSqlite dialect); [|apply Forall_nil_2]|]; apply Forall_map, Forall_forall; intros x _;
    apply undoable_step; unfold createUnique, createIndex; apply str_full.
Qed.

Lemma rebuild_undoable name r : rebuild sha256 dialect d holds name = Ok r -> Forall undoable r.
Proof.
  unfold rebuild. intros H. run H. injection H as <-.
  repeat match goal with E : Renderer.createTable _ _ _ _ _ = Ok _ |- _ => apply createTable_full in E end.
  unfold sequenceSql, unsequenceSql, dropTable, copyRows, deleteRows.
  repeat match goal with
    | |- Forall _ (_ ++ _) => apply Forall_app; split
    | |- Forall _ (_ :: _) => apply Forall_cons_2
    | |- Forall _ [] => apply Forall_nil_2
    | |- Forall _ (when _ _) => apply when_undoable
    | |- Forall _ (createIndexes _ _ _) => apply createIndexes_undoable
    | |- Forall _ (map _ (indexes _ _ _)) => apply indexes_undoable
    | |- undoable (step _ _ _) => apply undoable_step; first [apply str_full|assumption]
    | |- undoable (match match ?l with [] => _ | _ => _ end with Some _ => _ | None => _ end) => destruct l; [|apply undoable_restore]
    end.
  destruct (existsb bk_grows _); [split; done|]. rewrite !decide_True by done.
  match goal with |- undoable (match match ?l with [] => _ | _ => _ end with Some _ => _ | None => _ end) => destruct l end;
    [|apply undoable_restore]; apply undoable_checks, undoable_step, str_full.
Qed.

Lemma dropTriggerSteps_undoable r : dropTriggerSteps sha256 dialect d rebuilt = Ok r -> Forall undoable r.
Proof.
  unfold dropTriggerSteps. intros H. run H. injection H as <-. apply Forall_app. split; (eapply concatR_Forall; [|eassumption]); intros n b _ Hb; run Hb; injection Hb as <-;
    match goal with |- Forall _ (if ?b then _ else _) => destruct b end; (apply Forall_nil_2 || apply triggers_undoable).
Qed.

Lemma createTriggerSteps_undoable r : createTriggerSteps sha256 dialect d rebuilt = Ok r -> Forall undoable r.
Proof.
  unfold createTriggerSteps. intros H. run H. injection H as <-. apply Forall_app. split; (eapply concatR_Forall; [|eassumption]); intros n b _ Hb; run Hb; injection Hb as <-.
  - apply triggers_undoable.
  - match goal with |- Forall _ (if ?b then _ else _) => destruct b end; (apply Forall_nil_2 || apply triggers_undoable).
Qed.

Lemma dropSourceObject_undoable s o x : dropSourceObject dialect d s o = Ok x -> undoable x.
Proof. unfold dropSourceObject. intros H. run H. by eapply dropObject_undoable. Qed.

Lemma dropCheckSteps_undoable r : dropCheckSteps dialect d = Ok r -> Forall undoable r.
Proof.
  unfold dropCheckSteps. destruct (isSqlite dialect); [intros [= <-]; apply Forall_nil_2|]. intros H. run H. injection H as <-.
  apply Forall_app. split; (eapply concatR_Forall; [|eassumption]); intros n b _ Hb; run Hb; injection Hb as <-;
    apply Forall_map, Forall_forall; intros e _; apply undoable_step, str_full.
Qed.

Lemma hideSteps_undoable r : hideSteps dialect d holds = Ok r -> Forall undoable r.
Proof.
  unfold hideSteps. intros H. run H. injection H as <-. apply Forall_app. split.
  - match goal with E : (if isSqlite _ then _ else _) = Ok _ |- _ => rename E into E1 end. destruct (isSqlite dialect); [injection E1 as <-; apply Forall_nil_2|].
    eapply concatR_Forall; [|exact E1]. intros n b _ Hb. run Hb. eapply concatR_Forall; [|exact Hb]. intros c b' _ Hb'. run Hb'. by eapply hideColumn_undoable.
  - eapply mapR_Forall_in; [|eassumption]. intros n b _ Hb. run Hb. injection Hb as <-. apply undoable_step, str_full.
Qed.

Lemma createSteps_undoable r : createSteps sha256 dialect d = Ok r -> Forall undoable r.
Proof.
  unfold createSteps. apply concatR_Forall. intros n b _ Hb. run Hb. injection Hb as <-. apply Forall_cons_2; [apply undoable_step, str_full|apply createIndexes_undoable].
Qed.

Lemma columnSteps_undoable r : columnSteps sha256 dialect d holds rebuilt = Ok r -> Forall undoable r.
Proof.
  unfold columnSteps. apply concatR_Forall. intros n b _ Hb. destruct (isSqlite dialect).
  - destruct (rebuilds rebuilt n); [by eapply rebuild_undoable|injection Hb as <-; apply Forall_nil_2].
  - run Hb. injection Hb as <-. apply Forall_app. split.
    + eapply mapR_Forall_in; [|eassumption]. intros c x _ Hx. unfold addColumn in Hx. run Hx. injection Hx as <-. apply undoable_restore, undoable_step, str_full.
    + eapply concatR_Forall; [|eassumption]. intros c x _ Hx. run Hx. by eapply alterColumn_undoable.
Qed.

Lemma addObjectSteps_undoable r : addObjectSteps dialect d rebuilt = Ok r -> Forall undoable r.
Proof.
  unfold addObjectSteps. intros H. run H. injection H as <-. apply Forall_app. split.
  - eapply objectSteps_undoable; [|eassumption]. intros s o x. apply addObject_undoable.
  - match goal with E : (if isSqlite _ then _ else _) = Ok _ |- _ => rename E into E1 end. destruct (isSqlite dialect); [injection E1 as <-; apply Forall_nil_2|].
    eapply concatR_Forall; [|exact E1]. intros n b _ Hb. run Hb. injection Hb as <-. apply Forall_map, Forall_forall. intros e _. apply undoable_step.
    unfold dropCheck. destruct dialect; apply str_full.
Qed.

Lemma addKeySteps_undoable r : addKeySteps dialect d = Ok r -> Forall undoable r.
Proof.
  unfold addKeySteps. destruct (isSqlite dialect); [intros [= <-]; apply Forall_nil_2|]. intros H. run H. injection H as <-. apply Forall_app. split.
  - eapply concatR_Forall; [|eassumption]. intros n b _ Hb. run Hb. eapply mapR_Forall_in; [|exact Hb]. intros o x _. apply addObject_undoable.
  - eapply objectSteps_undoable; [|eassumption]. intros s o x. apply addObject_undoable.
Qed.

Lemma forwardSteps_undoable r : forwardSteps sha256 dialect d holds rebuilt = Ok r -> Forall undoable r.
Proof.
  unfold forwardSteps. intros H. run H. injection H as <-. repeat (apply Forall_app; split).
  - by apply dropTriggerSteps_undoable.
  - match goal with E : dropKeySteps _ _ = Ok _ |- _ => unfold dropKeySteps in E; destruct (isSqlite dialect); [injection E as <-; apply Forall_nil_2|] end.
    eapply objectSteps_undoable; [|eassumption]. apply dropSourceObject_undoable.
  - match goal with E : dropObjectSteps _ _ _ = Ok _ |- _ => unfold dropObjectSteps in E; run E; eapply concatR_Forall; [|exact E] end.
    intros n b _ Hb. run Hb. eapply mapR_Forall_in; [|exact Hb]. intros o x _. apply dropSourceObject_undoable.
  - by apply dropCheckSteps_undoable.
  - apply Forall_map, Forall_forall. intros x _. apply undoable_step, str_full.
  - apply Forall_map, Forall_forall. intros x _. apply undoable_step, str_full.
  - by apply hideSteps_undoable.
  - by apply createSteps_undoable.
  - by apply columnSteps_undoable.
  - by apply addObjectSteps_undoable.
  - by apply addKeySteps_undoable.
  - by apply createTriggerSteps_undoable.
Qed.
End undo.

(** ** Holding names *)

Lemma numberHolds_spec prefix keys : forall n m k h,
  assoc k (foldl (fun m e => assoc_set (snd e) (str [prefix; pretty (Z.of_nat (fst e))]) m) m (zip (seq n (length keys)) keys)) = Some h ->
  (assoc k m = Some h /\ k ∉ keys) \/ exists i, (n <= i < n + length keys)%nat /\ h = str [prefix; pretty (Z.of_nat i)] /\ keys !! (i - n)%nat = Some k.
Proof.
  induction keys as [|x keys IH]; intros n m k h H; simpl in H.
  - left. split; [done|by apply not_elem_of_nil].
  - apply IH in H as [[H Hk]|(i & Hi & -> & Hl)].
    + rewrite assoc_set_get in H. destruct (decide (k = x)) as [->|Hne].
      * injection H as <-. right. exists n. replace (n - n)%nat with 0%nat by lia. split; [simpl; lia|done].
      * left. split; [done|]. by apply not_elem_of_cons.
    + right. exists i. split; [simpl; lia|]. split; [done|]. by replace (i - n)%nat with (S (i - S n)) by lia.
Qed.

(** No two keys have one holding name. *)
Lemma hold_injective prefix keys k k' h :
  assoc k (numberHolds prefix keys) = Some h -> assoc k' (numberHolds prefix keys) = Some h -> k = k'.
Proof.
  unfold numberHolds. intros [[H _]|(i & Hi & -> & Hl)]%numberHolds_spec; [done|]. intros [[H _]|(j & Hj & E & Hl')]%numberHolds_spec; [done|].
  unfold str in E. cbn [foldr] in E. rewrite !string_app_nil_r in E. apply (inj (String.app prefix)) in E. apply pretty_Z_inj in E.
  assert (i = j) as <- by lia. congruence.
Qed.

Lemma numberHolds_elem prefix keys k : k ∈ keys -> is_Some (assoc k (numberHolds prefix keys)).
Proof.
  unfold numberHolds. intros Hk.
  assert (H : forall n m, is_Some (assoc k m) \/ k ∈ keys ->
    is_Some (assoc k (foldl (fun m e => assoc_set (snd e) (str [prefix; pretty (Z.of_nat (fst e))]) m) m (zip (seq n (length keys)) keys)))); [|apply H; by right].
  clear Hk. induction keys as [|x keys IH]; intros n m; simpl; [intros [H|H]; [done|by apply elem_of_nil in H]|]. intros H. apply IH.
  rewrite assoc_set_get. destruct (decide (k = x)) as [|Hne]; [left; by eexists|]. destruct H as [H|H]; [by left|]. apply elem_of_cons in H as [|H]; [done|by right].
Qed.

(** ** The tables of a diff *)

Lemma assoc_set_values {V} k (v : V) m : NoDup (map snd m) -> v ∉ map snd m ->
  NoDup (map snd (assoc_set k v m)) /\ forall x, x ∈ map snd (assoc_set k v m) -> x = v \/ x ∈ map snd m.
Proof.
  induction m as [|[k' v'] m IH]; cbn [assoc_set map snd]; intros Hn Hv.
  - split; [apply NoDup_singleton|]. intros x Hx. left. by apply list_elem_of_singleton in Hx.
  - apply NoDup_cons in Hn as [Hv' Hn]. apply not_elem_of_cons in Hv as [Hne Hv]. destruct (decide (k = k')) as [->|Hk]; cbn [map snd].
    + split; [by apply NoDup_cons|]. intros x [->|Hx]%elem_of_cons; [by left|right; by right].
    + destruct (IH Hn Hv) as [H1 H2]. split.
      * apply NoDup_cons. split; [|done]. intros [->|Hx]%H2; done.
      * intros x [->|Hx]%elem_of_cons; [right; by left|]. apply H2 in Hx as [->|Hx]; [by left|right; by right].
Qed.

Lemma matchTable_values target from l : forall tableOf dropped tableOf' dropped', NoDup l -> NoDup (map snd tableOf) ->
  (forall s, s ∈ map snd tableOf -> s ∉ l) ->
  foldl (matchTable target from) (tableOf, dropped) l = (tableOf', dropped') ->
  NoDup (map snd tableOf') /\ (forall s, s ∈ map snd tableOf' \/ s ∈ dropped' -> (s ∈ map snd tableOf \/ s ∈ dropped) \/ s ∈ l).
Proof.
  induction l as [|a l IH]; intros tableOf dropped tableOf' dropped' Hl Hn Hd H; [injection H as <- <-; split; [done|by left]|].
  apply NoDup_cons in Hl as [Ha Hl]. cbn [foldl] in H. unfold matchTable at 2 in H. destruct (assoc (renamedOr from a) target).
  - assert (Hv : a ∉ map snd tableOf) by (intros Hx; destruct (Hd a Hx); by left).
    destruct (assoc_set_values (renamedOr from a) a tableOf Hn Hv) as [H1 H2]. assert (Hfresh : forall s, s ∈ map snd (assoc_set (renamedOr from a) a tableOf) -> s ∉ l).
    { intros s [->|Hs]%H2; [done|]. intros Hin. by apply (Hd s Hs); right. }
    destruct (IH _ _ _ _ Hl H1 Hfresh H) as [H3 H4]. split; [done|]. intros s [[[->|Hs]%H2|Hs]|Hs]%H4; [right; by left|left; by left|left; by right|right; by right].
  - assert (Hfresh : forall s, s ∈ map snd tableOf -> s ∉ l) by (intros s Hs Hin; by apply (Hd s Hs); right).
    destruct (IH _ _ _ _ Hl Hn Hfresh H) as [H3 H4]. split; [done|]. intros s [[Hs|Hs]|Hs]%H4; [left; by left| |right; by right]. apply elem_of_app in Hs as [Hs|Hs]; [left; by right|].
      apply list_elem_of_singleton in Hs as ->. right. by left.
Qed.

Lemma planDiff_tables sha256 source p d : planDiff sha256 source p = Ok (inl d) ->
  (forall n t, assoc n (pd_source d) = Some t -> t_name t = n /\ exists s, source = Some s /\ t ∈ doc_tables s) /\
  (forall name s, assoc name (pd_tableOf d) = Some s -> targetName d s = name) /\
  (forall s, s ∈ map snd (pd_tableOf d) \/ s ∈ pd_dropped d -> is_Some (assoc s (pd_source d))).
Proof.
  intros H. unfold planDiff in H. destruct (match source with Some s => _ | None => _ end) as [from|]; [|done].
  destruct (negb _); [done|].
  set (src := match source with Some s => tableMap (doc_tables s) | None => [] end) in *.
  set (tgt := tableMap (doc_tables (p_schema p))) in *.
  destruct (foldl (renameTable src tgt) ([], [], []) _) as [[out1 renamedFrom] renamedTables].
  destruct (foldl (matchTable tgt renamedFrom) ([], []) _) as [tableOf dropped] eqn:E2.
  run H. destruct (out1 ++ _); [|done]. run H. injection H as <-. unfold targetName. cbn [pd_source pd_tableOf pd_dropped].
  assert (Hnd : NoDup (sortedKeys src)).
  { unfold sortedKeys. rewrite sort_by_perm. unfold src. destruct source; [apply tableMap_spec|constructor]. }
  apply (matchTable_values _ _ _ _ _ _ _ Hnd) in E2 as [E2 E3]; [|constructor|by intros ? []%elem_of_nil]. split_and!.
  - intros n t Ht. unfold src in Ht. destruct source as [s|]; [|done]. apply tableMap_spec in Ht as [Ht <-]. split; [done|by exists s].
  - intros name s Hs.
    assert (Hin : (name, s) ∈ tableOf).
    { clear - Hs. induction tableOf as [|[k v] m IH]; [done|]. cbn [assoc] in Hs. destruct (decide _) as [->|]; [injection Hs as ->; by left|right; by apply IH]. }
    pose proof (find_key snd tableOf (name, s) E2 Hin) as Hf. cbn [snd] in Hf. by rewrite Hf.
  - intros s [[Hs|Hs]|Hs]%E3; [by apply elem_of_nil in Hs|by apply elem_of_nil in Hs|by apply sortedKeys_elem].
Qed.

(** ** The finalize steps *)

Definition dropColumnStep (dialect : DbspecDialect) (table h : string) : DbspecPlanStep :=
  finalStep (step (str ["ALTER TABLE "; q dialect table; " DROP COLUMN "; q dialect h]) "" (absentEffect "column" table h)).
Definition dropTableStep (dialect : DbspecDialect) (h : string) : DbspecPlanStep := finalStep (step (dropTable dialect h) "" (absentEffect "table" h "")).

Lemma concatR_elem {A B} (f : A -> res (list B)) l r x : concatR f l = Ok r -> x ∈ r <-> exists a b, a ∈ l /\ f a = Ok b /\ x ∈ b.
Proof.
  unfold concatR, mbind, res_bind. destruct (mapR f l) as [rs|] eqn:E; [|done]. intros [= <-]. split.
  - intros (b & Hb%list_elem_of_In & Hx%list_elem_of_In)%list_elem_of_In%in_concat. destruct (mapR_elem f l rs b E Hb) as (a & Ha & Eb). by exists a, b.
  - intros (a & b & Ha & Eb & Hx). apply list_elem_of_In, in_concat. exists b. split; [|by apply list_elem_of_In]. apply list_elem_of_In. clear Hx x.
    revert rs E. induction l as [|y l IH]; intros rs E; [by apply elem_of_nil in Ha|]. simpl in E. run E. injection E as <-.
    apply elem_of_cons in Ha as [->|Ha]; [assert (b = a0) as -> by congruence; by left|right; by apply IH].
Qed.

Lemma index_none c s : has_char c s = false -> String.index 0 (String c "") s = None.
Proof.
  induction s as [|a s IH]; [done|]. cbn [has_char]. intros [Ha Hs]%orb_false_iff. apply bool_decide_eq_false in Ha. simpl.
  destruct (ascii_dec c a); [congruence|]. by rewrite IH.
Qed.

(** A name is no key of a dropped or an added column. *)
Lemma column_dot s : isColumn s = true -> has_char "." s = false /\ forall t, starts_with "+" (s +:+ t) = false.
Proof.
  intros Hs. split.
  - destruct s as [|a s]; [done|]. cbn [isColumn] in Hs. apply andb_true_iff in Hs as [Ha Hs]. cbn [has_char]. apply orb_false_iff. split.
    + apply bool_decide_eq_false. by intros E; subst.
    + clear Ha. induction s as [|b s IH]; [done|]. cbn [all_chars has_char] in *. apply andb_true_iff in Hs as [Hb Hs]. rewrite IH by done.
      rewrite bool_decide_eq_false_2; [done|]. by intros E; subst.
  - intros t. destruct s as [|a s]; [done|]. cbn [isColumn] in Hs. apply andb_true_iff in Hs as [Ha _]. simpl. by rewrite bool_decide_eq_false_2 by (by intros E; subst).
Qed.

(** The statement copies the column [source] of the table [from] into [target] of [into]. *)
Definition carries (statement into target from source : string) : Prop :=
  exists columns values i, statement = copyRows Sqlite into columns from values /\
    columns !! i = Some (q Sqlite target) /\ values !! i = Some (q Sqlite source).

(** The rebuild of [name] keeps its column [c] under the name [h]: the work table
    and the new table have the column, and the copies take it there and back.  The
    restore of the copy, which runs when an earlier rebuild was undone, takes it too. *)
Definition copiedAside (steps : list DbspecPlanStep) (name c h : string) : Prop :=
  exists t names hidden work copyIn new copyOut,
    [step work (dropTable Sqlite rebuildTable) (presentEffect "table" rebuildTable ""); copyIn;
     step new (dropTable Sqlite name) (presentEffect "table" name ""); copyOut] `sublist_of` steps /\
    h ∈ map col_name hidden /\
    Renderer.createTable Sqlite t rebuildTable names hidden = Ok work /\ Renderer.createTable Sqlite t name names hidden = Ok new /\
    carries (ps_statement copyIn) rebuildTable h name c /\ (ps_restore copyIn = "" \/ carries (ps_restore copyIn) rebuildTable h name c) /\
    carries (ps_statement copyOut) name h rebuildTable h.

Section final.
Context (sha256 : string -> string) (dialect : DbspecDialect) (source : option DbspecDocument) (p : DbspecPlan) (d : PlanDiff) (prefix : string).
Context (Hd : planDiff sha256 source p = Ok (inl d)).
Context (Hnames : forall s t, source = Some s -> t ∈ doc_tables s -> isColumn (t_name t) = true).
Context (keys : list string) (Hkeys : holdKeys d = Ok keys).

(** A column that the plan drops: the target name of its table and its name. *)
Definition dropsColumn (name c : string) : Prop := name ∈ pd_matched d /\ c ∈ listOf name (pd_removed d).

Definition droppedKey (name c : string) : string := str [default "" (assoc name (pd_tableOf d)); "."; c].
Definition columnHold (name c : string) : string := default "" (assoc (droppedKey name c) (numberHolds prefix keys)).
Definition tableHold (s : string) : string := default "" (assoc s (numberHolds prefix keys)).

Lemma sourceName_good s : s ∈ map snd (pd_tableOf d) \/ s ∈ pd_dropped d -> isColumn s = true.
Proof.
  intros Hs. destruct (planDiff_tables _ _ _ _ Hd) as (H1 & _ & H3). destruct (H3 s Hs) as [t Ht]. apply H1 in Ht as (<- & src & E & Ht). by eapply Hnames.
Qed.

Lemma assoc_value {V} k (v : V) m : assoc k m = Some v -> v ∈ map snd m.
Proof. induction m as [|[k' v'] m IH]; [done|]. cbn [assoc map snd]. destruct (decide _); [intros [= ->]; by left|intros H; right; by apply IH]. Qed.

(** The keys are those of the dropped columns, the dropped tables and the added columns. *)
Lemma holdKeys_elem k : k ∈ keys <->
  (exists name c s, dropsColumn name c /\ assoc name (pd_tableOf d) = Some s /\ k = str [s; "."; c]) \/ k ∈ pd_dropped d \/
  exists name c, name ∈ pd_matched d /\ c ∈ listOf name (pd_added d) /\ k = str ["+"; name; "."; c].
Proof.
  unfold holdKeys in Hkeys. run Hkeys. injection Hkeys as <-. rewrite !elem_of_app, (concatR_elem _ _ _ _ Heqr). f_equiv; [|f_equiv].
  - split.
    + intros (name & b & Hn & Eb & Hk). destruct (mapR_elem _ _ _ _ Eb Hk) as (c & Hc & Ec). run Ec. injection Ec as <-.
      destruct (assoc name (pd_tableOf d)) eqn:E; [|done]. injection Heqr0 as ->. by exists name, c, a0.
    + intros (name & c & s & [Hn Hc] & E & ->).
      assert (Em : mapR (fun c => s ← present (assoc name (pd_tableOf d)) "d.tableOf.get(name)"; Ok (str [s; "."; c])) (listOf name (pd_removed d)) =
                   Ok (map (fun c => str [s; "."; c]) (listOf name (pd_removed d)))).
      { apply mapR_pure. intros x. by rewrite E. }
      exists name, (map (fun c => str [s; "."; c]) (listOf name (pd_removed d))). split; [done|]. split; [exact Em|]. by apply (list_elem_of_fmap_2 (fun c => str [s; "."; c])).
  - rewrite list_elem_of_In, in_concat. split.
    + intros (l & Hl%list_elem_of_In & Hk%list_elem_of_In). apply list_elem_of_fmap in Hl as (name & -> & Hn). apply list_elem_of_fmap in Hk as (c & -> & Hc). by exists name, c.
    + intros (name & c & Hn & Hc & ->). exists (map (fun c => str ["+"; name; "."; c]) (listOf name (pd_added d))). split; apply list_elem_of_In.
      * by apply (list_elem_of_fmap_2 (fun name => map (fun c => str ["+"; name; "."; c]) (listOf name (pd_added d)))).
      * by apply (list_elem_of_fmap_2 (fun c => str ["+"; name; "."; c])).
Qed.

Lemma dropsColumn_table name c : dropsColumn name c -> exists s, assoc name (pd_tableOf d) = Some s /\ isColumn s = true /\ targetName d s = name /\
  droppedKey name c = str [s; "."; c] /\ droppedKey name c ∈ keys.
Proof.
  intros [Hn Hc]. assert (exists s, assoc name (pd_tableOf d) = Some s) as [s E].
  { unfold holdKeys in Hkeys. run Hkeys. clear Hkeys. unfold concatR in Heqr. run Heqr. destruct (mapR_all _ _ _ _ Heqr0 Hn) as [b Hb].
    destruct (mapR_all _ _ _ _ Hb Hc) as [x Hx]. run Hx. destruct (assoc name _) as [s|]; [by exists s|done]. }
  exists s. assert (Ek : droppedKey name c = str [s; "."; c]) by (unfold droppedKey; by rewrite E). split_and!; [done| | |done|].
  - apply sourceName_good. left. by eapply assoc_value.
  - by apply (planDiff_tables _ _ _ _ Hd).
  - rewrite Ek. apply holdKeys_elem. left. by exists name, c, s.
Qed.

Lemma str_dot s c : str [s; "."; c] = s +:+ String "." c.
Proof. unfold str. cbn [foldr]. by rewrite string_app_nil_r. Qed.

Lemma hold_some k : k ∈ keys -> assoc k (numberHolds prefix keys) = Some (default "" (assoc k (numberHolds prefix keys))).
Proof. intros Hk. by destruct (numberHolds_elem prefix keys k Hk) as [h ->]. Qed.

Lemma finalizeKey_column name c : dropsColumn name c ->
  finalizeKey dialect d (numberHolds prefix keys) (droppedKey name c) = Ok [dropColumnStep dialect name (columnHold name c)].
Proof.
  intros H. destruct (dropsColumn_table name c H) as (s & E & Hs & Ht & Ek & Hk). unfold finalizeKey, columnHold, mbind, res_bind. rewrite (hold_some _ Hk).
  cbn [present default]. destruct (column_dot s Hs) as [Hdot Hplus]. rewrite Ek, str_dot, Hplus, index_char, substring_front, Ht by done. done.
Qed.

Lemma finalizeKey_table s : s ∈ pd_dropped d -> finalizeKey dialect d (numberHolds prefix keys) s = Ok [dropTableStep dialect (tableHold s)].
Proof.
  intros H. assert (Hk : s ∈ keys) by (apply holdKeys_elem; by right; left).
  unfold finalizeKey, tableHold, mbind, res_bind. rewrite (hold_some _ Hk). cbn [present default].
  destruct (column_dot s) as [Hdot Hplus]; [apply sourceName_good; by right|]. specialize (Hplus ""). rewrite string_app_nil_r in Hplus. by rewrite Hplus, index_none.
Qed.

Lemma final_elem final f : concatR (finalizeKey dialect d (numberHolds prefix keys)) keys = Ok final ->
  f ∈ final <-> (exists name c, dropsColumn name c /\ f = dropColumnStep dialect name (columnHold name c)) \/
                exists s, s ∈ pd_dropped d /\ f = dropTableStep dialect (tableHold s).
Proof.
  intros E. rewrite (concatR_elem _ _ _ _ E). split.
  - intros (k & b & Hk & Eb & Hf). apply holdKeys_elem in Hk as [(name & c & s & Hdc & Es & ->)|[Hk|(name & c & _ & _ & ->)]].
    + left. exists name, c. split; [done|]. assert (Ek : droppedKey name c = str [s; "."; c]) by (unfold droppedKey; by rewrite Es).
      rewrite <- Ek, finalizeKey_column in Eb by done. injection Eb as <-. by apply list_elem_of_singleton in Hf.
    + right. exists k. split; [done|]. rewrite finalizeKey_table in Eb by done. injection Eb as <-. by apply list_elem_of_singleton in Hf.
    + unfold finalizeKey in Eb. run Eb. change (starts_with "+" (str ("+" :: _))) with true in Eb. injection Eb as <-. by apply elem_of_nil in Hf.
  - intros [(name & c & H & ->)|(s & H & ->)].
    + exists (droppedKey name c), [dropColumnStep dialect name (columnHold name c)]. split; [|split; [by apply finalizeKey_column|by apply list_elem_of_singleton]].
      by destruct (dropsColumn_table name c H) as (? & _ & _ & _ & _ & ?).
    + exists s, [dropTableStep dialect (tableHold s)]. split; [apply holdKeys_elem; by right; left|]. split; [by apply finalizeKey_table|by apply list_elem_of_singleton].
Qed.

(** No two dropped things have one holding name. *)
Lemma columnHold_inj name c name' c' : dropsColumn name c -> dropsColumn name' c' -> columnHold name c = columnHold name' c' -> name = name' /\ c = c'.
Proof.
  intros H H' E. destruct (dropsColumn_table name c H) as (s & _ & Hs & Ht & Ek & Hk), (dropsColumn_table name' c' H') as (s' & _ & Hs' & Ht' & Ek' & Hk').
  assert (Ekk : droppedKey name c = droppedKey name' c').
  { eapply (hold_injective prefix keys); [by apply hold_some|]. unfold columnHold in E. rewrite E. by apply hold_some. }
  rewrite Ek, Ek', !str_dot in Ekk. apply app_char_inj in Ekk as [-> ->]; [|by apply column_dot..]. by rewrite <- Ht, <- Ht'.
Qed.

Lemma tableHold_inj s s' : s ∈ pd_dropped d -> s' ∈ pd_dropped d -> tableHold s = tableHold s' -> s = s'.
Proof.
  intros H H' E. eapply (hold_injective prefix keys); [apply hold_some, holdKeys_elem; by right; left|]. unfold tableHold in E. rewrite E.
  apply hold_some, holdKeys_elem. by right; left.
Qed.

(** What is dropped is hidden. *)
Lemma hidden_column r name c : dialect <> Sqlite -> hideSteps dialect d (numberHolds prefix keys) = Ok r -> dropsColumn name c ->
  step (renameColumnSql dialect name c (columnHold name c)) (renameColumnSql dialect name (columnHold name c) c)
    (presentEffect "column" name (columnHold name c)) ∈ r.
Proof.
  intros Hdia H Hdc. unfold hideSteps in H. run H. injection H as <-. unfold isSqlite in Heqr0. rewrite bool_decide_eq_false_2 in Heqr0 by done.
  destruct (dropsColumn_table name c Hdc) as (s & E & Hs & Ht & Ek & Hk). destruct Hdc as [Hn Hc].
  apply elem_of_app. left. apply (concatR_elem _ _ _ _ Heqr0). destruct (concatR_all _ _ _ _ Heqr0 Hn) as [b Hb]. exists name, b. split; [done|]. split; [done|].
  run Hb. rename Heqr into Hsrc. unfold sourceOf, sourceTable in Hsrc. rewrite E in Hsrc. unfold mbind, res_bind in Hsrc. cbn [present] in Hsrc.
  destruct (assoc s (pd_source d)) as [src|] eqn:Es; [|done]. injection Hsrc as <-. apply (planDiff_tables _ _ _ _ Hd) in Es as [En _].
  apply (concatR_elem _ _ _ _ Hb). destruct (concatR_all _ _ _ _ Hb Hc) as [b' Hb']. exists c, b'. split; [done|]. split; [done|].
  run Hb'. rewrite En in *. unfold hold in Heqr2. rewrite <- Ek, (hold_some _ Hk) in Heqr2. injection Heqr2 as <-. fold (columnHold name c) in Hb'.
  destruct (columnOf src c) as [x|] eqn:Ex; [|done]. injection Heqr as <-. apply columnOf_some in Ex as [_ Ex].
  unfold hideColumn in Hb'. run Hb'. injection Hb' as <-. apply elem_of_app. right. rewrite Ex. by apply list_elem_of_singleton.
Qed.

Lemma dropsColumn_source name c src : dropsColumn name c -> sourceOf d name = Ok src -> droppedKey name c = str [t_name src; "."; c] /\ droppedKey name c ∈ keys.
Proof.
  intros Hdc Hsrc. destruct (dropsColumn_table name c Hdc) as (s & E & _ & _ & Ek & Hk). split; [|done].
  unfold sourceOf, sourceTable in Hsrc. rewrite E in Hsrc. unfold mbind, res_bind in Hsrc. cbn [present] in Hsrc.
  destruct (assoc s (pd_source d)) as [t|] eqn:Es; [|done]. injection Hsrc as <-. apply (planDiff_tables _ _ _ _ Hd) in Es as [En _]. by rewrite En.
Qed.

Lemma dropsColumn_rebuilt name c : dropsColumn name c -> sqliteRebuilds d name = Ok true.
Proof.
  intros [_ Hc]. unfold sqliteRebuilds. unfold listOf in Hc. destruct (assoc name (pd_removed d)); [|by apply elem_of_nil in Hc].
  rewrite (bool_decide_eq_true_2 (is_Some (Some l))) by done. by rewrite orb_true_r.
Qed.

(** The hidden columns of a rebuild, one for each dropped column. *)
Lemma hidden_lookup src name hidden i c : sourceOf d name = Ok src ->
  hiddenColumns (numberHolds prefix keys) src (fun c => str [t_name src; "."; c]) (listOf name (pd_removed d)) = Ok hidden ->
  listOf name (pd_removed d) !! i = Some c -> dropsColumn name c -> exists x, hidden !! i = Some x /\ col_name x = columnHold name c.
Proof.
  intros Hsrc Hh Hi Hdc. destruct (dropsColumn_source name c src Hdc Hsrc) as [Ek Hk].
  destruct (mapR_lookup _ _ _ _ _ Hh Hi) as (x & Hx & Ex). run Ex. injection Ex as <-. exists (withName a a0). split; [done|].
  unfold hold in Heqr0. rewrite <- Ek, (hold_some _ Hk) in Heqr0. injection Heqr0 as <-. done.
Qed.

Lemma carries_dropped into from (xs ys : list string) cols hidden i c x :
  length xs = length ys -> cols !! i = Some c -> hidden !! i = Some x ->
  carries (copyRows Sqlite into (xs ++ map (fun e => q Sqlite (col_name (snd e))) (zip cols hidden)) from (ys ++ map (fun e => q Sqlite (fst e)) (zip cols hidden)))
    into (col_name x) from c.
Proof.
  intros Hlen Hc Hx. eexists _, _, (length xs + i)%nat. split; [reflexivity|].
  assert (Hz : zip cols hidden !! i = Some (c, x)) by (apply lookup_zip_with_Some; by exists c, x).
  split; (rewrite lookup_app_r by lia); [|rewrite Hlen]; (replace (_ + i - _)%nat with i by lia); by rewrite list_lookup_fmap, Hz.
Qed.

Lemma rebuild_copiedAside name c r : rebuild sha256 Sqlite d (numberHolds prefix keys) name = Ok r -> dropsColumn name c ->
  copiedAside r name c (columnHold name c).
Proof.
  intros H Hdc. unfold rebuild in H. run H.
  match goal with E : sourceOf d name = Ok ?x |- _ => rename x into src, E into Hsrc end.
  match goal with E : hiddenColumns _ src _ _ = Ok ?x |- _ => rename x into hidden, E into Hh end.
  match goal with E : Renderer.createTable _ ?t rebuildTable _ hidden = Ok ?x |- _ => rename t into tgt, x into work, E into Hwork end.
  match goal with E : Renderer.createTable _ tgt name _ hidden = Ok ?x |- _ => rename x into new, E into Hnew end.
  destruct (proj1 (list_elem_of_lookup _ _) (proj2 Hdc)) as [i Hi]. destruct (hidden_lookup _ _ _ _ _ Hsrc Hh Hi Hdc) as (x & Hx & <-).
  injection H as <-.
  eexists tgt, _, hidden, work, _, new, _. split.
  { do 2 first [apply sublist_skip|apply sublist_inserts_l; apply sublist_skip]. apply sublist_inserts_l, sublist_cons, sublist_inserts_l, sublist_cons, sublist_skip.
    apply sublist_inserts_l, sublist_skip, sublist_nil_l. }
  split; [by apply list_elem_of_fmap_2, (list_elem_of_lookup_2 _ i)|]. split; [exact Hwork|]. split; [exact Hnew|].
  assert (Hin : forall xs ys, length xs = length ys -> carries (copyRows Sqlite rebuildTable
      (xs ++ map (fun e => q Sqlite (col_name (snd e))) (zip (listOf name (pd_removed d)) hidden)) name
      (ys ++ map (fun e => q Sqlite (fst e)) (zip (listOf name (pd_removed d)) hidden))) rebuildTable (col_name x) name c).
  { intros xs ys Hl. by eapply carries_dropped. }
  split; [|split].
  - destruct a4; apply Hin; by rewrite !length_map.
  - destruct a4; [by left|]. right. apply Hin. by rewrite !length_map.
  - eexists _, _, (length (t_columns tgt) + i)%nat. split; [reflexivity|].
    rewrite list_lookup_fmap, lookup_app_r, length_map by (rewrite length_map; lia). replace (_ + i - _)%nat with i by lia.
    by rewrite list_lookup_fmap, Hx.
Qed.

(** On SQLite a dropped column is kept by the rebuild of its table. *)
Lemma kept_column rebuilt forward name c : forwardSteps sha256 Sqlite d (numberHolds prefix keys) rebuilt = Ok forward ->
  filterR (sqliteRebuilds d) (pd_matched d) = Ok rebuilt -> dropsColumn name c -> copiedAside forward name c (columnHold name c).
Proof.
  intros H Hr Hdc. unfold forwardSteps in H. run H. injection H as <-.
  match goal with E : columnSteps _ _ _ _ _ = Ok ?x |- _ => rename x into columns, E into Hcol end.
  destruct (concatR_sublist _ _ _ _ Hcol (proj1 Hdc)) as (r & E & Hs). cbn [isSqlite] in E. unfold rebuilds in E.
  rewrite (proj2 (includes_elem name rebuilt)) in E by (eapply filterR_elem; [exact Hr|exact (proj1 Hdc)|by eapply dropsColumn_rebuilt]).
  destruct (rebuild_copiedAside _ _ _ E Hdc) as (t & names & hidden & work & copyIn & new & copyOut & Hsub & Hx).
  exists t, names, hidden, work, copyIn, new, copyOut. split; [|done]. etrans; [exact Hsub|]. etrans; [exact Hs|].
  do 7 apply sublist_inserts_l. by apply sublist_inserts_r.
Qed.

Lemma hidden_table r s : hideSteps dialect d (numberHolds prefix keys) = Ok r -> s ∈ pd_dropped d ->
  step (renameTableSql dialect s (tableHold s)) (renameTableSql dialect (tableHold s) s) (presentEffect "table" (tableHold s) "") ∈ r.
Proof.
  intros H Hs. unfold hideSteps in H. run H. injection H as <-. apply elem_of_app. right. destruct (mapR_all _ _ _ _ Heqr1 Hs) as [b Hb].
  assert (Hin : b ∈ a0) by by eapply mapR_value. unfold hold in Hb. rewrite (hold_some s) in Hb by (apply holdKeys_elem; by right; left). by injection Hb as <-.
Qed.
End final.

(** C31: the steps of a plan are steps that can be undone, or say why not, and
    then the finalize steps. A finalize step drops exactly one dropped column
    or table of the diff under its holding name; no two share a holding name;
    each dropped table, and on MySQL and PostgreSQL each dropped column, is
    renamed to its holding name before, with the opposite rename as rollback; on
    SQLite the rebuild of its table copies each dropped column into its holding
    name. *)
Theorem planSteps_hides sha256 source p dialect d steps :
  planDiff sha256 source p = Ok (inl d) -> planSteps sha256 source p dialect = Ok (inl steps) ->
  (forall s t, source = Some s -> t ∈ doc_tables s -> isColumn (t_name t) = true) ->
  exists forward final cHold tHold, steps = forward ++ final /\ Forall undoable forward /\
    (forall f, f ∈ final <-> (exists name c, dropsColumn d name c /\ f = dropColumnStep dialect name (cHold name c)) \/
                             exists s, s ∈ pd_dropped d /\ f = dropTableStep dialect (tHold s)) /\
    (forall name c name' c', dropsColumn d name c -> dropsColumn d name' c' -> cHold name c = cHold name' c' -> name = name' /\ c = c') /\
    (forall s s', s ∈ pd_dropped d -> s' ∈ pd_dropped d -> tHold s = tHold s' -> s = s') /\
    (forall name c, dialect <> Sqlite -> dropsColumn d name c ->
       step (renameColumnSql dialect name c (cHold name c)) (renameColumnSql dialect name (cHold name c) c) (presentEffect "column" name (cHold name c)) ∈ forward) /\
    (forall name c, dialect = Sqlite -> dropsColumn d name c -> copiedAside forward name c (cHold name c)) /\
    (forall s, s ∈ pd_dropped d ->
       step (renameTableSql dialect s (tHold s)) (renameTableSql dialect (tHold s) s) (presentEffect "table" (tHold s) "") ∈ forward).
Proof.
  intros Hd H Hnames. unfold planSteps in H. rewrite Hd in H. run H. injection H as <-. unfold writeSteps in Heqr. run Heqr. injection Heqr as <-.
  rename a0 into keys, Heqr0 into Hkeys, a2 into forward, a3 into final.
  match goal with E : forwardSteps _ _ _ _ _ = Ok _ |- _ => rename E into Hf end.
  match goal with E : concatR _ keys = Ok _ |- _ => rename E into Hfin end.
  exists forward, final, (columnHold d (holdPrefixOf (p_to p)) keys), (tableHold (holdPrefixOf (p_to p)) keys).
  assert (Hhide : exists r, hideSteps dialect d (numberHolds (holdPrefixOf (p_to p)) keys) = Ok r /\ r ⊆ forward).
  { unfold forwardSteps in Hf. run Hf. eexists. split; [reflexivity|]. injection Hf as <-. intros x Hx. rewrite !elem_of_app. tauto. }
  destruct Hhide as (r & Hr & Hsub). split_and!; [done|by eapply forwardSteps_undoable| | | | | |].
  - intros f. by eapply final_elem.
  - intros name c name' c'. by eapply columnHold_inj.
  - intros s s'. by eapply tableHold_inj.
  - intros name c Hdia Hdc. apply Hsub. by eapply hidden_column.
  - intros name c -> Hdc. by eapply kept_column.
  - intros s Hs. apply Hsub. by eapply hidden_table.
Qed.

(** ** Two plans *)

Lemma planSteps_hides_witness : exists d steps,
  planDiff (fun _ => "0") (Some planSource) clientsPlan = Ok (inl d) /\ planSteps (fun _ => "0") (Some planSource) clientsPlan MySql = Ok (inl steps) /\
  dropsColumn d "clients" "fax" /\ pd_dropped d = ["stale"] /\
  exists forward final cHold tHold, steps = forward ++ final /\ Forall undoable forward /\
    dropColumnStep MySql "clients" (cHold "clients" "fax") ∈ final /\ dropTableStep MySql (tHold "stale") ∈ final /\
    step (renameTableSql MySql "stale" (tHold "stale")) (renameTableSql MySql (tHold "stale") "stale") (presentEffect "table" (tHold "stale") "") ∈ forward.
Proof.
  eexists _, _. split; [vm_compute; reflexivity|]. split; [vm_compute; reflexivity|].
  assert (Hdc : dropsColumn (match planDiff (fun _ => "0") (Some planSource) clientsPlan with Ok (inl d) => d | _ => mkPlanDiff [] [] [] [] [] [] [] [] [] [] [] [] [] [] [] [] end) "clients" "fax")
    by (split; apply (bool_decide_unpack _); vm_compute; exact I).
  vm_compute in Hdc. split; [exact Hdc|]. split; [reflexivity|].
  edestruct (planSteps_hides (fun _ => "0") (Some planSource) clientsPlan MySql) as (forward & final & cHold & tHold & E & Hu & Hf & _ & _ & _ & _ & Ht).
  - vm_compute. reflexivity.
  - vm_compute. reflexivity.
  - intros s t [= <-] Ht. simpl in Ht. repeat (apply elem_of_cons in Ht as [->|Ht]; [done|]). by apply elem_of_nil in Ht.
  - exists forward, final, cHold, tHold. split; [exact E|]. split; [exact Hu|]. split; [apply Hf; left; by exists "clients", "fax"|].
    split; [apply Hf; right; exists "stale"; split; [by left|done]|]. apply Ht. by left.
Defined.

(** ** The names of renderer CHECKs *)

Definition longTable : string := "customer_subscription_renewal_notices".
Definition longColumn : string := "acknowledged_by_the_customer".
Definition longDocument (columns : list DbspecColumn) : DbspecDocument := mkDocument "schema" false [] [planTable longTable (idColumn :: columns)] [] [].
Definition someDigest (text : string) : string := "0123456789abcdef".

(** a renderer CHECK whose plain name is longer than 63 bytes is created
    under its hashed name, but the steps of a plan drop it under its plain
    name, a constraint that the table does not have. *)
Theorem long_check_dropped_by_plain_name :
  let flag := mkColumn [] longColumn TBool false false None in
  let plan := mkPlan (mkHeader "change" (Some "sha256:0123456789abcdef") [] [] [] [mkColumnName longTable longColumn]) (longDocument []) "sha256:1" in
  Renderer.typeCheckText MySql (rendererName someDigest longTable) flag =
    ["CONSTRAINT `customer_subscription_renewal_notices$acknowledged_by_$01234567` CHECK (`acknowledged_by_the_customer` IN (0, 1))"] /\
  match planSteps someDigest (Some (longDocument [flag])) plan MySql with
  | Ok (inl (s :: _)) => ps_statement s =
      "ALTER TABLE `customer_subscription_renewal_notices` DROP CHECK `customer_subscription_renewal_notices$acknowledged_by_the_customer`"
  | _ => False
  end.
Proof. split; vm_compute; reflexivity. Qed.

Lemma triggerParts_read_witness :
  Forall (fun p => exists event, event ∈ triggerEvents /\ tp_name p = rendererName someDigest "orders" event)
    (triggerParts someDigest Postgres (orderTable [] [SImmutable; logged])).
Proof. apply (triggerParts_read someDigest Postgres (orderTable [] [SImmutable; logged])); [reflexivity|done]. Defined.
