(* ===== verification/Apply.v ===== *)
(** * The application of plans to a database ([dbspec/apply.ts])

    The four commands [applyPlans], [recoverPlans], [rollbackPlans] and
    [finalizePlans] as programs over a world that the module does not own: the
    server session behind the connection, the introspection of its catalog
    ([introspectCatalog] of [introspect.ts]), the clock and the event handler are
    operations of the class [Host].  A call returns or throws and leaves the
    world that the later calls see, so a caught error keeps what ran before it.
    The driver adapters of [session(connection, dialect)] are [exec] and [rows]. *)

From stdpp Require Import gmap.
From S2P Require Import Prelude Documents DocumentSet Values Decimal Times BindCheck Render Plan PlanDiff PlanSteps.
From Stdlib Require Import Lia.

(** ** Errors *)

Inductive DbspecApplyErrorCode := Locked | SessionCode | Interrupted | Drift | ChainCode | Failed | VerifyCode | Irreversible | Nulls.

#[global] Instance DbspecApplyErrorCode_eq_dec : EqDecision DbspecApplyErrorCode.
Proof. solve_decision. Defined.

Definition codeText (c : DbspecApplyErrorCode) : string :=
  match c with
  | Locked => "locked" | SessionCode => "session" | Interrupted => "interrupted" | Drift => "drift" | ChainCode => "chain"
  | Failed => "failed" | VerifyCode => "verify" | Irreversible => "irreversible" | Nulls => "nulls"
  end.

(** What a command throws.  [Foreign] is an error of the driver or of the event
    handler with its message, the integer [errcode] it holds and the one that
    its cause holds; [Cleanup] is an [AggregateError] of [finish], which holds two
    errors or more; [Plain] and
    [TypeProblem] are an [Error] and a [TypeError] of this module; [Internal] is an
    error of the planner. *)
Inductive thrown :=
  | ApplyError (code : DbspecApplyErrorCode) (plan : string) (step : Z) (detail : string) (cause : option thrown)
  | SchemaMismatch (message : string)
  | Cleanup (first second : thrown) (more : list thrown)
  | Foreign (message : string) (errcode causeErrcode : option Z)
  | Plain (message : string)
  | TypeProblem (message : string)
  | Internal (e : err).

(** Whether the message of a code names the step. *)
Definition namesStep (code : DbspecApplyErrorCode) (plan : string) : bool :=
  match code with Failed | Interrupted | Irreversible | Nulls => true | SessionCode => negb (bool_decide (plan = "")) | _ => false end.

(** The [message] of an error: that of [DbspecApplyError] as its constructor
    writes it, and of an aggregate that of its first error. *)
Fixpoint thrownMessage (e : thrown) : string :=
  match e with
  | ApplyError code plan step detail cause =>
      str [codeText code;
           (if decide (plan = "") then "" else str [" "; plan]);
           (if namesStep code plan then str [" at step "; pretty step] else "");
           (if decide (detail = "") then "" else str [": "; detail]);
           match cause with None => "" | Some c => str [": "; thrownMessage c] end]
  | SchemaMismatch m | Foreign m _ _ | Plain m | TypeProblem m => m
  | Cleanup first _ _ => thrownMessage first
  | Internal e => messageOf e
  end.

Definition errcodes (e : thrown) : list (option Z) :=
  match e with
  | Foreign _ code cause => [code; cause]
  | ApplyError _ _ _ _ (Some (Foreign _ code _)) => [None; code]
  | _ => []
  end.

Definition sqliteResultCode (e : thrown) : option Z := head (omap id (errcodes e)).

Definition sqliteLockResult (e : thrown) : bool :=
  match sqliteResultCode e with Some code => includes (Z.land code 255) [5; 6] | None => false end.

(** ** Programs *)

(** A call that returns or throws, and the state after it. *)
Definition Act (S A : Type) := S -> (A + thrown) * S.

#[global] Instance Act_ret {S} : MRet (Act S) := fun A a s => (inl a, s).
#[global] Instance Act_bind {S} : MBind (Act S) := fun A B k m s =>
  match m s with (inl a, s') => k a s' | (inr e, s') => (inr e, s') end.

Definition raise {S A} (e : thrown) : Act S A := fun s => (inr e, s).
Definition raise_if {S} (b : bool) (e : thrown) : Act S unit := if b then raise e else mret tt.
Definition attempt {S A} (m : Act S A) : Act S (A + thrown) := fun s => let '(r, s') := m s in (inl r, s').
(** [try { m } catch (error) { throw f(error) }] *)
Definition rethrow {S A} (f : thrown -> thrown) (m : Act S A) : Act S A := fun s =>
  match m s with (inr e, s') => (inr (f e), s') | r => r end.
Definition ofRes {S A} (r : res A) : Act S A := match r with Ok a => mret a | Err e => raise (Internal e) end.
Definition the {S A} (o : option A) (what : string) : Act S A := ofRes (present o what).

(** A loop with a body that may throw. *)
Fixpoint each {S A} (f : A -> Act S unit) (l : list A) : Act S unit :=
  match l with [] => mret tt | x :: l => f x;; each f l end.

(** A [let] variable that the functions of a block capture: it keeps its value
    when one of them throws. *)
Definition local {S V A} (v : V) (m : Act (S * V) A) : Act S A := fun s => let '(r, (s', _)) := m (s, v) in (r, s').
Definition outer {S V A} (m : Act S A) : Act (S * V) A := fun '(s, v) => let '(r, s') := m s in (r, (s', v)).
Definition readVar {S V} : Act (S * V) V := fun '(s, v) => (inl v, (s, v)).
Definition setVar {S V} (v : V) : Act (S * V) unit := fun '(s, _) => (inl tt, (s, v)).

(** The ends, all of them, and the failures with theirs. *)
Fixpoint runEnds {S} (ends : list (Act S unit)) (failures : list thrown) (s : S) : list thrown * S :=
  match ends with
  | [] => (failures, s)
  | e :: ends => match e s with (inl _, s') => runEnds ends failures s' | (inr x, s') => runEnds ends (failures ++ [x]) s' end
  end.

Definition finish {S} (f : Act S unit) (ends : list (Act S unit)) : Act S unit := fun s =>
  let '(r, s) := f s in
  let failures := match r with inl _ => [] | inr (Cleanup first second more) => first :: second :: more | inr e => [e] end in
  let '(failures, s) := runEnds ends failures s in
  match failures with [] => (inl tt, s) | [e] => (inr e, s) | first :: second :: more => (inr (Cleanup first second more), s) end.

(** ** Values of rows *)

(** The text [/^-?\d+$/] as its number. *)
Definition integerText (s : string) : option Z :=
  let digits := match s with String a rest => if decide (a = "-"%char) then rest else s | _ => s end in
  if all_digits digits && negb (bool_decide (digits = "")) then Some (bigintOfText s) else None.

Definition safeInteger (value : JsValue) : option Z :=
  match value with
  | JBigint n => if isSafeInteger n then Some n else None
  | JString s => n ← integerText s; if isSafeInteger n then Some n else None
  | _ => safeNumber value
  end.

Definition integer {S} (value : JsValue) (what : string) : Act S Z :=
  match safeInteger value with Some n => mret n | None => raise (Plain (str [what; " is not an integer: "; stringOf value])) end.

Definition text {S} (value : JsValue) (what : string) : Act S string :=
  match value with JString s => mret s | _ => raise (Plain (str [what; " is not text: "; stringOf value])) end.

Definition hashOrEmpty (hash : option string) : string :=
  match hash with None => "empty" | Some h => if decide (h = "") then "empty" else h end.

Definition cell (row : list JsValue) (i : nat) : JsValue := default JUndefined (row !! i).

(** ** The history and the host *)

Record HistoryRow := mkHistoryRow { hr_from : string; hr_to : string; hr_state : string; hr_step : Z }.

#[global] Instance HistoryRow_eq_dec : EqDecision HistoryRow.
Proof. solve_decision. Defined.

Record DbspecApplyEvent := mkEvent { ev_kind : string; ev_plan : string; ev_step : Z; ev_steps : Z; ev_statement : string }.

(** [DbspecUnsupported] of [introspect_catalog.ts] *)
Record DbspecUnsupported := mkUnsupported { us_kind : string; us_table : string; us_name : string; us_reason : string }.

(** What the module calls: the statements and queries of a server session, the
    introspection of its catalog, the clock and the event handler, if any. *)
Class Host (W : Type) := {
  exec : string -> list JsValue -> Act W unit;
  rows : string -> list JsValue -> Act W (list (list JsValue));
  introspectCatalog : DbspecDialect -> string -> Act W (DbspecDocument * list DbspecUnsupported);
  now : Act W Z;
  events : option (DbspecApplyEvent -> Act W unit) }.

Definition APPLYING : string := "applying".
Definition APPLIED : string := "applied".
Definition FINALIZING : string := "finalizing".
Definition DONE : string := "done".
Definition ROLLING_BACK : string := "rolling_back".

Definition HISTORY_TABLE : string := "dbspec$plans".
Definition MYSQL_LOCK : string := str ["CONCAT('"; HISTORY_TABLE; "$', LEFT(SHA2(DATABASE(), 256), 51))"].
Definition POSTGRES_LOCK : string := str ["hashtext('"; HISTORY_TABLE; "'), hashtext(current_schema())"].
Definition SESSION_REQUIREMENT : string :=
  "apply, recover, rollback and finalize need one server session of their own for the whole run: a direct or session-pooled connection".
Definition SESSION_MYSQL : string := str ["SELECT CONNECTION_ID(), COALESCE(IS_USED_LOCK("; MYSQL_LOCK; ") = CONNECTION_ID(), 0)"].
Definition SESSION_POSTGRES : string :=
  str ["SELECT pg_backend_pid(), EXISTS (SELECT 1 FROM pg_locks WHERE locktype = 'advisory' AND pid = pg_backend_pid() AND objsubid = 2";
       " AND classid = (hashtext('"; HISTORY_TABLE;
       "')::bigint & 4294967295)::oid AND objid = (hashtext(current_schema())::bigint & 4294967295)::oid)"].
Definition LOCK_WAIT_SECONDS : Z := 5.

Definition EFFECT_QUERIES (dialect : DbspecDialect) : list (string * string) :=
  match dialect with
  | MySql =>
      [("table", "SELECT COUNT(*) FROM information_schema.TABLES WHERE TABLE_SCHEMA = DATABASE() AND TABLE_NAME = ?");
       ("column", "SELECT COUNT(*) FROM information_schema.COLUMNS WHERE TABLE_SCHEMA = DATABASE() AND TABLE_NAME = ? AND COLUMN_NAME = ?");
       ("index", "SELECT COUNT(*) FROM information_schema.STATISTICS WHERE TABLE_SCHEMA = DATABASE() AND TABLE_NAME = ? AND INDEX_NAME = ?");
       ("constraint", "SELECT COUNT(*) FROM information_schema.TABLE_CONSTRAINTS WHERE CONSTRAINT_SCHEMA = DATABASE() AND TABLE_NAME = ? AND CONSTRAINT_NAME = ?");
       ("trigger", "SELECT COUNT(*) FROM information_schema.TRIGGERS WHERE TRIGGER_SCHEMA = DATABASE() AND EVENT_OBJECT_TABLE = ? AND TRIGGER_NAME = ?")]
  | Postgres =>
      [("table", "SELECT COUNT(*) FROM pg_class WHERE relnamespace = current_schema()::regnamespace AND relkind IN ('r', 'p') AND relname = $1");
       ("column", "SELECT COUNT(*) FROM pg_attribute a JOIN pg_class c ON c.oid = a.attrelid WHERE c.relnamespace = current_schema()::regnamespace AND c.relname = $1 AND a.attname = $2 AND a.attnum > 0 AND NOT a.attisdropped");
       ("index", "SELECT COUNT(*) FROM pg_index x JOIN pg_class i ON i.oid = x.indexrelid JOIN pg_class c ON c.oid = x.indrelid WHERE c.relnamespace = current_schema()::regnamespace AND c.relname = $1 AND i.relname = $2");
       ("constraint", "SELECT COUNT(*) FROM pg_constraint k JOIN pg_class c ON c.oid = k.conrelid WHERE c.relnamespace = current_schema()::regnamespace AND c.relname = $1 AND k.conname = $2");
       ("trigger", "SELECT COUNT(*) FROM pg_trigger g JOIN pg_class c ON c.oid = g.tgrelid WHERE c.relnamespace = current_schema()::regnamespace AND c.relname = $1 AND g.tgname = $2 AND NOT g.tgisinternal");
       ("function", "SELECT COUNT(*) FROM pg_proc WHERE pronamespace = current_schema()::regnamespace AND proname = $1")]
  | Sqlite =>
      [("table", "SELECT COUNT(*) FROM sqlite_master WHERE type = 'table' AND name = ?");
       ("column", "SELECT COUNT(*) FROM pragma_table_info(?) WHERE name = ?");
       ("index", "SELECT COUNT(*) FROM sqlite_master WHERE type = 'index' AND tbl_name = ? AND name = ?");
       ("trigger", "SELECT COUNT(*) FROM sqlite_master WHERE type = 'trigger' AND tbl_name = ? AND name = ?");
       ("sequence", "SELECT COUNT(*) FROM sqlite_sequence WHERE name = ?")]
  end.

Definition dialectText (dialect : DbspecDialect) : string := match dialect with MySql => "mysql" | Postgres => "postgres" | Sqlite => "sqlite" end.

(** The index of the first finalize step. *)
Definition finalizeStart (steps : list DbspecPlanStep) : nat :=
  match list_find (fun s => ps_finalize s = true) steps with Some (i, _) => i | None => length steps end.

(** [Date.prototype.toISOString] of a time in milliseconds *)
Definition toISOString (t : Z) : string :=
  let day := dayOfTime t in
  let year := yearOf day in
  str [(if (0 <=? year) && (year <=? 9999) then padStart (pretty year) 4 "0"
        else str [(if year <? 0 then "-" else "+"); padStart (pretty (Z.abs year)) 6 "0"]); "-";
       pad2 (monthOf day + 1); "-"; pad2 (dateOf day); "T"; pad2 (hoursOf t); ":"; pad2 (minutesOf t); ":"; pad2 (secondsOf t);
       "."; padStart (pretty (millisecondsOf t)) 3 "0"; "Z"].

(** The largest time of a [Date], in milliseconds from the epoch. *)
Definition maxTime : Z := 8640000000000000.

(** [micros % 1000000] of a safe integer has the sign of [micros], and the
    difference below is a multiple of 1000000 under 2^54, so a number holds it. *)
Definition appliedAt (micros : Z) : string + thrown :=
  if negb (isSafeInteger micros) then inr (TypeProblem "now must return the microseconds since the epoch as a safe integer")
  else
    let fraction := Z.rem (Z.rem micros 1000000 + 1000000) 1000000 in
    let date := (micros - fraction) / 1000 in
    if maxTime <? Z.abs date then inr (TypeProblem "now must return a time that Date can hold")
    else inl (str [String.substring 0 19 (toISOString date); "."; padStart (pretty fraction) 6 "0"; "Z"]).

(** ** One command *)

(** The fields of an [Applier] that change, and the world. *)
Record Command (W : Type) := mkCommand { cm_world : W; cm_history : gmap string HistoryRow; cm_session : Z }.
Arguments mkCommand {W} cm_world cm_history cm_session.
Arguments cm_world {W} c.
Arguments cm_history {W} c.
Arguments cm_session {W} c.

Module Applier.
Section applier.
Context {W : Type} {host : Host W} (sha256 : string -> string) (dialect : DbspecDialect) (chain : list DbspecPlan).

Abbreviation Do := (Act (Command W)).

Definition call {A} (m : Act W A) : Do A := fun c =>
  let '(r, w) := m (cm_world c) in (r, mkCommand w (cm_history c) (cm_session c)).
Definition history : Do (gmap string HistoryRow) := fun c => (inl (cm_history c), c).
Definition setHistory (h : gmap string HistoryRow) : Do unit := fun c => (inl tt, mkCommand (cm_world c) h (cm_session c)).
Definition serverSession : Do Z := fun c => (inl (cm_session c), c).
Definition setSession (id : Z) : Do unit := fun c => (inl tt, mkCommand (cm_world c) (cm_history c) id).

Definition run_ (sql : string) : Do unit := call (exec sql []).
Definition q (name : string) : string := Renderer.q dialect name.

Definition queryRow (sql : string) (args : list JsValue) : Do (list JsValue) :=
  r ← call (rows sql args);
  match r with [] => raise (Plain (str [sql; " returned no row"])) | row :: _ => mret row end.

Definition queryValue (sql : string) (args : list JsValue) : Do JsValue := row ← queryRow sql args; mret (cell row 0).

Definition emit (kind plan : string) (step : Z) (steps : nat) (statement : string) : Do unit :=
  match events with None => mret tt | Some f => call (f (mkEvent kind plan step (Z.of_nat steps) statement)) end.

Definition placeholder (n : nat) : string := match dialect with Postgres => str ["$"; pretty (Z.of_nat n)] | _ => "?" end.
Definition placeholders (n : nat) : string := join ", " (map placeholder (seq 1 n)).

(** *** Sessions *)

Definition openSession (query : string) : Do unit :=
  row ← queryRow query [];
  id ← integer (cell row 0) "server session id";
  setSession id;;
  raise_if (includes (cell row 1) [JBool true; JInt 1; JString "1"; JBigint 1])
    (ApplyError SessionCode "" 0 (str ["this server session already holds the "; HISTORY_TABLE; " lock, so another client shares it; "; SESSION_REQUIREMENT]) None).

(** [at_] is the plan and step, or none at the lock. *)
Definition sameSession (at_ : option (DbspecPlan * nat)) (current : JsValue) : Do unit :=
  id ← integer current "server session id";
  session ← serverSession;
  raise_if (negb (id =? session))
    (ApplyError SessionCode (match at_ with Some (p, _) => p_name p | None => "" end) (match at_ with Some (_, i) => Z.of_nat i | None => 0 end)
      (str ["the connection moved from server session "; pretty session; " to "; pretty id; "; "; SESSION_REQUIREMENT]) None).

(** The [mysql] case of [session] *)
Definition mysqlSession (f : Do unit) : Do unit :=
  openSession SESSION_MYSQL;;
  row ← queryRow (str ["SELECT GET_LOCK("; MYSQL_LOCK; ", 0), CONNECTION_ID()"]) [];
  raise_if (bool_decide (cell row 0 = JNull)) (Plain "GET_LOCK returned NULL; want 1 or 0");;
  acquired ← integer (cell row 0) "GET_LOCK";
  raise_if (acquired =? 0) (ApplyError Locked "" 0 (str ["another session holds the "; HISTORY_TABLE; " lock of this database"]) None);;
  raise_if (negb (acquired =? 1)) (Plain (str ["GET_LOCK returned "; pretty acquired; "; want 1 or 0"]));;
  local (None : option (Z * Z)) (finish
    (outer (sameSession None (cell row 1));;
     waits ← outer (queryRow "SELECT @@SESSION.lock_wait_timeout, @@SESSION.innodb_lock_wait_timeout" []);
     lock ← integer (cell waits 0) "lock_wait_timeout";
     innodb ← integer (cell waits 1) "innodb_lock_wait_timeout";
     outer (run_ (str ["SET SESSION lock_wait_timeout = "; pretty LOCK_WAIT_SECONDS; ", innodb_lock_wait_timeout = "; pretty LOCK_WAIT_SECONDS]));;
     setVar (Some (lock, innodb));;
     outer f)
    [previous ← readVar;
     match previous with
     | Some (lock, innodb) =>
         outer (run_ (str ["SET SESSION lock_wait_timeout = "; pretty lock; ", innodb_lock_wait_timeout = "; pretty innodb]))
     | None => mret tt
     end;
     outer (run_ (str ["DO RELEASE_LOCK("; MYSQL_LOCK; ")"]))]).

(** The [postgres] case of [session] *)
Definition postgresSession (f : Do unit) : Do unit :=
  openSession SESSION_POSTGRES;;
  row ← queryRow (str ["SELECT pg_try_advisory_lock("; POSTGRES_LOCK; "), pg_backend_pid()"]) [];
  match cell row 0 with
  | JBool true => mret tt
  | JBool false => raise (ApplyError Locked "" 0 (str ["another session holds the "; HISTORY_TABLE; " advisory lock of this schema"]) None)
  | got => raise (Plain (str ["pg_try_advisory_lock returned "; stringOf got]))
  end;;
  local (None : option string) (finish
    (outer (sameSession None (cell row 1));;
     value ← outer (queryValue "SELECT current_setting('lock_timeout')" []);
     timeout ← text value "lock_timeout";
     outer (queryValue (str ["SELECT set_config('lock_timeout', '"; pretty LOCK_WAIT_SECONDS; "s', false)"]) []);;
     setVar (Some timeout);;
     outer f)
    [previous ← readVar;
     match previous with
     | Some timeout => outer (queryValue "SELECT set_config('lock_timeout', $1, false)" [JString timeout]);; mret tt
     | None => mret tt
     end;
     released ← outer (queryValue (str ["SELECT pg_advisory_unlock("; POSTGRES_LOCK; ")"]) []);
     match released with
     | JBool true => mret tt
     | JBool false => raise (Plain (str ["the advisory lock of "; HISTORY_TABLE; " was not held at unlock"]))
     | _ => raise (Plain (str ["pg_advisory_unlock returned "; stringOf released]))
     end]).

Definition sqliteSession (f : Do unit) : Do unit :=
  foreignKeys ← (v ← queryValue "PRAGMA foreign_keys" []; integer v "PRAGMA foreign_keys");
  legacy ← (v ← queryValue "PRAGMA legacy_alter_table" []; integer v "PRAGMA legacy_alter_table");
  busy ← (v ← queryValue "PRAGMA busy_timeout" []; integer v "PRAGMA busy_timeout");
  mode ← (v ← queryValue "PRAGMA locking_mode" []; text v "PRAGMA locking_mode");
  run_ (str ["PRAGMA busy_timeout = "; pretty (LOCK_WAIT_SECONDS * 1000)]);;
  local false (finish
    (outer (run_ "PRAGMA locking_mode = EXCLUSIVE");;
     begun ← attempt (outer (run_ "BEGIN EXCLUSIVE"));
     match begun with
     | inl _ => mret tt
     | inr error =>
         if sqliteLockResult error then
           setVar true;; raise (ApplyError Locked "" 0 "another connection holds the SQLite database" (Some error))
         else raise error
     end;;
     outer (run_ "COMMIT");;
     outer (run_ "PRAGMA foreign_keys = OFF");;
     outer (run_ "PRAGMA legacy_alter_table = OFF");;
     outer f)
    [locked ← readVar; (if locked : bool then outer (run_ "PRAGMA busy_timeout = 0") else mret tt);
     outer (run_ (str ["PRAGMA foreign_keys = "; pretty foreignKeys]));
     outer (run_ (str ["PRAGMA legacy_alter_table = "; pretty legacy]));
     outer (run_ (str ["PRAGMA locking_mode = "; mode]));
     locked ← readVar;
     read ← attempt (outer (queryValue "SELECT COUNT(*) FROM sqlite_master" []));
     match read with inl _ => mret tt | inr error => if negb locked || negb (sqliteLockResult error) then raise error else mret tt end;
     outer (run_ (str ["PRAGMA busy_timeout = "; pretty busy]))]).

Definition session (f : Do unit) : Do unit :=
  match dialect with MySql => mysqlSession f | Postgres => postgresSession f | Sqlite => sqliteSession f end.

(** *** The history *)

Definition createHistorySql : string :=
  let '(integerType, textType, tail) :=
    match dialect with
    | MySql => ("INT", "varchar(71) CHARACTER SET ascii COLLATE ascii_bin", " ENGINE=InnoDB DEFAULT CHARSET=utf8mb4 COLLATE=utf8mb4_0900_bin")
    | _ => ("integer", "varchar(71)", "")
    end in
  str ["CREATE TABLE IF NOT EXISTS "; q HISTORY_TABLE; " (";
       q "name"; " "; textType; " NOT NULL, "; q "from_hash"; " "; textType; " NOT NULL, "; q "to_hash"; " "; textType; " NOT NULL, ";
       q "state"; " "; textType; " NOT NULL, "; q "step"; " "; integerType; " NOT NULL, "; q "steps"; " "; integerType; " NOT NULL, ";
       q "applied_at"; " "; textType; " NOT NULL, PRIMARY KEY ("; q "name"; "))"; tail].

Definition selectHistorySql : string :=
  str ["SELECT "; q "name"; ", "; q "from_hash"; ", "; q "to_hash"; ", "; q "state"; ", "; q "step"; " FROM "; q HISTORY_TABLE].
Definition insertSql : string :=
  str ["INSERT INTO "; q HISTORY_TABLE; " ("; q "name"; ", "; q "from_hash"; ", "; q "to_hash"; ", "; q "state"; ", "; q "step"; ", "; q "steps"; ", ";
       q "applied_at"; ") VALUES ("; placeholders 7; ")"].
Definition updateSql : string :=
  str ["UPDATE "; q HISTORY_TABLE; " SET "; q "state"; " = "; placeholder 1; ", "; q "step"; " = "; placeholder 2; " WHERE "; q "name"; " = "; placeholder 3].
Definition setStepSql : string := str ["UPDATE "; q HISTORY_TABLE; " SET "; q "step"; " = "; placeholder 1; " WHERE "; q "name"; " = "; placeholder 2].
Definition deleteSql : string := str ["DELETE FROM "; q HISTORY_TABLE; " WHERE "; q "name"; " = "; placeholder 1].

Definition createHistory : Do unit := run_ createHistorySql.

Definition readRow (row : list JsValue) : Do unit :=
  name ← text (cell row 0) "history name";
  from ← text (cell row 1) "history from_hash";
  to ← text (cell row 2) "history to_hash";
  state ← text (cell row 3) "history state";
  step ← integer (cell row 4) "history step";
  h ← history;
  setHistory (<[name := mkHistoryRow from to state step]> h).

Definition readHistory : Do unit :=
  createHistory;;
  setHistory ∅;;
  found ← call (rows selectHistorySql []);
  each readRow found.

Definition chainError {A} (plan detail : string) : Do A := raise (ApplyError ChainCode plan 0 detail None).

Definition states : list string := [APPLYING; APPLIED; FINALIZING; DONE; ROLLING_BACK].
Definition settledState (state : string) : bool := includes state [APPLIED; DONE].

(** The first loop of [position], at plan [i] of the chain. *)
Fixpoint recordedFrom (h : gmap string HistoryRow) (i position : nat) (plans : list DbspecPlan) : Do nat :=
  match plans with
  | [] => mret position
  | p :: plans =>
      match h !! p_name p with
      | None => recordedFrom h (S i) position plans
      | Some row =>
          if negb (bool_decide (hr_to row = p_to p)) || negb (bool_decide (hr_from row = hashOrEmpty (p_from p)))
          then chainError (p_name p) "the recorded plan has other hashes than the chain's plan"
          else if negb (i =? position)%nat then chainError (p_name p) "a plan before it in the chain is not recorded"
          else if negb (includes (hr_state row) states) then chainError (p_name p) (str ["the recorded state "; hr_state row; " is not a history state"])
          else recordedFrom h (S i) (S i) plans
      end
  end.

Definition beforeLast (h : gmap string HistoryRow) (p : DbspecPlan) : Do unit :=
  row ← the (h !! p_name p) "this.history.get(p.name)";
  if settledState (hr_state row) then mret tt else chainError (p_name p) (str ["a plan before the last is "; hr_state row]).

Definition position : Do nat :=
  readHistory;;
  h ← history;
  position ← recordedFrom h 0 0 chain;
  (if negb (size h =? position)%nat then chainError "" "the history records a plan that is not in the chain" else mret tt);;
  each (beforeLast h) (take (position - 1) chain);;
  mret position.

Definition diagnosticText (d : DbspecDiagnostic) : string :=
  str [pretty (dx_line d); ":"; pretty (dx_column d); " "; dx_rule d; " "; dx_message d].

(** Checks that the database is at the schema of hash [want]; the empty text is the empty database. *)
Definition verify (want : string) : Do unit :=
  '(document, unsupported) ← call (introspectCatalog dialect "schema");
  match unsupported with
  | u :: _ =>
      raise (SchemaMismatch (str ["the database has "; pretty (Z.of_nat (length unsupported)); " objects that dbspec cannot express, first ";
                                  us_kind u; " "; us_table u; " "; us_name u; ": "; us_reason u]))
  | [] =>
      got ← match doc_tables document with
            | [] => mret ""
            | _ :: _ =>
                match dbspecManifest sha256 [document] with
                | inl manifest => mret (mf_schemaHash manifest)
                | inr diagnostics => raise (SchemaMismatch (str ["the introspected schema is invalid: "; join "; " (map diagnosticText diagnostics)]))
                end
            end;
      if decide (got = want) then mret tt
      else raise (SchemaMismatch (str ["the database is at "; hashOrEmpty (Some got); ", not "; hashOrEmpty (Some want)]))
  end.

(** A failed verification is a drift error when the schema is another one. *)
Definition driftOf (plan : string) (error : thrown) : thrown :=
  match error with
  | SchemaMismatch message => ApplyError Drift plan 0 message None
  | _ => ApplyError VerifyCode plan 0 "" (Some error)
  end.
Definition verifyOf (plan : string) (error : thrown) : thrown := ApplyError VerifyCode plan 0 "" (Some error).

Definition settled : Do nat :=
  position ← position;
  want ← match position with
         | O => mret ""
         | S last =>
             p ← the (chain !! last) "this.chain[position - 1]";
             h ← history;
             row ← the (h !! p_name p) "this.history.get(p.name)";
             if settledState (hr_state row) then mret (p_to p)
             else raise (ApplyError Interrupted (p_name p) (hr_step row) (str ["the plan is "; hr_state row; "; run recover or rollback"]) None)
         end;
  rethrow (driftOf "") (verify want);;
  mret position.

(** The steps of a plan with the target of the plan before it as source.  Plans
    of a chain start from different schemas, so [chain.indexOf(p)] is the place of
    the plan with its [from]. *)
Definition steps (p : DbspecPlan) : Do (list DbspecPlanStep) :=
  source ← match list_find (fun p' => fromKey p' = fromKey p) chain with
           | Some (S i, _) => before ← the (chain !! i) "this.chain[i - 1]"; mret (Some (p_schema before))
           | _ => mret None
           end;
  r ← ofRes (planSteps sha256 source p dialect);
  match r with
  | inl steps => mret steps
  | inr diagnostics => d ← the (head diagnostics) "diagnostics[0]"; chainError (p_name p) (dx_message d)
  end.

(** *** Effects *)

(** The query of an effect and its arguments. *)
Definition effectQuery (e : DbspecEffect) : option (string * list JsValue) :=
  if decide (ef_kind e = "rows") then Some (str ["SELECT COUNT(*) FROM (SELECT 1 FROM "; q (ef_table e); " LIMIT 1) x"], [])
  else
    found ← assoc (ef_kind e) (EFFECT_QUERIES dialect);
    Some (found, if includes (ef_kind e) ["table"; "sequence"] then [JString (ef_table e)]
                 else if decide (ef_kind e = "function") then [JString (ef_name e)]
                 else [JString (ef_table e); JString (ef_name e)]).

Definition effectHolds (e : DbspecEffect) : Do bool :=
  match effectQuery e with
  | None => raise (Plain (str ["the effect "; effectText e; " has no query on "; dialectText dialect]))
  | Some (query, args) =>
      value ← queryValue query args;
      n ← integer value "effect count";
      mret (Bool.eqb (0 <? n) (ef_present e))
  end.

Definition effect (p : DbspecPlan) (step : nat) (e : option DbspecEffect) : Do bool :=
  match e with
  | None => raise (Plain (str ["step "; pretty (Z.of_nat step); " has no effect to read"]))
  | Some e => rethrow (fun error => ApplyError Failed (p_name p) (Z.of_nat step) "" (Some error)) (effectHolds e)
  end.

(** The step to continue an interrupted row from, forward or backward. *)
Definition resolve (p : DbspecPlan) (row : HistoryRow) (steps : list DbspecPlanStep) (forward : bool) : Do nat :=
  if (hr_step row <? 0) || (Z.of_nat (length steps) <? hr_step row)
  then chainError (p_name p) (str ["the recorded step "; pretty (hr_step row); " is outside the plan's "; pretty (Z.of_nat (length steps)); " steps"])
  else
    let k := Z.to_nat (hr_step row) in
    let rolling := bool_decide (hr_state row = ROLLING_BACK) in
    let uncertain := if rolling then hr_step row - 1 else hr_step row in
    if (uncertain <? 0) || (Z.of_nat (length steps) <=? uncertain) then mret k
    else
      s ← the (steps !! Z.to_nat uncertain) "steps[uncertain]";
      let e := ps_effect s in
      held ← (if decide (ef_kind e = "repeat") then mret false else effect p (Z.to_nat uncertain) (Some e));
      let took := held || (negb forward && bool_decide (ef_kind e = "repeat")) in
      mret (if rolling then if took then k else (k - 1)%nat else if took then S k else k).

(** *** Rows and statements *)

Definition recordArgs (p : DbspecPlan) (state : string) (step steps : nat) (at_ : string) : list JsValue :=
  [JString (p_name p); JString (hashOrEmpty (p_from p)); JString (p_to p); JString state; JInt (Z.of_nat step); JInt (Z.of_nat steps); JString at_].

Definition record (p : DbspecPlan) (state : string) (step : nat) : Do unit :=
  h ← history;
  match h !! p_name p with
  | None =>
      ss ← steps p;
      micros ← call now;
      at_ ← (fun c => (appliedAt micros, c));
      call (exec insertSql (recordArgs p state step (length ss) at_));;
      setHistory (<[p_name p := mkHistoryRow (hashOrEmpty (p_from p)) (p_to p) state (Z.of_nat step)]> h)
  | Some _ => call (exec updateSql [JString state; JInt (Z.of_nat step); JString (p_name p)])
  end.

Definition setStep (p : DbspecPlan) (step : nat) : Do unit := call (exec setStepSql [JInt (Z.of_nat step); JString (p_name p)]).

(** One statement of step [i] with its events. *)
Definition run (p : DbspecPlan) (steps : list DbspecPlanStep) (i : nat) (statement : string) : Do unit :=
  emit "statement" (p_name p) (Z.of_nat i) (length steps) statement;;
  (if decide (dialect = Sqlite) then mret tt
   else
     let query := match dialect with MySql => "SELECT CONNECTION_ID()" | _ => "SELECT pg_backend_pid()" end in
     current ← rethrow (fun error => ApplyError Failed (p_name p) (Z.of_nat i) query (Some error)) (queryValue query []);
     sameSession (Some (p, i)) current);;
  rethrow (fun error => ApplyError Failed (p_name p) (Z.of_nat i) statement (Some error)) (run_ statement);;
  emit "applied" (p_name p) (Z.of_nat i) (length steps) statement.

Definition foreignKeyCheck (p : DbspecPlan) : Do unit :=
  if decide (dialect = Sqlite) then
    value ← queryValue "SELECT COUNT(*) FROM pragma_foreign_key_check" [];
    broken ← integer value "foreign_key_check count";
    raise_if (0 <? broken) (ApplyError VerifyCode (p_name p) 0 (str [pretty broken; " rows break a foreign key"]) None)
  else mret tt.

(** One turn of the loop of [forward]. *)
Definition forwardStep (p : DbspecPlan) (steps : list DbspecPlanStep) (i : nat) : Do unit :=
  step ← the (steps !! i) "steps[i]";
  statement ← (if decide (ps_restore step = "") then mret (ps_statement step)
               else restores ← effect p i (ps_restoreIf step); mret (if restores : bool then ps_restore step else ps_statement step));
  run p steps i statement;;
  setStep p (S i).

Definition forward (p : DbspecPlan) (steps : list DbspecPlanStep) (start : nat) : Do unit :=
  let stop := finalizeStart steps in
  each (forwardStep p steps) (seq start (stop - start));;
  foreignKeyCheck p;;
  rethrow (verifyOf (p_name p)) (verify (p_to p));;
  emit "verified" (p_name p) 0 (length steps) "";;
  record p APPLIED stop;;
  emit "done" (p_name p) 0 (length steps) "".

Definition finalizeStep (p : DbspecPlan) (steps : list DbspecPlanStep) (i : nat) : Do unit :=
  step ← the (steps !! i) "steps[i]";
  run p steps i (ps_statement step);;
  setStep p (S i).

Definition finalizeFrom (p : DbspecPlan) (steps : list DbspecPlanStep) (start : nat) : Do unit :=
  each (finalizeStep p steps) (seq start (length steps - start));;
  record p DONE (length steps);;
  emit "done" (p_name p) 0 (length steps) "".

Definition irreversibleEvent (p : DbspecPlan) (steps : list DbspecPlanStep) (i : nat) : Do unit :=
  s ← the (steps !! i) "steps[i]";
  if decide (ps_rollback s = "") then emit "irreversible" (p_name p) (Z.of_nat i) (length steps) (ps_statement s) else mret tt.

Definition applyPlan (p : DbspecPlan) : Do unit :=
  ss ← steps p;
  emit "plan" (p_name p) 0 (length ss) "";;
  each (irreversibleEvent p ss) (seq 0 (finalizeStart ss));;
  record p APPLYING 0;;
  forward p ss 0.

(** *** Rollback *)

Definition nullCheckStep (p : DbspecPlan) (i : nat) (c : DbspecNullCheck) : Do unit :=
  value ← queryValue (str ["SELECT COUNT(*) FROM "; q (nc_table c); " WHERE "; q (nc_column c); " IS NULL"]) [];
  n ← integer value "NULL row count";
  if n =? 0 then mret tt
  else
    match nc_default c with
    | None =>
        raise (ApplyError Nulls (p_name p) (Z.of_nat i)
          (str ["column "; nc_table c; "."; nc_column c; " has "; pretty n; " NULL rows and no default to restore NOT NULL"]) None)
    | Some dflt => run_ (str ["UPDATE "; q (nc_table c); " SET "; q (nc_column c); " = "; dflt; " WHERE "; q (nc_column c); " IS NULL"])
    end.

Definition nullChecks (p : DbspecPlan) (steps : list DbspecPlanStep) : Do unit :=
  each (fun '(i, s) => each (nullCheckStep p i) (ps_nullChecks s)) (imap pair steps).

Definition irreversible (p : DbspecPlan) (steps : list DbspecPlanStep) (i : nat) : Do unit :=
  s ← the (steps !! i) "steps[i]";
  raise (ApplyError Irreversible (p_name p) (Z.of_nat i) (if ps_finalize s then "a finalize step has no rollback" else ps_irreversible s) None).

(** One turn of the loop of [rollbackPlans]. *)
Definition rollbackStep (p : DbspecPlan) (steps : list DbspecPlanStep) (i : nat) : Do unit :=
  step ← the (steps !! i) "steps[i]";
  (if decide (ps_rollback step = "") then irreversible p steps i else mret tt);;
  statement ← (if decide (ps_rollbackRestore step = "") then mret (ps_rollback step)
               else restores ← effect p i (ps_restoreIf step); mret (if restores : bool then ps_rollbackRestore step else ps_rollback step));
  run p steps i statement;;
  setStep p i.

(** Where the rollback of a row starts. *)
Definition rollbackStart (p : DbspecPlan) (row : HistoryRow) (ss : list DbspecPlanStep) : Do nat :=
  if settledState (hr_state row) then
    if (hr_step row <? 0) || (Z.of_nat (length ss) <? hr_step row)
    then chainError (p_name p) (str ["the recorded step "; pretty (hr_step row); " is outside the plan's "; pretty (Z.of_nat (length ss)); " steps"])
    else rethrow (driftOf (p_name p)) (verify (p_to p));; mret (Z.to_nat (hr_step row))
  else resolve p row ss false.

(** The body of [rollbackPlans]. *)
Definition rollbackPlan (p : DbspecPlan) (row : HistoryRow) : Do unit :=
  ss ← steps p;
  k ← rollbackStart p row ss;
  match k with
  | O => mret tt
  | S last => s ← the (ss !! last) "steps[k - 1]"; if decide (ps_rollback s = "") then irreversible p ss last else mret tt
  end;;
  (if settledState (hr_state row) then nullChecks p (take k ss) else mret tt);;
  emit "rollback" (p_name p) 0 (length ss) "";;
  record p ROLLING_BACK k;;
  each (rollbackStep p ss) (reverse (seq 0 k));;
  foreignKeyCheck p;;
  rethrow (verifyOf (p_name p)) (verify (default "" (p_from p)));;
  emit "verified" (p_name p) 0 (length ss) "";;
  call (exec deleteSql [JString (p_name p)]);;
  emit "done" (p_name p) 0 (length ss) "".

(** The body of [recoverPlans]. *)
Definition recoverPlan (p : DbspecPlan) (row : HistoryRow) : Do unit :=
  if settledState (hr_state row) then mret tt
  else
    ss ← steps p;
    k ← resolve p row ss true;
    if decide (hr_state row = FINALIZING) then
      emit "finalize" (p_name p) 0 (length ss) "";;
      finalizeFrom p ss k
    else
      emit "plan" (p_name p) 0 (length ss) "";;
      record p APPLYING k;;
      forward p ss k.

(** One turn of the loop of [finalizePlans]. *)
Definition finalizePlan (p : DbspecPlan) : Do unit :=
  h ← history;
  row ← the (h !! p_name p) "a.history.get(p.name)";
  if decide (hr_state row = APPLIED) then
    ss ← steps p;
    emit "finalize" (p_name p) 0 (length ss) "";;
    record p FINALIZING (finalizeStart ss);;
    finalizeFrom p ss (finalizeStart ss)
  else mret tt.

(** The run of [lastPlan] in its session. *)
Definition onLast (body : DbspecPlan -> HistoryRow -> Do unit) : Do unit :=
  position ← position;
  match position with
  | O => mret tt
  | S last =>
      p ← the (chain !! last) "a.chain[position - 1]";
      h ← history;
      row ← the (h !! p_name p) "a.history.get(p.name)";
      body p row
  end.

Definition applyAll : Do unit := position ← settled; each applyPlan (drop position chain).
Definition finalizeAll : Do unit := position ← settled; each finalizePlan (take position chain).

End applier.
End Applier.

(** ** The commands *)

Section commands.
Context {W : Type} {host : Host W} (sha256 : string -> string) (dialect : DbspecDialect).

(** [newApplier], and a body in the session of the applier. *)
Definition inApplier (plans : list DbspecPlan) (body : list DbspecPlan -> Act (Command W) unit) : Act W unit := fun w =>
  match chainPlans plans with
  | Err e => (inr (Internal e), w)
  | Ok (inr diagnostics) =>
      (match diagnostics with d :: _ => inr (ApplyError ChainCode "" 0 (dx_message d) None) | [] => inr (Internal (JsError "diagnostics[0] is missing")) end, w)
  | Ok (inl chain) =>
      let '(r, c) := Applier.session dialect (body chain) (mkCommand w ∅ 0) in (r, cm_world c)
  end.

Definition lastPlan (plans : list DbspecPlan) (body : list DbspecPlan -> DbspecPlan -> HistoryRow -> Act (Command W) unit) : Act W unit :=
  inApplier plans (fun chain => Applier.onLast dialect chain (body chain)).

Definition applyPlans (plans : list DbspecPlan) : Act W unit := inApplier plans (Applier.applyAll sha256 dialect).
Definition recoverPlans (plans : list DbspecPlan) : Act W unit := lastPlan plans (Applier.recoverPlan sha256 dialect).
Definition rollbackPlans (plans : list DbspecPlan) : Act W unit := lastPlan plans (Applier.rollbackPlan sha256 dialect).
Definition finalizePlans (plans : list DbspecPlan) : Act W unit := inApplier plans (Applier.finalizeAll sha256 dialect).

End commands.
