(* ===== verification/ApplyFacts.v ===== *)
(** * The commands that apply plans: sessions and the chain position

    Pre- and postconditions of the programs of [Apply], which hold whether a call
    returns or throws; what [finish] runs and reports; that a session leaves what
    its settings do not touch as its body left it; and which histories [position]
    accepts. *)

From stdpp Require Import gmap.
From S2P Require Import Prelude Documents Values Times Render Plan PlanSteps Apply.
From Stdlib Require Import Lia.

(** ** Specifications of programs *)

(** From a state of [P], a run that returns [a] ends in a state of [Q a] and a run
    that throws in one of [E]. *)
Definition spec {S A} (P : S -> Prop) (m : Act S A) (Q : A -> S -> Prop) (E : S -> Prop) : Prop :=
  forall s, P s -> match m s with (inl a, s') => Q a s' | (inr _, s') => E s' end.

Section rules.
Context {S : Type}.
Implicit Types P E : S -> Prop.

Lemma spec_ret {A} P (Q : A -> S -> Prop) E a : (forall s, P s -> Q a s) -> spec P (mret a) Q E.
Proof. intros H s Hs. by apply H. Qed.

Lemma spec_raise {A} P (Q : A -> S -> Prop) E e : (forall s, P s -> E s) -> spec P (raise e) Q E.
Proof. intros H s Hs. by apply H. Qed.

Lemma spec_bind {A B} P (m : Act S A) (k : A -> Act S B) Q R E :
  spec P m Q E -> (forall a, spec (Q a) (k a) R E) -> spec P (m ≫= k) R E.
Proof.
  intros Hm Hk s Hs. specialize (Hm s Hs). unfold mbind, Act_bind. destruct (m s) as [[a|e] s']; [exact (Hk a s' Hm)|done].
Qed.

Lemma spec_conseq {A} P P' (m : Act S A) (Q Q' : A -> S -> Prop) E E' :
  spec P m Q E -> (forall s, P' s -> P s) -> (forall a s, Q a s -> Q' a s) -> (forall s, E s -> E' s) -> spec P' m Q' E'.
Proof. intros Hm HP HQ HE s Hs. specialize (Hm s (HP s Hs)). destruct (m s) as [[a|e] s']; auto. Qed.

Lemma spec_rethrow {A} P f (m : Act S A) Q E : spec P m Q E -> spec P (rethrow f m) Q E.
Proof. intros Hm s Hs. specialize (Hm s Hs). unfold rethrow. by destruct (m s) as [[a|e] s']. Qed.

Lemma spec_attempt {A} P (m : Act S A) Q E : spec P m Q E ->
  spec P (attempt m) (fun r s => match r with inl a => Q a s | inr _ => E s end) E.
Proof. intros Hm s Hs. specialize (Hm s Hs). unfold attempt. by destruct (m s) as [[a|e] s']. Qed.

(** A loop: [I] holds before each element. *)
Lemma spec_each {A} (f : A -> Act S unit) (I : list A -> S -> Prop) E l :
  (forall x l', (exists l0, l = l0 ++ x :: l') -> spec (I (x :: l')) (f x) (fun _ => I l') E) -> spec (I l) (each f l) (fun _ => I []) E.
Proof.
  induction l as [|x l IH]; intros Hf; [by apply spec_ret|]. cbn [each]. eapply spec_bind; [apply Hf; by exists []|].
  intros []. apply IH. intros y l' [l0 E0]. apply Hf. exists (x :: l0). by rewrite E0.
Qed.

Lemma spec_pure {A} (X : Prop) P (m : Act S A) Q E : (X -> spec P m Q E) -> spec (fun s => X /\ P s) m Q E.
Proof. intros Hm s [Hx Hs]. exact (Hm Hx s Hs). Qed.

Lemma spec_exists {A X} (P : X -> S -> Prop) (m : Act S A) Q E : (forall x, spec (P x) m Q E) -> spec (fun s => exists x, P x s) m Q E.
Proof. intros Hm s [x Hs]. exact (Hm x s Hs). Qed.

Lemma spec_ofRes {A} P (r : res A) (Q : A -> S -> Prop) E : (forall a s, r = Ok a -> P s -> Q a s) -> (forall s, P s -> E s) -> spec P (ofRes r) Q E.
Proof. intros HQ HE. destruct r; [apply spec_ret|apply spec_raise]; auto. Qed.

Lemma spec_the {A} P (o : option A) what (Q : A -> S -> Prop) E :
  (forall a s, o = Some a -> P s -> Q a s) -> (forall s, P s -> E s) -> spec P (the o what) Q E.
Proof. intros HQ HE. apply spec_ofRes; [|done]. intros a s H. apply present_ok in H. by apply HQ. Qed.

Lemma spec_raise_if P (b : bool) e Q E : (forall s, b = false -> P s -> Q tt s) -> (forall s, P s -> E s) -> spec P (raise_if b e) Q E.
Proof. intros HQ HE. destruct b; [by apply spec_raise|]. apply spec_ret. auto. Qed.

(** ** Programs that keep an assertion *)

(** [keeps P m]: [m] ends in a state of [P] however it ends. *)
Definition keeps {A} P (m : Act S A) : Prop := spec P m (fun _ => P) P.

Lemma keeps_ret {A} P (a : A) : keeps P (mret a).
Proof. by apply spec_ret. Qed.
Lemma keeps_raise {A} P e : keeps P (raise e : Act S A).
Proof. by apply spec_raise. Qed.
Lemma keeps_raise_if P b e : keeps P (raise_if b e).
Proof. by apply spec_raise_if. Qed.
Lemma keeps_bind {A B} P (m : Act S A) (k : A -> Act S B) : keeps P m -> (forall a, keeps P (k a)) -> keeps P (m ≫= k).
Proof. intros Hm Hk. by eapply spec_bind. Qed.
Lemma keeps_rethrow {A} P f (m : Act S A) : keeps P m -> keeps P (rethrow f m).
Proof. apply spec_rethrow. Qed.
Lemma keeps_attempt {A} P (m : Act S A) : keeps P m -> keeps P (attempt m).
Proof. intros Hm. eapply spec_conseq; [by apply spec_attempt|done| |done]. by intros [a|e]. Qed.
Lemma keeps_each {A} P (f : A -> Act S unit) l : (forall x, x ∈ l -> keeps P (f x)) -> keeps P (each f l).
Proof. intros Hf. apply (spec_each f (fun _ => P)). intros x l' [l0 ->]. apply Hf. rewrite elem_of_app, elem_of_cons. auto. Qed.
Lemma keeps_ofRes {A} P (r : res A) : keeps P (ofRes r).
Proof. by apply spec_ofRes. Qed.
Lemma keeps_integer P v what : keeps P (integer v what).
Proof. unfold integer. destruct (safeInteger v); [apply keeps_ret|apply keeps_raise]. Qed.
Lemma keeps_text P v what : keeps P (text v what).
Proof. destruct v; first [apply keeps_ret|apply keeps_raise]. Qed.

(** A program that keeps both outcomes after a program. *)
Lemma spec_then {A B} P (m : Act S A) (k : A -> Act S B) Q E : spec P m (fun _ => Q) E -> (forall a, keeps Q (k a)) -> (forall s, Q s -> E s) ->
  spec P (m ≫= k) (fun _ => Q) E.
Proof. intros Hm Hk HQ. eapply spec_bind; [exact Hm|]. intros a. eapply spec_conseq; [exact (Hk a)|done..|exact HQ]. Qed.

(** ** [finish] *)

(** The errors that a result holds. *)
Definition failuresOf {A} (r : A + thrown) : list thrown :=
  match r with inl _ => [] | inr (Cleanup first second more) => first :: second :: more | inr e => [e] end.

(** A run of ends, each from the state that the one before left, and what they threw. *)
Inductive EndsRun : list (Act S unit) -> S -> list thrown -> S -> Prop :=
  | ends_none s : EndsRun [] s [] s
  | ends_returned e ends s s1 es s' : e s = (inl tt, s1) -> EndsRun ends s1 es s' -> EndsRun (e :: ends) s es s'
  | ends_threw e ends s x s1 es s' : e s = (inr x, s1) -> EndsRun ends s1 es s' -> EndsRun (e :: ends) s (x :: es) s'.

Lemma runEnds_run ends failures s : exists es, EndsRun ends s es (snd (runEnds ends failures s)) /\ fst (runEnds ends failures s) = failures ++ es.
Proof.
  revert failures s. induction ends as [|e ends IH]; intros failures s; [exists []; split; [constructor|by rewrite app_nil_r]|].
  cbn [runEnds]. destruct (e s) as [[[]|x] s1] eqn:E.
  - destruct (IH failures s1) as (es & He & ->). exists es. split; [by econstructor|done].
  - destruct (IH (failures ++ [x]) s1) as (es & He & ->). exists (x :: es). split; [by eapply ends_threw|by rewrite <- app_assoc].
Qed.

(** A cleanup does not throw an aggregate of its own. *)
Definition plainError (e : thrown) : Prop := match e with Cleanup _ _ _ => False | _ => True end.

Lemma finish_runs (f : Act S unit) ends s : exists es,
  EndsRun ends (snd (f s)) es (snd (finish f ends s)) /\
  (Forall plainError es -> failuresOf (fst (finish f ends s)) = failuresOf (fst (f s)) ++ es) /\
  (fst (finish f ends s) = inl tt <-> fst (f s) = inl tt /\ es = []).
Proof.
  unfold finish. destruct (f s) as [r s1]. cbn [fst snd].
  change (match r with inl _ => [] | inr (Cleanup first second more) => first :: second :: more | inr e => [e] end) with (failuresOf r).
  destruct (runEnds_run ends (failuresOf r) s1) as (es & Hes & Hf). exists es. destruct (runEnds _ _ s1) as [fs s2]. cbn [fst snd] in *. subst fs.
  destruct r as [[]|e]; cbn [failuresOf app].
  - destruct es as [|e1 [|e2 es]]; cbn; (split; [exact Hes|]); (split; [|naive_solver]); try done.
    intros He. apply Forall_cons_1 in He as [He _]. by destruct e1.
  - destruct es as [|x es]; destruct e; cbn; (split; [exact Hes|]); (split; [|naive_solver]); done.
Qed.

(** C39: [finish] runs its body and then every end in order, each from the state
    that the one before left, and no error is lost: the result holds the errors
    of the body, those of an inner [finish] unfolded, and then those of the ends
    in order; it returns exactly when nothing threw. *)
Theorem finish_reports (f : Act S unit) ends s : exists es,
  EndsRun ends (snd (f s)) es (snd (finish f ends s)) /\
  (Forall plainError es -> failuresOf (fst (finish f ends s)) = failuresOf (fst (f s)) ++ es) /\
  (fst (finish f ends s) = inl tt <-> fst (f s) = inl tt /\ es = []).
Proof. apply finish_runs. Qed.

Lemma EndsRun_keeps (I : S -> Prop) ends s1 es s2 : EndsRun ends s1 es s2 -> Forall (keeps I) ends -> I s1 -> I s2.
Proof.
  induction 1 as [s|e ends s s1 es s' He _ IH|e ends s x s1 es s' He _ IH]; [done|..];
    intros [Hk HI]%Forall_cons Hs; specialize (Hk s Hs); rewrite He in Hk; auto.
Qed.

Lemma finish_spec P (f : Act S unit) ends Q E : spec P f (fun _ => Q) E -> (forall s, Q s -> E s) ->
  Forall (fun e => keeps Q e /\ keeps E e) ends -> spec P (finish f ends) (fun _ => Q) E.
Proof.
  intros Hf HQ Hends s Hs. specialize (Hf s Hs). destruct (finish_runs f ends s) as (es & Hes & _ & Hr).
  destruct (finish f ends s) as [r s'], (f s) as [[[]|e] s1]; cbn [fst snd] in *.
  - assert (Q s') as HQ' by (eapply EndsRun_keeps; [exact Hes| |exact Hf]; eapply Forall_impl; [exact Hends|by intros e' [? ?]]). destruct r as [[]|]; auto.
  - assert (E s') as HE' by (eapply EndsRun_keeps; [exact Hes| |exact Hf]; eapply Forall_impl; [exact Hends|by intros e' [? ?]]). destruct r as [[]|]; [|done].
    destruct (proj1 Hr eq_refl) as [? _]. discriminate.
Qed.

End rules.

Section variables.
Context {S V : Type}.

Lemma spec_local {A} (P : S -> Prop) (m : Act (S * V) A) (Q : A -> S -> Prop) E v :
  spec (fun s => P s.1) m (fun a s => Q a s.1) (fun s => E s.1) -> spec P (local v m) Q E.
Proof. intros Hm s Hs. specialize (Hm (s, v) Hs). unfold local. by destruct (m (s, v)) as [[a|e] [s' v']]. Qed.

Lemma spec_outer {A} (P : S -> Prop) (m : Act S A) (Q : A -> S -> Prop) E :
  spec P m Q E -> spec (fun s : S * V => P s.1) (outer m) (fun a s => Q a s.1) (fun s => E s.1).
Proof. intros Hm [s v] Hs. specialize (Hm s Hs). unfold outer. by destruct (m s) as [[a|e] s']. Qed.

Lemma keeps_outer {A} (P : S -> Prop) (m : Act S A) : keeps P m -> keeps (fun s : S * V => P s.1) (outer m).
Proof. apply spec_outer. Qed.
Lemma keeps_readVar (P : S -> Prop) : keeps (fun s : S * V => P s.1) readVar.
Proof. by intros [s v] Hs. Qed.
Lemma keeps_setVar (P : S -> Prop) (v : V) : keeps (fun s : S * V => P s.1) (setVar v).
Proof. by intros [s v'] Hs. Qed.
End variables.

Create HintDb keeps.
#[export] Hint Resolve keeps_ret keeps_raise keeps_raise_if keeps_ofRes keeps_integer keeps_text keeps_readVar keeps_setVar : keeps.

(** Proves that a program keeps an assertion, call by call. *)
Ltac keep :=
  repeat (intros; first
    [ apply keeps_bind | apply keeps_rethrow | apply keeps_attempt | apply keeps_each | apply keeps_outer
    | solve [eauto with keeps]
    | match goal with |- keeps _ (match ?x with _ => _ end) => destruct x eqn:? end ]).

(** ** Calls that leave the plan alone *)

(** The statements of the session settings and of its lock. *)
Definition settingSql (sql : string) : bool :=
  existsb (fun p => starts_with p sql) ["SET SESSION "; "DO RELEASE_LOCK("; "PRAGMA "] || includes sql ["BEGIN EXCLUSIVE"; "COMMIT"].

(** A relation that the queries, the settings, the creation of the history table,
    the clock and the event handler keep: they change no table of a plan and no
    row of the history. *)
Class Calm {W : Type} {host : Host W} (dialect : DbspecDialect) (calm : W -> W -> Prop) := {
  calm_refl w : calm w w;
  calm_rows sql args w : calm w (rows sql args w).2;
  calm_setting sql w : settingSql sql = true -> calm w (exec sql [] w).2;
  calm_create w : calm w (exec (Applier.createHistorySql dialect) [] w).2;
  calm_introspect d name w : calm w (introspectCatalog d name w).2;
  calm_now w : calm w (now w).2;
  calm_event f e w : events = Some f -> calm w (f e w).2 }.

Section calm.
Context {W : Type} {host : Host W} (sha256 : string -> string) (dialect : DbspecDialect) (chain : list DbspecPlan).
Context (calm : W -> W -> Prop) {calmHost : Calm dialect calm}.

(** An assertion that calm calls keep, and the server session does not matter to. *)
Definition Stable (P : Command W -> Prop) : Prop :=
  forall c c', P c -> calm (cm_world c) (cm_world c') -> cm_history c' = cm_history c -> P c'.

Context (P : Command W -> Prop) (stable : Stable P).

Lemma keeps_call {A} (m : Act W A) : (forall w, calm w (m w).2) -> keeps P (Applier.call m).
Proof.
  intros Hm c Hc. unfold Applier.call. pose proof (Hm (cm_world c)) as H'. destruct (m (cm_world c)) as [[a|e] w]; by eapply stable.
Qed.
Lemma keeps_rows sql args : keeps P (Applier.call (rows sql args)).
Proof. apply keeps_call. intros. apply calm_rows. Qed.
Lemma keeps_setting sql : settingSql sql = true -> keeps P (Applier.run_ sql).
Proof. intros. apply keeps_call. intros. by apply calm_setting. Qed.
Lemma keeps_introspect d name : keeps P (Applier.call (introspectCatalog d name)).
Proof. apply keeps_call. intros. apply (calm_introspect (dialect := dialect)). Qed.
Lemma keeps_now : keeps P (Applier.call now).
Proof. apply keeps_call. intros. apply (calm_now (dialect := dialect)). Qed.
Lemma keeps_emit kind plan step n statement : keeps P (Applier.emit kind plan step n statement).
Proof. unfold Applier.emit. destruct events eqn:E; [|apply keeps_ret]. apply keeps_call. intros. by apply (calm_event (dialect := dialect)). Qed.
Lemma keeps_createHistory : keeps P (Applier.createHistory dialect).
Proof. apply keeps_call. intros. apply calm_create. Qed.

#[local] Hint Resolve keeps_rows keeps_setting keeps_introspect keeps_now keeps_emit keeps_createHistory : keeps.

Lemma keeps_queryRow sql args : keeps P (Applier.queryRow sql args).
Proof. unfold Applier.queryRow. keep. Qed.
#[local] Hint Resolve keeps_queryRow : keeps.

Lemma keeps_queryValue sql args : keeps P (Applier.queryValue sql args).
Proof. unfold Applier.queryValue. keep. Qed.
#[local] Hint Resolve keeps_queryValue : keeps.

Lemma keeps_history : keeps P Applier.history.
Proof. by intros c Hc. Qed.
Lemma keeps_serverSession : keeps P Applier.serverSession.
Proof. by intros c Hc. Qed.
#[local] Hint Resolve keeps_history keeps_serverSession : keeps.

Lemma keeps_setSession id : keeps P (Applier.setSession id).
Proof. intros c Hc. eapply stable; [exact Hc|apply calm_refl|done]. Qed.
#[local] Hint Resolve keeps_setSession : keeps.

Lemma keeps_openSession query : keeps P (Applier.openSession query).
Proof. unfold Applier.openSession. keep. Qed.

Lemma keeps_sameSession at_ current : keeps P (Applier.sameSession at_ current).
Proof. unfold Applier.sameSession. keep. Qed.
#[local] Hint Resolve keeps_sameSession : keeps.

Lemma keeps_effectHolds e : keeps P (Applier.effectHolds dialect e).
Proof. unfold Applier.effectHolds. keep. Qed.
#[local] Hint Resolve keeps_effectHolds : keeps.

Lemma keeps_effect p i e : keeps P (Applier.effect dialect p i e).
Proof. unfold Applier.effect. keep. Qed.

Lemma keeps_foreignKeyCheck p : keeps P (Applier.foreignKeyCheck dialect p).
Proof. unfold Applier.foreignKeyCheck. keep. Qed.

Lemma keeps_verify want : keeps P (Applier.verify sha256 dialect want).
Proof. unfold Applier.verify. keep. Qed.

Lemma keeps_steps p : keeps P (Applier.steps sha256 dialect chain p).
Proof. unfold Applier.steps, Applier.chainError, the. keep. Qed.
End calm.

#[export] Hint Resolve keeps_rows keeps_setting keeps_introspect keeps_now keeps_emit keeps_createHistory keeps_queryRow keeps_queryValue
  keeps_history keeps_serverSession keeps_setSession keeps_openSession keeps_sameSession
  keeps_effectHolds keeps_effect keeps_foreignKeyCheck keeps_verify keeps_steps : keeps.

(** ** Sessions *)

Lemma spec_after {S A B} (P : S -> Prop) (m : Act S A) (k : A -> Act S B) Q E :
  keeps P m -> (forall s, P s -> E s) -> (forall a, spec P (k a) Q E) -> spec P (m ≫= k) Q E.
Proof. intros Hm HE Hk. eapply spec_bind; [|exact Hk]. eapply spec_conseq; [exact Hm|done..|exact HE]. Qed.

(** A call that keeps the assertion and returns a value of [X]. *)
Lemma spec_value {S A B} (P : S -> Prop) (m : Act S A) (X : A -> Prop) (k : A -> Act S B) Q E :
  keeps P m -> (forall s, P s -> E s) -> (forall s a s', m s = (inl a, s') -> X a) -> (forall a, X a -> spec P (k a) Q E) -> spec P (m ≫= k) Q E.
Proof.
  intros Hm HE HX Hk s Hs. specialize (Hm s Hs). specialize (HX s). unfold mbind, Act_bind. destruct (m s) as [[a|e] s']; [|by apply HE].
  exact (Hk a (HX a s' eq_refl) s' Hm).
Qed.

Lemma the_value {S A} (o : option A) what (s : S) a s' : the o what s = (inl a, s') -> o = Some a.
Proof. unfold the. destruct o; [by intros [= ->]|done]. Qed.

Lemma ret_value {S A} (a : A) (s : S) b s' : (mret a : Act S A) s = (inl b, s') -> b = a.
Proof. by intros [= ->]. Qed.

Lemma bind_value {S A B} (m : Act S A) (k : A -> Act S B) (s : S) b s' : (m ≫= k) s = (inl b, s') -> exists a s1, m s = (inl a, s1) /\ k a s1 = (inl b, s').
Proof. unfold mbind, Act_bind. destruct (m s) as [[a|e] s1]; [|done]. eauto. Qed.

Section sessions.
Context {W : Type} {host : Host W} (dialect : DbspecDialect) (calm : W -> W -> Prop) {calmHost : Calm dialect calm}.
Context (P Q E : Command W -> Prop) (stableP : Stable calm P) (stableQ : Stable calm Q) (stableE : Stable calm E).
Context (PE : forall c, P c -> E c) (QE : forall c, Q c -> E c).

Ltac before := repeat (first [apply spec_after; [solve [keep]|done|intros] | progress (try done)]).

Lemma mysqlSession_spec f : spec P f (fun _ => Q) E -> spec P (Applier.mysqlSession f) (fun _ => Q) E.
Proof.
  intros Hf. unfold Applier.mysqlSession. before. apply spec_local. apply (finish_spec _ _ _ (fun s => Q s.1)); [|intros [c v]; apply QE|].
  - repeat (apply spec_after; [solve [keep]|intros [c v]; apply PE|intros]). by apply (spec_outer P f (fun _ => Q)).
  - repeat constructor; keep.
Qed.

Lemma postgresSession_spec f : spec P f (fun _ => Q) E -> spec P (Applier.postgresSession f) (fun _ => Q) E.
Proof.
  intros Hf. unfold Applier.postgresSession. before. apply spec_local. apply (finish_spec _ _ _ (fun s => Q s.1)); [|intros [c v]; apply QE|].
  - repeat (apply spec_after; [solve [keep]|intros [c v]; apply PE|intros]). by apply (spec_outer P f (fun _ => Q)).
  - repeat constructor; keep.
Qed.

Lemma sqliteSession_spec f : spec P f (fun _ => Q) E -> spec P (Applier.sqliteSession f) (fun _ => Q) E.
Proof.
  intros Hf. unfold Applier.sqliteSession. before. apply spec_local. apply (finish_spec _ _ _ (fun s => Q s.1)); [|intros [c v]; apply QE|].
  - repeat (apply spec_after; [solve [keep]|intros [c v]; apply PE|intros]). by apply (spec_outer P f (fun _ => Q)).
  - repeat constructor; keep.
Qed.

(** What a session does around its body changes no assertion that calm calls keep. *)
Lemma session_spec f : spec P f (fun _ => Q) E -> spec P (Applier.session dialect f) (fun _ => Q) E.
Proof.
  intros Hf. pose proof (mysqlSession_spec f Hf) as H1. pose proof (postgresSession_spec f Hf) as H2. pose proof (sqliteSession_spec f Hf) as H3.
  unfold Applier.session. by case_match.
Qed.
End sessions.

(** ** Locks *)

Lemma EndsRun_cons {S} (e : Act S unit) ends s es s' : EndsRun (e :: ends) s es s' -> exists es1, EndsRun ends (e s).2 es1 s'.
Proof. intros Hr. inversion Hr as [|? ? ? ? ? ? He ?|? ? ? ? ? ? ? He ?]; subst; rewrite He; eauto. Qed.

Lemma EndsRun_nil {S} (s : S) es s' : EndsRun [] s es s' -> s' = s.
Proof. intros Hr. by inversion Hr. Qed.

(** What a session has sent: its statements with their answers, none when the call
    threw, and the point where its body ran. *)
Inductive Entry := Sent (sql : string) (answer : option (list (list JsValue))) | Body.

(** Any host, with the statements that are sent to it kept in order. *)
Definition passed {W A} (m : Act W A) : Act (W * list Entry) A := fun '(w, l) => let '(r, w') := m w in (r, (w', l)).
#[local] Instance traced {W} (host : Host W) : Host (W * list Entry) := {
  exec sql args := fun '(w, l) => let '(r, w') := exec sql args w in (r, (w', l ++ [Sent sql (match r with inl _ => Some [] | inr _ => None end)]));
  rows sql args := fun '(w, l) => let '(r, w') := rows sql args w in (r, (w', l ++ [Sent sql (match r with inl answer => Some answer | inr _ => None end)]));
  introspectCatalog dialect form := passed (introspectCatalog dialect form);
  now := passed now;
  events := option_map (fun f e => passed (f e)) events }.

(** Any body of a session, which leaves its mark. *)
Definition bodyOf {W} (f : Act (Command W) unit) : Act (Command (W * list Entry)) unit := fun c =>
  let '(r, c') := f (mkCommand (cm_world c).1 (cm_history c) (cm_session c)) in
  (r, mkCommand (cm_world c', (cm_world c).2 ++ [Body]) (cm_history c') (cm_session c')).

Definition trace {W} (c : Command (W * list Entry)) : list Entry := (cm_world c).2.

(** The statement that takes the lock, with an answer that gives it; on SQLite the
    first statement that changes the locking mode, whatever its answer. *)
Definition mysqlLockSql : string := str ["SELECT GET_LOCK("; MYSQL_LOCK; ", 0), CONNECTION_ID()"].
Definition postgresLockSql : string := str ["SELECT pg_try_advisory_lock("; POSTGRES_LOCK; "), pg_backend_pid()"].
Definition sqliteLockSql : string := "PRAGMA locking_mode = EXCLUSIVE".
Definition takes (dialect : DbspecDialect) (e : Entry) : bool :=
  match dialect, e with
  | MySql, Sent sql (Some (row :: _)) => bool_decide (sql = mysqlLockSql) && bool_decide (safeInteger (cell row 0) = Some 1)
  | Postgres, Sent sql (Some (row :: _)) => bool_decide (sql = postgresLockSql) && bool_decide (cell row 0 = JBool true)
  | Sqlite, Sent sql _ => bool_decide (sql = sqliteLockSql)
  | _, _ => false
  end.
Definition before (dialect : DbspecDialect) (e : Entry) : Prop := takes dialect e = false /\ e <> Body.

(** The value that a query of [l] answered. *)
Definition answeredIn (l : list Entry) (sql : string) (value : JsValue) : Prop := exists row more, Sent sql (Some (row :: more)) ∈ l /\ cell row 0 = value.

(** The last statements of a session that has taken its lock, with the settings that
    its statements in front of the lock read. *)
Definition releases (dialect : DbspecDialect) (front last : list Entry) : Prop :=
  match dialect with
  | MySql => exists a, last = [Sent (str ["DO RELEASE_LOCK("; MYSQL_LOCK; ")"]) a]
  | Postgres => exists a, last = [Sent (str ["SELECT pg_advisory_unlock("; POSTGRES_LOCK; ")"]) a]
  | Sqlite => exists foreignKeys legacy busy mode v1 v2 v3 a1 a2 a3 a4 a5,
      answeredIn front "PRAGMA foreign_keys" v1 /\ safeInteger v1 = Some foreignKeys /\ answeredIn front "PRAGMA legacy_alter_table" v2 /\ safeInteger v2 = Some legacy /\
      answeredIn front "PRAGMA busy_timeout" v3 /\ safeInteger v3 = Some busy /\ answeredIn front "PRAGMA locking_mode" (JString mode) /\
      last = [Sent (str ["PRAGMA foreign_keys = "; pretty foreignKeys]) a1; Sent (str ["PRAGMA legacy_alter_table = "; pretty legacy]) a2;
              Sent (str ["PRAGMA locking_mode = "; mode]) a3; Sent "SELECT COUNT(*) FROM sqlite_master" a4; Sent (str ["PRAGMA busy_timeout = "; pretty busy]) a5]
  end.

(** A session that takes no lock and does not run its body, or one that takes its lock
    first and releases it last. *)
Definition Released (dialect : DbspecDialect) (l : list Entry) : Prop :=
  Forall (before dialect) l \/
  exists front lock middle last, l = front ++ lock :: middle ++ last /\ Forall (before dialect) front /\ takes dialect lock = true /\ releases dialect front last.

Section locks.
Context {W : Type} {host : Host W} (dialect : DbspecDialect).
Abbreviation C := (Command (W * list Entry)).

(** Programs that only add to the trace, over a state that has one. *)
Definition grows {S A} (tr : S -> list Entry) (m : Act S A) : Prop := forall s, exists k, tr (m s).2 = tr s ++ k.

Section grows.
Context {S : Type} (tr : S -> list Entry).
Lemma grows_ret {A} (a : A) : grows tr (mret a).
Proof. intros s. exists []. by rewrite app_nil_r. Qed.
Lemma grows_raise {A} e : grows tr (raise e : Act S A).
Proof. intros s. exists []. by rewrite app_nil_r. Qed.
Lemma grows_raise_if b e : grows tr (raise_if b e).
Proof. destruct b; [apply grows_raise|apply grows_ret]. Qed.
Lemma grows_bind {A B} (m : Act S A) (k : A -> Act S B) : grows tr m -> (forall a, grows tr (k a)) -> grows tr (m ≫= k).
Proof.
  intros Hm Hk s. destruct (Hm s) as [l1 H1]. unfold mbind, Act_bind. destruct (m s) as [[a|e] s1]; cbn in H1; [|by exists l1].
  destruct (Hk a s1) as [l2 H2]. exists (l1 ++ l2). by rewrite H2, H1, app_assoc.
Qed.
Lemma grows_attempt {A} (m : Act S A) : grows tr m -> grows tr (attempt m).
Proof. intros Hm s. unfold attempt. specialize (Hm s). by destruct (m s). Qed.
Lemma grows_integer v what : grows tr (integer v what).
Proof. unfold integer. destruct (safeInteger v); [apply grows_ret|apply grows_raise]. Qed.
Lemma grows_text v what : grows tr (text v what).
Proof. unfold text. destruct v; apply grows_ret || apply grows_raise. Qed.
Lemma grows_EndsRun ends s es s' : EndsRun ends s es s' -> Forall (grows tr) ends -> exists k, tr s' = tr s ++ k.
Proof.
  induction 1 as [s|e ends s s1 es s' He _ IH|e ends s x s1 es s' He _ IH]; intros Hf; [exists []; by rewrite app_nil_r|..];
    apply Forall_cons in Hf as [Hg Hf]; destruct (Hg s) as [k1 H1]; rewrite He in H1; cbn in H1; destruct (IH Hf) as [k2 H2]; exists (k1 ++ k2); by rewrite H2, H1, app_assoc.
Qed.
End grows.

Lemma queryRow_sent sql args (c : C) : exists answer, trace (Applier.queryRow sql args c).2 = trace c ++ [Sent sql answer] /\
  match (Applier.queryRow sql args c).1 with inl row => exists more, answer = Some (row :: more) | inr _ => answer = None \/ answer = Some [] end.
Proof.
  destruct c as [[w l] h n]. unfold Applier.queryRow, Applier.call, mbind, Act_bind. cbn. destruct (rows sql args w) as [[[|row more]|e] w']; cbn; eauto.
Qed.
Lemma run_sent sql (c : C) : exists answer, trace (Applier.run_ sql c).2 = trace c ++ [Sent sql answer].
Proof. destruct c as [[w l] h n]. unfold Applier.run_, Applier.call. cbn. destruct (exec sql [] w) as [[[]|e] w']; cbn; eauto. Qed.
Lemma queryValue_trace sql args (c : C) : (Applier.queryValue sql args c).2 = (Applier.queryRow sql args c).2.
Proof. unfold Applier.queryValue, mbind at 1, Act_bind at 1. by destruct (Applier.queryRow sql args c) as [[row|e] c']. Qed.

Lemma grows_queryRow sql args : grows trace (Applier.queryRow sql args : Act C _).
Proof. intros c. destruct (queryRow_sent sql args c) as (a & Ha & _). eauto. Qed.
Lemma grows_run sql : grows trace (Applier.run_ sql : Act C _).
Proof. intros c. destruct (run_sent sql c) as (a & Ha). eauto. Qed.
Lemma grows_queryValue sql args : grows trace (Applier.queryValue sql args : Act C _).
Proof. intros c. rewrite queryValue_trace. apply grows_queryRow. Qed.
Lemma grows_body f : grows trace (bodyOf f : Act C _).
Proof. intros c. unfold bodyOf. destruct (f _) as [r c']. by exists [Body]. Qed.
Lemma grows_sameSession at_ v : grows trace (Applier.sameSession at_ v : Act C _).
Proof. unfold Applier.sameSession. apply grows_bind; [apply grows_integer|intros id]. apply grows_bind; [intros c; exists []; by rewrite app_nil_r|intros n; apply grows_raise_if]. Qed.

(** With the variables of a session's closure. *)
Definition traceV {V} (s : C * V) : list Entry := trace s.1.
Lemma grows_outer {V A} (m : Act C A) : grows trace m -> grows traceV (outer m : Act (C * V) A).
Proof. intros Hm [c v]. specialize (Hm c). unfold outer. destruct (m c) as [r c']. exact Hm. Qed.
Lemma grows_readVar {V} : grows traceV (readVar : Act (C * V) V).
Proof. intros [c v]. exists []. by rewrite app_nil_r. Qed.
Lemma grows_setVar {V} (v : V) : grows traceV (setVar v : Act (C * V) unit).
Proof. intros [c v']. exists []. by rewrite app_nil_r. Qed.


(** *** Up to the lock *)

(** From the trace [l], the program ends as a session does. *)
Definition Ends (l : list Entry) (m : Act C unit) : Prop := forall c, trace c = l -> Released dialect (trace (m c).2).

Lemma ends_raise_if l b e (k : unit -> Act C unit) : (b = true -> Forall (before dialect) l) -> (b = false -> Ends l (k tt)) -> Ends l (raise_if b e ≫= k).
Proof. intros Ht Hf c <-. destruct b; [left; by apply Ht|by apply Hf]. Qed.
Lemma ends_integer l v what (k : Z -> Act C unit) :
  (safeInteger v = None -> Forall (before dialect) l) -> (forall n, safeInteger v = Some n -> Ends l (k n)) -> Ends l (integer v what ≫= k).
Proof. intros Hn Hk c Hc. unfold integer. destruct (safeInteger v) as [n|]; [by apply Hk|left; rewrite <- Hc in Hn; by apply Hn]. Qed.
Lemma ends_text l v what (k : string -> Act C unit) : Forall (before dialect) l -> (forall s, v = JString s -> Ends l (k s)) -> Ends l (text v what ≫= k).
Proof. intros Hl Hk c <-. unfold text. destruct v; try (by left). by apply Hk. Qed.
Lemma ends_assoc {A B} l (m : Act C A) (k1 : A -> Act C B) (k2 : B -> Act C unit) : Ends l (m ≫= fun a => k1 a ≫= k2) -> Ends l ((m ≫= k1) ≫= k2).
Proof. intros H c Hc. specialize (H c Hc). unfold mbind, Act_bind in *. by destruct (m c) as [[a|e] c']. Qed.
Lemma ends_ret {A} l (a : A) (k : A -> Act C unit) : Ends l (k a) -> Ends l (mret a ≫= k).
Proof. done. Qed.
Lemma ends_state {A} l (m : Act C A) (k : A -> Act C unit) : (forall c, exists a, (m c).1 = inl a /\ trace (m c).2 = trace c) -> (forall a, Ends l (k a)) -> Ends l (m ≫= k).
Proof. intros Hm Hk c <-. destruct (Hm c) as (a & Ha & Ht). unfold mbind, Act_bind. destruct (m c) as [r c']. cbn in *. subst r. by apply Hk. Qed.

Lemma ends_row l sql args (k : list JsValue -> Act C unit) : Forall (before dialect) l ->
  before dialect (Sent sql None) -> before dialect (Sent sql (Some [])) -> (forall row more, Ends (l ++ [Sent sql (Some (row :: more))]) (k row)) ->
  Ends l (Applier.queryRow sql args ≫= k).
Proof.
  intros Hl Hn He Hk c Hc. destruct (queryRow_sent sql args c) as (answer & Ht & Hr). unfold mbind, Act_bind.
  destruct (Applier.queryRow sql args c) as [[row|e] c']; cbn in *; rewrite Hc in Ht.
  - destruct Hr as [more ->]. by apply (Hk row more).
  - left. rewrite Ht. apply Forall_app. split; [done|]. constructor; [by destruct Hr as [-> | ->]|constructor].
Qed.
Lemma ends_value l sql args (k : JsValue -> Act C unit) : Forall (before dialect) l ->
  before dialect (Sent sql None) -> before dialect (Sent sql (Some [])) -> (forall row more, Ends (l ++ [Sent sql (Some (row :: more))]) (k (cell row 0))) ->
  Ends l (Applier.queryValue sql args ≫= k).
Proof. intros Hl Hn He Hk. unfold Applier.queryValue. apply ends_assoc. apply ends_row; [done..|]. intros row more. apply ends_ret. apply Hk. Qed.
Lemma ends_run l sql (k : unit -> Act C unit) : Forall (before dialect) l -> (forall answer, before dialect (Sent sql answer)) ->
  (forall answer, Ends (l ++ [Sent sql answer]) (k tt)) -> Ends l (Applier.run_ sql ≫= k).
Proof.
  intros Hl Hs Hk c Hc. destruct (run_sent sql c) as (answer & Ht). unfold mbind, Act_bind. rewrite Hc in Ht.
  destruct (Applier.run_ sql c) as [[[]|e] c']; cbn in *; [by apply (Hk answer)|]. left. rewrite Ht. apply Forall_app. split; [done|]. constructor; [apply Hs|constructor].
Qed.

(** *** Behind the lock *)

Lemma finish_released {V} (v : V) (f : Act (C * V) unit) ends tail front lock c k1 : Forall (before dialect) front -> takes dialect lock = true ->
  traceV (f (c, v)).2 = front ++ lock :: k1 -> Forall (grows traceV) ends ->
  (forall s es s', EndsRun tail s es s' -> exists k last, traceV s' = traceV s ++ k ++ last /\ releases dialect front last) ->
  Released dialect (trace (local v (finish f (ends ++ tail)) c).2).
Proof.
  intros Hfront Hlock H1 Hends Htail. unfold local. destruct (finish_runs f (ends ++ tail) (c, v)) as (es & Hes & _).
  destruct (finish f (ends ++ tail) (c, v)) as [r [c' v']]. cbn [snd] in *.
  assert (Hsplit : exists s1 es1 k2, EndsRun tail s1 es1 (c', v') /\ traceV s1 = traceV (f (c, v)).2 ++ k2).
  { clear -Hes Hends. revert Hes. generalize (f (c, v)).2 as s. revert es. induction Hends as [|e ends He Hends IH]; intros es s Hes.
    - exists s, es, []. by rewrite app_nil_r.
    - destruct (He s) as [k0 H0]. apply EndsRun_cons in Hes as [es1 Hes]. apply IH in Hes as (s1 & es2 & k2 & Hes & Hk). exists s1, es2, (k0 ++ k2). by rewrite Hk, H0, app_assoc. }
  destruct Hsplit as (s1 & es1 & k2 & Hrun & H2). destruct (Htail _ _ _ Hrun) as (k3 & last & H3 & Hlast). right.
  exists front, lock, (k1 ++ k2 ++ k3), last. split; [|done]. unfold traceV in *. cbn [fst] in *. rewrite H3, H2, H1, <- !app_assoc. done.
Qed.

Lemma ends_finish {V} (v : V) (f : Act (C * V) unit) ends tail front lock : Forall (before dialect) front -> takes dialect lock = true ->
  grows traceV f -> Forall (grows traceV) ends ->
  (forall s es s', EndsRun tail s es s' -> exists k last, traceV s' = traceV s ++ k ++ last /\ releases dialect front last) ->
  Ends (front ++ [lock]) (local v (finish f (ends ++ tail))).
Proof.
  intros Hfront Hlock Hf Hends Htail c Hc. destruct (Hf (c, v)) as [k1 H1]. apply (finish_released v f ends tail front lock c k1); try done.
  rewrite H1. unfold traceV. cbn [fst]. rewrite Hc, <- app_assoc. done.
Qed.

Lemma outer_snd {V A} (m : Act C A) (s : C * V) : (outer m s).2.1 = (m s.1).2.
Proof. destruct s as [c v]. unfold outer. cbn [fst]. by destruct (m c). Qed.
End locks.

Section sessions_release.
Context {W : Type} {host : Host W}.
Abbreviation C := (Command (W * list Entry)).

Ltac grow :=
  repeat first
    [ apply grows_sameSession | apply grows_body | apply grows_queryRow | apply grows_queryValue | apply grows_run
    | apply grows_readVar | apply grows_setVar | apply grows_outer | apply grows_attempt | apply grows_integer | apply grows_text
    | apply grows_ret | apply grows_raise | apply grows_raise_if | apply grows_bind; [|intros ?] | progress case_match ].

Ltac free := repeat match goal with |- Forall _ (_ ++ _) => apply Forall_app; split | |- Forall _ (_ :: _) => constructor | |- Forall _ [] => constructor end; try done; by split.

Lemma ends_openSession dialect query l (k : unit -> Act C unit) : Forall (before dialect) l -> (forall answer, before dialect (Sent query answer)) ->
  (forall answer, Ends dialect (l ++ [Sent query answer]) (k tt)) -> Ends dialect l (Applier.openSession query ≫= k).
Proof.
  intros Hl Hq Hk. unfold Applier.openSession. apply ends_assoc. apply ends_row; [done|apply Hq..|]. intros row more.
  assert (Hl' : Forall (before dialect) (l ++ [Sent query (Some (row :: more))])) by (apply Forall_app; split; [done|by constructor]).
  apply ends_assoc. apply ends_integer; [done|]. intros n _. apply ends_assoc. apply ends_state; [intros c; by exists tt|]. intros []. apply ends_raise_if; [done|]. intros _. apply Hk.
Qed.

Lemma mysql_release (s : C * option (Z * Z)) es s' front :
  EndsRun [outer (Applier.run_ (str ["DO RELEASE_LOCK("; MYSQL_LOCK; ")"]))] s es s' -> exists k last, traceV s' = traceV s ++ k ++ last /\ releases MySql front last.
Proof.
  intros [es1 ->%EndsRun_nil]%EndsRun_cons. destruct (run_sent (str ["DO RELEASE_LOCK("; MYSQL_LOCK; ")"]) s.1) as [a Ha].
  exists [], [Sent (str ["DO RELEASE_LOCK("; MYSQL_LOCK; ")"]) a]. split; [|by exists a]. unfold traceV. by rewrite outer_snd.
Qed.

Lemma mysqlSession_releases f : Ends MySql [] (Applier.mysqlSession (bodyOf f : Act C unit)).
Proof.
  unfold Applier.mysqlSession. apply ends_openSession; [constructor|intros [[|]|]; by split|]. intros answer. cbn [app].
  assert (Hfree : before MySql (Sent SESSION_MYSQL answer)) by (split; [by destruct answer as [[|]|]|done]).
  apply ends_row; [by constructor|by split..|]. intros row more. fold mysqlLockSql.
  set (lock := Sent mysqlLockSql (Some (row :: more))). assert (Hlock : safeInteger (cell row 0) <> Some 1 -> Forall (before MySql) ([Sent SESSION_MYSQL answer] ++ [lock])).
  { intros Hn. apply Forall_app. split; [by constructor|]. constructor; [|constructor]. split; [|done]. cbn. by rewrite (bool_decide_false _ Hn), andb_false_r. }
  apply ends_raise_if; [intros E%bool_decide_eq_true; apply Hlock; by rewrite E|]. intros _.
  apply ends_integer; [intros E; apply Hlock; by rewrite E|]. intros n Hn.
  apply ends_raise_if; [intros E%Z.eqb_eq; apply Hlock; rewrite Hn; congruence|]. intros _.
  apply ends_raise_if; [intros E%negb_true_iff%Z.eqb_neq; apply Hlock; rewrite Hn; congruence|]. intros Hone%negb_false_iff%Z.eqb_eq. subst n.
  apply (ends_finish MySql _ _ [_] [_]); [by constructor| | | |].
  - cbn. rewrite Hn. by rewrite !bool_decide_true by done.
  - grow.
  - constructor; [|constructor]. grow.
  - intros s es s'. apply mysql_release.
Qed.

Lemma postgresSession_releases f : Ends Postgres [] (Applier.postgresSession (bodyOf f : Act C unit)).
Proof.
  unfold Applier.postgresSession. apply ends_openSession; [constructor|intros [[|]|]; by split|]. intros answer. cbn [app].
  assert (Hfree : before Postgres (Sent SESSION_POSTGRES answer)) by (split; [by destruct answer as [[|]|]|done]).
  apply ends_row; [by constructor|by split..|]. intros row more. fold postgresLockSql.
  set (lock := Sent postgresLockSql (Some (row :: more))). destruct (decide (cell row 0 = JBool true)) as [E|E].
  - rewrite E. apply ends_ret. apply (ends_finish Postgres _ _ [_] [_]); [by constructor| | | |].
    + cbn. by rewrite E, !bool_decide_true by done.
    + grow.
    + constructor; [|constructor]. grow.
    + intros s es s' [es1 ->%EndsRun_nil]%EndsRun_cons.
      destruct (queryRow_sent (str ["SELECT pg_advisory_unlock("; POSTGRES_LOCK; ")"]) [] s.1) as (a & Ha & _).
      exists [], [Sent (str ["SELECT pg_advisory_unlock("; POSTGRES_LOCK; ")"]) a]. split; [|by exists a]. unfold traceV at 2. cbn [app]. rewrite <- Ha.
      rewrite <- queryValue_trace, <- (outer_snd (Applier.queryValue _ []) s). unfold traceV, mbind, Act_bind.
      destruct (outer _ s) as [[[]|e] s1]; try done. by repeat case_match.
  - intros c Hc. left. assert (Ht : Forall (before Postgres) ([Sent SESSION_POSTGRES answer] ++ [lock])).
    { apply Forall_app. split; [by constructor|]. constructor; [|constructor]. split; [|done]. cbn. by rewrite (bool_decide_false _ E), andb_false_r. }
    unfold mbind at 1, Act_bind at 1. destruct (cell row 0) as [| |[]| | | | | | | | |]; try done; rewrite <- Hc in Ht; exact Ht.
Qed.

(** The end of a SQLite session that reads the database once. *)
Definition sqliteCount : Act (C * bool) unit :=
  locked ← readVar; read ← attempt (outer (Applier.queryValue "SELECT COUNT(*) FROM sqlite_master" []));
  match read with inl _ => mret tt | inr error => if negb locked || negb (sqliteLockResult error) then raise error else mret tt end.

Lemma sqlite_count s : exists a, traceV (sqliteCount s).2 = traceV s ++ [Sent "SELECT COUNT(*) FROM sqlite_master" a].
Proof.
  unfold sqliteCount.
  destruct (queryRow_sent "SELECT COUNT(*) FROM sqlite_master" [] s.1) as (a & Ha & _). exists a. rewrite <- queryValue_trace in Ha. unfold traceV at 2. rewrite <- Ha.
  destruct s as [c v]. unfold traceV, mbind, Act_bind, readVar, attempt, outer. cbn [fst]. destruct (Applier.queryValue _ [] c) as [[x|e] c1]; [done|]. by case_match.
Qed.

Lemma run_traceV {V} sql (s : C * V) : exists a, traceV (outer (Applier.run_ sql) s).2 = traceV s ++ [Sent sql a].
Proof. unfold traceV. rewrite outer_snd. apply run_sent. Qed.

Lemma sqliteSession_releases f : Ends Sqlite [] (Applier.sqliteSession (bodyOf f : Act C unit)).
Proof.
  unfold Applier.sqliteSession.
  apply ends_assoc. apply ends_value; [constructor|by split..|]. intros r1 m1. apply ends_integer; [intros; free|]. intros foreignKeys E1.
  apply ends_assoc. apply ends_value; [free|by split..|]. intros r2 m2. apply ends_integer; [intros; free|]. intros legacy E2.
  apply ends_assoc. apply ends_value; [free|by split..|]. intros r3 m3. apply ends_integer; [intros; free|]. intros busy E3.
  apply ends_assoc. apply ends_value; [free|by split..|]. intros r4 m4. apply ends_text; [free|]. intros mode E4.
  apply ends_run; [free|intros; by split|]. intros a5. cbn [app].
  match goal with |- Ends _ ?l _ => set (front := l) end. intros c Hc. unfold front in Hc.
  match goal with |- context [finish ?body _] => assert (Hbody : exists a k, traceV (body (c, false)).2 = front ++ Sent sqliteLockSql a :: k) end.
  { unfold mbind at 1, Act_bind at 1. destruct (run_traceV sqliteLockSql (c, false)) as [a Ha]. unfold traceV at 2 in Ha. cbn [fst] in Ha. rewrite Hc in Ha.
    change "PRAGMA locking_mode = EXCLUSIVE" with sqliteLockSql. exists a. destruct (outer _ _) as [[[]|e] s1]; [|by exists []]. cbn beta iota in Ha |- *. cbn [snd] in Ha.
    match goal with |- context [traceV (?rest s1).2] => assert (Hg : grows traceV rest) by grow; destruct (Hg s1) as [k Hk]; exists k; rewrite Hk, Ha end.
    unfold front. by rewrite <- app_assoc. }
  destruct Hbody as (a & k1 & Hbody).
  apply (finish_released Sqlite false _ [_] [_; _; _; _; _] front (Sent sqliteLockSql a) c k1); [unfold front; free|done|exact Hbody| |].
  - constructor; [|constructor]. grow.
  - intros s es s' Hr. apply EndsRun_cons in Hr as [es1 Hr]. apply EndsRun_cons in Hr as [es2 Hr]. apply EndsRun_cons in Hr as [es3 Hr].
    apply EndsRun_cons in Hr as [es4 Hr]. apply EndsRun_cons in Hr as [es5 ->%EndsRun_nil].
    destruct (run_traceV (str ["PRAGMA busy_timeout = "; pretty busy]) (sqliteCount (outer (Applier.run_ (str ["PRAGMA locking_mode = "; mode]))
      (outer (Applier.run_ (str ["PRAGMA legacy_alter_table = "; pretty legacy])) (outer (Applier.run_ (str ["PRAGMA foreign_keys = "; pretty foreignKeys])) s).2).2).2).2) as [b5 B5].
    unfold sqliteCount in B5. rewrite B5. fold (@sqliteCount). match goal with |- context [traceV (sqliteCount ?x).2] => destruct (sqlite_count x) as [b4 ->] end.
    repeat match goal with |- context [traceV (outer (Applier.run_ ?sql) ?x).2] => destruct (run_traceV sql x) as [? ->] end.
    rewrite <- !app_assoc. cbn [app]. eexists [], _. split; [reflexivity|]. unfold front. cbn [app].
    exists foreignKeys, legacy, busy, mode. do 8 eexists.
    split; [|split; [exact E1|split; [|split; [exact E2|split; [|split; [exact E3|split; [|reflexivity]]]]]]];
      (eexists _, _; split; [|reflexivity || exact E4]; repeat first [apply list_elem_of_here | apply list_elem_of_further]).
Qed.

(** C38: Whatever the host answers and the body of a session does, a session either
    takes no lock and does not run its body, or takes its lock before the body runs and
    releases it with its last statements; on SQLite these also restore the settings that
    the session read before it took the lock. *)
Theorem session_releases dialect (f : Act (Command W) unit) w history session :
  Released dialect (trace (Applier.session dialect (bodyOf f) (mkCommand (w, []) history session)).2).
Proof. destruct dialect; [apply mysqlSession_releases|apply postgresSession_releases|apply sqliteSession_releases]; done. Qed.
End sessions_release.

(** ** The position of a history in the chain *)

(** The row of a plan has its hashes and one of the states. *)
Definition rowOf (p : DbspecPlan) (row : HistoryRow) : Prop :=
  hr_to row = p_to p /\ hr_from row = hashOrEmpty (p_from p) /\ hr_state row ∈ Applier.states.

(** The history records the first [n] plans of the chain and no other, each
    before the last applied or done. *)
Record Front (chain : list DbspecPlan) (h : gmap string HistoryRow) (n : nat) : Prop := {
  front_length : (n <= length chain)%nat;
  front_size : size h = n;
  front_row i p : chain !! i = Some p -> (i < n)%nat -> exists row, h !! p_name p = Some row /\ rowOf p row /\ ((S i < n)%nat -> Applier.settledState (hr_state row) = true);
  front_none i p : chain !! i = Some p -> (n <= i)%nat -> h !! p_name p = None }.

Section position.
Context {W : Type} {host : Host W} (dialect : DbspecDialect) (chain : list DbspecPlan).
Implicit Types (c : Command W) (h : gmap string HistoryRow).

(** What a passed test of a row means. *)
Lemma row_test (p : DbspecPlan) (row : HistoryRow) :
  (negb (bool_decide (hr_to row = p_to p)) || negb (bool_decide (hr_from row = hashOrEmpty (p_from p)))) = false /\
  negb (includes (hr_state row) Applier.states) = false <-> rowOf p row.
Proof.
  unfold rowOf, includes. rewrite orb_false_iff, !negb_false_iff, !bool_decide_eq_true. tauto.
Qed.

Lemma recordedFrom_read h plans : forall i position n c c', (position <= i)%nat ->
  Applier.recordedFrom h i position plans c = (inl n, c') <->
  c' = c /\ ((n = position /\ forall p, p ∈ plans -> h !! p_name p = None) \/
             (position = i /\ exists m, n = (i + S m)%nat /\ (m < length plans)%nat /\
              forall j p, plans !! j = Some p -> if (j <=? m)%nat then exists row, h !! p_name p = Some row /\ rowOf p row else h !! p_name p = None)).
Proof.
  induction plans as [|p plans IH]; intros i position n c c' Hi; cbn [Applier.recordedFrom].
  - split; [intros [= -> ->]; split; [done|]; left; split; [done|]; by intros p ?%elem_of_nil|].
    intros [-> [[-> _]|(_ & m & _ & Hm & _)]]; [done|]. simpl in Hm. lia.
  - destruct (h !! p_name p) as [row|] eqn:Er.
    + pose proof (row_test p row) as Ht. destruct (negb (bool_decide (hr_to row = _)) || _); [|destruct (Nat.eqb_spec i position) as [<-|Hn]; cbn [negb]; [destruct (negb (includes _ _))|]].
      all: try (split; [done|]; intros [-> [[-> Hnone]|(Ei & m & -> & Hm & Hrow)]]; [specialize (Hnone p ltac:(left)); congruence|];
                destruct (Hrow 0%nat p eq_refl) as (row' & Er' & Hr'); replace row' with row in Hr' by congruence; apply Ht in Hr'; destruct Hr'; congruence).
      rewrite IH by lia. split.
      * intros [-> Hor]. split; [done|]. right. split; [done|]. destruct Hor as [[-> Hnone]|(_ & m & -> & Hm & Hrow)].
        -- exists 0%nat. split; [lia|]. split; [simpl; lia|]. intros [|j] q Hq; cbn in Hq |- *; [injection Hq as <-; exists row; split; [done|by apply Ht]|].
           apply Hnone. by eapply list_elem_of_lookup_2.
        -- exists (S m). split; [lia|]. split; [simpl; lia|]. intros [|j] q Hq; cbn in Hq |- *; [injection Hq as <-; exists row; split; [done|by apply Ht]|]. exact (Hrow j q Hq).
      * intros [-> [[-> Hnone]|(Ei & m & -> & Hm & Hrow)]]; [specialize (Hnone p ltac:(left)); congruence|]. split; [done|]. destruct m as [|m].
        -- left. split; [lia|]. intros q [j Hq]%list_elem_of_lookup. exact (Hrow (S j) q Hq).
        -- right. split; [done|]. exists m. split; [lia|]. split; [simpl in Hm; lia|]. intros j q Hq. exact (Hrow (S j) q Hq).
    + rewrite IH by lia. split.
      * intros [-> [[-> Hnone]|(-> & m & -> & Hm & Hrow)]]; [|lia]. split; [done|]. left. split; [done|]. intros q [->|Hq]%elem_of_cons; auto.
      * intros [-> [[-> Hnone]|(-> & m & -> & Hm & Hrow)]]; [|specialize (Hrow 0%nat p eq_refl); destruct m; destruct Hrow as (? & ? & _); congruence].
        split; [done|]. left. split; [done|]. intros q Hq. apply Hnone. by right.
Qed.

Lemma beforeLast_ok h l c c' : each (Applier.beforeLast h) l c = (inl tt, c') <->
  c' = c /\ forall p, p ∈ l -> exists row, h !! p_name p = Some row /\ Applier.settledState (hr_state row) = true.
Proof.
  induction l as [|p l IH]; [split; [intros [= ->]; split; [done|]; by intros p ?%elem_of_nil|by intros [-> _]]|].
  cbn [each]. unfold mbind, Act_bind. unfold Applier.beforeLast at 1. unfold the, ofRes, mbind, Act_bind.
  destruct (h !! p_name p) as [row|] eqn:Er; cbn [present]; unfold mret, Act_ret.
  - destruct (Applier.settledState (hr_state row)) eqn:Es.
    + unfold mret, Act_ret. rewrite IH. split; intros [-> Hl]; (split; [done|]).
      * intros q [->|Hq]%elem_of_cons; eauto.
      * intros q Hq. apply Hl. by right.
    + split; [done|]. intros [_ Hl]. destruct (Hl p ltac:(left)) as (row' & E' & Hs). congruence.
  - split; [done|]. intros [_ Hl]. destruct (Hl p ltac:(left)) as (row' & E' & Hs). congruence.
Qed.

Lemma Front_from h n : Front chain h n <->
  size h = n /\ (forall p, p ∈ take (n - 1) chain -> exists row, h !! p_name p = Some row /\ Applier.settledState (hr_state row) = true) /\
  ((n = 0%nat /\ forall p, p ∈ chain -> h !! p_name p = None) \/
   exists m, n = S m /\ (m < length chain)%nat /\
     forall j p, chain !! j = Some p -> if (j <=? m)%nat then exists row, h !! p_name p = Some row /\ rowOf p row else h !! p_name p = None).
Proof.
  split.
  - intros [Hl Hs Hr Hn]. split; [done|]. split.
    { intros p [i [Hi Hi']%lookup_take_Some]%list_elem_of_lookup. destruct (Hr i p Hi ltac:(lia)) as (row & E & _ & Hset). eauto with lia. }
    destruct n as [|m]; [left; split; [done|]; intros p [i Hi]%list_elem_of_lookup; eapply Hn; [done|lia]|].
    right. exists m. split; [done|]. split; [lia|]. intros j p Hp. destruct (Nat.leb_spec j m); [|by eapply Hn].
    destruct (Hr j p Hp ltac:(lia)) as (row & E & Hrow & _). eauto.
  - intros (Hs & Hset & [[-> Hnone]|(m & -> & Hm & Hrow)]).
    + split; [lia|done|lia|]. intros i p Hp _. apply Hnone. by eapply list_elem_of_lookup_2.
    + split; [lia|done| |]; intros i p Hp Hi; specialize (Hrow i p Hp).
      * rewrite (proj2 (Nat.leb_le i m)) in Hrow by lia. destruct Hrow as (row & E & Hr). exists row. split; [done|]. split; [done|]. intros Hi'.
        destruct (Hset p) as (row' & E' & Hs'); [|congruence]. apply (list_elem_of_lookup_2 _ i). rewrite lookup_take_lt by lia. done.
      * by rewrite (proj2 (Nat.leb_gt i m)) in Hrow by lia.
Qed.

Lemma position_read c n c' :
  Applier.position dialect chain c = (inl n, c') <-> Applier.readHistory dialect c = (inl tt, c') /\ Front chain (cm_history c') n.
Proof.
  unfold Applier.position, mbind, Act_bind. destruct (Applier.readHistory dialect c) as [[[]|e] c1]; [|naive_solver].
  unfold Applier.history. rewrite Front_from.
  assert (Hrec : forall m c2, Applier.recordedFrom (cm_history c1) 0 0 chain c1 = (inl m, c2) <-> c2 = c1 /\
    ((m = 0%nat /\ forall p, p ∈ chain -> cm_history c1 !! p_name p = None) \/ exists k, m = S k /\ (k < length chain)%nat /\
      forall j p, chain !! j = Some p -> if (j <=? k)%nat then exists row, cm_history c1 !! p_name p = Some row /\ rowOf p row else cm_history c1 !! p_name p = None)).
  { intros m c2. rewrite recordedFrom_read by lia. naive_solver. }
  split.
  - destruct (Applier.recordedFrom _ _ _ _ c1) as [[m|e] c2]; [|done]. destruct (proj1 (Hrec m c2) eq_refl) as [E2 Hm]. subst c2.
    destruct (Nat.eqb_spec (size (cm_history c1)) m) as [Em|Em]; cbn [negb]; [|done]. unfold mret at 1, Act_ret at 1.
    pose proof (beforeLast_ok (cm_history c1) (take (m - 1) chain) c1) as Hb. destruct (each _ _ c1) as [[[]|e] c2]; [|done].
    destruct (proj1 (Hb c2) eq_refl) as [E2 Hset]. subst c2. by intros [= -> ->].
  - intros [[= <-] (Hs & Hset & Hn)]. rewrite (proj2 (Hrec n c1)) by done. rewrite (proj2 (Nat.eqb_eq _ _) Hs). cbn [negb].
    unfold mret at 1, Act_ret at 1. by rewrite (proj2 (beforeLast_ok _ _ c1 c1)).
Qed.
(** C37: [position] returns [n] exactly for a history that records the first [n]
    plans of the chain, with their hashes and one of the five states, no other
    plan, and every plan before the last as applied or done. *)
Theorem position_front c n c' :
  Applier.position dialect chain c = (inl n, c') <-> Applier.readHistory dialect c = (inl tt, c') /\ Front chain (cm_history c') n.
Proof. apply position_read. Qed.
End position.
