(* ===== verification/ApplyCrash.v ===== *)
(** * Interrupted commands ([dbspec/apply.ts])

    What the history row of a plan says about the steps that are in effect when a
    command stops at any call: the database may hold one step more, or one less,
    than the row records, and [resolve] finds out which.  The database is any host
    that keeps the promises of [PlanDatabase]. *)

From stdpp Require Import gmap.
From S2P Require Import Prelude Documents Values Render Plan PlanSteps PlanStepsFacts Apply ApplyFacts.
From Stdlib Require Import Lia.

(** ** What a database promises *)

Definition repeats (s : DbspecPlanStep) : Prop := ef_kind (ps_effect s) = "repeat".
(** A step that copies or deletes the rows of a SQLite rebuild. *)
Definition copies (s : DbspecPlanStep) : Prop := ef_kind (ps_effect s) = "rows" \/ ef_kind (ps_effect s) = "sequence".

(** The cells of a row of the history table. *)
Definition rowCells (r : string * HistoryRow) : list JsValue :=
  [JString r.1; JString (hr_from r.2); JString (hr_to r.2); JString (hr_state r.2); JInt (hr_step r.2)].

(** A failed call changed nothing, or what the call changes when it succeeds: its
    answer may be lost. *)
Definition changed {W A B} (f : W -> B) (w : W) (r : A + thrown) (w' : W) (b : B) : Prop :=
  f w' = b \/ (exists e, r = inr e) /\ f w' = f w.

(** [hist w] is the content of the history table, and [At n w] says that the
    first [n] steps of the plan are in effect.
    - Settings, queries and the statements of the history table leave the steps alone.
    - A statement of a step takes the plan from one number of steps to the next
      one and its rollback takes it back; a step whose effect is [repeat] may run
      again; a failed statement changed nothing or was done.
    - The query of an effect answers on which side of its step the plan stands.
      The copies of a SQLite rebuild of a table without rows change nothing, so
      that the plan stands on both sides of them, and either answer is true. *)
Class PlanDatabase {W : Type} {host : Host W} (dialect : DbspecDialect) (p : DbspecPlan) (ss : list DbspecPlanStep)
    (hist : W -> gmap string HistoryRow) (At : nat -> W -> Prop) := {
  pd_calm :: Calm dialect (fun w w' => hist w' = hist w /\ forall n, At n w -> At n w');
  pd_select w found w' : rows (Applier.selectHistorySql dialect) [] w = (inl found, w') ->
    exists l, NoDup l.*1 /\ list_to_map l = hist w /\ found = map rowCells l;
  pd_insert state step steps at_ w :
    let r := exec (Applier.insertSql dialect) (Applier.recordArgs p state step steps at_) w in
    changed hist w r.1 r.2 (<[p_name p := mkHistoryRow (hashOrEmpty (p_from p)) (p_to p) state (Z.of_nat step)]> (hist w)) /\
    forall n, At n w -> At n r.2;
  pd_update state step w :
    let r := exec (Applier.updateSql dialect) [JString state; JInt (Z.of_nat step); JString (p_name p)] w in
    changed hist w r.1 r.2 (alter (fun row => mkHistoryRow (hr_from row) (hr_to row) state (Z.of_nat step)) (p_name p) (hist w)) /\
    forall n, At n w -> At n r.2;
  pd_setStep step w :
    let r := exec (Applier.setStepSql dialect) [JInt (Z.of_nat step); JString (p_name p)] w in
    changed hist w r.1 r.2 (alter (fun row => mkHistoryRow (hr_from row) (hr_to row) (hr_state row) (Z.of_nat step)) (p_name p) (hist w)) /\
    forall n, At n w -> At n r.2;
  pd_delete w :
    let r := exec (Applier.deleteSql dialect) [JString (p_name p)] w in
    changed hist w r.1 r.2 (delete (p_name p) (hist w)) /\ forall n, At n w -> At n r.2;
  pd_up i s sql w : ss !! i = Some s -> sql = ps_statement s \/ sql = ps_restore s /\ sql <> "" -> At i w \/ repeats s /\ At (S i) w ->
    let r := exec sql [] w in hist r.2 = hist w /\ (At (S i) r.2 \/ (exists e, r.1 = inr e) /\ At i r.2);
  pd_down i s sql w : ss !! i = Some s -> (sql = ps_rollback s \/ sql = ps_rollbackRestore s) /\ sql <> "" -> At (S i) w \/ repeats s /\ At i w ->
    let r := exec sql [] w in hist r.2 = hist w /\ (At i r.2 \/ (exists e, r.1 = inr e) /\ At (S i) r.2);
  pd_effect i s query args w row more w' n : ss !! i = Some s -> ~ repeats s -> Applier.effectQuery dialect (ps_effect s) = Some (query, args) ->
    rows query args w = (inl (row :: more), w') -> safeInteger (cell row 0) = Some n ->
    let held := Bool.eqb (0 <? n) (ef_present (ps_effect s)) in
    (At i w \/ At (S i) w -> At (if held then S i else i) w) /\ (~ copies s -> At i w -> held = false);
  pd_nulls s c dflt w : s ∈ ss -> c ∈ ps_nullChecks s -> nc_default c = Some dflt ->
    let r := exec (str ["UPDATE "; Applier.q dialect (nc_table c); " SET "; Applier.q dialect (nc_column c); " = "; dflt;
                        " WHERE "; Applier.q dialect (nc_column c); " IS NULL"]) [] w in
    hist r.2 = hist w /\ forall n, At n w -> At n r.2 }.

(** ** Rows and steps *)

(** The number of steps in effect that a row of state [st] and step [k] allows,
    of a plan whose finalize steps start at [fs] and that has [len] steps. *)
Definition standsAt (fs len : nat) (st : string) (k n : nat) : Prop :=
  (st = APPLYING /\ (n = k \/ n = S k) /\ (n <= fs)%nat) \/
  (st = APPLIED /\ n = k /\ k = fs) \/
  (st = FINALIZING /\ (n = k \/ n = S k) /\ (fs <= k)%nat /\ (n <= len)%nat) \/
  (st = DONE /\ n = k /\ k = len) \/
  (st = ROLLING_BACK /\ (n = k \/ S n = k) /\ (k <= fs)%nat).

Lemma finalizeStart_length ss : (finalizeStart ss <= length ss)%nat.
Proof.
  unfold finalizeStart. destruct (list_find _ ss) as [[i s]|] eqn:E; [|done].
  apply list_find_Some in E as (E & _). apply lookup_lt_Some in E. lia.
Qed.

(** No step from the first finalize step on has a rollback or copies rows. *)
Definition finalTail (ss : list DbspecPlanStep) : Prop :=
  forall i s, ss !! i = Some s -> (finalizeStart ss <= i)%nat -> ps_rollback s = "" /\ ~ copies s.

Lemma finalizeKey_final dialect d holds key r : finalizeKey dialect d holds key = Ok r ->
  Forall (fun s => ps_finalize s = true /\ ps_rollback s = "" /\ ~ copies s) r.
Proof.
  unfold finalizeKey. intros Hr. ok_inv. repeat case_match; ok_inv; repeat constructor; by intros [?|?].
Qed.

(** The steps of a plan end with its finalize steps, which have no rollback. *)
Lemma planSteps_tail sha256 source p dialect ss : planSteps sha256 source p dialect = Ok (inl ss) -> finalTail ss.
Proof.
  unfold planSteps, writeSteps. intros Hp. apply bindR_ok in Hp as ([d|] & _ & Hp); [|done].
  apply bindR_ok in Hp as (steps & Hs & [= <-]). ok_inv.
  match goal with H : forwardSteps _ _ _ _ _ = Ok ?f |- _ => rename f into fwd; apply forwardSteps_undoable in H as Hf end.
  match goal with H : concatR _ _ = Ok ?f |- _ => rename f into fin; apply (concatR_Forall (fun s => ps_finalize s = true /\ ps_rollback s = "" /\ ~ copies s)) in H as Hl;
    [|intros; by eapply finalizeKey_final] end.
  intros i s Hi Hfs. destruct (decide (i < length fwd)%nat) as [Hlt|Hge].
  - exfalso. rewrite lookup_app_l in Hi by done. revert Hfs. unfold finalizeStart. destruct (list_find _ _) as [[j t]|] eqn:E.
    + apply list_find_Some in E as (Ej & Et & _). intros Hji. rewrite lookup_app_l in Ej by lia.
      destruct (proj1 (Forall_lookup _ _) Hf j t Ej) as [Hn _]. congruence.
    + intros Hle. rewrite length_app in Hle. lia.
  - rewrite lookup_app_r in Hi by lia. exact (proj2 (proj1 (Forall_lookup _ _) Hl _ _ Hi)).
Qed.

Section plan.
Context {W : Type} {host : Host W} (sha256 : string -> string) (dialect : DbspecDialect) (chain : list DbspecPlan).
Context (p : DbspecPlan) (ss : list DbspecPlanStep) (hist : W -> gmap string HistoryRow) (At : nat -> W -> Prop).
Context {database : PlanDatabase dialect p ss hist At}.
Context (planned : forall c : Command W, Applier.steps sha256 dialect chain p c = (inl ss, c)) (tail : finalTail ss).
(** The rows of the other plans. *)
Context (others : gmap string HistoryRow).

Notation fs := (finalizeStart ss).
Notation len := (length ss).

Definition calm (w w' : W) : Prop := hist w' = hist w /\ forall n, At n w -> At n w'.
#[local] Instance calmHost : Calm dialect calm := pd_calm.

Definition othersAs (w : W) : Prop := delete (p_name p) (hist w) = others.

(** The row of the plan, in the memory of the command too, and what holds of the world. *)
Definition InRow (st : string) (k : nat) (R : W -> Prop) (c : Command W) : Prop :=
  is_Some (cm_history c !! p_name p) /\ othersAs (cm_world c) /\
  hist (cm_world c) !! p_name p = Some (mkHistoryRow (hashOrEmpty (p_from p)) (p_to p) st (Z.of_nat k)) /\ R (cm_world c).

(** The plan has no row, and no step of it is in effect. *)
Definition Fresh (w : W) : Prop := othersAs w /\ hist w !! p_name p = None /\ At 0 w.

(** The row and the steps in effect agree up to the call that was stopped. *)
Definition Recorded (w : W) : Prop :=
  othersAs w /\ exists st k n, hist w !! p_name p = Some (mkHistoryRow (hashOrEmpty (p_from p)) (p_to p) st (Z.of_nat k)) /\
    At n w /\ standsAt fs len st k n.

Definition Consistent (w : W) : Prop := Fresh w \/ Recorded w.

Definition CalmWorld (R : W -> Prop) : Prop := forall w w', R w -> calm w w' -> R w'.

(** What only depends on the steps in effect. *)
Definition OfSteps (R : W -> Prop) : Prop := forall w w', (forall n, At n w -> At n w') -> R w -> R w'.

Lemma of_At n : OfSteps (At n).
Proof. intros w w' Ha Hn. auto. Qed.
Lemma of_or R R' : OfSteps R -> OfSteps R' -> OfSteps (fun w => R w \/ R' w).
Proof. intros H1 H2 w w' Ha [Hr|Hr]; [left|right]; eauto. Qed.
Lemma of_and X R : OfSteps R -> OfSteps (fun w => X /\ R w).
Proof. intros H1 w w' Ha [Hx Hr]. eauto. Qed.

Lemma stable_InRow st k R : OfSteps R -> Stable calm (InRow st k R).
Proof.
  intros HR c c' (Hk & Ho & Hh & Hr) [Eh Ha] Hm. split; [by rewrite Hm|]. unfold othersAs. rewrite Eh.
  split; [done|]. split; [done|]. by eapply HR.
Qed.

Lemma stable_world R : CalmWorld R -> Stable calm (fun c => R (cm_world c)).
Proof. intros HR c c' Hr Hc _. by eapply HR. Qed.

Lemma calm_Fresh : CalmWorld Fresh.
Proof. intros w w' (Ho & Hh & Ha) [Eh Hc]. unfold Fresh, othersAs. rewrite Eh. auto. Qed.

Lemma calm_Recorded : CalmWorld Recorded.
Proof.
  intros w w' (Ho & st & k & n & Hh & Ha & Hs) [Eh Hc]. unfold Recorded, othersAs. rewrite Eh. split; [done|]. exists st, k, n. auto.
Qed.

Lemma calm_Consistent : CalmWorld Consistent.
Proof. intros w w' [Hw|Hw] Hc; [left; by eapply calm_Fresh|right; by eapply calm_Recorded]. Qed.

#[local] Hint Resolve calmHost of_At of_or of_and stable_InRow stable_world calm_Fresh calm_Recorded calm_Consistent : keeps.

Lemma InRow_recorded st k R c : (forall w, R w -> exists n, At n w /\ standsAt fs len st k n) -> InRow st k R c -> Recorded (cm_world c).
Proof. intros HR (_ & Ho & Hh & Hr). destruct (HR _ Hr) as (n & Hn & Hs). split; [done|]. by exists st, k, n. Qed.

Lemma InRow_weaken st k (R R' : W -> Prop) c : (forall w, R w -> R' w) -> InRow st k R c -> InRow st k R' c.
Proof. intros HR (? & ? & ? & ?). repeat split; auto. Qed.

(** *** Writing the row *)

Lemma spec_call {A} (P : Command W -> Prop) (m : Act W A) (Q : A -> Command W -> Prop) E :
  (forall c, P c -> let c' := mkCommand (m (cm_world c)).2 (cm_history c) (cm_session c) in
     match (m (cm_world c)).1 with inl a => Q a c' | inr _ => E c' end) -> spec P (Applier.call m) Q E.
Proof. intros Hm c Hc. specialize (Hm c Hc). unfold Applier.call. by destruct (m (cm_world c)) as [[a|e] w]. Qed.

Definition planRow (st : string) (k : nat) : HistoryRow := mkHistoryRow (hashOrEmpty (p_from p)) (p_to p) st (Z.of_nat k).

(** A statement that writes the row of the plan, and only it. *)
Lemma spec_write st k st' k' R f sql args : OfSteps R -> f (planRow st k) = planRow st' k' ->
  (forall w, let r := exec sql args w in
     changed hist w r.1 r.2 (alter f (p_name p) (hist w)) /\ forall n, At n w -> At n r.2) ->
  spec (InRow st k R) (Applier.call (exec sql args)) (fun _ => InRow st' k' R) (fun c => InRow st k R c \/ InRow st' k' R c).
Proof.
  intros HR Hf Hw HRA. apply spec_call. intros c (Hk & Ho & Hh & Hr). destruct (Hw (cm_world c)) as [Hch Ha].
  destruct (exec sql args (cm_world c)) as [r w']. cbn [fst snd] in *.
  assert (Hnew : hist w' = alter f (p_name p) (hist (cm_world c)) -> InRow st' k' R (mkCommand w' (cm_history c) (cm_session c))).
  { intros E. split; [done|]. unfold othersAs. cbn [cm_world]. rewrite E, lookup_alter_eq, Hh. split; [by rewrite delete_alter_eq|].
    split; [by cbn; f_equal|]. eauto. }
  assert (Hold : hist w' = hist (cm_world c) -> InRow st k R (mkCommand w' (cm_history c) (cm_session c))).
  { intros E. split; [done|]. unfold othersAs. cbn [cm_world]. rewrite E. eauto. }
  destruct Hch as [E|[[e ->] E]]; [|by left; apply Hold]. destruct r; [by apply Hnew|right; by apply Hnew].
Qed.

Lemma record_spec st k st' k' R : OfSteps R ->
  spec (InRow st k R) (Applier.record sha256 dialect chain p st' k') (fun _ => InRow st' k' R) (fun c => InRow st k R c \/ InRow st' k' R c).
Proof.
  intros HR c Hc. pose proof Hc as [[row Hrow] _]. unfold Applier.record, mbind, Act_bind, Applier.history. rewrite Hrow.
  revert c Hc Hrow. enough (H : spec (InRow st k R) (Applier.call (exec (Applier.updateSql dialect) [JString st'; JInt (Z.of_nat k'); JString (p_name p)]))
    (fun _ => InRow st' k' R) (fun c => InRow st k R c \/ InRow st' k' R c)) by (intros c Hc _; exact (H c Hc)).
  eapply spec_write; [done| |intros w; apply pd_update]. done.
Qed.

Lemma setStep_spec st k k' R : OfSteps R ->
  spec (InRow st k R) (Applier.setStep dialect p k') (fun _ => InRow st k' R) (fun c => InRow st k R c \/ InRow st k' R c).
Proof. intros HR. eapply spec_write; [done| |intros w; apply pd_setStep]. done. Qed.

(** The insertion of the first row of a plan. *)
Lemma insert_spec steps at_ :
  spec (fun c => Fresh (cm_world c)) (Applier.call (exec (Applier.insertSql dialect) (Applier.recordArgs p APPLYING 0 steps at_));;
      h ← Applier.history; Applier.setHistory (<[p_name p := planRow APPLYING 0]> h))
    (fun _ => InRow APPLYING 0 (At 0)) (fun c => Consistent (cm_world c)).
Proof.
  intros c (Ho & Hn & Ha). unfold mbind, Act_bind, Applier.call. destruct (pd_insert APPLYING 0 steps at_ (cm_world c)) as [Hch Hkeep].
  destruct (exec _ _ (cm_world c)) as [r w']. cbn [fst snd] in *. apply Hkeep in Ha.
  assert (Hnew : hist w' = <[p_name p := planRow APPLYING 0]> (hist (cm_world c)) -> othersAs w' /\ hist w' !! p_name p = Some (planRow APPLYING 0)).
  { intros E. unfold othersAs. rewrite E, delete_insert_eq, lookup_insert_eq. done. }
  destruct Hch as [E|[[e ->] E]].
  - destruct (Hnew E) as [Ho' Hh]. destruct r as [[]|e].
    + unfold Applier.history, Applier.setHistory. split; [eexists; apply lookup_insert_eq|done].
    + right. split; [done|]. exists APPLYING, 0%nat, 0%nat. split; [done|]. split; [done|]. left. pose proof (finalizeStart_length ss). auto with lia.
  - left. unfold Fresh, othersAs. cbn [cm_world]. rewrite E. done.
Qed.

Lemma record_new : spec (fun c => Fresh (cm_world c) /\ cm_history c !! p_name p = None) (Applier.record sha256 dialect chain p APPLYING 0)
  (fun _ => InRow APPLYING 0 (At 0)) (fun c => Consistent (cm_world c)).
Proof.
  intros c [Hf Hn]. unfold Applier.record, mbind, Act_bind, Applier.history. rewrite Hn, planned.
  unfold Applier.call at 1. pose proof (calm_now (dialect := dialect) (cm_world c)) as Hc. destruct (now (cm_world c)) as [[micros|e] w]; cbn [fst snd] in Hc.
  2:{ left. by eapply calm_Fresh. }
  destruct (appliedAt micros) as [at_|e]; [|left; by eapply calm_Fresh].
  pose proof (insert_spec (length ss) at_ (mkCommand w (cm_history c) (cm_session c)) (calm_Fresh _ _ Hf Hc)) as H.
  unfold mbind, Act_bind, Applier.history in H. unfold Applier.call in *. cbn [cm_world cm_history cm_session] in *.
  by destruct (exec _ _ w) as [[[]|e] w'].
Qed.

(** *** Running a statement *)

Definition ready (i : nat) (w : W) : Prop := At i w \/ exists s, ss !! i = Some s /\ repeats s /\ At (S i) w.
(** Before the rollback of step [i]. *)
Definition undoing (i : nat) (w : W) : Prop := At (S i) w \/ exists s, ss !! i = Some s /\ repeats s /\ At i w.
Definition midway (i : nat) (w : W) : Prop := At i w \/ At (S i) w.

Lemma of_ready i : OfSteps (ready i).
Proof. intros w w' Ha [Hr|(s & Hs & Hr & Hn)]; [left|right]; eauto. Qed.
Lemma of_undoing i : OfSteps (undoing i).
Proof. intros w w' Ha [Hr|(s & Hs & Hr & Hn)]; [left|right]; eauto. Qed.
Lemma of_midway i : OfSteps (midway i).
Proof. apply of_or; apply of_At. Qed.
Lemma ready_midway i w : ready i w -> midway i w.
Proof. intros [H|(s & _ & _ & H)]; [by left|by right]. Qed.
Lemma undoing_midway i w : undoing i w -> midway i w.
Proof. intros [H|(s & _ & _ & H)]; [by right|by left]. Qed.
#[local] Hint Resolve of_ready of_undoing of_midway : keeps.

(** A statement of the plan that takes [R] to [R'], or stops between. *)
Definition Moves (sql : string) (R R' M : W -> Prop) : Prop :=
  forall w, R w -> let r := exec sql [] w in hist r.2 = hist w /\ M r.2 /\ (r.1 = inl tt -> R' r.2).

Lemma run_spec st k i sql (R R' M : W -> Prop) : OfSteps R -> OfSteps R' -> OfSteps M -> Moves sql R R' M ->
  (forall w, R w -> M w) -> (forall w, R' w -> M w) ->
  spec (InRow st k R) (Applier.run dialect p ss i sql) (fun _ => InRow st k R') (InRow st k M).
Proof.
  intros HR HR' HM Hmove HRM HRM'. unfold Applier.run.
  assert (Hweak : forall c, InRow st k R c -> InRow st k M c) by (intros c; by apply InRow_weaken).
  apply spec_after; [keep|exact Hweak|intros _]. apply spec_after; [keep|exact Hweak|intros _].
  apply (spec_bind _ _ _ (fun _ => InRow st k R')).
  - apply spec_rethrow, spec_call. intros c (Hk & Ho & Hh & Hr). destruct (Hmove _ Hr) as (Eh & Hm & Hs).
    destruct (exec sql [] (cm_world c)) as [[[]|e] w']; cbn [fst snd] in *; (split; [done|]; unfold othersAs; cbn [cm_world]; rewrite Eh; split_and!; auto).
  - intros []. eapply spec_conseq; [apply (keeps_emit dialect calm (InRow st k R')); eauto with keeps|done..|]. intros c. by apply InRow_weaken.
Qed.

Lemma moves_up i s sql : ss !! i = Some s -> sql = ps_statement s \/ sql = ps_restore s /\ sql <> "" -> Moves sql (ready i) (At (S i)) (midway i).
Proof.
  intros Hs Hsql w Hw. assert (Hw' : At i w \/ repeats s /\ At (S i) w) by (destruct Hw as [?|(s' & Hs' & ? & ?)]; [by left|right; by replace s with s' by congruence]).
  destruct (pd_up i s sql w Hs Hsql Hw') as [Eh Hr]. destruct (exec sql [] w) as [r w']; cbn [fst snd] in *. split; [done|].
  unfold midway. split; [tauto|]. intros ->. destruct Hr as [?|[[e ?] _]]; done.
Qed.

Lemma moves_down i s sql : ss !! i = Some s -> (sql = ps_rollback s \/ sql = ps_rollbackRestore s) /\ sql <> "" -> Moves sql (undoing i) (At i) (midway i).
Proof.
  intros Hs Hsql w Hw. assert (Hw' : At (S i) w \/ repeats s /\ At i w) by (destruct Hw as [?|(s' & Hs' & ? & ?)]; [by left|right; by replace s with s' by congruence]).
  destruct (pd_down i s sql w Hs Hsql Hw') as [Eh Hr]. destruct (exec sql [] w) as [r w']; cbn [fst snd] in *. split; [done|].
  unfold midway. split; [tauto|]. intros ->. destruct Hr as [?|[[e ?] _]]; done.
Qed.

Lemma InRow_midway st k i c : standsAt fs len st k i -> standsAt fs len st k (S i) -> InRow st k (midway i) c -> Recorded (cm_world c).
Proof. intros H1 H2. apply InRow_recorded. intros w [Hw|Hw]; eauto. Qed.
Lemma InRow_At st k n c : standsAt fs len st k n -> InRow st k (At n) c -> Recorded (cm_world c).
Proof. intros H1. apply InRow_recorded. intros w Hw; eauto. Qed.

(** A statement forward and its record.  The row may be one behind: a row of
    step [k] stands for [i] steps and for one more. *)
Lemma up_spec st i s sql : standsAt fs len st i i -> standsAt fs len st i (S i) -> standsAt fs len st (S i) (S i) ->
  ss !! i = Some s -> sql = ps_statement s \/ sql = ps_restore s /\ sql <> "" ->
  spec (InRow st i (ready i)) (Applier.run dialect p ss i sql;; Applier.setStep dialect p (S i)) (fun _ => InRow st (S i) (At (S i)))
    (fun c => Recorded (cm_world c)).
Proof.
  intros H1 H2 H3 Hs Hsql. apply (spec_bind _ _ _ (fun _ => InRow st i (At (S i)))).
  - eapply spec_conseq; [eapply run_spec; [..|by eapply moves_up|apply ready_midway|intros w Hw; by right]; eauto with keeps|done|done|].
    intros c. by apply InRow_midway.
  - intros []. eapply spec_conseq; [apply (setStep_spec st i (S i) (At (S i))); eauto with keeps|done|done|]. intros c [Hc|Hc]; (eapply InRow_At; [|exact Hc]; done).
Qed.

Lemma down_spec i s sql : (S i <= fs)%nat -> ss !! i = Some s -> (sql = ps_rollback s \/ sql = ps_rollbackRestore s) /\ sql <> "" ->
  spec (InRow ROLLING_BACK (S i) (undoing i)) (Applier.run dialect p ss i sql;; Applier.setStep dialect p i) (fun _ => InRow ROLLING_BACK i (At i))
    (fun c => Recorded (cm_world c)).
Proof.
  intros Hi Hs Hsql.
  assert (Hst : forall k, (k = i \/ k = S i) -> standsAt fs len ROLLING_BACK k i) by (intros; do 4 right; split; [done|lia]).
  assert (Hst' : standsAt fs len ROLLING_BACK (S i) (S i)) by (do 4 right; split; [done|lia]).
  apply (spec_bind _ _ _ (fun _ => InRow ROLLING_BACK (S i) (At i))).
  - eapply spec_conseq; [eapply run_spec; [..|by eapply moves_down|apply undoing_midway|intros w Hw; by left]; eauto with keeps|done|done|].
    intros c. apply InRow_midway; auto.
  - intros []. eapply spec_conseq; [apply (setStep_spec ROLLING_BACK (S i) i (At i)); eauto with keeps|done|done|]. intros c [Hc|Hc]; (eapply InRow_At; [|exact Hc]; auto).
Qed.

(** *** The loops *)

(** The statement that a step runs: its own, or its restore when its effect is read. *)
Lemma chosen_value i e (a b : string) (c : Command W) sql c' :
  (if decide (b = "") then mret a else restores ← Applier.effect dialect p i e; mret (if restores : bool then b else a)) c = (inl sql, c') ->
  sql = a \/ sql = b /\ b <> "".
Proof.
  destruct (decide (b = "")); [intros ?%ret_value; by left|]. intros (restores & c1 & _ & ->%ret_value)%bind_value. destruct restores; tauto.
Qed.

Lemma forwardStep_spec i : (S i <= fs)%nat ->
  spec (InRow APPLYING i (ready i)) (Applier.forwardStep dialect p ss i) (fun _ => InRow APPLYING (S i) (At (S i))) (fun c => Recorded (cm_world c)).
Proof.
  intros Hi. assert (HE : forall c, InRow APPLYING i (ready i) c -> Recorded (cm_world c)).
  { intros c Hc. apply (InRow_midway APPLYING i i); [left; split; [done|lia]..|]. eapply InRow_weaken; [apply ready_midway|exact Hc]. }
  unfold Applier.forwardStep. apply (spec_value _ _ (fun s => ss !! i = Some s)); [unfold the; keep|exact HE|intros ? ? ?; apply the_value|intros s Hs].
  eapply (spec_value _ _ (fun sql => sql = ps_statement s \/ sql = ps_restore s /\ ps_restore s <> "")); [keep|exact HE|intros ? ? ?; apply chosen_value|].
  intros sql Hsql. eapply up_spec; [left; split; [done|lia]..|exact Hs|]. destruct Hsql as [?|[-> ?]]; [by left|by right].
Qed.

Lemma finalizeStep_spec i : (fs <= i)%nat -> (S i <= len)%nat ->
  spec (InRow FINALIZING i (ready i)) (Applier.finalizeStep dialect p ss i) (fun _ => InRow FINALIZING (S i) (At (S i))) (fun c => Recorded (cm_world c)).
Proof.
  intros Hfs Hi. assert (HE : forall c, InRow FINALIZING i (ready i) c -> Recorded (cm_world c)).
  { intros c Hc. apply (InRow_midway FINALIZING i i); [do 2 right; left; split; [done|lia]..|]. eapply InRow_weaken; [apply ready_midway|exact Hc]. }
  unfold Applier.finalizeStep. apply (spec_value _ _ (fun s => ss !! i = Some s)); [unfold the; keep|exact HE|intros ? ? ?; apply the_value|intros s Hs].
  eapply up_spec; [do 2 right; left; split; [done|lia]..|exact Hs|by left].
Qed.

Lemma rollbackStep_spec i : (S i <= fs)%nat ->
  spec (InRow ROLLING_BACK (S i) (undoing i)) (Applier.rollbackStep dialect p ss i) (fun _ => InRow ROLLING_BACK i (At i)) (fun c => Recorded (cm_world c)).
Proof.
  intros Hi. assert (HE : forall c, InRow ROLLING_BACK (S i) (undoing i) c -> Recorded (cm_world c)).
  { intros c Hc. apply (InRow_midway ROLLING_BACK (S i) i); [do 4 right; split; [done|lia]..|]. eapply InRow_weaken; [apply undoing_midway|exact Hc]. }
  unfold Applier.rollbackStep. apply (spec_value _ _ (fun s => ss !! i = Some s)); [unfold the; keep|exact HE|intros ? ? ?; apply the_value|intros s Hs].
  apply (spec_value _ _ (fun _ => ps_rollback s <> "")); [unfold Applier.irreversible, the; keep|exact HE| |intros _ Hr].
  { intros c u c'. destruct (decide (ps_rollback s = "")); [|done]. by intros (? & ? & _ & ?)%bind_value. }
  eapply (spec_value _ _ (fun sql => sql = ps_rollback s \/ sql = ps_rollbackRestore s /\ ps_rollbackRestore s <> "")); [keep|exact HE|intros ? ? ?; apply chosen_value|].
  intros sql Hsql. eapply down_spec; [done|exact Hs|]. destruct Hsql as [->|[-> ?]]; tauto.
Qed.

(** Before step [i] of a loop up to [stop]. *)
Definition upto (stop i : nat) (w : W) : Prop := At i w \/ (i < stop)%nat /\ ready i w.

Lemma of_upto stop i : OfSteps (upto stop i).
Proof. apply of_or; [apply of_At|apply of_and, of_ready]. Qed.
Lemma upto_ready stop i w : upto stop i w -> ready i w.
Proof. intros [?|[_ ?]]; [by left|done]. Qed.
Lemma upto_stop stop w : upto stop stop w -> At stop w.
Proof. intros [?|[? _]]; [done|lia]. Qed.

(** Before the rollback of the [k] steps in effect, or of one less. *)
Definition downfrom (k : nat) (w : W) : Prop := match k with O => At 0 w | S i => undoing i w end.

Lemma of_downfrom k : OfSteps (downfrom k).
Proof. destruct k; [apply of_At|apply of_undoing]. Qed.
Lemma At_downfrom k w : At k w -> downfrom k w.
Proof. destruct k; [done|by left]. Qed.
#[local] Hint Resolve of_upto of_downfrom : keeps.

(** A loop that counts up, and one that counts down: each turn leaves the row
    at the number of steps in effect. *)
Lemma count_up st (f : nat -> Act (Command W) unit) first stop (E : Command W -> Prop) :
  (forall i, (first <= i < stop)%nat -> spec (InRow st i (ready i)) (f i) (fun _ => InRow st (S i) (At (S i))) E) ->
  (first <= stop)%nat ->
  spec (InRow st first (upto stop first)) (each f (seq first (stop - first))) (fun _ => InRow st stop (At stop)) E.
Proof.
  intros Hf Hle. remember (stop - first)%nat as n eqn:En. revert first Hf Hle En. induction n as [|n IH]; intros first Hf Hle En; cbn [seq each].
  - replace first with stop by lia. apply spec_ret. intros c. apply InRow_weaken, upto_stop.
  - eapply spec_bind.
    + eapply spec_conseq; [apply Hf; lia| |done|done]. intros c. apply InRow_weaken, upto_ready.
    + intros []. eapply spec_conseq; [apply (IH (S first)); [intros; apply Hf; lia|lia..]| |done|done]. intros c. apply InRow_weaken. by left.
Qed.

Lemma count_down (f : nat -> Act (Command W) unit) k :
  (forall i, (i < k)%nat -> spec (InRow ROLLING_BACK (S i) (undoing i)) (f i) (fun _ => InRow ROLLING_BACK i (At i)) (fun c => Recorded (cm_world c))) ->
  spec (InRow ROLLING_BACK k (downfrom k)) (each f (reverse (seq 0 k))) (fun _ => InRow ROLLING_BACK 0 (At 0)) (fun c => Recorded (cm_world c)).
Proof.
  induction k as [|k IH]; intros Hf; [by apply spec_ret|]. rewrite seq_S, reverse_app. cbn [app each reverse rev_append].
  change (reverse [(0 + k)%nat] ++ reverse (seq 0 k)) with (k :: reverse (seq 0 k)). cbn [each].
  eapply spec_bind; [apply Hf; lia|]. intros []. eapply spec_conseq; [apply IH; intros; apply Hf; lia| |done|done].
  intros c. apply InRow_weaken, At_downfrom.
Qed.

(** *** Whole plans *)

(** The end of a plan: checks that keep the row, a last record, and an event. *)
Lemma settle_spec st k st' k' n statement steps (E : Command W -> Prop) :
  (forall c, InRow st k (At n) c -> E c) -> (forall c, InRow st' k' (At n) c -> E c) ->
  spec (InRow st k (At n)) (Applier.record sha256 dialect chain p st' k';; Applier.emit "done" (p_name p) 0 steps statement)
    (fun _ => InRow st' k' (At n)) E.
Proof.
  intros H1 H2. apply (spec_then _ _ _ (InRow st' k' (At n))).
  - eapply spec_conseq; [apply (record_spec st k st' k' (At n)); eauto with keeps|done|done|]. intros c [Hc|Hc]; auto.
  - intros []. apply (keeps_emit dialect calm _ (stable_InRow _ _ _ (of_At n))).
  - done.
Qed.

Lemma stands_applying k n : (n = k \/ n = S k) -> (n <= fs)%nat -> standsAt fs len APPLYING k n.
Proof. left. auto. Qed.
Lemma stands_applied : standsAt fs len APPLIED fs fs.
Proof. right; left. auto. Qed.
Lemma stands_finalizing k n : (n = k \/ n = S k) -> (fs <= k)%nat -> (n <= len)%nat -> standsAt fs len FINALIZING k n.
Proof. do 2 right; left. auto. Qed.
Lemma stands_done : standsAt fs len DONE len len.
Proof. do 3 right; left. auto. Qed.
Lemma stands_rolling k n : (n = k \/ S n = k) -> (k <= fs)%nat -> standsAt fs len ROLLING_BACK k n.
Proof. do 4 right. auto. Qed.

Lemma forward_spec start : (start <= fs)%nat ->
  spec (InRow APPLYING start (upto fs start)) (Applier.forward sha256 dialect chain p ss start) (fun _ => InRow APPLIED fs (At fs)) (fun c => Recorded (cm_world c)).
Proof.
  intros Hs. unfold Applier.forward. assert (HE : forall c, InRow APPLYING fs (At fs) c -> Recorded (cm_world c)).
  { intros c. apply InRow_At, stands_applying; auto. }
  eapply spec_bind; [apply (count_up APPLYING _ start fs); [intros i Hi; apply forwardStep_spec; lia|done]|]. intros [].
  do 3 (apply spec_after; [keep|exact HE|intros _]).
  apply settle_spec; [exact HE|intros c; apply InRow_At, stands_applied].
Qed.

Lemma finalizeFrom_spec start : (fs <= start)%nat -> (start <= len)%nat ->
  spec (InRow FINALIZING start (upto len start)) (Applier.finalizeFrom sha256 dialect chain p ss start) (fun _ => InRow DONE len (At len)) (fun c => Recorded (cm_world c)).
Proof.
  intros Hs Hl. unfold Applier.finalizeFrom.
  eapply spec_bind; [apply (count_up FINALIZING _ start len); [intros i Hi; apply finalizeStep_spec; lia|done]|]. intros [].
  apply settle_spec; intros c; apply InRow_At; [apply stands_finalizing; auto; lia|apply stands_done].
Qed.

(** *** Resolving an interrupted row *)

(** The answer of an effect is the side of its step on which the plan stands. *)
Lemma effect_value i s n (c : Command W) b c' : ss !! i = Some s -> ~ repeats s -> n = i \/ n = S i -> At n (cm_world c) ->
  Applier.effect dialect p i (Some (ps_effect s)) c = (inl b, c') ->
  At (if b then S i else i) (cm_world c) /\ (~ copies s -> At i (cm_world c) -> b = false).
Proof.
  intros Hs Hr Hn Ha. unfold Applier.effect, rethrow, Applier.effectHolds. destruct (Applier.effectQuery dialect (ps_effect s)) as [[query args]|] eqn:Eq; [|done].
  unfold Applier.queryValue, Applier.queryRow, Applier.call, mbind, Act_bind. destruct (rows query args (cm_world c)) as [[[|row more]|e] w] eqn:Er; [done| |done].
  unfold mret, Act_ret, integer. destruct (safeInteger (cell row 0)) as [m|] eqn:Em; [|done]. intros [= <- _].
  destruct (pd_effect i s query args (cm_world c) row more w m Hs Hr Eq Er Em) as [H Hc]. split; [|done]. apply H. destruct Hn as [->| ->]; auto.
Qed.

Definition repeatsAt (i : nat) : Prop := exists s, ss !! i = Some s /\ repeats s.

(** What [resolve] finds when [n] steps are in effect. *)
Definition Resolved (forward : bool) (n k' : nat) : Prop :=
  n = k' \/ if forward then n = S k' /\ repeatsAt k' else S n = k' /\ repeatsAt n.

(** The interrupted states with the steps that may be in effect. *)
Definition pending (st : string) (k n : nat) : Prop := standsAt fs len st k n /\ Applier.settledState st = false.

Lemma pending_cases st k n : pending st k n ->
  (st <> ROLLING_BACK /\ (n = k \/ n = S k) /\ (n <= len)%nat /\ (k <= len)%nat) \/ (st = ROLLING_BACK /\ (n = k \/ S n = k) /\ (k <= len)%nat).
Proof.
  intros [H Hs]. pose proof (finalizeStart_length ss) as Hl. destruct H as [(-> & ? & ?)|[(-> & _)|[(-> & ? & ? & ?)|[(-> & _)|(-> & ? & ?)]]]]; try discriminate Hs.
  - left. split; [done|]. lia.
  - left. split; [done|]. lia.
  - right. split; [done|]. lia.
Qed.

(** The step whose effect tells a row of [st] and [k] apart, and what is told:
    a number of steps at which the plan stands. *)
Lemma uncertain_value i s n (forward : bool) (c : Command W) b c' : ss !! i = Some s -> n = i \/ n = S i -> At n (cm_world c) ->
  (if decide (ef_kind (ps_effect s) = "repeat") then mret false else Applier.effect dialect p i (Some (ps_effect s))) c = (inl b, c') ->
  let took := b || (negb forward && bool_decide (ef_kind (ps_effect s) = "repeat")) in
  exists n', (n' = i \/ n' = S i) /\ At n' (cm_world c) /\ (~ copies s -> n = i -> n' = i) /\ Resolved forward n' (if took then S i else i).
Proof.
  intros Hs Hn Ha. destruct (decide (ef_kind (ps_effect s) = "repeat")) as [Hr|Hr].
  - intros ->%ret_value. exists n. split; [done|]. split; [done|]. split; [done|]. rewrite bool_decide_eq_true_2 by done. unfold Resolved.
    destruct forward; cbn; destruct Hn as [->| ->]; auto; right; split; auto; by exists s.
  - intros Hb. apply (effect_value i s n) in Hb as [Hat Hc]; [|done..]. exists (if b then S i else i). split; [destruct b; auto|]. split; [done|].
    split; [intros Hnc ->; by rewrite Hc|]. rewrite (bool_decide_eq_false_2 (_ = "repeat")) by done. rewrite andb_false_r, orb_false_r. by left.
Qed.

(** What a row allows beside [n] steps: those that the effect may tell. *)
Lemma pending_other st k n n' : pending st k n ->
  let i := if bool_decide (st = ROLLING_BACK) then (k - 1)%nat else k in
  (i < len)%nat -> n' = i \/ n' = S i -> (i = fs -> n = i -> n' = i) -> (st = ROLLING_BACK -> (0 < k)%nat) -> pending st k n'.
Proof.
  intros [H Hs]. cbv zeta. intros Hi Hn Hf Hk. split; [|done]. destruct H as [(-> & ? & ?)|[(-> & _)|[(-> & ? & ? & ?)|[(-> & _)|(-> & ? & ?)]]]]; try discriminate Hs.
  - rewrite bool_decide_eq_false_2 in * by done. left. split; [done|]. split; [done|]. destruct (decide (k = fs)) as [E|]; [|lia]. rewrite Hf; lia.
  - rewrite bool_decide_eq_false_2 in * by done. do 2 right; left. split; [done|]. split; [done|]. lia.
  - rewrite bool_decide_eq_true_2 in * by done. specialize (Hk eq_refl). do 4 right. split; [done|]. lia.
Qed.

Lemma resolve_spec st k n (forward : bool) (E : Command W -> Prop) : pending st k n -> (forall c, InRow st k (At n) c -> E c) ->
  spec (InRow st k (At n)) (Applier.resolve dialect p (planRow st k) ss forward)
    (fun k' c => exists n', pending st k n' /\ Resolved forward n' k' /\ InRow st k (At n') c) E.
Proof.
  intros Hp HE.
  pose proof (pending_cases st k n Hp) as Hc. unfold Applier.resolve. cbn [hr_step hr_state planRow].
  assert (Hlen : (Z.of_nat k <? 0) || (Z.of_nat len <? Z.of_nat k) = false) by (apply orb_false_iff; rewrite !Z.ltb_ge; lia). rewrite Hlen.
  set (i := if bool_decide (st = ROLLING_BACK) then Z.of_nat k - 1 else Z.of_nat k). destruct ((i <? 0) || (Z.of_nat len <=? i)) eqn:Ei.
  { apply spec_ret. intros c Hin. exists n. split; [done|]. split; [|done]. left. rewrite Nat2Z.id. apply orb_true_iff in Ei. rewrite Z.ltb_lt, Z.leb_le in Ei. subst i. destruct Hc as [(? & ? & ?)|(? & ? & ?)]; case_bool_decide; try done; lia. }
  apply orb_false_iff in Ei as [E0%Z.ltb_ge E1%Z.leb_gt].
  assert (Hi : Z.to_nat i = if bool_decide (st = ROLLING_BACK) then (k - 1)%nat else k) by (subst i; case_bool_decide; lia).
  assert (Hroll : st = ROLLING_BACK -> (0 < k)%nat) by (intros Hst; subst i; rewrite bool_decide_eq_true_2 in E0 by done; lia).
  assert (Hn : n = Z.to_nat i \/ n = S (Z.to_nat i)) by (rewrite Hi; destruct Hc as [(? & ? & ?)|(Hst & ? & ?)]; [rewrite bool_decide_eq_false_2 by done|rewrite bool_decide_eq_true_2 by done; specialize (Hroll Hst)]; lia).
  apply (spec_value _ _ (fun s => ss !! Z.to_nat i = Some s)); [unfold the; keep|exact HE|intros ? ? ?; apply the_value|intros s Hs].
  intros c Hin. unfold mbind, Act_bind. pose proof Hin as (Hm & Ho & Hh & Ha).
  assert (Hk : forall m, keeps (InRow st k (At m)) (if decide (ef_kind (ps_effect s) = "repeat") then mret false else Applier.effect dialect p (Z.to_nat i) (Some (ps_effect s)))) by (intros m; keep).
  pose proof (uncertain_value (Z.to_nat i) s n forward c) as Hv. pose proof (Hk n c Hin) as Hkn.
  match type of Hkn with match ?x with _ => _ end => destruct x as [[b|e] c'] eqn:Er end; [|by apply HE].
  destruct (Hv b c' Hs Hn Ha eq_refl) as (n' & Hn' & Ha' & Hco & Hres). clear Hv. exists n'.
  split. { apply (pending_other st k n n' Hp); rewrite <- ?Hi; [lia|done| |done]. intros Hfs. apply Hco, (tail (Z.to_nat i) s Hs). lia. }
  split; [|specialize (Hk n' c); rewrite Er in Hk; by apply Hk].
  rewrite Hi in Hres. revert Hres Hroll. case_bool_decide; cbn [negb]; (destruct (b || _)); rewrite ?Nat2Z.id; try done; intros Hres Hroll.
  by replace k with (S (k - 1)) at 1 by (specialize (Hroll ltac:(done)); lia).
Qed.

(** *** The bodies of the commands *)

Lemma Recorded_consistent (c : Command W) : Recorded (cm_world c) -> Consistent (cm_world c).
Proof. by right. Qed.

Lemma steps_value (c : Command W) steps c' : Applier.steps sha256 dialect chain p c = (inl steps, c') -> steps = ss.
Proof. rewrite planned. congruence. Qed.

(** A plan that has no row and no step in effect. *)
Definition NewPlan (c : Command W) : Prop := Fresh (cm_world c) /\ cm_history c !! p_name p = None.

Lemma stable_NewPlan : Stable calm NewPlan.
Proof. intros c c' [Hf Hn] Hc Hm. split; [by eapply calm_Fresh|by rewrite Hm]. Qed.
#[local] Hint Resolve stable_NewPlan : keeps.

Lemma applyPlan_spec : spec NewPlan (Applier.applyPlan sha256 dialect chain p) (fun _ => InRow APPLIED fs (At fs)) (fun c => Consistent (cm_world c)).
Proof.
  assert (HE : forall c, NewPlan c -> Consistent (cm_world c)) by (intros c [Hf _]; by left).
  unfold Applier.applyPlan. eapply spec_value; [keep|exact HE|intros ? ? ?; apply steps_value|intros ? ->].
  apply spec_after; [keep|exact HE|intros _]. apply spec_after; [unfold Applier.irreversibleEvent, the; keep|exact HE|intros _].
  eapply spec_bind; [exact record_new|]. intros []. eapply spec_conseq; [apply forward_spec; lia| |done|apply Recorded_consistent].
  intros c. apply InRow_weaken. by left.
Qed.

(** The record of an interrupted row in the state of a command. *)
Lemma resume_spec st k n st' k' (R : W -> Prop) : standsAt fs len st k n -> standsAt fs len st' k' n -> (forall w, At n w -> R w) ->
  spec (InRow st k (At n)) (Applier.record sha256 dialect chain p st' k') (fun _ => InRow st' k' R) (fun c => Recorded (cm_world c)).
Proof.
  intros H1 H2 HR. eapply spec_conseq; [apply (record_spec st k st' k' (At n)); eauto with keeps|done| |].
  - intros [] c. by apply (InRow_weaken st' k' (At n)).
  - intros c [Hc|Hc]; (eapply InRow_At; [|exact Hc]; done).
Qed.

Lemma resolved_upto n k' w : Resolved true n k' -> (n <= fs)%nat -> At n w -> upto fs k' w.
Proof. intros [->|[-> Hr]] Hn Ha; [by left|]. right. split; [lia|]. right. destruct Hr as (s & Hs & Hr). eauto. Qed.

Lemma resolved_downfrom n k' w : Resolved false n k' -> At n w -> downfrom k' w.
Proof. intros [->|[<- (s & Hs & Hr)]] Ha; [by apply At_downfrom|]. right. eauto. Qed.

Lemma recoverPlan_spec st k n : pending st k n -> st <> FINALIZING ->
  spec (InRow st k (At n)) (Applier.recoverPlan sha256 dialect chain p (planRow st k)) (fun _ => InRow APPLIED fs (At fs)) (fun c => Recorded (cm_world c)).
Proof.
  intros Hp Hf. assert (HE : forall n', pending st k n' -> forall c, InRow st k (At n') c -> Recorded (cm_world c)) by (intros n' Hp' c; apply InRow_At, Hp').
  unfold Applier.recoverPlan. cbn [hr_state planRow]. rewrite (proj2 Hp). eapply spec_value; [keep|by apply HE|intros ? ? ?; apply steps_value|intros ? ->].
  eapply spec_bind; [by apply (resolve_spec st k n true _ Hp), HE|]. intros k'. apply spec_exists. intros m. apply spec_pure. intros Hm. apply spec_pure. intros Hr. rewrite decide_False by done.
  assert (Hn : (m <= fs)%nat).
  { destruct Hm as [H Hs]. destruct H as [(-> & ? & ?)|[(-> & _)|[(-> & _)|[(-> & _)|(-> & ? & ?)]]]]; try done; lia. }
  assert (Hk : (m = k' \/ m = S k') /\ (k' <= fs)%nat) by (destruct Hr as [->|[-> _]]; lia).
  apply spec_after; [keep|by apply HE|intros _].
  eapply spec_bind; [apply (resume_spec st k m APPLYING k' (upto fs k')); [apply Hm|apply stands_applying; tauto|intros w; by apply resolved_upto]|].
  intros []. apply forward_spec, Hk.
Qed.

(** A command whose memory holds [row] for the plan. *)
Lemma history_value (c : Command W) h c' : Applier.history c = (inl h, c') -> h = cm_history c /\ c' = c.
Proof. by intros [= -> ->]. Qed.

Lemma finalizePlan_spec : spec (fun c => InRow APPLIED fs (At fs) c /\ cm_history c !! p_name p = Some (planRow APPLIED fs))
  (Applier.finalizePlan sha256 dialect chain p) (fun _ => InRow DONE len (At len)) (fun c => Recorded (cm_world c)).
Proof.
  assert (HE : forall c, InRow APPLIED fs (At fs) c -> Recorded (cm_world c)) by (intros c; apply InRow_At, stands_applied).
  unfold Applier.finalizePlan. apply (spec_bind _ _ _ (fun h c => h !! p_name p = Some (planRow APPLIED fs) /\ InRow APPLIED fs (At fs) c)).
  { by intros c [Hc Hm]. }
  intros h. apply spec_pure. intros Hm. rewrite Hm. apply (spec_value _ _ (fun row => row = planRow APPLIED fs)); [unfold the; keep|exact HE| |intros ? ->].
  { intros c row c' ?%the_value. congruence. }
  cbn [hr_state planRow]. rewrite decide_True by done.
  eapply spec_value; [keep|exact HE|intros ? ? ?; apply steps_value|intros ? ->].
  apply spec_after; [keep|exact HE|intros _]. pose proof (finalizeStart_length ss) as Hl.
  eapply spec_bind; [apply (resume_spec APPLIED fs fs FINALIZING fs (upto len fs)); [apply stands_applied|apply stands_finalizing; auto|by left]|].
  intros []. apply finalizeFrom_spec; lia.
Qed.

(** *** Recovering an interrupted finalize *)

(** A finalize may have run several steps past the one its row records. *)
Definition Behind (w : W) : Prop :=
  othersAs w /\ exists k n, hist w !! p_name p = Some (planRow FINALIZING k) /\ At n w /\ (fs <= k <= n)%nat /\ (n <= len)%nat.

Definition Done (w : W) : Prop := othersAs w /\ hist w !! p_name p = Some (planRow DONE len) /\ At len w.

Lemma InRow_behind k n c : (fs <= k <= n)%nat -> (n <= len)%nat -> InRow FINALIZING k (At n) c -> Behind (cm_world c).
Proof. intros Hn Hl (_ & Ho & Hh & Ha). split; [done|]. by exists k, n. Qed.

Lemma InRow_done c : InRow DONE len (At len) c -> Done (cm_world c).
Proof. intros (_ & Ho & Hh & Ha). done. Qed.

(** The first step of a recovered finalize: the row still records step [k]. *)
Lemma finalizeStep_behind k i : (fs <= k <= i)%nat -> (S i <= len)%nat ->
  spec (InRow FINALIZING k (ready i)) (Applier.finalizeStep dialect p ss i) (fun _ => InRow FINALIZING (S i) (At (S i))) (fun c => Behind (cm_world c)).
Proof.
  intros Hk Hi. assert (HM : forall c, InRow FINALIZING k (midway i) c -> Behind (cm_world c)).
  { intros c (Hm & Ho & Hh & [Ha|Ha]); (eapply (InRow_behind k); [..|split; [exact Hm|]; split; [done|]; split; [done|exact Ha]]); lia. }
  assert (HE : forall c, InRow FINALIZING k (ready i) c -> Behind (cm_world c)) by (intros c Hc; eapply HM, InRow_weaken; [apply ready_midway|exact Hc]).
  unfold Applier.finalizeStep. apply (spec_value _ _ (fun s => ss !! i = Some s)); [unfold the; keep|exact HE|intros ? ? ?; apply the_value|intros s Hs].
  apply (spec_bind _ _ _ (fun _ => InRow FINALIZING k (At (S i)))).
  - eapply spec_conseq; [eapply (run_spec FINALIZING k i _ (ready i) (At (S i)) (midway i)); [..|eapply moves_up; [exact Hs|by left]|apply ready_midway|intros w Hw; by right]; eauto with keeps|done|done|exact HM].
  - intros []. eapply spec_conseq; [apply (setStep_spec FINALIZING k (S i) (At (S i))); eauto with keeps|done|done|].
    intros c [Hc|Hc]; (eapply InRow_behind; [..|exact Hc]; lia).
Qed.

Lemma finalizeFrom_behind k start : (fs <= k <= start)%nat -> (start <= len)%nat ->
  spec (InRow FINALIZING k (upto len start)) (Applier.finalizeFrom sha256 dialect chain p ss start) (fun _ => InRow DONE len (At len))
    (fun c => Behind (cm_world c) \/ Done (cm_world c)).
Proof.
  intros Hk Hs. unfold Applier.finalizeFrom.
  assert (Hend : forall k', (fs <= k' <= len)%nat -> spec (InRow FINALIZING k' (At len))
    (Applier.record sha256 dialect chain p DONE len;; Applier.emit "done" (p_name p) 0 len "") (fun _ => InRow DONE len (At len)) (fun c => Behind (cm_world c) \/ Done (cm_world c))).
  { intros k' Hk'. apply settle_spec; intros c Hc; [left; by eapply InRow_behind|right; by apply InRow_done]. }
  destruct (decide (start = len)) as [->|Hne].
  - rewrite Nat.sub_diag. cbn [seq each]. apply spec_after; [apply keeps_ret| |intros _].
    + intros c Hc. left. eapply InRow_behind; [..|eapply InRow_weaken; [|exact Hc]; apply upto_stop]; lia.
    + eapply spec_conseq; [apply (Hend k); lia| |done|done]. intros c. apply InRow_weaken, upto_stop.
  - replace (len - start)%nat with (S (len - S start)) by lia. cbn [seq each].
    apply (spec_bind _ _ _ (fun _ => InRow FINALIZING len (At len))); [|intros []; apply Hend; lia].
    apply (spec_conseq (InRow FINALIZING k (upto len start)) _ _ (fun _ => InRow FINALIZING len (At len)) _ (fun c => Behind (cm_world c))); [|done|done|by left]. eapply spec_bind.
    + eapply spec_conseq; [apply (finalizeStep_behind k start); lia| |done|done]. intros c. apply InRow_weaken, upto_ready.
    + intros []. eapply spec_conseq; [apply (count_up FINALIZING _ (S start) len); [intros i Hi; apply finalizeStep_behind; lia|lia]| |done|done].
      intros c. apply InRow_weaken. by left.
Qed.

Lemma spec_with {A} (P : Command W -> Prop) (m : Act (Command W) A) (X : A -> Prop) Q E : spec P m Q E ->
  (forall c a c', m c = (inl a, c') -> X a) -> spec P m (fun a c => X a /\ Q a c) E.
Proof. intros Hm HX c Hc. specialize (Hm c Hc). specialize (HX c). destruct (m c) as [[a|e] c']; [|done]. split; [by eapply HX|done]. Qed.

(** Going on from a row, a command starts at its step or at the next. *)
Lemma resolve_range st k (forward : bool) (c : Command W) k' c' : st <> ROLLING_BACK ->
  Applier.resolve dialect p (planRow st k) ss forward c = (inl k', c') -> k' = k \/ k' = S k.
Proof.
  intros Hst. unfold Applier.resolve. cbn [hr_step hr_state planRow]. rewrite Nat2Z.id, bool_decide_eq_false_2 by done.
  destruct (_ || _); [done|]. destruct (_ || _); [intros ->%ret_value; by left|].
  intros (s & c1 & _ & (held & c2 & _ & ->%ret_value)%bind_value)%bind_value. destruct (held || _); auto.
Qed.

Lemma recoverFinalizing_spec k n : pending FINALIZING k n ->
  spec (InRow FINALIZING k (At n)) (Applier.recoverPlan sha256 dialect chain p (planRow FINALIZING k)) (fun _ => InRow DONE len (At len))
    (fun c => Behind (cm_world c) \/ Done (cm_world c)).
Proof.
  intros Hp. assert (Hrange : forall m, pending FINALIZING k m -> (m = k \/ m = S k) /\ (fs <= k)%nat /\ (m <= len)%nat).
  { intros m [H Hs]. destruct H as [(? & _)|[(? & _)|[(_ & ? & ? & ?)|[(? & _)|(? & _)]]]]; done. }
  assert (HE : forall m, pending FINALIZING k m -> forall c, InRow FINALIZING k (At m) c -> Behind (cm_world c) \/ Done (cm_world c)).
  { intros m Hm c Hc. left. apply Hrange in Hm. eapply InRow_behind; [..|exact Hc]; lia. }
  unfold Applier.recoverPlan. cbn [hr_state planRow]. rewrite (proj2 Hp). eapply spec_value; [keep|by apply HE|intros ? ? ?; apply steps_value|intros ? ->].
  eapply spec_bind; [apply (spec_with _ _ (fun k' => k' = k \/ k' = S k) _ _ (resolve_spec FINALIZING k n true _ Hp (HE n Hp))); intros ? ? ?; by apply resolve_range|].
  intros k'. apply spec_pure. intros Hk'. apply spec_exists. intros m. apply spec_pure. intros Hm. apply spec_pure. intros Hr.
  rewrite decide_True by done. apply spec_after; [keep|by apply HE|intros _]. apply Hrange in Hm.
  eapply spec_conseq; [apply (finalizeFrom_behind k k'); unfold Resolved in Hr; lia| |done|done].
  intros c. apply InRow_weaken. intros w Ha. destruct Hr as [->|[-> (s & Hs & Hr)]]; [by left|]. right. split; [lia|]. right. eauto.
Qed.

(** *** Rollback *)

Lemma nullChecks_keeps st k n i : keeps (InRow st k (At n)) (Applier.nullChecks dialect p (take i ss)).
Proof.
  unfold Applier.nullChecks. apply keeps_each. intros [j s] Hs.
  assert (Hin : s ∈ ss).
  { apply list_elem_of_lookup in Hs as [m Hm]. rewrite list_lookup_imap in Hm. destruct (take i ss !! m) as [s'|] eqn:E; [|done].
    injection Hm as -> ->. apply lookup_take_Some in E as [E _]. by eapply list_elem_of_lookup_2. }
  apply keeps_each. intros c Hc. unfold Applier.nullCheckStep.
  apply keeps_bind; [keep|intros v]. apply keeps_bind; [keep|intros m]. destruct (m =? 0); [keep|].
  destruct (nc_default c) as [dflt|] eqn:Ed; [|keep]. unfold Applier.run_. intros cm Hr. unfold Applier.call.
  destruct (pd_nulls s c dflt (cm_world cm) Hin Hc Ed) as [Eh Ha]. destruct (exec _ [] (cm_world cm)) as [r w]. cbn [fst snd] in *.
  assert (InRow st k (At n) (mkCommand w (cm_history cm) (cm_session cm))) by (by eapply (stable_InRow st k (At n) (of_At n) cm)).
  by destruct r.
Qed.

Lemma delete_spec : spec (InRow ROLLING_BACK 0 (At 0)) (Applier.call (exec (Applier.deleteSql dialect) [JString (p_name p)]))
  (fun _ c => Fresh (cm_world c)) (fun c => Consistent (cm_world c)).
Proof.
  apply spec_call. intros c Hc. pose proof Hc as (_ & Ho & Hh & Ha). destruct (pd_delete (cm_world c)) as [Hch Hk].
  destruct (exec _ _ (cm_world c)) as [r w]. cbn [fst snd cm_world] in *.
  assert (Hnew : hist w = delete (p_name p) (hist (cm_world c)) -> Fresh w).
  { intros E. unfold Fresh, othersAs. rewrite E, delete_delete_eq, lookup_delete_eq. auto. }
  assert (Hold : hist w = hist (cm_world c) -> Consistent w).
  { intros E. right. apply (InRow_At ROLLING_BACK 0 0 (mkCommand w (cm_history c) (cm_session c))); [apply stands_rolling; lia|].
    by apply (stable_InRow _ _ _ (of_At 0) c). }
  destruct Hch as [E|[[e ->] E]]; [destruct r; [by apply Hnew|left; by apply Hnew]|by apply Hold].
Qed.

Lemma rollbackStart_spec st k n : standsAt fs len st k n ->
  spec (InRow st k (At n)) (Applier.rollbackStart sha256 dialect p (planRow st k) ss) 
    (fun k' c => exists n', standsAt fs len st k n' /\ Resolved false n' k' /\ InRow st k (At n') c) (fun c => Recorded (cm_world c)).
Proof.
  intros Hst. unfold Applier.rollbackStart. cbn [hr_state hr_step planRow]. destruct (Applier.settledState st) eqn:Es.
  2:{ eapply spec_conseq; [apply (resolve_spec st k n false (fun c => Recorded (cm_world c)) (conj Hst Es)); intros c; by apply InRow_At|done| |done].
      intros k' c (m & [Hm _] & Hr). by exists m. }
  pose proof (finalizeStart_length ss) as Hl.
  assert (Hk : n = k) by (destruct Hst as [(-> & _)|[(_ & ? & _)|[(-> & _)|[(_ & ? & _)|(-> & _)]]]]; done).
  assert (Hlen : (k <= len)%nat) by (destruct Hst as [(-> & _)|[(_ & ? & ?)|[(-> & _)|[(_ & ? & ?)|(-> & _)]]]]; try done; lia).
  assert (E : (Z.of_nat k <? 0) || (Z.of_nat len <? Z.of_nat k) = false) by (apply orb_false_iff; rewrite !Z.ltb_ge; lia). rewrite E.
  apply spec_after; [keep|intros c; by apply InRow_At|intros _]. rewrite Nat2Z.id. apply spec_ret. intros c Hc. exists n. split; [done|]. split; [by left|done].
Qed.

Lemma rollbackPlan_spec st k n : standsAt fs len st k n ->
  spec (InRow st k (At n)) (Applier.rollbackPlan sha256 dialect chain p (planRow st k)) (fun _ c => Fresh (cm_world c)) (fun c => Consistent (cm_world c)).
Proof.
  intros Hst. assert (HE : forall m, standsAt fs len st k m -> forall c, InRow st k (At m) c -> Consistent (cm_world c)) by (intros m Hm c Hc; right; by apply (InRow_At st k m)).
  unfold Applier.rollbackPlan. eapply spec_value; [keep|by apply HE|intros ? ? ?; apply steps_value|intros ? ->].
  eapply spec_bind; [eapply spec_conseq; [by apply (rollbackStart_spec st k n)|done|done|apply Recorded_consistent]|]. intros k'. apply spec_exists. intros m. apply spec_pure. intros Hm. apply spec_pure. intros Hr.
  apply (spec_value _ _ (fun _ => (k' <= fs)%nat)); [unfold Applier.irreversible, the; destruct k'; keep|by apply HE| |intros _ Hk].
  { intros c u c'. destruct k' as [|last]; [lia|]. intros (s & c1 & Hs%the_value & Hu)%bind_value. destruct (decide (ps_rollback s = "")) as [E|Hn].
    - by apply bind_value in Hu as (? & ? & _ & ?).
    - destruct (decide (S last <= fs)%nat) as [?|Hgt]; [done|]. destruct Hn. apply (tail last s Hs). lia. }
  apply spec_after; [destruct (Applier.settledState _); [apply nullChecks_keeps|keep]|by apply HE|intros _].
  apply spec_after; [keep|by apply HE|intros _].
  assert (Hn : m = k' \/ S m = k') by (destruct Hr as [->|[? _]]; auto).
  eapply spec_bind; [eapply spec_conseq; [apply (resume_spec st k m ROLLING_BACK k' (downfrom k')); [done|by apply stands_rolling|intros w; by apply resolved_downfrom]|done|done|apply Recorded_consistent]|].
  intros []. eapply spec_bind; [eapply spec_conseq; [apply (count_down _ k'); intros i Hi; apply rollbackStep_spec; lia|done|done|apply Recorded_consistent]|]. intros [].
  assert (HE0 : forall c, InRow ROLLING_BACK 0 (At 0) c -> Consistent (cm_world c)).
  { intros c Hc. right. apply (InRow_At ROLLING_BACK 0 0); [apply stands_rolling; lia|done]. }
  do 3 (apply spec_after; [keep|exact HE0|intros _]). eapply spec_bind; [exact delete_spec|]. intros [].
  eapply spec_conseq; [apply (keeps_emit dialect calm _ (stable_world Fresh calm_Fresh))|done|done|]. intros c Hc. by left.
Qed.

(** *** Reading the history *)

Section world.
Context (R : W -> Prop) (calmR : CalmWorld R).
Notation onWorld := (fun c : Command W => R (cm_world c)).

Lemma keeps_setHistory h : keeps onWorld (Applier.setHistory h).
Proof. by intros c Hc. Qed.
#[local] Hint Resolve keeps_setHistory : keeps.

Lemma keeps_recordedFrom h plans : forall i position, keeps onWorld (Applier.recordedFrom h i position plans).
Proof. induction plans as [|q plans IH]; intros i position; cbn [Applier.recordedFrom]; unfold Applier.chainError; keep; apply IH. Qed.
#[local] Hint Resolve keeps_recordedFrom : keeps.

Lemma keeps_position : keeps onWorld (Applier.position dialect chain).
Proof.
  assert (HR : Stable calm onWorld) by by apply stable_world.
  unfold Applier.position, Applier.readHistory, Applier.readRow, Applier.beforeLast, Applier.chainError, the. keep.
Qed.

(** The rows of the history table read back as the map of the command. *)
Lemma readRows_map l : NoDup l.*1 -> forall c c' : Command W, each Applier.readRow (map rowCells l) c = (inl tt, c') ->
  cm_history c' = list_to_map l ∪ cm_history c /\ cm_world c' = cm_world c.
Proof.
  induction l as [|[name [from to st k]] l IH]; intros Hd c c'; cbn [map each].
  - intros [= <-]. split; [|done]. cbn. by rewrite (left_id_L ∅ (∪)).
  - apply NoDup_cons in Hd as [Hn Hd]. intros (u & c1 & Hrow & Hl)%bind_value. destruct u.
    unfold Applier.readRow, text, integer, cell, Applier.history, Applier.setHistory, mbind, Act_bind, mret, Act_ret in Hrow. cbn in Hrow.
    destruct (isSafeInteger k); [|done]. injection Hrow as <-. apply IH in Hl as [Hh Hw]; [|done]. cbn in Hh, Hw. split; [|done].
    rewrite Hh. cbn [list_to_map foldr fst snd]. rewrite <- insert_union_r by (by apply not_elem_of_list_to_map_1). by rewrite insert_union_l.
Qed.

Lemma readHistory_spec (c c' : Command W) : Applier.readHistory dialect c = (inl tt, c') -> cm_history c' = hist (cm_world c').
Proof.
  unfold Applier.readHistory. intros (u & c1 & _ & Hr)%bind_value. apply bind_value in Hr as (u' & c2 & Hset & Hr).
  unfold Applier.setHistory in Hset. injection Hset as _ <-. apply bind_value in Hr as (found & c3 & Hrows & Hr).
  unfold Applier.call in Hrows. cbn [cm_world cm_history cm_session] in Hrows. pose proof (calm_rows (dialect := dialect) (Applier.selectHistorySql dialect) [] (cm_world c1)) as [Eh _].
  destruct (rows _ _ (cm_world c1)) as [[f|e] w] eqn:E; [|done]. injection Hrows as -> <-. cbn [snd] in Eh.
  apply pd_select in E as (l & Hd & El & ->). apply readRows_map in Hr as [Hh Hw]; [|done]. rewrite Hh, Hw. cbn. by rewrite Eh, El, (right_id_L ∅ (∪)).
Qed.

Lemma position_spec : spec onWorld (Applier.position dialect chain)
  (fun n c => R (cm_world c) /\ cm_history c = hist (cm_world c) /\ Front chain (hist (cm_world c)) n) onWorld.
Proof.
  intros c Hc. pose proof (keeps_position c Hc) as Hk. destruct (Applier.position dialect chain c) as [[n|e] c'] eqn:E; [|done].
  apply position_read in E as [Hread Hf]. apply readHistory_spec in Hread. rewrite <- Hread. auto.
Qed.
End world.

(** *** The commands *)

(** The plan is the last of the chain, and the plans before it are done. *)
Context (pre : list DbspecPlan) (chain_last : chain = pre ++ [p]).
Context (before : forall q, q ∈ pre -> exists row, others !! p_name q = Some row /\ hr_state row = DONE).

Definition Applied (w : W) : Prop := othersAs w /\ hist w !! p_name p = Some (planRow APPLIED fs) /\ At fs w.
(** No plan is interrupted. *)
Definition Settled (w : W) : Prop := Fresh w \/ Applied w \/ Done w.

Lemma Applied_consistent w : Applied w -> Consistent w.
Proof. intros (Ho & Hh & Ha). right. split; [done|]. exists APPLIED, fs, fs. split; [done|]. split; [done|]. apply stands_applied. Qed.
Lemma Done_consistent w : Done w -> Consistent w.
Proof. intros (Ho & Hh & Ha). right. split; [done|]. exists DONE, len, len. split; [done|]. split; [done|]. apply stands_done. Qed.
Lemma Settled_consistent w : Settled w -> Consistent w.
Proof. intros [?|[?|?]]; [by left|by apply Applied_consistent|by apply Done_consistent]. Qed.

Lemma calm_Applied : CalmWorld Applied.
Proof. intros w w' (Ho & Hh & Ha) [Eh Hc]. unfold Applied, othersAs. rewrite Eh. auto. Qed.
Lemma calm_Done : CalmWorld Done.
Proof. intros w w' (Ho & Hh & Ha) [Eh Hc]. unfold Done, othersAs. rewrite Eh. auto. Qed.
Lemma calm_Settled : CalmWorld Settled.
Proof. intros w w' [?|[?|?]] Hc; [left; by eapply calm_Fresh|right; left; by eapply calm_Applied|right; right; by eapply calm_Done]. Qed.

Lemma before_row w q : othersAs w -> q ∈ pre -> exists row, hist w !! p_name q = Some row /\ hr_state row = DONE.
Proof.
  intros Ho Hq. destruct (before q Hq) as (row & Hrow & Hst). exists row. split; [|done]. unfold othersAs in Ho. rewrite <- Ho in Hrow.
  by apply lookup_delete_Some in Hrow as [_ Hrow].
Qed.

Lemma lookup_plan : chain !! length pre = Some p.
Proof. rewrite chain_last. by apply list_lookup_middle. Qed.

(** The number of recorded plans tells whether the plan has a row. *)
Lemma front_count w n : othersAs w -> Front chain (hist w) n -> n = (if hist w !! p_name p then S (length pre) else length pre).
Proof.
  intros Ho [Hl Hs Hr Hn]. assert (Hge : (length pre <= n)%nat).
  { destruct (decide (length pre <= n)%nat) as [?|Hlt]; [done|]. exfalso. destruct (lookup_lt_is_Some_2 pre n ltac:(lia)) as [q Hq].
    destruct (before_row w q Ho) as (row & Hrow & _); [by eapply list_elem_of_lookup_2|].
    specialize (Hn n q). rewrite chain_last, lookup_app_l in Hn by lia. rewrite Hn in Hrow by done. done. }
  rewrite chain_last, length_app in Hl. simpl in Hl. destruct (hist w !! p_name p) as [row|] eqn:E.
  - destruct (decide (n = length pre)) as [->|]; [|lia]. rewrite (Hn _ _ lookup_plan) in E by done. done.
  - destruct (decide (n = S (length pre))) as [->|]; [|lia]. destruct (Hr _ _ lookup_plan ltac:(lia)) as (row & E' & _). congruence.
Qed.

(** The command has read the history of a consistent world. *)
Definition Read (w : W) (n : nat) (c : Command W) : Prop := cm_history c = hist (cm_world c) /\ Front chain (hist (cm_world c)) n.

Lemma InRow_read st k n c : othersAs (cm_world c) -> cm_history c = hist (cm_world c) -> hist (cm_world c) !! p_name p = Some (planRow st k) ->
  At n (cm_world c) -> InRow st k (At n) c.
Proof. intros Ho Hm Hh Ha. split; [by rewrite Hm, Hh|]. done. Qed.

Lemma InRow_applied c : InRow APPLIED fs (At fs) c -> Settled (cm_world c).
Proof. intros (_ & Ho & Hh & Ha). right; left. done. Qed.

Lemma settled_standing w st k n : othersAs w -> hist w !! p_name p = Some (planRow st k) -> At n w -> standsAt fs len st k n ->
  Applier.settledState st = true -> Applied w \/ Done w.
Proof.
  intros Ho Hh Ha Hst Hs. destruct Hst as [(-> & _)|[(-> & -> & ->)|[(-> & _)|[(-> & -> & ->)|(-> & _)]]]]; try discriminate Hs; [left|right]; done.
Qed.

Lemma the_ok {A} (o : option A) what a (c : Command W) : o = Some a -> the o what c = (inl a, c).
Proof. by intros ->. Qed.

(** What [onLast] does with the rows of a consistent world: the row of the plan,
    or else that of the plan before it. *)
Lemma onLast_spec (R Q E : W -> Prop) body : CalmWorld R -> (forall w, R w -> othersAs w) -> (forall w, R w -> E w) ->
  (forall w, R w -> hist w !! p_name p = None -> pre = [] -> Q w) ->
  (forall q row, q ∈ pre -> hr_state row = DONE ->
     spec (fun c => R (cm_world c) /\ hist (cm_world c) !! p_name p = None) (body q row) (fun _ c => Q (cm_world c)) (fun c => E (cm_world c))) ->
  (forall row, spec (fun c => R (cm_world c) /\ cm_history c = hist (cm_world c) /\ hist (cm_world c) !! p_name p = Some row) (body p row)
     (fun _ c => Q (cm_world c)) (fun c => E (cm_world c))) ->
  spec (fun c => R (cm_world c)) (Applier.onLast dialect chain body) (fun _ c => Q (cm_world c)) (fun c => E (cm_world c)).
Proof.
  intros HR Ho HE Hnone Hbefore Hbody. unfold Applier.onLast.
  eapply spec_bind; [eapply spec_conseq; [by apply position_spec|done|done|intros c; apply HE]|].
  intros n c (Hr & Hm & Hf). pose proof (front_count _ _ (Ho _ Hr) Hf) as Hn. destruct (hist (cm_world c) !! p_name p) as [row|] eqn:Erow; subst n.
  - unfold mbind, Act_bind. rewrite (the_ok _ _ p) by apply lookup_plan. unfold Applier.history. rewrite Hm, (the_ok _ _ row) by done.
    exact (Hbody row c (conj Hr (conj Hm Erow))).
  - destruct (length pre) as [|last] eqn:El; [by apply Hnone; [..|apply length_zero_iff_nil]|].
    destruct (lookup_lt_is_Some_2 pre last ltac:(lia)) as [q Hq]. assert (Hin : q ∈ pre) by by eapply list_elem_of_lookup_2.
    destruct (before_row _ q (Ho _ Hr) Hin) as (row & Hrow & Hst).
    unfold mbind, Act_bind. rewrite (the_ok _ _ q) by (rewrite chain_last, lookup_app_l by lia; done). unfold Applier.history. rewrite Hm, (the_ok _ _ row) by done.
    exact (Hbefore q row Hin Hst c (conj Hr Erow)).
Qed.

Lemma Consistent_others w : Consistent w -> othersAs w.
Proof. by intros [[? _]|[? _]]. Qed.

(** The row of the plan is not the one of an interrupted finalize. *)
Definition notFinalizing (w : W) : Prop := forall row, hist w !! p_name p = Some row -> hr_state row <> FINALIZING.

Lemma calm_hist_and R (X : gmap string HistoryRow -> Prop) : CalmWorld R -> CalmWorld (fun w => R w /\ X (hist w)).
Proof. intros HR w w' [Hr Hx] Hc. split; [by eapply HR|]. destruct Hc as [-> _]. done. Qed.

Lemma recover_spec : spec (fun c => Consistent (cm_world c) /\ notFinalizing (cm_world c))
  (Applier.onLast dialect chain (Applier.recoverPlan sha256 dialect chain)) (fun _ c => Settled (cm_world c)) (fun c => Consistent (cm_world c)).
Proof.
  apply (onLast_spec (fun w => Consistent w /\ notFinalizing w)).
  - apply (calm_hist_and _ (fun h => forall row, h !! p_name p = Some row -> hr_state row <> FINALIZING)), calm_Consistent.
  - intros w [Hc _]. by apply Consistent_others.
  - by intros w [Hc _].
  - intros w [[Hf|(_ & st & k & n & Hh & _)] _] Hn _; [by left|congruence].
  - intros q row _ Hst. unfold Applier.recoverPlan. rewrite Hst. apply spec_ret. intros c [[[Hf|(_ & st & k & n & Hh & _)] _] Hn]; [by left|congruence].
  - intros row c ([[(_ & Hn & _)|(Ho & st & k & n & Hh & Ha & Hst)] Hnf] & Hm & Hrow); [congruence|]. change (mkHistoryRow _ _ _ _) with (planRow st k) in Hh.
    assert (row = planRow st k) as -> by congruence. destruct (Applier.settledState st) eqn:Es.
    + unfold Applier.recoverPlan. cbn [hr_state planRow]. rewrite Es. cbn. right. by eapply settled_standing.
    + refine (spec_conseq _ _ _ _ _ _ _ (recoverPlan_spec st k n (conj Hst Es) (Hnf _ Hrow)) (fun _ H => H) _ _ c _).
      * intros _. apply InRow_applied.
      * apply Recorded_consistent.
      * by apply InRow_read.
Qed.

Lemma rollback_spec : spec (fun c => Consistent (cm_world c) /\ (pre = [] \/ is_Some (hist (cm_world c) !! p_name p)))
  (Applier.onLast dialect chain (Applier.rollbackPlan sha256 dialect chain)) (fun _ c => Fresh (cm_world c)) (fun c => Consistent (cm_world c)).
Proof.
  apply (onLast_spec (fun w => Consistent w /\ (pre = [] \/ is_Some (hist w !! p_name p)))).
  - apply (calm_hist_and _ (fun h => pre = [] \/ is_Some (h !! p_name p))), calm_Consistent.
  - intros w [Hc _]. by apply Consistent_others.
  - by intros w [Hc _].
  - intros w [[Hf|(_ & st & k & n & Hh & _)] _] Hn _; [done|congruence].
  - intros q row Hq _ c [[_ [Hp|[row' Hr]]] Hn]; [|congruence]. rewrite Hp in Hq. by apply elem_of_nil in Hq.
  - intros row c ([[(_ & Hn & _)|(Ho & st & k & n & Hh & Ha & Hst)] _] & Hm & Hrow); [congruence|]. change (mkHistoryRow _ _ _ _) with (planRow st k) in Hh.
    assert (row = planRow st k) as -> by congruence. apply (rollbackPlan_spec st k n Hst c). by apply InRow_read.
Qed.

(** The history is read, with [n] plans, and no plan is interrupted. *)
Definition SettledAt (R : W -> Prop) (n : nat) (c : Command W) : Prop :=
  R (cm_world c) /\ cm_history c = hist (cm_world c) /\ Front chain (hist (cm_world c)) n /\
  forall q row, chain !! (n - 1)%nat = Some q -> (0 < n)%nat -> hist (cm_world c) !! p_name q = Some row -> Applier.settledState (hr_state row) = true.

Lemma stable_SettledAt R n : CalmWorld R -> Stable calm (SettledAt R n).
Proof.
  intros HR c c' (Hr & Hm & Hf & Hs) Hc Hm'. pose proof Hc as [Eh _]. unfold SettledAt. rewrite Eh, Hm'. split; [by eapply HR|]. done.
Qed.

Lemma settled_spec (R : W -> Prop) : CalmWorld R ->
  spec (fun c => R (cm_world c)) (Applier.settled sha256 dialect chain) (SettledAt R) (fun c => R (cm_world c)).
Proof.
  intros HR. unfold Applier.settled. eapply spec_bind; [by apply position_spec|]. intros n.
  apply (spec_bind _ _ _ (fun _ => SettledAt R n)).
  - intros c (Hr & Hm & Hf). destruct n as [|last]; [split; [done|]; split_and!; try done; lia|].
    unfold mbind, Act_bind, the, ofRes. destruct (chain !! last) as [q|] eqn:Eq; [|done]. cbn [present]. unfold mret, Act_ret, Applier.history.
    destruct (cm_history c !! p_name q) as [row|] eqn:Er; [|done]. cbn [present]. unfold mret, Act_ret.
    destruct (Applier.settledState (hr_state row)) eqn:Es; [|done]. split; [done|]. split_and!; try done.
    intros q' row'. replace (S last - 1)%nat with last by lia. rewrite Eq. intros [= <-] _. rewrite <- Hm, Er. by intros [= <-].
  - intros want. pose proof (stable_SettledAt R n HR) as Hst.
    apply spec_after; [keep|by intros c [Hr _]|intros _]. by apply spec_ret.
Qed.

(** A plan that is recorded and not interrupted. *)
Lemma settled_recorded n c : SettledAt Consistent n c -> is_Some (hist (cm_world c) !! p_name p) ->
  n = length chain /\ ((InRow APPLIED fs (At fs) c /\ cm_history c !! p_name p = Some (planRow APPLIED fs)) \/
                       (Done (cm_world c) /\ cm_history c !! p_name p = Some (planRow DONE len))).
Proof.
  intros (Hc & Hm & Hf & Hs) [row Hrow]. pose proof (front_count _ _ (Consistent_others _ Hc) Hf) as Hn. rewrite Hrow in Hn. subst n.
  split; [by rewrite chain_last, length_app, Nat.add_comm|]. specialize (Hs p row). replace (S (length pre) - 1)%nat with (length pre) in Hs by lia.
  specialize (Hs lookup_plan ltac:(lia) Hrow). destruct Hc as [(_ & Hn & _)|(Ho & st & k & n & Hh & Ha & Hst)]; [congruence|].
  change (mkHistoryRow _ _ _ _) with (planRow st k) in Hh. assert (row = planRow st k) as -> by congruence.
  destruct (settled_standing _ st k n Ho Hh Ha Hst Hs) as [(Ho' & Hh' & Ha')|Hd]; [left|right].
  - split; [by apply InRow_read|by rewrite Hm].
  - split; [done|]. destruct Hd as (_ & Hh' & _). by rewrite Hm.
Qed.

Lemma settled_fresh n c : SettledAt Consistent n c -> hist (cm_world c) !! p_name p = None -> n = length pre /\ NewPlan c.
Proof.
  intros (Hc & Hm & Hf & Hs) Hnone. pose proof (front_count _ _ (Consistent_others _ Hc) Hf) as Hn. rewrite Hnone in Hn. split; [done|].
  destruct Hc as [Hfr|(_ & st & k & m & Hh & _)]; [|congruence]. split; [done|by rewrite Hm].
Qed.

Lemma apply_spec : spec (fun c => Consistent (cm_world c)) (Applier.applyAll sha256 dialect chain) (fun _ c => Applied (cm_world c) \/ Done (cm_world c))
  (fun c => Consistent (cm_world c)).
Proof.
  unfold Applier.applyAll. eapply spec_bind; [apply settled_spec, calm_Consistent|]. intros n c Hc.
  destruct (hist (cm_world c) !! p_name p) as [row|] eqn:E.
  - destruct (settled_recorded n c Hc ltac:(by rewrite E)) as (-> & [[(_ & Ho & Hh & Ha) _]|[Hd _]]); rewrite drop_all; cbn; [by left|by right].
  - destruct (settled_fresh n c Hc E) as (-> & Hn). rewrite chain_last, drop_app_length. cbn [each]. rewrite <- chain_last.
    clear Hc E. revert c Hn. change (spec NewPlan (Applier.applyPlan sha256 dialect chain p;; mret tt) (fun _ c => Applied (cm_world c) \/ Done (cm_world c)) (fun c => Consistent (cm_world c))).
    eapply spec_bind; [exact applyPlan_spec|]. intros []. apply spec_ret. intros c (_ & Ho & Hh & Ha). by left.
Qed.

(** A plan that is done, or before the last, is left alone. *)
Lemma finalizePlan_skip q row (c : Command W) : cm_history c !! p_name q = Some row -> hr_state row <> APPLIED ->
  Applier.finalizePlan sha256 dialect chain q c = (inl tt, c).
Proof. intros Hrow Hst. unfold Applier.finalizePlan, mbind, Act_bind, Applier.history. rewrite (the_ok _ _ row) by done. by rewrite decide_False. Qed.

Lemma each_skip {A} (f : A -> Act (Command W) unit) l l' c : (forall x, x ∈ l -> f x c = (inl tt, c)) -> each f (l ++ l') c = each f l' c.
Proof.
  induction l as [|x l IH]; intros Hf; [done|]. cbn [app each]. unfold mbind, Act_bind. rewrite Hf by (by left). apply IH. intros y Hy. apply Hf. by right.
Qed.

Lemma finalize_spec : spec (fun c => Consistent (cm_world c)) (Applier.finalizeAll sha256 dialect chain) (fun _ c => Fresh (cm_world c) \/ Done (cm_world c))
  (fun c => Consistent (cm_world c)).
Proof.
  unfold Applier.finalizeAll. eapply spec_bind; [apply settled_spec, calm_Consistent|]. intros n c Hc.
  assert (Hskip : forall q, q ∈ pre -> Applier.finalizePlan sha256 dialect chain q c = (inl tt, c)).
  { intros q Hq. destruct Hc as (Hc & Hm & _). destruct (before_row _ q (Consistent_others _ Hc) Hq) as (row & Hrow & Hst).
    apply (finalizePlan_skip q row); [by rewrite Hm|by rewrite Hst]. }
  destruct (hist (cm_world c) !! p_name p) as [row|] eqn:E.
  - destruct (settled_recorded n c Hc ltac:(by rewrite E)) as (-> & Hp). replace (take (length chain) chain) with (pre ++ [p]) by (by rewrite firstn_all). rewrite each_skip by done. cbn [each].
    destruct Hp as [Hp|[Hd Hm]].
    + clear Hc E Hskip. revert c Hp. change (spec (fun c => InRow APPLIED fs (At fs) c /\ cm_history c !! p_name p = Some (planRow APPLIED fs))
        (Applier.finalizePlan sha256 dialect chain p;; mret tt) (fun _ c => Fresh (cm_world c) \/ Done (cm_world c)) (fun c => Consistent (cm_world c))).
      eapply spec_bind; [eapply spec_conseq; [exact finalizePlan_spec|done|done|apply Recorded_consistent]|]. intros []. apply spec_ret. intros c Hc. right. by apply InRow_done.
    + unfold mbind, Act_bind. rewrite (finalizePlan_skip p (planRow DONE len)) by done. cbn. by right.
  - destruct (settled_fresh n c Hc E) as (-> & Hn & _). replace (take (length pre) chain) with (pre ++ []) by (by rewrite chain_last, take_app_length, app_nil_r). rewrite each_skip by done. cbn. by left.
Qed.

(** *** What a command leaves *)

Context (plans : list DbspecPlan) (chained : chainPlans plans = Ok (inl chain)).

Inductive CommandKind := CApply | CRecover | CRollback | CFinalize.

Definition runCommand (kind : CommandKind) : Act W unit :=
  match kind with
  | CApply => applyPlans sha256 dialect plans
  | CRecover => recoverPlans sha256 dialect plans
  | CRollback => rollbackPlans sha256 dialect plans
  | CFinalize => finalizePlans sha256 dialect plans
  end.

(** Where the theorems apply a command: a rollback undoes the plan and not the
    one before it, and a recover does not continue an interrupted finalize. *)
Definition Admissible (kind : CommandKind) (w : W) : Prop :=
  match kind with CRecover => notFinalizing w | CRollback => pre = [] \/ is_Some (hist w !! p_name p) | _ => True end.

Definition Outcome (kind : CommandKind) (w : W) : Prop :=
  match kind with CApply => Applied w \/ Done w | CRecover => Settled w | CRollback => Fresh w | CFinalize => Fresh w \/ Done w end.

Lemma calm_Admissible kind : CalmWorld (fun w => Consistent w /\ Admissible kind w).
Proof.
  destruct kind; cbn [Admissible]; try (intros w w' [Hw _] Hc; split; [by eapply calm_Consistent|done]).
  - apply (calm_hist_and _ (fun h => forall row, h !! p_name p = Some row -> hr_state row <> FINALIZING)), calm_Consistent.
  - apply (calm_hist_and _ (fun h => pre = [] \/ is_Some (h !! p_name p))), calm_Consistent.
Qed.

Lemma calm_Outcome kind : CalmWorld (Outcome kind).
Proof.
  destruct kind; cbn [Outcome]; [|apply calm_Settled|apply calm_Fresh|];
    (intros w w' [Hw|Hw] Hc; [left|right]); by first [eapply calm_Applied|eapply calm_Done|eapply calm_Fresh].
Qed.

Lemma Outcome_consistent kind w : Outcome kind w -> Consistent w.
Proof.
  destruct kind; cbn [Outcome]; [|apply Settled_consistent|by left|];
    (intros [Hw|Hw]; [|by apply Done_consistent]); [by apply Applied_consistent|by left].
Qed.

(** A command in its session. *)
Lemma inApplier_spec (P Q E : W -> Prop) (body : list DbspecPlan -> Act (Command W) unit) : CalmWorld P -> CalmWorld Q -> CalmWorld E ->
  (forall w, P w -> E w) -> (forall w, Q w -> E w) ->
  spec (fun c => P (cm_world c)) (body chain) (fun _ c => Q (cm_world c)) (fun c => E (cm_world c)) ->
  spec P (inApplier dialect plans body) (fun _ => Q) E.
Proof.
  intros HP HQ HE PE QE Hb w Hw. unfold inApplier. rewrite chained.
  pose proof (session_spec dialect calm (fun c => P (cm_world c)) (fun c => Q (cm_world c)) (fun c => E (cm_world c))
    (stable_world _ HP) (stable_world _ HQ) (stable_world _ HE) (fun c => PE (cm_world c)) (fun c => QE (cm_world c)) (body chain) Hb (mkCommand w ∅ 0) Hw) as Hs.
  by destruct (Applier.session dialect (body chain) (mkCommand w ∅ 0)) as [[[]|e] c].
Qed.

Lemma command_spec kind : spec (fun w => Consistent w /\ Admissible kind w) (runCommand kind) (fun _ => Outcome kind) Consistent.
Proof.
  assert (H : forall body, spec (fun c => Consistent (cm_world c) /\ Admissible kind (cm_world c)) (body chain) (fun _ c => Outcome kind (cm_world c)) (fun c => Consistent (cm_world c)) ->
    spec (fun w => Consistent w /\ Admissible kind w) (inApplier dialect plans body) (fun _ => Outcome kind) Consistent).
  { intros body. apply (inApplier_spec (fun w => Consistent w /\ Admissible kind w)); [apply calm_Admissible|apply calm_Outcome|apply calm_Consistent|by intros w [? _]|apply Outcome_consistent]. }
  destruct kind; apply H; cbn [Admissible Outcome].
  - eapply spec_conseq; [exact apply_spec|by intros c [? _]|done|done].
  - exact recover_spec.
  - exact rollback_spec.
  - eapply spec_conseq; [exact finalize_spec|by intros c [? _]|done|done].
Qed.

(** The row of an interrupted finalize, one step off at most. *)
Definition Finalizing (w : W) : Prop :=
  othersAs w /\ exists k n, hist w !! p_name p = Some (planRow FINALIZING k) /\ At n w /\ (n = k \/ n = S k) /\ (fs <= k)%nat /\ (n <= len)%nat.

Lemma calm_Finalizing : CalmWorld Finalizing.
Proof. intros w w' (Ho & k & n & Hh & Ha & Hn) [Eh Hc]. unfold Finalizing, othersAs. rewrite Eh. split; [done|]. exists k, n. auto. Qed.
Lemma calm_Behind : CalmWorld Behind.
Proof. intros w w' (Ho & k & n & Hh & Ha & Hn) [Eh Hc]. unfold Behind, othersAs. rewrite Eh. split; [done|]. exists k, n. auto. Qed.

Lemma Finalizing_behind w : Finalizing w -> Behind w.
Proof. intros (Ho & k & n & Hh & Ha & Hn). split; [done|]. exists k, n. split; [done|]. split; [done|]. lia. Qed.

Lemma finalizing_spec : spec Finalizing (recoverPlans sha256 dialect plans) (fun _ => Done) (fun w => Behind w \/ Done w).
Proof.
  assert (HE : forall w, Finalizing w -> Behind w \/ Done w) by (left; by apply Finalizing_behind).
  apply (inApplier_spec Finalizing Done (fun w => Behind w \/ Done w)); [apply calm_Finalizing|apply calm_Done| |exact HE|by right|].
  { intros w w' [Hw|Hw] Hc; [left; by eapply calm_Behind|right; by eapply calm_Done]. }
  apply (onLast_spec Finalizing Done (fun w => Behind w \/ Done w)); [apply calm_Finalizing|by intros w [? _]|exact HE|by intros w (_ & k & n & Hh & _) Hn; congruence|..].
  - intros q row _ _ c [(_ & k & n & Hh & _) Hn]. congruence.
  - intros row c ((Ho & k & n & Hh & Ha & Hn) & Hm & Hrow). assert (row = planRow FINALIZING k) as -> by congruence.
    refine (spec_conseq _ _ _ _ _ _ _ (recoverFinalizing_spec k n _) (fun _ H => H) _ (fun _ H => H) c _).
    + split; [|done]. apply stands_finalizing; tauto.
    + intros _. apply InRow_done.
    + by apply InRow_read.
Qed.
End plan.

(** ** The theorems *)

Section commands.
Context {W : Type} {host : Host W} (sha256 : string -> string) (dialect : DbspecDialect).
Context (p : DbspecPlan) (ss : list DbspecPlanStep) (hist : W -> gmap string HistoryRow) (At : nat -> W -> Prop).
Context {database : PlanDatabase dialect p ss hist At} (others : gmap string HistoryRow).

Lemma steps_planned chain (w : W) : Applier.steps sha256 dialect chain p (mkCommand w ∅ 0) = (inl ss, mkCommand w ∅ 0) -> finalTail ss.
Proof.
  unfold Applier.steps. intros (source & c1 & _ & (r & c2 & Hr & Hs)%bind_value)%bind_value.
  destruct (planSteps sha256 source p dialect) as [r'|] eqn:E; [|done]. apply ret_value in Hr as ->. destruct r' as [ss'|ds].
  - injection Hs as -> _. by eapply planSteps_tail.
  - by apply bind_value in Hs as (? & ? & _ & ?).
Qed.

Implicit Types (pre plans : list DbspecPlan) (w : W).

(** The place of the plan: the last of the chain of [plans], which is written as
    [ss], behind plans that are done. *)
Record LastOf (plans pre : list DbspecPlan) : Prop := {
  last_chain : chainPlans plans = Ok (inl (pre ++ [p]));
  last_steps (c : Command W) : Applier.steps sha256 dialect (pre ++ [p]) p c = (inl ss, c);
  last_before q : q ∈ pre -> exists row, others !! p_name q = Some row /\ hr_state row = DONE }.

(** C35: On a database that keeps the promises of [PlanDatabase], for the last plan
    of a chain whose other plans are done: whatever call of a command fails, the
    history row agrees with the steps in effect up to the one that the call ran: an
    applying or finalizing row of step [k] has [k] or [k + 1] steps in effect, a
    rolling back row [k] or [k - 1], an applied or done row exactly its own, and no
    row none; the rows of other plans stay.  A command that returns leaves its plan
    applied, undone or done.  [Admissible] leaves out two commands: recover of an
    interrupted finalize, which [recover_finalizing] states, and rollback of a plan
    before the last. *)
Theorem command_outcome plans pre kind w r w' : LastOf plans pre -> Consistent p ss hist At others w -> Admissible p hist pre kind w ->
  runCommand sha256 dialect plans kind w = (r, w') ->
  Consistent p ss hist At others w' /\ (r = inl tt -> Outcome p ss hist At others kind w').
Proof.
  intros [Hc Hs Hb] Hw Ha Hr.
  pose proof (command_spec sha256 dialect _ p ss hist At Hs (steps_planned _ w (Hs _)) others pre eq_refl Hb plans Hc kind w (conj Hw Ha)) as H.
  rewrite Hr in H. destruct r as [[]|e]; [|done]. split; [by eapply Outcome_consistent|done].
Qed.

(** C36: On a database that keeps the promises of [PlanDatabase], for the last plan
    of a chain whose other plans are done: recover of an interrupted finalize that
    returns has run every finalize step.  One that fails leaves a finalizing row
    with at least as many steps in effect as it records, possibly several more, or
    it had recorded the plan as done. *)
Theorem recover_finalizing plans pre w r w' : LastOf plans pre -> Finalizing p ss hist At others w -> recoverPlans sha256 dialect plans w = (r, w') ->
  (r = inl tt -> Done p ss hist At others w') /\ (Behind p ss hist At others w' \/ Done p ss hist At others w').
Proof.
  intros [Hc Hs Hb] Hw Hr.
  pose proof (finalizing_spec sha256 dialect _ p ss hist At Hs (steps_planned _ w (Hs _)) others pre eq_refl Hb plans Hc w Hw) as H.
  rewrite Hr in H. destruct r as [[]|e]; [|done]. split; [done|]. by right.
Qed.
End commands.
