(* ===== verification/ApplySample.v ===== *)
(** * A small database and interrupted commands of it

    A database of empty tables that understands the statements of three plans, stops
    a command after a given number of statements, and keeps the promises of
    [PlanDatabase], for the plan of a rebuild too; the theorems of [ApplyCrash]
    applied to it; and three histories that no command leaves. *)

From stdpp Require Import gmap.
From S2P Require Import Prelude Documents Values Emit DocumentSet Render Plan PlanDiff PlanSteps Apply ApplyFacts ApplyCrash.
From Stdlib Require Import Lia.

(** ** Plans *)

(** A stand-in for SHA-256 that tells the texts below apart. *)
Definition lengthDigest (text : string) : string := pretty (Z.of_nat (String.length text)).

Definition idTable (name : string) : DbspecTable :=
  mkTable [] name [mkColumn [] "id" TI32 false true None] (mkPrimaryKey [] ["id"]) [] [] [] [] None [].
Definition schemaOf (names : list string) : DbspecDocument := mkDocument "schema" false [] (map idTable names) [] [].
Definition hashOf (names : list string) : string :=
  match dbspecManifest lengthDigest [schemaOf names] with inl m => mf_schemaHash m | inr _ => "" end.

(** Three tables, two of which the second plan drops; the third plan adds one. *)
Definition basePlan : DbspecPlan := mkPlan (mkHeader "base" None [] [] [] []) (schemaOf ["a"; "b"; "c"]) (hashOf ["a"; "b"; "c"]).
Definition trimNamed (name : string) : DbspecPlan :=
  mkPlan (mkHeader name (Some (hashOf ["a"; "b"; "c"])) [] [] ["b"; "c"] []) (schemaOf ["a"]) (hashOf ["a"]).
Definition trimPlan : DbspecPlan := trimNamed "trim".
Definition growPlan : DbspecPlan := mkPlan (mkHeader "grow" (Some (hashOf ["a"])) [] [] [] []) (schemaOf ["a"; "d"]) (hashOf ["a"; "d"]).

Definition trimSteps : list DbspecPlanStep := Eval vm_compute in
  match planSteps lengthDigest (Some (p_schema basePlan)) trimPlan Sqlite with Ok (inl ss) => ss | _ => [] end.

Definition holdB : string := "dbspec$hold$66$1".
Definition holdC : string := "dbspec$hold$66$2".
(** The tables after each step of the second plan. *)
Definition trimTables : list (list string) := [["a"; "b"; "c"]; ["a"; holdB; "c"]; ["a"; holdB; holdC]; ["a"; holdC]; ["a"]].

(** ** The database *)

(** A plan that widens a column, for which SQLite rebuilds the table. *)
Definition noteSchema (wide : bool) : DbspecDocument :=
  mkDocument "schema" false [] [mkTable [] "a" [mkColumn [] "id" TI32 false true None; mkColumn [] "n" (TVarchar (if wide then 10 else 9)) false false None]
                                  (mkPrimaryKey [] ["id"]) [] [] [] [] None []] [] [].
Definition noteHash (wide : bool) : string :=
  match dbspecManifest lengthDigest [noteSchema wide] with inl m => mf_schemaHash m | inr _ => "" end.
Definition widePlan : DbspecPlan := mkPlan (mkHeader "wide" (Some (noteHash false)) [] [] [] []) (noteSchema true) (noteHash true).
Definition wideSteps : list DbspecPlanStep := Eval vm_compute in
  match planSteps lengthDigest (Some (noteSchema false)) widePlan Sqlite with Ok (inl ss) => ss | _ => [] end.

Definition workTable : string := "dbspec$rebuild".
(** The tables after each step of the rebuild. *)
Definition wideTables : list (list string) :=
  [["a"]] ++ repeat ["a"; workTable] 5 ++ [[workTable]] ++ repeat ["a"; workTable] 5 ++ [["a"]].

(** The history rows, the tables, which hold no rows, and after how many statements the event
    handler stops a command. *)
Record Server := mkServer { sv_history : gmap string HistoryRow; sv_tables : list string; sv_stop : option nat }.

Definition withTables (t : list string) (w : Server) : Server := mkServer (sv_history w) t (sv_stop w).
Definition withHistory (h : gmap string HistoryRow) (w : Server) : Server := mkServer h (sv_tables w) (sv_stop w).

Definition unquote (s : string) : string := String.substring 1 (String.length s - 2) s.
Definition sqlError (message : string) : thrown := Foreign message (Some 1) None.

(** A catalog in the order of the names. *)
Fixpoint insertName (name : string) (t : list string) : list string :=
  match t with
  | [] => [name]
  | x :: t' => if String.ltb name x then name :: t else x :: insertName name t'
  end.

(** [CREATE TABLE], [DROP TABLE] and [RENAME TO]; [INSERT INTO] and [DELETE FROM]
    find no rows to copy or to delete. *)
Definition runTables (sql : string) : Act Server unit := fun w =>
  let t := sv_tables w in
  match split_on " " sql with
  | "DROP" :: "TABLE" :: [name] =>
      if includes (unquote name) t then (inl tt, withTables (filter (fun x => x <> unquote name) t) w) else (inr (sqlError "no such table"), w)
  | "CREATE" :: "TABLE" :: name :: _ =>
      if includes (unquote name) t then (inr (sqlError "table exists"), w) else (inl tt, withTables (insertName (unquote name) t) w)
  | ["ALTER"; "TABLE"; from; "RENAME"; "TO"; to] =>
      if includes (unquote from) t && negb (includes (unquote to) t)
      then (inl tt, withTables (map (fun x => if decide (x = unquote from) then unquote to else x) t) w) else (inr (sqlError "no such table"), w)
  | "INSERT" :: "INTO" :: _ | "DELETE" :: "FROM" :: _ => (inl tt, w)
  | _ => (inr (sqlError "syntax error"), w)
  end.

Definition serverExec (sql : string) (args : list JsValue) : Act Server unit := fun w =>
  if settingSql sql || bool_decide (sql = Applier.createHistorySql Sqlite) then (inl tt, w)
  else if decide (sql = Applier.insertSql Sqlite) then
    match args with
    | [JString name; JString from; JString to; JString state; JInt step; _; _] =>
        (inl tt, withHistory (<[name := mkHistoryRow from to state step]> (sv_history w)) w)
    | _ => (inr (sqlError "parameters"), w)
    end
  else if decide (sql = Applier.updateSql Sqlite) then
    match args with
    | [JString state; JInt step; JString name] =>
        (inl tt, withHistory (alter (fun row => mkHistoryRow (hr_from row) (hr_to row) state step) name (sv_history w)) w)
    | _ => (inr (sqlError "parameters"), w)
    end
  else if decide (sql = Applier.setStepSql Sqlite) then
    match args with
    | [JInt step; JString name] =>
        (inl tt, withHistory (alter (fun row => mkHistoryRow (hr_from row) (hr_to row) (hr_state row) step) name (sv_history w)) w)
    | _ => (inr (sqlError "parameters"), w)
    end
  else if decide (sql = Applier.deleteSql Sqlite) then
    match args with [JString name] => (inl tt, withHistory (delete name (sv_history w)) w) | _ => (inr (sqlError "parameters"), w) end
  else runTables sql w.

Definition serverRows (sql : string) (args : list JsValue) : Act Server (list (list JsValue)) := fun w =>
  (inl (if decide (sql = Applier.selectHistorySql Sqlite) then map rowCells (map_to_list (sv_history w))
        else if decide (sql = "PRAGMA locking_mode") then [[JString "normal"]]
        else if bool_decide (assoc "table" (EFFECT_QUERIES Sqlite) = Some sql) then
          match args with [JString name] => [[JInt (if includes name (sv_tables w) then 1 else 0)]] | _ => [[JInt 0]] end
        else [[JInt 0]]), w).

(** Introspection leaves out the tables whose names begin with [dbspec$]. *)
Definition serverSchema : Act Server (DbspecDocument * list DbspecUnsupported) := fun w =>
  (inl (schemaOf (filter (fun t => starts_with "dbspec$" t = false) (sv_tables w)), []), w).

Definition serverEvent (e : DbspecApplyEvent) : Act Server unit := fun w =>
  if decide (ev_kind e = "applied") then
    match sv_stop w with
    | Some (S n) => (inl tt, mkServer (sv_history w) (sv_tables w) (Some n))
    | Some O => (inr (Foreign "stop" None None), mkServer (sv_history w) (sv_tables w) None)
    | None => (inl tt, w)
    end
  else (inl tt, w).

#[export] Instance serverHost : Host Server := {
  exec := serverExec;
  rows := serverRows;
  introspectCatalog _ _ := serverSchema;
  now := fun w => (inl 0, w);
  events := Some serverEvent }.

(** ** It keeps the promises *)

Lemma serverExec_setting sql w : settingSql sql = true -> serverExec sql [] w = (inl tt, w).
Proof. unfold serverExec. by intros ->. Qed.

Section keeps.
Context (p : DbspecPlan) (ss : list DbspecPlanStep) (tables : list (list string)).

Definition tablesAt (n : nat) (w : Server) : Prop := tables !! n = Some (sv_tables w).

#[export] Instance serverCalm : Calm Sqlite (fun w w' : Server => sv_history w' = sv_history w /\ forall n, tablesAt n w -> tablesAt n w').
Proof.
  split; try done.
  - intros sql w Hs. cbn [exec serverHost]. by rewrite serverExec_setting.
  - intros f e w [= <-]. unfold serverEvent. destruct (decide _); [|done]. by destruct (sv_stop w) as [[|n]|].
Qed.

(** What the step [i] does to the tables, whatever the history. *)
Record Plays (i : nat) (s : DbspecPlanStep) : Prop := {
  pl_plain : ~ repeats s /\ ps_nullChecks s = [] /\ ps_restore s = "" /\ ps_rollbackRestore s = "" /\ ps_statement s <> "";
  pl_up w : tablesAt i w -> let r := serverExec (ps_statement s) [] w in r.1 = inl tt /\ sv_history r.2 = sv_history w /\ tablesAt (S i) r.2;
  pl_down w : tablesAt (S i) w -> ps_rollback s <> "" ->
    let r := serverExec (ps_rollback s) [] w in r.1 = inl tt /\ sv_history r.2 = sv_history w /\ tablesAt i r.2;
  pl_effect query args w row more w' n : Applier.effectQuery Sqlite (ps_effect s) = Some (query, args) ->
    serverRows query args w = (inl (row :: more), w') -> safeInteger (cell row 0) = Some n ->
    let held := Bool.eqb (0 <? n) (ef_present (ps_effect s)) in
    (tablesAt i w \/ tablesAt (S i) w -> tablesAt (if held then S i else i) w) /\ (~ copies s -> tablesAt i w -> held = false) }.

Lemma plays_database : (forall i s, ss !! i = Some s -> Plays i s) -> PlanDatabase Sqlite p ss sv_history tablesAt.
Proof.
  intros Hplays. split.
  - apply serverCalm.
  - intros w found w' [= <- _]. exists (map_to_list (sv_history w)). split; [apply NoDup_fst_map_to_list|]. split; [apply list_to_map_to_list|done].
  - intros state step steps at_ w r. split; [by left|done].
  - intros state step w r. split; [by left|done].
  - intros step w r. split; [by left|done].
  - intros w r. split; [by left|done].
  - intros i s sql w Hs Hsql Ha. destruct (Hplays i s Hs) as [(Hr & _ & Hre & _) Hup _ _].
    assert (sql = ps_statement s) as -> by (destruct Hsql as [?|[? ?]]; congruence). destruct Ha as [Ha|[? _]]; [|done].
    destruct (Hup w Ha) as (_ & Hh & Hn). split; [done|by left].
  - intros i s sql w Hs [Hsql Hn] Ha. destruct (Hplays i s Hs) as [(Hr & _ & _ & Hre & _) _ Hdown _].
    assert (sql = ps_rollback s) as -> by (destruct Hsql; congruence). destruct Ha as [Ha|[? _]]; [|done].
    destruct (Hdown w Ha Hn) as (_ & Hh & Hi). split; [done|by left].
  - intros i s query args w row more w' n Hs _. by apply (Hplays i s Hs).
  - intros s c dflt w Hs Hc. apply list_elem_of_lookup in Hs as [i Hs]. destruct (Hplays i s Hs) as [(_ & Hnil & _) _ _ _]. rewrite Hnil in Hc.
    by apply elem_of_nil in Hc.
Qed.
End keeps.

(** The tables of a world at a number of steps, computed. *)
Ltac at_tables H := let h := fresh "h" in let t := fresh "t" in
  match type of H with tablesAt _ _ ?w => destruct w as [h t ?]; unfold tablesAt in H; cbn [sv_tables] in H; vm_compute in H; first [discriminate H|injection H as <-] end.

(** One step of a plan, by evaluation. *)
Ltac plays_step := let Ha := fresh "Ha" in let Hc := fresh "Hc" in
  split;
  [ split_and!; try reflexivity; discriminate
  | intros w Ha; at_tables Ha; split_and!; vm_compute; reflexivity
  | intros w Ha Hn; at_tables Ha; first [split_and!; vm_compute; reflexivity|by destruct Hn]
  | intros query args w row more w' n Hq Hrows Hn; vm_compute in Hq; injection Hq as <- <-; split;
    [intros [Ha|Ha]|intros Hc Ha]; at_tables Ha; vm_compute in Hrows; injection Hrows as <- _ _; vm_compute in Hn; injection Hn as <-;
    first [vm_compute; reflexivity|destruct Hc; by first [left; reflexivity|right; reflexivity]] ].

Definition trimAt : nat -> Server -> Prop := tablesAt trimTables.

#[export] Instance trimDatabase : PlanDatabase Sqlite trimPlan trimSteps sv_history trimAt.
Proof.
  apply plays_database. intros i s Hs. do 4 (destruct i as [|i]; [injection Hs as <-; plays_step|]). vm_compute in Hs. discriminate Hs.
Qed.

(** The copies of a rebuild change nothing in an empty table: their effects read
    the same before and after, and the promises hold. *)
#[export] Instance wideDatabase : PlanDatabase Sqlite widePlan wideSteps sv_history (tablesAt wideTables).
Proof.
  apply plays_database. intros i s Hs. do 12 (destruct i as [|i]; [injection Hs as <-; plays_step|]). vm_compute in Hs. discriminate Hs.
Qed.

(** ** Commands of the second plan *)

Definition planRowOf (p : DbspecPlan) (st : string) (step : Z) : HistoryRow := mkHistoryRow (hashOrEmpty (p_from p)) (p_to p) st step.
Definition baseDone : gmap string HistoryRow := {["base" := planRowOf basePlan DONE 3]}.
Definition withTrim (st : string) (step : Z) : gmap string HistoryRow := <["trim" := planRowOf trimPlan st step]> baseDone.
Definition trimPlans : list DbspecPlan := [trimPlan; basePlan].

Definition apply_ (plans : list DbspecPlan) : Act Server unit := applyPlans lengthDigest Sqlite plans.
Definition recover_ (plans : list DbspecPlan) : Act Server unit := recoverPlans lengthDigest Sqlite plans.
Definition rollback_ (plans : list DbspecPlan) : Act Server unit := rollbackPlans lengthDigest Sqlite plans.
Definition finalize_ (plans : list DbspecPlan) : Act Server unit := finalizePlans lengthDigest Sqlite plans.

(** Apply that the handler stops after its first statement, and what recover makes of it. *)
Definition freshServer : Server := mkServer baseDone ["a"; "b"; "c"] (Some O).
Definition stoppedServer : Server := mkServer (withTrim APPLYING 0) ["a"; holdB; "c"] None.
Definition appliedServer : Server := mkServer (withTrim APPLIED 2) ["a"; holdB; holdC] None.

Lemma trimLast : LastOf (W := Server) lengthDigest Sqlite trimPlan trimSteps baseDone trimPlans [basePlan].
Proof.
  split; [vm_compute; reflexivity|intros [w h s]; vm_compute; reflexivity|].
  intros q Hq%list_elem_of_singleton. subst q. exists (planRowOf basePlan DONE 3). done.
Qed.

Example apply_stopped : apply_ trimPlans freshServer = (inr (Foreign "stop" None None), stoppedServer).
Proof. vm_compute. reflexivity. Qed.
Example recover_goes_on : recover_ trimPlans stoppedServer = (inl tt, appliedServer).
Proof. vm_compute. reflexivity. Qed.

(** *** The theorems at the sample *)

Lemma command_outcome_witness : Outcome trimPlan trimSteps sv_history trimAt baseDone CRecover appliedServer.
Proof.
  destruct (command_outcome lengthDigest Sqlite trimPlan trimSteps sv_history trimAt baseDone trimPlans [basePlan] CRecover stoppedServer (inl tt) appliedServer)
    as [_ H]; [exact trimLast| | |exact recover_goes_on|exact (H eq_refl)].
  - right. split; [vm_compute; reflexivity|]. exists APPLYING, 0%nat, 1%nat. split; [vm_compute; reflexivity|]. split; [reflexivity|].
    left. split; [reflexivity|]. split; [by right|]. vm_compute. lia.
  - intros row Hrow. assert (row = planRowOf trimPlan APPLYING 0) as -> by (vm_compute in Hrow; by injection Hrow as <-). discriminate.
Defined.

Definition finalizingServer : Server := mkServer (withTrim FINALIZING 2) ["a"; holdC] None.
Definition doneServer : Server := mkServer (withTrim DONE 4) ["a"] None.

Lemma recover_finalizing_witness : Done trimPlan trimSteps sv_history trimAt baseDone doneServer.
Proof.
  destruct (recover_finalizing lengthDigest Sqlite trimPlan trimSteps sv_history trimAt baseDone trimPlans [basePlan] finalizingServer (inl tt) doneServer)
    as [H _]; [exact trimLast| |vm_compute; reflexivity|exact (H eq_refl)].
  split; [vm_compute; reflexivity|]. exists 2%nat, 3%nat. split; [vm_compute; reflexivity|]. split; [reflexivity|]. split; [by right|]. vm_compute. lia.
Defined.

(** ** Histories that no command leaves *)

Definition stopAfter (n : nat) (w : Server) : Server := mkServer (sv_history w) (sv_tables w) (Some n).
Definition stopped : unit + thrown := inr (Foreign "stop" None None).

(** The database after an interrupted finalize and an interrupted recover of it. *)
Definition stuckServer : Server := mkServer (withTrim FINALIZING 2) ["a"] None.

(** recover of an interrupted finalize does not record where it starts, so
    that a finalize stopped after its first statement, and a recover of it
    stopped after the next one, leave a row that is two steps behind: recover
    runs the second statement again and fails, and no command changes the
    database any more. *)
Theorem finalize_stopped_twice :
  finalize_ trimPlans (stopAfter 0 appliedServer) = (stopped, finalizingServer) /\
  recover_ trimPlans (stopAfter 0 finalizingServer) = (stopped, stuckServer) /\
  recover_ trimPlans stuckServer =
    (inr (ApplyError Failed "trim" 3 (ps_statement (default (step "" "" repeatEffect) (trimSteps !! 3%nat))) (Some (sqlError "no such table"))), stuckServer) /\
  rollback_ trimPlans stuckServer = (inr (ApplyError Irreversible "trim" 2 "a finalize step has no rollback" None), stuckServer) /\
  (forall command, command = apply_ \/ command = finalize_ ->
     command trimPlans stuckServer = (inr (ApplyError Interrupted "trim" 2 "the plan is finalizing; run recover or rollback" None), stuckServer)).
Proof. split_and!; [vm_compute; reflexivity..|]. intros command [->| ->]; vm_compute; reflexivity. Qed.

Definition growPlans : list DbspecPlan := [basePlan; trimPlan; growPlan].
Definition withGrow (st : string) : gmap string HistoryRow := <["grow" := planRowOf growPlan APPLIED 1]> (withTrim st 2).

(** finalize of two applied plans that stops in the first leaves a row before
    the last that is finalizing, and every command, recover too, refuses such
    a history. *)
Theorem finalize_stopped_before_last :
  let stuck := mkServer (withGrow FINALIZING) ["a"; holdC; "d"] None in
  finalize_ growPlans (mkServer (withGrow APPLIED) ["a"; holdB; holdC; "d"] (Some O)) = (stopped, stuck) /\
  forall command, command ∈ [apply_; recover_; rollback_; finalize_] ->
    command growPlans stuck = (inr (ApplyError ChainCode "trim" 0 "a plan before the last is finalizing" None), stuck).
Proof.
  cbv zeta. split; [vm_compute; reflexivity|]. intros command Hc. repeat (apply elem_of_cons in Hc as [->|Hc]; [vm_compute; reflexivity|]). by apply elem_of_nil in Hc.
Qed.

Definition sameNames : list DbspecPlan := [basePlan; trimNamed "base"].
Definition sameNamesServer : Server := mkServer {["base" := planRowOf basePlan APPLIED 2]} ["a"; holdB; holdC] None.

(** a chain may hold two plans of one name; apply records the second in the
    row of the first and succeeds, and then every command refuses the history. *)
Theorem same_name_applied_once :
  chainPlans sameNames = Ok (inl sameNames) /\
  apply_ sameNames (mkServer ∅ [] None) = (inl tt, sameNamesServer) /\
  forall command, command ∈ [apply_; recover_; rollback_; finalize_] ->
    command sameNames sameNamesServer =
      (inr (ApplyError ChainCode "base" 0 "the recorded plan has other hashes than the chain's plan" None), sameNamesServer).
Proof.
  split_and!; [vm_compute; reflexivity..|]. intros command Hc. repeat (apply elem_of_cons in Hc as [->|Hc]; [vm_compute; reflexivity|]). by apply elem_of_nil in Hc.
Qed.
