(* ===== verification/Relations.v ===== *)
(** * Running the steps of a plan ([database.ts], [parentValues] to [rootInParts])

    A relation step is bound to the key values of its parent rows: the values
    are cut into chunks that fit the bind limit of the driver, and the one
    placeholder of the parent values is expanded for each chunk.  A long IN list
    of the root is split into requests of their own.  Sending a statement is the
    driver's; the rows of a step are an argument here. *)

From S2P Require Import Prelude Lex Ir Values Canonical Decimal Times Keys.

Definition driverLimit (driver : string) : Z := if decide (driver = "sqlite") then 999 else 65535.

(** The row lock of a read: the lock of its root, or else of its first relation
    step, depth first, that has one. *)
Fixpoint requestLock (q : RequestQuery) : string :=
  let own := default "" (q_lock q) in
  if decide (own <> "") then own
  else match q_relations q with
       | None => ""
       | Some rs => foldr (fun lock rest => if decide (lock <> "") then lock else rest) "" (map relationLock rs)
       end
with relationLock (r : Relation) : string := requestLock (r_query r).

(** The parent reference of a relation step. *)
Definition stepParent (step : PlanStep) : res ParentReference :=
  present (st_parent step) (str ["the parent of relation step "; pretty (Z.of_nat (st_id step))]).

(** [params[i]] *)
Definition paramAt (params : list JsValue) (i : Z) : JsValue :=
  if i <? 0 then JUndefined else default JUndefined (params !! Z.to_nat i).

(** ** Parent values *)

Definition parentRow (ref : ParentReference) (params : list JsValue) (acc : list string * list JsValue) (row : list JsValue)
    : res (list string * list JsValue) :=
  let '(seen, out) := acc in
  let skipped := match pr_if_parent ref with
                 | Some ip => negb (bool_decide (scalarKey (cell row (pip_index ip)) = scalarKey (paramAt params (pip_param ip))))
                 | None => false
                 end in
  if skipped then Ok acc
  else
    key ← rowKey row (pr_keys ref);
    match key with
    | None => Ok acc
    | Some key =>
        if includes key seen then Ok acc
        else Ok (seen ++ [key], out ++ map (fun part => cell row (kr_index part)) (pr_keys ref))
    end.

(** The distinct keys of the parent rows that the step loads for, one after another. *)
Definition parentValues (step : PlanStep) (parents : list (list JsValue)) (params : list JsValue) : res (list JsValue) :=
  ref ← stepParent step;
  acc ← foldR (parentRow ref params) ([], []) parents;
  Ok (snd acc).

(** ** Chunks *)

(** [while (size * 2 <= max) size *= 2] *)
Fixpoint powerBelow (fuel size max : nat) : nat :=
  match fuel with
  | O => size
  | S fuel => if (size * 2 <=? max)%nat then powerBelow fuel (size * 2) max else size
  end.

(** [for (let start = 0; start < tuples; start += size)] *)
Fixpoint chunksFrom {A} (fuel size width start tuples : nat) (values : list A) : list (list A) :=
  if (start <? tuples)%nat then
    match fuel with
    | O => []
    | S fuel =>
        take (Nat.min (start + size) tuples * width - start * width) (drop (start * width) values)
        :: chunksFrom fuel size width (start + size) tuples values
    end
  else [].

Definition isParentSlot (s : BindSlot) : bool := bool_decide (bs_from s = "parent").

(** The chunks of the parent values; without a key the size loop would not end. *)
Definition relationChunks (step : PlanStep) (values : list JsValue) (driver : string) : res (list (list JsValue)) :=
  ref ← stepParent step;
  let width := length (pr_keys ref) in
  let nonParent := length (filter (fun s => negb (isParentSlot s) = true) (st_bind_slots step)) in
  if (width =? 0)%nat then Err OutOfFuel
  else
    let max := (driverLimit driver - Z.of_nat nonParent) / Z.of_nat width in
    if max <? 1
    then Err (OrmError IR_INVALID (str ["relation "; pretty (Z.of_nat (st_id step)); " needs more bind parameters than "; driver; " permits"]))
    else
      let size := powerBelow (Z.to_nat max) 1 (Z.to_nat max) in
      let tuples := (length values / width)%nat in
      Ok (chunksFrom tuples size width 0 tuples values).

(** ** Expanding the placeholder of the parent values *)

(** [while (values.length < size * width) values.push(...last)] *)
Fixpoint padValues {A} (fuel target : nat) (last values : list A) : res (list A) :=
  if (length values <? target)%nat then
    match fuel with O => Err OutOfFuel | S fuel => padValues fuel target last (values ++ last) end
  else Ok values.

(** The placeholders of [count] values, in groups of [width]. *)
Definition parentList (width count : nat) (format : nat -> string) : string :=
  str (map (fun m => str [(if (0 <? m)%nat then if (1 <? width)%nat && (m mod width =? 0)%nat then "), (" else ", " else ""); format m])
         (seq 0 count)).

(** [sql.replace(/\$(\d+)/g, ...)] *)
Fixpoint replaceDollar (fuel : nat) (f : Z -> string) (sql : string) : string :=
  match fuel with
  | O => ""
  | S fuel =>
      match sql with
      | EmptyString => ""
      | String a rest =>
          if decide (a = "$"%char) then
            let '(digits, after) := digitsUpTo (String.length rest) rest in
            if decide (digits = "") then String a (replaceDollar fuel f rest)
            else f (num digits) +:+ replaceDollar fuel f after
          else String a (replaceDollar fuel f rest)
      end
  end.

(** [sql.replace(/\?/g, ...)] with the counter [slot] *)
Fixpoint replaceMarks (f : nat -> string) (slot : nat) (sql : string) : string :=
  match sql with
  | EmptyString => ""
  | String a rest =>
      if decide (a = "?"%char) then f slot +:+ replaceMarks f (S slot) rest else String a (replaceMarks f slot rest)
  end.

(** [sql.includes(part)] *)
Fixpoint has_text (part s : string) : bool :=
  starts_with part s || match s with EmptyString => false | String _ s => has_text part s end.

Fixpoint findSlot (slots : list BindSlot) (i : Z) : Z :=
  match slots with [] => -1 | s :: slots => if isParentSlot s then i else findSlot slots (i + 1) end.

Definition expandParent (step : PlanStep) (source : list JsValue) : res (string * list JsValue) :=
  ref ← stepParent step;
  let width := length (pr_keys ref) in
  let tuples := (length source / width)%nat in
  let size := bucketOf tuples in
  let count := (size * width)%nat in
  values ← padValues count count (drop ((tuples - 1) * width) source) source;
  let parent := findSlot (st_bind_slots step) 0 + 1 in
  let sql := st_sql step in
  Ok (if has_text "$1" sql
      then replaceDollar (S (String.length sql))
             (fun n => if n =? parent then parentList width count (fun m => str ["$"; pretty (n + Z.of_nat m)])
                       else str ["$"; pretty (if parent <? n then n + Z.of_nat count - 1 else n)]) sql
      else replaceMarks (fun slot => match st_bind_slots step !! slot with
                                     | Some s => if isParentSlot s then parentList width count (fun _ => "?") else "?"
                                     | None => "?"
                                     end) 0 sql, values).

(** ** Attaching the rows *)

(** The keys of the relation child that step [id] loads, in an assemble. *)
Fixpoint findChild (id : nat) (a : Assemble) : option (list KeyReference) :=
  foldr (fun found rest => match found with Some k => Some k | None => rest end) None (map (childOf id) (as_children a))
with childOf (id : nat) (c : Child) : option (list KeyReference) :=
  if bool_decide (ch_kind c <> "join") && (ch_step c =? id)%nat then Some (ch_child_keys c)
  else if bool_decide (ch_kind c = "join") then match ch_assemble c with Some a => findChild id a | None => None end
  else None.

Definition childKeys (plan : Plan) (id : nat) : res (list KeyReference) :=
  or_fail (foldr (fun step rest => match st_assemble step ≫= findChild id with Some k => Some k | None => rest end) None (pl_steps plan))
    INTERNAL (str ["relation step "; pretty (Z.of_nat id); " has no child"]).

(** The row positions of a step by their key. *)
Definition groupRow (keys : list KeyReference) (byKey : list (string * list nat)) (e : nat * list JsValue)
    : res (list (string * list nat)) :=
  key ← rowKey (snd e) keys;
  Ok match key with
     | None => byKey
     | Some key => assoc_set key (default [] (assoc key byKey) ++ [fst e]) byKey
     end.

Definition groupByKey (keys : list KeyReference) (data : list (list JsValue)) : res (list (string * list nat)) :=
  foldR (groupRow keys) [] (zip (seq 0 (length data)) data).

(** ** Powers of two *)

Lemma powerBelow_spec fuel j max : (2 ^ j <= max)%nat -> (max < 2 ^ j + fuel)%nat ->
  exists k, powerBelow fuel (2 ^ j) max = (2 ^ k)%nat /\ (2 ^ k <= max)%nat.
Proof.
  revert j. induction fuel as [|fuel IH]; intros j Hj Hf; [lia|]. simpl.
  replace (2 ^ j * 2)%nat with (2 ^ S j)%nat by (simpl; lia).
  destruct (Nat.leb_spec (2 ^ S j) max) as [Hle|Hgt]; [|by exists j]. apply IH; [done|]. pose proof (Nat.pow_nonzero 2 j). simpl in *. lia.
Qed.

Lemma bucketFrom_le_power fuel j n k : (n <= 2 ^ k)%nat -> (2 ^ j <= 2 ^ k)%nat -> (bucketFrom fuel (2 ^ j) n <= 2 ^ k)%nat.
Proof.
  intros Hn. revert j. induction fuel as [|fuel IH]; intros j Hj; simpl; [done|]. destruct (Nat.ltb_spec (2 ^ j) n); [|done].
  replace (2 ^ j + (2 ^ j + 0))%nat with (2 ^ S j)%nat by (simpl; lia). apply IH.
  apply Nat.pow_le_mono_r; [lia|]. assert (2 ^ j < 2 ^ k)%nat as Hl by lia. apply Nat.pow_lt_mono_r_iff in Hl; lia.
Qed.

Lemma bucketOf_le_power n k : (n <= 2 ^ k)%nat -> (bucketOf n <= 2 ^ k)%nat.
Proof. intros. apply (bucketFrom_le_power n 0 n k); [done|]. pose proof (Nat.pow_nonzero 2 k). simpl. lia. Qed.

Lemma bucketOf_ge n : (n <= bucketOf n)%nat.
Proof. destruct n as [|n]; [lia|]. by apply bucketOf_bounds; lia. Qed.

(** ** Chunks of a list of tuples *)

Lemma chunksFrom_concat {A} fuel size width start tuples (values : list A) :
  (0 < size)%nat -> (tuples <= start + fuel)%nat ->
  concat (chunksFrom fuel size width start tuples values) = take (tuples * width - start * width) (drop (start * width) values).
Proof.
  intros Hs. revert start. induction fuel as [|fuel IH]; intros start Hf; simpl; destruct (Nat.ltb_spec start tuples) as [Hlt|Hge]; try lia.
  - assert (tuples * width - start * width = 0)%nat as -> by nia. by rewrite take_0.
  - simpl. rewrite IH by lia. set (l := drop (start * width) values).
    assert (drop ((start + size) * width) values = drop (size * width) l) as ->.
    { unfold l. rewrite drop_drop. f_equal. lia. }
    destruct (decide (start + size <= tuples)%nat) as [Hle|Hgt].
    + rewrite Nat.min_l by lia. replace ((start + size) * width - start * width)%nat with (size * width)%nat by nia.
      replace (tuples * width - start * width)%nat with (size * width + (tuples * width - (start + size) * width))%nat by nia.
      by rewrite <- take_take_drop.
    + rewrite Nat.min_r by lia. assert (tuples * width - (start + size) * width = 0)%nat as -> by nia. rewrite take_0. apply app_nil_r.
  - assert (tuples * width - start * width = 0)%nat as -> by nia. by rewrite take_0.
Qed.

Lemma chunksFrom_length {A} fuel size width start tuples (values : list A) chunk :
  (0 < size)%nat -> (tuples * width <= length values)%nat -> chunk ∈ chunksFrom fuel size width start tuples values ->
  exists c, (1 <= c <= size)%nat /\ length chunk = (c * width)%nat.
Proof.
  intros Hs Hl. revert start. induction fuel as [|fuel IH]; intros start; simpl; destruct (Nat.ltb_spec start tuples) as [Hlt|Hge];
    try (by rewrite elem_of_nil). rewrite elem_of_cons. intros [->|Hin]; [|by eapply IH].
  rewrite length_take, length_drop. exists (Nat.min (start + size) tuples - start)%nat. split; [lia|].
  assert (Nat.min (start + size) tuples * width <= tuples * width)%nat by (apply Nat.mul_le_mono_r; lia). nia.
Qed.

(** ** Padding *)

Lemma padValues_spec {A} fuel t size width (last values : list A) :
  length values = (t * width)%nat -> length last = width -> (0 < width)%nat -> (t <= size)%nat -> (size <= t + fuel)%nat ->
  padValues fuel (size * width) last values = Ok (values ++ concat (replicate (size - t) last)).
Proof.
  intros Hv Hl Hw. revert t values Hv. induction fuel as [|fuel IH]; intros t values Hv Ht Hf; simpl;
    destruct (Nat.ltb_spec (length values) (size * width)) as [Hlt|Hge]; try nia.
  - assert (size = t) as -> by lia. by rewrite Nat.sub_diag, app_nil_r.
  - assert (t < size)%nat by nia. rewrite (IH (S t)) by (rewrite ?length_app; simpl; lia).
    replace (size - t)%nat with (S (size - S t)) by lia. simpl. by rewrite app_assoc.
  - assert (size = t) as -> by nia. by rewrite Nat.sub_diag, app_nil_r.
Qed.

Lemma elem_of_concat_replicate {A} (x : A) n l : x ∈ concat (replicate n l) -> x ∈ l.
Proof. induction n as [|n IH]; simpl; [by rewrite elem_of_nil|]. rewrite elem_of_app. naive_solver. Qed.

Definition keyWidth (step : PlanStep) (width : nat) : Prop := exists ref, st_parent step = Some ref /\ width = length (pr_keys ref).

(** The values that a chunk of [t] tuples is bound with. *)
Lemma expandParent_values step width t source : keyWidth step width -> (0 < width)%nat -> (1 <= t)%nat -> length source = (t * width)%nat ->
  exists sql values, expandParent step source = Ok (sql, values) /\ length values = (bucketOf t * width)%nat /\
    (forall x, x ∈ values <-> x ∈ source).
Proof.
  intros (ref & Hp & ->) Hw Ht Hs. unfold expandParent, stepParent. rewrite Hp. cbn [present mbind res_bind].
  set (width := length (pr_keys ref)) in *.
  assert (length source / width = t)%nat as -> by (rewrite Hs; apply Nat.div_mul; lia).
  pose proof (bucketOf_bounds t Ht) as Hb.
  rewrite (padValues_spec _ t (bucketOf t) width).
  2: done. 2: rewrite length_drop, Hs; nia. 2: done. 2: lia. 2: nia.
  eexists _, _. split; [reflexivity|]. split.
  - rewrite length_app, Hs. assert (length (concat (replicate (bucketOf t - t) (drop ((t - 1) * width) source))) = (bucketOf t - t) * width)%nat as ->.
    { generalize (bucketOf t - t)%nat. intros n. induction n as [|n IH]; [done|]. simpl. rewrite length_app, IH, length_drop, Hs. nia. }
    nia.
  - intros x. rewrite elem_of_app. split; [|by left]. intros [?|Hx]; [done|]. apply elem_of_concat_replicate in Hx.
    rewrite <- (take_drop ((t - 1) * width) source). apply elem_of_app. by right.
Qed.

(** C19: the parent values of a relation step are cut into chunks that hold every
    value once, in order, and the statement of each chunk stays within the bind
    limit of the driver even after its values are padded to a power of two;
    the padding adds no value of its own. *)
Theorem relationChunks_fit (step : PlanStep) (values : list JsValue) (driver : string) (chunks : list (list JsValue)) (width n : nat) :
  keyWidth step width -> length values = (n * width)%nat -> relationChunks step values driver = Ok chunks ->
  concat chunks = values /\
  Forall (fun chunk => exists sql bound, expandParent step chunk = Ok (sql, bound) /\ (forall x, x ∈ bound <-> x ∈ chunk) /\
    Z.of_nat (length bound + length (filter (fun s => negb (isParentSlot s) = true) (st_bind_slots step))) <= driverLimit driver) chunks.
Proof.
  intros Hk Hl. pose proof Hk as (ref & Hp & Hw). unfold relationChunks, stepParent. rewrite Hp. cbn [present mbind res_bind].
  rewrite <- Hw. set (other := length (filter _ _)). destruct (Nat.eqb_spec width 0) as [|Hnz]; [done|].
  set (max := (driverLimit driver - Z.of_nat other) / Z.of_nat width). destruct (Z.ltb_spec max 1) as [|Hmax]; [done|].
  intros [= <-]. destruct (powerBelow_spec (Z.to_nat max) 0 (Z.to_nat max)) as (k & Ek & Hle); [simpl; lia..|].
  change (2 ^ 0)%nat with 1%nat in Ek. rewrite Ek. pose proof (Nat.pow_nonzero 2 k) as Hpos.
  assert (length values / width = n)%nat as -> by (rewrite Hl; apply Nat.div_mul; lia). split.
  - rewrite chunksFrom_concat by lia. rewrite Nat.mul_0_l, drop_0, Nat.sub_0_r. apply take_ge. lia.
  - apply Forall_forall. intros chunk Hc. apply chunksFrom_length in Hc as (c & Hcs & Hcl); [|lia|lia].
    destruct (expandParent_values step width c chunk) as (sql & bound & E & Lb & Hx); [done|lia|lia|done|].
    exists sql, bound. split_and!; [done|done|]. pose proof (bucketOf_le_power c k ltac:(lia)) as Hb. rewrite Lb.
    assert (max * Z.of_nat width <= driverLimit driver - Z.of_nat other) as Hm.
    { unfold max. rewrite Z.mul_comm. apply Z.mul_div_le. lia. }
    assert (Z.of_nat (bucketOf c) <= max) by lia. nia.
Qed.

(** ** The expanded statement *)

(** A text that a scan for question marks leaves as it is. *)
Definition noMark (t : string) : Prop := has_char "?" t = false.

Lemma replaceMarks_text f slot t rest : noMark t -> replaceMarks f slot (t +:+ rest) = t +:+ replaceMarks f slot rest.
Proof.
  unfold noMark. induction t as [|a t IH]; [done|]. simpl. intros [Ha Ht]%orb_false_iff. apply bool_decide_eq_false in Ha.
  change (String.append (String a t) rest) with (String a (t +:+ rest)). simpl. rewrite decide_False by done. by rewrite IH.
Qed.

Lemma replaceMarks_weave f slot texts n : length texts = S n -> Forall noMark texts ->
  replaceMarks f slot (weave texts (replicate n "?")) = weave texts (map f (seq slot n)).
Proof.
  intros Hl Ht. revert slot n Hl. induction Ht as [|t texts Ht Hts IH]; intros slot n Hl; [done|]. simpl in Hl. injection Hl as Hl.
  destruct n as [|n].
  - destruct texts; [|done]. simpl. rewrite <- (string_app_nil_r t) at 1. rewrite replaceMarks_text by done. simpl. by rewrite string_app_nil_r.
  - simpl. rewrite replaceMarks_text by done. f_equal. change ("?" +:+ ?x) with (String "?" x). simpl. by rewrite IH.
Qed.

(** A text that a scan for numbered placeholders leaves as it is, and that does
    not go on the number of one before it. *)
Definition noDollar (t : string) : Prop := has_char "$" t = false /\ match t with String a _ => is_digit a = false | EmptyString => True end.

Definition startsDigit (t : string) : bool := match t with String a _ => is_digit a | EmptyString => false end.

Lemma replaceDollar_text fuel f t rest : (String.length t <= fuel)%nat -> has_char "$" t = false ->
  replaceDollar fuel f (t +:+ rest) = t +:+ replaceDollar (fuel - String.length t) f rest.
Proof.
  revert fuel. induction t as [|a t IH]; intros fuel Hf; [by rewrite Nat.sub_0_r|]. simpl. intros [Ha Ht]%orb_false_iff.
  apply bool_decide_eq_false in Ha. destruct fuel as [|fuel]; [simpl in Hf; lia|].
  change (String.append (String a t) rest) with (String a (t +:+ rest)). simpl. rewrite decide_False by done. rewrite IH; [done|simpl in Hf; lia|done].
Qed.

Lemma digitsUpTo_app n d rest : all_digits d = true -> startsDigit rest = false -> (String.length d <= n)%nat ->
  digitsUpTo n (d +:+ rest) = (d, rest).
Proof.
  revert d. induction n as [|n IH]; intros [|a d] Hd Hr Hn; simpl in Hn; try lia; [done| |].
  - change ("" +:+ rest) with rest. destruct rest as [|b rest]; [done|]. simpl in *. by rewrite Hr.
  - apply andb_true_iff in Hd as [Ha Hd]. rewrite string_app_cons. simpl. rewrite Ha. rewrite IH by (done || lia). done.
Qed.

Lemma replaceDollar_mark fuel f n rest : 0 <= n -> startsDigit rest = false ->
  replaceDollar (S fuel) f (str ["$"; pretty n] +:+ rest) = f n +:+ replaceDollar fuel f rest.
Proof.
  intros Hn Hr. destruct (digits_pretty n Hn) as (Hd & Hv & Hne).
  assert (str ["$"; pretty n] +:+ rest = String "$" (pretty n +:+ rest)) as ->.
  { unfold str. by rewrite string_app_nil_r. }
  cbn [replaceDollar]. rewrite decide_True by done. rewrite digitsUpTo_app by (done || (rewrite string_length_app; lia)).
  rewrite decide_False by done. unfold num. by rewrite Hv.
Qed.

Lemma replaceDollar_fuel fuel fuel' f s : (String.length s < fuel)%nat -> (String.length s < fuel')%nat -> replaceDollar fuel f s = replaceDollar fuel' f s.
Proof.
  assert (forall n r d a, digitsUpTo n r = (d, a) -> (String.length a <= String.length r)%nat) as Hd.
  { induction n as [|n IH]; intros [|c r] d a; simpl; try (by intros [= <- <-]).
    destruct (is_digit c); [|by intros [= <- <-]]. destruct (digitsUpTo n r) as [d' a'] eqn:E. intros [= <- <-]. apply IH in E. lia. }
  revert fuel' s. induction fuel as [|fuel IH]; intros [|fuel'] s H1 H2; try lia. destruct s as [|a s]; [done|]. simpl in H1, H2. simpl.
  destruct (decide (a = "$"%char)); [|f_equal; apply IH; lia].
  destruct (digitsUpTo (String.length s) s) as [d r] eqn:E. apply Hd in E.
  destruct (decide (d = "")); f_equal; apply IH; lia.
Qed.

Lemma length_weave_cons t m texts marks : String.length (weave (t :: texts) (m :: marks)) = (String.length t + (String.length m + String.length (weave texts marks)))%nat.
Proof. simpl. by rewrite !string_length_app. Qed.

Definition dollar (n : nat) : string := str ["$"; pretty (Z.of_nat n)].

Lemma replaceDollar_weave fuel f texts k n : (String.length (weave texts (map dollar (seq k n))) < fuel)%nat ->
  length texts = S n -> Forall noDollar texts ->
  replaceDollar fuel f (weave texts (map dollar (seq k n))) = weave texts (map (fun i => f (Z.of_nat i)) (seq k n)).
Proof.
  intros Hf Hl Ht. revert fuel k n Hf Hl. induction Ht as [|t texts [Ht Hd] Hts IH]; intros fuel k n Hf Hl; [done|].
  simpl in Hl. injection Hl as Hl. destruct n as [|n].
  - destruct texts; [|done]. simpl in *. rewrite <- (string_app_nil_r t) at 1. rewrite replaceDollar_text by (done || lia).
    rewrite (replaceDollar_fuel _ 1) by (simpl; lia). simpl. by rewrite string_app_nil_r.
  - change (map dollar (seq k (S n))) with (dollar k :: map dollar (seq (S k) n)) in *. rewrite length_weave_cons in Hf.
    change (weave (t :: texts) (dollar k :: map dollar (seq (S k) n))) with (t +:+ (dollar k +:+ weave texts (map dollar (seq (S k) n)))).
    rewrite replaceDollar_text by (done || lia). destruct (fuel - String.length t)%nat as [|fuel'] eqn:Ef; [lia|]. unfold dollar at 1.
    rewrite replaceDollar_mark; [|lia|].
    + simpl. do 2 f_equal. apply IH; [|done]. assert (0 < String.length (dollar k))%nat by (unfold dollar, str; simpl; lia). lia.
    + destruct texts as [|u texts]; [done|]. inversion Hts as [|? ? [_ Hu] _]; subst. destruct n as [|n]; simpl; destruct u as [|c u]; simpl in *; try done.
      all: destruct (map dollar (seq (S (S k)) n)); done.
Qed.

(** ** The placeholders of the parent values *)

(** The slots of a relation step: one of them holds the parent values. *)
Definition oneParent (pre : list BindSlot) (p : BindSlot) (post : list BindSlot) : Prop :=
  isParentSlot p = true /\ Forall (fun s => isParentSlot s = false) (pre ++ post).

Lemma findSlot_one pre p post i : oneParent pre p post -> findSlot (pre ++ p :: post) i = i + Z.of_nat (length pre).
Proof.
  intros [Hp [Ha _]%Forall_app]. revert i. induction Ha as [|s pre Hs Ha IH]; intros i; simpl; [rewrite Hp; lia|]. rewrite Hs, IH. lia.
Qed.

Lemma expandParent_ok step width t source : keyWidth step width -> (0 < width)%nat -> (1 <= t)%nat -> length source = (t * width)%nat ->
  exists values, length values = (bucketOf t * width)%nat /\ (forall x, x ∈ values <-> x ∈ source) /\
    expandParent step source = Ok (let count := (bucketOf t * width)%nat in let parent := findSlot (st_bind_slots step) 0 + 1 in
      if has_text "$1" (st_sql step)
      then replaceDollar (S (String.length (st_sql step)))
             (fun n => if n =? parent then parentList width count (fun m => str ["$"; pretty (n + Z.of_nat m)])
                       else str ["$"; pretty (if parent <? n then n + Z.of_nat count - 1 else n)]) (st_sql step)
      else replaceMarks (fun slot => match st_bind_slots step !! slot with
                                     | Some s => if isParentSlot s then parentList width count (fun _ => "?") else "?"
                                     | None => "?"
                                     end) 0 (st_sql step), values).
Proof.
  intros Hk Hw Ht Hs. destruct (expandParent_values step width t source Hk Hw Ht Hs) as (sql & values & E & Hl & Hx).
  exists values. split_and!; [done|done|]. revert E. destruct Hk as (ref & Hp & ->). unfold expandParent, stepParent. rewrite Hp.
  cbn [present mbind res_bind]. assert (length source / length (pr_keys ref) = t)%nat as -> by (rewrite Hs; apply Nat.div_mul; lia).
  destruct (padValues _ _ _ _); simpl; [|done]. intros [= <- ->]. done.
Qed.

Lemma map_seq_slots {B} (f : option BindSlot -> B) slots k : 
  map (fun i => f (slots !! (i - k)%nat)) (seq k (length slots)) = map (fun s => f (Some s)) slots.
Proof.
  revert k. induction slots as [|s slots IH]; intros k; [done|]. simpl. rewrite Nat.sub_diag. f_equal.
  rewrite <- (IH (S k)). apply map_ext_in. intros i Hi%in_seq. f_equal. by replace (i - k)%nat with (S (i - S k)) by lia.
Qed.

(** on a dialect whose placeholders are question marks, the statement of a
    chunk has one placeholder for each value of the chunk, padded, in the place
    of the parent slot, and one for each other slot, in the order of the slots;
    the texts between the placeholders are those of the step. *)
Theorem expandParent_marks (step : PlanStep) (source : list JsValue) (width t : nat) (texts : list string) :
  keyWidth step width -> (0 < width)%nat -> (1 <= t)%nat -> length source = (t * width)%nat ->
  length texts = S (length (st_bind_slots step)) -> Forall noMark texts ->
  st_sql step = weave texts (replicate (length (st_bind_slots step)) "?") -> has_text "$1" (st_sql step) = false ->
  exists values, length values = (bucketOf t * width)%nat /\
    expandParent step source =
      Ok (weave texts (map (fun s => if isParentSlot s then parentList width (length values) (fun _ => "?") else "?") (st_bind_slots step)), values).
Proof.
  intros Hk Hw Ht Hs Hl Hm Hsql Hd. destruct (expandParent_ok step width t source Hk Hw Ht Hs) as (values & Hv & _ & E).
  exists values. split; [done|]. rewrite E. cbv zeta. rewrite Hd, Hsql, replaceMarks_weave by done. do 3 f_equal.
  set (f := fun o : option BindSlot => match o with Some s => if isParentSlot s then parentList width (bucketOf t * width) (fun _ => "?") else "?" | None => "?" end).
  rewrite Hv, <- (map_seq_slots f _ 0). apply map_ext. intros i. by rewrite Nat.sub_0_r.
Qed.

Lemma has_text_weave a t rest : has_text "$1" rest = true -> has_text "$1" (t +:+ String a rest) = true.
Proof. intros H. induction t as [|b t IH]; [|rewrite string_app_cons; simpl; by rewrite IH, orb_true_r]. simpl. by rewrite H, orb_true_r. Qed.

Lemma weave_dollar t texts n : has_text "$1" (weave (t :: texts) (map dollar (seq 1 (S n)))) = true.
Proof.
  change (weave (t :: texts) (map dollar (seq 1 (S n)))) with (t +:+ (dollar 1 +:+ weave texts (map dollar (seq 2 n)))).
  change (dollar 1 +:+ ?x) with (String "$" (String "1" x)). induction t as [|a t IH]; [done|].
  rewrite string_app_cons. simpl. by rewrite IH, orb_true_r.
Qed.

(** The number of the first value of slot [i] when every parent slot holds [count] values. *)
Definition firstNumber (count : nat) (slots : list BindSlot) (i : nat) : nat :=
  S (sum_list (map (fun s => if isParentSlot s then count else 1%nat) (take i slots))).

Lemma firstNumber_plain count slots i : Forall (fun s => isParentSlot s = false) (take i slots) -> (i <= length slots)%nat ->
  firstNumber count slots i = S i.
Proof.
  unfold firstNumber. intros H Hi. f_equal. rewrite <- (length_take_le slots i) at 2 by done. induction H as [|s l Hs _ IH]; [done|].
  simpl. by rewrite Hs, IH.
Qed.

Lemma sum_plain count l : Forall (fun s => isParentSlot s = false) l -> sum_list (map (fun s => if isParentSlot s then count else 1%nat) l) = length l.
Proof. induction 1 as [|s l Hs _ IH]; [done|]. simpl. by rewrite Hs, IH. Qed.

Lemma firstNumber_one count pre p post i : oneParent pre p post -> (i <= length (pre ++ p :: post))%nat ->
  firstNumber count (pre ++ p :: post) i = if (i <=? length pre)%nat then S i else (i + count)%nat.
Proof.
  intros [Hp [Ha Hb]%Forall_app] Hi. unfold firstNumber. rewrite length_app in Hi. simpl in Hi. destruct (Nat.leb_spec i (length pre)).
  - rewrite take_app_le by done. rewrite sum_plain by (by apply Forall_take). rewrite length_take. lia.
  - rewrite take_app_ge by lia. replace (i - length pre)%nat with (S (i - length pre - 1)) by lia. rewrite firstn_cons, map_app.
    assert (forall (l k : list nat), sum_list (l ++ k) = (sum_list l + sum_list k)%nat) as Hsum by (induction l; intros; simpl; [done|rewrite IHl; lia]).
    rewrite Hsum. simpl. rewrite Hp. rewrite !sum_plain by (done || by apply Forall_take). rewrite length_take. lia.
Qed.

Lemma findSlot_eq step pre p post : st_bind_slots step = pre ++ p :: post -> oneParent pre p post -> findSlot (st_bind_slots step) 0 = 0 + Z.of_nat (length pre).
Proof. intros ->. apply findSlot_one. Qed.

Lemma oneParent_at pre p post i s : oneParent pre p post -> (pre ++ p :: post) !! i = Some s -> isParentSlot s = bool_decide (i = length pre).
Proof.
  intros [Hp [Ha Hb]%Forall_app] Hi. rewrite Forall_lookup in Ha, Hb. destruct (decide (i < length pre)%nat).
  - rewrite lookup_app_l in Hi by done. rewrite bool_decide_false by lia. by eapply Ha.
  - rewrite lookup_app_r in Hi by lia. destruct (i - length pre)%nat as [|j] eqn:Ej; simpl in Hi.
    + injection Hi as <-. rewrite bool_decide_true by lia. done.
    + rewrite bool_decide_false by lia. by eapply Hb.
Qed.

(** on PostgreSQL the statement of a chunk is renumbered: the placeholder of
    each slot names the position of its value among the bound values, where the
    parent slot holds the padded values of the chunk and every other slot one. *)
Theorem expandParent_numbers (step : PlanStep) (source : list JsValue) (width t : nat) (texts : list string) pre p post :
  keyWidth step width -> (0 < width)%nat -> (1 <= t)%nat -> length source = (t * width)%nat ->
  st_bind_slots step = pre ++ p :: post -> oneParent pre p post ->
  length texts = S (length (st_bind_slots step)) -> Forall noDollar texts ->
  st_sql step = weave texts (map dollar (seq 1 (length (st_bind_slots step)))) ->
  exists values, length values = (bucketOf t * width)%nat /\
    expandParent step source =
      Ok (weave texts (imap (fun i s => let n := firstNumber (length values) (st_bind_slots step) i in
            if isParentSlot s then parentList width (length values) (fun m => dollar (n + m)) else dollar n) (st_bind_slots step)), values).
Proof.
  intros Hk Hw Ht Hs Hslots Hone Hl Hm Hsql. destruct (expandParent_ok step width t source Hk Hw Ht Hs) as (values & Hv & _ & E).
  exists values. split; [done|]. rewrite E. cbv zeta. rewrite <- Hv. rewrite Hsql.
  destruct texts as [|u texts]; [done|]. assert (exists n, length (st_bind_slots step) = S n) as [n En].
  { rewrite Hslots, length_app. simpl. exists (length pre + length post)%nat. lia. }
  rewrite En at 1. rewrite weave_dollar. rewrite replaceDollar_weave by (done || lia). do 3 f_equal.
  apply list_eq. intros i. rewrite list_lookup_imap, list_lookup_fmap. destruct (st_bind_slots step !! i) as [s|] eqn:Ei.
  - assert (i < length (st_bind_slots step))%nat as Hi by (by eapply lookup_lt_Some). rewrite lookup_seq_lt by done. cbn [fmap option_fmap option_map]. f_equal.
    rewrite (findSlot_eq step pre p post Hslots Hone). rewrite Hslots in Ei, Hi |- *. rewrite (firstNumber_one _ _ _ _ _ Hone) by lia.
    rewrite (oneParent_at pre p post i s Hone Ei). destruct (decide (i = length pre)) as [->|Hne].
    + rewrite bool_decide_true by done. replace (Z.of_nat (1 + length pre) =? 0 + Z.of_nat (length pre) + 1) with true by (symmetry; apply Z.eqb_eq; lia). cbv zeta.
      rewrite Nat.leb_refl. unfold parentList. f_equal. apply map_ext. intros m. unfold dollar. repeat f_equal. lia.
    + rewrite bool_decide_false by done. unfold dollar.
      replace (Z.of_nat (1 + i) =? 0 + Z.of_nat (length pre) + 1) with false by (symmetry; apply Z.eqb_neq; lia). cbv zeta. do 3 f_equal.
      destruct (Nat.leb_spec i (length pre)), (Z.ltb_spec (0 + Z.of_nat (length pre) + 1) (Z.of_nat (1 + i))); f_equal; lia.
  - apply lookup_ge_None in Ei. rewrite lookup_seq_ge by lia. done.
Qed.

(** ** The keys that a relation step loads *)

(** The values of the key columns of a row, and whether the row takes part. *)
Definition keyCells (ref : ParentReference) (row : list JsValue) : list JsValue := map (fun part => cell row (kr_index part)) (pr_keys ref).

Definition takesPart (ref : ParentReference) (params row : list JsValue) : Prop :=
  match pr_if_parent ref with
  | Some ip => scalarKey (cell row (pip_index ip)) = scalarKey (paramAt params (pip_param ip))
  | None => True
  end.

Definition parentsSeen (ref : ParentReference) (params : list JsValue) (before : list (list JsValue)) (acc : list string * list JsValue) : Prop :=
  exists rows,
    Forall2 (fun row key => row ∈ before /\ takesPart ref params row /\ rowKey row (pr_keys ref) = Ok (Some key)) rows (fst acc) /\
    NoDup (fst acc) /\ snd acc = concat (map (keyCells ref) rows) /\
    forall row key, row ∈ before -> takesPart ref params row -> rowKey row (pr_keys ref) = Ok (Some key) -> key ∈ fst acc.

Lemma parentRow_seen ref params before acc row acc' : parentsSeen ref params before acc -> parentRow ref params acc row = Ok acc' ->
  parentsSeen ref params (before ++ [row]) acc'.
Proof.
  destruct acc as [seen out]. intros (rows & F & N & E & C). simpl in *. unfold parentRow.
  assert (Forall2 (fun r key => r ∈ before ++ [row] /\ takesPart ref params r /\ rowKey r (pr_keys ref) = Ok (Some key)) rows seen) as F'.
  { eapply Forall2_impl; [exact F|]. intros r k (? & ? & ?). split_and!; [|done..]. apply elem_of_app. by left. }
  set (skipped := match pr_if_parent ref with Some ip => _ | None => _ end).
  assert (if skipped then ~ takesPart ref params row else takesPart ref params row) as Hpart.
  { unfold skipped, takesPart. destruct (pr_if_parent ref) as [ip|]; [|done]. by case_bool_decide. }
  destruct skipped.
  - intros [= <-]. exists rows. split_and!; [done|done|done|]. intros r k [Hr| ->%list_elem_of_singleton]%elem_of_app; [by apply C|]. tauto.
  - intros (key & Hk & H)%bindR_ok. destruct key as [key|].
    + unfold includes in H. destruct (bool_decide (key ∈ seen)) eqn:Ein.
      * injection H as <-. apply bool_decide_eq_true in Ein. exists rows. split_and!; [done|done|done|].
        intros r k [Hr| ->%list_elem_of_singleton]%elem_of_app; [by apply C|]. simpl. intros. by replace k with key by congruence.
      * injection H as <-. apply bool_decide_eq_false in Ein. exists (rows ++ [row]). simpl. split_and!.
        -- apply Forall2_app; [done|]. constructor; [|done]. split_and!; [|done|done].
           apply elem_of_app. right. by apply list_elem_of_singleton.
        -- apply NoDup_app. split_and!; [done| |apply NoDup_singleton]. intros x Hx ->%list_elem_of_singleton. done.
        -- rewrite map_app, concat_app, E. simpl. by rewrite app_nil_r.
        -- intros r k [Hr| ->%list_elem_of_singleton]%elem_of_app Ht Hk'; apply elem_of_app; [left; by eapply C|].
           right. apply list_elem_of_singleton. congruence.
    + injection H as <-. exists rows. split_and!; [done|done|done|]. intros r k [Hr| ->%list_elem_of_singleton]%elem_of_app; [by apply C|]. congruence.
Qed.

Lemma parentRows_seen ref params rows before acc acc' : parentsSeen ref params before acc -> foldR (parentRow ref params) acc rows = Ok acc' ->
  parentsSeen ref params (before ++ rows) acc'.
Proof.
  revert before acc. induction rows as [|row rows IH]; simpl; intros before acc Ha H.
  - injection H as <-. by rewrite app_nil_r.
  - apply bindR_ok in H as (acc1 & H1 & H2). rewrite (cons_middle row before rows), app_assoc. eapply IH; [|done]. by eapply parentRow_seen.
Qed.

(** the parent values of a relation step are the key values of parent rows
    that pass its condition and hold no NULL in the key, no two of which have
    one key, and every such parent row has its key among them. *)
Theorem parentValues_keys (step : PlanStep) (ref : ParentReference) (parents : list (list JsValue)) (params out : list JsValue) :
  st_parent step = Some ref -> parentValues step parents params = Ok out ->
  exists rows keys, out = concat (map (keyCells ref) rows) /\ NoDup keys /\
    Forall2 (fun row key => row ∈ parents /\ takesPart ref params row /\ rowKey row (pr_keys ref) = Ok (Some key)) rows keys /\
    forall row key, row ∈ parents -> takesPart ref params row -> rowKey row (pr_keys ref) = Ok (Some key) -> key ∈ keys.
Proof.
  unfold parentValues, stepParent. intros -> H. cbn [present mbind res_bind] in H. apply bindR_ok in H as ([seen o] & H & [= <-]).
  eapply (parentRows_seen ref params parents [] ([], [])) in H.
  - destruct H as (rows & F & N & E & C). exists rows, seen. by split_and!.
  - exists []. split_and!; [constructor|constructor|done|]. intros ? ? []%elem_of_nil.
Qed.

(** ** The rows of a key *)

Lemma groupRows keys byKey l byKey' : foldR (groupRow keys) byKey l = Ok byKey' ->
  forall k, default [] (assoc k byKey') = default [] (assoc k byKey) ++ map fst (filter (fun e => rowKey (snd e) keys = Ok (Some k)) l).
Proof.
  revert byKey. induction l as [|[i row] l IH]; simpl; intros byKey H k.
  - injection H as <-. by rewrite app_nil_r.
  - apply bindR_ok in H as (b1 & H1 & H2). rewrite (IH _ H2 k). unfold groupRow in H1. apply bindR_ok in H1 as (key & Hk & [= <-]). simpl in Hk.
    rewrite filter_cons. simpl. rewrite Hk. destruct key as [key|].
    + rewrite assoc_set_get. destruct (decide (k = key)) as [->|Hn].
      * rewrite decide_True by done. simpl. by rewrite <- app_assoc.
      * rewrite decide_False by congruence. done.
    + rewrite decide_False by done. done.
Qed.

Lemma zip_seq_lookup {A} (l : list A) k i x : (i, x) ∈ zip (seq k (length l)) l <-> (k <= i)%nat /\ l !! (i - k)%nat = Some x.
Proof.
  revert k. induction l as [|y l IH]; intros k; simpl; [rewrite elem_of_nil; naive_solver|]. rewrite elem_of_cons, IH. split.
  - intros [[= -> ->]|[Hk Hl]]; [rewrite Nat.sub_diag; naive_solver|]. split; [lia|]. by replace (i - k)%nat with (S (i - S k)) by lia.
  - intros [Hk Hl]. destruct (decide (i = k)) as [->|Hn]; [left; rewrite Nat.sub_diag in Hl; naive_solver|right].
    split; [lia|]. by replace (i - k)%nat with (S (i - S k)) in Hl by lia.
Qed.

Lemma sorted_filter_zip {A} (P : nat * A -> Prop) `{!forall e, Decision (P e)} (l : list A) k :
  StronglySorted lt (map fst (filter P (zip (seq k (length l)) l))).
Proof.
  revert k. induction l as [|y l IH]; intros k; simpl; [constructor|]. rewrite filter_cons. destruct (decide _); simpl; [|apply IH].
  constructor; [apply IH|]. apply Forall_forall. intros i. rewrite list_elem_of_fmap. intros ([j x] & -> & [_ Hx]%list_elem_of_filter).
  apply zip_seq_lookup in Hx. simpl. lia.
Qed.

(** the rows of a relation step are attached by their key: the list of a key
    holds the index of exactly the rows that have it, in the order of the rows.
    A row with NULL in its key is in no list. *)
Theorem groupByKey_rows (keys : list KeyReference) (data : list (list JsValue)) (byKey : list (string * list nat)) :
  groupByKey keys data = Ok byKey ->
  forall k, StronglySorted lt (default [] (assoc k byKey)) /\
    forall i, i ∈ default [] (assoc k byKey) <-> exists row, data !! i = Some row /\ rowKey row keys = Ok (Some k).
Proof.
  intros H k. rewrite (groupRows _ _ _ _ H k). change (default [] (assoc k [])) with (@nil nat). rewrite app_nil_l. split; [apply sorted_filter_zip|].
  intros i. rewrite list_elem_of_fmap. split.
  - intros ([j row] & -> & [Hk Hz]%list_elem_of_filter). apply zip_seq_lookup in Hz as [_ Hz]. simpl in *. rewrite Nat.sub_0_r in Hz. eauto.
  - intros (row & Hr & Hk). exists (i, row). split; [done|]. apply list_elem_of_filter. split; [done|]. apply zip_seq_lookup. rewrite Nat.sub_0_r. split; [lia|done].
Qed.
