(* ===== verification/Meet.v ===== *)
(** * Which columns compare alike ([meet.ts], [list.ts]) *)

From S2P Require Import Prelude.

(** The class of the types that share one. *)
Definition meetClasses : list (string * string) :=
  [("i16", "integer"); ("i32", "integer"); ("i64", "integer"); ("varchar", "string"); ("text", "string")].

(** The class of a column type: two columns meet when their kinds are equal. *)
Definition meetKind (type : string) (scale precision : Z) : string :=
  match assoc type meetClasses with
  | Some shared => shared
  | None =>
      if decide (type = "decimal") then str ["decimal scale "; pretty scale]
      else if decide (type = "time" \/ type = "datetime") then str [type; " precision "; pretty precision]
      else type
  end.

(** Whether two lists hold the same texts in the same order. *)
Definition sameList (a b : list string) : bool :=
  (length a =? length b)%nat && forallb (fun p => bool_decide (fst p = snd p)) (zip a b).

Lemma sameList_eq a b : sameList a b = true <-> a = b.
Proof.
  unfold sameList. rewrite andb_true_iff, Nat.eqb_eq. revert b. induction a as [|x a IH]; intros [|y b]; simpl.
  - done.
  - naive_solver.
  - naive_solver.
  - rewrite andb_true_iff, bool_decide_eq_true. specialize (IH b). split.
    + intros [[= Hl] [-> Hf]]. f_equal. by apply IH.
    + intros [= -> ->]. destruct IH as [_ IH]. destruct (IH eq_refl). by split_and!; [f_equal| |].
Qed.
