(* ===== verification/Validate.v ===== *)
(** * Request validation ([engine/validate.ts])

    [validate] checks a request against the runtime model before it is planned.
    A scope is one entity place of a statement.  The source links a scope to its
    parent; here a function that walks up gets the root of the statement and the
    scope around a subquery as arguments of their own. *)

From S2P Require Import Prelude Ir Meet Dialect Model.

Definition IR_VERSION : Z := 1.

Definition comparable : list string :=
  ["eq"; "not_eq"; "gt"; "gte"; "lt"; "lte"; "in"; "not_in"; "between"; "is_null"; "is_not_null"].
Definition equality : list string := ["eq"; "not_eq"; "in"; "not_in"; "is_null"; "is_not_null"].

(** Operators by dbspec column type. *)
Definition opsByType : list (string * list string) :=
  [("i16", comparable); ("i32", comparable); ("i64", comparable); ("f64", comparable); ("decimal", comparable);
   ("date", comparable); ("time", comparable); ("datetime", comparable); ("uuid", equality);
   ("varchar", ["eq"; "not_eq"; "gt"; "gte"; "lt"; "lte"; "in"; "not_in"; "contains"; "contains_binary"; "is_null";
                "is_not_null"]);
   ("text", ["eq"; "not_eq"; "gt"; "gte"; "lt"; "lte"; "contains"; "contains_binary"; "is_null"; "is_not_null"]);
   ("bool", ["eq"; "not_eq"; "is_null"; "is_not_null"]); ("bytes", equality)].

Definition hostStages : list string := ["aes"; "hex"; "ip"].
Definition columnOps : list string := ["eq_col"; "not_eq_col"; "gt_col"; "gte_col"; "lt_col"; "lte_col"].
Definition numericTypes : list string := ["i16"; "i32"; "i64"; "f64"; "decimal"].

(** [opsByType[type]?.includes(op) ?? false] *)
Definition typeAllows (type op : string) : bool :=
  match assoc type opsByType with Some ops => includes op ops | None => false end.

Definition opAllowed (c : Field) (op : string) : bool :=
  if includes op columnOps then true
  else match f_stages c with
       | [] => typeAllows (f_type c) op
       | stages =>
           if forallb (fun s => includes s hostStages) stages then includes op equality
           else includes op ["is_null"; "is_not_null"]
       end.

Definition meets (a b : Field) : bool :=
  bool_decide (meetKind (f_type a) (f_scale a) (f_precision a) = meetKind (f_type b) (f_scale b) (f_precision b)).

(** [op.replace(/_col$/, '')] *)
Fixpoint dropCol (op : string) : string :=
  match op with
  | EmptyString => ""
  | String a rest => if decide (op = "_col") then "" else String a (dropCol rest)
  end.

Definition colPairOpAllowed (left right : Field) (op : string) : bool :=
  let base := dropCol op in
  match f_stages left, f_stages right with
  | [], [] => typeAllows (f_type left) base
  | _, _ =>
      let isIP c := bool_decide (f_stages c = ["ip"]) in
      isIP left && isIP right && (bool_decide (base = "eq") || bool_decide (base = "not_eq"))
  end.

(** ** Scopes *)

Inductive VScope := mkVScope { vs_name : string; vs_ent : option Entity; vs_joins : list (string * VScope) }.

(** Where a predicate stands: its own scope, the root of its statement, and the
    scope around the subquery that the statement is. *)
Record VPlace := mkVPlace { vp_here : VScope; vp_root : VScope; vp_outer : option VScope }.

Definition rootPlace (s : VScope) (outer : option VScope) : VPlace := mkVPlace s s outer.
Definition joinPlace (p : VPlace) (s : VScope) : VPlace := mkVPlace s (vp_root p) (vp_outer p).

Section Validator.
Variables (m : RuntimeModel) (n : Z).

(** The scope tree of a query and its joins; of two joins of one name the first is kept. *)
Fixpoint v_scopes (q : RequestQuery) : VScope :=
  mkVScope (q_entity q) (entityOf m (q_entity q))
    match q_joins q with
    | None => []
    | Some js =>
        foldl (fun acc e => if bool_decide (is_Some (assoc (fst e) acc)) then acc else assoc_set (fst e) (snd e) acc) []
          (map (fun j => (j_rel j, v_scopes (j_query j))) js)
    end.

Definition v_param (i : Z) : res unit :=
  fail_if (negb (isSafeInteger i) || (i <? 0) || (n <=? i)) IR_INVALID
    (str ["param index "; pretty i; " out of range (n_params "; pretty n; ")"]).

Definition v_params (ps : option (list Z)) : res unit := iterR v_param (default [] ps).

Definition v_entity (name : string) : res Entity := or_fail (entityOf m name) ENTITY_UNKNOWN name.

(** Resolves a column-to-column ref, as the planner's [resolvePath]. *)
Definition v_ref (p : VPlace) (path column : string) : res Field :=
  target ←
    (if decide (path = "^") then or_fail (vp_outer p) IR_INVALID "^ reference outside a subquery"
     else if decide (path = "") then Ok (vp_root p)
     else foldR (fun target seg => or_fail (assoc seg (vs_joins target)) ENTITY_NOT_JOINED (str [vs_name target; "."; seg]))
            (vp_root p) (split_on "/"%char path));
  ent ← or_fail (vs_ent target) ENTITY_UNKNOWN (vs_name target);
  or_fail (fieldOf ent column) COLUMN_UNKNOWN (str [vs_name target; "."; column]).

Definition given {A} (o : option A) : bool := bool_decide (is_Some o).

(** The number of members of an assignment that give a value. *)
Definition assignCount (a : Assignment) : nat :=
  length (filter (fun b => b = true) [given (a_p a); a_null a; given (a_plus_p a); given (a_minus_p a)]).

Definition v_assign (ent : Entity) (r : Request) (a : Assignment) : res unit :=
  let name := str [q_entity (rq_query r); "."; a_column a] in
  c ← or_fail (fieldOf ent (a_column a)) COLUMN_UNKNOWN name;
  fail_if (negb (assignCount a =? 1)%nat) IR_INVALID
    (str ["set "; a_column a; ": exactly one of p/null/plus_p/minus_p"]);;
  fail_if (a_null a && negb (f_nullable c)) IR_INVALID (str ["set "; name; " to null but column is NOT NULL"]);;
  fail_if (bool_decide (a_column a = e_auditColumn ent)) IR_INVALID
    (str [name; " is written by the executor from the audit of the transaction"]);;
  fail_if ((given (a_plus_p a) || given (a_minus_p a)) && negb (includes (f_type c) numericTypes)) OPERATOR_NOT_ALLOWED
    (str ["plus/minus on "; name; " ("; f_type c; ")"]);;
  iterR (fun o => match o with Some i => v_param i | None => Ok tt end) [a_p a; a_plus_p a; a_minus_p a].

(** [columnFunctionTypes[f.name] ?? fail(...)]: a name that the record inherits
    from [Object.prototype] gives a value without [includes]. *)
Definition v_columnFunction (ent : Entity) (c : Field) (f : OrmFunction) : res unit :=
  if includes (fn_name f) objectPrototypeNames then Err JsTypeError
  else
    types ← or_fail (columnFunctionTypes (fn_name f)) FUNCTION_UNKNOWN (fn_name f);
    fail_if (negb (includes (f_type c) types)) OPERATOR_NOT_ALLOWED
      (str [fn_name f; " on "; e_name ent; "."; f_name c; " ("; f_type c; ")"]);;
    fail_if (negb (bool_decide (Some (length (default [] (fn_ps f))) = columnFunctionArity (fn_name f)))) IR_INVALID
      (str [fn_name f; " takes "; match columnFunctionArity (fn_name f) with
                                  | Some a => pretty (Z.of_nat a) | None => "undefined" end; " arguments"]);;
    v_params (fn_ps f).

(** The value a column function is compared with. *)
Definition v_functionOperand (ent : Entity) (column : string) (p : Predicate) : res unit :=
  let op := default "" (p_op p) in
  let ps := default [] (p_ps p) in
  if includes op ["eq"; "not_eq"; "gt"; "gte"; "lt"; "lte"]
  then fail_if (negb (given (p_p p))) IR_INVALID (str [op; " needs a value (p)"])
  else if includes op ["in"; "not_in"]
  then fail_if (length ps =? 0)%nat EMPTY_IN (str [e_name ent; "."; column])
  else if decide (op = "between")
  then fail_if (negb (length ps =? 2)%nat) IR_INVALID "between needs 2 params (ps)"
  else Err (OrmError OPERATOR_NOT_ALLOWED (str [default "undefined" (p_op p); " with a column function"])).

(** A predicate that compares a column with a relative time. *)
Definition v_valueFunction (ent : Entity) (c : Field) (column : string) (p : Predicate) (value : OrmFunction) : res unit :=
  fail_if (negb (isValueFunction (fn_name value))) FUNCTION_UNKNOWN (fn_name value);;
  fail_if (negb (includes (f_type c) ["date"; "datetime"])) OPERATOR_NOT_ALLOWED
    (str [fn_name value; " on "; e_name ent; "."; column; " ("; f_type c; ")"]);;
  let want := if given (assoc (fn_name value) valueFunctionUnits) then 1%nat else 0%nat in
  fail_if (negb (length (default [] (fn_ps value)) =? want)%nat) IR_INVALID
    (str [fn_name value; " takes "; pretty (Z.of_nat want); " arguments"]);;
  fail_if (given (p_p p) || negb (length (default [] (p_ps p)) =? 0)%nat) IR_INVALID
    "value function pred may not carry p or ps";;
  fail_if (negb (includes (default "" (p_op p)) ["eq"; "not_eq"; "gt"; "gte"; "lt"; "lte"])) OPERATOR_NOT_ALLOWED
    (str [default "undefined" (p_op p); " with a value function"]);;
  v_params (fn_ps value).

Definition v_tuple (ent : Entity) (op : string) (p : Predicate) : res unit :=
  let cols := default [] (p_cols p) in
  let ps := default [] (p_ps p) in
  fail_if (length cols <? 2)%nat IR_INVALID (str [op; " needs at least two columns"]);;
  iterR (fun name =>
    c ← or_fail (fieldOf ent name) COLUMN_UNKNOWN (str [e_name ent; "."; name]);
    fail_if (negb (length (f_stages c) =? 0)%nat) OPERATOR_NOT_ALLOWED (str [op; " on "; e_name ent; "."; name])) cols;;
  fail_if (length ps =? 0)%nat EMPTY_IN (str [e_name ent; "("; join "," cols; ")"]);;
  fail_if (negb (length ps mod length cols =? 0)%nat) IR_INVALID
    (str [op; ": "; pretty (Z.of_nat (length ps)); " values for "; pretty (Z.of_nat (length cols)); " columns"]).

Definition v_fulltext (ent : Entity) (op : string) (p : Predicate) : res unit :=
  let cols := default [] (p_cols p) in
  fail_if ((length cols =? 0)%nat || negb (given (p_p p)) || given (p_column p)
           || negb (length (default [] (p_ps p)) =? 0)%nat || given (p_ref p) || given (p_fn p) || given (p_value p)
           || given (p_sub p)) IR_INVALID (str [op; " takes cols and p only"]);;
  iterR (fun name =>
    c ← or_fail (fieldOf ent name) COLUMN_UNKNOWN (str [e_name ent; "."; name]);
    fail_if (negb (includes (f_type c) ["varchar"; "text"]) || negb (length (f_stages c) =? 0)%nat) OPERATOR_NOT_ALLOWED
      (str [op; " on "; e_name ent; "."; name])) cols.

(** A predicate that compares a column with values, with nothing or with another column. *)
Definition v_plain (s : VPlace) (ent : Entity) (column : string) (p : Predicate) : res unit :=
  let ps := default [] (p_ps p) in
  let op := default "" (p_op p) in
  c ← or_fail (fieldOf ent column) COLUMN_UNKNOWN (str [e_name ent; "."; column]);
  fail_if (negb (opAllowed c op)) OPERATOR_NOT_ALLOWED (str [op; " on "; e_name ent; "."; column; " ("; f_type c; ")"]);;
  if includes op ["is_null"; "is_not_null"] then Ok tt
  else if includes op ["in"; "not_in"] then fail_if (length ps =? 0)%nat EMPTY_IN (str [e_name ent; "."; column])
  else if decide (op = "between") then fail_if (negb (length ps =? 2)%nat) IR_INVALID "between needs 2 params (ps)"
  else if includes op columnOps then
    ref ← or_fail (p_ref p) IR_INVALID (str [op; " needs ref"]);
    let path := default "" (ref_path ref) in
    other ← v_ref s path (ref_column ref);
    fail_if (negb (meets c other)) OPERATOR_NOT_ALLOWED
      (str [e_name ent; "."; column; " does not meet "; path; "."; ref_column ref]);;
    fail_if (negb (colPairOpAllowed c other op)) OPERATOR_NOT_ALLOWED
      (str [op; " on "; e_name ent; "."; column; " ("; f_type c; ") and "; path; "."; ref_column ref; " ("; f_type other; ")"])
  else fail_if (negb (given (p_p p))) IR_INVALID (str [op; " "; e_name ent; "."; column; " needs a value (p)"]).

(** The members of a subquery that are checked before its query. *)
Definition v_subHead (s : Subquery) (scalar : bool) : res unit :=
  let q := sq_query s in
  ent ← v_entity (q_entity q);
  let column := default "" (sq_column s) in
  let agg := default "" (sq_agg s) in
  (if decide (agg = "") then fail_if (bool_decide (column = "")) IR_INVALID "subquery needs a column"
   else if includes agg ["sum"; "avg"] then
     fail_if (negb scalar) IR_INVALID (str [agg; " subquery is only valid as a column"]);;
     c ← or_fail (fieldOf ent column) COLUMN_UNKNOWN (str [e_name ent; "."; column]);
     fail_if (negb (includes (f_type c) numericTypes)) OPERATOR_NOT_ALLOWED
       (str [agg; " on "; e_name ent; "."; column; " ("; f_type c; ")"])
   else if decide (agg = "count") then fail_if (negb scalar) IR_INVALID "count subquery is only valid as a column"
   else Err (OrmError IR_INVALID (str ["subquery agg "; dq; agg; dq])));;
  fail_if (bool_decide (column <> "") && negb (given (fieldOf ent column))) COLUMN_UNKNOWN (str [e_name ent; "."; column]);;
  let scalarColumn := scalar && bool_decide (agg = "") in
  fail_if (negb (length (default [] (q_relations q)) =? 0)%nat || bool_decide (default "" (q_lock q) <> "")
           || given (q_columns q) || (given (q_limit q) && negb scalarColumn)) IR_INVALID
    "subquery may not use limit, relations, lock or columns";;
  if scalarColumn then
    fail_if (negb (match q_limit q with Some (LimitValues _ count) => count =? 1 | _ => false end)) IR_INVALID
      "a scalar column subquery needs limit with count 1";;
    let order := default [] (q_order q) in
    fail_if (existsb o_random order) IR_INVALID "a scalar column subquery may not order by random";;
    iterR (fun pk =>
      fail_if (negb (existsb (fun o => bool_decide (o_column o = Some pk) && negb (given (o_fn o))) order)) IR_INVALID
        (str ["a scalar column subquery needs an order that includes the primary key column "; pk])) (e_primaryKey ent)
  else Ok tt.

(** [given.length !== 1]: the connector of the one member that an item has. *)
Definition itemOnly (it : Item) : res (option string) :=
  match i_pred it, i_group it, i_joined it with
  | Some p, None, None => Ok (p_conn p)
  | None, Some g, None => Ok (g_conn g)
  | None, None, Some j => Ok (jr_conn j)
  | _, _, _ => Err (OrmError IR_INVALID "where item must be exactly one of pred/group/joined")
  end.

Definition v_conn (i : nat) (it : Item) : res unit :=
  only ← itemOnly it;
  let conn := default "" only in
  fail_if (negb (includes conn [""; "and"; "or"])) IR_INVALID (str ["conn "; dq; conn; dq]);;
  fail_if ((i =? 0)%nat && bool_decide (conn = "or")) OR_AT_GROUP_START "a group may not start with OR";;
  fail_if ((i =? 0)%nat && bool_decide (conn <> "")) IR_INVALID
    (str ["the first item of a group takes no conn ("; dq; conn; dq; ")"]).

Definition noItems (g : option Group) : bool :=
  match g with Some g => (length (g_items g) =? 0)%nat | None => true end.

(** Each join a group places appears once. *)
Fixpoint joinedRefs (g : Group) (seen : list string) : res (list string) :=
  foldR (fun seen it =>
    seen ← match i_joined it with
           | Some j =>
               fail_if (includes (jr_join j) seen) IR_INVALID (str ["joined "; jr_join j; " is placed twice"]);;
               Ok (set_add (jr_join j) seen)
           | None => Ok seen
           end;
    match i_group it with Some g => joinedRefs g seen | None => Ok seen end) seen (g_items g).

Definition hasGroupBy (q : RequestQuery) : bool := negb (length (default [] (q_group_by q)) =? 0)%nat.

(** The checks of a join before its query. *)
Definition v_joinHead (ent : Entity) (joined : list (string * Join)) (j : Join) : res unit :=
  fail_if (negb (includes (j_kind j) ["inner"; "left"])) IR_INVALID (str ["join kind "; dq; j_kind j; dq]);;
  fail_if (bool_decide (j_rel j = "") || given (assoc (j_rel j) joined)) IR_INVALID
    (str ["join name "; dq; j_rel j; dq; " is empty or used twice"]);;
  let left := default "" (j_left j) in
  let right := default "" (j_right j) in
  fail_if (bool_decide (left = "") || bool_decide (right = "")) IR_INVALID
    (str ["join "; j_rel j; ": left, right and query are required"]);;
  target ← v_entity (q_entity (j_query j));
  l ← or_fail (fieldOf ent left) COLUMN_UNKNOWN (str [e_name ent; "."; left]);
  r ← or_fail (fieldOf target right) COLUMN_UNKNOWN (str [e_name target; "."; right]);
  fail_if (negb (meets l r)) OPERATOR_NOT_ALLOWED
    (str ["join "; j_rel j; ": "; e_name ent; "."; left; " does not meet "; e_name target; "."; right]).

Definition v_keyPair (ent target : Entity) (qname rel : string) (sides : list string * list string) (k : KeyPair)
    : res (list string * list string) :=
  fail_if (bool_decide (kp_left k = "") || bool_decide (kp_right k = "")) IR_INVALID
    (str ["relation "; rel; ": every key needs left and right"]);;
  l ← or_fail (fieldOf ent (kp_left k)) COLUMN_UNKNOWN (str [qname; "."; kp_left k]);
  r ← or_fail (fieldOf target (kp_right k)) COLUMN_UNKNOWN (str [e_name target; "."; kp_right k]);
  fail_if (negb (meets l r)) OPERATOR_NOT_ALLOWED
    (str ["relation "; rel; ": "; qname; "."; kp_left k; " does not meet "; e_name target; "."; kp_right k]);;
  fail_if (includes (kp_left k) (fst sides) || includes (kp_right k) (snd sides)) IR_INVALID
    (str ["relation "; rel; ": key column "; kp_left k; " or "; kp_right k; " is used twice"]);;
  Ok (set_add (kp_left k) (fst sides), set_add (kp_right k) (snd sides)).

(** The checks of a relation before its query; returns the names seen so far. *)
Definition v_relationHead (ent : Entity) (qname : string) (names : list string) (r : Relation) : res (list string) :=
  let q := r_query r in
  fail_if (bool_decide (r_rel r = "") || includes (r_rel r) names) COLUMN_ALIAS_CONFLICT
    (str ["relation name "; dq; r_rel r; dq; " is empty or used twice"]);;
  fail_if (given (fieldOf ent (r_rel r))) COLUMN_ALIAS_CONFLICT (str [qname; "."; r_rel r; " is already a column"]);;
  let kind := default "" (r_kind r) in
  fail_if ((length (default [] (r_keys r)) =? 0)%nat || negb (includes kind ["one"; "many"])) IR_INVALID
    (str ["relation "; r_rel r; ": keys and kind one|many are required"]);;
  target ← v_entity (q_entity q);
  foldR (v_keyPair ent target qname (r_rel r)) ([], []) (default [] (r_keys r));;
  fail_if (given (q_limit q)) LIMIT_IN_RELATION (str [r_rel r; ": use limit_per_parent"]);;
  fail_if (q_flatten q && bool_decide (kind <> "one")) IR_INVALID
    (str ["relation "; r_rel r; ": flatten needs a one relation"]);;
  fail_if (bool_decide (default "" (q_key_by q) <> "") && bool_decide (kind <> "many")) IR_INVALID
    (str ["relation "; r_rel r; ": key_by needs a many relation"]);;
  fail_if (match q_if_parent q with Some ip => negb (given (fieldOf ent (ip_column ip))) | None => false end) COLUMN_UNKNOWN
    (str [qname; "."; match q_if_parent q with Some ip => ip_column ip | None => "" end; " (if_parent)"]);;
  Ok (set_add (r_rel r) names).

Definition v_order (ent : Entity) (qname : string) (o : Order) : res unit :=
  let column := default "" (o_column o) in
  fail_if (negb (length (filter (fun b => b = true) [bool_decide (column <> ""); o_random o]) =? 1)%nat) IR_INVALID
    "order needs exactly one of column, random";;
  if decide (column <> "") then
    col ← or_fail (fieldOf ent column) COLUMN_UNKNOWN (str [qname; "."; column]);
    match o_fn o with Some f => v_columnFunction ent col f | None => Ok tt end
  else fail_if (given (o_fn o)) IR_INVALID "order function needs a column".

Definition v_limit (l : Limit) : res unit :=
  match l with
  | LimitParams o c =>
      fail_if (negb (isSafeInteger o) || negb (isSafeInteger c) || (o <? 0) || (n <=? o) || (c <? 0) || (n <=? c))
        IR_INVALID "limit parameter indexes must be in range"
  | LimitValues o c =>
      fail_if (negb (isSafeInteger o) || negb (isSafeInteger c) || (o <? 0) || (c <=? 0)) IR_INVALID
        "limit offset>=0, count>0"
  end.

(** The checks of [query] after its conditions, joins and relations. *)
Definition v_queryTail (isRoot isJoin isRelation : bool) (ent : Entity) (q : RequestQuery) : res unit :=
  let qname := q_entity q in
  let key_by := default "" (q_key_by q) in
  (if decide (key_by <> "") then
     keyColumn ← or_fail (fieldOf ent key_by) COLUMN_UNKNOWN (str [qname; "."; key_by]);
     fail_if (f_nullable keyColumn) IR_INVALID (str ["key_by "; key_by; " is nullable"])
   else Ok tt);;
  match q_if_parent q with Some ip => v_param (ip_p ip) | None => Ok tt end;;
  fail_if (negb isRelation && (bool_decide (key_by <> "") || q_flatten q || (0 <? default 0 (q_limit_per_parent q))
                               || given (q_if_parent q) || q_no_cascade_delete q)) IR_INVALID
    (str ["relation-only options on "; qname]);;
  iterR (v_order ent qname) (default [] (q_order q));;
  iterR (fun g => fail_if (negb (given (fieldOf ent g))) COLUMN_UNKNOWN (str [qname; "."; g])) (default [] (q_group_by q));;
  (if hasGroupBy q then
     fail_if (negb isRoot) IR_INVALID "group_by is only valid on the request's root query";;
     iterR (fun o =>
       let column := default "" (o_column o) in
       fail_if (bool_decide (column <> "") && negb (includes column (default [] (q_group_by q)))) IR_INVALID
         (str ["order by "; column; ", which is not a group column"])) (default [] (q_order q))
   else Ok tt);;
  match q_limit q with Some l => v_limit l | None => Ok tt end;;
  let lock := default "" (q_lock q) in
  fail_if (bool_decide (lock <> "") && negb (includes lock ["update"; "share"; "update_nowait"; "share_nowait"])) IR_INVALID
    (str ["lock "; dq; lock; dq; ": want update, share, update_nowait or share_nowait"]);;
  fail_if (bool_decide (lock <> "") && (isJoin || given (q_group_by q) || (0 <? default 0 (q_limit_per_parent q)))) IR_INVALID
    "row lock is only valid on a root row select or a relation step without limit_per_parent or group_by";;
  let index := default "" (q_force_index q) in
  fail_if (bool_decide (index <> "") && negb (includes index (e_indexes ent))) INDEX_UNKNOWN (str [qname; "."; index]).

(** [for (const [out, cf] of Object.entries(cols.fn ?? {}))]: an output name is
    neither a column nor used before. *)
Definition v_output (ent : Entity) (qname : string) (outputs : list string) (out : string) : res (list string) :=
  fail_if (given (fieldOf ent out) || includes out outputs) COLUMN_ALIAS_CONFLICT
    (str [qname; "."; out; " is already a row name"]);;
  Ok (set_add out outputs).

Definition v_columnsHead (ent : Entity) (qname : string) (cols : Projection) : res (list string) :=
  let mode := default "" (c_mode cols) in
  fail_if (negb (includes mode [""; "all"; "none"])) IR_INVALID (str ["columns.mode "; dq; mode; dq]);;
  iterR (fun c => fail_if (negb (given (fieldOf ent c))) COLUMN_UNKNOWN (str [qname; "."; c]))
    (default [] (c_add cols) ++ default [] (c_remove cols));;
  foldR (fun outputs e =>
    outputs ← v_output ent qname outputs (fst e);
    let cf := snd e in
    col ← or_fail (fieldOf ent (cf_column cf)) COLUMN_UNKNOWN (str [qname; "."; cf_column cf]);
    v_columnFunction ent col (cf_fn cf);;
    Ok outputs) [] (default [] (c_fn cols)).

(** The checks of the condition groups of a query before their items. *)
Definition v_groupsHead (isJoin : bool) (q : RequestQuery) : res unit :=
  fail_if (negb isJoin && given (q_on q)) IR_INVALID "on[] is only valid on join children";;
  fail_if (match q_on q with Some g => g_not g | None => false end
           || match q_where q with Some g => g_not g | None => false end) IR_INVALID "not applies to a nested group";;
  iterR (fun top =>
    match top with
    | Some g =>
        let conn := default "" (g_conn g) in
        fail_if (bool_decide (conn <> "")) IR_INVALID (str ["the top-level group takes no conn ("; dq; conn; dq; ")"])
    | None => Ok tt
    end) [q_on q; q_where q].

(** An item that places the conditions of a join. *)
Definition v_joinedItem (joined : list (string * Join)) (j : JoinedReference) : res unit :=
  jn ← or_fail (assoc (jr_join j) joined) ENTITY_NOT_JOINED (str [jr_join j; " is not joined in this statement"]);
  fail_if (noItems (q_where (j_query jn))) IR_INVALID (str ["joined "; jr_join j; " has no conditions"]).

Fixpoint v_query (q : RequestQuery) (s : VPlace) (isRoot isJoin isRelation : bool) {struct q} : res unit :=
  ent ← v_entity (q_entity q);
  match q_columns q with Some c => v_columns c ent (q_entity q) s | None => Ok tt end;;
  joined ← match q_joins q with
           | None => Ok []
           | Some js =>
               foldR (fun joined j =>
                 v_joinHead ent joined j;;
                 v_join j s;;
                 Ok (assoc_set (j_rel j) j joined)) [] js
           end;
  v_groupsHead isJoin q;;
  match q_on q with Some g => v_group g s joined | None => Ok tt end;;
  match q_where q with Some g => v_group g s joined;; joinedRefs g [];; Ok tt | None => Ok tt end;;
  match q_relations q with
  | None => Ok tt
  | Some rs =>
      foldR (fun names r =>
        names ← v_relationHead ent (q_entity q) names r;
        v_relation r;;
        Ok names) [] rs;;
      Ok tt
  end;;
  v_queryTail isRoot isJoin isRelation ent q
with v_columns (c : Projection) (ent : Entity) (qname : string) (s : VPlace) {struct c} : res unit :=
  outputs ← v_columnsHead ent qname c;
  match c_sub c with
  | None => Ok tt
  | Some subs =>
      foldR (fun outputs e =>
        outputs ← v_output ent qname outputs (fst e);
        v_sub (snd e) true s;;
        Ok outputs) outputs subs;;
      Ok tt
  end
with v_join (j : Join) (s : VPlace) {struct j} : res unit :=
  js ← or_fail (assoc (j_rel j) (vs_joins (vp_here s))) IR_INVALID (str ["join "; j_rel j; " has no scope"]);
  v_query (j_query j) (joinPlace s js) false true false
with v_relation (r : Relation) {struct r} : res unit :=
  v_query (r_query r) (rootPlace (v_scopes (r_query r)) None) false false true
with v_group (g : Group) (s : VPlace) (joined : list (string * Join)) {struct g} : res unit :=
  iteriR (fun i it => v_conn i it;; v_item it s joined) 0 (g_items g)
with v_item (it : Item) (s : VPlace) (joined : list (string * Join)) {struct it} : res unit :=
  match i_joined it with
  | Some j => v_joinedItem joined j
  | None =>
      match i_pred it with
      | Some p => v_pred p s
      | None =>
          match i_group it with
          | Some g => fail_if (length (g_items g) =? 0)%nat IR_INVALID "empty group";; v_group g s joined
          | None => Ok tt
          end
      end
  end
with v_pred (p : Predicate) (s : VPlace) {struct p} : res unit :=
  ent ← or_fail (vs_ent (vp_here s)) IR_INVALID (str ["scope "; vs_name (vp_here s); " has no entity"]);
  v_params (p_ps p);;
  match p_p p with Some i => v_param i | None => Ok tt end;;
  let op := default "" (p_op p) in
  if includes op ["tuple_in"; "tuple_not_in"] then v_tuple ent op p
  else if includes op ["fulltext"; "fulltext_boolean"] then v_fulltext ent op p
  else
    fail_if (negb (length (default [] (p_cols p)) =? 0)%nat) IR_INVALID "cols is only valid with tuple_in or tuple_not_in";;
    let column := default "" (p_column p) in
    match p_sub p with
    | Some sub =>
        compared ← or_fail (fieldOf ent column) COLUMN_UNKNOWN (str [e_name ent; "."; column]);
        fail_if (negb (includes op ["in"; "not_in"])) IR_INVALID "subquery needs in or not_in";;
        fail_if (given (p_p p) || negb (length (default [] (p_ps p)) =? 0)%nat || given (p_fn p) || given (p_value p)) IR_INVALID
          "subquery pred may not carry values";;
        v_sub sub false s;;
        target ← v_entity (q_entity (sq_query sub));
        match fieldOf target (default "" (sq_column sub)) with
        | Some c => fail_if (negb (meets compared c)) OPERATOR_NOT_ALLOWED
                      (str [e_name ent; "."; column; " does not meet the subquery column "; q_entity (sq_query sub); ".";
                            default "undefined" (sq_column sub)])
        | None => Ok tt
        end
    | None =>
        match p_fn p, p_value p with
        | None, None => v_plain s ent column p
        | fn, value =>
            c ← or_fail (fieldOf ent column) COLUMN_UNKNOWN (str [e_name ent; "."; column]);
            match fn, value with
            | Some _, Some _ => Err (OrmError IR_INVALID "fn and value cannot be combined")
            | Some f, None => v_columnFunction ent c f;; v_functionOperand ent column p
            | None, Some v => v_valueFunction ent c column p v
            | None, None => Err (OrmError IR_INVALID "a predicate without fn needs a value function")
            end
        end
    end
with v_sub (s : Subquery) (scalar : bool) (outer : VPlace) {struct s} : res unit :=
  v_subHead s scalar;;
  v_query (sq_query s) (rootPlace (v_scopes (sq_query s)) (Some (vp_here outer))) false false false.
End Validator.

(** ** Keys of writes *)

(** The columns that an insert assigns, with the blind index of each assigned AES source. *)
Definition assignedColumns (ent : Entity) (set : list Assignment) : list string :=
  foldl (fun assigned f =>
    if bool_decide (f_blindIndex f <> "") && includes (f_name f) assigned then set_add (f_blindIndex f) assigned
    else assigned)
    (foldl (fun l a => set_add (a_column a) l) [] set) (e_fields ent).

Record KeyCandidate := mkCandidate { kc_name : string; kc_columns : list string }.

Definition conflictCandidates (ent : Entity) (assigned : list string) : list KeyCandidate :=
  (if existsb (fun c => includes c assigned) (e_primaryKey ent)
   then [mkCandidate (str ["primary key ("; join ", " (e_primaryKey ent); ")"]) (e_primaryKey ent)] else [])
  ++ map (fun u => mkCandidate (str ["unique ("; join ", " u; ")"]) u) (e_uniques ent).

(** The one key an insert with on_duplicate conflicts on. *)
Definition conflictKey (ent : Entity) (set : list Assignment) : res (list string) :=
  let assigned := assignedColumns ent set in
  let candidates := conflictCandidates ent assigned in
  match candidates with
  | [] => Err (OrmError IR_INVALID "on_duplicate needs exactly one conflict key; no key can meet the row")
  | [candidate] =>
      match List.find (fun c => negb (includes c assigned)) (kc_columns candidate) with
      | Some missing => Err (OrmError IR_INVALID
          (str ["on_duplicate needs exactly one conflict key; "; kc_name candidate;
                " can meet the row but the insert does not assign "; missing]))
      | None => Ok (kc_columns candidate)
      end
  | _ => Err (OrmError IR_INVALID
           (str ["on_duplicate needs exactly one conflict key; "; join ", " (map kc_name candidates); " can meet the row"]))
  end.

Definition itemConn (it : Item) : string :=
  let pick {A} (f : A -> option string) (o : option A) (next : option string) : option string :=
    match o ≫= f with Some c => Some c | None => next end in
  default "" (pick p_conn (i_pred it) (pick g_conn (i_group it) (pick jr_conn (i_joined it) None))).

Record RestoreParts := mkRestoreParts { rp_key : list string; rp_where : Group; rp_set : list Assignment }.

(** The column an eq condition with a parameter gives a value. *)
Definition valuedByItem (it : Item) : option string :=
  match i_pred it with
  | Some p =>
      if bool_decide (p_op p = Some "eq") && given (p_p p) && negb (given (p_fn p)) && negb (given (p_value p))
         && negb (given (p_ref p)) && negb (given (p_sub p))
      then Some (default "" (p_column p)) else None
  | None => None
  end.

Definition setItem (where_ : list Item) (a : Assignment) (p : Z) : Item :=
  mkItem (Some (mkPred (match where_ with [] => None | _ => Some "and" end) (Some (a_column a)) (Some "eq") (Some p) None
                  None None None None None)) None None.

(** The last loop of [restoreKey]: a set value of a key column becomes a
    condition, every other one is a new value. *)
Definition restoreSplit (ent : Entity) (key : list string) (acc : list Item * list Assignment) (a : Assignment)
    : res (list Item * list Assignment) :=
  let '(where_, set) := acc in
  match a_p a with
  | Some p =>
      if includes (a_column a) key then Ok (where_ ++ [setItem where_ a p], set)
      else
        c ← or_fail (fieldOf ent (a_column a)) COLUMN_UNKNOWN (str [e_name ent; "."; a_column a]);
        fail_if (f_primary c || f_identity c || bool_decide (a_column a = e_softDelete ent)) IR_INVALID
          (str ["restore cannot assign "; a_column a]);;
        Ok (where_, set ++ [a])
  | None =>
      c ← or_fail (fieldOf ent (a_column a)) COLUMN_UNKNOWN (str [e_name ent; "."; a_column a]);
      fail_if (f_primary c || f_identity c || bool_decide (a_column a = e_softDelete ent)) IR_INVALID
        (str ["restore cannot assign "; a_column a]);;
      Ok (where_, set ++ [a])
  end.

(** The unique keys with their names, in name order. *)
Definition namedUniques (ent : Entity) : res (list KeyCandidate) :=
  names ← mapR (fun e =>
      name ← or_fail (e_indexes ent !! fst e) IR_INVALID
               (str [e_name ent; " has no index name for unique key "; pretty (Z.of_nat (fst e + 1))]);
      Ok (mkCandidate name (snd e))) (zip (seq 0 (length (e_uniques ent))) (e_uniques ent));
  Ok (sort_by kc_name names).

(** Picks the key of a restore request. *)
Definition restoreKey (ent : Entity) (r : Request) : res RestoreParts :=
  fail_if (bool_decide (e_softDelete ent = "")) IR_INVALID (str ["restore of "; e_name ent; ", which has no soft_delete setting"]);;
  let items := match q_where (rq_query r) with Some g => g_items g | None => [] end in
  iteriR (fun i it => fail_if ((0 <? i)%nat && bool_decide (itemConn it = "or")) IR_INVALID
            (str ["restore of "; e_name ent; " joins the conditions of its where with and"])) 0 items;;
  let set := default [] (rq_set r) in
  let valued := omap valuedByItem items ++ map a_column (filter (fun a => given (a_p a) = true) set) in
  let covered columns := negb (length columns =? 0)%nat && forallb (fun c => includes c valued) columns in
  uniques ← namedUniques ent;
  key ← (if covered (e_primaryKey ent) then Ok (e_primaryKey ent)
         else match List.find (fun u => covered (kc_columns u)) uniques with
              | Some u => Ok (kc_columns u)
              | None => Err (OrmError IR_INVALID (str ["restore of "; e_name ent;
                  " gives no primary key or unique key a value in its set or in an eq condition of its where"]))
              end);
  parts ← foldR (restoreSplit ent key) (items, []) set;
  Ok (mkRestoreParts key (mkGroup None false (fst parts)) (snd parts)).

(** ** The entry *)

Definition kinds : list string :=
  ["one"; "all"; "count"; "group_count"; "sum"; "avg"; "paginate"; "insert"; "update"; "delete"; "restore"; "restart_identity"].

Definition nonempty {A} (o : option (list A)) : bool := negb (length (default [] o) =? 0)%nat.

(** The checks of [validate] before the query. *)
Definition v_head (m : RuntimeModel) (r : Request) : res unit :=
  let kind := rq_kind r in
  fail_if (negb (rq_ir_version r =? IR_VERSION)) VERSION_MISMATCH
    (str ["ir_version "; pretty (rq_ir_version r); ", engine "; pretty IR_VERSION]);;
  fail_if (bool_decide (rq_manifest_hash r <> m_manifestHash m)) SCHEMA_HASH_MISMATCH
    (str ["client "; rq_manifest_hash r; ", engine "; m_manifestHash m]);;
  fail_if (negb (includes kind kinds)) IR_INVALID (str ["unknown kind "; dq; kind; dq]);;
  match entityOf m (q_entity (rq_query r)) with
  | Some target => fail_if (e_external target && includes kind ["insert"; "update"; "delete"; "restore"; "restart_identity"]) CONFIG
                     (str [e_table target; " is owned by another document set"])
  | None => Ok tt
  end;;
  fail_if (rq_load r && (bool_decide (kind <> "insert") || nonempty (rq_on_duplicate r))) IR_INVALID
    "load is only valid on insert without on_duplicate";;
  fail_if (bool_decide (kind = "restart_identity") && (nonempty (rq_set r) || nonempty (rq_rows r) || nonempty (rq_on_duplicate r)
           || given (q_where (rq_query r)) || given (rq_optimistic r))) IR_INVALID
    "restart_identity takes no set, rows, on_duplicate, where or optimistic".

(** The checks of the assignments of an insert, update or restore. *)
Definition v_set (n : Z) (ent : Entity) (r : Request) : res unit :=
  let kind := rq_kind r in
  let set := default [] (rq_set r) in
  if includes kind ["insert"; "update"; "restore"] then
    fail_if ((length set =? 0)%nat && bool_decide (kind <> "restore")) IR_INVALID (str [kind; " needs set[]"]);;
    iterR (fun a =>
      v_assign n ent r a;;
      fail_if (bool_decide (kind = "insert") && (given (a_plus_p a) || given (a_minus_p a))) IR_INVALID
        (str ["insert cannot assign "; a_column a; " by plus or minus"]);;
      if decide (kind = "update") then
        c ← or_fail (fieldOf ent (a_column a)) COLUMN_UNKNOWN (str [q_entity (rq_query r); "."; a_column a]);
        fail_if (f_primary c || f_identity c) IR_INVALID (str ["cannot update "; a_column a])
      else Ok tt) set
  else Ok tt.

Definition v_rows (n : Z) (r : Request) : res unit :=
  let rows := default [] (rq_rows r) in
  let set := default [] (rq_set r) in
  if (length rows =? 0)%nat then Ok tt
  else
    fail_if (bool_decide (rq_kind r <> "insert") || nonempty (rq_on_duplicate r)) IR_INVALID
      "rows are only valid on insert without on_duplicate";;
    iterR (fun a => fail_if (negb (given (a_p a))) IR_INVALID
             (str ["multi-row insert assigns "; q_entity (rq_query r); "."; a_column a; " without a value"])) set;;
    iteriR (fun i row =>
      fail_if (negb (length row =? length set)%nat) IR_INVALID
        (str ["insert row "; pretty (Z.of_nat (i + 1)); " has "; pretty (Z.of_nat (length row)); " values for ";
              pretty (Z.of_nat (length set)); " columns"]);;
      v_params n (Some row)) 0 rows.

Definition v_onDuplicate (n : Z) (ent : Entity) (r : Request) : res unit :=
  let onDuplicate := default [] (rq_on_duplicate r) in
  if (length onDuplicate =? 0)%nat then Ok tt
  else
    fail_if (bool_decide (rq_kind r <> "insert")) IR_INVALID "on_duplicate is only valid on insert";;
    iterR (fun a =>
      v_assign n ent r a;;
      c ← or_fail (fieldOf ent (a_column a)) COLUMN_UNKNOWN (str [q_entity (rq_query r); "."; a_column a]);
      fail_if (f_primary c || f_identity c) IR_INVALID
        (str ["on_duplicate cannot assign "; q_entity (rq_query r); "."; a_column a])) onDuplicate;;
    conflictKey ent (default [] (rq_set r));;
    Ok tt.

(** Checks a request against the model; the shape check that comes first holds
    of every [Request] here, by its type. *)
Definition validate (m : RuntimeModel) (r : Request) : res unit :=
  let q := rq_query r in
  let n := rq_n_params r in
  let kind := rq_kind r in
  v_head m r;;
  v_query m n q (rootPlace (v_scopes m q) None) true false false;;
  fail_if (bool_decide (default "" (q_lock q) <> "") && negb (includes kind ["one"; "all"])) IR_INVALID
    "row lock is only valid on one or all";;
  ent ← v_entity m (q_entity q);
  (if includes kind ["sum"; "avg"] then
     let agg := default "" (rq_agg r) in
     c ← or_fail (fieldOf ent agg) COLUMN_UNKNOWN (str [q_entity q; "."; agg]);
     fail_if (negb (includes (f_type c) numericTypes)) OPERATOR_NOT_ALLOWED
       (str [kind; " on "; q_entity q; "."; default "undefined" (rq_agg r); " ("; f_type c; ")"])
   else Ok tt);;
  fail_if (bool_decide (kind = "group_count") && negb (hasGroupBy q)) IR_INVALID "group_count needs group_by";;
  fail_if (hasGroupBy q && negb (includes kind ["count"; "group_count"])) IR_INVALID
    (str ["group_by is only valid on count or group_count, not "; kind]);;
  v_set n ent r;;
  v_rows n r;;
  v_onDuplicate n ent r;;
  match rq_optimistic r with
  | Some o =>
      fail_if (negb (given (fieldOf ent (opt_column o)))) COLUMN_UNKNOWN (str [q_entity q; "."; opt_column o]);;
      v_param n (opt_p o)
  | None => Ok tt
  end;;
  fail_if (includes kind ["update"; "delete"] && noItems (q_where q)) IR_INVALID (str [kind; " without where"]);;
  if decide (kind = "restore") then
    fail_if (given (rq_optimistic r)) IR_INVALID "restore takes no optimistic";;
    restoreKey ent r;;
    Ok tt
  else Ok tt.
