(* ===== verification/Params.v ===== *)
(** * The uses of request parameters ([engine/params.ts])

    [paramUses] lists, for each parameter index of a request, the slots that the
    parameter fills: the type of the slot and the column it is compared with or
    assigned to. *)

From S2P Require Import Prelude Ir Dialect Model.

Record ParamUse := mkParamUse { pu_type : string; pu_column : option Field; pu_assign : bool }.

(** The type of a column function's result on column [f]. *)
Definition functionType (name : string) (f : option Field) (entity column : string) : res string :=
  match f with
  | None => Err (OrmError INTERNAL (str [entity; "."; column; " is missing from validated column-function metadata"]))
  | Some f =>
      if includes name ["day_of_week"; "year"; "month"] then Ok "i64"
      else if decide (name = "date") then Ok "date"
      else Ok (f_type f)
  end.

(** The type of the interval of a relative time function. *)
Definition intervalType (name : string) : string :=
  if decide (assoc name valueFunctionUnits = Some "second") then "f64" else "i32".

Section ParamUses.
Variable m : RuntimeModel.

(** The member [out]: a list of uses per parameter. *)
Notation Uses := (list (list ParamUse)).

(** [this.out[i]?.push(use)]: an index outside the list adds nothing. *)
Definition u_add (i : Z) (use : ParamUse) (out : Uses) : Uses :=
  if i <? 0 then out else alter (fun l => l ++ [use]) (Z.to_nat i) out.

Definition u_column (i : Z) (f : option Field) (out : Uses) : Uses :=
  match f with Some f => u_add i (mkParamUse (f_type f) (Some f) false) out | None => out end.

Definition u_assigned (i : Z) (f : option Field) (out : Uses) : Uses :=
  match f with Some f => u_add i (mkParamUse (f_type f) (Some f) true) out | None => out end.

Definition u_assign (ent : Entity) (a : Assignment) (out : Uses) : Uses :=
  let f := fieldOf ent (a_column a) in
  let out := match a_plus_p a with Some p => u_column p f out | None => out end in
  let out := match a_minus_p a with Some p => u_column p f out | None => out end in
  match a_p a with Some p => u_assigned p f out | None => out end.

Definition u_type (i : Z) (type : string) (out : Uses) : Uses := u_add i (mkParamUse type None false) out.

(** A predicate without its subquery. *)
Definition u_predHead (p : Predicate) (ent : Entity) (out : Uses) : res Uses :=
  let op := default "" (p_op p) in
  let ps := default [] (p_ps p) in
  if includes op ["tuple_in"; "tuple_not_in"] then
    match default [] (p_cols p) with
    | [] => Ok out
    | cols =>
        foldR (fun out e =>
          let k := (fst e mod length cols)%nat in
          name ← present (cols !! k) (str ["tuple column "; pretty (Z.of_nat (k + 1))]);
          Ok (u_column (snd e) (fieldOf ent name) out)) out (zip (seq 0 (length ps)) ps)
    end
  else if includes op ["fulltext"; "fulltext_boolean"] then
    Ok (match p_p p with Some i => u_type i "text" out | None => out end)
  else
    let f := fieldOf ent (default "" (p_column p)) in
    let out := match p_value p with
               | Some v => foldl (fun out i => u_type i (intervalType (fn_name v)) out) out (default [] (fn_ps v))
               | None => out
               end in
    if includes op ["contains"; "contains_binary"] then
      Ok (match p_p p with Some i => u_type i "text" out | None => out end)
    else
      let slots := match p_p p with Some i => i :: ps | None => ps end in
      foldR (fun out i =>
        match p_fn p with
        | Some fn =>
            t ← functionType (fn_name fn) f (e_name ent) (default "" (p_column p));
            match f with
            | Some c => if decide (t = f_type c) then Ok (u_column i f out) else Ok (u_type i t out)
            | None => Ok (u_type i t out)
            end
        | None => Ok (u_column i f out)
        end) out slots.

(** Walks a query; [parent] is the parent entity of a relation child. *)
Fixpoint u_query (q : RequestQuery) (parent : option Entity) (out : Uses) {struct q} : res Uses :=
  match entityOf m (q_entity q) with
  | None => Ok out
  | Some ent =>
      out ← match q_on q with Some g => u_group g ent out | None => Ok out end;
      out ← match q_where q with Some g => u_group g ent out | None => Ok out end;
      let out := match q_if_parent q, parent with
                 | Some ip, Some par => u_column (ip_p ip) (fieldOf par (ip_column ip)) out
                 | _, _ => out
                 end in
      out ← match q_columns q with Some c => u_columns c out | None => Ok out end;
      out ← match q_joins q with Some js => foldR (fun out j => u_join j out) out js | None => Ok out end;
      match q_relations q with Some rs => foldR (fun out r => u_relation r ent out) out rs | None => Ok out end
  end
with u_columns (c : Projection) (out : Uses) {struct c} : res Uses :=
  match c_sub c with Some subs => foldR (fun out e => u_sub (snd e) out) out subs | None => Ok out end
with u_sub (s : Subquery) (out : Uses) {struct s} : res Uses := u_query (sq_query s) None out
with u_join (j : Join) (out : Uses) {struct j} : res Uses := u_query (j_query j) None out
with u_relation (r : Relation) (ent : Entity) (out : Uses) {struct r} : res Uses := u_query (r_query r) (Some ent) out
with u_group (g : Group) (ent : Entity) (out : Uses) {struct g} : res Uses :=
  foldR (fun out it => u_item it ent out) out (g_items g)
with u_item (it : Item) (ent : Entity) (out : Uses) {struct it} : res Uses :=
  match i_pred it with
  | Some p => u_pred p ent out
  | None => match i_group it with Some g => u_group g ent out | None => Ok out end
  end
with u_pred (p : Predicate) (ent : Entity) (out : Uses) {struct p} : res Uses :=
  out ← match p_sub p with Some s => u_sub s out | None => Ok out end;
  u_predHead p ent out.

Definition paramUses (r : Request) : res Uses :=
  let q := rq_query r in
  let ent := entityOf m (q_entity q) in
  out ← u_query q None (replicate (Z.to_nat (rq_n_params r)) []);
  match ent with
  | None => Ok out
  | Some ent =>
      let set := default [] (rq_set r) in
      let out := foldl (fun out a => u_assign ent a out) out set in
      let out := foldl (fun out a => u_assign ent a out) out (default [] (rq_on_duplicate r)) in
      out ← foldR (fun out row =>
        foldR (fun out e =>
          a ← present (set !! fst e) (str ["the assignment of row value "; pretty (Z.of_nat (fst e + 1))]);
          Ok (u_assigned (snd e) (fieldOf ent (a_column a)) out)) out (zip (seq 0 (length row)) row))
        out (default [] (rq_rows r));
      Ok (match rq_optimistic r with Some o => u_column (opt_p o) (fieldOf ent (opt_column o)) out | None => out end)
  end.
End ParamUses.
