(* ===== verification/Planner.v ===== *)
(** * The statement compiler ([engine/planner.ts])

    A validated request becomes a plan: a SELECT for the root and its joins, a
    statement per relation bound to the rows of its parent step, or one INSERT,
    UPDATE or DELETE.  A statement is rendered by computations over its
    [Builder], whose bind slots are numbered by the placeholders written so far.

    The recursion follows the scope tree and the condition groups at once, so
    it runs on fuel; [planFuel] is enough for every request
    ([compile_terminates]). *)

From S2P Require Import Prelude Ir Meet Dialect Model Params Validate.

(** ** Scopes *)

(** One entity occurrence in a statement (root or join) with its alias.
    [sc_extra] holds the columns that a relation step needs selected. *)
Inductive Scope := mkScope {
  sc_ent : Entity; sc_alias : string; sc_q : RequestQuery; sc_joins : list (string * Scope); sc_extra : list string }.

(** A scope with what its parent links lead to: the root of its statement, and
    the scope around the subquery that the statement is. *)
Record Place := mkPlace { pc_here : Scope; pc_root : Scope; pc_outer : option Scope }.

Definition rootOf (s : Scope) (outer : option Scope) : Place := mkPlace s s outer.
Definition joinOf (p : Place) (s : Scope) : Place := mkPlace s (pc_root p) (pc_outer p).

(** The relation a step loads. *)
Record RelationContext := mkRc {
  rc_parentStep : nat; rc_parentAsm : Assemble; rc_parentKeys : list string; rc_childKeys : list string; rc_kind : string }.

Record OutColumn := mkOut { out_name : string; out_column : string; out_fn : option OrmFunction; out_sub : option Subquery }.

(** ** The statement builder *)

Record Builder := mkBuilder { b_binds : list BindSlot; b_subs : nat; b_tableNames : list string }.
Definition newBuilder : Builder := mkBuilder [] 0 [].

(** The fields that a slot has when they are not given. *)
Definition slot (from : string) : BindSlot := mkSlot from 0 "" "" 0 "" [] "" None None None None false.

Definition slot_param (i : Z) (transform col_type : string) (precision scale len : option Z) : BindSlot :=
  mkSlot "param" i transform "" 0 "" [] col_type None precision scale len false.

Section Builder.
Variable d : Dialect.

(** Quotes the table name of an entity and records it as the statement's table. *)
Definition b_table (ent : Entity) : M Builder string := fun b =>
  Ok (d_quote d (e_table ent), mkBuilder (b_binds b) (b_subs b) (set_add (e_table ent) (b_tableNames b))).

(** The tables the statement wrote, sorted. *)
Definition b_tables (b : Builder) : list string := sort_by (fun x => x) (b_tableNames b).

Definition b_push (s : BindSlot) : M Builder string := fun b =>
  Ok (d_placeholder d (S (length (b_binds b))), mkBuilder (b_binds b ++ [s]) (b_subs b) (b_tableNames b)).

(** Adds a slot that has a type. *)
Definition b_typed (s : BindSlot) : M Builder string := fun b =>
  if decide (bs_col_type s = "")
  then Err (OrmError IR_INVALID (str ["bind slot "; pretty (Z.of_nat (length (b_binds b))); " ("; bs_from s; ") has no declared type"]))
  else b_push s b.

(** The value Params[i] whose dbspec type is [type]. *)
Definition b_param (i : Z) (type : string) : M Builder string :=
  b_typed (slot_param i "" type (if includes type ["datetime"; "time"] then Some 6 else None) None None).

Definition b_transformed (i : Z) (transform : string) : M Builder string :=
  b_typed (slot_param i transform "text" None None None).

(** The value Params[i] compared with or assigned to [col]. *)
Definition b_colParam (i : Z) (col : Field) (transform : string) : M Builder string :=
  b_typed (slot_param i transform (f_type col)
    (if includes (f_type col) ["decimal"; "time"; "datetime"] then Some (f_precision col) else None)
    (if decide (f_type col = "decimal") then Some (f_scale col) else None)
    (if decide (f_type col = "varchar") then Some (f_length col) else None)).

Definition b_config (name type : string) : M Builder string :=
  b_typed (mkSlot "config" 0 "" name 0 "" [] type None None None None false).

Definition b_now (precision : Z) : M Builder string :=
  b_typed (mkSlot "now" 0 "" "" 0 "" [] "datetime" None (Some precision) None None false).

(** The column [name] of [ent], which the validator has checked. *)
Definition columnIn (ent : Entity) (name : string) : res Field :=
  present (fieldOf ent name) (str ["column "; e_name ent; "."; name]).

Definition b_audit (ent : Entity) : M Builder string :=
  c ← lift (columnIn ent (e_auditColumn ent));
  b_typed (mkSlot "audit" 0 "" (e_auditRecord ent) 0 "" [] (f_type c) None None None None false).

(** The one placeholder an executor expands to the parent values. *)
Definition b_parentList (step : nat) (keyTypes : list string) : M Builder string :=
  b_push (mkSlot "parent" 0 "" "" step "" [] "" (Some keyTypes) None None None false).

Definition with_host_styles (s : BindSlot) (host : list string) : BindSlot :=
  mkSlot (bs_from s) (bs_param s) (bs_transform s) (bs_name s) (bs_step s) (bs_column s) host (bs_col_type s)
    (bs_key_types s) (bs_precision s) (bs_scale s) (bs_length s) (bs_not_null s).

(** [b.last().host_styles = host] *)
Definition b_lastStyles (host : list string) : M Builder unit := fun b =>
  match reverse (b_binds b) with
  | [] => Err (JsError "the last bind slot is missing")
  | s :: before => Ok (tt, mkBuilder (reverse (with_host_styles s host :: before)) (b_subs b) (b_tableNames b))
  end.

Definition with_assigned (col : Field) (s : BindSlot) : BindSlot :=
  if decide (bs_from s = "param")
  then mkSlot (bs_from s) (bs_param s) (bs_transform s) (bs_name s) (bs_step s) (f_name col) (bs_host_styles s)
         (bs_col_type s) (bs_key_types s) (bs_precision s) (bs_scale s) (bs_length s) true
  else s.

(** Marks the param slots from [start] as the assignment of [col]. *)
Definition markAssigned (start : nat) (col : Field) : M Builder unit := fun b =>
  Ok (tt, if f_nullable col then b
          else mkBuilder (take start (b_binds b) ++ map (with_assigned col) (drop start (b_binds b))) (b_subs b) (b_tableNames b)).

(** [b.subs++], returning the new count. *)
Definition b_nextSub : M Builder nat := fun b => Ok (S (b_subs b), mkBuilder (b_binds b) (S (b_subs b)) (b_tableNames b)).
End Builder.

(** ** Pieces without a builder *)

Definition cmp (op : string) : res string :=
  match assoc op [("eq", "="); ("not_eq", "!="); ("gt", ">"); ("gte", ">="); ("lt", "<"); ("lte", "<=")] with
  | Some s => Ok s
  | None => Err (JsError (str ["cmp: "; op]))
  end.

Definition indexOf (a : Assemble) (name : string) : res nat :=
  match List.find (fun c => bool_decide (oc_name c = name)) (as_columns a) with
  | Some col => Ok (oc_index col)
  | None => Err (JsError (str ["planner: column "; name; " not projected in "; as_entity a]))
  end.

Definition keyRefs (a : Assemble) (columns : list string) : res (list KeyReference) :=
  mapR (fun column => i ← indexOf a column; Ok (mkKeyRef column i)) columns.

Definition assigned (set : list Assignment) (column : string) : bool :=
  existsb (fun a => bool_decide (a_column a = column)) set.

Definition isAes (c : Field) : bool := includes "aes" (f_stages c).

Definition assignsAES (ent : Entity) (set : list Assignment) : bool :=
  existsb (fun a => match fieldOf ent (a_column a) with Some c => isAes c | None => false end) set.

(** One key version describes the whole row: an AES update replaces every AES column. *)
Definition validateAESAssignments (ent : Entity) (set : list Assignment) (requireComplete : bool) : res unit :=
  let version := e_aesVersion ent in
  if decide (version = "") then Ok tt
  else
    fail_if (assigned set version) IR_INVALID (str [version; " is managed by the AES writer"]);;
    if negb requireComplete || negb (assignsAES ent set) then Ok tt
    else iterR (fun col => fail_if (isAes col && negb (assigned set (f_name col))) IR_INVALID
                  (str ["AES update must assign every AES column; missing "; f_name col])) (e_fields ent).

(** Whether a database that assigns keys allocates the key of [ent]. *)
Definition allocatedKey (ent : Entity) : bool :=
  bool_decide (e_keyPrefix ent <> "") && (length (e_primaryKey ent) =? 1)%nat.

(** An insert assigns every required column. *)
Definition validateRequiredAssignments (ent : Entity) (set : list Assignment) (assigns : bool) : res unit :=
  iterR (fun col =>
    if f_nullable col || f_hasDefault col || f_identity col || bool_decide (f_name col = e_aesVersion ent)
       || bool_decide (f_name col = e_auditColumn ent) || assigned set (f_name col) then Ok tt
    else if assigns && ((allocatedKey ent && bool_decide (Some (f_name col) = head (e_primaryKey ent)))
                        || bool_decide (f_name col = e_order ent)) then Ok tt
    else Err (OrmError IR_INVALID (str ["required column "; e_name ent; "."; f_name col; " is not set"]))) (e_fields ent).

(** The variables of the loop of [addBlindIndexAssignments]. *)
Record BlindAcc := mkBlind { bl_assignments : list Assignment; bl_sources : list nat; bl_derived : list (string * string) }.

Definition blindStep (ent : Entity) (explicit : list string) (acc : BlindAcc) (e : nat * Assignment) : res BlindAcc :=
  let '(i, a) := e in
  match fieldOf ent (a_column a) with
  | None => Ok acc
  | Some col =>
      if bool_decide (f_blindIndex col = "") || includes (f_blindIndex col) explicit then Ok acc
      else match assoc (f_blindIndex col) (bl_derived acc) with
           | Some previous =>
               if decide (previous = a_column a) then Ok acc
               else Err (OrmError IR_INVALID
                      (str ["blind index "; f_blindIndex col; " is derived from both "; previous; " and "; a_column a]))
           | None =>
               Ok (mkBlind (bl_assignments acc ++ [mkAssignment (f_blindIndex col) (a_p a) (a_null a) None None])
                     (bl_sources acc ++ [i]) (assoc_set (f_blindIndex col) (a_column a) (bl_derived acc)))
           end
  end.

(** The assignments with one for each blind index of an assigned AES column, and
    the position in the input that each takes its value from. *)
Definition addBlindIndexAssignments (ent : Entity) (input : list Assignment) : res (list Assignment * list nat) :=
  acc ← foldR (blindStep ent (map a_column input)) (mkBlind input (seq 0 (length input)) [])
          (zip (seq 0 (length input)) input);
  Ok (bl_assignments acc, bl_sources acc).

Definition isBlindIndexTarget (ent : Entity) (target : string) : bool :=
  existsb (fun c => bool_decide (f_blindIndex c = target)) (e_fields ent).

(** The index where the end of [stages] that [sql] accepts at every stage begins. *)
Fixpoint sqlStartFrom (rlist : list string) (sql : string -> bool) : nat :=
  match rlist with
  | [] => 0
  | s :: before => if sql s then sqlStartFrom before sql else length rlist
  end.
Definition sqlStart (stages : list string) (sql : string -> bool) : nat := sqlStartFrom (reverse stages) sql.

(** The type of the value a SQL-side style function takes from its placeholder. *)
Definition styleInputType (style : string) : string := if decide (style = "ip") then "text" else "bytes".

(** The joins that the groups of a where place. *)
Fixpoint placedJoins (g : Group) (out : list string) : list string :=
  foldl (fun out it =>
    let out := match i_joined it with Some j => set_add (jr_join j) out | None => out end in
    match i_group it with Some g => placedJoins g out | None => out end) out (g_items g).

Definition sortedEntries {V} (record : option (list (string * V))) : list (string * V) := sort_by fst (default [] record).

(** ** Rendering *)

Section Planner.
Variables (m : RuntimeModel) (d : Dialect) (assigns : bool).

Definition p_entity (name : string) : res Entity := present (entityOf m name) (str ["entity "; name]).

(** The scope of the join [rel] of [s], which [buildScopes] made. *)
Definition joinScope (s : Scope) (rel : string) : res Scope := present (assoc rel (sc_joins s)) (str ["the scope of join "; rel]).

(** The two values of a between predicate. *)
Definition between (pr : Predicate) : res (Z * Z) :=
  match default [] (p_ps pr) with
  | low :: high :: _ => Ok (low, high)
  | _ => Err (OrmError IR_INVALID "between needs 2 params (ps)")
  end.

(** Deterministic aliases: the root has its own, a join of the root [a] its
    name, and any other join its name after the alias of its parent.  [nested]
    says that the query has a parent scope. *)
Fixpoint buildScopes (q : RequestQuery) (alias : string) (nested : bool) : res Scope :=
  ent ← p_entity (q_entity q);
  joins ← match q_joins q with
          | None => Ok []
          | Some js =>
              foldR (fun acc j =>
                let ja := if nested || bool_decide (alias <> "a") then str [alias; "__"; j_rel j] else j_rel j in
                s ← buildScopes (j_query j) ja true;
                Ok (assoc_set (j_rel j) s acc)) [] js
          end;
  Ok (mkScope ent alias q joins []).

Definition qcol (s : Scope) (col : string) : string := str [d_quote d (sc_alias s); "."; d_quote d col].
Definition qualified (s : Scope) (columns : list string) : list string := map (qcol s) columns.

Definition sqlStyles (stages : list string) : list string := drop (sqlStart stages (d_handlesStage d)) stages.
Definition readSqlStyles (stages : list string) : list string := drop (sqlStart stages (d_decodesStage d)) stages.
Definition clientStyles (stages : list string) : list string := take (sqlStart stages (d_decodesStage d)) stages.

(** A column read with its SQL-side read stages. *)
Definition readColumn (qc : string) (col : Field) : string :=
  let expr := d_readExpr d qc (readSqlStyles (f_stages col)) in
  if decide (f_type col = "uuid") then d_readUuid d expr
  else if decide (f_type col = "time") then d_readTime d expr (f_precision col) else expr.

(** Binds one value; SQL-side stages wrap it, host-side stages are recorded on the slot. *)
Definition renderValue (col : Field) (i : Z) : M Builder string :=
  let list := f_stages col in
  let host := filter (fun st => includes st ["aes"; "hex"; "ip"] = true) (take (sqlStart list (d_handlesStage d)) list) in
  let sql := sqlStyles (f_stages col) in
  match sql with
  | [] =>
      ph ← b_colParam d i col "";
      b_lastStyles host;;
      mret (if decide (f_type col = "time") then d_writeTime d ph
            else if decide (f_type col = "uuid") then d_writeUuid d ph
            else d_writeExpr d ph sql)
  | first :: _ =>
      ph ← b_param d i (styleInputType first);
      b_lastStyles host;;
      mret (d_writeExpr d ph sql)
  end.

(** Binds plaintext that the executor hashes with the blind index key. *)
Definition renderBlindIndexValue (index : Field) (i : Z) : M Builder string :=
  ph ← b_param d i (f_type index);
  b_lastStyles ["blind_index"];;
  mret ph.

Definition resolvePath (s : Place) (path : string) : res Scope :=
  if decide (path = "^") then or_fail (pc_outer s) IR_INVALID "^ reference outside a subquery"
  else if decide (path = "") then Ok (pc_root s)
  else foldR (fun cur seg => or_fail (assoc seg (sc_joins cur)) ENTITY_NOT_JOINED (str [e_name (sc_ent cur); "."; seg]))
         (pc_root s) (split_on "/"%char path).

Definition columnFunction (s : Scope) (column : string) (f : OrmFunction) : res string :=
  or_fail (d_columnFunction d (fn_name f) (qcol s column)) CAPABILITY_UNSUPPORTED
    (str [fn_name f; " is not available on "; d_name d]).

(** *** Predicates *)

(** The rows of a tuple predicate, [for (let i = 0; i < ps.length; i += cols.length)]:
    without a column the loop would not end. *)
Fixpoint tupleRows (fuel : nat) (s : Scope) (op : string) (cols : list string) (ps : list Z) (i : nat)
    : M Builder (list (list string)) :=
  if (i <? length ps)%nat then
    match fuel with
    | O => throw OutOfFuel
    | S fuel =>
        row ← mapS (fun e =>
          col ← lift (columnIn (sc_ent s) (snd e));
          v ← lift (present (ps !! (i + fst e)%nat) (str ["value "; pretty (Z.of_nat (i + fst e + 1)); " of "; op]));
          renderValue col v) (zip (seq 0 (length cols)) cols);
        rows ← tupleRows fuel s op cols ps (i + length cols);
        mret (row :: rows)
    end
  else mret [].

Definition renderTuple (s : Scope) (op : string) (pr : Predicate) : M Builder string :=
  cols ← lift (present (p_cols pr) (str ["the columns of "; op]));
  ps ← lift (present (p_ps pr) (str ["the values of "; op]));
  rows ← tupleRows (length ps) s op cols ps 0;
  mret (d_tupleIn d (qualified s cols) rows (bool_decide (op = "tuple_not_in"))).

Definition renderFulltext (s : Scope) (op : string) (pr : Predicate) : M Builder string :=
  cols ← lift (present (p_cols pr) (str ["the columns of "; op]));
  sql ← d_fulltext d (qualified s cols)
          (fun transform => p ← lift (present (p_p pr) (str ["the value of "; op])); b_transformed d p transform)
          (bool_decide (op = "fulltext_boolean"));
  lift (or_fail sql OPERATOR_NOT_ALLOWED (str [op; " on "; e_name (sc_ent s)])).

(** A comparison with a relative time. *)
Definition renderClock (lhs op : string) (col : Field) (fn : OrmFunction) : M Builder string :=
  value ← d_valueFunction d (fn_name fn)
            (p ← lift (present (default [] (fn_ps fn) !! 0%nat) (str ["the argument of "; fn_name fn]));
             b_param d p (intervalType (fn_name fn)))
            (b_now d 6);
  value ← lift (or_fail value CAPABILITY_UNSUPPORTED (str [fn_name fn; " is not available on "; d_name d]));
  let lhs := if bool_decide (f_type col = "datetime") && bool_decide (fn_name fn <> "today")
             then d_clockOperand d lhs (f_precision col) else lhs in
  c ← lift (cmp op);
  mret (str [lhs; " "; c; " "; value]).

(** A comparison of a column function. *)
Definition renderFunction (s : Scope) (op column : string) (col : Field) (f : OrmFunction) (pr : Predicate) : M Builder string :=
  fn ← lift (columnFunction s column f);
  type ← lift (functionType (fn_name f) (Some col) (e_name (sc_ent s)) column);
  if includes op ["in"; "not_in"] then
    values ← mapS (fun i => b_param d i type) (default [] (p_ps pr));
    mret (str [fn; (if decide (op = "not_in") then " NOT IN " else " IN "); "("; join ", " values; ")"])
  else if decide (op = "between") then
    r ← lift (between pr);
    lo ← b_param d (fst r) type;
    hi ← b_param d (snd r) type;
    mret (str [fn; " BETWEEN "; lo; " AND "; hi])
  else
    c ← lift (cmp op);
    p ← lift (present (p_p pr) (str ["the value of "; op]));
    v ← b_param d p type;
    mret (str [fn; " "; c; " "; v]).

Definition needsBlindIndex (s : Scope) (col : Field) : res unit :=
  fail_if (bool_decide (f_blindIndex col = "")) IR_INVALID
    (str [e_name (sc_ent s); "."; f_name col; " requires a declared blind index for equality search"]).

Definition renderComparison (s : Scope) (lhs op : string) (col : Field) (pr : Predicate) : M Builder string :=
  if isAes col then
    lift (fail_if (negb (includes op ["eq"; "not_eq"])) OPERATOR_NOT_ALLOWED
            "AES columns support only equality through a declared blind index");;
    lift (needsBlindIndex s col);;
    let lhs := qcol s (f_blindIndex col) in
    c ← lift (cmp op);
    index ← lift (columnIn (sc_ent s) (f_blindIndex col));
    p ← lift (present (p_p pr) (str ["the value of "; op]));
    v ← renderBlindIndexValue index p;
    mret (str [lhs; " "; c; " "; v])
  else
    c ← lift (cmp op);
    p ← lift (present (p_p pr) (str ["the value of "; op]));
    v ← renderValue col p;
    mret (str [lhs; " "; c; " "; v]).

Definition renderIn (s : Scope) (lhs op : string) (col : Field) (pr : Predicate) : M Builder string :=
  let ps := default [] (p_ps pr) in
  r ← (if isAes col then
         lift (needsBlindIndex s col);;
         values ← mapS (fun i => index ← lift (columnIn (sc_ent s) (f_blindIndex col)); renderBlindIndexValue index i) ps;
         mret (qcol s (f_blindIndex col), values)
       else
         values ← mapS (renderValue col) ps;
         mret (lhs, values));
  mret (str [fst r; " "; (if decide (op = "not_in") then "NOT IN" else "IN"); " ("; join ", " (snd r); ")"]).

(** A predicate on a column without a function, a clock or a subquery. *)
Definition renderPlain (place : Place) (lhs op : string) (col : Field) (pr : Predicate) : M Builder string :=
  let s := pc_here place in
  let value := lift (present (p_p pr) (str ["the value of "; op])) in
  if includes op ["eq"; "not_eq"; "gt"; "gte"; "lt"; "lte"] then renderComparison s lhs op col pr
  else if includes op columnOps then
    ref ← lift (present (p_ref pr) (str ["the reference of "; op]));
    rs ← lift (resolvePath place (default "" (ref_path ref)));
    lift (or_fail (fieldOf (sc_ent rs) (ref_column ref)) COLUMN_UNKNOWN (str [e_name (sc_ent rs); "."; ref_column ref]));;
    c ← lift (cmp (String.substring 0 (String.length op - 4) op));
    mret (str [lhs; " "; c; " "; qcol rs (ref_column ref)])
  else if includes op ["in"; "not_in"] then renderIn s lhs op col pr
  else if decide (op = "between") then
    r ← lift (between pr);
    lo ← renderValue col (fst r);
    hi ← renderValue col (snd r);
    mret (str [lhs; " BETWEEN "; lo; " AND "; hi])
  else if decide (op = "is_null") then mret (str [lhs; " IS NULL"])
  else if decide (op = "is_not_null") then mret (str [lhs; " IS NOT NULL"])
  else if decide (op = "contains") then
    p ← value; v ← b_colParam d p col "like_contains"; mret (d_like d lhs v)
  else if decide (op = "contains_binary") then
    d_containsBinary d lhs (fun transform => p ← value; b_colParam d p col transform)
  else fail OPERATOR_UNKNOWN op.

(** *** Order *)

Definition orderItem (s : Scope) (o : Order) : res string :=
  if o_random o then Ok (d_random d)
  else
    column ← present (o_column o) "the column of an order item";
    target ← match o_fn o with Some f => columnFunction s column f | None => Ok (qcol s column) end;
    c ← columnIn (sc_ent s) column;
    Ok (str [target; (if o_desc o then " DESC" else " ASC"); (if f_nullable c then d_nullsOrder d (o_desc o) else "")]).

(** The order items of a scope, then of its joins. *)
Fixpoint orderParts (fuel : nat) (s : Scope) : res (list string) :=
  match fuel with
  | O => Err OutOfFuel
  | S fuel =>
      own ← mapR (orderItem s) (default [] (q_order (sc_q s)));
      nested ← mapR (fun j => child ← joinScope s (j_rel j); orderParts fuel child) (default [] (q_joins (sc_q s)));
      Ok (own ++ concat nested)
  end.

Definition renderOrder (fuel : nat) (root : Scope) : res string :=
  parts ← orderParts fuel root;
  Ok (match parts with [] => "" | _ => str [" ORDER BY "; join ", " parts] end).

Definition renderGroupBy (root : Scope) (q : RequestQuery) : string := join ", " (map (qcol root) (default [] (q_group_by q))).

(** *** Conditions, joins and subqueries *)

(** The items of a group with their connectors; the first takes none. *)
Definition groupParts (items : list (option string * string)) : list string :=
  match items with
  | [] => []
  | first :: rest =>
      snd first :: concat (map (fun e => [(if decide (fst e = Some "or") then "OR" else "AND"); snd e]) rest)
  end.

Definition groupText (top negated : bool) (items : list (option string * string)) : string :=
  let out := join " " (groupParts items) in
  let grouped := if top then out else str ["("; out; ")"] in
  if negated then str ["NOT "; grouped] else grouped.

(** The condition of a soft delete column, for an entity that has one. *)
Definition softDeleteConditions (s : Scope) (text : string) : list string :=
  if decide (e_softDelete (sc_ent s) = "") then [] else [str [qcol s (e_softDelete (sc_ent s)); text]].

Definition joinOn (s js : Scope) (j : Join) : res (list string) :=
  left ← present (j_left j) (str ["the left column of join "; j_rel j]);
  right ← present (j_right j) (str ["the right column of join "; j_rel j]);
  Ok (str [qcol s left; " = "; qcol js right] :: softDeleteConditions js " IS NULL").

Definition forceIndexText (q : RequestQuery) : string :=
  let index := default "" (q_force_index q) in
  if decide (index = "") then "" else d_forceIndex d index.

Definition whereText (where_ : list string) : string :=
  match where_ with [] => "" | _ => str [" WHERE "; join " AND " where_] end.

(** What a subquery selects. *)
Definition subSelectColumn (root : Scope) (sub : Subquery) : res string :=
  let column := present (sq_column sub) (str ["the column of a subquery of "; q_entity (sq_query sub)]) in
  let agg := default "" (sq_agg sub) in
  if decide (agg = "sum") then c ← column; Ok (str ["COALESCE(SUM("; qcol root c; "), 0)"])
  else if decide (agg = "avg") then c ← column; Ok (str ["AVG("; qcol root c; ")"])
  else if decide (agg = "count") then Ok "COUNT(*)"
  else c ← column; Ok (qcol root c).

Fixpoint renderGroup (fuel : nat) (s : Place) (g : Group) (top : bool) {struct fuel} : M Builder string :=
  match fuel with
  | O => throw OutOfFuel
  | S fuel =>
      items ← mapS (fun it =>
        match i_pred it with
        | Some p => text ← renderPred fuel s p; mret (p_conn p, text)
        | None =>
            match i_group it with
            | Some g => text ← renderGroup fuel s g false; mret (g_conn g, text)
            | None =>
                joined ← lift (present (i_joined it) "a where item of pred, group or joined");
                js ← lift (joinScope (pc_here s) (jr_join joined));
                w ← lift (present (q_where (sc_q js)) (str ["the where of joined "; jr_join joined]));
                text ← renderGroup fuel (joinOf s js) w false;
                mret (jr_conn joined, text)
            end
        end) (g_items g);
      mret (groupText top (g_not g) items)
  end
with renderPred (fuel : nat) (place : Place) (pr : Predicate) {struct fuel} : M Builder string :=
  match fuel with
  | O => throw OutOfFuel
  | S fuel =>
      let s := pc_here place in
      let op := default "" (p_op pr) in
      if includes op ["tuple_in"; "tuple_not_in"] then renderTuple s op pr
      else if includes op ["fulltext"; "fulltext_boolean"] then renderFulltext s op pr
      else
        column ← lift (present (p_column pr) (str ["the column of "; op]));
        col ← lift (match p_fn pr with
                    | Some _ => or_fail (fieldOf (sc_ent s) column) INTERNAL
                        (str [e_name (sc_ent s); "."; column; " is missing from validated column-function metadata"])
                    | None => columnIn (sc_ent s) column
                    end);
        let lhs := qcol s column in
        match p_sub pr, p_value pr, p_fn pr with
        | Some sub, _, _ =>
            inner ← subSelect fuel s sub;
            mret (str [lhs; (if decide (op = "not_in") then " NOT IN " else " IN "); "("; inner; ")"])
        | None, Some fn, _ => renderClock lhs op col fn
        | None, None, Some f => renderFunction s op column col f pr
        | None, None, None => renderPlain place lhs op col pr
        end
  end
with subSelect (fuel : nat) (outer : Scope) (sub : Subquery) {struct fuel} : M Builder string :=
  match fuel with
  | O => throw OutOfFuel
  | S fuel =>
      k ← b_nextSub;
      let q := sq_query sub in
      root ← lift (buildScopes q (str ["s"; pretty (Z.of_nat k)]) false);
      let place := rootOf root (Some outer) in
      selected ← lift (subSelectColumn root sub);
      table ← b_table d (sc_ent root);
      joins ← renderJoins fuel place;
      conditions ← (if noItems (q_where q) then mret []
                    else w ← lift (present (q_where q) "the where of a subquery");
                         text ← renderGroup fuel place w true; mret [text]);
      nested ← collectJoinWhere fuel place;
      let where_ := softDeleteConditions root " IS NULL" ++ conditions ++ nested in
      tail ← (match decide (default "" (sq_agg sub) = ""), q_limit q with
              | left _, Some (LimitParams _ _) => fail IR_INVALID "only the root page limit may use parameter slots"
              | left _, Some (LimitValues o c) =>
                  order ← lift (renderOrder fuel root);
                  mret (str [order; d_limit d (pretty o) (pretty c)])
              | _, _ => mret ""
              end);
      mret (str ["SELECT "; selected; " FROM "; table; " AS "; d_quote d (sc_alias root); joins; whereText where_; tail])
  end
with renderJoins (fuel : nat) (s : Place) {struct fuel} : M Builder string :=
  match fuel with
  | O => throw OutOfFuel
  | S fuel =>
      foldS (fun sql j =>
        js ← lift (joinScope (pc_here s) (j_rel j));
        conditions ← lift (joinOn (pc_here s) js j);
        table ← b_table d (sc_ent js);
        on ← (if noItems (q_on (j_query j)) then mret ""
              else g ← lift (present (q_on (j_query j)) "the on of a join");
                   text ← renderGroup fuel (joinOf s js) g true; mret (str [" AND "; text]));
        nested ← renderJoins fuel (joinOf s js);
        mret (str [sql; (if decide (j_kind j = "left") then " LEFT JOIN " else " INNER JOIN "); table; " AS ";
                   d_quote d (sc_alias js); forceIndexText (sc_q js); " ON "; join " AND " conditions; on; nested]))
        "" (default [] (q_joins (sc_q (pc_here s))))
  end
with collectJoinWhere (fuel : nat) (s : Place) {struct fuel} : M Builder (list string) :=
  match fuel with
  | O => throw OutOfFuel
  | S fuel =>
      let placed := match q_where (sc_q (pc_here s)) with Some w => placedJoins w [] | None => [] end in
      foldS (fun where_ j =>
        js ← lift (joinScope (pc_here s) (j_rel j));
        own ← (if noItems (q_where (j_query j)) || includes (j_rel j) placed then mret []
               else w ← lift (present (q_where (j_query j)) "the where of a join");
                    text ← renderGroup fuel (joinOf s js) w false; mret [text]);
        nested ← collectJoinWhere fuel (joinOf s js);
        mret (where_ ++ own ++ nested)) [] (default [] (q_joins (sc_q (pc_here s))))
  end.

(** *** Projection *)

Definition addName (base : list string) (name : string) : list string := if includes name base then base else base ++ [name].

(** The columns that the mode selects. *)
Definition modeColumns (mode : string) (ent : Entity) : list string :=
  map f_name (filter (fun c => (if decide (mode = "all") then true
                                else if decide (mode = "none") then f_primary c || f_foreign c
                                else f_selected c) = true) (e_fields ent)).

Definition removeColumns (ent : Entity) (removed base : list string) : res (list string) :=
  if (length removed =? 0)%nat then Ok base
  else foldR (fun kept x =>
         if negb (includes x removed) then Ok (kept ++ [x])
         else c ← columnIn ent x; Ok (if f_primary c then kept ++ [x] else kept)) [] base.

(** Resolves mode, add, remove, and named outputs into an ordered list. *)
Definition projection (s : Scope) : res (list OutColumn) :=
  let c := q_columns (sc_q s) in
  let mode := default "" (c ≫= c_mode) in
  let ent := sc_ent s in
  base ← match c with
         | None => Ok (modeColumns mode ent)
         | Some c => removeColumns ent (default [] (c_remove c))
                       (foldl addName (modeColumns mode ent) (default [] (c_add c)))
         end;
  let base := foldl addName base (sc_extra s) in
  let base := foldl (fun base r =>
      let base := foldl addName base (map kp_left (default [] (r_keys r))) in
      match q_if_parent (r_query r) with Some ip => addName base (ip_column ip) | None => base end)
    base (default [] (q_relations (sc_q s))) in
  let base := foldl (fun base pk => if includes pk base then base else pk :: base) base (e_primaryKey ent) in
  let out := map (fun x => mkOut x x None None) base in
  Ok (out ++ match c with
             | None => []
             | Some c => map (fun e => mkOut (fst e) (cf_column (snd e)) (Some (cf_fn (snd e))) None) (sortedEntries (c_fn c))
                         ++ map (fun e => mkOut (fst e) "" None (Some (snd e))) (sortedEntries (c_sub c))
             end).

Definition subType (sub : Subquery) : res string :=
  if decide (sq_agg sub = Some "count") then Ok "i64"
  else if decide (sq_agg sub = Some "avg") then Ok "f64"
  else
    let entity := q_entity (sq_query sub) in
    ent ← or_fail (entityOf m entity) INTERNAL (str ["scalar subquery entity "; entity; " is missing"]);
    column ← or_fail (fieldOf ent (default "" (sq_column sub))) INTERNAL
               (str [e_name ent; "."; default "" (sq_column sub); " is missing from a validated scalar subquery"]);
    Ok (if bool_decide (sq_agg sub = Some "sum") && includes (f_type column) ["i16"; "i32"] then "i64" else f_type column).

(** The variables of the loops of [selectList]: the parts, the columns of the
    assemble, the shared column counter and the shared output names. *)
Record SelectAcc := mkSelect {
  sa_parts : list string; sa_columns : list OutputColumn; sa_idx : nat; sa_outNames : list string; sa_aes : bool }.

(** The expression of one output column, its type and its client styles. *)
Definition outExpr (fuel : nat) (s : Scope) (c : OutColumn) : M Builder (string * string * list string) :=
  let col := if decide (out_column c = "") then None else fieldOf (sc_ent s) (out_column c) in
  match out_fn c, out_sub c with
  | Some f, _ =>
      own ← lift (or_fail col INTERNAL (str [e_name (sc_ent s); "."; out_column c; " is missing from validated column-function metadata"]));
      expr ← lift (columnFunction s (out_column c) f);
      type ← lift (functionType (fn_name f) (Some own) (e_name (sc_ent s)) (out_column c));
      mret (expr, type, [])
  | None, Some sub =>
      inner ← subSelect fuel s sub;
      type ← lift (subType sub);
      mret (str ["("; inner; ")"], match col with Some own => f_type own | None => type end, [])
  | None, None =>
      own ← lift (present col (str ["column "; e_name (sc_ent s); "."; out_column c]));
      mret (readColumn (qcol s (out_column c)) own, f_type own, clientStyles (f_stages own))
  end.

Definition selectColumn (fuel : nat) (s : Scope) (acc : SelectAcc) (c : OutColumn) : M Builder SelectAcc :=
  let col := if decide (out_column c = "") then None else fieldOf (sc_ent s) (out_column c) in
  let aes := match col with Some own => isAes own | None => false end in
  e ← outExpr fuel s c;
  let '(expr, type, styles) := e in
  let out := str [sc_alias s; "__"; out_name c] in
  mret (mkSelect (sa_parts acc ++ [str [expr; " AS "; d_quote d out]])
          (sa_columns acc ++ [mkOutput (sa_idx acc) (out_name c) (out_column c) type styles false])
          (S (sa_idx acc)) (sa_outNames acc ++ [out]) (sa_aes acc || aes)).

(** The position of the first element that satisfies [p]. *)
Fixpoint findIndex {A} (p : A -> bool) (l : list A) : option nat :=
  match l with
  | [] => None
  | x :: l => if p x then Some 0%nat else S <$> findIndex p l
  end.

(** The AES key version of the row: a chosen version column, or a hidden one. *)
Definition selectVersion (s : Scope) (acc : SelectAcc) : res (SelectAcc * option nat) :=
  if sa_aes acc then
    version ← or_fail (fieldOf (sc_ent s) (e_aesVersion (sc_ent s))) SCHEMA_INVALID
                (str [e_name (sc_ent s); ": AES column requires an aes_version column"]);
    match findIndex (fun c => bool_decide (oc_column c = f_name version) && (length (oc_styles c) =? 0)%nat) (sa_columns acc) with
    | Some chosen => Ok (acc, Some chosen)
    | None =>
        let out := str [sc_alias s; "__"; f_name version] in
        Ok (mkSelect (sa_parts acc ++ [str [qcol s (f_name version); " AS "; d_quote d out]])
              (sa_columns acc ++ [mkOutput (sa_idx acc) (f_name version) (f_name version) (f_type version) [] true])
              (S (sa_idx acc)) (sa_outNames acc ++ [out]) (sa_aes acc),
            Some (length (sa_columns acc)))
    end
  else Ok (acc, None).

(** What [selectList] leaves: the text, the filled assemble, the shared counter and output names. *)
Record Selected := mkSelected { se_sql : string; se_asm : Assemble; se_idx : nat; se_outNames : list string }.

(** One turn of the loop over the joins of [selectList], which calls itself as [rec]. *)
Definition selectJoin (rec : Scope -> nat -> list string -> M Builder Selected) (s : Scope)
    (r : string * list Child * nat * list string) (j : Join) : M Builder (string * list Child * nat * list string) :=
  let '(sql, children, idx, outNames) := r in
  js ← lift (joinScope s (j_rel j));
  sel ← rec js idx outNames;
  let joined := se_sql sel in
  let sql := if decide (joined = "") then sql
             else str [sql; (if decide (sql = "") then "" else ", "); joined] in
  mret (sql, children ++ [mkChild (j_rel j) "join" 0 [] [] [] false false (Some (se_asm sel))], se_idx sel, se_outNames sel).

(** The projection of a scope and its joins; join columns become join children. *)
Fixpoint selectList (fuel : nat) (s : Scope) (idx : nat) (outNames : list string) {struct fuel} : M Builder Selected :=
  match fuel with
  | O => throw OutOfFuel
  | S fuel =>
      columns ← lift (projection s);
      acc ← foldS (selectColumn fuel s) (mkSelect [] [] idx outNames false) columns;
      v ← lift (selectVersion s acc);
      let '(acc, version) := v in
      r ← foldS (selectJoin (selectList fuel) s)
        (join ", " (sa_parts acc), [], sa_idx acc, sa_outNames acc) (default [] (q_joins (sc_q s)));
      let '(sql, children, idx, outNames) := r in
      let bare := mkAssemble (e_name (sc_ent s)) (sc_alias s) (sa_columns acc) children [] version in
      key ← lift (keyRefs bare (e_primaryKey (sc_ent s)));
      mret (mkSelected sql (mkAssemble (e_name (sc_ent s)) (sc_alias s) (sa_columns acc) children key version) idx outNames)
  end.

(** The grouped columns and row_count of a grouped count. *)
Definition selectGroupCountList (s : Scope) : res Selected :=
  let group := default [] (q_group_by (sc_q s)) in
  cols ← mapR (fun name => or_fail (fieldOf (sc_ent s) name) COLUMN_UNKNOWN (str [e_name (sc_ent s); "."; name])) group;
  let out name := str [sc_alias s; "__"; name] in
  let parts := map (fun e => str [readColumn (qcol s (fst e)) (snd e); " AS "; d_quote d (out (fst e))]) (zip group cols) in
  let columns := map (fun e => mkOutput (fst e) (fst (snd e)) (fst (snd e)) (f_type (snd (snd e)))
                                 (clientStyles (f_stages (snd (snd e)))) false)
                   (zip (seq 0 (length group)) (zip group cols)) in
  let asm := mkAssemble (e_name (sc_ent s)) (sc_alias s)
               (columns ++ [mkOutput (length group) "row_count" "" "i64" [] false]) [] [] None in
  key ← keyRefs asm group;
  Ok (mkSelected (join ", " (parts ++ [str ["COUNT(*) AS "; d_quote d (out "row_count")]]))
        (mkAssemble (as_entity asm) (as_alias asm) (as_columns asm) [] key None) (S (length group))
        (map out group ++ [out "row_count"])).

(** *** Select statements *)

(** Rows per parent; a one relation with an order is the same with one row. *)
Definition perParentOf (q : RequestQuery) (rc : option RelationContext) : Z :=
  match rc with
  | None => 0
  | Some rc =>
      let n := default 0 (q_limit_per_parent q) in
      if (n =? 0) && bool_decide (rc_kind rc = "one") && negb (length (default [] (q_order q)) =? 0)%nat then 1 else n
  end.

(** What a statement of each kind selects. *)
Definition selectHead (fuel : nat) (root : Scope) (kind agg : string) (groupCount : bool) : M Builder Selected :=
  let empty := mkAssemble (e_name (sc_ent root)) (sc_alias root) [] [] [] None in
  if decide (kind = "count") then mret (mkSelected (if groupCount then "1" else "COUNT(*)") empty 0 [])
  else if decide (kind = "sum") then mret (mkSelected (str ["COALESCE(SUM("; qcol root agg; "), 0)"]) empty 0 [])
  else if decide (kind = "avg") then mret (mkSelected (str ["AVG("; qcol root agg; ")"]) empty 0 [])
  else if decide (kind = "group_count") then lift (selectGroupCountList root)
  else selectList fuel root 0 [].

(** The ROW_NUMBER column of a relation with rows per parent. *)
Definition rowNumber (fuel : nat) (root : Scope) (childKeys : list string) : res string :=
  order ← renderOrder fuel root;
  order ← (if decide (order = "") then
             pk ← present (head (e_primaryKey (sc_ent root))) (str ["the primary key of "; e_name (sc_ent root)]);
             Ok (str [" ORDER BY "; qcol root pk; " ASC"])
           else Ok order);
  Ok (str [", ROW_NUMBER() OVER (PARTITION BY "; join ", " (qualified root childKeys); order; ") AS "; d_quote d "orm_rn"]).

(** The condition that binds a relation step to the rows of its parent step. *)
Definition parentCondition (root : Scope) (rc : RelationContext) : M Builder string :=
  keyTypes ← lift (mapR (fun key => c ← columnIn (sc_ent root) key; Ok (f_type c)) (rc_childKeys rc));
  ph ← b_parentList d (rc_parentStep rc) keyTypes;
  mret (match rc_childKeys rc with
        | [only] => str [qcol root only; " IN ("; ph; ")"]
        | keys => str ["("; join ", " (qualified root keys); ") IN (("; ph; "))"]
        end).

(** Keeps the output columns in order, drops orm_rn, cuts at n per parent. *)
Definition perParentOuter (sql : string) (root : Scope) (outNames childKeys : list string) (perParent : Z) : string :=
  let w := d_quote d "orm_w" in
  str ["SELECT "; join ", " (map (fun n => str [w; "."; d_quote d n]) outNames);
       " FROM ("; sql; ") AS "; w; " WHERE "; w; "."; d_quote d "orm_rn"; " <= "; pretty perParent;
       " ORDER BY "; join ", " (map (fun key => str [w; "."; d_quote d (str [sc_alias root; "__"; key])]) childKeys);
       ", "; w; "."; d_quote d "orm_rn"].

(** The page of a statement. *)
Definition pageText (l : Limit) : M Builder string :=
  match l with
  | LimitParams offset_p count_p =>
      if decide (d_name d = "mysql") then
        offset ← b_param d offset_p "i64";
        count ← b_param d count_p "i64";
        mret (d_limit d offset count)
      else
        count ← b_param d count_p "i64";
        offset ← b_param d offset_p "i64";
        mret (d_limit d offset count)
  | LimitValues offset count => mret (d_limit d (pretty offset) (pretty count))
  end.

Definition lockText (lock : string) : res string :=
  if decide (lock = "") then Ok ""
  else or_fail (d_rowLock d lock) CAPABILITY_UNSUPPORTED (str [d_name d; " row lock "; dq; lock; dq; " is not supported"]).

(** Whether a statement of this kind returns rows to assemble. *)
Definition returnsRows (kind : string) : bool := includes kind ["one"; "all"; "group_count"].

(** The order, page and lock of a statement that returns rows, or the outer
    statement that keeps the first rows of each parent. *)
Definition selectTail (fuel : nat) (root : Scope) (kind : string) (rc : option RelationContext) (outNames : list string)
    (sql : string) : M Builder string :=
  let q := sc_q root in
  if negb (returnsRows kind) then mret sql
  else
    let perParent := perParentOf q rc in
    match rc with
    | Some c =>
        if 0 <? perParent then mret (perParentOuter sql root outNames (rc_childKeys c) perParent)
        else
          order ← lift (renderOrder fuel root);
          page ← (match q_limit q with Some l => pageText l | None => mret "" end);
          lock ← lift (lockText (default "" (q_lock q)));
          mret (str [sql; order; page; lock])
    | None =>
        order ← lift (renderOrder fuel root);
        page ← (if decide (kind = "one") then mret (d_limit d "0" "1")
                else match q_limit q with Some l => pageText l | None => mret "" end);
        lock ← lift (lockText (default "" (q_lock q)));
        mret (str [sql; order; page; lock])
    end.

(** The statement of a select step. *)
Definition selectSql (fuel : nat) (root : Scope) (kind agg : string) (rc : option RelationContext)
    : M Builder (string * Assemble) :=
  let q := sc_q root in
  let place := rootOf root None in
  let groupCount := bool_decide (kind = "count") && hasGroupBy q in
  head ← selectHead fuel root kind agg groupCount;
  rn ← lift (match rc with
             | Some c => if 0 <? perParentOf q rc then rowNumber fuel root (rc_childKeys c) else Ok ""
             | None => Ok ""
             end);
  table ← b_table d (sc_ent root);
  joins ← renderJoins fuel place;
  parent ← (match rc with Some c => text ← parentCondition root c; mret [text] | None => mret [] end);
  conditions ← (if noItems (q_where q) then mret []
                else w ← lift (present (q_where q) "the where of a query");
                     text ← renderGroup fuel place w (negb (bool_decide (is_Some rc))); mret [text]);
  nested ← collectJoinWhere fuel place;
  let where_ := parent ++ softDeleteConditions root " IS NULL" ++ conditions ++ nested in
  let sql := str ["SELECT "; se_sql head; rn; " FROM "; table; " AS "; d_quote d (sc_alias root); forceIndexText q; joins;
                  whereText where_; (if hasGroupBy q then str [" GROUP BY "; renderGroupBy root q] else "")] in
  let sql := if groupCount then str ["SELECT COUNT(*) FROM ("; sql; ") AS "; d_quote d "orm_g"] else sql in
  sql ← selectTail fuel root kind rc (se_outNames head) sql;
  mret (sql, se_asm head).

(** *** Steps *)

(** [add(st)]: the id of a step is its position. *)
Definition addStep (st : nat -> PlanStep) : M (list PlanStep) PlanStep := fun steps =>
  let step := st (length steps) in Ok (step, steps ++ [step]).

(** Runs the computation of a statement on a builder of its own. *)
Definition build {A} (c : M Builder A) : res (A * Builder) := c newBuilder.

Definition withExtra (s : Scope) (extra : list string) : Scope := mkScope (sc_ent s) (sc_alias s) (sc_q s) (sc_joins s) extra.

(** The scopes of a select; a relation step also selects its keys. *)
Definition selectRoot (q : RequestQuery) (rc : option RelationContext) : res Scope :=
  root ← buildScopes q "a" false;
  Ok (match rc with
      | None => root
      | Some c => let key_by := default "" (q_key_by q) in
                  withExtra root (rc_childKeys c ++ (if decide (key_by = "") then [] else [key_by]))
      end).

Definition parentOf (q : RequestQuery) (rc : RelationContext) : res ParentReference :=
  keys ← keyRefs (rc_parentAsm rc) (rc_parentKeys rc);
  if_parent ← match q_if_parent q with
              | Some ip => i ← indexOf (rc_parentAsm rc) (ip_column ip); Ok (Some (mkPlanIfParent (ip_column ip) i (ip_p ip)))
              | None => Ok None
              end;
  Ok (mkParentRef (rc_parentStep rc) keys if_parent).

(** A select step without its relation steps; returns its scopes too. *)
Definition addSelect (fuel : nat) (q : RequestQuery) (kind agg : string) (rc : option RelationContext)
    : M (list PlanStep) (PlanStep * Scope) :=
  root ← lift (selectRoot q rc);
  r ← lift (build (selectSql fuel root kind agg rc));
  let '((sql, asm), b) := r in
  steps ← get;
  let counted := bool_decide (kind = "count") && negb (length steps =? 0)%nat in
  parent ← lift (match rc with
                 | Some c => if counted then Ok None else p ← parentOf q c; Ok (Some p)
                 | None => Ok None
                 end);
  let role := if counted then "count" else match rc with Some _ => "relation" | None => "main" end in
  let lock := match q_lock q with Some l => if decide (l = "") then None else Some l | None => None end in
  step ← addStep (fun id => mkStep id role sql (b_tables b) lock (b_binds b) (if returnsRows kind then Some asm else None) parent);
  mret (step, root).

(** [asm.children.push(child)] *)
Definition addChild (a : Assemble) (c : Child) : Assemble :=
  mkAssemble (as_entity a) (as_alias a) (as_columns a) (as_children a ++ [c]) (as_key a) (as_aes_version a).
Definition withChildren (a : Assemble) (cs : list Child) : Assemble :=
  mkAssemble (as_entity a) (as_alias a) (as_columns a) cs (as_key a) (as_aes_version a).
Definition withAssemble (c : Child) (a : Assemble) : Child :=
  mkChild (ch_rel c) (ch_kind c) (ch_step c) (ch_parent_keys c) (ch_child_keys c) (ch_key c) (ch_flatten c) (ch_cascade c) (Some a).

(** The assemble of a step is shared with the plan: what is pushed to it later shows there. *)
Definition setAssemble (id : nat) (asm : Assemble) : M (list PlanStep) unit :=
  modify (alter (fun s => mkStep (st_id s) (st_role s) (st_sql s) (st_tables s) (st_lock s) (st_bind_slots s) (Some asm) (st_parent s)) id).

(** How the rows of a relation step attach to the rows of its parent step. *)
Definition relationChild (s : Scope) (asm : Assemble) (r : Relation) (rc : RelationContext) (step : nat) (assembled : Assemble)
    (target : Entity) : res Child :=
  parent_keys ← keyRefs asm (rc_parentKeys rc);
  child_keys ← keyRefs assembled (rc_childKeys rc);
  let key_by := default "" (q_key_by (r_query r)) in
  columns ← (if decide (key_by = "") then e ← p_entity (as_entity assembled); Ok (e_primaryKey e) else Ok [key_by]);
  key ← keyRefs assembled columns;
  Ok (mkChild (r_rel r) (rc_kind rc) step parent_keys child_keys key (q_flatten (r_query r))
        (negb (q_no_cascade_delete (r_query r)) && sameList (rc_parentKeys rc) (e_primaryKey (sc_ent s))
         && negb (sameList (rc_childKeys rc) (e_primaryKey target))) None).

Definition relationContext (r : Relation) (asm : Assemble) (stepId : nat) : res RelationContext :=
  keys ← present (r_keys r) (str ["the keys of relation "; r_rel r]);
  kind ← present (r_kind r) (str ["the kind of relation "; r_rel r]);
  Ok (mkRc stepId asm (map kp_left keys) (map kp_right keys) kind).

Fixpoint selectStep (fuel : nat) (q : RequestQuery) (kind agg : string) (rc : option RelationContext) {struct fuel}
    : M (list PlanStep) PlanStep :=
  match fuel with
  | O => throw OutOfFuel
  | S fuel =>
      r ← addSelect fuel q kind agg rc;
      let '(step, root) := r in
      match st_assemble step with
      | None => mret step
      | Some asm =>
          asm ← relationSteps fuel root asm (st_id step);
          setAssemble (st_id step) asm;;
          mret (mkStep (st_id step) (st_role step) (st_sql step) (st_tables step) (st_lock step) (st_bind_slots step)
                  (Some asm) (st_parent step))
      end
  end
with relationSteps (fuel : nat) (s : Scope) (asm : Assemble) (stepId : nat) {struct fuel} : M (list PlanStep) Assemble :=
  match fuel with
  | O => throw OutOfFuel
  | S fuel =>
      asm ← foldS (fun asm r =>
          rc ← lift (relationContext r asm stepId);
          target ← lift (p_entity (q_entity (r_query r)));
          st ← selectStep fuel (r_query r) "all" "" (Some rc);
          assembled ← lift (present (st_assemble st) (str ["the assemble of relation "; r_rel r]));
          child ← lift (relationChild s asm r rc (st_id st) assembled target);
          mret (addChild asm child)) asm (default [] (q_relations (sc_q s)));
      foldS (fun asm j =>
          js ← lift (joinScope s (j_rel j));
          children ← mapS (fun ch =>
              if bool_decide (ch_kind ch = "join") && bool_decide (ch_rel ch = j_rel j) then
                a ← lift (present (ch_assemble ch) (str ["the assemble of join "; j_rel j]));
                a ← relationSteps fuel js a stepId;
                mret (withAssemble ch a)
              else mret ch) (as_children asm);
          mret (withChildren asm children)) asm (default [] (q_joins (sc_q s)))
  end.

(** *** Writes *)

Definition renderAssign (ent : Entity) (col : Field) (a : Assignment) : M Builder string :=
  let value := lift (present (a_p a) (str ["the value of "; a_column a])) in
  if isBlindIndexTarget ent (f_name col) then
    lift (fail_if (given (a_plus_p a) || given (a_minus_p a)) IR_INVALID "blind index assignment must use its AES source value");;
    if a_null a then mret "NULL"
    else
      b ← get;
      p ← value;
      sql ← renderBlindIndexValue col p;
      markAssigned (length (b_binds b)) col;;
      mret sql
  else
    let q := str [d_quote d (e_table ent); "."; d_quote d (f_name col)] in
    match a_plus_p a, a_minus_p a with
    | Some p, _ => ph ← b_colParam d p col ""; mret (str [q; " + "; ph])
    | None, Some p =>
        ph ← b_colParam d p col "";
        ph' ← b_colParam d p col "";
        mret (str ["CASE WHEN "; q; " > "; ph; " THEN "; q; " - "; ph'; " ELSE 0 END"])
    | None, None =>
        if a_null a then mret "NULL"
        else
          b ← get;
          p ← value;
          sql ← renderValue col p;
          markAssigned (length (b_binds b)) col;;
          mret sql
    end.

(** The clock that update time and soft deletion write to a datetime column. *)
Definition clock (col : Field) : M Builder string :=
  if d_hostNow d then b_now d (f_precision col) else mret (d_now d (f_precision col)).

(** The assignment of the audit column of an audited table. *)
Definition auditAssignment (ent : Entity) : M Builder (list string) :=
  if decide (e_auditColumn ent = "") then mret []
  else v ← b_audit d ent; mret [str [d_quote d (e_auditColumn ent); " = "; v]].

(** The AES key version that a write of AES columns stamps. *)
Definition versionValue (ent : Entity) : M Builder string :=
  c ← lift (columnIn ent (e_aesVersion ent)); b_config d "aes_version" (f_type c).

Definition versionAssignment (ent : Entity) (set : list Assignment) : M Builder (list string) :=
  if bool_decide (e_aesVersion ent <> "") && assignsAES ent set && negb (assigned set (e_aesVersion ent)) then
    v ← versionValue ent; mret [str [d_quote d (e_aesVersion ent); " = "; v]]
  else mret [].

(** The columns that insert writes besides the user assignments. *)
Definition managedInsertColumns (ent : Entity) (set : list Assignment) : list (string * M Builder string) :=
  (if bool_decide (e_aesVersion ent <> "") && negb (assigned set (e_aesVersion ent))
   then [(e_aesVersion ent, versionValue ent)] else [])
  ++ (if decide (e_auditColumn ent = "") then [] else [(e_auditColumn ent, b_audit d ent)])
  ++ (if d_hostNow d
      then map (fun f => (f_name f, b_now d (f_precision f)))
             (filter (fun f => f_defaultNow f && negb (assigned set (f_name f)) = true) (e_fields ent))
      else []).

(** One [column = value] of a SET list. *)
Definition setPart (ent : Entity) (a : Assignment) : M Builder string :=
  col ← lift (columnIn ent (a_column a));
  v ← renderAssign ent col a;
  mret (str [d_quote d (a_column a); " = "; v]).

Definition insertValue (ent : Entity) (load : bool) (a : Assignment) : M Builder string :=
  col ← lift (columnIn ent (a_column a));
  lift (fail_if (f_identity col && negb load) IR_INVALID (str ["cannot set identity column "; a_column a]));;
  renderAssign ent col a.

(** The values of one more row of a multi-row insert. *)
Definition insertRow (ent : Entity) (set : list Assignment) (sources : list nat) (managed : list (string * M Builder string))
    (row : list Z) : M Builder string :=
  more ← mapS (fun e =>
      let a := snd e in
      col ← lift (present (fieldOf ent (a_column a)) (str ["column "; a_column a]));
      i ← lift (present (sources !! fst e) (str ["the source of "; a_column a]));
      p ← lift (present (row !! i) (str ["the parameter of "; a_column a; " in a row"]));
      renderAssign ent col (mkAssignment (a_column a) (Some p) false None None)) (zip (seq 0 (length set)) set);
  extra ← mapS (fun c => snd c) managed;
  mret (str [", ("; join ", " (more ++ extra); ")"]).

(** The upsert of an insert with on_duplicate. *)
Definition insertUpsert (ent : Entity) (set : list Assignment) (onDuplicate : list Assignment) : M Builder string :=
  d' ← lift (addBlindIndexAssignments ent onDuplicate);
  let duplicate := fst d' in
  lift (validateAESAssignments ent duplicate true);;
  sets ← mapS (setPart ent) duplicate;
  version ← versionAssignment ent duplicate;
  op ← auditAssignment ent;
  let id := if bool_decide (e_identity ent <> "") && negb (d_insertReturningId d)
            then [str [d_quote d (e_identity ent); " = LAST_INSERT_ID("; d_quote d (e_identity ent); ")"]] else [] in
  target ← lift (conflictKey ent set);
  mret (d_upsert d target (join ", " (sets ++ version ++ op ++ id))).

Definition insertReturning (ent : Entity) : res string :=
  if d_insertReturningId d && bool_decide (e_identity ent <> "") then Ok (str [" RETURNING "; d_quote d (e_identity ent)])
  else if assigns && allocatedKey ent then
    pk ← present (head (e_primaryKey ent)) "the primary key"; Ok (str [" RETURNING "; d_quote d pk])
  else Ok "".

Definition insertSql (r : Request) : M Builder string :=
  ent ← lift (p_entity (q_entity (rq_query r)));
  s ← lift (addBlindIndexAssignments ent (default [] (rq_set r)));
  let '(set, sources) := s in
  lift (validateAESAssignments ent set false);;
  lift (validateRequiredAssignments ent set assigns);;
  let load := rq_load r in
  lift (fail_if (load && bool_decide (e_identity ent <> "")
                 && negb (existsb (fun a => bool_decide (a_column a = e_identity ent) && given (a_p a)) set)) IR_INVALID
          (str ["load of "; e_name ent; " needs a value for the identity column "; e_identity ent]));;
  vals ← mapS (insertValue ent load) set;
  let managed := managedInsertColumns ent set in
  extra ← mapS (fun c => snd c) managed;
  table ← b_table d ent;
  let cols := map (d_quote d) (map a_column set ++ map fst managed) in
  let sql := str ["INSERT INTO "; table; " ("; join ", " cols; ") VALUES ("; join ", " (vals ++ extra); ")"] in
  let rows := default [] (rq_rows r) in
  if negb (length rows =? 0)%nat then
    more ← mapS (insertRow ent set sources managed) rows;
    mret (str [sql; str more])
  else
    upsert ← (if nonempty (rq_on_duplicate r) then insertUpsert ent set (default [] (rq_on_duplicate r)) else mret "");
    returning ← lift (insertReturning ent);
    mret (str [sql; upsert; returning]).

(** The where of a write, which the validator requires. *)
Definition writeWhere (fuel : nat) (root : Scope) (r : Request) : M Builder string :=
  g ← lift (present (q_where (rq_query r)) (str ["the where of "; rq_kind r]));
  renderGroup fuel (rootOf root None) g true.

Definition updateSql (fuel : nat) (r : Request) : M Builder string :=
  ent ← lift (p_entity (q_entity (rq_query r)));
  s ← lift (addBlindIndexAssignments ent (default [] (rq_set r)));
  let set := fst s in
  lift (validateAESAssignments ent set true);;
  root ← lift (buildScopes (rq_query r) (e_table ent) false);
  sets ← mapS (setPart ent) set;
  version ← versionAssignment ent set;
  updated ← (if bool_decide (e_updated ent <> "") && negb (assigned (default [] (rq_set r)) (e_updated ent)) then
               c ← lift (columnIn ent (e_updated ent));
               v ← clock c; mret [str [d_quote d (e_updated ent); " = "; v]]
             else mret []);
  op ← auditAssignment ent;
  where_ ← writeWhere fuel root r;
  optimistic ← (match rq_optimistic r with
                | Some o =>
                    c ← lift (columnIn (sc_ent root) (opt_column o));
                    v ← b_colParam d (opt_p o) c "";
                    mret (str [" AND "; qcol root (opt_column o); " = "; v])
                | None => mret ""
                end);
  let soft := if decide (e_softDelete ent = "") then "" else str [" AND "; qcol root (e_softDelete ent); " IS NULL"] in
  table ← b_table d ent;
  mret (str ["UPDATE "; table; " SET "; join ", " (sets ++ version ++ updated ++ op); " WHERE "; where_; optimistic; soft]).

Definition deleteSql (fuel : nat) (r : Request) : M Builder string :=
  ent ← lift (p_entity (q_entity (rq_query r)));
  root ← lift (buildScopes (rq_query r) (e_table ent) false);
  if decide (e_softDelete ent = "") then
    table ← b_table d ent;
    where_ ← writeWhere fuel root r;
    mret (str ["DELETE FROM "; table; " WHERE "; where_])
  else
    c ← lift (columnIn ent (e_softDelete ent));
    v ← clock c;
    op ← auditAssignment ent;
    where_ ← writeWhere fuel root r;
    table ← b_table d ent;
    mret (str ["UPDATE "; table; " SET "; join ", " (str [d_quote d (e_softDelete ent); " = "; v] :: op); " WHERE "; where_;
               " AND "; qcol root (e_softDelete ent); " IS NULL"]).

Definition restoreSql (fuel : nat) (r : Request) : M Builder string :=
  ent ← lift (p_entity (q_entity (rq_query r)));
  parts ← lift (restoreKey ent r);
  s ← lift (addBlindIndexAssignments ent (rp_set parts));
  let set := fst s in
  lift (validateAESAssignments ent set true);;
  root ← lift (buildScopes (rq_query r) (e_table ent) false);
  sets ← mapS (setPart ent) set;
  version ← (if bool_decide (e_aesVersion ent <> "") && assignsAES ent set then
               v ← versionValue ent; mret [str [d_quote d (e_aesVersion ent); " = "; v]]
             else mret []);
  op ← auditAssignment ent;
  where_ ← renderGroup fuel (rootOf root None) (rp_where parts) true;
  table ← b_table d ent;
  mret (str ["UPDATE "; table; " SET "; join ", " (sets ++ version ++ [str [d_quote d (e_softDelete ent); " = NULL"]] ++ op);
             " WHERE "; where_; " AND "; qcol root (e_softDelete ent); " IS NOT NULL"]).

Definition restartIdentitySql (r : Request) : M Builder string :=
  ent ← lift (p_entity (q_entity (rq_query r)));
  lift (fail_if (bool_decide (e_identity ent = "")) IR_INVALID (str ["restart_identity of "; e_name ent; ", which has no identity column"]));;
  b_table d ent;;
  mret (d_restartIdentity d (e_table ent) (e_identity ent)).

(** [add(this.insertStep(r))] and the like. *)
Definition writeStep (c : M Builder string) : M (list PlanStep) unit :=
  r ← lift (build c);
  let '(sql, b) := r in
  addStep (fun id => mkStep id "main" sql (b_tables b) None (b_binds b) None None);;
  mret tt.

(** Enough fuel for every recursion over a request of this query. *)
Definition planFuel (q : RequestQuery) : nat := (2 * query_size q + 8)%nat.

(** The relations of a root select come after its count in a paginate plan. *)
Definition paginateSteps (fuel : nat) (q : RequestQuery) : M (list PlanStep) unit :=
  r ← addSelect fuel q "all" "" None;
  let '(step, root) := r in
  selectStep fuel q "count" "" None;;
  asm ← lift (present (st_assemble step) "the relation steps of a paginate plan");
  asm ← relationSteps fuel root asm (st_id step);
  setAssemble (st_id step) asm.

Definition compileSteps (r : Request) : M (list PlanStep) unit :=
  let q := rq_query r in
  let kind := rq_kind r in
  let fuel := planFuel q in
  if includes kind ["one"; "all"; "count"; "group_count"; "sum"; "avg"] then
    selectStep fuel q kind (default "" (rq_agg r)) None;; mret tt
  else if decide (kind = "paginate") then paginateSteps fuel q
  else if decide (kind = "insert") then writeStep (insertSql r)
  else if decide (kind = "update") then writeStep (updateSql fuel r)
  else if decide (kind = "delete") then writeStep (deleteSql fuel r)
  else if decide (kind = "restore") then writeStep (restoreSql fuel r)
  else if decide (kind = "restart_identity") then writeStep (restartIdentitySql r)
  else mret tt.

Definition compile (r : Request) : res Plan :=
  match compileSteps r [] with
  | Ok (_, steps) => Ok (mkPlan (m_manifestHash m) (rq_kind r) steps)
  | Err e => Err e
  end.
End Planner.

(** * The statement compiler as its callers see it ([engine/index.ts])

    An [Engine] is a runtime model bound to a dialect; [compile] validates a
    request and plans it. *)


Record Engine := mkEngine { en_model : RuntimeModel; en_dialect : Dialect; en_assigns : bool }.

Definition newEngine (model : RuntimeModel) (dialect : string) (assigns : bool) : res Engine :=
  match dialectOf dialect with
  | None => Err (OrmError DIALECT_UNKNOWN dialect)
  | Some d => Ok (mkEngine model d assigns)
  end.

Definition manifestHash (e : Engine) : string := m_manifestHash (en_model e).

(** Validates a request and returns its plan. *)
Definition engineCompile (e : Engine) (r : Request) : res Plan :=
  validate (en_model e) r;;
  compile (en_model e) (en_dialect e) (en_assigns e) r.
