(* ===== verification/PlannerFacts.v ===== *)
(** * The parts of a run of the statement compiler

    Inversion lemmas that the proofs about plans share. *)

From S2P Require Import Prelude Ir Meet Dialect Model Params Validate Planner.

Lemma selectList_inv m d fuel s idx outNames b sel b' :
  selectList m d (S fuel) s idx outNames b = Ok (sel, b') ->
  exists cols acc b1 acc' version sql children idx' names key,
    projection s = Ok cols /\
    foldS (selectColumn m d fuel s) (mkSelect [] [] idx outNames false) cols b = Ok (acc, b1) /\
    selectVersion d s acc = Ok (acc', version) /\
    foldS (selectJoin (selectList m d fuel) s) (join ", " (sa_parts acc'), [], sa_idx acc', sa_outNames acc')
      (default [] (q_joins (sc_q s))) b1 = Ok ((sql, children, idx', names), b') /\
    keyRefs (mkAssemble (e_name (sc_ent s)) (sc_alias s) (sa_columns acc') children [] version) (e_primaryKey (sc_ent s)) = Ok key /\
    sel = mkSelected sql (mkAssemble (e_name (sc_ent s)) (sc_alias s) (sa_columns acc') children key version) idx' names.
Proof.
  cbn [selectList]. intros (cols & t1 & [Hp <-]%liftM_ok & (acc & b1 & Hc & ([acc' v] & t2 & [Hv <-]%liftM_ok & H)%bindM_ok)%bindM_ok)%bindM_ok.
  apply bindM_ok in H as ([[[sql ch] i] o] & b2 & Hj & (key & t3 & [Hk <-]%liftM_ok & [<- <-]%retM_ok)%bindM_ok).
  by repeat eexists.
Qed.

Lemma addStep_ok st steps x steps' : addStep st steps = Ok (x, steps') <-> x = st (length steps) /\ steps' = steps ++ [x].
Proof. unfold addStep. naive_solver. Qed.

(** The role of a select step. *)
Definition selectRole (kind : string) (rc : option RelationContext) (steps : list PlanStep) : string :=
  if bool_decide (kind = "count") && negb (length steps =? 0)%nat then "count"
  else match rc with Some _ => "relation" | None => "main" end.

Lemma addSelect_inv m d fuel q kind agg rc steps step root steps' :
  addSelect m d fuel q kind agg rc steps = Ok ((step, root), steps') ->
  exists sql asm b parent,
    selectRoot m q rc = Ok root /\ build (selectSql m d fuel root kind agg rc) = Ok ((sql, asm), b) /\
    match rc with
    | Some c => if bool_decide (kind = "count") && negb (length steps =? 0)%nat then parent = None
                else exists p, parentOf q c = Ok p /\ parent = Some p
    | None => parent = None
    end /\
    step = mkStep (length steps) (selectRole kind rc steps) sql (b_tables b)
             (match q_lock q with Some l => if decide (l = "") then None else Some l | None => None end)
             (b_binds b) (if returnsRows kind then Some asm else None) parent /\
    steps' = steps ++ [step].
Proof.
  unfold addSelect. intros (r & t1 & [Hr <-]%liftM_ok & ([[sql asm] b] & t2 & [Hb <-]%liftM_ok & H)%bindM_ok)%bindM_ok.
  apply bindM_ok in H as (st & t3 & [= <- <-] & (parent & t4 & [Hp <-]%liftM_ok & H)%bindM_ok).
  apply bindM_ok in H as (x & t5 & [-> ->]%addStep_ok & [[= <- <-] <-]%retM_ok).
  exists sql, asm, b, parent. split_and!; [done|done| |done|done].
  destruct rc; [|ok_inv; done]. destruct (_ && _); ok_inv; [done|]. eauto.
Qed.

Lemma writeStep_inv c steps u steps' :
  writeStep c steps = Ok (u, steps') ->
  exists sql b, build c = Ok (sql, b) /\
    steps' = steps ++ [mkStep (length steps) "main" sql (b_tables b) None (b_binds b) None None].
Proof.
  unfold writeStep. intros ([sql b] & t & [Hb <-]%liftM_ok & (x & t2 & [-> ->]%addStep_ok & [_ <-]%retM_ok)%bindM_ok)%bindM_ok.
  eauto.
Qed.
