(* ===== verification/PlannerBinds.v ===== *)
(** * Placeholders and bind slots

    Every statement that the compiler writes holds one placeholder per bind
    slot, numbered by the position of the slot, and everything else in it is
    text that a database reads without a placeholder.  The proof follows the
    rendering functions; what it asks of a dialect is [SafeDialect]. *)

From S2P Require Import Prelude Ir Meet Dialect Lex DialectFacts Model Params Validate Planner PlannerFacts.

Section Binds.
Context (m : RuntimeModel) (d : Dialect) (assigns : bool) `{Hd : !SafeDialect d}.

Local Notation ph := (d_placeholder d).

(** The number of bind slots so far. *)
Definition slotCount (b : Builder) : nat := length (b_binds b).

Local Notation fragB := (fragM slotCount ph).

(** A computation of a list of texts. *)
Definition fragsB (c : M Builder (list string)) : Prop :=
  forall b l b', c b = Ok (l, b') -> Frags ph (slotCount b) (slotCount b') l.

(** A computation that adds no slot. *)
Definition neutral {A} (c : M Builder A) : Prop := forall b a b', c b = Ok (a, b') -> slotCount b' = slotCount b.

Create HintDb binds.

(** ** Building blocks *)

Lemma b_push_frag s : fragB (b_push d s).
Proof.
  intros b x b' [= <- <-]. unfold slotCount. simpl. rewrite length_app, Nat.add_1_r. apply frag_mark.
Qed.

Lemma b_typed_frag s : fragB (b_typed d s).
Proof. intros b x b'. unfold b_typed. case_decide; [done|]. apply b_push_frag. Qed.

Lemma b_table_safe ent b x b' : b_table d ent b = Ok (x, b') -> safe x /\ slotCount b' = slotCount b.
Proof. intros [= <- <-]. split; [apply sd_quote|done]. Qed.

Lemma b_audit_frag ent : fragB (b_audit d ent).
Proof. intros b x b' H. unfold b_audit in H. ok_inv. by eapply b_typed_frag. Qed.

Lemma b_nextSub_neutral : neutral b_nextSub.
Proof. by intros b k b' [= <- <-]. Qed.

Lemma b_lastStyles_neutral host : neutral (b_lastStyles host).
Proof.
  intros b u b'. unfold b_lastStyles. destruct (reverse (b_binds b)) as [|s l] eqn:E; [done|]. intros [= <- <-].
  unfold slotCount. simpl. rewrite length_reverse. simpl. rewrite <- (length_reverse (b_binds b)), E. done.
Qed.

Lemma markAssigned_neutral start col : neutral (markAssigned start col).
Proof.
  intros b u b' [= <- <-]. destruct (f_nullable col); [done|]. unfold slotCount. simpl.
  rewrite length_app, length_map, length_take, length_drop. lia.
Qed.

Lemma mapS_frags {A} (f : A -> M Builder string) l : (forall x, x ∈ l -> fragB (f x)) -> fragsB (mapS f l).
Proof.
  induction l as [|x l IH]; intros Hf b r b' H; simpl in H; ok_inv; [constructor|].
  econstructor; [eapply Hf; [left|done]|]. eapply IH; [|done]. intros. apply Hf. by right.
Qed.

Lemma safe_qcol s col : safe (qcol d s col).
Proof. unfold qcol. safe_t. Qed.
Hint Resolve safe_qcol : safe.

Lemma safe_qualified s cols : Forall safe (qualified d s cols).
Proof. apply Forall_forall. intros x (y & -> & _)%list_elem_of_fmap. apply safe_qcol. Qed.

Lemma safe_readColumn qc col : safe qc -> safe (readColumn d qc col).
Proof. intros. unfold readColumn. repeat case_decide; auto with safe. Qed.
Hint Resolve safe_readColumn : safe.

Lemma safe_columnFunction s column f x : columnFunction d s column f = Ok x -> safe x.
Proof. unfold columnFunction. intros H. ok_inv. eapply sd_columnFunction; [apply safe_qcol|done]. Qed.

Lemma safe_cmp op x : cmp op = Ok x -> safe x.
Proof. unfold cmp. simpl. repeat (case_decide; [intros [= <-]; done|]). done. Qed.

(** Turns what is known of the parts of a run into facts about their texts. *)
Ltac frag_facts :=
  repeat match goal with
  | H : columnFunction d _ _ _ = Ok ?x |- _ => apply safe_columnFunction in H
  | H : cmp _ = Ok ?x |- _ => apply safe_cmp in H
  | H : b_typed d _ ?b = Ok (?x, ?b') |- _ => apply b_typed_frag in H
  | H : b_push d _ ?b = Ok (?x, ?b') |- _ => apply b_push_frag in H
  | H : b_param d _ _ ?b = Ok (?x, ?b') |- _ => apply b_typed_frag in H
  | H : b_colParam d _ _ _ ?b = Ok (?x, ?b') |- _ => apply b_typed_frag in H
  | H : b_transformed d _ _ ?b = Ok (?x, ?b') |- _ => apply b_typed_frag in H
  | H : b_config d _ _ ?b = Ok (?x, ?b') |- _ => apply b_typed_frag in H
  | H : b_now d _ ?b = Ok (?x, ?b') |- _ => apply b_typed_frag in H
  | H : b_audit d _ ?b = Ok (?x, ?b') |- _ => apply b_audit_frag in H
  | H : b_table d _ ?b = Ok (?x, ?b') |- _ => apply b_table_safe in H as [? ?]
  | H : b_parentList d _ _ ?b = Ok (?x, ?b') |- _ => apply b_push_frag in H
  | H : b_lastStyles _ ?b = Ok (_, ?b') |- _ => apply b_lastStyles_neutral in H
  | H : markAssigned _ _ ?b = Ok (_, ?b') |- _ => apply markAssigned_neutral in H
  | H : b_nextSub ?b = Ok (_, ?b') |- _ => apply b_nextSub_neutral in H
  | H : get ?b = Ok (_, _) |- _ => injection H as <- <-
  end.

(** Replaces the counts of neutral parts by those before them. *)
Ltac counts := repeat match goal with E : slotCount _ = slotCount _ |- _ => rewrite E in *; clear E end.
Ltac frag_c := counts; frag_t.

Lemma renderValue_frag col i : fragB (renderValue d col i).
Proof.
  intros b x b' H. unfold renderValue in H. destruct (sqlStyles d (f_stages col)) as [|first rest]; ok_inv; frag_facts; counts.
  - repeat case_decide; [by apply sd_writeTime|by apply sd_writeUuid|by apply sd_writeExpr].
  - by apply sd_writeExpr.
Qed.

Lemma renderBlind_frag index i : fragB (renderBlindIndexValue d index i).
Proof. intros b x b' H. unfold renderBlindIndexValue in H. ok_inv. (frag_facts; counts; done). Qed.

(** ** Predicates without a subquery *)

Lemma frags_row k k' row : Frags ph k k' row -> Frag ph k k' (str ["("; join ", " row; ")"]).
Proof. intros. frag_c. by apply frag_join. Qed.

Lemma tupleRows_frag fuel s op cols ps i b rows b' :
  tupleRows d fuel s op cols ps i b = Ok (rows, b') ->
  Frags ph (slotCount b) (slotCount b') (map (fun row => str ["("; join ", " row; ")"]) rows).
Proof.
  revert i b rows. induction fuel as [|fuel IH]; intros i b rows; simpl; destruct (i <? length ps)%nat; intros H; ok_inv;
    try constructor.
  econstructor; [|eauto]. apply frags_row. eapply mapS_frags; [|eassumption].
  intros e _ t y t' He. ok_inv. by eapply renderValue_frag.
Qed.

Lemma renderTuple_frag s op pr : fragB (renderTuple d s op pr).
Proof.
  intros b x b' H. unfold renderTuple in H. ok_inv. apply sd_tupleIn; [apply safe_qualified|]. by eapply tupleRows_frag.
Qed.

Lemma renderFulltext_frag s op pr : fragB (renderFulltext d s op pr).
Proof.
  intros b x b' H. unfold renderFulltext in H. ok_inv. eapply sd_fulltext; [apply safe_qualified| |eassumption].
  intros t u y u' Hu. ok_inv. (frag_facts; counts; done).
Qed.

Lemma renderClock_frag lhs op col fn : safe lhs -> fragB (renderClock d lhs op col fn).
Proof.
  intros Hl b x b' H. unfold renderClock in H. ok_inv.
  match goal with H : d_valueFunction d _ _ _ _ = _ |- _ => apply (sd_valueFunction slotCount ph) in H end.
  - frag_facts. frag_c.
  - intros u y u' Hu. ok_inv. (frag_facts; counts; done).
  - intros u y u' Hu. (frag_facts; counts; done).
Qed.

Lemma renderFunction_frag s op column col f pr : fragB (renderFunction d s op column col f pr).
Proof.
  intros b x b' H. unfold renderFunction in H. ok_inv. destruct (includes op ["in"; "not_in"]).
  - ok_inv. frag_facts. match goal with H : mapS _ _ _ = _ |- _ => apply mapS_frags in H end; [|intros; apply b_typed_frag].
    frag_c. by apply frag_join.
  - case_decide; ok_inv; frag_facts; frag_c.
Qed.

Lemma renderComparison_frag s lhs op col pr : safe lhs -> fragB (renderComparison d s lhs op col pr).
Proof.
  intros Hl b x b' H. unfold renderComparison in H. destruct (isAes col); ok_inv; frag_facts.
  - match goal with H : renderBlindIndexValue _ _ _ _ = _ |- _ => apply renderBlind_frag in H end. frag_c.
  - match goal with H : renderValue _ _ _ _ = _ |- _ => apply renderValue_frag in H end. frag_c.
Qed.

Lemma renderIn_frag s lhs op col pr : safe lhs -> fragB (renderIn d s lhs op col pr).
Proof.
  intros Hl b x b' H. unfold renderIn in H. ok_inv. destruct (isAes col); ok_inv.
  - match goal with H : mapS _ _ _ = _ |- _ => apply mapS_frags in H end.
    + simpl. frag_c. by apply frag_join.
    + intros i _ t y t' Hi. ok_inv. by eapply renderBlind_frag.
  - match goal with H : mapS _ _ _ = _ |- _ => apply mapS_frags in H end; [|intros; apply renderValue_frag].
    simpl. frag_c. by apply frag_join.
Qed.

Lemma renderPlain_frag place lhs op col pr : safe lhs -> fragB (renderPlain d place lhs op col pr).
Proof.
  intros Hl b x b' H. unfold renderPlain in H. destruct (includes op _); [by eapply renderComparison_frag|].
  destruct (includes op columnOps). { ok_inv. frag_facts. apply frag_text. safe_t. }
  destruct (includes op _); [by eapply renderIn_frag|].
  case_decide.
  { ok_inv. repeat match goal with H : renderValue _ _ _ _ = _ |- _ => apply renderValue_frag in H end. frag_c. }
  case_decide; [ok_inv; apply frag_text; safe_t|]. case_decide; [ok_inv; apply frag_text; safe_t|].
  case_decide; [ok_inv; frag_facts; eapply sd_like; [by apply frag_text|done]|].
  case_decide; [|ok_inv]. eapply sd_containsBinary; [done| |done]. intros t u y u' Hu. ok_inv. (frag_facts; counts; done).
Qed.

(** ** Order, conditions, joins and subqueries *)

Lemma safe_orderItem s o x : orderItem d s o = Ok x -> safe x.
Proof.
  unfold orderItem. destruct (o_random o); [intros [= <-]; apply sd_random|]. intros H. ok_inv.
  match goal with H : match o_fn o with _ => _ end = Ok ?t |- _ => assert (safe t) end.
  { destruct (o_fn o); [by eapply safe_columnFunction|]. ok_inv. apply safe_qcol. }
  safe_t.
Qed.

Lemma safe_orderParts fuel s l : orderParts d fuel s = Ok l -> Forall safe l.
Proof.
  revert s l. induction fuel as [|fuel IH]; simpl; intros s l H; ok_inv.
  apply Forall_app. split; [by eapply mapR_Forall; [apply safe_orderItem|]|].
  apply Forall_concat. eapply mapR_Forall; [|eassumption]. intros j r Hj. simpl in Hj. ok_inv. eauto.
Qed.

Lemma safe_renderOrder fuel s x : renderOrder d fuel s = Ok x -> safe x.
Proof.
  unfold renderOrder. intros H. ok_inv.
  match goal with H : orderParts _ _ _ = _ |- _ => apply safe_orderParts in H as Hp end.
  match goal with |- safe (match ?l with _ => _ end) => assert (safe (join ", " l)) by (by apply safe_join); destruct l end; safe_t.
Qed.

Lemma groupParts_frags k k' l :
  Frags ph k k' (map snd l) -> Frags ph k k' (groupParts l).
Proof.
  destruct l as [|[c t] l]; simpl; [done|]. intros H. inversion H as [|? k1 ? ? ? Ht Hl]; subst. econstructor; [done|].
  clear H Ht. revert k1 Hl. induction l as [|[c' t'] l IH]; simpl; intros k1 Hl; inversion Hl; subst; [constructor|].
  econstructor; [apply frag_text; safe_t|]. econstructor; [done|]. by apply IH.
Qed.

Lemma groupText_frag top negated k k' l : Frags ph k k' (map snd l) -> Frag ph k k' (groupText top negated l).
Proof.
  intros H%groupParts_frags. apply (frag_join ph " ") in H; [|done]. unfold groupText. destruct negated, top; [frag_c..|done|frag_c].
  frag_c.
Qed.

Lemma softDelete_safe s text : safe text -> Forall safe (softDeleteConditions d s text).
Proof. intros. unfold softDeleteConditions. case_decide; [constructor|]. constructor; [safe_t|constructor]. Qed.

Lemma safe_joinOn s js j l : joinOn d s js j = Ok l -> Forall safe l.
Proof. unfold joinOn. intros H. ok_inv. constructor; [safe_t|]. by apply softDelete_safe. Qed.

Lemma safe_forceIndexText q : safe (forceIndexText d q).
Proof. unfold forceIndexText. case_decide; auto with safe. Qed.
Hint Resolve safe_forceIndexText : safe.

Lemma whereText_frag k k' l : Frags ph k k' l -> Frag ph k k' (whereText l).
Proof.
  intros H. unfold whereText. destruct l; [inversion H; subst; by apply frag_text|].
  apply (frag_join ph " AND ") in H; [|done]. frag_c.
Qed.

Lemma parent_where root text k0 k1 k2 k3 l0 l1 l2 :
  safe text -> Frags ph k0 k1 l0 -> Frags ph k1 k2 l1 -> Frags ph k2 k3 l2 ->
  Frag ph k0 k3 (whereText (l0 ++ softDeleteConditions d root text ++ l1 ++ l2)).
Proof.
  intros. apply whereText_frag. eapply frags_app; [done|]. eapply frags_app; [by apply frags_safe, softDelete_safe|].
  by eapply frags_app.
Qed.

Lemma conditions_where root text k1 k2 k3 l1 l2 :
  safe text -> Frags ph k1 k2 l1 -> Frags ph k2 k3 l2 ->
  Frag ph k1 k3 (whereText (softDeleteConditions d root text ++ l1 ++ l2)).
Proof. intros. eapply (parent_where root text k1 k1 k2 k3 []); [done|constructor|done..]. Qed.

Lemma safe_subSelectColumn root sub x : subSelectColumn d root sub = Ok x -> safe x.
Proof. unfold subSelectColumn. intros E. repeat case_decide; ok_inv; safe_t. Qed.

Lemma safe_limit o c : safe o -> safe c -> safe (d_limit d o c).
Proof.
  intros Ho Hc. assert (Frag ph 0 0 (d_limit d o c)) as Hl.
  { eapply (sd_limit _ 0 0 0). case_decide; split; by apply frag_text. }
  apply Frag_weave in Hl as ([|t [|]] & Hn & Hs & ->); simpl in *; try lia. by inversion Hs.
Qed.

(** The texts of the items of a group. *)
Lemma items_frags {A} (f : A -> M Builder (option string * string)) l b r b' :
  (forall x t y t', x ∈ l -> f x t = Ok (y, t') -> Frag ph (slotCount t) (slotCount t') (snd y)) ->
  mapS f l b = Ok (r, b') -> Frags ph (slotCount b) (slotCount b') (map snd r).
Proof.
  revert b r. induction l as [|x l IH]; simpl; intros b r Hf H; ok_inv; [constructor|].
  econstructor; [eapply Hf; [left|done]|]. eapply IH; [|done]. intros. eapply Hf; [by right|done].
Qed.

Section step.
Variable fuel : nat.
Hypotheses (IHg : forall s g top, fragB (renderGroup m d fuel s g top)) (IHp : forall s p, fragB (renderPred m d fuel s p))
  (IHs : forall s sub, fragB (subSelect m d fuel s sub)) (IHj : forall s, fragB (renderJoins m d fuel s))
  (IHc : forall s, fragsB (collectJoinWhere m d fuel s)).

Lemma renderGroup_step s g top : fragB (renderGroup m d (S fuel) s g top).
Proof.
  intros b x b' H. simpl in H. ok_inv. apply groupText_frag. eapply items_frags; [|eassumption].
  intros it t y t' _ Hi. simpl in Hi. destruct (i_pred it); [ok_inv; simpl; by eapply IHp|].
  destruct (i_group it); ok_inv; simpl; by eapply IHg.
Qed.

Lemma renderPred_step s p : fragB (renderPred m d (S fuel) s p).
Proof.
  intros b x b' H. simpl in H.
  destruct (includes _ _); [by eapply renderTuple_frag|]. destruct (includes _ _); [by eapply renderFulltext_frag|].
  ok_inv. destruct (p_sub p) as [sub|].
  { ok_inv. match goal with H : subSelect _ _ _ _ _ _ = _ |- _ => apply IHs in H end. frag_c. }
  destruct (p_value p); [eapply renderClock_frag; [|done]; apply safe_qcol|].
  destruct (p_fn p); [by eapply renderFunction_frag|]. eapply renderPlain_frag; [|done]. apply safe_qcol.
Qed.

(** The conditions of a where that may be absent. *)
Lemma conditions_frags (absent : bool) place (w : option Group) msg top :
  fragsB (if absent then mret [] else g ← lift (present w msg); t ← renderGroup m d fuel place g top; mret [t]).
Proof.
  intros b l b' H. destruct absent; ok_inv; [constructor|]. apply frags_one. by eapply IHg.
Qed.

Lemma subSelect_step s sub : fragB (subSelect m d (S fuel) s sub).
Proof.
  intros b x b' H. simpl in H. ok_inv. frag_facts.
  match goal with H : subSelectColumn _ _ _ = _ |- _ => apply safe_subSelectColumn in H end.
  match goal with H : renderJoins _ _ _ _ _ = _ |- _ => apply IHj in H end.
  match goal with H : collectJoinWhere _ _ _ _ _ = _ |- _ => apply IHc in H end.
  match goal with H : (if noItems _ then _ else _) _ = _ |- _ => apply conditions_frags in H end.
  match goal with H1 : Frags ph ?k1 ?k2 ?l1, H2 : Frags ph ?k2 ?k3 ?l2 |- context [softDeleteConditions ?d ?r ?t] =>
    pose proof (conditions_where r t k1 k2 k3 l1 l2 eq_refl H1 H2) as Hw end.
  set (wt := whereText _) in *. clearbody wt.
  match goal with H : match decide _ with _ => _ end ?t = Ok (?a, ?t') |- _ =>
    assert (slotCount t' = slotCount t /\ safe a) as [Ht Hs5] end.
  { destruct (decide (default "" (sq_agg sub) = "")); [|by ok_inv].
    destruct (q_limit (sq_query sub)) as [[o c|o c]|]; ok_inv; [|done].
    match goal with H : renderOrder _ _ _ = _ |- _ => apply safe_renderOrder in H end.
    split; [done|]. assert (safe (d_limit d (pretty o) (pretty c))) by (apply safe_limit; apply safe_pretty). safe_t. }
  rewrite Ht. frag_c.
Qed.

Lemma renderJoins_step s : fragB (renderJoins m d (S fuel) s).
Proof.
  intros b x b' H. simpl in H. revert H.
  apply (foldS_inv (fun acc b' => Frag ph (slotCount b) (slotCount b') acc)); [|by apply frag_text].
  set (k := slotCount b). clearbody k. clear b x b'.
  intros acc j b y b' _ Ha H. simpl in H. ok_inv. frag_facts.
  match goal with H : joinOn _ _ _ _ = Ok ?l |- _ => apply safe_joinOn in H; assert (safe (join " AND " l)) by (by apply safe_join) end.
  match goal with H : renderJoins _ _ _ _ _ = _ |- _ => apply IHj in H end.
  match goal with H : (if noItems _ then _ else _) ?t = Ok (?a, ?t') |- _ => assert (Frag ph (slotCount t) (slotCount t') a) as Hon end.
  { destruct (noItems _); ok_inv; [by apply frag_text|].
    match goal with H : renderGroup _ _ _ _ _ _ _ = _ |- _ => apply IHg in H end. frag_c. }
  frag_c.
Qed.

Lemma collectJoinWhere_step s : fragsB (collectJoinWhere m d (S fuel) s).
Proof.
  intros b x b' H. simpl in H. revert H.
  apply (foldS_inv (fun acc b' => Frags ph (slotCount b) (slotCount b') acc)); [|by constructor].
  set (k := slotCount b). clearbody k. clear b x b'.
  intros acc j b y b' _ Ha H. simpl in H. ok_inv.
  match goal with H : collectJoinWhere _ _ _ _ _ = _ |- _ => apply IHc in H end.
  match goal with H : (if _ then _ else _) _ = _ |- _ => apply conditions_frags in H end.
  eapply frags_app; [done|]. by eapply frags_app.
Qed.
End step.

Lemma render_frag fuel :
  (forall s g top, fragB (renderGroup m d fuel s g top)) /\
  (forall s p, fragB (renderPred m d fuel s p)) /\
  (forall s sub, fragB (subSelect m d fuel s sub)) /\
  (forall s, fragB (renderJoins m d fuel s)) /\
  (forall s, fragsB (collectJoinWhere m d fuel s)).
Proof.
  induction fuel as [|fuel (IHg & IHp & IHs & IHj & IHc)]; [by repeat split; intros ? **|].
  split_and!; intros.
  - by apply renderGroup_step.
  - by apply renderPred_step.
  - by apply subSelect_step.
  - by apply renderJoins_step.
  - by apply collectJoinWhere_step.
Qed.

(** ** Select statements *)

Lemma outExpr_frag fuel s c b e b' :
  outExpr m d fuel s c b = Ok (e, b') -> Frag ph (slotCount b) (slotCount b') (fst (fst e)).
Proof.
  intros H. unfold outExpr in H. destruct (out_fn c); [ok_inv; frag_facts; by apply frag_text|].
  destruct (out_sub c); ok_inv; [|apply frag_text; simpl; safe_t].
  match goal with H : subSelect _ _ _ _ _ _ = _ |- _ => apply (render_frag fuel) in H end. simpl. frag_c.
Qed.

Lemma selectColumn_frags fuel s k acc c b acc' b' :
  Frags ph k (slotCount b) (sa_parts acc) -> selectColumn m d fuel s acc c b = Ok (acc', b') ->
  Frags ph k (slotCount b') (sa_parts acc').
Proof.
  intros Ha H. unfold selectColumn in H. ok_inv. destruct a as [[expr type] styles]. ok_inv. simpl.
  match goal with H : outExpr _ _ _ _ _ _ = _ |- _ => apply outExpr_frag in H; simpl in H end.
  eapply frags_app; [done|]. apply frags_one. frag_c.
Qed.

Lemma selectVersion_frags s k k' acc r :
  Frags ph k k' (sa_parts acc) -> selectVersion d s acc = Ok r -> Frags ph k k' (sa_parts (fst r)).
Proof.
  intros Ha H. unfold selectVersion in H. destruct (sa_aes acc); ok_inv; [|done].
  destruct (findIndex _ _); ok_inv; simpl; [done|]. eapply frags_app; [done|]. apply frags_one, frag_text. safe_t.
Qed.

Lemma selectList_frag fuel s idx outNames b sel b' :
  selectList m d fuel s idx outNames b = Ok (sel, b') -> Frag ph (slotCount b) (slotCount b') (se_sql sel).
Proof.
  revert s idx outNames b sel b'. induction fuel as [|fuel IH]; intros s idx outNames b sel b' H; [done|].
  apply selectList_inv in H as (cols & acc & b1 & acc' & version & sql & children & idx' & names & key & Hp & Hc & Hv & Hj & Hk & ->).
  simpl. assert (Frags ph (slotCount b) (slotCount b1) (sa_parts acc)) as Hacc.
  { revert Hc. apply (foldS_inv (fun acc b' => Frags ph (slotCount b) (slotCount b') (sa_parts acc))); [|constructor].
    intros. by eapply selectColumn_frags. }
  apply (selectVersion_frags _ _ _ _ _ Hacc), (frag_join ph ", ") in Hv; [|done].
  revert Hj. apply (foldS_inv (fun r b' => Frag ph (slotCount b) (slotCount b') (r.1.1.1))); [|done].
  intros [[[sql0 ch0] i0] o0] j t [[[sql1 ch1] i1] o1] t' _ Hs Hf. unfold selectJoin in Hf. simpl in *. ok_inv.
  match goal with H : selectList _ _ _ _ _ _ _ = _ |- _ => apply IH in H as Hl end.
  case_decide as He; [|frag_c]. rewrite He in Hl. rewrite <- (string_app_nil_r sql0). by eapply frag_app.
Qed.

Lemma selectGroupCount_safe s sel : selectGroupCountList d s = Ok sel -> safe (se_sql sel).
Proof.
  unfold selectGroupCountList. intros H. ok_inv. simpl. apply safe_join; [done|]. apply Forall_app. split.
  - apply Forall_fmap, Forall_forall. intros [n c] _. simpl. safe_t.
  - constructor; [safe_t|constructor].
Qed.

Lemma selectHead_frag fuel root kind agg gc b sel b' :
  selectHead m d fuel root kind agg gc b = Ok (sel, b') -> Frag ph (slotCount b) (slotCount b') (se_sql sel).
Proof.
  unfold selectHead. intros H.
  repeat (case_decide; [ok_inv; simpl; first [apply frag_text; solve [safe_t] | apply frag_text; by eapply selectGroupCount_safe]|]).
  by eapply selectList_frag.
Qed.

Lemma safe_rowNumber fuel root keys x : rowNumber d fuel root keys = Ok x -> safe x.
Proof.
  unfold rowNumber. intros H. ok_inv.
  match goal with H : renderOrder _ _ _ = _ |- _ => apply safe_renderOrder in H end.
  match goal with H : (if decide _ then _ else _) = Ok ?o |- _ => assert (safe o) end.
  { case_decide; ok_inv; [safe_t|done]. }
  assert (safe (join ", " (qualified d root keys))) by (apply safe_join; [done|apply safe_qualified]). safe_t.
Qed.

Lemma parentCondition_frag root rc : fragB (parentCondition d root rc).
Proof.
  intros b x b' H. unfold parentCondition in H. ok_inv. frag_facts.
  assert (safe (join ", " (qualified d root (rc_childKeys rc)))) by (apply safe_join; [done|apply safe_qualified]).
  destruct (rc_childKeys rc) as [|k [|]]; frag_c.
Qed.

Lemma safe_names {A} (f : A -> string) sep l : safe sep -> (forall a, safe (f a)) -> safe (join sep (map f l)).
Proof. intros Hs Hf. apply safe_join; [done|]. apply Forall_fmap, Forall_forall. intros x _. apply Hf. Qed.

Lemma perParentOuter_frag k k' sql root names keys n :
  Frag ph k k' sql -> Frag ph k k' (perParentOuter d sql root names keys n).
Proof.
  intros Hs. unfold perParentOuter.
  assert (safe (join ", " (map (fun n => str [d_quote d "orm_w"; "."; d_quote d n]) names))) by (apply safe_names; [done|]; intros; safe_t).
  assert (safe (join ", " (map (fun key => str [d_quote d "orm_w"; "."; d_quote d (str [sc_alias root; "__"; key])]) keys)))
    by (apply safe_names; [done|]; intros; safe_t).
  frag_c.
Qed.

Lemma pageText_frag l : fragB (pageText d l).
Proof.
  intros b x b' H. unfold pageText in H. destruct l as [o c|o c].
  - ok_inv. apply frag_text, safe_limit; apply safe_pretty.
  - case_decide; ok_inv; frag_facts; eapply sd_limit; [rewrite decide_True by done|rewrite decide_False by done]; eauto.
Qed.

Lemma safe_lockText lock x : lockText d lock = Ok x -> safe x.
Proof. unfold lockText. intros H. case_decide; ok_inv; [done|]. by eapply sd_rowLock. Qed.

(** The page of a statement, when it has one. *)
Lemma page_frag l : fragB (match l with Some l => pageText d l | None => mret "" end).
Proof. destruct l; [apply pageText_frag|]. intros b x b' H. ok_inv. by apply frag_text. Qed.

Lemma selectTail_frag fuel root kind rc names sql k b x b' :
  Frag ph k (slotCount b) sql -> selectTail d fuel root kind rc names sql b = Ok (x, b') -> Frag ph k (slotCount b') x.
Proof.
  intros Hs H. unfold selectTail in H. destruct (returnsRows kind); simpl in H; [|by ok_inv].
  assert (safe (d_limit d "0" "1")) as Hone by (by apply safe_limit).
  destruct rc as [c|].
  - destruct (0 <? _); ok_inv; [by apply perParentOuter_frag|].
    match goal with H : renderOrder _ _ _ = _ |- _ => apply safe_renderOrder in H end.
    match goal with H : lockText _ _ = _ |- _ => apply safe_lockText in H end.
    match goal with H : match q_limit _ with _ => _ end _ = _ |- _ => apply page_frag in H end. frag_c.
  - ok_inv.
    match goal with H : renderOrder _ _ _ = _ |- _ => apply safe_renderOrder in H end.
    match goal with H : lockText _ _ = _ |- _ => apply safe_lockText in H end.
    case_decide; ok_inv; [|match goal with H : match q_limit _ with _ => _ end _ = _ |- _ => apply page_frag in H end]; frag_c.
Qed.

Lemma selectSql_frag fuel root kind agg rc b sql asm b' :
  selectSql m d fuel root kind agg rc b = Ok ((sql, asm), b') -> Frag ph (slotCount b) (slotCount b') sql.
Proof.
  intros H. unfold selectSql in H. ok_inv.
  match goal with H : selectHead _ _ _ _ _ _ _ _ = _ |- _ => apply selectHead_frag in H end.
  match goal with H : match rc with _ => _ end = Ok ?rn |- _ => assert (safe rn) as Hrn end.
  { destruct rc; [|ok_inv; safe_t]. destruct (0 <? _); [by eapply safe_rowNumber|ok_inv; safe_t]. }
  frag_facts. destruct (render_frag fuel) as (IHg & _ & _ & IHj & IHc).
  match goal with H : renderJoins _ _ _ _ _ = _ |- _ => apply IHj in H end.
  match goal with H : collectJoinWhere _ _ _ _ _ = _ |- _ => apply IHc in H end.
  match goal with H : (if noItems _ then _ else _) _ = _ |- _ => apply (conditions_frags fuel IHg) in H end.
  match goal with H : match rc with _ => _ end ?t = Ok (?l, ?t') |- _ => assert (Frags ph (slotCount t) (slotCount t') l) as Hpar end.
  { destruct rc; ok_inv; [apply frags_one; by eapply parentCondition_frag|constructor]. }
  match goal with H0 : Frags ph ?k0 ?k1 ?l0, H1 : Frags ph ?k1 ?k2 ?l1, H2 : Frags ph ?k2 ?k3 ?l2 |- _ =>
    pose proof (parent_where root " IS NULL" k0 k1 k2 k3 l0 l1 l2 eq_refl H0 H1 H2) as Hw end.
  set (wt := whereText _) in *. clearbody wt. eapply selectTail_frag; [|eassumption].
  assert (safe (renderGroupBy d root (sc_q root))) by (apply safe_names; [done|]; intros; safe_t).
  destruct (bool_decide _ && _); [frag_c|]; frag_c.
Qed.

(** ** Writes *)

Lemma renderAssign_frag ent col a : fragB (renderAssign d ent col a).
Proof.
  intros b x b' H. unfold renderAssign in H. destruct (isBlindIndexTarget ent (f_name col)).
  - ok_inv. destruct (a_null a); ok_inv; [by apply frag_text|].
    match goal with H : renderBlindIndexValue _ _ _ _ = _ |- _ => apply renderBlind_frag in H end. (frag_facts; counts; done).
  - destruct (a_plus_p a); [ok_inv; frag_facts; frag_c|]. destruct (a_minus_p a); [ok_inv; frag_facts; frag_c|].
    destruct (a_null a); ok_inv; [by apply frag_text|].
    match goal with H : renderValue _ _ _ _ = _ |- _ => apply renderValue_frag in H end. (frag_facts; counts; done).
Qed.

Lemma setPart_frag ent a : fragB (setPart d ent a).
Proof.
  intros b x b' H. unfold setPart in H. ok_inv.
  match goal with H : renderAssign _ _ _ _ _ = _ |- _ => apply renderAssign_frag in H end. frag_c.
Qed.

Lemma clock_frag col : fragB (clock d col).
Proof. intros b x b' H. unfold clock in H. destruct (d_hostNow d); [(frag_facts; counts; done)|]. ok_inv. apply frag_text. safe_t. Qed.

Lemma audit_frags ent : fragsB (auditAssignment d ent).
Proof.
  intros b x b' H. unfold auditAssignment in H. case_decide; ok_inv; [constructor|]. frag_facts. apply frags_one. frag_c.
Qed.

Lemma versionValue_frag ent : fragB (versionValue d ent).
Proof. intros b x b' H. unfold versionValue in H. ok_inv. (frag_facts; counts; done). Qed.

Lemma version_frags (c : bool) ent :
  fragsB (if c then v ← versionValue d ent; mret [str [d_quote d (e_aesVersion ent); " = "; v]] else mret []).
Proof.
  intros b x b' H. destruct c; ok_inv; [|constructor].
  match goal with H : versionValue _ _ _ = _ |- _ => apply versionValue_frag in H end. apply frags_one. frag_c.
Qed.

Lemma managed_frag ent set c : c ∈ managedInsertColumns d ent set -> fragB (snd c).
Proof.
  unfold managedInsertColumns. rewrite !elem_of_app. intros [Hc|[Hc|Hc]].
  - destruct (_ && _); [|by apply elem_of_nil in Hc]. apply list_elem_of_singleton in Hc as ->. apply versionValue_frag.
  - case_decide; [by apply elem_of_nil in Hc|]. apply list_elem_of_singleton in Hc as ->. apply b_audit_frag.
  - destruct (d_hostNow d); [|by apply elem_of_nil in Hc]. apply list_elem_of_fmap in Hc as (f & -> & _). apply b_typed_frag.
Qed.

Lemma managed_frags ent set : fragsB (mapS (fun c => snd c) (managedInsertColumns d ent set)).
Proof. apply mapS_frags. intros c. apply managed_frag. Qed.

Lemma insertValue_frag ent load a : fragB (insertValue d ent load a).
Proof. intros b x b' H. unfold insertValue in H. ok_inv. by eapply renderAssign_frag. Qed.

Lemma insertRow_frag ent set sources row : fragB (insertRow d ent set sources (managedInsertColumns d ent set) row).
Proof.
  intros b x b' H. unfold insertRow in H. ok_inv.
  match goal with H : mapS (fun c => snd c) _ _ = _ |- _ => apply managed_frags in H end.
  match goal with H : mapS _ (zip _ _) _ = _ |- _ => apply mapS_frags in H end.
  - frag_c. apply frag_join; [done|]. by eapply frags_app.
  - intros e _ t y t' He. ok_inv. by eapply renderAssign_frag.
Qed.

Lemma insertUpsert_frag ent set dup : fragB (insertUpsert d ent set dup).
Proof.
  intros b x b' H. unfold insertUpsert in H. ok_inv. apply sd_upsert, frag_join; [done|].
  match goal with H : mapS (setPart _ _) _ _ = _ |- _ => apply mapS_frags in H; [|intros; apply setPart_frag] end.
  match goal with H : versionAssignment _ _ _ _ = _ |- _ => apply version_frags in H end.
  match goal with H : auditAssignment _ _ _ = _ |- _ => apply audit_frags in H end.
  eapply frags_app; [done|]. eapply frags_app; [done|]. eapply frags_app; [done|]. apply frags_safe.
  destruct (_ && _); [|constructor]. constructor; [safe_t|constructor].
Qed.

Lemma insertReturning_safe ent x : insertReturning d assigns ent = Ok x -> safe x.
Proof.
  unfold insertReturning. destruct (_ && _); [intros [= <-]; safe_t|]. destruct (_ && _); intros H; ok_inv; safe_t.
Qed.

Lemma insertSql_frag r : fragB (insertSql m d assigns r).
Proof.
  intros b x b' H. unfold insertSql in H. ok_inv. destruct a0 as [set sources]. ok_inv. frag_facts.
  match goal with H : mapS (insertValue _ _ _) _ _ = _ |- _ => apply mapS_frags in H; [|intros; apply insertValue_frag] end.
  match goal with H : mapS (fun c => snd c) _ _ = _ |- _ => apply managed_frags in H end.
  assert (safe (join ", " (map (d_quote d) (map a_column set ++ map fst (managedInsertColumns d a set)))))
    by (apply safe_names; [done|]; intros; safe_t).
  match goal with H1 : Frags ph ?k1 ?k2 ?l1, H2 : Frags ph ?k2 ?k3 ?l2 |- _ =>
    pose proof (frag_join ph ", " _ _ _ eq_refl (frags_app _ _ _ _ _ _ H1 H2)) end.
  destruct (negb (length (default [] (rq_rows r)) =? 0)%nat); ok_inv.
  - match goal with H : mapS (insertRow _ _ _ _ _) _ _ = _ |- _ => apply mapS_frags in H; [|intros; apply insertRow_frag] end.
    frag_c; [frag_c|by apply frag_str].
  - match goal with H : insertReturning _ _ _ = _ |- _ => apply insertReturning_safe in H end.
    match goal with H : (if _ then insertUpsert _ _ _ _ else _) ?t = Ok (?x, ?t') |- _ => assert (Frag ph (slotCount t) (slotCount t') x) end.
    { destruct (nonempty _); [by eapply insertUpsert_frag|]. ok_inv. by apply frag_text. }
    frag_c. frag_c.
Qed.

Lemma writeWhere_frag fuel root r : fragB (writeWhere m d fuel root r).
Proof. intros b x b' H. unfold writeWhere in H. ok_inv. by eapply (proj1 (render_frag fuel)). Qed.

Lemma updateSql_frag fuel r : fragB (updateSql m d fuel r).
Proof.
  intros b x b' H. unfold updateSql in H. ok_inv. frag_facts.
  match goal with H : mapS (setPart _ _) _ _ = _ |- _ => apply mapS_frags in H; [|intros; apply setPart_frag] end.
  match goal with H : versionAssignment _ _ _ _ = _ |- _ => apply version_frags in H end.
  match goal with H : auditAssignment _ _ _ = _ |- _ => apply audit_frags in H end.
  match goal with H : writeWhere _ _ _ _ _ _ = _ |- _ => apply writeWhere_frag in H end.
  match goal with H : (if _ then _ else _) ?t = Ok (?l, ?t') |- _ => assert (Frags ph (slotCount t) (slotCount t') l) end.
  { destruct (_ && _); ok_inv; [|constructor].
    match goal with H : clock _ _ _ = _ |- _ => apply clock_frag in H end. apply frags_one. frag_c. }
  match goal with H : match rq_optimistic r with _ => _ end ?t = Ok (?l, ?t') |- _ => assert (Frag ph (slotCount t) (slotCount t') l) end.
  { destruct (rq_optimistic r); ok_inv; [|by apply frag_text]. frag_facts. frag_c. }
  match goal with H1 : Frags ph ?k1 ?k2 ?l1, H2 : Frags ph ?k2 ?k3 ?l2, H3 : Frags ph ?k3 ?k4 ?l3, H4 : Frags ph ?k4 ?k5 ?l4 |- _ =>
    pose proof (frag_join ph ", " _ _ _ eq_refl (frags_app _ _ _ _ _ _ H1 (frags_app _ _ _ _ _ _ H2 (frags_app _ _ _ _ _ _ H3 H4)))) end.
  frag_c.
Qed.

Lemma deleteSql_frag fuel r : fragB (deleteSql m d fuel r).
Proof.
  intros b x b' H. unfold deleteSql in H. ok_inv. case_decide; ok_inv; frag_facts;
    match goal with H : writeWhere _ _ _ _ _ _ = _ |- _ => apply writeWhere_frag in H end; [frag_c|].
  match goal with H : clock _ _ _ = Ok (?v, _) |- _ => apply clock_frag in H end.
  match goal with H : auditAssignment _ _ _ = _ |- _ => apply audit_frags in H end.
  frag_c. apply frag_join; [done|]. eapply frags_cons; [frag_c|done].
Qed.

Lemma restoreSql_frag fuel r : fragB (restoreSql m d fuel r).
Proof.
  intros b x b' H. unfold restoreSql in H. ok_inv. frag_facts.
  match goal with H : mapS (setPart _ _) _ _ = _ |- _ => apply mapS_frags in H; [|intros; apply setPart_frag] end.
  match goal with H : (if _ then _ else _) _ = _ |- _ => apply version_frags in H end.
  match goal with H : auditAssignment _ _ _ = _ |- _ => apply audit_frags in H end.
  match goal with H : renderGroup _ _ _ _ _ _ _ = _ |- _ => apply (render_frag fuel) in H end.
  frag_c. apply frag_join; [done|]. eapply frags_app; [done|]. eapply frags_app; [done|].
  eapply frags_cons; [|done]. apply frag_text. safe_t.
Qed.

Lemma restartIdentity_frag r : fragB (restartIdentitySql m d r).
Proof. intros b x b' H. unfold restartIdentitySql in H. ok_inv. frag_facts. counts. apply frag_text. safe_t. Qed.

(** ** Plans *)

(** The statement of a step with its slots. *)
Definition stepBound (st : PlanStep) : Prop := Frag ph 0 (length (st_bind_slots st)) (st_sql st).

Lemma build_frag (c : M Builder string) sql b : fragB c -> build c = Ok (sql, b) -> Frag ph 0 (length (b_binds b)) sql.
Proof. intros Hc H. exact (Hc newBuilder sql b H). Qed.

Definition allBound (steps : list PlanStep) : Prop := Forall stepBound steps.

Lemma addSelect_bound fuel q kind agg rc steps r steps' :
  addSelect m d fuel q kind agg rc steps = Ok (r, steps') -> allBound steps -> allBound steps'.
Proof.
  intros H Hs. destruct r as [step root]. apply addSelect_inv in H as (sql & asm & b & parent & _ & Hb & _ & -> & ->).
  apply Forall_app. split; [done|]. constructor; [|constructor]. unfold stepBound. simpl.
  by eapply (selectSql_frag _ _ _ _ _ newBuilder).
Qed.

Lemma setAssemble_bound id asm steps u steps' :
  setAssemble id asm steps = Ok (u, steps') -> allBound steps -> allBound steps'.
Proof. intros [= <- <-] Hs. unfold allBound. apply Forall_alter; [done|]. by intros x _. Qed.

Lemma selectStep_bound fuel :
  (forall q kind agg rc steps r steps',
     selectStep m d fuel q kind agg rc steps = Ok (r, steps') -> allBound steps -> allBound steps') /\
  (forall s asm id steps r steps',
     relationSteps m d fuel s asm id steps = Ok (r, steps') -> allBound steps -> allBound steps').
Proof.
  induction fuel as [|fuel [IHs IHr]]; [by split; intros|]. split.
  - intros q kind agg rc steps r steps' H Hs. cbn [selectStep] in H.
    apply bindM_ok in H as ([step root] & t & Ha & H). apply addSelect_bound in Ha; [|done].
    destruct (st_assemble step); ok_inv; [|done].
    eapply setAssemble_bound; [eassumption|]. by eapply IHr.
  - intros s asm id steps r steps' H Hs. cbn [relationSteps] in H. ok_inv.
    match goal with H : foldS _ _ (default [] (q_relations _)) _ = Ok (_, ?t) |- _ => assert (allBound t) end.
    { match goal with H : foldS _ _ (default [] (q_relations _)) _ = _ |- _ => revert H end.
      apply (foldS_inv (fun _ => allBound)); [|done]. intros acc x t y t' _ Ht Hf. simpl in Hf. ok_inv. by eapply IHs. }
    match goal with H : foldS _ _ (default [] (q_joins _)) _ = _ |- _ => revert H end.
    apply (foldS_inv (fun _ => allBound)); [|done]. intros acc x t y t' _ Ht Hf. simpl in Hf. ok_inv.
    match goal with H : mapS ?f ?l ?a = Ok (_, ?b) |- _ => revert H; apply (mapS_inv allBound f l); [|done] end.
    intros ch u v u' _ Hu Hc. simpl in Hc. destruct (_ && _); ok_inv; [|done]. by eapply IHr.
Qed.

Lemma writeStep_bound c steps u steps' :
  fragB c -> writeStep c steps = Ok (u, steps') -> allBound steps -> allBound steps'.
Proof.
  intros Hc (sql & b & Hb & ->)%writeStep_inv Hs.
  apply Forall_app. split; [done|]. constructor; [|constructor]. by apply (build_frag c).
Qed.

Lemma compileSteps_bound r u steps : compileSteps m d assigns r [] = Ok (u, steps) -> allBound steps.
Proof.
  intros H. assert (allBound []) as H0 by constructor. unfold compileSteps in H.
  destruct (includes _ _). { ok_inv. by eapply (proj1 (selectStep_bound _)). }
  case_decide.
  { unfold paginateSteps in H. apply bindM_ok in H as ([step root] & t & Ha & H). apply addSelect_bound in Ha; [|done].
    ok_inv. eapply setAssemble_bound; [eassumption|]. eapply (proj2 (selectStep_bound _)); [eassumption|].
    by eapply (proj1 (selectStep_bound _)). }
  case_decide; [eapply writeStep_bound; [|done..]; apply insertSql_frag|].
  case_decide; [eapply writeStep_bound; [|done..]; apply updateSql_frag|].
  case_decide; [eapply writeStep_bound; [|done..]; apply deleteSql_frag|].
  case_decide; [eapply writeStep_bound; [|done..]; apply restoreSql_frag|].
  case_decide; [eapply writeStep_bound; [|done..]; apply restartIdentity_frag|]. by ok_inv.
Qed.

(** C1: Every statement of a plan is safe text woven with the placeholders 1, 2, ...
    of its bind slots, in order. *)
Theorem compile_placeholders r plan st :
  compile m d assigns r = Ok plan -> st ∈ pl_steps plan ->
  exists texts, length texts = S (length (st_bind_slots st)) /\ Forall safe texts /\
    st_sql st = weave texts (map (d_placeholder d) (seq 1 (length (st_bind_slots st)))).
Proof.
  unfold compile. destruct (compileSteps m d assigns r []) as [[u steps]|] eqn:E; [|done]. intros [= <-]. simpl. intros Hin.
  apply compileSteps_bound in E. unfold allBound in E. rewrite Forall_forall in E.
  apply E, Frag_weave in Hin as (texts & Hl & Hs & Hw). rewrite Nat.sub_0_r in *. by exists texts.
Qed.
End Binds.
