(* ===== verification/PlannerFuel.v ===== *)
(** * The fuel of the statement compiler is enough

    No computation of a plan for a validated request ends for want of fuel: the
    recursions of the source return.  The one loop that need not end is that of
    a tuple predicate without columns, which the validator refuses. *)

From S2P Require Import Prelude Ir Meet Dialect Lex Model Params Validate Planner PlannerFacts.

(** ** Computations that do not run out of fuel *)

Definition runsR {A} (r : res A) : Prop := r <> Err OutOfFuel.
Definition runs {S A} (c : M S A) : Prop := forall s, c s <> Err OutOfFuel.

Create HintDb runs.

Lemma runsR_ok {A} (a : A) : runsR (Ok a).
Proof. done. Qed.
Lemma runsR_orm {A} c msg : runsR (@Err A (OrmError c msg)).
Proof. done. Qed.
Lemma runsR_js {A} msg : runsR (@Err A (JsError msg)).
Proof. done. Qed.
Lemma runsR_fail_if b c msg : runsR (fail_if b c msg).
Proof. by destruct b. Qed.
Lemma runsR_or_fail {A} (o : option A) c msg : runsR (or_fail o c msg).
Proof. by destruct o. Qed.
Lemma runsR_present {A} (o : option A) msg : runsR (present o msg).
Proof. by destruct o. Qed.
Lemma runsR_bind {A B} (r : res A) (k : A -> res B) :
  runsR r -> (forall a, r = Ok a -> runsR (k a)) -> runsR (r ≫= k).
Proof. destruct r as [a|e]; simpl; intros Hr Hk; [by apply Hk|]. intros [= ->]. by apply Hr. Qed.
Lemma runsR_mapR {A B} (f : A -> res B) l : (forall x, x ∈ l -> runsR (f x)) -> runsR (mapR f l).
Proof.
  induction l as [|x l IH]; simpl; intros Hf; [done|]. apply runsR_bind; [apply Hf; left|]. intros.
  apply runsR_bind; [apply IH; intros; apply Hf; by right|]. done.
Qed.
Lemma runsR_iterR {A} (f : A -> res unit) l : (forall x, x ∈ l -> runsR (f x)) -> runsR (iterR f l).
Proof.
  induction l as [|x l IH]; simpl; intros Hf; [done|]. apply runsR_bind; [apply Hf; left|]. intros.
  apply IH; intros; apply Hf; by right.
Qed.
Lemma runsR_foldR {A B} (f : B -> A -> res B) l b : (forall b x, x ∈ l -> runsR (f b x)) -> runsR (foldR f b l).
Proof.
  revert b. induction l as [|x l IH]; simpl; intros b Hf; [done|]. apply runsR_bind; [apply Hf; left|]. intros.
  apply IH; intros; apply Hf; by right.
Qed.
Lemma runsR_iteriR {A} (f : nat -> A -> res unit) i l : (forall i x, runsR (f i x)) -> runsR (iteriR f i l).
Proof. intros Hf. revert i. induction l as [|x l IH]; simpl; intros i; [done|]. by apply runsR_bind. Qed.

Section runs.
Context {S : Type}.

Lemma runs_ret {A} (a : A) : runs (S := S) (mret a).
Proof. by intros s. Qed.
Lemma runs_fail {A} c msg : runs (S := S) (A := A) (fail c msg).
Proof. by intros s. Qed.
Lemma runs_throw {A} msg : runs (S := S) (A := A) (throw (JsError msg)).
Proof. by intros s. Qed.
Lemma runs_get : runs (S := S) get.
Proof. by intros s. Qed.
Lemma runs_modify f : runs (S := S) (modify f).
Proof. by intros s. Qed.
Lemma runs_lift {A} (r : res A) : runsR r -> runs (S := S) (lift r).
Proof. intros Hr s. unfold lift. destruct r; [done|]. intros [= ->]. by apply Hr. Qed.
Lemma runs_bind {A B} (c : M S A) (k : A -> M S B) :
  runs c -> (forall a s s', c s = Ok (a, s') -> runs (k a)) -> runs (c ≫= k).
Proof.
  intros Hc Hk s. unfold mbind, M_bind. specialize (Hc s). destruct (c s) as [[a s']|e] eqn:E; [|congruence].
  by eapply Hk.
Qed.
Lemma runs_mapS {A B} (f : A -> M S B) l : (forall x, x ∈ l -> runs (f x)) -> runs (mapS f l).
Proof.
  induction l as [|x l IH]; simpl; intros Hf; [apply runs_ret|]. apply runs_bind; [apply Hf; left|]. intros.
  apply runs_bind; [apply IH; intros; apply Hf; by right|]. intros. apply runs_ret.
Qed.
Lemma runs_foldS {A B} (f : B -> A -> M S B) l b : (forall b x, x ∈ l -> runs (f b x)) -> runs (foldS f b l).
Proof.
  revert b. induction l as [|x l IH]; simpl; intros b Hf; [apply runs_ret|]. apply runs_bind; [apply Hf; left|].
  intros. apply IH. intros. apply Hf. by right.
Qed.
End runs.

#[export] Hint Resolve runsR_ok runsR_orm runsR_js runsR_fail_if runsR_or_fail runsR_present runs_ret runs_fail runs_throw runs_get
  runs_modify : runs.
#[export] Hint Extern 1 (runs _) => assumption : runs.

(** Splits a computation into its parts; what the hints do not close is left. *)
Ltac runs_step :=
  match goal with
  | |- runsR (_ ≫= _) => apply runsR_bind; [|intros]
  | |- runsR (mapR _ _) => apply runsR_mapR; intros
  | |- runsR (iterR _ _) => apply runsR_iterR; intros
  | |- runsR (foldR _ _ _) => apply runsR_foldR; intros
  | |- runsR (iteriR _ _ _) => apply runsR_iteriR; intros
  | |- runs (_ ≫= _) => apply runs_bind; [|intros]
  | |- runs (lift _) => apply runs_lift
  | |- runs (mapS _ _) => apply runs_mapS; intros
  | |- runs (foldS _ _ _) => apply runs_foldS; intros
  | |- runsR (if ?b then _ else _) => destruct b
  | |- runs (if ?b then _ else _) => destruct b
  | |- runsR (match ?o with _ => _ end) => destruct o
  | |- runs (match ?o with _ => _ end) => destruct o
  end.
Ltac runs_t := repeat (try solve [auto with runs]; runs_step); try solve [auto with runs].

(** ** What is asked of a dialect *)

Class TotalDialect (d : Dialect) : Prop := {
  td_value {S} name (arg now : M S string) : runs arg -> runs now -> runs (d_valueFunction d name arg now);
  td_binary {S} col (value : string -> M S string) : (forall t, runs (value t)) -> runs (d_containsBinary d col value);
  td_fulltext {S} cols (value : string -> M S string) b : (forall t, runs (value t)) -> runs (d_fulltext d cols value b) }.

#[export] Instance mysql_total : TotalDialect mysql.
Proof.
  split; simpl; intros; [unfold mysql_valueFunction, guardResult, guardInterval|unfold likeContains|unfold mysql_fulltext]; runs_t.
Qed.

#[export] Instance postgres_total : TotalDialect postgres.
Proof.
  split; simpl; intros; [unfold postgres_valueFunction, guardResult, guardInterval|unfold likeContains|unfold postgres_fulltext]; runs_t.
Qed.

#[export] Instance sqlite_total : TotalDialect sqlite.
Proof.
  split; simpl; intros; [unfold sqlite_valueFunction, guardResult|unfold sqlite_containsBinary|unfold sqlite_fulltext]; runs_t.
Qed.

(** ** Requests that a plan can be made of

    The tuple predicates that are rendered have columns, and the joins of a query
    have names of their own. *)

Definition readyTuple (p : Predicate) : bool :=
  match default [] (p_cols p), default [] (p_ps p) with [], _ :: _ => false | _, _ => true end.

Fixpoint readyQuery (q : RequestQuery) : bool :=
  match q_columns q with Some c => readyColumns c | None => true end &&
  match q_on q with Some g => readyGroup g | None => true end &&
  match q_where q with Some g => readyGroup g | None => true end &&
  match q_joins q with Some l => bool_decide (NoDup (map j_rel l)) && forallb readyJoin l | None => true end &&
  match q_relations q with Some l => forallb readyRelation l | None => true end
with readyColumns (c : Projection) : bool :=
  match c_sub c with Some l => forallb (fun e => readySub (snd e)) l | None => true end
with readyGroup (g : Group) : bool := forallb readyItem (g_items g)
with readyItem (i : Item) : bool :=
  match i_pred i with
  | Some p => readyPred p
  | None => match i_group i with Some g => readyGroup g | None => true end
  end
with readyPred (p : Predicate) : bool :=
  if includes (default "" (p_op p)) ["tuple_in"; "tuple_not_in"] then readyTuple p
  else if includes (default "" (p_op p)) ["fulltext"; "fulltext_boolean"] then true
  else match p_sub p with Some s => readySub s | None => true end
with readySub (s : Subquery) : bool := readyQuery (sq_query s)
with readyRelation (r : Relation) : bool := readyQuery (r_query r)
with readyJoin (j : Join) : bool := readyQuery (j_query j).

(** ** Scopes follow the joins of their queries *)

Inductive wfScope : Scope -> Prop :=
  | wf_scope s :
      readyQuery (sc_q s) = true ->
      (forall rel js, assoc rel (sc_joins s) = Some js ->
         wfScope js /\ exists j, j ∈ default [] (q_joins (sc_q s)) /\ j_rel j = rel /\ sc_q js = j_query j) ->
      wfScope s.

Lemma ready_parts q : readyQuery q = true ->
  (forall c, q_columns q = Some c -> readyColumns c = true) /\
  (forall g, q_on q = Some g -> readyGroup g = true) /\
  (forall g, q_where q = Some g -> readyGroup g = true) /\
  (forall j, j ∈ default [] (q_joins q) -> readyQuery (j_query j) = true) /\
  NoDup (map j_rel (default [] (q_joins q))) /\
  (forall r, r ∈ default [] (q_relations q) -> readyQuery (r_query r) = true).
Proof.
  destruct q as [? columns on wh joins relations]; simpl. rewrite !andb_true_iff. intros [[[[Hc Ho] Hw] Hj] Hr]. split_and!.
  - by intros c ->.
  - by intros g ->.
  - by intros g ->.
  - destruct joins as [l|]; simpl; intros j Hin; [|by apply elem_of_nil in Hin]. apply andb_true_iff in Hj as [_ Hj].
    apply list_elem_of_In in Hin. rewrite forallb_forall in Hj. specialize (Hj j Hin). by destruct j.
  - destruct joins as [l|]; simpl; [|constructor]. apply andb_true_iff in Hj as [Hj _]. by apply bool_decide_eq_true in Hj.
  - destruct relations as [l|]; simpl; intros r Hin; [|by apply elem_of_nil in Hin].
    apply list_elem_of_In in Hin. rewrite forallb_forall in Hr. specialize (Hr r Hin). by destruct r.
Qed.

Lemma assoc_set_lookup {V} k (v : V) l k' : assoc k' (assoc_set k v l) = if decide (k' = k) then Some v else assoc k' l.
Proof.
  induction l as [|[k0 v0] l IH]; simpl; [done|]. destruct (decide (k = k0)) as [->|Hne]; simpl.
  - by destruct (decide (k' = k0)).
  - rewrite IH. destruct (decide (k' = k0)) as [->|]; [|done]. by rewrite decide_False by congruence.
Qed.

Lemma buildScopes_q m q alias nested s : buildScopes m q alias nested = Ok s -> sc_q s = q.
Proof. destruct q. simpl. intros H. by ok_inv. Qed.

Lemma buildScopes_wf m q : forall alias nested s, readyQuery q = true -> buildScopes m q alias nested = Ok s -> wfScope s.
Proof.
  revert q. refine (proj1 (request_mut_ind (fun q => forall alias nested s, readyQuery q = true -> buildScopes m q alias nested = Ok s -> wfScope s)
    (fun _ => True) (fun _ => True) (fun _ => True) (fun _ => True) (fun _ => True) (fun _ => True)
    (fun j => forall alias nested s, readyQuery (j_query j) = true -> buildScopes m (j_query j) alias nested = Ok s -> wfScope s) _ _ _ _ _ _ _ _));
    [|intros; exact I..|auto].
  intros q _ _ _ IH _ alias nested s Ht H. pose proof (buildScopes_q _ _ _ _ _ H) as Hq.
  constructor; [by rewrite Hq|]. rewrite Hq. destruct (ready_parts _ Ht) as (_ & _ & _ & Hj & _).
  destruct q as [? ? ? ? joins]. simpl in *. ok_inv. simpl. destruct joins as [js|]; ok_inv; [|done].
  match goal with H : foldR _ _ _ = Ok ?l |- _ => revert H; generalize l end. intros l.
  apply (foldR_inv (fun l => forall rel js', assoc rel l = Some js' -> wfScope js' /\ exists j, j ∈ js /\ j_rel j = rel /\ sc_q js' = j_query j)); [|done].
  intros acc j y Hin Hacc Hf rel js'. ok_inv. rewrite assoc_set_lookup.
  destruct (decide (rel = j_rel j)); [|apply Hacc]. intros [= <-].
  match goal with H : buildScopes _ _ _ _ = _ |- _ => rename H into Hb end. split.
  - eapply (IH js j eq_refl Hin); [|exact Hb]. by apply Hj.
  - exists j. split_and!; [done|done|]. by eapply buildScopes_q.
Qed.

(** The size of the joins of a scope. *)
Definition joinsSize (s : Scope) : nat := list_size join_size (default [] (q_joins (sc_q s))).

Lemma query_size_parts q :
  (1 + opt_size projection_size (q_columns q) + opt_size group_size (q_on q) + opt_size group_size (q_where q)
   + list_size join_size (default [] (q_joins q)) + list_size relation_size (default [] (q_relations q)) = query_size q)%nat.
Proof. destruct q as [? ? ? ? [] []]; simpl; lia. Qed.

Lemma joinScope_wf s rel js :
  wfScope s -> joinScope s rel = Ok js -> wfScope js /\ (query_size (sc_q js) < joinsSize s)%nat.
Proof.
  intros [s' _ Hj] H. unfold joinScope in H. ok_inv. destruct (Hj _ _ H) as (Hw & j & Hin & _ & E). split; [done|].
  rewrite E. apply (list_size_in join_size) in Hin. unfold joinsSize. destruct j; simpl in *. lia.
Qed.

Lemma joins_lt_query s : (joinsSize s + opt_size group_size (q_where (sc_q s)) < query_size (sc_q s))%nat.
Proof. pose proof (query_size_parts (sc_q s)). unfold joinsSize. lia. Qed.

(** ** Rendering *)

Section Fuel.
Context (m : RuntimeModel) (d : Dialect) (assigns : bool) `{Ht : !TotalDialect d}.

Lemma runs_push s : runs (b_push d s).
Proof. by intros b. Qed.
Lemma runs_typed s : runs (b_typed d s).
Proof. intros b. unfold b_typed. case_decide; [done|]. apply runs_push. Qed.
Lemma runs_param i t : runs (b_param d i t).
Proof. apply runs_typed. Qed.
Lemma runs_transformed i t : runs (b_transformed d i t).
Proof. apply runs_typed. Qed.
Lemma runs_colParam i c t : runs (b_colParam d i c t).
Proof. apply runs_typed. Qed.
Lemma runs_config n t : runs (b_config d n t).
Proof. apply runs_typed. Qed.
Lemma runs_now p : runs (b_now d p).
Proof. apply runs_typed. Qed.
Lemma runs_parentList i l : runs (b_parentList d i l).
Proof. apply runs_push. Qed.
Lemma runs_table ent : runs (b_table d ent).
Proof. by intros b. Qed.
Lemma runs_lastStyles l : runs (b_lastStyles l).
Proof. intros b. unfold b_lastStyles. by destruct (reverse _). Qed.
Lemma runs_mark n c : runs (markAssigned n c).
Proof. by intros b. Qed.
Lemma runs_nextSub : runs b_nextSub.
Proof. by intros b. Qed.
Lemma runsR_columnIn ent name : runsR (columnIn ent name).
Proof. apply runsR_present. Qed.
Lemma runsR_cmp op : runsR (cmp op).
Proof. unfold cmp. runs_t. Qed.
Lemma runsR_indexOf a n : runsR (indexOf a n).
Proof. unfold indexOf. runs_t. Qed.
Hint Resolve runs_push runs_typed runs_param runs_transformed runs_colParam runs_config runs_now runs_parentList runs_table
  runs_lastStyles runs_mark runs_nextSub runsR_columnIn runsR_cmp runsR_indexOf : runs.

Lemma runsR_keyRefs a l : runsR (keyRefs a l).
Proof. unfold keyRefs. runs_t. Qed.
Lemma runs_audit ent : runs (b_audit d ent).
Proof. unfold b_audit. runs_t. Qed.
Lemma runsR_joinScope s rel : runsR (joinScope s rel).
Proof. apply runsR_present. Qed.
Lemma runsR_between p : runsR (between p).
Proof. unfold between. runs_t. Qed.
Lemma runsR_entity n : runsR (p_entity m n).
Proof. apply runsR_present. Qed.
Lemma runs_renderValue c i : runs (renderValue d c i).
Proof. unfold renderValue. runs_t. Qed.
Lemma runs_blind c i : runs (renderBlindIndexValue d c i).
Proof. unfold renderBlindIndexValue. runs_t. Qed.
Lemma runsR_resolvePath s p : runsR (resolvePath s p).
Proof. unfold resolvePath. runs_t. Qed.
Lemma runsR_columnFunction s c f : runsR (columnFunction d s c f).
Proof. apply runsR_or_fail. Qed.
Lemma runsR_functionType n f e c : runsR (functionType n f e c).
Proof. unfold functionType. runs_t. Qed.
Lemma runsR_blindIndex s c : runsR (needsBlindIndex s c).
Proof. apply runsR_fail_if. Qed.
Hint Resolve runsR_keyRefs runs_audit runsR_joinScope runsR_between runsR_entity runs_renderValue runs_blind runsR_resolvePath
  runsR_columnFunction runsR_functionType runsR_blindIndex : runs.

(** With a column each turn of the loop over the values of a tuple moves on. *)
Lemma runs_tupleRows fuel s op cols ps i :
  cols <> [] -> (length ps <= i + fuel)%nat -> runs (tupleRows d fuel s op cols ps i).
Proof.
  intros Hc. revert i. induction fuel as [|fuel IH]; intros i Hi; simpl.
  - destruct (Nat.ltb_spec i (length ps)); [lia|]. runs_t.
  - destruct (i <? length ps)%nat; runs_t. apply IH. destruct cols; [done|]. simpl. lia.
Qed.

Lemma runs_renderTuple s op p : readyTuple p = true -> runs (renderTuple d s op p).
Proof.
  intros Hp. unfold renderTuple. apply runs_bind; [runs_t|]. intros cols s1 s2 [Hc _]%liftM_ok.
  apply runs_bind; [runs_t|]. intros ps s3 s4 [Hps _]%liftM_ok. ok_inv. apply runs_bind; [|intros; runs_t].
  unfold readyTuple in Hp. rewrite Hc, Hps in Hp. simpl in Hp.
  destruct cols as [|c cols]; [|apply runs_tupleRows; [done|lia]]. destruct ps; [|done]. simpl. runs_t.
Qed.

Lemma runs_fulltext s op p : runs (renderFulltext d s op p).
Proof. unfold renderFulltext. runs_t. apply td_fulltext. intros. runs_t. Qed.
Lemma runs_clock lhs op c f : runs (renderClock d lhs op c f).
Proof. unfold renderClock. runs_t. apply td_value; runs_t. Qed.
Lemma runs_function s op c col f p : runs (renderFunction d s op c col f p).
Proof. unfold renderFunction. runs_t. Qed.
Lemma runs_comparison s lhs op c p : runs (renderComparison d s lhs op c p).
Proof. unfold renderComparison. runs_t. Qed.
Lemma runs_in s lhs op c p : runs (renderIn d s lhs op c p).
Proof. unfold renderIn. runs_t. Qed.
Hint Resolve runs_fulltext runs_clock runs_function runs_comparison runs_in : runs.
Lemma runs_plain s lhs op c p : runs (renderPlain d s lhs op c p).
Proof. unfold renderPlain. runs_t. apply td_binary. intros. runs_t. Qed.
Lemma runsR_orderItem s o : runsR (orderItem d s o).
Proof. unfold orderItem. runs_t. Qed.
Lemma runsR_joinOn s js j : runsR (joinOn d s js j).
Proof. unfold joinOn. runs_t. Qed.
Lemma runsR_subSelectColumn s sub : runsR (subSelectColumn d s sub).
Proof. unfold subSelectColumn. runs_t. Qed.
Hint Resolve runs_plain runsR_orderItem runsR_joinOn runsR_subSelectColumn : runs.

(** ** The recursive functions *)

Lemma runsR_buildScopes q : forall alias nested, runsR (buildScopes m q alias nested).
Proof.
  revert q. refine (proj1 (request_mut_ind (fun q => forall alias nested, runsR (buildScopes m q alias nested))
    (fun _ => True) (fun _ => True) (fun _ => True) (fun _ => True) (fun _ => True) (fun _ => True)
    (fun j => forall alias nested, runsR (buildScopes m (j_query j) alias nested)) _ _ _ _ _ _ _ _)); [|intros; exact I..|auto].
  intros [] _ _ _ IH _ alias nested. simpl in *. runs_t. by eapply IH.
Qed.
Hint Resolve runsR_buildScopes : runs.

Lemma runsR_orderParts fuel s : wfScope s -> (query_size (sc_q s) <= fuel)%nat -> runsR (orderParts d fuel s).
Proof.
  revert s. induction fuel as [|fuel IH]; intros s Hs Hf; [destruct (sc_q s); simpl in *; lia|]. simpl. runs_t.
  destruct (joinScope_wf _ _ _ Hs H1) as [Hw Hlt]. apply IH; [done|]. pose proof (joins_lt_query s). lia.
Qed.

Lemma runsR_renderOrder fuel s : wfScope s -> (query_size (sc_q s) <= fuel)%nat -> runsR (renderOrder d fuel s).
Proof. intros. unfold renderOrder. apply runsR_bind; [by apply runsR_orderParts|]. intros. runs_t. Qed.

(** The fuel that each function needs. *)
Record enough (fuel : nat) : Prop := {
  en_group s g top : wfScope (pc_here s) -> readyGroup g = true ->
    (2 * (group_size g + joinsSize (pc_here s)) <= fuel)%nat -> runs (renderGroup m d fuel s g top);
  en_pred s p : readyPred p = true -> (2 * pred_size p <= fuel)%nat -> runs (renderPred m d fuel s p);
  en_sub s sub : readySub sub = true -> (2 * sub_size sub <= fuel)%nat -> runs (subSelect m d fuel s sub);
  en_joins s : wfScope (pc_here s) -> (2 * joinsSize (pc_here s) + 1 <= fuel)%nat -> runs (renderJoins m d fuel s);
  en_collect s : wfScope (pc_here s) -> (2 * joinsSize (pc_here s) + 1 <= fuel)%nat -> runs (collectJoinWhere m d fuel s) }.

Lemma ready_item g it : readyGroup g = true -> it ∈ g_items g -> readyItem it = true.
Proof. destruct g. simpl. intros H Hin%list_elem_of_In. rewrite forallb_forall in H. auto. Qed.

Lemma size_item g it : it ∈ g_items g -> (item_size it < group_size g)%nat.
Proof. destruct g. simpl. intros H. apply (list_size_in item_size) in H. lia. Qed.

Lemma wf_ready s : wfScope s -> readyQuery (sc_q s) = true.
Proof. by intros []. Qed.

(** The items of a group, with the fuel that each needs. *)
Lemma runs_group_items fuel s g top :
  enough fuel -> wfScope (pc_here s) ->
  (forall it, it ∈ g_items g -> readyItem it = true /\ (2 * (item_size it + joinsSize (pc_here s)) <= fuel)%nat) ->
  runs (renderGroup m d (S fuel) s g top).
Proof.
  intros E Hs Hi. simpl. apply runs_bind; [|intros; runs_t]. apply runs_mapS. intros it Hin.
  destruct (Hi it Hin) as [Hti Hsz]. destruct it as [[p|] gr jn]; simpl in *.
  { apply runs_bind; [|intros; runs_t]. apply (en_pred _ E); [done|lia]. }
  destruct gr as [g'|]. { apply runs_bind; [|intros; runs_t]. apply (en_group _ E); simpl in *; [done..|lia]. }
  apply runs_bind; [runs_t|]. intros joined s1 s2 _. apply runs_bind; [runs_t|]. intros js ? ? [Hjs _]%liftM_ok.
  destruct (joinScope_wf _ _ _ Hs Hjs) as [Hw Hlt]. apply runs_bind; [runs_t|]. intros w s5 s6 [Hpw _]%liftM_ok. ok_inv.
  destruct (ready_parts _ (wf_ready _ Hw)) as (_ & _ & Htw & _).
  apply runs_bind; [|intros; runs_t]. apply (en_group _ E); simpl; [done|by apply Htw|].
  pose proof (joins_lt_query js) as Hq. rewrite Hpw in Hq. simpl in Hq. lia.
Qed.

Lemma opt_group_size q w : q_where q = Some w -> (group_size w < query_size q)%nat.
Proof. intros E. pose proof (query_size_parts q) as H. rewrite E in H. simpl in H. lia. Qed.

Lemma runs_sub_step fuel s sub : enough fuel -> readySub sub = true -> (2 * sub_size sub <= S fuel)%nat -> runs (subSelect m d (S fuel) s sub).
Proof.
  intros E Hts Hsz. assert (readyQuery (sq_query sub) = true) as Hq by (by destruct sub).
  assert (2 * query_size (sq_query sub) < fuel)%nat as Hsz' by (destruct sub; simpl in *; lia). simpl.
  apply runs_bind; [runs_t|]. intros k s1 s2 _. apply runs_bind; [runs_t|]. intros root s3 s4 [Hr _]%liftM_ok.
  pose proof (buildScopes_wf _ _ _ _ _ Hq Hr) as Hw. apply buildScopes_q in Hr as Hrq.
  pose proof (joins_lt_query root) as Hj. rewrite Hrq in Hj. destruct (ready_parts _ Hq) as (_ & _ & Htw & _).
  apply runs_bind; [runs_t|]. intros. apply runs_bind; [runs_t|]. intros.
  apply runs_bind; [apply (en_joins _ E); simpl; [done|lia]|]. intros.
  apply runs_bind.
  { destruct (noItems _); [runs_t|]. apply runs_bind; [runs_t|]. intros w t1 t2 [Hpw _]%liftM_ok. ok_inv.
    apply runs_bind; [|intros; runs_t]. apply (en_group _ E); simpl; [done|by apply Htw|]. rewrite Hpw in Hj. simpl in Hj. lia. }
  intros. apply runs_bind; [apply (en_collect _ E); simpl; [done|lia]|]. intros. apply runs_bind; [|intros; runs_t].
  runs_t. apply runsR_renderOrder; [done|]. rewrite Hrq. lia.
Qed.

Lemma nodup_rel l j j' : NoDup (map j_rel l) -> j ∈ l -> j' ∈ l -> j_rel j = j_rel j' -> j = j'.
Proof.
  induction l as [|x l IH]; simpl; intros Hnd Hj Hj' E; [by apply elem_of_nil in Hj|]. inversion Hnd as [|?? Hx Hl]; subst.
  apply elem_of_cons in Hj as [->|Hj], Hj' as [->|Hj']; [done|..|by apply IH].
  - destruct Hx. rewrite E. by apply list_elem_of_fmap_2.
  - destruct Hx. rewrite <- E. by apply list_elem_of_fmap_2.
Qed.

Lemma join_parts s j js :
  wfScope s -> j ∈ default [] (q_joins (sc_q s)) -> joinScope s (j_rel j) = Ok js ->
  wfScope js /\ (query_size (sc_q js) < joinsSize s)%nat /\ sc_q js = j_query j.
Proof.
  intros Hs Hin Hjs. destruct (joinScope_wf _ _ _ Hs Hjs) as [Hw Hlt]. split_and!; [done|done|].
  destruct (ready_parts _ (wf_ready _ Hs)) as (_ & _ & _ & _ & Hnd & _).
  destruct Hs as [s _ Hj]. unfold joinScope in Hjs. ok_inv. destruct (Hj _ _ Hjs) as (_ & j' & Hin' & Er & ->).
  f_equal. by eapply nodup_rel.
Qed.

Lemma runs_joins_step fuel s : enough fuel -> wfScope (pc_here s) -> (2 * joinsSize (pc_here s) + 1 <= S fuel)%nat ->
  runs (renderJoins m d (S fuel) s).
Proof.
  intros E Hs Hf. simpl. apply runs_foldS. intros acc j Hin.
  apply runs_bind; [runs_t|]. intros js s1 s2 [Hjs _]%liftM_ok.
  destruct (join_parts _ _ _ Hs Hin Hjs) as (Hw & Hlt & Eq). pose proof (joins_lt_query js).
  destruct (ready_parts _ (wf_ready _ Hw)) as (_ & Hon & _). rewrite Eq in Hon.
  apply runs_bind; [runs_t|]. intros. apply runs_bind; [runs_t|]. intros. apply runs_bind.
  { destruct (noItems _); [runs_t|]. apply runs_bind; [runs_t|]. intros g t1 t2 [Hpg _]%liftM_ok. ok_inv.
    apply runs_bind; [|intros; runs_t]. apply (en_group _ E); simpl; [done|by apply Hon|].
    pose proof (query_size_parts (sc_q js)) as Hp. rewrite Eq, Hpg in Hp. simpl in Hp. 
    assert (joinsSize js = list_size join_size (default [] (q_joins (j_query j)))) as -> by (unfold joinsSize; by rewrite Eq).
    rewrite Eq in Hlt. lia. }
  intros. apply runs_bind; [|intros; runs_t]. apply (en_joins _ E); simpl; [done|lia].
Qed.

Lemma runs_collect_step fuel s : enough fuel -> wfScope (pc_here s) -> (2 * joinsSize (pc_here s) + 1 <= S fuel)%nat ->
  runs (collectJoinWhere m d (S fuel) s).
Proof.
  intros E Hs Hf. simpl. apply runs_foldS. intros acc j Hin.
  apply runs_bind; [runs_t|]. intros js s1 s2 [Hjs _]%liftM_ok.
  destruct (join_parts _ _ _ Hs Hin Hjs) as (Hw & Hlt & Eq). pose proof (joins_lt_query js) as Hq.
  destruct (ready_parts _ (wf_ready _ Hw)) as (_ & _ & Hwh & _). rewrite Eq in Hwh.
  apply runs_bind.
  { destruct (_ || _); [runs_t|]. apply runs_bind; [runs_t|]. intros g t1 t2 [Hpg _]%liftM_ok. ok_inv.
    apply runs_bind; [|intros; runs_t]. apply (en_group _ E); simpl; [done|by apply Hwh|].
    rewrite Eq, Hpg in Hq. simpl in Hq. rewrite Eq in Hlt. lia. }
  intros. apply runs_bind; [|intros; runs_t]. apply (en_collect _ E); simpl; [done|lia].
Qed.

Lemma enough_fuel fuel : enough fuel.
Proof.
  induction fuel as [|fuel E].
  { split; intros; exfalso; [destruct g|destruct p|destruct sub|..]; simpl in *; lia. }
  split.
  - intros s g top Hs Hg Hf. apply runs_group_items; [done..|]. intros it Hin. split; [by eapply ready_item|].
    apply size_item in Hin. lia.
  - intros s p Hp Hf. simpl. destruct p as [? ? op ? ? ? ? ? ? sub]. simpl in *.
    destruct (includes _ _); [by apply runs_renderTuple|]. destruct (includes _ _); [runs_t|].
    destruct sub as [sub|]; [|runs_t]. apply runs_bind; [runs_t|]. intros. apply runs_bind; [runs_t|]. intros.
    apply runs_bind; [|intros; runs_t]. apply (en_sub _ E); [done|simpl in *; lia].
  - intros s sub. by apply runs_sub_step.
  - intros s. by apply runs_joins_step.
  - intros s. by apply runs_collect_step.
Qed.

(** ** Select statements *)

Lemma runsR_projection s : runsR (projection s).
Proof. unfold projection, removeColumns. runs_t. Qed.
Lemma runsR_subType sub : runsR (subType m sub).
Proof. unfold subType. runs_t. Qed.
Lemma runsR_selectVersion s acc : runsR (selectVersion d s acc).
Proof. unfold selectVersion. runs_t. Qed.
Lemma runsR_groupCount s : runsR (selectGroupCountList d s).
Proof. unfold selectGroupCountList. runs_t. Qed.
Hint Resolve runsR_projection runsR_subType runsR_selectVersion runsR_groupCount : runs.

(** The subqueries that a scope selects. *)
Lemma projection_subs s cols c sub :
  projection s = Ok cols -> c ∈ cols -> out_sub c = Some sub ->
  exists p l name, q_columns (sc_q s) = Some p /\ c_sub p = Some l /\ (name, sub) ∈ l.
Proof.
  intros H Hin Hsub. unfold projection in H. ok_inv. apply elem_of_app in Hin as [Hin|Hin].
  { apply list_elem_of_fmap in Hin as (x & -> & _). done. }
  destruct (q_columns (sc_q s)) as [p|]; [|by apply elem_of_nil in Hin]. apply elem_of_app in Hin as [Hin|Hin].
  { apply list_elem_of_fmap in Hin as (x & -> & _). done. }
  apply list_elem_of_fmap in Hin as ([name sub'] & -> & Hin). simpl in Hsub. injection Hsub as ->.
  unfold sortedEntries in Hin. apply elem_of_sort_by in Hin. destruct (c_sub p) as [l|] eqn:El; [|by apply elem_of_nil in Hin].
  by exists p, l, name.
Qed.

Lemma projection_ready s cols c sub :
  wfScope s -> projection s = Ok cols -> c ∈ cols -> out_sub c = Some sub ->
  readySub sub = true /\ (sub_size sub < query_size (sc_q s))%nat.
Proof.
  intros Hw Hp Hin Hsub. destruct (projection_subs _ _ _ _ Hp Hin Hsub) as (p & l & name & Ep & El & Hl).
  destruct (ready_parts _ (wf_ready _ Hw)) as (Hc & _). specialize (Hc _ Ep). split.
  - destruct p. simpl in *. rewrite El in Hc. apply list_elem_of_In in Hl. rewrite forallb_forall in Hc.
    by apply (Hc (name, sub)).
  - pose proof (query_size_parts (sc_q s)) as Hq. rewrite Ep in Hq. simpl in Hq.
    apply (list_size_in (fun e => sub_size (snd e))) in Hl. destruct p. simpl in *. rewrite El in Hq. simpl in Hq. lia.
Qed.

Lemma runs_selectList fuel s idx names :
  wfScope s -> (2 * query_size (sc_q s) <= fuel)%nat -> runs (selectList m d fuel s idx names).
Proof.
  revert s idx names. induction fuel as [|fuel IH]; intros s idx names Hw Hf; [destruct (sc_q s); simpl in *; lia|].
  cbn [selectList]. apply runs_bind; [runs_t|]. intros cols s1 s2 [Hp _]%liftM_ok.
  apply runs_bind.
  { apply runs_foldS. intros acc c Hin. unfold selectColumn. apply runs_bind; [|intros [[? ?] ?] ? ? ?; runs_t].
    unfold outExpr. destruct (out_fn c); [runs_t|]. destruct (out_sub c) as [sub|] eqn:Es; [|runs_t].
    destruct (projection_ready _ _ _ _ Hw Hp Hin Es) as [Hr Hsz].
    apply runs_bind; [apply (en_sub _ (enough_fuel fuel)); [done|lia]|]. intros. runs_t. }
  intros. apply runs_bind; [runs_t|]. intros [acc' version] ? ? _. apply runs_bind.
  { apply runs_foldS. intros [[[sql ch] i] o] j Hin. unfold selectJoin. apply runs_bind; [runs_t|].
    intros js ? ? [Hjs _]%liftM_ok. destruct (joinScope_wf _ _ _ Hw Hjs) as [Hwj Hlt]. pose proof (joins_lt_query s).
    apply runs_bind; [apply IH; [done|lia]|]. intros. runs_t. }
  intros [[[sql ch] i] o] ? ? _. runs_t.
Qed.

Lemma runsR_rowNumber fuel s keys : wfScope s -> (query_size (sc_q s) <= fuel)%nat -> runsR (rowNumber d fuel s keys).
Proof. intros. unfold rowNumber. apply runsR_bind; [by apply runsR_renderOrder|]. intros. runs_t. Qed.
Lemma runs_parentCondition s rc : runs (parentCondition d s rc).
Proof. unfold parentCondition. runs_t. Qed.
Lemma runs_pageText l : runs (pageText d l).
Proof. unfold pageText. runs_t. Qed.
Lemma runsR_lockText l : runsR (lockText d l).
Proof. unfold lockText. runs_t. Qed.
Hint Resolve runs_parentCondition runs_pageText runsR_lockText : runs.

Lemma runs_selectTail fuel root kind rc names sql :
  wfScope root -> (query_size (sc_q root) <= fuel)%nat -> runs (selectTail d fuel root kind rc names sql).
Proof.
  intros Hw Hf. unfold selectTail. assert (runsR (renderOrder d fuel root)) by (by apply runsR_renderOrder). runs_t.
Qed.

Lemma runs_selectSql fuel root kind agg rc :
  wfScope root -> (2 * query_size (sc_q root) <= fuel)%nat -> runs (selectSql m d fuel root kind agg rc).
Proof.
  intros Hw Hf. unfold selectSql. pose proof (joins_lt_query root) as Hj.
  destruct (ready_parts _ (wf_ready _ Hw)) as (_ & _ & Hwh & _).
  apply runs_bind. { unfold selectHead. runs_t. by apply runs_selectList. }
  intros. apply runs_bind. { runs_t. apply runsR_rowNumber; [done|lia]. }
  intros. apply runs_bind; [runs_t|]. intros. apply runs_bind; [apply (en_joins _ (enough_fuel fuel)); simpl; [done|lia]|].
  intros. apply runs_bind; [runs_t|]. intros. apply runs_bind.
  { destruct (noItems _); [runs_t|]. apply runs_bind; [runs_t|]. intros g t1 t2 [Hpg _]%liftM_ok. ok_inv.
    apply runs_bind; [|intros; runs_t]. apply (en_group _ (enough_fuel fuel)); simpl; [done|by apply Hwh|].
    rewrite Hpg in Hj. simpl in Hj. lia. }
  intros. apply runs_bind; [apply (en_collect _ (enough_fuel fuel)); simpl; [done|lia]|]. intros.
  apply runs_bind; [apply runs_selectTail; [done|lia]|]. intros. runs_t.
Qed.

(** ** Steps *)

Lemma wf_extra s extra : wfScope s -> wfScope (withExtra s extra).
Proof. intros []. by constructor. Qed.

Lemma selectRoot_wf q rc root : readyQuery q = true -> selectRoot m q rc = Ok root -> wfScope root /\ sc_q root = q.
Proof.
  intros Hq H. unfold selectRoot in H. ok_inv.
  match goal with H : buildScopes _ _ _ _ = Ok ?r |- _ => pose proof (buildScopes_wf _ _ _ _ _ Hq H); apply buildScopes_q in H end.
  destruct rc; [|done]. split; [by apply wf_extra|done].
Qed.

Lemma runs_build {A} (c : M Builder A) : runs c -> runsR (build c).
Proof. intros Hc. apply Hc. Qed.

Lemma runs_addSelect fuel q kind agg rc :
  readyQuery q = true -> (2 * query_size q <= fuel)%nat -> runs (addSelect m d fuel q kind agg rc).
Proof.
  intros Hq Hf. unfold addSelect. apply runs_bind; [apply runs_lift; unfold selectRoot; runs_t|].
  intros root s1 s2 [Hr _]%liftM_ok. destruct (selectRoot_wf _ _ _ Hq Hr) as [Hw Eq].
  apply runs_bind; [apply runs_lift, runs_build, runs_selectSql; [done|by rewrite Eq]|]. intros [[sql asm] b] ? ? _.
  apply runs_bind; [runs_t|]. intros. apply runs_bind; [unfold parentOf; runs_t|]. intros. apply runs_bind; [by intros ?|].
  intros. runs_t.
Qed.

Lemma addSelect_root fuel q kind agg rc step root s1 s2 :
  readyQuery q = true -> addSelect m d fuel q kind agg rc s1 = Ok ((step, root), s2) -> wfScope root /\ sc_q root = q.
Proof. intros Hq (sql & asm & b & parent & Hr & _)%addSelect_inv. by eapply selectRoot_wf. Qed.

Lemma runs_steps fuel :
  (forall q kind agg rc, readyQuery q = true -> (2 * query_size q + 3 <= fuel)%nat -> runs (selectStep m d fuel q kind agg rc)) /\
  (forall s asm id, wfScope s -> (2 * query_size (sc_q s) + 2 <= fuel)%nat -> runs (relationSteps m d fuel s asm id)).
Proof.
  induction fuel as [|fuel [IHs IHr]]; [split; intros; lia|]. split.
  - intros q kind agg rc Hq Hf. cbn [selectStep]. apply runs_bind; [apply runs_addSelect; [done|lia]|].
    intros [step root] s1 s2 Ha. destruct (addSelect_root _ _ _ _ _ _ _ _ _ Hq Ha) as [Hw Eq].
    destruct (st_assemble step); [|runs_t]. apply runs_bind; [apply IHr; [done|rewrite Eq; lia]|]. intros.
    apply runs_bind; [unfold setAssemble; runs_t|]. intros. runs_t.
  - intros s asm id Hw Hf. cbn [relationSteps]. destruct (ready_parts _ (wf_ready _ Hw)) as (_ & _ & _ & _ & _ & Hr).
    apply runs_bind.
    { apply runs_foldS. intros acc r Hin. apply runs_bind; [unfold relationContext; runs_t|]. intros.
      apply runs_bind; [runs_t|]. intros. apply runs_bind.
      { apply IHs; [by apply Hr|]. pose proof (query_size_parts (sc_q s)). apply (list_size_in relation_size) in Hin.
        destruct r. simpl in *. lia. }
      intros. unfold relationChild. runs_t. }
    intros. apply runs_foldS. intros acc j Hin. apply runs_bind; [runs_t|]. intros js ? ? [Hjs _]%liftM_ok.
    destruct (joinScope_wf _ _ _ Hw Hjs) as [Hwj Hlt]. pose proof (joins_lt_query s). apply runs_bind; [|intros; runs_t].
    apply runs_mapS. intros ch _. destruct (_ && _); [|runs_t]. apply runs_bind; [runs_t|]. intros.
    apply runs_bind; [|intros; runs_t]. apply IHr; [done|lia].
Qed.

(** ** Writes *)

Lemma runs_renderAssign ent c a : runs (renderAssign d ent c a).
Proof. unfold renderAssign. runs_t. Qed.
Lemma runs_auditAssignment ent : runs (auditAssignment d ent).
Proof. unfold auditAssignment. runs_t. Qed.
Lemma runs_versionValue ent : runs (versionValue d ent).
Proof. unfold versionValue. runs_t. Qed.
Lemma runs_dbclock c : runs (clock d c).
Proof. unfold clock. runs_t. Qed.
Hint Resolve runs_renderAssign runs_auditAssignment runs_versionValue runs_dbclock : runs.
Lemma runs_versionAssignment ent set : runs (versionAssignment d ent set).
Proof. unfold versionAssignment. runs_t. Qed.
Lemma runs_setPart ent a : runs (setPart d ent a).
Proof. unfold setPart. runs_t. Qed.
Lemma runsR_validateAES ent set b : runsR (validateAESAssignments ent set b).
Proof. unfold validateAESAssignments. runs_t. Qed.
Lemma runsR_required ent set b : runsR (validateRequiredAssignments ent set b).
Proof. unfold validateRequiredAssignments. runs_t. Qed.
Lemma runsR_addBlind ent set : runsR (addBlindIndexAssignments ent set).
Proof. unfold addBlindIndexAssignments, blindStep. runs_t. Qed.
Lemma runsR_conflictKey ent set : runsR (conflictKey ent set).
Proof. unfold conflictKey. runs_t. Qed.
Lemma runsR_restoreKey ent r : runsR (restoreKey ent r).
Proof. unfold restoreKey, namedUniques, restoreSplit. runs_t. Qed.
Lemma runsR_returning ent : runsR (insertReturning d assigns ent).
Proof. unfold insertReturning. runs_t. Qed.
Hint Resolve runs_versionAssignment runs_setPart runsR_validateAES runsR_required runsR_addBlind runsR_conflictKey
  runsR_restoreKey runsR_returning : runs.

Lemma runs_managed ent set c : c ∈ managedInsertColumns d ent set -> runs (snd c).
Proof.
  unfold managedInsertColumns. rewrite !elem_of_app. intros [Hc|[Hc|Hc]].
  - destruct (_ && _); [|by apply elem_of_nil in Hc]. apply list_elem_of_singleton in Hc as ->. simpl. runs_t.
  - case_decide; [by apply elem_of_nil in Hc|]. apply list_elem_of_singleton in Hc as ->. simpl. runs_t.
  - destruct (d_hostNow d); [|by apply elem_of_nil in Hc]. apply list_elem_of_fmap in Hc as (f & -> & _). simpl. runs_t.
Qed.

Lemma runs_insertSql r : runs (insertSql m d assigns r).
Proof.
  unfold insertSql. apply runs_bind; [runs_t|]. intros ent ? ? _. apply runs_bind; [runs_t|]. intros [set sources] ? ? _.
  assert (runs (mapS (fun c => snd c) (managedInsertColumns d ent set))) by (apply runs_mapS; intros; by eapply runs_managed).
  unfold insertValue, insertRow, insertUpsert. runs_t.
Qed.

Lemma runs_writeWhere fuel root r :
  wfScope root -> sc_q root = rq_query r -> (2 * query_size (rq_query r) <= fuel)%nat -> runs (writeWhere m d fuel root r).
Proof.
  intros Hw Eq Hf. unfold writeWhere. apply runs_bind; [runs_t|]. intros g s1 s2 [Hg _]%liftM_ok. ok_inv.
  destruct (ready_parts _ (wf_ready _ Hw)) as (_ & _ & Hwh & _). rewrite Eq in Hwh.
  apply (en_group _ (enough_fuel fuel)); simpl; [done|by apply Hwh|].
  pose proof (joins_lt_query root) as Hj. rewrite Eq, Hg in Hj. simpl in Hj. lia.
Qed.

Section write.
Variables (fuel : nat) (r : Request).
Hypotheses (Hq : readyQuery (rq_query r) = true) (Hf : (2 * query_size (rq_query r) + 8 <= fuel)%nat).

Lemma write_root alias root : buildScopes m (rq_query r) alias false = Ok root ->
  wfScope root /\ sc_q root = rq_query r /\ runs (writeWhere m d fuel root r).
Proof.
  intros H. pose proof (buildScopes_wf _ _ _ _ _ Hq H). apply buildScopes_q in H. split_and!; [done..|].
  apply runs_writeWhere; [done..|lia].
Qed.

Lemma runs_updateSql : runs (updateSql m d fuel r).
Proof.
  unfold updateSql. apply runs_bind; [runs_t|]. intros. apply runs_bind; [runs_t|]. intros. apply runs_bind; [runs_t|]. intros.
  apply runs_bind; [runs_t|]. intros root ? ? [Hr _]%liftM_ok. destruct (write_root _ _ Hr) as (_ & _ & Hw). runs_t.
Qed.

Lemma runs_deleteSql : runs (deleteSql m d fuel r).
Proof.
  unfold deleteSql. apply runs_bind; [runs_t|]. intros. apply runs_bind; [runs_t|].
  intros root ? ? [Hr _]%liftM_ok. destruct (write_root _ _ Hr) as (_ & _ & Hw). runs_t.
Qed.

(** The items that a restore adds to its where are comparisons of one column. *)
Lemma restore_items ent parts it :
  restoreKey ent r = Ok parts -> it ∈ g_items (rp_where parts) ->
  (exists g, q_where (rq_query r) = Some g /\ it ∈ g_items g) \/ (readyItem it = true /\ item_size it = 2%nat).
Proof.
  unfold restoreKey. intros H. ok_inv. simpl. intros Hin.
  match goal with H : foldR _ _ _ = Ok ?p |- _ => revert H Hin; generalize p end. intros p Hfold.
  assert (forall it, it ∈ fst p -> it ∈ match q_where (rq_query r) with Some g => g_items g | None => [] end \/
    (readyItem it = true /\ item_size it = 2%nat)) as Hall.
  { revert Hfold. apply (foldR_inv (fun p => forall it, it ∈ fst p -> it ∈ match q_where (rq_query r) with Some g => g_items g | None => [] end \/
      (readyItem it = true /\ item_size it = 2%nat))); [|by left].
    intros [w set] a [w' set'] _ Hacc Hs. unfold restoreSplit in Hs. simpl in *. destruct (a_p a); [|ok_inv; done].
    destruct (includes _ _); ok_inv; [|done]. intros i [Hi|Hi]%elem_of_app; [by apply Hacc|].
    apply list_elem_of_singleton in Hi as ->. by right. }
  intros Hin%Hall. destruct Hin as [Hin|Hin]; [left|by right]. destruct (q_where (rq_query r)); [eauto|by apply elem_of_nil in Hin].
Qed.

Lemma runs_restoreSql : runs (restoreSql m d fuel r).
Proof.
  unfold restoreSql. apply runs_bind; [runs_t|]. intros ent ? ? _. apply runs_bind; [runs_t|]. intros parts ? ? [Hk _]%liftM_ok.
  apply runs_bind; [runs_t|]. intros. apply runs_bind; [runs_t|]. intros. apply runs_bind; [runs_t|].
  intros root ? ? [Hr _]%liftM_ok. destruct (write_root _ _ Hr) as (Hw & Eq & _).
  assert (runs (renderGroup m d fuel (rootOf root None) (rp_where parts) true)); [|runs_t].
  destruct fuel as [|f]; [lia|]. apply runs_group_items; [apply enough_fuel|done|]. simpl. intros it Hin.
  pose proof (joins_lt_query root) as Hj. rewrite Eq in Hj.
  destruct (restore_items _ _ _ Hk Hin) as [(g & Hg & Hi)|[Hri Hsz]].
  - destruct (ready_parts _ Hq) as (_ & _ & Hwh & _). split; [by eapply ready_item; [apply Hwh|]|].
    apply size_item in Hi. rewrite Hg in Hj. simpl in Hj. lia.
  - split; [done|]. lia.
Qed.
End write.

Lemma runs_restartIdentity r : runs (restartIdentitySql m d r).
Proof. unfold restartIdentitySql. runs_t. Qed.

Lemma runs_writeStep c : runs c -> runs (writeStep c).
Proof.
  intros Hc. unfold writeStep. apply runs_bind; [by apply runs_lift, runs_build|]. intros [sql b] ? ? _.
  apply runs_bind; [by intros ?|]. intros. runs_t.
Qed.

Lemma runs_compileSteps r : readyQuery (rq_query r) = true -> runs (compileSteps m d assigns r).
Proof.
  intros Hq. unfold compileSteps, planFuel. remember (2 * query_size (rq_query r) + 8)%nat as fuel eqn:Ef.
  destruct (runs_steps fuel) as [Hs Hr].
  destruct (includes _ _). { apply runs_bind; [apply Hs; [done|lia]|]. intros. runs_t. }
  case_decide.
  { unfold paginateSteps. apply runs_bind; [apply runs_addSelect; [done|lia]|]. intros [step root] s1 s2 Ha.
    destruct (addSelect_root _ _ _ _ _ _ _ _ _ Hq Ha) as [Hw Eq]. apply runs_bind; [apply Hs; [done|lia]|]. intros.
    apply runs_bind; [runs_t|]. intros. apply runs_bind; [apply Hr; [done|rewrite Eq; lia]|]. intros. unfold setAssemble. runs_t. }
  case_decide; [apply runs_writeStep, runs_insertSql|].
  case_decide; [apply runs_writeStep, runs_updateSql; [done|lia]|].
  case_decide; [apply runs_writeStep, runs_deleteSql; [done|lia]|].
  case_decide; [apply runs_writeStep, runs_restoreSql; [done|lia]|].
  case_decide; [apply runs_writeStep, runs_restartIdentity|]. runs_t.
Qed.

Lemma compile_runs r : readyQuery (rq_query r) = true -> compile m d assigns r <> Err OutOfFuel.
Proof.
  intros Hq. pose proof (runs_compileSteps r Hq []) as H. unfold compile.
  destruct (compileSteps m d assigns r []) as [[u steps]|e]; [done|]. congruence.
Qed.
End Fuel.
