(* ===== verification/EngineFacts.v ===== *)
(** * Theorems about the engine

    What validation gives the planner, and what holds of every plan that an
    engine compiles. *)

From S2P Require Import Prelude Ir Meet Dialect Lex DialectFacts Model Params Validate Planner PlannerFacts PlannerBinds PlannerFuel.

(** ** The validator itself returns *)

Section ValidatorRuns.
Variables (m : RuntimeModel) (n : Z).

Lemma runsR_type {A} : runsR (@Err A JsTypeError).
Proof. done. Qed.
Hint Resolve runsR_type : runs.

Lemma runsR_v_param i : runsR (v_param n i).
Proof. apply runsR_fail_if. Qed.
Hint Resolve runsR_v_param : runs.
Lemma runsR_v_params ps : runsR (v_params n ps).
Proof. unfold v_params. runs_t. Qed.
Lemma runsR_v_entity name : runsR (v_entity m name).
Proof. apply runsR_or_fail. Qed.
Hint Resolve runsR_v_params runsR_v_entity : runs.
Lemma runsR_v_ref s p c : runsR (v_ref s p c).
Proof. unfold v_ref. runs_t. Qed.
Lemma runsR_v_columnFunction ent c f : runsR (v_columnFunction n ent c f).
Proof. unfold v_columnFunction. runs_t. Qed.
Hint Resolve runsR_v_ref runsR_v_columnFunction : runs.
Lemma runsR_v_functionOperand ent c p : runsR (v_functionOperand ent c p).
Proof. unfold v_functionOperand. runs_t. Qed.
Lemma runsR_v_valueFunction ent c x p v : runsR (v_valueFunction n ent c x p v).
Proof. unfold v_valueFunction. runs_t. Qed.
Lemma runsR_v_tuple ent op p : runsR (v_tuple ent op p).
Proof. unfold v_tuple. runs_t. Qed.
Lemma runsR_v_fulltext ent op p : runsR (v_fulltext ent op p).
Proof. unfold v_fulltext. runs_t. Qed.
Lemma runsR_v_plain s ent c p : runsR (v_plain s ent c p).
Proof. unfold v_plain. runs_t. Qed.
Lemma runsR_v_subHead s b : runsR (v_subHead m s b).
Proof. unfold v_subHead. runs_t. Qed.
Lemma runsR_v_conn i it : runsR (v_conn i it).
Proof. unfold v_conn, itemOnly. runs_t. Qed.
Lemma runsR_v_joinHead ent joined j : runsR (v_joinHead m ent joined j).
Proof. unfold v_joinHead. runs_t. Qed.
Lemma runsR_v_relationHead ent q names r : runsR (v_relationHead m ent q names r).
Proof. unfold v_relationHead, v_keyPair. runs_t. Qed.
Lemma runsR_v_queryTail a b c ent q : runsR (v_queryTail n a b c ent q).
Proof. unfold v_queryTail, v_order, v_limit. runs_t. Qed.
Lemma runsR_v_columnsHead ent q c : runsR (v_columnsHead n ent q c).
Proof. unfold v_columnsHead, v_output. runs_t. Qed.
Lemma runsR_v_groupsHead b q : runsR (v_groupsHead b q).
Proof. unfold v_groupsHead. runs_t. Qed.
Lemma runsR_v_joinedItem j r : runsR (v_joinedItem j r).
Proof. unfold v_joinedItem. runs_t. Qed.
Lemma runsR_v_output ent q l o : runsR (v_output ent q l o).
Proof. unfold v_output. runs_t. Qed.
Hint Resolve runsR_v_functionOperand runsR_v_valueFunction runsR_v_tuple runsR_v_fulltext runsR_v_plain runsR_v_subHead
  runsR_v_conn runsR_v_joinHead runsR_v_relationHead runsR_v_queryTail runsR_v_columnsHead runsR_v_groupsHead
  runsR_v_joinedItem runsR_v_output : runs.

Lemma runsR_joinedRefs g : forall seen, runsR (joinedRefs g seen).
Proof.
  revert g. refine (proj1 (proj2 (proj2 (request_mut_ind (fun _ => True) (fun _ => True) (fun g => forall seen, runsR (joinedRefs g seen))
    (fun i => forall seen, runsR (match i_group i with Some g => joinedRefs g seen | None => Ok seen end))
    (fun _ => True) (fun _ => True) (fun _ => True) (fun _ => True) _ _ _ _ _ _ _ _)))); try (intros; exact I).
  - intros [] IH seen. simpl in *. runs_t.
  - intros [] _ IH seen. simpl in *. destruct i_group; [|done]. by apply IH.
Qed.
Hint Resolve runsR_joinedRefs : runs.

Lemma runsR_v_walk :
  (forall q s a b c, runsR (v_query m n q s a b c)) /\ (forall c ent q s, runsR (v_columns m n c ent q s)) /\
  (forall g s j, runsR (v_group m n g s j)) /\ (forall i s j, runsR (v_item m n i s j)) /\
  (forall p s, runsR (v_pred m n p s)) /\ (forall s b o, runsR (v_sub m n s b o)) /\
  (forall r, runsR (v_relation m n r)) /\ (forall j s, runsR (v_join m n j s)).
Proof.
  apply request_mut_ind.
  - intros [] HC HO HW HJ HR s a b c. simpl in *. runs_t; eauto.
  - intros [] H ent q s. simpl in *. runs_t. eapply (H _ x); [done|done].
  - intros [] H s j. simpl in *. generalize 0%nat. induction g_items as [|it l IH]; intros k; simpl; [done|].
    apply runsR_bind; [runs_t; apply H; left|]. intros. apply IH. intros. apply H. by right.
  - intros [] HP HG s j. simpl in *. runs_t; eauto.
  - intros [] H s. simpl in *. runs_t.
  - intros [] H b o. simpl in *. runs_t.
  - intros [] H. simpl in *. apply H.
  - intros [] H s. simpl in *. runs_t.
Qed.
End ValidatorRuns.

Lemma runsR_v_assign n ent r a : runsR (v_assign n ent r a).
Proof. unfold v_assign, v_param. runs_t. Qed.
#[export] Hint Resolve runsR_v_assign runsR_v_entity runsR_v_param runsR_v_params runsR_conflictKey runsR_restoreKey : runs.

Lemma runsR_validate m r : runsR (validate m r).
Proof.
  unfold validate, v_head, v_set, v_rows, v_onDuplicate. runs_t. apply runsR_v_walk.
Qed.

(** ** What validation gives the planner *)

Section ValidatorReady.
Variables (m : RuntimeModel) (n : Z).

Lemma v_joinHead_new ent joined j : v_joinHead m ent joined j = Ok tt -> assoc (j_rel j) joined = None.
Proof.
  unfold v_joinHead. intros H. ok_inv. match goal with H : _ || given _ = false |- _ => apply orb_false_iff in H as [_ H] end.
  unfold given in *. destruct (assoc (j_rel j) joined); [|done].
  match goal with H : bool_decide _ = false |- _ => apply bool_decide_eq_false in H; destruct H; eauto end.
Qed.

Lemma v_joins_nodup ent (f : Join -> res unit) js joined joined' :
  foldR (fun joined j => v_joinHead m ent joined j;; f j;; Ok (assoc_set (j_rel j) j joined)) joined js = Ok joined' ->
  NoDup (map j_rel js) /\ (forall j, j ∈ js -> assoc (j_rel j) joined = None /\ f j = Ok tt).
Proof.
  revert joined. induction js as [|j js IH]; simpl; intros joined H; [split; [constructor|intros ? []%elem_of_nil]|].
  ok_inv. apply v_joinHead_new in H. destruct (IH _ H0) as [Hnd Hall]. split.
  - constructor; [|done]. intros (j' & E & Hin)%list_elem_of_fmap. destruct (Hall j' Hin) as [Hn _].
    rewrite assoc_set_lookup, <- E, decide_True in Hn by done. done.
  - intros j' [->|Hin]%elem_of_cons; [done|]. destruct (Hall j' Hin) as [Hn Hf]. split; [|done].
    rewrite assoc_set_lookup in Hn. by case_decide.
Qed.

Lemma forallb_elem {A} (f : A -> bool) l : (forall x, x ∈ l -> f x = true) -> forallb f l = true.
Proof. intros H. apply forallb_forall. intros x Hx%list_elem_of_In. auto. Qed.

Lemma foldR_each {A B} (f : B -> A -> res B) (g : A -> Prop) l b b' :
  (forall b x y, f b x = Ok y -> g x) -> foldR f b l = Ok b' -> forall x, x ∈ l -> g x.
Proof.
  intros Hf. revert b. induction l as [|x l IH]; simpl; intros b H y Hy; [by apply elem_of_nil in Hy|]. ok_inv.
  apply elem_of_cons in Hy as [->|Hy]; [by eapply Hf|by eapply IH].
Qed.

Lemma v_tuple_ready ent op p : v_tuple ent op p = Ok tt -> readyTuple p = true.
Proof.
  unfold v_tuple, readyTuple. intros H. ok_inv. destruct (default [] (p_cols p)); [done|]. by destruct (default [] (p_ps p)).
Qed.

Lemma v_conn_joined i it j : v_conn i it = Ok tt -> i_joined it = Some j -> readyItem it = true.
Proof.
  unfold v_conn, itemOnly. destruct it as [[p|] [g|] [j'|]]; simpl; intros H [= ->]; ok_inv; done.
Qed.

Lemma validated_ready :
  (forall q s a b c, v_query m n q s a b c = Ok tt -> readyQuery q = true) /\
  (forall c ent q s, v_columns m n c ent q s = Ok tt -> readyColumns c = true) /\
  (forall g s j, v_group m n g s j = Ok tt -> readyGroup g = true) /\
  (forall i s j k, v_conn k i = Ok tt -> v_item m n i s j = Ok tt -> readyItem i = true) /\
  (forall p s, v_pred m n p s = Ok tt -> readyPred p = true) /\
  (forall s b o, v_sub m n s b o = Ok tt -> readySub s = true) /\
  (forall r, v_relation m n r = Ok tt -> readyRelation r = true) /\
  (forall j s, v_join m n j s = Ok tt -> readyJoin j = true).
Proof.
  apply request_mut_ind.
  - intros [] HC HO HW HJ HR s a b c H. simpl in *. ok_inv. rewrite !andb_true_iff. split_and!.
    + destruct q_columns; [by eapply HC|done].
    + destruct q_on; [by eapply HO|done].
    + destruct q_where; [|done]. ok_inv. by eapply HW.
    + destruct q_joins as [js|]; [|done].
      match goal with H : foldR _ _ js = _ |- _ => apply (v_joins_nodup _ (fun j => v_join m n j s)) in H as [Hnd Hall] end.
      apply andb_true_iff. split; [by apply bool_decide_eq_true|]. apply forallb_elem. intros j Hin.
      eapply HJ; [done..|]. by apply Hall.
    + destruct q_relations as [rs|]; [|done]. ok_inv. apply forallb_elem. intros r Hin. eapply HR; [done..|].
      match goal with H : foldR _ _ rs = _ |- _ => revert H end. intros H'.
      eapply (foldR_each _ (fun r => v_relation m n r = Ok tt)) in H'; [exact H'| |exact Hin].
      intros ? ? ? Hs. ok_inv. done.
  - intros [] H ent q s Hv. simpl in *. ok_inv. destruct c_sub as [subs|]; [|done]. ok_inv. apply forallb_elem. intros e Hin.
    eapply H; [done..|].
    match goal with H : foldR _ _ subs = _ |- _ => revert H end. intros H'.
    eapply (foldR_each _ (fun e => v_sub m n (snd e) true s = Ok tt)) in H'; [exact H'| |exact Hin].
    intros ? ? ? Hs. ok_inv. done.
  - intros [] H s j Hv. simpl in *. revert Hv. generalize 0%nat. induction g_items as [|it l IH]; intros k Hv; simpl in *; [done|].
    ok_inv. apply andb_true_iff. split; [eapply H; [left|done..]|]. eapply IH; [|done]. intros. eapply H; [by right|done..].
  - intros it HP HG s j k Hc Hv. destruct it as [p g jr]. simpl in *.
    destruct jr as [jr|]; [by eapply (v_conn_joined k (mkItem p g (Some jr)) jr)|].
    destruct p; [by eapply HP|]. destruct g; [|done]. ok_inv. by eapply HG.
  - intros [] H s Hv. simpl in *. ok_inv.
    destruct (includes _ _); [by eapply v_tuple_ready|]. destruct (includes _ _); [done|]. ok_inv.
    destruct p_sub; [|done]. ok_inv. by eapply H.
  - intros [] H b o Hv. simpl in *. ok_inv. by eapply H.
  - intros [] H Hv. simpl in *. by eapply H.
  - intros [] H s Hv. simpl in *. ok_inv. by eapply H.
Qed.
End ValidatorReady.

Lemma validate_ready m r : validate m r = Ok tt -> readyQuery (rq_query r) = true.
Proof.
  unfold validate. intros (? & _ & (u & Hq & _)%bindR_ok)%bindR_ok. destruct u. by eapply (proj1 (validated_ready _ _)).
Qed.

(** ** Theorems *)

Lemma dialectOf_safe name d : dialectOf name = Some d -> SafeDialect d.
Proof. unfold dialectOf. repeat case_decide; intros [= <-]; typeclasses eauto. Qed.

Lemma dialectOf_total name d : dialectOf name = Some d -> TotalDialect d.
Proof. unfold dialectOf. repeat case_decide; intros [= <-]; typeclasses eauto. Qed.

Lemma newEngine_dialect model dialect assigns e :
  newEngine model dialect assigns = Ok e -> dialectOf dialect = Some (en_dialect e).
Proof. unfold newEngine. destruct (dialectOf dialect); [|done]. by intros [= <-]. Qed.

(** C2: An engine of one of the three dialects returns a plan or an error for every
    request: no recursion of validation or planning goes on without end. *)
Theorem engine_compile_terminates model dialect assigns e r :
  newEngine model dialect assigns = Ok e -> engineCompile e r <> Err OutOfFuel.
Proof.
  intros Ht%newEngine_dialect%dialectOf_total. unfold engineCompile.
  apply runsR_bind; [apply runsR_validate|]. intros [] Hv. apply compile_runs; [done|]. by eapply validate_ready.
Qed.
