(* ===== verification/PlannerSteps.v ===== *)
(** * The steps of a plan

    The id of a step is its position, a step comes after the step it binds its
    rows to, and every relation that an assemble attaches names the step that
    loads it. *)

From S2P Require Import Prelude Ir Meet Dialect Lex Model Params Validate Planner PlannerFacts.

(** The relation steps that an assemble attaches, through its joins. *)
Fixpoint asmTargets (a : Assemble) : list nat :=
  concat (map (fun c => match ch_assemble c with Some a => asmTargets a | None => [ch_step c] end) (as_children a)).

Definition parentStep (st : PlanStep) : option nat := pr_step <$> st_parent st.

(** What the step at position [k] says of the steps. *)
Record stepWf (steps : list PlanStep) (k : nat) (st : PlanStep) : Prop := {
  sw_id : st_id st = k;
  sw_parent p : parentStep st = Some p -> (p < k)%nat;
  sw_targets asm j : st_assemble st = Some asm -> j ∈ asmTargets asm ->
    (k < j)%nat /\ exists st', steps !! j = Some st' /\ parentStep st' = Some k /\ st_role st' = "relation" }.

Definition stepsWf (steps : list PlanStep) : Prop := forall k st, steps !! k = Some st -> stepWf steps k st.

(** The steps of [steps'] after those of [steps] are relation steps, and those keep
    their parent and role. *)
Record grown (steps steps' : list PlanStep) : Prop := {
  gr_keep k st : steps !! k = Some st ->
    exists st', steps' !! k = Some st' /\ st_parent st' = st_parent st /\ st_role st' = st_role st;
  gr_new k st : (length steps <= k)%nat -> steps' !! k = Some st -> st_role st = "relation" }.

Lemma grown_length steps steps' : grown steps steps' -> (length steps <= length steps')%nat.
Proof.
  intros [Hk _]. destruct (decide (length steps = 0%nat)) as [->|Hne]; [lia|].
  destruct (lookup_lt_is_Some_2 steps (length steps - 1)) as [st Hst]; [lia|].
  destruct (Hk _ _ Hst) as (st' & H' & _). apply lookup_lt_Some in H'. lia.
Qed.

Lemma grown_refl steps : grown steps steps.
Proof. split; [eauto|]. intros k st Hk H%lookup_lt_Some. lia. Qed.

Lemma grown_trans a b c : grown a b -> grown b c -> grown a c.
Proof.
  intros Hab Hbc. pose proof (grown_length _ _ Hab). destruct Hab as [K1 N1], Hbc as [K2 N2]. split.
  - intros k st H1. destruct (K1 _ _ H1) as (st1 & H2 & E1 & R1). destruct (K2 _ _ H2) as (st2 & H3 & E2 & R2).
    exists st2. split_and!; congruence.
  - intros k st Hk Hc. destruct (decide (length b <= k)%nat) as [|Hb]; [by eapply N2|].
    destruct (lookup_lt_is_Some_2 b k) as [st1 H1]; [lia|]. destruct (K2 _ _ H1) as (st2 & H2 & _ & R).
    rewrite Hc in H2. injection H2 as ->. rewrite R. by eapply N1.
Qed.

(** The targets of an assemble that belongs to step [k]. *)
Definition targetsOk (steps : list PlanStep) (k : nat) (asm : Assemble) : Prop :=
  forall j, j ∈ asmTargets asm ->
    (k < j)%nat /\ exists st', steps !! j = Some st' /\ parentStep st' = Some k /\ st_role st' = "relation".

Lemma targetsOk_grown steps steps' k asm : grown steps steps' -> targetsOk steps k asm -> targetsOk steps' k asm.
Proof.
  intros [Hk _] Ht j Hj. destruct (Ht j Hj) as (Hlt & st & Hs & Hp & Hr). split; [done|].
  destruct (Hk _ _ Hs) as (st' & Hs' & Ep & Er). exists st'. unfold parentStep in *. by rewrite Ep, Er.
Qed.

Lemma targetsOk_nil steps k asm : asmTargets asm = [] -> targetsOk steps k asm.
Proof. intros E j. rewrite E. intros []%elem_of_nil. Qed.

Lemma addStep_wf steps st :
  stepsWf steps -> st_id st = length steps -> (forall p, parentStep st = Some p -> (p < length steps)%nat) ->
  (forall asm, st_assemble st = Some asm -> asmTargets asm = []) -> stepsWf (steps ++ [st]).
Proof.
  intros Hs Hid Hp Ha k x Hk. destruct (decide (k < length steps)%nat) as [Hlt|Hge].
  - rewrite lookup_app_l in Hk by done. destruct (Hs _ _ Hk) as [Hi Hpa Ht]. split; [done|done|].
    intros asm j E Hj. destruct (Ht asm j E Hj) as (? & st' & Hl & ?). split; [done|]. exists st'. split; [|done].
    by apply lookup_app_l_Some.
  - rewrite lookup_app_r in Hk by lia. destruct (k - length steps)%nat as [|i] eqn:Ek; [|by destruct i].
    simpl in Hk. injection Hk as <-. assert (k = length steps) as -> by lia. split; [done|auto|].
    intros asm j E. rewrite (Ha _ E). intros []%elem_of_nil.
Qed.

Lemma addStep_grown steps st : st_role st = "relation" -> grown steps (steps ++ [st]).
Proof.
  intros Hr. split.
  - intros k x Hk. exists x. split; [by apply lookup_app_l_Some|done].
  - intros k x Hk H. rewrite lookup_app_r in H by done. destruct (k - length steps)%nat as [|[]]; simpl in H; [|done..].
    by injection H as <-.
Qed.

(** The assemble of a step is replaced by one whose targets are known. *)
Lemma setAssemble_wf id asm steps u steps' :
  setAssemble id asm steps = Ok (u, steps') -> stepsWf steps -> targetsOk steps id asm ->
  stepsWf steps' /\ grown steps steps' /\ length steps' = length steps.
Proof.
  intros [= <- <-] Hs Ht. set (f := fun s => _).
  assert (forall k st, steps !! k = Some st -> exists st', alter f id steps !! k = Some st' /\ st_parent st' = st_parent st /\ st_role st' = st_role st) as Hkeep.
  { intros k st Hk. destruct (decide (k = id)) as [->|Hne].
    - exists (f st). by rewrite list_lookup_alter_eq, Hk.
    - exists st. by rewrite list_lookup_alter_ne by done. }
  split_and!; [|split; [done|]|by rewrite length_alter].
  - intros k x Hk. assert (exists st, steps !! k = Some st /\ st_id x = st_id st /\ st_parent x = st_parent st /\
      (st_assemble x = st_assemble st \/ (k = id /\ st_assemble x = Some asm))) as (st & Hst & Ei & Ep & Ea).
    { destruct (decide (k = id)) as [->|Hne].
      - rewrite list_lookup_alter_eq in Hk. destruct (steps !! id) as [st|]; [|done]. injection Hk as <-.
        exists st. split_and!; [done..|]. by right.
      - rewrite list_lookup_alter_ne in Hk by done. exists x. split_and!; [done..|]. by left. }
    destruct (Hs _ _ Hst) as [Hi Hpa Hta]. split; [congruence|unfold parentStep in *; rewrite Ep; done|].
    intros a j E Hj. assert ((k < j)%nat /\ exists st', steps !! j = Some st' /\ parentStep st' = Some k /\ st_role st' = "relation") as (Hlt & st' & Hl & Hp' & Hr').
    { destruct Ea as [Ea|[-> Ea]]; [rewrite Ea in E; by eapply Hta|]. rewrite Ea in E. injection E as ->. by apply Ht. }
    split; [done|]. destruct (Hkeep _ _ Hl) as (st2 & ? & Ep2 & Er2). exists st2. unfold parentStep in *. by rewrite Ep2, Er2.
  - intros k x Hk H%lookup_lt_Some. rewrite length_alter in H. lia.
Qed.

Section Steps.
Variables (m : RuntimeModel) (d : Dialect) (assigns : bool).

(** The assemble of a select list attaches no relation yet. *)
Lemma selectList_targets fuel s idx names b sel b' :
  selectList m d fuel s idx names b = Ok (sel, b') -> asmTargets (se_asm sel) = [].
Proof.
  revert s idx names b sel b'. induction fuel as [|fuel IH]; intros s idx names b sel b' H; [done|].
  apply selectList_inv in H as (cols & acc & b1 & acc' & version & sql & children & idx' & names' & key & _ & _ & _ & Hj & _ & ->).
  simpl. revert Hj. apply (foldS_inv (fun r _ => concat (map (fun c => match ch_assemble c with Some a => asmTargets a | None => [ch_step c] end) (r.1.1.2)) = [])); [|done].
  intros [[[sql0 ch0] i0] o0] j t [[[sql1 ch1] i1] o1] t' _ Hs Hf. unfold selectJoin in Hf. simpl in *. ok_inv.
  rewrite map_app, concat_app, Hs. simpl. erewrite IH by eassumption. done.
Qed.

Lemma selectSql_targets fuel root kind agg rc b sql asm b' :
  selectSql m d fuel root kind agg rc b = Ok ((sql, asm), b') -> asmTargets asm = [].
Proof.
  intros H. unfold selectSql in H. ok_inv.
  match goal with H : selectHead _ _ _ _ _ _ _ _ = _ |- _ => unfold selectHead in H; rename H into Hh end.
  repeat (case_decide; [ok_inv; try done|]).
  - unfold selectGroupCountList in *. ok_inv. done.
  - by eapply selectList_targets.
Qed.

Lemma addSelect_wf fuel q kind agg rc steps step root steps' :
  addSelect m d fuel q kind agg rc steps = Ok ((step, root), steps') -> stepsWf steps ->
  (forall c, rc = Some c -> (rc_parentStep c < length steps)%nat) ->
  stepsWf steps' /\ steps' = steps ++ [step] /\ st_id step = length steps /\ st_role step = selectRole kind rc steps /\
  (forall asm, st_assemble step = Some asm -> asmTargets asm = []) /\
  (kind <> "count" -> parentStep step = rc_parentStep <$> rc).
Proof.
  intros (sql & asm & b & parent & Hr & Hb & Hp & -> & ->)%addSelect_inv Hs Hc. apply selectSql_targets in Hb as Ht.
  assert (forall p, pr_step <$> parent = Some p -> exists c, rc = Some c /\ p = rc_parentStep c) as Hpar.
  { intros p E. destruct rc as [c|]; [|by rewrite Hp in E]. exists c. split; [done|].
    destruct (_ && _); [by rewrite Hp in E|]. destruct Hp as (pr & Hpr & ->). unfold parentOf in Hpr. ok_inv. naive_solver. }
  split_and!; try done.
  - apply addStep_wf; simpl; [done|done| |].
    + intros p (c & -> & ->)%Hpar. by apply Hc.
    + intros a E. destruct (returnsRows kind); [|done]. by injection E as <-.
  - simpl. intros a E. destruct (returnsRows kind); [|done]. by injection E as <-.
  - intros Hk. unfold parentStep. simpl. destruct rc as [c|]; [|by rewrite Hp].
    rewrite bool_decide_eq_false_2 in Hp by done. simpl in Hp. destruct Hp as (pr & Hpr & ->).
    unfold parentOf in Hpr. ok_inv. done.
Qed.

(** What a select of a relation, and the relations of a step, leave. *)
Definition selectGood (fuel : nat) : Prop := forall q agg c steps st steps',
  selectStep m d fuel q "all" agg (Some c) steps = Ok (st, steps') -> stepsWf steps -> (rc_parentStep c < length steps)%nat ->
  stepsWf steps' /\ grown steps steps' /\ st_id st = length steps /\
  exists st', steps' !! st_id st = Some st' /\ parentStep st' = Some (rc_parentStep c) /\ st_role st' = "relation".

Definition relationsGood (fuel : nat) : Prop := forall s asm id steps asm' steps',
  relationSteps m d fuel s asm id steps = Ok (asm', steps') -> stepsWf steps -> (id < length steps)%nat ->
  targetsOk steps id asm -> stepsWf steps' /\ grown steps steps' /\ targetsOk steps' id asm'.

Lemma asmTargets_addChild asm c :
  asmTargets (addChild asm c) = asmTargets asm ++ match ch_assemble c with Some a => asmTargets a | None => [ch_step c] end.
Proof. destruct asm. simpl. rewrite map_app, concat_app. simpl. by rewrite (right_id_L [] (++)). Qed.

Lemma relation_turn fuel s id acc r steps acc' steps' :
  selectGood fuel -> (id < length steps)%nat -> stepsWf steps -> targetsOk steps id acc ->
  (rc ← lift (relationContext r acc id);
   target ← lift (p_entity m (q_entity (r_query r)));
   st ← selectStep m d fuel (r_query r) "all" "" (Some rc);
   assembled ← lift (present (st_assemble st) (str ["the assemble of relation "; r_rel r]));
   child ← lift (relationChild m s acc r rc (st_id st) assembled target);
   mret (addChild acc child)) steps = Ok (acc', steps') ->
  stepsWf steps' /\ grown steps steps' /\ targetsOk steps' id acc'.
Proof.
  intros IH Hid Hs Ht H. apply bindM_ok in H as (rc & t1 & [Hrc <-]%liftM_ok & H). apply bindM_ok in H as (target & t2 & [_ <-]%liftM_ok & H).
  apply bindM_ok in H as (st & t3 & Hst & H). apply bindM_ok in H as (assembled & t4 & [_ <-]%liftM_ok & H).
  apply bindM_ok in H as (child & t5 & [Hch <-]%liftM_ok & [<- <-]%retM_ok).
  assert (rc_parentStep rc = id) as Hp by (unfold relationContext in Hrc; ok_inv; done).
  destruct (IH _ _ _ _ _ _ Hst Hs) as (Hs' & Hg & Hi & st' & Hl & Hpar & Hr); [lia|]. split_and!; [done..|].
  intros j Hj. rewrite asmTargets_addChild in Hj. apply elem_of_app in Hj as [Hj|Hj]; [by apply (targetsOk_grown _ _ _ _ Hg Ht)|].
  unfold relationChild in Hch. ok_inv. simpl in Hj. apply list_elem_of_singleton in Hj as ->. split; [lia|]. by exists st'.
Qed.

(** The targets of the children after some of them are replaced. *)
Lemma children_turn fuel js id rel chs steps chs' steps' :
  relationsGood fuel -> stepsWf steps -> (id < length steps)%nat ->
  (forall c a, c ∈ chs -> ch_assemble c = Some a -> targetsOk steps id a) ->
  mapS (fun ch =>
    if bool_decide (ch_kind ch = "join") && bool_decide (ch_rel ch = rel) then
      a ← lift (present (ch_assemble ch) (str ["the assemble of join "; rel]));
      a ← relationSteps m d fuel js a id;
      mret (withAssemble ch a)
    else mret ch) chs steps = Ok (chs', steps') ->
  stepsWf steps' /\ grown steps steps' /\
  (forall c', c' ∈ chs' -> (exists c, c ∈ chs /\ c' = c) \/ exists a, ch_assemble c' = Some a /\ targetsOk steps' id a).
Proof.
  intros IH. revert steps chs'. induction chs as [|ch chs IHl]; intros steps chs' Hs Hid Ht H; simpl in H; ok_inv.
  { split_and!; [done|apply grown_refl|]. intros c' []%elem_of_nil. }
  match goal with H : (if _ then _ else _) ?a = Ok (?c, ?t) |- _ =>
    assert (stepsWf t /\ grown a t /\ (c = ch \/ exists x, ch_assemble c = Some x /\ targetsOk t id x)) as (Hs1 & Hg1 & Hc1) end.
  { destruct (_ && _); ok_inv; [|split_and!; [done|apply grown_refl|by left]].
    match goal with H : relationSteps _ _ _ _ _ _ _ = _ |- _ => destruct (IH _ _ _ _ _ _ H Hs Hid) as (Hs1 & Hg1 & Ht1) end.
    - eapply Ht; [left|done].
    - split_and!; [done..|]. right. by eexists. }
  pose proof (grown_length _ _ Hg1).
  match goal with H : mapS _ chs _ = _ |- _ => rename H into Hm end.
  edestruct IHl as (Hs2 & Hg2 & Hc2); [exact Hs1|lia| |exact Hm|].
  2:{ split_and!; [done|by eapply grown_trans|]. intros c' [->|Hin]%elem_of_cons.
    + destruct Hc1 as [->|(x & E & Hx)]; [left; exists ch; split; [left|done]|].
      right. exists x. split; [done|]. by eapply targetsOk_grown.
    + destruct (Hc2 _ Hin) as [(c & Hc & ->)|?]; [|by right]. left. exists c. split; [by right|done]. }
  intros c x Hc E. eapply targetsOk_grown; [done|]. eapply Ht; [by right|done].
Qed.

Lemma targetsOk_children steps id asm c a :
  targetsOk steps id asm -> c ∈ as_children asm -> ch_assemble c = Some a -> targetsOk steps id a.
Proof.
  intros Ht Hc E j Hj. apply Ht. destruct asm. simpl in *. apply elem_of_concat. exists (asmTargets a). split; [done|].
  apply list_elem_of_fmap. exists c. by rewrite E.
Qed.

Lemma steps_good fuel : selectGood fuel /\ relationsGood fuel.
Proof.
  induction fuel as [|fuel [IHs IHr]]; [by split; intros ? **|]. split.
  - intros q agg c steps st steps' H Hs Hc. cbn [selectStep] in H. apply bindM_ok in H as ([step root] & t & Ha & H).
    apply addSelect_wf in Ha as (Hs1 & -> & Hi & Hro & Hta & Hp); [|done|naive_solver].
    specialize (Hp ltac:(done)). simpl in Hp. change (selectRole "all" (Some c) steps) with "relation" in Hro.
    pose proof (addStep_grown steps step Hro) as Hg1.
    destruct (st_assemble step) as [asm|] eqn:Ea.
    2:{ ok_inv. split_and!; [done..|]. exists st. split_and!; [|done..]. rewrite Hi. by apply list_lookup_middle. }
    apply bindM_ok in H as (asm' & t2 & Hr & H). apply bindM_ok in H as (u & t3 & Hset & [<- <-]%retM_ok).
    destruct (IHr _ _ _ _ _ _ Hr Hs1) as (Hs2 & Hg2 & Ht2); [rewrite length_app, Hi; simpl; lia|by apply targetsOk_nil, Hta|].
    apply setAssemble_wf in Hset as (Hs3 & Hg3 & _); [|done..]. simpl.
    split_and!; [done|by eapply grown_trans; [|eapply grown_trans]|done|].
    assert ((steps ++ [step]) !! st_id step = Some step) as Hl by (rewrite Hi; by apply list_lookup_middle).
    destruct (gr_keep _ _ Hg2 _ _ Hl) as (st2 & Hl2 & Ep2 & Er2). destruct (gr_keep _ _ Hg3 _ _ Hl2) as (st3 & Hl3 & Ep3 & Er3).
    exists st3. split_and!; [done|unfold parentStep in *; congruence|congruence].
  - intros s asm id steps asm' steps' H Hs Hid Ht. cbn [relationSteps] in H.
    apply bindM_ok in H as (asm1 & t1 & H1 & H2).
    assert (stepsWf t1 /\ grown steps t1 /\ targetsOk t1 id asm1) as (Hs1 & Hg1 & Ht1).
    { revert H1. apply (foldS_inv (fun asm t => stepsWf t /\ grown steps t /\ targetsOk t id asm)).
      - intros acc x t y t' _ (Hst & Hgt & Htt) Hf. pose proof (grown_length _ _ Hgt).
        destruct (relation_turn fuel s id acc x t y t' IHs ltac:(lia) Hst Htt Hf) as (? & ? & ?).
        split_and!; [done|by eapply grown_trans|done].
      - split_and!; [done|apply grown_refl|done]. }
    revert H2. apply (foldS_inv (fun asm t => stepsWf t /\ grown steps t /\ targetsOk t id asm)); [|done].
    intros acc j t y t' _ (Hst & Hgt & Htt) Hf. pose proof (grown_length _ _ Hgt).
    apply bindM_ok in Hf as (js & t2 & [_ <-]%liftM_ok & (chs & t3 & Hm & [<- <-]%retM_ok)%bindM_ok).
    edestruct (children_turn fuel js id (j_rel j)) as (Hs3 & Hg3 & Hc3);
      [exact IHr|exact Hst|lia|by intros; eapply targetsOk_children|exact Hm|].
    split_and!; [done|by eapply grown_trans|]. pose proof (targetsOk_grown _ _ _ _ Hg3 Htt) as Ht3.
    intros k Hk. destruct acc. simpl in Hk. apply elem_of_concat in Hk as (l & Hkl & Hl).
    apply list_elem_of_fmap in Hl as (c' & -> & Hc'). destruct (Hc3 _ Hc') as [(c & Hc & ->)|(a & E & Ha)].
    + apply Ht3. simpl. apply elem_of_concat. eexists. split; [done|]. apply list_elem_of_fmap. by exists c.
    + rewrite E in Hkl. by apply Ha.
Qed.

(** ** Plans *)

(** A root select on its own. *)
Lemma rootSelect_good fuel q kind agg steps st steps' :
  selectStep m d fuel q kind agg None steps = Ok (st, steps') -> stepsWf steps ->
  exists step, st_role step = selectRole kind None steps /\ stepsWf steps' /\ grown (steps ++ [step]) steps' /\
    (returnsRows kind = false -> steps' = steps ++ [step]).
Proof.
  intros H Hs. destruct fuel as [|fuel]; [done|]. cbn [selectStep] in H. apply bindM_ok in H as ([step root] & t & Ha & H).
  pose proof (addSelect_inv _ _ _ _ _ _ _ _ _ _ _ Ha) as (sql & asm0 & b & parent & _ & _ & _ & Estep & _).
  apply addSelect_wf in Ha as (Hs1 & -> & Hi & Hro & Hta & _); [|done..]. exists step.
  destruct (st_assemble step) as [asm|] eqn:Ea; [|ok_inv; split_and!; [done..|apply grown_refl|done]].
  apply bindM_ok in H as (asm' & t2 & Hr & H). apply bindM_ok in H as (u & t3 & Hset & [<- <-]%retM_ok).
  destruct (proj2 (steps_good fuel) _ _ _ _ _ _ Hr Hs1) as (Hs2 & Hg2 & Ht2); [rewrite length_app, Hi; simpl; lia|by apply targetsOk_nil, Hta|].
  apply setAssemble_wf in Hset as (Hs3 & Hg3 & _); [|done..]. split_and!; [done|done|by eapply grown_trans|].
  intros Hk. rewrite Estep in Ea. simpl in Ea. by rewrite Hk in Ea.
Qed.

Lemma stepsWf_nil : stepsWf [].
Proof. by intros k st H. Qed.

(** The steps that come before the relation steps of a plan. *)
Definition headRoles (kind : string) : list string :=
  if decide (kind = "paginate") then ["main"; "count"] else if includes kind kinds then ["main"] else [].

Definition planRoles (kind : string) (steps : list PlanStep) : Prop :=
  exists n, map st_role steps = headRoles kind ++ replicate n "relation".

Lemma grown_roles pre steps : grown pre steps -> exists n, map st_role steps = map st_role pre ++ replicate n "relation".
Proof.
  intros Hg. pose proof (grown_length _ _ Hg). destruct Hg as [Hk Hn]. exists (length steps - length pre)%nat.
  apply list_eq. intros i. rewrite list_lookup_fmap. destruct (decide (i < length pre)%nat) as [Hi|Hi].
  - rewrite lookup_app_l, list_lookup_fmap by (by rewrite length_map). destruct (lookup_lt_is_Some_2 pre i Hi) as [st Hst].
    destruct (Hk _ _ Hst) as (st' & Hst' & _ & Hr). rewrite Hst, Hst'. simpl. by rewrite Hr.
  - rewrite lookup_app_r by (rewrite length_map; lia). rewrite length_map. destruct (steps !! i) as [st|] eqn:E; simpl.
    + rewrite lookup_replicate_2 by (apply lookup_lt_Some in E; lia). f_equal. eapply Hn; [|done]. lia.
    + apply lookup_ge_None_1 in E. symmetry. apply lookup_replicate_None. lia.
Qed.

Lemma writeStep_good c u steps : writeStep c [] = Ok (u, steps) -> stepsWf steps /\ map st_role steps = ["main"].
Proof.
  intros (sql & b & _ & ->)%writeStep_inv. split; [|done]. by apply (addStep_wf [] _ stepsWf_nil).
Qed.

Lemma paginate_good fuel q u steps :
  paginateSteps m d fuel q [] = Ok (u, steps) -> stepsWf steps /\ planRoles "paginate" steps.
Proof.
  unfold paginateSteps. intros H. apply bindM_ok in H as ([step root] & t1 & Ha & H).
  apply addSelect_wf in Ha as (Hs1 & -> & Hi & Hro & Hta & _); [|apply stepsWf_nil|done]. simpl in Hs1, H.
  apply bindM_ok in H as (st & t2 & Hc & H). destruct (rootSelect_good _ _ _ _ _ _ _ Hc Hs1) as (cnt & Hrc & Hs2 & _ & Ht2).
  specialize (Ht2 eq_refl). subst t2. simpl in *. apply bindM_ok in H as (asm & t3 & [Hasm%present_ok <-]%liftM_ok & H).
  apply bindM_ok in H as (asm' & t4 & Hr & Hset).
  destruct (proj2 (steps_good fuel) _ _ _ _ _ _ Hr Hs2) as (Hs3 & Hg3 & Ht3); [rewrite Hi; simpl; lia|by apply targetsOk_nil, Hta|].
  apply setAssemble_wf in Hset as (Hs4 & Hg4 & _); [|done..]. split; [done|].
  destruct (grown_roles _ _ (grown_trans _ _ _ Hg3 Hg4)) as [n Hn]. exists n. rewrite Hn. simpl. by rewrite Hro, Hrc.
Qed.

Lemma compileSteps_good r u steps :
  compileSteps m d assigns r [] = Ok (u, steps) -> stepsWf steps /\ planRoles (rq_kind r) steps.
Proof.
  unfold compileSteps. intros H. destruct (includes (rq_kind r) ["one"; "all"; "count"; "group_count"; "sum"; "avg"]) eqn:Ei.
  { apply bindM_ok in H as (st & t & Hs & [_ <-]%retM_ok).
    destruct (rootSelect_good _ _ _ _ _ _ _ Hs stepsWf_nil) as (step & Hro & Hw & Hg & _). split; [done|].
    destruct (grown_roles _ _ Hg) as [n Hn]. exists n. rewrite Hn. simpl. rewrite Hro. unfold selectRole, headRoles. simpl.
    rewrite andb_false_r. unfold includes in Ei. apply bool_decide_eq_true in Ei.
    assert (rq_kind r <> "paginate" /\ includes (rq_kind r) kinds = true) as [Hne ->]; [|by rewrite decide_False].
    rewrite !elem_of_cons, elem_of_nil in Ei. by destruct Ei as [->|[->|[->|[->|[->|[->|[]]]]]]]. }
  unfold planRoles, headRoles.
  case_decide as E0. { apply paginate_good in H as [? [n Hn]]. split; [done|]. by exists n. }
  assert (forall k c, rq_kind r = k -> includes k kinds = true -> writeStep c [] = Ok (u, steps) ->
    stepsWf steps /\ exists n, map st_role steps = (if includes (rq_kind r) kinds then ["main"] else []) ++ replicate n "relation") as Hwr.
  { intros k c -> Hk Hc. apply writeStep_good in Hc as [? ->]. split; [done|]. exists 0%nat. by rewrite Hk. }
  case_decide as E1; [by eapply Hwr|]. case_decide as E2; [by eapply Hwr|]. case_decide as E3; [by eapply Hwr|].
  case_decide as E4; [by eapply Hwr|]. case_decide as E5; [by eapply Hwr|].
  ok_inv. split; [apply stepsWf_nil|]. exists 0%nat.
  destruct (includes (rq_kind r) kinds) eqn:Ek; [|done]. exfalso. unfold includes, kinds in *.
  apply bool_decide_eq_true in Ek. apply bool_decide_eq_false in Ei. rewrite !elem_of_cons, elem_of_nil in *. naive_solver.
Qed.

(** C9: The steps of every plan are well formed: the id of a step is its position, a
    step comes after the step whose rows it binds, and each relation that the
    assemble of a step attaches, through any of its joins, is loaded by a later
    relation step bound to that step. *)
Theorem compile_steps_wf r plan : compile m d assigns r = Ok plan -> stepsWf (pl_steps plan).
Proof.
  unfold compile. destruct (compileSteps m d assigns r []) as [[u steps]|] eqn:E; [|done]. intros [= <-].
  by apply compileSteps_good in E as [? _].
Qed.

(** A plan runs its main statement first, then the count of a paginate, then
    the relation steps. *)
Theorem compile_roles r plan :
  compile m d assigns r = Ok plan -> exists n, map st_role (pl_steps plan) = headRoles (rq_kind r) ++ replicate n "relation".
Proof.
  unfold compile. destruct (compileSteps m d assigns r []) as [[u steps]|] eqn:E; [|done]. intros [= <-].
  by apply compileSteps_good in E as [_ ?].
Qed.
End Steps.
