(* ===== verification/Split.v ===== *)
(** * Reads of a long root IN list ([database.ts], [splitReadPlan] to [rootInParts])

    A read whose root IN list holds more values than one statement may bind is
    run as several requests, each with a part of the list.  [query] merges the
    rows of the parts by their row identity, and [scalar] adds their counts. *)

From S2P Require Import Prelude Ir Dialect Model Values Canonical Planner Keys Relations.

Definition itemConn (i : Item) : option string :=
  match i_pred i ≫= p_conn with
  | Some c => Some c
  | None => match i_group i ≫= g_conn with Some c => Some c | None => i_joined i ≫= jr_conn end
  end.

(** [request.where?.items ?? []] *)
Definition rootItems (r : Request) : list Item :=
  match q_where (rq_query r) with Some g => g_items g | None => [] end.

(** [items[i]?.pred?.ps?.length ?? 0] *)
Definition itemPs (items : list Item) (i : Z) : nat :=
  if i <? 0 then 0%nat
  else match items !! Z.to_nat i with
       | Some it => match i_pred it ≫= p_ps with Some ps => length ps | None => 0%nat end
       | None => 0%nat
       end.

Definition isInList (i : Item) : bool :=
  match i_pred i with
  | Some p => bool_decide (p_op p = Some "in") && bool_decide (p_sub p = None)
  | None => false
  end.

(** [items.forEach((item, i) => ...)] with the longest list so far. *)
Fixpoint targetFrom (items rest : list Item) (i target : Z) : Z :=
  match rest with
  | [] => target
  | item :: rest =>
      let n := match i_pred item ≫= p_ps with Some ps => length ps | None => 0%nat end in
      targetFrom items rest (i + 1)
        (if isInList item && (0 <? n)%nat && ((target <? 0) || (itemPs items target <? n)%nat) then i else target)
  end.

(** The index of the longest root IN list of values, or -1. *)
Definition rootInTarget (r : Request) : Z := targetFrom (rootItems r) (rootItems r) 0 (-1).

Definition setPs (ps : list Z) (p : Predicate) : Predicate :=
  mkPred (p_conn p) (p_column p) (p_op p) (p_p p) (Some ps) (p_ref p) (p_fn p) (p_value p) (p_cols p) (p_sub p).
Definition setItemPs (ps : list Z) (i : Item) : Item := mkItem (setPs ps <$> i_pred i) (i_group i) (i_joined i).
Definition setRootItems (items : list Item) (r : Request) : Request :=
  let q := rq_query r in
  mkRequest
    (mkQuery (q_entity q) (q_columns q) (q_on q) ((fun g => mkGroup (g_conn g) (g_not g) items) <$> q_where q) (q_joins q) (q_relations q)
       (q_order q) (q_group_by q) (q_limit q) (q_force_index q) (q_lock q) (q_key_by q) (q_flatten q) (q_limit_per_parent q)
       (q_if_parent q) (q_no_cascade_delete q))
    (rq_ir_version r) (rq_manifest_hash r) (rq_kind r) (rq_load r) (rq_set r) (rq_on_duplicate r) (rq_rows r) (rq_optimistic r)
    (rq_agg r) (rq_n_params r).

(** [request.where?.items[target]?.pred], and the list of that condition. *)
Definition targetPred (r : Request) (target : Z) : option Predicate :=
  if target <? 0 then None else rootItems r !! Z.to_nat target ≫= i_pred.
Definition rootInPs (r : Request) (target : Z) (what : string) : res (list Z) := present (targetPred r target ≫= p_ps) what.

(** A copy of the request whose root IN condition [target] holds [ps]. *)
Definition withRootInList (r : Request) (target : Z) (ps : list Z) : res Request :=
  pred ← present (targetPred r target) "the split IN condition";
  _ ← present (p_ps pred) "the split IN list";
  Ok (setRootItems (alter (setItemPs ps) (Z.to_nat target) (rootItems r)) r).

(** [while (chunk * 2 <= available) chunk *= 2], then
    [for (let start = 0; start < unique.length; start += chunk)]; each slice is
    padded with its last value to a power of two. *)
Definition paddedSlice (slice : list Z) : res (list Z) :=
  last ← present (last slice) "the last parameter of a part";
  padValues (bucketOf (length slice)) (bucketOf (length slice)) [last] slice.

(** [ps.filter(...)]: the first parameter of each key. *)
Fixpoint firstOfKey (params : list JsValue) (seen : list string) (ps : list Z) : list Z :=
  match ps with
  | [] => []
  | p :: ps =>
      let key := scalarKey (paramAt params p) in
      if includes key seen then firstOfKey params seen ps else p :: firstOfKey params (key :: seen) ps
  end.

(** A predicate that OR joins to what is before or after it. *)
Fixpoint orItem (items : list Item) : bool :=
  match items with
  | [] => false
  | item :: rest =>
      (bool_decide (i_pred item <> None) &&
       (bool_decide (i_pred item ≫= p_conn = Some "or") ||
        match rest with following :: _ => bool_decide (itemConn following = Some "or") | [] => false end))
      || orItem rest
  end.

(** Splits a root IN list joined with AND that exceeds the bind limit. *)
Definition rootInParts (r : Request) (slots : Z) (driver : string) (params : list JsValue) : res (list Request) :=
  let limit := driverLimit driver in
  let q := rq_query r in
  let tooLarge := Err (OrmError IR_INVALID (str ["the statement needs "; pretty slots; " bind parameters but "; driver; " permits "; pretty limit])) in
  if slots <=? limit then Ok []
  else if bool_decide (q_limit q <> None) || (0 <? length (default [] (q_order q)))%nat || (0 <? length (default [] (q_group_by q)))%nat
          || bool_decide (q_where q = None) then tooLarge
  else if orItem (rootItems r) then tooLarge
  else
    let target := rootInTarget r in
    if target <? 0 then tooLarge
    else
      ps ← rootInPs r target "the IN list that is split";
      let available := limit - (slots - Z.of_nat (length ps)) in
      if available <? 1 then tooLarge
      else
        let chunk := powerBelow (Z.to_nat available) 1 (Z.to_nat available) in
        let unique := firstOfKey params [] ps in
        slices ← mapR paddedSlice (chunksFrom (length unique) chunk 1 0 (length unique) unique);
        mapR (withRootInList r target) slices.

(** The plan of a read and the number of bind slots of its whole statement.
    [Db.plan] is the compiler behind a cache of its plans. *)
Definition splitReadPlan (e : Engine) (r : Request) (params : list JsValue) : res (Plan * Z) :=
  let limit := driverLimit (d_name (en_dialect e)) in
  let slotsOf plan := step ← present (pl_steps plan !! 0%nat) "the main step of a plan"; Ok (Z.of_nat (length (st_bind_slots step))) in
  let target := if limit <? Z.of_nat (length params) then rootInTarget r else -1 in
  if target <? 0 then
    plan ← engineCompile e r; n ← slotsOf plan; Ok (plan, n)
  else
    ps ← rootInPs r target "the IN list that is split";
    short ← withRootInList r target (take 1 ps);
    cached ← engineCompile e short;
    n ← slotsOf cached;
    let slots := n - 1 + Z.of_nat (length ps) in
    if slots <=? limit then full ← engineCompile e r; n ← slotsOf full; Ok (full, n) else Ok (cached, slots).

(** The rows of the parts of a split read, each row identity once. *)
Definition mergeRow (keys : list KeyReference) (acc : list string * list (list JsValue)) (row : list JsValue)
    : res (list string * list (list JsValue)) :=
  key ← splitRowKey row keys;
  Ok (if includes key (fst acc) then acc else (fst acc ++ [key], snd acc ++ [row])).

Definition mergeParts (parts : list (list KeyReference * list (list JsValue))) : res (list (list JsValue)) :=
  acc ← foldR (fun acc part => foldR (mergeRow (fst part)) acc (snd part)) ([], []) parts;
  Ok (snd acc).

(** ** The chosen list *)

Lemma itemPs_at items i it : items !! i = Some it ->
  itemPs items (Z.of_nat i) = match i_pred it ≫= p_ps with Some ps => length ps | None => 0%nat end.
Proof. intros H. unfold itemPs. rewrite (proj2 (Z.ltb_ge _ _)) by lia. by rewrite Nat2Z.id, H. Qed.

(** What the search has found among the items [before] it. *)
Definition longest (items : list Item) (before : nat) (target : Z) : Prop :=
  (target = -1 \/ exists i it, target = Z.of_nat i /\ items !! i = Some it /\ isInList it = true /\ (0 < itemPs items target)%nat) /\
  forall i it, (i < before)%nat -> items !! i = Some it -> isInList it = true -> (itemPs items (Z.of_nat i) <= itemPs items target)%nat.

Lemma targetFrom_longest items pre rest target : items = pre ++ rest -> longest items (length pre) target ->
  longest items (length items) (targetFrom items rest (Z.of_nat (length pre)) target).
Proof.
  revert pre target. induction rest as [|item rest IH]; intros pre target E H; simpl.
  - rewrite app_nil_r in E. by subst.
  - assert (items !! length pre = Some item) as Hi by (rewrite E; by rewrite lookup_app_r, Nat.sub_diag by lia).
    replace (Z.of_nat (length pre) + 1) with (Z.of_nat (length (pre ++ [item]))) by (rewrite length_app; simpl; lia).
    apply IH; [by rewrite <- app_assoc|]. rewrite <- (itemPs_at _ _ _ Hi). rewrite length_app. simpl. destruct H as [Hf Hl].
    set (n := itemPs items (Z.of_nat (length pre))) in *.
    destruct (isInList item && (0 <? n)%nat && ((target <? 0) || (itemPs items target <? n)%nat)) eqn:Eb.
    + apply andb_true_iff in Eb as [[Hin Hpos%Nat.ltb_lt]%andb_true_iff Ht%orb_true_iff]. split; [right; by exists (length pre), item|].
      intros i it Hlt Hit Hi'. fold n. destruct (decide (i = length pre)) as [->|]; [done|]. specialize (Hl i it ltac:(lia) Hit Hi').
      destruct Ht as [Ht%Z.ltb_lt|Ht%Nat.ltb_lt]; [|lia]. unfold itemPs in Hl at 2. rewrite (proj2 (Z.ltb_lt _ _)) in Hl by done. lia.
    + split; [done|]. intros i it Hlt Hit Hi'. destruct (decide (i = length pre)) as [->|]; [|by apply (Hl i it); [lia|..]].
      rewrite Hi in Hit. injection Hit as <-. fold n. rewrite Hi' in Eb. simpl in Eb.
      destruct (Nat.ltb_spec 0 n); [|lia]. simpl in Eb. apply orb_false_iff in Eb as [_ Hx%Nat.ltb_ge]. done.
Qed.

(** the list that a read is split by is a root IN list of values, and no
    root IN list is longer; there is none only when every such list is empty. *)
Theorem rootInTarget_longest (r : Request) :
  longest (rootItems r) (length (rootItems r)) (rootInTarget r).
Proof.
  apply (targetFrom_longest (rootItems r) [] (rootItems r) (-1)); [done|]. split; [by left|]. simpl. lia.
Qed.

(** ** The parts *)

Definition keyAt (params : list JsValue) (p : Z) : string := scalarKey (paramAt params p).

Lemma firstOfKey_in params seen ps p : p ∈ firstOfKey params seen ps -> p ∈ ps /\ keyAt params p ∉ seen.
Proof.
  revert seen. induction ps as [|q ps IH]; intros seen; simpl; [by intros []%elem_of_nil|]. unfold includes. fold (keyAt params q).
  case_bool_decide; rewrite !elem_of_cons.
  - intros [??]%IH. auto.
  - intros [->|[? Hn]%IH]; [auto|]. rewrite elem_of_cons in Hn. auto.
Qed.

Lemma firstOfKey_nodup params seen ps : NoDup (map (keyAt params) (firstOfKey params seen ps)).
Proof.
  revert seen. induction ps as [|q ps IH]; intros seen; simpl; [constructor|]. unfold includes. fold (keyAt params q).
  case_bool_decide; [apply IH|]. simpl. constructor; [|apply IH]. intros (p & E & Hp)%list_elem_of_fmap.
  apply firstOfKey_in in Hp as [_ Hp]. apply Hp. rewrite E. apply elem_of_cons. by left.
Qed.

Lemma firstOfKey_all params seen ps p : p ∈ ps -> keyAt params p ∉ seen -> exists q, q ∈ firstOfKey params seen ps /\ keyAt params q = keyAt params p.
Proof.
  revert seen. induction ps as [|q ps IH]; intros seen; simpl; [by intros []%elem_of_nil|]. unfold includes. fold (keyAt params q).
  intros Hp Hn. case_bool_decide as Hq.
  - apply IH; [|done]. apply elem_of_cons in Hp as [->|]; done.
  - destruct (decide (keyAt params p = keyAt params q)) as [E|Hne]; [exists q; split; [left|done]|].
    apply elem_of_cons in Hp as [->|Hp]; [done|]. destruct (IH (keyAt params q :: seen) Hp) as (x & Hx & Ex).
    { rewrite elem_of_cons. naive_solver. }
    exists x. split; [by right|done].
Qed.

Lemma paddedSlice_ok slice : slice <> [] -> exists out, paddedSlice slice = Ok out /\ length out = bucketOf (length slice) /\
  forall p, p ∈ out <-> p ∈ slice.
Proof.
  intros Hne. destruct (last slice) as [z|] eqn:El; [|by apply last_None in El]. unfold paddedSlice. rewrite El. cbn [present mbind res_bind].
  assert (1 <= length slice)%nat as H1 by (destruct slice; simpl; [done|lia]). pose proof (bucketOf_bounds _ H1) as Hb.
  pose proof (padValues_spec (bucketOf (length slice)) (length slice) (bucketOf (length slice)) 1 [z] slice ltac:(lia) eq_refl ltac:(lia) ltac:(lia) ltac:(lia)) as E.
  rewrite Nat.mul_1_r in E. rewrite E. eexists. split; [done|].
  assert (forall n, length (concat (replicate n [z])) = n) as Hl by (induction n; simpl; [done|by rewrite IHn]). split.
  - rewrite length_app, Hl. lia.
  - intros p. rewrite elem_of_app. split; [|by left]. intros [?|Hp%elem_of_concat_replicate]; [done|]. apply list_elem_of_singleton in Hp as ->.
    apply last_Some in El as [l ->]. apply elem_of_app. right. by apply list_elem_of_singleton.
Qed.

Lemma mapR_Forall2 {A B} (f : A -> res B) l r : mapR f l = Ok r -> Forall2 (fun a b => f a = Ok b) l r.
Proof. revert r. induction l as [|x l IH]; simpl; intros r H; ok_inv; constructor; eauto. Qed.

Lemma concat_same_part {A} (f : A -> string) (ls : list (list A)) i j l k x y : NoDup (map f (concat ls)) ->
  ls !! i = Some l -> ls !! j = Some k -> x ∈ l -> y ∈ k -> f x = f y -> i = j.
Proof.
  revert i j. induction ls as [|l0 ls IH]; intros i j Hn Hi Hj Hx Hy E; [done|]. simpl in Hn. rewrite map_app in Hn.
  apply NoDup_app in Hn as (N0 & Hd & Hn).
  destruct i as [|i], j as [|j]; simpl in *; [done| | |f_equal; by eapply IH].
  - injection Hi as ->. exfalso. apply (Hd (f x)); apply list_elem_of_fmap; [by exists x|]. exists y. split; [done|].
    apply elem_of_concat. exists k. split; [done|]. by eapply list_elem_of_lookup_2.
  - injection Hj as ->. exfalso. apply (Hd (f y)); apply list_elem_of_fmap; [by exists y|]. exists x. split; [done|].
    apply elem_of_concat. exists l. split; [done|]. by eapply list_elem_of_lookup_2.
Qed.

(** C20: a read that binds more than the limit is split into requests that differ
    from it in the chosen IN list alone; the statement of each is within the
    limit, every value of the list is in a part, by a parameter of its key, and
    no key is in two parts. *)
Theorem rootInParts_split (r : Request) (slots : Z) (driver : string) (params : list JsValue) (parts : list Request) :
  driverLimit driver < slots -> rootInParts r slots driver params = Ok parts ->
  exists ps slices, rootInPs r (rootInTarget r) "the IN list that is split" = Ok ps /\
    parts = map (fun l => setRootItems (alter (setItemPs l) (Z.to_nat (rootInTarget r)) (rootItems r)) r) slices /\
    Forall (fun l => slots - Z.of_nat (length ps) + Z.of_nat (length l) <= driverLimit driver /\ forall p, p ∈ l -> p ∈ ps) slices /\
    (forall p, p ∈ ps -> exists l q, l ∈ slices /\ q ∈ l /\ keyAt params q = keyAt params p) /\
    (forall i j l k p q, slices !! i = Some l -> slices !! j = Some k -> p ∈ l -> q ∈ k -> keyAt params p = keyAt params q -> i = j).
Proof.
  intros Hlim. unfold rootInParts. rewrite (proj2 (Z.leb_gt _ _)) by done. destruct (_ || _); [done|]. destruct (orItem _); [done|].
  destruct (rootInTarget r <? 0); [done|]. intros (ps & Hps & H)%bindR_ok. set (available := driverLimit driver - (slots - Z.of_nat (length ps))) in *.
  destruct (Z.ltb_spec available 1) as [|Hav]; [done|]. apply bindR_ok in H as (slices & Hs & Hp).
  set (unique := firstOfKey params [] ps) in *. destruct (powerBelow_spec (Z.to_nat available) 0 (Z.to_nat available)) as (k & Ek & Hk); [simpl; lia..|].
  change (2 ^ 0)%nat with 1%nat in Ek. rewrite Ek in Hs. pose proof (Nat.pow_nonzero 2 k) as Hpos.
  set (chunks := chunksFrom (length unique) (2 ^ k) 1 0 (length unique) unique) in *.
  assert (concat chunks = unique) as Hc.
  { unfold chunks. rewrite chunksFrom_concat by lia. rewrite Nat.mul_0_l, drop_0, Nat.sub_0_r, Nat.mul_1_r. by apply take_ge. }
  assert (Forall2 (fun c l => length l = bucketOf (length c) /\ (1 <= length c <= 2 ^ k)%nat /\ forall p, p ∈ l <-> p ∈ c) chunks slices) as F.
  { apply mapR_Forall2 in Hs. assert (Forall (fun c => (1 <= length c <= 2 ^ k)%nat) chunks) as Hcl.
    { apply Forall_forall. intros c Hc'. apply chunksFrom_length in Hc' as (n & Hn & Hl); lia. }
    clear Hc Hp. clearbody chunks. induction Hs as [|c l cs ls Hcl' _ IH]; constructor; inversion Hcl; subst; [|by apply IH].
    destruct (paddedSlice_ok c) as (out & E & Ho); [by intros ->; simpl in *; lia|]. rewrite E in Hcl'. injection Hcl' as <-. naive_solver. }
  exists ps, slices. split_and!.
  - done.
  - apply mapR_Forall2 in Hp. clear -Hp. induction Hp as [|l part ls parts Hl _ IH]; [done|]. simpl. f_equal; [|done].
    unfold withRootInList in Hl. apply bindR_ok in Hl as (pr & _ & Hl). apply bindR_ok in Hl as (u & _ & Hl). by injection Hl as <-.
  - apply Forall_forall. intros l Hl. apply list_elem_of_lookup in Hl as [i Hi]. destruct (Forall2_lookup_r _ _ _ _ _ F Hi) as (c & Hci & El & Hcl & Hx).
    split; [pose proof (bucketOf_le_power (length c) k ltac:(lia)); lia|]. intros p Hpl. apply Hx in Hpl. assert (p ∈ unique) as Hu.
    { rewrite <- Hc. apply elem_of_concat. exists c. split; [done|]. by eapply list_elem_of_lookup_2. }
    by apply firstOfKey_in in Hu as [].
  - intros p Hpp. destruct (firstOfKey_all params [] ps p Hpp) as (q & Hq & Eq); [by intros []%elem_of_nil|]. fold unique in Hq. rewrite <- Hc in Hq.
    apply elem_of_concat in Hq as (c & Hqc & Hcc). apply list_elem_of_lookup in Hcc as [i Hi].
    destruct (Forall2_lookup_l _ _ _ _ _ F Hi) as (l & Hl & _ & _ & Hx). exists l, q. split_and!; [by eapply list_elem_of_lookup_2|by apply Hx|done].
  - intros i j l1 l2 p q Hi Hj Hpl Hql E. destruct (Forall2_lookup_r _ _ _ _ _ F Hi) as (c1 & H1 & _ & _ & X1), (Forall2_lookup_r _ _ _ _ _ F Hj) as (c2 & H2 & _ & _ & X2).
    eapply (concat_same_part (keyAt params) chunks); [rewrite Hc; apply firstOfKey_nodup|done|done|by apply X1|by apply X2|done].
Qed.
