(* ===== verification/Names.v ===== *)
(** * Method names ([names.ts])

    A method name of a model is a chain of conditions in PascalCase words:
    column names, comparison words, and the connectors And, Or and With.  The
    names of a document are ASCII, so a letter here is an ASCII letter; a chain
    starts with an upper-case letter, so its first word is no member name of
    [Object.prototype]. *)

From S2P Require Import Prelude Model.

Record ChainKey := mkChainKey {
  k_conn : string; k_op : string; k_column : string; k_columns : list string; k_compare : string }.

(** [key({ op, column })], [key({ op, columns })] and [key({ op, column, compare })] *)
Definition columnKey (op column : string) : ChainKey := mkChainKey "" op column [] "".
Definition columnsKey (op : string) (columns : list string) : ChainKey := mkChainKey "" op "" columns "".
Definition compareKey (op column compare : string) : ChainKey := mkChainKey "" op column [] compare.

Definition upperFirst (name : string) : string :=
  match name with EmptyString => "" | String a s => String (upper a) s end.

Definition pascal (name : string) : string := str (map upperFirst (split_on "_" name)).

(** [name.replace(/[A-Z]/g, ...)]; [first] is [index = 0]. *)
Fixpoint snakeFrom (first : bool) (name : string) : string :=
  match name with
  | EmptyString => ""
  | String a s => (if is_upper a then if first then String (lower a) "" else "_" +:+ String (lower a) "" else String a "") +:+ snakeFrom false s
  end.
Definition snake (name : string) : string := snakeFrom true name.

(** ** Words *)

Record WordPart := mkPart { wp_sep : string; wp_words : list string }.

Fixpoint splitWordsFrom (separators : list string) (sep : string) (cur ws : list string) : list WordPart :=
  match ws with
  | [] => [mkPart sep cur]
  | w :: ws => if includes w separators then mkPart sep cur :: splitWordsFrom separators w [] ws else splitWordsFrom separators sep (cur ++ [w]) ws
  end.

(** Splits words before each word that is one of the separators. *)
Definition splitWords (ws separators : list string) : list WordPart := splitWordsFrom separators "" [] ws.

Fixpoint wordsFrom (cur s : string) : list string :=
  match s with
  | EmptyString => [cur]
  | String a s => if is_upper a then cur :: wordsFrom (String a "") s else wordsFrom (cur +:+ String a "") s
  end.

Definition words (name : string) : list string :=
  match name with EmptyString => [] | String a s => wordsFrom (String a "") s end.

(** ** Columns *)

(** [columnIndex(e).get(name)]: of two columns of one PascalCase name, the later. *)
Definition columnIndex (e : Entity) (name : string) : option string :=
  f_name <$> List.find (fun f => bool_decide (pascal (f_name f) = name)) (rev (e_fields e)).

(** The column of an entity, or of any entity of the model, by its PascalCase name. *)
Definition columnName (model : RuntimeModel) (e : option Entity) (name : string) : string :=
  match e with
  | Some e => default "" (columnIndex e name)
  | None => default "" (foldr (fun entity found => match columnIndex (snd entity) name with Some c => Some c | None => found end) None (m_entities model))
  end.

Definition leadingOps : list (string * string) :=
  [("Ne", "ne"); ("Eq", ""); ("Gt", "gt"); ("Lt", "lt"); ("Ge", "ge"); ("Le", "le"); ("Lk", "lk"); ("Lb", "lb"); ("Between", "between")].
Definition compareOps : list (string * string) :=
  [("Eq", ""); ("Ne", "ne"); ("Gt", "gt"); ("Lt", "lt"); ("Ge", "ge"); ("Le", "le")].

Fixpoint splitWithFrom (e : Entity) (cur ws : list string) : option (list string) :=
  match ws with
  | [] => column ← columnIndex e (str cur); Some [column]
  | w :: ws =>
      if decide (w = "With") then column ← columnIndex e (str cur); rest ← splitWithFrom e [] ws; Some (column :: rest)
      else splitWithFrom e (cur ++ [w]) ws
  end.
Definition splitWith (e : Entity) (ws : list string) : option (list string) := splitWithFrom e [] ws.

(** ** Condition keys *)

(** What [parseKey] collects: the candidates and the errors. *)
Definition Found := (list ChainKey * list string)%type.

Definition columnsFound (e : Entity) (op : string) (least : nat) (error : string) (ws : list string) : Found :=
  match splitWith e ws with
  | Some cols => if (least <=? length cols)%nat then ([columnsKey op cols], []) else ([], [error])
  | None => ([], [error])
  end.

Definition tupleError (e : Entity) : string := str ["a tuple needs two or more columns of "; e_name e; " joined by With"].
Definition fulltextError (e : Entity) : string := str ["fulltext needs one or more columns of "; e_name e; " joined by With"].

Definition wholeFound (e : Entity) (ws : list string) : Found :=
  match columnIndex e (str ws) with Some whole => ([columnKey "" whole], []) | None => ([], []) end.

Definition leadingFound (e : Entity) (ws : list string) : Found :=
  match ws with
  | w :: (w1 :: rest1) as rest =>
      match assoc w leadingOps with
      | None => ([], [])
      | Some op =>
          if bool_decide (w = "Ne") && bool_decide (w1 = "Tuple") then columnsFound e "ne_tuple" 2 (tupleError e) rest1
          else match columnIndex e (str (w1 :: rest1)) with Some column => ([columnKey op column], []) | None => ([], []) end
      end
  | _ => ([], [])
  end.

Definition tupleFound (e : Entity) (ws : list string) : Found :=
  match ws with
  | w :: rest => if decide (w = "Tuple") then columnsFound e "tuple" 2 (tupleError e) rest else ([], [])
  | [] => ([], [])
  end.

Definition fulltextFound (e : Entity) (ws : list string) : Found :=
  match ws with
  | w :: rest =>
      if decide (w = "Fulltext") then
        let boolean := bool_decide (rest !! 0%nat = Some "Boolean") in
        columnsFound e (if boolean then "fulltext_boolean" else "fulltext") 1 (fulltextError e) (if boolean then drop 1 rest else rest)
      else ([], [])
  | [] => ([], [])
  end.

Definition compareFound (model : RuntimeModel) (e : Entity) (ws : list string) (i : nat) : Found :=
  match ws !! i ≫= (fun w => assoc w compareOps) with
  | None => ([], [])
  | Some cmp =>
      match columnIndex e (str (take i ws)) with
      | None => ([], [])
      | Some leftColumn =>
          let text := str (drop (S i) ws) in
          let right := columnName model None text in
          if decide (right = "") then ([], [str ["no model has the column "; text]]) else ([compareKey cmp leftColumn right], [])
      end
  end.

Definition keyFound (model : RuntimeModel) (e : Entity) (ws : list string) : list Found :=
  wholeFound e ws :: leadingFound e ws :: tupleFound e ws :: fulltextFound e ws
  :: map (compareFound model e ws) (seq 1 (length ws - 2)).

Definition parseKey (model : RuntimeModel) (e : Entity) (ws : list string) : res ChainKey :=
  match ws with
  | [] => Err (OrmError CONFIG "a condition key is empty")
  | _ =>
      let text := str ws in
      let candidates := concat (map fst (keyFound model e ws)) in
      let errors := concat (map snd (keyFound model e ws)) in
      match candidates with
      | [k] => Ok k
      | _ :: _ :: _ => Err (OrmError CONFIG (str [text; " has more than one meaning"]))
      | [] => Err (OrmError CONFIG (if (0 <? length errors)%nat then str [text; ": "; join "; " errors]
                                    else str [text; " is not a column of "; e_name e]))
      end
  end.

Definition withConn (conn : string) (k : ChainKey) : ChainKey := mkChainKey conn (k_op k) (k_column k) (k_columns k) (k_compare k).

(** Parses the chain part of a method name for an entity. *)
Definition parseChain (model : RuntimeModel) (e : Entity) (name : string) : res (list ChainKey) :=
  let ws := words name in
  match ws with
  | [] => Err (OrmError CONFIG "empty condition name")
  | _ => mapR (fun part => k ← parseKey model e (wp_words part); Ok (withConn (toLowerCase (wp_sep part)) k)) (splitWords ws ["And"; "Or"])
  end.

(** ** Orders and pairs *)

Record OrderKey := mkOrderKey { ok_column : string; ok_desc : bool }.

Definition parseOrderKey (e : Entity) (name : string) (part : list string) : res OrderKey :=
  let dir := last part in
  if (length part <? 2)%nat || (negb (bool_decide (dir = Some "Asc")) && negb (bool_decide (dir = Some "Desc")))
  then Err (OrmError CONFIG (str ["orderBy"; name; ": each key needs a column and Asc or Desc"]))
  else
    let text := str (take (length part - 1) part) in
    column ← or_fail (columnIndex e text) CONFIG (str ["orderBy"; name; ": "; text; " is not a column of "; e_name e]);
    Ok (mkOrderKey column (bool_decide (dir = Some "Desc"))).

Definition parseOrder (e : Entity) (name : string) : res (list OrderKey) :=
  mapR (fun part => parseOrderKey e name (wp_words part)) (splitWords (words name) ["And"]).

Definition pairAt (model : RuntimeModel) (left right : option Entity) (ws : list string) (i : nat) : list (string * string) :=
  if decide (ws !! i = Some "With") then
    let l := columnName model left (str (take i ws)) in
    let r := columnName model right (str (drop (S i) ws)) in
    if bool_decide (l <> "") && bool_decide (r <> "") then [(l, r)] else []
  else [].

(** Parses [<L>With<R>]. *)
Definition splitPair (model : RuntimeModel) (left right : option Entity) (name : string) : res (string * string) :=
  let ws := words name in
  match concat (map (pairAt model left right ws) (seq 0 (length ws))) with
  | [found] => Ok found
  | [] => Err (OrmError CONFIG (str [name; " is not <column>With<column>"]))
  | _ => Err (OrmError CONFIG (str [name; " has more than one meaning"]))
  end.

(** ** Words and their names *)

#[local] Arguments str : simpl never.
#[local] Arguments assoc : simpl never.

Fixpoint noUpper (s : string) : bool := match s with EmptyString => true | String a s => negb (is_upper a) && noUpper s end.

(** A word after the first, and the first word of a name. *)
Definition isWord (w : string) : Prop := match w with EmptyString => False | String a s => is_upper a = true /\ noUpper s = true end.
Definition isFirstWord (w : string) : Prop := match w with EmptyString => False | String _ s => noUpper s = true end.
Definition wordList (ws : list string) : Prop := match ws with [] => True | w :: ws => isFirstWord w /\ Forall isWord ws end.

Lemma noUpper_app s t : noUpper (s +:+ t) = noUpper s && noUpper t.
Proof. induction s as [|a s IH]; [done|]. rewrite string_app_cons. simpl. by rewrite IH, andb_assoc. Qed.

Lemma str_cons s l : str (s :: l) = s +:+ str l.
Proof. done. Qed.

Lemma wordsFrom_spec s a cur : noUpper cur = true ->
  exists w ws, wordsFrom (String a cur) s = String a w :: ws /\ noUpper w = true /\ Forall isWord ws /\ str (String a w :: ws) = String a cur +:+ s.
Proof.
  revert a cur. induction s as [|b s IH]; intros a cur Hc; simpl.
  - exists cur, []. split_and!; [done|done|constructor|]. by rewrite str_cons, !string_app_nil_r.
  - destruct (is_upper b) eqn:Eb.
    + destruct (IH b "" eq_refl) as (w & ws & -> & Hw & Hws & E). exists cur, (String b w :: ws). split_and!; [done|done|by constructor|].
      rewrite str_cons, E. done.
    + rewrite string_app_cons. destruct (IH a (cur +:+ String b "")) as (w & ws & -> & Hw & Hws & E).
      { rewrite noUpper_app. simpl. by rewrite Hc, Eb. }
      exists w, ws. split_and!; [done..|]. rewrite E, !string_app_cons, string_app_assoc. done.
Qed.

Lemma wordsFrom_text a cur s rest : noUpper s = true -> wordsFrom (String a cur) (s +:+ rest) = wordsFrom (String a (cur +:+ s)) rest.
Proof.
  revert cur. induction s as [|b s IH]; intros cur; simpl; [by rewrite string_app_nil_r|]. intros [Hb%negb_true_iff Hs]%andb_true_iff.
  rewrite string_app_cons. simpl. rewrite Hb. change (String a cur +:+ ?x) with (String a (cur +:+ x)). rewrite IH by done. by rewrite string_app_assoc.
Qed.

Lemma wordsFrom_words ws a cur : Forall isWord ws -> wordsFrom (String a cur) (str ws) = String a cur :: ws.
Proof.
  intros H. revert a cur. induction H as [|w ws Hw _ IH]; intros a cur; [done|]. destruct w as [|b w]; [done|]. destruct Hw as [Hb Hw].
  rewrite str_cons, string_app_cons. simpl. rewrite Hb. f_equal. rewrite wordsFrom_text by done. apply IH.
Qed.

(** a method name is read as words in one way: the words of a name are the
    list that spells it, each word starting at an upper-case letter and holding
    no other, except that the first may start with any character. *)
Theorem words_reading (name : string) (ws : list string) : words name = ws <-> str ws = name /\ wordList ws.
Proof.
  split.
  - intros <-. destruct name as [|a s]; [done|]. simpl. destruct (wordsFrom_spec s a "" eq_refl) as (w & ws & -> & Hw & Hws & E).
    split; [exact E|by split].
  - intros [<- H]. destruct ws as [|[|a w] ws]; [done|by destruct H|]. destruct H as [Hw Hws]. rewrite str_cons, string_app_cons. simpl.
    rewrite wordsFrom_text by done. by apply wordsFrom_words.
Qed.

(** ** Separators *)

Definition plainWords (separators : list string) (ws : list string) : Prop := Forall (fun w => w ∉ separators) ws.

(** The words that parts come from. *)
Definition joinParts (parts : list WordPart) : list string :=
  match parts with
  | [] => []
  | p :: parts => wp_words p ++ concat (map (fun p => wp_sep p :: wp_words p) parts)
  end.

Definition partList (separators : list string) (parts : list WordPart) : Prop :=
  match parts with
  | [] => False
  | p :: rest => wp_sep p = "" /\ Forall (fun p => plainWords separators (wp_words p)) parts /\ Forall (fun p => wp_sep p ∈ separators) rest
  end.

Lemma splitWordsFrom_spec seps sep cur ws : plainWords seps cur ->
  exists p parts, splitWordsFrom seps sep cur ws = p :: parts /\ wp_sep p = sep /\
    Forall (fun p => plainWords seps (wp_words p)) (p :: parts) /\ Forall (fun p => wp_sep p ∈ seps) parts /\ joinParts (p :: parts) = cur ++ ws.
Proof.
  revert sep cur. induction ws as [|w ws IH]; intros sep cur Hc; simpl.
  - eexists _, []. split_and!; [done|done|by repeat constructor|constructor|done].
  - unfold includes. case_bool_decide as Hw.
    + destruct (IH w [] (Forall_nil_2 _)) as (p & parts & -> & E & F & G & J). eexists _, (p :: parts).
      split_and!; [done|done|by constructor|constructor; [by rewrite E|done]|]. simpl. f_equal. rewrite E. f_equal. exact J.
    + destruct (IH sep (cur ++ [w])) as (p & parts & -> & E & F & G & J).
      { apply Forall_app. split; [done|by repeat constructor]. }
      exists p, parts. split_and!; [done..|]. etrans; [exact J|]. by rewrite <- app_assoc.
Qed.

Lemma splitWordsFrom_plain seps sep cur ws rest : plainWords seps ws -> splitWordsFrom seps sep cur (ws ++ rest) = splitWordsFrom seps sep (cur ++ ws) rest.
Proof.
  intros H. revert cur. induction H as [|w ws Hw _ IH]; intros cur; simpl; [by rewrite app_nil_r|]. unfold includes. rewrite bool_decide_false by done.
  rewrite IH. by rewrite <- app_assoc.
Qed.

Lemma splitWordsFrom_parts seps p parts : Forall (fun p => plainWords seps (wp_words p)) (p :: parts) -> Forall (fun p => wp_sep p ∈ seps) parts ->
  splitWordsFrom seps (wp_sep p) [] (joinParts (p :: parts)) = p :: parts.
Proof.
  intros H G. revert p H. induction G as [|q parts Hq _ IH]; intros p H; inversion H as [|? ? Hp Hr]; subst; simpl.
  - rewrite splitWordsFrom_plain by done. simpl. by destruct p.
  - rewrite splitWordsFrom_plain by done. simpl. unfold includes. rewrite bool_decide_true by done. destruct p. f_equal. by apply IH.
Qed.

(** words are split at the separators in one way: the parts are the list that
    restores the words, with a separator at the front of each part but the
    first and no separator inside a part. *)
Theorem splitWords_reading (ws separators : list string) (parts : list WordPart) :
  splitWords ws separators = parts <-> joinParts parts = ws /\ partList separators parts.
Proof.
  unfold splitWords. split.
  - intros <-. destruct (splitWordsFrom_spec separators "" [] ws (Forall_nil_2 _)) as (p & parts & -> & E & F & G & J). by split_and!.
  - intros [<- H]. destruct parts as [|p parts]; [done|]. destruct H as (E & F & G). rewrite <- E. by apply splitWordsFrom_parts.
Qed.

(** ** Columns read from a name *)

Lemma columnIndex_sound e name c : columnIndex e name = Some c -> pascal c = name /\ exists f, f ∈ e_fields e /\ f_name f = c.
Proof.
  unfold columnIndex. destruct (List.find _ _) as [f|] eqn:E; [|done]. intros [= <-]. apply List.find_some in E as [Hf Hn].
  apply bool_decide_eq_true in Hn. split; [done|]. exists f. split; [|done]. apply list_elem_of_In. by apply in_rev.
Qed.

(** Columns joined by With. *)
Definition columnsRead (e : Entity) (ws cols : list string) : Prop :=
  Forall2 (fun part c => columnIndex e (str (wp_words part)) = Some c) (splitWords ws ["With"]) cols.

Lemma splitWithFrom_read e sep cur ws cols :
  splitWithFrom e cur ws = Some cols <-> Forall2 (fun part c => columnIndex e (str (wp_words part)) = Some c) (splitWordsFrom ["With"] sep cur ws) cols.
Proof.
  revert sep cur cols. induction ws as [|w ws IH]; intros sep cur cols; simpl.
  - rewrite bind_Some. split.
    + intros (c & Hc & [= <-]). by repeat constructor.
    + intros H. inversion H as [|? c ? l Hc Hl]; subst. inversion Hl; subst. eauto.
  - unfold includes. case_bool_decide as Hw.
    + apply list_elem_of_singleton in Hw as ->. rewrite decide_True by done. rewrite bind_Some. split.
      * intros (c & Hc & (rest & Hr & [= <-])%bind_Some). constructor; [done|]. by apply IH.
      * intros H. inversion H as [|? c ? l Hc Hl]; subst. exists c. split; [done|]. apply bind_Some. exists l. split; [|done]. by eapply IH.
    + rewrite decide_False by (intros ->; apply Hw; by apply list_elem_of_singleton). apply IH.
Qed.

Lemma splitWith_read e ws cols : splitWith e ws = Some cols <-> columnsRead e ws cols.
Proof. apply splitWithFrom_read. Qed.

(** ** The meanings of a condition key *)

Section meaning.
Variables (model : RuntimeModel) (e : Entity).

Inductive Meaning (ws : list string) : ChainKey -> Prop :=
  | meaning_column c : columnIndex e (str ws) = Some c -> Meaning ws (columnKey "" c)
  | meaning_leading w op rest c :
      ws = w :: rest -> rest <> [] -> assoc w leadingOps = Some op -> ~ (w = "Ne" /\ head rest = Some "Tuple") ->
      columnIndex e (str rest) = Some c -> Meaning ws (columnKey op c)
  | meaning_tuple rest cols :
      ws = "Tuple" :: rest -> columnsRead e rest cols -> (2 <= length cols)%nat -> Meaning ws (columnsKey "tuple" cols)
  | meaning_ne_tuple rest cols :
      ws = "Ne" :: "Tuple" :: rest -> columnsRead e rest cols -> (2 <= length cols)%nat -> Meaning ws (columnsKey "ne_tuple" cols)
  | meaning_fulltext rest cols :
      ws = "Fulltext" :: rest -> head rest <> Some "Boolean" -> columnsRead e rest cols -> Meaning ws (columnsKey "fulltext" cols)
  | meaning_fulltext_boolean rest cols :
      ws = "Fulltext" :: "Boolean" :: rest -> columnsRead e rest cols -> Meaning ws (columnsKey "fulltext_boolean" cols)
  | meaning_compare l w op r c d :
      ws = l ++ w :: r -> l <> [] -> r <> [] -> assoc w compareOps = Some op -> columnIndex e (str l) = Some c ->
      columnName model None (str r) = d -> d <> "" -> Meaning ws (compareKey op c d).

Lemma columnsRead_length ws cols : columnsRead e ws cols -> (1 <= length cols)%nat.
Proof.
  intros H. apply Forall2_length in H. destruct (splitWordsFrom_spec ["With"] "" [] ws (Forall_nil_2 _)) as (p & parts & E & _).
  unfold splitWords in H. rewrite E in H. simpl in H. lia.
Qed.

Lemma columnsFound_in op n error ws k : k ∈ fst (columnsFound e op n error ws) <->
  exists cols, columnsRead e ws cols /\ (n <= length cols)%nat /\ k = columnsKey op cols.
Proof.
  unfold columnsFound. destruct (splitWith e ws) as [cols|] eqn:E.
  - destruct (Nat.leb_spec n (length cols)); simpl.
    + rewrite list_elem_of_singleton. split; [intros ->; exists cols; split_and!; [by apply splitWith_read|done|done]|].
      intros (cols' & Hc & _ & ->). apply splitWith_read in Hc. congruence.
    + rewrite elem_of_nil. split; [done|]. intros (cols' & Hc & Hl & _). apply splitWith_read in Hc. assert (cols' = cols) as -> by congruence. lia.
  - simpl. rewrite elem_of_nil. split; [done|]. intros (cols' & Hc & _). apply splitWith_read in Hc. congruence.
Qed.

Lemma wholeFound_in ws k : k ∈ fst (wholeFound e ws) <-> exists c, columnIndex e (str ws) = Some c /\ k = columnKey "" c.
Proof. unfold wholeFound. destruct (columnIndex _ _); simpl; rewrite ?list_elem_of_singleton, ?elem_of_nil; naive_solver. Qed.

Lemma leadingFound_in ws k : k ∈ fst (leadingFound e ws) <->
  (exists w op rest c, ws = w :: rest /\ rest <> [] /\ assoc w leadingOps = Some op /\ ~ (w = "Ne" /\ head rest = Some "Tuple") /\
     columnIndex e (str rest) = Some c /\ k = columnKey op c) \/
  (exists rest cols, ws = "Ne" :: "Tuple" :: rest /\ columnsRead e rest cols /\ (2 <= length cols)%nat /\ k = columnsKey "ne_tuple" cols).
Proof.
  destruct ws as [|w [|w1 rest]]; simpl; [rewrite elem_of_nil; naive_solver..|].
  destruct (decide (w = "Ne" /\ w1 = "Tuple")) as [[-> ->]|Hn].
  - change (assoc "Ne" leadingOps) with (Some "ne"). cbn [bool_decide andb decide]. rewrite !bool_decide_true by done. cbn [andb].
    rewrite columnsFound_in. split.
    + intros (cols & ? & ? & ->). right. eauto 10.
    + intros [(w & op & r & c & [= <- <-] & _ & _ & Hx & _)|(r & cols & [= <-] & ? & ? & ->)]; [|eauto]. by destruct Hx.
  - assert (bool_decide (w = "Ne") && bool_decide (w1 = "Tuple") = false) as Hb by (do 2 case_bool_decide; naive_solver). rewrite Hb.
    destruct (assoc w leadingOps) as [op|] eqn:Eo; simpl.
    + destruct (columnIndex e (str (w1 :: rest))) as [c|] eqn:Ec; simpl; rewrite ?list_elem_of_singleton, ?elem_of_nil; split.
      * intros ->. left. exists w, op, (w1 :: rest), c. split_and!; [done..| |done|done]. simpl. naive_solver.
      * intros [(? & op' & r & c' & [= <- <-] & _ & Ho & _ & Hc & ->)|(r & cols & [= -> ->] & _)]; [congruence|]. naive_solver.
      * done.
      * intros [(? & op' & r & c' & [= <- <-] & _ & Ho & _ & Hc & ->)|(r & cols & [= -> ->] & _)]; [congruence|]. naive_solver.
    + rewrite elem_of_nil. split; [done|]. intros [(? & op' & r & c' & [= <- <-] & _ & Ho & _)|(r & cols & [= -> ->] & _)]; [congruence|]. naive_solver.
Qed.

Lemma tupleFound_in ws k : k ∈ fst (tupleFound e ws) <->
  exists rest cols, ws = "Tuple" :: rest /\ columnsRead e rest cols /\ (2 <= length cols)%nat /\ k = columnsKey "tuple" cols.
Proof.
  destruct ws as [|w rest]; simpl; [rewrite elem_of_nil; naive_solver|]. destruct (decide (w = "Tuple")) as [->|Hn].
  - rewrite columnsFound_in. naive_solver.
  - simpl. rewrite elem_of_nil. naive_solver.
Qed.

Lemma fulltextFound_in ws k : k ∈ fst (fulltextFound e ws) <->
  (exists rest cols, ws = "Fulltext" :: rest /\ head rest <> Some "Boolean" /\ columnsRead e rest cols /\ k = columnsKey "fulltext" cols) \/
  (exists rest cols, ws = "Fulltext" :: "Boolean" :: rest /\ columnsRead e rest cols /\ k = columnsKey "fulltext_boolean" cols).
Proof.
  destruct ws as [|w rest]; simpl; [rewrite elem_of_nil; naive_solver|]. destruct (decide (w = "Fulltext")) as [->|Hn].
  - assert (rest !! 0%nat = head rest) as -> by (by destruct rest). case_bool_decide as Hb; rewrite columnsFound_in.
    + destruct rest as [|b rest]; [done|]. injection Hb as ->. simpl. rewrite drop_0. split; [naive_solver|].
      intros [(r & cols & [= <-] & Hx & _)|(r & cols & [= <-] & Hr & ->)]; [done|]. pose proof (columnsRead_length _ _ Hr). eauto.
    + split; [naive_solver|]. intros [(r & cols & [= <-] & _ & Hr & ->)|(r & cols & [= ->] & _)]; [|done]. pose proof (columnsRead_length _ _ Hr). eauto.
  - simpl. rewrite elem_of_nil. naive_solver.
Qed.

Lemma compareFound_in ws i k : k ∈ fst (compareFound model e ws i) <->
  exists w op c d, ws !! i = Some w /\ assoc w compareOps = Some op /\ columnIndex e (str (take i ws)) = Some c /\
    columnName model None (str (drop (S i) ws)) = d /\ d <> "" /\ k = compareKey op c d.
Proof.
  unfold compareFound. destruct (ws !! i) as [w|] eqn:Ew; simpl; [|rewrite elem_of_nil; naive_solver].
  destruct (assoc w compareOps) as [op|] eqn:Eo; simpl; [|rewrite elem_of_nil; naive_solver].
  destruct (columnIndex e (str (take i ws))) as [c|] eqn:Ec; simpl; [|rewrite elem_of_nil; naive_solver].
  destruct (decide (columnName model None (str (drop (S i) ws)) = "")) as [E|E].
  - rewrite decide_True by done. simpl. rewrite elem_of_nil. naive_solver.
  - rewrite decide_False by done. simpl. rewrite list_elem_of_singleton. naive_solver.
Qed.

Lemma keyFound_meaning ws k : k ∈ concat (map fst (keyFound model e ws)) <-> Meaning ws k.
Proof.
  unfold keyFound. rewrite !map_cons. change (concat (?a :: ?b)) with (a ++ concat b). rewrite !elem_of_app.
  change (concat (?a :: ?b :: ?c :: ?d)) with (a ++ b ++ c ++ concat d). rewrite !elem_of_app.
  rewrite wholeFound_in, leadingFound_in, tupleFound_in, fulltextFound_in, elem_of_concat. split.
  - intros [(c & Hc & ->)|[[(w & op & rest & c & ? & ? & ? & ? & ? & ->)|(rest & cols & ? & ? & ? & ->)]|[(rest & cols & ? & ? & ? & ->)|[[(rest & cols & ? & ? & ? & ->)|(rest & cols & ? & ? & ->)]|(l & Hl & H)]]]];
      try (by econstructor).
    rewrite map_map in H. apply list_elem_of_fmap in H as (i & -> & Hi). apply list_elem_of_In, in_seq in Hi.
    apply compareFound_in in Hl as (w & op & c & d & Hw & Ho & Hc & Hd & Hn & ->).
    eapply (meaning_compare ws (take i ws) w op (drop (S i) ws)); try done.
    + symmetry. by apply take_drop_middle.
    + intros E. apply (f_equal length) in E. rewrite length_take in E. simpl in E. lia.
    + intros E. apply (f_equal length) in E. rewrite length_drop in E. simpl in E. lia.
  - destruct 1 as [c Hc|w op rest c ? ? ? ? ?|rest cols ? ? ?|rest cols ? ? ?|rest cols ? ? ?|rest cols ? ?|l w op r c d -> Hl Hr Ho Hc Hd Hn];
      try (naive_solver eauto 20).
    do 4 right. exists (fst (compareFound model e (l ++ w :: r) (length l))). split.
    + apply compareFound_in. exists w, op, c, d. rewrite take_app_length, (drop_app_add l (w :: r) 1) || idtac. split_and!; try done.
      * by rewrite lookup_app_r, Nat.sub_diag by lia.
      * by rewrite take_app_length.
      * replace (S (length l)) with (length l + 1)%nat by lia. by rewrite drop_app_add.
    + rewrite map_map. apply list_elem_of_fmap. exists (length l). split; [done|]. apply list_elem_of_In, in_seq.
      rewrite length_app. destruct l, r; simpl; try done; lia.
Qed.

(** No meaning is collected twice. *)
Lemma NoDup_one {A} (l : list A) : (length l <= 1)%nat -> NoDup l.
Proof. destruct l as [|x [|y l]]; simpl; intros; [constructor|apply NoDup_singleton|lia]. Qed.

Lemma NoDup_concat_seq {A} (f : nat -> list A) a n : (forall i, NoDup (f i)) -> (forall i j x, (i < j)%nat -> x ∈ f i -> x ∈ f j -> False) ->
  NoDup (concat (map f (seq a n))).
Proof.
  intros Hf Hd. revert a. induction n as [|n IH]; intros a; simpl; [constructor|]. apply NoDup_app. split_and!; [done| |apply IH].
  intros x Hx (l & Hl & (j & -> & Hj)%list_elem_of_fmap)%elem_of_concat. apply list_elem_of_In, in_seq in Hj. by apply (Hd a j x); [lia|..].
Qed.

Lemma columnIndex_inj x y c : columnIndex e x = Some c -> columnIndex e y = Some c -> x = y.
Proof. intros [<- _]%columnIndex_sound [<- _]%columnIndex_sound. done. Qed.

Lemma compareOps_word w op : assoc w compareOps = Some op -> w <> "".
Proof. by intros H ->. Qed.

Lemma compareFound_disjoint ws i j k : (i < j)%nat -> k ∈ fst (compareFound model e ws i) -> k ∈ fst (compareFound model e ws j) -> False.
Proof.
  intros Hij (w & op & c & d & Hw & Ho & Hc & _ & _ & ->)%compareFound_in (w' & op' & c' & d' & _ & _ & Hc' & _ & _ & [= <- <- <-])%compareFound_in.
  pose proof (columnIndex_inj _ _ _ Hc Hc') as E. apply (f_equal String.length) in E.
  replace (take j ws) with (take i ws ++ w :: drop (S i) (take j ws)) in E.
  - rewrite str_app, str_cons, !string_length_app in E. apply compareOps_word in Ho. destruct w; [done|]. simpl in E. lia.
  - rewrite <- (take_drop i (take j ws)) at 2. rewrite take_take, Nat.min_l by lia. f_equal. symmetry. apply drop_S. by rewrite lookup_take_lt.
Qed.

Lemma Found_one (f : Found) : (length (fst f) <= 1)%nat -> NoDup (fst f).
Proof. apply NoDup_one. Qed.

Lemma columnsFound_one op n error ws : (length (fst (columnsFound e op n error ws)) <= 1)%nat.
Proof. unfold columnsFound. destruct (splitWith e ws); [|simpl; lia]. destruct (_ <=? _)%nat; simpl; lia. Qed.

Lemma leadingOps_word w op : assoc w leadingOps = Some op -> w <> "".
Proof. by intros H ->. Qed.

Lemma columnKey_columns op c op' ws cols : columnsRead e ws cols -> columnsKey op' cols <> columnKey op c.
Proof. intros Hr%columnsRead_length [= _ _ ->]. simpl in Hr. lia. Qed.

Lemma keyFound_nodup ws : NoDup (concat (map fst (keyFound model e ws))).
Proof.
  assert (forall i, NoDup (fst (compareFound model e ws i))) as Hcmp.
  { intros i. apply NoDup_one. unfold compareFound. repeat case_match; simpl; lia. }
  assert (NoDup (fst (wholeFound e ws))) as Hwhole by (apply NoDup_one; unfold wholeFound; case_match; simpl; lia).
  assert (NoDup (fst (tupleFound e ws))) as Htuple.
  { apply NoDup_one. unfold tupleFound. repeat case_match; simpl; try lia. apply columnsFound_one. }
  assert (NoDup (fst (fulltextFound e ws))) as Hfull.
  { apply NoDup_one. unfold fulltextFound. repeat case_match; simpl; try lia; apply columnsFound_one. }
  assert (NoDup (fst (leadingFound e ws))) as Hlead.
  { apply NoDup_one. unfold leadingFound. repeat case_match; simpl; try lia; apply columnsFound_one. }
  unfold keyFound. rewrite !map_cons, map_map. change (concat (?a :: ?b :: ?c :: ?d :: ?l)) with (a ++ b ++ c ++ d ++ concat l).
  assert (forall k, k ∈ concat (map (fun i => fst (compareFound model e ws i)) (seq 1 (length ws - 2))) -> k_compare k <> "") as Hk.
  { intros k (l & Hl & (i & -> & _)%list_elem_of_fmap)%elem_of_concat. apply compareFound_in in Hl as (w & op & c & d & _ & _ & _ & _ & Hd & ->). done. }
  repeat (apply NoDup_app; split_and!); try done.
  - intros k Hw. apply wholeFound_in in Hw as (c & Hc & ->). rewrite !elem_of_app. intros [Hl|[Ht|[Hf|Hx%Hk]]]; [| | |done].
    + apply leadingFound_in in Hl as [(w & op & rest & c' & -> & _ & Ho & _ & Hc' & E')|(? & ? & _ & _ & _ & [=])]. injection E' as _ <-.
      pose proof (columnIndex_inj _ _ _ Hc Hc') as E. apply (f_equal String.length) in E. apply leadingOps_word in Ho.
      rewrite str_cons, string_length_app in E. destruct w; [done|]. simpl in E. lia.
    + apply tupleFound_in in Ht as (? & ? & _ & _ & _ & [=]).
    + apply fulltextFound_in in Hf as [(? & ? & _ & _ & _ & [=])|(? & ? & _ & _ & [=])].
  - intros k Hl. rewrite !elem_of_app. intros [Ht|[Hf|Hx%Hk]].
    + apply tupleFound_in in Ht as (? & ? & -> & Hr & _ & ->).
      apply leadingFound_in in Hl as [(? & ? & ? & ? & _ & _ & _ & _ & _ & E)|(? & ? & [=] & _)]; by eapply columnKey_columns.
    + apply fulltextFound_in in Hf as [(? & ? & -> & _ & Hr & ->)|(? & ? & -> & Hr & ->)];
        apply leadingFound_in in Hl as [(? & ? & ? & ? & _ & _ & _ & _ & _ & E)|(? & ? & [=] & _)]; by eapply columnKey_columns.
    + apply Hx. by apply leadingFound_in in Hl as [(? & ? & ? & ? & _ & _ & _ & _ & _ & ->)|(? & ? & _ & _ & _ & ->)].
  - intros k Ht. apply tupleFound_in in Ht as (? & ? & -> & _ & _ & ->). rewrite !elem_of_app. intros [Hf|Hx%Hk]; [|done].
    by apply fulltextFound_in in Hf as [(? & ? & [=] & _)|(? & ? & [=] & _)].
  - intros k Hf Hx%Hk. apply Hx. by apply fulltextFound_in in Hf as [(? & ? & _ & _ & _ & ->)|(? & ? & _ & _ & ->)].
  - by apply NoDup_concat_seq; [|apply compareFound_disjoint].
Qed.

(** C22: a condition key is read exactly when it has one meaning, and then as that
    meaning: a column, an operator before a column, a tuple or a full-text list
    of columns, or a comparison of two columns. Words with no meaning, or with
    more than one, are refused. *)
Theorem parseKey_meaning (ws : list string) (k : ChainKey) :
  parseKey model e ws = Ok k <-> ws <> [] /\ Meaning ws k /\ forall k', Meaning ws k' -> k' = k.
Proof.
  pose proof (keyFound_nodup ws) as Hn. pose proof (keyFound_meaning ws) as Hm. unfold parseKey. destruct ws as [|w ws]; [naive_solver|]. cbv zeta.
  destruct (concat (map fst (keyFound model e (w :: ws)))) as [|k1 [|k2 l]].
  - split; [done|]. intros (_ & Hk%Hm & _). by apply elem_of_nil in Hk.
  - split.
    + intros [= <-]. split_and!; [done|apply Hm; left|]. intros k' Hk%Hm. by apply list_elem_of_singleton in Hk.
    + intros (_ & Hk%Hm & _). apply list_elem_of_singleton in Hk. congruence.
  - split; [done|]. intros (_ & _ & Hu). exfalso. apply NoDup_cons in Hn as [Hn _]. apply Hn.
    assert (k1 = k) as -> by (apply Hu, Hm; left). assert (k2 = k) as -> by (apply Hu, Hm; right; left). left.
Qed.
End meaning.

(** ** Column names and their PascalCase names *)

(** A part of a column name: a lower-case letter, then anything but an
    upper-case letter. *)
Definition plainPart (p : string) : Prop := match p with EmptyString => False | String a s => is_lower a = true /\ noUpper s = true end.

Lemma lower_upper a : is_lower a = true -> is_upper (upper a) = true /\ lower (upper a) = a.
Proof. destruct a as [[] [] [] [] [] [] [] []]; vm_compute; intros [=]; by split. Qed.

Lemma snakeFrom_plain b s rest : noUpper s = true -> s <> "" \/ b = false -> snakeFrom b (s +:+ rest) = s +:+ snakeFrom false rest.
Proof.
  revert b. induction s as [|a s IH]; intros b; simpl; [intros _ [| ->]; done|]. intros [Ha%negb_true_iff Hs]%andb_true_iff _.
  rewrite string_app_cons. simpl. rewrite Ha. rewrite IH by auto. done.
Qed.

Lemma snakeFrom_part b p rest : plainPart p -> snakeFrom b (upperFirst p +:+ rest) = (if b then "" else "_") +:+ p +:+ snakeFrom false rest.
Proof.
  destruct p as [|a s]; [done|]. intros [Ha Hs]. destruct (lower_upper a Ha) as [Hu Hl]. simpl. rewrite string_app_cons. simpl. rewrite Hu, Hl.
  rewrite snakeFrom_plain by auto. by destruct b.
Qed.

(** no two column names have one PascalCase name when each part between
    underscores starts with a lower-case letter: the name in snake case gives
    the column back. *)
Theorem snake_pascal (name : string) : Forall plainPart (split_on "_" name) -> snake (pascal name) = name.
Proof.
  intros H. rewrite <- (join_split "_" name) at 2. unfold snake, pascal.
  destruct H as [|p ps Hp Hps]; [done|]. rewrite map_cons, str_cons, snakeFrom_part by done. change ("" +:+ ?x) with x.
  assert (snakeFrom false (str (map upperFirst ps)) = str (map (fun p => "_" +:+ p) ps)) as ->.
  { induction Hps as [|q ps Hq _ IH]; [done|]. rewrite !map_cons, !str_cons, snakeFrom_part, IH by done. by rewrite string_app_assoc. }
  revert p Hp. induction Hps as [|q ps Hq _ IH]; intros p Hp; [apply string_app_nil_r|].
  rewrite map_cons, str_cons, string_app_assoc, IH by done. done.
Qed.

Lemma snake_pascal_witness : snake (pascal "user_account_id") = "user_account_id".
Proof. apply (snake_pascal "user_account_id"). by repeat constructor. Defined.
