(* ===== verification/GroupRows.v ===== *)
(** * Grouped results ([group_rows.ts])

    A grouped result holds the selected values of a row by name and a checked
    row count. *)

From S2P Require Import Prelude Values Decimal Times.

Definition notExact {A} : res A := Err (OrmError CODEC_DECODE "group result row_count is not an exact integer").

(** [Number.MAX_SAFE_INTEGER] *)
Definition maxSafe : Z := 2 ^ 53 - 1.

(** A text of decimal digits with no zero at its front, but for zero itself. *)
Definition plainNumber (s : string) : bool :=
  match s with
  | EmptyString => false
  | String a rest => if decide (a = "0"%char) then bool_decide (rest = "") else is_digit a && all_digits rest
  end.

(** The count of a [row_count] cell.  [Number(value)] of a text above
    [Number.MAX_SAFE_INTEGER] is above it too, whatever it is rounded to. *)
Definition checkedCount (value : JsValue) : res Z :=
  match value with
  | JBigint n => if (n <? 0) || (maxSafe <? n) then notExact else Ok n
  | JString s => if plainNumber s then if isSafeInteger (num s) then Ok (num s) else notExact else notExact
  | JInt n => if isSafeInteger n then if n <? 0 then notExact else Ok n else notExact
  | _ => notExact
  end.

Record GroupRow := mkGroupRow { gr_values : list (string * JsValue); gr_count : Z }.

Definition addEntry (values : list (string * JsValue)) (entry : string * JsValue) : res (list (string * JsValue)) :=
  let '(name, value) := entry in
  if bool_decide (name = "") || bool_decide (is_Some (assoc name values))
  then Err (OrmError CONFIG (str ["group result repeats or omits column "; name]))
  else Ok (assoc_set name value values).

(** [new GroupRow(entries)] *)
Definition newGroupRow (entries : list (string * JsValue)) : res GroupRow :=
  values ← foldR addEntry [] entries;
  cell ← or_fail (assoc "row_count" values) INTERNAL "group result has no row_count";
  count ← checkedCount cell;
  Ok (mkGroupRow (assoc_set "row_count" (JInt count) values) count).

Definition groupValue (row : GroupRow) (name : string) : res JsValue :=
  or_fail (assoc name (gr_values row)) COLUMN_UNSELECTED (str ["group column "; name; " was not selected"]).

(** ** Counts *)

Lemma pretty_N_go_front x s : (0 < x)%N -> exists a r, pretty_N_go x s = String a r /\ a <> "0"%char.
Proof.
  revert s. induction (N.lt_wf_0 x) as [x _ IH]. intros s Hx. rewrite pretty_N_go_step by done.
  destruct (decide (x / 10 = 0)%N) as [E|E].
  - rewrite E, pretty_N_go_0. eexists _, _. split; [done|]. assert (x < 10)%N as Hl by (apply N.div_small_iff in E; [exact E|lia]).
    rewrite N.mod_small by done. destruct x as [|p]; [lia|]. do 4 (try destruct p as [p|p|]); simpl; (done || lia).
  - apply IH; [apply N.div_lt; lia|by apply N.neq_0_lt_0].
Qed.

Lemma strip_front a s : a <> "0"%char -> strip_zeros (String a s) = String a s.
Proof. intros Ha. simpl. by rewrite decide_False. Qed.

Lemma canonWhole_pretty n : 0 <= n -> canonWhole (pretty n).
Proof.
  intros Hn. destruct (digits_pretty n Hn) as (Hd & _ & Hne). split; [done|]. destruct n as [|p|p]; [by left| |lia]. right. split; [done|].
  change (pretty (Z.pos p)) with (pretty (N.pos p)). unfold pretty, pretty_N. rewrite decide_False by done.
  destruct (pretty_N_go_front (N.pos p) "" ltac:(lia)) as (a & r & -> & Ha). by apply strip_front.
Qed.

Lemma plainNumber_canon s : plainNumber s = true -> canonWhole s.
Proof.
  destruct s as [|a s]; [done|]. simpl. destruct (decide (a = "0"%char)) as [->|Ha].
  - intros ->%bool_decide_eq_true. split; [done|by left].
  - intros Hd. split; [done|]. right. split; [done|]. by apply strip_front.
Qed.

Lemma canon_plainNumber s : canonWhole s -> plainNumber s = true.
Proof.
  intros [Hd [->|[Hne Hs]]]; [done|]. destruct s as [|a s]; [done|]. simpl. destruct (decide (a = "0"%char)) as [->|Ha]; [|done].
  exfalso. simpl in Hs. apply (f_equal String.length) in Hs. pose proof (length_strip s). simpl in Hs. lia.
Qed.

Lemma plainNumber_pretty s n : 0 <= n -> plainNumber s = true /\ num s = n <-> s = pretty n.
Proof.
  intros Hn. destruct (digits_pretty n Hn) as (_ & Hv & _). split.
  - intros [Hp Hs]. apply canonWhole_unique; [by apply plainNumber_canon|by apply canonWhole_pretty|]. unfold num in Hs. congruence.
  - intros ->. split; [by apply canon_plainNumber, canonWhole_pretty|done].
Qed.

Lemma checkedCount_spec (value : JsValue) (n : Z) :
  checkedCount value = Ok n <-> 0 <= n <= maxSafe /\ (value = JInt n \/ value = JBigint n \/ value = JString (pretty n)).
Proof.
  unfold checkedCount, notExact, isSafeInteger, maxSafe. split.
  - destruct value as [| | |m| | | |m|s| | |]; try done.
    + destruct (Z.leb_spec (Z.abs m) (2 ^ 53 - 1)); [|done]. destruct (Z.ltb_spec m 0); [done|]. intros [= <-]. split; [lia|auto].
    + destruct (Z.ltb_spec m 0); [done|]. destruct (Z.ltb_spec (2 ^ 53 - 1) m); [done|]. intros [= <-]. split; [lia|auto].
    + destruct (plainNumber s) eqn:Ep; [|done]. destruct (Z.leb_spec (Z.abs (num s)) (2 ^ 53 - 1)) as [Hl|]; [|done]. intros [= <-].
      assert (0 <= num s) as Hn by (apply plainNumber_canon in Ep as [Hd _]; apply digits_val_range in Hd; unfold num; lia).
      split; [lia|]. right. right. f_equal. by apply plainNumber_pretty.
  - intros [Hn [->|[->| ->]]].
    + rewrite (proj2 (Z.leb_le _ _)) by lia. by rewrite (proj2 (Z.ltb_ge _ _)) by lia.
    + rewrite (proj2 (Z.ltb_ge n 0)) by lia. by rewrite (proj2 (Z.ltb_ge _ n)) by lia.
    + destruct (proj2 (plainNumber_pretty (pretty n) n ltac:(lia)) eq_refl) as [-> ->]. by rewrite (proj2 (Z.leb_le _ _)) by lia.
Qed.

(** the count of a group is accepted in the forms that drivers return it in,
    a number, a bigint or plain decimal digits, and only from zero to the
    largest exact integer; every other value is refused. *)
Theorem checkedCount_exact (value : JsValue) (n : Z) :
  checkedCount value = Ok n <-> 0 <= n <= maxSafe /\ (value = JInt n \/ value = JBigint n \/ value = JString (pretty n)).
Proof. apply checkedCount_spec. Qed.

(** ** Rows *)

Lemma addEntries entries values out : NoDup (map fst values) -> foldR addEntry values entries = Ok out ->
  out = values ++ entries /\ NoDup (map fst out) /\ "" ∉ map fst entries.
Proof.
  revert values. induction entries as [|[k v] entries IH]; simpl; intros values Hn H.
  - injection H as <-. rewrite app_nil_r. split_and!; [done|done|by intros []%elem_of_nil].
  - apply bindR_ok in H as (values' & H1 & H2). unfold addEntry in H1. destruct (bool_decide (k = "")) eqn:Ek; [done|].
    destruct (bool_decide (is_Some (assoc k values))) eqn:Es; [done|]. injection H1 as <-.
    apply bool_decide_eq_false in Ek, Es. apply eq_None_not_Some in Es. rewrite assoc_set_new in H2 by done. apply IH in H2 as (-> & Hd & He).
    + rewrite <- app_assoc in Hd |- *. split_and!; [done|done|]. rewrite elem_of_cons. naive_solver.
    + rewrite map_app. apply NoDup_app. split_and!; [done| |apply NoDup_singleton]. intros x Hx ->%list_elem_of_singleton.
      by apply assoc_None in Es.
Qed.

(** a grouped row has one value for each of its names, none of them empty:
    it reads the value of its entry for every name but [row_count], which reads
    as the checked count, and it refuses every other name. *)
Theorem groupRow_values (entries : list (string * JsValue)) (row : GroupRow) :
  newGroupRow entries = Ok row ->
  NoDup (map fst entries) /\ "" ∉ map fst entries /\ 0 <= gr_count row <= maxSafe /\
  forall name v, groupValue row name = Ok v <->
    name = "row_count" /\ v = JInt (gr_count row) \/ name <> "row_count" /\ (name, v) ∈ entries.
Proof.
  intros (values & H & (cell & Hc & (count & Hn & [= <-])%bindR_ok)%bindR_ok)%bindR_ok. apply addEntries in H as (-> & Hd & He); [|constructor].
  simpl in *. split_and!; [done|done|by apply checkedCount_spec in Hn as [[] _]..|]. intros name v. unfold groupValue. simpl.
  rewrite or_fail_ok, assoc_set_get, <- (assoc_in _ _ _ Hd). destruct (decide (name = "row_count")); naive_solver.
Qed.
