(* ===== verification/AppliedAt.v ===== *)
(** * The time of a history row ([appliedAt] of [dbspec/apply.ts])

    The text of every safe count of microseconds has one length, is read as a
    date and time of UTC, and means that count. *)

From S2P Require Import Prelude Values Decimal Times BindCheck PlanFacts Apply Relations GroupRows.
From Stdlib Require Import Lia.

(** ** Padded numbers *)

(** A number without leading zeros has no more digits than a bound on it. *)
Lemma length_pretty n w : 0 <= n < 10 ^ Z.of_nat w -> (1 <= w)%nat -> (String.length (pretty n) <= w)%nat.
Proof.
  intros [Hn Hb] Hw. destruct (digits_pretty n Hn) as (Hd & Hv & _). destruct n as [|p|p]; [done| |lia].
  destruct (pretty_N_go_front (N.pos p) "" ltac:(lia)) as (a & r & E & Ha).
  change (pretty (Z.pos p)) with (pretty (N.pos p)) in *. unfold pretty, pretty_N in *. rewrite decide_False in * by done. rewrite E in *.
  rewrite all_digits_cons in Hd. apply andb_true_iff in Hd as [Ha' Hd]. cbn [digits_val] in Hv. rewrite digits_val_acc in Hv.
  pose proof (digits_val_range r Hd) as Hr. assert (1 <= digit_val a).
  { destruct (decide (digit_val a = 0)) as [E0|]; [|pose proof (digit_range a Ha'); lia]. exfalso. apply Ha. unfold digit_val in E0.
    rewrite <- (ascii_N_embedding a). by replace (N_of_ascii a) with 48%N by (apply digit_range in Ha' as ?; unfold digit_val in *; lia). }
  destruct (decide (S (String.length r) <= w)%nat) as [?|Hgt]; [done|]. exfalso.
  assert (10 ^ Z.of_nat w <= 10 ^ slen r) by (apply Z.pow_le_mono_r; [lia|unfold slen; lia]). nia.
Qed.

Lemma pad_text n w : 0 <= n < 10 ^ Z.of_nat w -> (1 <= w)%nat -> digitText w (padStart (pretty n) (Z.of_nat w) "0") /\ num (padStart (pretty n) (Z.of_nat w) "0") = n.
Proof.
  intros Hn Hw. pose proof (length_pretty n w Hn Hw) as Hl. destruct (digits_pretty n (proj1 Hn)) as (Hd & Hv & _).
  unfold padStart, digitText, num. rewrite Nat2Z.id, all_digits_app, digits_val_app, all_digits_zeros, digits_val_zeros, Hd, Hv.
  split; [split; [done|]|lia]. rewrite string_length_app, length_zeros. lia.
Qed.

(** ** The text *)

(** The microseconds from the epoch of a date and time of UTC. *)
Definition microsOf (m : DateTimeText) : Z :=
  (makeDay (num (dt_year m)) (num (dt_month m) - 1) (num (dt_day m)) * 86400 + num (dt_hour m) * 3600 + num (dt_minute m) * 60 + num (dt_second m)) * 1000000
  + num (dt_fraction m).

Definition isoText (m : DateTimeText) : string :=
  str [dt_year m; "-"; dt_month m; "-"; dt_day m; "T"; dt_hour m; ":"; dt_minute m; ":"; dt_second m].

(** The parts have the digits of an ISO text. *)
Definition isoParts (m : DateTimeText) : Prop :=
  digitText 4 (dt_year m) /\ digitText 2 (dt_month m) /\ digitText 2 (dt_day m) /\ digitText 2 (dt_hour m) /\ digitText 2 (dt_minute m) /\
  digitText 2 (dt_second m) /\ digitText 6 (dt_fraction m) /\ dt_offset m = Some 0.

Lemma isoText_length m : isoParts m -> String.length (isoText m) = 19%nat.
Proof.
  intros ([_ Hy] & [_ Hm] & [_ Hd] & [_ Hh] & [_ Hmi] & [_ Hs] & _). unfold isoText, str. rewrite !string_length_app. simpl. lia.
Qed.

(** The text reads back as its parts. *)
Lemma readDateTime_iso m : isoParts m -> readDateTime (str [isoText m; "."; dt_fraction m; "Z"]) = Some m.
Proof.
  intros (Hy & Hm & Hd & Hh & Hmi & Hs & Hf & Ho). destruct m as [y mo d h mi s f o].
  cbn [dt_year dt_month dt_day dt_hour dt_minute dt_second dt_fraction dt_offset] in *. subst o.
  change (str [isoText _; "."; f; "Z"]) with (str [y; "-"; mo; "-"; d; "T"; h; ":"; mi; ":"; s] +:+ String "." (f +:+ String "Z" "")).
  replace (str [y; "-"; mo; "-"; d; "T"; h; ":"; mi; ":"; s] +:+ String "." (f +:+ String "Z" ""))
    with (y +:+ String "-" (mo +:+ String "-" (d +:+ String "T" (h +:+ String ":" (mi +:+ String ":" (s +:+ String "." (f +:+ String "Z" ""))))))).
  2:{ unfold str. rewrite !string_app_assoc, ?string_app_nil_r. done. }
  unfold readDateTime. rewrite (proj2 (readDate_spec _ y mo d _)) by done. cbn [mbind option_bind].
  assert (E : forall t, char_in [" "%char; "T"%char] (String "T" t) = Some t) by done. rewrite E. clear E. cbn [mbind option_bind]. unfold readClock.
  rewrite (proj2 (digitsN_spec 2 _ h _)) by done. cbn [mbind option_bind]. rewrite (proj2 (char_in_one ":" _ _)) by done. cbn [mbind option_bind].
  rewrite (proj2 (digitsN_spec 2 _ mi _)) by done. cbn [mbind option_bind]. rewrite (proj2 (char_in_one ":" _ _)) by done. cbn [mbind option_bind].
  rewrite (proj2 (digitsN_spec 2 _ s _)) by done. cbn [mbind option_bind]. rewrite (proj2 (char_in_one "." _ _)) by done.
  destruct Hf as [Hf Hl]. rewrite digitsUpTo_app by (done || lia). rewrite decide_False by (by destruct f). done.
Qed.

Lemma yearOf_range a b day : dayFromYear a <= day < dayFromYear b -> a <= yearOf day < b.
Proof.
  intros Hd. pose proof (yearFromDay_spec day) as Hy. unfold yearOf. split.
  - destruct (decide (a <= yearFromDay day)) as [?|Hn]; [done|]. pose proof (dayFromYear_mono (yearFromDay day + 1) a). lia.
  - destruct (decide (yearFromDay day < b)) as [?|Hn]; [done|]. pose proof (dayFromYear_mono b (yearFromDay day)). lia.
Qed.

(** The parts of a time in milliseconds, with a fraction of microseconds. *)
Definition partsOfTime (t fraction : Z) : DateTimeText :=
  let day := dayOfTime t in
  mkDateTimeText (padStart (pretty (yearOf day)) 4 "0") (pad2 (monthOf day + 1)) (pad2 (dateOf day))
    (pad2 (hoursOf t)) (pad2 (minutesOf t)) (pad2 (secondsOf t)) (padStart (pretty fraction) 6 "0") (Some 0).

Lemma monthLength_31 y m : 0 <= m <= 11 -> monthLength y m <= 31.
Proof.
  intros Hm. apply month_cases in Hm. unfold months in Hm. rewrite !elem_of_cons, elem_of_nil in Hm.
  unfold monthLength. destruct_or? Hm; subst; destruct (isLeap y); vm_compute; done.
Qed.

Lemma partsOfTime_spec t fraction : 0 <= yearOf (dayOfTime t) <= 9999 -> t mod 1000 = 0 -> 0 <= fraction < 1000000 ->
  let m := partsOfTime t fraction in
  isoParts m /\ calendarDate (num (dt_year m)) (num (dt_month m)) (num (dt_day m)) /\
  clockTime (num (dt_hour m)) (num (dt_minute m)) (num (dt_second m)) /\ microsOf m = t * 1000 + fraction.
Proof.
  intros Hy Ht Hf m. unfold m, partsOfTime, pad2, isoParts, microsOf. cbn [dt_year dt_month dt_day dt_hour dt_minute dt_second dt_fraction dt_offset].
  destruct (parts_of_day (dayOfTime t)) as (Hm & Hd & Ek). pose proof (monthLength_31 (yearOf (dayOfTime t)) _ Hm) as H31.
  pose proof (clock_range t) as Hc. pose proof Hc as (Hh & Hmi & Hs).
  destruct (pad_text (yearOf (dayOfTime t)) 4 ltac:(lia) ltac:(lia)) as [Ty Ny].
  destruct (pad_text (monthOf (dayOfTime t) + 1) 2 ltac:(lia) ltac:(lia)) as [Tm Nm].
  destruct (pad_text (dateOf (dayOfTime t)) 2 ltac:(lia) ltac:(lia)) as [Td Nd].
  destruct (pad_text (hoursOf t) 2 ltac:(lia) ltac:(lia)) as [Th Nh].
  destruct (pad_text (minutesOf t) 2 ltac:(lia) ltac:(lia)) as [Tmi Nmi].
  destruct (pad_text (secondsOf t) 2 ltac:(lia) ltac:(lia)) as [Ts Ns].
  destruct (pad_text fraction 6 ltac:(lia) ltac:(lia)) as [Tf Nf]. cbn [Z.of_nat] in *.
  change (Z.of_nat 4) with 4 in *; change (Z.of_nat 2) with 2 in *; change (Z.of_nat 6) with 6 in *.
  rewrite Ny, Nm, Nd, Nh, Nmi, Ns, Nf. split; [done|]. split; [unfold calendarDate; replace (monthOf (dayOfTime t) + 1 - 1) with (monthOf (dayOfTime t)) by lia; lia|].
  split; [done|]. replace (monthOf (dayOfTime t) + 1 - 1) with (monthOf (dayOfTime t)) by lia. rewrite Ek.
  unfold hoursOf, minutesOf, secondsOf, timeInDay, dayOfTime, msPerDay. Z.to_euclidean_division_equations. lia.
Qed.

Lemma toISOString_text t fraction : 0 <= yearOf (dayOfTime t) <= 9999 ->
  exists rest, toISOString t = isoText (partsOfTime t fraction) +:+ rest.
Proof.
  intros Hy. unfold toISOString. rewrite (proj2 (Z.leb_le 0 _)), (proj2 (Z.leb_le _ 9999)) by lia. cbn [andb].
  eexists (str ["."; padStart (pretty (millisecondsOf t)) 3 "0"; "Z"]). unfold isoText, partsOfTime, str.
  cbn [dt_year dt_month dt_day dt_hour dt_minute dt_second]. rewrite ?string_app_nil_r, !string_app_assoc. done.
Qed.

(** the time of a history row is defined for every safe count of
    microseconds: its text of 27 characters, [YYYY-MM-DDTHH:MM:SS.ffffffZ], is
    read as a date of the calendar and a time of the day in UTC that mean that
    count exactly; the refusal of a time that a [Date] cannot hold is never
    reached. *)
Theorem appliedAt_reads micros : isSafeInteger micros = true ->
  exists text m, appliedAt micros = inl text /\ String.length text = 27%nat /\ readDateTime text = Some m /\
    calendarDate (num (dt_year m)) (num (dt_month m)) (num (dt_day m)) /\ clockTime (num (dt_hour m)) (num (dt_minute m)) (num (dt_second m)) /\
    String.length (dt_fraction m) = 6%nat /\ dt_offset m = Some 0 /\ microsOf m = micros.
Proof.
  intros Hs. unfold appliedAt. rewrite Hs. cbn [negb]. cbv zeta. unfold isSafeInteger in Hs. apply Z.leb_le in Hs. change (2 ^ 53 - 1) with 9007199254740991 in Hs.
  assert (Ef : Z.rem (Z.rem micros 1000000 + 1000000) 1000000 = micros mod 1000000).
  { pose proof (Z.rem_bound_abs micros 1000000 ltac:(lia)). Z.to_euclidean_division_equations. lia. }
  rewrite Ef. set (fraction := micros mod 1000000). set (t := (micros - fraction) / 1000).
  assert (Hf : 0 <= fraction < 1000000) by (apply Z.mod_pos_bound; lia).
  assert (Et : t * 1000 + fraction = micros /\ t mod 1000 = 0) by (unfold t, fraction in *; Z.to_euclidean_division_equations; lia).
  destruct Et as [Et Em]. rewrite (proj2 (Z.ltb_ge maxTime (Z.abs t))) by (unfold maxTime; lia).
  assert (Hy : 0 <= yearOf (dayOfTime t) <= 9999).
  { pose proof (yearOf_range 0 10000 (dayOfTime t)) as H. change (dayFromYear 0) with (-719528) in H. change (dayFromYear 10000) with 2932897 in H.
    unfold dayOfTime, msPerDay in *. Z.to_euclidean_division_equations. lia. }
  destruct (partsOfTime_spec t fraction Hy Em Hf) as (Hp & Hc & Hk & Hmi). destruct (toISOString_text t fraction Hy) as [rest E].
  rewrite E. replace 19%nat with (String.length (isoText (partsOfTime t fraction))) by by apply isoText_length. rewrite substring_front.
  eexists _, (partsOfTime t fraction). split; [reflexivity|]. split.
  { change (padStart (pretty fraction) 6 "0") with (dt_fraction (partsOfTime t fraction)). unfold str. rewrite !string_length_app, isoText_length by done.
    destruct Hp as (_ & _ & _ & _ & _ & _ & [_ ->] & _). done. }
  split; [exact (readDateTime_iso _ Hp)|]. split; [done|]. split; [done|]. destruct Hp as (_ & _ & _ & _ & _ & _ & [_ Hl] & Ho). split; [done|]. split; [done|]. lia.
Qed.

Lemma appliedAt_reads_witness : exists text m, appliedAt 1785672000123456 = inl text /\ String.length text = 27%nat /\ readDateTime text = Some m /\ microsOf m = 1785672000123456.
Proof.
  destruct (appliedAt_reads 1785672000123456) as (text & m & H1 & H2 & H3 & _ & _ & _ & _ & H4); [vm_compute; reflexivity|].
  exists text, m. split; [exact H1|]. split; [exact H2|]. split; [exact H3|exact H4].
Defined.
