(* ===== verification/Lexer.v ===== *)
(** * Lines and tokens of a document text ([dbspec/parse.ts], its lexer)

    A line is the list of its code points, each with the UTF-8 bytes it has in
    the text; an index into a line counts UTF-16 code units, as the source's
    does, and a column counts code points.  [lexLine] splits a line into
    tokens, [recoverLine] reads a line whose offending characters are spaces. *)

From S2P Require Import Prelude Documents Check Unicode.
From Stdlib Require Import Lia.

(** ** Code points *)

Record rune := mkRune { ru_cp : Z; ru_bytes : string }.

#[global] Instance rune_eq_dec : EqDecision rune.
Proof. solve_decision. Defined.

Definition byteOf (a : ascii) : Z := Z.of_N (N_of_ascii a).

(** The value bits of a byte that continues a character. *)
Definition tailBits (a : ascii) : Z := byteOf a mod 64.

(** The code point at the front of a text and the text behind it.  The text is
    the UTF-8 form of a JavaScript string, in which an unpaired surrogate has
    the three bytes of its code point. *)
Definition frontRune (a : ascii) (s : string) : rune * string :=
  let b := byteOf a in
  match s with
  | String a1 s1 =>
      if b <? 192 then (mkRune b (String a ""), s)
      else if b <? 224 then (mkRune ((b - 192) * 64 + tailBits a1) (String a (String a1 "")), s1)
      else match s1 with
           | String a2 s2 =>
               if b <? 240 then (mkRune ((b - 224) * 4096 + tailBits a1 * 64 + tailBits a2) (String a (String a1 (String a2 ""))), s2)
               else match s2 with
                    | String a3 s3 =>
                        (mkRune ((b - 240) * 262144 + tailBits a1 * 4096 + tailBits a2 * 64 + tailBits a3)
                           (String a (String a1 (String a2 (String a3 "")))), s3)
                    | EmptyString => (mkRune b (String a ""), s)
                    end
           | EmptyString => (mkRune b (String a ""), s)
           end
  | EmptyString => (mkRune b (String a ""), s)
  end.

(** [Array.from(text)]; every turn takes at least a byte. *)
Fixpoint runesFrom (fuel : nat) (s : string) : list rune :=
  match fuel, s with
  | S fuel, String a s => let '(r, rest) := frontRune a s in r :: runesFrom fuel rest
  | _, _ => []
  end.
Definition runes (s : string) : list rune := runesFrom (String.length s) s.

(** [chars.join('')] *)
Definition textOf (l : list rune) : string := str (map ru_bytes l).

(** The UTF-16 code units of a code point. *)
Definition units (r : rune) : Z := if 65535 <? ru_cp r then 2 else 1.

(** [text.length] *)
Fixpoint unitsOf (l : list rune) : Z := match l with [] => 0 | r :: l => units r + unitsOf l end.

(** The 1-based column of a UTF-16 index: one column per code point. *)
Fixpoint columnOf (l : list rune) (index : Z) : Z :=
  if index <=? 0 then 1 else match l with [] => 1 + index | r :: l => 1 + columnOf l (index - units r) end.

(** [Array.from(text.slice(0, index)).length] *)
Fixpoint runesBefore (l : list rune) (index : Z) : nat :=
  if index <=? 0 then 0 else match l with [] => 0 | r :: l => S (runesBefore l (index - units r)) end.

Definition codePoints (text : string) : Z := Z.of_nat (length (runes text)).

(** [utf8Length]: the bytes of the text. *)
Definition utf8Length (text : string) : Z := Z.of_nat (String.length text).

(** ** Tokens *)

(** A token: its kind, its text, the UTF-16 indexes of its start and end, and
    its line. *)
Record Tk := mkTk { tk_k : TokenKind; tk_t : string; tk_s : Z; tk_e : Z; tk_line : Z }.

#[global] Instance Tk_eq_dec : EqDecision Tk.
Proof. solve_decision. Defined.

(** The tokens before the first error, and that error with its index. *)
Record Lexed := mkLexed { lx_toks : list Tk; lx_error : option (Z * string) }.

Definition isWordRune (cp : Z) : bool := (cp =? 95) || (cp =? 46) || containsWordRune cp.

(** The character as Go's %q writes a rune. *)
Definition goRune (r : rune) : string :=
  let cp := ru_cp r in
  str ["'"; (if cp =? 9 then "\t" else if cp =? 10 then "\n" else if cp =? 13 then "\r" else if cp =? 39 then "\'" else if cp =? 92 then "\\"
             else ru_bytes r); "'"].

(** The rest of a string literal after its opening quote: its text, its units
    and the line behind it. *)
Fixpoint stringRest (l : list rune) : option (string * Z * list rune) :=
  match l with
  | [] => None
  | r :: l =>
      if ru_cp r =? 39 then
        match l with
        | r2 :: l2 =>
            if ru_cp r2 =? 39 then
              match stringRest l2 with Some (t, n, rest) => Some (str [ru_bytes r; ru_bytes r2; t], n + 2, rest) | None => None end
            else Some (ru_bytes r, 1, l)
        | [] => Some (ru_bytes r, 1, l)
        end
      else match stringRest l with Some (t, n, rest) => Some (ru_bytes r +:+ t, n + units r, rest) | None => None end
  end.

(** The word characters at the front. *)
Fixpoint wordRunes (l : list rune) : list rune * list rune :=
  match l with
  | [] => ([], [])
  | r :: l' => if isWordRune (ru_cp r) then let '(w, rest) := wordRunes l' in (r :: w, rest) else ([], l)
  end.

Definition punctuation : list Z := [40; 41; 123; 125; 44].
Definition operators : list Z := [61; 43; 45; 42; 47].

(** Whether two code points are one of [<>], [<=] and [>=]. *)
Definition twoPart (c d : Z) : bool := ((c =? 60) && ((d =? 62) || (d =? 61))) || ((c =? 62) && (d =? 61)).

(** What stands at the front of a line: blanks, a token with its units, or a
    character that starts none. *)
Inductive Front :=
  | FBlank
  | FToken (k : TokenKind) (text : string) (n : Z) (rest : list rune)
  | FError (message : string).

Definition frontOf (r : rune) (l : list rune) : Front :=
  let c := ru_cp r in
  if c =? 32 then FBlank
  else if includes c punctuation then FToken KPunct (ru_bytes r) 1 l
  else if (c =? 60) || (c =? 62) then
    match l with
    | d :: l' => if twoPart c (ru_cp d) then FToken KOp (str [ru_bytes r; ru_bytes d]) 2 l' else FToken KOp (ru_bytes r) 1 l
    | [] => FToken KOp (ru_bytes r) 1 l
    end
  else if includes c operators then FToken KOp (ru_bytes r) 1 l
  else if c =? 39 then
    match stringRest l with
    | Some (t, n, rest) => FToken KString (ru_bytes r +:+ t) (1 + n) rest
    | None => FError "string is not closed on its line"
    end
  else if isWordRune c then let '(w, rest) := wordRunes l in FToken KWord (textOf (r :: w)) (unitsOf (r :: w)) rest
  else FError (str ["character "; goRune r; " is not allowed here"]).

(** The loop of [lexLine] from index [i]; every turn takes a character. *)
Fixpoint lexFrom (fuel : nat) (line i : Z) (l : list rune) : Lexed :=
  match fuel, l with
  | S fuel, r :: l =>
      match frontOf r l with
      | FBlank => lexFrom fuel line (i + 1) l
      | FToken k text n rest =>
          let tail := lexFrom fuel line (i + n) rest in
          mkLexed (mkTk k text i (i + n) line :: lx_toks tail) (lx_error tail)
      | FError message => mkLexed [] (Some (i, message))
      end
  | _, _ => mkLexed [] None
  end.
Definition lexLine (l : list rune) (line : Z) : Lexed := lexFrom (length l) line 0 l.

Definition space : rune := mkRune 32 " ".

(** [recoverLine]: the tokens of a line whose offending characters are spaces,
    and that line. *)
Fixpoint recoverFrom (attempts : nat) (chars : list rune) (line : Z) : list Tk * list rune :=
  match attempts with
  | O => ([], chars)
  | S attempts =>
      let lexed := lexLine chars line in
      match lx_error lexed with
      | None => (lx_toks lexed, chars)
      | Some (index, _) => recoverFrom attempts (<[runesBefore chars index := space]> chars) line
      end
  end.
Definition recoverLine (chars : list rune) (line : Z) : list Tk * list rune := recoverFrom (S (length chars)) chars line.
Definition lexRecover (chars : list rune) (line : Z) : list Tk := fst (recoverLine chars line).

Definition isTk (k : TokenKind) (tok : option Tk) (text : string) : bool :=
  match tok with Some t => bool_decide (tk_k t = k) && bool_decide (tk_t t = text) | None => false end.
Definition isWord : option Tk -> string -> bool := isTk KWord.
Definition isPunct : option Tk -> string -> bool := isTk KPunct.
Definition isOp : option Tk -> string -> bool := isTk KOp.

(** A word token at hand. *)
Definition wordTk (tok : option Tk) : option Tk :=
  match tok with Some t => if decide (tk_k t = KWord) then Some t else None | None => None end.

(** [replaceAll("''", "'")] *)
Fixpoint undouble (s : string) : string :=
  match s with
  | String a s1 =>
      match s1 with
      | String b s2 => if decide (a = "'"%char /\ b = "'"%char) then String a (undouble s2) else String a (undouble s1)
      | EmptyString => String a ""
      end
  | EmptyString => ""
  end.

Fixpoint dropLast (s : string) : string :=
  match s with
  | String a s1 => match s1 with EmptyString => "" | String _ _ => String a (dropLast s1) end
  | EmptyString => ""
  end.
Definition dropFirst (s : string) : string := match s with String _ s => s | EmptyString => "" end.

Definition stringValue (tok : Tk) : string := undouble (dropLast (dropFirst (tk_t tok))).

Definition quote (value : string) : string := str ["'"; replace_all "'"%char "''" value; "'"].
