(* ===== verification/LexerFacts.v ===== *)
(** * The lexer ([dbspec/parse.ts])

    A line without a lexical error is its tokens with the blanks between them,
    and the recovery of a line with errors always ends with a line that has
    none. *)

From S2P Require Import Prelude Documents Check Unicode Lexer.
From Stdlib Require Import Lia.

(** ** What stands at the front of a line *)

Lemma units_pos r : 1 <= units r <= 2.
Proof. unfold units. case_match; lia. Qed.

Lemma unitsOf_nonneg l : 0 <= unitsOf l.
Proof. induction l as [|r l IH]; simpl; [lia|]. pose proof (units_pos r). lia. Qed.

Lemma unitsOf_app l k : unitsOf (l ++ k) = unitsOf l + unitsOf k.
Proof. induction l as [|r l IH]; simpl; [lia|]. rewrite IH. lia. Qed.

Lemma textOf_app l k : textOf (l ++ k) = textOf l +:+ textOf k.
Proof. unfold textOf. by rewrite map_app, str_app. Qed.

Lemma textOf_cons r l : textOf (r :: l) = ru_bytes r +:+ textOf l.
Proof. done. Qed.

Lemma textOf_one r : textOf [r] = ru_bytes r.
Proof. apply string_app_nil_r. Qed.

Lemma textOf_two r d : textOf [r; d] = ru_bytes r +:+ ru_bytes d.
Proof. by rewrite textOf_cons, textOf_one. Qed.

Lemma str_two a b : str [a; b] = a +:+ b.
Proof. unfold str. by rewrite string_app_nil_r. Qed.

Lemma unitsOf_one r : units r = 1 -> unitsOf [r] = 1.
Proof. cbn [unitsOf]. lia. Qed.

Lemma wordRunes_split l w rest : wordRunes l = (w, rest) -> l = w ++ rest /\ Forall (fun r => isWordRune (ru_cp r) = true) w.
Proof.
  revert w rest. induction l as [|r l IH]; intros w rest; simpl; [by intros [= <- <-]|]. destruct (isWordRune (ru_cp r)) eqn:E; [|by intros [= <- <-]].
  destruct (wordRunes l) as [w' rest']. intros [= <- <-]. destruct (IH w' rest' eq_refl) as [-> Hw]. split; [done|by constructor].
Qed.

(** The text behind an opening quote is split at its closing quote. *)
Lemma stringRest_split : forall n l t m rest, (length l <= n)%nat -> stringRest l = Some (t, m, rest) ->
  Forall (fun r => ru_cp r = 39 -> units r = 1) l -> exists q, l = q ++ rest /\ t = textOf q /\ m = unitsOf q /\ q <> [].
Proof.
  induction n as [|n IH]; intros [|r l] t m rest Hn H Hu; try done; simpl in Hn; [lia|].
  apply Forall_cons in Hu as [Hr Hu]. cbn [stringRest] in H. destruct (Z.eqb_spec (ru_cp r) 39) as [E|E].
  - destruct l as [|r2 l2]; [simplify_eq; exists [r]; by rewrite textOf_one, unitsOf_one by auto|].
    apply Forall_cons in Hu as [Hr2 Hu2]. destruct (Z.eqb_spec (ru_cp r2) 39) as [E2|E2].
    + destruct (stringRest l2) as [[[t2 m2] rest2]|] eqn:E3; [|done]. simplify_eq. simpl in Hn.
      destruct (IH l2 t2 m2 rest ltac:(lia) E3 Hu2) as (q & -> & -> & -> & Hq). exists (r :: r2 :: q). rewrite !textOf_cons. cbn [unitsOf]. unfold str. rewrite Hr, Hr2, string_app_nil_r by done.
      split_and!; [done|done|lia|done].
    + simplify_eq. exists [r]. by rewrite textOf_one, unitsOf_one by auto.
  - destruct (stringRest l) as [[[t2 m2] rest2]|] eqn:E3; [|done]. simplify_eq.
    destruct (IH l t2 m2 rest ltac:(lia) E3 Hu) as (q & -> & -> & -> & Hq). exists (r :: q). rewrite textOf_cons. cbn [unitsOf]. split_and!; [done|done|lia|done].
Qed.

(** Plain quotes and blanks have one unit: a code point above 65535 is none. *)
Lemma ascii_units r c : ru_cp r = c -> c <= 65535 -> units r = 1.
Proof. unfold units. intros -> ?. destruct (Z.ltb_spec 65535 c); lia. Qed.

(** A token takes the characters of its text. *)
Lemma frontOf_token r l k t n rest : frontOf r l = FToken k t n rest -> exists q, r :: l = q ++ rest /\ t = textOf q /\ n = unitsOf q /\ q <> [].
Proof.
  unfold frontOf. intros H.
  assert (Hone : units r = 1 -> r :: l = [r] ++ l /\ ru_bytes r = textOf [r] /\ 1 = unitsOf [r] /\ [r] <> []).
  { intros Hu. by rewrite textOf_one, unitsOf_one. }
  destruct (Z.eqb_spec (ru_cp r) 32); [done|]. destruct (includes (ru_cp r) punctuation) eqn:Ep.
  { simplify_eq. exists [r]. apply Hone. apply bool_decide_eq_true in Ep. unfold punctuation in Ep.
    repeat (apply elem_of_cons in Ep as [E|Ep]; [by eapply ascii_units; [exact E|]|]). by apply elem_of_nil in Ep. }
  destruct ((ru_cp r =? 60) || (ru_cp r =? 62)) eqn:Eo.
  { assert (Hr : units r = 1) by (apply orb_true_iff in Eo as [E%Z.eqb_eq|E%Z.eqb_eq]; by eapply ascii_units; [exact E|]).
    destruct l as [|d l']; [simplify_eq; by exists [r]; apply Hone|]. destruct (twoPart _ _) eqn:Et; simplify_eq; [|by exists [r]; apply Hone].
    exists [r; d]. rewrite str_two, textOf_two. cbn [unitsOf]. rewrite Hr. split_and!; [done|done| |done].
    assert (units d = 1) as ->; [|done]. unfold twoPart in Et. destruct (Z.eqb_spec (ru_cp d) 62) as [E|_]; [by eapply ascii_units; [exact E|]|].
    destruct (Z.eqb_spec (ru_cp d) 61) as [E|_]; [by eapply ascii_units; [exact E|]|]. by rewrite !andb_false_r in Et. }
  destruct (includes (ru_cp r) operators) eqn:Ep2.
  { simplify_eq. exists [r]. apply Hone. apply bool_decide_eq_true in Ep2. unfold operators in Ep2.
    repeat (apply elem_of_cons in Ep2 as [E|Ep2]; [by eapply ascii_units; [exact E|]|]). by apply elem_of_nil in Ep2. }
  destruct (Z.eqb_spec (ru_cp r) 39) as [Eq|_].
  { destruct (stringRest l) as [[[t2 m2] rest2]|] eqn:E3; [|done]. simplify_eq.
    destruct (stringRest_split (length l) l t2 m2 rest ltac:(done) E3) as (q & -> & -> & -> & _).
    { apply Forall_forall. intros x _ E. by eapply ascii_units; [exact E|]. }
    exists (r :: q). rewrite textOf_cons. cbn [unitsOf]. rewrite (ascii_units r 39) by done. by split_and!. }
  destruct (isWordRune (ru_cp r)); [|done]. destruct (wordRunes l) as [w rest'] eqn:Ew. simplify_eq.
  destruct (wordRunes_split _ _ _ Ew) as [-> _]. by exists (r :: w).
Qed.

Lemma frontOf_blank r l : frontOf r l = FBlank -> ru_cp r = 32.
Proof. unfold frontOf. destruct (Z.eqb_spec (ru_cp r) 32); [done|]. by repeat case_match. Qed.

Lemma frontOf_error r l m : frontOf r l = FError m -> ru_cp r <> 32.
Proof. unfold frontOf. destruct (Z.eqb_spec (ru_cp r) 32); [done|]. done. Qed.

(** ** A line is its tokens *)

(** The blanks between two indexes. *)
Definition blanks (n : Z) : string := repeat_str " " (Z.to_nat n).

(** The text of tokens from index [i] to [end_], with the blanks between them. *)
Fixpoint layout (i : Z) (toks : list Tk) (end_ : Z) : string :=
  match toks with [] => blanks (end_ - i) | t :: toks => str [blanks (tk_s t - i); tk_t t; layout (tk_e t) toks end_] end.

(** Tokens in order from index [i] on line [line], none empty, up to [end_]. *)
Fixpoint laidOut (line i : Z) (toks : list Tk) (end_ : Z) : Prop :=
  match toks with [] => i <= end_ | t :: toks => i <= tk_s t < tk_e t /\ tk_line t = line /\ laidOut line (tk_e t) toks end_ end.

(** A line whose code points are those of a text: a blank is a space. *)
Definition faithful (r : rune) : Prop := ru_cp r = 32 -> ru_bytes r = " ".

Lemma blanks_succ n : 0 <= n -> blanks (n + 1) = " " +:+ blanks n.
Proof. intros Hn. unfold blanks. by rewrite Z2Nat.inj_add, Nat.add_1_r by lia. Qed.

Lemma layout_blank i toks end_ line : laidOut line (i + 1) toks end_ -> layout i toks end_ = " " +:+ layout (i + 1) toks end_.
Proof.
  destruct toks as [|t toks]; simpl; intros H.
  - replace (end_ - i) with (end_ - (i + 1) + 1) by lia. by rewrite blanks_succ by lia.
  - replace (tk_s t - i) with (tk_s t - (i + 1) + 1) by lia. rewrite blanks_succ by lia. unfold str. by rewrite string_app_assoc.
Qed.

Lemma laidOut_weaken line i j toks end_ : i <= j -> laidOut line j toks end_ -> laidOut line i toks end_.
Proof. destruct toks as [|t toks]; simpl; [lia|]. intros ? (? & ? & ?). split_and!; auto; lia. Qed.

Lemma lexFrom_layout line fuel : forall i l toks, (length l <= fuel)%nat -> Forall faithful l -> lexFrom fuel line i l = mkLexed toks None ->
  laidOut line i toks (i + unitsOf l) /\ layout i toks (i + unitsOf l) = textOf l.
Proof.
  induction fuel as [|fuel IH]; intros i [|r l] toks Hl Hf H; simpl in Hl; try lia.
  - simpl in H. simplify_eq. simpl. split; [lia|]. by rewrite Z.add_0_r, Z.sub_diag.
  - simpl in H. simplify_eq. simpl. split; [lia|]. by rewrite Z.add_0_r, Z.sub_diag.
  - cbn [lexFrom] in H. destruct (frontOf r l) as [|k t n rest|m] eqn:Ef; [| |done].
    + apply Forall_cons in Hf as [Hr Hf]. pose proof (frontOf_blank _ _ Ef) as Eb. apply IH in H as [Ho Hx]; [|lia|done].
      cbn [unitsOf]. rewrite (ascii_units r 32) by done. rewrite Z.add_assoc. split; [by eapply laidOut_weaken; [|exact Ho]; lia|].
      rewrite (layout_blank _ _ _ line) by done. by rewrite Hx, textOf_cons, (Hr Eb).
    + destruct (lexFrom fuel line (i + n) rest) as [toks' e'] eqn:E. cbn in H. simplify_eq.
      destruct (frontOf_token _ _ _ _ _ _ Ef) as (q & Eq & -> & -> & Hq). rewrite Eq in *. apply Forall_app in Hf as [_ Hf].
      assert (Hlq : (length rest <= fuel)%nat). { apply (f_equal length) in Eq. rewrite length_app in Eq. simpl in Eq. destruct q; [done|simpl in Eq; lia]. }
      apply IH in E as [Ho Hx]; [|done|done]. rewrite unitsOf_app, Z.add_assoc. cbn [laidOut layout tk_s tk_e tk_t tk_line].
      assert (0 < unitsOf q). { destruct q as [|a q]; [done|]. simpl. pose proof (units_pos a). pose proof (unitsOf_nonneg q). lia. }
      split; [split_and!; [lia|lia|done|done]|]. rewrite Z.sub_diag, Hx, textOf_app. unfold str. by rewrite string_app_nil_r.
Qed.

(** ** Recovery *)

(** The characters of a line that are no blanks. *)
Definition inked (l : list rune) : nat := length (filter (fun r => ru_cp r <> 32) l).

Lemma runesBefore_app q l i : 0 <= i -> runesBefore (q ++ l) (unitsOf q + i) = (length q + runesBefore l i)%nat.
Proof.
  intros Hi. induction q as [|r q IH]; simpl; [by rewrite Z.add_0_l|]. pose proof (units_pos r). pose proof (unitsOf_nonneg q).
  destruct (Z.leb_spec (units r + unitsOf q + i) 0); [lia|]. f_equal. replace (units r + unitsOf q + i - units r) with (unitsOf q + i) by lia. done.
Qed.

Lemma runesBefore_0 l : runesBefore l 0 = 0%nat.
Proof. by destruct l. Qed.

(** An error is at a character that is no blank. *)
Lemma lexFrom_error line fuel : forall i l index m, lx_error (lexFrom fuel line i l) = Some (index, m) ->
  exists q r rest, l = q ++ r :: rest /\ index = i + unitsOf q /\ ru_cp r <> 32.
Proof.
  induction fuel as [|fuel IH]; intros i [|r l] index m H; try done. cbn [lexFrom] in H. destruct (frontOf r l) as [|k t n rest|m'] eqn:Ef.
  - apply frontOf_blank in Ef. apply IH in H as (q & x & rest & -> & -> & Hx). exists (r :: q), x, rest. simpl. rewrite (ascii_units r 32) by done.
    split_and!; [done|lia|done].
  - cbn in H. apply IH in H as (q & x & rest' & -> & -> & Hx). destruct (frontOf_token _ _ _ _ _ _ Ef) as (p & -> & _ & -> & _).
    exists (p ++ q), x, rest'. rewrite unitsOf_app, <- app_assoc. split_and!; [done|lia|done].
  - simpl in H. simplify_eq. exists [], r, l. simpl. split_and!; [done|lia|by eapply frontOf_error].
Qed.

Lemma inked_app q l : inked (q ++ l) = (inked q + inked l)%nat.
Proof. unfold inked. by rewrite filter_app, length_app. Qed.

Lemma inked_length l : (inked l <= length l)%nat.
Proof. apply length_filter. Qed.

(** One line is another with some characters replaced by blanks. *)
Definition blanked (l l' : list rune) : Prop := Forall2 (fun r r' => r' = r \/ (r' = space /\ ru_cp r <> 32)) l l'.

Lemma blanked_refl l : blanked l l.
Proof. apply Forall_Forall2_diag, Forall_forall. by left. Qed.

Lemma blanked_trans l1 l2 l3 : blanked l1 l2 -> blanked l2 l3 -> blanked l1 l3.
Proof.
  intros H. revert l3. induction H as [|x y l1 l2 Hxy _ IH]; intros l3 H3; [done|]. apply Forall2_cons_inv_l in H3 as (z & l3' & Hz & H3 & ->).
  constructor; [naive_solver|by apply IH].
Qed.

Lemma recoverFrom_ends line attempts : forall chars, (inked chars < attempts)%nat ->
  let '(toks, text) := recoverFrom attempts chars line in lexLine text line = mkLexed toks None /\ blanked chars text.
Proof.
  induction attempts as [|attempts IH]; intros chars Hi; [lia|]. cbn [recoverFrom]. destruct (lexLine chars line) as [toks e] eqn:E. cbn [lx_error lx_toks].
  destruct e as [[index m]|]; [|split; [done|apply blanked_refl]]. unfold lexLine in E.
  destruct (lexFrom_error line (length chars) 0 chars index m) as (q & r & rest & -> & -> & Hr); [by rewrite E|].
  rewrite Z.add_0_l, <- (Z.add_0_r (unitsOf q)), runesBefore_app, runesBefore_0 by lia. rewrite insert_app_r_alt, Nat.add_0_r, Nat.sub_diag by lia. cbn [insert list_insert].
  assert (Hlt : (inked (q ++ space :: rest) < attempts)%nat).
  { rewrite inked_app in *. unfold inked in *. rewrite filter_cons_True in Hi by done. rewrite filter_cons_False by naive_solver. simpl in Hi. lia. }
  specialize (IH (q ++ space :: rest) Hlt). destruct (recoverFrom _ _ _) as [toks' text]. destruct IH as [IH1 IH2]. split; [done|].
  eapply blanked_trans; [|exact IH2]. apply Forall2_app; [apply blanked_refl|]. constructor; [by right|apply blanked_refl].
Qed.

(** ** Words *)

(** A word character starts a word. *)
Lemma word_front r l : isWordRune (ru_cp r) = true ->
  frontOf r l = let '(w, rest) := wordRunes l in FToken KWord (textOf (r :: w)) (unitsOf (r :: w)) rest.
Proof.
  intros Hw. unfold frontOf.
  assert (Hno : forall c, isWordRune c = false -> ru_cp r <> c) by (intros c Hc E; congruence).
  assert (forall c, c ∈ 32 :: 39 :: 60 :: 62 :: punctuation ++ operators -> ru_cp r <> c) as Hs.
  { intros c Hc. apply Hno. unfold punctuation, operators in Hc. simpl in Hc. repeat (apply elem_of_cons in Hc as [->|Hc]; [by vm_compute|]). by apply elem_of_nil in Hc. }
  destruct (Z.eqb_spec (ru_cp r) 32) as [E|_]; [by destruct (Hs 32 ltac:(by repeat constructor))|].
  unfold includes. rewrite bool_decide_eq_false_2. 2:{ intros Hin. apply (Hs (ru_cp r)); [|done]. do 4 right. rewrite elem_of_app. by left. }
  destruct (Z.eqb_spec (ru_cp r) 60) as [E|_]; [by destruct (Hs 60 ltac:(by repeat constructor))|].
  destruct (Z.eqb_spec (ru_cp r) 62) as [E|_]; [by destruct (Hs 62 ltac:(by repeat constructor))|]. cbn [orb].
  rewrite bool_decide_eq_false_2. 2:{ intros Hin. apply (Hs (ru_cp r)); [|done]. do 4 right. rewrite elem_of_app. by right. }
  destruct (Z.eqb_spec (ru_cp r) 39) as [E|_]; [by destruct (Hs 39 ltac:(by repeat constructor))|]. by rewrite Hw.
Qed.

Lemma wordRunes_all w rest : Forall (fun r => isWordRune (ru_cp r) = true) w ->
  match rest with [] => True | r :: _ => isWordRune (ru_cp r) = false end -> wordRunes (w ++ rest) = (w, rest).
Proof.
  intros Hw Hr. induction Hw as [|r w Hx _ IH]; simpl; [destruct rest as [|r rest]; [done|]; simpl; by rewrite Hr|]. by rewrite Hx, IH.
Qed.
