(* ===== verification/Doubles.v ===== *)
(** * Double-precision numbers of the runtime

    [Number(text)] of a decimal text and [String(value)] of a double, as
    ECMAScript defines them: the nearest double with ties to even, and the
    shortest digits that read back as the same double, the closest ones when
    there are several.  A finite double is [m * 2 ^ e]. *)

From S2P Require Import Prelude Lex Values Decimal.
From Stdlib Require Import Lia.

Inductive Double := DFinite (negative : bool) (m e : Z) | DInfinity (negative : bool).

#[global] Instance Double_eq_dec : EqDecision Double.
Proof. solve_decision. Defined.

(** The integer nearest to [p / q], the even one of two. *)
Definition divideEven (p q : Z) : Z :=
  let f := p / q in
  match Z.compare (2 * (p mod q)) q with Lt => f | Gt => f + 1 | Eq => f + f mod 2 end.

(** [p / q * 2 ^ -e] as a fraction. *)
Definition scaledBy (p q e : Z) : Z * Z := if 0 <=? e then (p, q * 2 ^ e) else (p * 2 ^ (- e), q).

(** The exponent of the last place of [p / q] as a double. *)
Definition lastPlace (p q : Z) : Z :=
  let l0 := Z.log2 p - Z.log2 q in
  let l := if (if 0 <=? l0 then q * 2 ^ l0 <=? p else q <=? p * 2 ^ (- l0)) then l0 else l0 - 1 in
  Z.max (l - 52) (-1074).

(** The double nearest to [p / q] of a positive [q]. *)
Definition nearest (negative : bool) (p q : Z) : Double :=
  if p =? 0 then DFinite negative 0 0
  else
    let e := lastPlace p q in
    let '(a, b) := scaledBy p q e in
    let m := divideEven a b in
    let '(m, e) := if m =? 2 ^ 53 then (2 ^ 52, e + 1) else (m, e) in
    if 971 <? e then DInfinity negative else DFinite negative m e.

(** [Number(text)] of a text that [/^-?[0-9]+(\.[0-9]+)?$/] matches. *)
Definition numberOf (text : string) : Double :=
  let '(negative, body) := match text with String a s => if decide (a = "-"%char) then (true, s) else (false, text) | EmptyString => (false, text) end in
  match split_on "." body with
  | [whole; fraction] => nearest negative (digits_val 0 (whole +:+ fraction)) (10 ^ slen fraction)
  | _ => nearest negative (digits_val 0 body) 1
  end.

(** The value [m * 2 ^ e] as a fraction. *)
Definition valueOf (m e : Z) : Z * Z := if 0 <=? e then (m * 2 ^ e, 1) else (m, 2 ^ (- e)).

(** The exponent [n] with [10 ^ (n - 1) <= p / q < 10 ^ n]; below one, the
    zeros behind the point are counted, at most 324 for a double. *)
Fixpoint zerosFrom (fuel : nat) (p q z : Z) : Z :=
  match fuel with O => z | S fuel => if q <=? p * 10 then z else zerosFrom fuel (p * 10) q (z + 1) end.
Definition decimalPoint (p q : Z) : Z := if q <=? p then slen (pretty (p / q)) else - zerosFrom 330 p q 0.

(** The value of digits [c] in front of the exponent [k], as a fraction. *)
Definition decimalValue (c k : Z) : Z * Z := if 0 <=? k then (c * 10 ^ k, 1) else (c, 10 ^ (- k)).

Definition readsBack (c k m e : Z) : bool :=
  let '(p, q) := decimalValue c k in bool_decide (nearest false p q = DFinite false m e).

(** The digits of length [len] that read back, the closer candidate first. *)
Definition digitsOfLength (len n m e : Z) : option Z :=
  let '(p, q) := valueOf m e in
  let k := n - len in
  let '(a, b) := if 0 <=? k then (p, q * 10 ^ k) else (p * 10 ^ (- k), q) in
  let low := a / b in
  let first := divideEven a b in
  let second := if first =? low then low + 1 else low in
  if readsBack first k m e then Some first else if readsBack second k m e then Some second else None.

Fixpoint shortestFrom (fuel : nat) (len n m e : Z) : Z * Z :=
  match fuel with
  | O => (m, 0)
  | S fuel =>
      match digitsOfLength len n m e with
      | Some c => if c =? 10 ^ len then (1, n) else (c, n - len)
      | None => shortestFrom fuel (len + 1) n m e
      end
  end.

(** The shortest digits of a positive double and the exponent behind them;
    seventeen digits always read back. *)
Definition shortestDigits (m e : Z) : Z * Z :=
  let '(p, q) := valueOf m e in shortestFrom 17 1 (decimalPoint p q) m e.

Definition zeros (n : Z) : string := repeat_str "0" (Z.to_nat n).

(** [String(value)]: plain up to 21 digits and down to six zeros, otherwise
    with an exponent. *)
Definition doubleText (negative : bool) (m e : Z) : string :=
  if m =? 0 then "0"
  else
    let '(c, k) := shortestDigits m e in
    let digits := pretty c in
    let len := slen digits in
    let n := len + k in
    let body :=
      if (len <=? n) && (n <=? 21) then digits +:+ zeros (n - len)
      else if (0 <? n) && (n <=? 21) then str [String.substring 0 (Z.to_nat n) digits; "."; String.substring (Z.to_nat n) (Z.to_nat (len - n)) digits]
      else if (-6 <? n) && (n <=? 0) then str ["0."; zeros (- n); digits]
      else
        let exponent := str [if 0 <=? n - 1 then "e+" else "e-"; pretty (Z.abs (n - 1))] in
        if len =? 1 then digits +:+ exponent
        else str [String.substring 0 1 digits; "."; String.substring 1 (Z.to_nat (len - 1)) digits; exponent] in
    (if negative then "-" else "") +:+ body.

Example double_tenth : numberOf "0.1" = DFinite false 7205759403792794 (-56).
Proof. by vm_compute. Qed.
Definition doubleTexts (texts : list string) : list string :=
  map (fun t => match numberOf t with DFinite s m e => doubleText s m e | DInfinity _ => "Infinity" end) texts.

Example double_texts :
  doubleTexts ["0.1"; "-12.50"; "123456789012345678901234567890"; "0.000000123"; "9007199254740993"; "0.30000000000000004"; "0.000001"]
  = ["0.1"; "-12.5"; "1.2345678901234568e+29"; "1.23e-7"; "9007199254740992"; "0.30000000000000004"; "0.000001"].
Proof. by vm_compute. Qed.
