(* ===== verification/Literals.v ===== *)
(** * Literals of documents ([dbspec/parse.ts], [defaultOf] and its helpers)

    The canonical form of a default, which a literal of a check takes too, or
    the reason the literal does not fit its column type. *)

From S2P Require Import Prelude Documents Emit Check Values Decimal Times Doubles Lexer.
From Stdlib Require Import Lia.

(** ** Names *)

(** The reserved words, which are not names. *)
Definition RESERVED : list string :=
  ["dbspec"; "use"; "table"; "diagram"; "primary"; "unique"; "index"; "foreign"; "check"; "settings";
   "null"; "identity"; "default"; "true"; "false"; "and"; "or"; "not"; "in"; "between"; "is"].

Definition MAX_NAME_BYTES : Z := 63.

Definition wellFormed (name : string) : bool := isColumn name && negb (includes name RESERVED).

(** Whether a name is a dbspec name: its form and at most 63 bytes. *)
Definition validName (name : string) : bool := wellFormed name && (utf8Length name <=? MAX_NAME_BYTES).

(** ** Numbers *)

(** A text without a sign at its front, and whether it had one. *)
Definition unsigned (s : string) : bool * string :=
  match s with String a s' => if decide (a = "-"%char) then (true, s') else (false, s) | EmptyString => (false, s) end.

(** [/^-?[0-9]+$/] *)
Definition isInteger (s : string) : bool := digits1 (snd (unsigned s)).

(** [/^[0-9]+(\.[0-9]+)?$/] *)
Definition isUnsignedNumber (s : string) : bool :=
  match split_on "." s with
  | [w] => digits1 w
  | [w; f] => digits1 w && digits1 f
  | _ => false
  end.

(** [BigInt(text)] of a text of digits with an optional sign. *)
Definition bigint (s : string) : Z := let '(negative, d) := unsigned s in if negative then - digits_val 0 d else digits_val 0 d.

(** The text before the first point and the text from it. *)
Fixpoint atPoint (s : string) : string * string :=
  match s with
  | EmptyString => ("", "")
  | String a s' => if decide (a = "."%char) then ("", s) else let '(w, p) := atPoint s' in (String a w, p)
  end.

(** [replace(/^0+(?=[0-9])/, '')]: the last digit stays. *)
Definition stripLeading (s : string) : string :=
  match strip_zeros s with EmptyString => if decide (s = "") then "" else "0" | String a t => if is_digit a then String a t else String "0" (String a t) end.

Definition zerosOnly (s : string) : bool := all_chars (fun a => bool_decide (a = "0"%char)) s.

(** A number literal without a sign for zero or leading zeros of its integer part. *)
Definition numberText (text : string) : string :=
  let '(negative, body) := unsigned text in
  let '(whole, part) := atPoint body in
  let whole := stripLeading whole in
  let zero := negb (bool_decide (whole = "")) && zerosOnly whole && zerosOnly (match part with String a p => if decide (a = "."%char) then p else part | EmptyString => part end) in
  str [if negative && negb zero then "-" else ""; whole; part].

(** The shortest decimal without exponent that reads back as the same double;
    0 for negative zero. *)
Definition shortestDecimal (negative : bool) (m e : Z) : string :=
  if m =? 0 then "0"
  else
    let text := doubleText negative m e in
    match split_on "e" text with
    | [front; exp] =>
        let '(negative, mantissa) := unsigned front in
        let exponent := match exp with String a d => if decide (a = "-"%char) then - digits_val 0 d else digits_val 0 d | EmptyString => 0 end in
        let '(whole, part) := atPoint mantissa in
        let digits := whole +:+ dropFirst part in
        let point := slen whole + exponent in
        let plain :=
          if point <=? 0 then str ["0."; zeros (- point); digits]
          else if slen digits <=? point then digits +:+ zeros (point - slen digits)
          else str [String.substring 0 (Z.to_nat point) digits; "."; String.substring (Z.to_nat point) (String.length digits - Z.to_nat point) digits] in
        (if negative then "-" else "") +:+ plain
    | _ => text
    end.

(** ** Dates and times *)

Definition isLeapYear (year : Z) : bool := ((year mod 4 =? 0) && negb (year mod 100 =? 0)) || (year mod 400 =? 0).

Definition daysOfMonth (year month : Z) : option Z :=
  [31; if isLeapYear year then 29 else 28; 31; 30; 31; 30; 31; 31; 30; 31; 30; 31] !! Z.to_nat (month - 1).

Definition validDate (y m d : string) : bool :=
  let year := digits_val 0 y in
  let month := digits_val 0 m in
  let day := digits_val 0 d in
  if (year <? 1) || (month <? 1) || (12 <? month) || (day <? 1) then false
  else match daysOfMonth year month with Some days => day <=? days | None => false end.

Definition validTime (h m s : string) : bool := (digits_val 0 h <? 24) && (digits_val 0 m <? 60) && (digits_val 0 s <? 60).

(** The fraction digits at a precision, with their point; [None] when there are
    more of them. *)
Definition fraction (digits : string) (precision : Z) : option string :=
  if precision <? slen digits then None else Some (if precision =? 0 then "" else "." +:+ padEnd digits precision "0").

(** [/^([0-9]{4})-([0-9]{2})-([0-9]{2})$/] *)
Definition matchDate (s : string) : option (string * string * string) :=
  match readDate s with Some (y, m, d, rest) => if decide (rest = "") then Some (y, m, d) else None | None => None end.

(** [(?:\.([0-9]+))?$] *)
Definition matchFraction (s : string) : option string :=
  match s with
  | EmptyString => Some ""
  | String a f => if decide (a = "."%char) then if digits1 f then Some f else None else None
  end.

(** [/^([0-9]{2}):([0-9]{2}):([0-9]{2})(?:\.([0-9]+))?$/] *)
Definition matchTime (s : string) : option (string * string * string * string) :=
  '(h, s) ← digitsN 2 s; s ← char_in [":"%char] s; '(m, s) ← digitsN 2 s; s ← char_in [":"%char] s; '(sec, s) ← digitsN 2 s;
  f ← matchFraction s; Some (h, m, sec, f).

(** [DATETIME]: a date, one space and a time. *)
Definition matchDatetime (s : string) : option (string * string * string * (string * string * string * string)) :=
  '(y, m, d, s) ← readDate s; s ← char_in [" "%char] s; t ← matchTime s; Some (y, m, d, t).

(** [UUID] *)
Definition isHex (a : ascii) : bool :=
  is_digit a || ((97 <=? N_of_ascii a)%N && (N_of_ascii a <=? 102)%N) || ((65 <=? N_of_ascii a)%N && (N_of_ascii a <=? 70)%N).
Definition isUuid (s : string) : bool :=
  let parts := split_on "-" s in
  bool_decide (map String.length parts = [8; 4; 4; 4; 12]%nat) && forallb (all_chars isHex) parts.

(** ** Defaults *)

Definition INTEGER_RANGES : list (string * (Z * Z)) :=
  [("i16", (-32768, 32767)); ("i32", (-2147483648, 2147483647)); ("i64", (-9223372036854775808, 9223372036854775807))].

Definition integerDefault (kind : string) (word : option string) : res (DbspecDefault + string) :=
  match word with
  | Some word =>
      if isInteger word then
        range ← present (assoc kind INTEGER_RANGES) "INTEGER_RANGES[type.kind]";
        let value := bigint word in
        if (value <? fst range) || (snd range <? value) then Ok (inr (str ["default "; word; " is out of the "; kind; " range"]))
        else Ok (inl (DefaultLiteral (pretty value)))
      else Ok (inr (str ["default of "; kind; " must be an integer"]))
  | None => Ok (inr (str ["default of "; kind; " must be an integer"]))
  end.

Definition decimalDefault (type : DbspecType) (precision scale : Z) (word : string) : DbspecDefault + string :=
  let '(negative, body) := unsigned word in
  let '(front, part) := atPoint body in
  let whole := strip_zeros front in
  let digits := dropFirst part in
  if scale <? slen digits then inr (str ["default "; word; " has more than "; pretty scale; " fraction digits"])
  else if precision - scale <? slen whole then inr (str ["default "; word; " does not fit "; typeText type])
  else
    let scaled := padEnd digits scale "0" in
    let zero := zerosOnly whole && zerosOnly scaled in
    inl (DefaultLiteral (str [if negative && negb zero then "-" else ""; if decide (whole = "") then "0" else whole; if 0 <? scale then "." +:+ scaled else ""])).

Definition hasNul (s : string) : bool := has_char (ascii_of_nat 0) s.

(** The canonical default of a column type, or the reason the literal does not
    fit.  A text column, in a check, takes the varchar form without a length. *)
Definition defaultOf (type : DbspecType) (tok : Tk) : res (DbspecDefault + string) :=
  let word := if decide (tk_k tok = KWord) then Some (tk_t tok) else None in
  let text := if decide (tk_k tok = KString) then Some (stringValue tok) else None in
  let literal value := Ok (inl (DefaultLiteral value)) in
  let reason message := Ok (inr message) in
  match type with
  | TI16 | TI32 | TI64 => integerDefault (type_kind type) word
  | TBool =>
      match word with
      | Some w => if includes w ["true"; "false"] then literal w else reason "default of bool must be true or false"
      | None => reason "default of bool must be true or false"
      end
  | TDecimal precision scale =>
      match word with
      | Some w => if isNumber w then Ok (decimalDefault type precision scale w) else reason (str ["default of "; typeText type; " must be a decimal number"])
      | None => reason (str ["default of "; typeText type; " must be a decimal number"])
      end
  | TF64 =>
      match word with
      | Some w =>
          if isNumber w then
            match numberOf w with
            | DFinite negative m e => literal (shortestDecimal negative m e)
            | DInfinity _ => reason (str ["default "; w; " is not a finite double"])
            end
          else reason "default of f64 must be a decimal number"
      | None => reason "default of f64 must be a decimal number"
      end
  | TVarchar _ | TText =>
      match text with
      | None => reason (str ["default of "; typeText type; " must be a string"])
      | Some t =>
          if hasNul t then reason "default contains U+0000"
          else match type with
               | TVarchar length => if length <? codePoints t then reason (str ["default is longer than "; pretty length; " characters"]) else literal (quote t)
               | _ => literal (quote t)
               end
      end
  | TUuid =>
      match text with
      | Some t => if isUuid t then literal (quote (toLowerCase t)) else reason "default of uuid must be a canonical uuid string"
      | None => reason "default of uuid must be a canonical uuid string"
      end
  | TDate =>
      match text with
      | Some t =>
          match matchDate t with
          | Some (y, m, d) => if validDate y m d then literal (quote t) else reason "default of date must be 'YYYY-MM-DD'"
          | None => reason "default of date must be 'YYYY-MM-DD'"
          end
      | None => reason "default of date must be 'YYYY-MM-DD'"
      end
  | TTime precision =>
      let wrong := reason (str ["default of "; typeText type; " must be 'HH:MM:SS'"]) in
      match text ≫= matchTime with
      | Some (h, m, s, f) =>
          if validTime h m s then
            match fraction f precision with
            | Some f => literal (quote (str [h; ":"; m; ":"; s; f]))
            | None => reason (str ["default has more than "; pretty precision; " fraction digits"])
            end
          else wrong
      | None => wrong
      end
  | TDatetime precision =>
      let wrong := reason (str ["default of "; typeText type; " must be now or 'YYYY-MM-DD HH:MM:SS'"]) in
      if decide (word = Some "now") then Ok (inl DefaultNow)
      else match text ≫= matchDatetime with
           | Some (y, mo, d, (h, m, s, f)) =>
               if validDate y mo d && validTime h m s then
                 match fraction f precision with
                 | Some f => literal (quote (str [y; "-"; mo; "-"; d; " "; h; ":"; m; ":"; s; f]))
                 | None => reason (str ["default has more than "; pretty precision; " fraction digits"])
                 end
               else wrong
           | None => wrong
           end
  | TBytes => reason "a bytes column has no default"
  end.

(** The kind of value a column holds in a check. *)
Definition meetScale (t : DbspecType) : Z := match t with TDecimal _ s => s | _ => 0 end.
Definition meetPrecision (t : DbspecType) : Z := match t with TDecimal p _ | TTime p | TDatetime p => p | _ => 0 end.
