(* ===== verification/ParseState.v ===== *)
(** * The document under construction ([dbspec/parse.ts], its internal form)

    What the reader keeps of each line, with the token of every position, the
    state of a [DocumentParser], and the ways it reports a diagnostic.  A table
    is a place in the list of the tables of the document, where the lines of its
    block change it. *)

From S2P Require Import Prelude Documents Emit Check Render Lexer Literals.
From Stdlib Require Import Lia.

(** ** Declarations as they were read *)

Record IColumn := mkIColumn {
  icol_name : Tk; icol_type : option DbspecType; icol_nullable : bool; icol_identity : option Tk; icol_value : option DbspecDefault;
  icol_comments : list string; icol_dflt : option Tk; icol_valueTok : option Tk }.

Record IKeyColumn := mkIKeyColumn { ikc_tok : Tk; ikc_descending : bool }.

Record IKey := mkIKey { ikey_kw : Tk; ikey_name : option Tk; ikey_cols : list IKeyColumn; ikey_comments : list string }.

Record IForeignKey := mkIForeignKey {
  ifk_name : Tk; ifk_cols : list Tk; ifk_table : Tk; ifk_refs : list Tk; ifk_onDelete : string; ifk_onUpdate : string;
  ifk_comments : list string }.

Record ICheck := mkICheck { ick_name : Tk; ick_expr : list Tk; ick_close : Tk; ick_comments : list string; ick_text : string }.

(** A [state_machine] line after its column, with the tokens it names. *)
Inductive IStateLine :=
  | LInitial (state : Tk)
  | LTerminal (state : Tk) (requires : option (list Tk))
  | LTransition (from to : Tk) (requires : option (list Tk))
  | LHistory (table row from to at_ : Tk)
  | LLimit (state count : Tk).

Inductive ISettingKind :=
  | IEntity (name : Tk)
  | IUpdated (column : Tk)
  | ISoftDelete (column : Tk)
  | IAesVersion (column : Tk)
  | ISelectExplicit (columns : list Tk)
  | ICodec (column : Tk) (stages : list Tk)
  | IBlindIndex (column indexColumn : Tk)
  | INavigation (foreignKey childName parentName : Tk)
  | IImmutable
  | IAudit (into column references action previous : Tk) (tables : option (Tk * Tk * Tk)) (lists : list (Tk * list Tk))
  | IMarkdown (column : Tk)
  | IStore (storage : Tk) (foreignKey shape : option Tk) (shard : option (Tk * Tk * Tk))
  | IKeyPrefix (prefix : Tk)
  | ITitle (column : Tk)
  | IBody (column : Tk)
  | IOrder (column : Tk)
  | ICheckbox (column state glyph : Tk)
  | IStateMachine (column : Tk) (line : IStateLine).

Record ISetting := mkISetting { iset_kw : Tk; iset_comments : list string; iset_kind : ISettingKind }.

Record ISettings := mkISettings { isb_open : Tk; isb_entries : list ISetting; isb_comments : list string; isb_closing : list string }.

Record ITable := mkITable {
  it_kw : Tk; it_name : Tk; it_named : bool;
  it_columns : list IColumn; it_colMap : list (string * IColumn);
  it_pks : list IKey; it_uniques : list IKey; it_indexes : list IKey; it_fks : list IForeignKey; it_checks : list ICheck;
  it_settings : option ISettings; it_comments : list string; it_closing : list string;
  it_phase : Z; it_identity : bool; it_open : Tk;
  it_failed : list string; it_failedPrimary : bool; it_failedKey : bool; it_failedLines : Z; it_headerFailed : bool }.

Record IUse := mkIUse { iuse_doc : Tk; iuse_tables : list Tk; iuse_comments : list string }.
Record IPlacement := mkIPlacement { ipl_table : Tk; ipl_x : Z; ipl_y : Z; ipl_comments : list string }.
Record IDiagram := mkIDiagram {
  idg_open : Tk; idg_name : Tk; idg_named : bool; idg_entries : list IPlacement; idg_comments : list string; idg_closing : list string }.

Record IDocument := mkIDocument {
  idoc_name : string; idoc_nameTok : option Tk; idoc_uses : list IUse; idoc_tables : list ITable; idoc_diagrams : list IDiagram;
  idoc_closing : list string; idoc_failed : list string; idoc_constraints : list (string * Tk) }.

Definition emptyDocument : IDocument := mkIDocument "" None [] [] [] [] [] [].

(** ** The parser *)

(** The class of a token. *)
Inductive TokenClass :=
  | CKeyword | CType | CName | CSetting | CNumber | CString | COperator | CPunctuation | CComment | CWord.

#[global] Instance TokenClass_eq_dec : EqDecision TokenClass.
Proof. solve_decision. Defined.

(** The settings block that reads a line: the first block of a table, at its
    place, or a repeated block that is not kept. *)
Inductive SettingsBlock := NoBlock | BlockOf (table : nat) | Detached (block : ISettings).

(** What a finished parse of a used document leaves in the cache. *)
Record CacheEntry := mkCacheEntry { ce_diagnostics : list DbspecDiagnostic; ce_document : IDocument }.

(** The state of a [DocumentParser].  The later entry of [dp_classes] for a
    word stands in front; the cache is the one of the whole document set. *)
Record DP := mkDP {
  dp_diagnostics : list DbspecDiagnostic;
  dp_document : IDocument;
  dp_stopped : bool;
  dp_settingsBlock : SettingsBlock;
  dp_syntaxLine : Z;
  dp_columnCount : Z;
  dp_foreignKeyCount : Z;
  dp_abandoned : list Z;
  dp_classes : list ((Z * Z) * TokenClass);
  dp_lexical : list Z;
  dp_cache : list (string * CacheEntry) }.

Definition newParser (cache : list (string * CacheEntry)) : DP := mkDP [] emptyDocument false NoBlock 0 0 0 [] [] [] cache.

Notation Rd := (M DP).

(** Assignments to one member. *)
Definition setDiagnostics (f : list DbspecDiagnostic -> list DbspecDiagnostic) (p : DP) : DP :=
  mkDP (f (dp_diagnostics p)) (dp_document p) (dp_stopped p) (dp_settingsBlock p) (dp_syntaxLine p) (dp_columnCount p) (dp_foreignKeyCount p)
    (dp_abandoned p) (dp_classes p) (dp_lexical p) (dp_cache p).
Definition setDocument (f : IDocument -> IDocument) (p : DP) : DP :=
  mkDP (dp_diagnostics p) (f (dp_document p)) (dp_stopped p) (dp_settingsBlock p) (dp_syntaxLine p) (dp_columnCount p) (dp_foreignKeyCount p)
    (dp_abandoned p) (dp_classes p) (dp_lexical p) (dp_cache p).
Definition setStopped (p : DP) : DP :=
  mkDP (dp_diagnostics p) (dp_document p) true (dp_settingsBlock p) (dp_syntaxLine p) (dp_columnCount p) (dp_foreignKeyCount p)
    (dp_abandoned p) (dp_classes p) (dp_lexical p) (dp_cache p).
Definition setBlock (b : SettingsBlock) (p : DP) : DP :=
  mkDP (dp_diagnostics p) (dp_document p) (dp_stopped p) b (dp_syntaxLine p) (dp_columnCount p) (dp_foreignKeyCount p)
    (dp_abandoned p) (dp_classes p) (dp_lexical p) (dp_cache p).
Definition setSyntaxLine (line : Z) (p : DP) : DP :=
  mkDP (dp_diagnostics p) (dp_document p) (dp_stopped p) (dp_settingsBlock p) line (dp_columnCount p) (dp_foreignKeyCount p)
    (dp_abandoned p) (dp_classes p) (dp_lexical p) (dp_cache p).
Definition countColumn (p : DP) : DP :=
  mkDP (dp_diagnostics p) (dp_document p) (dp_stopped p) (dp_settingsBlock p) (dp_syntaxLine p) (dp_columnCount p + 1) (dp_foreignKeyCount p)
    (dp_abandoned p) (dp_classes p) (dp_lexical p) (dp_cache p).
Definition countForeignKey (p : DP) : DP :=
  mkDP (dp_diagnostics p) (dp_document p) (dp_stopped p) (dp_settingsBlock p) (dp_syntaxLine p) (dp_columnCount p) (dp_foreignKeyCount p + 1)
    (dp_abandoned p) (dp_classes p) (dp_lexical p) (dp_cache p).
Definition abandon (line : Z) (p : DP) : DP :=
  mkDP (dp_diagnostics p) (dp_document p) (dp_stopped p) (dp_settingsBlock p) (dp_syntaxLine p) (dp_columnCount p) (dp_foreignKeyCount p)
    (set_add line (dp_abandoned p)) (dp_classes p) (dp_lexical p) (dp_cache p).
Definition classify (at_ : Z * Z) (cls : TokenClass) (p : DP) : DP :=
  mkDP (dp_diagnostics p) (dp_document p) (dp_stopped p) (dp_settingsBlock p) (dp_syntaxLine p) (dp_columnCount p) (dp_foreignKeyCount p)
    (dp_abandoned p) ((at_, cls) :: dp_classes p) (dp_lexical p) (dp_cache p).
Definition addLexical (line : Z) (p : DP) : DP :=
  mkDP (dp_diagnostics p) (dp_document p) (dp_stopped p) (dp_settingsBlock p) (dp_syntaxLine p) (dp_columnCount p) (dp_foreignKeyCount p)
    (dp_abandoned p) (dp_classes p) (set_add line (dp_lexical p)) (dp_cache p).
Definition setCache (f : list (string * CacheEntry) -> list (string * CacheEntry)) (p : DP) : DP :=
  mkDP (dp_diagnostics p) (dp_document p) (dp_stopped p) (dp_settingsBlock p) (dp_syntaxLine p) (dp_columnCount p) (dp_foreignKeyCount p)
    (dp_abandoned p) (dp_classes p) (dp_lexical p) (f (dp_cache p)).

(** ** Members of the document and of a table *)

Definition addUse (u : IUse) (d : IDocument) : IDocument :=
  mkIDocument (idoc_name d) (idoc_nameTok d) (idoc_uses d ++ [u]) (idoc_tables d) (idoc_diagrams d) (idoc_closing d) (idoc_failed d) (idoc_constraints d).
Definition setTables (f : list ITable -> list ITable) (d : IDocument) : IDocument :=
  mkIDocument (idoc_name d) (idoc_nameTok d) (idoc_uses d) (f (idoc_tables d)) (idoc_diagrams d) (idoc_closing d) (idoc_failed d) (idoc_constraints d).
Definition setDiagrams (f : list IDiagram -> list IDiagram) (d : IDocument) : IDocument :=
  mkIDocument (idoc_name d) (idoc_nameTok d) (idoc_uses d) (idoc_tables d) (f (idoc_diagrams d)) (idoc_closing d) (idoc_failed d) (idoc_constraints d).
Definition setClosing (l : list string) (d : IDocument) : IDocument :=
  mkIDocument (idoc_name d) (idoc_nameTok d) (idoc_uses d) (idoc_tables d) (idoc_diagrams d) l (idoc_failed d) (idoc_constraints d).
Definition setFailedNames (f : list string -> list string) (d : IDocument) : IDocument :=
  mkIDocument (idoc_name d) (idoc_nameTok d) (idoc_uses d) (idoc_tables d) (idoc_diagrams d) (idoc_closing d) (f (idoc_failed d)) (idoc_constraints d).
Definition addConstraint (tok : Tk) (d : IDocument) : IDocument :=
  mkIDocument (idoc_name d) (idoc_nameTok d) (idoc_uses d) (idoc_tables d) (idoc_diagrams d) (idoc_closing d) (idoc_failed d)
    (assoc_set (tk_t tok) tok (idoc_constraints d)).
Definition setHeader (tok : Tk) (d : IDocument) : IDocument :=
  mkIDocument (tk_t tok) (Some tok) (idoc_uses d) (idoc_tables d) (idoc_diagrams d) (idoc_closing d) (idoc_failed d) (idoc_constraints d).

(** [document.failed.delete(name)] *)
Definition set_delete (x : string) (l : list string) : list string := filter (fun y => x <> y) l.

Definition it_update (t : ITable) (columns : list IColumn) (colMap : list (string * IColumn)) (pks uniques indexes : list IKey)
    (fks : list IForeignKey) (checks : list ICheck) (settings : option ISettings) (closing : list string) (phase : Z) (identity : bool)
    (failed : list string) (failedPrimary failedKey : bool) (failedLines : Z) : ITable :=
  mkITable (it_kw t) (it_name t) (it_named t) columns colMap pks uniques indexes fks checks settings (it_comments t) closing phase identity (it_open t)
    failed failedPrimary failedKey failedLines (it_headerFailed t).

Definition addColumn (c : IColumn) (t : ITable) : ITable :=
  it_update t (it_columns t ++ [c]) (it_colMap t) (it_pks t) (it_uniques t) (it_indexes t) (it_fks t) (it_checks t) (it_settings t) (it_closing t)
    (it_phase t) (it_identity t) (it_failed t) (it_failedPrimary t) (it_failedKey t) (it_failedLines t).
Definition mapColumn (name : string) (c : IColumn) (t : ITable) : ITable :=
  it_update t (it_columns t) (assoc_set name c (it_colMap t)) (it_pks t) (it_uniques t) (it_indexes t) (it_fks t) (it_checks t) (it_settings t) (it_closing t)
    (it_phase t) (it_identity t) (it_failed t) (it_failedPrimary t) (it_failedKey t) (it_failedLines t).
Definition addPrimary (k : IKey) (t : ITable) : ITable :=
  it_update t (it_columns t) (it_colMap t) (it_pks t ++ [k]) (it_uniques t) (it_indexes t) (it_fks t) (it_checks t) (it_settings t) (it_closing t)
    (it_phase t) (it_identity t) (it_failed t) (it_failedPrimary t) (it_failedKey t) (it_failedLines t).
Definition addUnique (k : IKey) (t : ITable) : ITable :=
  it_update t (it_columns t) (it_colMap t) (it_pks t) (it_uniques t ++ [k]) (it_indexes t) (it_fks t) (it_checks t) (it_settings t) (it_closing t)
    (it_phase t) (it_identity t) (it_failed t) (it_failedPrimary t) (it_failedKey t) (it_failedLines t).
Definition addIndex (k : IKey) (t : ITable) : ITable :=
  it_update t (it_columns t) (it_colMap t) (it_pks t) (it_uniques t) (it_indexes t ++ [k]) (it_fks t) (it_checks t) (it_settings t) (it_closing t)
    (it_phase t) (it_identity t) (it_failed t) (it_failedPrimary t) (it_failedKey t) (it_failedLines t).
Definition addForeignKey (k : IForeignKey) (t : ITable) : ITable :=
  it_update t (it_columns t) (it_colMap t) (it_pks t) (it_uniques t) (it_indexes t) (it_fks t ++ [k]) (it_checks t) (it_settings t) (it_closing t)
    (it_phase t) (it_identity t) (it_failed t) (it_failedPrimary t) (it_failedKey t) (it_failedLines t).
Definition setChecks (f : list ICheck -> list ICheck) (t : ITable) : ITable :=
  it_update t (it_columns t) (it_colMap t) (it_pks t) (it_uniques t) (it_indexes t) (it_fks t) (f (it_checks t)) (it_settings t) (it_closing t)
    (it_phase t) (it_identity t) (it_failed t) (it_failedPrimary t) (it_failedKey t) (it_failedLines t).
Definition setSettings (f : option ISettings -> option ISettings) (t : ITable) : ITable :=
  it_update t (it_columns t) (it_colMap t) (it_pks t) (it_uniques t) (it_indexes t) (it_fks t) (it_checks t) (f (it_settings t)) (it_closing t)
    (it_phase t) (it_identity t) (it_failed t) (it_failedPrimary t) (it_failedKey t) (it_failedLines t).
Definition setTableClosing (l : list string) (t : ITable) : ITable :=
  it_update t (it_columns t) (it_colMap t) (it_pks t) (it_uniques t) (it_indexes t) (it_fks t) (it_checks t) (it_settings t) l
    (it_phase t) (it_identity t) (it_failed t) (it_failedPrimary t) (it_failedKey t) (it_failedLines t).
Definition setPhase (n : Z) (t : ITable) : ITable :=
  it_update t (it_columns t) (it_colMap t) (it_pks t) (it_uniques t) (it_indexes t) (it_fks t) (it_checks t) (it_settings t) (it_closing t)
    n (it_identity t) (it_failed t) (it_failedPrimary t) (it_failedKey t) (it_failedLines t).
Definition setIdentity (t : ITable) : ITable :=
  it_update t (it_columns t) (it_colMap t) (it_pks t) (it_uniques t) (it_indexes t) (it_fks t) (it_checks t) (it_settings t) (it_closing t)
    (it_phase t) true (it_failed t) (it_failedPrimary t) (it_failedKey t) (it_failedLines t).
Definition failName (name : string) (t : ITable) : ITable :=
  it_update t (it_columns t) (it_colMap t) (it_pks t) (it_uniques t) (it_indexes t) (it_fks t) (it_checks t) (it_settings t) (it_closing t)
    (it_phase t) (it_identity t) (set_add name (it_failed t)) (it_failedPrimary t) (it_failedKey t) (it_failedLines t).
Definition failPrimary (t : ITable) : ITable :=
  it_update t (it_columns t) (it_colMap t) (it_pks t) (it_uniques t) (it_indexes t) (it_fks t) (it_checks t) (it_settings t) (it_closing t)
    (it_phase t) (it_identity t) (it_failed t) true (it_failedKey t) (it_failedLines t).
Definition failKey (t : ITable) : ITable :=
  it_update t (it_columns t) (it_colMap t) (it_pks t) (it_uniques t) (it_indexes t) (it_fks t) (it_checks t) (it_settings t) (it_closing t)
    (it_phase t) (it_identity t) (it_failed t) (it_failedPrimary t) true (it_failedLines t).
Definition failLine (t : ITable) : ITable :=
  it_update t (it_columns t) (it_colMap t) (it_pks t) (it_uniques t) (it_indexes t) (it_fks t) (it_checks t) (it_settings t) (it_closing t)
    (it_phase t) (it_identity t) (it_failed t) (it_failedPrimary t) (it_failedKey t) (it_failedLines t + 1).

(** A change of one table at its place. *)
Definition onTable (i : nat) (f : ITable -> ITable) : Rd unit := modify (setDocument (setTables (alter f i))).

Definition theDocument : Rd IDocument := p ← get; mret (dp_document p).
Definition theTable (i : nat) : Rd ITable := d ← theDocument; lift (present (idoc_tables d !! i) "table").

(** ** Reports *)

Section reports.
(** The lines of the document. *)
Variable lines : list (list rune).

(** [this.lines[line - 1] ?? ''] *)
Definition lineText (line : Z) : list rune := default [] (lines !! Z.to_nat (line - 1)).

Definition push (d : DbspecDiagnostic) : Rd unit := modify (setDiagnostics (fun l => l ++ [d])).

(** A line reports at most one syntax error. *)
Definition report (rule : string) (line index : Z) (message : string) : Rd unit :=
  let diagnostic := mkDiagnostic rule line (columnOf (lineText line) index) message in
  if decide (rule = "syntax") then
    modify (abandon line);;
    p ← get;
    if dp_syntaxLine p =? line then mret tt else modify (setSyntaxLine line);; push diagnostic
  else push diagnostic.

Definition at_ (rule : string) (tok : Tk) (message : string) : Rd unit := report rule (tk_line tok) (tk_s tok) message.

(** A line with a syntax error keeps only the syntax error after the mark. *)
Definition keepSyntaxSince (mark : nat) : Rd unit :=
  modify (setDiagnostics (fun l => take mark l ++ filter (fun d => dx_rule d = "syntax") (drop mark l))).

(** An error for a block that is not closed at the end of the document. *)
Definition unclosed (tok : Tk) (message : string) : Rd unit :=
  push (mkDiagnostic "syntax" (tk_line tok) (columnOf (lineText (tk_line tok)) (tk_s tok)) message).

(** A syntax error at a token, or after the last token of the line. *)
Definition syntax (toks : list Tk) (i : nat) (line : Z) (message : string) : Rd unit :=
  match toks !! i with
  | Some tok => at_ "syntax" tok message
  | None => report "syntax" line (unitsOf (lineText line)) message
  end.

Definition stop (rule : string) (tok : Tk) (message : string) : Rd unit := at_ rule tok message;; modify setStopped.

(** Gives a word its class; the words of a lexical line keep their lexical class. *)
Definition mark (tok : option Tk) (cls : TokenClass) : Rd unit :=
  match tok with
  | None => mret tt
  | Some tok =>
      p ← get;
      if decide (tk_k tok <> KWord \/ tk_line tok ∈ dp_lexical p) then mret tt else modify (classify (tk_line tok, tk_s tok) cls)
  end.

(** The words that are keywords in a value position. *)
Definition VALUE_WORDS : list string := ["true"; "false"; "null"; "now"].

Definition markValue (tok : option Tk) : Rd unit :=
  match tok with Some t => if includes (tk_t t) VALUE_WORDS then mark tok CKeyword else mret tt | None => mret tt end.

(** Checks a name's form and length; returns whether it can be resolved. *)
Definition name (tok : Tk) : Rd bool :=
  let formed := wellFormed (tk_t tok) in
  (if formed then mret tt
   else at_ "name.format" tok (if includes (tk_t tok) RESERVED then str [tk_t tok; " is a reserved word"] else str [tk_t tok; " does not match [a-z][a-z0-9_]*"]));;
  (if MAX_NAME_BYTES <? utf8Length (tk_t tok) then at_ "name.length" tok (str [tk_t tok; " is longer than 63 bytes"]) else mret tt);;
  mret formed.

(** [this.name(tok)] of which the result is not used. *)
Definition checkName (tok : Tk) : Rd unit := name tok;; mret tt.

Definition constraintName (tok : Tk) : Rd unit :=
  formed ← name tok;
  if formed : bool then
    d ← theDocument;
    match assoc (tk_t tok) (idoc_constraints d) with
    | Some _ => at_ "name.duplicate" tok (str [tk_t tok; " repeats an index, key, foreign key or check name"])
    | None => modify (setDocument (addConstraint tok))
    end
  else mret tt.
End reports.

(** A loop over the members of a list, each turn a computation. *)
Fixpoint eachP {A} (f : A -> Rd unit) (l : list A) : Rd unit :=
  match l with [] => mret tt | x :: l => f x;; eachP f l end.
