(* ===== verification/Reader.v ===== *)
(** * Reading the lines of a document ([dbspec/parse.ts], [DocumentParser])

    Each reader takes the tokens of one line and changes the document, or
    reports why it cannot; [parse] runs over the lines with the block it is in.
    A reader that the source leaves with [return] ends its branch here. *)

From S2P Require Import Prelude Documents Emit Check Decimal Lexer Literals ParseState.
From Stdlib Require Import Lia.

Definition MAX_TABLES : nat := 4096.
Definition MAX_COLUMNS : Z := 120000.
Definition MAX_FOREIGN_KEYS : Z := 20000.
Definition MAX_TABLE_COLUMNS : nat := 1000.

Definition PLAIN_KINDS : list (string * DbspecType) :=
  [("i16", TI16); ("i32", TI32); ("i64", TI64); ("bool", TBool); ("f64", TF64); ("text", TText); ("bytes", TBytes); ("uuid", TUuid); ("date", TDate)].
Definition STAGE_LIST : list string := ["ordered_json"; "aes"; "hex"; "gz"; "base64"; "serialize"; "yaml"; "ip"].
Definition ACTION_LIST : list string := ["restrict"; "cascade"; "set_null"].
Definition STORAGES : list string := ["files"; "document"; "block"].
Definition SHAPES : list string := ["list"; "table"].
Definition PERIODS : list string := ["year"; "month"; "day"].
Definition CONSTRAINT_WORDS : list string := ["primary"; "unique"; "index"; "foreign"; "check"].

Section reader.
Variable lines : list (list rune).

Notation syntax := (syntax lines).
Notation at_ := (at_ lines).
Notation report := (report lines).
Notation name := (name lines).
Notation checkName := (checkName lines).
Notation stop := (stop lines).

(** ** Parts of lines *)

(** [<word> (, <word>)*] up to a closing token: the words and the next index. *)
Fixpoint listFrom (fuel : nat) (toks : list Tk) (i : nat) (line : Z) (close : string) (words : list Tk) : Rd (option (list Tk * nat)) :=
  match fuel with
  | O => throw OutOfFuel
  | S fuel =>
      match wordTk (toks !! i) with
      | None => syntax toks i line "expected a name";; mret None
      | Some w =>
          let words := words ++ [w] in
          if isPunct (toks !! S i) "," then listFrom fuel toks (S (S i)) line close words
          else if isPunct (toks !! S i) close then mret (Some (words, S (S i)))
          else syntax toks (S i) line (str ["expected , or "; close]);; mret None
      end
  end.
Definition list_ (toks : list Tk) (i : nat) (line : Z) (close : string) : Rd (option (list Tk * nat)) :=
  listFrom (S (length toks)) toks i line close [].

Definition end_ (toks : list Tk) (i : nat) (line : Z) : Rd bool :=
  if (length toks <=? i)%nat then mret true else syntax toks i line "expected the end of the line";; mret false.

(** The columns of a key in parentheses, with directions in an index. *)
Fixpoint keyColumnsFrom (fuel : nat) (toks : list Tk) (i : nat) (line : Z) (directions : bool) (cols : list IKeyColumn) : Rd (option (list IKeyColumn * nat)) :=
  match fuel with
  | O => throw OutOfFuel
  | S fuel =>
      match wordTk (toks !! i) with
      | None => syntax toks i line "expected a column name";; mret None
      | Some w =>
          let directed := directions && (isWord (toks !! S i) "asc" || isWord (toks !! S i) "desc") in
          let descending := directed && isWord (toks !! S i) "desc" in
          let j := if directed then S (S i) else S i in
          (if directed then mark (toks !! S i) CKeyword else mret tt);;
          mark (Some w) CName;;
          let cols := cols ++ [mkIKeyColumn w descending] in
          if isPunct (toks !! j) "," then keyColumnsFrom fuel toks (S j) line directions cols
          else if isPunct (toks !! j) ")" then mret (Some (cols, S j))
          else syntax toks j line "expected , or )";; mret None
      end
  end.
Definition keyColumns (toks : list Tk) (i : nat) (line : Z) (directions : bool) : Rd (option (list IKeyColumn * nat)) :=
  if negb (isPunct (toks !! i) "(") then syntax toks i line "expected (";; mret None
  else if isPunct (toks !! S i) ")" then syntax toks (S i) line "expected a column name";; mret None
  else keyColumnsFrom (S (length toks)) toks (S i) line directions [].

(** A keyword at hand, marked and passed. *)
Definition keywordAt (toks : list Tk) (i : nat) (word : string) : Rd (option Tk * nat) :=
  if isWord (toks !! i) word then mark (toks !! i) CKeyword;; mret (toks !! i, S i) else mret (None, i).

(** A minus sign and the word right behind it. *)
Definition signedWord (toks : list Tk) (i : nat) : option (Tk * Tk) :=
  match toks !! i, wordTk (toks !! S i) with
  | Some v, Some next => if isOp (Some v) "-" && (tk_s next =? tk_e v) then Some (v, next) else None
  | _, _ => None
  end.

(** ** Uses, tables and diagrams *)

Definition use (toks : list Tk) (line : Z) (comments : list string) : Rd unit :=
  eachP (fun t => if decide (tk_k t = KWord) then modify (setDocument (setFailedNames (set_add (tk_t t)))) else mret tt) (drop 2 toks);;
  match wordTk (toks !! 1%nat) with
  | None => syntax toks 1 line "expected a document name"
  | Some doc =>
      if negb (isPunct (toks !! 2%nat) "{") then syntax toks 2 line "expected {"
      else
        listed ← list_ toks 3 line "}";
        match listed with
        | None => mret tt
        | Some (tables, i) =>
            ended ← end_ toks i line;
            if negb ended then mret tt
            else
              checkName doc;;
              eachP checkName tables;;
              eachP (fun t => modify (setDocument (setFailedNames (set_delete (tk_t t))))) tables;;
              mark (Some doc) CName;;
              eachP (fun t => mark (Some t) CName) tables;;
              modify (setDocument (addUse (mkIUse doc tables comments)))
        end
  end.

(** The place of the new table; a document with too many tables stops before
    the table has one. *)
Definition tableHeader (toks : list Tk) (line : Z) (comments : list string) : Rd nat :=
  kw ← lift (present (toks !! 0%nat) "toks[0]");
  let name_ := wordTk (toks !! 1%nat) in
  let named := bool_decide (name_ <> None) in
  let opened := named && isPunct (toks !! 2%nat) "{" in
  let open := if opened then default kw (toks !! 2%nat) else kw in
  let table := mkITable kw (default kw name_) named [] [] [] [] [] [] [] None comments [] 0 false open [] false false 0 (negb opened || (3 <? length toks)%nat) in
  d ← theDocument;
  let i := length (idoc_tables d) in
  if (MAX_TABLES <=? i)%nat then stop "limit" kw (str ["a document has at most "; pretty (Z.of_nat MAX_TABLES); " tables"]);; mret i
  else
    modify (setDocument (setTables (fun l => l ++ [table])));;
    match name_ with
    | None => syntax toks 1 line "expected a table name"
    | Some tok =>
        mark (Some tok) CName;;
        checkName tok;;
        if negb (isPunct (toks !! 2%nat) "{") then syntax toks 2 line "expected {" else end_ toks 3 line;; mret tt
    end;;
    mret i.

Definition diagramHeader (toks : list Tk) (line : Z) (comments : list string) : Rd nat :=
  kw ← lift (present (toks !! 0%nat) "toks[0]");
  let name_ := wordTk (toks !! 1%nat) in
  let named := bool_decide (name_ <> None) in
  let open := if named && isPunct (toks !! 2%nat) "{" then default kw (toks !! 2%nat) else kw in
  d ← theDocument;
  let i := length (idoc_diagrams d) in
  modify (setDocument (setDiagrams (fun l => l ++ [mkIDiagram open (default kw name_) named [] comments []])));;
  match name_ with
  | None => syntax toks 1 line "expected a diagram name"
  | Some tok =>
      mark (Some tok) CName;;
      formed ← name tok;
      (if formed && existsb (fun g => idg_named g && bool_decide (tk_t (idg_name g) = tk_t tok)) (idoc_diagrams d)
       then at_ "name.duplicate" tok (str ["diagram "; tk_t tok; " repeats"]) else mret tt);;
      if negb (isPunct (toks !! 2%nat) "{") then syntax toks 2 line "expected {" else end_ toks 3 line;; mret tt
  end;;
  mret i.

(** ** Columns *)

(** [/^[0-9]{1,9}$/.test(p.t) ? Number(p.t) : NaN] *)
Definition parameter (p : Tk) : option Z :=
  if digits1 (tk_t p) && (String.length (tk_t p) <=? 9)%nat then Some (digits_val 0 (tk_t p)) else None.

Definition type (tok : Tk) (params : option (list Tk)) : Rd (option DbspecType) :=
  let kind := tk_t tok in
  let wrong message := at_ "type" tok message;; mret None in
  match assoc kind PLAIN_KINDS with
  | Some plain => match params with Some _ => wrong (str [kind; " takes no parameters"]) | None => mret (Some plain) end
  | None =>
      let values := map parameter (default [] params) in
      if decide (kind = "decimal") then
        match values with
        | [Some p; Some s] =>
            if (1 <=? p) && (p <=? 18) && (0 <=? s) && (s <=? p) then mret (Some (TDecimal p s)) else wrong "decimal(p,s) needs 1 <= p <= 18 and 0 <= s <= p"
        | _ => wrong "decimal(p,s) needs 1 <= p <= 18 and 0 <= s <= p"
        end
      else if decide (kind = "varchar") then
        match values with
        | [Some n] => if (1 <=? n) && (n <=? 16383) then mret (Some (TVarchar n)) else wrong "varchar(n) needs 1 <= n <= 16383"
        | _ => wrong "varchar(n) needs 1 <= n <= 16383"
        end
      else if decide (kind = "time" \/ kind = "datetime") then
        match values with
        | [Some p] =>
            if (0 <=? p) && (p <=? 6) then mret (Some (if decide (kind = "time") then TTime p else TDatetime p)) else wrong (str [kind; "(p) needs 0 <= p <= 6"])
        | _ => wrong (str [kind; "(p) needs 0 <= p <= 6"])
        end
      else wrong (str ["type "; dq; kind; dq; " is not a dbspec type"])
  end.

(** The parameters of a type; [None] after a report. *)
Definition typeParams (toks : list Tk) (line : Z) : Rd (option (option (list Tk) * nat)) :=
  if isPunct (toks !! 2%nat) "(" then
    listed ← list_ toks 3 line ")";
    mret (match listed with Some (params, i) => Some (Some params, i) | None => None end)
  else mret (Some (None, 2%nat)).

(** The value behind the default keyword: its token, the next index, and
    whether it was read. *)
Definition defaultValue (toks : list Tk) (i : nat) (line : Z) : Rd (option Tk * nat * bool) :=
  match signedWord toks i with
  | Some (v, next) => mret (Some (mkTk KWord (str ["-"; tk_t next]) (tk_s v) (tk_e next) line), S (S i), true)
  | None =>
      match toks !! i with
      | Some v =>
          if decide (tk_k v = KWord \/ tk_k v = KString) then markValue (Some v);; mret (Some v, S i, true)
          else syntax toks i line "expected a default value";; mret (None, i, false)
      | None => syntax toks i line "expected a default value";; mret (None, i, false)
      end
  end.

(** The rules of an identity column. *)
Definition identityColumn (ti : nat) (identity : Tk) (type : option DbspecType) (nullTok dflt : option Tk) : Rd unit :=
  (match type with Some t => if decide (t = TI64) then mret tt else at_ "column" identity "an identity column has the type i64" | None => mret tt end);;
  (match nullTok with Some _ => at_ "column" identity "an identity column cannot be null" | None => mret tt end);;
  t ← theTable ti;
  (if it_identity t then at_ "column" identity "a table has at most one identity column" else mret tt);;
  onTable ti setIdentity;;
  match dflt with Some d => at_ "column" d "an identity column has no default" | None => mret tt end.

(** The default of a column that is no identity. *)
Definition columnDefault (dflt valueTok : option Tk) (type : option DbspecType) : Rd (option DbspecDefault) :=
  match dflt, type with
  | Some d, Some t =>
      if decide (t = TText \/ t = TBytes) then at_ "column" d (str ["a "; type_kind t; " column has no default"]);; mret None
      else match valueTok with
           | None => mret None
           | Some v =>
               fitted ← lift (defaultOf t v);
               match fitted with inr message => at_ "column" v message;; mret None | inl value => mret (Some value) end
           end
  | _, _ => mret None
  end.

(** What follows the type of a column. *)
Definition columnBody (ti : nat) (toks : list Tk) (i : nat) (line : Z) (comments : list string) (nameTok typeTok : Tk) (params : option (list Tk)) : Rd unit :=
  resolvable ← name nameTok;
  type ← type typeTok params;
  '(nullTok, i) ← keywordAt toks i "null";
  '(identity, i) ← keywordAt toks i "identity";
  '(dflt, i) ← keywordAt toks i "default";
  '(valueTok, i, complete) ← match dflt with Some _ => defaultValue toks i line | None => mret (None, i, true) end;
  (if complete : bool then end_ toks i line;; mret tt else mret tt);;
  value ← match identity with
          | Some identity => identityColumn ti identity type nullTok dflt;; mret None
          | None => columnDefault dflt valueTok type
          end;
  let column := mkIColumn nameTok type (bool_decide (nullTok <> None)) identity value comments dflt valueTok in
  onTable ti (addColumn column);;
  if negb resolvable then mret tt
  else
    t ← theTable ti;
    match assoc (tk_t nameTok) (it_colMap t) with
    | Some _ => at_ "name.duplicate" nameTok (str ["column "; tk_t nameTok; " repeats"])
    | None => onTable ti (mapColumn (tk_t nameTok) column)
    end.

Definition column (ti : nat) (toks : list Tk) (line : Z) (comments : list string) : Rd unit :=
  nameTok ← lift (present (toks !! 0%nat) "toks[0]");
  if decide (tk_k nameTok <> KWord) then syntax toks 0 line "expected a column name"
  else
    match wordTk (toks !! 1%nat) with
    | None => onTable ti (failName (tk_t nameTok));; syntax toks 1 line "expected a type"
    | Some typeTok =>
        mark (Some nameTok) CName;;
        mark (Some typeTok) CType;;
        listed ← typeParams toks line;
        match listed with
        | None => onTable ti (failName (tk_t nameTok))
        | Some (params, i) =>
            modify countColumn;;
            t ← theTable ti;
            p ← get;
            if (MAX_TABLE_COLUMNS <=? length (it_columns t))%nat
            then stop "limit" nameTok (str ["a table has at most "; pretty (Z.of_nat MAX_TABLE_COLUMNS); " columns"])
            else if MAX_COLUMNS <? dp_columnCount p then stop "limit" nameTok (str ["a document has at most "; pretty MAX_COLUMNS; " columns"])
            else columnBody ti toks i line comments nameTok typeTok params
        end
    end.

(** Knows a column line that had a syntax error. *)
Definition failColumnLine (ti : nat) (first : Tk) : Rd unit :=
  onTable ti failLine;; if decide (tk_k first = KWord) then onTable ti (failName (tk_t first)) else mret tt.

(** ** Keys, foreign keys and checks *)

(** [on <event> <action>]: the action and the next index, [None] after a report. *)
Definition actionClause (toks : list Tk) (i : nat) (line : Z) (event : string) : Rd (option (option Tk * nat)) :=
  if isWord (toks !! i) "on" && isWord (toks !! S i) event then
    mark (toks !! i) CKeyword;;
    mark (toks !! S i) CKeyword;;
    match wordTk (toks !! S (S i)) with
    | None => syntax toks (S (S i)) line "expected an action";; mret None
    | Some action =>
        (if includes (tk_t action) ACTION_LIST then mark (Some action) CKeyword else mret tt);;
        mret (Some (Some action, S (S (S i))))
    end
  else mret (Some (None, i)).

Definition actionName (action : option Tk) : string := match action with Some a => tk_t a | None => "restrict" end.

Definition checkAction (action : Tk) : Rd unit :=
  if includes (tk_t action) ACTION_LIST then mret tt
  else at_ "foreign_key" action (str ["action "; dq; tk_t action; dq; " is not restrict, cascade or set_null"]).

(** The end of a foreign key line, whose parts were read. *)
Definition foreignKeyEnd (ti : nat) (kw name_ : Tk) (cols : list IKeyColumn) (target : Tk) (refs : list IKeyColumn) (onDelete onUpdate : option Tk)
    (comments : list string) : Rd unit :=
  eachP checkAction (option_list onDelete ++ option_list onUpdate);;
  p ← get;
  if MAX_FOREIGN_KEYS <=? dp_foreignKeyCount p then stop "limit" kw (str ["a document has at most "; pretty MAX_FOREIGN_KEYS; " foreign keys"])
  else
    modify countForeignKey;;
    constraintName lines name_;;
    eachP (fun c => checkName (ikc_tok c)) cols;;
    checkName target;;
    eachP (fun c => checkName (ikc_tok c)) refs;;
    onTable ti (addForeignKey (mkIForeignKey name_ (map ikc_tok cols) target (map ikc_tok refs) (actionName onDelete) (actionName onUpdate) comments)).

Definition foreignKeyLine (ti : nat) (toks : list Tk) (line : Z) (comments : list string) : Rd unit :=
  kw ← lift (present (toks !! 0%nat) "toks[0]");
  if negb (isWord (toks !! 1%nat) "key") then syntax toks 1 line "expected key"
  else
    mark (toks !! 1%nat) CKeyword;;
    match wordTk (toks !! 2%nat) with
    | None => syntax toks 2 line "expected a name"
    | Some name_ =>
        mark (Some name_) CName;;
        cols ← keyColumns toks 3 line false;
        match cols with
        | None => mret tt
        | Some (cols, i) =>
            if negb (isWord (toks !! i) "references") then syntax toks i line "expected references"
            else
              mark (toks !! i) CKeyword;;
              match wordTk (toks !! S i) with
              | None => syntax toks (S i) line "expected a table name"
              | Some target =>
                  mark (Some target) CName;;
                  refs ← keyColumns toks (S (S i)) line false;
                  match refs with
                  | None => mret tt
                  | Some (refs, i) =>
                      onDelete ← actionClause toks i line "delete";
                      match onDelete with
                      | None => mret tt
                      | Some (onDelete, i) =>
                          onUpdate ← actionClause toks i line "update";
                          match onUpdate with
                          | None => mret tt
                          | Some (onUpdate, i) =>
                              ended ← end_ toks i line;
                              if negb ended then mret tt else foreignKeyEnd ti kw name_ cols target refs onDelete onUpdate comments
                          end
                      end
                  end
              end
        end
    end.

(** A unique or index line. *)
Definition keyLine (ti : nat) (kw : Tk) (toks : list Tk) (line : Z) (comments : list string) : Rd unit :=
  match wordTk (toks !! 1%nat) with
  | None => onTable ti failKey;; syntax toks 1 line "expected a name"
  | Some name_ =>
      let index := bool_decide (tk_t kw = "index") in
      cols ← keyColumns toks 2 line index;
      match cols with
      | None => onTable ti failKey
      | Some (cols, i) =>
          ended ← end_ toks i line;
          if negb ended then onTable ti failKey
          else
            mark (Some name_) CName;;
            constraintName lines name_;;
            eachP (fun c => checkName (ikc_tok c)) cols;;
            onTable ti ((if index then addIndex else addUnique) (mkIKey kw (Some name_) cols comments))
      end
  end.

Definition primaryLine (ti : nat) (kw : Tk) (toks : list Tk) (line : Z) (comments : list string) : Rd unit :=
  if negb (isWord (toks !! 1%nat) "key") then onTable ti failPrimary;; syntax toks 1 line "expected key"
  else
    mark (toks !! 1%nat) CKeyword;;
    cols ← keyColumns toks 2 line false;
    match cols with
    | None => onTable ti failPrimary
    | Some (cols, i) =>
        ended ← end_ toks i line;
        if negb ended then onTable ti failPrimary
        else
          eachP (fun c => checkName (ikc_tok c)) cols;;
          onTable ti (addPrimary (mkIKey kw None cols comments))
    end.

Definition checkLine (ti : nat) (toks : list Tk) (line : Z) (comments : list string) : Rd unit :=
  match wordTk (toks !! 1%nat) with
  | None => syntax toks 1 line "expected a name"
  | Some name_ =>
      if negb (isPunct (toks !! 2%nat) "(") then syntax toks 2 line "expected ("
      else
        close ← lift (present (last toks) "toks[toks.length - 1]");
        if (length toks <? 4)%nat || negb (isPunct (Some close) ")") then syntax toks (length toks) line "expected ')' at the end of the check"
        else
          mark (Some name_) CName;;
          constraintName lines name_;;
          onTable ti (setChecks (fun l => l ++ [mkICheck name_ (take (length toks - 4) (drop 3 toks)) close comments ""]))
  end.

Definition constraint (ti : nat) (toks : list Tk) (line : Z) (comments : list string) : Rd unit :=
  kw ← lift (present (toks !! 0%nat) "toks[0]");
  mark (Some kw) CKeyword;;
  if decide (tk_t kw = "primary") then primaryLine ti kw toks line comments
  else if decide (tk_t kw = "unique" \/ tk_t kw = "index") then keyLine ti kw toks line comments
  else if decide (tk_t kw = "foreign") then
    before ← theTable ti;
    foreignKeyLine ti toks line comments;;
    after ← theTable ti;
    match wordTk (toks !! 2%nat) with
    | Some failed => if (length (it_fks after) =? length (it_fks before))%nat then onTable ti (failName (tk_t failed)) else mret tt
    | None => mret tt
    end
  else if decide (tk_t kw = "check") then checkLine ti toks line comments
  else mret tt.

(** ** Settings *)

(** The first block of a table is kept, and a repeated block is split off. *)
Definition openSettingsBlock (ti : nat) (block : ISettings) : Rd unit :=
  t ← theTable ti;
  match it_settings t with
  | Some _ => modify (setBlock (Detached block))
  | None => onTable ti (setSettings (fun _ => Some block));; modify (setBlock (BlockOf ti))
  end.

(** A change of the block that reads the line. *)
Definition onBlock (f : ISettings -> ISettings) : Rd unit :=
  p ← get;
  match dp_settingsBlock p with
  | NoBlock => lift (Err (JsError "this.settingsBlock is missing"))
  | BlockOf ti => onTable ti (setSettings (fmap f))
  | Detached b => modify (setBlock (Detached (f b)))
  end.

Definition addEntry (s : ISetting) (b : ISettings) : ISettings := mkISettings (isb_open b) (isb_entries b ++ [s]) (isb_comments b) (isb_closing b).
Definition closeBlock (l : list string) (b : ISettings) : ISettings := mkISettings (isb_open b) (isb_entries b) (isb_comments b) l.

(** The words from an index on: [count] of them, or at least one. *)
Fixpoint wordsFrom (toks : list Tk) (i : nat) : list Tk + nat :=
  match toks with
  | [] => inl []
  | t :: toks => if decide (tk_k t = KWord) then match wordsFrom toks (S i) with inl l => inl (t :: l) | inr j => inr j end else inr i
  end.
Definition words (toks : list Tk) (line : Z) (from : nat) (count : option nat) : Rd (option (list Tk)) :=
  match wordsFrom (drop from toks) from with
  | inr i => syntax toks i line "expected a name";; mret None
  | inl out =>
      if (match count with None => (length out =? 0)%nat | Some n => (length out <? n)%nat end)
      then syntax toks (length toks) line "expected a name";; mret None
      else match count with
           | Some n => if (n <? length out)%nat then syntax toks (from + n) line "expected the end of the line";; mret None else mret (Some out)
           | None => mret (Some out)
           end
  end.

(** A name-like word at an index. *)
Definition settingWord (toks : list Tk) (i : nat) (line : Z) (what : string) : Rd (option Tk) :=
  match wordTk (toks !! i) with
  | Some t => mark (Some t) CName;; mret (Some t)
  | None => syntax toks i line (str ["expected "; what]);; mret None
  end.

(** A word of a list of keywords at an index, with the report when it is none. *)
Definition keywordOf (toks : list Tk) (i : nat) (line : Z) (choices : list string) (message : string) : Rd (option Tk) :=
  match wordTk (toks !! i) with
  | Some w => if includes (tk_t w) choices then mark (Some w) CKeyword;; mret (Some w) else syntax toks i line message;; mret None
  | None => syntax toks i line message;; mret None
  end.

(** The shard clause: [Some None] without one, [None] after a report. *)
Definition shardClause (toks : list Tk) (i : nat) (line : Z) : Rd (option (option (Tk * Tk * Tk) * nat)) :=
  match toks !! i with
  | Some at_ =>
      if isWord (Some at_) "shard" then
        mark (Some at_) CKeyword;;
        column ← settingWord toks (S i) line "the shard column";
        match column with
        | None => mret None
        | Some column =>
            period ← keywordOf toks (S (S i)) line PERIODS "expected 'year', 'month' or 'day'";
            mret (match period with Some period => Some (Some (at_, column, period), S (S (S i))) | None => None end)
        end
      else mret (Some (None, i))
  | None => mret (Some (None, i))
  end.

(** [store files], [store document list|table] or [store block <foreign key> list|table]. *)
Definition storeLine (toks : list Tk) (line : Z) : Rd (option ISettingKind) :=
  storage ← keywordOf toks 1 line STORAGES "expected 'files', 'document' or 'block'";
  match storage with
  | None => mret None
  | Some storage =>
      foreignKey ← (if decide (tk_t storage = "block") then
                      w ← settingWord toks 2 line "a foreign key name"; mret (match w with Some w => Some (Some w, 3%nat) | None => None end)
                    else mret (Some (None, 2%nat)));
      match foreignKey with
      | None => mret None
      | Some (foreignKey, i) =>
          shape ← (if decide (tk_t storage = "files") then mret (Some (None, i))
                   else w ← keywordOf toks i line SHAPES "expected 'list' or 'table'"; mret (match w with Some w => Some (Some w, S i) | None => None end));
          match shape with
          | None => mret None
          | Some (shape, i) =>
              shard ← shardClause toks i line;
              match shard with
              | None => mret None
              | Some (shard, i) =>
                  ended ← end_ toks i line;
                  mret (if ended : bool then Some (IStore storage foreignKey shape shard) else None)
              end
          end
      end
  end.

(** [require (<columns>)]: [Some None] without the clause, [None] after a report. *)
Definition requireList (toks : list Tk) (i : nat) (line : Z) : Rd (option (option (list Tk) * nat)) :=
  if negb (isWord (toks !! i) "require") then mret (Some (None, i))
  else
    mark (toks !! i) CKeyword;;
    if negb (isPunct (toks !! S i) "(") then syntax toks (S i) line "expected '('";; mret None
    else
      listed ← list_ toks (S (S i)) line ")";
      match listed with
      | None => mret None
      | Some (l, i) => eachP (fun w => mark (Some w) CName) l;; mret (Some (Some l, i))
      end.

(** The end of a [state_machine] line. *)
Definition machineEnd (toks : list Tk) (i : nat) (line : Z) (form : IStateLine) : Rd (option IStateLine) :=
  if (i <? length toks)%nat then syntax toks i line "the end of the line";; mret None else mret (Some form).

(** A keyword of the history form and the word behind it. *)
Definition historyPart (toks : list Tk) (i : nat) (line : Z) (word what : string) : Rd (option Tk) :=
  if isWord (toks !! i) word then mark (toks !! i) CKeyword;; settingWord toks (S i) line what
  else syntax toks i line (str ["'"; word; "'"]);; mret None.

Definition historyForm (toks : list Tk) (i : nat) (line : Z) : Rd (option IStateLine) :=
  mark (toks !! i) CKeyword;;
  table ← settingWord toks (i + 1) line "the history table";
  match table with None => mret None | Some table =>
    row ← historyPart toks (i + 2) line "row" "the foreign key column";
    match row with None => mret None | Some row =>
      from ← historyPart toks (i + 4) line "from" "the from column";
      match from with None => mret None | Some from =>
        to ← historyPart toks (i + 6) line "to" "the to column";
        match to with None => mret None | Some to =>
          at_ ← historyPart toks (i + 8) line "at" "the at column";
          match at_ with None => mret None | Some at_ => machineEnd toks (i + 10) line (LHistory table row from to at_) end
        end
      end
    end
  end.

(** The row count of a limit: a word, or a minus sign and a number. *)
Definition limitCount (toks : list Tk) (i : nat) (line : Z) : Rd (option (Tk * nat)) :=
  match toks !! i with
  | Some t =>
      if isOp (Some t) "-" then
        match wordTk (toks !! S i) with
        | Some n => if isUnsignedNumber (tk_t n) then mret (Some (mkTk KWord (str ["-"; tk_t n]) (tk_s t) (tk_e n) line, S (S i)))
                    else syntax toks (S i) line "expected a number after '-'";; mret None
        | None => syntax toks (S i) line "expected a number after '-'";; mret None
        end
      else if decide (tk_k t = KWord) then markValue (Some t);; mret (Some (t, S i))
      else syntax toks i line "expected a row count";; mret None
  | None => syntax toks i line "expected a row count";; mret None
  end.

Definition limitForm (toks : list Tk) (i : nat) (line : Z) : Rd (option IStateLine) :=
  mark (toks !! i) CKeyword;;
  state ← settingWord toks (S i) line "a state name";
  match state with
  | None => mret None
  | Some state =>
      count ← limitCount toks (S (S i)) line;
      match count with None => mret None | Some (count, i) => machineEnd toks i line (LLimit state count) end
  end.

Definition transitionForm (toks : list Tk) (i : nat) (line : Z) : Rd (option IStateLine) :=
  from ← settingWord toks i line "the from state";
  match from with
  | None => mret None
  | Some from =>
      if negb (isOp (toks !! S i) "-") || negb (isOp (toks !! S (S i)) ">") then syntax toks (S i) line "expected '->'";; mret None
      else
        to ← settingWord toks (i + 3) line "the to state";
        match to with
        | None => mret None
        | Some to =>
            requires ← requireList toks (i + 4) line;
            match requires with None => mret None | Some (requires, i) => machineEnd toks i line (LTransition from to requires) end
        end
  end.

Definition stateForm (toks : list Tk) (i : nat) (line : Z) (terminal : bool) : Rd (option IStateLine) :=
  mark (toks !! i) CKeyword;;
  state ← settingWord toks (S i) line "a state name";
  match state with
  | None => mret None
  | Some state =>
      if negb terminal then machineEnd toks (S (S i)) line (LInitial state)
      else
        requires ← requireList toks (S (S i)) line;
        match requires with None => mret None | Some (requires, i) => machineEnd toks i line (LTerminal state requires) end
  end.

(** A form word that no [->] follows. *)
Definition formAhead (toks : list Tk) (i : nat) (text : string) : bool := isWord (toks !! i) text && negb (isOp (toks !! S i) "-").

Definition stateMachineLine (toks : list Tk) (line : Z) : Rd (option ISettingKind) :=
  column ← settingWord toks 1 line "the state column";
  match column with
  | None => mret None
  | Some column =>
      form ← (if formAhead toks 2 "initial" || formAhead toks 2 "terminal" then stateForm toks 2 line (isWord (toks !! 2%nat) "terminal")
              else if formAhead toks 2 "history" then historyForm toks 2 line
              else if formAhead toks 2 "limit" then limitForm toks 2 line
              else transitionForm toks 2 line);
      mret (IStateMachine column <$> form)
  end.

(** The labelled words of an audit setting. *)
Fixpoint auditParts (toks : list Tk) (i : nat) (line : Z) (labels : list string) (parts : list Tk) : Rd (option (list Tk * nat)) :=
  match labels with
  | [] => mret (Some (parts, i))
  | label :: labels =>
      if negb (isWord (toks !! i) label) then syntax toks i line (str ["expected "; label]);; mret None
      else
        mark (toks !! i) CKeyword;;
        match wordTk (toks !! S i) with
        | None => syntax toks (S i) line "expected a name";; mret None
        | Some w => mark (Some w) CName;; checkName w;; auditParts toks (S (S i)) line labels (parts ++ [w])
        end
  end.

(** The names and marks of [tables <table> (<record>, <name>)] behind its word. *)
Fixpoint tablesParts (toks : list Tk) (i : nat) (line : Z) (wants : list (option string)) (names : list Tk) : Rd (option (list Tk)) :=
  match wants with
  | [] => mret (Some names)
  | None :: wants =>
      match wordTk (toks !! i) with
      | None => syntax toks i line "expected a name";; mret None
      | Some w => mark (Some w) CName;; checkName w;; tablesParts toks (S i) line wants (names ++ [w])
      end
  | Some want :: wants =>
      if negb (isPunct (toks !! i) want) then syntax toks i line (str ["expected "; want]);; mret None
      else tablesParts toks (S i) line wants names
  end.

Definition tablesClause (toks : list Tk) (i : nat) (line : Z) : Rd (option (option (Tk * Tk * Tk) * nat)) :=
  if negb (isWord (toks !! i) "tables") then mret (Some (None, i))
  else
    mark (toks !! i) CKeyword;;
    names ← tablesParts toks (S i) line [None; Some "("; None; Some ","; None; Some ")"] [];
    match names with
    | Some [table; record; name_] => mret (Some (Some (table, record, name_), (i + 7)%nat))
    | Some _ => lift (Err (JsError "names[0] is missing"))
    | None => mret None
    end.

(** The exclude and include lists; each takes at least four tokens. *)
Fixpoint auditListsFrom (fuel : nat) (toks : list Tk) (i : nat) (line : Z) (lists : list (Tk * list Tk)) : Rd (option (list (Tk * list Tk) * nat)) :=
  match fuel with
  | O => throw OutOfFuel
  | S fuel =>
      match wordTk (toks !! i) with
      | Some kw =>
          if includes (tk_t kw) ["exclude"; "include"] then
            if negb (isPunct (toks !! S i) "(") then syntax toks (S i) line "expected (";; mret None
            else
              listed ← list_ toks (S (S i)) line ")";
              match listed with
              | None => mret None
              | Some (columns, j) =>
                  mark (Some kw) CKeyword;;
                  eachP (fun c => mark (Some c) CName) columns;;
                  auditListsFrom fuel toks j line (lists ++ [(kw, columns)])
              end
          else mret (Some (lists, i))
      | None => mret (Some (lists, i))
      end
  end.

Definition auditSetting (toks : list Tk) (line : Z) : Rd (option ISettingKind) :=
  parts ← auditParts toks 1 line ["into"; "column"; "references"; "action"; "previous"] [];
  match parts with
  | None => mret None
  | Some (parts, i) =>
      tables ← tablesClause toks i line;
      match tables with
      | None => mret None
      | Some (tables, i) =>
          lists ← auditListsFrom (S (length toks)) toks i line [];
          match lists with
          | None => mret None
          | Some (lists, i) =>
              if (i <? length toks)%nat then
                syntax toks i line (if bool_decide (tables = None) && bool_decide (lists = [])
                                    then "expected tables, exclude, include or the end of the line" else "expected exclude, include or the end of the line");;
                mret None
              else match parts with
                   | [into; column; references; action; previous] => mret (Some (IAudit into column references action previous tables lists))
                   | _ => lift (Err (JsError "parts[0] is missing"))
                   end
          end
      end
  end.

(** A setting of one word, whose name is checked where the source does. *)
Definition oneWord (toks : list Tk) (line : Z) (checked : bool) (make : Tk -> ISettingKind) : Rd (option ISettingKind) :=
  w ← words toks line 1 (Some 1%nat);
  match w with
  | Some (w :: _) => (if checked then checkName w else mret tt);; mark (Some w) CName;; mret (Some (make w))
  | _ => mret None
  end.

(** A word is marked and its name checked. *)
Definition markedName (w : Tk) : Rd unit := mark (Some w) CName;; checkName w.

Definition selectSetting (toks : list Tk) (line : Z) : Rd (option ISettingKind) :=
  if negb (isWord (toks !! 1%nat) "explicit") then syntax toks 1 line "expected explicit";; mret None
  else
    mark (toks !! 1%nat) CKeyword;;
    w ← words toks line 2 None;
    match w with None => mret None | Some l => eachP markedName l;; mret (Some (ISelectExplicit l)) end.

(** The stages of a codec are known words, which a block that is not kept does
    not check. *)
Definition codecSetting (toks : list Tk) (line : Z) : Rd (option ISettingKind) :=
  w ← words toks line 1 None;
  match w with
  | None | Some [] => mret None
  | Some [_] => syntax toks (length toks) line "expected a codec stage";; mret None
  | Some (column :: stages) =>
      markedName column;;
      eachP (fun s => if includes (tk_t s) STAGE_LIST then mark (Some s) CKeyword else mret tt) stages;;
      p ← get;
      (match dp_settingsBlock p with
       | Detached _ => mret tt
       | _ => eachP (fun s => if includes (tk_t s) STAGE_LIST then mret tt else at_ "setting" s (str [tk_t s; " is not a codec stage"])) stages
       end);;
      mret (Some (ICodec column stages))
  end.

Definition namesSetting (toks : list Tk) (line : Z) (count : nat) (make : list Tk -> option ISettingKind) : Rd (option ISettingKind) :=
  w ← words toks line 1 (Some count);
  match w with None => mret None | Some l => eachP markedName l;; mret (make l) end.

Definition keyPrefixSetting (toks : list Tk) (line : Z) : Rd (option ISettingKind) :=
  match toks !! 1%nat with
  | Some prefix =>
      if decide (tk_k prefix = KString) then
        if (2 <? length toks)%nat then syntax toks 2 line "expected the end of the line";; mret None else mret (Some (IKeyPrefix prefix))
      else syntax toks 1 line "expected a key prefix in quotes";; mret None
  | None => syntax toks 1 line "expected a key prefix in quotes";; mret None
  end.

Definition checkboxSetting (toks : list Tk) (line : Z) : Rd (option ISettingKind) :=
  column ← settingWord toks 1 line "the state column";
  match column with
  | None => mret None
  | Some column =>
      state ← settingWord toks 2 line "a state name";
      match state with
      | None => mret None
      | Some state =>
          match toks !! 3%nat with
          | Some glyph =>
              if decide (tk_k glyph = KString) then
                if (4 <? length toks)%nat then syntax toks 4 line "expected the end of the line";; mret None else mret (Some (ICheckbox column state glyph))
              else syntax toks 3 line "expected a glyph in quotes";; mret None
          | None => syntax toks 3 line "expected a glyph in quotes";; mret None
          end
      end
  end.

(** The kind of a setting line: [None] after a report. *)
Definition settingKind (kw : Tk) (toks : list Tk) (line : Z) : Rd (option ISettingKind) :=
  let kind := tk_t kw in
  if decide (kind = "entity") then oneWord toks line true IEntity
  else if decide (kind = "updated") then oneWord toks line true IUpdated
  else if decide (kind = "soft_delete") then oneWord toks line true ISoftDelete
  else if decide (kind = "aes_version") then oneWord toks line true IAesVersion
  else if decide (kind = "select") then selectSetting toks line
  else if decide (kind = "codec") then codecSetting toks line
  else if decide (kind = "blind_index") then namesSetting toks line 2 (fun l => match l with [a; b] => Some (IBlindIndex a b) | _ => None end)
  else if decide (kind = "navigation") then namesSetting toks line 3 (fun l => match l with [a; b; c] => Some (INavigation a b c) | _ => None end)
  else if decide (kind = "immutable") then ended ← end_ toks 1 line; mret (if ended : bool then Some IImmutable else None)
  else if decide (kind = "markdown") then oneWord toks line false IMarkdown
  else if decide (kind = "store") then storeLine toks line
  else if decide (kind = "key_prefix") then keyPrefixSetting toks line
  else if decide (kind = "title") then oneWord toks line false ITitle
  else if decide (kind = "body") then oneWord toks line false IBody
  else if decide (kind = "order") then oneWord toks line false IOrder
  else if decide (kind = "checkbox") then checkboxSetting toks line
  else if decide (kind = "state_machine") then stateMachineLine toks line
  else if decide (kind = "audit") then auditSetting toks line
  else at_ "setting" kw (str [kind; " is not a setting"]);; mret None.

(** A line of a settings block; the error of a line that did not lex was
    reported. *)
Definition setting (toks : list Tk) (line : Z) (comments : list string) (lexed : bool) : Rd unit :=
  if lexed then mret tt
  else
    kw ← lift (present (toks !! 0%nat) "toks[0]");
    if decide (tk_k kw <> KWord) then syntax toks 0 line "expected a setting"
    else
      mark (Some kw) CSetting;;
      kind ← settingKind kw toks line;
      match kind with None => mret tt | Some kind => onBlock (addEntry (mkISetting kw comments kind)) end.

(** ** Placements *)

(** A coordinate: its token, its text and the next index. *)
Definition coordinate (toks : list Tk) (i : nat) (line : Z) : Rd (option (Tk * string * nat)) :=
  match signedWord toks i with
  | Some (v, next) => mret (Some (v, str ["-"; tk_t next], S (S i)))
  | None =>
      match wordTk (toks !! i) with
      | Some v => markValue (Some v);; mret (Some (v, tk_t v, S i))
      | None => syntax toks i line "expected a coordinate";; mret None
      end
  end.

(** The value of a coordinate; a text that is no integer of 32 bits is
    reported, and its document is never built. *)
Definition coordinateValue (c : Tk * string) : Rd Z :=
  let '(tok, text) := c in
  let value := if isInteger text && (String.length text <=? 12)%nat then Some (bigint text) else None in
  match value with
  | Some v => if (-2147483648 <=? v) && (v <=? 2147483647) then mret v
              else at_ "diagram" tok (str ["coordinate "; text; " is not an integer from -2147483648 to 2147483647"]);; mret v
  | None => at_ "diagram" tok (str ["coordinate "; text; " is not an integer from -2147483648 to 2147483647"]);; mret 0
  end.

Definition addPlacement (p : IPlacement) (g : IDiagram) : IDiagram :=
  mkIDiagram (idg_open g) (idg_name g) (idg_named g) (idg_entries g ++ [p]) (idg_comments g) (idg_closing g).
Definition closeDiagram (l : list string) (g : IDiagram) : IDiagram :=
  mkIDiagram (idg_open g) (idg_name g) (idg_named g) (idg_entries g) (idg_comments g) l.
Definition onDiagram (i : nat) (f : IDiagram -> IDiagram) : Rd unit := modify (setDocument (setDiagrams (alter f i))).

Definition placement (di : nat) (toks : list Tk) (line : Z) (comments : list string) : Rd unit :=
  table ← lift (present (toks !! 0%nat) "toks[0]");
  if decide (tk_k table <> KWord) then syntax toks 0 line "expected a table name"
  else if negb (isWord (toks !! 1%nat) "at") then syntax toks 1 line "expected at"
  else
    mark (toks !! 1%nat) CKeyword;;
    x ← coordinate toks 2 line;
    match x with
    | None => mret tt
    | Some (xt, xs, i) =>
        y ← coordinate toks i line;
        match y with
        | None => mret tt
        | Some (yt, ys, i) =>
            ended ← end_ toks i line;
            if negb ended then mret tt
            else
              mark (Some table) CName;;
              checkName table;;
              xv ← coordinateValue (xt, xs);
              yv ← coordinateValue (yt, ys);
              onDiagram di (addPlacement (mkIPlacement table xv yv comments))
        end
    end.

(** ** The lines *)

Inductive TopState := STop | STable | SSettings | SDiagram.

#[global] Instance TopState_eq_dec : EqDecision TopState.
Proof. solve_decision. Defined.

(** The block that the next line belongs to, and the comments before it. *)
Record Loop := mkLoop {
  lp_state : TopState; lp_phase : Z; lp_table : nat; lp_diagram : nat; lp_comments : list string;
  lp_tableLexical : bool; lp_settingsLexical : bool; lp_diagramLexical : bool }.

Definition startLoop : Loop := mkLoop STop 0 0 0 [] false false false.

Definition setComments (l : list string) (s : Loop) : Loop :=
  mkLoop (lp_state s) (lp_phase s) (lp_table s) (lp_diagram s) l (lp_tableLexical s) (lp_settingsLexical s) (lp_diagramLexical s).

(** A table line with a lexical error: the next state. *)
Definition lexedTableLine (ti : nat) (toks : list Tk) (comments : list string) : Rd TopState :=
  first ← lift (present (toks !! 0%nat) "toks[0]");
  if isWord (Some first) "settings" then
    openSettingsBlock ti (mkISettings (if isPunct (toks !! 1%nat) "{" then default first (toks !! 1%nat) else first) [] comments []);;
    onTable ti (setPhase 2);;
    mret SSettings
  else if decide (tk_k first = KWord /\ tk_t first ∈ CONSTRAINT_WORDS) then
    (if decide (tk_t first = "primary") then onTable ti failPrimary
     else if decide (tk_t first = "unique" \/ tk_t first = "index") then onTable ti failKey
     else if decide (tk_t first = "foreign") then match wordTk (toks !! 2%nat) with Some w => onTable ti (failName (tk_t w)) | None => mret tt end
     else mret tt);;
    mret STable
  else failColumnLine ti first;; mret STable.

Definition isAbandoned (line : Z) : Rd bool := p ← get; mret (includes line (dp_abandoned p)).

(** A line at the top of the document. *)
Definition topLine (s : Loop) (first : Tk) (toks : list Tk) (line : Z) (own : list string) : Rd Loop :=
  if isWord (Some first) "use" then
    mark (Some first) CKeyword;;
    let late := 1 <? lp_phase s in
    (if late then at_ "order" first "use lines come before tables and diagrams" else mret tt);;
    use toks line own;;
    mret (mkLoop STop (if late then lp_phase s else 1) (lp_table s) (lp_diagram s) [] (lp_tableLexical s) (lp_settingsLexical s) (lp_diagramLexical s))
  else if isWord (Some first) "table" then
    mark (Some first) CKeyword;;
    let late := 2 <? lp_phase s in
    (if late then at_ "order" first "tables come before diagrams" else mret tt);;
    ti ← tableHeader toks line own;
    lexical ← isAbandoned line;
    mret (mkLoop STable (if late then lp_phase s else 2) ti (lp_diagram s) [] lexical (lp_settingsLexical s) (lp_diagramLexical s))
  else if isWord (Some first) "diagram" then
    mark (Some first) CKeyword;;
    di ← diagramHeader toks line own;
    lexical ← isAbandoned line;
    mret (mkLoop SDiagram 3 (lp_table s) di [] (lp_tableLexical s) (lp_settingsLexical s) lexical)
  else at_ "syntax" first "expected use, table or diagram";; mret (setComments [] s).

(** The column line of a table block. *)
Definition columnLineOf (ti : nat) (first : Tk) (toks : list Tk) (line : Z) (own : list string) : Rd unit :=
  before ← get;
  column ti toks line own;;
  p ← get;
  if dp_syntaxLine p =? line then keepSyntaxSince (length (dp_diagnostics before));; failColumnLine ti first
  else
    t ← theTable ti;
    if (0 <? it_phase t) && negb (dp_stopped p)
    then at_ "order" first "columns come before keys, indexes, foreign keys, checks and settings" else mret tt.

Definition settingsHeader (ti : nat) (first : Tk) (toks : list Tk) (line : Z) (own : list string) : Rd unit :=
  mark (Some first) CKeyword;;
  t ← theTable ti;
  let opened := isPunct (toks !! 1%nat) "{" in
  (if bool_decide (is_Some (it_settings t)) && opened && (length toks =? 2)%nat then at_ "order" first "a table has at most one settings block" else mret tt);;
  openSettingsBlock ti (mkISettings (if opened then default first (toks !! 1%nat) else first) [] own []);;
  onTable ti (setPhase 2);;
  if negb opened then syntax toks 1 line "expected {"
  else if (2 <? length toks)%nat then syntax toks 2 line "expected the end of the line" else mret tt.

(** Reports what follows a closing brace. *)
Definition closeEnd (toks : list Tk) (line : Z) : Rd unit :=
  if (1 <? length toks)%nat then syntax toks 1 line "expected the end of the line" else mret tt.

Definition tableLine (s : Loop) (first : Tk) (toks : list Tk) (line : Z) (own : list string) (failed : bool) : Rd Loop :=
  let ti := lp_table s in
  let after state settingsLexical := mkLoop state (lp_phase s) ti (lp_diagram s) [] (lp_tableLexical s) settingsLexical (lp_diagramLexical s) in
  if isPunct (Some first) "}" then
    closeEnd toks line;;
    onTable ti (setTableClosing own);;
    mret (mkLoop STop (lp_phase s) ti (lp_diagram s) [] false (lp_settingsLexical s) (lp_diagramLexical s))
  else if failed then
    state ← lexedTableLine ti toks own;
    lexical ← isAbandoned line;
    mret (after state (if decide (state = SSettings) then lexical else lp_settingsLexical s))
  else if isWord (Some first) "settings" then
    settingsHeader ti first toks line own;;
    lexical ← isAbandoned line;
    mret (after SSettings lexical)
  else if decide (tk_k first = KWord /\ tk_t first ∈ CONSTRAINT_WORDS) then
    t ← theTable ti;
    (if it_phase t =? 2 then at_ "order" first "key, index, foreign key and check lines come before settings" else onTable ti (setPhase 1));;
    constraint ti toks line own;;
    mret (after STable (lp_settingsLexical s))
  else columnLineOf ti first toks line own;; mret (after STable (lp_settingsLexical s)).

Definition settingsLine (s : Loop) (first : Tk) (toks : list Tk) (line : Z) (own : list string) (failed : bool) : Rd Loop :=
  let after state settingsLexical := mkLoop state (lp_phase s) (lp_table s) (lp_diagram s) [] (lp_tableLexical s) settingsLexical (lp_diagramLexical s) in
  if isPunct (Some first) "}" then closeEnd toks line;; onBlock (closeBlock own);; mret (after STable false)
  else setting toks line own failed;; mret (after SSettings (lp_settingsLexical s)).

Definition diagramLine (s : Loop) (first : Tk) (toks : list Tk) (line : Z) (own : list string) (failed : bool) : Rd Loop :=
  if isPunct (Some first) "}" then
    closeEnd toks line;;
    onDiagram (lp_diagram s) (closeDiagram own);;
    mret (mkLoop STop (lp_phase s) (lp_table s) (lp_diagram s) [] (lp_tableLexical s) (lp_settingsLexical s) false)
  else (if failed then mret tt else placement (lp_diagram s) toks line own);; mret (setComments [] s).

Fixpoint dropBlanks (l : list rune) : list rune :=
  match l with r :: l' => if ru_cp r =? 32 then dropBlanks l' else l | [] => [] end.

(** Whether the lines of the block keep lexical classes, its opening line
    having failed. *)
Definition lexicalLine (s : Loop) : bool :=
  match lp_state s with
  | STop => false
  | STable => lp_tableLexical s
  | SSettings => lp_tableLexical s || lp_settingsLexical s
  | SDiagram => lp_diagramLexical s
  end.

(** One turn of the loop of [parse]. *)
Definition readLine (s : Loop) (text : list rune) (line : Z) : Rd Loop :=
  (if lexicalLine s then modify (addLexical line) else mret tt);;
  match dropBlanks text with
  | [] => mret s
  | (r :: _) as front =>
      if ru_cp r =? 35 then mret (setComments (lp_comments s ++ [textOf front]) s)
      else
        let own := lp_comments s in
        let lexed := lexLine text line in
        let failed := bool_decide (lx_error lexed <> None) in
        (match lx_error lexed with Some (index, message) => report "syntax" line index message | None => mret tt end);;
        let toks := if failed then lexRecover text line else lx_toks lexed in
        match toks with
        | [] => mret (setComments [] s)
        | first :: _ =>
            match lp_state s with
            | STop => topLine s first toks line own
            | STable => tableLine s first toks line own failed
            | SSettings => settingsLine s first toks line own failed
            | SDiagram => diagramLine s first toks line own failed
            end
        end
  end.

(** The lines from number [line] on, until a stop. *)
Fixpoint readLines (s : Loop) (rest : list (list rune)) (line : Z) : Rd Loop :=
  match rest with
  | [] => mret s
  | text :: rest => p ← get; if dp_stopped p then mret s else s ← readLine s text line; readLines s rest (line + 1)
  end.

(** ** The header *)

Definition headerPrefix : list rune := runes "dbspec 1 ".

(** The first index where a line departs from a prefix. *)
Fixpoint departs (prefix text : list rune) (i : Z) : option Z :=
  match prefix, text with
  | [], _ => None
  | p :: prefix, t :: text => if decide (p = t) then departs prefix text (i + 1) else Some i
  | _ :: _, [] => Some i
  end.

(** [/[A-Za-z0-9_]/] *)
Definition headerChar (r : rune) : bool :=
  let c := ru_cp r in ((65 <=? c) && (c <=? 90)) || ((97 <=? c) && (c <=? 122)) || ((48 <=? c) && (c <=? 57)) || (c =? 95).

Fixpoint countWhile (p : rune -> bool) (l : list rune) : nat := match l with r :: l => if p r then S (countWhile p l) else 0%nat | [] => 0%nat end.

Definition headerFail (offset : Z) : Rd bool :=
  report "header" 1 offset "the first line is exactly dbspec 1 <document>";; modify setStopped;; mret false.

Definition header : Rd bool :=
  text ← lift (present (head lines) "this.lines[0]");
  match departs headerPrefix text 0 with
  | Some i => headerFail i
  | None =>
      let rest := drop (length headerPrefix) text in
      let n := countWhile headerChar rest in
      let end_ := Z.of_nat (length headerPrefix + n) in
      if (n =? 0)%nat || (n <? length rest)%nat then headerFail end_
      else
        let toks := lx_toks (lexLine text 1) in
        tok ← lift (present (toks !! 2%nat) "toks[2]");
        checkName tok;;
        mark (toks !! 0%nat) CKeyword;;
        mark (Some tok) CName;;
        modify (setDocument (setHeader tok));;
        mret true
  end.

(** The report of a block that is open at the end. *)
Definition unclosedBlock (s : Loop) : Rd unit :=
  p ← get;
  match lp_state s with
  | STop => mret tt
  | STable => t ← theTable (lp_table s); unclosed lines (it_open t) "the table block is not closed"
  | SSettings =>
      match dp_settingsBlock p with
      | NoBlock => lift (Err (JsError "this.settingsBlock is missing"))
      | BlockOf ti => t ← theTable ti; b ← lift (present (it_settings t) "this.settingsBlock"); unclosed lines (isb_open b) "the settings block is not closed"
      | Detached b => unclosed lines (isb_open b) "the settings block is not closed"
      end
  | SDiagram => g ← lift (present (idoc_diagrams (dp_document p) !! lp_diagram s) "diagram"); unclosed lines (idg_open g) "the diagram block is not closed"
  end.

(** [parse]; [encoding] is the encoding error that ends the lines. *)
Definition parse (encoding : option DbspecDiagnostic) : Rd unit :=
  opened ← header;
  if negb opened then mret tt
  else
    s ← readLines startLoop (tail lines) 2;
    p ← get;
    if dp_stopped p then mret tt
    else match encoding with
         | Some e => push e;; modify setStopped
         | None => unclosedBlock s;; modify (setDocument (setClosing (lp_comments s)))
         end.

End reader.
