(* ===== verification/CheckReader.v ===== *)
(** * Check expressions of documents ([dbspec/parse.ts], [DocumentParser.check])

    The tokens of a check are read into a predicate, whose leaves hold their
    canonical parts.  Reading reports its first diagnostic only; the columns and
    literals of a predicate that was read are checked together, and the first
    issue in source order is reported. *)

From S2P Require Import Prelude Documents Emit Check Meet Lexer Literals ParseState.
From Stdlib Require Import Lia.

Definition EXPRESSION_WORDS : list string := ["and"; "or"; "not"; "in"; "between"; "is"; "null"; "true"; "false"].
Definition COMPARISONS : list string := ["="; "<>"; "<"; "<="; ">"; ">="].
Definition ORDERINGS : list string := ["<"; "<="; ">"; ">="].
Definition ARITHMETIC : list string := ["+"; "-"; "*"; "/"].

Definition meetKindOf (type : DbspecType) : string := meetKind (type_kind type) (meetScale type) (meetPrecision type).

(** A check operand: a column, or a literal at its slot of the canonical text. *)
Record Operand := mkOperand { opd_column : option IColumn; opd_tok : Tk; opd_type : option DbspecType; opd_slot : nat }.

(** The predicate that was read; the tree has no parentheses. *)
Inductive Predicate := PLeaf (parts : list string) | PLogical (op : LogicalOp) (left_ right_ : Predicate).

(** The canonical parts of a leaf with their blanks; [before] is the part in
    front. *)
Fixpoint partsText (before : option string) (parts : list string) : string :=
  match parts with
  | [] => ""
  | part :: parts =>
      let blank := match before with Some b => negb (includes part [")"; ","]) && negb (bool_decide (b = "(")) | None => false end in
      str [if blank then " " else ""; part; partsText (Some part) parts]
  end.

(** Whether a side of a logical predicate takes parentheses. *)
Definition wraps (op : LogicalOp) (side : Predicate) : bool := match op, side with OpAnd, PLogical OpOr _ _ => true | _, _ => false end.

(** The canonical text of a predicate. *)
Fixpoint predicateText (p : Predicate) : string :=
  match p with
  | PLeaf parts => partsText None parts
  | PLogical op l r =>
      let side q := if wraps op q then str ["("; predicateText q; ")"] else predicateText q in
      str [side l; " "; opText op; " "; side r]
  end.

(** ** The reading of a check *)

(** The variables of [check] and the parser behind them. *)
Record CS := mkCS { cs_i : nat; cs_out : list string; cs_flagged : bool; cs_issues : list (Tk * string * string); cs_parser : DP }.

(** A computation that may throw [ExpressionSyntax], whose token is [None] at
    the end of the expression; a throw keeps what was done before it. *)
Definition X (A : Type) := CS -> res ((A + option Tk) * CS).

#[global] Instance X_ret : MRet X := fun A a s => Ok (inl a, s).
#[global] Instance X_bind : MBind X := fun A B k m s =>
  match m s with
  | Ok (inl a, s') => k a s'
  | Ok (inr e, s') => Ok (inr e, s')
  | Err e => Err e
  end.

Definition throwX {A} (at_ : option Tk) : X A := fun s => Ok (inr at_, s).
Definition liftX {A} (r : res A) : X A := fun s => match r with Ok a => Ok (inl a, s) | Err e => Err e end.
Definition getX : X CS := fun s => Ok (inl s, s).
Definition setX (f : CS -> CS) : X unit := fun s => Ok (inl tt, f s).

(** A step of the parser. *)
Definition parserX {A} (m : Rd A) : X A := fun s =>
  match m (cs_parser s) with
  | Ok (a, p) => Ok (inl a, mkCS (cs_i s) (cs_out s) (cs_flagged s) (cs_issues s) p)
  | Err e => Err e
  end.

Definition setOut (f : list string -> list string) : X unit :=
  setX (fun s => mkCS (cs_i s) (f (cs_out s)) (cs_flagged s) (cs_issues s) (cs_parser s)).
Definition pushOut (part : string) : X unit := setOut (fun l => l ++ [part]).

Section check.
Variable lines : list (list rune).
Variable table : ITable.
Variable banned : list string.
Variable toks : list Tk.

(** Only the first diagnostic of reading is reported. *)
Definition flag (rule : string) (tok : Tk) (message : string) : X unit :=
  s ← getX;
  if cs_flagged s then mret tt
  else setX (fun s => mkCS (cs_i s) (cs_out s) true (cs_issues s) (cs_parser s));; parserX (at_ lines rule tok message).

(** Tokens behind the first diagnostic keep their lexical class. *)
Definition markX (tok : option Tk) (cls : TokenClass) : X unit :=
  s ← getX; if cs_flagged s then mret tt else parserX (mark tok cls).

Definition issue (tok : Tk) (message rule : string) : X unit :=
  setX (fun s => mkCS (cs_i s) (cs_out s) (cs_flagged s) (cs_issues s ++ [(tok, message, rule)]) (cs_parser s)).

Definition peek : X (option Tk) := s ← getX; mret (toks !! cs_i s).
Definition peekNext : X (option Tk) := s ← getX; mret (toks !! S (cs_i s)).
Definition advanceX : X unit := setX (fun s => mkCS (S (cs_i s)) (cs_out s) (cs_flagged s) (cs_issues s) (cs_parser s)).

Definition take_ : X Tk := t ← peek; match t with Some t => advanceX;; mret t | None => throwX None end.

Definition expectPunct (text : string) : X unit :=
  t ← take_; if isPunct (Some t) text then pushOut text else throwX (Some t).
Definition expectWord (text : string) : X unit :=
  t ← take_; if isWord (Some t) text then markX (Some t) CKeyword;; pushOut text else throwX (Some t).

Definition isNumberTk (tok : option Tk) : bool := match wordTk tok with Some t => isUnsignedNumber (tk_t t) | None => false end.

(** A literal takes the slot of its part. *)
Definition literalOperand (tok : Tk) (text : string) : X Operand :=
  pushOut text;; s ← getX; mret (mkOperand None tok None (length (cs_out s) - 1)).

(** A minus sign and a number. *)
Definition negative : X (option Operand) :=
  t ← peek;
  n ← peekNext;
  match t with
  | Some t' =>
      if isOp t "-" && isNumberTk n then
        advanceX;;
        number ← take_;
        let tok := mkTk KWord (str ["-"; tk_t number]) (tk_s t') (tk_e number) (tk_line t') in
        o ← literalOperand tok (numberText (tk_t tok));
        mret (Some o)
      else mret None
  | None => mret None
  end.

(** A literal of an in list; [None] behind a diagnostic. *)
Definition literal : X (option Operand) :=
  signed ← negative;
  match signed with
  | Some o => mret (Some o)
  | None =>
      t ← take_;
      if decide (tk_k t = KString) then o ← literalOperand t (tk_t t); mret (Some o)
      else if isNumberTk (Some t) then o ← literalOperand t (numberText (tk_t t)); mret (Some o)
      else if isWord (Some t) "true" || isWord (Some t) "false" then markX (Some t) CKeyword;; o ← literalOperand t (tk_t t); mret (Some o)
      else
        (if isWord (Some t) "null" then flag "check" t "the null literal is not part of a predicate"
         else if decide (tk_k t = KWord /\ tk_t t ∉ EXPRESSION_WORDS) then flag "check" t (str [tk_t t; " is not a literal"])
         else throwX (Some t));;
        pushOut (tk_t t);;
        mret None
  end.

(** The arguments of a function, skipped by their parentheses. *)
Fixpoint skipArguments (fuel : nat) (depth : Z) : X unit :=
  match fuel with
  | O => liftX (Err OutOfFuel)
  | S fuel =>
      u ← take_;
      let depth := if isPunct (Some u) "(" then depth + 1 else if isPunct (Some u) ")" then depth - 1 else depth in
      if 0 <? depth then skipArguments fuel depth else mret tt
  end.

(** A column reference, which is a name whether it resolves or not. *)
Definition columnOperand (t : Tk) : X (option Operand) :=
  markX (Some t) CName;;
  if negb (wellFormed (tk_t t)) then
    issue t (if includes (tk_t t) RESERVED then str [tk_t t; " is a reserved word"] else str [tk_t t; " does not match [a-z][a-z0-9_]*"]) "name.format";;
    mret None
  else if MAX_NAME_BYTES <? utf8Length (tk_t t) then issue t (str [tk_t t; " is longer than 63 bytes"]) "name.length";; mret None
  else
    pushOut (tk_t t);;
    match assoc (tk_t t) (it_colMap table) with
    | None =>
        if includes (tk_t t) (it_failed table) then mret None
        else issue t (str [tk_t t; " is not a column of table "; tk_t (it_name table)]) "check";; mret None
    | Some column =>
        if includes (tk_t t) banned then issue t (str ["column "; tk_t t; " belongs to a cascade or set_null foreign key"]) "check";; mret None
        else if decide (icol_type column = Some TBytes) then issue t (str ["bytes column "; tk_t t; " is not part of a predicate"]) "check";; mret None
        else mret (Some (mkOperand (Some column) t (icol_type column) 0))
    end.

(** A term; each level of the recursion has taken a minus sign. *)
Fixpoint term (fuel : nat) : X (option Operand) :=
  match fuel with
  | O => liftX (Err OutOfFuel)
  | S fuel =>
      signed ← negative;
      match signed with
      | Some o => mret (Some o)
      | None =>
          t ← take_;
          if decide (tk_k t = KString) then o ← literalOperand t (tk_t t); mret (Some o)
          else if isOp (Some t) "-" then
            flag "check" t "unary minus applies only to a number literal";;
            pushOut "-";;
            term fuel;;
            mret None
          else if decide (tk_k t <> KWord) then throwX (Some t)
          else if isNumberTk (Some t) then o ← literalOperand t (numberText (tk_t t)); mret (Some o)
          else if includes (tk_t t) ["true"; "false"] then markX (Some t) CKeyword;; o ← literalOperand t (tk_t t); mret (Some o)
          else if decide (tk_t t = "null") then flag "check" t "the null literal is not part of a predicate";; mret None
          else if includes (tk_t t) EXPRESSION_WORDS then throwX (Some t)
          else
            next ← peek;
            if isPunct next "(" then
              flag "check" t (str ["function "; tk_t t; " is not part of a predicate"]);;
              skipArguments (S (length toks)) 0;;
              mret None
            else columnOperand t
      end
  end.

(** The arithmetic behind an operand; each turn takes an operator. *)
Fixpoint arithmetic (fuel : nat) (result : option Operand) : X (option Operand) :=
  match fuel with
  | O => liftX (Err OutOfFuel)
  | S fuel =>
      t ← peek;
      match t with
      | Some t =>
          if bool_decide (tk_k t = KOp) && includes (tk_t t) ARITHMETIC then
            flag "check" t (str ["arithmetic "; tk_t t; " is not part of a predicate"]);;
            advanceX;;
            pushOut (tk_t t);;
            term (S (length toks));;
            arithmetic fuel None
          else mret result
      | None => mret result
      end
  end.

Definition operand : X (option Operand) := result ← term (S (length toks)); arithmetic (S (length toks)) result.

Definition isBool (o : Operand) : bool :=
  match opd_column o with
  | Some _ => bool_decide (opd_type o = Some TBool)
  | None => includes (tk_t (opd_tok o)) ["true"; "false"]
  end.

(** Checks a literal against the default form of a column and puts its
    canonical form at its slot. *)
Definition fit (column value : Operand) : X unit :=
  match opd_type column with
  | None => mret tt
  | Some type =>
      fitted ← liftX (defaultOf type (opd_tok value));
      match fitted with
      | inr message => issue (opd_tok value) (str [tk_t (opd_tok value); " does not meet column "; tk_t (opd_tok column); ": "; message]) "check"
      | inl (DefaultLiteral text) => setOut (fun l => <[opd_slot value := text]> l)
      | inl DefaultNow => issue (opd_tok value) (str [tk_t (opd_tok value); " is not a literal"]) "check"
      end
  end.

Definition compare (left_ : Operand) (op : Tk) (right_ : Operand) : X unit :=
  (if includes (tk_t op) ORDERINGS && (isBool left_ || isBool right_) then issue op (str [tk_t op; " does not compare bool values"]) "check" else mret tt);;
  match opd_column left_, opd_column right_ with
  | Some _, Some _ =>
      match opd_type left_, opd_type right_ with
      | Some l, Some r =>
          if decide (meetKindOf l = meetKindOf r) then mret tt
          else issue (opd_tok right_)
                 (str ["column "; tk_t (opd_tok right_); " ("; typeText r; ") does not meet column "; tk_t (opd_tok left_); " ("; typeText l; ")"]) "check"
      | _, _ => mret tt
      end
  | Some _, None => fit left_ right_
  | None, Some _ => fit right_ left_
  | None, None => mret tt
  end.

(** The operand before in and is is a column. *)
Definition subject (left_ : option Operand) (word : Tk) : X (option Operand) :=
  match left_ with
  | Some o =>
      match opd_column o with
      | None => flag "check" (opd_tok o) (str [tk_t word; " takes a column, not a literal"]);; mret None
      | Some _ => mret (Some o)
      end
  | None => mret None
  end.

(** An operand that no comparison, in or is follows. *)
Definition alone {A} (start : Tk) : X A :=
  next ← peek;
  (match next with
   | Some n =>
       if negb (isWord next "and") && negb (isWord next "or") && negb (isPunct next ")") then flag "check" n (str [tk_t n; " is not part of a predicate"])
       else flag "check" start (str [tk_t start; " alone is not a predicate"])
   | None => flag "check" start (str [tk_t start; " alone is not a predicate"])
   end);;
  throwX None.

(** The members of an in list behind the first. *)
Fixpoint inMembers (fuel : nat) (values : list (option Operand)) : X (list (option Operand)) :=
  match fuel with
  | O => liftX (Err OutOfFuel)
  | S fuel =>
      t ← peek;
      if isPunct t "," then advanceX;; pushOut ",";; v ← literal; inMembers fuel (values ++ [v]) else mret values
  end.

Fixpoint eachX {A} (f : A -> X unit) (l : list A) : X unit := match l with [] => mret tt | x :: l => f x;; eachX f l end.

Definition leaf : X Predicate := s ← getX; mret (PLeaf (cs_out s)).

Definition inPredicate (left_ : option Operand) (u : Tk) : X Predicate :=
  column ← subject left_ u;
  markX (Some u) CKeyword;;
  advanceX;;
  pushOut (tk_t u);;
  expectPunct "(";;
  v ← literal;
  values ← inMembers (S (length toks)) [v];
  expectPunct ")";;
  (match column with
   | Some column => eachX (fun v => match v with Some v => fit column v | None => mret tt end) values
   | None => mret tt
   end);;
  leaf.

Definition isPredicate (left_ : option Operand) (u : Tk) : X Predicate :=
  subject left_ u;;
  markX (Some u) CKeyword;;
  advanceX;;
  pushOut (tk_t u);;
  n ← peek;
  (if isWord n "not" then markX n CKeyword;; advanceX;; pushOut "not" else mret tt);;
  expectWord "null";;
  leaf.

(** A comparison: both operands were read and one is a column. *)
Definition comparison (left_ : option Operand) (op : Tk) : X Predicate :=
  advanceX;;
  pushOut (tk_t op);;
  right_ ← operand;
  (match left_, right_ with
   | Some l, Some r =>
       match opd_column l, opd_column r with
       | None, None => flag "check" (opd_tok l) "a comparison has at least one column operand"
       | _, _ => compare l op r
       end
   | _, _ => mret tt
   end);;
  leaf.

Definition simple : X Predicate :=
  setOut (fun _ => []);;
  start ← peek;
  left_ ← operand;
  t ← peek;
  match t with
  | Some t' =>
      if bool_decide (tk_k t' = KOp) && includes (tk_t t') COMPARISONS then comparison left_ t'
      else
        n ← peekNext;
        (if isWord t "not" && isWord n "in" then markX t CKeyword;; advanceX;; pushOut "not" else mret tt);;
        u ← peek;
        match u with
        | Some u' =>
            if isWord u "in" then inPredicate left_ u'
            else if isWord u "is" then isPredicate left_ u'
            else start ← liftX (present start "start"); alone start
        | None => start ← liftX (present start "start"); alone start
        end
  | None => start ← liftX (present start "start"); alone start
  end.

Section level.
Variable inner_ : X Predicate.

Definition predicate : X Predicate :=
  t ← peek;
  if isPunct t "(" then
    advanceX;;
    inner ← inner_;
    c ← take_;
    if isPunct (Some c) ")" then mret inner else throwX (Some c)
  else simple.

(** [while (isWord(peek(), word))] of [and] and [or]. *)
Fixpoint logical (word : string) (op : LogicalOp) (item : X Predicate) (fuel : nat) (left_ : Predicate) : X Predicate :=
  match fuel with
  | O => liftX (Err OutOfFuel)
  | S fuel =>
      t ← peek;
      if isWord t word then markX t CKeyword;; advanceX;; r ← item; logical word op item fuel (PLogical op left_ r) else mret left_
  end.

Definition andLevel (fuel : nat) : X Predicate := l ← predicate; logical "and" OpAnd predicate fuel l.
Definition orLevel (fuel : nat) : X Predicate := l ← andLevel fuel; logical "or" OpOr (andLevel fuel) fuel l.
End level.

(** Each level below a parenthesis has taken it, so the number of tokens bounds
    the depth and the turns of every loop. *)
Fixpoint or_ (fuel : nat) : X Predicate :=
  match fuel with O => liftX (Err OutOfFuel) | S fuel => orLevel (or_ fuel) (S (length toks)) end.

Definition wholePredicate : X Predicate :=
  tree ← or_ (S (length toks)); t ← peek; match t with Some t => throwX (Some t) | None => mret tree end.

(** The first issue in source order. *)
Definition firstIssue (issues : list (Tk * string * string)) : option (Tk * string * string) :=
  foldl (fun first found =>
    match first with
    | None => Some found
    | Some f => if tk_s (fst (fst found)) <? tk_s (fst (fst f)) then Some found else first
    end) None issues.

(** The canonical text of the check, or [None] after a report. *)
Definition checkText (close : Tk) : Rd (option string) := fun p =>
  match wholePredicate (mkCS 0 [] false [] p) with
  | Err e => Err e
  | Ok (inr at_, s) =>
      (if cs_flagged s then mret None
       else ParseState.at_ lines "check" (default close at_)
              (match at_ with None => "the check expression ends early" | Some t => str [tk_t t; " is not allowed here in a check expression"] end);;
            mret None) (cs_parser s)
  | Ok (inl tree, s) =>
      (if cs_flagged s then mret None
       else match firstIssue (cs_issues s) with
            | Some (tok, message, rule) => ParseState.at_ lines rule tok message;; mret None
            | None => mret (Some (predicateText tree))
            end) (cs_parser s)
  end.
End check.

Definition setText (text : string) (k : ICheck) : ICheck := mkICheck (ick_name k) (ick_expr k) (ick_close k) (ick_comments k) text.

(** [this.check]: a check that was read keeps its canonical text. *)
Definition check (lines : list (list rune)) (ti ci : nat) (table : ITable) (k : ICheck) (banned : list string) : Rd unit :=
  text ← checkText lines table banned (ick_expr k) (ick_close k);
  match text with Some text => onTable ti (setChecks (alter (setText text) ci)) | None => mret tt end.
