(* ===== verification/Validator.v ===== *)
(** * Validation of tables ([dbspec/parse.ts], [validateTable] and the settings)

    The checks of a table that was read, against its own columns and against the
    tables that its document declares or uses.  A table of the document is known
    by its place, since the source compares tables by identity. *)

From S2P Require Import Prelude Documents Emit Check Render Lexer Literals ParseState Reader CheckReader.
From Stdlib Require Import Lia.

Definition MAX_KEY_COLUMNS : nat := 16.
Definition MAX_KEY_VARCHAR : Z := 640.

(** A table that a name stands for: one of the document, at its place, or one
    of a used document. *)
Inductive TRef := Local (i : nat) | Used (t : ITable).

(** The tables by name; a name of a line that failed has none. *)
Notation Available := (list (string * option TRef)).

Definition isLocal (r : TRef) (i : nat) : bool := match r with Local j => bool_decide (i = j) | Used _ => false end.

Definition tableOf (r : TRef) : Rd ITable := match r with Local i => theTable i | Used t => mret t end.

Definition propagates (action : string) : bool := includes action ["cascade"; "set_null"].

Definition sameType (a b : DbspecType) : bool := bool_decide (typeText a = typeText b).

(** Whether two types, when both are known, differ. *)
Definition differ (a b : option DbspecType) : bool := match a, b with Some a, Some b => negb (sameType a b) | _, _ => false end.

Definition isString (t : DbspecType) : bool := match t with TVarchar _ | TText => true | _ => false end.
Definition isDatetime (t : DbspecType) : bool := match t with TDatetime _ => true | _ => false end.
Definition isInteger_ (t : DbspecType) : bool := match t with TI16 | TI32 | TI64 => true | _ => false end.

(** [c.type !== null && !p(c.type)] *)
Definition notType (p : DbspecType -> bool) (c : IColumn) : bool := match icol_type c with Some t => negb (p t) | None => false end.

Definition keyNames (k : IKey) : list string := map (fun c => tk_t (ikc_tok c)) (ikey_cols k).

(** The entries of the settings block. *)
Definition entriesOf (t : ITable) : list ISetting := match it_settings t with Some s => isb_entries s | None => [] end.
Definition isAudit (s : ISetting) : bool := match iset_kind s with IAudit _ _ _ _ _ _ _ => true | _ => false end.
Definition isOrder (s : ISetting) : bool := match iset_kind s with IOrder _ => true | _ => false end.
Definition isAesVersion (s : ISetting) : bool := match iset_kind s with IAesVersion _ => true | _ => false end.

(** Whether a key, index, foreign key or check of the table names the column. *)
Definition inKeyOrCheck (table : ITable) (column : string) : bool :=
  existsb (fun k => includes column (keyNames k)) (it_pks table ++ it_uniques table ++ it_indexes table) ||
  existsb (fun f => includes column (map tk_t (ifk_cols f))) (it_fks table) ||
  existsb (fun c => existsb (fun t => bool_decide (tk_k t = KWord) && bool_decide (tk_t t = column)) (ick_expr c)) (it_checks table).

(** ** Generated names *)

Section generated.
Variable sha256 : string -> string.

(** A name that the renderer writes, the token that writes it, and its source. *)
Record IGeneratedName := mkGenerated { ign_name : string; ign_at : Tk; ign_source : string }.

Definition columnNames (table : ITable) (c : IColumn) : list IGeneratedName :=
  match icol_identity c, icol_type c with
  | None, Some type =>
      if includes type [TText; TBytes] || negb (wellFormed (tk_t (icol_name c))) then []
      else [mkGenerated (rendererName sha256 (tk_t (it_name table)) (tk_t (icol_name c))) (icol_name c)
              (str ["table "; tk_t (it_name table); " column "; tk_t (icol_name c)])]
  | _, _ => []
  end.

Definition settingEvents (s : ISetting) : list string :=
  match iset_kind s with
  | IImmutable => ["immutable_update"; "immutable_delete"]
  | IAudit _ _ _ _ _ _ _ => ["audit_insert"; "audit_update"; "audit_delete"]
  | _ => []
  end.

Definition generatedNamesOf (table : ITable) : list IGeneratedName :=
  if it_headerFailed table || negb (wellFormed (tk_t (it_name table))) then []
  else
    concat (map (columnNames table) (it_columns table)) ++
    concat (map (fun s => map (fun e => mkGenerated (rendererName sha256 (tk_t (it_name table)) e) (iset_kw s)
                                          (str ["table "; tk_t (it_name table); " setting "; tk_t (iset_kw s)])) (settingEvents s)) (entriesOf table)).
End generated.

Section validator.
Variable lines : list (list rune).
Variable available : Available.

Notation at_ := (at_ lines).
Notation name := (name lines).

Definition when (b : bool) (m : Rd unit) : Rd unit := if b then m else mret tt.

(** ** Keys *)

(** A column of the table; [None] for a malformed name, for a name whose line
    failed, and after the report of an unknown one. *)
Definition lookup_ (table : ITable) (tok : Tk) (rule : string) : Rd (option IColumn) :=
  if negb (wellFormed (tk_t tok)) then mret None
  else match assoc (tk_t tok) (it_colMap table) with
       | Some column => mret (Some column)
       | None =>
           when (negb (includes (tk_t tok) (it_failed table)))
             (at_ rule tok (str ["column "; tk_t tok; " is not a column of table "; tk_t (it_name table)]));;
           mret None
       end.

(** The varchar characters of the columns seen so far, and their names. *)
Definition keyColumn (table : ITable) (primary : bool) (acc : list string * Z) (c : IKeyColumn) : Rd (list string * Z) :=
  let tok := ikc_tok c in
  column ← lookup_ table tok "key";
  match column with
  | None => mret acc
  | Some column =>
      let '(seen, varchar) := acc in
      if includes (tk_t tok) seen then at_ "key" tok (str ["column "; tk_t tok; " repeats"]);; mret acc
      else
        (match icol_type column with
         | Some t => when (includes t [TText; TBytes]) (at_ "key" tok (str ["a "; type_kind t; " column cannot be part of a key or index"]))
         | None => mret tt
         end);;
        when (primary && icol_nullable column) (at_ "key" tok (str ["primary key column "; tk_t tok; " is null"]));;
        mret (seen ++ [tk_t tok], match icol_type column with Some (TVarchar n) => varchar + n | _ => varchar end)
  end.

Definition keyLike (table : ITable) (primary : bool) (key : IKey) : Rd unit :=
  let tok := default (ikey_kw key) (ikey_name key) in
  when (length (ikey_cols key) =? 0)%nat (at_ "key" tok "a key or index lists at least one column");;
  when (MAX_KEY_COLUMNS <? length (ikey_cols key))%nat (at_ "key" tok (str ["a key or index lists at most "; pretty (Z.of_nat MAX_KEY_COLUMNS); " columns"]));;
  '(_, varchar) ← foldS (keyColumn table primary) ([], 0) (ikey_cols key);
  when (MAX_KEY_VARCHAR <? varchar) (at_ "key" tok (str ["the varchar columns total "; pretty varchar; " characters, more than "; pretty MAX_KEY_VARCHAR])).

(** An identity column is the only primary key column. *)
Definition identityKey (table : ITable) : Rd unit :=
  match List.find (fun c => bool_decide (icol_identity c <> None)) (it_columns table) with
  | None => mret tt
  | Some c =>
      identity ← lift (present (icol_identity c) "identity.identity");
      match it_pks table with
      | [] => when (negb (it_failedPrimary table)) (at_ "column" identity "an identity column is the only primary key column")
      | pk :: _ =>
          let names := keyNames pk in
          when (forallb (fun n => wellFormed n && negb (includes n (it_failed table))) names && negb (bool_decide (names = [tk_t (icol_name c)])))
            (at_ "column" identity "an identity column is the only primary key column")
      end
  end.

(** ** Foreign keys *)

(** The key of the child columns and the set_null rule; a child that is not
    known skips the index check. *)
Definition foreignKeyKeyChecks (table : ITable) (fk : IForeignKey) (children : list (option IColumn)) (known : bool) : Rd unit :=
  let lead := map tk_t (ifk_cols fk) in
  let indexed := existsb (fun k => bool_decide (take (length lead) (keyNames k) = lead)) (it_pks table ++ it_uniques table ++ it_indexes table) in
  when (known && negb indexed && negb (it_failedKey table) && negb (it_failedPrimary table))
    (at_ "foreign_key" (ifk_name fk) "no index or key of the table leads with the foreign key columns");;
  when (includes "set_null" [ifk_onDelete fk; ifk_onUpdate fk] && existsb (fun c => match c with Some c => negb (icol_nullable c) | None => false end) children)
    (at_ "foreign_key" (ifk_name fk) "set_null requires every child column to be null").

(** The child columns, each in its place, and whether every one is known and new. *)
Definition childColumn (table : ITable) (acc : list (option IColumn) * list string * bool) (tok : Tk) : Rd (list (option IColumn) * list string * bool) :=
  let '(children, seen, resolved) := acc in
  column ← lookup_ table tok "foreign_key";
  match column with
  | None => mret (children ++ [None], seen, false)
  | Some column =>
      if includes (tk_t tok) seen then at_ "foreign_key" tok (str ["column "; tk_t tok; " repeats"]);; mret (children ++ [Some column], seen, false)
      else mret (children ++ [Some column], seen ++ [tk_t tok], resolved)
  end.

(** The first pair of known columns whose types differ. *)
Fixpoint typeMismatch (cols : list Tk) (children parents : list (option IColumn)) : option (Tk * DbspecType * DbspecType) :=
  match cols, children, parents with
  | tok :: cols, c :: children, p :: parents =>
      match c ≫= icol_type, p ≫= icol_type with
      | Some a, Some b => if sameType a b then typeMismatch cols children parents else Some (tok, a, b)
      | _, _ => typeMismatch cols children parents
      end
  | _, _, _ => None
  end.

(** The referenced columns against the keys and the types of the target. *)
Definition references (target : ITable) (fk : IForeignKey) (children : list (option IColumn)) : Rd unit :=
  parents ← mapS (fun r => lookup_ target r "foreign_key") (ifk_refs fk);
  if negb (length (ifk_cols fk) =? length (ifk_refs fk))%nat
  then at_ "foreign_key" (ifk_name fk) "the foreign key lists a different number of child and referenced columns"
  else if forallb (fun p => bool_decide (is_Some p)) parents then
    let refs := join "," (map tk_t (ifk_refs fk)) in
    let keys := map (fun k => join "," (keyNames k)) (take 1 (it_pks target) ++ it_uniques target) in
    when (negb (includes refs keys) && negb (it_failedKey target) && negb (it_failedPrimary target))
      (at_ "foreign_key" (ifk_name fk) (str ["the referenced columns are not the primary key or a unique key of table "; tk_t (it_name target)]));;
    match typeMismatch (ifk_cols fk) children parents with
    | Some (tok, a, b) => at_ "foreign_key" (ifk_name fk) (str ["column "; tk_t tok; " is "; typeText a; " but references "; typeText b])
    | None => mret tt
    end
  else mret tt.

Definition foreignKey (table : ITable) (fk : IForeignKey) : Rd unit :=
  when (length (ifk_cols fk) =? 0)%nat (at_ "foreign_key" (ifk_name fk) "a foreign key lists at least one column");;
  '(children, _, resolved) ← foldS (childColumn table) ([], [], negb (length (ifk_cols fk) =? 0)%nat) (ifk_cols fk);
  (if negb (wellFormed (tk_t (ifk_table fk))) then mret tt
   else match assoc (tk_t (ifk_table fk)) available with
        | None => at_ "foreign_key" (ifk_table fk) (str ["table "; tk_t (ifk_table fk); " is not defined or used"])
        | Some None => mret tt
        | Some (Some r) => target ← tableOf r; if it_headerFailed target then mret tt else references target fk children
        end);;
  foreignKeyKeyChecks table fk children resolved.

(** ** Settings of columns *)

(** A malformed name is reported; says whether the name can be resolved. *)
Definition ref (tok : Tk) : Rd bool := if wellFormed (tk_t tok) then mret true else name tok;; mret false.

Definition columnRef (table : ITable) (tok : Tk) : Rd (option IColumn) :=
  ok ← ref tok; if ok : bool then lookup_ table tok "setting" else mret None.

(** A report about a column that was found. *)
Definition reportColumn (c : option IColumn) (bad : IColumn -> bool) (tok : Tk) (message : IColumn -> string) : Rd unit :=
  match c with Some c => when (bad c) (at_ "setting" tok (message c)) | None => mret tt end.

Definition typeOf (c : IColumn) : string := match icol_type c with Some t => typeText t | None => "" end.

Definition checkMarkdown (table : ITable) (tok : Tk) : Rd unit :=
  c ← columnRef table tok;
  reportColumn c (notType isString) tok (fun c => str ["markdown needs a varchar or text column, not "; typeOf c]).

Definition checkForeignKeyName (table : ITable) (tok : Tk) : Rd unit :=
  ok ← ref tok;
  when (ok && negb (includes (tk_t tok) (it_failed table)) && negb (includes (tk_t tok) (map (fun f => tk_t (ifk_name f)) (it_fks table))))
    (at_ "setting" tok (str ["foreign key "; tk_t tok; " is not a foreign key of the table"])).

(** The primary key is one varchar column. *)
Definition checkKeyPrefix (table : ITable) (kw : Tk) : Rd unit :=
  if it_failedPrimary table then mret tt
  else match map keyNames (it_pks table) with
       | [[key]] =>
           reportColumn (assoc key (it_colMap table)) (notType (fun t => match t with TVarchar _ => true | _ => false end)) kw
             (fun c => str ["key_prefix needs a varchar primary key, not "; typeOf c])
       | _ => at_ "setting" kw "key_prefix needs a single-column primary key"
       end.

(** The title and body columns are non-null varchar or text columns. *)
Definition checkTextColumn (table : ITable) (kw tok : Tk) : Rd unit :=
  c ← columnRef table tok;
  reportColumn c (fun c => notType isString c || icol_nullable c) tok (fun _ => str [tk_t kw; " needs a non-null varchar or text column"]).

(** The shard clause of a store. *)
Definition checkStoreShard (table : ITable) (storage : Tk) (shard : option (Tk * Tk * Tk)) (order : bool) : Rd unit :=
  match shard with
  | None => mret tt
  | Some (at_tok, column, _) =>
      c ← columnRef table column;
      reportColumn c (fun c => notType (fun t => match t with TDate | TDatetime _ => true | _ => false end) c || icol_nullable c) column
        (fun _ => "store shard needs a non-null date or datetime column");;
      when (bool_decide (tk_t storage = "block")) (at_ "setting" at_tok "store shard is rejected on a block table");;
      when (existsb (fun f => bool_decide (tk_t (ifk_table f) = tk_t (it_name table))) (it_fks table))
        (at_ "setting" at_tok "store shard is rejected on a table with a self foreign key");;
      when order (at_ "setting" at_tok "store shard is rejected on a table with order")
  end.

(** The order column is a non-null i32 or i64 column with no default, in no
    key, index or check. *)
Definition checkOrder (table : ITable) (tok : Tk) : Rd unit :=
  c ← columnRef table tok;
  match c with
  | None => mret tt
  | Some c =>
      if notType (fun t => includes t [TI32; TI64]) c || icol_nullable c || bool_decide (icol_dflt c <> None)
      then at_ "setting" tok "order needs a non-null i32 or i64 column with no default"
      else when (inKeyOrCheck table (tk_t tok)) (at_ "setting" tok (str ["order column "; tk_t tok; " is in a key, index or check"]))
  end.

(** The stage order and the storage type that the last stage needs. *)
Definition codec (table : ITable) (kw column : Tk) (stages : list Tk) (hasAesVersion : bool) : Rd unit :=
  c ← lookup_ table column "setting";
  let names := map tk_t stages in
  when (includes "aes" names && negb hasAesVersion) (at_ "setting" kw "a column with the aes stage requires aes_version");;
  let json := positionOf "ordered_json" names in
  (if (0 <? json)%nat && (json <? length names)%nat then
     tok ← lift (present (stages !! json) "s.stages[json]"); at_ "setting" tok "ordered_json is the first codec stage"
   else mret tt);;
  match c, c ≫= icol_type with
  | Some c, Some type =>
      if negb (forallb (fun s => includes s STAGE_LIST) names) then mret tt
      else
        last ← lift (present (last names) "stages[stages.length - 1]");
        let bytes := includes last ["aes"; "gz"; "ip"] in
        when (bytes && negb (bool_decide (type = TBytes))) (at_ "setting" column (str ["the "; last; " stage stores bytes and needs a bytes column"]));;
        when (negb bytes && negb (isString type)) (at_ "setting" column (str ["the "; last; " stage stores text and needs a varchar or text column"]))
  | _, _ => mret tt
  end.

Definition blindIndex (table : ITable) (kw column indexColumn : Tk) (aesColumns : list string) : Rd unit :=
  source ← lookup_ table column "setting";
  when (bool_decide (is_Some source) && negb (includes (tk_t column) aesColumns)) (at_ "setting" kw (str ["column "; tk_t column; " has no aes codec stage"]));;
  target ← lookup_ table indexColumn "setting";
  match target with
  | None => mret tt
  | Some target =>
      let indexed := existsb (fun k => bool_decide (keyNames k = [tk_t indexColumn])) (it_uniques table ++ it_indexes table) in
      if includes (tk_t indexColumn) aesColumns then at_ "setting" indexColumn "the blind index column is not aes-encoded"
      else if notType (fun t => match t with TVarchar n => 64 <=? n | _ => false end) target
      then at_ "setting" indexColumn "the blind index column is varchar(n) with n >= 64"
      else if match source with Some s => negb (bool_decide (icol_nullable s = icol_nullable target)) | None => false end
      then at_ "setting" indexColumn "the blind index column has the nullability of the aes column"
      else when (negb (it_failedKey table) && negb indexed) (at_ "setting" indexColumn "the blind index column is the only column of a declared index or unique key")
  end.

(** ** State machines *)

Definition checkStateMachine (table : ITable) (column : Tk) (line : IStateLine) : Rd unit :=
  c ← columnRef table column;
  reportColumn c (fun c => notType isString c || icol_nullable c) column (fun _ => "state_machine needs a non-null varchar or text column");;
  match line with
  | LTerminal _ requires | LTransition _ _ requires => eachP (fun r => columnRef table r;; mret tt) (default [] requires)
  | _ => mret tt
  end.

(** What the lines of a state machine declare so far. *)
Record Machine := mkMachine {
  ma_column : string; ma_states : list string; ma_initials : list string; ma_terminals : list string;
  ma_lines : list (Tk * IStateLine); ma_limits : list (Tk * Tk); ma_history : option (Tk * Tk * Tk * Tk * Tk);
  ma_requires : list Tk; ma_boxes : list (Tk * Tk * Tk * Tk); ma_seen : list string }.

Definition noMachine : Machine := mkMachine "" [] [] [] [] [] None [] [] [].

(** The identity of an initial, terminal or transition line and its description. *)
Definition machineLine (line : IStateLine) : string * string :=
  match line with
  | LTransition from to _ => (str ["transition "; tk_t from; " "; tk_t to], str [tk_t from; " -> "; tk_t to])
  | LInitial state => (str ["initial "; tk_t state], str ["initial "; tk_t state])
  | LTerminal state _ => (str ["terminal "; tk_t state], str ["terminal "; tk_t state])
  | _ => ("", "")
  end.

(** Adds an initial, terminal or transition line. *)
Definition addLine (kw : Tk) (line : IStateLine) (seen : list string) (m : Machine) : Machine :=
  let '(states, initials, terminals, requires) :=
    match line with
    | LInitial s => ([tk_t s], [tk_t s], [], [])
    | LTerminal s r => ([tk_t s], [], [tk_t s], default [] r)
    | LTransition f t r => ([tk_t f; tk_t t], [], [], default [] r)
    | _ => ([], [], [], [])
    end in
  mkMachine (ma_column m) (foldl (fun l x => set_add x l) (ma_states m) states) (foldl (fun l x => set_add x l) (ma_initials m) initials)
    (foldl (fun l x => set_add x l) (ma_terminals m) terminals) (ma_lines m ++ [(kw, line)]) (ma_limits m) (ma_history m)
    (ma_requires m ++ requires) (ma_boxes m) seen.

Definition machineEntry (m : Machine) (s : ISetting) : Rd Machine :=
  match iset_kind s with
  | ICheckbox column state glyph =>
      mret (mkMachine (ma_column m) (ma_states m) (ma_initials m) (ma_terminals m) (ma_lines m) (ma_limits m) (ma_history m) (ma_requires m)
              (ma_boxes m ++ [(iset_kw s, column, state, glyph)]) (ma_seen m))
  | IStateMachine tok line =>
      (if bool_decide (ma_column m = "") || bool_decide (tk_t tok = ma_column m) then mret tt
       else at_ "setting" tok (str ["state_machine repeats for "; tk_t tok; "; a table holds one machine"]));;
      let column := if decide (ma_column m = "") then tk_t tok else ma_column m in
      let m := mkMachine column (ma_states m) (ma_initials m) (ma_terminals m) (ma_lines m) (ma_limits m) (ma_history m) (ma_requires m) (ma_boxes m) (ma_seen m) in
      match line with
      | LHistory table row from to at_tok =>
          match ma_history m with
          | Some _ => at_ "setting" (iset_kw s) "state_machine repeats history";; mret m
          | None => mret (mkMachine (ma_column m) (ma_states m) (ma_initials m) (ma_terminals m) (ma_lines m) (ma_limits m) (Some (table, row, from, to, at_tok))
                            (ma_requires m) (ma_boxes m) (ma_seen m))
          end
      | LLimit state count =>
          mret (mkMachine (ma_column m) (ma_states m) (ma_initials m) (ma_terminals m) (ma_lines m) (ma_limits m ++ [(state, count)]) (ma_history m)
                  (ma_requires m) (ma_boxes m) (ma_seen m))
      | _ =>
          if decide (tk_t tok = column) then
            let '(key, what) := machineLine line in
            if includes key (ma_seen m) then at_ "setting" (iset_kw s) (str ["state_machine repeats "; what]);; mret m
            else mret (addLine (iset_kw s) line (ma_seen m ++ [key]) m)
          else mret (addLine (iset_kw s) line (ma_seen m) m)
      end
  | _ => mret m
  end.

(** A state is not both initial and terminal, and no transition leaves a
    terminal state. *)
Definition machineOrder (m : Machine) (l : Tk * IStateLine) : Rd unit :=
  match snd l with
  | LInitial s => when (includes (tk_t s) (ma_terminals m)) (at_ "setting" (fst l) (str ["an initial state "; tk_t s; " is also terminal"]))
  | LTransition f _ _ => when (includes (tk_t f) (ma_terminals m)) (at_ "setting" (fst l) (str ["a transition leaves the terminal state "; tk_t f]))
  | _ => mret tt
  end.

(** Each limit names a state of the machine once, with a positive row count
    that fits 64 bits. *)
Definition checkLimit (states : list string) (seen : list string) (l : Tk * Tk) : Rd (list string) :=
  let '(state, count) := l in
  (if negb (includes (tk_t state) states) then at_ "setting" state (str ["limit names state "; tk_t state; " outside the state set"])
   else when (includes (tk_t state) seen) (at_ "setting" state (str ["limit repeats for state "; tk_t state])));;
  let n := if isInteger (tk_t count) then bigint (tk_t count) else 0 in
  when ((n <? 1) || (9223372036854775807 <? n)) (at_ "setting" count (str ["limit needs a positive row count, not "; tk_t count]));;
  mret (set_add (tk_t state) seen).
Definition checkLimits (limits : list (Tk * Tk)) (states : list string) : Rd unit := foldS (checkLimit states) [] limits;; mret tt.

(** A column that the history line names has the wanted type. *)
Definition historyTyped (h : ITable) (name_ : Tk) (tok : Tk) (want : DbspecType) : Rd unit :=
  match assoc (tk_t tok) (it_colMap h) with
  | None => when (negb (includes (tk_t tok) (it_failed h))) (at_ "setting" name_ (str ["history table "; tk_t name_; " has no column "; tk_t tok]))
  | Some c =>
      when (notType (fun t => sameType t want) c)
        (at_ "setting" name_ (str ["history column "; tk_t tok; " has type "; typeOf c; ", not "; typeText want]))
  end.

(** A required column has a nullable copy. *)
Definition historyRequired (table h : ITable) (name_ tok : Tk) : Rd unit :=
  match assoc (tk_t tok) (it_colMap table) ≫= icol_type with
  | None => mret tt
  | Some type =>
      match assoc (tk_t tok) (it_colMap h) with
      | None => when (negb (includes (tk_t tok) (it_failed h)))
                  (at_ "setting" name_ (str ["history table "; tk_t name_; " has no column "; tk_t tok; " of the required column"]))
      | Some hc => when (negb (icol_nullable hc) || notType (fun t => sameType t type) hc)
                     (at_ "setting" name_ (str ["history column "; tk_t tok; " is not a nullable "; typeText type; " column"]))
      end
  end.

(** The columns of the history table are those that the line, the required
    columns and its primary key name; it declares no title or body. *)
Definition historyExact (h : ITable) (name_ : Tk) (named : list string) : Rd unit :=
  eachP (fun c => when (negb (includes (tk_t (icol_name c)) named))
                    (at_ "setting" name_ (str ["history table "; tk_t name_; " has column "; tk_t (icol_name c); ", which the history line does not name"])))
    (it_columns h);;
  eachP (fun e => match iset_kind e with
                  | ITitle _ => at_ "setting" name_ (str ["history table "; tk_t name_; " declares title, which a history table does not"])
                  | IBody _ => at_ "setting" name_ (str ["history table "; tk_t name_; " declares body, which a history table does not"])
                  | _ => mret tt
                  end) (entriesOf h).

Definition checkHistory (table : ITable) (line : Tk * Tk * Tk * Tk * Tk) (state : option IColumn) (requires : list Tk) : Rd unit :=
  let '(name_, row, from, to, at_tok) := line in
  ok ← ref name_;
  if negb ok then mret tt
  else match assoc (tk_t name_) available with
       | None => at_ "setting" name_ (str ["history table "; tk_t name_; " is not a table of this document or a used table"])
       | Some None => mret tt
       | Some (Some r) =>
           h ← tableOf r;
           match state ≫= icol_type with
           | None => mret tt
           | Some stateType =>
               when (negb (existsb (fun f => bool_decide (map tk_t (ifk_cols f) = [tk_t row]) && bool_decide (tk_t (ifk_table f) = tk_t (it_name table))) (it_fks h)))
                 (at_ "setting" name_ (str ["history table "; tk_t name_; " has no foreign key of "; tk_t row; " to table "; tk_t (it_name table)]));;
               historyTyped h name_ from stateType;;
               historyTyped h name_ to stateType;;
               historyTyped h name_ at_tok (TDatetime 6);;
               eachP (historyRequired table h name_) requires;;
               historyExact h name_ (map tk_t [row; from; to; at_tok] ++ map tk_t requires ++ concat (map keyNames (it_pks h)))
           end
       end.

(** The UTF-16 units of a text, each as two bytes: [sort()] orders texts by
    them. *)
Definition unitText (u : Z) : string := String (ascii_of_N (Z.to_N (u / 256))) (String (ascii_of_N (Z.to_N (u mod 256))) "").
Definition utf16Key (s : string) : string :=
  str (map (fun r => let cp := ru_cp r in
                     if 65535 <? cp then unitText (55296 + (cp - 65536) / 1024) +:+ unitText (56320 + (cp - 65536) mod 1024) else unitText cp) (runes s)).

(** One checkbox line: the states and glyphs covered so far. *)
Definition checkCheckbox (table : ITable) (column : string) (states : list string) (acc : list string * list string) (b : Tk * Tk * Tk * Tk)
    : Rd (list string * list string) :=
  let '(covered, glyphs) := acc in
  let '(_, tok, state, glyph) := b in
  c ← columnRef table tok;
  match c with
  | None => mret acc
  | Some _ =>
      if decide (tk_t tok <> column) then
        at_ "setting" tok (str ["checkbox names column "; tk_t tok; ", but the state_machine column is "; column]);; mret acc
      else
        (if negb (includes (tk_t state) states) then at_ "setting" state (str ["checkbox names state "; tk_t state; " outside the state set"])
         else when (includes (tk_t state) covered) (at_ "setting" state (str ["checkbox repeats for state "; tk_t state])));;
        let text := stringValue glyph in
        (if decide (codePoints text <> 1) then at_ "setting" glyph "a checkbox glyph is one character"
         else when (includes text glyphs) (at_ "setting" glyph (str ["checkbox glyph "; text; " repeats"])));;
        mret (set_add (tk_t state) covered, set_add text glyphs)
  end.

Definition checkCheckboxes (table : ITable) (column : string) (states : list string) (boxes : list (Tk * Tk * Tk * Tk)) : Rd unit :=
  match boxes with
  | [] => mret tt
  | (kw, first, _, _) :: _ =>
      if decide (column = "") then at_ "setting" first (str ["checkbox needs a state_machine on column "; tk_t first])
      else
        '(covered, _) ← foldS (checkCheckbox table column states) ([], []) boxes;
        eachP (fun s => when (negb (includes s covered)) (at_ "setting" kw (str ["checkbox does not cover state "; s]))) (sort_by utf16Key states)
  end.

(** The default of the state column is an initial state. *)
Definition stateDefault (m : Machine) (c : option IColumn) : Rd unit :=
  match c ≫= icol_valueTok with
  | None => mret tt
  | Some tok =>
      let value := if decide (tk_k tok = KString) then stringValue tok else tk_t tok in
      when (negb (includes value (ma_initials m))) (at_ "setting" tok (str ["the default "; value; " of the state column is not an initial state"]))
  end.

Definition checkStateMachineConsistency (table : ITable) (entries : list ISetting) : Rd unit :=
  m ← foldS machineEntry noMachine entries;
  eachP (machineOrder m) (ma_lines m);;
  checkLimits (ma_limits m) (ma_states m);;
  let state := assoc (ma_column m) (it_colMap table) in
  (match ma_history m with Some h => checkHistory table h state (ma_requires m) | None => mret tt end);;
  stateDefault m state;;
  checkCheckboxes table (ma_column m) (ma_states m) (ma_boxes m).

(** ** Audits *)

Section audit.
Variable ti : nat.
Variable table : ITable.
Variables kw into column references_ action previous : Tk.
Variable tables : option (Tk * Tk * Tk).
Variable lists : list (Tk * list Tk).

(** One column of the exclude or include list. *)
Definition auditListed (list_kw : Tk) (listed : list string) (tok : Tk) : Rd (list string) :=
  if includes (tk_t tok) listed then at_ "setting" tok (str ["column "; tk_t tok; " repeats in audit "; tk_t list_kw]);; mret listed
  else
    (if decide (tk_t tok = tk_t column)
     then at_ "setting" tok (str ["the audit column "; tk_t tok; " is always recorded and is not listed in exclude or include"])
     else formed ← name tok; if formed : bool then lookup_ table tok "setting";; mret tt else mret tt);;
    mret (listed ++ [tk_t tok]).

(** The recorded columns, or [None] when both lists are used. *)
Definition auditLists : Rd (option (string -> bool)) :=
  match lists with
  | _ :: (second, _) :: _ => at_ "setting" second "audit names its recorded columns by exclude or by include, not both";; mret None
  | _ =>
      listed ← foldS (fun listed l => foldS (auditListed (fst l)) listed (snd l)) [] lists;
      let include := match lists with [(k, _)] => bool_decide (tk_t k = "include") | _ => false end in
      mret (Some (fun c => bool_decide (c = tk_t column) || (if include then includes c listed else negb (includes c listed))))
  end.

(** Whether a table has a restricting foreign key of one column to a table's
    one column. *)
Definition restricts (fks : list IForeignKey) (child : string) (target parent : string) : bool :=
  existsb (fun f => bool_decide (map tk_t (ifk_cols f) = [child]) && bool_decide (tk_t (ifk_table f) = target) && bool_decide (map tk_t (ifk_refs f) = [parent])
                    && bool_decide (ifk_onDelete f = "restrict") && bool_decide (ifk_onUpdate f = "restrict")) fks.

(** The audit record table: another table, with a key of one column whose type
    is that of the audit column, which references it with restrict. *)
Definition auditRecord (audited : option IColumn) : Rd unit :=
  let ref := references_ in
  if negb (wellFormed (tk_t ref)) then mret tt
  else match assoc (tk_t ref) available with
       | None => at_ "setting" ref (str ["audit record table "; tk_t ref; " is not a table of this document or a used table"])
       | Some None => mret tt
       | Some (Some r) =>
           record ← tableOf r;
           if it_headerFailed record then mret tt
           else if isLocal r ti then at_ "setting" ref "a table cannot record its audits in itself"
           else if decide (tk_t ref = tk_t into) then at_ "setting" ref "the audit record table is another table than the history table"
           else
             when (existsb isAudit (entriesOf record)) (at_ "setting" ref (str ["audit record table "; tk_t ref; " is audited itself"]));;
             match map keyNames (it_pks record) with
             | [[key]] =>
                 match audited, assoc key (it_colMap record) with
                 | Some c, Some pk =>
                     if differ (icol_type pk) (icol_type c) then
                       at_ "setting" column (str ["the audit column has type "; typeOf c; ", not the type "; typeOf pk; " of the primary key of "; tk_t ref])
                     else
                       when (negb (restricts (it_fks table) (tk_t column) (tk_t ref) key) && negb (it_failedKey table))
                         (at_ "setting" column (str ["the audit column needs the foreign key ("; tk_t column; ") references "; tk_t ref; " ("; key; ") on delete restrict on update restrict"]))
                 | _, _ => mret tt
                 end
             | _ => when (negb (it_failedPrimary record)) (at_ "setting" ref (str ["audit record table "; tk_t ref; " needs a primary key of one column"]))
             end
       end.

(** The foreign key of the tables table to the audit record table. *)
Definition auditTablesKey (c : Tk * Tk * Tk) (t : ITable) : Rd unit :=
  let '(ref, record_, _) := c in
  match assoc (tk_t references_) available with
  | Some (Some r) =>
      record ← tableOf r;
      match map keyNames (it_pks record) with
      | [[key]] =>
          when (negb (it_headerFailed record) && negb (it_failedKey t) && negb (restricts (it_fks t) (tk_t record_) (tk_t references_) key))
            (at_ "setting" ref (str ["tables table "; tk_t ref; " needs the foreign key ("; tk_t record_; ") references "; tk_t references_; " ("; key; ") on delete restrict on update restrict"]))
      | _ => mret tt
      end
  | _ => mret tt
  end.

(** The columns, the key and the foreign key of the tables table. *)
Definition auditTablesColumns (c : Tk * Tk * Tk) (t : ITable) : Rd unit :=
  let '(ref, record_, name_) := c in
  known ← foldS (fun known tok =>
    if wellFormed (tk_t tok) && negb (bool_decide (is_Some (assoc (tk_t tok) (it_colMap t)))) && negb (includes (tk_t tok) (it_failed t))
    then at_ "setting" tok (str ["column "; tk_t tok; " is not a column of tables table "; tk_t ref]);; mret false
    else mret known) true [record_; name_];
  if negb known then mret tt
  else
    reportColumn (assoc (tk_t name_) (it_colMap t)) (notType (fun ty => match ty with TVarchar n => 63 <=? n | _ => false end)) name_
      (fun _ => "the name column is a varchar(n) with n >= 63");;
    eachP (fun col => when (negb (includes (tk_t (icol_name col)) [tk_t record_; tk_t name_]))
                        (at_ "setting" ref (str ["tables table "; tk_t ref; " has the extra column "; tk_t (icol_name col)]))) (it_columns t);;
    when (negb (it_failedPrimary t) && negb (bool_decide (map keyNames (it_pks t) = [[tk_t record_; tk_t name_]])))
      (at_ "setting" ref (str ["the primary key of tables table "; tk_t ref; " is ("; tk_t record_; ", "; tk_t name_; ")"]));;
    auditTablesKey c t.

Definition auditTables (c : Tk * Tk * Tk) : Rd unit :=
  let '(ref, _, _) := c in
  if negb (wellFormed (tk_t ref)) then mret tt
  else match assoc (tk_t ref) available with
       | None => at_ "setting" ref (str ["tables table "; tk_t ref; " is not a table of this document or a used table"])
       | Some None => mret tt
       | Some (Some r) =>
           t ← tableOf r;
           if it_headerFailed t then mret tt
           else if isLocal r ti || bool_decide (tk_t ref = tk_t into) || bool_decide (tk_t ref = tk_t references_)
           then at_ "setting" ref "the tables table is another table than the audited, the history and the audit record table"
           else if existsb isAudit (entriesOf t) then at_ "setting" ref (str ["tables table "; tk_t ref; " is audited itself"])
           else auditTablesColumns c t
       end.

(** The history column of one column of the table; the history columns
    allowed so far. *)
Definition historyCopy (history : ITable) (reserved allowed : list string) (recorded : string -> bool) (c : IColumn) : Rd (list string) :=
  let n := tk_t (icol_name c) in
  if negb (recorded n) then mret allowed
  else
    (if negb (wellFormed n) then mret tt
     else match assoc n (it_colMap history) with
          | Some copy =>
              if includes n reserved then at_ "setting" into (str ["history table "; tk_t into; " has no column "; n])
              else when (differ (icol_type c) (icol_type copy))
                     (at_ "setting" into (str ["history column "; n; " is "; typeOf copy; ", not "; typeOf c]))
          | None => at_ "setting" into (str ["history table "; tk_t into; " has no column "; n])
          end);;
    mret (allowed ++ [n]).

(** The history columns against the recorded ones. *)
Definition historyColumns (history : ITable) (key : option IColumn) (recorded : string -> bool) : Rd unit :=
  let reserved := option_list (tk_t ∘ icol_name <$> key) ++ [tk_t action; tk_t previous] in
  allowed ← foldS (fun allowed c => historyCopy history reserved allowed recorded c) reserved (it_columns table);
  eachP (fun c =>
    let n := tk_t (icol_name c) in
    if includes n allowed then mret tt
    else if wellFormed n && bool_decide (is_Some (assoc n (it_colMap table)))
    then at_ "setting" into (str ["history table "; tk_t into; " has column "; n; ", which table "; tk_t (it_name table); " does not record"])
    else at_ "setting" into (str ["history table "; tk_t into; " has the extra column "; n])) (it_columns history).

(** The action and previous columns of the history table. *)
Definition historyNamed (history : ITable) (audited : option IColumn) : Rd unit :=
  (if negb (wellFormed (tk_t action)) then mret tt
   else match assoc (tk_t action) (it_colMap history) with
        | None => at_ "setting" action (str [tk_t action; " is not a column of history table "; tk_t into])
        | Some c => when (notType (fun t => bool_decide (typeText t = "varchar(8)")) c || icol_nullable c) (at_ "setting" action "the action column is a non-null varchar(8)")
        end);;
  if negb (wellFormed (tk_t previous)) then mret tt
  else match assoc (tk_t previous) (it_colMap history) with
       | None => at_ "setting" previous (str [tk_t previous; " is not a column of history table "; tk_t into])
       | Some c =>
           when (negb (icol_nullable c) || match audited with Some a => differ (icol_type c) (icol_type a) | None => false end)
             (at_ "setting" previous "the previous column is nullable and has the type of the audit column")
       end.

(** The history table of an audit. *)
Definition auditHistory (audited : option IColumn) (recorded : option (string -> bool)) : Rd unit :=
  if negb (wellFormed (tk_t into)) then mret tt
  else match assoc (tk_t into) available with
       | None => at_ "setting" into (str ["history table "; tk_t into; " is not defined or used"])
       | Some None => mret tt
       | Some (Some r) =>
           history ← tableOf r;
           if it_headerFailed history then mret tt
           else if isLocal r ti then at_ "setting" into "a table is not its own history table"
           else
             when (existsb isAudit (entriesOf history)) (at_ "setting" into (str ["history table "; tk_t into; " is audited itself"]));;
             let key := List.find (fun c => bool_decide (icol_identity c <> None)) (it_columns history) in
             when (negb (bool_decide (key ≫= icol_type = Some TI64))) (at_ "setting" into (str ["history table "; tk_t into; " has no i64 identity primary key"]));;
             historyNamed history audited;;
             match recorded with None => mret tt | Some recorded => historyColumns history key recorded end
       end.

Definition audit (actionChild : bool) : Rd unit :=
  when actionChild (at_ "setting" kw "audit is rejected on a child of a cascade or set_null foreign key");;
  audited ← lookup_ table column "setting";
  reportColumn audited icol_nullable column (fun _ => "the audit column is a non-null column");;
  recorded ← auditLists;
  auditRecord audited;;
  (match tables with Some c => auditTables c | None => mret tt end);;
  auditHistory audited recorded.
End audit.

(** ** The settings of a table *)

(** What must not repeat among the settings; the lines of a state machine have
    their own rules. *)
Definition settingRepeatKey (k : ISettingKind) : option string :=
  match k with
  | ICheckbox _ _ _ | IStateMachine _ _ => None
  | ICodec c _ => Some (str ["codec "; tk_t c])
  | INavigation f _ _ => Some (str ["navigation "; tk_t f])
  | IBlindIndex c _ => Some (str ["blind_index "; tk_t c])
  | IMarkdown c => Some (str ["markdown "; tk_t c])
  | IEntity _ => Some "entity" | IUpdated _ => Some "updated" | ISoftDelete _ => Some "soft_delete" | IAesVersion _ => Some "aes_version"
  | ISelectExplicit _ => Some "select_explicit" | IImmutable => Some "immutable" | IAudit _ _ _ _ _ _ _ => Some "audit"
  | IStore _ _ _ _ => Some "store" | IKeyPrefix _ => Some "key_prefix" | ITitle _ => Some "title" | IBody _ => Some "body" | IOrder _ => Some "order"
  end.

(** The columns that a codec encodes with the aes stage. *)
Definition aesColumnsOf (entries : list ISetting) : list string :=
  omap (fun s => match iset_kind s with ICodec c stages => if includes "aes" (map tk_t stages) then Some (tk_t c) else None | _ => None end) entries.

Definition selectColumn (table : ITable) (listed : list string) (tok : Tk) : Rd (list string) :=
  c ← lookup_ table tok "setting";
  when (bool_decide (is_Some c) && includes (tk_t tok) listed) (at_ "setting" tok (str ["column "; tk_t tok; " repeats"]));;
  mret (set_add (tk_t tok) listed).

Definition settingCheck (ti : nat) (table : ITable) (entries : list ISetting) (actionChild : bool) (s : ISetting) : Rd unit :=
  let kw := iset_kw s in
  let lookup tok := lookup_ table tok "setting" in
  match iset_kind s with
  | IEntity _ | ICheckbox _ _ _ => mret tt
  | IUpdated column => c ← lookup column; reportColumn c (notType isDatetime) column (fun _ => "updated names a datetime column")
  | ISoftDelete column =>
      c ← lookup column;
      reportColumn c (fun c => match icol_type c with Some t => negb (isDatetime t) || negb (icol_nullable c) | None => false end) column
        (fun _ => "soft_delete names a nullable datetime column")
  | ISelectExplicit columns => foldS (selectColumn table) [] columns;; mret tt
  | ICodec column stages => codec table kw column stages (existsb isAesVersion entries)
  | IAesVersion column =>
      c ← lookup column;
      reportColumn c (fun c => match icol_type c with Some t => negb (isInteger_ t) || icol_nullable c | None => false end) column
        (fun _ => "aes_version names a non-null integer column");;
      when (bool_decide (aesColumnsOf entries = [])) (at_ "setting" kw "aes_version requires a column with the aes codec stage")
  | IBlindIndex column indexColumn => blindIndex table kw column indexColumn (aesColumnsOf entries)
  | INavigation fk _ _ =>
      when (wellFormed (tk_t fk) && negb (includes (tk_t fk) (it_failed table)) && negb (includes (tk_t fk) (map (fun f => tk_t (ifk_name f)) (it_fks table))))
        (at_ "setting" fk (str [tk_t fk; " is not a foreign key of table "; tk_t (it_name table)]))
  | IMarkdown column => checkMarkdown table column
  | IStore storage foreignKey _ shard =>
      (match foreignKey with Some fk => if decide (tk_t storage = "block") then checkForeignKeyName table fk else mret tt | None => mret tt end);;
      checkStoreShard table storage shard (existsb isOrder entries)
  | IKeyPrefix _ => checkKeyPrefix table kw
  | ITitle column | IBody column => checkTextColumn table kw column
  | IOrder column => checkOrder table column
  | IStateMachine column line => checkStateMachine table column line
  | IImmutable => when actionChild (at_ "setting" kw "immutable is rejected on a child of a cascade or set_null foreign key")
  | IAudit into column references action previous tables lists => audit ti table kw into column references action previous tables lists actionChild
  end.

Definition settingEntry (ti : nat) (table : ITable) (entries : list ISetting) (actionChild : bool) (seen : list string) (s : ISetting) : Rd (list string) :=
  match settingRepeatKey (iset_kind s) with
  | Some key =>
      if includes key seen then at_ "setting" (iset_kw s) (str ["setting "; key; " repeats"]);; mret seen
      else settingCheck ti table entries actionChild s;; mret (seen ++ [key])
  | None => settingCheck ti table entries actionChild s;; mret seen
  end.

Definition settings (ti : nat) (table : ITable) (block : ISettings) (actionChild : bool) : Rd unit :=
  let entries := isb_entries block in
  foldS (settingEntry ti table entries actionChild) [] entries;;
  checkStateMachineConsistency table entries.

(** ** A table *)

(** The columns of the foreign keys that change child rows. *)
Definition bannedColumns (table : ITable) : list string :=
  concat (map (fun f => if propagates (ifk_onDelete f) || propagates (ifk_onUpdate f) then map tk_t (ifk_cols f) else []) (it_fks table)).
Definition actionChild (table : ITable) : bool := existsb (fun f => propagates (ifk_onDelete f) || propagates (ifk_onUpdate f)) (it_fks table).

Fixpoint checksFrom (ti ci : nat) (table : ITable) (banned : list string) (checks : list ICheck) : Rd unit :=
  match checks with [] => mret tt | k :: checks => check lines ti ci table k banned;; checksFrom ti (S ci) table banned checks end.

Definition validateTable (ti : nat) : Rd unit :=
  table ← theTable ti;
  when ((length (it_columns table) =? 0)%nat && (it_failedLines table =? 0)) (at_ "column" (it_name table) "a table has at least one column");;
  when ((length (it_pks table) =? 0)%nat && negb (it_failedPrimary table)) (at_ "key" (it_name table) (str ["table "; tk_t (it_name table); " has no primary key"]));;
  eachP (fun k => at_ "key" (ikey_kw k) "a table has exactly one primary key") (drop 1 (it_pks table));;
  eachP (keyLike table true) (take 1 (it_pks table));;
  eachP (keyLike table false) (it_uniques table);;
  eachP (keyLike table false) (it_indexes table);;
  identityKey table;;
  eachP (foreignKey table) (it_fks table);;
  checksFrom ti 0 table (bannedColumns table) (it_checks table);;
  match it_settings table with Some block => settings ti table block (actionChild table) | None => mret tt end.

End validator.
