(* ===== verification/ParseDocument.v ===== *)
(** * Parsing and validation of whole documents ([dbspec/parse.ts])

    [validate] checks a document against the documents it uses, which are parsed
    in turn from the declared set, each once; [parseText] reads, validates and
    orders the diagnostics, [build] makes the document of a parse without any,
    [positions] its declaration positions, and [tokensOf] the classified tokens
    of a text.  SHA-256 is the runtime's: a parameter. *)

From S2P Require Import Prelude Documents Emit Check Render Decimal Lexer Literals ParseState Reader CheckReader Validator.
From Stdlib Require Import Lia.

(** ** Validation of a document *)

Section validate.
Variable sha256 : string -> string.
Variable lines : list (list rune).

(** The document that a use line names; [None] after a report. *)
Variable resolve : Tk -> Rd (option IDocument).

Notation at_ := (at_ lines).

(** What the use lines give: the tables by name and the token that uses each,
    the used documents, and the names that they declare. *)
Record Uses := mkUses {
  us_available : list (string * option TRef); us_usedAt : list (string * Tk); us_documents : list string;
  us_constraints : list string; us_tables : list string }.

Definition namedTables (d : IDocument) : list ITable := filter (fun t => it_named t = true) (idoc_tables d).
Definition tableNames (d : IDocument) : list string := map (fun t => tk_t (it_name t)) (namedTables d).

(** The names that a used document shares with the ones before it. *)
Definition sharedNames (u : Uses) (target : IDocument) : list string :=
  let shared := filter (fun n => includes n (us_constraints u) || includes n (us_tables u) = true) (map fst (idoc_constraints target)) in
  let tables := filter (fun n => includes n (us_constraints u) = true) (tableNames target) in
  foldl (fun names n => set_add n names) [] (shared ++ tables).

(** One table of a use line. *)
Definition useTable (target : IDocument) (docName : string) (u : Uses) (t : Tk) : Rd Uses :=
  if negb (wellFormed (tk_t t)) then mret u
  else match assoc (tk_t t) (us_available u) with
       | Some _ => at_ "name.duplicate" t (str ["table "; tk_t t; " is used twice"]);; mret u
       | None =>
           let tables := foldl (fun m t => assoc_set (tk_t (it_name t)) t m) [] (namedTables target) in
           let found := assoc (tk_t t) tables in
           when (negb (bool_decide (is_Some found))) (at_ "use" t (str ["document "; docName; " does not define table "; tk_t t]));;
           mret (mkUses (us_available u ++ [(tk_t t, Used <$> found)]) (us_usedAt u ++ [(tk_t t, t)]) (us_documents u) (us_constraints u) (us_tables u))
       end.

Definition useEntry (u : Uses) (use : IUse) : Rd Uses :=
  let tok := iuse_doc use in
  d ← theDocument;
  if negb (wellFormed (tk_t tok)) then mret u
  else if includes (tk_t tok) (us_documents u) then at_ "name.duplicate" tok (str ["document "; tk_t tok; " is used twice"]);; mret u
  else
    let u := mkUses (us_available u) (us_usedAt u) (us_documents u ++ [tk_t tok]) (us_constraints u) (us_tables u) in
    if decide (tk_t tok = idoc_name d) then at_ "use" tok (str ["document "; idoc_name d; " uses itself"]);; mret u
    else
      target ← resolve tok;
      match target with
      | None =>
          eachP (fun t => modify (setDocument (setFailedNames (set_add (tk_t t))))) (iuse_tables use);;
          mret u
      | Some target =>
          eachP (fun n => at_ "name.duplicate" tok (str [n; " is declared by two used documents"])) (sharedNames u target);;
          foldS (useTable target (tk_t tok))
            (mkUses (us_available u) (us_usedAt u) (us_documents u)
               (foldl (fun l n => set_add n l) (us_constraints u) (map fst (idoc_constraints target)))
               (foldl (fun l n => set_add n l) (us_tables u) (tableNames target)))
            (iuse_tables use)
      end.

(** The later of two tokens. *)
Definition later (a b : Tk) : Tk := if (tk_line b <? tk_line a) || ((tk_line a =? tk_line b) && (tk_s b <? tk_s a)) then a else b.

(** The tables of the document join those it uses; the first of a name is kept. *)
Definition localTable (u : Uses) (acc : list (string * option TRef) * list (string * Tk)) (it : nat * ITable) : Rd (list (string * option TRef) * list (string * Tk)) :=
  let '(available, localTables) := acc in
  let '(i, t) := it in
  let tok := it_name t in
  if negb (it_named t && wellFormed (tk_t tok)) then mret acc
  else match assoc (tk_t tok) available with
       | None =>
           when (includes (tk_t tok) (us_constraints u) && negb (it_headerFailed t))
             (at_ "name.duplicate" tok (str ["table "; tk_t tok; " repeats a constraint name of a used document"]));;
           mret (available ++ [(tk_t tok, Some (Local i))], localTables ++ [(tk_t tok, tok)])
       | Some _ =>
           when (negb (it_headerFailed t))
             (at_ "name.duplicate" (match assoc (tk_t tok) (us_usedAt u) with Some used => later used tok | None => tok end) (str ["table "; tk_t tok; " repeats"]));;
           mret acc
       end.

(** A constraint name is no table name and no name of a used document. *)
Definition constraintEntry (u : Uses) (localTables : list (string * Tk)) (c : string * Tk) : Rd unit :=
  let '(n, tok) := c in
  match assoc n localTables with
  | Some _ => at_ "name.duplicate" tok (str [n; " names both a table and a constraint"])
  | None => when (includes n (us_constraints u) || includes n (us_tables u)) (at_ "name.duplicate" tok (str [n; " repeats a name of a used document"]))
  end.

(** A generated name equals no generated name of a used table or of an earlier
    table of the document. *)
Definition generatedName (seen : list (string * string)) (g : IGeneratedName) : Rd (list (string * string)) :=
  match assoc (ign_name g) seen with
  | Some first => at_ "name.duplicate" (ign_at g) (str ["generated name "; ign_name g; " of "; ign_source g; " repeats the generated name of "; first]);; mret seen
  | None => mret (seen ++ [(ign_name g, ign_source g)])
  end.

Definition usedGenerated (available : Available) : list (string * string) :=
  foldl (fun seen e => match snd e with
                       | Some (Used t) => foldl (fun seen g => assoc_set (ign_name g) (str ["used table "; tk_t (it_name t)]) seen) seen (generatedNamesOf sha256 t)
                       | _ => seen
                       end) [] available.

Definition generatedNamesUnique (available : Available) : Rd unit :=
  d ← theDocument;
  foldS (fun seen it =>
    let '(i, t) := (it : nat * ITable) in
    let own := match assoc (tk_t (it_name t)) available with Some (Some r) => isLocal r i | _ => false end in
    if it_named t && own then foldS generatedName seen (generatedNamesOf sha256 t) else mret seen)
    (usedGenerated available) (imap pair (idoc_tables d));;
  mret tt.

(** The placements of a diagram name tables that are known, each once. *)
Definition placementEntry (available : Available) (placed : list string) (p : IPlacement) : Rd (list string) :=
  let tok := ipl_table p in
  if negb (wellFormed (tk_t tok)) then mret placed
  else
    (if negb (bool_decide (is_Some (assoc (tk_t tok) available))) then at_ "diagram" tok (str ["table "; tk_t tok; " is not defined or used"])
     else when (includes (tk_t tok) placed) (at_ "diagram" tok (str ["table "; tk_t tok; " repeats in the diagram"])));;
    mret (set_add (tk_t tok) placed).

Definition validate : Rd unit :=
  d ← theDocument;
  u ← foldS useEntry (mkUses [] [] [] [] []) (idoc_uses d);
  d ← theDocument;
  '(available, localTables) ← foldS (localTable u) (us_available u, []) (imap pair (idoc_tables d));
  let available := foldl (fun l n => if bool_decide (is_Some (assoc n l)) then l else l ++ [(n, None)]) available (idoc_failed d) in
  eachP (constraintEntry u localTables) (idoc_constraints d);;
  eachP (validateTable lines available) (seq 0 (length (idoc_tables d)));;
  generatedNamesUnique available;;
  eachP (fun g => foldS (placementEntry available) [] (idg_entries g);; mret tt) (idoc_diagrams d).

End validate.

(** ** Texts *)

Definition MAX_BYTES : Z := 32 * 1024 * 1024.

Definition RULE_ORDER : list string :=
  ["header"; "syntax"; "order"; "name.format"; "name.length"; "name.duplicate"; "type"; "column";
   "key"; "foreign_key"; "check"; "setting"; "use"; "diagram"; "limit"; "encoding"].
Definition rank (d : DbspecDiagnostic) : nat := positionOf (dx_rule d) RULE_ORDER.

(** The order of diagnostics: by line, column and rule. *)
Definition diagnosticLeb (a b : DbspecDiagnostic) : bool :=
  if dx_line a =? dx_line b then
    if dx_column a =? dx_column b then (rank a <=? rank b)%nat else dx_column a <? dx_column b
  else dx_line a <? dx_line b.

(** A stable sort by a comparison. *)
Section stable.
Context {A : Type} (leb : A -> A -> bool).
Fixpoint insertStable (x : A) (l : list A) : list A :=
  match l with [] => [x] | y :: l' => if leb x y then x :: l else y :: insertStable x l' end.
Definition stableSort (l : list A) : list A := foldr insertStable [] l.
End stable.

Definition isSurrogate (cp : Z) : bool := (55296 <=? cp) && (cp <=? 57343).

(** The message of an offending character of a line, at index [i] of it. *)
Definition encodingMessage (first lastLine : bool) (i : Z) (r : rune) (rest : list rune) : option string :=
  if (ru_cp r =? 65279) && first && (i =? 0) then Some "the text starts with a byte order mark"
  else if (ru_cp r =? 13) && (lastLine || negb (bool_decide (rest = []))) then Some "the text has a bare CR"
  else if isSurrogate (ru_cp r) then Some "the text has an unpaired UTF-16 surrogate and is not valid UTF-8"
  else None.

Fixpoint encodingInLine (first lastLine : bool) (i : Z) (l : list rune) : option (Z * string) :=
  match l with
  | [] => None
  | r :: rest => match encodingMessage first lastLine i r rest with Some m => Some (i, m) | None => encodingInLine first lastLine (i + units r) rest end
  end.

(** The first encoding error of the lines from number [line] on. *)
Fixpoint encodingFrom (line : Z) (lines : list (list rune)) : option DbspecDiagnostic :=
  match lines with
  | [] => None
  | text :: rest =>
      match encodingInLine (line =? 1) (bool_decide (rest = [])) 0 text with
      | Some (i, message) => Some (mkDiagnostic "encoding" line (columnOf text i) message)
      | None => encodingFrom (line + 1) rest
      end
  end.
Definition encodingError (lines : list (list rune)) : option DbspecDiagnostic := encodingFrom 1 lines.

Definition splitLines (text : string) : list (list rune) := map runes (split_on (ascii_of_nat 10) text).

(** [line.endsWith('\r') ? line.slice(0, -1) : line] *)
Definition stripReturn (l : list rune) : list rune :=
  match last l with Some r => if ru_cp r =? 13 then take (length l - 1) l else l | None => l end.

(** A parse: its diagnostics in source order, and the parser with its lines
    unless the text has none to read. *)
Record Parsed := mkParsed { pa_diagnostics : list DbspecDiagnostic; pa_parser : option (DP * list (list rune)) }.

Definition parsedDocument (p : Parsed) : IDocument := match pa_parser p with Some (q, _) => dp_document q | None => emptyDocument end.

Section texts.
Variable sha256 : string -> string.
Variable documents : list (string * string).

Notation Cache := (list (string * CacheEntry)).

(** The report about the parse of a used document; [None] behind one. *)
Definition resolved (lines : list (list rune)) (tok : Tk) (e : CacheEntry) : Rd (option IDocument) :=
  let n := tk_t tok in
  match ce_diagnostics e with
  | first :: _ =>
      at_ lines "use" tok (str ["document "; n; " is invalid: "; dx_rule first; " at line "; pretty (dx_line first); " column "; pretty (dx_column first); ": "; dx_message first]);;
      mret None
  | [] =>
      if decide (idoc_name (ce_document e) = n) then mret (Some (ce_document e))
      else at_ lines "use" tok (str ["the declared document "; n; " has the header name "; idoc_name (ce_document e)]);; mret None
  end.

(** [resolve]: [parse_] parses the text of a document for its users. *)
Definition resolve (parse_ : string -> Cache -> list string -> res (Parsed * Cache)) (lines : list (list rune)) (parents : list string) (tok : Tk)
    : Rd (option IDocument) :=
  let n := tk_t tok in
  p ← get;
  let chain := match parents with [] => [idoc_name (dp_document p)] | _ => parents end in
  match assoc n documents with
  | None => at_ lines "use" tok (str ["document "; n; " is not in the declared document set"]);; mret None
  | Some text =>
      if includes n chain then at_ lines "use" tok (str ["document "; n; " uses itself through use lines"]);; mret None
      else match assoc n (dp_cache p) with
           | Some e => resolved lines tok e
           | None =>
               '(parsed, cache) ← lift (parse_ text (dp_cache p) (chain ++ [n]));
               let e := mkCacheEntry (pa_diagnostics parsed) (parsedDocument parsed) in
               modify (setCache (fun _ => cache ++ [(n, e)]));;
               resolved lines tok e
           end
  end.

(** The diagnostics of a finished parser: a stopping error comes last. *)
Definition orderedDiagnostics (p : DP) : list DbspecDiagnostic :=
  let found := dp_diagnostics p in
  if dp_stopped p then stableSort diagnosticLeb (take (length found - 1) found) ++ drop (length found - 1) found
  else stableSort diagnosticLeb found.

(** Every used document adds a declared name to the chain, so the number of
    declared documents bounds the depth. *)
Fixpoint parseText (fuel : nat) (validated : bool) (text : string) (cache : Cache) (parents : list string) : res (Parsed * Cache) :=
  match fuel with
  | O => Err OutOfFuel
  | S fuel =>
      if MAX_BYTES <? utf8Length text then Ok (mkParsed [mkDiagnostic "limit" 1 1 "a document has at most 32 MiB"] None, cache)
      else
        let raw := splitLines text in
        let encoding := encodingError raw in
        let complete := match encoding with None => length raw | Some e => Z.to_nat (dx_line e - 1) end in
        match encoding, complete with
        | Some e, O => Ok (mkParsed [e] None, cache)
        | _, _ =>
            let lines := map stripReturn (take complete raw) in
            '(_, p) ← (parse lines encoding;;
                       p ← get;
                       if validated && negb (dp_stopped p) then validate sha256 lines (resolve (parseText fuel true) lines parents) else mret tt) (newParser cache);
            Ok (mkParsed (orderedDiagnostics p) (Some (p, lines)), dp_cache p)
        end
  end.

Definition parseWhole (validated : bool) (text : string) : res Parsed :=
  '(parsed, _) ← parseText (S (length documents)) validated text [] []; Ok parsed.
End texts.

(** ** The document of a parse *)

(** [oneOf(values, value, what)] *)
Definition oneOf (values : list string) (value what : string) : res string :=
  present (if includes value values then Some value else None) (str [what; " "; value]).

Definition actionOf (action : string) : res DbspecAction :=
  a ← oneOf ACTION_LIST action "the foreign key action";
  Ok (if decide (a = "cascade") then Cascade else if decide (a = "set_null") then SetNull else Restrict).

Definition stateLineOf (line : IStateLine) : res DbspecStateLine :=
  match line with
  | LInitial state => Ok (StateInitial (tk_t state))
  | LTerminal state requires => Ok (StateTerminal (tk_t state) (map tk_t <$> requires))
  | LTransition from to requires => Ok (StateTransition (tk_t from) (tk_t to) (map tk_t <$> requires))
  | LHistory table row from to at_tok => Ok (StateHistory (tk_t table) (tk_t row) (tk_t from) (tk_t to) (tk_t at_tok))
  | LLimit state count =>
      if isInteger (tk_t count) then Ok (StateLimit (tk_t state) (pretty (bigint (tk_t count))))
      else Err (JsError (str ["Cannot convert "; tk_t count; " to a BigInt"]))
  end.

(** The exclude or include list of an audit. *)
Definition listOf (lists : list (Tk * list Tk)) (kind : string) : option (list string) :=
  (fun l => map tk_t (snd l)) <$> List.find (fun l => bool_decide (tk_t (fst l) = kind)) lists.

Definition storageOf (storage : Tk) (foreignKey shape : option Tk) : res DbspecStorage :=
  s ← oneOf STORAGES (tk_t storage) "the store storage";
  shape ← match shape with None => Ok None | Some w => w ← oneOf SHAPES (tk_t w) "the store shape"; Ok (Some w) end;
  Ok (if decide (s = "files") then StoreFiles else if decide (s = "document") then StoreDocument shape else StoreBlock (tk_t <$> foreignKey) shape).

Definition shardOf (shard : option (Tk * Tk * Tk)) : res (option DbspecStoreShard) :=
  match shard with
  | None => Ok None
  | Some (_, column, period) => p ← oneOf PERIODS (tk_t period) "the shard period"; Ok (Some (mkShard (tk_t column) p))
  end.

Definition settingOf (s : ISetting) : res DbspecSettingLine :=
  setting ← match iset_kind s with
    | IEntity name => Ok (SEntity (tk_t name))
    | IUpdated column => Ok (SUpdated (tk_t column))
    | ISoftDelete column => Ok (SSoftDelete (tk_t column))
    | IAesVersion column => Ok (SAesVersion (tk_t column))
    | ISelectExplicit columns => Ok (SSelectExplicit (map tk_t columns))
    | ICodec column stages => stages ← mapR (fun s => oneOf STAGE_LIST (tk_t s) "the codec stage") stages; Ok (SCodec (tk_t column) stages)
    | IBlindIndex column indexColumn => Ok (SBlindIndex (tk_t column) (tk_t indexColumn))
    | INavigation fk child parent => Ok (SNavigation (tk_t fk) (tk_t child) (tk_t parent))
    | IImmutable => Ok SImmutable
    | IMarkdown column => Ok (SMarkdown (tk_t column))
    | IStore storage fk shape shard => st ← storageOf storage fk shape; sh ← shardOf shard; Ok (SStore st sh)
    | IKeyPrefix prefix => Ok (SKeyPrefix (stringValue prefix))
    | ITitle column => Ok (STitle (tk_t column))
    | IBody column => Ok (SBody (tk_t column))
    | IOrder column => Ok (SOrder (tk_t column))
    | ICheckbox column state glyph => Ok (SCheckbox (tk_t column) (tk_t state) (stringValue glyph))
    | IStateMachine column line => l ← stateLineOf line; Ok (SStateMachine (tk_t column) l)
    | IAudit into column references action previous tables lists =>
        Ok (SAudit (mkAudit (tk_t into) (tk_t column) (tk_t references) (tk_t action) (tk_t previous)
          ((fun c => let '(t, r, n) := c in (tk_t t, tk_t r, tk_t n)) <$> tables) (listOf lists "exclude") (listOf lists "include")))
    end;
  Ok (mkSettingLine (iset_comments s) setting).

Definition columnOf_ (c : IColumn) : res DbspecColumn :=
  type ← present (icol_type c) "c.type";
  Ok (mkColumn (icol_comments c) (tk_t (icol_name c)) type (icol_nullable c) (bool_decide (icol_identity c <> None)) (icol_value c)).

Definition uniqueOf (k : IKey) : res DbspecUnique :=
  n ← present (ikey_name k) "u.name"; Ok (mkUnique (ikey_comments k) (tk_t n) (keyNames k)).
Definition indexOf (k : IKey) : res DbspecIndex :=
  n ← present (ikey_name k) "i.name";
  Ok (mkIndex (ikey_comments k) (tk_t n) (map (fun c => mkIndexColumn (tk_t (ikc_tok c)) (ikc_descending c)) (ikey_cols k))).
Definition foreignKeyOf (f : IForeignKey) : res DbspecForeignKey :=
  onDelete ← actionOf (ifk_onDelete f);
  onUpdate ← actionOf (ifk_onUpdate f);
  Ok (mkForeignKey (ifk_comments f) (tk_t (ifk_name f)) (map tk_t (ifk_cols f)) (tk_t (ifk_table f)) (map tk_t (ifk_refs f)) onDelete onUpdate).

(** The settings of a table; a block without entries gives only its comments. *)
Definition settingsOf (t : ITable) : res (option DbspecSettings * list string) :=
  match it_settings t with
  | None => Ok (None, it_closing t)
  | Some b =>
      match isb_entries b with
      | [] => Ok (None, isb_comments b ++ isb_closing b ++ it_closing t)
      | entries => l ← mapR settingOf entries; Ok (Some (mkSettingsBlock (isb_comments b) l (isb_closing b)), it_closing t)
      end
  end.

Definition tableBuilt (t : ITable) : res DbspecTable :=
  pk ← present (head (it_pks t)) "t.pks[0]";
  columns ← mapR columnOf_ (it_columns t);
  uniques ← mapR uniqueOf (it_uniques t);
  indexes ← mapR indexOf (it_indexes t);
  fks ← mapR foreignKeyOf (it_fks t);
  '(settings, closing) ← settingsOf t;
  Ok (mkTable (it_comments t) (tk_t (it_name t)) columns (mkPrimaryKey (ikey_comments pk) (keyNames pk)) uniques indexes fks
        (map (fun c => mkCheck (ick_comments c) (tk_t (ick_name c)) (ick_text c)) (it_checks t)) settings closing).

Definition build (d : IDocument) : res DbspecDocument :=
  tables ← mapR tableBuilt (idoc_tables d);
  Ok (mkDocument (idoc_name d) false
        (map (fun u => mkUse (iuse_comments u) (tk_t (iuse_doc u)) (map tk_t (iuse_tables u))) (idoc_uses d))
        tables
        (map (fun g => mkDiagram (idg_comments g) (tk_t (idg_name g))
                (map (fun p => mkPlacement (ipl_comments p) (tk_t (ipl_table p)) (ipl_x p) (ipl_y p)) (idg_entries g)) (idg_closing g)) (idoc_diagrams d))
        (idoc_closing d)).

(** ** Declaration positions *)

Record RawPosition := mkPosition { po_kind : string; po_path : list string; po_line : Z; po_column : Z }.

Definition settingIdentity (k : ISettingKind) : list string :=
  match k with
  | ICodec c _ | IMarkdown c | IBlindIndex c _ => [tk_t c]
  | INavigation fk _ _ => [tk_t fk]
  | ICheckbox c s _ => [tk_t c; tk_t s]
  | IStateMachine _ (LTransition f t _) => ["transition"; tk_t f; tk_t t]
  | IStateMachine _ (LHistory _ _ _ _ _) => ["history"]
  | IStateMachine _ (LInitial s) => ["initial"; tk_t s]
  | IStateMachine _ (LTerminal s _) => ["terminal"; tk_t s]
  | IStateMachine _ (LLimit s _) => ["limit"; tk_t s]
  | _ => []
  end.

Section positions.
Variable lines : list (list rune).

Definition addPosition (kind : string) (tok : Tk) (path : list string) : res RawPosition :=
  text ← present (lines !! Z.to_nat (tk_line tok - 1)) "this.lines[at.line - 1]";
  Ok (mkPosition kind path (tk_line tok) (columnOf text (tk_s tok))).

Definition keyName (k : IKey) : res Tk :=
  match ikey_name k with Some n => Ok n | None => Err (JsError "a unique or index of a successful parse has no name") end.

Definition namedKeyPosition (table : string) (k : IKey) : res RawPosition := n ← keyName k; addPosition "constraint" n [table; tk_t n].

Definition tablePositions (t : ITable) : res (list RawPosition) :=
  let table := tk_t (it_name t) in
  p ← addPosition "table" (it_name t) [table];
  columns ← mapR (fun c => addPosition "column" (icol_name c) [table; tk_t (icol_name c)]) (it_columns t);
  pks ← mapR (fun k => addPosition "constraint" (ikey_kw k) [table; "primary key"]) (it_pks t);
  keys ← mapR (namedKeyPosition table) (it_uniques t ++ it_indexes t);
  fks ← mapR (fun f => addPosition "constraint" (ifk_name f) [table; tk_t (ifk_name f)]) (it_fks t);
  checks ← mapR (fun c => addPosition "constraint" (ick_name c) [table; tk_t (ick_name c)]) (it_checks t);
  settings ← mapR (fun s => addPosition "setting" (iset_kw s) (table :: tk_t (iset_kw s) :: settingIdentity (iset_kind s))) (entriesOf t);
  Ok (p :: columns ++ pks ++ keys ++ fks ++ checks ++ settings).

Definition usePositions (u : IUse) : res (list RawPosition) :=
  p ← addPosition "use" (iuse_doc u) [tk_t (iuse_doc u)];
  tables ← mapR (fun t => addPosition "use_table" t [tk_t (iuse_doc u); tk_t t]) (iuse_tables u);
  Ok (p :: tables).

Definition diagramPositions (g : IDiagram) : res (list RawPosition) :=
  p ← addPosition "diagram" (idg_name g) [tk_t (idg_name g)];
  entries ← mapR (fun e => addPosition "diagram_entry" (ipl_table e) [tk_t (idg_name g); tk_t (ipl_table e)]) (idg_entries g);
  Ok (p :: entries).

Definition positionLeb (a b : RawPosition) : bool := if po_line a =? po_line b then po_column a <=? po_column b else po_line a <? po_line b.

(** The declaration positions in source order. *)
Definition positions (d : IDocument) : res (list RawPosition) :=
  match idoc_nameTok d with
  | None => Err (JsError "a successful parse has no header name token")
  | Some tok =>
      p ← addPosition "document" tok [idoc_name d];
      uses ← mapR usePositions (idoc_uses d);
      tables ← mapR tablePositions (idoc_tables d);
      diagrams ← mapR diagramPositions (idoc_diagrams d);
      Ok (stableSort positionLeb (p :: concat uses ++ concat tables ++ concat diagrams))
  end.
End positions.

(** ** Tokens of a text *)

(** A token: its 1-based line, its start and end in code points, its class. *)
Record RawToken := mkRawToken { rt_line : Z; rt_start : Z; rt_end : Z; rt_cls : TokenClass }.

#[global] Instance RawToken_eq_dec : EqDecision RawToken.
Proof. solve_decision. Defined.

(** [classes.get(key)] *)
Definition classAt (p : DP) (line start : Z) : option TokenClass :=
  snd <$> List.find (fun e => bool_decide (fst e = (line, start))) (dp_classes p).

(** The class of a lexed token; [parser] is the one that read its line. *)
Definition classOf (tok : Tk) (line : Z) (parser : option DP) (abandoned : bool) : TokenClass :=
  match tk_k tok with
  | KString => CString
  | KPunct => CPunctuation
  | KOp => COperator
  | KWord =>
      match (if abandoned then None else parser ≫= fun p => classAt p line (tk_s tok)) with
      | Some c => c
      | None => if isUnsignedNumber (tk_t tok) then CNumber else CWord
      end
  end.

Definition lineTokens (parser : option DP) (content : list rune) (line : Z) : list RawToken :=
  match dropBlanks content with
  | [] => []
  | (r :: _) as front =>
      if ru_cp r =? 35 then [mkRawToken line (Z.of_nat (length content - length front)) (Z.of_nat (length content)) CComment]
      else
        let lexed := lexLine content line in
        let '(toks, text) := match lx_error lexed with None => (lx_toks lexed, content) | Some _ => recoverLine content line end in
        let abandoned := match parser with Some p => includes line (dp_abandoned p) | None => false end in
        map (fun tok => mkRawToken line (Z.of_nat (runesBefore text (tk_s tok))) (Z.of_nat (runesBefore text (tk_e tok))) (classOf tok line parser abandoned)) toks
  end.

(** [read line] says whether the parser read a line. *)
Fixpoint tokensFromLine (parser : option DP) (read : Z -> bool) (lines : list (list rune)) (line : Z) : list RawToken :=
  match lines with
  | [] => []
  | text :: rest =>
      let content := match rest with [] => text | _ => stripReturn text end in
      lineTokens (if read line then parser else None) content line ++ tokensFromLine parser read rest (line + 1)
  end.

(** The tokens of a text from the parse of the same text; a limit stop gives
    none, and the lines behind a stop keep lexical classes. *)
Definition tokensOf (text : string) (parsed : Parsed) : list RawToken :=
  let diagnostics := pa_diagnostics parsed in
  if existsb (fun d => bool_decide (dx_rule d = "limit")) diagnostics then []
  else
    let parser := fst <$> pa_parser parsed in
    let headerStop := match parser, last diagnostics with Some p, Some d => dp_stopped p && bool_decide (dx_rule d = "header") | _, _ => false end in
    let encoding := List.find (fun d => bool_decide (dx_rule d = "encoding")) diagnostics in
    let read line :=
      if bool_decide (is_Some parser) && negb headerStop then match encoding with None => true | Some e => line <? dx_line e end else false in
    tokensFromLine parser read (splitLines text) 1.

(** ** What the module exports *)

Definition ParsedDocument : Type := (DbspecDocument * list RawPosition) + list DbspecDiagnostic.

Definition resultOf (parsed : Parsed) : res ParsedDocument :=
  match pa_diagnostics parsed, pa_parser parsed with
  | [], Some (p, lines) => d ← build (dp_document p); ps ← positions lines (dp_document p); Ok (inl (d, ps))
  | diagnostics, _ => Ok (inr diagnostics)
  end.

(** The document of a text and its declared document set, or every diagnostic
    in source order. *)
Definition parseDocument (sha256 : string -> string) (text : string) (documents : list (string * string)) : res ParsedDocument :=
  parsed ← parseWhole sha256 documents true text; resultOf parsed.

(** The document name of the header, or the empty text when the header fails. *)
Definition headerName (sha256 : string -> string) (text : string) : res string :=
  parsed ← parseWhole sha256 [] false text; Ok (idoc_name (parsedDocument parsed)).

(** The parse result of a text together with its tokens. *)
Definition analyzeDocument (sha256 : string -> string) (text : string) (documents : list (string * string)) : res (ParsedDocument * list RawToken) :=
  parsed ← parseWhole sha256 documents true text; result ← resultOf parsed; Ok (result, tokensOf text parsed).
