(* ===== verification/ParseOk.v ===== *)
(** * Every reading step ends ([dbspec/parse.ts])

    A step of the parser is [ok] when it ends without an error from every state
    of its invariant, keeps the invariant, and takes no diagnostic back: a run
    without diagnostics at its end had none before.  Rules for the ways steps
    are composed, and the tactic [ok] that applies them with the lemmas of the
    database [ok], settle the readers of one line. *)

From S2P Require Import Prelude Documents Emit Check Decimal Lexer Literals ParseState Reader.
From Stdlib Require Import Lia.

(** ** The judgment *)

Definition clean (s : DP) : Prop := dp_diagnostics s = [].

Definition ok {A} (I : DP -> Prop) (m : Rd A) (Q : A -> Prop) : Prop := forall s, I s ->
  exists a s', m s = Ok (a, s') /\ I s' /\ Q a /\ (clean s' -> clean s).

Section rules.
Context (I : DP -> Prop).

Lemma ok_ret {A} (a : A) (Q : A -> Prop) : Q a -> ok I (mret a) Q.
Proof. intros Ha s Hs. by exists a, s. Qed.

Lemma ok_bind {A B} (m : Rd A) (k : A -> Rd B) Q R : ok I m Q -> (forall a, Q a -> ok I (k a) R) -> ok I (m ≫= k) R.
Proof.
  intros Hm Hk s Hs. destruct (Hm s Hs) as (a & s1 & E & Hs1 & Ha & Hc). destruct (Hk a Ha s1 Hs1) as (b & s2 & E2 & Hs2 & Hb & Hc2).
  exists b, s2. split_and!; [|done..|tauto]. by rewrite (bindM_step _ _ _ _ _ E).
Qed.

Lemma ok_weaken {A} (m : Rd A) (Q R : A -> Prop) : ok I m Q -> (forall a, Q a -> R a) -> ok I m R.
Proof. intros Hm HQ s Hs. destruct (Hm s Hs) as (a & s' & ? & ? & ? & ?). exists a, s'. eauto. Qed.

Lemma ok_get : ok I get I.
Proof. intros s Hs. by exists s, s. Qed.

Lemma ok_modify (f : DP -> DP) : (forall s, I s -> I (f s)) -> (forall s, clean (f s) -> clean s) -> ok I (modify f) (fun _ => True).
Proof. intros Hf Hc s Hs. exists tt, (f s). split_and!; eauto. Qed.

Lemma ok_lift {A} (r : res A) a (Q : A -> Prop) : r = Ok a -> Q a -> ok I (lift r) Q.
Proof. intros -> Ha s Hs. by exists a, s. Qed.

Lemma ok_eachP {A} (f : A -> Rd unit) l : (forall x, x ∈ l -> ok I (f x) (fun _ => True)) -> ok I (eachP f l) (fun _ => True).
Proof.
  induction l as [|x l IH]; intros Hf; cbn [eachP]; [by apply ok_ret|].
  eapply ok_bind; [apply Hf; left|]. intros [] _. apply IH. intros. apply Hf. by right.
Qed.

Lemma ok_foldS {A B} (f : B -> A -> Rd B) (Q : B -> Prop) l b : Q b -> (forall b x, x ∈ l -> Q b -> ok I (f b x) Q) -> ok I (foldS f b l) Q.
Proof.
  revert b. induction l as [|x l IH]; intros b Hb Hf; cbn [foldS]; [by apply ok_ret|].
  eapply ok_bind; [apply Hf; [left|done]|]. intros b' Hb'. apply IH; [done|]. intros. apply Hf; [by right|done].
Qed.

Lemma ok_mapS {A B} (f : A -> Rd B) l : (forall x, x ∈ l -> ok I (f x) (fun _ => True)) -> ok I (mapS f l) (fun _ => True).
Proof.
  induction l as [|x l IH]; intros Hf; cbn [mapS]; [by apply ok_ret|].
  eapply ok_bind; [apply Hf; left|]. intros y _. eapply ok_bind; [apply IH; intros; apply Hf; by right|]. intros ys _. by apply ok_ret.
Qed.
End rules.

Create HintDb ok.

(** Goes through a step: a known step, a binding, a branch. *)
Ltac ok_step :=
  match goal with
  | |- ok _ (mret _) _ => apply ok_ret; try solve [exact Logic.I|done|case_match; exact Logic.I]
  | |- ok _ (eachP _ _) _ => apply ok_eachP; intros
  | |- ok _ (foldS _ _ _) (fun _ => True) => apply ok_foldS; [exact Logic.I|intros ? ? _ _]
  | |- ok _ (mapS _ _) (fun _ => True) => apply ok_mapS; intros
  | |- ok _ (mbind _ _) _ =>
      first [ eapply ok_bind; [solve [eauto with ok]|intros ? ?; cbv beta in *]
            | eapply (ok_bind _ _ _ (fun _ => True)); [|intros ? _] ]
  | |- ok _ (match ?x with _ => _ end) _ => destruct x eqn:?
  | |- ok _ _ _ => solve [eauto with ok | eapply ok_weaken; [eauto with ok|done]]
  end.
Ltac ok := repeat ok_step.

(** ** The invariant of the reader *)

(** A codec names at least one stage. *)
Definition stagedKind (k : ISettingKind) : Prop := match k with ICodec _ stages => stages <> [] | _ => True end.
Definition staged (s : ISetting) : Prop := stagedKind (iset_kind s).
Definition stagedRead (k : option ISettingKind) : Prop := match k with Some k => stagedKind k | None => True end.
Definition stagedBlock (b : option ISettings) : Prop := match b with Some b => Forall staged (isb_entries b) | None => True end.

(** A document of [nt] tables and [nd] diagrams: the settings block is where the
    state says, a block is open if [b] says so, every codec has a stage, and the
    line of a syntax error has its diagnostic. *)
Record Reading (nt nd : nat) (b : bool) (s : DP) : Prop := {
  re_tables : length (idoc_tables (dp_document s)) = nt;
  re_diagrams : length (idoc_diagrams (dp_document s)) = nd;
  re_block : match dp_settingsBlock s with
             | NoBlock => b = false
             | BlockOf ti => exists t, idoc_tables (dp_document s) !! ti = Some t /\ is_Some (it_settings t)
             | Detached _ => True
             end;
  re_staged : Forall (fun t => stagedBlock (it_settings t)) (idoc_tables (dp_document s));
  re_syntax : dp_syntaxLine s <> 0 -> exists d, d ∈ dp_diagnostics s /\ dx_rule d = "syntax" }.

(** A change that leaves the diagnostics, the tables and the blocks alone. *)
Lemma Reading_same nt nd b s s' : Reading nt nd b s ->
  idoc_tables (dp_document s') = idoc_tables (dp_document s) -> length (idoc_diagrams (dp_document s')) = length (idoc_diagrams (dp_document s)) ->
  dp_settingsBlock s' = dp_settingsBlock s -> dp_syntaxLine s' = dp_syntaxLine s -> dp_diagnostics s' = dp_diagnostics s -> Reading nt nd b s'.
Proof. intros [H1 H2 H3 H4 H5] Ht Hd Hb Hs Hx. split; [by rewrite Ht|by rewrite Hd|by rewrite Hb, Ht|by rewrite Ht|by rewrite Hs, Hx]. Qed.

Section reading.
Variables (lines : list (list rune)) (nt nd : nat) (b : bool).
Notation I := (Reading nt nd b).

Lemma ok_same (f : DP -> DP) :
  (forall s, idoc_tables (dp_document (f s)) = idoc_tables (dp_document s) /\ length (idoc_diagrams (dp_document (f s))) = length (idoc_diagrams (dp_document s)) /\
     dp_settingsBlock (f s) = dp_settingsBlock s /\ dp_syntaxLine (f s) = dp_syntaxLine s /\ dp_diagnostics (f s) = dp_diagnostics s) ->
  ok I (modify f) (fun _ => True).
Proof.
  intros Hf. apply ok_modify; intros s; destruct (Hf s) as (? & ? & ? & ? & Hd); [|unfold clean; by rewrite Hd].
  intros Hs. by eapply Reading_same.
Qed.

Lemma ok_push d : ok I (push d) (fun _ => True).
Proof.
  apply ok_modify; intros s; [|unfold clean; cbn; by destruct (dp_diagnostics s)].
  intros [? ? ? ? Hs]. split; [done..|]. intros Hl. destruct (Hs Hl) as (x & ? & ?). exists x. split; [|done]. cbn. rewrite elem_of_app. by left.
Qed.

Lemma ok_push_syntax line index message column :
  ok I (modify (setSyntaxLine line);; push (mkDiagnostic "syntax" index column message)) (fun _ => True).
Proof.
  intros s [? ? ? ? ?]. eexists tt, _. split; [done|]. split_and!; [|done|unfold clean; cbn; by destruct (dp_diagnostics s)].
  split; [done..|]. intros _. eexists. cbn. rewrite elem_of_app, list_elem_of_singleton. split; [by right|done].
Qed.

Lemma ok_abandon line : ok I (modify (abandon line)) (fun _ => True).
Proof. by apply ok_same. Qed.

Lemma ok_report rule line index message : ok I (report lines rule line index message) (fun _ => True).
Proof.
  unfold report. case_decide as E; [subst rule|apply ok_push]. eapply ok_bind; [apply ok_abandon|]. intros _ _.
  eapply ok_bind; [apply ok_get|]. intros p _. destruct (_ =? _); [by apply ok_ret|apply ok_push_syntax].
Qed.

Lemma ok_at rule tok message : ok I (at_ lines rule tok message) (fun _ => True).
Proof. apply ok_report. Qed.

Lemma ok_syntax toks i line message : ok I (syntax lines toks i line message) (fun _ => True).
Proof. unfold syntax. destruct (_ !! _); apply ok_report. Qed.

Lemma ok_unclosed tok message : ok I (unclosed lines tok message) (fun _ => True).
Proof. apply ok_push. Qed.

Lemma ok_stopped : ok I (modify setStopped) (fun _ => True).
Proof. by apply ok_same. Qed.

Lemma ok_stop rule tok message : ok I (stop lines rule tok message) (fun _ => True).
Proof. eapply ok_bind; [apply ok_at|]. intros _ _. apply ok_stopped. Qed.

Lemma ok_mark tok cls : ok I (mark tok cls) (fun _ => True).
Proof.
  unfold mark. destruct tok as [tok|]; [|by apply ok_ret]. eapply ok_bind; [apply ok_get|]. intros p _.
  case_decide; [by apply ok_ret|by apply ok_same].
Qed.

Lemma ok_markValue tok : ok I (markValue tok) (fun _ => True).
Proof. unfold markValue. destruct tok; [case_match|]; first [apply ok_mark|by apply ok_ret]. Qed.

Lemma ok_name tok : ok I (name lines tok) (fun f => f = wellFormed (tk_t tok)).
Proof.
  unfold name. eapply (ok_bind _ _ _ (fun _ => True)); [destruct (wellFormed _); [by apply ok_ret|apply ok_at]|]. intros _ _.
  eapply (ok_bind _ _ _ (fun _ => True)); [destruct (_ <? _); [apply ok_at|by apply ok_ret]|]. intros _ _. by apply ok_ret.
Qed.

Lemma ok_checkName tok : ok I (checkName lines tok) (fun _ => True).
Proof. eapply ok_bind; [apply ok_name|]. intros f _. by apply ok_ret. Qed.

Lemma ok_document : ok I theDocument (fun d => length (idoc_tables d) = nt /\ length (idoc_diagrams d) = nd).
Proof. intros s Hs. exists (dp_document s), s. split; [done|]. split; [done|]. by destruct Hs. Qed.

Lemma ok_setDocument (f : IDocument -> IDocument) :
  (forall d, idoc_tables (f d) = idoc_tables d /\ length (idoc_diagrams (f d)) = length (idoc_diagrams d)) -> ok I (modify (setDocument f)) (fun _ => True).
Proof. intros Hf. apply ok_same. intros s. destruct (Hf (dp_document s)) as [Ht Hd]. cbn. by rewrite Ht, Hd. Qed.

Lemma ok_constraintName tok : ok I (constraintName lines tok) (fun _ => True).
Proof.
  unfold constraintName. eapply ok_bind; [apply ok_name|]. intros f _. destruct f; [|by apply ok_ret].
  eapply ok_bind; [apply ok_document|]. intros d _. case_match; [apply ok_at|by apply ok_setDocument].
Qed.

Lemma ok_theTable ti : (ti < nt)%nat -> ok I (theTable ti) (fun _ => True).
Proof.
  intros Hti s Hs. destruct (lookup_lt_is_Some_2 (idoc_tables (dp_document s)) ti) as [t Ht]; [by rewrite (re_tables _ _ _ _ Hs)|].
  exists t, s. unfold theTable, theDocument, mbind, M_bind, get, mret, M_ret, lift. by rewrite Ht.
Qed.

Lemma alter_settings (f : ITable -> ITable) i (l : list ITable) ti t : (forall t, is_Some (it_settings t) -> is_Some (it_settings (f t))) ->
  l !! ti = Some t -> is_Some (it_settings t) -> exists t', alter f i l !! ti = Some t' /\ is_Some (it_settings t').
Proof.
  intros Hf Ht Hs. destruct (decide (ti = i)) as [->|Hn].
  - exists (f t). rewrite list_lookup_alter_eq, Ht. split; [done|by apply Hf].
  - exists t. by rewrite list_lookup_alter_ne.
Qed.

Lemma ok_onTable ti f : (forall t, is_Some (it_settings t) -> is_Some (it_settings (f t))) ->
  (forall t, stagedBlock (it_settings t) -> stagedBlock (it_settings (f t))) -> ok I (onTable ti f) (fun _ => True).
Proof.
  intros Hf Hg. apply ok_modify; [|done]. intros s [Ht Hd Hb Hc Hs]. split; [cbn; by rewrite length_alter|done| |by apply Forall_alter; [|auto]|done].
  cbn. destruct (dp_settingsBlock s) as [|i|]; [done| |done]. destruct Hb as (t & Hi & Hst). by eapply alter_settings.
Qed.

(** A change of a table that keeps its settings. *)
Lemma ok_onTable_same ti f : (forall t, it_settings (f t) = it_settings t) -> ok I (onTable ti f) (fun _ => True).
Proof. intros Hf. apply ok_onTable; intros t; by rewrite Hf. Qed.

Lemma ok_onDiagram i f : ok I (onDiagram i f) (fun _ => True).
Proof. apply ok_same. intros s. cbn. by rewrite length_alter. Qed.
End reading.

#[export] Hint Extern 5 (forall t, it_settings _ = it_settings t) => reflexivity : ok.
#[export] Hint Resolve ok_report ok_at ok_syntax ok_unclosed ok_stop ok_stopped ok_mark ok_markValue ok_checkName ok_constraintName ok_onTable_same
  ok_onDiagram ok_theTable ok_get ok_push ok_abandon : ok.
#[export] Hint Resolve ok_name ok_document : ok.

(** ** The readers of lines *)

Section readers.
Variables (lines : list (list rune)) (nt nd : nat) (b : bool).
Notation I := (Reading nt nd b).

Lemma ok_listFrom fuel toks i line close words : (length toks - i < fuel)%nat -> ok I (listFrom lines fuel toks i line close words) (fun r => match r with Some (_, j) => (i < j)%nat | None => True end).
Proof.
  revert i words. induction fuel as [|fuel IH]; intros i words Hf; [lia|]. cbn [listFrom]. destruct (wordTk (toks !! i)) as [w|] eqn:Ew; [|by ok].
  assert (i < length toks)%nat by (apply lookup_lt_is_Some_1; by destruct (toks !! i)).
  case_match; [eapply ok_weaken; [apply IH; lia|]; intros [[? ?]|]; [lia|done]|]. case_match; [by apply ok_ret; lia|]. by ok.
Qed.

Lemma ok_list toks i line close : ok I (list_ lines toks i line close) (fun r => match r with Some (_, j) => (i < j)%nat | None => True end).
Proof. apply ok_listFrom. lia. Qed.

Lemma ok_end toks i line : ok I (end_ lines toks i line) (fun _ => True).
Proof. unfold end_. by ok. Qed.

Lemma ok_keyColumnsFrom fuel toks i line directions cols : (length toks - i < fuel)%nat -> ok I (keyColumnsFrom lines fuel toks i line directions cols) (fun _ => True).
Proof.
  revert i cols. induction fuel as [|fuel IH]; intros i cols Hf; [lia|]. cbn [keyColumnsFrom]. destruct (wordTk (toks !! i)) as [w|] eqn:Ew; [|by ok].
  assert (i < length toks)%nat by (apply lookup_lt_is_Some_1; by destruct (toks !! i)).
  ok_step; [by ok|]. ok_step. case_match; [apply IH; case_match; lia|]. by ok.
Qed.

Lemma ok_keyColumns toks i line directions : ok I (keyColumns lines toks i line directions) (fun _ => True).
Proof. unfold keyColumns. ok; by apply ok_keyColumnsFrom; lia. Qed.

Lemma ok_keywordAt toks i word : ok I (keywordAt toks i word) (fun _ => True).
Proof. unfold keywordAt. by ok. Qed.

Hint Resolve ok_list ok_end ok_keyColumns ok_keywordAt : ok.

Lemma ok_use toks line comments : ok I (use lines toks line comments) (fun _ => True).
Proof. unfold use. ok; by apply ok_setDocument. Qed.

(** ** Columns *)

Lemma ok_type tok params : ok I (type lines tok params) (fun _ => True).
Proof. unfold type. by ok. Qed.

Lemma ok_typeParams toks line : ok I (typeParams lines toks line) (fun _ => True).
Proof. unfold typeParams. by ok. Qed.

Lemma ok_defaultValue toks i line : ok I (defaultValue lines toks i line) (fun _ => True).
Proof. unfold defaultValue. by ok. Qed.

Lemma defaultOf_returns t tok : exists r, defaultOf t tok = Ok r.
Proof.
  assert (Hi : forall kind word, kind ∈ ["i16"; "i32"; "i64"] -> exists r, integerDefault kind word = Ok r).
  { intros kind [word|] Hk; unfold integerDefault; [|by eauto]. destruct (isInteger word); [|by eauto].
    assert (exists range, assoc kind INTEGER_RANGES = Some range) as [range ->] by (repeat (apply elem_of_cons in Hk as [->|Hk]; [by eexists|]); by apply elem_of_nil in Hk).
    cbn. destruct (_ || _); eauto. }
  unfold defaultOf. destruct t; try (by apply Hi; repeat constructor); repeat (case_match; try by eauto); by eauto.
Qed.

Lemma ok_defaultOf t tok : ok I (lift (defaultOf t tok)) (fun _ => True).
Proof. destruct (defaultOf_returns t tok) as [r ->]. by eapply ok_lift. Qed.

Hint Resolve ok_type ok_typeParams ok_defaultValue ok_defaultOf : ok.

Lemma ok_identityColumn ti identity type nullTok dflt : (ti < nt)%nat -> ok I (identityColumn lines ti identity type nullTok dflt) (fun _ => True).
Proof. intros Hti. unfold identityColumn. by ok. Qed.

Lemma ok_columnDefault dflt valueTok type : ok I (columnDefault lines dflt valueTok type) (fun _ => True).
Proof. unfold columnDefault. by ok. Qed.

Hint Resolve ok_identityColumn ok_columnDefault : ok.

Lemma ok_columnBody ti toks i line comments nameTok typeTok params : (ti < nt)%nat ->
  ok I (columnBody lines ti toks i line comments nameTok typeTok params) (fun _ => True).
Proof. intros Hti. unfold columnBody. by ok. Qed.

Lemma ok_countColumn : ok I (modify countColumn) (fun _ => True).
Proof. by apply ok_same. Qed.

Lemma ok_first {A} (l : list A) x rest what : l = x :: rest -> ok I (lift (present (l !! 0%nat) what)) (fun y => y = x).
Proof. intros ->. by eapply ok_lift. Qed.

Hint Resolve ok_columnBody ok_countColumn ok_first : ok.

Lemma ok_column ti first rest line comments : (ti < nt)%nat -> ok I (column lines ti (first :: rest) line comments) (fun _ => True).
Proof. intros Hti. unfold column. by ok. Qed.

Lemma ok_failColumnLine ti first : ok I (failColumnLine ti first) (fun _ => True).
Proof. unfold failColumnLine. by ok. Qed.

(** ** Keys, foreign keys and checks *)

Lemma ok_actionClause toks i line event : ok I (actionClause lines toks i line event) (fun _ => True).
Proof. unfold actionClause. by ok. Qed.

Lemma ok_checkAction action : ok I (checkAction lines action) (fun _ => True).
Proof. unfold checkAction. by ok. Qed.

Lemma ok_countForeignKey : ok I (modify countForeignKey) (fun _ => True).
Proof. by apply ok_same. Qed.

Hint Resolve ok_column ok_failColumnLine ok_actionClause ok_checkAction ok_countForeignKey : ok.

Lemma ok_foreignKeyEnd ti kw name_ cols target refs onDelete onUpdate comments :
  ok I (foreignKeyEnd lines ti kw name_ cols target refs onDelete onUpdate comments) (fun _ => True).
Proof. unfold foreignKeyEnd. by ok. Qed.

Hint Resolve ok_foreignKeyEnd : ok.

Lemma ok_foreignKeyLine ti first rest line comments : ok I (foreignKeyLine lines ti (first :: rest) line comments) (fun _ => True).
Proof. unfold foreignKeyLine. by ok. Qed.

Lemma ok_keyLine ti kw toks line comments : ok I (keyLine lines ti kw toks line comments) (fun _ => True).
Proof. unfold keyLine. ok. case_match; by apply ok_onTable_same. Qed.

Lemma ok_primaryLine ti kw toks line comments : ok I (primaryLine lines ti kw toks line comments) (fun _ => True).
Proof. unfold primaryLine. by ok. Qed.

Lemma ok_checkLine ti first rest line comments : ok I (checkLine lines ti (first :: rest) line comments) (fun _ => True).
Proof.
  unfold checkLine. assert (exists t, last (first :: rest) = Some t) as [t Ht] by (rewrite last_cons; destruct (last rest); eauto).
  rewrite Ht. ok. by eapply ok_lift.
Qed.

Hint Resolve ok_foreignKeyLine ok_keyLine ok_primaryLine ok_checkLine : ok.

Lemma ok_constraint ti first rest line comments : (ti < nt)%nat -> ok I (constraint lines ti (first :: rest) line comments) (fun _ => True).
Proof. intros Hti. unfold constraint. by ok. Qed.

(** ** Settings *)

Lemma ok_wordsRead toks line from count : ok I (words lines toks line from count) (fun _ => True).
Proof. unfold words. by ok. Qed.

Lemma ok_settingWord toks i line what : ok I (settingWord lines toks i line what) (fun _ => True).
Proof. unfold settingWord. by ok. Qed.

Lemma ok_keywordOf toks i line choices message : ok I (keywordOf lines toks i line choices message) (fun _ => True).
Proof. unfold keywordOf. by ok. Qed.

Hint Resolve ok_constraint ok_wordsRead ok_settingWord ok_keywordOf : ok.

Lemma ok_shardClause toks i line : ok I (shardClause lines toks i line) (fun _ => True).
Proof. unfold shardClause. by ok. Qed.

Hint Resolve ok_shardClause : ok.

Lemma ok_storeLine toks line : ok I (storeLine lines toks line) stagedRead.
Proof. unfold storeLine. by ok. Qed.

Lemma ok_requireList toks i line : ok I (requireList lines toks i line) (fun _ => True).
Proof. unfold requireList. by ok. Qed.

Lemma ok_machineEnd toks i line form : ok I (machineEnd lines toks i line form) (fun _ => True).
Proof. unfold machineEnd. by ok. Qed.

Lemma ok_historyPart toks i line word what : ok I (historyPart lines toks i line word what) (fun _ => True).
Proof. unfold historyPart. by ok. Qed.

Hint Resolve ok_storeLine ok_requireList ok_machineEnd ok_historyPart : ok.

Lemma ok_historyForm toks i line : ok I (historyForm lines toks i line) (fun _ => True).
Proof. unfold historyForm. by ok. Qed.

Lemma ok_limitForm toks i line : ok I (limitForm lines toks i line) (fun _ => True).
Proof. unfold limitForm, limitCount. by ok. Qed.

Lemma ok_transitionForm toks i line : ok I (transitionForm lines toks i line) (fun _ => True).
Proof. unfold transitionForm. by ok. Qed.

Lemma ok_stateForm toks i line terminal : ok I (stateForm lines toks i line terminal) (fun _ => True).
Proof. unfold stateForm. by ok. Qed.

Hint Resolve ok_historyForm ok_limitForm ok_transitionForm ok_stateForm : ok.

Lemma ok_stateMachineLine toks line : ok I (stateMachineLine lines toks line) stagedRead.
Proof. unfold stateMachineLine. ok. by match goal with |- context [_ <$> ?x] => destruct x end. Qed.

Lemma ok_auditParts toks i line labels parts :
  ok I (auditParts lines toks i line labels parts) (fun r => match r with Some (l, _) => length l = (length parts + length labels)%nat | None => True end).
Proof.
  revert i parts. induction labels as [|label labels IH]; intros i parts; cbn [auditParts length]; [apply ok_ret; lia|].
  ok. eapply ok_weaken; [apply IH|]. intros [[l j]|]; [|done]. rewrite length_app. cbn. lia.
Qed.

Lemma ok_tablesParts toks i line wants names :
  ok I (tablesParts lines toks i line wants names)
    (fun r => match r with Some l => length l = (length names + length (filter (fun w : option string => w = None) wants))%nat | None => True end).
Proof.
  revert i names. induction wants as [|[want|] wants IH]; intros i names; cbn [tablesParts]; [apply ok_ret; cbn; lia| |].
  - by ok.
  - ok. eapply ok_weaken; [apply IH|]. intros [l|]; [|done]. rewrite filter_cons_True by done. rewrite length_app. cbn. lia.
Qed.

Lemma ok_tablesClause toks i line : ok I (tablesClause lines toks i line) (fun r => match r with Some (_, j) => (i <= j)%nat | None => True end).
Proof.
  unfold tablesClause. destruct (negb _); [apply ok_ret; lia|]. ok_step.
  eapply ok_bind; [apply ok_tablesParts|]. intros [l|] Hl; [|by apply ok_ret]. cbn in Hl. destruct l as [|x [|y [|z [|? ?]]]]; try discriminate. apply ok_ret. lia.
Qed.

Lemma ok_auditListsFrom fuel toks i line lists : (length toks - i < fuel)%nat -> ok I (auditListsFrom lines fuel toks i line lists) (fun _ => True).
Proof.
  revert i lists. induction fuel as [|fuel IH]; intros i lists Hf; [lia|]. cbn [auditListsFrom]. destruct (wordTk (toks !! i)) as [w|] eqn:Ew; [|by ok].
  assert (i < length toks)%nat by (apply lookup_lt_is_Some_1; by destruct (toks !! i)).
  destruct (includes _ _); [|by ok]. destruct (negb _); [by ok|]. eapply ok_bind; [apply ok_list|]. intros [[l j]|] Hj; [|by ok].
  ok. apply IH. lia.
Qed.

Lemma ok_auditSetting toks line : ok I (auditSetting lines toks line) stagedRead.
Proof.
  unfold auditSetting. eapply ok_bind; [apply ok_auditParts|]. intros [[l j]|] Hl; [|by ok]. cbn in Hl.
  eapply ok_bind; [apply ok_tablesClause|]. intros [[t k]|] Hk; [|by ok]. eapply ok_bind; [apply ok_auditListsFrom; lia|]. intros [[ls n]|] _; [|by ok].
  destruct l as [|x1 [|x2 [|x3 [|x4 [|x5 [|? ?]]]]]]; try discriminate. by ok.
Qed.

Hint Resolve ok_stateMachineLine ok_auditSetting : ok.

Lemma ok_codecSetting toks line : ok I (codecSetting lines toks line) stagedRead.
Proof. unfold codecSetting, markedName. by ok. Qed.

Lemma ok_namesSetting toks line count make : (forall l, stagedRead (make l)) -> ok I (namesSetting lines toks line count make) stagedRead.
Proof. intros Hm. unfold namesSetting, markedName. by ok. Qed.

Lemma ok_selectSetting toks line : ok I (selectSetting lines toks line) stagedRead.
Proof. unfold selectSetting, markedName. by ok. Qed.

Lemma ok_oneWord toks line checked make : (forall w, stagedKind (make w)) -> ok I (oneWord lines toks line checked make) stagedRead.
Proof. intros Hm. unfold oneWord. ok. by apply Hm. Qed.

Lemma ok_keyPrefixSetting toks line : ok I (keyPrefixSetting lines toks line) stagedRead.
Proof. unfold keyPrefixSetting. by ok. Qed.

Lemma ok_checkboxSetting toks line : ok I (checkboxSetting lines toks line) stagedRead.
Proof. unfold checkboxSetting. by ok. Qed.

Hint Extern 5 (forall w, stagedKind _) => intros; exact Logic.I : ok.
Hint Extern 5 (forall l, stagedRead _) => intros; repeat case_match; exact Logic.I : ok.
Hint Resolve ok_codecSetting ok_namesSetting ok_selectSetting ok_oneWord ok_keyPrefixSetting ok_checkboxSetting : ok.

Lemma ok_settingKind kw toks line : ok I (settingKind lines kw toks line) stagedRead.
Proof. unfold settingKind. by ok. Qed.

(** ** Placements *)

Lemma ok_coordinate toks i line : ok I (coordinate lines toks i line) (fun _ => True).
Proof. unfold coordinate. by ok. Qed.

Lemma ok_coordinateValue c : ok I (coordinateValue lines c) (fun _ => True).
Proof. unfold coordinateValue. by ok. Qed.

Hint Resolve ok_settingKind ok_coordinate ok_coordinateValue : ok.

Lemma ok_placement di first rest line comments : ok I (placement lines di (first :: rest) line comments) (fun _ => True).
Proof. unfold placement. by ok. Qed.
End readers.
