(* ===== verification/ParseTotal.v ===== *)
(** * The lines of a document are read without an error ([dbspec/parse.ts])

    The loop of [parse] keeps the place of its block valid, so no reader fails
    on a missing table or block, and [parse] returns for every text. *)

From S2P Require Import Prelude Documents Emit Check Decimal Unicode Lexer LexerFacts Literals ParseState Reader ParseOk.
From Stdlib Require Import Lia.

(** ** Steps that change the invariant *)

Definition okt {A} (I J : DP -> Prop) (m : Rd A) (Q : A -> Prop) : Prop := forall s, I s ->
  exists a s', m s = Ok (a, s') /\ J s' /\ Q a /\ (clean s' -> clean s).

Lemma okt_of {A} I (m : Rd A) Q : ok I m Q -> okt I I m Q.
Proof. done. Qed.

Lemma okt_bind {A B} I J K (m : Rd A) (k : A -> Rd B) Q R : okt I J m Q -> (forall a, Q a -> okt J K (k a) R) -> okt I K (m ≫= k) R.
Proof.
  intros Hm Hk s Hs. destruct (Hm s Hs) as (a & s1 & E & Hs1 & Ha & Hc). destruct (Hk a Ha s1 Hs1) as (b & s2 & E2 & Hs2 & Hb & Hc2).
  exists b, s2. split_and!; [|done..|tauto]. by rewrite (bindM_step _ _ _ _ _ E).
Qed.

Lemma okt_weaken {A} I I' J J' (m : Rd A) (Q R : A -> Prop) : okt I J m Q -> (forall s, I' s -> I s) -> (forall s, J s -> J' s) -> (forall a, Q a -> R a) -> okt I' J' m R.
Proof. intros Hm HI HJ HQ s Hs. destruct (Hm s (HI s Hs)) as (a & s' & ? & ? & ? & ?). exists a, s'. split_and!; auto. Qed.

Lemma Reading_closed nt nd b s : Reading nt nd b s -> Reading nt nd false s.
Proof. intros [? ? Hb ? ?]. split; [done..| |done|done]. destruct (dp_settingsBlock s); done. Qed.

Section lines.
Variables (lines : list (list rune)) (nt nd : nat).

(** ** Settings blocks *)

Lemma openSettingsBlock_okt b ti block : (ti < nt)%nat -> isb_entries block = [] -> okt (Reading nt nd b) (Reading nt nd true) (openSettingsBlock ti block) (fun _ => True).
Proof.
  intros Hti Hb s Hs. destruct (lookup_lt_is_Some_2 (idoc_tables (dp_document s)) ti) as [t Ht]; [by rewrite (re_tables _ _ _ _ Hs)|].
  unfold openSettingsBlock, theTable, theDocument, mbind, M_bind, get, mret, M_ret, lift, present. rewrite Ht. destruct Hs as [H1 H2 H3 H4 H5].
  destruct (it_settings t) eqn:E; eexists tt, _; (split; [done|]); (split; [|done]).
  - by split.
  - split; [cbn; by rewrite length_alter|done| | |done].
    + cbn. rewrite list_lookup_alter_eq, Ht. eexists. split; [done|]. by eexists.
    + cbn. apply Forall_alter; [done|]. intros x _ _. cbn. rewrite Hb. constructor.
Qed.

Lemma onBlock_ok f : (forall b, Forall staged (isb_entries b) -> Forall staged (isb_entries (f b))) -> ok (Reading nt nd true) (onBlock f) (fun _ => True).
Proof.
  intros Hf s Hs. pose proof Hs as [H1 H2 H3 H4 H5]. unfold onBlock, mbind, M_bind, get. destruct (dp_settingsBlock s) as [|ti|blk] eqn:E; [done| |].
  - apply (ok_onTable nt nd true ti (setSettings (fmap f))); [| |done]; intros t; cbn; [intros [x ->]; by eexists|]. destruct (it_settings t); [|done]. apply Hf.
  - eexists tt, _. split; [done|]. split; [|done]. by split.
Qed.

Lemma addEntry_ok s : staged s -> ok (Reading nt nd true) (onBlock (addEntry s)) (fun _ => True).
Proof. intros Hs. apply onBlock_ok. intros b Hb. apply Forall_app. by repeat constructor. Qed.

#[local] Hint Resolve addEntry_ok ok_settingKind ok_constraint ok_column ok_failColumnLine ok_placement ok_use : ok.

Lemma ok_setting first rest line comments lexed : ok (Reading nt nd true) (setting lines (first :: rest) line comments lexed) (fun _ => True).
Proof. unfold setting. destruct lexed; [by ok|]. eapply ok_bind; [by eapply ok_first|]. intros ? ->. case_decide; [by ok|]. by ok. Qed.

Variable b : bool.

Lemma ok_closeEnd toks line : ok (Reading nt nd b) (closeEnd lines toks line) (fun _ => True).
Proof. unfold closeEnd. by ok. Qed.

Lemma isAbandoned_ok line : ok (Reading nt nd b) (isAbandoned line) (fun _ => True).
Proof. unfold isAbandoned. by ok. Qed.

(** ** Lines of a table *)

(** Reporting a column line with a syntax error keeps that error. *)
Lemma keepSyntax_ok line m : line <> 0 -> forall s, Reading nt nd b s -> dp_syntaxLine s = line ->
  exists s', keepSyntaxSince m s = Ok (tt, s') /\ Reading nt nd b s' /\ ~ clean s'.
Proof.
  intros Hl s [H1 H2 H3 H4 H5] Hs. eexists. split; [done|]. destruct (H5 ltac:(congruence)) as (d & Hd & Hr).
  assert (Hin : d ∈ take m (dp_diagnostics s) ++ filter (fun d => dx_rule d = "syntax") (drop m (dp_diagnostics s))).
  { rewrite <- (take_drop m (dp_diagnostics s)) in Hd. rewrite elem_of_app in *. destruct Hd as [Hd|Hd]; [by left|]. right. by apply list_elem_of_filter. }
  split; [|unfold clean; cbn; intros E; rewrite E in Hin; by apply elem_of_nil in Hin]. split; [done..|]. intros _. by exists d.
Qed.

Lemma ok_columnLineOf ti first rest line own : (ti < nt)%nat -> line <> 0 -> ok (Reading nt nd b) (columnLineOf lines ti first (first :: rest) line own) (fun _ => True).
Proof.
  intros Hti Hl s Hs. unfold columnLineOf. destruct (ok_column lines nt nd b ti first rest line own Hti s Hs) as ([] & s1 & E1 & Hs1 & _ & Hc1).
  cbn beta. rewrite (bindM_step get _ s s s eq_refl). rewrite (bindM_step _ _ _ _ _ E1). rewrite (bindM_step get _ s1 s1 s1 eq_refl).
  destruct (Z.eqb_spec (dp_syntaxLine s1) line) as [El|_].
  - destruct (keepSyntax_ok line (length (dp_diagnostics s)) Hl s1 Hs1 El) as (s2 & E2 & Hs2 & Hn). rewrite (bindM_step _ _ _ _ _ E2).
    destruct (ok_failColumnLine nt nd b ti first s2 Hs2) as ([] & s3 & E3 & Hs3 & _ & Hc3). exists tt, s3. split_and!; [done..|tauto].
  - assert (Hok : ok (Reading nt nd b) (t ← theTable ti; if (0 <? it_phase t) && negb (dp_stopped s1) then
      at_ lines "order" first "columns come before keys, indexes, foreign keys, checks and settings" else mret tt) (fun _ => True)) by ok.
    destruct (Hok s1 Hs1) as ([] & s2 & E2 & Hs2 & _ & Hc2). exists tt, s2. split_and!; [done..|tauto].
Qed.

Lemma settingsHeader_okt ti first toks line own : (ti < nt)%nat -> okt (Reading nt nd b) (Reading nt nd true) (settingsHeader lines ti first toks line own) (fun _ => True).
Proof.
  intros Hti. unfold settingsHeader. eapply okt_bind; [apply okt_of, ok_mark|]. intros _ _. eapply okt_bind; [by apply okt_of, ok_theTable|]. intros t _.
  eapply (okt_bind _ _ _ _ _ (fun _ => True)); [apply okt_of; by ok|]. intros _ _. eapply okt_bind; [by apply openSettingsBlock_okt|]. intros _ _. apply okt_of. by ok.
Qed.

(** The state behind a table line that did not lex. *)
Lemma lexedTableLine_okt ti first rest comments : (ti < nt)%nat -> forall s, Reading nt nd b s ->
  exists st s', lexedTableLine ti (first :: rest) comments s = Ok (st, s') /\ (clean s' -> clean s) /\
    ((st = SSettings /\ Reading nt nd true s') \/ (st = STable /\ Reading nt nd b s')).
Proof.
  intros Hti s Hs. unfold lexedTableLine. rewrite (bindM_step _ _ s first s) by done. case_match.
  - assert (Hok : okt (Reading nt nd b) (Reading nt nd true) (openSettingsBlock ti (mkISettings (if isPunct ((first :: rest) !! 1%nat) "{" then default first ((first :: rest) !! 1%nat) else first) [] comments []);;
      onTable ti (setPhase 2);; mret SSettings) (fun st => st = SSettings)).
    { eapply okt_bind; [by apply openSettingsBlock_okt|]. intros _ _. apply okt_of. by ok. }
    destruct (Hok s Hs) as (st & s' & E & Hs' & -> & Hc). eauto 8.
  - assert (Hok : ok (Reading nt nd b) (if decide (tk_k first = KWord /\ tk_t first ∈ CONSTRAINT_WORDS) then
        (if decide (tk_t first = "primary") then onTable ti failPrimary
         else if decide (tk_t first = "unique" \/ tk_t first = "index") then onTable ti failKey
         else if decide (tk_t first = "foreign") then match wordTk ((first :: rest) !! 2%nat) with Some w => onTable ti (failName (tk_t w)) | None => mret tt end
         else mret tt);; mret STable
      else failColumnLine ti first;; mret STable) (fun st => st = STable)) by ok.
    destruct (Hok s Hs) as (st & s' & E & Hs' & -> & Hc). eauto 8.
Qed.
End lines.

(** ** The loop *)

Section loop.
Variable lines : list (list rune).

(** The block of the loop is at a place of the document. *)
Definition placed (nt nd : nat) (b : bool) (s : Loop) : Prop :=
  match lp_state s with
  | STop => True
  | STable => (lp_table s < nt)%nat
  | SSettings => (lp_table s < nt)%nat /\ b = true
  | SDiagram => (lp_diagram s < nd)%nat
  end.

Definition LoopOk (s : Loop) (p : DP) : Prop := exists nt nd b, Reading nt nd b p /\ (dp_stopped p = false -> placed nt nd b s).

(** A step of the loop from a state where its block is placed. *)
Definition turn (I : DP -> Prop) (m : Rd Loop) : Prop := forall p, I p -> exists s p', m p = Ok (s, p') /\ LoopOk s p' /\ (clean p' -> clean p).

Lemma turn_bind {A} I J (m : Rd A) k Q : okt I J m Q -> (forall a, Q a -> turn J (k a)) -> turn I (m ≫= k).
Proof.
  intros Hm Hk p Hp. destruct (Hm p Hp) as (a & p1 & E & Hp1 & Ha & Hc). destruct (Hk a Ha p1 Hp1) as (s & p2 & E2 & Hl & Hc2).
  exists s, p2. split_and!; [|done|tauto]. by rewrite (bindM_step _ _ _ _ _ E).
Qed.

Lemma turn_ret nt nd b s : placed nt nd b s -> turn (Reading nt nd b) (mret s).
Proof. intros Hs p Hp. exists s, p. split_and!; [done| |done]. by exists nt, nd, b. Qed.

Lemma addTable_okt nt nd b t : it_settings t = None -> okt (Reading nt nd b) (Reading (S nt) nd b) (modify (setDocument (setTables (fun l => l ++ [t])))) (fun _ => True).
Proof.
  intros Ht s [H1 H2 H3 H4 H5]. eexists tt, _. split; [done|]. split; [|done].
  split; [cbn; rewrite length_app; cbn; lia|done| |apply Forall_app; split; [done|by repeat constructor; rewrite Ht]|done]. cbn.
  destruct (dp_settingsBlock s) as [|ti|]; [done| |done]. destruct H3 as (x & Hx & ?). exists x. split; [|done]. by apply lookup_app_l_Some.
Qed.

Lemma addDiagram_okt nt nd b g : okt (Reading nt nd b) (Reading nt (S nd) b) (modify (setDocument (setDiagrams (fun l => l ++ [g])))) (fun _ => True).
Proof. intros s [H1 H2 H3 H4 H5]. eexists tt, _. split; [done|]. split; [|done]. split; [done|cbn; rewrite length_app; cbn; lia|done..]. Qed.

(** A table line opens the next table, or stops. *)
Lemma tableHeader_ok nt nd b first rest line comments : forall p, Reading nt nd b p ->
  exists i p', tableHeader lines (first :: rest) line comments p = Ok (i, p') /\ (clean p' -> clean p) /\
    ((i = nt /\ Reading (S nt) nd b p') \/ (dp_stopped p' = true /\ Reading nt nd b p')).
Proof.
  intros p Hp. unfold tableHeader. rewrite (bindM_step _ _ p first p) by done. cbv zeta. rewrite (bindM_step _ _ p (dp_document p) p) by done.
  rewrite (re_tables _ _ _ _ Hp). destruct (MAX_TABLES <=? nt)%nat.
  - destruct (ok_at lines nt nd b "limit" first (str ["a document has at most "; pretty (Z.of_nat MAX_TABLES); " tables"]) p Hp) as ([] & p1 & E1 & Hp1 & _ & Hc1).
    exists nt, (setStopped p1). split_and!; [|done|right; split; [done|by eapply Reading_same]].
    unfold stop, mbind, M_bind. by rewrite E1.
  - match goal with |- exists _ _, ?m p = _ /\ _ => assert (Hok : okt (Reading nt nd b) (Reading (S nt) nd b) m (fun i => i = nt)) end.
    { eapply okt_bind; [by apply addTable_okt|]. intros _ _. pose proof ok_end. eapply (okt_bind _ _ _ _ _ (fun _ => True)); [apply okt_of; by ok|].
      intros _ _. apply okt_of. by ok. }
    destruct (Hok p Hp) as (i & p' & E & Hp' & -> & Hc). exists nt, p'. split_and!; [done|done|by left].
Qed.

Lemma diagramHeader_okt nt nd b first rest line comments :
  okt (Reading nt nd b) (Reading nt (S nd) b) (diagramHeader lines (first :: rest) line comments) (fun i => i = nd).
Proof.
  intros p Hp. unfold diagramHeader. rewrite (bindM_step _ _ p first p) by done. cbv zeta. rewrite (bindM_step _ _ p (dp_document p) p) by done.
  rewrite (re_diagrams _ _ _ _ Hp).
  match goal with |- exists _ _, ?m p = _ /\ _ => assert (Hok : okt (Reading nt nd b) (Reading nt (S nd) b) m (fun i => i = nd)) end; [|by apply Hok].
  eapply okt_bind; [apply addDiagram_okt|]. intros _ _. pose proof ok_end. eapply (okt_bind _ _ _ _ _ (fun _ => True)); [apply okt_of; by ok|].
  intros _ _. apply okt_of. by ok.
Qed.

#[local] Hint Resolve ok_use ok_closeEnd isAbandoned_ok onBlock_ok ok_constraint ok_columnLineOf ok_setting ok_placement : ok.

Lemma topLine_turn nt nd b s first rest line own : lp_state s = STop -> turn (Reading nt nd b) (topLine lines s first (first :: rest) line own).
Proof.
  intros Es. unfold topLine. destruct (isWord (Some first) "use"); [|destruct (isWord (Some first) "table"); [|destruct (isWord (Some first) "diagram")]].
  - eapply turn_bind; [apply okt_of, ok_mark|]. intros _ _. cbv zeta. eapply (turn_bind _ _ _ _ (fun _ => True)); [apply okt_of; by ok|]. intros _ _.
    eapply turn_bind; [apply okt_of, ok_use|]. intros _ _. by apply turn_ret.
  - eapply turn_bind; [apply okt_of, ok_mark|]. intros _ _. cbv zeta. eapply (turn_bind _ _ _ _ (fun _ => True)); [apply okt_of; by ok|]. intros _ _ p Hp.
    destruct (tableHeader_ok nt nd b first rest line own p Hp) as (i & p1 & E & Hc & Hi). rewrite (bindM_step _ _ _ _ _ E).
    unfold isAbandoned. eexists _, p1. split; [done|]. split; [|done]. destruct Hi as [[-> Hi]|[Hs Hi]].
    + exists (S nt), nd, b. split; [done|]. intros _. unfold placed. cbn. lia.
    + exists nt, nd, b. split; [done|]. by rewrite Hs.
  - eapply turn_bind; [apply okt_of, ok_mark|]. intros _ _. eapply turn_bind; [apply diagramHeader_okt|]. intros i ->.
    eapply turn_bind; [apply okt_of, isAbandoned_ok|]. intros l _. apply turn_ret. unfold placed. cbn. lia.
  - eapply turn_bind; [apply okt_of, ok_at|]. intros _ _. apply turn_ret. unfold placed, setComments. cbn. by rewrite Es.
Qed.

Lemma tableLine_turn nt nd b s first rest line own failed : (lp_table s < nt)%nat -> line <> 0 ->
  turn (Reading nt nd b) (tableLine lines s first (first :: rest) line own failed).
Proof.
  intros Hti Hl. unfold tableLine. cbv zeta. destruct (isPunct (Some first) "}"); [|destruct failed; [|destruct (isWord (Some first) "settings"); [|case_decide]]].
  - eapply turn_bind; [apply okt_of, ok_closeEnd|]. intros _ _. eapply turn_bind; [apply okt_of; by apply ok_onTable_same|]. intros _ _. by apply turn_ret.
  - intros p Hp. destruct (lexedTableLine_okt nt nd b (lp_table s) first rest own Hti p Hp) as (st & p1 & E & Hc & Hst). rewrite (bindM_step _ _ _ _ _ E).
    unfold isAbandoned. eexists _, p1. split; [done|]. split; [|done]. destruct Hst as [[-> Hst]|[-> Hst]]; eexists nt, nd, _; (split; [exact Hst|]); intros _; unfold placed; cbn; auto.
  - eapply turn_bind; [by apply settingsHeader_okt|]. intros _ _. eapply turn_bind; [apply okt_of, isAbandoned_ok|]. intros l _. apply turn_ret. unfold placed. cbn. auto.
  - eapply turn_bind; [apply okt_of; by apply ok_theTable|]. intros t _. eapply (turn_bind _ _ _ _ (fun _ => True)); [apply okt_of; by ok|]. intros _ _.
    eapply turn_bind; [apply okt_of; by apply ok_constraint|]. intros _ _. by apply turn_ret.
  - eapply turn_bind; [apply okt_of; by apply ok_columnLineOf|]. intros _ _. by apply turn_ret.
Qed.

Lemma settingsLine_turn nt nd s first rest line own failed : (lp_table s < nt)%nat ->
  turn (Reading nt nd true) (settingsLine lines s first (first :: rest) line own failed).
Proof.
  intros Hti. unfold settingsLine. cbv zeta. destruct (isPunct (Some first) "}").
  - eapply turn_bind; [apply okt_of, ok_closeEnd|]. intros _ _. eapply turn_bind; [by apply okt_of, onBlock_ok|]. intros _ _. by apply turn_ret.
  - eapply turn_bind; [apply okt_of, ok_setting|]. intros _ _. apply turn_ret. unfold placed. cbn. auto.
Qed.

Lemma diagramLine_turn nt nd b s first rest line own failed : lp_state s = SDiagram -> (lp_diagram s < nd)%nat ->
  turn (Reading nt nd b) (diagramLine lines s first (first :: rest) line own failed).
Proof.
  intros Es Hd. unfold diagramLine. destruct (isPunct (Some first) "}").
  - eapply turn_bind; [apply okt_of, ok_closeEnd|]. intros _ _. eapply turn_bind; [apply okt_of, ok_onDiagram|]. intros _ _. by apply turn_ret.
  - eapply (turn_bind _ _ _ _ (fun _ => True)); [apply okt_of; by ok|]. intros _ _. apply turn_ret. unfold placed, setComments. cbn. by rewrite Es.
Qed.

Lemma ok_addLexical nt nd b line : ok (Reading nt nd b) (modify (addLexical line)) (fun _ => True).
Proof. by apply ok_same. Qed.

Lemma placed_comments nt nd b l s : placed nt nd b s -> placed nt nd b (setComments l s).
Proof. done. Qed.

(** The tokens of a line go to the block that is open. *)
Definition dispatch (s : Loop) (toks : list Tk) (line : Z) (own : list string) (failed : bool) : Rd Loop :=
  match toks with
  | [] => mret (setComments [] s)
  | first :: _ =>
      match lp_state s with
      | STop => topLine lines s first toks line own
      | STable => tableLine lines s first toks line own failed
      | SSettings => settingsLine lines s first toks line own failed
      | SDiagram => diagramLine lines s first toks line own failed
      end
  end.

Lemma dispatch_turn nt nd b s toks line own failed : placed nt nd b s -> line <> 0 -> turn (Reading nt nd b) (dispatch s toks line own failed).
Proof.
  intros Hs Hl. destruct toks as [|first rest]; [by apply turn_ret, placed_comments|]. unfold placed in Hs. cbn [dispatch]. destruct (lp_state s) eqn:Es.
  - by apply topLine_turn.
  - by apply tableLine_turn.
  - destruct Hs as [Hs ->]. by apply settingsLine_turn.
  - by apply diagramLine_turn.
Qed.

(** Every line is read from a state whose block is placed. *)
Lemma readLine_turn nt nd b s text line : placed nt nd b s -> line <> 0 -> turn (Reading nt nd b) (readLine lines s text line).
Proof.
  intros Hs Hl. unfold readLine. eapply (turn_bind _ _ _ _ (fun _ => True)); [apply okt_of; pose proof ok_addLexical; by ok|]. intros _ _.
  destruct (dropBlanks text) as [|r front]; [by apply turn_ret|]. destruct (ru_cp r =? 35); [by apply turn_ret, placed_comments|]. cbv zeta.
  eapply (turn_bind _ _ _ _ (fun _ => True)); [apply okt_of; destruct (lx_error _) as [[? ?]|]; by ok|]. intros _ _. by apply dispatch_turn.
Qed.

Lemma readLines_loop rest : forall s line p, LoopOk s p -> 0 < line ->
  exists s' p', readLines lines s rest line p = Ok (s', p') /\ LoopOk s' p' /\ (clean p' -> clean p).
Proof.
  induction rest as [|text rest IH]; intros s line p Hs Hl; cbn [readLines]; [by exists s, p|]. rewrite (bindM_step get _ p p p eq_refl).
  destruct (dp_stopped p) eqn:Ep; [by exists s, p|]. destruct Hs as (nt & nd & b & Hp & Hpl). specialize (Hpl Ep).
  destruct (readLine_turn nt nd b s text line Hpl ltac:(lia) p Hp) as (s1 & p1 & E1 & Hs1 & Hc1).
  destruct (IH s1 (line + 1) p1 Hs1 ltac:(lia)) as (s2 & p2 & E2 & Hs2 & Hc2). exists s2, p2. split_and!; [|done|tauto]. by rewrite (bindM_step _ _ _ _ _ E1).
Qed.
End loop.

(** ** The header *)

Section header.
Variable lines : list (list rune).

Lemma departs_None (prefix text : list rune) i : departs prefix text i = None -> exists rest, text = prefix ++ rest.
Proof.
  revert text i. induction prefix as [|p prefix IH]; intros text i; [by exists text|]. destruct text as [|t text]; [done|]. cbn [departs]. case_decide as E; [|done].
  intros H. destruct (IH _ _ H) as [rest ->]. exists rest. by rewrite E.
Qed.

Lemma countWhile_all p l : (length l <= countWhile p l)%nat -> Forall (fun r => p r = true) l.
Proof. induction l as [|r l IH]; simpl; [constructor|]. destruct (p r) eqn:E; [|lia]. constructor; [done|apply IH; lia]. Qed.

(** The characters of a header name are word characters. *)
Lemma headerChar_word r : headerChar r = true -> isWordRune (ru_cp r) = true.
Proof.
  unfold headerChar, isWordRune. rewrite containsWordRune_scan. unfold WORD_RANGES. cbn [existsb]. unfold inRange at 1 2 3. cbn [fst snd].
  intros H. repeat (apply orb_true_iff in H as [H|H]); rewrite H, ?orb_true_r; done.
Qed.

(** A word in front of a line is its token. *)
Lemma lexFrom_word fuel line i r w rest : Forall (fun r => isWordRune (ru_cp r) = true) (r :: w) -> match rest with [] => True | r :: _ => isWordRune (ru_cp r) = false end ->
  lexFrom (S fuel) line i (r :: w ++ rest) =
    let n := unitsOf (r :: w) in let tail := lexFrom fuel line (i + n) rest in mkLexed (mkTk KWord (textOf (r :: w)) i (i + n) line :: lx_toks tail) (lx_error tail).
Proof.
  intros [Hr Hw]%Forall_cons Hrest. cbn [lexFrom]. rewrite word_front by done. by rewrite wordRunes_all.
Qed.

Lemma lexFrom_blank fuel line i r l : ru_cp r = 32 -> lexFrom (S fuel) line i (r :: l) = lexFrom fuel line (i + 1) l.
Proof. intros Hr. cbn [lexFrom]. unfold frontOf. by rewrite Hr. Qed.

(** A header line has the two words of the prefix and its name. *)
Lemma header_tokens r rest : Forall (fun r => headerChar r = true) (r :: rest) ->
  lexLine (headerPrefix ++ r :: rest) 1 =
    mkLexed [mkTk KWord "dbspec" 0 6 1; mkTk KWord "1" 7 8 1; mkTk KWord (textOf (r :: rest)) 9 (9 + unitsOf (r :: rest)) 1] None.
Proof.
  intros Hh. assert (Hw : Forall (fun r => isWordRune (ru_cp r) = true) (r :: rest)) by (eapply Forall_impl; [exact Hh|apply headerChar_word]).
  assert (exists fuel, length (headerPrefix ++ r :: rest) = S (S (S (S (S (S fuel)))))) as [fuel Hl] by (rewrite length_app; cbn; by eexists).
  unfold lexLine. rewrite Hl.
  set (d := mkRune 100 "d") in *. pose (w := runes "bspec"). pose (sp := mkRune 32 " "). pose (one := mkRune 49 "1").
  change (headerPrefix ++ r :: rest) with (d :: w ++ sp :: one :: [] ++ sp :: r :: rest).
  rewrite (lexFrom_word _ 1 0 d w) by (first [done|by apply (bool_decide_unpack _)]). 
  cbv zeta. rewrite lexFrom_blank by done. rewrite (lexFrom_word _ 1 _ one []) by (first [done|by apply (bool_decide_unpack _)]). cbv zeta.
  rewrite lexFrom_blank by done. rewrite <- (app_nil_r rest). rewrite (lexFrom_word _ 1 _ r rest) by done. cbv zeta. rewrite app_nil_r.
  by destruct fuel.
Qed.

Lemma ok_headerFail nt nd b offset : ok (Reading nt nd b) (headerFail lines offset) (fun _ => True).
Proof. unfold headerFail. by ok. Qed.

Lemma ok_setHeader nt nd b tok : ok (Reading nt nd b) (modify (setDocument (setHeader tok))) (fun _ => True).
Proof. by apply ok_setDocument. Qed.

#[local] Hint Resolve ok_headerFail ok_setHeader : ok.

Lemma ok_header nt nd b : lines <> [] -> ok (Reading nt nd b) (header lines) (fun _ => True).
Proof.
  intros Hl. destruct lines as [|text rest] eqn:El; [done|]. rewrite <- El. unfold header. eapply ok_bind; [eapply (ok_lift _ _ text); [by rewrite El|exact Logic.I]|].
  intros x _. destruct (departs headerPrefix x 0) as [i|] eqn:Ed; [by ok|]. cbv zeta. apply departs_None in Ed as [name ->].
  rewrite drop_app_length. destruct name as [|r name]; [by ok|].
  destruct ((countWhile headerChar (r :: name) =? 0)%nat || (countWhile headerChar (r :: name) <? length (r :: name))%nat) eqn:Ec; [by ok|].
  apply orb_false_iff in Ec as [_ Ec%Nat.ltb_ge]. rewrite header_tokens by by apply countWhile_all. cbn [lx_toks]. eapply ok_bind; [by eapply (ok_lift _ _ _ (fun _ => True))|].
  intros tok _. by ok.
Qed.

(** ** The parse of the lines *)

(** A parser behind [parse]. *)
Definition Ended (p : DP) : Prop := exists nt nd b, Reading nt nd b p.

Lemma ok_setClosing nt nd b l : ok (Reading nt nd b) (modify (setDocument (setClosing l))) (fun _ => True).
Proof. by apply ok_setDocument. Qed.

Lemma ok_present_table nt nd b {A} (r : option A) what : is_Some r -> ok (Reading nt nd b) (lift (present r what)) (fun x => r = Some x).
Proof. intros [x ->]. by eapply ok_lift. Qed.

Lemma ok_unclosedBlock nt nd b s : placed nt nd b s -> ok (Reading nt nd b) (unclosedBlock lines s) (fun _ => True).
Proof.
  intros Hs p Hp. unfold unclosedBlock. rewrite (bindM_step get _ p p p eq_refl). unfold placed in Hs. destruct (lp_state s).
  - by apply (ok_ret _ tt).
  - assert (Hok : ok (Reading nt nd b) (t ← theTable (lp_table s); unclosed lines (it_open t) "the table block is not closed") (fun _ => True)) by ok. by apply Hok.
  - destruct Hs as [Hs ->]. pose proof (re_block _ _ _ _ Hp) as Hb. destruct (dp_settingsBlock p) as [|ti|block]; [done| |by apply ok_unclosed].
    destruct Hb as (t & Ht & block & Hb). rewrite (bindM_step (theTable ti) _ p t p) by (unfold theTable, theDocument, mbind, M_bind, get, mret, M_ret, lift, present; by rewrite Ht).
    rewrite (bindM_step (lift _) _ p block p) by by rewrite Hb. by apply ok_unclosed.
  - destruct (lookup_lt_is_Some_2 (idoc_diagrams (dp_document p)) (lp_diagram s)) as [g Hg]; [by rewrite (re_diagrams _ _ _ _ Hp)|].
    rewrite Hg, (bindM_step (lift _) _ p g p) by done. by apply ok_unclosed.
Qed.

Lemma newParser_reading cache : Reading 0 0 false (newParser cache).
Proof. by split. Qed.

(** [parse] ends for every text. *)
Lemma parse_ends encoding cache : lines <> [] -> exists p, parse lines encoding (newParser cache) = Ok (tt, p) /\ Ended p.
Proof.
  intros Hl. destruct (ok_header 0 0 false Hl (newParser cache) (newParser_reading cache)) as (opened & p1 & E1 & Hp1 & _ & _).
  unfold parse. rewrite (bindM_step _ _ _ _ _ E1). destruct opened; [|exists p1; split; [done|by exists 0%nat, 0%nat, false]]. cbn [negb].
  destruct (readLines_loop lines (tail lines) startLoop 2 p1) as (s & p2 & E2 & (nt & nd & b & Hp2 & Hs) & _); [by exists 0%nat, 0%nat, false|done|].
  rewrite (bindM_step _ _ _ _ _ E2), (bindM_step get _ p2 p2 p2 eq_refl). destruct (dp_stopped p2); [exists p2; split; [done|by exists nt, nd, b]|].
  assert (Hok : ok (Reading nt nd b) (match encoding with Some e => push e;; modify setStopped | None => unclosedBlock lines s;; modify (setDocument (setClosing (lp_comments s))) end) (fun _ => True)).
  { destruct encoding; [by ok|]. specialize (Hs eq_refl). eapply ok_bind; [by apply ok_unclosedBlock|]. intros _ _. apply ok_setClosing. }
  destruct (Hok p2 Hp2) as ([] & p3 & E3 & Hp3 & _). exists p3. split; [done|]. by exists nt, nd, b.
Qed.
End header.
