(* ===== verification/CheckTotal.v ===== *)
(** * Every check expression is read to an end ([dbspec/parse.ts])

    A step of the check reader is [okX] when it ends without an error, never
    steps back in the tokens and keeps the invariant of the parser.  Each turn
    of a loop takes a token, so the number of tokens bounds the turns. *)

From S2P Require Import Prelude Documents Emit Check Meet Decimal Lexer Literals ParseState Reader CheckReader ParseOk.
From Stdlib Require Import Lia.

Section total.
(** An invariant that the reports and the marks of the reader keep. *)
Variables (lines : list (list rune)) (I : DP -> Prop) (table : ITable) (banned : list string) (toks : list Tk).
Hypothesis I_at : forall rule tok message, ok I (at_ lines rule tok message) (fun _ => True).
Hypothesis I_mark : forall tok cls, ok I (mark tok cls) (fun _ => True).
Hint Resolve I_at I_mark : ok.

(** The reader is at token [k] or behind it. *)
Definition at_least (k : nat) (s : CS) : Prop := (k <= cs_i s)%nat /\ I (cs_parser s).

(** From token [k] on, a step ends at token [k'] or behind it, or throws. *)
Definition okX {A} (k k' : nat) (m : X A) (Q : A -> Prop) : Prop := forall s, at_least k s ->
  exists r s', m s = Ok (r, s') /\ I (cs_parser s') /\ (clean (cs_parser s') -> clean (cs_parser s)) /\
    match r with inl a => at_least k' s' /\ Q a | inr _ => True end.

Lemma okX_ret {A} k k' (a : A) (Q : A -> Prop) : (k' <= k)%nat -> Q a -> okX k k' (mret a) Q.
Proof. intros Hk Ha s [Hi Hs]. exists (inl a), s. split_and!; [done|done|done|split; [lia|done]|done]. Qed.

Lemma okX_bind {A B} k k1 k2 (m : X A) (f : A -> X B) Q R : okX k k1 m Q -> (forall a, Q a -> okX k1 k2 (f a) R) -> okX k k2 (m ≫= f) R.
Proof.
  intros Hm Hf s Hs. destruct (Hm s Hs) as (r & s1 & E & Hi & Hc & Hr). unfold mbind, X_bind. rewrite E. destruct r as [a|e].
  - destruct Hr as [H1 Ha]. destruct (Hf a Ha s1 H1) as (r & s2 & E2 & Hi2 & Hc2 & Hr2). exists r, s2. split_and!; [done|done|tauto|done].
  - by exists (inr e), s1.
Qed.

Lemma okX_weaken {A} k k' k1 k1' (m : X A) (Q R : A -> Prop) : okX k1 k1' m Q -> (k1 <= k)%nat -> (k' <= k1')%nat -> (forall a, Q a -> R a) -> okX k k' m R.
Proof.
  intros Hm H1 H2 HQ s [Hi Hs]. destruct (Hm s) as (r & s' & E & Hi' & Hc & Hr); [split; [lia|done]|]. exists r, s'. split_and!; [done..|].
  destruct r; [|done]. destruct Hr as [[? ?] ?]. split; [split; [lia|done]|auto].
Qed.

Lemma okX_throw {A} k k' e (Q : A -> Prop) : okX k k' (throwX e) Q.
Proof. intros s [Hi Hs]. by exists (inr e), s. Qed.

Lemma okX_get k : okX k k getX (at_least k).
Proof. intros s Hs. exists (inl s), s. pose proof Hs as [? ?]. by split_and!. Qed.

Lemma okX_set k f : (forall s, (cs_i s <= cs_i (f s))%nat /\ cs_parser (f s) = cs_parser s) -> okX k k (setX f) (fun _ => True).
Proof. intros Hf s [Hi Hs]. destruct (Hf s) as [H1 H2]. exists (inl tt), (f s). rewrite H2. split_and!; [done..| |done]. split; [lia|by rewrite H2]. Qed.

Lemma okX_lift {A} k (r : res A) a (Q : A -> Prop) : r = Ok a -> Q a -> okX k k (liftX r) Q.
Proof. intros -> Ha s Hs. exists (inl a), s. pose proof Hs as [? ?]. by split_and!. Qed.

Lemma okX_parser {A} k (m : Rd A) Q : ok I m Q -> okX k k (parserX m) Q.
Proof.
  intros Hm s [Hi Hs]. destruct (Hm _ Hs) as (a & p & E & Hp & Ha & Hc). unfold parserX. rewrite E. exists (inl a). eexists. split; [done|].
  split_and!; [done|done|by split|done].
Qed.

Lemma okX_eachX {A} k (f : A -> X unit) l : (forall x, okX k k (f x) (fun _ => True)) -> okX k k (eachX f l) (fun _ => True).
Proof.
  intros Hf. induction l as [|x l IH]; cbn [eachX]; [by apply okX_ret|]. eapply okX_bind; [apply Hf|]. intros [] _. apply IH.
Qed.

(** ** The steps of the reader *)

Notation peek := (peek toks).
Notation peekNext := (peekNext toks).
Notation take_ := (take_ toks).

Lemma okX_peek k : okX k k peek (fun t => t <> None -> (k < length toks)%nat).
Proof.
  eapply okX_bind; [apply okX_get|]. intros s [Hs _]. apply okX_ret; [done|]. intros Ht. destruct (toks !! cs_i s) eqn:E; [|done].
  apply lookup_lt_Some in E. lia.
Qed.

Lemma okX_peekNext k : okX k k peekNext (fun _ => True).
Proof. eapply okX_bind; [apply okX_get|]. intros s _. by apply okX_ret. Qed.

Lemma okX_advance k : okX k (S k) advanceX (fun _ => True).
Proof. intros s [Hi Hs]. exists (inl tt). eexists. split; [done|]. split_and!; [done|done|split; [cbn; lia|done]|done]. Qed.

Lemma okX_take k : okX k (S k) take_ (fun _ => (k < length toks)%nat).
Proof.
  eapply okX_bind; [apply okX_peek|]. intros [t|] Ht; [|apply okX_throw]. eapply okX_bind; [apply okX_advance|]. intros _ _. apply okX_ret; [done|by apply Ht].
Qed.

Lemma okX_flag k rule tok message : okX k k (flag lines rule tok message) (fun _ => True).
Proof.
  eapply okX_bind; [apply okX_get|]. intros s _. case_match; [by apply okX_ret|]. eapply okX_bind; [by apply okX_set|]. intros _ _. apply okX_parser, I_at.
Qed.

Lemma okX_mark k tok cls : okX k k (markX tok cls) (fun _ => True).
Proof. eapply okX_bind; [apply okX_get|]. intros s _. case_match; [by apply okX_ret|]. apply okX_parser, I_mark. Qed.

Lemma okX_issue k tok message rule : okX k k (issue tok message rule) (fun _ => True).
Proof. by apply okX_set. Qed.

Lemma okX_setOut k f : okX k k (setOut f) (fun _ => True).
Proof. by apply okX_set. Qed.
Lemma okX_fit k column value : okX k k (fit column value) (fun _ => True).
Proof.
  unfold fit. destruct (opd_type column) as [type|]; [|by apply okX_ret]. destruct (defaultOf_returns type (opd_tok value)) as [r Hr].
  eapply okX_bind; [by eapply (okX_lift _ _ _ (fun _ => True))|]. intros fitted _. case_match; [case_match|]; first [apply okX_setOut|apply okX_issue].
Qed.

#[local] Hint Resolve okX_peek okX_peekNext okX_advance okX_take okX_flag okX_mark okX_issue okX_setOut okX_fit okX_get okX_throw : okx.

Ltac okx_step :=
  match goal with
  | |- okX _ _ (mret _) _ => apply okX_ret; [lia|try exact Logic.I]
  | |- okX _ _ (throwX _) _ => apply okX_throw
  | |- okX _ _ (mbind _ _) _ => eapply okX_bind; [solve [eauto with okx]|intros ? ?; cbv beta in *]
  | |- okX ?k _ (mbind _ _) _ => eapply (okX_bind k k _ _ _ (fun _ => True)); [|intros ? _]
  | |- okX _ _ (match ?x with _ => _ end) _ => destruct x eqn:?
  | |- okX _ _ _ _ => solve [eauto with okx]
  | |- okX ?k ?k' _ _ => eapply (okX_weaken k k' k k); [solve [eauto with okx]|lia|lia|done]
  end.
Ltac okx := repeat okx_step.

Lemma okX_pushOut k part : okX k k (pushOut part) (fun _ => True).
Proof. apply okX_setOut. Qed.
#[local] Hint Resolve okX_pushOut : okx.

Lemma okX_expectPunct k text : okX k (S k) (expectPunct toks text) (fun _ => True).
Proof. unfold expectPunct. by okx. Qed.

Lemma okX_expectWord k text : okX k (S k) (expectWord toks text) (fun _ => True).
Proof. unfold expectWord. by okx. Qed.

Lemma okX_literalOperand k tok text : okX k k (literalOperand tok text) (fun _ => True).
Proof. unfold literalOperand. by okx. Qed.
#[local] Hint Resolve okX_expectPunct okX_expectWord okX_literalOperand : okx.

(** A negative number takes two tokens. *)
Lemma okX_negative k : okX k k (negative toks) (fun o => o <> None -> (k < length toks)%nat).
Proof. unfold negative. okx; intros; first [lia|done]. Qed.
#[local] Hint Resolve okX_negative : okx.

Lemma okX_literal k : okX k k (literal lines toks) (fun _ => True).
Proof. unfold literal. by okx. Qed.

Lemma okX_skip fuel depth k : (length toks - k < fuel)%nat -> okX k k (skipArguments toks fuel depth) (fun _ => True).
Proof.
  revert k depth. induction fuel as [|fuel IH]; intros k depth Hf; [lia|]. cbn [skipArguments]. eapply okX_bind; [apply okX_take|]. intros u Hk. cbv beta zeta in *.
  destruct (0 <? _); [|by okx]. eapply okX_weaken; [apply (IH (S k)); lia|lia|lia|done].
Qed.

Lemma okX_columnOperand k t : okX k k (columnOperand table banned t) (fun _ => True).
Proof. unfold columnOperand. by okx. Qed.
#[local] Hint Resolve okX_literal okX_columnOperand : okx.

(** A term takes at least a token. *)
Lemma okX_term fuel k : (length toks - k < fuel)%nat -> okX k k (term lines table banned toks fuel) (fun _ => (k < length toks)%nat).
Proof.
  revert k. induction fuel as [|fuel IH]; intros k Hf; [lia|]. cbn [term]. eapply okX_bind; [apply okX_negative|]. intros [o|] Ho; [by apply okX_ret; [|apply Ho]|].
  eapply okX_bind; [apply okX_take|]. intros t Hk. cbv beta in *. okx; try done.
  - eapply okX_weaken; [apply (IH (S k)); lia|lia|lia|done].
  - apply okX_skip. lia.
Qed.

Lemma okX_arithmetic fuel k result : (length toks - k < fuel)%nat -> okX k k (arithmetic lines table banned toks fuel result) (fun _ => True).
Proof.
  revert k result. induction fuel as [|fuel IH]; intros k result Hf; [lia|]. cbn [arithmetic]. eapply okX_bind; [apply okX_peek|]. intros [t|] Ht; [|by okx].
  specialize (Ht ltac:(done)). okx; [eapply okX_weaken; [apply (okX_term _ (S k)); lia|lia|lia|done]|].
  eapply okX_weaken; [eapply (IH (S k)); lia|lia|lia|done].
Qed.

Lemma okX_operand k : okX k k (operand lines table banned toks) (fun _ => (k < length toks)%nat).
Proof.
  unfold operand. eapply okX_bind; [apply okX_term; lia|]. intros o Hk. eapply okX_weaken; [apply (okX_arithmetic _ k); lia|lia|lia|]. by intros.
Qed.
#[local] Hint Resolve okX_operand : okx.

Lemma okX_compare k l op r : okX k k (compare l op r) (fun _ => True).
Proof. unfold compare. by okx. Qed.

Lemma okX_subject k l word : okX k k (subject lines l word) (fun _ => True).
Proof. unfold subject. by okx. Qed.

Lemma okX_alone {A} k start : okX k k (alone lines toks (A := A) start) (fun _ => True).
Proof. unfold alone. by okx. Qed.

Lemma okX_inMembers fuel k values : (length toks - k < fuel)%nat -> okX k k (inMembers lines toks fuel values) (fun _ => True).
Proof.
  revert k values. induction fuel as [|fuel IH]; intros k values Hf; [lia|]. cbn [inMembers]. eapply okX_bind; [apply okX_peek|]. intros t Ht.
  destruct (isPunct t ",") eqn:E; [|by okx]. assert (k < length toks)%nat by (apply Ht; by destruct t).
  okx. eapply okX_weaken; [apply (IH (S k)); lia|lia|lia|done].
Qed.

Lemma okX_leaf k : okX k k leaf (fun _ => True).
Proof. unfold leaf. by okx. Qed.
#[local] Hint Resolve okX_compare okX_subject okX_alone okX_leaf : okx.

Lemma okX_inPredicate k l u : okX k k (inPredicate lines toks l u) (fun _ => True).
Proof.
  unfold inPredicate. okx_step. okx_step. okx_step. okx_step. okx_step. okx_step. eapply okX_bind; [apply okX_inMembers; lia|]. intros values _. okx.
  apply okX_eachX. intros v. by okx.
Qed.

Lemma okX_isPredicate k l u : okX k k (isPredicate lines toks l u) (fun _ => True).
Proof. unfold isPredicate. by okx. Qed.

Lemma okX_comparison k l op : okX k k (comparison lines table banned toks l op) (fun _ => True).
Proof. unfold comparison. by okx. Qed.
#[local] Hint Resolve okX_inPredicate okX_isPredicate okX_comparison : okx.

(** A peek finds a token in front of the end, or the end. *)
Lemma okX_peek_case {A} k k' (f : option Tk -> X A) R : (forall t, okX k k' (f (Some t)) R) -> okX (max k (length toks)) k' (f None) R -> okX k k' (peek ≫= f) R.
Proof.
  intros Hs Hn s [Hi Hp]. change (exists r s', f (toks !! cs_i s) s = Ok (r, s') /\ I (cs_parser s') /\ (clean (cs_parser s') -> clean (cs_parser s)) /\
    match r with inl a => at_least k' s' /\ R a | inr _ => True end).
  destruct (toks !! cs_i s) as [t|] eqn:E; [by apply Hs|]. apply lookup_ge_None in E. apply Hn. split; [lia|done].
Qed.

Lemma okX_simple k : okX k k (simple lines table banned toks) (fun _ => True).
Proof.
  unfold simple. okx_step. apply okX_peek_case; [intros start|].
  - okx. all: by apply (okX_lift _ _ start).
  - eapply okX_bind; [apply okX_operand|]. intros o Hk. cbv beta in Hk. lia.
Qed.

Section level.
Variable inner_ : X Predicate.
Variable fuel : nat.
Hypothesis inner_ok : forall k, (length toks - k < fuel)%nat -> okX k k inner_ (fun _ => True).

Lemma okX_predicate k : (length toks - k < S fuel)%nat -> okX k k (predicate lines table banned toks inner_) (fun _ => True).
Proof.
  intros Hk. unfold predicate. eapply okX_bind; [apply okX_peek|]. intros t Ht. destruct (isPunct t "(") eqn:E; [|apply okX_simple].
  assert (k < length toks)%nat by (apply Ht; by destruct t). okx_step. eapply okX_bind; [apply (inner_ok (S k)); lia|]. intros inner _. okx.
Qed.

Lemma okX_logical word op item n k l : (forall j, (k <= j)%nat -> okX j j item (fun _ => True)) -> (length toks - k < n)%nat ->
  okX k k (logical toks word op item n l) (fun _ => True).
Proof.
  revert k l. induction n as [|n IH]; intros k l Hitem Hn; [lia|]. cbn [logical]. eapply okX_bind; [apply okX_peek|]. intros t Ht.
  destruct (isWord t word) eqn:E; [|by okx]. assert (k < length toks)%nat by (apply Ht; by destruct t).
  okx_step. okx_step. eapply okX_bind; [apply Hitem; lia|]. intros r _.
  eapply (okX_weaken _ _ (S k) (S k)); [apply IH; [intros; apply Hitem; lia|lia]|lia|lia|done].
Qed.

Lemma okX_andLevel n k : (length toks - k < S fuel)%nat -> (length toks < n)%nat -> okX k k (andLevel lines table banned toks inner_ n) (fun _ => True).
Proof.
  intros Hk Hn. unfold andLevel. eapply okX_bind; [by apply okX_predicate|]. intros l _. apply okX_logical; [|lia]. intros j Hj. apply okX_predicate. lia.
Qed.

Lemma okX_orLevel n k : (length toks - k < S fuel)%nat -> (length toks < n)%nat -> okX k k (orLevel lines table banned toks inner_ n) (fun _ => True).
Proof.
  intros Hk Hn. unfold orLevel. eapply okX_bind; [by apply okX_andLevel|]. intros l _. apply okX_logical; [|lia]. intros j Hj. apply okX_andLevel; lia.
Qed.
End level.

Lemma okX_or fuel k : (length toks - k < fuel)%nat -> okX k k (or_ lines table banned toks fuel) (fun _ => True).
Proof. revert k. induction fuel as [|fuel IH]; intros k Hk; [lia|]. cbn [or_]. apply (okX_orLevel _ fuel); [done|done|lia]. Qed.

Lemma okX_whole k : okX k k (wholePredicate lines table banned toks) (fun _ => True).
Proof. unfold wholePredicate. eapply okX_bind; [apply okX_or; lia|]. intros tree _. by okx. Qed.

(** The canonical text of a check, or its report. *)
Lemma ok_checkText close : ok I (checkText lines table banned toks close) (fun _ => True).
Proof.
  intros p Hp. unfold checkText. destruct (okX_whole 0 (mkCS 0 [] false [] p)) as (r & s & E & Hs & Hc & _); [by split|]. rewrite E.
  assert (Hend : forall m : Rd (option string), ok I m (fun _ => True) -> exists a s', m (cs_parser s) = Ok (a, s') /\ I s' /\ True /\ (clean s' -> clean p)).
  { intros m Hm. destruct (Hm _ Hs) as (a & s' & E' & Hs' & _ & Hc'). exists a, s'. split_and!; [done..|tauto]. }
  destruct r as [tree|at_tok]; apply Hend.
  - destruct (cs_flagged s); [by ok|]. destruct (firstIssue _) as [[[tok message] rule]|]; by ok.
  - destruct (cs_flagged s); by ok.
Qed.
End total.

Lemma ok_check lines nt nd b ti ci table k banned : ok (Reading nt nd b) (check lines ti ci table k banned) (fun _ => True).
Proof. unfold check. eapply ok_bind; [apply ok_checkText; intros; by ok|]. intros [text|] _; by ok. Qed.
