(* ===== verification/ValidateTotal.v ===== *)
(** * Every table is validated to an end ([dbspec/parse.ts])

    The validator reads tables through their places, which the tables at hand
    are known to have, so no check of a table fails. *)

From S2P Require Import Prelude Documents Emit Check Lexer Literals ParseState Reader CheckReader Validator ParseDocument ParseOk CheckTotal.
From Stdlib Require Import Lia.

(** The tables at hand that are of the document are at a place of it. *)
Definition Placed (nt : nat) (available : Available) : Prop := forall n i, assoc n available = Some (Some (Local i)) -> (i < nt)%nat.

Section validator.
(** An invariant that the reports of the validator and the reading of a table
    keep. *)
Variables (lines : list (list rune)) (I : DP -> Prop) (nt : nat) (available : Available).
Hypothesis placed : Placed nt available.
Hypothesis I_at : forall rule tok message, rule <> "syntax" -> ok I (at_ lines rule tok message) (fun _ => True).
Hypothesis I_table : forall ti, (ti < nt)%nat -> ok I (theTable ti) (fun _ => True).

Hint Extern 1 (ok I (at_ _ _ _ _) _) => apply I_at; discriminate : ok.
Hint Resolve I_table : ok.

Lemma ok_givenName tok : ok I (name lines tok) (fun _ => True).
Proof.
  unfold name. eapply (ok_bind _ _ _ (fun _ => True)); [destruct (wellFormed _); [by apply ok_ret|by apply I_at]|]. intros _ _.
  eapply (ok_bind _ _ _ (fun _ => True)); [destruct (_ <? _); [by apply I_at|by apply ok_ret]|]. intros _ _. by apply ok_ret.
Qed.
Hint Resolve ok_givenName : ok.

Lemma ok_when c m : ok I m (fun _ => True) -> ok I (when c m) (fun _ => True).
Proof. intros Hm. unfold when. by destruct c; [|apply ok_ret]. Qed.
Hint Resolve ok_when : ok.

Lemma ok_lookup table tok rule : rule <> "syntax" -> ok I (lookup_ lines table tok rule) (fun _ => True).
Proof. intros Hr. pose proof (fun tok message => I_at rule tok message Hr). unfold lookup_. by ok. Qed.
Hint Extern 1 (ok I (lookup_ _ _ _ _) _) => apply ok_lookup; discriminate : ok.

(** ** Keys and foreign keys *)

Lemma ok_keyColumn table primary acc c : ok I (keyColumn lines table primary acc c) (fun _ => True).
Proof. unfold keyColumn. by ok. Qed.
Hint Resolve ok_keyColumn : ok.

Lemma ok_keyLike table primary key : ok I (keyLike lines table primary key) (fun _ => True).
Proof. unfold keyLike. by ok. Qed.

Lemma ok_identityKey table : ok I (identityKey lines table) (fun _ => True).
Proof.
  unfold identityKey. destruct (List.find _ _) as [c|] eqn:E; [|by ok]. apply find_some in E as [_ E%bool_decide_eq_true].
  destruct (icol_identity c) as [tok|]; [|done]. eapply ok_bind; [by eapply (ok_lift _ _ tok (fun _ => True))|]. intros x _. by ok.
Qed.

Lemma ok_tableOf r : (forall i, r = Local i -> (i < nt)%nat) -> ok I (tableOf r) (fun _ => True).
Proof. intros Hr. destruct r as [i|t]; [by apply I_table, Hr|by apply ok_ret]. Qed.

(** A table at hand is read. *)
Lemma ok_available n r : assoc n available = Some (Some r) -> ok I (tableOf r) (fun _ => True).
Proof. intros Hr. apply ok_tableOf. intros i ->. by eapply placed. Qed.
Hint Resolve ok_keyLike ok_identityKey ok_available : ok.

Lemma ok_foreignKeyKeyChecks table fk children known : ok I (foreignKeyKeyChecks lines table fk children known) (fun _ => True).
Proof. unfold foreignKeyKeyChecks. by ok. Qed.

Lemma ok_childColumn table acc tok : ok I (childColumn lines table acc tok) (fun _ => True).
Proof. unfold childColumn. by ok. Qed.
Hint Resolve ok_childColumn : ok.

Lemma ok_references target fk children : ok I (references lines target fk children) (fun _ => True).
Proof. unfold references. by ok. Qed.
Hint Resolve ok_foreignKeyKeyChecks ok_references : ok.

Lemma ok_foreignKey table fk : ok I (foreignKey lines available table fk) (fun _ => True).
Proof. unfold foreignKey. by ok. Qed.
Hint Resolve ok_foreignKey : ok.

(** ** Settings of columns *)

Lemma ok_ref tok : ok I (ref lines tok) (fun _ => True).
Proof. unfold ref. by ok. Qed.
Hint Resolve ok_ref : ok.

Lemma ok_columnRef table tok : ok I (columnRef lines table tok) (fun _ => True).
Proof. unfold columnRef. by ok. Qed.

Lemma ok_reportColumn c bad tok message : ok I (reportColumn lines c bad tok message) (fun _ => True).
Proof. unfold reportColumn. by ok. Qed.
Hint Resolve ok_columnRef ok_reportColumn : ok.

Lemma ok_checkMarkdown table tok : ok I (checkMarkdown lines table tok) (fun _ => True).
Proof. unfold checkMarkdown. by ok. Qed.

Lemma ok_checkForeignKeyName table tok : ok I (checkForeignKeyName lines table tok) (fun _ => True).
Proof. unfold checkForeignKeyName. by ok. Qed.

Lemma ok_checkKeyPrefix table kw : ok I (checkKeyPrefix lines table kw) (fun _ => True).
Proof. unfold checkKeyPrefix. by ok. Qed.

Lemma ok_checkTextColumn table kw tok : ok I (checkTextColumn lines table kw tok) (fun _ => True).
Proof. unfold checkTextColumn. by ok. Qed.

Lemma ok_checkStoreShard table storage shard order : ok I (checkStoreShard lines table storage shard order) (fun _ => True).
Proof. unfold checkStoreShard. by ok. Qed.

Lemma ok_checkOrder table tok : ok I (checkOrder lines table tok) (fun _ => True).
Proof. unfold checkOrder. by ok. Qed.

(** A codec with a stage has a last one. *)
Lemma ok_codec table kw column stages version : stages <> [] -> ok I (codec lines table kw column stages version) (fun _ => True).
Proof.
  intros Hs. unfold codec. eapply ok_bind; [by apply ok_lookup|]. intros c _. cbv zeta.
  eapply ok_bind; [eauto with ok|]. intros _ _. eapply (ok_bind _ _ _ (fun _ => True)).
  - destruct (_ && _) eqn:E; [|by ok]. apply andb_true_iff in E as [_ E%Nat.ltb_lt]. rewrite length_map in E.
    apply lookup_lt_is_Some_2 in E as [tok Ht]. eapply ok_bind; [by eapply (ok_lift _ _ tok (fun _ => True)); [rewrite Ht|]|]. intros; by ok.
  - intros _ _. destruct c as [c|]; cbn; [|by ok]. destruct (icol_type c); [|by ok]. destruct (negb _); [by ok|].
    assert (is_Some (last (map tk_t stages))) as [w Hw] by (apply last_is_Some; by destruct stages).
    eapply ok_bind; [by eapply (ok_lift _ _ w (fun _ => True)); [rewrite Hw|]|]. intros; by ok.
Qed.

Lemma ok_blindIndex table kw column index columns : ok I (blindIndex lines table kw column index columns) (fun _ => True).
Proof. unfold blindIndex. by ok. Qed.
Hint Resolve ok_checkMarkdown ok_checkForeignKeyName ok_checkKeyPrefix ok_checkTextColumn ok_checkStoreShard ok_checkOrder ok_codec ok_blindIndex : ok.

(** ** State machines *)

Lemma ok_checkStateMachine table column line : ok I (checkStateMachine lines table column line) (fun _ => True).
Proof. unfold checkStateMachine. by ok. Qed.

Lemma ok_machineEntry m s : ok I (machineEntry lines m s) (fun _ => True).
Proof. unfold machineEntry. by ok. Qed.

Lemma ok_machineOrder m l : ok I (machineOrder lines m l) (fun _ => True).
Proof. unfold machineOrder. by ok. Qed.

Lemma ok_checkLimit states seen l : ok I (checkLimit lines states seen l) (fun _ => True).
Proof. unfold checkLimit. by ok. Qed.
Hint Resolve ok_checkStateMachine ok_machineEntry ok_machineOrder ok_checkLimit : ok.

Lemma ok_checkLimits limits states : ok I (checkLimits lines limits states) (fun _ => True).
Proof. unfold checkLimits. by ok. Qed.

Lemma ok_historyTyped h name tok want : ok I (historyTyped lines h name tok want) (fun _ => True).
Proof. unfold historyTyped. by ok. Qed.

Lemma ok_historyRequired table h name tok : ok I (historyRequired lines table h name tok) (fun _ => True).
Proof. unfold historyRequired. by ok. Qed.

Lemma ok_historyExact h name named : ok I (historyExact lines h name named) (fun _ => True).
Proof. unfold historyExact. by ok. Qed.
Hint Resolve ok_checkLimits ok_historyTyped ok_historyRequired ok_historyExact : ok.

Lemma ok_checkHistory table line state requires : ok I (checkHistory lines available table line state requires) (fun _ => True).
Proof. unfold checkHistory. by ok. Qed.

Lemma ok_checkCheckbox table column states acc box : ok I (checkCheckbox lines table column states acc box) (fun _ => True).
Proof. unfold checkCheckbox. by ok. Qed.
Hint Resolve ok_checkHistory ok_checkCheckbox : ok.

Lemma ok_checkCheckboxes table column states boxes : ok I (checkCheckboxes lines table column states boxes) (fun _ => True).
Proof. unfold checkCheckboxes. by ok. Qed.

Lemma ok_stateDefault m c : ok I (stateDefault lines m c) (fun _ => True).
Proof. unfold stateDefault. by ok. Qed.
Hint Resolve ok_checkCheckboxes ok_stateDefault : ok.

Lemma ok_stateMachine table entries : ok I (checkStateMachineConsistency lines available table entries) (fun _ => True).
Proof. unfold checkStateMachineConsistency. by ok. Qed.

(** ** Audits *)

Section audit.
Variables (ti : nat) (table : ITable) (kw into column references_ action previous : Tk) (tables : option (Tk * Tk * Tk)) (lists : list (Tk * list Tk)).

Lemma ok_auditListed list_kw listed tok : ok I (auditListed lines table column list_kw listed tok) (fun _ => True).
Proof. unfold auditListed. by ok. Qed.
Hint Resolve ok_auditListed : ok.

Lemma ok_auditLists : ok I (auditLists lines table column lists) (fun _ => True).
Proof. unfold auditLists. destruct lists as [|[k l] [|[? ?] ?]]; by ok. Qed.

Lemma ok_auditRecord audited : ok I (auditRecord lines available ti table into column references_ audited) (fun _ => True).
Proof. unfold auditRecord. by ok. Qed.

Lemma ok_auditTablesKey c t : ok I (auditTablesKey lines available references_ c t) (fun _ => True).
Proof. unfold auditTablesKey. by ok. Qed.
Hint Resolve ok_auditLists ok_auditRecord ok_auditTablesKey : ok.

Lemma ok_auditTablesColumns c t : ok I (auditTablesColumns lines available references_ c t) (fun _ => True).
Proof. unfold auditTablesColumns. by ok. Qed.
Hint Resolve ok_auditTablesColumns : ok.

Lemma ok_auditTables c : ok I (auditTables lines available ti into references_ c) (fun _ => True).
Proof. unfold auditTables. by ok. Qed.

Lemma ok_historyCopy history reserved allowed recorded c : ok I (historyCopy lines into history reserved allowed recorded c) (fun _ => True).
Proof. unfold historyCopy. by ok. Qed.
Hint Resolve ok_historyCopy : ok.

Lemma ok_historyColumns history key recorded : ok I (historyColumns lines table into action previous history key recorded) (fun _ => True).
Proof. unfold historyColumns. by ok. Qed.

Lemma ok_historyNamed history audited : ok I (historyNamed lines into action previous history audited) (fun _ => True).
Proof. unfold historyNamed. by ok. Qed.
Hint Resolve ok_auditTables ok_historyColumns ok_historyNamed : ok.

Lemma ok_auditHistory audited recorded : ok I (auditHistory lines available ti table into action previous audited recorded) (fun _ => True).
Proof. unfold auditHistory. by ok. Qed.
Hint Resolve ok_auditHistory : ok.

Lemma ok_audit child : ok I (audit lines available ti table kw into column references_ action previous tables lists child) (fun _ => True).
Proof. unfold audit. by ok. Qed.
End audit.
Hint Resolve ok_audit : ok.

(** ** Tables *)

Lemma ok_selectColumn table listed tok : ok I (selectColumn lines table listed tok) (fun _ => True).
Proof. unfold selectColumn. by ok. Qed.
Hint Resolve ok_selectColumn : ok.

Lemma ok_settingCheck ti table entries child s : staged s -> ok I (settingCheck lines available ti table entries child s) (fun _ => True).
Proof. intros Hs. unfold staged, stagedKind in Hs. unfold settingCheck. destruct (iset_kind s) eqn:E; by ok. Qed.

Lemma ok_settingEntry ti table entries child seen s : staged s -> ok I (settingEntry lines available ti table entries child seen s) (fun _ => True).
Proof. intros Hs. pose proof (ok_settingCheck ti table entries child s Hs). unfold settingEntry. by ok. Qed.

Lemma ok_settings ti table block child : Forall staged (isb_entries block) -> ok I (settings lines available ti table block child) (fun _ => True).
Proof.
  intros Hs. unfold settings. eapply (ok_bind _ _ _ (fun _ => True)); [|intros _ _; apply ok_stateMachine].
  apply ok_foldS; [done|]. intros seen s Hin _. apply ok_settingEntry. by eapply Forall_forall.
Qed.

End validator.

Section tables.
Variables (lines : list (list rune)) (nt nd : nat) (b : bool) (available : Available).
Hypothesis placed : Placed nt available.
Notation I := (Reading nt nd b).

Lemma ok_checksFrom ti ci table bans checks : ok I (checksFrom lines ti ci table bans checks) (fun _ => True).
Proof.
  revert ci. induction checks as [|k checks IH]; intros ci; cbn [checksFrom]; [by apply ok_ret|]. eapply ok_bind; [apply ok_check|]. intros _ _. apply IH.
Qed.

(** The settings of a table of the document have staged codecs. *)
Lemma ok_stagedTable ti : (ti < nt)%nat -> ok I (theTable ti) (fun t => stagedBlock (it_settings t)).
Proof.
  intros Hti s Hs. destruct (lookup_lt_is_Some_2 (idoc_tables (dp_document s)) ti) as [t Ht]; [by rewrite (re_tables _ _ _ _ Hs)|].
  exists t, s. unfold theTable, theDocument, mbind, M_bind, get, mret, M_ret, lift. rewrite Ht. split_and!; [done|done| |done].
  by eapply (Forall_lookup_1 _ _ _ _ (re_staged _ _ _ _ Hs)).
Qed.
Hint Resolve ok_checksFrom : ok.

Lemma reading_at rule tok message : rule <> "syntax" -> ok I (at_ lines rule tok message) (fun _ => True).
Proof. intros _. apply ok_at. Qed.

Lemma ok_validateTable ti : (ti < nt)%nat -> ok I (validateTable lines available ti) (fun _ => True).
Proof.
  intros Hti. unfold validateTable. eapply ok_bind; [by apply ok_stagedTable|]. intros t Ht. cbv beta in Ht.
  pose proof reading_at as Hat. pose proof (ok_theTable nt nd b) as Htable.
  assert (ok I (match it_settings t with Some block => settings lines available ti t block (actionChild t) | None => mret tt end) (fun _ => True)).
  { destruct (it_settings t) as [block|]; [by eapply ok_settings|by apply ok_ret]. }
  pose proof (fun p k => ok_keyLike lines I Hat t p k) as Hkey. pose proof (ok_identityKey lines I Hat t) as Hid.
  pose proof (ok_foreignKey lines I nt available placed Hat Htable t) as Hfk. pose proof (ok_when I) as Hwhen.
  repeat (eapply (ok_bind _ _ _ (fun _ => True)); [by ok|]; intros _ _). done.
Qed.
End tables.

#[export] Hint Resolve ok_when : ok.

(** ** Documents *)

Section document.
Variables (sha256 : string -> string) (lines : list (list rune)) (nt nd : nat) (b : bool) (resolve : Tk -> Rd (option IDocument)).
Notation I := (Reading nt nd b).
Hypothesis resolve_ok : forall tok, ok I (resolve tok) (fun _ => True).

(** What the use lines give holds no table of the document. *)
Definition NoLocal (available : Available) : Prop := forall n i, assoc n available <> Some (Some (Local i)).

Lemma ok_useTable target name u t : NoLocal (us_available u) -> ok I (useTable lines target name u t) (fun u => NoLocal (us_available u)).
Proof.
  intros Hu. unfold useTable. destruct (negb (wellFormed _)); [by apply ok_ret|]. destruct (assoc (tk_t t) (us_available u)) eqn:E.
  { eapply ok_bind; [eauto with ok|]. intros _ _. by apply ok_ret. }
  cbv zeta. eapply (ok_bind _ _ _ (fun _ => True)); [by ok|]. intros _ _. apply ok_ret. intros n i. cbn. rewrite assoc_app.
  specialize (Hu n i). destruct (assoc n (us_available u)); [done|]. cbn. case_decide; [|done]. by destruct (assoc (tk_t t) (foldl _ _ _)).
Qed.

Lemma ok_useEntry u use : NoLocal (us_available u) -> ok I (useEntry lines resolve u use) (fun u => NoLocal (us_available u)).
Proof.
  intros Hu. unfold useEntry. eapply ok_bind; [apply ok_document|]. intros d _. destruct (negb (wellFormed _)); [by apply ok_ret|].
  destruct (includes _ _); [eapply ok_bind; [eauto with ok|]; intros _ _; by apply ok_ret|]. cbv zeta.
  destruct (decide _); [eapply ok_bind; [eauto with ok|]; intros _ _; by apply ok_ret|].
  eapply ok_bind; [apply resolve_ok|]. intros [target|] _.
  - eapply (ok_bind _ _ _ (fun _ => True)); [by ok|]. intros _ _. apply ok_foldS; [done|]. intros u' t _ Hu'. by apply ok_useTable.
  - eapply (ok_bind _ _ _ (fun _ => True)); [|intros _ _; by apply ok_ret]. apply ok_eachP. intros t _. by apply ok_setDocument.
Qed.

Lemma ok_localTable u acc i t : (i < nt)%nat -> Placed nt (fst acc) -> ok I (localTable lines u acc (i, t)) (fun acc => Placed nt (fst acc)).
Proof.
  intros Hi Ha. unfold localTable. destruct acc as [available locals]. destruct (negb _); [by apply ok_ret|].
  destruct (assoc (tk_t (it_name t)) available) eqn:E; (eapply (ok_bind _ _ _ (fun _ => True)); [by ok|]); intros _ _; apply ok_ret; [done|].
  intros n j. cbn. rewrite assoc_app. specialize (Ha n j). cbn in Ha. destruct (assoc n available); [done|]. cbn. case_decide; [|done]. by intros [= <-].
Qed.

(** The names of failed lines stand for no table. *)
Lemma placed_failed names available : Placed nt available ->
  Placed nt (foldl (fun l n => if bool_decide (is_Some (assoc n l)) then l else l ++ [(n, None)]) available names).
Proof.
  revert available. induction names as [|n names IH]; intros available Ha; [done|]. cbn. apply IH. case_bool_decide as E; [done|].
  intros m i. rewrite assoc_app. specialize (Ha m i). destruct (assoc m available); [done|]. cbn. by case_decide.
Qed.

Lemma ok_constraintEntry u locals c : ok I (constraintEntry lines u locals c) (fun _ => True).
Proof. unfold constraintEntry. by ok. Qed.

Lemma ok_generatedName seen g : ok I (generatedName lines seen g) (fun _ => True).
Proof. unfold generatedName. by ok. Qed.
Hint Resolve ok_constraintEntry ok_generatedName : ok.

Lemma ok_generatedNamesUnique available : ok I (generatedNamesUnique sha256 lines available) (fun _ => True).
Proof. unfold generatedNamesUnique. by ok. Qed.

Lemma ok_placementEntry available placed p : ok I (placementEntry lines available placed p) (fun _ => True).
Proof. unfold placementEntry. by ok. Qed.
Hint Resolve ok_generatedNamesUnique ok_placementEntry : ok.

(** [validate] ends for every document that was read. *)
Lemma ok_validate : ok I (validate sha256 lines resolve) (fun _ => True).
Proof.
  unfold validate. eapply ok_bind; [apply ok_document|]. intros d _.
  eapply ok_bind; [apply (ok_foldS _ _ (fun u => NoLocal (us_available u))); [done|]; intros u use _ Hu; by apply ok_useEntry|]. intros u Hu.
  eapply ok_bind; [apply ok_document|]. intros d2 [Hd _].
  eapply ok_bind.
  { apply (ok_foldS _ _ (fun acc => Placed nt (fst acc))); [intros n i E; by destruct (Hu n i)|]. intros acc [i t] Hin Ha. apply ok_localTable; [|done].
    apply elem_of_lookup_imap in Hin as (j & t' & [= -> ->] & Hj). rewrite <- Hd. by eapply lookup_lt_Some. }
  intros [available locals] Ha. cbv beta zeta. pose proof (placed_failed (idoc_failed d2) available Ha) as Hp.
  eapply (ok_bind _ _ _ (fun _ => True)); [by ok|]. intros _ _. eapply (ok_bind _ _ _ (fun _ => True)).
  { apply ok_eachP. intros i Hi. apply ok_validateTable; [done|]. apply elem_of_seq in Hi. lia. }
  intros _ _. by ok.
Qed.
End document.
