(* ===== verification/ParseTextTotal.v ===== *)
(** * Every text is parsed to an end ([dbspec/parse.ts])

    A used document adds a declared name to the chain of its users, so the
    declared documents that are not in the chain bound the depth of the parses,
    and the fuel of [parseWhole] is enough. *)

From S2P Require Import Prelude Documents Emit Check Lexer Literals ParseState Reader CheckReader Validator ParseDocument ParseOk ParseTotal ValidateTotal.
From Stdlib Require Import Lia.

Section texts.
Variables (sha256 : string -> string) (documents : list (string * string)).

(** The declared names that are not in a chain. *)
Definition remaining (chain : list string) : nat := length (filter (fun n => n ∉ chain) (map fst documents)).

Lemma remaining_le chain chain' : (forall n, n ∈ chain -> n ∈ chain') -> (remaining chain' <= remaining chain)%nat.
Proof.
  intros Hc. unfold remaining. induction (map fst documents) as [|n l IH]; [done|]. rewrite !filter_cons.
  repeat case_decide; simpl; try lia. by exfalso; auto.
Qed.

(** A declared name that joins the chain leaves fewer. *)
Lemma remaining_lt chain n text : assoc n documents = Some text -> n ∉ chain -> (remaining (chain ++ [n]) < remaining chain)%nat.
Proof.
  intros Hn Hc. assert (Hin : n ∈ map fst documents) by (destruct (decide (n ∈ map fst documents)) as [|Hx]; [done|]; by rewrite (proj2 (assoc_None n documents) Hx) in Hn).
  unfold remaining. clear Hn. induction (map fst documents) as [|m l IH]; [by apply elem_of_nil in Hin|].
  assert (Hle : (length (filter (fun x => x ∉ chain ++ [n]) l) <= length (filter (fun x => x ∉ chain) l))%nat).
  { clear. induction l as [|x l IH]; [done|]. rewrite !filter_cons. repeat case_decide; simpl; try lia. exfalso. rewrite ?elem_of_app, ?list_elem_of_singleton in *. naive_solver. }
  rewrite !filter_cons. destruct (decide (m = n)) as [->|Hm].
  - rewrite decide_False by (rewrite elem_of_app, list_elem_of_singleton; naive_solver). rewrite decide_True by done. simpl. lia.
  - apply elem_of_cons in Hin as [->|Hin]; [done|]. specialize (IH Hin). repeat case_decide; simpl; try lia. exfalso. rewrite ?elem_of_app, ?list_elem_of_singleton in *. naive_solver.
Qed.

Lemma splitLines_ne text : splitLines text <> [].
Proof. unfold splitLines. destruct (split_on _ text) eqn:E; [|done]. exfalso. revert E. apply split_on_ne. Qed.

Lemma ok_resolved lines nt nd b tok e : ok (Reading nt nd b) (resolved lines tok e) (fun _ => True).
Proof. unfold resolved. by ok. Qed.

(** A used document is resolved when the parse of its text returns. *)
Lemma ok_resolve parse_ lines nt nd b parents tok :
  (forall text cache chain, (remaining chain < remaining parents)%nat -> exists r, parse_ text cache chain = Ok r) ->
  ok (Reading nt nd b) (resolve documents parse_ lines parents tok) (fun _ => True).
Proof.
  intros Hparse. unfold resolve. cbv zeta. eapply ok_bind; [apply ok_get|]. intros p _.
  destruct (assoc (tk_t tok) documents) as [text|] eqn:Ed; [|by ok].
  set (chain := match parents with [] => _ | _ => _ end). destruct (includes (tk_t tok) chain) eqn:Ei; [by ok|]. apply bool_decide_eq_false in Ei.
  destruct (assoc (tk_t tok) (dp_cache p)); [apply ok_resolved|].
  destruct (Hparse text (dp_cache p) (chain ++ [tk_t tok])) as [[parsed cache] Hp].
  { eapply Nat.lt_le_trans; [by eapply remaining_lt|]. apply remaining_le. intros n Hn. unfold chain. destruct parents; [by apply elem_of_nil in Hn|done]. }
  eapply ok_bind; [by eapply (ok_lift _ _ (parsed, cache) (fun _ => True))|]. intros [? ?] _. cbv zeta.
  eapply (ok_bind _ _ _ (fun _ => True)); [by apply ok_same|]. intros _ _. apply ok_resolved.
Qed.

Lemma parseText_total fuel validated text cache parents : (remaining parents < fuel)%nat -> exists r, parseText sha256 documents fuel validated text cache parents = Ok r.
Proof.
  revert validated text cache parents. induction fuel as [|fuel IH]; intros validated text cache parents Hf; [lia|]. cbn [parseText].
  destruct (MAX_BYTES <? utf8Length text); [by eexists|]. cbv zeta. set (complete := match encodingError (splitLines text) with None => length (splitLines text) | Some e => Z.to_nat (dx_line e - 1) end).
  assert (Hrun : complete <> 0%nat -> exists r,
    ('(_, p) ← (parse (map stripReturn (take complete (splitLines text))) (encodingError (splitLines text));;
                p ← get;
                if validated && negb (dp_stopped p)
                then validate sha256 (map stripReturn (take complete (splitLines text))) (resolve documents (parseText sha256 documents fuel true) (map stripReturn (take complete (splitLines text))) parents)
                else mret tt) (newParser cache);
     Ok (mkParsed (orderedDiagnostics p) (Some (p, map stripReturn (take complete (splitLines text)))), dp_cache p)) = Ok r).
  { intros Hc. set (lines := map stripReturn _). assert (Hl : lines <> []).
    { unfold lines. pose proof (splitLines_ne text). destruct (splitLines text); [done|]. by destruct complete. }
    destruct (parse_ends lines (encodingError (splitLines text)) cache Hl) as (p & E & nt & nd & b & Hp). rewrite (bindM_step _ _ _ _ _ E), (bindM_step get _ p p p eq_refl).
    destruct (validated && negb (dp_stopped p)); [|by eexists].
    destruct (ok_validate sha256 lines nt nd b (resolve documents (parseText sha256 documents fuel true) lines parents)) with (s := p) as (? & p' & E' & _); [|done|rewrite E'; by eexists].
    intros tok. apply ok_resolve. intros text' cache' chain Hch. apply IH. lia. }
  destruct (encodingError (splitLines text)) as [e|] eqn:Ee; [destruct complete eqn:Ec; [by eexists|]|]; apply Hrun; [done|].
  unfold complete. pose proof (splitLines_ne text). by destruct (splitLines text).
Qed.

Lemma remaining_all : (remaining [] < S (length documents))%nat.
Proof. unfold remaining. pose proof (length_filter (fun n => n ∉ []) (map fst documents)). rewrite length_map in *. lia. Qed.

Lemma parseWhole_total validated text : exists r, parseWhole sha256 documents validated text = Ok r.
Proof.
  unfold parseWhole. destruct (parseText_total (S (length documents)) validated text [] [] remaining_all) as [[parsed cache] E]. rewrite E. by eexists.
Qed.
End texts.
