(* ===== verification/ParseClean.v ===== *)
(** * What a parse without diagnostics has done ([dbspec/parse.ts])

    A diagnostic is never taken back to none, so a parse that ends without any
    passed every report by.  [run] states what a step that ends without
    diagnostics has done to the core of the parser (the document, the open
    block, the stop, the cache of used documents), and rules and the tactic [run] follow a reader to its one
    clean end. *)

From S2P Require Import Prelude Documents Emit Check Decimal Lexer Literals ParseState Reader ParseOk ParseTotal.
From Stdlib Require Import Lia.

(** ** The judgment *)

(** What the loop reads back from a parser. *)
Record Core := mkCore { c_document : IDocument; c_stopped : bool; c_block : SettingsBlock; c_syntax : Z; c_cache : list (string * CacheEntry) }.
Definition core (s : DP) : Core := mkCore (dp_document s) (dp_stopped s) (dp_settingsBlock s) (dp_syntaxLine s) (dp_cache s).
Definition onDocument (f : IDocument -> IDocument) (c : Core) : Core := mkCore (f (c_document c)) (c_stopped c) (c_block c) (c_syntax c) (c_cache c).

(** From [s], where [Pre] holds, a clean end of [m] satisfies [Post], and [s] was clean. *)
Definition run {A} (s : DP) (Pre : Prop) (m : Rd A) (Post : A -> DP -> Prop) : Prop :=
  forall a s', m s = Ok (a, s') -> clean s' -> clean s /\ (Pre -> Post a s').

Lemma run_ret {A} s (Pre : Prop) (a : A) (Post : A -> DP -> Prop) : (Pre -> Post a s) -> run s Pre (mret a) Post.
Proof. intros Hp b s' [= <- <-] Hc. by split. Qed.

Lemma run_bind {A B} s (Pre : Prop) (m : Rd A) (k : A -> Rd B) Mid Post : run s Pre m Mid ->
  (forall a s1, run s1 (Pre /\ Mid a s1) (k a) Post) -> run s Pre (m ≫= k) Post.
Proof.
  intros Hm Hk b s' E Hc. unfold mbind, M_bind in E. destruct (m s) as [[a s1]|] eqn:Em; [|done].
  destruct (Hk a s1 b s' E Hc) as [Hc1 Hp]. destruct (Hm a s1 Em Hc1) as [Hc0 Hm']. split; [done|]. intros H. apply Hp. split; [done|by apply Hm'].
Qed.

Lemma run_weaken {A} s (Pre : Prop) (m : Rd A) Mid (Post : A -> DP -> Prop) : run s Pre m Mid -> (forall a s', Pre -> Mid a s' -> Post a s') -> run s Pre m Post.
Proof. intros Hm Hp a s' E Hc. destruct (Hm a s' E Hc) as [? H]. split; [done|]. intros HP. by apply Hp; [|apply H]. Qed.

Lemma run_frame {A} s (Pre : Prop) (m : Rd A) Post : run s True m Post -> run s Pre m Post.
Proof. intros Hm a s' E Hc. destruct (Hm a s' E Hc). by split; [|auto]. Qed.

(** A precondition that the state itself gives. *)
Lemma run_pre {A} s (Pre Pre' : Prop) (m : Rd A) Post : (Pre' -> Pre) -> run s Pre m Post -> run s Pre' m Post.
Proof. intros HP Hm a s' E Hc. destruct (Hm a s' E Hc). by split; [|auto]. Qed.

Lemma run_get s : run s True get (fun a s' => a = s /\ core s' = core s).
Proof. by intros a s' [= <- <-]. Qed.

Lemma run_modify s f : dp_diagnostics (f s) = dp_diagnostics s -> run s True (modify f) (fun _ s' => s' = f s).
Proof. intros Hd a s' [= <- <-] Hc. split; [|done]. unfold clean in *. congruence. Qed.

Lemma run_lift {A} s (r : res A) : run s True (lift r) (fun a s' => r = Ok a /\ core s' = core s).
Proof. intros a s'. unfold lift. destruct r; [|done]. by intros [= <- <-]. Qed.

Lemma run_present {A} s (x : option A) what : run s True (lift (present x what)) (fun a s' => x = Some a /\ core s' = core s).
Proof. eapply run_weaken; [apply run_frame,  run_lift|]. intros a s' _ [H ?]. split; [|done]. unfold present in H. destruct x; [by injection H as ->|done]. Qed.

Lemma run_eachP {A} s (f : A -> Rd unit) (Q : A -> Prop) l : (forall x s, x ∈ l -> run s True (f x) (fun _ s' => core s' = core s /\ Q x)) ->
  run s True (eachP f l) (fun _ s' => core s' = core s /\ Forall Q l).
Proof.
  revert s. induction l as [|x l IH]; intros s Hf; cbn [eachP]; [by apply run_ret|]. eapply run_bind; [apply Hf; left|]. intros [] s1.
  eapply run_weaken; [apply run_frame,  IH; intros; apply Hf; by right|]. intros _ s' [_ [H1 H2]] [H3 H4]. split; [congruence|by constructor].
Qed.

(** ** Steps of every reader *)

Section steps.
Variable lines : list (list rune).

Lemma push_run s d : run s True (push d) (fun _ _ => False).
Proof. intros a s' [= <- <-]. unfold clean. cbn. by destruct (dp_diagnostics s). Qed.

(** A report leaves no clean run, a syntax error on the line of an earlier one
    apart. *)
Lemma run_report s rule line index message : (rule = "syntax" -> c_syntax (core s) <> line) -> run s True (report lines rule line index message) (fun _ _ => False).
Proof.
  intros Hl. unfold report. case_decide as E; [|apply push_run]. intros a s' H Hc. unfold mbind, M_bind, modify, get in H. cbn in H.
  specialize (Hl E). apply Z.eqb_neq in Hl. cbn in Hl. rewrite Hl in H. injection H as <- <-. revert Hc. unfold clean. cbn. by destruct (dp_diagnostics s).
Qed.

(** On a clean run no line had a syntax error. *)
Lemma run_syntaxError s line index message : run s (c_syntax (core s) = 0 /\ line <> 0) (report lines "syntax" line index message) (fun _ _ => False).
Proof.
  intros a s' E Hc. unfold report in E. rewrite decide_True in E by done. unfold mbind, M_bind, modify, get in E. cbn in E.
  destruct (Z.eqb_spec (dp_syntaxLine s) line) as [El|_].
  - injection E as <- <-. split; [done|]. intros [H1 H2]. cbn in H1. congruence.
  - injection E as <- <-. revert Hc. unfold clean. cbn. by destruct (dp_diagnostics s).
Qed.

Lemma run_at s rule tok message : rule <> "syntax" -> run s True (at_ lines rule tok message) (fun _ _ => False).
Proof. intros Hr. by apply run_report. Qed.

Lemma run_stop s rule tok message : rule <> "syntax" -> run s True (stop lines rule tok message) (fun _ _ => False).
Proof. intros Hr. eapply run_bind; [by apply run_at|]. intros _ s1 a s' [= <- <-] Hc. split; [done|]. tauto. Qed.

Lemma run_mark s tok cls : run s True (mark tok cls) (fun _ s' => core s' = core s).
Proof.
  unfold mark. destruct tok as [tok|]; [|by apply run_ret]. eapply run_bind; [apply run_get|]. intros p s1.
  case_decide; [apply run_ret; naive_solver|]. eapply run_weaken; [by apply run_frame,  run_modify|]. cbn beta. intros _ s' [_ [_ <-]] ->. done.
Qed.

Lemma run_markValue s tok : run s True (markValue tok) (fun _ s' => core s' = core s).
Proof. unfold markValue. destruct tok; [case_match|]; first [apply run_mark|by apply run_ret]. Qed.

(** A name that is not reported is a dbspec name. *)
Lemma run_name s tok : run s True (name lines tok) (fun f s' => core s' = core s /\ f = true /\ validName (tk_t tok) = true).
Proof.
  unfold name. eapply (run_bind _ _ _ _ (fun _ s' => core s' = core s /\ wellFormed (tk_t tok) = true)).
  { destruct (wellFormed _); [by apply run_ret|]. eapply run_weaken; [by apply run_frame,  run_at|]. done. }
  intros [] s1. eapply (run_bind _ _ _ _ (fun _ s' => core s' = core s1 /\ (MAX_NAME_BYTES <? utf8Length (tk_t tok)) = false)).
  { destruct (_ <? _); [eapply run_weaken; [by apply run_frame,  run_at|]; done|by apply run_ret]. }
  intros [] s2. apply run_ret. intros [[_ [H1 H2]] [H3 H4]]. split_and!; [congruence|done|]. unfold validName. rewrite H2. apply Z.ltb_ge in H4. by apply Z.leb_le.
Qed.

Lemma run_checkName s tok : run s True (checkName lines tok) (fun _ s' => core s' = core s /\ validName (tk_t tok) = true).
Proof. eapply run_bind; [apply run_name|]. intros f s1. apply run_ret. tauto. Qed.

Lemma run_theDocument s : run s True theDocument (fun d s' => d = c_document (core s) /\ core s' = core s).
Proof. by intros a s' [= <- <-]. Qed.

Lemma run_theTable s ti : run s True (theTable ti) (fun t s' => idoc_tables (c_document (core s)) !! ti = Some t /\ core s' = core s).
Proof. unfold theTable. eapply run_bind; [apply run_theDocument|]. intros d s1. eapply run_weaken; [apply run_frame,  run_present|]. intros t s' [_ [-> ?]] [? ?]. split; [done|congruence]. Qed.

Lemma run_setDocument s f : run s True (modify (setDocument f)) (fun _ s' => core s' = onDocument f (core s)).
Proof. eapply run_weaken; [by apply run_frame,  run_modify|]. by intros _ s' _ ->. Qed.

Lemma run_onTable s ti f : run s True (onTable ti f) (fun _ s' => core s' = onDocument (setTables (alter f ti)) (core s)).
Proof. apply run_setDocument. Qed.

(** A constraint name is a name that no constraint had. *)
Lemma run_constraintName s tok : run s True (constraintName lines tok) (fun _ s' =>
  core s' = onDocument (addConstraint tok) (core s) /\ validName (tk_t tok) = true /\ assoc (tk_t tok) (idoc_constraints (c_document (core s))) = None).
Proof.
  unfold constraintName. eapply run_bind; [apply run_name|]. intros f s1. destruct f; [|apply run_ret; intuition discriminate].
  eapply run_bind; [apply run_frame, run_theDocument|]. intros d s2. destruct (assoc (tk_t tok) (idoc_constraints d)) eqn:E.
  - eapply run_weaken; [by apply run_frame,  run_at|]. done.
  - eapply run_weaken; [apply run_frame,  run_setDocument|]. intros _ s' [[_ [H1 [_ H2]]] [-> H3]] H4. rewrite H4, H3, H1 in *. done.
Qed.
End steps.

Create HintDb run.
#[export] Hint Resolve run_get run_lift run_present run_mark run_markValue run_name run_checkName run_theDocument run_theTable run_onTable run_constraintName : run.
#[export] Hint Extern 1 (run _ _ (at_ _ _ _ _) _) => apply run_at; discriminate : run.
#[export] Hint Extern 1 (run _ _ (stop _ _ _ _) _) => apply run_stop; discriminate : run.

(** Unfolds what holds at a state and rewrites with the cores of the states
    before it. *)
Ltac run_hyps :=
  cbv beta in *;
  repeat match goal with
  | H : _ /\ _ |- _ => destruct H
  | H : exists _, _ |- _ => destruct H
  | H : True |- _ => clear H
  end;
  try contradiction; try discriminate; try match goal with H : ?x <> ?x |- _ => by destruct H end;
  repeat match goal with
  | H : Some _ = Some _ |- _ => apply Some_inj in H
  | H : (_, _) = (_, _) |- _ => apply pair_equal_spec in H; destruct H
  end; subst;
  repeat match goal with H : core ?x = _ |- context [core ?x] => rewrite H end.

(** Expresses every state by the ones it came from. *)
Ltac run_cores :=
  repeat match goal with
  | H : core ?x = _, H' : context [core ?x] |- _ => lazymatch H with H' => fail | _ => rewrite H in H' end
  end.

Ltac run_leaf := intros; run_hyps; try (split_and?; try done; try congruence).

(** Follows one step: a known step, a binding, a branch. *)
Ltac run_known := first [ apply run_frame; solve [eauto with run] | eapply run_pre; [|solve [eauto with run]]; solve [run_leaf; cbn [onDocument c_syntax]; eauto with run] ].
Ltac run_step :=
  match goal with
  | |- run _ _ (mret _) _ => apply run_ret
  | |- run _ _ (mbind _ _) _ => eapply run_bind; [run_known|intros ? ?]
  | |- run _ _ (match ?x with _ => _ end) _ => destruct x eqn:?
  | |- run ?s _ (mbind _ _) _ => eapply (run_bind _ _ _ _ (fun _ s' => core s' = core s)); [|intros ? ?]
  | |- run _ ?Pre _ _ => eapply (run_weaken _ Pre); [run_known|]
  end.
Ltac run_all := repeat (run_step; try solve [run_leaf]).

(** ** Declarations that were read *)

Section read.
(** The tokens of the document, and the cache that the parse began with. *)
Variables (G : Tk -> Prop) (K : list (string * CacheEntry)).

Definition validTok (t : Tk) : Prop := G t /\ validName (tk_t t) = true.

Definition UseRead (u : IUse) : Prop := validTok (iuse_doc u) /\ Forall validTok (iuse_tables u).

(** The parameters of a type are in bounds. *)
Definition typeInBounds (t : DbspecType) : Prop :=
  match t with
  | TDecimal p s => 1 <= p <= 18 /\ 0 <= s <= p
  | TVarchar n => 1 <= n <= 16383
  | TTime p | TDatetime p => 0 <= p <= 6
  | _ => True
  end.

(** A default is the canonical form of some token. *)
Definition defaultFits (t : DbspecType) (v : DbspecDefault) : Prop := t <> TText /\ t <> TBytes /\ exists tok, defaultOf t tok = Ok (inl v).

Record ColumnRead (c : IColumn) : Prop := {
  cr_name : validTok (icol_name c);
  cr_type : exists t, icol_type c = Some t /\ typeInBounds t /\ (forall v, icol_value c = Some v -> defaultFits t v);
  cr_identity : icol_identity c <> None -> icol_type c = Some TI64 /\ icol_nullable c = false /\ icol_value c = None }.

Definition keyTokens (k : IKey) : list Tk := map ikc_tok (ikey_cols k).

Definition PrimaryRead (k : IKey) : Prop := G (ikey_kw k) /\ Forall validTok (keyTokens k).
Definition KeyRead (k : IKey) : Prop := (exists n, ikey_name k = Some n /\ validTok n) /\ Forall validTok (keyTokens k).

Definition ForeignKeyRead (f : IForeignKey) : Prop :=
  validTok (ifk_name f) /\ Forall validTok (ifk_cols f) /\ validTok (ifk_table f) /\ Forall validTok (ifk_refs f) /\
  ifk_onDelete f ∈ ACTION_LIST /\ ifk_onUpdate f ∈ ACTION_LIST.

(** What the later build of a setting relies on. *)
Definition SettingRead (s : ISetting) : Prop :=
  G (iset_kw s) /\
  match iset_kind s with
  | ICodec _ stages => Forall (fun t => tk_t t ∈ STAGE_LIST) stages
  | IStore storage _ shape shard =>
      tk_t storage ∈ STORAGES /\ (forall w, shape = Some w -> tk_t w ∈ SHAPES) /\ (forall a c p, shard = Some (a, c, p) -> tk_t p ∈ PERIODS)
  | _ => True
  end.

(** The names that a table adds to the constraint names of its document. *)
Definition constraintNames (t : ITable) : list string :=
  map (fun k => match ikey_name k with Some n => tk_t n | None => "" end) (it_uniques t ++ it_indexes t) ++
  map (fun f => tk_t (ifk_name f)) (it_fks t) ++ map (fun c => tk_t (ick_name c)) (it_checks t).

Definition settingEntries (t : ITable) : list ISetting := match it_settings t with Some b => isb_entries b | None => [] end.

(** A table without a failed line. *)
Record TableRead (t : ITable) : Prop := {
  tr_name : it_named t = true /\ validTok (it_name t);
  tr_failed : it_failed t = [] /\ it_failedPrimary t = false /\ it_failedKey t = false /\ it_failedLines t = 0 /\ it_headerFailed t = false;
  tr_columns : Forall ColumnRead (it_columns t);
  tr_colMap : it_colMap t = map (fun c => (tk_t (icol_name c), c)) (it_columns t);
  tr_distinct : NoDup (map (fun c => tk_t (icol_name c)) (it_columns t));
  tr_primary : Forall PrimaryRead (it_pks t);
  tr_keys : Forall KeyRead (it_uniques t ++ it_indexes t);
  tr_foreign : Forall ForeignKeyRead (it_fks t);
  tr_checks : Forall (fun c => validTok (ick_name c)) (it_checks t);
  tr_settings : Forall SettingRead (settingEntries t) }.

Definition DiagramRead (g : IDiagram) : Prop := validTok (idg_name g) /\ Forall (fun p => validTok (ipl_table p)) (idg_entries g).

(** A document whose lines were all read. *)
Record Good (c : Core) : Prop := {
  gd_syntax : c_syntax c = 0 /\ c_stopped c = false;
  gd_block : forall b, c_block c <> Detached b;
  gd_header : exists tok, idoc_nameTok (c_document c) = Some tok /\ validTok tok /\ tk_t tok = idoc_name (c_document c);
  gd_failed : idoc_failed (c_document c) = [];
  gd_uses : Forall UseRead (idoc_uses (c_document c));
  gd_tables : Forall TableRead (idoc_tables (c_document c));
  gd_diagrams : Forall DiagramRead (idoc_diagrams (c_document c));
  gd_distinct : NoDup (map fst (idoc_constraints (c_document c)));
  gd_names : map fst (idoc_constraints (c_document c)) ≡ₚ concat (map constraintNames (idoc_tables (c_document c)));
  gd_cache : c_cache c = K }.

(** A table changes, and with it the constraint names. *)
Lemma concat_alter (f : ITable -> ITable) extra i l : (forall t, l !! i = Some t -> constraintNames (f t) ≡ₚ extra ++ constraintNames t) -> is_Some (l !! i) ->
  concat (map constraintNames (alter f i l)) ≡ₚ extra ++ concat (map constraintNames l).
Proof.
  revert i. induction l as [|t l IH]; intros i Hf [x Hx]; [done|]. destruct i as [|i]; cbn.
  - by rewrite (Hf t), <- app_assoc.
  - unfold alter in IH. rewrite (IH i), !app_assoc; [by rewrite (Permutation_app_comm (constraintNames t))|done|by exists x].
Qed.

Lemma Good_table c ti f : Good c ->
  (forall t, idoc_tables (c_document c) !! ti = Some t -> TableRead t -> TableRead (f t) /\ constraintNames (f t) ≡ₚ constraintNames t) ->
  Good (onDocument (setTables (alter f ti)) c).
Proof.
  intros [H1 H2 H3 H4 H5 H6 H7 H8 H9 H10] Hf. split; try done; cbn.
  - apply Forall_alter; [done|]. intros t Ht Hr. by apply Hf.
  - rewrite H9. destruct (idoc_tables (c_document c) !! ti) as [t|] eqn:E.
    + rewrite (concat_alter f []); [done| |by exists t]. intros x Hx. apply Hf; [congruence|]. exact (Forall_lookup_1 _ _ _ _ H6 Hx).
    + assert (alter f ti (idoc_tables (c_document c)) = idoc_tables (c_document c)) as ->; [|done]. apply list_eq. intros j.
      destruct (decide (ti = j)) as [<-|]; [by rewrite list_lookup_alter_eq, E|by rewrite list_lookup_alter_ne].
Qed.

Lemma Good_constraint c ti f tok : Good c -> assoc (tk_t tok) (idoc_constraints (c_document c)) = None -> is_Some (idoc_tables (c_document c) !! ti) ->
  (forall t, idoc_tables (c_document c) !! ti = Some t -> TableRead t -> TableRead (f t) /\ constraintNames (f t) ≡ₚ tk_t tok :: constraintNames t) ->
  Good (onDocument (setTables (alter f ti)) (onDocument (addConstraint tok) c)).
Proof.
  intros [H1 H2 H3 H4 H5 H6 H7 H8 H9 H10] Hn Ht Hf. split; try done; cbn.
  - apply Forall_alter; [done|]. intros t Hx Hr. by apply Hf.
  - rewrite assoc_set_new, map_app by done. apply NoDup_app. split_and!; [done| |by apply NoDup_singleton].
    intros x Hx Hx2. apply list_elem_of_singleton in Hx2 as ->. by apply assoc_None in Hn.
  - rewrite assoc_set_new, map_app, H9 by done. rewrite (concat_alter f [tk_t tok]); [by rewrite Permutation_app_comm| |done].
    intros x Hx. apply Hf; [done|]. exact (Forall_lookup_1 _ _ _ _ H6 Hx).
Qed.

Lemma Good_syntax c : Good c -> c_syntax c = 0.
Proof. by intros [[]]. Qed.
End read.

#[export] Hint Resolve Good_syntax : run.

(** ** Parts of lines *)

Section parts.
Variables (G : Tk -> Prop) (K : list (string * CacheEntry)) (lines : list (list rune)) (toks : list Tk) (line : Z).
Hypothesis line_pos : line <> 0.
Hypothesis on_line : Forall (fun t => tk_line t = line) toks.
Hypothesis line_good : forall t, tk_line t = line -> G t.

(** A token of the line. *)
Definition onLine (t : Tk) : Prop := tk_line t = line.

Lemma onLine_lookup i t : toks !! i = Some t -> onLine t.
Proof. intros Ht. by eapply (Forall_lookup_1 _ _ _ _ on_line). Qed.

Lemma onLine_word i t : wordTk (toks !! i) = Some t -> onLine t /\ tk_k t = KWord.
Proof. unfold wordTk. destruct (toks !! i) as [x|] eqn:E; [|done]. case_decide; [|done]. intros [= <-]. split; [by eapply onLine_lookup|done]. Qed.

Lemma run_syntax s i message : run s (c_syntax (core s) = 0) (syntax lines toks i line message) (fun _ _ => False).
Proof.
  unfold syntax. destruct (toks !! i) as [t|] eqn:E; [unfold at_; rewrite (onLine_lookup _ _ E)|]; (eapply run_pre; [|apply run_syntaxError]); done.
Qed.
Hint Resolve run_syntax : run.

(** A list that was read holds every word of its tokens. *)
Definition listed (i : nat) (r : option (list Tk * nat)) : Prop :=
  match r with Some (l, j) => Forall onLine l /\ (forall k t, (i <= k < j)%nat -> toks !! k = Some t -> tk_k t = KWord -> t ∈ l) | None => False end.

Lemma run_listFrom fuel i0 i close words s : (i0 <= i)%nat -> Forall onLine words -> (forall k t, (i0 <= k < i)%nat -> toks !! k = Some t -> tk_k t = KWord -> t ∈ words) ->
  run s (c_syntax (core s) = 0) (listFrom lines fuel toks i line close words) (fun r s' => core s' = core s /\ listed i0 r).
Proof.
  revert i words s. induction fuel as [|fuel IH]; intros i words s Hi Hw Hl; cbn [listFrom]; [done|].
  destruct (wordTk (toks !! i)) as [w|] eqn:Ew; [|by run_all].
  assert (Hw' : Forall onLine (words ++ [w])) by (apply Forall_app; split; [done|]; apply onLine_word in Ew as [Ew _]; by repeat constructor).
  assert (Hl' : forall k t, isPunct (toks !! S i) "," = true \/ isPunct (toks !! S i) close = true -> (i0 <= k < S (S i))%nat -> toks !! k = Some t -> tk_k t = KWord -> t ∈ words ++ [w]).
  { intros k t Hp Hk Ht Hkw. rewrite elem_of_app, list_elem_of_singleton. destruct (decide (k < i)%nat); [left; by apply (Hl k); [lia|..]|].
    destruct (decide (k = i)) as [->|]; [right|].
    - unfold wordTk in Ew. rewrite Ht, decide_True in Ew by done. by injection Ew.
    - replace k with (S i) in Ht by lia. rewrite Ht in Hp. unfold isPunct, isTk in Hp. rewrite Hkw, !bool_decide_eq_false_2 in Hp by done. destruct Hp; discriminate. }
  destruct (isPunct _ ",") eqn:Ep; [apply IH; [lia|done|by intros; eapply Hl'; [left|..]]|]. run_all. intros _. split; [done|split; [done|]]. intros k t Hk Ht Hkw. apply (Hl' k t); auto.
Qed.

Lemma run_list i close s : run s (c_syntax (core s) = 0) (list_ lines toks i line close) (fun r s' => core s' = core s /\ listed i r).
Proof. apply run_listFrom; [lia|constructor|intros; lia]. Qed.

Lemma run_end i s : run s (c_syntax (core s) = 0) (end_ lines toks i line) (fun b s' => core s' = core s /\ b = true /\ (length toks <= i)%nat).
Proof. unfold end_. destruct (Nat.leb_spec (length toks) i); run_all. Qed.
Hint Resolve run_list run_end : run.

Definition keyCols (r : option (list IKeyColumn * nat)) : Prop := match r with Some (l, _) => Forall (fun c => onLine (ikc_tok c)) l | None => False end.

Lemma run_keyColumnsFrom fuel i directions cols s : Forall (fun c => onLine (ikc_tok c)) cols ->
  run s (c_syntax (core s) = 0) (keyColumnsFrom lines fuel toks i line directions cols) (fun r s' => core s' = core s /\ keyCols r).
Proof.
  revert i cols s. induction fuel as [|fuel IH]; intros i cols s Hc; cbn [keyColumnsFrom]; [done|].
  destruct (wordTk (toks !! i)) as [w|] eqn:Ew; [|by run_all].
  assert (Hc' : forall d, Forall (fun c => onLine (ikc_tok c)) (cols ++ [mkIKeyColumn w d])) by (intros d; apply Forall_app; split; [done|]; apply onLine_word in Ew as [Ew _]; by repeat constructor).
  cbv zeta. run_step. { destruct (_ && _); run_all. } run_step. destruct (isPunct _ ","); [|run_all; run_leaf; apply Hc'].
  eapply run_weaken; [eapply run_pre; [|by apply IH]; run_leaf|run_leaf].
Qed.

Lemma run_keyColumns i directions s :
  run s (c_syntax (core s) = 0) (keyColumns lines toks i line directions) (fun r s' => core s' = core s /\ keyCols r).
Proof. unfold keyColumns. run_all. by apply run_keyColumnsFrom. Qed.

Lemma run_keywordAt i word s : run s True (keywordAt toks i word) (fun _ s' => core s' = core s).
Proof. unfold keywordAt. run_all. Qed.
Hint Resolve run_keyColumns run_keywordAt : run.

(** ** Uses *)

Lemma run_eachFailed {A} (f : A -> Rd unit) (h : A -> list string -> list string) l s :
  (forall x s, run s True (f x) (fun _ s' => core s' = onDocument (setFailedNames (h x)) (core s))) ->
  run s True (eachP f l) (fun _ s' => core s' = onDocument (setFailedNames (fun v => foldl (fun v x => h x v) v l)) (core s)).
Proof.
  intros Hf. revert s. induction l as [|x l IH]; intros s; cbn [eachP]; [apply run_ret; intros _; by destruct (core s) as [[] ? ? ? ?]|].
  eapply run_bind; [apply Hf|]. intros [] s1. eapply run_weaken; [apply run_frame, IH|]. cbn beta. by intros _ s' [_ E1] ->; rewrite E1.
Qed.

Definition addWord (t : Tk) (v : list string) : list string := if decide (tk_k t = KWord) then set_add (tk_t t) v else v.

Lemma foldl_addWord l v x : x ∈ foldl (fun v t => addWord t v) v l -> x ∈ v \/ exists t, t ∈ l /\ tk_k t = KWord /\ x = tk_t t.
Proof.
  revert v. induction l as [|t l IH]; intros v; [by left|]. cbn. intros Hx. apply IH in Hx as [Hx|(u & ? & ?)]; [|right; exists u; split; [by right|done]].
  unfold addWord in Hx. case_decide; [|by left]. apply set_add_elem in Hx as [->|Hx]; [right; exists t; split; [by left|done]|by left].
Qed.

Lemma foldl_delete l v x : x ∈ foldl (fun v t => set_delete (tk_t t) v) v l -> x ∈ v /\ x ∉ map tk_t l.
Proof.
  revert v. induction l as [|t l IH]; intros v; cbn; [intros; split; [done|by apply not_elem_of_nil]|]. intros Hx. apply IH in Hx as [Hx Hn].
  apply list_elem_of_filter in Hx as [Hne Hx]. split; [done|]. by apply not_elem_of_cons.
Qed.

Lemma run_use comments s : run s (c_syntax (core s) = 0) (use lines toks line comments) (fun _ s' =>
  exists u g, core s' = onDocument (fun d => addUse u (setFailedNames g d)) (core s) /\ g [] = [] /\ UseRead G u).
Proof.
  unfold use. eapply run_bind.
  { apply run_frame, (run_eachFailed _ addWord). intros t s1. unfold addWord. case_decide; [apply run_setDocument|apply run_ret; intros _; by destruct (core s1) as [[] ? ? ? ?]]. }
  intros [] s1. destruct (wordTk (toks !! 1%nat)) as [doc|] eqn:Ed; [|run_all]. apply onLine_word in Ed as [Ed _].
  destruct (isPunct (toks !! 2%nat) "{") eqn:Ep; [|run_all]. cbn [negb].
  eapply run_bind; [eapply run_pre; [|apply run_list]; run_leaf|]. intros [[tables i]|] s2; [|run_all].
  eapply run_bind; [eapply run_pre; [|apply run_end]; run_leaf|]. intros ended s3. destruct ended; [|run_all]. cbn [negb].
  run_step. eapply run_bind; [apply run_frame, (run_eachP _ _ (fun t => validName (tk_t t) = true)); intros; apply run_checkName|]. intros [] s5.
  eapply run_bind; [apply run_frame, (run_eachFailed _ (fun t => set_delete (tk_t t))); intros; apply run_setDocument|]. intros [] s6.
  run_step. eapply run_bind; [apply run_frame, (run_eachP _ _ (fun _ => True)); intros; eapply run_weaken; [apply run_mark|]; run_leaf|]. intros [] s8.
  eapply run_weaken; [apply run_frame, run_setDocument|]. intros [] s' Hpre Hs'. run_hyps. exists (mkIUse doc tables comments).
  eexists (fun v => foldl (fun v t => set_delete (tk_t t) v) (foldl (fun v t => addWord t v) v (drop 2 toks)) tables).
  split; [reflexivity|]. destruct H12 as [Hl Hw]. split; [|split; [by split; [apply line_good|]|]].
  2:{ eapply Forall_impl; [apply Forall_and; split; [exact Hl|exact H5]|]. cbn. intros t [? ?]. by split; [apply line_good|]. }
  apply elem_of_nil_inv. intros x Hx. apply foldl_delete in Hx as [Hx Hn]. apply foldl_addWord in Hx as [Hx|(t & Ht & Hk & ->)]; [by apply elem_of_nil in Hx|].
  apply Hn, list_elem_of_fmap_2. apply list_elem_of_lookup in Ht as [k Ht]. rewrite lookup_drop in Ht. apply (Hw (2 + k)%nat t); [|done|done].
  pose proof (lookup_lt_Some _ _ _ Ht). destruct k; [|lia]. exfalso. cbn [Nat.add] in Ht. unfold isPunct, isTk in Ep. rewrite Ht, Hk in Ep. discriminate.
Qed.

(** ** Columns *)

Lemma run_type tok params s : run s True (type lines tok params) (fun r s' => core s' = core s /\ exists t, r = Some t /\ typeInBounds t).
Proof.
  unfold type. cbv zeta. destruct (assoc (tk_t tok) PLAIN_KINDS) as [plain|] eqn:Ep.
  { assert (typeInBounds plain).
    { unfold PLAIN_KINDS in Ep. repeat (cbn in Ep; case_decide; [by injection Ep as <-|]). done. }
    destruct params; run_all. run_leaf. by eexists. }
  repeat case_match; run_all; intros _; (split; [done|]); eexists; (split; [done|]); cbn; lia.
Qed.
Hint Resolve run_type : run.

Lemma run_typeParams s : run s (c_syntax (core s) = 0) (typeParams lines toks line) (fun r s' => core s' = core s /\ r <> None).
Proof. unfold typeParams. run_all. intros Hpre. run_hyps. destruct a as [[params i]|]; run_leaf. Qed.

Lemma run_defaultValue i s : run s (c_syntax (core s) = 0) (defaultValue lines toks i line) (fun r s' => core s' = core s /\ snd r = true).
Proof. unfold defaultValue. run_all. Qed.
Hint Resolve run_typeParams run_defaultValue : run.

(** The rules of an identity column. *)
Lemma run_identityColumn ti identity type nullTok dflt s :
  run s True (identityColumn lines ti identity type nullTok dflt) (fun _ s' =>
    core s' = onDocument (setTables (alter setIdentity ti)) (core s) /\ (type <> None -> type = Some TI64) /\ nullTok = None).
Proof.
  unfold identityColumn. eapply (run_bind _ _ _ _ (fun _ s' => core s' = core s /\ (type <> None -> type = Some TI64))); [run_all; run_leaf|intros ? ?].
  eapply (run_bind _ _ _ _ (fun _ s' => core s' = core s /\ nullTok = None)); [run_all; run_leaf|intros ? ?].
  run_all.
Qed.

Lemma run_columnDefault dflt valueTok type s :
  run s True (columnDefault lines dflt valueTok type) (fun r s' => core s' = core s /\ (forall t v, type = Some t -> r = Some v -> defaultFits t v)).
Proof.
  unfold columnDefault. run_all; run_leaf. intros t1 v Ht Hv. run_hyps. split_and!; [naive_solver..|by exists t0].
Qed.
Hint Resolve run_identityColumn run_columnDefault : run.

Lemma alters f g ti c : onDocument (setTables (alter f ti)) (onDocument (setTables (alter g ti)) c) = onDocument (setTables (alter (f ∘ g) ti)) c.
Proof.
  unfold onDocument, setTables. cbn. do 2 f_equal. generalize (idoc_tables (c_document c)). intros l. revert ti.
  induction l as [|t l IH]; intros [|ti]; [done..|]. cbn. f_equal. apply IH.
Qed.

Lemma setIdentity_read t : TableRead G t -> TableRead G (setIdentity t).
Proof. by intros []. Qed.

Lemma addColumn_read t c : TableRead G t -> ColumnRead G c -> assoc (tk_t (icol_name c)) (it_colMap t) = None ->
  TableRead G (mapColumn (tk_t (icol_name c)) c (addColumn c t)).
Proof.
  intros [H1 H2 H3 H4 H5 H6 H7 H8 H9 H10] Hc Hn. split; try done; cbn.
  - apply Forall_app. split; [done|by apply Forall_singleton].
  - rewrite assoc_set_new by done. by rewrite map_app, H4.
  - rewrite map_app. apply NoDup_app. split_and!; [done| |by apply NoDup_singleton]. intros x Hx Hx2. apply list_elem_of_singleton in Hx2 as ->.
    apply assoc_None in Hn. apply Hn. by rewrite H4, map_map.
Qed.

(** The columns of a changed table. *)
Lemma alter_id ti c : onDocument (setTables (alter id ti)) c = c.
Proof.
  destruct c as [[? ? ? tables ? ? ? ?] ? ? ?]. unfold onDocument, setTables. cbn. do 2 f_equal. clear. revert ti.
  induction tables as [|t l IH]; intros [|ti]; [done..|]. cbn. f_equal. apply IH.
Qed.

Lemma alter_lookup f ti c t' : idoc_tables (c_document (onDocument (setTables (alter f ti)) c)) !! ti = Some t' ->
  exists t, idoc_tables (c_document c) !! ti = Some t /\ t' = f t.
Proof. cbn. rewrite list_lookup_alter_eq. destruct (_ !! ti) as [t|]; [|done]. cbn. intros [= <-]. by exists t. Qed.

Lemma run_columnBody ti i comments nameTok typeTok params s :
  run s (Good G K (core s) /\ G nameTok) (columnBody lines ti toks i line comments nameTok typeTok params) (fun _ s' => Good G K (core s')).
Proof.
  unfold columnBody. do 2 run_step. 
  do 6 run_step. run_step; [run_all|]. do 2 run_step. run_step; [run_all|].
  eapply (run_bind _ _ _ _ (fun value s' => exists g, core s' = onDocument (setTables (alter g ti)) (core s6) /\ (g = setIdentity \/ g = id) /\
    (forall t v, a0 = Some t -> value = Some v -> defaultFits t v) /\ (o0 <> None -> (a0 <> None -> a0 = Some TI64) /\ o = None /\ value = None))).
  { destruct o0; run_all; intros; run_hyps.
    - exists setIdentity. split_and!; [done|by left|done|done].
    - exists id. rewrite alter_id. split_and!; [done|by right|done|done]. }
  intros value s7. run_step. run_step; [run_all|]. run_step. run_step; [run_all|].
  eapply run_weaken; [apply run_frame, run_onTable|]. intros [] s' Hpre Hs'. run_hyps.
  match goal with |- context [mapColumn _ ?x] => set (c := x) end.
  match goal with H : o0 <> None -> _ |- _ => rename H into Hid end. match goal with H : _ = setIdentity \/ _ |- _ => rename H into Hx end.
  match goal with H : forall _ _, _ -> _ -> defaultFits _ _ |- _ => rename H into Hfit end. match goal with H : _ !! ti = Some _ |- _ => rename H into Hti end.
  assert (Hc : ColumnRead G c).
  { split; [by split|exists x0; split_and!; [done|done|intros v; by apply Hfit]|]. cbn. intros Hi. destruct (Hid Hi) as (Ht & -> & ->). split_and!; [by apply Ht|apply bool_decide_eq_false_2; tauto|done]. }
  run_cores. apply alter_lookup in Hti as (t1 & Hti & ->). rewrite !alters. apply Good_table; [done|]. intros t Ht Hr.
  apply alter_lookup in Hti as (t2 & Hti & ->). rewrite Ht in Hti. apply Some_inj in Hti as <-.
  change (tk_t nameTok) with (tk_t (icol_name c)) in *. unfold compose. split.
  - apply addColumn_read; [destruct Hx as [-> | ->]; [by apply setIdentity_read|done]|done|done].
  - by destruct Hx as [-> | ->].
Qed.

Lemma run_countColumn s : run s True (modify countColumn) (fun _ s' => core s' = core s).
Proof. eapply run_weaken; [by apply run_frame, run_modify|]. by intros [] s' _ ->. Qed.

Lemma run_countForeignKey s : run s True (modify countForeignKey) (fun _ s' => core s' = core s).
Proof. eapply run_weaken; [by apply run_frame, run_modify|]. by intros [] s' _ ->. Qed.
Hint Resolve run_countColumn run_countForeignKey run_columnBody : run.


Lemma run_column ti comments s : run s (Good G K (core s)) (column lines ti toks line comments) (fun _ s' => Good G K (core s')).
Proof.
  unfold column. run_all.
  eapply run_pre; [|apply run_columnBody]. intros; run_hyps. split; [done|]. by eapply line_good, onLine_lookup.
Qed.

(** A failed column line keeps its syntax error. *)
Lemma failColumnLine_diagnostics ti first s s' : failColumnLine ti first s = Ok (tt, s') -> dp_diagnostics s' = dp_diagnostics s.
Proof. unfold failColumnLine, onTable, mbind, M_bind, modify. case_decide; by intros [= <-]. Qed.

Lemma columnLineOf_good nt nd b ti first rest own s s' : toks = first :: rest -> (ti < nt)%nat -> Reading nt nd b s -> Good G K (core s) ->
  columnLineOf lines ti first toks line own s = Ok (tt, s') -> clean s' -> clean s /\ Good G K (core s').
Proof.
  intros Ht Hti Hs Hg. unfold columnLineOf. rewrite (bindM_step get _ s s s eq_refl).
  destruct (ok_column lines nt nd b ti first rest line own Hti s Hs) as ([] & s1 & E1 & Hs1 & _ & Hc1). rewrite <- Ht in E1.
  rewrite (bindM_step _ _ _ _ _ E1), (bindM_step get _ s1 s1 s1 eq_refl). destruct (Z.eqb_spec (dp_syntaxLine s1) line) as [El|_].
  - destruct (keepSyntax_ok nt nd b line (length (dp_diagnostics s)) line_pos s1 Hs1 El) as (s2 & E2 & Hs2 & Hn). rewrite (bindM_step _ _ _ _ _ E2).
    intros E3 Hc. apply failColumnLine_diagnostics in E3. unfold clean in *. congruence.
  - intros E Hc. assert (Hrun : run s1 True (t ← theTable ti; if (0 <? it_phase t) && negb (dp_stopped s1)
      then at_ lines "order" first "columns come before keys, indexes, foreign keys, checks and settings" else mret tt) (fun _ s' => core s' = core s1)) by run_all.
    destruct (Hrun _ _ E Hc) as [Hc2 Hcore]. destruct (run_column ti own s _ _ E1 Hc2) as [Hc3 Hg1]. split; [done|]. rewrite Hcore; auto.
Qed.

(** ** Keys, foreign keys and checks *)

Lemma run_actionClause i event s : run s (c_syntax (core s) = 0) (actionClause lines toks i line event) (fun r s' => core s' = core s /\ r <> None).
Proof. unfold actionClause. run_all. Qed.

Lemma run_checkAction action s : run s True (checkAction lines action) (fun _ s' => core s' = core s /\ tk_t action ∈ ACTION_LIST).
Proof. unfold checkAction. destruct (includes _ _) eqn:E; [apply bool_decide_eq_true in E|]; run_all. Qed.

Lemma run_checkNames (l : list IKeyColumn) s :
  run s True (eachP (fun c => checkName lines (ikc_tok c)) l) (fun _ s' => core s' = core s /\ Forall (fun c => validName (tk_t (ikc_tok c)) = true) l).
Proof. apply run_eachP. intros. apply run_checkName. Qed.

Lemma run_checkActions l s : run s True (eachP (checkAction lines) l) (fun _ s' => core s' = core s /\ Forall (fun a => tk_t a ∈ ACTION_LIST) l).
Proof. apply run_eachP. intros. apply run_checkAction. Qed.
Hint Resolve run_actionClause run_checkNames run_checkActions : run.

(** Moves a name to the front of appended lists. *)
Ltac permute := match goal with |- _ ≡ₚ ?x :: ?l => change (x :: l) with ([x] ++ l); solve_Permutation end.

(** Named tokens with valid names. *)
Lemma validToks (l : list IKeyColumn) : Forall (fun c => onLine (ikc_tok c)) l -> Forall (fun c => validName (tk_t (ikc_tok c)) = true) l -> Forall (validTok G) (map ikc_tok l).
Proof. intros H1 H2. apply Forall_map. eapply Forall_impl; [apply Forall_and; split; [exact H1|exact H2]|]. cbn. intros c [? ?]. by split; [apply line_good|]. Qed.

Lemma action_read (a : option Tk) : Forall (fun a => tk_t a ∈ ACTION_LIST) (option_list a) -> actionName a ∈ ACTION_LIST.
Proof. destruct a; [by intros [? _]%Forall_cons|]. intros _. by apply (bool_decide_unpack _). Qed.

Lemma addForeignKey_read t f : TableRead G t -> ForeignKeyRead G f ->
  TableRead G (addForeignKey f t) /\ constraintNames (addForeignKey f t) ≡ₚ tk_t (ifk_name f) :: constraintNames t.
Proof.
  intros [H1 H2 H3 H4 H5 H6 H7 H8 H9 H10] Hf. split.
  - split; try done. cbn. apply Forall_app. split; [done|by apply Forall_singleton].
  - unfold constraintNames. cbn. rewrite !map_app. cbn [map]. permute.
Qed.

Lemma addUnique_read t k n : TableRead G t -> KeyRead G k -> ikey_name k = Some n -> TableRead G (addUnique k t) /\ constraintNames (addUnique k t) ≡ₚ tk_t n :: constraintNames t.
Proof.
  intros [H1 H2 H3 H4 H5 H6 H7 H8 H9 H10] Hk Hn. rewrite Forall_app in H7. destruct H7. split.
  - split; try done. cbn. rewrite !Forall_app. split_and!; [done|by apply Forall_singleton|done].
  - unfold constraintNames. cbn. rewrite !map_app. cbn [map]. rewrite Hn. permute.
Qed.

Lemma addIndex_read t k n : TableRead G t -> KeyRead G k -> ikey_name k = Some n -> TableRead G (addIndex k t) /\ constraintNames (addIndex k t) ≡ₚ tk_t n :: constraintNames t.
Proof.
  intros [H1 H2 H3 H4 H5 H6 H7 H8 H9 H10] Hk Hn. rewrite Forall_app in H7. destruct H7. split.
  - split; try done. cbn. rewrite !Forall_app. split_and!; [done|done|by apply Forall_singleton].
  - unfold constraintNames. cbn. rewrite !map_app. cbn [map]. rewrite Hn. permute.
Qed.

Lemma addCheck_read t k : TableRead G t -> validTok G (ick_name k) ->
  TableRead G (setChecks (fun l => l ++ [k]) t) /\ constraintNames (setChecks (fun l => l ++ [k]) t) ≡ₚ tk_t (ick_name k) :: constraintNames t.
Proof.
  intros [H1 H2 H3 H4 H5 H6 H7 H8 H9 H10] Hk. split.
  - split; try done. cbn. apply Forall_app. split; [done|by apply Forall_singleton].
  - unfold constraintNames. cbn. rewrite !map_app. cbn [map]. permute.
Qed.

Lemma addPrimary_read t k : TableRead G t -> PrimaryRead G k -> TableRead G (addPrimary k t).
Proof. intros [H1 H2 H3 H4 H5 H6 H7 H8 H9 H10] Hk. split; try done. cbn. apply Forall_app. split; [done|by apply Forall_singleton]. Qed.

(** A place of the document. *)
Definition hasTable (ti : nat) (c : Core) : Prop := is_Some (idoc_tables (c_document c) !! ti).

(** A foreign key joins the table. *)
Definition oneMoreKey (ti : nat) (c c' : Core) : Prop := forall t t',
  idoc_tables (c_document c) !! ti = Some t -> idoc_tables (c_document c') !! ti = Some t' -> length (it_fks t') = S (length (it_fks t)).

Lemma run_foreignKeyEnd ti kw name_ cols target refs onDelete onUpdate comments s :
  run s (Good G K (core s) /\ hasTable ti (core s) /\ onLine name_ /\ Forall (fun c => onLine (ikc_tok c)) cols /\ onLine target /\ Forall (fun c => onLine (ikc_tok c)) refs)
    (foreignKeyEnd lines ti kw name_ cols target refs onDelete onUpdate comments) (fun _ s' => Good G K (core s') /\ oneMoreKey ti (core s) (core s')).
Proof.
  unfold foreignKeyEnd. run_step. run_step. run_step; [run_all|]. do 5 run_step. run_step. intros [] s' Hpre Hs'. run_hyps. run_cores.
  match goal with H : Forall _ (option_list _ ++ _) |- _ => apply Forall_app in H as [Hd Hu] end.
  split. 2:{ intros t t' Ht. cbn. rewrite list_lookup_alter_eq. unfold core in Ht. cbn in Ht. rewrite Ht. intros [= <-]. cbn. rewrite length_app. cbn. lia. }
  apply Good_constraint; [done..|]. intros t _ Ht. apply addForeignKey_read; [done|].
  split_and!; first [by apply validToks|by apply action_read|by split; [apply line_good|]].
Qed.

Lemma run_foreignKeyLine ti comments s : run s (Good G K (core s) /\ hasTable ti (core s)) (foreignKeyLine lines ti toks line comments) (fun _ s' => Good G K (core s') /\ oneMoreKey ti (core s) (core s')).
Proof.
  unfold foreignKeyLine. run_step. run_step; [run_all|]. run_step. destruct (wordTk (toks !! 2%nat)) as [name_|] eqn:Ew; [|run_all]. apply onLine_word in Ew as [Ew _].
  run_step. run_step. run_all.
  match goal with H : wordTk _ = Some ?t |- _ => apply onLine_word in H as [Ht _] end.
  eapply run_weaken; [eapply run_pre; [|apply run_foreignKeyEnd]|]; intros; run_hyps; [by split_and!|]. split; [done|]. run_cores. done.
Qed.

Lemma run_keyLine ti kw comments s : run s (Good G K (core s) /\ hasTable ti (core s)) (keyLine lines ti kw toks line comments) (fun _ s' => Good G K (core s')).
Proof.
  unfold keyLine. destruct (wordTk (toks !! 1%nat)) as [name_|] eqn:Ew; [|run_all]. apply onLine_word in Ew as [Ew _].
  cbv zeta. run_step. destruct a as [[cols i]|]; [|by run_step; run_leaf]. run_step. run_step; [run_step; run_leaf|]. do 3 run_step.
  run_step. intros [] s' Hpre Hs'. run_hyps. run_cores. apply Good_constraint; [done..|]. intros t _ Ht.
  assert (KeyRead G (mkIKey kw (Some name_) cols comments)).
  { split; [exists name_; split; [done|]; by split; [apply line_good|]|]. by apply validToks. }
  case_match; [by eapply addIndex_read|by eapply addUnique_read].
Qed.

Lemma run_primaryLine ti kw comments s : run s (Good G K (core s) /\ G kw) (primaryLine lines ti kw toks line comments) (fun _ s' => Good G K (core s')).
Proof.
  unfold primaryLine. run_step; [run_all|]. run_step. run_step. destruct a0 as [[cols i]|]; [|by run_step; run_leaf]. run_step. run_step; [run_step; run_leaf|].
  run_step. run_step. intros [] s' Hpre Hs'. run_hyps. run_cores. apply Good_table; [done|]. intros t _ Ht. split; [|done].
  apply addPrimary_read; [done|]. split; [done|]. by apply validToks.
Qed.

Lemma run_checkLine ti comments s : run s (Good G K (core s) /\ hasTable ti (core s)) (checkLine lines ti toks line comments) (fun _ s' => Good G K (core s')).
Proof.
  unfold checkLine. destruct (wordTk (toks !! 1%nat)) as [name_|] eqn:Ew; [|run_all]. apply onLine_word in Ew as [Ew _].
  run_step; [run_all|]. run_step. run_step; [run_all|]. run_step. run_step. run_step. intros [] s' Hpre Hs'. run_hyps. run_cores.
  apply Good_constraint; [done..|]. intros t _ Ht. apply addCheck_read; [done|]. by split; [apply line_good|].
Qed.
Hint Resolve run_foreignKeyLine run_keyLine run_primaryLine run_checkLine : run.

Lemma run_constraint ti comments s : run s (Good G K (core s) /\ hasTable ti (core s)) (constraint lines ti toks line comments) (fun _ s' => Good G K (core s')).
Proof.
  unfold constraint. run_step. run_step. run_all.
  - eapply run_pre; [|apply run_primaryLine]. intros. run_hyps. split; [done|]. by eapply line_good, onLine_lookup.
  - intros. run_hyps. exfalso. run_cores. match goal with H : oneMoreKey _ _ _ |- _ => specialize (H a1 a3 ltac:(done) ltac:(done)) end.
    apply Nat.eqb_eq in Heqb. lia.
Qed.

(** ** Settings *)

Lemma run_words from count s : run s (c_syntax (core s) = 0) (words lines toks line from count) (fun r s' => core s' = core s /\
  exists l, r = Some l /\ match count with Some n => length l = n | None => l <> [] end).
Proof.
  unfold words. destruct (wordsFrom _ _) as [out|j]; [|run_all]. destruct count as [n|].
  - destruct (length out <? n)%nat eqn:E1; [run_all|]. destruct (n <? length out)%nat eqn:E2; run_all; run_leaf. eexists. split; [done|].
    apply Nat.ltb_ge in E1, E2. lia.
  - run_all; run_leaf. eexists. split; [done|]. by destruct out.
Qed.

Lemma run_settingWord i what s : run s (c_syntax (core s) = 0) (settingWord lines toks i line what) (fun r s' => core s' = core s /\ r <> None).
Proof. unfold settingWord. run_all. Qed.

Lemma run_keywordOf i choices message s :
  run s (c_syntax (core s) = 0) (keywordOf lines toks i line choices message) (fun r s' => core s' = core s /\ exists w, r = Some w /\ tk_t w ∈ choices).
Proof. unfold keywordOf. destruct (wordTk _); [|run_all]. destruct (includes _ _) eqn:E; [apply bool_decide_eq_true in E|]; run_all; run_leaf; by eexists. Qed.
Hint Resolve run_words run_settingWord run_keywordOf : run.

Lemma run_shardClause i s : run s (c_syntax (core s) = 0) (shardClause lines toks i line) (fun r s' => core s' = core s /\
  exists shard j, r = Some (shard, j) /\ forall a c p, shard = Some (a, c, p) -> tk_t p ∈ PERIODS).
Proof. unfold shardClause. run_all; run_leaf; do 2 eexists; (split; [done|]); intros; by simplify_eq. Qed.
Hint Resolve run_shardClause : run.

(** What a setting kind that was read promises. *)
Definition kindRead (r : option ISettingKind) : Prop := exists k, r = Some k /\ forall kw comments, G kw -> SettingRead G (mkISetting kw comments k).

Lemma run_storeLine s : run s (c_syntax (core s) = 0) (storeLine lines toks line) (fun r s' => core s' = core s /\ kindRead r).
Proof.
  unfold storeLine. run_step. destruct a as [storage|]; [|run_all; run_leaf].
  eapply (run_bind _ _ _ _ (fun r s' => core s' = core s1 /\ r <> None)).
  { run_all. intros. run_hyps. by destruct a. }
  intros fk s2. destruct fk as [[fk i]|]; [|run_all].
  eapply (run_bind _ _ _ _ (fun r s' => core s' = core s2 /\ exists shape j, r = Some (shape, j) /\ forall w, shape = Some w -> tk_t w ∈ SHAPES)).
  { run_all; intros; run_hyps; (split; [congruence|]); do 2 eexists; (split; [done|]); intros; by simplify_eq. }
  intros shape s3. destruct shape as [[shape j]|]; [|run_all; run_leaf]. run_step. destruct a as [[shard k]|]; [|run_all; run_leaf]. run_step. run_step.
  intros. run_hyps. split; [done|]. eexists. split; [done|]. intros kw comments Hkw. split; [done|]. cbn. by split_and!.
Qed.

Lemma run_requireList i s : run s (c_syntax (core s) = 0) (requireList lines toks i line) (fun r s' => core s' = core s /\ r <> None).
Proof.
  unfold requireList. run_step; [run_all|]. run_step. run_step; [run_all|]. run_step. destruct a0 as [[l j]|]; [|run_all].
  eapply run_bind; [apply run_frame, (run_eachP _ _ (fun _ => True)); intros; eapply run_weaken; [apply run_mark|]; run_leaf|]. intros [] s3. run_all.
Qed.

Lemma run_machineEnd i form s : run s (c_syntax (core s) = 0) (machineEnd lines toks i line form) (fun r s' => core s' = core s /\ r <> None).
Proof. unfold machineEnd. run_all. Qed.

Lemma run_historyPart i word what s : run s (c_syntax (core s) = 0) (historyPart lines toks i line word what) (fun r s' => core s' = core s /\ r <> None).
Proof. unfold historyPart. run_all. Qed.
Hint Resolve run_storeLine run_requireList run_machineEnd run_historyPart : run.

Lemma run_historyForm i s : run s (c_syntax (core s) = 0) (historyForm lines toks i line) (fun r s' => core s' = core s /\ r <> None).
Proof. unfold historyForm. run_all. Qed.

Lemma run_limitCount i s : run s (c_syntax (core s) = 0) (limitCount lines toks i line) (fun r s' => core s' = core s /\ r <> None).
Proof. unfold limitCount. run_all. Qed.
Hint Resolve run_limitCount : run.

Lemma run_limitForm i s : run s (c_syntax (core s) = 0) (limitForm lines toks i line) (fun r s' => core s' = core s /\ r <> None).
Proof. unfold limitForm. run_all. Qed.

Lemma run_transitionForm i s : run s (c_syntax (core s) = 0) (transitionForm lines toks i line) (fun r s' => core s' = core s /\ r <> None).
Proof. unfold transitionForm. run_all. Qed.

Lemma run_stateForm i terminal s : run s (c_syntax (core s) = 0) (stateForm lines toks i line terminal) (fun r s' => core s' = core s /\ r <> None).
Proof. unfold stateForm. run_all. Qed.
Hint Resolve run_historyForm run_limitForm run_transitionForm run_stateForm : run.

(** A kind whose build relies on nothing. *)
Definition plainKind (k : ISettingKind) : Prop := match k with ICodec _ _ | IStore _ _ _ _ => False | _ => True end.

Lemma kindRead_plain k : plainKind k -> kindRead (Some k).
Proof. intros Hk. exists k. split; [done|]. intros kw comments Hkw. split; [done|]. by destruct k. Qed.

Lemma run_stateMachineLine s : run s (c_syntax (core s) = 0) (stateMachineLine lines toks line) (fun r s' => core s' = core s /\ kindRead r).
Proof.
  unfold stateMachineLine. run_step. destruct a as [column|]; [|run_all; run_leaf].
  eapply (run_bind _ _ _ _ (fun r s' => core s' = core s1 /\ r <> None)); [run_all|]. intros form s2. run_step. intros. run_hyps.
  destruct form; [|run_leaf]. split; [done|]. by apply kindRead_plain.
Qed.

Lemma run_auditParts i labels parts s : run s (c_syntax (core s) = 0) (auditParts lines toks i line labels parts) (fun r s' => core s' = core s /\ r <> None).
Proof.
  revert i parts s. induction labels as [|label labels IH]; intros i parts s; cbn [auditParts]; [by run_all|]. run_step; [run_all|]. run_step.
  destruct (wordTk _); [|run_all]. run_step. run_step. eapply run_weaken; [eapply run_pre; [|apply IH]|]; run_leaf.
Qed.

Lemma run_tablesParts i wants names s : run s (c_syntax (core s) = 0) (tablesParts lines toks i line wants names) (fun r s' => core s' = core s /\ r <> None).
Proof.
  revert i names s. induction wants as [|[want|] wants IH]; intros i names s; cbn [tablesParts]; [by run_all| |].
  - run_step; [run_all|]. apply IH.
  - destruct (wordTk _); [|run_all]. run_step. run_step. eapply run_weaken; [eapply run_pre; [|apply IH]|]; run_leaf.
Qed.
Hint Resolve run_auditParts run_tablesParts : run.

Lemma run_tablesClause i s : run s (c_syntax (core s) = 0) (tablesClause lines toks i line) (fun r s' => core s' = core s /\ r <> None).
Proof. unfold tablesClause. run_all. Qed.

Lemma run_auditListsFrom fuel i lists s : run s (c_syntax (core s) = 0) (auditListsFrom lines fuel toks i line lists) (fun r s' => core s' = core s /\ r <> None).
Proof.
  revert i lists s. induction fuel as [|fuel IH]; intros i lists s; cbn [auditListsFrom]; [done|]. destruct (wordTk _); [|by run_all]. run_step; [|by run_all].
  run_step; [run_all|]. run_step. destruct a as [[columns j]|]; [|run_all]. run_step.
  eapply run_bind; [apply run_frame, (run_eachP _ _ (fun _ => True)); intros; eapply run_weaken; [apply run_mark|]; run_leaf|]. intros [] s3.
  eapply run_weaken; [eapply run_pre; [|apply IH]|]; run_leaf.
Qed.
Hint Resolve run_tablesClause run_auditListsFrom : run.

Lemma run_auditSetting s : run s (c_syntax (core s) = 0) (auditSetting lines toks line) (fun r s' => core s' = core s /\ kindRead r).
Proof. unfold auditSetting. run_all; intros; run_hyps; split; first [done|by apply kindRead_plain]. Qed.

Lemma run_markedName w s : run s True (markedName lines w) (fun _ s' => core s' = core s).
Proof. unfold markedName. run_all. Qed.

Lemma run_eachMarked l s : run s True (eachP (markedName lines) l) (fun _ s' => core s' = core s).
Proof. eapply run_weaken; [apply run_frame, (run_eachP _ _ (fun _ => True)); intros; eapply run_weaken; [apply run_markedName|]; run_leaf|]. run_leaf. Qed.
Hint Resolve run_markedName run_eachMarked : run.

Lemma run_oneWord checked make s : (forall w, plainKind (make w)) -> run s (c_syntax (core s) = 0) (oneWord lines toks line checked make) (fun r s' => core s' = core s /\ kindRead r).
Proof.
  intros Hm. unfold oneWord. run_step. destruct a as [[|w l]|]; [run_all; run_leaf| |run_all; run_leaf].
  run_all. intros. run_hyps. split; [done|by apply kindRead_plain].
Qed.

Lemma run_selectSetting s : run s (c_syntax (core s) = 0) (selectSetting lines toks line) (fun r s' => core s' = core s /\ kindRead r).
Proof. unfold selectSetting. run_all; intros; run_hyps; split; first [done|by apply kindRead_plain|idtac]. Qed.

(** The stages of a codec of a kept block are known. *)
Lemma run_codecSetting s : run s (c_syntax (core s) = 0 /\ forall b, c_block (core s) <> Detached b) (codecSetting lines toks line) (fun r s' => core s' = core s /\ kindRead r).
Proof.
  unfold codecSetting. run_step. destruct a as [[|column [|stage stages]]|]; [run_all; run_leaf|run_all|..|run_all; run_leaf].
  set (l := stage :: stages). run_step.
  eapply run_bind; [apply run_frame, (run_eachP _ _ (fun _ => True)); intros; case_match; [eapply run_weaken; [apply run_mark|]; run_leaf|by apply run_ret]|]. intros [] s3.
  run_step. eapply (run_bind _ _ _ _ (fun _ s' => core s' = core s2 /\ Forall (fun t => tk_t t ∈ STAGE_LIST) l)).
  { assert (Hstages : run s2 True (eachP (fun s => if includes (tk_t s) STAGE_LIST then mret tt else at_ lines "setting" s (str [tk_t s; " is not a codec stage"])) l)
      (fun _ s' => core s' = core s2 /\ Forall (fun t => tk_t t ∈ STAGE_LIST) l)).
    { apply run_eachP. intros x s5 _. destruct (includes _ _) eqn:E; [apply bool_decide_eq_true in E|]; run_all. }
    destruct (dp_settingsBlock a0) eqn:Eb; [by apply run_frame..|]. apply run_ret. intros. run_hyps. change (c_block (core s3) = Detached block) in Eb. run_cores.
    by match goal with H : forall b, c_block _ <> _ |- _ => destruct (H block) end. }
  intros [] s5. run_step. intros. run_hyps. split; [done|]. eexists. split; [done|]. intros kw comments Hkw. by split.
Qed.

Lemma run_namesSetting count make s : (forall l, length l = count -> exists k, make l = Some k /\ plainKind k) ->
  run s (c_syntax (core s) = 0) (namesSetting lines toks line count make) (fun r s' => core s' = core s /\ kindRead r).
Proof.
  intros Hm. unfold namesSetting. run_step. destruct a as [l|]; [|run_all; run_leaf]. run_step. run_step. intros. run_hyps.
  match goal with |- context [make ?x] => destruct (Hm x eq_refl) as (k & -> & Hk) end. split; [done|by apply kindRead_plain].
Qed.

Lemma run_keyPrefixSetting s : run s (c_syntax (core s) = 0) (keyPrefixSetting lines toks line) (fun r s' => core s' = core s /\ kindRead r).
Proof. unfold keyPrefixSetting. run_all; intros; run_hyps; split; first [done|by apply kindRead_plain]. Qed.

Lemma run_checkboxSetting s : run s (c_syntax (core s) = 0) (checkboxSetting lines toks line) (fun r s' => core s' = core s /\ kindRead r).
Proof. unfold checkboxSetting. run_all; intros; run_hyps; split; first [done|by apply kindRead_plain]. Qed.

Lemma run_immutable s : run s (c_syntax (core s) = 0) (ended ← end_ lines toks 1 line; mret (if ended : bool then Some IImmutable else None)) (fun r s' => core s' = core s /\ kindRead r).
Proof. run_all. intros. run_hyps. split; [done|by apply kindRead_plain]. Qed.
Hint Resolve run_stateMachineLine run_auditSetting run_oneWord run_selectSetting run_namesSetting run_keyPrefixSetting run_checkboxSetting run_immutable : run.

Lemma run_settingKind kw s : run s (c_syntax (core s) = 0 /\ forall b, c_block (core s) <> Detached b) (settingKind lines kw toks line) (fun r s' => core s' = core s /\ kindRead r).
Proof.
  unfold settingKind. cbv zeta.
  repeat (case_decide; [first [apply run_codecSetting | eapply run_pre; [intros [Hx _]; exact Hx|];
    first [by apply run_oneWord|apply run_selectSetting|apply run_immutable|apply run_storeLine|apply run_keyPrefixSetting|apply run_checkboxSetting
          |apply run_stateMachineLine|apply run_auditSetting|apply run_namesSetting; intros [|? [|? [|? [|? ?]]]]; try done; intros _; by eexists]]|]).
  run_all.
Qed.

Lemma run_onBlock f s : run s (Good G K (core s)) (onBlock f) (fun _ s' => exists ti, core s' = onDocument (setTables (alter (setSettings (fmap f)) ti)) (core s)).
Proof.
  unfold onBlock. run_step. destruct (dp_settingsBlock a) as [|ti|block] eqn:Eb.
  - run_step. intros [] s' Hpre Hs'. run_hyps.
  - run_step. intros [] s' Hpre Hs'. run_hyps. by exists ti.
  - intros ? ? [= <- <-] Hc. split; [done|]. intros Hpre. run_hyps. exfalso. match type of Eb with dp_settingsBlock ?x = _ => change (c_block (core x) = Detached block) in Eb end.
    match goal with H : Good _ _ _ |- _ => apply (gd_block _ _ _ H block) end. congruence.
Qed.

Lemma addEntry_read t e : TableRead G t -> SettingRead G e ->
  TableRead G (setSettings (fmap (addEntry e)) t) /\ constraintNames (setSettings (fmap (addEntry e)) t) ≡ₚ constraintNames t.
Proof.
  intros [H1 H2 H3 H4 H5 H6 H7 H8 H9 H10] He. split; [|done]. split; try done. unfold settingEntries in *. cbn. destruct (it_settings t); [|done].
  cbn. apply Forall_app. split; [done|by apply Forall_singleton].
Qed.

Lemma run_setting comments lexed s : run s (Good G K (core s)) (setting lines toks line comments lexed) (fun _ s' => Good G K (core s')).
Proof.
  unfold setting. run_step; [run_all|]. run_step. run_step; [run_all|]. run_step.
  eapply run_bind; [eapply run_pre; [|apply run_settingKind]; intros; run_hyps; match goal with H : Good _ _ _ |- _ => split; apply H end|].
  intros kind s3. destruct kind as [kind|]; [|run_all; run_leaf].
  eapply run_weaken; [eapply run_pre; [|apply run_onBlock]; run_leaf|]. intros [] s' Hpre [ti Hs']. run_hyps. run_cores.
  apply Good_table; [done|]. intros t _ Ht. apply addEntry_read; [done|].
  match goal with H : kindRead (Some _) |- _ => destruct H as (k & Hk & Hr) end. injection Hk as <-. apply Hr. by eapply line_good, onLine_lookup.
Qed.

(** ** Placements *)

Lemma Good_diagram c di f : Good G K c -> (forall g, DiagramRead G g -> DiagramRead G (f g)) -> Good G K (onDocument (setDiagrams (alter f di)) c).
Proof. intros [H1 H2 H3 H4 H5 H6 H7 H8 H9] Hf. split; try done. cbn. apply Forall_alter; auto. Qed.

Lemma run_onDiagram di f s : run s True (onDiagram di f) (fun _ s' => core s' = onDocument (setDiagrams (alter f di)) (core s)).
Proof. apply run_setDocument. Qed.

Lemma run_coordinate i s : run s (c_syntax (core s) = 0) (coordinate lines toks i line) (fun r s' => core s' = core s /\ r <> None).
Proof. unfold coordinate. run_all. Qed.

Lemma run_coordinateValue c s : run s True (coordinateValue lines c) (fun _ s' => core s' = core s).
Proof. unfold coordinateValue. run_all. Qed.
Hint Resolve run_onDiagram run_coordinate run_coordinateValue : run.

Lemma run_placement di comments s : run s (Good G K (core s)) (placement lines di toks line comments) (fun _ s' => Good G K (core s')).
Proof.
  unfold placement. run_step. run_step; [run_all|]. run_step; [run_all|]. run_step. run_step. destruct a1 as [[[xt xs] i]|]; [|run_all; run_leaf].
  run_step. destruct a1 as [[[yt ys] j]|]; [|run_all; run_leaf]. run_step. run_step; [run_all|]. do 4 run_step. run_step. intros [] s' Hpre Hs'. run_hyps. run_cores.
  apply Good_diagram; [done|]. intros g [Hn Hg]. split; [done|]. cbn. apply Forall_app. split; [done|]. apply Forall_singleton. split; [|done].
  by eapply line_good, onLine_lookup.
Qed.

(** ** Headers of blocks *)

Lemma newTable_read t : it_named t = true -> validTok G (it_name t) -> it_failed t = [] -> it_failedPrimary t = false -> it_failedKey t = false -> it_failedLines t = 0 ->
  it_headerFailed t = false -> it_columns t = [] -> it_colMap t = [] -> it_pks t = [] -> it_uniques t = [] -> it_indexes t = [] -> it_fks t = [] -> it_checks t = [] ->
  it_settings t = None -> TableRead G t /\ constraintNames t = [].
Proof. intros. destruct t; cbn in *; subst. split; [|done]. by split; cbn; first [done|constructor]. Qed.

Lemma Good_addTable c t : Good G K c -> TableRead G t /\ constraintNames t = [] -> Good G K (onDocument (setTables (fun l => l ++ [t])) c).
Proof.
  intros [H1 H2 H3 H4 H5 H6 H7 H8 H9] [Ht Hn]. split; try done; cbn.
  - apply Forall_app. split; [done|by apply Forall_singleton].
  - by rewrite map_app, concat_app, H9; cbn; rewrite Hn, !app_nil_r.
Qed.

Lemma Good_addDiagram c g : Good G K c -> DiagramRead G g -> Good G K (onDocument (setDiagrams (fun l => l ++ [g])) c).
Proof. intros [H1 H2 H3 H4 H5 H6 H7 H8 H9] Hg. split; try done; cbn. apply Forall_app. split; [done|by apply Forall_singleton]. Qed.

Lemma run_tableHeader comments s : run s (Good G K (core s)) (tableHeader lines toks line comments) (fun i s' => Good G K (core s') /\ hasTable i (core s')).
Proof.
  unfold tableHeader. run_step. cbv zeta. run_step. run_step; [run_all|]. eapply run_bind; [apply run_frame, run_setDocument|]. intros [] s3.
  destruct (wordTk (toks !! 1%nat)) as [tok|] eqn:Ew; [|run_all]. apply onLine_word in Ew as [Ew _].
  eapply (run_bind _ _ _ _ (fun _ s' => core s' = core s3 /\ validName (tk_t tok) = true /\ isPunct (toks !! 2%nat) "{" = true /\ (length toks <= 3)%nat)).
  { do 2 run_step. destruct (isPunct (toks !! 2%nat) "{"); [|run_all]. run_all. }
  intros [] s4. run_step. intros. run_hyps.
  split; [|unfold hasTable; cbn; by rewrite lookup_app_r, Nat.sub_diag].
  apply Good_addTable; [done|]. apply newTable_read; try done.
  - by split; [apply line_good|].
  - cbn [it_headerFailed]. match goal with H : isPunct _ _ = true |- _ => rewrite H end. apply orb_false_iff. split; [done|by apply Nat.ltb_ge].
Qed.

Lemma run_diagramHeader comments s : run s (Good G K (core s)) (diagramHeader lines toks line comments) (fun _ s' => Good G K (core s')).
Proof.
  unfold diagramHeader. run_step. cbv zeta. run_step. eapply run_bind; [apply run_frame, run_setDocument|]. intros [] s3.
  destruct (wordTk (toks !! 1%nat)) as [tok|] eqn:Ew; [|run_all]. apply onLine_word in Ew as [Ew _].
  eapply (run_bind _ _ _ _ (fun _ s' => core s' = core s3 /\ validName (tk_t tok) = true)).
  { do 3 run_step; [run_all|]. run_step; [run_all|]. run_all. }
  intros [] s4. run_step. intros. run_hyps. apply Good_addDiagram; [done|]. split; [|constructor]. by split; [apply line_good|].
Qed.

(** ** Settings blocks *)

Definition setCoreBlock (b : SettingsBlock) (c : Core) : Core := mkCore (c_document c) (c_stopped c) b (c_syntax c) (c_cache c).

Lemma run_openSettingsBlock ti block s : run s True (openSettingsBlock ti block) (fun _ s' => c_syntax (core s') = c_syntax (core s) /\ exists t, idoc_tables (c_document (core s)) !! ti = Some t /\
  core s' = match it_settings t with
            | Some _ => setCoreBlock (Detached block) (core s)
            | None => setCoreBlock (BlockOf ti) (onDocument (setTables (alter (setSettings (fun _ => Some block)) ti)) (core s))
            end).
Proof.
  unfold openSettingsBlock. run_step. destruct (it_settings a) eqn:E.
  - eapply run_weaken; [by apply run_frame, run_modify|]. intros [] s' Hpre ->. run_hyps. 
    split; [match goal with H : core _ = _ |- _ => by rewrite <- H end|]. exists a. split; [done|]. rewrite E. match goal with H : core _ = _ |- _ => by rewrite <- H end.
  - run_step. eapply run_weaken; [by apply run_frame, run_modify|]. intros [] s' Hpre ->. run_hyps. run_cores.
    match goal with H : core ?x = onDocument _ _ |- _ => split; [change (c_syntax (core x) = c_syntax (core s)); by rewrite H|] end.
    exists a. split; [done|]. rewrite E. match goal with H : core _ = onDocument _ _ |- _ => by rewrite <- H end.
Qed.

Lemma Good_setBlock c ti : Good G K c -> Good G K (setCoreBlock (BlockOf ti) c).
Proof. by intros []. Qed.

Lemma setPhase_read n t : TableRead G t -> TableRead G (setPhase n t) /\ constraintNames (setPhase n t) ≡ₚ constraintNames t.
Proof. by intros []. Qed.

(** The first settings block of a table is the one that is read. *)
Lemma run_settingsHeader ti first own s : run s (Good G K (core s)) (settingsHeader lines ti first toks line own) (fun _ s' => Good G K (core s')).
Proof.
  unfold settingsHeader. run_step. run_step. cbv zeta.
  eapply (run_bind _ _ _ _ (fun _ s' => core s' = core s0 /\ (bool_decide (is_Some (it_settings a0)) && isPunct (toks !! 1%nat) "{" && (length toks =? 2)%nat = false))); [run_all|].
  intros [] s3. eapply run_bind; [apply run_frame, run_openSettingsBlock|]. intros [] s4. run_step.
  assert (Hsyntax : forall i message P, (P -> c_syntax (core s2) = 0) -> run s2 P (syntax lines toks i line message) (fun _ s' => Good G K (core s'))).
  { intros i message P HP. eapply run_weaken; [eapply run_pre; [|apply run_syntax]; exact HP|]. run_leaf. }
  run_step; [apply Hsyntax|run_step; [apply Hsyntax|]].
  1,2: intros ([[[[Hg E1] [_ E2]] [E3 _]] [E4 _]] & E5); rewrite E5; cbn [onDocument c_syntax]; rewrite E4, E3, E2, E1; by apply Good_syntax in Hg.
  run_step. intros ([[[[Hg E1] [Ht0 E2]] [E3 Hb]] [_ (t & Ht & E4)]] & E5). rewrite E5, E4. rewrite E3, E2, E1 in *. assert (t = a0) as -> by congruence.
  apply negb_false_iff in Heqb. apply Nat.ltb_ge in Heqb0. rewrite Heqb in *. rewrite andb_true_r in Hb. destruct (it_settings a0) as [x|] eqn:Es.
  - exfalso. rewrite bool_decide_eq_true_2 in Hb by by eexists. apply Nat.eqb_neq in Hb. unfold isPunct, isTk in Heqb.
    destruct (toks !! 1%nat) eqn:E; [|done]. apply lookup_lt_Some in E. lia.
  - match goal with |- Good G K (onDocument ?f (setCoreBlock ?b ?c)) => change (Good G K (setCoreBlock b (onDocument f c))) end.
    apply Good_setBlock. rewrite alters. apply Good_table; [done|]. intros t _ Hr. apply (setPhase_read 2 (setSettings _ t)). destruct Hr as [H1 H2 H3 H4 H5 H6 H7 H8 H9 H10]. by split.
Qed.

(** ** Lines *)

Lemma run_use_good own s : run s (Good G K (core s)) (use lines toks line own) (fun _ s' => Good G K (core s')).
Proof.
  eapply run_weaken; [eapply run_pre; [|apply run_use]; apply Good_syntax|]. cbn beta. intros [] s' [H1 H2 H3 H4 H5 H6 H7 H8 H9 H10] (u & g & -> & Hg & Hu).
  set (c := core s) in *. clearbody c. split; try done; cbn; [by rewrite H4|]. apply Forall_app. split; [done|by apply Forall_singleton].
Qed.

Lemma run_closeEnd s : run s (c_syntax (core s) = 0) (closeEnd lines toks line) (fun _ s' => core s' = core s).
Proof. unfold closeEnd. run_all. Qed.

Lemma run_isAbandoned s : run s True (isAbandoned line) (fun _ s' => core s' = core s).
Proof. unfold isAbandoned. run_all. Qed.
Hint Resolve run_use_good run_closeEnd run_isAbandoned run_tableHeader run_diagramHeader run_settingsHeader run_setting run_placement run_constraint : run.

(** The block of the loop is at a table of the document. *)
Definition atTable (l : Loop) (c : Core) : Prop := lp_state l = STable -> hasTable (lp_table l) c.

Lemma run_topLine l first own s : toks !! 0%nat = Some first -> lp_state l = STop ->
  run s (Good G K (core s)) (topLine lines l first toks line own) (fun l' s' => Good G K (core s') /\ atTable l' (core s')).
Proof.
  intros Hf Hl. unfold topLine.
  replace (at_ lines "syntax" first "expected use, table or diagram") with (syntax lines toks 0 line "expected use, table or diagram") by (unfold syntax; by rewrite Hf).
  run_all; intros; run_hyps; (split; [done|]); by intros ?.
Qed.

Lemma setClosing_read l t : TableRead G t -> TableRead G (setTableClosing l t) /\ constraintNames (setTableClosing l t) ≡ₚ constraintNames t.
Proof. by intros []. Qed.

Lemma alter_hasTable ti tj f c : hasTable ti c -> hasTable ti (onDocument (setTables (alter f tj)) c).
Proof.
  unfold hasTable. cbn. intros [t Ht]. destruct (decide (tj = ti)) as [->|]; [rewrite list_lookup_alter_eq, Ht|rewrite list_lookup_alter_ne by done]; by eexists.
Qed.

Lemma run_settingsLine l first own failed s : 
  run s (Good G K (core s)) (settingsLine lines l first toks line own failed) (fun l' s' => Good G K (core s')).
Proof.
  unfold settingsLine. cbv zeta. run_step.
  - run_step. eapply run_bind; [eapply run_pre; [|apply run_onBlock]; run_leaf|]. intros [] s2. run_step. intros. run_hyps. run_cores.
    apply Good_table; [done|]. intros t _ Hr. split; [|done]. destruct Hr as [? ? ? ? ? ? ? ? ? Hs]. split; try done. unfold settingEntries in *. cbn. by destruct (it_settings t).
  - run_all; run_leaf.
Qed.

Lemma run_diagramLine l first own failed s :
  run s (Good G K (core s)) (diagramLine lines l first toks line own failed) (fun l' s' => Good G K (core s')).
Proof.
  unfold diagramLine. cbv zeta. run_step.
  - run_step. run_step. run_step. intros. run_hyps. apply Good_diagram; [done|]. by intros g.
  - eapply (run_bind _ _ _ _ (fun _ s' => Good G K (core s'))).
    { run_step; [by run_step|]. apply run_placement. }
    intros [] s1. run_step. run_leaf.
Qed.

(** A line of a table block keeps the document good and its table in place. *)
Lemma tableLine_good nt nd b l first rest own s l' s' : toks = first :: rest -> (lp_table l < nt)%nat -> Reading nt nd b s -> Good G K (core s) ->
  tableLine lines l first toks line own false s = Ok (l', s') -> clean s' -> clean s /\ Good G K (core s').
Proof.
  intros Ht Hti Hs Hg. unfold tableLine. cbv zeta.
  assert (Htab : hasTable (lp_table l) (core s)) by (apply lookup_lt_is_Some_2; cbn; by rewrite (re_tables _ _ _ _ Hs)).
  destruct (isPunct (Some first) "}"); [|destruct (isWord (Some first) "settings"); [|case_decide]].
  - intros E Hc. assert (Hrun : run s (Good G K (core s)) (closeEnd lines toks line;; onTable (lp_table l) (setTableClosing own);;
      mret (mkLoop STop (lp_phase l) (lp_table l) (lp_diagram l) [] false (lp_settingsLexical l) (lp_diagramLexical l))) (fun _ s' => Good G K (core s'))).
    { run_step. run_step. run_step. intros. run_hyps. apply Good_table; [done|]. intros t _. apply setClosing_read. }
    destruct (Hrun _ _ E Hc) as [? H]. split; [done|by apply H].
  - intros E Hc. match type of E with ?m _ = _ => assert (Hrun : run s (Good G K (core s)) m (fun _ s' => Good G K (core s'))) by (run_all; run_leaf) end.
    destruct (Hrun _ _ E Hc) as [? H]. split; [done|by apply H].
  - intros E Hc. match type of E with ?m _ = _ => assert (Hrun : run s (Good G K (core s) /\ hasTable (lp_table l) (core s)) m (fun _ s' => Good G K (core s'))) end.
    { run_step. eapply (run_bind _ _ _ _ (fun _ s' => Good G K (core s') /\ hasTable (lp_table l) (core s'))).
      { run_step; [run_step; run_leaf|]. run_step. intros [] s2 Hpre Hs2. run_hyps. split; [|by apply alter_hasTable].
        apply Good_table; [done|]. intros t _. apply setPhase_read. }
      intros [] s2. run_step. run_step. run_leaf. }
    destruct (Hrun _ _ E Hc) as [? H']. split; [done|by apply H'].
  - destruct (ok_columnLineOf lines nt nd b (lp_table l) first rest line own Hti line_pos s Hs) as ([] & s1 & E1 & Hs1 & _ & _). rewrite <- Ht in E1.
    rewrite (bindM_step _ _ _ _ _ E1). intros [= <- <-] Hc. by eapply columnLineOf_good.
Qed.
End parts.

(** * A parse without diagnostics has read a good document ([dbspec/parse.ts]) *)

From S2P Require Import Unicode LexerFacts.

Lemma lexFrom_line line fuel : forall i l, Forall (fun t => tk_line t = line) (lx_toks (lexFrom fuel line i l)).
Proof.
  induction fuel as [|fuel IH]; intros i [|r l]; cbn [lexFrom]; try constructor. destruct (frontOf r l); [apply IH|cbn; by constructor|constructor].
Qed.

Section loop.
Variables (K : list (string * CacheEntry)) (lines : list (list rune)).

(** A token on a line of the text. *)
Definition inText (t : Tk) : Prop := 1 <= tk_line t <= Z.of_nat (length lines).

Lemma readLine_good nt nd b s text line p s' p' : placed nt nd b s -> 1 <= line <= Z.of_nat (length lines) -> Reading nt nd b p -> Good inText K (core p) ->
  readLine lines s text line p = Ok (s', p') -> clean p' -> Good inText K (core p').
Proof.
  intros Hpl Hl Hp Hg. unfold readLine.
  assert (exists p1, (if lexicalLine s then modify (addLexical line) else mret tt) p = Ok (tt, p1) /\ Reading nt nd b p1 /\ core p1 = core p) as (p1 & E1 & Hp1 & Hc1).
  { destruct (lexicalLine s); [|by exists p]. destruct (ok_addLexical nt nd b line p Hp) as ([] & p1 & E & Hp1 & _). exists p1. split_and!; [done..|]. by injection E as <-. }
  rewrite (bindM_step _ _ _ _ _ E1). rewrite <- Hc1 in Hg. clear p Hp E1 Hc1.
  destruct (dropBlanks text) as [|r front]; [by intros [= <- <-]|]. destruct (ru_cp r =? 35); [by intros [= <- <-]|]. cbv zeta.
  destruct (lx_error (lexLine text line)) as [[index message]|] eqn:Ee.
  - intros E Hc. exfalso. destruct (ok_report lines nt nd b "syntax" line index message p1 Hp1) as ([] & p2 & E2 & Hp2 & _ & _). rewrite (bindM_step _ _ _ _ _ E2) in E.
    destruct (dispatch_turn lines nt nd b s (if bool_decide (Some (index, message) <> None) then lexRecover text line else lx_toks (lexLine text line)) line (lp_comments s)
      (bool_decide (Some (index, message) <> None)) Hpl ltac:(lia) p2 Hp2) as (s3 & p3 & E3 & _ & Hc3).
    unfold dispatch in E3. rewrite E3 in E. injection E as -> ->. specialize (Hc3 Hc).
    destruct (run_syntaxError lines p1 line index message tt p2 E2 Hc3) as [_ []]. split; [by apply Good_syntax in Hg|lia].
  - rewrite (bindM_step (mret tt) _ p1 tt p1) by done. rewrite bool_decide_eq_false_2 by tauto. cbv iota.
    pose proof (lexFrom_line line (length text) 0 text) as Hon. change (lexFrom (length text) line 0 text) with (lexLine text line) in Hon.
    assert (Hin : forall t, tk_line t = line -> inText t) by (intros t Ht; unfold inText; lia).
    destruct (lx_toks (lexLine text line)) as [|first rest] eqn:Et; [by intros [= <- <-]|]. unfold placed in Hpl. destruct (lp_state s) eqn:Es; intros E Hc.
    + destruct (run_topLine inText K lines (first :: rest) line ltac:(lia) Hon Hin s first (lp_comments s) p1 eq_refl Es _ _ E Hc) as [_ H]. by apply H.
    + by eapply (tableLine_good inText K lines (first :: rest) line ltac:(lia) Hon Hin nt nd b s first rest).
    + destruct (run_settingsLine inText K lines (first :: rest) line ltac:(lia) Hon Hin s first (lp_comments s) false p1 _ _ E Hc) as [_ H]. by apply H.
    + destruct (run_diagramLine inText K lines (first :: rest) line ltac:(lia) Hon Hin s first (lp_comments s) false p1 _ _ E Hc) as [_ H]. by apply H.
Qed.

Lemma readLines_good rest : forall s line p s' p', LoopOk s p -> 1 <= line -> line + Z.of_nat (length rest) <= Z.of_nat (length lines) + 1 -> Good inText K (core p) ->
  readLines lines s rest line p = Ok (s', p') -> clean p' -> Good inText K (core p').
Proof.
  induction rest as [|text rest IH]; intros s line p s' p' Hs Hl Hb Hg; cbn [readLines]; [by intros [= <- <-]|]. rewrite (bindM_step get _ p p p eq_refl).
  destruct (dp_stopped p) eqn:Ep; [by intros [= <- <-]|]. destruct Hs as (nt & nd & b & Hp & Hpl). specialize (Hpl Ep).
  destruct (readLine_turn lines nt nd b s text line Hpl ltac:(lia) p Hp) as (s1 & p1 & E1 & Hs1 & Hc1). rewrite (bindM_step _ _ _ _ _ E1). cbn [length] in Hb.
  intros E Hc. eapply (IH s1 (line + 1) p1 s' p'); [done|lia|lia| |done|done].
  destruct (readLines_loop lines rest s1 (line + 1) p1 Hs1 ltac:(lia)) as (s2 & p2 & E2 & _ & Hc2). rewrite E2 in E. injection E as -> ->.
  eapply (readLine_good nt nd b s text line p); [done|lia|done|done|exact E1|by apply Hc2].
Qed.
End loop.

Section parse.
Variable lines : list (list rune).

Lemma run_headerFail s offset : run s True (headerFail lines offset) (fun _ _ => False).
Proof.
  unfold headerFail. eapply run_bind; [by apply run_report|]. intros [] s1. eapply run_bind; [by apply run_frame, run_modify|]. intros [] s2. apply run_ret. tauto.
Qed.

(** A header that was read names its document. *)
Lemma run_header s : lines <> [] -> run s True (header lines) (fun opened s' => opened = true /\
  exists tok, core s' = onDocument (setHeader tok) (core s) /\ validTok (inText lines) tok).
Proof.
  intros Hl. unfold header. run_step. destruct (departs _ _ _); [eapply run_weaken; [apply run_frame, run_headerFail|]; run_leaf|]. cbv zeta.
  run_step; [eapply run_weaken; [apply run_frame, run_headerFail|]; run_leaf|].
  do 4 run_step. eapply run_bind; [apply run_frame, run_setDocument|]. intros [] s5. run_step. intros. run_hyps. split; [done|]. run_cores. exists a0. split; [done|].
  split; [|done]. assert (Hon : Forall (fun t => tk_line t = 1) (lx_toks (lexLine a 1))) by apply lexFrom_line.
  match goal with H : _ !! 2%nat = Some _ |- _ => apply (Forall_lookup_1 _ _ _ _ Hon) in H end. unfold inText. destruct lines; [done|]. cbn [length]. lia.
Qed.

(** An open block at the end is reported. *)
Lemma run_unclosedBlock l s : run s True (unclosedBlock lines l) (fun _ s' => core s' = core s).
Proof.
  unfold unclosedBlock. assert (Hu : forall s tok message, run s True (unclosed lines tok message) (fun _ _ => False)) by (intros; apply push_run).
  Local Hint Resolve push_run : run. run_step. run_all; unfold unclosed; run_all.
Qed.

(** [parse] without a diagnostic has read every line. *)
Lemma parse_good encoding cache p : lines <> [] -> parse lines encoding (newParser cache) = Ok (tt, p) -> clean p -> Good (inText lines) cache (core p).
Proof.
  intros Hl. destruct (ok_header lines 0 0 false Hl (newParser cache) (newParser_reading cache)) as (opened & p1 & E1 & Hp1 & _ & _).
  unfold parse. rewrite (bindM_step _ _ _ _ _ E1). intros E Hc.
  assert (Hfrom : clean p1 -> opened = true /\ Good (inText lines) cache (core p1)).
  { intros Hc1. destruct (run_header (newParser cache) Hl opened p1 E1 Hc1) as [_ [-> (tok & Hcore & Htok)]]; [done|]. split; [done|]. rewrite Hcore.
    split; cbn; try constructor; try done. by exists tok. }
  destruct opened; cbn [negb] in E.
  2:{ injection E as <-. by destruct (Hfrom Hc). }
  destruct (readLines_loop lines (tail lines) startLoop 2 p1) as (s & p2 & E2 & (nt & nd & b & Hp2 & Hs) & Hc2); [by exists 0%nat, 0%nat, false|done|].
  rewrite (bindM_step _ _ _ _ _ E2), (bindM_step get _ p2 p2 p2 eq_refl) in E.
  assert (Hgood : clean p2 -> Good (inText lines) cache (core p2)).
  { intros Hc'. destruct (Hfrom (Hc2 Hc')) as [_ Hg]. eapply (readLines_good cache lines (tail lines) startLoop 2 p1); [by exists 0%nat, 0%nat, false|lia| |done|exact E2|done].
    destruct lines; [done|]. cbn [tail length]. lia. }
  destruct (dp_stopped p2) eqn:Ep; [injection E as <-; by apply Hgood|]. destruct encoding as [e|].
  - exfalso. revert Hc. injection E as <-. unfold clean. cbn. by destruct (dp_diagnostics p2).
  - specialize (Hs eq_refl). destruct (ok_unclosedBlock lines nt nd b s Hs p2 Hp2) as ([] & p3 & E3 & Hp3 & _ & Hc3). rewrite (bindM_step _ _ _ _ _ E3) in E. injection E as <-.
    assert (clean p3) by exact Hc. specialize (Hgood (Hc3 ltac:(done))).
    destruct (run_unclosedBlock s p2 tt p3 E3) as [_ Hcore]; [done|]. change (Good (inText lines) cache (onDocument (setClosing (lp_comments s)) (core p3))). rewrite Hcore by done.
    by destruct Hgood.
Qed.
End parse.
