(* ===== verification/ValidateClean.v ===== *)
(** * What a validation without diagnostics has shown ([dbspec/parse.ts])

    The reports of the validator leave the document alone, and the check reader
    only writes the canonical texts of checks, so each test of the validator is
    a fact about the document that was read. *)

From S2P Require Import Prelude Documents Emit DocumentSet Keys DocumentFacts Check Compare Render Lexer Literals ParseState Reader CheckReader Validator ParseDocument ParseOk CheckTotal ValidateTotal ParseClean.
From Stdlib Require Import Lia.

(** ** Steps that leave the document *)

Definition at_core (c : Core) (s : DP) : Prop := core s = c.

Lemma run_ok {A} s (m : Rd A) Q : ok (at_core (core s)) m Q -> run s True m (fun a s' => core s' = core s /\ Q a).
Proof. intros Hm a s' E Hc. destruct (Hm s eq_refl) as (a2 & s2 & E2 & Hs & Ha & Hcl). rewrite E2 in E. injection E as <- <-. split; [auto|done]. Qed.

(** What a step is run under. *)
Lemma run_under {A} s (P : Prop) (m : Rd A) Q Post : ok (at_core (core s)) m Q -> (P -> run s True m Post) -> run s P m Post.
Proof.
  intros Hok Hm a s' E Hc. destruct (run_ok s m Q Hok a s' E Hc) as [H _]. split; [done|]. intros HP. destruct (Hm HP a s' E Hc) as [_ Hpost]. by apply Hpost.
Qed.

Section still.
Variables (lines : list (list rune)) (c : Core).

Lemma still_at rule tok message : rule <> "syntax" -> ok (at_core c) (at_ lines rule tok message) (fun _ => True).
Proof.
  intros Hr. unfold at_, report. rewrite decide_False by done. apply ok_modify; [done|]. intros s. unfold clean. cbn. by destruct (dp_diagnostics s).
Qed.

Lemma still_table ti : (ti < length (idoc_tables (c_document c)))%nat -> ok (at_core c) (theTable ti) (fun _ => True).
Proof.
  intros Hti s <-. destruct (lookup_lt_is_Some_2 _ _ Hti) as [t Ht]. exists t, s. unfold theTable, theDocument, mbind, M_bind, get, mret, M_ret, lift.
  cbn in Ht. by rewrite Ht.
Qed.
End still.

(** ** Steps under an invariant

    The steps that read a table of the document end without an error only where
    it has one, so what a clean run of them shows is stated under the invariant
    of [ok]. *)

Section kept.
Context (I : DP -> Prop).

(** From a state of the invariant where [P] holds, a clean end satisfies [Q]. *)
Definition kept {A} (P : DP -> Prop) (m : Rd A) (Q : A -> DP -> Prop) : Prop := forall s, I s ->
  exists a s', m s = Ok (a, s') /\ I s' /\ (clean s' -> clean s /\ (P s -> Q a s')).

Lemma kept_run {A} P (m : Rd A) Q : ok I m (fun _ => True) -> (forall s, I s -> run s (P s) m Q) -> kept P m Q.
Proof. intros Hok Hr s Hs. destruct (Hok s Hs) as (a & s' & E & Hs' & _ & _). exists a, s'. split_and!; [done|done|]. intros Hc. exact (Hr s Hs a s' E Hc). Qed.

(** A step whose run is known where [P] holds. *)
Lemma kept_under {A} (P : DP -> Prop) (m : Rd A) Q : ok I m (fun _ => True) -> (forall s, I s -> P s -> run s True m Q) -> kept P m Q.
Proof.
  intros Hok Hr s Hs. destruct (Hok s Hs) as (a & s' & E & Hs' & _ & Hcl). exists a, s'. split_and!; [done|done|]. intros Hc. split; [by apply Hcl|]. intros HP.
  destruct (Hr s Hs HP a s' E Hc) as [_ Hq]. by apply Hq.
Qed.

Lemma kept_ret {A} (P : DP -> Prop) (a : A) (Q : A -> DP -> Prop) : (forall s, P s -> Q a s) -> kept P (mret a) Q.
Proof. intros HQ s Hs. exists a, s. eauto. Qed.

Lemma kept_bind {A B} P (m : Rd A) (k : A -> Rd B) Mid Q : kept P m Mid -> (forall a, kept (Mid a) (k a) Q) -> kept P (m ≫= k) Q.
Proof.
  intros Hm Hk s Hs. destruct (Hm s Hs) as (a & s1 & E & Hs1 & Hc). destruct (Hk a s1 Hs1) as (b & s2 & E2 & Hs2 & Hc2).
  exists b, s2. rewrite (bindM_step _ _ _ _ _ E). split_and!; [done|done|]. intros Hcl. destruct (Hc2 Hcl) as [Hcl1 HQ]. destruct (Hc Hcl1). split; auto.
Qed.

Lemma kept_weaken {A} P P' (m : Rd A) Q Q' : kept P m Q -> (forall s, P' s -> P s) -> (forall a s, Q a s -> Q' a s) -> kept P' m Q'.
Proof. intros Hm HP HQ s Hs. destruct (Hm s Hs) as (a & s' & E & Hs' & Hc). exists a, s'. split_and!; [done|done|]. intros Hcl. destruct (Hc Hcl). eauto. Qed.

(** The continuation also knows what every end of the first step satisfies. *)
Lemma kept_bind_ok {A B} P (m : Rd A) R (k : A -> Rd B) Mid Q : ok I m R -> kept P m Mid -> (forall a, R a -> kept (Mid a) (k a) Q) -> kept P (m ≫= k) Q.
Proof.
  intros Hok Hm Hk s Hs. destruct (Hm s Hs) as (a & s1 & E & Hs1 & Hc). destruct (Hok s Hs) as (a' & s1' & E' & _ & Ha & _).
  rewrite E in E'. injection E' as <- <-. destruct (Hk a Ha s1 Hs1) as (b & s2 & E2 & Hs2 & Hc2).
  exists b, s2. rewrite (bindM_step _ _ _ _ _ E). split_and!; [done|done|]. intros Hcl. destruct (Hc2 Hcl) as [Hcl1 HQ]. destruct (Hc Hcl1). split; auto.
Qed.

(** A step from a core that is not known beforehand. *)
Lemma kept_at {A} (P : Core -> Prop) (m : Rd A) Q : (forall c, kept (fun s => core s = c /\ P c) m Q) -> kept (fun s => P (core s)) m Q.
Proof. intros Hm s Hs. destruct (Hm (core s) s Hs) as (a & s' & E & Hs' & Hc). exists a, s'. split_and!; [done|done|]. intros Hcl. destruct (Hc Hcl). eauto. Qed.

(** A pure fact may be used where it is known. *)
Lemma kept_assume {A} P (F : Prop) (m : Rd A) Q : ok I m (fun _ => True) -> (F -> kept P m Q) -> kept (fun s => P s /\ F) m Q.
Proof.
  intros Hok Hm s Hs. destruct (Hok s Hs) as (a & s' & E & Hs' & _ & Hcl). exists a, s'. split_and!; [done|done|]. intros Hc. split; [by apply Hcl|]. intros [HP HF].
  destruct (Hm HF s Hs) as (a' & s2 & E' & _ & Hq). rewrite E in E'. injection E' as <- <-. by apply Hq.
Qed.

(** What holds apart from the state still holds. *)
Lemma kept_frame {A} P (F : Prop) (m : Rd A) Q : kept P m Q -> kept (fun s => P s /\ F) m (fun a s => Q a s /\ F).
Proof. intros Hm s Hs. destruct (Hm s Hs) as (a & s' & E & Hs' & Hc). exists a, s'. split_and!; [done|done|]. intros Hcl. destruct (Hc Hcl). naive_solver. Qed.

Lemma kept_foldS {A B} (f : B -> A -> Rd B) (P : list A -> B -> DP -> Prop) b l :
  (forall pre x b, x ∈ l -> kept (P pre b) (f b x) (fun b' => P (pre ++ [x]) b')) -> kept (P [] b) (foldS f b l) (fun b' => P l b').
Proof.
  intros Hf. change l with ([] ++ l) at 2. revert b. generalize ([] : list A) as pre. induction l as [|x l IH]; intros pre b; cbn [foldS].
  { apply kept_ret. by rewrite app_nil_r. }
  eapply kept_bind; [apply (Hf pre); left|]. intros b'. rewrite (cons_middle x pre l), app_assoc. apply IH. intros. apply Hf. by right.
Qed.

Lemma kept_eachP {A} (f : A -> Rd unit) (P : list A -> DP -> Prop) l :
  (forall pre x, x ∈ l -> kept (P pre) (f x) (fun _ => P (pre ++ [x]))) -> kept (P []) (eachP f l) (fun _ => P l).
Proof.
  intros Hf. change l with ([] ++ l) at 2. generalize ([] : list A) as pre. induction l as [|x l IH]; intros pre; cbn [eachP].
  { apply kept_ret. by rewrite app_nil_r. }
  eapply kept_bind; [apply (Hf pre); left|]. intros []. rewrite (cons_middle x pre l), app_assoc. apply IH. intros. apply Hf. by right.
Qed.

(** A step that leaves the core, and what it shows. *)
Lemma kept_step {A} (c : Core) (F : Prop) (m : Rd A) (Q : A -> Prop) : ok I m (fun _ => True) ->
  (forall s, I s -> core s = c -> F -> run s True m (fun a s' => core s' = core s /\ Q a)) ->
  kept (fun s => core s = c /\ F) m (fun a s => core s = c /\ F /\ Q a).
Proof.
  intros Hok Hr s Hs. destruct (Hok s Hs) as (a & s' & E & Hs' & _ & Hcl). exists a, s'. split_and!; [done|done|]. intros Hc. split; [by apply Hcl|]. intros [<- HF].
  destruct (Hr s Hs eq_refl HF a s' E Hc) as [_ Hq]. destruct (Hq Logic.I). by split_and!.
Qed.

(** A step that leaves the core and of which nothing is known. *)
Lemma kept_same {A} (c : Core) (F : Prop) (m : Rd A) : ok I m (fun _ => True) -> (forall s, I s -> ok (at_core (core s)) m (fun _ => True)) ->
  kept (fun s => core s = c /\ F) m (fun _ s => core s = c /\ F).
Proof.
  intros Hok Hr. eapply kept_weaken; [apply (kept_step c F m (fun _ => True)); [done|]|done|naive_solver].
  intros s Hs _ _. by apply run_ok, Hr.
Qed.
End kept.

(** The invariant of a fold holds at its end. *)
Lemma run_foldS {A B} s (f : B -> A -> Rd B) (P : list A -> B -> Prop) b l :
  (forall pre x b s, x ∈ l -> run s (P pre b) (f b x) (fun b' s' => core s' = core s /\ P (pre ++ [x]) b')) ->
  run s (P [] b) (foldS f b l) (fun b' s' => core s' = core s /\ P l b').
Proof.
  intros Hf. change l with ([] ++ l) at 2. revert s b. generalize ([] : list A) as pre. induction l as [|x l IH]; intros pre s b; cbn [foldS].
  { apply run_ret. rewrite app_nil_r. by split. }
  eapply run_bind; [apply (Hf pre); left|]. intros b' s1. eapply run_weaken; [eapply run_pre; [|apply (IH ltac:(intros; apply Hf; by right) (pre ++ [x]))]|].
  - naive_solver.
  - cbn beta. rewrite <- app_assoc. intros b2 s2 [_ [H1 _]] [H2 H3]. split; [congruence|done].
Qed.

(** A list of steps that have no result. *)
Lemma run_each {A} s (f : A -> Rd unit) (Q : A -> Prop) l : (forall x s, run s True (f x) (fun _ s' => core s' = core s /\ Q x)) ->
  run s True (eachP f l) (fun _ s' => core s' = core s /\ Forall Q l).
Proof. intros Hf. apply run_eachP. intros. apply Hf. Qed.

Lemma run_when s b m (Q : Prop) : (b = true -> run s True m (fun _ _ => False)) -> run s True (when b m) (fun _ s' => core s' = core s /\ b = false).
Proof. intros Hm. unfold when. destruct b; [eapply run_weaken; [by apply Hm|]; done|by apply run_ret]. Qed.

(** ** Keys *)

Section keys.
Variables (lines : list (list rune)) (G : Tk -> Prop).

(** A report that a test guards: on a clean run the test fails. *)
Lemma run_guard s b rule tok message : rule <> "syntax" -> run s True (when b (at_ lines rule tok message)) (fun _ s' => core s' = core s /\ b = false).
Proof. intros Hr. apply (run_when _ _ _ True). intros _. by apply run_at. Qed.

Lemma run_lookup s table tok rule : rule <> "syntax" -> it_failed table = [] -> wellFormed (tk_t tok) = true ->
  run s True (lookup_ lines table tok rule) (fun r s' => core s' = core s /\ exists c, r = Some c /\ assoc (tk_t tok) (it_colMap table) = Some c).
Proof.
  intros Hr Hf Hw. unfold lookup_. rewrite Hw, Hf. cbn [negb]. destruct (assoc _ _) as [c|]; [apply run_ret; intros _; split; [done|by exists c]|].
  eapply run_bind; [by apply run_guard|]. intros [] s1. apply run_ret. intros [_ [_ H]]. done.
Qed.

(** A column that a key may hold. *)
Definition KeyColumn (t : ITable) (primary : bool) (n : string) : Prop := exists c, assoc n (it_colMap t) = Some c /\
  icol_type c <> Some TText /\ icol_type c <> Some TBytes /\ (primary = true -> icol_nullable c = false).

Definition varcharOf (t : ITable) (n : string) : Z := match assoc n (it_colMap t) ≫= icol_type with Some (TVarchar k) => k | _ => 0 end.

Record KeyValid (t : ITable) (primary : bool) (k : IKey) : Prop := {
  kv_some : (1 <= length (keyNames k) <= MAX_KEY_COLUMNS)%nat;
  kv_distinct : NoDup (keyNames k);
  kv_columns : Forall (KeyColumn t primary) (keyNames k);
  kv_varchar : foldr Z.add 0 (map (varcharOf t) (keyNames k)) <= MAX_KEY_VARCHAR }.

Lemma validTok_formed t : validTok G t -> wellFormed (tk_t t) = true.
Proof. intros [_ H]. unfold validName in H. by apply andb_true_iff in H as [H _]. Qed.

Lemma run_keyLike s table primary key : it_failed table = [] -> Forall (validTok G) (keyTokens key) ->
  run s True (keyLike lines table primary key) (fun _ s' => core s' = core s /\ KeyValid table primary key).
Proof.
  intros Hf Hk. unfold keyLike. cbv zeta. eapply run_bind; [by apply run_guard|]. intros [] s1. eapply run_bind; [by apply run_frame, run_guard|]. intros [] s2.
  set (P := fun (pre : list IKeyColumn) (acc : list string * Z) => let names := map (fun c => tk_t (ikc_tok c)) pre in
    fst acc = names /\ NoDup names /\ Forall (KeyColumn table primary) names /\ snd acc = foldr Z.add 0 (map (varcharOf table) names)).
  eapply run_bind; [apply run_frame; eapply run_pre; [|apply (run_foldS _ _ P)]|].
  - intros _. unfold P. cbn. repeat split; constructor.
  - intros pre c acc s3 Hc. unfold keyColumn. cbv zeta.
    assert (Hw : wellFormed (tk_t (ikc_tok c)) = true) by (eapply validTok_formed, Forall_forall; [exact Hk|by apply list_elem_of_fmap_2]).
    eapply run_bind; [apply run_frame; by apply run_lookup|]. intros r s4. destruct r as [col|]; [|apply run_ret; naive_solver]. destruct acc as [seen varchar].
    destruct (includes (tk_t (ikc_tok c)) seen) eqn:Es; [run_all|].
    eapply (run_bind _ _ _ _ (fun _ s' => core s' = core s4 /\ icol_type col <> Some TText /\ icol_type col <> Some TBytes)).
    { destruct (icol_type col) as [t|]; [|apply run_ret; done]. eapply run_weaken; [by apply run_frame, run_guard|]. intros _ s' _ [H1 H2]. split; [done|].
      apply bool_decide_eq_false in H2. split; intros [= ->]; apply H2; repeat constructor. }
    intros [] s5. eapply run_bind; [by apply run_frame, run_guard|]. intros [] s6. apply run_ret. intros. run_hyps. split; [done|].
    match goal with H : P _ _ |- _ => destruct H as (Hs1 & Hn & Hc1 & Hv) end. cbn in Hs1, Hv. subst seen varchar. apply bool_decide_eq_false in Es.
    unfold P. rewrite map_app. cbn. split_and!; [done| | |].
    + apply NoDup_app. split_and!; [done| |by apply NoDup_singleton]. intros y Hy Hy2. apply list_elem_of_singleton in Hy2 as ->. done.
    + apply Forall_app. split; [done|]. apply Forall_singleton. eexists. split_and!; [eassumption|done|done|]. intros ->. done.
    + rewrite map_app, foldr_app. cbn.
      assert (varcharOf table (tk_t (ikc_tok c)) = match icol_type x with Some (TVarchar k) => k | _ => 0 end) as -> by (unfold varcharOf; by match goal with H : assoc _ _ = Some _ |- _ => rewrite H end).
      generalize (map (varcharOf table) (map (fun c0 => tk_t (ikc_tok c0)) pre)). intros l.
      assert (Hsum : forall (l : list Z) z, foldr Z.add z l = foldr Z.add 0 l + z) by (induction l0 as [|y l0 IH]; intros z; cbn; [done|rewrite IH; lia]).
      rewrite (Hsum l (_ + 0)). destruct (icol_type _) as [[]|]; lia.
  - intros [seen varchar] s3. eapply run_weaken; [by apply run_frame, run_guard|]. intros [] s' Hpre [Hc Hv]. run_hyps. split; [done|].
    match goal with H : P _ _ |- _ => destruct H as (Hs1 & Hn & Hc1 & Hv1) end. cbn in Hs1, Hv1. subst.
    repeat match goal with H : (_ <? _)%nat = false |- _ => apply Nat.ltb_ge in H | H : (_ =? _)%nat = false |- _ => apply Nat.eqb_neq in H end.
    apply Z.ltb_ge in Hv. split; unfold keyNames; [rewrite length_map; lia|done|done|done].
Qed.

(** ** Identity columns *)

(** The key columns of an identity column are that column. *)
Definition IdentityValid (t : ITable) : Prop := forall c pk, List.find (fun c => bool_decide (icol_identity c <> None)) (it_columns t) = Some c ->
  head (it_pks t) = Some pk -> keyNames pk = [tk_t (icol_name c)].

Lemma run_identityKey s table : it_failed table = [] -> Forall (PrimaryRead G) (it_pks table) ->
  run s True (identityKey lines table) (fun _ s' => core s' = core s /\ IdentityValid table).
Proof.
  intros Hf Hp. unfold identityKey, IdentityValid. destruct (List.find _ _) as [c|] eqn:E; [|apply run_ret; intros _; by split].
  eapply run_bind; [apply run_present|]. intros identity s1. destruct (it_pks table) as [|pk pks] eqn:Ep.
  - eapply run_weaken; [by apply run_frame, run_guard|]. intros _ s' Hpre [H1 _]. run_hyps. split; [congruence|]. intros. done.
  - cbv zeta. eapply run_weaken; [by apply run_frame, run_guard|]. intros _ s' Hpre [H1 H2]. run_hyps. split; [congruence|]. intros c' pk' [= <-] [= <-].
    apply andb_false_iff in H2 as [H2|H2]; [|apply negb_false_iff, bool_decide_eq_true in H2; done]. exfalso. apply Bool.not_true_iff_false in H2. apply H2.
    apply forallb_forall. intros n Hn. apply list_elem_of_In in Hn. unfold keyNames in Hn. apply list_elem_of_fmap in Hn as (kc & -> & Hkc). rewrite Hf.
    inversion Hp as [|? ? [_ Hk]]; subst. unfold keyTokens in Hk. rewrite Forall_map, Forall_forall in Hk. by rewrite (validTok_formed _ (Hk kc Hkc)).
Qed.
End keys.

(** ** Foreign keys *)

Lemma run_mapS {A B} s (f : A -> Rd B) (Q : A -> B -> Prop) l : (forall x s, x ∈ l -> run s True (f x) (fun y s' => core s' = core s /\ Q x y)) ->
  run s True (mapS f l) (fun ys s' => core s' = core s /\ Forall2 Q l ys).
Proof.
  revert s. induction l as [|x l IH]; intros s Hf; cbn [mapS]; [by apply run_ret|]. eapply run_bind; [apply Hf; left|]. intros y s1.
  eapply run_bind; [apply run_frame, IH; intros; apply Hf; by right|]. intros ys s2. apply run_ret. intros. run_hyps. split; [congruence|by constructor].
Qed.

(** The columns that tokens name. *)
Definition Known (t : ITable) : list Tk -> list (option IColumn) -> Prop :=
  Forall2 (fun tok r => exists c, r = Some c /\ assoc (tk_t tok) (it_colMap t) = Some c).

Definition columnType (t : ITable) (n : string) : option DbspecType := assoc n (it_colMap t) ≫= icol_type.

Section foreign.
Variables (lines : list (list rune)) (G : Tk -> Prop).

Lemma column_named (G0 : Tk -> Prop) t n c : TableRead G0 t -> assoc n (it_colMap t) = Some c -> tk_t (icol_name c) = n /\ c ∈ it_columns t /\ is_Some (icol_type c).
Proof.
  intros Ht. rewrite (tr_colMap _ _ Ht). intros Hc.
  assert (Hin : tk_t (icol_name c) = n /\ c ∈ it_columns t).
  { clear Ht. induction (it_columns t) as [|d l IH]; [done|]. cbn in Hc. case_decide as E; [injection Hc as <-; split; [done|by left]|].
    destruct (IH Hc). split; [done|by right]. }
  destruct Hin as [Hn Hin]. split_and!; [done|done|]. pose proof (tr_columns _ _ Ht) as Hcs. rewrite Forall_forall in Hcs.
  destruct (cr_type _ _ (Hcs c Hin)) as (ty & Hty & _). by exists ty.
Qed.

Lemma typeMismatch_none G' t u cols children refs parents : TableRead G t -> TableRead G' u -> Known t cols children -> Known u refs parents ->
  length cols = length refs -> typeMismatch cols children parents = None ->
  map (columnType t) (map tk_t cols) = map (columnType u) (map tk_t refs).
Proof.
  intros Ht Hu Hc. revert refs parents. induction Hc as [|tok r cols children (c & -> & Hc) _ IH]; intros refs parents Hp Hl Hm; [by destruct refs|].
  destruct Hp as [|ref p refs parents (d & -> & Hd) Hp]; [done|]. cbn in Hl, Hm |- *. unfold columnType at 1 3. rewrite Hc, Hd. cbn.
  destruct (column_named _ t _ c Ht Hc) as (_ & _ & a & Ha), (column_named _ u _ d Hu Hd) as (_ & _ & b & Hb). rewrite Ha, Hb in *.
  unfold sameType in Hm. case_bool_decide as E; [|done]. apply typeText_inj in E as ->. f_equal. eapply IH; [done|lia|done].
Qed.

(** The referenced columns are a key of the target, of the types of the child
    columns. *)
Record ReferencesValid (t u : ITable) (f : IForeignKey) : Prop := {
  rv_length : length (ifk_cols f) = length (ifk_refs f);
  rv_key : map tk_t (ifk_refs f) ∈ map keyNames (take 1 (it_pks u) ++ it_uniques u);
  rv_types : map (columnType t) (map tk_t (ifk_cols f)) = map (columnType u) (map tk_t (ifk_refs f)) }.

Lemma tokens_names (G0 : Tk -> Prop) toks : Forall (validTok G0) toks -> names (map tk_t toks).
Proof. intros H. apply Forall_map. eapply Forall_impl; [exact H|]. intros t Ht. apply validTok_formed in Ht. unfold wellFormed in Ht. by apply andb_true_iff in Ht as [? _]. Qed.

Lemma keyTokens_names k : keyNames k = map tk_t (keyTokens k).
Proof. unfold keyNames, keyTokens. by rewrite map_map. Qed.

(** The columns of a key that was read are names. *)
Lemma key_names (G0 : Tk -> Prop) t k : TableRead G0 t -> k ∈ it_pks t ++ it_uniques t ++ it_indexes t -> Forall (validTok G0) (keyTokens k).
Proof.
  intros Ht [Hk|Hk]%elem_of_app.
  - pose proof (tr_primary _ _ Ht) as H. rewrite Forall_forall in H. apply (H k Hk).
  - pose proof (tr_keys _ _ Ht) as H. rewrite Forall_forall in H. apply (H k Hk).
Qed.

Lemma run_references G' s t u f children : TableRead G t -> TableRead G' u -> ForeignKeyRead G f -> Known t (ifk_cols f) children ->
  run s True (references lines u f children) (fun _ s' => core s' = core s /\ ReferencesValid t u f).
Proof.
  intros Ht Hu (_ & Hcols & _ & Hrefs & _) Hc. destruct (tr_failed _ _ Hu) as (Hf & Hfp & Hfk & _). unfold references.
  eapply run_bind; [apply run_frame, (run_mapS _ _ (fun tok r => exists c, r = Some c /\ assoc (tk_t tok) (it_colMap u) = Some c))|].
  { intros tok s1 Htok. apply run_lookup; [done|done|]. eapply validTok_formed, (proj1 (Forall_forall _ _)); [exact Hrefs|done]. }
  intros parents s1. destruct (negb _) eqn:El; [eapply run_weaken; [by apply run_frame, run_at|]; done|]. apply negb_false_iff, Nat.eqb_eq in El.
  destruct (forallb _ _) eqn:Ep.
  2:{ apply run_ret. intros (_ & _ & Hk). exfalso. apply Bool.not_true_iff_false in Ep. apply Ep. apply forallb_forall. intros r Hr. apply list_elem_of_In in Hr.
      apply list_elem_of_lookup in Hr as [i Hi]. destruct (Forall2_lookup_r _ _ _ _ _ Hk Hi) as (tok & _ & c & -> & _). by apply bool_decide_eq_true. }
  cbv zeta. rewrite Hfk, Hfp. cbn [negb]. rewrite !andb_true_r. eapply run_bind; [by apply run_frame, run_guard|]. intros [] s2.
  destruct (typeMismatch _ _ _) as [[[tok a] b]|] eqn:Em; [eapply run_weaken; [by apply run_frame, run_at|]; done|]. apply run_ret. intros. run_hyps.
  split; [congruence|]. split; [done| |by eapply typeMismatch_none].
  match goal with H : negb _ = false |- _ => apply negb_false_iff, bool_decide_eq_true, list_elem_of_fmap in H as (k & Hj & Hk) end.
  apply (join_inj ",") in Hj; [rewrite Hj; by apply list_elem_of_fmap_2|done|by eapply tokens_names|]. rewrite keyTokens_names. eapply tokens_names.
  eapply key_names; [exact Hu|]. rewrite !elem_of_app in *. destruct Hk as [Hk|Hk]; [left|by auto]. destruct (it_pks u); [by apply elem_of_nil in Hk|]. cbn in Hk. apply list_elem_of_singleton in Hk as ->. left.
Qed.

(** The child columns are known, each once, and some key or index of the table
    leads with them. *)
Record ChildValid (t : ITable) (f : IForeignKey) : Prop := {
  cv_some : ifk_cols f <> [];
  cv_distinct : NoDup (map tk_t (ifk_cols f));
  cv_columns : Forall (fun n => is_Some (assoc n (it_colMap t))) (map tk_t (ifk_cols f));
  cv_index : exists k, k ∈ it_pks t ++ it_uniques t ++ it_indexes t /\ take (length (ifk_cols f)) (keyNames k) = map tk_t (ifk_cols f);
  cv_null : "set_null" ∈ [ifk_onDelete f; ifk_onUpdate f] -> Forall (fun n => exists c, assoc n (it_colMap t) = Some c /\ icol_nullable c = true) (map tk_t (ifk_cols f)) }.

Lemma Known_columns t toks cs : Known t toks cs -> Forall (fun n => is_Some (assoc n (it_colMap t))) (map tk_t toks).
Proof. induction 1 as [|tok r toks cs (c & -> & Hc) _ IH]; constructor; [by exists c|done]. Qed.

Lemma run_keyChecks s t f children : TableRead G t -> Known t (ifk_cols f) children -> ifk_cols f <> [] -> NoDup (map tk_t (ifk_cols f)) ->
  run s True (foreignKeyKeyChecks lines t f children true) (fun _ s' => core s' = core s /\ ChildValid t f).
Proof.
  intros Ht Hc Hn Hd. destruct (tr_failed _ _ Ht) as (_ & Hfp & Hfk & _). unfold foreignKeyKeyChecks. cbv zeta. rewrite Hfp, Hfk, !andb_true_r. cbn [negb andb].
  eapply run_bind; [by apply run_frame, run_guard|]. intros [] s1. eapply run_weaken; [by apply run_frame, run_guard|]. intros _ s' Hpre [H1 H2]. run_hyps. split; [congruence|].
  split; [done|done|by eapply Known_columns| |].
  - match goal with H : negb (existsb _ _) = false |- _ => apply negb_false_iff, existsb_exists in H as (k & Hk & He) end. apply list_elem_of_In in Hk. apply bool_decide_eq_true in He.
    exists k. by rewrite length_map in He.
  - intros Hs. apply andb_false_iff in H2 as [H2|H2]; [by apply bool_decide_eq_false in H2|]. clear -Hc H2.
    induction Hc as [|tok r toks cs (c & -> & Hc) _ IH]; constructor; cbn in H2; apply orb_false_iff in H2 as [H2 H3]; [|by apply IH].
    exists c. split; [done|]. by apply negb_false_iff in H2.
Qed.

Lemma run_children s t toks b : it_failed t = [] -> Forall (validTok G) toks ->
  run s True (foldS (childColumn lines t) ([], [], b) toks) (fun acc s' => core s' = core s /\
    exists children, acc = (children, map tk_t toks, b) /\ Known t toks children /\ NoDup (map tk_t toks)).
Proof.
  intros Hf Hk. eapply (run_pre _ (exists children, ([] : list (option IColumn), [] : list string, b) = (children, map tk_t (@nil Tk), b) /\ Known t [] children /\ NoDup (map tk_t (@nil Tk)))).
  { intros _. eexists. split_and!; [done|constructor|constructor]. }
  apply (run_foldS s (childColumn lines t) (fun pre acc => exists children, acc = (children, map tk_t pre, b) /\ Known t pre children /\ NoDup (map tk_t pre))).
  intros pre tok acc s1 Hin. unfold childColumn. destruct acc as [[children seen] resolved].
  eapply run_bind; [apply run_frame, run_lookup; [done|done|]|]. { eapply validTok_formed, (proj1 (Forall_forall _ _)); [exact Hk|done]. }
  intros r s2. destruct r as [c|]; [|apply run_ret; naive_solver]. destruct (includes _ seen) eqn:Ei; [run_all|]. apply run_ret. intros. run_hyps. split; [done|].
  apply bool_decide_eq_false in Ei. eexists. rewrite map_app. split; [reflexivity|].
  split; [apply Forall2_app; [done|]; constructor; [by eexists|constructor]|]. apply NoDup_app. split_and!; [done| |by apply NoDup_singleton].
  intros y Hy Hy2. apply list_elem_of_singleton in Hy2 as ->. done.
Qed.
End foreign.

(** ** Tables at hand *)

Section against.
Variables (lines : list (list rune)) (G : Tk -> Prop) (available : Available).
Hypothesis known : forall n, assoc n available <> Some None.
(** Used tables were read from other texts. *)
Hypothesis used_read : forall n u, assoc n available = Some (Some (Used u)) -> exists G', TableRead G' u.

Notation tablesOf s := (idoc_tables (c_document (core s))).

(** A foreign key of a table, among the tables of its document and the used ones. *)
Record ForeignKeyValid (tables : list ITable) (t : ITable) (f : IForeignKey) : Prop := {
  fv_child : ChildValid t f;
  fv_known : is_Some (assoc (tk_t (ifk_table f)) available);
  fv_references : forall i u, assoc (tk_t (ifk_table f)) available = Some (Some (Local i)) -> tables !! i = Some u -> ReferencesValid t u f;
  fv_used : forall u, assoc (tk_t (ifk_table f)) available = Some (Some (Used u)) -> ReferencesValid t u f }.

Lemma run_target s t f children r : TableRead G t -> ForeignKeyRead G f -> (forall u, r = Used u -> exists G', TableRead G' u) ->
  run s (Forall (TableRead G) (tablesOf s) /\ Known t (ifk_cols f) children)
    (target ← tableOf r; if it_headerFailed target then mret tt else references lines target f children)
    (fun _ s' => core s' = core s /\ (forall i u, r = Local i -> tablesOf s !! i = Some u -> ReferencesValid t u f) /\ forall u, r = Used u -> ReferencesValid t u f).
Proof.
  intros Ht Hf Hused. assert (Hok : forall s u, ok (at_core (core s)) (references lines u f children) (fun _ => True)) by (intros; apply ok_references, still_at).
  destruct r as [i|u]; unfold tableOf.
  - eapply run_bind; [apply run_frame, run_theTable|]. intros u s1. destruct (it_headerFailed u) eqn:Eh.
    + apply run_ret. intros ([Hall _] & Hu & _). exfalso. pose proof (Forall_lookup_1 _ _ _ _ Hall Hu) as Hr. destruct (tr_failed _ _ Hr) as (_ & _ & _ & _ & H). congruence.
    + eapply run_under; [apply Hok|]. intros ([Hall Hc] & Hu & Hcore). pose proof (Forall_lookup_1 _ _ _ _ Hall Hu) as Hr. eapply run_weaken; [by apply (run_references lines G G s1 t)|].
      intros [] s' _ [H1 H2]. split; [congruence|]. split; [|done]. intros j v [= <-] Hv. congruence.
  - destruct (Hused u eq_refl) as [G' Hu]. destruct (tr_failed _ _ Hu) as (_ & _ & _ & _ & Eh).
    change (run s (Forall (TableRead G) (tablesOf s) /\ Known t (ifk_cols f) children) (if it_headerFailed u then mret tt else references lines u f children)
      (fun _ s' => core s' = core s /\ (forall i u0, Used u = Local i -> tablesOf s !! i = Some u0 -> ReferencesValid t u0 f) /\ forall u0, Used u = Used u0 -> ReferencesValid t u0 f)).
    rewrite Eh. eapply run_under; [apply Hok|]. intros [_ Hc]. eapply run_weaken; [by apply (run_references lines G G' s t)|]. intros [] s' _ [H1 H2]. split; [done|]. split; [done|]. by intros u0 [= <-].
Qed.

Lemma run_foreignKey s t f : TableRead G t -> ForeignKeyRead G f ->
  run s (Forall (TableRead G) (tablesOf s)) (foreignKey lines available t f) (fun _ s' => core s' = core s /\ ForeignKeyValid (tablesOf s) t f).
Proof.
  intros Ht Hf. pose proof Hf as (_ & Hcols & Htab & _). destruct (tr_failed _ _ Ht) as (Hfail & _). unfold foreignKey. rewrite (validTok_formed _ _ Htab). cbn [negb].
  eapply run_bind; [by apply run_frame, run_guard|]. intros [] s1.
  eapply run_bind; [apply run_frame, (run_children lines G s1 t); [done|done]|]. intros [[children seen] resolved] s2.
  eapply (run_bind _ _ _ _ (fun _ s' => core s' = core s /\ is_Some (assoc (tk_t (ifk_table f)) available) /\
    (forall i u, assoc (tk_t (ifk_table f)) available = Some (Some (Local i)) -> tablesOf s !! i = Some u -> ReferencesValid t u f) /\
    forall u, assoc (tk_t (ifk_table f)) available = Some (Some (Used u)) -> ReferencesValid t u f)).
  - destruct (assoc (tk_t (ifk_table f)) available) as [[r|]|] eqn:Ea; [|by apply known in Ea|eapply run_weaken; [by apply run_frame, run_at|]; done].
    eapply run_weaken; [eapply run_pre; [|apply run_target; [done|done|]]|]; cbv beta.
    + intros. run_hyps. run_cores. by split.
    + intros u ->. by apply (used_read _ _ Ea).
    + intros [] s' Hpre (H1 & H2 & H3). run_hyps. run_cores. split_and!; [done|by eexists| |].
      * intros i u [= ->]. by apply H2.
      * intros u [= ->]. by apply H3.
  - intros [] s3. eapply run_under; [apply ok_foreignKeyKeyChecks, still_at|]. intros Hpre'. run_hyps.
    match goal with H : (length _ =? 0)%nat = false |- _ => rename H into Hl end. rewrite Hl. cbn [negb].
    eapply run_weaken; [apply (run_keyChecks _ G _ t f)|]; [done|done| |done|].
    { by destruct (ifk_cols f). }
    intros [] s' _ [H1' H2']. run_cores. split; [congruence|]. by split.
Qed.
End against.
