(* ===== verification/ValidateMachine.v ===== *)
(** * State machines that validation accepts ([dbspec/parse.ts])

    What [checkStateMachineConsistency] has shown when it reports nothing: no
    line leads out of a terminal state, no initial state is terminal, and each
    limit is a positive 64-bit count of rows in a state of the machine. *)

From S2P Require Import Prelude Documents Emit Check Lexer Literals ParseState Reader Validator ParseOk ValidateTotal ParseClean ValidateClean.
From Stdlib Require Import Lia.

(** The state machine lines of a settings block. *)
Definition machineLines (entries : list ISetting) : list IStateLine :=
  omap (fun s => match iset_kind s with IStateMachine _ l => Some l | _ => None end) entries.
Definition terminalStates (l : list IStateLine) : list string := omap (fun l => match l with LTerminal s _ => Some (tk_t s) | _ => None end) l.

(** The states that a line declares. *)
Definition lineStates (l : IStateLine) : list string :=
  match l with LInitial s | LTerminal s _ => [tk_t s] | LTransition f t _ => [tk_t f; tk_t t] | _ => [] end.

Record MachineValid (entries : list ISetting) : Prop := {
  mv_transition : forall f t r, LTransition f t r ∈ machineLines entries -> tk_t f ∉ terminalStates (machineLines entries);
  mv_initial : forall s, LInitial s ∈ machineLines entries -> tk_t s ∉ terminalStates (machineLines entries);
  mv_limit : forall s n, LLimit s n ∈ machineLines entries -> tk_t s ∈ concat (map lineStates (machineLines entries)) /\
    isInteger (tk_t n) = true /\ 1 <= bigint (tk_t n) <= 9223372036854775807 }.

(** A machine holds the lines that were read into it. *)
Record Collects (l : list IStateLine) (m : Machine) : Prop := {
  co_lines : forall x, x ∈ l -> match x with
    | LInitial _ | LTransition _ _ _ => exists kw, (kw, x) ∈ ma_lines m
    | LLimit s n => (s, n) ∈ ma_limits m
    | _ => True
    end;
  co_terminals : forall x, x ∈ terminalStates l -> x ∈ ma_terminals m;
  co_states : forall x, x ∈ ma_states m -> x ∈ concat (map lineStates l) }.

(** The machine keeps its collection when members that the collection does not
    name change. *)
Lemma Collects_same l m m' : Collects l m -> ma_lines m' = ma_lines m -> ma_limits m' = ma_limits m -> ma_terminals m' = ma_terminals m -> ma_states m' = ma_states m -> Collects l m'.
Proof. intros [H1 H2 H3] Hl Hi Ht Hs. split; [intros x Hx; specialize (H1 x Hx); by rewrite Hl, Hi|by rewrite Ht|by rewrite Hs]. Qed.

Lemma Collects_line l m kw x seen : Collects l m -> (forall s n, x <> LLimit s n) -> Collects (l ++ [x]) (addLine kw x seen m).
Proof.
  intros [H1 H2 H3] Hx. split.
  - intros y [Hy|Hy%list_elem_of_singleton]%elem_of_app.
    + specialize (H1 y Hy). destruct x, y; cbn; try done; try (destruct H1 as [kw' ?]; exists kw'; rewrite elem_of_app; by left).
    + subst y. destruct x; cbn; try done; try (exists kw; rewrite elem_of_app, list_elem_of_singleton; by right). by destruct (Hx state count).
  - intros y Hy. unfold terminalStates in Hy. rewrite omap_app, elem_of_app in Hy. destruct Hy as [Hy|Hy]; [apply H2 in Hy|];
      destruct x; cbn in *; rewrite ?set_add_elem, ?list_elem_of_singleton, ?elem_of_nil in *; auto; try done.
  - intros y Hy. rewrite map_app, concat_app, elem_of_app. cbn. rewrite app_nil_r.
    assert (Hc : y ∈ foldl (fun l x => set_add x l) (ma_states m) (lineStates x)) by (destruct x; exact Hy).
    apply foldl_set_add in Hc as [Hc|Hc]; [left; by apply H3|by right].
Qed.

Section machine.
Variable lines : list (list rune).

Lemma machineLines_app l k : machineLines (l ++ k) = machineLines l ++ machineLines k.
Proof. apply omap_app. Qed.

Lemma run_machineEntry s pre m e : run s (Collects (machineLines pre) m) (machineEntry lines m e) (fun m' s' => core s' = core s /\ Collects (machineLines (pre ++ [e])) m').
Proof.
  rewrite machineLines_app. unfold machineEntry. destruct (iset_kind e) eqn:Ek; cbn [machineLines omap list_omap]; rewrite ?Ek, ?app_nil_r;
    try (apply run_ret; intros; split; [done|assumption]).
  1: { apply run_ret. intros. split; [done|]. by eapply Collects_same. }
  eapply (run_bind _ _ _ _ (fun _ s' => core s' = core s)); [destruct (_ || _); [by apply run_ret|eapply run_weaken; [by apply run_frame, run_at|]; done]|].
  intros [] s1. set (m' := mkMachine _ _ _ _ _ _ _ _ _ _).
  assert (Hm : Collects (machineLines pre) m -> Collects (machineLines pre) m') by (intros; by eapply Collects_same).
  assert (Hline : forall seen, (forall s n, line <> LLimit s n) -> Collects (machineLines pre) m -> Collects (machineLines pre ++ [line]) (addLine (iset_kw e) line seen m'))
    by (intros; apply Collects_line; auto).
  destruct line eqn:El.
  1-3: repeat match goal with |- run _ _ (match ?x with _ => _ end) _ => destruct x end;
    first [apply run_ret; intros [? ?]; (split; [done|]); by apply Hline | eapply run_bind; [apply run_frame, run_at; done|]; intros [] ?; apply run_ret; tauto].
  - destruct (ma_history m'); [run_all|]. apply run_ret. intros [Hc ?]. split; [done|]. destruct (Hm Hc) as [H1 H2 H3]. split.
    + intros x [Hx|Hx%list_elem_of_singleton]%elem_of_app; [exact (H1 x Hx)|by subst x].
    + intros x. unfold terminalStates. rewrite omap_app. cbn. rewrite app_nil_r. apply H2.
    + intros x Hx. rewrite map_app, concat_app. cbn. rewrite app_nil_r. by apply H3.
  - apply run_ret. intros [Hc ?]. split; [done|]. destruct (Hm Hc) as [H1 H2 H3]. split.
    + intros x [Hx|Hx%list_elem_of_singleton]%elem_of_app.
      * specialize (H1 x Hx). destruct x; try done. cbn. rewrite elem_of_app. by left.
      * subst x. cbn. rewrite elem_of_app, list_elem_of_singleton. by right.
    + intros x. unfold terminalStates. rewrite omap_app. cbn. rewrite app_nil_r. apply H2.
    + intros x Hx. rewrite map_app, concat_app. cbn. rewrite app_nil_r. by apply H3.
Qed.

Definition LimitValid (states : list string) (l : Tk * Tk) : Prop :=
  tk_t (fst l) ∈ states /\ isInteger (tk_t (snd l)) = true /\ 1 <= bigint (tk_t (snd l)) <= 9223372036854775807.

Lemma run_checkLimits s limits states : run s True (checkLimits lines limits states) (fun _ s' => core s' = core s /\ Forall (LimitValid states) limits).
Proof.
  unfold checkLimits. eapply run_bind; [eapply run_pre; [|apply (run_foldS _ _ (fun pre _ => Forall (LimitValid states) pre))]; [intros; constructor|]|].
  - intros pre [state count] seen s1 _. unfold checkLimit. eapply (run_bind _ _ _ _ (fun _ s' => core s' = core s1 /\ tk_t state ∈ states)).
    { destruct (negb _) eqn:E; [eapply run_weaken; [by apply run_frame, run_at|]; done|]. apply negb_false_iff, bool_decide_eq_true in E.
      eapply run_weaken; [by apply run_frame, run_guard|]. cbn. tauto. }
    intros [] s2. cbv zeta. eapply run_bind; [by apply run_frame, run_guard|]. intros [] s3. apply run_ret. intros. run_hyps. split; [congruence|].
    match goal with H : (_ || _) = false |- _ => apply orb_false_iff in H as [Hn1 Hn2] end. apply Z.ltb_ge in Hn1, Hn2.
    apply Forall_app. split; [done|]. apply Forall_singleton. split; [done|]. cbn. destruct (isInteger _); [split; [done|lia]|lia].
  - intros seen s1. apply run_ret. tauto.
Qed.

Lemma run_machineOrder s m l : run s True (machineOrder lines m l) (fun _ s' => core s' = core s /\
  match snd l with LInitial s => tk_t s ∉ ma_terminals m | LTransition f _ _ => tk_t f ∉ ma_terminals m | _ => True end).
Proof.
  unfold machineOrder. destruct (snd l); try (by apply run_ret); (eapply run_weaken; [by apply run_frame, run_guard|]); intros [] s' _ [H1 H2];
    (split; [done|]); by apply bool_decide_eq_false in H2.
Qed.
End machine.

(** ** The settings of a table *)

Section settings.
Variables (lines : list (list rune)) (nt nd : nat) (b : bool) (available : Available).
Hypothesis placed : Placed nt available.
Notation I := (Reading nt nd b).

Lemma reading_table s ti : I s -> (ti < nt)%nat -> ok (at_core (core s)) (theTable ti) (fun _ => True).
Proof. intros Hs Hti. apply still_table. by rewrite <- (re_tables _ _ _ _ Hs) in Hti. Qed.

Lemma kept_machine c F table entries :
  kept I (fun s => core s = c /\ F) (checkStateMachineConsistency lines available table entries) (fun _ s => core s = c /\ F /\ MachineValid entries).
Proof.
  unfold checkStateMachineConsistency.
  pose proof (fun rule tok message (_ : rule <> "syntax") => ok_at lines nt nd b rule tok message) as Hat.
  pose proof (ok_theTable nt nd b) as Htable.
  eapply kept_bind; [apply (kept_step _ _ _ _ (Collects (machineLines entries)))|].
  { apply ok_foldS; [done|]. intros. by apply ok_machineEntry. }
  { intros s _ _ _. eapply run_pre; [|apply (run_foldS _ _ (fun pre m => Collects (machineLines pre) m))].
    - intros _. split; intros x; cbn; by intros ?%elem_of_nil.
    - intros. apply run_machineEntry. }
  intros m. eapply kept_bind.
  { apply (kept_step _ _ _ _ (fun _ => Forall (fun l : Tk * IStateLine => match snd l with LInitial s => tk_t s ∉ ma_terminals m | LTransition f _ _ => tk_t f ∉ ma_terminals m | _ => True end) (ma_lines m))).
    - apply ok_eachP. intros. by apply ok_machineOrder.
    - intros s _ _ _. apply run_each. intros. apply run_machineOrder. }
  intros []. eapply kept_bind; [apply (kept_step _ _ _ _ (fun _ => Forall (LimitValid (ma_states m)) (ma_limits m)))|].
  { by apply ok_checkLimits. } { intros s _ _ _. apply run_checkLimits. }
  intros []. cbv zeta.
  assert (Hrest : forall J, (forall rule tok message, rule <> "syntax" -> ok J (at_ lines rule tok message) (fun _ => True)) ->
    (forall ti, (ti < nt)%nat -> ok J (theTable ti) (fun _ => True)) ->
    ok J ((match ma_history m with Some h => checkHistory lines available table h (assoc (ma_column m) (it_colMap table)) (ma_requires m) | None => mret tt end);;
          stateDefault lines m (assoc (ma_column m) (it_colMap table));;
          checkCheckboxes lines table (ma_column m) (ma_states m) (ma_boxes m)) (fun _ => True)).
  { intros J HJ HT. pose proof (ok_checkHistory lines J nt available placed HJ HT). pose proof (ok_stateDefault lines J HJ). pose proof (ok_checkCheckboxes lines J HJ). by ok. }
  eapply kept_weaken; [eapply kept_same|intros s H; exact H|].
  - by apply Hrest.
  - intros s Hs. apply Hrest; [intros; by apply still_at|]. intros. by apply reading_table.
  - intros [] s (Hc & [[HF Hm] Hl] & Hlim). split_and!; [done|done|]. destruct Hm as [H1 H2 H3]. rewrite Forall_forall in Hl. rewrite Forall_forall in Hlim. split.
    + intros f t r Hin Ht. destruct (H1 _ Hin) as [kw Hkw]. specialize (Hl _ Hkw). cbn in Hl. by apply Hl, H2.
    + intros st Hin Ht. destruct (H1 _ Hin) as [kw Hkw]. specialize (Hl _ Hkw). cbn in Hl. by apply Hl, H2.
    + intros st n Hin. specialize (H1 _ Hin). destruct (Hlim _ H1) as (Hs & Hi & Hb). split; [by apply H3|done].
Qed.

Lemma kept_settings c F ti table block child : Forall staged (isb_entries block) ->
  kept I (fun s => core s = c /\ F) (settings lines available ti table block child) (fun _ s => core s = c /\ F /\ MachineValid (isb_entries block)).
Proof.
  intros Hs. unfold settings. cbv zeta.
  assert (Hentries : forall J, (forall rule tok message, rule <> "syntax" -> ok J (at_ lines rule tok message) (fun _ => True)) ->
    (forall ti, (ti < nt)%nat -> ok J (theTable ti) (fun _ => True)) ->
    ok J (foldS (settingEntry lines available ti table (isb_entries block) child) [] (isb_entries block)) (fun _ => True)).
  { intros J HJ HT. apply ok_foldS; [done|]. intros seen e Hin _. eapply ok_settingEntry; [exact placed|done|done|]. by eapply Forall_forall. }
  eapply kept_bind; [apply kept_same|intros seen; apply kept_machine].
  - apply Hentries; [intros; apply ok_at|]. apply ok_theTable.
  - intros s Hi. apply Hentries; [intros; by apply still_at|]. intros. by apply reading_table.
Qed.
End settings.
