(* ===== verification/ValidateTables.v ===== *)
(** * Tables that validation accepts ([dbspec/parse.ts], [validateTable])

    The check reader writes the canonical texts of checks into the document;
    [unwritten] is the document without them, which validation leaves alone. *)

From S2P Require Import Prelude Documents Emit Check Lexer Literals ParseState Reader CheckReader Validator ParseOk CheckTotal ValidateTotal ParseClean ValidateClean ValidateMachine.
From Stdlib Require Import Lia.

(** ** The texts of checks *)

Definition unwrittenTable (t : ITable) : ITable := setChecks (map (setText "")) t.
Definition unwritten (d : IDocument) : IDocument := setTables (map unwrittenTable) d.

Lemma unwritten_text text i l : map (setText "") (alter (setText text) i l) = map (setText "") l.
Proof. revert i. induction l as [|k l IH]; intros [|i]; cbn; [done..|]. f_equal. apply IH. Qed.

Lemma unwritten_check text ti ci d : unwritten (setTables (alter (setChecks (alter (setText text) ci)) ti) d) = unwritten d.
Proof.
  unfold unwritten, setTables. cbn. f_equal. revert ti. induction (idoc_tables d) as [|t l IH]; intros [|ti]; cbn; [done..| |].
  - f_equal. unfold unwrittenTable, setChecks, it_update. cbn. by rewrite unwritten_text.
  - f_equal. apply IH.
Qed.

Lemma unwritten_lookup d d' i t : unwritten d' = unwritten d -> idoc_tables d' !! i = Some t -> exists t', idoc_tables d !! i = Some t' /\ unwrittenTable t' = unwrittenTable t.
Proof.
  intros E Ht. assert (H : map unwrittenTable (idoc_tables d') = map unwrittenTable (idoc_tables d)) by exact (f_equal idoc_tables E).
  apply (f_equal (lookup i)) in H. rewrite !list_lookup_fmap, Ht in H. destruct (idoc_tables d !! i) as [t'|]; [|done]. exists t'. split; [done|]. exact (Some_inj _ _ (eq_sym H)).
Qed.

Lemma TableRead_unwritten G t : TableRead G (unwrittenTable t) -> TableRead G t.
Proof.
  intros [H1 H2 H3 H4 H5 H6 H7 H8 H9 H10]. split; try done. clear -H9. cbn in H9. rewrite Forall_map in H9. exact H9.
Qed.
Lemma unwritten_TableRead G t : TableRead G t -> TableRead G (unwrittenTable t).
Proof. intros [H1 H2 H3 H4 H5 H6 H7 H8 H9 H10]. split; try done. cbn. rewrite Forall_map. exact H9. Qed.

(** Documents that differ in the texts of checks alone. *)
Lemma TableRead_same G d d' : unwritten d' = unwritten d -> Forall (TableRead G) (idoc_tables d) -> Forall (TableRead G) (idoc_tables d').
Proof.
  intros E H. apply Forall_lookup_2. intros i t Ht. destruct (unwritten_lookup d d' i t E Ht) as (t' & Ht' & Et). apply TableRead_unwritten. rewrite <- Et.
  apply unwritten_TableRead. exact (Forall_lookup_1 _ _ _ _ H Ht').
Qed.

(** ** Tables *)

(** A table of a document with the given tables. *)
Record TableValid (available : Available) (tables : list ITable) (t : ITable) : Prop := {
  tv_columns : it_columns t <> [];
  tv_primary : exists pk, it_pks t = [pk] /\ KeyValid t true pk;
  tv_keys : Forall (KeyValid t false) (it_uniques t ++ it_indexes t);
  tv_identity : IdentityValid t;
  tv_foreign : Forall (ForeignKeyValid available tables t) (it_fks t);
  tv_machine : MachineValid (entriesOf t) }.

(** The texts of checks do not matter. *)
Lemma KeyValid_unwritten t primary k : KeyValid t primary k -> KeyValid (unwrittenTable t) primary k.
Proof. intros [H1 H2 H3 H4]. by split. Qed.

Lemma ForeignKeyValid_unwritten av tables t f : ForeignKeyValid av tables t f -> ForeignKeyValid av (map unwrittenTable tables) (unwrittenTable t) f.
Proof.
  intros [[H1 H2 H3 H4 H5] Hk Hr Hus]. split; [by split|done| |].
  - intros i u Ha Hu. rewrite list_lookup_fmap in Hu. destruct (tables !! i) as [u'|] eqn:E; [|done]. apply Some_inj in Hu as <-. destruct (Hr i u' Ha E). by split.
  - intros u Ha. destruct (Hus u Ha). by split.
Qed.

Lemma TableValid_unwritten av tables t : TableValid av tables t -> TableValid av (map unwrittenTable tables) (unwrittenTable t).
Proof.
  intros [H1 (pk & H2 & H2') H3 H4 H5 H6]. split; [done| | |done| |done].
  - exists pk. split; [done|by apply KeyValid_unwritten].
  - eapply Forall_impl; [exact H3|]. intros k. apply KeyValid_unwritten.
  - eapply Forall_impl; [exact H5|]. intros f. apply ForeignKeyValid_unwritten.
Qed.

Section tables.
Variables (lines : list (list rune)) (G : Tk -> Prop) (nt nd : nat) (b : bool) (available : Available).
Hypothesis placed : Placed nt available.
Hypothesis known : forall n, assoc n available <> Some None.
Hypothesis used_read : forall n u, assoc n available = Some (Some (Used u)) -> exists G', TableRead G' u.
Notation I := (Reading nt nd b).

(** The state holds a document that is [d] but for the texts of checks, and the
    cache [k] of used documents. *)
Definition holds (d : IDocument) (k : list (string * CacheEntry)) (s : DP) : Prop := unwritten (dp_document s) = unwritten d /\ dp_cache s = k.

Definition document_at (d : IDocument) (k : list (string * CacheEntry)) (s : DP) : Prop := dp_document s = d /\ dp_cache s = k.

Lemma ok_document_at d k rule tok message : ok (document_at d k) (at_ lines rule tok message) (fun _ => True).
Proof.
  assert (Hp : forall x, ok (document_at d k) (push x) (fun _ => True)) by (intros x; apply ok_modify; [done|]; intros s; unfold clean; cbn; by destruct (dp_diagnostics s)).
  unfold at_, report. case_decide; [|apply Hp]. eapply ok_bind; [by apply ok_modify|]. intros _ _. eapply ok_bind; [apply ok_get|]. intros p _.
  destruct (_ =? _); [by apply ok_ret|]. eapply ok_bind; [by apply ok_modify|]. intros _ _. apply Hp.
Qed.

Lemma ok_document_mark d k tok cls : ok (document_at d k) (mark tok cls) (fun _ => True).
Proof.
  unfold mark. destruct tok; [|by apply ok_ret]. eapply ok_bind; [apply ok_get|]. intros p _. case_decide; [by apply ok_ret|by apply ok_modify].
Qed.

Lemma kept_check d K F ti ci table k bans : kept I (fun s => holds d K s /\ F) (check lines ti ci table k bans) (fun _ s => holds d K s /\ F).
Proof.
  apply kept_run; [apply ok_check|]. intros s _. unfold check.
  eapply (run_bind _ _ _ _ (fun _ s' => document_at (dp_document s) (dp_cache s) s')).
  - intros a s' E Hc. destruct (ok_checkText lines (document_at (dp_document s) (dp_cache s)) table bans (ick_expr k) (ok_document_at _ _) (ok_document_mark _ _) (ick_close k) s (conj eq_refl eq_refl))
      as (a' & s2 & E' & Hd & _ & Hcl). rewrite E' in E. injection E as <- <-. split; [by apply Hcl|done].
  - intros [text|] s1; [|apply run_ret; unfold holds; intros [[H ?] [Hs Hk]]; by rewrite Hs, Hk].
    eapply run_weaken; [apply run_frame, run_modify; done|]. intros [] s' [[[Hh Hk] HF] [Hs Hs']] ->. split; [|done].
    unfold holds in *. cbn. rewrite unwritten_check, Hs. split; congruence.
Qed.

Lemma kept_checks d K F ti ci table bans checks : kept I (fun s => holds d K s /\ F) (checksFrom lines ti ci table bans checks) (fun _ s => holds d K s /\ F).
Proof.
  revert ci. induction checks as [|k checks IH]; intros ci; cbn [checksFrom]; [by apply kept_ret|]. eapply kept_bind; [apply kept_check|]. intros a. apply IH.
Qed.

(** A check of the members of a table. *)
Lemma kept_each {A} c F (f : A -> Rd unit) (Q : A -> Prop) l : (forall x, ok I (f x) (fun _ => True)) ->
  (forall x s, x ∈ l -> I s -> core s = c -> F -> run s True (f x) (fun _ s' => core s' = core s /\ Q x)) ->
  kept I (fun s => core s = c /\ F) (eachP f l) (fun _ s => core s = c /\ F /\ Forall Q l).
Proof.
  intros Hok Hr. eapply kept_weaken; [apply (kept_eachP I f (fun pre s => core s = c /\ F /\ Forall Q pre) l)| |].
  - intros pre x Hx. eapply kept_weaken; [apply (kept_step I c (F /\ Forall Q pre) (f x) (fun _ => Q x))|done|].
    + apply Hok.
    + intros s Hs Hc [HF _]. by apply Hr.
    + intros _ s (Hc & [HF Hp] & Hq). split_and!; [done|done|]. apply Forall_app. split; [done|by apply Forall_singleton].
  - naive_solver.
  - naive_solver.
Qed.

Lemma kept_guard c F cond rule tok message : rule <> "syntax" ->
  kept I (fun s => core s = c /\ F) (when cond (at_ lines rule tok message)) (fun _ s => core s = c /\ F /\ cond = false).
Proof. intros Hr. apply kept_step; [apply ok_when, ok_at|]. intros s _ _ _. by apply run_guard. Qed.

Lemma kept_validateTable d K F ti : Forall (TableRead G) (idoc_tables d) -> (ti < nt)%nat ->
  kept I (fun s => holds d K s /\ F) (validateTable lines available ti) (fun _ s => holds d K s /\ F /\
    exists t, map unwrittenTable (idoc_tables d) !! ti = Some t /\ TableValid available (map unwrittenTable (idoc_tables d)) t).
Proof.
  intros Hd Hti. apply (kept_at I (fun c => (unwritten (c_document c) = unwritten d /\ c_cache c = K) /\ F)). intros c. unfold validateTable.
  pose proof (fun rule tok message (_ : rule <> "syntax") => ok_at lines nt nd b rule tok message) as Hat.
  pose proof (ok_theTable nt nd b) as Htable.
  set (F0 := (unwritten (c_document c) = unwritten d /\ c_cache c = K) /\ F).
  eapply kept_bind_ok; [by apply (ok_stagedTable nt nd b)| |].
  { eapply kept_step with (Q := fun t => idoc_tables (c_document c) !! ti = Some t); [by apply Htable|]. intros s _ <- _.
    eapply run_weaken; [apply run_theTable|]. cbn. tauto. }
  intros t Hst. cbv beta in Hst |- *.
  assert (Hread : F0 -> idoc_tables (c_document c) !! ti = Some t -> TableRead G t).
  { intros [[Hun _] _] Ht. pose proof (TableRead_same G _ _ Hun Hd) as Hall. exact (Forall_lookup_1 _ _ _ _ Hall Ht). }
  set (F1 := F0 /\ idoc_tables (c_document c) !! ti = Some t). 
  assert (Hr1 : F1 -> TableRead G t) by (intros []; auto).
  eapply kept_bind; [by apply (kept_guard c F1)|]. intros [].
  eapply kept_bind; [by apply kept_guard|]. intros [].
  eapply kept_bind; [apply (kept_each _ _ _ (fun _ => False)); [intros; apply ok_at|intros; eapply run_weaken; [by apply run_frame, run_at|done]]|]. intros [].
  eapply kept_bind; [apply (kept_each _ _ _ (KeyValid t true)); [intros; by apply ok_keyLike|]|].
  { intros k s Hk _ _ HF. assert (HF1 : F1) by tauto. apply (run_keyLike lines G); [apply (tr_failed _ _ (Hr1 HF1))|]. eapply key_names; [by apply Hr1, HF1|]. apply elem_of_app. left. destruct (it_pks t); [by apply elem_of_nil in Hk|]. cbn in Hk. apply list_elem_of_singleton in Hk as ->. left. }
  intros []. eapply kept_bind; [apply (kept_each _ _ _ (KeyValid t false)); [intros; by apply ok_keyLike|]|].
  { intros k s Hk _ _ HF. assert (HF1 : F1) by tauto. apply (run_keyLike lines G); [apply (tr_failed _ _ (Hr1 HF1))|]. eapply key_names; [by apply Hr1, HF1|]. rewrite !elem_of_app. auto. }
  intros []. eapply kept_bind; [apply (kept_each _ _ _ (KeyValid t false)); [intros; by apply ok_keyLike|]|].
  { intros k s Hk _ _ HF. assert (HF1 : F1) by tauto. apply (run_keyLike lines G); [apply (tr_failed _ _ (Hr1 HF1))|]. eapply key_names; [by apply Hr1, HF1|]. rewrite !elem_of_app. auto. }
  intros []. eapply kept_bind; [apply (kept_step _ _ _ _ (fun _ => IdentityValid t)); [by apply ok_identityKey|]|].
  { intros s _ _ HF. assert (HF1 : F1) by tauto. apply (run_identityKey lines G); [apply (tr_failed _ _ (Hr1 HF1))|apply (tr_primary _ _ (Hr1 HF1))]. }
  intros []. eapply kept_bind; [apply (kept_each _ _ _ (ForeignKeyValid available (idoc_tables (c_document c)) t)); [intros; by eapply ok_foreignKey|]|].
  { intros f s Hf _ Hc HF. assert (HF1 : F1) by tauto. subst c. pose proof (tr_foreign _ _ (Hr1 HF1)) as Hfk. rewrite Forall_forall in Hfk.
    eapply run_pre; [|apply (run_foreignKey lines G available known used_read); [by apply Hr1, HF1|by apply Hfk]]. intros _. eapply TableRead_same; [|exact Hd]. apply HF1. }
  intros []. set (F2 := _ /\ Forall (ForeignKeyValid _ _ _) _).
  eapply kept_bind; [eapply kept_weaken; [apply (kept_checks d K F2)| |intros a s Hs; exact Hs]|].
  { intros s [<- H2]. split; [|done]. apply H2. }
  intros []. eapply kept_weaken; [apply (kept_at I (fun c => (unwritten (c_document c) = unwritten d /\ c_cache c = K) /\ F2) _ (fun _ s => holds d K s /\ F2 /\ MachineValid (entriesOf t)))|done|].
  - intros c'. unfold entriesOf. destruct (it_settings t) as [block|] eqn:Es.
    + eapply kept_weaken; [by apply (kept_settings lines nt nd b available placed c' ((unwritten (c_document c') = unwritten d /\ c_cache c' = K) /\ F2))|done|].
      intros [] s (<- & [H1 H2] & Hm). split; [exact H1|by split].
    + apply kept_ret. intros s (<- & H1 & H2). split; [exact H1|]. split; [exact H2|]. split; cbn; intros; by match goal with H : _ ∈ [] |- _ => apply elem_of_nil in H end.
  - intros [] s (Hs & (((((((((([Hun HK] & HF) & Ht) & H1) & H2) & H3) & H4) & H5) & H6) & H7) & H8) & Hm). split_and!; [done|done|].
    assert (Hr : TableRead G t) by (apply Hr1; by split_and!). destruct (tr_failed _ _ Hr) as (_ & Hfp & _ & Hfl & _).
    assert (Etab : map unwrittenTable (idoc_tables (c_document c)) = map unwrittenTable (idoc_tables d)) by exact (f_equal idoc_tables Hun).
    exists (unwrittenTable t). rewrite <- Etab. split; [by apply list_lookup_fmap_Some_2|]. apply TableValid_unwritten.
    rewrite Hfl, andb_true_r in H1. rewrite Hfp, andb_true_r in H2. split; [by destruct (it_columns t)| | |done|done|done].
    + destruct (it_pks t) as [|pk [|]]; [done| |]; [|by inversion H3]. exists pk. split; [done|]. by inversion H4.
    + apply Forall_app. by split.
Qed.
End tables.
