(* ===== verification/ValidateDocument.v ===== *)
(** * Documents that validation accepts ([dbspec/parse.ts], [validate])

    The tables at hand are those of the document, each under its own name, and
    those of its use lines, which are tables of the documents that resolving
    gives; the tables, the constraints and the diagrams of the
    document keep to them. *)

From S2P Require Import Prelude Documents Emit Check Render Lexer Literals ParseState Reader CheckReader Validator ParseDocument ParseOk CheckTotal ValidateTotal ParseClean ValidateClean ValidateMachine ValidateTables.
From Stdlib Require Import Lia.

Notation tableName t := (tk_t (it_name t)).

(** The table [t] comes from a use line: a table of the name [n] of the document
    that the line resolves to. *)
Definition UsedFrom (Src : string -> IDocument -> Prop) (uses : list IUse) (n : string) (t : ITable) : Prop :=
  exists use target, use ∈ uses /\ n ∈ map tk_t (iuse_tables use) /\ Src (tk_t (iuse_doc use)) target /\ t ∈ idoc_tables target /\ tableName t = n.

(** The tables at hand of a document with their uses; [Src] relates the name of
    a used document to what it resolves to. *)
Record TablesAtHand (Src : string -> IDocument -> Prop) (available : Available) (d : IDocument) : Prop := {
  th_local : forall i t, idoc_tables d !! i = Some t -> assoc (tableName t) available = Some (Some (Local i));
  th_known : forall n r, assoc n available = Some r -> (exists i t, r = Some (Local i) /\ idoc_tables d !! i = Some t /\ tableName t = n) \/
    (exists t, r = Some (Used t) /\ UsedFrom Src (idoc_uses d) n t) }.

Definition DiagramValid (available : Available) (g : IDiagram) : Prop :=
  NoDup (map (fun p => tk_t (ipl_table p)) (idg_entries g)) /\ Forall (fun p => is_Some (assoc (tk_t (ipl_table p)) available)) (idg_entries g).

Record DocumentValid (sha256 : string -> string) (Src : string -> IDocument -> Prop) (available : Available) (d : IDocument) : Prop := {
  dv_hand : TablesAtHand Src available d;
  dv_constraints : Forall (fun n => n ∉ map (fun t => tableName t) (idoc_tables d)) (map fst (idoc_constraints d));
  dv_tables : Forall (TableValid available (idoc_tables d)) (idoc_tables d);
  dv_generated : NoDup (map ign_name (concat (map (generatedNamesOf sha256) (idoc_tables d))));
  dv_diagrams : Forall (DiagramValid available) (idoc_diagrams d) }.

(** ** Uses *)

(** The pairs of a document and a table that a use line names. *)
Definition usedPairs (u : IUse) : list (string * string) := map (fun t => (tk_t (iuse_doc u), tk_t t)) (iuse_tables u).

(** What use lines have given so far: tables of the documents that they name. *)
Definition UsesHold (Src : string -> IDocument -> Prop) (pairs : list (string * string)) (u : Uses) : Prop :=
  forall n r, assoc n (us_available u) = Some r -> exists doc target t,
    r = Some (Used t) /\ (doc, n) ∈ pairs /\ Src doc target /\ t ∈ idoc_tables target /\ tableName t = n.

Lemma UsesHold_app Src pairs more u : UsesHold Src pairs u -> UsesHold Src (pairs ++ more) u.
Proof.
  intros H n r Hn. destruct (H n r Hn) as (doc & target & t & -> & Hin & Ht). exists doc, target, t. split; [done|]. split; [|done]. rewrite elem_of_app. by left.
Qed.

Lemma UsesHold_from Src uses u n r : UsesHold Src (concat (map usedPairs uses)) u -> assoc n (us_available u) = Some r -> exists t, r = Some (Used t) /\ UsedFrom Src uses n t.
Proof.
  intros H Hn. destruct (H n r Hn) as (doc & target & t & -> & Hin & Hs & Ht & En). exists t. split; [done|]. apply elem_of_concat in Hin as (l & Hl & Hin).
  apply list_elem_of_fmap in Hin as (use & -> & Huse). apply list_elem_of_fmap in Hl as (tok & [= -> ->] & Htok). exists use, target. split; [done|]. split; [by apply list_elem_of_fmap_2|]. done.
Qed.

(** The core with another cache, whose entries are known. *)
Definition withCache (k : list (string * CacheEntry)) (c : Core) : Core := mkCore (c_document c) (c_stopped c) (c_block c) (c_syntax c) k.
Definition Recached (Sourced : list (string * CacheEntry) -> Prop) (c c' : Core) : Prop := exists k, c' = withCache k c /\ Sourced k.

Lemma Recached_refl (Sourced : list (string * CacheEntry) -> Prop) c : Sourced (c_cache c) -> Recached Sourced c c.
Proof. intros H. exists (c_cache c). split; [by destruct c|done]. Qed.
Lemma Recached_trans Sourced c1 c2 c3 : Recached Sourced c1 c2 -> Recached Sourced c2 c3 -> Recached Sourced c1 c3.
Proof. intros (k & -> & _) (k' & -> & H). by exists k'. Qed.
Lemma Recached_sourced (Sourced : list (string * CacheEntry) -> Prop) c c' : Recached Sourced c c' -> Sourced (c_cache c').
Proof. by intros (k & -> & H). Qed.

Lemma run_each_clean {A} s (f : A -> Rd unit) l : (forall x s, run s True (f x) (fun _ _ => True)) -> run s True (eachP f l) (fun _ _ => True).
Proof.
  intros Hf. revert s. induction l as [|x l IH]; intros s; cbn [eachP]; [by apply run_ret|]. eapply run_bind; [apply Hf|]. intros [] s1.
  eapply run_weaken; [apply run_frame, IH|done].
Qed.

(** A table that is found by its name. *)
Lemma assoc_tables l acc n t : assoc n (foldl (fun m t => assoc_set (tableName t) t m) acc l) = Some t -> assoc n acc = Some t \/ (t ∈ l /\ tableName t = n).
Proof.
  revert acc. induction l as [|x l IH]; intros acc; cbn [foldl]; [by left|]. intros [H|[H ?]]%IH; [|right; split; [by right|done]].
  rewrite assoc_set_get in H. case_decide as E; [|by left]. injection H as ->. right. split; [by left|done].
Qed.

Section uses.
Variables (lines : list (list rune)) (resolve : Tk -> Rd (option IDocument)).
Variables (Sourced : list (string * CacheEntry) -> Prop) (Src : string -> IDocument -> Prop).
Hypothesis resolve_run : forall s tok, run s (Sourced (c_cache (core s))) (resolve tok)
  (fun r s' => Recached Sourced (core s) (core s') /\ exists d, r = Some d /\ Src (tk_t tok) d).

Lemma run_useTable s target name u t pairs : run s (Src name target /\ UsesHold Src pairs u) (useTable lines target name u t)
  (fun u' s' => core s' = core s /\ Src name target /\ UsesHold Src (pairs ++ [(name, tk_t t)]) u').
Proof.
  unfold useTable. destruct (negb (wellFormed _)); [apply run_ret; intros [? ?]; split; [done|]; split; [done|by apply UsesHold_app]|].
  destruct (assoc (tk_t t) (us_available u)) eqn:E; [run_all|]. cbv zeta. eapply run_bind; [by apply run_frame, run_guard|]. intros [] s1.
  apply run_ret. intros ([Hsrc Hu] & Hc & Hf). split; [done|]. split; [done|]. apply negb_false_iff, bool_decide_eq_true in Hf as [f Hf]. rewrite Hf.
  intros n r. cbn. rewrite assoc_app. destruct (assoc n (us_available u)) eqn:En; [intros [= <-]; by apply (UsesHold_app Src _ [(name, tk_t t)] u Hu)|]. cbn. case_decide; [|done].
  intros [= <-]. subst n. apply assoc_tables in Hf as [Hf|[Hf Hn]]; [done|]. apply list_elem_of_filter in Hf as [_ Hf].
  exists name, target, f. split; [done|]. split; [apply elem_of_app; right; by apply list_elem_of_singleton|]. done.
Qed.

Lemma run_useTables s target name u toks pairs : run s (Src name target /\ UsesHold Src pairs u) (foldS (useTable lines target name) u toks)
  (fun u' s' => core s' = core s /\ UsesHold Src (pairs ++ map (fun t => (name, tk_t t)) toks) u').
Proof.
  eapply run_weaken; [eapply run_pre; [|apply (run_foldS _ _ (fun pre u => Src name target /\ UsesHold Src (pairs ++ map (fun t => (name, tk_t t)) pre) u))]|].
  - by rewrite app_nil_r.
  - intros pre t u' s4 _. rewrite map_app, app_assoc. apply run_useTable.
  - intros u' s' _ (? & _ & ?). done.
Qed.

Lemma run_useEntry s u use pairs : run s (Sourced (c_cache (core s)) /\ UsesHold Src pairs u) (useEntry lines resolve u use)
  (fun u' s' => Recached Sourced (core s) (core s') /\ UsesHold Src (pairs ++ usedPairs use) u').
Proof.
  unfold useEntry. cbv zeta. eapply run_bind; [apply run_frame, run_theDocument|]. intros d s1.
  destruct (negb (wellFormed _)); [apply run_ret; intros ([? ?] & _ & ->); split; [by apply Recached_refl|by apply UsesHold_app]|].
  destruct (includes _ _); [run_all|]. destruct (decide _); [run_all|].
  eapply run_bind; [eapply run_pre; [|apply resolve_run]; intros ([? ?] & _ & ->); done|]. intros target s2. destruct target as [target|].
  - eapply run_bind; [apply run_frame, (run_each _ _ (fun _ => False)); intros; eapply run_weaken; [by apply run_frame, run_at|done]|]. intros [] s3.
    eapply run_weaken; [eapply run_pre; [|apply (run_useTables _ target _ _ _ pairs)]|].
    + intros ((([Hs Hu] & _ & E1) & Hc & d' & [= <-] & Hsrc) & E3 & _). split; [exact Hsrc|exact Hu].
    + intros u' s' ((([Hs Hu] & _ & E1) & Hc & d' & [= <-] & Hsrc) & E3 & _) [H1 H2]. split; [by rewrite H1, E3, <- E1|exact H2].
  - eapply run_bind; [apply run_frame, run_each_clean; intros; eapply run_weaken; [by apply run_frame, run_modify|done]|]. intros [] s3. apply run_ret.
    intros (((_ & _) & _ & d' & ? & _) & _). done.
Qed.

Lemma run_uses uses : forall s u pairs, run s (Sourced (c_cache (core s)) /\ UsesHold Src pairs u) (foldS (useEntry lines resolve) u uses)
  (fun u' s' => Recached Sourced (core s) (core s') /\ UsesHold Src (pairs ++ concat (map usedPairs uses)) u').
Proof.
  induction uses as [|use uses IH]; intros s u pairs; cbn [foldS map concat].
  { apply run_ret. intros [? ?]. rewrite app_nil_r. split; [by apply Recached_refl|done]. }
  eapply run_bind; [apply run_useEntry|]. intros u' s1. eapply run_weaken; [eapply run_pre; [|apply IH]|].
  - intros [_ [Hr Hu]]. split; [by eapply Recached_sourced|exact Hu].
  - intros u2 s2 [_ [Hr _]] [Hr2 Hu2]. rewrite app_assoc. split; [by eapply Recached_trans|done].
Qed.
End uses.

(** ** The tables of the document *)

Section own.
Variables (lines : list (list rune)) (G : Tk -> Prop) (u : Uses).

(** The tables of the document that have joined those of the use lines. *)
Definition joined (pre : list (nat * ITable)) (acc : list (string * option TRef) * list (string * Tk)) : Prop :=
  fst acc = us_available u ++ map (fun it => (tableName (snd it), Some (Local (fst it)))) pre /\
  snd acc = map (fun it => (tableName (snd it), it_name (snd it))) pre /\
  NoDup (map (fun it => tableName (snd it)) pre) /\ Forall (fun it => assoc (tableName (snd it)) (us_available u) = None) pre.

Lemma assoc_map_none {A V} (f : A -> string) (g : A -> V) l n : assoc n (map (fun x => (f x, g x)) l) = None <-> n ∉ map f l.
Proof. rewrite assoc_None, map_map. by cbn. Qed.

Lemma run_localTable s pre acc it : TableRead G (snd it) ->
  run s (joined pre acc) (localTable lines u acc it) (fun acc' s' => core s' = core s /\ joined (pre ++ [it]) acc').
Proof.
  intros Ht. destruct it as [i t]. cbn [snd] in *. destruct (tr_name _ _ Ht) as [Hn Hv]. destruct (tr_failed _ _ Ht) as (_ & _ & _ & _ & Hh).
  unfold localTable. destruct acc as [available locals]. rewrite Hn, (validTok_formed _ _ Hv), Hh. cbn [andb negb].
  destruct (assoc (tableName t) available) eqn:E; (eapply run_bind; [by apply run_frame, run_guard|]); intros [] s1; apply run_ret; [by intros [_ [_ ?]]|].
  intros [(H1 & H2 & H3 & H4) [Hc _]]. split; [done|]. cbn in H1, H2. subst available locals. rewrite assoc_app in E.
  destruct (assoc (tableName t) (us_available u)) eqn:Eu; [done|]. rewrite (assoc_map_none (fun it => tableName (snd it)) (fun it => Some (Local (fst it)))) in E.
  unfold joined. cbn [fst snd]. rewrite !map_app, <- !app_assoc. split_and!; [done|done| |].
  - apply NoDup_app. split_and!; [done| |by apply NoDup_singleton]. intros y Hy Hy2. apply list_elem_of_singleton in Hy2 as ->. done.
  - apply Forall_app. split; [done|]. by apply Forall_singleton.
Qed.

Lemma run_constraintEntry s locals c : run s True (constraintEntry lines u locals c) (fun _ s' => core s' = core s /\ assoc (fst c) locals = None).
Proof.
  destruct c as [n tok]. unfold constraintEntry. destruct (assoc n locals) eqn:E; [eapply run_weaken; [by apply run_frame, run_at|done]|].
  eapply run_weaken; [by apply run_frame, run_guard|]. intros [] s' _ [? _]. by split.
Qed.

Lemma imap_snd {A B} (f : nat -> B) (l : list A) : map snd (imap (fun i x => (f i, x)) l) = l.
Proof. revert f. induction l as [|x l IH]; intros f; [done|]. cbn. f_equal. apply (IH (f ∘ S)). Qed.

(** ** Generated names *)

Definition generated (names : list string) (seen : list (string * string)) : Prop := NoDup names /\ Forall (fun n => is_Some (assoc n seen)) names.

Lemma run_generatedName s seen names g : run s (generated names seen) (generatedName lines seen g) (fun seen' s' => core s' = core s /\ generated (names ++ [ign_name g]) seen').
Proof.
  unfold generatedName. destruct (assoc (ign_name g) seen) eqn:E; [run_all|]. apply run_ret. intros [Hn Hs]. split; [done|]. rewrite Forall_forall in Hs. split.
  - apply NoDup_app. split_and!; [done| |by apply NoDup_singleton]. intros y Hy Hy2. apply list_elem_of_singleton in Hy2 as ->. destruct (Hs _ Hy). congruence.
  - apply Forall_forall. intros y. rewrite elem_of_app, list_elem_of_singleton, assoc_app. intros [Hy| ->].
    + destruct (Hs y Hy) as [x ->]. by eexists.
    + rewrite E. cbn. by rewrite decide_True.
Qed.

Lemma run_document {A} s P (k : IDocument -> Rd A) Q : run s P (k (dp_document s)) Q -> run s P (theDocument ≫= k) Q.
Proof. done. Qed.

Lemma run_generatedNames s sha256 available : Forall (TableRead G) (idoc_tables (dp_document s)) ->
  (forall i t, idoc_tables (dp_document s) !! i = Some t -> assoc (tableName t) available = Some (Some (Local i))) ->
  run s True (generatedNamesUnique sha256 lines available) (fun _ s' => core s' = core s /\ NoDup (map ign_name (concat (map (generatedNamesOf sha256) (idoc_tables (dp_document s)))))).
Proof.
  intros Hr Ha. unfold generatedNamesUnique. apply run_document. set (names := fun pre : list (nat * ITable) => map ign_name (concat (map (generatedNamesOf sha256) (map snd pre)))).
  eapply run_bind; [eapply run_pre; [|apply (run_foldS _ _ (fun pre seen => generated (names pre) seen))]|].
  - intros _. split; constructor.
  - intros pre [i t] seen s2 Hin. apply elem_of_lookup_imap in Hin as (j & t' & [= -> ->] & Hj). rewrite (Ha _ _ Hj), (proj1 (tr_name _ _ (Forall_lookup_1 _ _ _ _ Hr Hj))).
    cbn [isLocal andb]. rewrite bool_decide_eq_true_2 by done. unfold names. rewrite !map_app, concat_app, map_app. cbn [map snd concat]. rewrite app_nil_r.
    eapply run_weaken; [eapply run_pre; [|apply (run_foldS _ _ (fun gs seen => generated (map ign_name (concat (map (generatedNamesOf sha256) (map snd pre))) ++ map ign_name gs) seen))]|].
    + intros H. by rewrite app_nil_r.
    + intros gs g seen' s3 _. rewrite (map_app _ gs), app_assoc. apply run_generatedName.
    + intros seen' s' H [H1 H2]. by split.
  - intros seen s2. apply run_ret. intros (_ & Hc & Hg & _). split; [done|]. unfold names in Hg. by rewrite (imap_snd (fun i => i)) in Hg.
Qed.

(** ** Diagrams *)

Lemma run_diagram s available g : Forall (fun p => validTok G (ipl_table p)) (idg_entries g) ->
  run s True (foldS (placementEntry lines available) [] (idg_entries g);; mret tt) (fun _ s' => core s' = core s /\ DiagramValid available g).
Proof.
  intros Hg. set (placed := fun (pre : list IPlacement) (seen : list string) => (forall n, n ∈ map (fun p => tk_t (ipl_table p)) pre -> n ∈ seen) /\
    NoDup (map (fun p => tk_t (ipl_table p)) pre) /\ Forall (fun p => is_Some (assoc (tk_t (ipl_table p)) available)) pre).
  eapply run_bind; [eapply run_pre; [|apply (run_foldS _ _ placed)]|].
  - intros _. split_and!; [|constructor|constructor]. by intros n ?%elem_of_nil.
  - intros pre p seen s1 Hp. unfold placementEntry. rewrite Forall_forall in Hg. rewrite (validTok_formed _ _ (Hg p Hp)). cbn [negb].
    eapply (run_bind _ _ _ _ (fun _ s' => core s' = core s1 /\ is_Some (assoc (tk_t (ipl_table p)) available) /\ tk_t (ipl_table p) ∉ seen)).
    + destruct (negb _) eqn:E; [eapply run_weaken; [by apply run_frame, run_at|done]|]. apply negb_false_iff, bool_decide_eq_true in E.
      eapply run_weaken; [by apply run_frame, run_guard|]. intros [] s' _ [H1 H2%bool_decide_eq_false]. by split_and!.
    + intros [] s2. apply run_ret. intros [(H1 & H2 & H3) (Hc & Hs & Hn)]. split; [done|]. unfold placed. rewrite map_app. split_and!.
      * intros n. rewrite elem_of_app, set_add_elem. cbn. rewrite list_elem_of_singleton. naive_solver.
      * apply NoDup_app. split_and!; [done| |by apply NoDup_singleton]. intros y Hy Hy2. apply list_elem_of_singleton in Hy2 as ->. by apply Hn, H1.
      * apply Forall_app. split; [done|]. by apply Forall_singleton.
  - intros seen s1. apply run_ret. intros (_ & Hc & _ & H1 & H2). by split_and!.
Qed.
End own.

(** ** A document *)

Section document.
Variables (sha256 : string -> string) (lines : list (list rune)) (G : Tk -> Prop) (nt nd : nat) (b : bool) (resolve : Tk -> Rd (option IDocument)).
Notation I := (Reading nt nd b).
Hypothesis resolve_ok : forall tok, ok I (resolve tok) (fun _ => True).
(** What resolving gives: documents that [Src] names, from a cache that keeps what
    is known of its entries. *)
Variables (Sourced : list (string * CacheEntry) -> Prop) (Src : string -> IDocument -> Prop).
Hypothesis resolve_run : forall s tok, run s (Sourced (c_cache (core s))) (resolve tok)
  (fun r s' => Recached Sourced (core s) (core s') /\ exists d, r = Some d /\ Src (tk_t tok) d).
Hypothesis source_read : forall n d, Src n d -> exists G', Forall (TableRead G') (idoc_tables d).

Lemma kept_exists {A X} (x0 : X) (P : X -> DP -> Prop) (m : Rd A) Q : (forall x, kept I (P x) m Q) -> kept I (fun s => exists x, P x s) m Q.
Proof.
  intros Hm s Hs. destruct (Hm x0 s Hs) as (a & s' & E & Hs' & Hc). exists a, s'. split_and!; [done|done|]. intros Hcl. split; [by apply Hc|].
  intros [x Hx]. destruct (Hm x s Hs) as (a2 & s2 & E2 & _ & Hc2). rewrite E in E2. injection E2 as <- <-. by apply Hc2.
Qed.

Lemma kept_document c F : kept I (fun s => core s = c /\ F) theDocument (fun d s => core s = c /\ F /\ d = c_document c).
Proof. apply kept_step; [eapply ok_weaken; [apply ok_document|done]|]. by intros s _ <- _ a s' [= <- <-] Hc. Qed.

Lemma kept_uses c F d : Sourced (c_cache c) -> kept I (fun s => core s = c /\ F) (foldS (useEntry lines resolve) (mkUses [] [] [] [] []) (idoc_uses d))
  (fun u s => exists k, core s = withCache k c /\ F /\ Sourced k /\ UsesHold Src (concat (map usedPairs (idoc_uses d))) u).
Proof.
  intros Hc. apply kept_run.
  - apply (ok_weaken _ _ (fun u => NoLocal (us_available u))); [|done]. apply ok_foldS; [done|]. intros u use _ Hu. by apply ok_useEntry.
  - intros s _. eapply run_weaken; [eapply run_pre; [|apply (run_uses _ _ _ _ resolve_run (idoc_uses d) s _ [])]|].
    + intros [-> _]. split; [done|by intros n r].
    + intros u s' [<- HF] [(k & Hk & Hs) Hu]. by exists k.
Qed.

Lemma ok_locals u d : NoLocal (us_available u) -> length (idoc_tables d) = nt ->
  ok I (foldS (localTable lines u) (us_available u, []) (imap pair (idoc_tables d))) (fun acc => Placed nt (fst acc)).
Proof.
  intros Hu Hd. apply ok_foldS; [intros n i E; by destruct (Hu n i)|]. intros acc [i t] Hin Ha. apply ok_localTable; [|done].
  apply elem_of_lookup_imap in Hin as (j & t' & [= -> ->] & Hj). rewrite <- Hd. by eapply lookup_lt_Some.
Qed.

Lemma kept_locals c F u d : (F -> Forall (TableRead G) (idoc_tables d)) -> NoLocal (us_available u) -> length (idoc_tables d) = nt ->
  kept I (fun s => core s = c /\ F) (foldS (localTable lines u) (us_available u, []) (imap pair (idoc_tables d)))
    (fun acc s => core s = c /\ F /\ joined u (imap pair (idoc_tables d)) acc).
Proof.
  intros Hr Hu Hd. apply kept_step; [eapply ok_weaken; [by apply ok_locals|done]|]. intros s _ _ HF.
  eapply run_pre; [|apply (run_foldS _ _ (fun pre acc => joined u pre acc))].
  - intros _. unfold joined. rewrite app_nil_r. split_and!; constructor.
  - intros pre [i t] acc s1 Hin. apply (run_localTable lines G). apply elem_of_lookup_imap in Hin as (j & t' & [= -> ->] & Hj). exact (Forall_lookup_1 _ _ _ _ (Hr HF) Hj).
Qed.

(** The tables that were joined are those at hand. *)
Lemma joined_hand u d acc : UsesHold Src (concat (map usedPairs (idoc_uses d))) u -> joined u (imap pair (idoc_tables d)) acc -> TablesAtHand Src (fst acc) d.
Proof.
  intros Hu (H1 & _ & H3 & H4). rewrite H1.
  assert (Hin : forall i t, idoc_tables d !! i = Some t -> (i, t) ∈ imap pair (idoc_tables d)) by (intros i t Ht; apply elem_of_lookup_imap; by exists i, t).
  split.
  - intros i t Ht. rewrite assoc_app. rewrite Forall_forall in H4. rewrite (H4 _ (Hin i t Ht) : assoc (tableName t) _ = None). apply assoc_in; [by rewrite map_map|].
    apply list_elem_of_fmap. exists (i, t). split; [done|by apply Hin].
  - intros n r. rewrite assoc_app. destruct (assoc n (us_available u)) as [r'|] eqn:E; [intros [= <-]; right; by eapply UsesHold_from|]. intros Hn. left.
    apply assoc_in in Hn; [|by rewrite map_map]. apply list_elem_of_fmap in Hn as ([i t] & [= -> ->] & Ht). cbn.
    apply elem_of_lookup_imap in Ht as (j & t' & [= -> ->] & Hj). by exists j, t'.
Qed.

(** ** The tables, one after the other *)

Lemma kept_tables d K F available : Placed nt available -> (forall n, assoc n available <> Some None) ->
  (forall n u, assoc n available = Some (Some (Used u)) -> exists G', TableRead G' u) -> Forall (TableRead G) (idoc_tables d) -> length (idoc_tables d) = nt ->
  kept I (fun s => holds d K s /\ F) (eachP (validateTable lines available) (seq 0 (length (idoc_tables d))))
    (fun _ s => holds d K s /\ F /\ Forall (TableValid available (map unwrittenTable (idoc_tables d))) (map unwrittenTable (idoc_tables d))).
Proof.
  intros Hp Hk Hused Hr Hn.
  set (valid := fun ti : nat => exists t, map unwrittenTable (idoc_tables d) !! ti = Some t /\ TableValid available (map unwrittenTable (idoc_tables d)) t).
  eapply kept_weaken; [apply (kept_eachP I _ (fun pre s => holds d K s /\ F /\ Forall valid pre))| |].
  - intros pre ti Hin. apply elem_of_seq in Hin. eapply kept_weaken; [apply (kept_validateTable lines G nt nd b available Hp Hk Hused d K (F /\ Forall valid pre) ti Hr); lia|done|].
    intros [] s (H1 & [H2 H3] & H4). split_and!; [done|done|]. apply Forall_app. split; [done|by apply Forall_singleton].
  - intros s [H1 H2]. split_and!; [done|done|constructor].
  - intros [] s (H1 & H2 & H3). split_and!; [done|done|]. apply Forall_lookup_2. intros i t Ht. rewrite Forall_forall in H3.
    destruct (H3 i) as (t' & Ht' & Hv); [|by simplify_eq]. apply elem_of_seq. apply lookup_lt_Some in Ht. rewrite length_map in Ht. lia.
Qed.

Lemma TablesAtHand_unwritten av d : TablesAtHand Src av d -> TablesAtHand Src av (unwritten d).
Proof.
  intros [H1 H2]. assert (Ht : forall i t, idoc_tables (unwritten d) !! i = Some t -> exists t', idoc_tables d !! i = Some t' /\ t = unwrittenTable t').
  { intros i t Hi. cbn in Hi. rewrite list_lookup_fmap in Hi. destruct (idoc_tables d !! i) as [t'|]; [|done]. exists t'. split; [done|]. by apply Some_inj in Hi. }
  split.
  - intros i t Hi. destruct (Ht i t Hi) as (t' & Hi' & ->). by apply (H1 i t').
  - intros n r Hn. destruct (H2 n r Hn) as [(i & t & -> & Hi & <-)|H]; [left|by right]. exists i, (unwrittenTable t). split_and!; [done| |done]. cbn. by rewrite list_lookup_fmap, Hi.
Qed.

Lemma kept_generated d K F available : Forall (TableRead G) (idoc_tables d) -> TablesAtHand Src available d ->
  kept I (fun s => holds d K s /\ F) (generatedNamesUnique sha256 lines available)
    (fun _ s => holds d K s /\ F /\ NoDup (map ign_name (concat (map (generatedNamesOf sha256) (map unwrittenTable (idoc_tables d)))))).
Proof.
  intros Hr Hhand. apply kept_under; [apply ok_generatedNamesUnique|]. intros s _ [[Hun HK] HF].
  assert (Etab : map unwrittenTable (idoc_tables (dp_document s)) = map unwrittenTable (idoc_tables d)) by exact (f_equal idoc_tables Hun).
  eapply run_weaken; [apply (run_generatedNames lines G s sha256 available)|].
  - eapply TableRead_same; [exact Hun|exact Hr].
  - intros i t Ht. destruct (unwritten_lookup d (dp_document s) i t Hun Ht) as (t' & Ht' & Et).
    assert (En : tableName t = tableName t') by exact (f_equal (fun t => tableName t) (eq_sym Et)). rewrite En. by apply (th_local _ _ _ Hhand).
  - intros [] s' _ [Hc Hn]. split; [|split; [done|rewrite <- Etab; by rewrite map_map]]. split; [rewrite <- Hun; exact (f_equal (fun c => unwritten (c_document c)) Hc)|rewrite <- HK; exact (f_equal c_cache Hc)].
Qed.

Lemma kept_diagrams d K F available : Forall (DiagramRead G) (idoc_diagrams d) ->
  kept I (fun s => holds d K s /\ F) (eachP (fun g => foldS (placementEntry lines available) [] (idg_entries g);; mret tt) (idoc_diagrams d))
    (fun _ s => holds d K s /\ F /\ Forall (DiagramValid available) (idoc_diagrams d)).
Proof.
  intros Hg. apply kept_under.
  - pose proof (fun seen p => ok_placementEntry lines nt nd b available seen p). by ok.
  - intros s _ [[Hun HK] HF]. eapply run_weaken; [apply run_eachP; intros g s1 Hin; apply (run_diagram lines G); rewrite Forall_forall in Hg; apply (Hg g Hin)|].
    intros [] s' _ [Hc Hd]. split; [|by split]. split; [rewrite <- Hun; exact (f_equal (fun c => unwritten (c_document c)) Hc)|rewrite <- HK; exact (f_equal c_cache Hc)].
Qed.

Lemma ok_rest d available : Placed nt available -> length (idoc_tables d) = nt ->
  ok I (eachP (validateTable lines available) (seq 0 (length (idoc_tables d)));; generatedNamesUnique sha256 lines available;;
        eachP (fun g => foldS (placementEntry lines available) [] (idg_entries g);; mret tt) (idoc_diagrams d)) (fun _ => True).
Proof.
  intros Hp Hn. eapply (ok_bind _ _ _ (fun _ => True)).
  { apply ok_eachP. intros i Hi. apply ok_validateTable; [done|]. apply elem_of_seq in Hi. lia. }
  intros _ _. eapply ok_bind; [apply ok_generatedNamesUnique|]. intros _ _. pose proof (fun seen p => ok_placementEntry lines nt nd b available seen p). by ok.
Qed.

(** A validation without reports shows that the document is valid. *)
Lemma kept_validate K c : Good G K c -> Sourced (c_cache c) ->
  kept I (fun s => core s = c) (validate sha256 lines resolve)
    (fun _ s => exists k, holds (c_document c) k s /\ Sourced k /\ exists available, DocumentValid sha256 Src available (unwritten (c_document c))).
Proof.
  intros Hgood Hsourced. unfold validate. set (Post := fun (_ : unit) (s : DP) => _).
  eapply kept_bind; [eapply kept_weaken; [apply (kept_document c True)|by intros s H|intros d s H; exact H]|]. intros d.
  eapply kept_bind_ok; [apply (ok_foldS _ _ (fun u => NoLocal (us_available u))); [done|]; intros u use _ Hu; by eapply ok_useEntry|by apply kept_uses|]. intros u Hu. cbv beta.
  apply (kept_exists []). intros k. set (c1 := withCache k c).
  eapply kept_bind_ok; [apply ok_document|apply kept_document|]. intros d2 [Hd2 _]. cbv beta. change (c_document c1) with (c_document c).
  assert (Hread : forall F : Prop, (F -> d2 = c_document c) -> F -> Forall (TableRead G) (idoc_tables d2)) by (intros F H HF; rewrite (H HF); apply Hgood).
  eapply kept_bind_ok; [by apply (ok_locals u d2)|apply kept_locals; [apply Hread; tauto|done|done]|]. intros [available locals] Hp. cbv beta zeta in Hp |- *. cbn [fst] in Hp.
  set (av := foldl _ available (idoc_failed d2)). assert (Hav : Placed nt av) by by apply placed_failed.
  eapply kept_bind; [apply (kept_each nt nd b c1 _ (constraintEntry lines u locals) (fun e => assoc (fst e) locals = None))|].
  { intros e. apply ok_constraintEntry. } { intros e s _ _ _ _. apply run_constraintEntry. }
  intros []. set (F := _ /\ Forall _ (idoc_constraints d2)). clear Hread.
  apply (kept_assume I (fun s => core s = c1) F); [by apply ok_rest|]. intros HF.
  destruct HF as [[[[[_ ->] [Hk Hhold]] ->] Hj] Hcon]. set (d := c_document c) in *.
  assert (Hr : Forall (TableRead G) (idoc_tables d)) by apply Hgood.
  assert (Eav : av = available) by (unfold av; by rewrite (gd_failed _ _ _ Hgood : idoc_failed d = [])). rewrite Eav in *.
  pose proof (joined_hand u d (available, locals) Hhold Hj) as Hhand. cbn [fst] in Hhand.
  eapply kept_bind; [eapply kept_weaken; [apply (kept_tables d k True available Hav); [| |done|done]| |intros a s H; exact H]|].
  { intros n Hn. destruct (th_known _ _ _ Hhand n None Hn) as [(? & ? & ? & _)|(? & ? & _)]; done. }
  { intros n t Hn. destruct (th_known _ _ _ Hhand n _ Hn) as [(? & ? & ? & _)|(t' & [= <-] & (use & target & _ & _ & Hs & Ht & _))]; [done|].
    destruct (source_read _ _ Hs) as [G' HG]. exists G'. rewrite Forall_forall in HG. by apply HG. }
  { intros s Hs. split; [|done]. split; [exact (f_equal (fun c => unwritten (c_document c)) Hs)|exact (f_equal c_cache Hs)]. }
  intros []. eapply kept_bind; [by apply (kept_generated d k _ available)|]. intros [].
  eapply kept_weaken; [apply (kept_diagrams d k)|intros s H; exact H|]; [apply Hgood|].
  intros [] s (Hs & [[_ Ht] Hg] & Hd). exists k. split; [exact Hs|]. split; [done|]. exists available. split; [by apply TablesAtHand_unwritten| |done|done|done].
  apply Forall_map. eapply Forall_impl; [exact Hcon|]. intros [n tok] Hn. cbn [fst] in *. destruct Hj as (_ & Hl & _). cbn [snd] in Hl. subst locals.
  apply assoc_map_none in Hn. cbn. rewrite map_map. cbn. by rewrite <- (imap_snd (fun i => i) (idoc_tables d)), map_map.
Qed.
End document.
