(* ===== verification/ParseResult.v ===== *)
(** * The result of a parse without diagnostics ([dbspec/parse.ts])

    A parse that reports nothing has read and validated its document, so the
    document is built, its declarations have positions, and [parseDocument]
    returns for every text. *)

From S2P Require Import Prelude Documents Emit Check Render Lexer Literals ParseState Reader CheckReader Validator ParseDocument ParseOk ParseTotal CheckTotal ValidateTotal ParseTextTotal ParseClean ValidateClean ValidateMachine ValidateTables ValidateDocument.
From Stdlib Require Import Lia.

Lemma mapR_total {A B} (f : A -> res B) l : Forall (fun x => exists y, f x = Ok y) l -> exists ys, mapR f l = Ok ys.
Proof. induction 1 as [|x l (y & Hy) _ (ys & IH)]; [by eexists|]. cbn [mapR]. rewrite Hy. cbn. rewrite IH. by eexists. Qed.

Lemma mapR_ok {A B} (f : A -> res B) l r : mapR f l = Ok r <-> Forall2 (fun x y => f x = Ok y) l r.
Proof.
  revert r. induction l as [|x l IH]; intros r; cbn [mapR].
  - split; [intros [= <-]; constructor|]. by inversion 1.
  - split.
    + intros (y & Hy & H)%bindR_ok. apply bindR_ok in H as (ys & Hys & [= <-]). constructor; [done|by apply IH].
    + inversion 1 as [|? y ? ys Hy Hys]; subst. rewrite Hy. cbn. apply IH in Hys. by rewrite Hys.
Qed.

(** ** The document is built *)

Lemma oneOf_elem values v what : v ∈ values -> oneOf values v what = Ok v.
Proof. intros H. unfold oneOf, includes. by rewrite bool_decide_eq_true_2. Qed.

Lemma stateLineOf_total l : (forall s n, l = LLimit s n -> isInteger (tk_t n) = true) -> exists r, stateLineOf l = Ok r.
Proof. intros H. destruct l; cbn; try by eexists. rewrite (H _ _ eq_refl). by eexists. Qed.

Lemma settingOf_total G s : SettingRead G s -> (forall c l, iset_kind s = IStateMachine c l -> exists r, stateLineOf l = Ok r) -> exists r, settingOf s = Ok r.
Proof.
  intros [_ Hk] Hm. unfold settingOf. destruct (iset_kind s) eqn:E; try (by eexists).
  - assert (Hst : exists ys, mapR (fun s => oneOf STAGE_LIST (tk_t s) "the codec stage") stages = Ok ys).
    { apply mapR_total. eapply Forall_impl; [exact Hk|]. intros t Ht. eexists. by apply oneOf_elem. }
    destruct Hst as [ys Hst]. rewrite Hst. by eexists.
  - destruct Hk as (Hs & Hw & Hp). unfold storageOf, shardOf. rewrite (oneOf_elem STORAGES) by done. cbn.
    assert (Hshape : exists w, match shape with None => Ok None | Some w => w ← oneOf SHAPES (tk_t w) "the store shape"; Ok (Some w) end = Ok w).
    { destruct shape as [w|]; [|by eexists]. rewrite (oneOf_elem SHAPES) by by apply Hw. by eexists. }
    destruct Hshape as [w Hshape]. cbn in Hshape. rewrite Hshape. cbn. destruct shard as [[[a c] p]|]; [|by eexists]. rewrite (oneOf_elem PERIODS) by by eapply Hp. by eexists.
  - destruct (Hm _ _ eq_refl) as [r ->]. by eexists.
Qed.

Lemma keyNamed k G : KeyRead G k -> exists n, ikey_name k = Some n /\ validTok G n.
Proof. by intros [H _]. Qed.

Lemma actionOf_total a : a ∈ ACTION_LIST -> exists r, actionOf a = Ok r.
Proof. intros H. unfold actionOf. rewrite oneOf_elem by done. by eexists. Qed.

Lemma tableBuilt_total G t : TableRead G t -> it_pks t <> [] -> MachineValid (entriesOf t) -> exists r, tableBuilt t = Ok r.
Proof.
  intros [_ _ Hcols _ _ _ Hkeys Hfks _ Hset] Hpk Hm. unfold tableBuilt. destruct (it_pks t) as [|pk pks]; [done|]. cbn [head present mbind res_bind].
  assert (exists cs, mapR columnOf_ (it_columns t) = Ok cs) as [cs ->].
  { apply mapR_total. eapply Forall_impl; [exact Hcols|]. intros c [_ (ty & Hty & _) _]. unfold columnOf_. rewrite Hty. by eexists. }
  apply Forall_app in Hkeys as [Hu Hi]. cbn [mbind res_bind].
  assert (exists us, mapR uniqueOf (it_uniques t) = Ok us) as [us ->].
  { apply mapR_total. eapply Forall_impl; [exact Hu|]. intros k [(n & Hn & _) _]. unfold uniqueOf. rewrite Hn. by eexists. }
  assert (exists xs, mapR indexOf (it_indexes t) = Ok xs) as [xs ->].
  { apply mapR_total. eapply Forall_impl; [exact Hi|]. intros k [(n & Hn & _) _]. unfold indexOf. rewrite Hn. by eexists. }
  assert (exists fs, mapR foreignKeyOf (it_fks t) = Ok fs) as [fs ->].
  { apply mapR_total. eapply Forall_impl; [exact Hfks|]. intros f (_ & _ & _ & _ & Hd & Hup). unfold foreignKeyOf.
    destruct (actionOf_total _ Hd) as [d ->], (actionOf_total _ Hup) as [u ->]. by eexists. }
  cbn. assert (exists r, settingsOf t = Ok r) as [[settings closing] ->]; [|by eexists].
  unfold settingsOf, settingEntries, entriesOf in *. destruct (it_settings t) as [block|]; [|by eexists]. destruct (isb_entries block) as [|e es] eqn:E; [by eexists|].
  assert (exists ls, mapR settingOf (e :: es) = Ok ls) as [ls ->]; [|by eexists]. apply mapR_total. apply Forall_forall. intros s Hs. rewrite Forall_forall in Hset.
  eapply settingOf_total; [by apply Hset|]. intros c l Hl. apply stateLineOf_total. intros st n ->. eapply (mv_limit _ Hm st n).
  unfold machineLines. apply list_elem_of_omap. exists s. split; [done|]. by rewrite Hl.
Qed.

(** ** Every declaration has a position *)

Section positions.
Variable lines : list (list rune).
Notation G := (inText lines).

Lemma addPosition_total kind tok path : G tok -> exists p, addPosition lines kind tok path = Ok p.
Proof.
  intros Hl. unfold inText in Hl. unfold addPosition. destruct (lookup_lt_is_Some_2 lines (Z.to_nat (tk_line tok - 1))) as [text ->]; [lia|by eexists].
Qed.

Lemma positions_total {A} (kind : string) (tok : A -> Tk) (path : A -> list string) l : Forall (fun x => G (tok x)) l ->
  exists ps, mapR (fun x => addPosition lines kind (tok x) (path x)) l = Ok ps.
Proof. intros H. apply mapR_total. eapply Forall_impl; [exact H|]. intros x Hx. by apply addPosition_total. Qed.

Lemma tablePositions_total t : TableRead G t -> exists ps, tablePositions lines t = Ok ps.
Proof.
  intros [[_ [Hn _]] _ Hcols _ _ Hpk Hkeys Hfks Hck Hset]. unfold tablePositions. cbv zeta.
  destruct (addPosition_total "table" (it_name t) [tk_t (it_name t)] Hn) as [p ->]. cbn [mbind res_bind].
  destruct (positions_total "column" icol_name (fun c => [tk_t (it_name t); tk_t (icol_name c)]) (it_columns t)) as [ps1 ->].
  { eapply Forall_impl; [exact Hcols|]. by intros c [[? _] _ _]. }
  cbn [mbind res_bind]. destruct (positions_total "constraint" ikey_kw (fun k => [tk_t (it_name t); "primary key"]) (it_pks t)) as [ps2 ->].
  { eapply Forall_impl; [exact Hpk|]. by intros k [? _]. }
  cbn [mbind res_bind]. assert (exists ps, mapR (namedKeyPosition lines (tk_t (it_name t))) (it_uniques t ++ it_indexes t) = Ok ps) as [ps3 ->].
  { apply mapR_total. eapply Forall_impl; [exact Hkeys|]. intros k [(n & Hk & Hv & _) _]. unfold namedKeyPosition, keyName. rewrite Hk. by apply addPosition_total. }
  cbn [mbind res_bind]. destruct (positions_total "constraint" ifk_name (fun f => [tk_t (it_name t); tk_t (ifk_name f)]) (it_fks t)) as [ps4 ->].
  { eapply Forall_impl; [exact Hfks|]. by intros f [[? _] _]. }
  cbn [mbind res_bind]. destruct (positions_total "constraint" ick_name (fun c => [tk_t (it_name t); tk_t (ick_name c)]) (it_checks t)) as [ps5 ->].
  { eapply Forall_impl; [exact Hck|]. by intros c [? _]. }
  cbn [mbind res_bind]. destruct (positions_total "setting" iset_kw (fun s => tk_t (it_name t) :: tk_t (iset_kw s) :: settingIdentity (iset_kind s)) (entriesOf t)) as [ps6 ->].
  { eapply Forall_impl; [exact Hset|]. by intros s [? _]. }
  by eexists.
Qed.

Lemma usePositions_total u : UseRead G u -> exists ps, usePositions lines u = Ok ps.
Proof.
  intros [[Hd _] Ht]. unfold usePositions. destruct (addPosition_total "use" (iuse_doc u) [tk_t (iuse_doc u)] Hd) as [p ->]. cbn [mbind res_bind].
  destruct (positions_total "use_table" id (fun t => [tk_t (iuse_doc u); tk_t t]) (iuse_tables u)) as [ps Hps].
  { eapply Forall_impl; [exact Ht|]. by intros t [? _]. }
  unfold id in Hps. rewrite Hps. by eexists.
Qed.

Lemma diagramPositions_total g : DiagramRead G g -> exists ps, diagramPositions lines g = Ok ps.
Proof.
  intros [[Hn _] He]. unfold diagramPositions. destruct (addPosition_total "diagram" (idg_name g) [tk_t (idg_name g)] Hn) as [p ->]. cbn [mbind res_bind].
  destruct (positions_total "diagram_entry" ipl_table (fun e => [tk_t (idg_name g); tk_t (ipl_table e)]) (idg_entries g)) as [ps ->]; [|by eexists].
  eapply Forall_impl; [exact He|]. by intros e [? _].
Qed.
End positions.

(** ** A document that was accepted *)

(** What a clean parse with validation leaves: a document that was read and is
    valid, but for the texts of its checks. *)
Definition Accepted (sha256 : string -> string) (Src : string -> IDocument -> Prop) (lines : list (list rune)) (d : IDocument) : Prop :=
  exists k c available, Good (inText lines) k c /\ unwritten d = unwritten (c_document c) /\ DocumentValid sha256 Src available (unwritten d).

(** The members of an accepted document, tables apart, are those that were read. *)
Lemma Accepted_members sha256 Src lines d : Accepted sha256 Src lines d ->
  (exists tok, idoc_nameTok d = Some tok /\ validTok (inText lines) tok /\ tk_t tok = idoc_name d) /\
  Forall (UseRead (inText lines)) (idoc_uses d) /\ Forall (TableRead (inText lines)) (idoc_tables d) /\ Forall (DiagramRead (inText lines)) (idoc_diagrams d).
Proof.
  intros (k & c & av & Hg & E & _).
  assert (E1 : idoc_nameTok d = idoc_nameTok (c_document c)) by exact (f_equal idoc_nameTok E). assert (E2 : idoc_name d = idoc_name (c_document c)) by exact (f_equal idoc_name E).
  assert (E3 : idoc_uses d = idoc_uses (c_document c)) by exact (f_equal idoc_uses E). assert (E4 : idoc_diagrams d = idoc_diagrams (c_document c)) by exact (f_equal idoc_diagrams E).
  rewrite E1, E2, E3, E4. split_and!; [apply Hg|apply Hg| |apply Hg]. eapply TableRead_same; [exact E|apply Hg].
Qed.

Lemma MachineValid_written av tables t : TableValid av tables (unwrittenTable t) -> it_pks t <> [] /\ MachineValid (entriesOf t).
Proof. intros [_ (pk & Hpk & _) _ _ _ Hm]. split; [|exact Hm]. change (it_pks t = [pk]) in Hpk. by rewrite Hpk. Qed.

Lemma Accepted_tables sha256 Src lines d t : Accepted sha256 Src lines d -> t ∈ idoc_tables d -> TableRead (inText lines) t /\ it_pks t <> [] /\ MachineValid (entriesOf t).
Proof.
  intros Ha Ht. destruct (Accepted_members _ _ _ _ Ha) as (_ & _ & Hr & _). destruct Ha as (k & c & av & _ & _ & Hv). rewrite Forall_forall in Hr. split; [by apply Hr|].
  pose proof (dv_tables _ _ _ _ Hv) as Htv. rewrite Forall_forall in Htv. eapply MachineValid_written, Htv. cbn. by apply list_elem_of_fmap_2.
Qed.

Lemma Accepted_built sha256 Src lines d : Accepted sha256 Src lines d -> exists r ps, build d = Ok r /\ positions lines d = Ok ps.
Proof.
  intros Ha. pose proof (fun t => Accepted_tables sha256 Src lines d t Ha) as Ht. destruct (Accepted_members _ _ _ _ Ha) as ((tok & Htok & Hv & _) & Hu & Hr & Hg).
  assert (exists r, build d = Ok r) as [r Hb].
  { unfold build. assert (exists ts, mapR tableBuilt (idoc_tables d) = Ok ts) as [ts ->]; [|by eexists]. apply mapR_total, Forall_forall. intros t Hin.
    destruct (Ht t Hin) as (H1 & H2 & H3). by eapply tableBuilt_total. }
  exists r. unfold positions. rewrite Htok. destruct (addPosition_total lines "document" tok [idoc_name d] (proj1 Hv)) as [p ->]. cbn [mbind res_bind].
  assert (exists us, mapR (usePositions lines) (idoc_uses d) = Ok us) as [us ->].
  { apply mapR_total. eapply Forall_impl; [exact Hu|]. intros u. apply usePositions_total. }
  cbn [mbind res_bind]. assert (exists ts, mapR (tablePositions lines) (idoc_tables d) = Ok ts) as [ts ->].
  { apply mapR_total. eapply Forall_impl; [exact Hr|]. intros t. apply tablePositions_total. }
  cbn [mbind res_bind]. assert (exists gs, mapR (diagramPositions lines) (idoc_diagrams d) = Ok gs) as [gs ->].
  { apply mapR_total. eapply Forall_impl; [exact Hg|]. intros g. apply diagramPositions_total. }
  by eexists.
Qed.

(** ** Texts *)

Lemma stableSort_nil {A} (leb : A -> A -> bool) l : stableSort leb l = [] -> l = [].
Proof. destruct l as [|x l]; [done|]. change (stableSort leb (x :: l)) with (insertStable leb x (stableSort leb l)). destruct (stableSort leb l) as [|y k]; simpl; [done|]. by destruct (leb x y). Qed.

(** No diagnostic is lost when they are put into order. *)
Lemma orderedDiagnostics_nil p : orderedDiagnostics p = [] -> clean p.
Proof.
  unfold orderedDiagnostics, clean. destruct (dp_stopped p); [|apply stableSort_nil]. intros [_ H]%app_nil. apply (f_equal length) in H. rewrite length_drop in H. cbn in H.
  destruct (dp_diagnostics p); [done|]. cbn in H. lia.
Qed.

Section texts.
Variables (sha256 : string -> string) (documents : list (string * string)).

(** A declared document that others use: a parse of its text that reported
    nothing, from a cache of documents that were parsed so too. *)
Inductive UsedDocument : string -> IDocument -> Prop :=
  | used_document n text fuel cache parents parsed cache' lines r :
      assoc n documents = Some text ->
      (forall m e, assoc m cache = Some e -> ce_diagnostics e = [] -> UsedDocument m (ce_document e)) ->
      parseText sha256 documents fuel true text cache parents = Ok (parsed, cache') -> pa_diagnostics parsed = [] ->
      Forall (TableRead (inText lines)) (idoc_tables (parsedDocument parsed)) -> build (parsedDocument parsed) = Ok r ->
      UsedDocument n (parsedDocument parsed).

Definition Sourced (cache : list (string * CacheEntry)) : Prop :=
  forall m e, assoc m cache = Some e -> ce_diagnostics e = [] -> UsedDocument m (ce_document e).

Lemma UsedDocument_read n d : UsedDocument n d -> exists G', Forall (TableRead G') (idoc_tables d).
Proof. destruct 1 as [n text fuel cache parents parsed cache' lines r]. by exists (inText lines). Qed.

Lemma UsedDocument_built n d : UsedDocument n d -> exists r, build d = Ok r.
Proof. destruct 1 as [n text fuel cache parents parsed cache' lines r]. by exists r. Qed.

Lemma run_resolved lines tok e s : run s True (resolved lines tok e) (fun r s' => core s' = core s /\ ce_diagnostics e = [] /\ r = Some (ce_document e)).
Proof. unfold resolved. destruct (ce_diagnostics e); [destruct (decide _)|]; run_all. Qed.

(** A resolved document is one that was declared and parsed without a report. *)
Lemma run_resolve parse_ lines parents s tok :
  (forall text cache chain parsed cache', (remaining documents chain < remaining documents parents)%nat -> Sourced cache ->
     parse_ text cache chain = Ok (parsed, cache') -> pa_diagnostics parsed = [] ->
     Sourced cache' /\ forall n, assoc n documents = Some text -> UsedDocument n (parsedDocument parsed)) ->
  run s (Sourced (c_cache (core s))) (resolve documents parse_ lines parents tok)
    (fun r s' => Recached Sourced (core s) (core s') /\ exists d, r = Some d /\ UsedDocument (tk_t tok) d).
Proof.
  intros Hparse. unfold resolve. eapply run_bind; [apply run_frame, run_get|]. intros p s1. cbv zeta. destruct (assoc (tk_t tok) documents) as [text|] eqn:Ed; [|run_all].
  set (chain := match parents with [] => _ | _ => _ end). destruct (includes _ _) eqn:Ei; [run_all|]. apply bool_decide_eq_false in Ei.
  destruct (assoc (tk_t tok) (dp_cache p)) as [e|] eqn:Ec.
  - eapply run_weaken; [apply run_frame, run_resolved|]. intros r s' [Hs [-> Hc]] (Hc' & He & ->). rewrite Hc', Hc. split; [by apply Recached_refl|].
    exists (ce_document e). split; [done|]. by apply Hs.
  - eapply run_bind; [apply run_frame, run_lift|]. intros [parsed cache] s2. set (e := mkCacheEntry _ _).
    eapply (run_bind _ _ _ _ (fun _ s' => core s' = withCache (cache ++ [(tk_t tok, e)]) (core s2))); [eapply run_weaken; [by apply run_frame, run_modify|by intros [] s' _ ->]|]. intros [] s3.
    eapply run_weaken; [apply run_frame, run_resolved|]. intros r s' [[[Hs [-> Hc1]] [Hp Hc2]] Hc3] (Hc & He & ->).
    destruct (Hparse text (dp_cache s) (chain ++ [tk_t tok]) parsed cache) as [Hk Hu]; [|exact Hs|exact Hp|exact He|].
    { eapply Nat.lt_le_trans; [by eapply remaining_lt|]. apply remaining_le. intros n Hn. unfold chain. destruct parents; [by apply elem_of_nil in Hn|done]. }
    split; [|exists (ce_document e); split; [done|by apply Hu]]. exists (cache ++ [(tk_t tok, e)]). split; [by rewrite Hc, Hc3, Hc2, Hc1|].
    intros m e' Hm Hd. rewrite assoc_app in Hm. destruct (assoc m cache) eqn:Em; [injection Hm as ->; by apply (Hk m)|]. cbn in Hm. case_decide as E; [|done]. injection Hm as <-. subst m.
    by apply Hu.
Qed.

(** A text that is parsed and validated without a diagnostic is accepted, and
    the cache keeps documents that were. *)
Lemma parseText_accepted fuel text cache parents parsed cache' : (remaining documents parents < fuel)%nat -> Sourced cache ->
  parseText sha256 documents fuel true text cache parents = Ok (parsed, cache') -> pa_diagnostics parsed = [] ->
  (exists p lines, pa_parser parsed = Some (p, lines) /\ Accepted sha256 UsedDocument lines (dp_document p)) /\ Sourced cache'.
Proof.
  revert text cache parents parsed cache'. induction fuel as [|fuel IH]; intros text cache parents parsed cache' Hf Hsourced; [lia|].
  cbn [parseText]. destruct (MAX_BYTES <? utf8Length text); [by intros [= <- <-]|]. cbv zeta.
  set (complete := match encodingError (splitLines text) with None => length (splitLines text) | Some e => Z.to_nat (dx_line e - 1) end).
  assert (Hrun : complete <> 0%nat -> forall encoding,
    ('(_, p) ← (parse (map stripReturn (take complete (splitLines text))) encoding;;
                p ← get;
                if true && negb (dp_stopped p)
                then validate sha256 (map stripReturn (take complete (splitLines text))) (resolve documents (parseText sha256 documents fuel true) (map stripReturn (take complete (splitLines text))) parents)
                else mret tt) (newParser cache);
     Ok (mkParsed (orderedDiagnostics p) (Some (p, map stripReturn (take complete (splitLines text)))), dp_cache p)) = Ok (parsed, cache') ->
    pa_diagnostics parsed = [] -> (exists p lines, pa_parser parsed = Some (p, lines) /\ Accepted sha256 UsedDocument lines (dp_document p)) /\ Sourced cache').
  { intros Hc encoding. set (lines := map stripReturn _). assert (Hl : lines <> []).
    { unfold lines. pose proof (splitLines_ne text). destruct (splitLines text); [done|]. by destruct complete. }
    destruct (parse_ends lines encoding cache Hl) as (p & E & nt & nd & b & Hp). rewrite (bindM_step _ _ _ _ _ E), (bindM_step get _ p p p eq_refl). cbn [andb].
    pose proof (parse_good lines encoding cache p Hl E) as Hgood.
    destruct (dp_stopped p) eqn:Est; cbn [negb].
    - intros [= <- <-] Hd. cbn in Hd. apply orderedDiagnostics_nil, Hgood in Hd. destruct (gd_syntax _ _ _ Hd) as [_ Hs]. cbn in Hs. congruence.
    - assert (Hres : forall tok, ok (Reading nt nd b) (resolve documents (parseText sha256 documents fuel true) lines parents tok) (fun _ => True)).
      { intros tok. apply (ok_resolve sha256). intros text' cache2 chain Hch. apply parseText_total. lia. }
      assert (Hclean : forall s tok, run s (Sourced (c_cache (core s))) (resolve documents (parseText sha256 documents fuel true) lines parents tok)
        (fun r s' => Recached Sourced (core s) (core s') /\ exists d, r = Some d /\ UsedDocument (tk_t tok) d)).
      { intros s tok. apply run_resolve. intros text' cache2 chain parsed2 cache3 Hch Hk Hparsed Hd2.
        destruct (IH text' cache2 chain parsed2 cache3 ltac:(lia) Hk Hparsed Hd2) as [(p2 & lines2 & Ep & Ha) Hs3]. split; [done|]. intros n Hn.
        destruct (Accepted_built _ _ _ _ Ha) as (r & _ & Hb & _), (Accepted_members _ _ _ _ Ha) as (_ & _ & Hr & _).
        eapply (used_document n text' fuel cache2 chain parsed2 cache3 lines2 r); [done|exact Hk|done|done|..]; unfold parsedDocument; rewrite Ep; done. }
      destruct (ok_validate sha256 lines nt nd b _ Hres p Hp) as ([] & p' & E' & _ & _ & Hcl). rewrite E'. intros [= <- <-] Hd. cbn in Hd |- *.
      apply orderedDiagnostics_nil in Hd. specialize (Hgood (Hcl Hd)).
      assert (Hk : Sourced (c_cache (core p))) by (rewrite (gd_cache _ _ _ Hgood); exact Hsourced).
      destruct (kept_validate sha256 lines (inText lines) nt nd b _ Hres Sourced UsedDocument Hclean UsedDocument_read cache (core p) Hgood Hk p Hp) as (a & p2 & E2 & _ & Hv).
      rewrite E' in E2. injection E2 as <- <-. destruct (Hv Hd) as [_ Hpost]. destruct (Hpost eq_refl) as (k & [Hh Ek] & Hks & av & Hval). split; [|by rewrite Ek].
      exists p', lines. split; [done|]. exists cache, (core p), av. rewrite Hh. by split_and!. }
  destruct (encodingError (splitLines text)) as [e|] eqn:Ee; [destruct complete eqn:Ec; [by intros [= <- <-]|]|]; apply Hrun; [done|].
  unfold complete. pose proof (splitLines_ne text). by destruct (splitLines text).
Qed.

Lemma Sourced_empty : Sourced [].
Proof. done. Qed.

(** The document of a parse without diagnostics is built with its positions. *)
Lemma resultOf_total text parsed : parseWhole sha256 documents true text = Ok parsed -> exists r, resultOf parsed = Ok r.
Proof.
  unfold parseWhole. intros ([parsed' cache] & Hp & [= <-])%bindR_ok. unfold resultOf. destruct (pa_diagnostics parsed') eqn:Ed; [|by eexists].
  destruct (parseText_accepted _ _ _ _ _ _ ltac:(apply remaining_all) Sourced_empty Hp Ed) as [(p & lines & -> & Ha) _]. destruct (Accepted_built _ _ _ _ Ha) as (r & ps & -> & Hps). cbn. rewrite Hps. by eexists.
Qed.
End texts.
