(* ===== verification/WellFormed.v ===== *)
(** * Well-formed documents, and that the parser accepts no other

    [DocumentWf] says of a parsed document ([dbspec/model.ts]) what the compiler,
    the renderer and the plan writer rely on.  It is stated over the document and
    the documents it uses; [parseDocument_wellFormed] is that every document that [parseDocument] gives
    has it. *)

From S2P Require Import Prelude Documents Emit Check Render Lexer Literals ParseState Reader CheckReader Validator ParseDocument ParseOk ParseTextTotal ParseClean ValidateClean ValidateMachine ValidateTables ValidateDocument ParseResult.
From Stdlib Require Import Lia.

(** ** Well-formedness *)

Definition columnNamed (t : DbspecTable) (n : string) : option DbspecColumn := List.find (fun c => bool_decide (col_name c = n)) (t_columns t).
Definition typeNamed (t : DbspecTable) (n : string) : option DbspecType := col_type <$> columnNamed t n.

Record ColumnWf (c : DbspecColumn) : Prop := {
  cw_name : validName (col_name c) = true;
  cw_type : typeInBounds (col_type c);
  cw_default : forall v, col_default c = Some v -> defaultFits (col_type c) v;
  cw_identity : col_identity c = true -> col_type c = TI64 /\ col_nullable c = false /\ col_default c = None }.

Definition varcharNamed (t : DbspecTable) (n : string) : Z := match typeNamed t n with Some (TVarchar k) => k | _ => 0 end.

(** A key or index of at most 16 columns and 640 varchar characters. *)
Record KeyWf (t : DbspecTable) (primary : bool) (key : list string) : Prop := {
  kw_some : (1 <= length key <= MAX_KEY_COLUMNS)%nat;
  kw_distinct : NoDup key;
  kw_columns : Forall (fun n => exists c, columnNamed t n = Some c /\ col_type c <> TText /\ col_type c <> TBytes /\ (primary = true -> col_nullable c = false)) key;
  kw_varchar : foldr Z.add 0 (map (varcharNamed t) key) <= MAX_KEY_VARCHAR }.

(** The keys that rows are unique by, and all keys and indexes. *)
Definition uniqueKeys (t : DbspecTable) : list (list string) := pk_columns (t_primaryKey t) :: map un_columns (t_uniques t).
Definition allKeys (t : DbspecTable) : list (list string) := uniqueKeys t ++ map (fun i => map ic_name (ix_columns i)) (t_indexes t).

(** The key refers to a key of [u] whose columns have the types of its own. *)
Definition refersTo (t : DbspecTable) (f : DbspecForeignKey) (u : DbspecTable) : Prop :=
  fk_references f ∈ uniqueKeys u /\ map (typeNamed t) (fk_columns f) = map (typeNamed u) (fk_references f).

Section wellformed.
(** The documents that a used name stands for. *)
Variable Source : string -> DbspecDocument -> Prop.

Record ForeignKeyWf (d : DbspecDocument) (t : DbspecTable) (f : DbspecForeignKey) : Prop := {
  fw_some : fk_columns f <> [] /\ NoDup (fk_columns f);
  fw_columns : Forall (fun n => is_Some (columnNamed t n)) (fk_columns f);
  fw_index : exists key, key ∈ allKeys t /\ take (length (fk_columns f)) key = fk_columns f;
  fw_null : SetNull ∈ [fk_onDelete f; fk_onUpdate f] -> Forall (fun n => exists c, columnNamed t n = Some c /\ col_nullable c = true) (fk_columns f);
  fw_references : (exists u, u ∈ doc_tables d /\ t_name u = fk_table f /\ refersTo t f u) \/
    exists use e u, use ∈ doc_uses d /\ fk_table f ∈ use_tables use /\ Source (use_document use) e /\ u ∈ doc_tables e /\ t_name u = fk_table f /\ refersTo t f u }.

(** The lines of the state machine of a table, the states they declare and the
    terminal ones. *)
Definition stateLines (t : DbspecTable) : list DbspecStateLine := omap (fun s => match s with SStateMachine _ l => Some l | _ => None end) (tableSettings t).
Definition declaredStates (l : DbspecStateLine) : list string :=
  match l with StateInitial s | StateTerminal s _ => [s] | StateTransition f t _ => [f; t] | _ => [] end.
Definition isTerminal (t : DbspecTable) (s : string) : Prop := exists r, StateTerminal s r ∈ stateLines t.

Record MachineWf (t : DbspecTable) : Prop := {
  mw_transition : forall f s r, StateTransition f s r ∈ stateLines t -> ~ isTerminal t f;
  mw_initial : forall s, StateInitial s ∈ stateLines t -> ~ isTerminal t s;
  mw_limit : forall s n, StateLimit s n ∈ stateLines t -> s ∈ concat (map declaredStates (stateLines t)) /\
    exists k : Z, n = pretty k /\ 1 <= k <= 9223372036854775807 }.

(** The names of the keys, foreign keys and checks of a table. *)
Definition constraintsOf (t : DbspecTable) : list string :=
  map un_name (t_uniques t) ++ map ix_name (t_indexes t) ++ map fk_name (t_foreignKeys t) ++ map ck_name (t_checks t).

Record TableWf (d : DbspecDocument) (t : DbspecTable) : Prop := {
  tw_name : validName (t_name t) = true;
  tw_columns : t_columns t <> [] /\ NoDup (map col_name (t_columns t)) /\ Forall ColumnWf (t_columns t);
  tw_primary : KeyWf t true (pk_columns (t_primaryKey t));
  tw_keys : Forall (KeyWf t false) (map un_columns (t_uniques t) ++ map (fun i => map ic_name (ix_columns i)) (t_indexes t));
  tw_identity : existsb col_identity (t_columns t) = true -> exists c, c ∈ t_columns t /\ col_identity c = true /\ pk_columns (t_primaryKey t) = [col_name c];
  tw_foreign : Forall (ForeignKeyWf d t) (t_foreignKeys t);
  tw_constraints : Forall (fun n => validName n = true) (constraintsOf t);
  tw_machine : MachineWf t }.

Record DiagramWf (d : DbspecDocument) (g : DbspecDiagram) : Prop := {
  gw_name : validName (dg_name g) = true;
  gw_distinct : NoDup (map pl_table (dg_placements g));
  gw_tables : Forall (fun p => pl_table p ∈ map t_name (doc_tables d) ++ concat (map use_tables (doc_uses d))) (dg_placements g) }.

Record DocumentWf (d : DbspecDocument) : Prop := {
  dw_name : validName (doc_name d) = true;
  dw_tables : NoDup (map t_name (doc_tables d));
  dw_constraints : NoDup (concat (map constraintsOf (doc_tables d)));
  dw_apart : Forall (fun n => n ∉ map t_name (doc_tables d)) (concat (map constraintsOf (doc_tables d)));
  dw_all : Forall (TableWf d) (doc_tables d);
  dw_diagrams : Forall (DiagramWf d) (doc_diagrams d) }.
End wellformed.

(** What the name of a used document stands for: the document that is built of a
    parse of its declared text without reports. *)
Definition usedDocument (sha256 : string -> string) (documents : list (string * string)) (name : string) (e : DbspecDocument) : Prop :=
  exists i, UsedDocument sha256 documents name i /\ build i = Ok e.

(** ** Tables that were built *)

Lemma Forall2_maps {A B C} (P : A -> B -> Prop) (f : A -> C) (g : B -> C) l k : Forall2 P l k -> (forall x y, P x y -> g y = f x) -> map g k = map f l.
Proof. intros H Hf. induction H as [|x y l k Hp _ IH]; [done|]. cbn. by rewrite IH, (Hf _ _ Hp). Qed.

Lemma Forall2_elem_r {A B} (P : A -> B -> Prop) l k y : Forall2 P l k -> y ∈ k -> exists x, x ∈ l /\ P x y.
Proof.
  induction 1 as [|x z l k Hp _ IH]; [by intros ?%elem_of_nil|]. intros [->|Hy]%elem_of_cons; [exists x; split; [by left|done]|].
  destruct (IH Hy) as (x' & ? & ?). exists x'. split; [by right|done].
Qed.

Lemma Forall2_elem_l {A B} (P : A -> B -> Prop) l k x : Forall2 P l k -> x ∈ l -> exists y, y ∈ k /\ P x y.
Proof. intros H Hx. apply Forall2_flip in H. destruct (Forall2_elem_r _ _ _ _ H Hx) as (y & ? & ?). by exists y. Qed.

Section table.
Variables (t : ITable) (b : DbspecTable).

(** What a built table keeps of the one it was built from. *)
Record BuiltFrom : Prop := {
  bf_name : t_name b = tk_t (it_name t);
  bf_columns : Forall2 (fun c d => columnOf_ c = Ok d) (it_columns t) (t_columns b);
  bf_primary : forall pk, head (it_pks t) = Some pk -> pk_columns (t_primaryKey b) = keyNames pk;
  bf_uniques : Forall2 (fun k u => uniqueOf k = Ok u) (it_uniques t) (t_uniques b);
  bf_indexes : Forall2 (fun k i => indexOf k = Ok i) (it_indexes t) (t_indexes b);
  bf_foreign : Forall2 (fun f g => foreignKeyOf f = Ok g) (it_fks t) (t_foreignKeys b);
  bf_checks : map ck_name (t_checks b) = map (fun c => tk_t (ick_name c)) (it_checks t);
  bf_settings : Forall2 (fun s l => settingOf s = Ok l) (entriesOf t) (match t_settings b with Some s => ss_settings s | None => [] end) }.

Lemma tableBuilt_from : tableBuilt t = Ok b -> BuiltFrom.
Proof.
  unfold tableBuilt. intros (pk & Hpk & H)%bindR_ok. apply bindR_ok in H as (cs & Hcs & H). apply bindR_ok in H as (us & Hus & H). apply bindR_ok in H as (xs & Hxs & H).
  apply bindR_ok in H as (fs & Hfs & H). apply bindR_ok in H as ([st closing] & Hst & H). injection H as H.
  apply mapR_ok in Hcs. apply mapR_ok in Hus. apply mapR_ok in Hxs. apply mapR_ok in Hfs. split; rewrite <- H; cbn; try done.
  - intros pk' E. rewrite E in Hpk. by injection Hpk as ->.
  - by rewrite map_map.
  - unfold settingsOf in Hst. unfold entriesOf. destruct (it_settings t) as [block|]; [|injection Hst as <- _; constructor].
    destruct (isb_entries block) as [|e es]; [injection Hst as <- _; constructor|]. apply bindR_ok in Hst as (l & Hl & [= <- _]). by apply mapR_ok in Hl.
Qed.

Hypothesis built : BuiltFrom.

Lemma columnOf_spec c d : columnOf_ c = Ok d -> col_name d = tk_t (icol_name c) /\ icol_type c = Some (col_type d) /\ col_nullable d = icol_nullable c /\
  col_identity d = bool_decide (icol_identity c <> None) /\ col_default d = icol_value c.
Proof. unfold columnOf_. intros (ty & Hty & [= <-])%bindR_ok. cbn. unfold present in Hty. destruct (icol_type c); [by injection Hty as ->|done]. Qed.

Lemma built_names : map col_name (t_columns b) = map (fun c => tk_t (icol_name c)) (it_columns t).
Proof. apply (Forall2_maps _ _ _ _ _ (bf_columns built)). intros c d Hc. apply (columnOf_spec c d Hc). Qed.

(** The columns by name are those that the parser keeps by name. *)
Lemma built_column G n : TableRead G t -> match assoc n (it_colMap t) with
  | Some c => exists d, columnNamed b n = Some d /\ columnOf_ c = Ok d
  | None => columnNamed b n = None
  end.
Proof.
  intros Ht. rewrite (tr_colMap _ _ Ht). unfold columnNamed. induction (bf_columns built) as [|c d l k Hc _ IH]; [done|]. cbn.
  rewrite (proj1 (columnOf_spec _ _ Hc)). case_decide as E; [rewrite bool_decide_eq_true_2 by done; by exists d|]. by rewrite bool_decide_eq_false_2.
Qed.

Lemma built_columnType G n : TableRead G t -> typeNamed b n = columnType t n.
Proof.
  intros Ht. pose proof (built_column G n Ht) as H. unfold typeNamed, columnType. destruct (assoc n (it_colMap t)) as [c|]; [|by rewrite H].
  destruct H as (d & -> & Hd). cbn. by destruct (columnOf_spec _ _ Hd) as (_ & -> & _).
Qed.

Lemma built_key G primary k : TableRead G t -> KeyValid t primary k -> KeyWf b primary (keyNames k).
Proof.
  intros Ht [H1 H2 H3 H4]. split; [done|done| |].
  - eapply Forall_impl; [exact H3|]. intros n (c & Hc & Hx & Hy & Hp). pose proof (built_column G n Ht) as Hb. rewrite Hc in Hb. destruct Hb as (d & Hd & Hcd). exists d.
    destruct (columnOf_spec _ _ Hcd) as (_ & Hty & Hn & _). rewrite Hn. split_and!; [done|congruence|congruence|done].
  - assert (map (varcharNamed b) (keyNames k) = map (varcharOf t) (keyNames k)) as ->; [|done]. apply map_ext. intros n. unfold varcharNamed, varcharOf.
    by rewrite (built_columnType G n Ht).
Qed.

(** The columns of the keys. *)
Lemma built_uniques : map un_columns (t_uniques b) = map keyNames (it_uniques t).
Proof. apply (Forall2_maps _ _ _ _ _ (bf_uniques built)). intros k u Hk. by apply bindR_ok in Hk as (n & _ & [= <-]). Qed.

Lemma built_indexes : map (fun i => map ic_name (ix_columns i)) (t_indexes b) = map keyNames (it_indexes t).
Proof. apply (Forall2_maps _ _ _ _ _ (bf_indexes built)). intros k x Hk. apply bindR_ok in Hk as (n & _ & [= <-]). cbn. by rewrite map_map. Qed.

Lemma built_uniqueKeys pk : head (it_pks t) = Some pk -> uniqueKeys b = map keyNames (take 1 (it_pks t) ++ it_uniques t).
Proof. intros Hpk. unfold uniqueKeys. rewrite built_uniques, (bf_primary built pk Hpk). destruct (it_pks t); [done|]. by injection Hpk as ->. Qed.

Lemma built_keys pk : it_pks t = [pk] -> allKeys b = map keyNames (it_pks t ++ it_uniques t ++ it_indexes t).
Proof.
  intros Hpk. unfold allKeys. rewrite (built_uniqueKeys pk), built_indexes, Hpk by by rewrite Hpk. by rewrite app_assoc, !map_app.
Qed.
End table.

(** ** Columns, names and state machines *)

Lemma built_columnWf G c d : ColumnRead G c -> columnOf_ c = Ok d -> ColumnWf d.
Proof.
  intros [[_ Hn] (ty & Hty & Hb & Hv) Hid] Hc. destruct (columnOf_spec _ _ Hc) as (En & Et & Enl & Ei & Ed). rewrite Hty in Et. injection Et as ->.
  split; rewrite ?En, ?Ei, ?Ed, ?Enl; [done|done|done|]. intros H%bool_decide_eq_true. destruct (Hid H) as (H1 & H2 & H3). split_and!; [congruence|done|done].
Qed.

Lemma built_columnsWf G t b : TableRead G t -> BuiltFrom t b -> Forall ColumnWf (t_columns b).
Proof.
  intros Ht Hb. apply Forall_forall. intros d Hd. destruct (Forall2_elem_r _ _ _ _ (bf_columns _ _ Hb) Hd) as (c & Hc & Hcd).
  pose proof (tr_columns _ _ Ht) as H. rewrite Forall_forall in H. eapply built_columnWf; [by apply H|done].
Qed.

Lemma built_constraints t b : BuiltFrom t b -> constraintsOf b = constraintNames t.
Proof.
  intros Hb. unfold constraintsOf, constraintNames. rewrite map_app, <- app_assoc. f_equal; [|f_equal; [|f_equal; [|apply Hb]]].
  - apply (Forall2_maps _ _ _ _ _ (bf_uniques _ _ Hb)). intros k u (n & Hn & [= <-])%bindR_ok. unfold present in Hn. destruct (ikey_name k); [by injection Hn as ->|done].
  - apply (Forall2_maps _ _ _ _ _ (bf_indexes _ _ Hb)). intros k u (n & Hn & [= <-])%bindR_ok. unfold present in Hn. destruct (ikey_name k); [by injection Hn as ->|done].
  - apply (Forall2_maps _ _ _ _ _ (bf_foreign _ _ Hb)). intros f g (a & _ & H)%bindR_ok. by apply bindR_ok in H as (u & _ & [= <-]).
Qed.

Lemma read_constraints G t : TableRead G t -> Forall (fun n => validName n = true) (constraintNames t).
Proof.
  intros Ht. unfold constraintNames. rewrite !Forall_app, !Forall_map. split_and!.
  - eapply Forall_impl; [exact (tr_keys _ _ Ht)|]. intros k [(n & -> & _ & Hn) _]. exact Hn.
  - eapply Forall_impl; [exact (tr_foreign _ _ Ht)|]. intros f [[_ Hn] _]. exact Hn.
  - eapply Forall_impl; [exact (tr_checks _ _ Ht)|]. intros c [_ Hn]. exact Hn.
Qed.

(** An identity column is the primary key. *)
Lemma built_identity t b pk : BuiltFrom t b -> IdentityValid t -> it_pks t = [pk] -> existsb col_identity (t_columns b) = true ->
  exists c, c ∈ t_columns b /\ col_identity c = true /\ pk_columns (t_primaryKey b) = [col_name c].
Proof.
  intros Hb Hid Hpk He. rewrite (bf_primary _ _ Hb pk) by by rewrite Hpk.
  assert (Hf : exists c d, List.find (fun c => bool_decide (icol_identity c <> None)) (it_columns t) = Some c /\ d ∈ t_columns b /\ columnOf_ c = Ok d).
  { clear Hid Hpk. induction (bf_columns _ _ Hb) as [|c d l k Hc _ IH]; [done|]. destruct (columnOf_spec _ _ Hc) as (_ & _ & _ & Ei & _). cbn in He |- *.
    destruct (bool_decide _) eqn:E; [exists c, d; split_and!; [done|by left|done]|]. rewrite Ei in He. destruct (IH He) as (c' & d' & ? & ? & ?). exists c', d'. split_and!; [done|by right|done]. }
  destruct Hf as (c & d & Hc & Hd & Hcd). destruct (columnOf_spec _ _ Hcd) as (En & _ & _ & Ei & _). exists d. split; [done|]. split.
  - rewrite Ei. by apply find_some in Hc as [_ ?].
  - rewrite En. by apply (Hid c pk Hc); rewrite Hpk.
Qed.

Lemma settingOf_machine s l : settingOf s = Ok l -> match iset_kind s with
  | IStateMachine c x => exists y, sl_setting l = SStateMachine (tk_t c) y /\ stateLineOf x = Ok y
  | _ => forall c y, sl_setting l <> SStateMachine c y
  end.
Proof.
  unfold settingOf. intros (st & Hst & [= <-])%bindR_ok. cbn. destruct (iset_kind s); try (by injection Hst as <-).
  - by apply bindR_ok in Hst as (x & _ & [= <-]).
  - apply bindR_ok in Hst as (x & _ & Hst). by apply bindR_ok in Hst as (y & _ & [= <-]).
  - apply bindR_ok in Hst as (x & Hx & [= <-]). by exists x.
Qed.

Lemma built_stateLines t b : BuiltFrom t b -> Forall2 (fun x y => stateLineOf x = Ok y) (machineLines (entriesOf t)) (stateLines b).
Proof.
  intros Hb. unfold stateLines, tableSettings. pose proof (bf_settings _ _ Hb) as H. revert H. generalize (entriesOf t). intros es H.
  assert (E : forall l : option DbspecSettings, match l with Some s => map sl_setting (ss_settings s) | None => [] end = map sl_setting (match l with Some s => ss_settings s | None => [] end)) by by intros [].
  rewrite E. induction H as [|s l es ls Hs _ IH]; [constructor|]. apply settingOf_machine in Hs. unfold machineLines. cbn.
  destruct (iset_kind s) eqn:Ek; try (destruct (sl_setting l) eqn:El; try exact IH; by destruct (Hs _ _ eq_refl)). destruct Hs as (y & -> & Hy). by constructor.
Qed.

Lemma stateLineOf_states x y : stateLineOf x = Ok y -> declaredStates y = lineStates x.
Proof. destruct x; cbn; try by intros [= <-]. destruct (isInteger _); [by intros [= <-]|done]. Qed.

Lemma built_machine t b : BuiltFrom t b -> MachineValid (entriesOf t) -> MachineWf b.
Proof.
  intros Hb [H1 H2 H3]. pose proof (built_stateLines t b Hb) as Hl.
  assert (Hterm : forall s, isTerminal b s -> s ∈ terminalStates (machineLines (entriesOf t))).
  { intros s [r Hr]. destruct (Forall2_elem_r _ _ _ _ Hl Hr) as (x & Hx & Hxy). unfold terminalStates. apply list_elem_of_omap. exists x. split; [done|].
    destruct x; cbn in Hxy; try (by injection Hxy as <-); try done. by destruct (isInteger _). }
  split.
  - intros f s r Hin Ht%Hterm. destruct (Forall2_elem_r _ _ _ _ Hl Hin) as (x & Hx & Hxy). destruct x; cbn in Hxy; try done; [|by destruct (isInteger _)].
    injection Hxy as <- _ _. by apply (H1 _ _ _ Hx).
  - intros s Hin Ht%Hterm. destruct (Forall2_elem_r _ _ _ _ Hl Hin) as (x & Hx & Hxy). destruct x; cbn in Hxy; try done; [|by destruct (isInteger _)].
    injection Hxy as <-. by apply (H2 _ Hx).
  - intros s n Hin. destruct (Forall2_elem_r _ _ _ _ Hl Hin) as (x & Hx & Hxy). destruct x; cbn in Hxy; try done. destruct (H3 _ _ Hx) as (Hs & Hi & Hb'). rewrite Hi in Hxy.
    injection Hxy as <- <-. split; [|by eexists].
    assert (E : map declaredStates (stateLines b) = map lineStates (machineLines (entriesOf t))) by (apply (Forall2_maps _ _ _ _ _ Hl); intros; by apply stateLineOf_states).
    by rewrite E.
Qed.

Lemma BuiltFrom_unwritten t b : BuiltFrom t b -> BuiltFrom (unwrittenTable t) b.
Proof. intros [H1 H2 H3 H4 H5 H6 H7 H8]. split; try done. cbn. rewrite map_map. exact H7. Qed.

Lemma foreignKeyOf_spec f g : foreignKeyOf f = Ok g -> fk_name g = tk_t (ifk_name f) /\ fk_columns g = map tk_t (ifk_cols f) /\ fk_table g = tk_t (ifk_table f) /\
  fk_references g = map tk_t (ifk_refs f) /\ (SetNull ∈ [fk_onDelete g; fk_onUpdate g] -> "set_null" ∈ [ifk_onDelete f; ifk_onUpdate f]).
Proof.
  unfold foreignKeyOf. intros (a & Ha & H)%bindR_ok. apply bindR_ok in H as (u & Hu & [= <-]). cbn. split_and!; [done..|].
  assert (Hact : forall s r, actionOf s = Ok r -> r = SetNull -> s = "set_null").
  { intros s r. unfold actionOf, oneOf. destruct (includes s ACTION_LIST) eqn:E; [|done]. cbn. case_decide; [congruence|]. case_decide; [done|congruence]. }
  rewrite !elem_of_cons, elem_of_nil. intros [E|[E|[]]]; [left; symmetry|right; left; symmetry]; by eapply Hact.
Qed.

(** The tables of a document that was built. *)
Lemma build_tables i e : build i = Ok e -> Forall2 BuiltFrom (idoc_tables i) (doc_tables e) /\ forall t, t ∈ idoc_tables i -> exists pk, head (it_pks t) = Some pk.
Proof.
  intros (ts & Hts & [= <-])%bindR_ok. apply mapR_ok in Hts. cbn. split.
  - eapply Forall2_impl; [exact Hts|]. intros t b. apply tableBuilt_from.
  - intros t Ht. destruct (Forall2_elem_l _ _ _ _ Hts Ht) as (b & _ & (pk & Hpk & _)%bindR_ok). exists pk. unfold present in Hpk. destruct (head _); [by injection Hpk as ->|done].
Qed.

(** A reference that validation accepts, in the built tables. *)
Lemma built_refersTo G G' t b u u' f g : TableRead G t -> TableRead G' u -> BuiltFrom t b -> BuiltFrom u u' -> is_Some (head (it_pks u)) ->
  foreignKeyOf f = Ok g -> ReferencesValid t u f -> refersTo b g u'.
Proof.
  intros Ht Hu Hb Hbu [pk Hpk] Hg [_ Hkey Hty]. destruct (foreignKeyOf_spec _ _ Hg) as (_ & Ec & _ & Er & _). unfold refersTo. rewrite Ec, Er.
  split; [by rewrite (built_uniqueKeys u u' Hbu pk)|].
  assert (E1 : forall l, map (typeNamed b) l = map (columnType t) l) by (intros l; apply map_ext; intros n; by apply (built_columnType t b Hb G)).
  assert (E2 : forall l, map (typeNamed u') l = map (columnType u) l) by (intros l; apply map_ext; intros n; by apply (built_columnType u u' Hbu G')).
  by rewrite E1, E2.
Qed.

Section document.
Variables (sha256 : string -> string) (documents : list (string * string)) (G : Tk -> Prop) (available : Available) (i : IDocument) (d : DbspecDocument).
Notation Source := (usedDocument sha256 documents).
Hypothesis valid : DocumentValid sha256 (UsedDocument sha256 documents) available i.
Hypothesis read : Forall (TableRead G) (idoc_tables i).
Hypothesis built : Forall2 BuiltFrom (idoc_tables i) (doc_tables d).
Hypothesis uses : Forall2 (fun u v => use_document v = tk_t (iuse_doc u) /\ use_tables v = map tk_t (iuse_tables u)) (idoc_uses i) (doc_uses d).

Lemma read_table t : t ∈ idoc_tables i -> TableRead G t.
Proof. intros Ht. rewrite Forall_forall in read. by apply read. Qed.

Lemma built_tableNames : map t_name (doc_tables d) = map (fun t => tableName t) (idoc_tables i).
Proof. apply (Forall2_maps BuiltFrom); [done|]. intros t b Hb. apply (bf_name _ _ Hb). Qed.

(** A table at hand is a table of the document or one of a use line. *)
Lemma available_known n r : assoc n available = Some r -> n ∈ map t_name (doc_tables d) \/ n ∈ concat (map use_tables (doc_uses d)).
Proof.
  intros Hn. destruct (th_known _ _ _ (dv_hand _ _ _ _ valid) n r Hn) as [(j & t & _ & Ht & <-)|(t & _ & use & target & Huse & Hin & _)].
  - left. rewrite built_tableNames. apply list_elem_of_fmap. exists t. split; [done|]. by eapply list_elem_of_lookup_2.
  - right. destruct (Forall2_elem_l _ _ _ _ uses Huse) as (v & Hv & _ & E). apply elem_of_concat. exists (use_tables v). split; [by rewrite E|by apply list_elem_of_fmap_2].
Qed.

(** The target of a foreign key is a table of the document or of a used one. *)
Lemma built_references t b f g : TableRead G t -> BuiltFrom t b -> (forall u, u ∈ idoc_tables i -> exists pk, it_pks u = [pk]) ->
  ForeignKeyValid available (idoc_tables i) t f -> foreignKeyOf f = Ok g ->
  (exists u, u ∈ doc_tables d /\ t_name u = fk_table g /\ refersTo b g u) \/
  exists use e u, use ∈ doc_uses d /\ fk_table g ∈ use_tables use /\ Source (use_document use) e /\ u ∈ doc_tables e /\ t_name u = fk_table g /\ refersTo b g u.
Proof.
  intros Hrd Hb Hpks [_ [r Hr] Href Hused] Hg. destruct (foreignKeyOf_spec _ _ Hg) as (_ & _ & Et & _). rewrite Et.
  destruct (th_known _ _ _ (dv_hand _ _ _ _ valid) _ _ Hr) as [(j & u & -> & Hj & Hn)|(u & -> & use & target & Huse & Hin & Hsrc & Hu & Hn)].
  - left. assert (Hin : u ∈ idoc_tables i) by by eapply list_elem_of_lookup_2. destruct (Forall2_elem_l _ _ _ _ built Hin) as (u' & Hu' & Hbu). exists u'. split; [done|].
    split; [by rewrite (bf_name _ _ Hbu)|]. destruct (Hpks u Hin) as [pk Hpk]. eapply (built_refersTo G G); [done|by apply read_table|done|done|by rewrite Hpk|done|by eapply Href].
  - right. destruct (Forall2_elem_l _ _ _ _ uses Huse) as (v & Hv & Ev & Evt). destruct (UsedDocument_built _ _ _ _ Hsrc) as [e He], (UsedDocument_read _ _ _ _ Hsrc) as [G' HG].
    destruct (build_tables _ _ He) as [Hbt Hpk]. destruct (Forall2_elem_l _ _ _ _ Hbt Hu) as (u' & Hu' & Hbu). exists v, e, u'. rewrite Ev, Evt.
    split_and!; [done|done|by exists target|done|by rewrite (bf_name _ _ Hbu)|]. rewrite Forall_forall in HG. destruct (Hpk u Hu) as [pk Epk].
    eapply (built_refersTo G G'); [done|by apply HG|done|done|by exists pk|done|by apply Hused].
Qed.

Lemma built_foreignKey t b f g : t ∈ idoc_tables i -> BuiltFrom t b -> (exists pk, it_pks t = [pk]) -> (forall u, u ∈ idoc_tables i -> exists pk, it_pks u = [pk]) ->
  ForeignKeyValid available (idoc_tables i) t f -> foreignKeyOf f = Ok g -> ForeignKeyWf Source d b g.
Proof.
  intros Hin Hb [pk Hpk] Hpks Hf Hg. destruct (foreignKeyOf_spec _ _ Hg) as (_ & Ec & _ & _ & Hnull).
  pose proof (read_table t Hin) as Hrd. pose proof (built_references t b f g Hrd Hb Hpks Hf Hg) as Href. destruct Hf as [[H1 H2 H3 (k & Hk & Ht) H5] _ _ _].
  assert (Hcol : forall n c, assoc n (it_colMap t) = Some c -> exists e, columnNamed b n = Some e /\ columnOf_ c = Ok e) by (intros n c Hc; pose proof (built_column t b Hb G n Hrd) as H; by rewrite Hc in H).
  split; [..|exact Href]; rewrite ?Ec.
  - split; [|done]. by destruct (ifk_cols f).
  - eapply Forall_impl; [exact H3|]. intros n [c Hc]. destruct (Hcol n c Hc) as (e & -> & _). by eexists.
  - exists (keyNames k). rewrite (built_keys t b Hb pk Hpk), length_map. split; [by apply list_elem_of_fmap_2|done].
  - intros Hs. eapply Forall_impl; [exact (H5 (Hnull Hs))|]. intros n (c & Hc & Hn). destruct (Hcol n c Hc) as (e & He & Hce). exists e. split; [done|].
    destruct (columnOf_spec _ _ Hce) as (_ & _ & -> & _). done.
Qed.

Hypothesis named : doc_name d = idoc_name i.
Hypothesis name_valid : validName (idoc_name i) = true.
Hypothesis constraints : map fst (idoc_constraints i) ≡ₚ concat (map constraintNames (idoc_tables i)).
Hypothesis constraints_distinct : NoDup (map fst (idoc_constraints i)).
Hypothesis diagrams : Forall2 (fun g e => DiagramRead G g /\ dg_name e = tk_t (idg_name g) /\ map pl_table (dg_placements e) = map (fun p => tk_t (ipl_table p)) (idg_entries g))
  (idoc_diagrams i) (doc_diagrams d).

Lemma valid_table t : t ∈ idoc_tables i -> TableValid available (idoc_tables i) t.
Proof. intros Ht. pose proof (dv_tables _ _ _ _ valid) as H. rewrite Forall_forall in H. by apply H. Qed.

Lemma built_table t b : t ∈ idoc_tables i -> BuiltFrom t b -> TableWf Source d b.
Proof.
  intros Ht Hb. pose proof (read_table t Ht) as Hr. destruct (valid_table t Ht) as [V1 (pk & Hpk & V2) V3 V4 V5 V6]. split.
  - rewrite (bf_name _ _ Hb). apply (tr_name _ _ Hr).
  - split_and!; [|rewrite (built_names t b Hb); apply (tr_distinct _ _ Hr)|by eapply built_columnsWf].
    pose proof (bf_columns _ _ Hb) as Hc. by destruct Hc.
  - rewrite (bf_primary _ _ Hb pk) by by rewrite Hpk. by eapply built_key.
  - rewrite (built_uniques t b Hb), (built_indexes t b Hb), <- map_app, Forall_map. eapply Forall_impl; [exact V3|]. intros k Hk. by eapply built_key.
  - by eapply built_identity.
  - apply Forall_forall. intros g Hg. destruct (Forall2_elem_r _ _ _ _ (bf_foreign _ _ Hb) Hg) as (f & Hf & Hfg). rewrite Forall_forall in V5.
    eapply built_foreignKey; [done|done|by exists pk| |by apply V5|done]. intros u Hu. destruct (valid_table u Hu) as [_ (pku & Hpku & _) _ _ _ _]. by exists pku.
  - rewrite (built_constraints t b Hb). by eapply read_constraints.
  - by eapply built_machine.
Qed.

Lemma built_document : DocumentWf Source d.
Proof.
  assert (Ec : map constraintsOf (doc_tables d) = map constraintNames (idoc_tables i)) by (apply (Forall2_maps _ _ _ _ _ built); intros; by apply built_constraints).
  split.
  - by rewrite named.
  - rewrite built_tableNames. apply NoDup_alt. intros j k n Hj Hk. rewrite list_lookup_fmap in Hj, Hk.
    destruct (idoc_tables i !! j) as [t|] eqn:Ej; [|done]. destruct (idoc_tables i !! k) as [u|] eqn:Ek; [|done]. apply Some_inj in Hj, Hk.
    pose proof (th_local _ _ _ (dv_hand _ _ _ _ valid) j t Ej) as H1. pose proof (th_local _ _ _ (dv_hand _ _ _ _ valid) k u Ek) as H2. rewrite Hj in H1. rewrite Hk in H2. congruence.
  - by rewrite Ec, <- constraints.
  - rewrite Ec, built_tableNames, <- constraints. apply (dv_constraints _ _ _ _ valid).
  - apply Forall_forall. intros b Hb. destruct (Forall2_elem_r _ _ _ _ built Hb) as (t & Ht & Htb). by eapply built_table.
  - apply Forall_forall. intros e He. destruct (Forall2_elem_r _ _ _ _ diagrams He) as (g & Hg & [[_ Hn] _] & En & Ep).
    pose proof (dv_diagrams _ _ _ _ valid) as H. rewrite Forall_forall in H. destruct (H g Hg) as [Hd Ha]. split; rewrite ?En; [done|by rewrite Ep|].
    rewrite <- (Forall_map pl_table (fun n => n ∈ map t_name (doc_tables d) ++ concat (map use_tables (doc_uses d)))), Ep, Forall_map.
    eapply Forall_impl; [exact Ha|]. intros p [r Hr]. cbn. rewrite elem_of_app. by eapply available_known.
Qed.
End document.

(** ** Accepted documents *)

Lemma Accepted_wellFormed sha256 documents lines i d : Accepted sha256 (UsedDocument sha256 documents) lines i -> build i = Ok d -> DocumentWf (usedDocument sha256 documents) d.
Proof.
  intros Ha Hb. destruct (Accepted_members _ _ _ _ Ha) as ((tok & _ & [_ Hn] & Hname) & _ & Hr & Hg). destruct Ha as (k & c & av & Hgood & Hun & Hv).
  apply bindR_ok in Hb as (ts & Hts & [= <-]). apply mapR_ok in Hts.
  assert (Ecs : idoc_constraints i = idoc_constraints (c_document c)) by exact (f_equal idoc_constraints Hun).
  assert (Ets : map unwrittenTable (idoc_tables i) = map unwrittenTable (idoc_tables (c_document c))) by exact (f_equal idoc_tables Hun).
  assert (En : forall l, map constraintNames (map unwrittenTable l) = map constraintNames l).
  { intros l. rewrite map_map. apply map_ext. intros t. unfold constraintNames, unwrittenTable. cbn. by rewrite map_map. }
  eapply (built_document sha256 documents (inText lines) av (unwritten i)); [exact Hv| | | |done| | | |]; cbn.
  - rewrite Forall_map. eapply Forall_impl; [exact Hr|]. intros t. apply unwritten_TableRead.
  - apply Forall2_fmap_l. eapply Forall2_impl; [exact Hts|]. intros t b Htb. apply BuiltFrom_unwritten. by apply tableBuilt_from.
  - apply Forall2_fmap_r. clear. induction (idoc_uses i); by constructor.
  - by rewrite <- Hname.
  - rewrite Ecs, En, <- En, Ets, En. apply (gd_names _ _ _ Hgood).
  - rewrite Ecs. apply (gd_distinct _ _ _ Hgood).
  - apply Forall2_fmap_r. clear -Hg. induction Hg as [|g l Hg _ IH]; constructor; [|done]. split_and!; [done|done|]. cbn. by rewrite map_map.
Qed.

(** * What [parseDocument] promises ([dbspec/parse.ts])

    The module's functions return for every text and every declared set; the
    diagnostics of a refused text are in source order; an accepted document is
    well formed.  The theorems are applied to a document of two tables that uses
    a third. *)


(** ** Two texts *)

Definition cityText : string := "dbspec 1 geo

table city {
  id i64 identity
  name varchar(80)

  primary key (id)
  unique city_name (name)
}
".
Definition shopText : string := "dbspec 1 shop

use geo { city }

table orders {
  id i64 identity
  customer_id i64
  state varchar(20) default 'new'
  total decimal(10,2) default 0.00

  primary key (id)
  index orders_customer (customer_id, total desc)
  foreign key orders_customer_fk (customer_id) references customer (id) on delete cascade
  check orders_total (total >= 0)
  settings {
    state_machine state initial new
    state_machine state new -> paid
    state_machine state terminal paid
    state_machine state limit new 1000
  }
}

table customer {
  id i64 identity
  email varchar(120)
  city_id i64 null

  primary key (id)
  unique customer_email (email)
  index customer_city (city_id)
  foreign key customer_city_fk (city_id) references city (id) on delete set_null
}

diagram main {
  orders at 10 20
  customer at 30 40
  city at 50 60
}
".
(** ** The parser returns *)

(** C4: Parsing ends for every text, every declared document set and every hash: parseDocument and analyzeDocument return the document or diagnostics and headerName returns a name; no loop goes on without end and no value that the source takes for present is missing. *)
Theorem parseDocument_returns sha256 text documents :
  (exists r, parseDocument sha256 text documents = Ok r) /\ (exists r, analyzeDocument sha256 text documents = Ok r) /\ (exists n, headerName sha256 text = Ok n).
Proof.
  destruct (parseWhole_total sha256 documents true text) as [parsed Hp]. destruct (resultOf_total sha256 documents text parsed Hp) as [r Hr].
  destruct (parseWhole_total sha256 [] false text) as [front Hf]. unfold parseDocument, analyzeDocument, headerName. rewrite Hp, Hf. cbn. rewrite Hr. split_and!; by eexists.
Qed.

(** ** Accepted documents *)

(** C3: A document that parseDocument accepts is well formed: names are valid and distinct, columns have types in bounds and canonical defaults of their types, there is one primary key of non-null columns, keys are made of columns within the limits, foreign keys lead a key or index and reference a key of equal types in a table of the document or of a use line, state machines have no way out of terminal states, and diagrams place known tables once. *)
Theorem parseDocument_wellFormed sha256 text documents d positions : parseDocument sha256 text documents = Ok (inl (d, positions)) -> DocumentWf (usedDocument sha256 documents) d.
Proof.
  unfold parseDocument, parseWhole. intros (parsed & ([parsed' cache] & Hp & [= <-])%bindR_ok & Hr)%bindR_ok. unfold resultOf in Hr.
  destruct (pa_diagnostics parsed') eqn:Ed; [|done].
  destruct (parseText_accepted _ _ _ _ _ _ _ _ (remaining_all documents) (Sourced_empty _ _) Hp Ed) as [(p & lines & Ep & Ha) _]. rewrite Ep in Hr.
  apply bindR_ok in Hr as (d' & Hd & (ps & _ & [= <- _])%bindR_ok). by eapply Accepted_wellFormed.
Qed.

Definition shop : DbspecDocument * list RawPosition :=
  Eval vm_compute in match parseDocument id shopText [("geo", cityText)] with Ok (inl x) => x | _ => (mkDocument "" false [] [] [] [], []) end.

Example parseDocument_wellFormed_witness : parseDocument id shopText [("geo", cityText)] = Ok (inl (fst shop, snd shop)) /\ DocumentWf (usedDocument id [("geo", cityText)]) (fst shop).
Proof.
  assert (H : parseDocument id shopText [("geo", cityText)] = Ok (inl (fst shop, snd shop))) by (vm_compute; reflexivity).
  split; [exact H|]. exact (parseDocument_wellFormed id shopText [("geo", cityText)] (fst shop) (snd shop) H).
Defined.

(** ** Refused documents *)

Section sorted.
Context {A} (leb : A -> A -> bool).
Hypothesis leb_total : forall x y, leb x y = true \/ leb y x = true.
Hypothesis leb_trans : forall x y z, leb x y = true -> leb y z = true -> leb x z = true.

Lemma insertStable_elem x y l : y ∈ insertStable leb x l <-> y = x \/ y ∈ l.
Proof.
  induction l as [|z l IH]; cbn; [rewrite list_elem_of_singleton, elem_of_nil; tauto|]. destruct (leb x z); rewrite !elem_of_cons; [tauto|rewrite IH; tauto].
Qed.

Lemma stableSort_sorted l : StronglySorted (fun a b => leb a b = true) (stableSort leb l).
Proof.
  induction l as [|x l IH]; [constructor|]. change (stableSort leb (x :: l)) with (insertStable leb x (stableSort leb l)).
  induction IH as [|y k Hk IH2 Hy]; cbn; [repeat constructor|]. destruct (leb x y) eqn:E.
  - repeat constructor; [done|done|done|]. eapply Forall_impl; [exact Hy|]. intros z. by apply leb_trans.
  - constructor; [done|]. apply Forall_forall. intros z [->|Hz]%insertStable_elem; [by destruct (leb_total x y) as [H|H]; [congruence|]|].
    rewrite Forall_forall in Hy. by apply Hy.
Qed.
End sorted.

(** The order of diagnostics: by line, then by column, then by rule. *)
Definition inSourceOrder (a b : DbspecDiagnostic) : Prop :=
  dx_line a < dx_line b \/ (dx_line a = dx_line b /\ (dx_column a < dx_column b \/ (dx_column a = dx_column b /\ (rank a <= rank b)%nat))).

Lemma diagnosticLeb_order a b : diagnosticLeb a b = true <-> inSourceOrder a b.
Proof.
  unfold diagnosticLeb, inSourceOrder. destruct (Z.eqb_spec (dx_line a) (dx_line b)); [destruct (Z.eqb_spec (dx_column a) (dx_column b))|].
  - rewrite Nat.leb_le. lia.
  - rewrite Z.ltb_lt. lia.
  - rewrite Z.ltb_lt. lia.
Qed.

Lemma diagnosticLeb_total a b : diagnosticLeb a b = true \/ diagnosticLeb b a = true.
Proof. rewrite !diagnosticLeb_order. unfold inSourceOrder. lia. Qed.

Lemma diagnosticLeb_trans a b c : diagnosticLeb a b = true -> diagnosticLeb b c = true -> diagnosticLeb a c = true.
Proof. rewrite !diagnosticLeb_order. unfold inSourceOrder. lia. Qed.

Lemma ordered_sorted l : StronglySorted inSourceOrder (stableSort diagnosticLeb l).
Proof.
  pose proof (stableSort_sorted diagnosticLeb diagnosticLeb_total diagnosticLeb_trans l) as H. induction H as [|x k _ IH Hx]; constructor; [done|].
  eapply Forall_impl; [exact Hx|]. intros y. apply diagnosticLeb_order.
Qed.

Lemma stableSort_perm {A} (leb : A -> A -> bool) l : stableSort leb l ≡ₚ l.
Proof.
  induction l as [|x l IH]; [done|]. change (stableSort leb (x :: l)) with (insertStable leb x (stableSort leb l)). transitivity (x :: stableSort leb l); [|by constructor].
  generalize (stableSort leb l) as k. clear. induction k as [|y k IH]; [done|]. cbn. destruct (leb x y); [done|]. rewrite IH. apply perm_swap.
Qed.

(** The diagnostics of a parser that did not stop are in order; one that stopped
    gives the diagnostic that it reported last behind the others. *)
Lemma orderedDiagnostics_spec p : orderedDiagnostics p ≡ₚ dp_diagnostics p /\
  (StronglySorted inSourceOrder (orderedDiagnostics p) \/
   dp_stopped p = true /\ exists front e, orderedDiagnostics p = front ++ [e] /\ StronglySorted inSourceOrder front /\ last (dp_diagnostics p) = Some e).
Proof.
  unfold orderedDiagnostics. destruct (dp_stopped p); [|split; [apply stableSort_perm|left; apply ordered_sorted]].
  destruct (dp_diagnostics p) as [|e front _] using rev_ind; [split; [done|left; constructor]|].
  rewrite length_app, Nat.add_sub, take_app_length, drop_app_length. split; [by rewrite stableSort_perm|]. right. split; [done|].
  eexists _, e. split; [reflexivity|]. split; [apply ordered_sorted|apply last_snoc].
Qed.

(** C5: A refused document comes with at least one diagnostic, and its diagnostics are ordered by line, column and rule, but for the one that stopped the parse, which is last: that one is there only when the parser stopped, and is the one that it reported last. No report of the parser is lost. *)
Theorem parseDocument_diagnostics sha256 text documents ds : parseDocument sha256 text documents = Ok (inr ds) ->
  exists parsed, parseWhole sha256 documents true text = Ok parsed /\ ds = pa_diagnostics parsed /\ ds <> [] /\
    match pa_parser parsed with
    | None => exists e, ds = [e]
    | Some (p, _) => ds ≡ₚ dp_diagnostics p /\
        (StronglySorted inSourceOrder ds \/
         dp_stopped p = true /\ exists front e, ds = front ++ [e] /\ StronglySorted inSourceOrder front /\ last (dp_diagnostics p) = Some e)
    end.
Proof.
  unfold parseDocument. intros (parsed & Hp & Hr)%bindR_ok. exists parsed. split; [done|]. unfold parseWhole in Hp. apply bindR_ok in Hp as ([parsed' cache] & Hp & [= <-]).
  assert (Ho : (exists e, pa_diagnostics parsed' = [e] /\ pa_parser parsed' = None) \/ exists p lines, pa_diagnostics parsed' = orderedDiagnostics p /\ pa_parser parsed' = Some (p, lines)).
  { cbn [parseText] in Hp. destruct (MAX_BYTES <? utf8Length text); [injection Hp as <- _; left; by eexists|]. cbv zeta in Hp.
    destruct (encodingError _) as [e|]; [destruct (Z.to_nat _); [injection Hp as <- _; left; by eexists|]|]; apply bindR_ok in Hp as ([u p] & _ & [= <- _]); right; eexists p, _; split; done. }
  assert (E : ds = pa_diagnostics parsed' /\ ds <> []).
  { unfold resultOf in Hr. destruct (pa_diagnostics parsed') as [|d0 l] eqn:Ed; [|by injection Hr as <-].
    destruct Ho as [[e [He _]]|(p & lines & _ & Hq)]; [done|]. rewrite Hq in Hr. apply bindR_ok in Hr as (d' & _ & Hr). by apply bindR_ok in Hr as (? & _ & ?). }
  destruct E as [-> Hne]. split; [done|]. split; [done|]. destruct Ho as [(e & -> & ->)|(p & lines & -> & ->)]; [by exists e|]. apply orderedDiagnostics_spec.
Qed.

Definition refusedText : string := "dbspec 1 shop

table orders {
  id i64 identity
  price money
  primary key (id, nope)
}
".

Definition refused : list DbspecDiagnostic := Eval vm_compute in match parseDocument id refusedText [] with Ok (inr ds) => ds | _ => [] end.

Example parseDocument_diagnostics_witness : map (fun d => (dx_line d, dx_rule d)) refused = [(4, "column"); (5, "type"); (6, "key")] /\
  exists parsed, parseWhole id [] true refusedText = Ok parsed /\ refused = pa_diagnostics parsed /\ refused <> [] /\
    match pa_parser parsed with
    | None => exists e, refused = [e]
    | Some (p, _) => refused ≡ₚ dp_diagnostics p /\
        (StronglySorted inSourceOrder refused \/
         dp_stopped p = true /\ exists front e, refused = front ++ [e] /\ StronglySorted inSourceOrder front /\ last (dp_diagnostics p) = Some e)
    end.
Proof.
  split; [vm_compute; reflexivity|]. apply (parseDocument_diagnostics id refusedText []). vm_compute. reflexivity.
Defined.
