(* ===== verification/PlanDocuments.v ===== *)
(** * Plan documents, formatted documents and parsed sets
    ([dbspec/plan.ts], [dbspec/document.ts], [dbspec/set_parse.ts])

    The functions that call the document parser: [parsePlan] reads the target of
    a plan with it, [parseDbspec], [analyzeDbspec] and [formatDbspec] give its
    results, and [parseDbspecSet] parses the texts of one set.  A parsed plan is
    read back from the text that [emitPlan] writes for it. *)

From S2P Require Import Prelude Documents Emit DocumentSet Keys DocumentFacts Check CheckFacts Plan PlanFacts PlanDiff Compare Lexer ParseState Validator ParseDocument.
From Stdlib Require Import Lia.

(** ** Definitions *)

(** A diagnostic of the target text, located in the plan. *)
Definition inPlan (offset : nat) (d : DbspecDiagnostic) : DbspecDiagnostic :=
  mkDiagnostic (dx_rule d) (dx_line d + Z.of_nat offset) (dx_column d) (dx_message d).

Definition notSchemaTarget : string :=
  "the target is not a schema text: one document named schema in canonical form with its tables in name order and only the immutable and audit settings".

Section hash.
Variable sha256 : string -> string.

Definition parseDbspec (text : string) (documents : list (string * string)) : res ParsedDocument := parseDocument sha256 text documents.

Definition analyzeDbspec (text : string) (documents : list (string * string)) : res (ParsedDocument * list RawToken) := analyzeDocument sha256 text documents.

(** The formatted text of a document with no diagnostic, or its diagnostics. *)
Definition formatDbspec (text : string) (documents : list (string * string)) : res (string + list DbspecDiagnostic) :=
  result ← parseDbspec text documents;
  Ok match result with inl (document, _) => inl (emitDbspec document) | inr diagnostics => inr diagnostics end.

Definition parsePlan (text : string) : res (DbspecPlan + list DbspecDiagnostic) :=
  match planHeader text with
  | inr diagnostics => Ok (inr diagnostics)
  | inl (header, schemaText, offset) =>
      parsed ← parseDbspec schemaText [];
      Ok match parsed with
         | inr diagnostics => inr (map (inPlan offset) diagnostics)
         | inl (document, _) =>
             if negb (isSchemaText document) || negb (bool_decide (emitDbspec document = schemaText)) then failed (S offset) notSchemaTarget
             else planTo sha256 header document schemaText
         end
  end.

(** *** Sets *)

(** The result of one text of a set. *)
Record DbspecSetDocument := mkSetDocument {
  sd_name : string; sd_external : bool; sd_parsed : option (DbspecDocument * list RawPosition); sd_diagnostics : list DbspecDiagnostic }.

(** A text with the name of its header and whether an earlier text has it. *)
Record SetEntry := mkSetEntry { se_name : string; se_text : string; se_external : bool; se_repeated : bool }.

(** The first pass: [named] holds the named texts so far. *)
Fixpoint setEntries (named : list (string * string)) (texts : list (string * bool)) : res (list SetEntry * list (string * string)) :=
  match texts with
  | [] => Ok ([], named)
  | (text, external) :: texts =>
      name ← headerName sha256 text;
      let repeated := negb (bool_decide (name = "")) && includes name (map fst named) in
      rest ← setEntries (if negb (bool_decide (name = "")) && negb repeated then named ++ [(name, text)] else named) texts;
      Ok (mkSetEntry name text external repeated :: fst rest, snd rest)
  end.

Definition markExternal (d : DbspecDocument) : DbspecDocument :=
  mkDocument (doc_name d) true (doc_uses d) (doc_tables d) (doc_diagrams d) (doc_closingComments d).

Definition setDocument (named : list (string * string)) (e : SetEntry) : res DbspecSetDocument :=
  if se_repeated e then
    Ok (mkSetDocument (se_name e) (se_external e) None
          [mkDiagnostic "name.duplicate" 1 10 (str ["document "; se_name e; " appears twice in the document set"])])
  else
    parsed ← parseDbspec (se_text e) (filter (fun n => fst n <> se_name e) named);
    Ok match parsed with
       | inl (d, positions) => mkSetDocument (se_name e) (se_external e) (Some (if se_external e then markExternal d else d, positions)) []
       | inr diagnostics => mkSetDocument (se_name e) (se_external e) None diagnostics
       end.

Definition parseDbspecSet (owned external : list string) : res (list DbspecSetDocument) :=
  entries ← setEntries [] (map (fun t => (t, false)) owned ++ map (fun t => (t, true)) external);
  mapR (setDocument (snd entries)) (fst entries).
End hash.

(** ** What [planHeader] reads *)

Lemma split_on_char c s : Forall (fun p => has_char c p = false) (split_on c s).
Proof.
  induction s as [|a s IH]; [by repeat constructor|]. cbn [split_on]. destruct (decide (a = c)) as [|Hn]; [by constructor|].
  destruct (split_on c s) as [|p ps]; inversion IH; subst; constructor; try done; cbn [has_char]; by rewrite bool_decide_eq_false_2.
Qed.

Lemma starts_with_rest p s : starts_with p s = true -> s = p +:+ String.substring (String.length p) (String.length s - String.length p) s.
Proof.
  intros H. assert (E : exists t, s = p +:+ t).
  { revert s H. induction p as [|a p IH]; intros [|b s]; cbn [starts_with]; try done; [by intros; exists ""|by intros; eexists|].
    intros [->%bool_decide_eq_true Hs]%andb_true_iff. destruct (IH s Hs) as [t ->]. by exists t. }
  destruct E as [t ->]. by rewrite substring_drop.
Qed.

Lemma qualifiedName_read s t c : qualifiedName s = Some (t, c) -> s = t +:+ "." +:+ c /\ isColumn t = true /\ isColumn c = true.
Proof.
  unfold qualifiedName. rewrite <- (join_split "." s) at 2. destruct (split_on "." s) as [|a [|b [|]]]; try done.
  destruct (isColumn a && isColumn b) eqn:E; [|done]. apply andb_true_iff in E as [? ?]. by intros [= <- <-].
Qed.

(** A line that is read is the text of what was read. *)
Lemma readLine_lineText line l : readLine line = Some l -> line = Plan.lineText l /\ forallb isColumn (lineNames l) = true.
Proof.
  unfold readLine. intros H. rewrite <- (join_split " " line). destruct (split_on " " line) as [|a [|b [|c [|d [|]]]]].
  all: try (repeat (case_match; try done); done).
  all: clear line.
  repeat (case_match; try done). all: subst.
  all: repeat match goal with
    | H : Some _ = Some _ |- _ => apply Some_inj in H; subst
    | H : qualifiedName _ = Some _ |- _ => apply qualifiedName_read in H as (-> & ? & ?)
    | H : _ && _ = true |- _ => apply andb_true_iff in H as [? ?]
    end; (split; [|cbn [lineNames forallb tr_old tr_new cr_table cr_old cr_new cn_table cn_name]; rewrite ?andb_true_iff; split_and?; try done]).
  all: unfold Plan.lineText, str; cbn [join tr_old tr_new cr_table cr_old cr_new cn_table cn_name]; rewrite ?string_app_nil_r, ?string_app_assoc; try reflexivity.
  change (join " " ["rename"; "column"; ?x; ?y]) with ("rename column " +:+ x +:+ " " +:+ y). by rewrite !string_app_assoc.
Qed.

Lemma planNames_allowed names : planNames names = "" -> forallb allowedName names = true.
Proof. induction names as [|n names IH]; [done|]. cbn [planNames forallb]. destruct (allowedName n); [done|]. by unfold str. Qed.

(** The lines that [headerLines] reads, from the line on that it reads next. *)
Lemma headerLines_inv lines : forall n seen h h' target, headerLines n lines seen h = inl (h', target) ->
  exists ls, lines = map Plan.lineText ls ++ "" :: target /\ h' = foldl Plan.addLine h ls /\ forallb goodLine ls = true /\
    NoDup (map Plan.lineText ls) /\ (forall l, l ∈ map Plan.lineText ls -> l ∉ map fst (sn_lines seen)) /\
    NoDup (givenKeys ls) /\ (forall k, k ∈ givenKeys ls -> k ∉ map fst (sn_given seen)).
Proof.
  induction lines as [|line lines IH]; intros n seen h h' target H; [done|]. cbn [headerLines] in H.
  destruct (decide (line = "")) as [->|Hne].
  { injection H as <- <-. exists []. split_and!; try done; try constructor; by intros ? []%elem_of_nil. }
  destruct (assoc line (sn_lines seen)) eqn:El; [done|]. apply assoc_None in El.
  destruct (Plan.readLine line) as [l|] eqn:Er; [|done]. apply readLine_lineText in Er as [-> Hc].
  destruct (negb (bool_decide (planNames (lineNames l) = ""))) eqn:Ep; [done|]. apply negb_false_iff, bool_decide_eq_true in Ep.
  assert (Hg : goodLine l = true).
  { apply planNames_allowed in Ep. unfold goodLine. clear -Hc Ep. induction (lineNames l) as [|x xs IHx]; [done|]. cbn [forallb] in *.
    apply andb_true_iff in Hc as [Hx ?], Ep as [Hy ?]. unfold goodName at 1. rewrite Hx, Hy. by apply IHx. }
  assert (Hstep : forall seen', sn_lines seen' = assoc_set (Plan.lineText l) n (sn_lines seen) ->
    (forall k, k ∈ map fst (sn_given seen') <-> (exists t, givenName l = Some (k, t)) \/ k ∈ map fst (sn_given seen)) ->
    (forall k t, givenName l = Some (k, t) -> k ∉ map fst (sn_given seen)) ->
    headerLines (S n) lines seen' (Plan.addLine h l) = inl (h', target) ->
    exists ls, Plan.lineText l :: lines = map Plan.lineText ls ++ "" :: target /\ h' = foldl Plan.addLine h ls /\ forallb goodLine ls = true /\
      NoDup (map Plan.lineText ls) /\ (forall l, l ∈ map Plan.lineText ls -> l ∉ map fst (sn_lines seen)) /\
      NoDup (givenKeys ls) /\ (forall k, k ∈ givenKeys ls -> k ∉ map fst (sn_given seen))).
  { intros seen' Hs Hk Hnew Hrun. apply IH in Hrun as (ls & -> & -> & Hgs & Hd & Hls & Hkd & Hks). rewrite Hs in Hls.
    exists (l :: ls). split_and!; [done|done|cbn [forallb]; by rewrite Hg| | | |].
    - cbn [map]. constructor; [|done]. intros Hin. apply (Hls _ Hin). apply assoc_set_fst. by left.
    - cbn [map]. intros x [->|Hx]%elem_of_cons; [done|]. intros Hx'. apply (Hls x Hx). apply assoc_set_fst. by right.
    - unfold givenKeys in *. cbn [omap list_omap]. destruct (givenName l) as [[k t]|]; cbn [fmap option_fmap option_map fst]; [|done].
      constructor; [|done]. intros Hin. apply (Hks k Hin). apply Hk. left. by eexists.
    - unfold givenKeys in *. cbn [omap list_omap]. destruct (givenName l) as [[k t]|] eqn:Eg; cbn [fmap option_fmap option_map fst].
      + intros x [->|Hx]%elem_of_cons; [by eapply Hnew|]. intros Hx'. apply (Hks x Hx). apply Hk. by right.
      + intros x Hx Hx'. apply (Hks x Hx), Hk. by right. }
  destruct (givenName l) as [[key text]|] eqn:Eg.
  - cbn [sn_given sn_lines] in H. destruct (assoc key (sn_given seen)) eqn:Ek; [done|]. apply assoc_None in Ek. eapply Hstep; [| | |exact H]; [done| |by intros ? ? [= <- _]].
    intros k. cbn [sn_given]. rewrite assoc_set_fst. split; [intros [->|?]; [left; by eexists|by right]|intros [[t Ht]|?]; [left; congruence|by right]].
  - eapply Hstep; [| | |exact H]; [done| |done]. intros k. cbn [sn_given]. split; [by right|]. by intros [[t ?]|?].
Qed.

(** The lines of a header in the order they were added, but for the order of the kinds. *)
Definition unsortedLines (h : PlanHeader) : list HeaderLine :=
  map LRenameTable (h_renameTables h) ++ map LRenameColumn (h_renameColumns h) ++ map LDropTable (h_dropTables h) ++ map LDropColumn (h_dropColumns h).

Lemma unsortedLines_addLine h l : unsortedLines (Plan.addLine h l) ≡ₚ l :: unsortedLines h.
Proof.
  destruct h as [n f rt rc dt dc], l; unfold unsortedLines; cbn [Plan.addLine h_renameTables h_renameColumns h_dropTables h_dropColumns];
    rewrite map_app; cbn [map]; rewrite ?app_assoc, <- Permutation_middle, ?app_nil_r; try solve_Permutation.
Qed.

Lemma unsortedLines_foldl ls : forall h, unsortedLines (foldl Plan.addLine h ls) ≡ₚ ls ++ unsortedLines h.
Proof.
  induction ls as [|l ls IH]; intros h; [done|]. cbn [foldl]. rewrite IH, unsortedLines_addLine. symmetry. apply Permutation_middle.
Qed.

Lemma sortedLines_perm h : sortedLines h ≡ₚ unsortedLines h.
Proof. unfold sortedLines, unsortedLines, sortedBy. by rewrite !sort_by_perm. Qed.

Lemma addLine_name ls : forall h, h_name (foldl Plan.addLine h ls) = h_name h /\ h_from (foldl Plan.addLine h ls) = h_from h.
Proof. induction ls as [|l ls IH]; intros h; [done|]. cbn [foldl]. destruct (IH (Plan.addLine h l)) as [-> ->]. by destruct h, l. Qed.

Lemma readHeader_name line n : readHeader line = Some n -> isColumn n = true.
Proof. unfold readHeader. intros H. repeat (case_match; try done). by injection H as <-. Qed.

Lemma readFrom_from line from : readFrom line = Some from ->
  match (if decide (from = "empty") then None else Some from) with
  | Some f => exists x, f = "sha256:" +:+ x /\ String.length x = 64%nat /\ all_chars is_hex x = true
  | None => True
  end.
Proof.
  unfold readFrom. destruct (starts_with "from " line); [|done]. cbv zeta. set (t := String.substring 5 _ line).
  destruct (decide (from = "empty")) as [|Hn]; [done|]. destruct (_ || _) eqn:E; [|done]. intros [= <-].
  apply orb_true_iff in E as [E%bool_decide_eq_true|E]; [done|]. apply andb_true_iff in E as [[Hs Hl]%andb_true_iff Hx].
  apply starts_with_rest in Hs. apply Nat.eqb_eq in Hl. eexists. split_and!; [exact Hs|exact Hl|exact Hx].
Qed.

Lemma useLine_none n lines : useLine n lines = None -> Forall (fun line => starts_with "use " line = false) lines.
Proof. revert n. induction lines as [|line lines IH]; intros n; [constructor|]. cbn [useLine]. destruct (starts_with "use " line) eqn:E; [done|]. constructor; [done|by eapply IH]. Qed.

(** A header that was read can be written, and its target is a text of lines. *)
Lemma planHeader_good text h schemaText offset : planHeader text = inl (h, schemaText, offset) ->
  goodHeader h /\ exists target, target <> [] /\ schemaText = joinLines target /\
    Forall (fun line => has_char newline line = false /\ starts_with "use " line = false) target.
Proof.
  unfold planHeader. destruct (negb (ends_with lineEnd text)); [done|]. cbv zeta.
  pose proof (split_on_char newline (String.substring 0 (String.length text - 1) text)) as Hlines.
  destruct (split_on newline _) as [|l1 lines1] eqn:El; [by destruct (split_on_ne newline (String.substring 0 (String.length text - 1) text))|].
  cbn [head]. unfold mbind at 1, option_bind at 1. destruct (readHeader l1) as [n|] eqn:En; [|done]. apply readHeader_name in En. cbn [mbind option_bind].
  destruct (allowedName n) eqn:Ea; [|done].
  destruct lines1 as [|l2 lines]; [done|]. cbn [lookup list_lookup]. cbn [mbind option_bind].
  destruct (readFrom l2) as [from|] eqn:Ef; [|done]. apply readFrom_from in Ef. change (drop 2 (l1 :: l2 :: lines)) with lines.
  destruct (headerLines 3 lines _ _) as [[h' target]|] eqn:Eh; [|done]. destruct (useLine _ target) as [[]|] eqn:Eu; [done|].
  intros [= <- <- _]. apply headerLines_inv in Eh as (ls & -> & -> & Hg & Hd & _ & Hk & _).
  set (h0 := mkHeader n _ [] [] [] []). destruct (addLine_name ls h0) as [Hname Hfrom].
  assert (Hperm : sortedLines (foldl Plan.addLine h0 ls) ≡ₚ ls).
  { rewrite sortedLines_perm, unsortedLines_foldl. unfold unsortedLines. cbn. by rewrite app_nil_r. }
  split.
  - split.
    + rewrite Hname. cbn. unfold goodName. by rewrite En, Ea.
    + rewrite Hfrom. exact Ef.
    + apply forallb_forall. intros l Hl. rewrite forallb_forall in Hg. apply Hg. apply list_elem_of_In. apply list_elem_of_In in Hl. by rewrite Hperm in Hl.
    + by rewrite (Permutation_map Plan.lineText Hperm).
    + unfold givenKeys in *. by rewrite Hperm.
  - assert (Ht : Forall (fun line => has_char newline line = false /\ starts_with "use " line = false) target).
    { apply useLine_none in Eu. apply Forall_and. split; [|done]. apply Forall_cons in Hlines as [_ Hlines]. apply Forall_cons in Hlines as [_ Hlines].
      apply Forall_app in Hlines as [_ Hlines]. by apply Forall_cons in Hlines as [_ ?]. }
    destruct target as [|t target]; [exists [""]|exists (t :: target)]; split_and!; try done. by repeat constructor.
Qed.

(** ** The round trip *)

Lemma canonicalHeader_twice h : canonicalHeader (canonicalHeader h) = canonicalHeader h.
Proof. unfold canonicalHeader, sortedBy. cbn. by rewrite !(sort_by_id _ (sort_by _ _)) by apply sort_by_sorted. Qed.

(** C33: A plan that parsePlan reads is read again from the text that emitPlan writes for it: the same name, source and target with the header lines in canonical order; and this text is canonical, so the plan that is read writes it again. *)
Theorem parsePlan_emitPlan sha256 text plan : parsePlan sha256 text = Ok (inl plan) ->
  let canonical := mkPlan (canonicalHeader (p_header plan)) (p_schema plan) (p_to plan) in
  parsePlan sha256 (emitPlan plan) = Ok (inl canonical) /\ emitPlan canonical = emitPlan plan.
Proof.
  intros H. cbv zeta. unfold parsePlan in H. destruct (planHeader text) as [[[h schemaText] offset]|] eqn:Eh; [|done].
  apply planHeader_good in Eh as (Hh & target & Hne & -> & Ht). apply bindR_ok in H as (r & Hr & H).
  destruct r as [[d ps]|]; [|done]. destruct (negb (isSchemaText d)) eqn:Es; [done|]. destruct (negb (bool_decide _)) eqn:Ee; [done|]. cbn [orb] in H.
  unfold planTo in H. cbv zeta in H. destruct (decide (Some (textHash sha256 (joinLines target)) = h_from h)) as [|Hto]; [done|].
  assert (plan = mkPlan h d (textHash sha256 (joinLines target))) as -> by congruence. cbn [p_header p_schema p_to].
  pose proof Ee as Et. apply negb_false_iff, bool_decide_eq_true in Et.
  split.
  - unfold parsePlan, emitPlan. cbn [p_header p_schema]. rewrite Et at 1. rewrite planHeader_text by done. rewrite Hr. cbn. rewrite Es, Ee. cbn [orb].
    unfold planTo. cbv zeta. by rewrite decide_False.
  - unfold emitPlan. cbn [p_header p_schema]. do 1 f_equal. unfold headerText, sortedLines, canonicalHeader, sortedBy. cbn.
    by rewrite !(sort_by_id _ (sort_by _ _)) by apply sort_by_sorted.
Qed.

Definition planText : string := "dbplan 1 second
from empty
rename table items goods
allow drop column clients.phone
rename table entries bills
allow drop column clients.fax

dbspec 1 schema

table clients {
  id i64 identity
  email varchar(120)
  primary key (id)
}
".

Definition planRead : DbspecPlan :=
  Eval vm_compute in match parsePlan id planText with Ok (inl p) => p | _ => mkPlan (mkHeader "" None [] [] [] []) (mkDocument "" false [] [] [] []) "" end.

Example parsePlan_emitPlan_witness : parsePlan id planText = Ok (inl planRead) /\ emitPlan planRead <> planText /\
  parsePlan id (emitPlan planRead) = Ok (inl (mkPlan (canonicalHeader (p_header planRead)) (p_schema planRead) (p_to planRead))).
Proof.
  assert (H : parsePlan id planText = Ok (inl planRead)) by (vm_compute; reflexivity).
  split; [exact H|]. split; [by apply (bool_decide_unpack _)|]. exact (proj1 (parsePlan_emitPlan id planText planRead H)).
Defined.
