(* ===== verification/RenderFacts.v ===== *)
(** * Facts of rendered statements

    The order of the documents of a set, the text literals of each dialect, and
    the scaled decimals of SQLite. *)

From S2P Require Import Prelude Lex Values Documents Emit DocumentSet Decimal Keys DocumentFacts Check CheckFacts Plan PlanFacts Render GroupRows.
From Stdlib Require Import Lia.

(** ** The order of documents *)

Section order.
Context (documents : list DbspecDocument).
Hypothesis names_distinct : NoDup (map doc_name documents).
Hypothesis uses_known : forall d u, d ∈ documents -> u ∈ doc_uses d -> use_document u ∈ map doc_name documents.

(** A rank of names that uses make smaller: there is one when no document uses
    itself along other documents. *)
Definition ranked (rank : string -> nat) : Prop :=
  forall d u, d ∈ documents -> u ∈ doc_uses d -> (rank (use_document u) < rank (doc_name d))%nat.

(** Every document of [new] comes behind what it uses, [before] in front. *)
Definition behindUses (before new : list DbspecDocument) : Prop :=
  forall pre e post, new = pre ++ e :: post -> forall u, u ∈ doc_uses e -> use_document u ∈ map doc_name (before ++ pre).

Lemma behindUses_app before a b : behindUses before a -> behindUses (before ++ a) b -> behindUses before (a ++ b).
Proof.
  intros Ha Hb pre e post E u Hu. apply app_eq_app in E as [l [[-> E]|[-> E]]].
  - destruct l as [|x l]; simpl in E.
    + specialize (Hb [] e post). rewrite !app_nil_r in *. by apply Hb.
    + injection E as <- ->. by apply (Ha pre e l).
  - rewrite app_assoc. by apply (Hb l e post).
Qed.

(** The documents that are marked and not yet put out are above the ones a
    visit of the names [ns] may use. *)
Definition grayAbove (rank : string -> nat) (st : list string * list DbspecDocument) (ns : list string) : Prop :=
  forall x n, x ∈ st.1 -> x ∉ map doc_name st.2 -> n ∈ ns -> (rank n < rank x)%nat.

(** What visits of the names [ns] do to the state. *)
Record visited (st : list string * list DbspecDocument) (ns : list string) (st' : list string * list DbspecDocument) (new : list DbspecDocument) : Prop := {
  vs_out : st'.2 = st.2 ++ new;
  vs_done : forall x, x ∈ st'.1 <-> x ∈ st.1 \/ x ∈ map doc_name new;
  vs_fresh : NoDup (map doc_name new) /\ forall x, x ∈ map doc_name new -> x ∉ st.1;
  vs_known : new ⊆ documents;
  vs_all : forall n, n ∈ ns -> n ∈ st'.1;
  vs_order : forall rank, ranked rank -> grayAbove rank st ns -> behindUses st.2 new
}.

Lemma visited_nothing st ns : (forall n, n ∈ ns -> n ∈ st.1) -> visited st ns st [].
Proof.
  intros H. split; try done.
  - by rewrite app_nil_r.
  - intros x. simpl. rewrite elem_of_nil. tauto.
  - split; [constructor|by intros ? []%elem_of_nil].
  - by intros ? []%elem_of_nil.
  - by intros rank _ _ [|? ?] e post E.
Qed.

Lemma visited_next st n st1 new1 ns st2 new2 : visited st [n] st1 new1 -> visited st1 ns st2 new2 -> visited st (n :: ns) st2 (new1 ++ new2).
Proof.
  intros [O1 D1 [F1 F1'] K1 A1 V1] [O2 D2 [F2 F2'] K2 A2 V2]. split.
  - by rewrite O2, O1, app_assoc.
  - intros x. rewrite D2, D1, map_app, elem_of_app. tauto.
  - rewrite map_app. split.
    + apply NoDup_app. split_and!; [done| |done]. intros x Hx Hx2. apply (F2' x Hx2). apply D1. by right.
    + intros x [Hx|Hx]%elem_of_app; [by apply F1'|]. intros Hs. apply (F2' x Hx). apply D1. by left.
  - intros x [Hx|Hx]%elem_of_app; auto.
  - intros m [->|Hm]%elem_of_cons; [|by apply A2]. apply D2. left. apply A1. by left.
  - intros rank Hr Hg. apply behindUses_app.
    + apply (V1 rank Hr). intros x m Hx Hx' Hm. apply list_elem_of_singleton in Hm as ->. apply Hg; [done|done|by left].
    + rewrite <- O1. apply (V2 rank Hr). intros x m Hx Hx' Hm. rewrite O1, map_app, elem_of_app in Hx'. apply D1 in Hx.
      apply Hg; [tauto|tauto|by right].
Qed.

Lemma use_byName d u : d ∈ documents -> u ∈ doc_uses d -> exists e, byName documents (use_document u) = Some e /\ e ∈ documents /\ doc_name e = use_document u.
Proof.
  intros Hd Hu. destruct (byName documents (use_document u)) as [e|] eqn:E.
  - exists e. split; [done|]. by apply byName_some.
  - apply byName_none in E. destruct E. by apply (uses_known d).
Qed.

(** The loop over names of the set. *)
Lemma visits_names fuel ns st :
  (forall st d, d ∈ documents -> (unreached documents st.1 < fuel)%nat -> exists st' new, visit fuel documents st d = Ok st' /\ visited st [doc_name d] st' new) ->
  (forall n, n ∈ ns -> n ∈ map doc_name documents) -> (unreached documents st.1 < fuel)%nat ->
  exists st' new, foldR (fun state name => next ← present (byName documents name) "byName.get(name)"; visit fuel documents state next) st ns = Ok st' /\
    visited st ns st' new.
Proof.
  intros Hv. revert st. induction ns as [|n ns IH]; intros st Hns Hf.
  { exists st, []. split; [done|]. apply visited_nothing. by intros ? []%elem_of_nil. }
  cbn [foldR]. assert (Hn : n ∈ map doc_name documents) by (apply Hns; by left).
  destruct (byName documents n) as [d|] eqn:E; [|by apply byName_none in E]. apply byName_some in E as [Hd Hname].
  destruct (Hv st d Hd Hf) as (st1 & new1 & E1 & V1). rewrite Hname in V1. unfold present, mbind, res_bind. rewrite E1.
  destruct (IH st1) as (st2 & new2 & E2 & V2); [intros; apply Hns; by right| |].
  - eapply Nat.le_lt_trans; [|exact Hf]. apply unreached_mono. intros x Hx. apply (vs_done _ _ _ _ V1). by left.
  - unfold present, mbind, res_bind in E2. exists st2, (new1 ++ new2). rewrite E2. split; [done|]. by eapply visited_next.
Qed.

Lemma visit_visited fuel : forall st d, d ∈ documents -> (unreached documents st.1 < fuel)%nat ->
  exists st' new, visit fuel documents st d = Ok st' /\ visited st [doc_name d] st' new.
Proof.
  induction fuel as [|fuel IH]; intros [done_ out] d Hd Hf; [lia|]. cbn [visit].
  destruct (includes (doc_name d) done_) eqn:Ei.
  { exists (done_, out), []. split; [done|]. apply visited_nothing. intros n Hn. apply list_elem_of_singleton in Hn as ->. by apply includes_elem. }
  assert (Hni : doc_name d ∉ done_) by (intros H%includes_elem; congruence).
  destruct (visits_names fuel (sortedBy (map use_document (doc_uses d)) id) (done_ ++ [doc_name d], out)) as (st' & new & E & [O D [F F'] K A V]).
  { exact IH. }
  { intros n Hn. unfold sortedBy in Hn. apply elem_of_sort_by, list_elem_of_fmap in Hn as (u & -> & Hu). by apply (uses_known d). }
  { cbn [fst] in *. pose proof (unreached_add documents done_ d Hd Hni). lia. }
  destruct st' as [done' out']. cbn [fst snd] in *. unfold mbind, res_bind in *. rewrite E. exists (done', out' ++ [d]), (new ++ [d]). split; [done|]. split; cbn [fst snd].
  - by rewrite O, app_assoc.
  - intros x. rewrite D, map_app, !elem_of_app. simpl. rewrite list_elem_of_singleton. tauto.
  - rewrite map_app. split.
    + apply NoDup_app. split_and!; [done| |apply NoDup_singleton]. intros x Hx Hd'. apply list_elem_of_singleton in Hd' as ->.
      apply (F' _ Hx), elem_of_app. right. by apply list_elem_of_singleton.
    + intros x [Hx|Hx]%elem_of_app; [|by apply list_elem_of_singleton in Hx as ->]. intros Hs. apply (F' x Hx), elem_of_app. by left.
  - intros x [Hx|Hx]%elem_of_app; [by apply K|]. by apply list_elem_of_singleton in Hx as ->.
  - intros n Hn. apply list_elem_of_singleton in Hn as ->. apply D. left. apply elem_of_app. right. by apply list_elem_of_singleton.
  - intros rank Hr Hg. apply behindUses_app.
    + apply (V rank Hr). intros x n Hx Hx' Hn. cbn [fst snd] in *. unfold sortedBy in Hn.
      apply elem_of_sort_by, list_elem_of_fmap in Hn as (u & -> & Hu). specialize (Hr d u Hd Hu).
      apply elem_of_app in Hx as [Hx|Hx]; [|by apply list_elem_of_singleton in Hx as ->].
      specialize (Hg x (doc_name d) Hx Hx' ltac:(by left)). lia.
    + intros [|p pre] e post Ee u Hu; [|by destruct pre]. injection Ee as <- _. rewrite app_nil_r, map_app, elem_of_app.
      assert (Hin : use_document u ∈ done').
      { apply A. unfold sortedBy. apply elem_of_sort_by. by apply list_elem_of_fmap_2. }
      apply D in Hin as [Hin|Hin]; [|by right]. left. specialize (Hr d u Hd Hu).
      apply elem_of_app in Hin as [Hin|Hin]; [|apply list_elem_of_singleton in Hin; rewrite Hin in Hr; lia].
      destruct (decide (use_document u ∈ map doc_name out)) as [|Hno]; [done|]. exfalso.
      specialize (Hg _ (doc_name d) Hin Hno ltac:(by left)). lia.
Qed.
End order.

Lemma docKeys_elem documents keys k :
  k ∈ foldl (fun keys d => set_add (doc_name d) keys) keys documents <-> k ∈ keys \/ k ∈ map doc_name documents.
Proof.
  revert keys. induction documents as [|d documents IH]; intros keys; simpl; [rewrite elem_of_nil; tauto|].
  rewrite IH, set_add_elem, elem_of_cons. tauto.
Qed.

(** the documents of an accepted set are rendered each exactly once, and
    when no uses go in a circle every document comes behind all it uses. *)
Theorem useOrder_uses documents : snd (checkSet documents) = [] ->
  exists order, useOrder documents = Ok order /\ order ≡ₚ documents /\
    ((exists rank, ranked documents rank) ->
     forall pre d post, order = pre ++ d :: post -> forall u, u ∈ doc_uses d -> use_document u ∈ map doc_name pre).
Proof.
  intros (Hn & Hu & _)%checkSet_accepts. unfold useOrder.
  destruct (visits_names documents (S (S (length documents))) (sortedBy (foldl (fun keys d => set_add (doc_name d) keys) [] documents) id) ([], []))
    as (st & new & E & [O D [F _] K A V]).
  { by apply visit_visited. }
  { intros n Hin. unfold sortedBy in Hin. rewrite elem_of_sort_by, docKeys_elem, elem_of_nil in Hin. tauto. }
  { cbn [fst]. unfold unreached. pose proof (length_filter (fun d => doc_name d ∉ []) documents) as Hl. lia. }
  unfold mbind, res_bind in *. rewrite E. cbn [snd] in O. exists new. simpl in O. rewrite <- O. split_and!; [done| |].
  - rewrite O. apply NoDup_Permutation; [by apply NoDup_fmap_1 in F|by apply NoDup_fmap_1 in Hn|]. intros d. split; [apply K|]. intros Hd.
    assert (Hin : doc_name d ∈ st.1).
    { apply A. unfold sortedBy. rewrite elem_of_sort_by, docKeys_elem. right. by apply list_elem_of_fmap_2. }
    apply D in Hin as [[]%elem_of_nil|(e & Hname & He)%list_elem_of_fmap].
    apply list_elem_of_lookup in Hd as [i Hi]. pose proof (K e He) as [j Hj]%list_elem_of_lookup.
    assert (i = j) as ->; [|congruence]. eapply NoDup_lookup; [exact Hn| |]; rewrite list_lookup_fmap; [by rewrite Hi|]. rewrite Hj. simpl. by rewrite Hname.
  - intros [rank Hr] pre d post Eo u Hud. rewrite O in Eo.
    exact (V rank Hr ltac:(intros x n Hx; by apply elem_of_nil in Hx) pre d post Eo u Hud).
Qed.

(** ** Text literals *)

(** How MySQL reads the rest of a string: a doubled quote is a quote, and a
    backslash takes the next character as it is, or as a control character. *)
Definition mysqlEscape (a : ascii) : string :=
  if decide (a = "n"%char) then String (ascii_of_nat 10) "" else if decide (a = "t"%char) then String (ascii_of_nat 9) ""
  else if decide (a = "r"%char) then String (ascii_of_nat 13) "" else if decide (a = "b"%char) then String (ascii_of_nat 8) ""
  else if decide (a = "0"%char) then String (ascii_of_nat 0) "" else if decide (a = "Z"%char) then String (ascii_of_nat 26) ""
  else if includes a ["%"%char; "_"%char] then String Renderer.backslash (String a "")
  else String a "".

Fixpoint readMysql (s : string) : option (string * string) :=
  match s with
  | EmptyString => None
  | String a s =>
      if decide (a = "'"%char) then
        match s with
        | String b s' => if decide (b = "'"%char) then (fun r => (String "'" (fst r), snd r)) <$> readMysql s' else Some ("", s)
        | EmptyString => Some ("", "")
        end
      else if decide (a = Renderer.backslash) then
        match s with
        | String b s' => (fun r => (mysqlEscape b +:+ fst r, snd r)) <$> readMysql s'
        | EmptyString => None
        end
      else (fun r => (String a (fst r), snd r)) <$> readMysql s
  end.

(** The text that a dialect reads from a literal, and what is behind it. *)
Definition readLiteral (d : DbspecDialect) (s : string) : option (string * string) :=
  match d with
  | MySql => match s with String a s => if decide (a = "'"%char) then readMysql s else None | EmptyString => None end
  | _ => readQuote "'" s
  end.

Lemma replace_all_app c by_ s t : replace_all c by_ (s +:+ t) = replace_all c by_ s +:+ replace_all c by_ t.
Proof. induction s as [|a s IH]; [done|]. rewrite string_app_cons. cbn [replace_all]. by rewrite IH, string_app_assoc. Qed.

Lemma readMysql_written v rest : starts_with "'" rest = false ->
  readMysql (replace_all Renderer.backslash (String Renderer.backslash (String Renderer.backslash "")) (replace_all "'" "''" v) +:+ String "'" rest) = Some (v, rest).
Proof.
  intros Hr. induction v as [|a v IH].
  - cbn [replace_all]. change ("" +:+ ?x) with x. cbn [readMysql]. rewrite decide_True by done. destruct rest as [|b rest]; [done|].
    rewrite decide_False; [done|]. intros ->. done.
  - cbn [replace_all]. rewrite replace_all_app. destruct (decide (a = "'"%char)) as [->|Hq].
    + change (replace_all Renderer.backslash _ "''") with "''". rewrite string_app_assoc. change ("''" +:+ ?x) with (String "'" (String "'" x)).
      cbn [readMysql]. rewrite !decide_True by done. by rewrite IH.
    + cbn [replace_all]. destruct (decide (a = Renderer.backslash)) as [->|Hb].
      * rewrite !string_app_assoc. change ("" +:+ ?x) with x.
        change (String Renderer.backslash (String Renderer.backslash "") +:+ ?x) with (String Renderer.backslash (String Renderer.backslash x)).
        cbn [readMysql]. rewrite decide_False by done. rewrite decide_True by done. by rewrite IH.
      * rewrite !string_app_assoc. change ("" +:+ ?x) with x. change (String a "" +:+ ?x) with (String a x). cbn [readMysql].
        rewrite !decide_False by done. by rewrite IH.
Qed.

(** C40: a text literal of a document, rendered for a column of any type, is
    read back by each database as the text itself: no text closes its literal
    early or changes through the escapes of MySQL. *)
Theorem literal_read d t v : readLiteral d (Renderer.literal d t (quoted v)) = Some (v, "").
Proof.
  assert (E : quoted v = String "'" (replace_all "'" "''" v +:+ "'")).
  { unfold quoted, str. by rewrite string_app_nil_r. }
  unfold Renderer.literal. rewrite E. replace (includes (String "'" _) ["true"; "false"]) with false.
  2: { symmetry. unfold includes. apply bool_decide_eq_false. rewrite !elem_of_cons, elem_of_nil. intros [H|[H|[]]]; discriminate H. }
  change (starts_with "'" (String "'" _)) with true. cbn iota. destruct d; cbn [readLiteral].
  - cbn [replace_all]. rewrite decide_False by done. change (String "'" "" +:+ ?x) with (String "'" x). cbn iota. rewrite decide_True by done.
    rewrite replace_all_app. change (replace_all Renderer.backslash _ "'") with "'". by apply readMysql_written.
  - unfold readQuote. rewrite decide_True by done. by apply (readQuoted_replace "'").
  - unfold readQuote. rewrite decide_True by done. by apply (readQuoted_replace "'").
Qed.

(** ** Scaled decimals *)

Lemma pretty_strip s : all_digits s = true -> (if decide (strip_zeros s = "") then "0" else strip_zeros s) = pretty (digits_val 0 s).
Proof.
  intros Hs. pose proof (digits_val_range s Hs). fold (wholeText s). apply canonWhole_unique; [by apply canonWhole_text|apply canonWhole_pretty; lia|].
  rewrite wholeText_val by done. by destruct (digits_pretty (digits_val 0 s) ltac:(lia)) as (_ & -> & _).
Qed.

(** the literal that the renderer writes for a decimal on SQLite, in
    defaults and checks, is the integer that the client binds for the same
    decimal. *)
Theorem scaledDecimal_bound text precision scale z :
  normalizeDecimal text precision scale = Ok text -> decimalScaled text precision scale = Ok z ->
  Renderer.scaledDecimal text = pretty z.
Proof.
  intros Hn Hz. destruct (normalize_inv _ _ _ _ Hn) as (n0 & w0 & f0 & Hd & Hp & Hl & Hv).
  rewrite (normalize_accepted _ _ _ n0 w0 f0) in Hn by done. destruct (decimalParts_wf _ _ _ _ Hp) as (Dw0 & Df0 & _).
  pose proof (normal_canon _ _ n0 w0 f0 Hd Dw0 Df0 Hl Hv) as C. injection Hn as Hn. fold (wholeText w0) (keptSign n0 w0 f0 scale) in Hn.
  revert C Hn. generalize (keptSign n0 w0 f0 scale) as n, (wholeText w0) as w, (padEnd f0 scale "0") as f. clear Hd Hp Hl Hv Dw0 Df0 n0 w0 f0.
  intros n w f C Ht. unfold decimalScaled in Hz. rewrite <- Ht, (normalize_canonical _ _ _ _ _ C) in Hz. injection Hz as <-.
  destruct C as [_ [Dw Cw] Df Lf _ Hs]. assert (Nw : w <> "") by (by destruct Cw as [->|[? _]]).
  rewrite bigint_shown by done. rewrite unitsOf_shown by done.
  set (body := w +:+ (if scale =? 0 then "" else String "." f)).
  assert (Hbody : drop_first "." body = w +:+ f).
  { unfold body. destruct (Z.eqb_spec scale 0) as [E|]; [|by apply drop_point]. rewrite string_app_nil_r, drop_digits by done.
    destruct f; [by rewrite string_app_nil_r|]. unfold slen in Lf. simpl in Lf. lia. }
  assert (Hval : digits_val 0 w * 10 ^ scale + digits_val 0 f = digits_val 0 (w +:+ f)) by (by rewrite digits_val_app, Lf).
  assert (Hdig : all_digits (w +:+ f) = true) by (by rewrite all_digits_app, Dw, Df).
  assert (Hshow : showDecimal n w f scale = (if n then "-" else "") +:+ body).
  { unfold showDecimal, str, body. by destruct n, (scale =? 0); simpl; rewrite ?string_app_nil_r. }
  pose proof (digits_val_range _ Hdig) as Hr. rewrite Hval. unfold Renderer.scaledDecimal. rewrite <- Ht, Hshow. destruct n; cbn [signed].
  - change ("-" +:+ body) with (String "-" body). change (starts_with "-" (String "-" body)) with true. cbn iota.
    replace (String.substring 1 (String.length (String "-" body) - 1) (String "-" body)) with body.
    2: { simpl. by rewrite Nat.sub_0_r, substring_all. }
    rewrite Hbody. pose proof (pretty_strip _ Hdig) as Ep.
    assert (Hpos : digits_val 0 (w +:+ f) <> 0).
    { rewrite <- Hval. pose proof (digits_val_range w Dw). pose proof (digits_val_range f Df). pose proof (slen_nonneg f).
      pose proof (pow10_pos scale ltac:(lia)). destruct (Hs eq_refl); nia. }
    rewrite decide_False in * by (intros E; apply strip_empty in E; done). rewrite Ep.
    destruct (digits_val 0 (w +:+ f)) as [|p|p]; [done|done|lia].
  - change ("" +:+ body) with body. assert (starts_with "-" body = false) as ->.
    { unfold body. destruct w as [|a w']; [done|]. rewrite all_digits_cons in Dw. apply andb_true_iff in Dw as [Ha _]. rewrite string_app_cons.
      cbn [starts_with]. rewrite bool_decide_eq_false_2; [done|]. by intros <-. }
    rewrite Hbody. by apply pretty_strip.
Qed.

Lemma scaledDecimal_bound_witness : Renderer.scaledDecimal "-0.50" = pretty (-50).
Proof. apply (scaledDecimal_bound "-0.50" 4 2 (-50)); vm_compute; reflexivity. Defined.

Lemma useOrder_uses_witness :
  let docs := [mkDocument "a" false [mkUse [] "c" ["t"]] [] [] []; mkDocument "b" false [] [] [] []; mkDocument "c" false [mkUse [] "b" ["u"]] [] [] []] in
  exists order, useOrder docs = Ok order /\ order ≡ₚ docs /\
    ((exists rank, ranked docs rank) ->
     forall pre d post, order = pre ++ d :: post -> forall u, u ∈ doc_uses d -> use_document u ∈ map doc_name pre).
Proof. apply useOrder_uses. vm_compute. reflexivity. Defined.
