(* ===== verification/Float32.v ===== *)
(** * Single-precision numbers of a grid ([catalog.ts], [float32BitsOfText])

    A driver gives a [float4] or [FLOAT] as its text, and the catalog reads its
    32 bits by exact integer arithmetic.  [float32Value] is the value of the bits
    in units of 2^-149, the distance of the smallest numbers; infinity counts as
    2^128, which is how IEEE 754 rounds what is too large.  A text with an
    exponent that the host cannot hold as a [BigInt] is outside. *)

From S2P Require Import Prelude Lex Values Decimal.
From Stdlib Require Import Lia.

(** ** Definitions *)

Definition bitLength (value : Z) : Z := if value =? 0 then 0 else Z.log2 value + 1.

(** Whether [num / den] is at least [2 ^ e]. *)
Definition atLeastPowerOfTwo (num den e : Z) : bool :=
  if 0 <=? e then Z.shiftl den e <=? num else den <=? Z.shiftl num (- e).

(** [num * 2 ^ s / den] rounded to the nearest integer, ties to even. *)
Definition roundScaled (num den s : Z) : Z :=
  let scaledNum := if 0 <=? s then Z.shiftl num s else num in
  let scaledDen := if 0 <=? s then den else Z.shiftl den (- s) in
  let q := Z.quot scaledNum scaledDen in
  let twice := Z.rem scaledNum scaledDen * 2 in
  if (scaledDen <? twice) || ((twice =? scaledDen) && (Z.rem q 2 =? 1)) then q + 1 else q.

(** The loops that move the exponent down and up. *)
Fixpoint lowerExponent (fuel : nat) (num den e2 : Z) : res Z :=
  if atLeastPowerOfTwo num den e2 then Ok e2 else match fuel with O => Err OutOfFuel | S fuel => lowerExponent fuel num den (e2 - 1) end.
Fixpoint raiseExponent (fuel : nat) (num den e2 : Z) : res Z :=
  if atLeastPowerOfTwo num den (e2 + 1) then match fuel with O => Err OutOfFuel | S fuel => raiseExponent fuel num den (e2 + 1) end else Ok e2.

(** The digits at the front of a text. *)
Fixpoint digitRun (s : string) : string * string :=
  match s with
  | String a rest => if is_digit a then let '(d, r) := digitRun rest in (String a d, r) else ("", s)
  | EmptyString => ("", "")
  end.

(** The text [/^([+-])?(\d+)(?:\.(\d+))?(?:[eE]([+-]?\d+))?$/]: its sign, its
    digits before and behind the point, and the exponent. *)
Record FloatText := mkFloatText { ft_negative : bool; ft_whole : string; ft_fraction : string; ft_exponent : Z }.

Definition signOf (s : string) : bool * string :=
  match s with
  | String a rest => if decide (a = "-"%char) then (true, rest) else if decide (a = "+"%char) then (false, rest) else (false, s)
  | EmptyString => (false, s)
  end.

Definition exponentText (s : string) : option Z :=
  match s with
  | EmptyString => Some 0
  | String a rest =>
      if decide (a = "e"%char \/ a = "E"%char) then
        let '(negative, d) := signOf rest in
        if negb (bool_decide (d = "")) && all_digits d then Some (if negative then - digits_val 0 d else digits_val 0 d) else None
      else None
  end.

Definition floatText (text : string) : option FloatText :=
  let '(negative, s) := signOf text in
  let '(whole, s) := digitRun s in
  if decide (whole = "") then None
  else
    let '(fraction, s) :=
      match s with
      | String a rest => if decide (a = "."%char) then let '(f, r) := digitRun rest in if decide (f = "") then ("", s) else (f, r) else ("", s)
      | EmptyString => ("", s)
      end in
    match exponentText s with Some e => Some (mkFloatText negative whole fraction e) | None => None end.

(** The value of a text without its sign, as a fraction. *)
Definition floatFraction (t : FloatText) : Z * Z :=
  let exponent10 := ft_exponent t - slen (ft_fraction t) in
  let mantissa := digits_val 0 (ft_whole t +:+ ft_fraction t) in
  if 0 <=? exponent10 then (mantissa * 10 ^ exponent10, 1) else (mantissa, 10 ^ (- exponent10)).

Definition specials : list (string * Z) := [("NaN", 0x7fc00000); ("Infinity", 0x7f800000); ("-Infinity", 0xff800000)].

(** The bits of a positive [num / den]. *)
Definition positiveBits (sign num den : Z) : res Z :=
  e2 ← lowerExponent 1 num den (bitLength num - bitLength den);
  e2 ← raiseExponent 0 num den e2;
  Ok (if -126 <=? e2 then
        let q := roundScaled num den (23 - e2) in
        let '(q, e2) := if q =? Z.shiftl 1 24 then (Z.shiftl 1 23, e2 + 1) else (q, e2) in
        if 127 <? e2 then Z.lor sign 0x7f800000
        else Z.lor (Z.lor sign (Z.shiftl (e2 + 127) 23)) (q - Z.shiftl 1 23)
      else
        let q := roundScaled num den 149 in
        if q =? Z.shiftl 1 23 then Z.lor sign (Z.shiftl 1 23) else Z.lor sign q).

Definition float32BitsOfText (text : string) : res Z :=
  match assoc text specials with
  | Some special => Ok special
  | None =>
      match floatText text with
      | None => Err (OrmError CATALOG_VALUE (str ["float text "; dq; text; dq; " is not a decimal number"]))
      | Some t =>
          let sign := if ft_negative t then Z.shiftl 1 31 else 0 in
          let '(num, den) := floatFraction t in
          if digits_val 0 (ft_whole t +:+ ft_fraction t) =? 0 then Ok sign else positiveBits sign num den
      end
  end.

Example float32_bits : map float32BitsOfText ["1"; "-0"; "0.1"; "16777217"; "3.4028235e38"; "3.4028236e38"; "1e-45"; "-1e-46"; "1.17549429e-38"; "+.5"; "1e+3"]
  = [Ok 0x3f800000; Ok 0x80000000; Ok 0x3dcccccd; Ok 0x4b800000; Ok 0x7f7fffff; Ok 0x7f800000; Ok 1; Ok 0x80000000; Ok 0x800000;
     Err (OrmError CATALOG_VALUE (str ["float text "; dq; "+.5"; dq; " is not a decimal number"])); Ok 0x447a0000].
Proof. by vm_compute. Qed.

(** * The single-precision number nearest to a text

    [float32BitsOfText] gives the bits whose value is nearest to the decimal value
    of the text, the even ones of two, as IEEE 754 rounds: one rounding, also at
    the borders of the exponents, below the smallest normal number and above the
    largest one. *)


(** Linear arithmetic with quotients and remainders. *)
Ltac divlia := Z.div_mod_to_equations; lia.

(** ** Values of bits *)

(** The value of the bits without the sign, in units of 2^-149; the bits of
    infinity have the value that would follow the largest number. *)
Definition float32Value (b : Z) : Z := if b <? 2 ^ 23 then b else (2 ^ 23 + b mod 2 ^ 23) * 2 ^ (b / 2 ^ 23 - 1).

Definition infinityBits : Z := 0x7f800000.

(** The distance of a value from [num / den], times [den]. *)
Definition distance (num den b : Z) : Z := Z.abs (num * 2 ^ 149 - den * float32Value b).

(** The bits nearest to [num / den]; of two, the even ones. *)
Definition nearestBits (num den b : Z) : Prop :=
  0 <= b <= infinityBits /\
  forall b', 0 <= b' <= infinityBits -> distance num den b <= distance num den b' /\ (distance num den b = distance num den b' -> b' = b \/ Z.even b = true).

Lemma float32Value_step b : 0 <= b -> float32Value b < float32Value (b + 1).
Proof.
  intros Hb. unfold float32Value. destruct (Z.ltb_spec b (2 ^ 23)), (Z.ltb_spec (b + 1) (2 ^ 23)); try lia.
  - assert (b = 2 ^ 23 - 1) as -> by lia. reflexivity.
  - destruct (decide ((b + 1) mod 2 ^ 23 = 0)) as [E|E].
    + assert (b mod 2 ^ 23 = 2 ^ 23 - 1) as -> by divlia.
      assert ((b + 1) / 2 ^ 23 = b / 2 ^ 23 + 1) as -> by divlia. rewrite E.
      replace (b / 2 ^ 23 + 1 - 1) with (Z.succ (b / 2 ^ 23 - 1)) by lia. rewrite Z.pow_succ_r by divlia.
      pose proof (Z.pow_pos_nonneg 2 (b / 2 ^ 23 - 1) ltac:(lia) ltac:(divlia)). lia.
    + assert ((b + 1) mod 2 ^ 23 = b mod 2 ^ 23 + 1) as -> by divlia. assert ((b + 1) / 2 ^ 23 = b / 2 ^ 23) as -> by divlia.
      pose proof (Z.pow_pos_nonneg 2 (b / 2 ^ 23 - 1) ltac:(lia) ltac:(divlia)). nia.
Qed.

Lemma float32Value_lt b c : 0 <= b < c -> float32Value b < float32Value c.
Proof.
  intros [Hb Hc]. replace c with (b + 1 + Z.of_nat (Z.to_nat (c - b - 1))) by lia. generalize (Z.to_nat (c - b - 1)) as n.
  induction n as [|n IH]; [replace (b + 1 + Z.of_nat 0) with (b + 1) by lia; by apply float32Value_step|].
  etransitivity; [exact IH|]. replace (b + 1 + Z.of_nat (S n)) with (b + 1 + Z.of_nat n + 1) by lia. apply float32Value_step. lia.
Qed.

Lemma float32Value_le b c : 0 <= b <= c -> float32Value b <= float32Value c.
Proof. intros H. destruct (decide (b = c)) as [->|]; [lia|]. pose proof (float32Value_lt b c). lia. Qed.

(** The bits of exponent [k + 1] and significand [q], up to the next power of two. *)
Lemma float32Value_normal k q : 0 <= k -> 2 ^ 23 <= q <= 2 ^ 24 -> float32Value ((k + 1) * 2 ^ 23 + (q - 2 ^ 23)) = q * 2 ^ k.
Proof.
  intros Hk Hq. unfold float32Value. destruct (Z.ltb_spec ((k + 1) * 2 ^ 23 + (q - 2 ^ 23)) (2 ^ 23)); [lia|].
  destruct (decide (q = 2 ^ 24)) as [->|Hn].
  - assert (((k + 1) * 2 ^ 23 + (2 ^ 24 - 2 ^ 23)) mod 2 ^ 23 = 0) as -> by divlia.
    assert (((k + 1) * 2 ^ 23 + (2 ^ 24 - 2 ^ 23)) / 2 ^ 23 = k + 2) as -> by divlia. replace (k + 2 - 1) with (Z.succ k) by lia.
    rewrite Z.pow_succ_r by lia. lia.
  - assert (((k + 1) * 2 ^ 23 + (q - 2 ^ 23)) mod 2 ^ 23 = q - 2 ^ 23) as -> by divlia.
    assert (((k + 1) * 2 ^ 23 + (q - 2 ^ 23)) / 2 ^ 23 = k + 1) as -> by divlia. replace (k + 1 - 1) with k by lia. f_equal. lia.
Qed.

(** From the exponent [k + 1] on, values are multiples of [2 ^ k]. *)
Lemma float32Value_multiple k b : 0 <= k -> (k + 1) * 2 ^ 23 <= b -> exists q, float32Value b = q * 2 ^ k.
Proof.
  intros Hk Hb. unfold float32Value. destruct (Z.ltb_spec b (2 ^ 23)); [lia|].
  exists ((2 ^ 23 + b mod 2 ^ 23) * 2 ^ (b / 2 ^ 23 - 1 - k)). rewrite <- Z.mul_assoc, <- Z.pow_add_r by divlia. do 2 f_equal. lia.
Qed.

(** ** Rounding to an integer *)

Section round.
Variables num den s : Z.
Hypothesis num_pos : 0 < num.
Hypothesis den_pos : 0 < den.

Definition scaledNum : Z := if 0 <=? s then num * 2 ^ s else num.
Definition scaledDen : Z := if 0 <=? s then den else den * 2 ^ (- s).

Lemma scaledNum_pos : 0 < scaledNum.
Proof. unfold scaledNum. destruct (Z.leb_spec 0 s); [|done]. pose proof (Z.pow_pos_nonneg 2 s). nia. Qed.

Lemma scaledDen_pos : 0 < scaledDen.
Proof. unfold scaledDen. destruct (Z.leb_spec 0 s); [done|]. pose proof (Z.pow_pos_nonneg 2 (- s)). nia. Qed.

Lemma roundScaled_half : 0 <= roundScaled num den s /\
  2 * Z.abs (scaledNum - roundScaled num den s * scaledDen) <= scaledDen /\
  (2 * Z.abs (scaledNum - roundScaled num den s * scaledDen) = scaledDen -> Z.even (roundScaled num den s) = true).
Proof.
  unfold roundScaled. cbv zeta. pose proof scaledNum_pos as HN. pose proof scaledDen_pos as HD.
  assert ((if 0 <=? s then Z.shiftl num s else num) = scaledNum) as ->.
  { unfold scaledNum. destruct (Z.leb_spec 0 s); [by rewrite Z.shiftl_mul_pow2|done]. }
  assert ((if 0 <=? s then den else Z.shiftl den (- s)) = scaledDen) as ->.
  { unfold scaledDen. destruct (Z.leb_spec 0 s); [done|]. by rewrite Z.shiftl_mul_pow2 by lia. }
  rewrite Z.quot_div_nonneg, Z.rem_mod_nonneg by lia. rewrite (Z.rem_mod_nonneg _ 2) by (try apply Z.div_pos; lia).
  generalize dependent scaledDen. generalize dependent scaledNum. intros N HN D HD.
  pose proof (Z.div_mod N D ltac:(lia)) as E. pose proof (Z.mod_pos_bound N D HD) as Hr. pose proof (Z.div_pos N D ltac:(lia) HD) as Hq.
  rewrite !(Zmod_odd (N / D)). destruct (Z.ltb_spec D (N mod D * 2)); [|destruct (Z.eqb_spec (N mod D * 2) D)]; cbn [orb andb].
  - split_and!; [lia| |]; replace (N - (N / D + 1) * D) with (N mod D - D) by lia; rewrite Z.abs_neq by lia; lia.
  - destruct (Z.odd (N / D)) eqn:Eo; cbn.
    + split_and!; [lia|replace (N - (N / D + 1) * D) with (N mod D - D) by lia; rewrite Z.abs_neq by lia; lia|].
      intros _. rewrite Z.even_add, <- Z.negb_odd, Eo. done.
    + split_and!; [lia|replace (N - N / D * D) with (N mod D) by lia; lia|]. intros _. by rewrite <- Z.negb_odd, Eo.
  - split_and!; [lia| |]; replace (N - N / D * D) with (N mod D) by lia; lia.
Qed.

(** No integer is nearer. *)
Lemma roundScaled_nearest q' :
  Z.abs (scaledNum - roundScaled num den s * scaledDen) <= Z.abs (scaledNum - q' * scaledDen) /\
  (Z.abs (scaledNum - roundScaled num den s * scaledDen) = Z.abs (scaledNum - q' * scaledDen) -> q' = roundScaled num den s \/ Z.even (roundScaled num den s) = true).
Proof.
  destruct roundScaled_half as (_ & Hh & He). pose proof scaledDen_pos as HD. revert Hh He. generalize (roundScaled num den s) as q.
  generalize scaledNum as N. revert HD. generalize scaledDen as D. intros D HD N q Hh He.
  destruct (decide (q' = q)) as [->|Hn]; [split; [lia|by left]|].
  assert (D <= Z.abs ((q - q') * D)) by (rewrite Z.abs_mul; nia).
  replace (N - q' * D) with (N - q * D + (q - q') * D) by ring. split; [lia|]. intros Heq. right. apply He. lia.
Qed.
End round.

(** ** The exponent *)

Section exponent.
Variables num den : Z.
Hypothesis num_pos : 0 < num.
Hypothesis den_pos : 0 < den.

(** [atLeastPowerOfTwo] without negative exponents: both sides times [2 ^ m]. *)
Lemma atLeast_scaled e m : 0 <= m -> 0 <= e + m -> atLeastPowerOfTwo num den e = true <-> den * 2 ^ (e + m) <= num * 2 ^ m.
Proof.
  intros Hm He. unfold atLeastPowerOfTwo. destruct (Z.leb_spec 0 e); rewrite Z.leb_le, Z.shiftl_mul_pow2 by lia.
  - rewrite Z.pow_add_r by lia. pose proof (Z.pow_pos_nonneg 2 m ltac:(lia) Hm). nia.
  - replace m with (- e + (e + m)) at 2 by lia. rewrite (Z.pow_add_r 2 (- e)) by lia. pose proof (Z.pow_pos_nonneg 2 (e + m) ltac:(lia) He). nia.
Qed.

Lemma bitLength_log n : 0 < n -> bitLength n = Z.log2 n + 1.
Proof. intros Hn. unfold bitLength. destruct (Z.eqb_spec n 0); lia. Qed.

(** The first exponent is the right one or one more. *)
Lemma exponent_bounds : atLeastPowerOfTwo num den (bitLength num - bitLength den - 1) = true /\ atLeastPowerOfTwo num den (bitLength num - bitLength den + 1) = false.
Proof.
  rewrite !bitLength_log by done. pose proof (Z.log2_spec num num_pos) as [Hn1 Hn2]. pose proof (Z.log2_spec den den_pos) as [Hd1 Hd2].
  pose proof (Z.log2_nonneg num). pose proof (Z.log2_nonneg den). rewrite Z.pow_succ_r in Hn2, Hd2 by lia. split.
  - apply (atLeast_scaled _ (Z.log2 den + 1)); [lia|lia|].
    replace (Z.log2 num + 1 - (Z.log2 den + 1) - 1 + (Z.log2 den + 1)) with (Z.log2 num) by lia. rewrite Z.pow_add_r by lia.
    pose proof (Z.pow_pos_nonneg 2 (Z.log2 num)). pose proof (Z.pow_pos_nonneg 2 (Z.log2 den)). change (2 ^ 1) with 2.
    etransitivity; [apply (Z.mul_le_mono_nonneg_r den (2 * 2 ^ Z.log2 den)); lia|].
    replace (num * (2 ^ Z.log2 den * 2)) with (2 * 2 ^ Z.log2 den * num) by ring. apply Z.mul_le_mono_nonneg_l; lia.
  - apply not_true_iff_false. rewrite (atLeast_scaled _ (Z.log2 den)) by lia.
    replace (Z.log2 num + 1 - (Z.log2 den + 1) + 1 + Z.log2 den) with (Z.log2 num + 1) by lia. rewrite (Z.pow_add_r _ (Z.log2 num)) by lia.
    pose proof (Z.pow_pos_nonneg 2 (Z.log2 num)). pose proof (Z.pow_pos_nonneg 2 (Z.log2 den)). change (2 ^ 1) with 2.
    assert (num * 2 ^ Z.log2 den < 2 * 2 ^ Z.log2 num * 2 ^ Z.log2 den) by (apply Z.mul_lt_mono_pos_r; lia).
    assert (2 ^ Z.log2 num * 2 * 2 ^ Z.log2 den <= den * (2 ^ Z.log2 num * 2)) by (rewrite Z.mul_comm; apply Z.mul_le_mono_nonneg_r; lia). lia.
Qed.

(** The loops end with the exponent of the leading bit. *)
Lemma exponent_found : exists e2, (e ← lowerExponent 1 num den (bitLength num - bitLength den); raiseExponent 0 num den e) = Ok e2 /\
  atLeastPowerOfTwo num den e2 = true /\ atLeastPowerOfTwo num den (e2 + 1) = false.
Proof.
  destruct exponent_bounds as [Hl Hh]. set (e0 := bitLength num - bitLength den) in *. unfold mbind, res_bind. cbn [lowerExponent].
  destruct (atLeastPowerOfTwo num den e0) eqn:E.
  - exists e0. cbn [raiseExponent]. by rewrite Hh.
  - rewrite Hl. cbn [raiseExponent]. replace (e0 - 1 + 1) with e0 by lia. rewrite E. exists (e0 - 1). replace (e0 - 1 + 1) with e0 by lia. done.
Qed.

(** ** The bits *)

(** A multiple of the last place, compared with the scaled value. *)
Lemma scaled_distance k q : 0 <= k ->
  num * 2 ^ 149 - den * (q * 2 ^ k) = 2 ^ Z.min k 149 * (scaledNum num (149 - k) - q * scaledDen den (149 - k)).
Proof.
  intros Hk. unfold scaledNum, scaledDen. destruct (Z.leb_spec 0 (149 - k)).
  - rewrite Z.min_l by lia. replace 149 with (k + (149 - k)) at 1 by lia. rewrite Z.pow_add_r by lia. ring.
  - rewrite Z.min_r by lia. replace k with (149 + - (149 - k)) at 1 by lia. rewrite Z.pow_add_r by lia. ring.
Qed.

(** The bits of a rounded significand [q] in units of [2 ^ k] are the nearest
    ones, when the value is at least the power of two of their exponent. *)
Lemma rounded_nearest k b : 0 <= k -> let q := roundScaled num den (149 - k) in
  0 <= b <= infinityBits -> float32Value b = q * 2 ^ k -> Z.even b = Z.even q ->
  (forall b', 0 <= b' <= infinityBits -> (exists q', float32Value b' = q' * 2 ^ k) \/
     (exists start, float32Value b' < start * 2 ^ k /\ start * scaledDen den (149 - k) <= scaledNum num (149 - k))) ->
  nearestBits num den b.
Proof.
  intros Hk q Hb Hv He Hall. split; [done|]. intros b' Hb'. unfold distance. rewrite Hv, (scaled_distance k q Hk).
  pose proof (Z.pow_pos_nonneg 2 (Z.min k 149) ltac:(lia) ltac:(lia)) as Hp. rewrite Z.abs_mul, (Z.abs_eq (2 ^ _)) by lia.
  destruct (Hall b' Hb') as [[q' Hq']|(start & Hs & Hx)].
  - rewrite Hq', (scaled_distance k q' Hk), Z.abs_mul, (Z.abs_eq (2 ^ _)) by lia.
    destruct (roundScaled_nearest num den (149 - k) num_pos den_pos q') as [Hle Heq]. fold q in Hle, Heq. split; [nia|].
    intros E. apply Z.mul_reg_l in E; [|lia]. apply Heq in E as [->|E]; [|right; by rewrite He]. left.
    destruct (Z.lt_total b b') as [Hlt|[?|Hlt]]; [exfalso|done|exfalso]; [pose proof (float32Value_lt b b')|pose proof (float32Value_lt b' b)]; lia.
  - destruct (roundScaled_nearest num den (149 - k) num_pos den_pos start) as [Hle _]. fold q in Hle.
    pose proof (scaled_distance k start Hk) as Hd.
    assert (Hlt : 2 ^ Z.min k 149 * Z.abs (scaledNum num (149 - k) - q * scaledDen den (149 - k)) < Z.abs (num * 2 ^ 149 - den * float32Value b')).
    { rewrite (Z.abs_eq (_ - start * _)) in Hle by lia. nia. }
    split; [lia|]. intros E. lia.
Qed.

Lemma scaled_bound k start : 0 <= k -> den * start * 2 ^ k <= num * 2 ^ 149 <-> start * scaledDen den (149 - k) <= scaledNum num (149 - k).
Proof.
  intros Hk. pose proof (scaled_distance k start Hk) as E. pose proof (Z.pow_pos_nonneg 2 (Z.min k 149) ltac:(lia) ltac:(lia)).
  rewrite <- Z.mul_assoc. split; intros Hle; nia.
Qed.

(** The leading bit places the significand. *)
Lemma significand_range k : 0 <= k -> atLeastPowerOfTwo num den (k - 126) = true -> atLeastPowerOfTwo num den (k - 126 + 1) = false ->
  2 ^ 23 * scaledDen den (149 - k) <= scaledNum num (149 - k) < 2 ^ 24 * scaledDen den (149 - k).
Proof.
  intros Hk Hl Hh. apply not_true_iff_false in Hh. rewrite (atLeast_scaled _ 149) in Hl by lia. rewrite (atLeast_scaled _ 149) in Hh by lia.
  replace (k - 126 + 149) with (23 + k) in Hl by lia. replace (k - 126 + 1 + 149) with (24 + k) in Hh by lia. rewrite Z.pow_add_r in Hl by lia. rewrite Z.pow_add_r in Hh by lia.
  rewrite Z.mul_assoc in Hl. rewrite Z.mul_assoc in Hh. rewrite (scaled_bound k (2 ^ 23) Hk) in Hl. rewrite (scaled_bound k (2 ^ 24) Hk) in Hh. lia.
Qed.

Lemma rounded_range k lo hi : lo * scaledDen den (149 - k) <= scaledNum num (149 - k) < hi * scaledDen den (149 - k) ->
  lo <= roundScaled num den (149 - k) <= hi.
Proof.
  intros [Hlo Hhi]. destruct (roundScaled_half num den (149 - k) num_pos den_pos) as (_ & Hh & _). pose proof (scaledDen_pos den (149 - k) den_pos) as HD.
  revert Hlo Hhi Hh HD. generalize (scaledDen den (149 - k)) as D. generalize (scaledNum num (149 - k)) as N. generalize (roundScaled num den (149 - k)) as q.
  intros q N D Hlo Hhi Hh HD. split; nia.
Qed.

(** Sign, exponent and significand are apart. *)
Lemma lor_parts sign E f : sign = 0 \/ sign = 2 ^ 31 -> 0 <= E < 256 -> 0 <= f < 2 ^ 23 ->
  Z.lor (Z.lor sign (Z.shiftl E 23)) f = sign + (E * 2 ^ 23 + f).
Proof.
  intros Hs HE Hf. assert (Hlow : forall a b n, 0 <= n -> 0 <= b < 2 ^ n -> Z.lor (Z.shiftl a n) b = a * 2 ^ n + b).
  { intros a b n Hn Hb. rewrite <- Z.shiftl_mul_pow2 by done. symmetry. rewrite <- Z.add_lor_land.
    assert (Z.land (Z.shiftl a n) b = 0) as ->; [|lia]. apply Z.bits_inj'. intros i Hi. rewrite Z.land_spec, Z.bits_0, Z.shiftl_spec by done.
    destruct (Z.lt_ge_cases i n); [rewrite Z.testbit_neg_r by lia; done|].
    destruct (decide (b = 0)) as [->|]; [by rewrite Z.bits_0, andb_false_r|]. rewrite (Z.bits_above_log2 b i), andb_false_r; [done|lia|].
    apply Z.log2_lt_pow2; [lia|]. pose proof (Z.pow_le_mono_r 2 n i). lia. }
  assert (Es : sign = Z.shiftl (sign / 2 ^ 31) 31) by (destruct Hs as [->| ->]; done).
  rewrite <- Z.lor_assoc, (Hlow E f 23) by lia. rewrite Es at 1. rewrite (Hlow _ _ 31) by lia. destruct Hs as [->| ->]; reflexivity.
Qed.

Lemma positiveBits_nearest sign : sign = 0 \/ sign = 2 ^ 31 -> exists b, positiveBits sign num den = Ok (sign + b) /\ nearestBits num den b.
Proof.
  intros Hs. destruct exponent_found as (e2 & Hloop & Hl & Hh). unfold positiveBits.
  destruct (lowerExponent 1 num den _) as [e|]; [|done]. cbn [mbind res_bind] in *. rewrite Hloop. cbn [mbind res_bind]. clear Hloop e.
  destruct (Z.leb_spec (-126) e2) as [Hn|Hn].
  - assert (exists k, e2 = k - 126) as [k ->] by (exists (e2 + 126); lia). replace (23 - (k - 126)) with (149 - k) by lia.
    pose proof (significand_range k ltac:(lia) Hl Hh) as Hr. pose proof (rounded_range k _ _ Hr) as Hq. set (q := roundScaled num den (149 - k)) in *.
    change (Z.shiftl 1 24) with (2 ^ 24). change (Z.shiftl 1 23) with (2 ^ 23). change 0x7f800000 with infinityBits.
    destruct (decide (k <= 253)) as [Hk|Hk].
    + exists ((k + 1) * 2 ^ 23 + (q - 2 ^ 23)). split.
      * destruct (Z.eqb_spec q (2 ^ 24)) as [->|Hne].
        -- destruct (Z.ltb_spec 127 (k - 126 + 1)).
           ++ assert (k = 253) as -> by lia. by destruct Hs as [->| ->].
           ++ f_equal. rewrite lor_parts by lia. lia.
        -- destruct (Z.ltb_spec 127 (k - 126)); [lia|]. f_equal. rewrite lor_parts by lia. lia.
      * apply (rounded_nearest k); [lia|unfold infinityBits; lia|by apply float32Value_normal; lia| |].
        -- rewrite Z.even_add, Z.even_mul, Z.even_sub. change (Z.even (2 ^ 23)) with true. rewrite orb_true_r. fold q. by destruct (Z.even q).
        -- intros b' Hb'. destruct (decide ((k + 1) * 2 ^ 23 <= b')); [left; apply float32Value_multiple; lia|]. right. exists (2 ^ 23). split; [|lia].
           rewrite <- (float32Value_normal k (2 ^ 23)) by lia. apply float32Value_lt. lia.
    + exists infinityBits. split.
      * destruct (Z.eqb_spec q (2 ^ 24)); [destruct (Z.ltb_spec 127 (k - 126 + 1))|destruct (Z.ltb_spec 127 (k - 126))]; try lia; by destruct Hs as [->| ->].
      * split; [unfold infinityBits; lia|]. intros b' Hb'. pose proof (float32Value_le b' infinityBits Hb') as Hle.
        assert (Hx : den * float32Value infinityBits <= num * 2 ^ 149).
        { change (float32Value infinityBits) with (2 ^ 23 * 2 ^ 254). rewrite (atLeast_scaled _ 149) in Hl by lia.
          etransitivity; [|exact Hl]. apply Z.mul_le_mono_nonneg_l; [lia|]. rewrite <- Z.pow_add_r by lia. apply Z.pow_le_mono_r; lia. }
        assert (den * float32Value b' <= den * float32Value infinityBits) by (apply Z.mul_le_mono_nonneg_l; lia).
        unfold distance. split; [lia|]. intros E. left.
        destruct (decide (b' = infinityBits)) as [|Hne]; [done|exfalso]. pose proof (float32Value_lt b' infinityBits ltac:(lia)).
        assert (den * float32Value b' < den * float32Value infinityBits) by (apply Z.mul_lt_mono_pos_l; lia). lia.
  - change (Z.shiftl 1 23) with (2 ^ 23). set (q := roundScaled num den 149).
    assert (Hr : 0 * scaledDen den (149 - 0) <= scaledNum num (149 - 0) < 2 ^ 23 * scaledDen den (149 - 0)).
    { pose proof (scaledNum_pos num (149 - 0) num_pos). split; [lia|]. apply Z.nle_gt. rewrite <- (scaled_bound 0) by lia.
      assert (Hno : atLeastPowerOfTwo num den (-126) = false).
      { apply not_true_iff_false. apply not_true_iff_false in Hh. intros Ht. apply Hh. revert Ht.
        set (m := Z.max 149 (- e2)). rewrite !(atLeast_scaled _ m) by lia. intros Ht. etransitivity; [|exact Ht].
        apply Z.mul_le_mono_nonneg_l; [lia|]. apply Z.pow_le_mono_r; lia. }
      apply not_true_iff_false in Hno. rewrite (atLeast_scaled _ 149) in Hno by lia. rewrite Z.pow_0_r, Z.mul_1_r. exact Hno. }
    pose proof (rounded_range 0 _ _ Hr) as Hq. change (149 - 0) with 149 in Hq. fold q in Hq. exists q. split.
    + assert (E : Z.lor sign q = sign + q).
      { pose proof (lor_parts sign 0 q Hs) as E. rewrite Z.shiftl_0_l, Z.lor_0_r in E.
        destruct (decide (q = 2 ^ 23)) as [->|]; [by destruct Hs as [->| ->]|]. rewrite E by lia. lia. }
      destruct (Z.eqb_spec q (2 ^ 23)) as [Eq|]; [rewrite <- Eq|]; by rewrite E.
    + assert (Hv : float32Value q = q * 2 ^ 0).
      { unfold float32Value. destruct (Z.ltb_spec q (2 ^ 23)); [lia|]. assert (q = 2 ^ 23) as -> by lia. reflexivity. }
      apply (rounded_nearest 0); [lia|unfold infinityBits; lia|exact Hv|done|]. intros b' _. left. exists (float32Value b'). lia.
Qed.
End exponent.

(** ** Texts *)

(** A sign as a text. *)
Definition signText (s : string) : Prop := s = "" \/ s = "+" \/ s = "-".

(** What may follow the digits: nothing, or an exponent. *)
Inductive exponentForm : string -> Z -> Prop :=
  | exponent_none : exponentForm "" 0
  | exponent_digits c sign d : c = "e" \/ c = "E" -> signText sign -> all_digits d = true -> d <> "" ->
      exponentForm (c +:+ sign +:+ d) (if decide (sign = "-") then - digits_val 0 d else digits_val 0 d).

(** A decimal number: a sign, digits, a fraction and an exponent. *)
Inductive floatForm : string -> FloatText -> Prop :=
  | float_form sign whole fraction expo e : signText sign -> all_digits whole = true -> whole <> "" -> all_digits fraction = true -> exponentForm expo e ->
      floatForm (sign +:+ whole +:+ (if decide (fraction = "") then "" else "." +:+ fraction) +:+ expo)
        (mkFloatText (bool_decide (sign = "-")) whole fraction e).

(** A text that does not start with a digit. *)
Definition noDigit (s : string) : Prop := match s with String a _ => is_digit a = false | EmptyString => True end.

Lemma digitRun_app d rest : all_digits d = true -> noDigit rest -> digitRun (d +:+ rest) = (d, rest).
Proof.
  induction d as [|a d IH].
  - intros _ Hr. change ("" +:+ rest) with rest. destruct rest as [|a rest]; [done|]. cbn [digitRun]. by rewrite Hr.
  - rewrite all_digits_cons, string_app_cons. intros [Ha Hd]%andb_true_iff Hr. cbn [digitRun]. by rewrite Ha, IH.
Qed.

Lemma digitRun_inv s d rest : digitRun s = (d, rest) -> s = d +:+ rest /\ all_digits d = true /\ noDigit rest.
Proof.
  revert d. induction s as [|a s IH]; intros d; cbn [digitRun]; [by intros [= <- <-]|]. destruct (is_digit a) eqn:Ea; [|by intros [= <- <-]].
  destruct (digitRun s) as [d' r']. intros [= <- <-]. destruct (IH d' eq_refl) as (-> & Hd & Hr). split_and!; [done| |done].
  by rewrite all_digits_cons, Ea.
Qed.

Lemma signOf_app sign s : signText sign -> (match s with String a _ => a <> "-"%char /\ a <> "+"%char | EmptyString => True end) ->
  signOf (sign +:+ s) = (bool_decide (sign = "-"), s).
Proof.
  intros [->|[->| ->]] Hs; [|done|done]. change ("" +:+ s) with s. destruct s as [|a s]; [done|]. destruct Hs as [Hm Hp]. unfold signOf. by rewrite !decide_False.
Qed.

Lemma signOf_inv s n rest : signOf s = (n, rest) -> exists sign, signText sign /\ s = sign +:+ rest /\ n = bool_decide (sign = "-").
Proof.
  unfold signOf, signText. destruct s as [|a s]; [intros [= <- <-]; exists ""; tauto|].
  destruct (decide (a = "-"%char)) as [->|]; [intros [= <- <-]; exists "-"; tauto|].
  destruct (decide (a = "+"%char)) as [->|]; intros [= <- <-]; [exists "+"|exists ""]; tauto.
Qed.

Lemma digits_sign d : all_digits d = true -> d <> "" -> forall rest, match d +:+ rest with String a _ => a <> "-"%char /\ a <> "+"%char | EmptyString => True end.
Proof. destruct d as [|a d]; [done|]. rewrite all_digits_cons. intros [Ha _]%andb_true_iff _ rest. rewrite string_app_cons. by split; intros ->. Qed.

Lemma exponentText_form s e : exponentText s = Some e <-> exponentForm s e.
Proof.
  split.
  - destruct s as [|a s]; cbn [exponentText]; [intros [= <-]; constructor|]. destruct (decide _) as [Ha|]; [|done].
    destruct (signOf s) as [n d] eqn:Es. apply signOf_inv in Es as (sign & Hs & -> & ->). destruct (_ && _) eqn:Ed; [|done]. intros [= <-].
    apply andb_true_iff in Ed as [Hd1%negb_true_iff%bool_decide_eq_false Hd2]. change (String a (sign +:+ d)) with (String a "" +:+ (sign +:+ d)).
    replace (if bool_decide (sign = "-") then - digits_val 0 d else digits_val 0 d) with (if decide (sign = "-") then - digits_val 0 d else digits_val 0 d) by (by repeat case_decide).
    constructor; [|done|done|done]. destruct Ha as [->| ->]; [by left|by right].
  - intros [|c sign d Hc Hs Hd Hne]; [done|].
    assert (exists a, c = String a "" /\ (a = "e"%char \/ a = "E"%char)) as (a & -> & Ha) by (destruct Hc as [->| ->]; eexists; eauto).
    rewrite string_app_cons. cbn [exponentText]. change ("" +:+ ?x) with x. rewrite decide_True by done. rewrite signOf_app; [|done|].
    + rewrite bool_decide_eq_false_2 by done. rewrite Hd. cbn. by case_decide; case_bool_decide.
    + pose proof (digits_sign d Hd Hne "") as H. by rewrite string_app_nil_r in H.
Qed.

Lemma exponentForm_front s e : exponentForm s e -> noDigit s /\ (forall r, s <> String "." r).
Proof. intros [|c sign d Hc _ _ _]; [done|]. by destruct Hc as [->| ->]. Qed.

(** The texts that are read are the decimal numbers. *)
Lemma floatText_form text t : floatText text = Some t <-> floatForm text t.
Proof.
  split.
  - unfold floatText. destruct (signOf text) as [n s] eqn:Es. apply signOf_inv in Es as (sign & Hs & -> & ->).
    destruct (digitRun s) as [whole r] eqn:Ew. apply digitRun_inv in Ew as (-> & Hw & Hr). destruct (decide (whole = "")) as [|Hne]; [done|].
    destruct (match r with String a rest => _ | EmptyString => _ end) as [fraction r2] eqn:Ef.
    destruct (exponentText r2) as [e|] eqn:Ee; [|done]. intros [= <-]. apply exponentText_form in Ee.
    assert (r = (if decide (fraction = "") then "" else "." +:+ fraction) +:+ r2 /\ all_digits fraction = true) as [-> Hf]; [|by constructor].
    destruct r as [|a r]; [injection Ef as <- <-; by rewrite decide_True|]. destruct (decide (a = "."%char)) as [->|]; [|injection Ef as <- <-; by rewrite decide_True].
    destruct (digitRun r) as [f r'] eqn:Er. apply digitRun_inv in Er as (-> & Hf & _). destruct (decide (f = "")) as [->|Hfne].
    + injection Ef as <- <-. by rewrite decide_True.
    + injection Ef as <- <-. by rewrite decide_False.
  - intros [sign whole fraction expo e Hs Hw Hne Hf He]. unfold floatText. rewrite signOf_app; [|done|by apply digits_sign].
    destruct (exponentForm_front _ _ He) as [Hd Hp]. rewrite digitRun_app; [|done|].
    + rewrite decide_False by done. destruct (decide (fraction = "")) as [->|Hfne].
      * change ("" +:+ expo) with expo. apply exponentText_form in He. destruct expo as [|a expo]; [by rewrite He|].
        rewrite decide_False by (intros ->; by eapply Hp). by rewrite He.
      * change (("." +:+ fraction) +:+ expo) with (String "." (fraction +:+ expo)). cbv beta iota. rewrite decide_True by done. rewrite digitRun_app by done.
        rewrite decide_False by done. apply exponentText_form in He. by rewrite He.
    + destruct (decide (fraction = "")); [exact Hd|reflexivity].
Qed.

Lemma floatForm_unique text t t' : floatForm text t -> floatForm text t' -> t = t'.
Proof. intros H%floatText_form H'%floatText_form. congruence. Qed.

(** The value of a text is its digits with the point moved by the exponent. *)
Lemma floatFraction_value t : 0 <= digits_val 0 (ft_whole t +:+ ft_fraction t) -> let '(num, den) := floatFraction t in
  0 < den /\ 0 <= num /\ (num = 0 <-> digits_val 0 (ft_whole t +:+ ft_fraction t) = 0).
Proof.
  intros Hd. unfold floatFraction. destruct (Z.leb_spec 0 (ft_exponent t - slen (ft_fraction t))).
  - pose proof (Z.pow_pos_nonneg 10 (ft_exponent t - slen (ft_fraction t)) ltac:(lia) ltac:(lia)). split_and!; nia.
  - pose proof (Z.pow_pos_nonneg 10 (- (ft_exponent t - slen (ft_fraction t))) ltac:(lia) ltac:(lia)). split_and!; lia.
Qed.

(** C18: float32BitsOfText gives for every decimal number its sign and the single-precision bits nearest to its exact value, the even ones of two, with infinity for what rounds past the largest number; NaN and the infinities have their own bits, and every other text is CATALOG_VALUE. *)
Theorem float32BitsOfText_nearest text :
  match assoc text specials with
  | Some special => float32BitsOfText text = Ok special
  | None =>
      (forall t, floatForm text t -> exists b, float32BitsOfText text = Ok ((if ft_negative t then 2 ^ 31 else 0) + b) /\
         nearestBits (fst (floatFraction t)) (snd (floatFraction t)) b) /\
      ((forall t, ~ floatForm text t) -> exists message, float32BitsOfText text = Err (OrmError CATALOG_VALUE message))
  end.
Proof.
  unfold float32BitsOfText. destruct (assoc text specials) as [special|]; [done|]. split.
  - intros t Ht. pose proof Ht as Hf. apply floatText_form in Hf. rewrite Hf. change (Z.shiftl 1 31) with (2 ^ 31). cbv zeta.
    assert (Hd : 0 <= digits_val 0 (ft_whole t +:+ ft_fraction t)).
    { destruct Ht as [sign whole fraction expo e _ Hw _ Hfr _]. cbn [ft_whole ft_fraction]. apply digits_val_range. by rewrite all_digits_app, Hw, Hfr. }
    pose proof (floatFraction_value t Hd) as H. destruct (floatFraction t) as [num den]. destruct H as (Hden & Hnum & Hz). cbn [fst snd].
    destruct (Z.eqb_spec (digits_val 0 (ft_whole t +:+ ft_fraction t)) 0) as [E|E].
    + exists 0. rewrite Z.add_0_r. split; [by destruct (ft_negative t)|]. apply Hz in E as ->. split; [unfold infinityBits; lia|]. intros b' Hb'.
      unfold distance. pose proof (float32Value_le 0 b' ltac:(lia)) as Hle. change (float32Value 0) with 0 in *. split; [nia|]. by right.
    + apply positiveBits_nearest; [lia|done|]. destruct (ft_negative t); [by right|by left].
  - intros H. destruct (floatText text) as [t|] eqn:E; [|by eexists]. exfalso. apply floatText_form in E. by eapply H.
Qed.

(** * Numbers of the host: texts, values and bits

    [Number(text)] of any text, the double of a number, and the bits of a double
    and of a single-precision number as [DataView] writes and reads them.  A
    number value is a [JsValue]; its double is exact, since a number below 10^21
    without a fraction is written in full and any other by the text that reads
    back as it. *)

From S2P Require Import Times Doubles.

(** ** Texts *)

(** [text.trim()] *)
Definition trimStart (s : string) : string := skipSpace (String.length s) s.
Fixpoint trimEnd (s : string) : string :=
  if decide (trimStart s = "") then "" else match s with String a s => String a (trimEnd s) | EmptyString => "" end.
Definition trim (s : string) : string := trimEnd (trimStart s).

(** A decimal literal without its sign: digits, a point with or without digits
    on one side, and an exponent. *)
Definition decimalLiteral (s : string) : option (Z * Z) :=
  let '(whole, s) := digitRun s in
  let '(fraction, s) := match s with String "." rest => digitRun rest | _ => ("", s) end in
  if decide (whole = "" /\ fraction = "") then None
  else match exponentText s with Some e => Some (floatFraction (mkFloatText false whole fraction e)) | None => None end.

Definition digitOf (a : ascii) : option Z :=
  let n := Z.of_N (N_of_ascii a) in
  if is_digit a then Some (n - 48) else if is_lower a then Some (n - 87) else if is_upper a then Some (n - 55) else None.

(** The digits of a radix, at least one. *)
Fixpoint radixDigits (radix acc : Z) (s : string) : option Z :=
  match s with
  | EmptyString => Some acc
  | String a s => match digitOf a with Some d => if d <? radix then radixDigits radix (acc * radix + d) s else None | None => None end
  end.
Definition radixText (radix : Z) (s : string) : option Z := if decide (s = "") then None else radixDigits radix 0 s.

Definition radixOf (s : string) : option (Z * string) :=
  match s with
  | String "0" (String a rest) =>
      if decide (a = "x"%char \/ a = "X"%char) then Some (16, rest)
      else if decide (a = "o"%char \/ a = "O"%char) then Some (8, rest)
      else if decide (a = "b"%char \/ a = "B"%char) then Some (2, rest) else None
  | _ => None
  end.

(** ** Doubles as values *)

(** The integer of a finite double, if it is one. *)
Definition doubleInteger (negative : bool) (m e : Z) : option Z :=
  let '(p, q) := valueOf m e in
  if p mod q =? 0 then Some (if negative then - (p / q) else p / q) else None.

Definition doubleValue (d : Double) : JsValue :=
  match d with
  | DInfinity negative => JNonFinite (if negative then "-Infinity" else "Infinity")
  | DFinite negative m e =>
      if m =? 0 then (if negative then JNegZero else JInt 0)
      else match doubleInteger negative m e with
           | Some n => if Z.abs n <? 10 ^ 21 then JInt n else JFraction (doubleText negative m e)
           | None => JFraction (doubleText negative m e)
           end
  end.

(** [Number(text)] *)
Definition numberOfText (text : string) : JsValue :=
  let t := trim text in
  if decide (t = "") then JInt 0
  else
    match radixOf t with
    | Some (radix, digits) => match radixText radix digits with Some n => doubleValue (nearest false n 1) | None => JNonFinite "NaN" end
    | None =>
        let '(negative, body) := signOf t in
        if decide (body = "Infinity") then doubleValue (DInfinity negative)
        else match decimalLiteral body with Some (p, q) => doubleValue (nearest negative p q) | None => JNonFinite "NaN" end
    end.

(** The double of a number value; none of [NaN]. *)
Definition doubleOf (v : JsValue) : option Double :=
  match v with
  | JInt n => Some (nearest (n <? 0) (Z.abs n) 1)
  | JNegZero => Some (DFinite true 0 0)
  | JFraction t => let '(negative, body) := signOf t in '(p, q) ← decimalLiteral body; Some (nearest negative p q)
  | JNonFinite "Infinity" => Some (DInfinity false)
  | JNonFinite "-Infinity" => Some (DInfinity true)
  | _ => None
  end.

(** [BigInt(value)] of a number for which [Number.isInteger] holds. *)
Definition integerNumber (v : JsValue) : option Z :=
  match v with
  | JInt n => Some n
  | JNegZero => Some 0
  | JFraction _ => match doubleOf v with Some (DFinite negative m e) => doubleInteger negative m e | _ => None end
  | _ => None
  end.

(** ** Bits *)

Definition float64Bits (v : JsValue) : Z :=
  match doubleOf v with
  | None => 0x7ff8000000000000
  | Some (DInfinity negative) => (if negative then 2 ^ 63 else 0) + 0x7ff0000000000000
  | Some (DFinite negative m e) =>
      (if negative then 2 ^ 63 else 0) + (if m <? 2 ^ 52 then m else (e + 1075) * 2 ^ 52 + (m - 2 ^ 52))
  end.

(** The number of the bits of a single-precision number. *)
Definition float32FromBits (bits : Z) : JsValue :=
  let negative := 2 ^ 31 <=? bits in
  let exponent := bits / 2 ^ 23 mod 256 in
  let fraction := bits mod 2 ^ 23 in
  if exponent =? 255 then (if fraction =? 0 then doubleValue (DInfinity negative) else JNonFinite "NaN")
  else
    let '(p, q) := if exponent =? 0 then valueOf fraction (-149) else valueOf (2 ^ 23 + fraction) (exponent - 150) in
    doubleValue (nearest negative p q).

Example number_texts : map numberOfText [" 12 "; ""; "0x1F"; ".5"; "5."; "-1e3"; "1e21"; "abc"; "-Infinity"; "-0"; "1_0"; "0.1"] =
  [JInt 12; JInt 0; JInt 31; JFraction "0.5"; JInt 5; JInt (-1000); JFraction "1e+21"; JNonFinite "NaN"; JNonFinite "-Infinity"; JNegZero; JNonFinite "NaN"; JFraction "0.1"].
Proof. by vm_compute. Qed.

Example number_bits : (map float64Bits [JInt 1; JNegZero; JFraction "0.1"; JFraction "5e-324"; JNonFinite "NaN"], map float32FromBits [0x3dcccccd; 1; 0x80000000; 0xff800000; 0x7f7fffff]) =
  ([0x3ff0000000000000; 0x8000000000000000; 0x3fb999999999999a; 1; 0x7ff8000000000000],
   [JFraction "0.10000000149011612"; JFraction "1.401298464324817e-45"; JNegZero; JNonFinite "-Infinity"; JFraction "3.4028234663852886e+38"]).
Proof. by vm_compute. Qed.
