(* ===== verification/CatalogValue.v ===== *)
(** * Values of the catalog connection ([catalog.ts], the value conversions)

    The values and the descriptors of a catalog connection, the conversion of a
    driver value by the native type of its column for a plain read, for a grid
    and for a described table, and the sizes and keys of cells.  A native type is
    ASCII. *)

From S2P Require Import Prelude Lex Values Decimal Times BindCheck Keys Float32 Render.
From Stdlib Require Import Lia.

(** ** Data *)

Record DriverColumn := mkDriverColumn { dc_name : string; dc_type : string }.
Record CatalogTableRef := mkTableRef { ref_namespace : string; ref_name : string }.

Inductive CatalogTableKind := KTable | KPartitioned | KView | KMaterializedView | KForeign | KVirtual | KShadow.

Record CatalogColumn := mkCatalogColumn {
  cc_name : string; cc_nativeType : string; cc_nullable : bool; cc_generated : bool; cc_automaticKey : bool;
  cc_defaultExpression : option string; cc_expressionDefault : bool; cc_checkPrecision : option Z }.

Record CatalogTableMetadata := mkMetadata {
  md_table : CatalogTableRef; md_kind : CatalogTableKind; md_columns : list CatalogColumn; md_primaryKey : list string; md_reliableRowIdentity : bool }.

#[global] Instance DriverColumn_eq_dec : EqDecision DriverColumn. Proof. solve_decision. Defined.
#[global] Instance CatalogTableRef_eq_dec : EqDecision CatalogTableRef. Proof. solve_decision. Defined.
#[global] Instance CatalogTableKind_eq_dec : EqDecision CatalogTableKind. Proof. solve_decision. Defined.
#[global] Instance CatalogColumn_eq_dec : EqDecision CatalogColumn. Proof. solve_decision. Defined.
#[global] Instance CatalogTableMetadata_eq_dec : EqDecision CatalogTableMetadata. Proof. solve_decision. Defined.

(** A value of a plain read is null, a boolean, a number, a bigint, a text or bytes. *)
Definition CatalogValue : Type := JsValue.

Inductive CatalogGridCell :=
  | GNull
  | GInteger (value : Z)
  | GUnsigned (value : Z)
  | GFloat32 (bits : Z)
  | GFloat64 (bits : Z)
  | GDecimal (value : string)
  | GText (value : string)
  | GBoolean (value : bool)
  | GBinary (value : list Z)
  | GDate (value : string)
  | GTime (value : string)
  | GDatetime (value : string).

#[global] Instance CatalogGridCell_eq_dec : EqDecision CatalogGridCell. Proof. solve_decision. Defined.

Definition DriverName : Type := DbspecDialect.

Definition valueError {A} (parts : list string) : res A := Err (OrmError CATALOG_VALUE (str parts)).
Definition temporalError {A} (parts : list string) : res A := Err (OrmError GRID_TEMPORAL_VALUE (str parts)).

(** ** Native types *)

Definition unsignedSuffix : string := " UNSIGNED".

Definition baseType (type : string) : string :=
  toUpperCase (if ends_with unsignedSuffix type then String.substring 0 (String.length type - String.length unsignedSuffix) type else type).

Definition INTEGER_TYPES : list string := ["TINYINT"; "SMALLINT"; "MEDIUMINT"; "INT"; "BIGINT"; "INT2"; "INT4"; "INT8"].
Definition FLOAT32_TYPES : list string := ["FLOAT"; "FLOAT4"].
Definition FLOAT64_TYPES : list string := ["DOUBLE"; "FLOAT8"].
Definition DECIMAL_TYPES : list string := ["DECIMAL"; "NUMERIC"].
Definition TEXT_TYPES : list string := ["CHAR"; "VARCHAR"; "TEXT"; "BPCHAR"; "NAME"; "ENUM"; "SET"].
Definition BINARY_TYPES : list string := ["BLOB"; "BINARY"; "VARBINARY"; "BYTEA"].

(** [text.includes(part)] *)
Fixpoint contains (part s : string) : bool :=
  starts_with part s || match s with EmptyString => false | String _ s => contains part s end.
Definition containsAny (parts : list string) (s : string) : bool := existsb (fun p => contains p s) parts.

(** ** UTF-8 *)

(** [isUtf8(bytes)]: [need] more bytes of a character begun, the next one from
    [lo] to [hi]. *)
Fixpoint utf8From (need : nat) (lo hi : Z) (l : list Z) : bool :=
  match l with
  | [] => bool_decide (need = O)
  | b :: l =>
      match need with
      | S more => (lo <=? b) && (b <=? hi) && utf8From more 128 191 l
      | O =>
          if b <? 128 then utf8From 0 128 191 l
          else if (194 <=? b) && (b <=? 223) then utf8From 1 128 191 l
          else if b =? 224 then utf8From 2 160 191 l
          else if b =? 237 then utf8From 2 128 159 l
          else if (225 <=? b) && (b <=? 239) then utf8From 2 128 191 l
          else if b =? 240 then utf8From 3 144 191 l
          else if (241 <=? b) && (b <=? 243) then utf8From 3 128 191 l
          else if b =? 244 then utf8From 3 128 143 l
          else false
      end
  end.
Definition isUtf8 (bytes : list Z) : bool := utf8From 0 128 191 bytes.

Definition bytesToText (bytes : list Z) : string := str (map (fun b => String (byteChar b) "") bytes).

(** [new TextDecoder('utf-8', { fatal: true }).decode(bytes)]: a byte order mark
    at the front is not part of the text. *)
Definition utf8Of (value : list Z) (type : string) : res string :=
  if isUtf8 value then Ok (bytesToText match value with 239 :: 187 :: 191 :: rest => rest | _ => value end)
  else valueError ["text of native type "; dq; type; dq; " is not valid UTF-8: The encoded data was not valid for encoding utf-8"].

(** ** Plain reads *)

(** The text [/^-?\d+$/] as its integer. *)
Definition signedDigits (s : string) : option Z :=
  let '(negative, d) := match s with String "-" rest => (true, rest) | _ => (false, s) end in
  if negb (bool_decide (d = "")) && all_digits d then Some (if negative then - digits_val 0 d else digits_val 0 d) else None.

Definition isNumber (v : JsValue) : bool := match v with JInt _ | JNegZero | JFraction _ | JNonFinite _ => true | _ => false end.

Definition integerOf (value : JsValue) (type : string) : res Z :=
  let found := match value with JBigint n => Some n | JString s => signedDigits s | v => integerNumber v end in
  match found with
  | Some n => Ok n
  | None => valueError ["integer of native type "; dq; type; dq; " expected, got "; stringOf value]
  end.

Definition integerValue (value : Z) : CatalogValue := if isSafeInteger value then JInt value else JBigint value.

(** [Number(text)] of a float, which must be a number or the text NaN. *)
Definition floatNumber (text type : string) : res JsValue :=
  match numberOfText text with
  | JNonFinite "NaN" => if decide (text = "NaN") then Ok (JNonFinite "NaN") else valueError ["float of native type "; dq; type; dq; " is not a number: "; text]
  | n => Ok n
  end.

Definition bytesValue (value : list Z) (type : string) : res CatalogValue :=
  if negb (isUtf8 value) then Ok (JBytes value)
  else
    let upper := toUpperCase type in
    if bool_decide (upper = "") || containsAny ["BLOB"; "BINARY"; "BYTEA"] upper then Ok (JBytes value)
    else if containsAny ["DECIMAL"; "NUMERIC"; "MONEY"] upper then t ← utf8Of value type; Ok (JString t)
    else if contains "INT" upper then t ← utf8Of value type; n ← integerOf (JString t) type; Ok (integerValue n)
    else if containsAny ["FLOAT"; "DOUBLE"; "REAL"] upper then t ← utf8Of value type; floatNumber t type
    else if containsAny ["CHAR"; "TEXT"; "JSON"; "ENUM"; "UUID"; "XML"; "NAME"] upper || starts_with "SET" upper then t ← utf8Of value type; Ok (JString t)
    else valueError ["unsupported native type "; dq; type; dq].

Definition plainValue (value : JsValue) (column : DriverColumn) : res CatalogValue :=
  let type := dc_type column in
  let base := baseType type in
  let integerColumn := includes base INTEGER_TYPES in
  let singleColumn := includes base FLOAT32_TYPES in
  match value with
  | JNull | JBool _ => Ok value
  | JBytes l => bytesValue l type
  | JBigint n => Ok (integerValue n)
  | JString t =>
      if integerColumn then n ← integerOf value type; Ok (integerValue n)
      else if singleColumn then bits ← float32BitsOfText t; Ok (float32FromBits bits)
      else Ok value
  | v =>
      if isNumber v then
        if integerColumn then n ← integerOf value type; Ok (integerValue n)
        else if singleColumn then valueError ["single-precision "; type; " arrived as a number; it must arrive as its exact text"]
        else match v with JNonFinite _ => valueError ["a non-finite number is not a catalog value"] | _ => Ok value end
      else valueError ["unsupported driver value of type "; typeof v]
  end.

(** ** Dates and times *)

(** The number of fraction digits of a temporal text. *)
Definition fractionDigits (text : string) : Z :=
  match split_on "." text with _ :: (_ :: _) as rest => slen (join "." (tail rest)) | _ => 0 end.

Definition dateText (text : string) : res string :=
  match readDate text with
  | Some (y, m, d, "") =>
      let day := makeDay (num y) (num m - 1) (num d) in
      if (num y <? 1) || negb (yearOf day =? num y) || negb (monthOf day =? num m - 1) || negb (dateOf day =? num d)
      then temporalError ["date "; dq; text; dq; " is outside 0001-01-01 to 9999-12-31 or is not a calendar date"]
      else Ok text
  | _ => temporalError ["date "; dq; text; dq; " is not in the form YYYY-MM-DD"]
  end.

(** The text [/^(\d{2}):(\d{2}):(\d{2})(?:\.(\d{1,6}))?$/]: the fraction is empty when there is none. *)
Definition readTimeText (s : string) : option (string * string * string * string) :=
  '(h, s) ← digitsN 2 s; s ← char_in [":"%char] s; '(mi, s) ← digitsN 2 s; s ← char_in [":"%char] s; '(sec, s) ← digitsN 2 s;
  match s with
  | EmptyString => Some (h, mi, sec, "")
  | String a f => if bool_decide (a = "."%char) && negb (bool_decide (f = "")) && all_digits f && (String.length f <=? 6)%nat then Some (h, mi, sec, f) else None
  end.

Definition timeText (text : string) : res string :=
  match readTimeText text with
  | None => temporalError ["time "; dq; text; dq; " is not in the form HH:MM:SS"]
  | Some (h, mi, sec, f) =>
      if (23 <? num h) || (59 <? num mi) || (59 <? num sec) then temporalError ["time "; dq; text; dq; " is outside 00:00:00 to 23:59:59.999999"]
      else Ok (str [h; ":"; mi; ":"; sec; "."; padEnd f 6 "0"])
  end.

Definition datetimeText (text : string) : res string :=
  match split_on " " text with
  | [date; time] => d ← dateText date; t ← timeText time; Ok (str [d; " "; t])
  | _ => temporalError ["datetime "; dq; text; dq; " is not in the form YYYY-MM-DD HH:MM:SS"]
  end.

Inductive TemporalKind := TDate | TTime | TDatetime.

#[global] Instance TemporalKind_eq_dec : EqDecision TemporalKind. Proof. solve_decision. Defined.

(** [text.split(/[( ]/)[0]] *)
Fixpoint typeHead (s : string) : string :=
  match s with EmptyString => "" | String a s => if decide (a = "("%char \/ a = " "%char) then "" else String a (typeHead s) end.

Definition temporalKind (dialect : DriverName) (type : string) : option TemporalKind :=
  let head := typeHead (baseType type) in
  match dialect with
  | MySql => if decide (head = "DATE") then Some TDate else if decide (head = "TIME") then Some TTime else if decide (head = "DATETIME") then Some TDatetime else None
  | Postgres => if decide (head = "DATE") then Some TDate else if decide (head = "TIME") then Some TTime else if decide (head = "TIMESTAMP") then Some TDatetime else None
  | Sqlite => None
  end.

(** [/\((\d+)\)/.exec(text)?.[1]] *)
Fixpoint parenDigits (s : string) : option string :=
  match s with
  | EmptyString => None
  | String a rest =>
      let here := if decide (a = "("%char) then match digitRun rest with (d, String ")" _) => if decide (d = "") then None else Some d | _ => None end else None in
      match here with Some d => Some d | None => parenDigits rest end
  end.

Definition declaredPrecision (dialect : DriverName) (type : string) : Z :=
  match parenDigits type with Some d => digits_val 0 d | None => match dialect with Postgres => 6 | _ => 0 end end.

(** The text before the last point and the text behind it. *)
Definition splitLast (text : string) : string * string :=
  match rev (split_on "." text) with digits :: rest => (join "." (rev rest), digits) | [] => ("", "") end.

Definition describedTemporal (value : string) (kind : TemporalKind) (precision : Z) : res string :=
  match kind with
  | TDate => dateText value
  | _ =>
      text ← (match kind with TTime => timeText value | _ => datetimeText value end);
      let '(head, digits) := splitLast text in
      let p := Z.to_nat precision in
      if negb (bool_decide (String.substring p (String.length digits - p) digits = repeat_str "0" (String.length digits - p)))
      then Err (OrmError GRID_TEMPORAL_PRECISION (str ["temporal value "; dq; value; dq; " has more fraction digits than its precision "; pretty precision]))
      else Ok (if precision =? 0 then head else str [head; "."; String.substring 0 p digits])
  end.

(** ** Grid cells *)

Definition int64Range (n : Z) : bool := (- 2 ^ 63 <=? n) && (n <=? 2 ^ 63 - 1).

Definition outsideSigned (n : Z) : list string := ["integer "; pretty n; " is outside the signed 64-bit range"].

Definition sqliteGridCell (value : JsValue) : res CatalogGridCell :=
  match value with
  | JNull => Ok GNull
  | JBigint n => if int64Range n then Ok (GInteger n) else valueError (outsideSigned n)
  | JString s => Ok (GText s)
  | JBytes l => Ok (GBinary l)
  | v => if isNumber v then Ok (GFloat64 (float64Bits v)) else valueError ["unsupported driver value of type "; typeof v]
  end.

(** The cell of an integer by its native type. *)
Definition integerCell (type : string) (n : Z) : res CatalogGridCell :=
  if ends_with unsignedSuffix type then
    if (0 <=? n) && (n <=? 2 ^ 64 - 1) then Ok (GUnsigned n) else valueError ["unsigned integer "; pretty n; " is outside the 64-bit range"]
  else if int64Range n then Ok (GInteger n) else valueError (outsideSigned n).

(** The text [/^-?\d+(\.\d+)?$/] *)
Definition isDecimalText (s : string) : bool :=
  let body := match s with String "-" rest => rest | _ => s end in
  match split_on "." body with
  | [w] => negb (bool_decide (w = "")) && all_digits w
  | [w; f] => negb (bool_decide (w = "")) && all_digits w && negb (bool_decide (f = "")) && all_digits f
  | _ => false
  end.

(** The cell of a text by its native type. *)
Definition textCell (value type : string) (dialect : DriverName) : res CatalogGridCell :=
  let base := baseType type in
  let unsupported := valueError ["grid cell of native type "; dq; type; dq; " is not supported"] in
  if includes base INTEGER_TYPES then n ← integerOf (JString value) type; integerCell type n
  else if includes base FLOAT32_TYPES then bits ← float32BitsOfText value; Ok (GFloat32 bits)
  else if includes base FLOAT64_TYPES then n ← floatNumber value type; Ok (GFloat64 (float64Bits n))
  else if includes base DECIMAL_TYPES then if isDecimalText value then Ok (GDecimal value) else unsupported
  else if includes base TEXT_TYPES then Ok (GText value)
  else
    match dialect with
    | MySql =>
        if decide (base = "DATE") then t ← dateText value; Ok (GDate t)
        else if decide (base = "TIME") then t ← timeText value; Ok (GTime t)
        else if decide (base = "DATETIME") then t ← datetimeText value; Ok (GDatetime t)
        else unsupported
    | Postgres =>
        if decide (base = "DATE") then t ← dateText value; Ok (GDate t)
        else if decide (base = "TIME") then t ← timeText value; Ok (GTime t)
        else if decide (base = "TIMESTAMP") then t ← datetimeText value; Ok (GDatetime t)
        else unsupported
    | Sqlite => unsupported
    end.

Definition gridCell (value : JsValue) (column : DriverColumn) (dialect : DriverName) : res CatalogGridCell :=
  let type := dc_type column in
  let base := baseType type in
  let unsupported := valueError ["grid cell of native type "; dq; type; dq; " is not supported"] in
  match value, dialect with
  | JNull, _ => Ok GNull
  | _, Sqlite => sqliteGridCell value
  | JBytes l, _ => if includes base BINARY_TYPES then Ok (GBinary l) else unsupported
  | JBool b, _ => if decide (base = "BOOL") then Ok (GBoolean b) else unsupported
  | JBigint n, _ => if includes base INTEGER_TYPES then integerCell type n else unsupported
  | JString s, _ => textCell s type dialect
  | v, _ =>
      if isNumber v then
        if includes base FLOAT32_TYPES then valueError ["single-precision "; type; " arrived as a number; it must arrive as its exact text"]
        else if includes base FLOAT64_TYPES then Ok (GFloat64 (float64Bits v))
        else match integerNumber v with
             | Some n => if includes base INTEGER_TYPES then integerCell type n else unsupported
             | None => unsupported
             end
      else unsupported
  end.

(** ** Described tables *)

(** Whether [/\([0-6]\)/] matches the whole text, which may be empty. *)
Definition optionalPrecision (s : string) : bool := includes s ["";"(0)";"(1)";"(2)";"(3)";"(4)";"(5)";"(6)"].

(** What is before and behind [part], when [s] starts with [prefix] and ends with [suffix]. *)
Definition between_ (prefix suffix s : string) : option string :=
  if starts_with prefix s && ends_with suffix s && (String.length prefix + String.length suffix <=? String.length s)%nat
  then Some (String.substring (String.length prefix) (String.length s - String.length prefix - String.length suffix) s) else None.

Definition zonedType (dialect : DriverName) (nativeType : string) : bool :=
  let native := toLowerCase (trim nativeType) in
  let matches prefix suffix := match between_ prefix suffix native with Some part => optionalPrecision part | None => false end in
  match dialect with
  | MySql => matches "timestamp" ""
  | Postgres => matches "timestamp" " with time zone" || matches "time" " with time zone"
  | Sqlite => false
  end.

(** [undefined], or null or a boolean. *)
Definition describedBoolean (plain : CatalogValue) (described : CatalogColumn) (dialect : DriverName) : res (option CatalogValue) :=
  let native := toLowerCase (trim (cc_nativeType described)) in
  let isBoolean := match dialect with MySql => bool_decide (native = "tinyint(1)") | _ => bool_decide (native = "boolean") end in
  if negb isBoolean then Ok None
  else
    match plain with
    | JNull | JBool _ => Ok (Some plain)
    | JInt 0 | JNegZero => Ok (Some (JBool false))
    | JInt 1 => Ok (Some (JBool true))
    | v => valueError [cc_name described; " holds "; stringOf v; ", not a boolean"]
    end.

(** [valid(check)] of a check that throws [GRID_TEMPORAL_VALUE] alone. *)
Definition valid (r : res string) : bool := match r with Ok _ => true | Err _ => false end.

Definition dbspecTime (text : string) : bool :=
  let digits := match split_on "." text with _ :: d :: _ => Some d | _ => None end in
  let whole := default "" (head (split_on "." text)) in
  (String.length whole =? 8)%nat
  && match digits with Some d => negb (bool_decide (d = "")) && all_digits d && (String.length d <=? 6)%nat | None => true end
  && valid (timeText whole).
Definition dbspecDate (text : string) : bool := (String.length text =? 10)%nat && valid (dateText text).
Definition dbspecTemporal (kind : TemporalKind) (text : string) : bool :=
  match kind with
  | TDate => dbspecDate text
  | TTime => dbspecTime text
  | TDatetime => match split_on " " text with [d; t] => dbspecDate d && dbspecTime t | _ => false end
  end.

Definition kindText (kind : TemporalKind) : string := match kind with TDate => "date" | TTime => "time" | TDatetime => "datetime" end.

Definition sqliteTemporal (plain : CatalogValue) (described : CatalogColumn) : res CatalogValue :=
  let declared := toUpperCase (cc_nativeType described) in
  let kind := if decide (declared = "DATE") then Some TDate else if decide (declared = "TIME") then Some TTime
              else if decide (declared = "DATETIME") then Some TDatetime else None in
  match kind, plain with
  | None, _ => Ok plain
  | _, JNull => Ok JNull
  | Some kind, v =>
      let no := temporalError [cc_name described; " holds a value that is not a dbspec "; kindText kind] in
      match v with
      | JString text =>
          if negb (dbspecTemporal kind text) then no
          else if decide (kind = TDate) then Ok plain
          else
            let fixed := default 0 (cc_checkPrecision described) in
            let digits := fractionDigits text in
            if negb (digits =? fixed)
            then Err (OrmError GRID_TEMPORAL_PRECISION (str [cc_name described; " holds "; pretty digits; " fraction digits; its dbspec CHECK fixes "; pretty fixed]))
            else Ok plain
      | _ => no
      end
  end.

Definition describedValue (value : JsValue) (column : DriverColumn) (described : option CatalogColumn) (dialect : DriverName) : res CatalogValue :=
  plain ← plainValue value column;
  match described with
  | None => Ok plain
  | Some d =>
      if negb (bool_decide (plain = JNull)) && zonedType dialect (cc_nativeType d)
      then valueError [cc_name d; " of type "; cc_nativeType d; " follows a time zone, which dbspec does not declare"]
      else
        boolean ← describedBoolean plain d dialect;
        match boolean, dialect, plain with
        | Some b, _, _ => Ok b
        | None, Sqlite, _ => sqliteTemporal plain d
        | None, _, JString text =>
            match temporalKind dialect (cc_nativeType d) with
            | None => Ok plain
            | Some kind => t ← describedTemporal text kind (declaredPrecision dialect (cc_nativeType d)); Ok (JString t)
            end
        | None, _, _ => Ok plain
        end
  end.

(** *** The CHECK of a SQLite column *)

(** The text after [CHECK\s*(] in any case at the front. *)
Definition afterCheck (s : string) : option string :=
  if bool_decide (toUpperCase (String.substring 0 5 s) = "CHECK") then
    match trimStart (String.substring 5 (String.length s - 5) s) with String "(" rest => Some rest | _ => None end
  else None.

(** The clause up to the parenthesis that closes [depth] open ones; without one,
    the text but its last character. *)
Fixpoint clauseText (depth : nat) (s : string) : string :=
  match s with
  | EmptyString => ""
  | String c rest =>
      let depth' := if decide (c = "("%char) then S depth else if decide (c = ")"%char) then pred depth else depth in
      match depth', rest with
      | O, _ => ""
      | _, EmptyString => ""
      | _, _ => String c (clauseText depth' rest)
      end
  end.

(** Every match of the opening, searched from behind the one before. *)
Fixpoint checkClausesFrom (fuel : nat) (s : string) : list string :=
  match fuel with
  | O => []
  | S fuel =>
      match afterCheck s with
      | Some rest => clauseText 1 rest :: checkClausesFrom fuel rest
      | None => match s with EmptyString => [] | String _ s => checkClausesFrom fuel s end
      end
  end.
Definition checkClauses (tableSql : string) : list string := checkClausesFrom (S (String.length tableSql)) tableSql.

(** The groups [[0-9]] at the front, with what follows them. *)
Fixpoint digitGroups (fuel : nat) (s : string) : Z * string :=
  match fuel with
  | O => (0, s)
  | S fuel => if starts_with "[0-9]" s then let '(n, r) := digitGroups fuel (String.substring 5 (String.length s - 5) s) in (n + 1, r) else (0, s)
  end.

(** The number of groups [[0-9]] of the first GLOB pattern that holds nothing else. *)
Fixpoint globDigits (s : string) : option Z :=
  let here :=
    if starts_with "GLOB '" s then
      match digitGroups (String.length s) (String.substring 6 (String.length s - 6) s) with (n, String "'" _) => Some n | _ => None end
    else None in
  match here, s with
  | Some n, _ => Some n
  | None, String _ s => globDigits s
  | None, EmptyString => None
  end.

Fixpoint firstPrecision (quoted : string) (clauses : list string) : option Z :=
  match clauses with
  | [] => None
  | clause :: clauses =>
      if contains quoted clause then
        match globDigits clause with
        | Some n => Some n
        | None => if containsAny ["IS time("; "IS datetime("] clause then Some 0 else firstPrecision quoted clauses
        end
      else firstPrecision quoted clauses
  end.

Definition checkPrecisionOf (tableSql column : string) : option Z :=
  firstPrecision (str [dq; replace_all dqc (dq +:+ dq) column; dq]) (checkClauses tableSql).

(** ** Sizes and keys *)

Definition sizeOf (value : JsValue) : Z := match value with JString s => slen s | JBytes l => Z.of_nat (length l) | _ => 8 end.

Definition gridSize (cell : CatalogGridCell) : Z :=
  match cell with
  | GText v | GDecimal v | GDate v | GTime v | GDatetime v => slen v
  | GBinary l => Z.of_nat (length l)
  | _ => 8
  end.

Definition cellKey (cell : JsValue) : res string :=
  match cell with
  | JNull => Ok "n"
  | JBool b => Ok (if b then "b1" else "b0")
  | JNonFinite _ => Err (OrmError ROW_SNAPSHOT_INVALID "non-finite number cell")
  | JNegZero => Ok "d-0"
  | JInt n => Ok (str ["d"; pretty n])
  | JFraction t => Ok (str ["d"; t])
  | JBigint n => Ok (str ["i"; pretty n])
  | JString s => Ok (str ["s"; pretty (slen s); ":"; s])
  | JBytes l => Ok (str ["x"; hexText l])
  | v => Err (OrmError ROW_SNAPSHOT_INVALID (str ["unsupported cell type "; typeof v]))
  end.

Definition sameCell (a b : JsValue) : res bool := x ← cellKey a; y ← cellKey b; Ok (bool_decide (x = y)).

(** [a.length === b.length && a.every((cell, index) => sameCell(cell, b[index]))] *)
Fixpoint everyCell (a b : list JsValue) : res bool :=
  match a, b with
  | x :: a, y :: b => same ← sameCell x y; if (same : bool) then everyCell a b else Ok false
  | _, _ => Ok true
  end.
Definition sameRow (a b : list JsValue) : res bool := if (length a =? length b)%nat then everyCell a b else Ok false.

Example check_precisions :
  checkPrecisionOf "CREATE TABLE t (a TIME, CONSTRAINT c CHECK (a IS NULL OR a GLOB '[0-9][0-9]') , CHECK  (a IS time(a)))" "a" = None /\
  (let q := dq in checkPrecisionOf (str ["CREATE TABLE t (x, check("; q; "a"; q; " GLOB '[0-9][0-9][0-9]'), CHECK ("; q; "b"; q; " IS time("; q; "b"; q; ")))"]) "a" = Some 3 /\
   checkPrecisionOf (str ["CREATE TABLE t (x, check("; q; "a"; q; " GLOB '[0-9]'), CHECK ("; q; "b"; q; " IS time("; q; "b"; q; ")))"]) "b" = Some 0).
Proof. by vm_compute. Qed.

Example described_values :
  [describedTemporal "12:30:45.1200" TTime 2; describedTemporal "2024-02-29 23:59:59" TDatetime 3; describedTemporal "2023-02-29" TDate 0;
   describedTemporal "12:30:45.125" TTime 2] =
  [Ok "12:30:45.12"; Ok "2024-02-29 23:59:59.000"; Err (OrmError GRID_TEMPORAL_VALUE (str ["date "; dq; "2023-02-29"; dq; " is outside 0001-01-01 to 9999-12-31 or is not a calendar date"]));
   Err (OrmError GRID_TEMPORAL_PRECISION (str ["temporal value "; dq; "12:30:45.125"; dq; " has more fraction digits than its precision 2"]))].
Proof. by vm_compute. Qed.
