(* ===== verification/Faults.v ===== *)
(** * Errors and programs of the code that talks to a database

    The errors that a method throws, an [OrmError] with its cause and rollback
    error among them ([runtime_error.ts]), the mapping of a driver's error to one of
    them ([driver.ts]), and programs over a world: a call returns or throws and
    leaves the world that later calls see. *)

From S2P Require Import Prelude Lex Values Render CatalogValue.
From Stdlib Require Import Lia.

(** ** Errors *)

Definition codeName (c : Code) : string :=
  match c with
  | IR_INVALID => "IR_INVALID" | VERSION_MISMATCH => "VERSION_MISMATCH" | SCHEMA_HASH_MISMATCH => "SCHEMA_HASH_MISMATCH" | SCHEMA_INVALID => "SCHEMA_INVALID"
  | CONFIG => "CONFIG" | COLUMN_UNKNOWN => "COLUMN_UNKNOWN" | COLUMN_ALIAS_CONFLICT => "COLUMN_ALIAS_CONFLICT" | COLUMN_UNSELECTED => "COLUMN_UNSELECTED"
  | ENTITY_UNKNOWN => "ENTITY_UNKNOWN" | ENTITY_NOT_JOINED => "ENTITY_NOT_JOINED" | FUNCTION_UNKNOWN => "FUNCTION_UNKNOWN" | INDEX_UNKNOWN => "INDEX_UNKNOWN"
  | OPERATOR_NOT_ALLOWED => "OPERATOR_NOT_ALLOWED" | OPERATOR_UNKNOWN => "OPERATOR_UNKNOWN" | OR_AT_GROUP_START => "OR_AT_GROUP_START" | EMPTY_IN => "EMPTY_IN"
  | LIMIT_IN_RELATION => "LIMIT_IN_RELATION" | CAPABILITY_UNSUPPORTED => "CAPABILITY_UNSUPPORTED" | DIALECT_UNKNOWN => "DIALECT_UNKNOWN" | INTERNAL => "INTERNAL"
  | CODEC_ENCODE => "CODEC_ENCODE" | CODEC_DECODE => "CODEC_DECODE" | CODEC_UNSUPPORTED => "CODEC_UNSUPPORTED" | CANCELED => "CANCELED" | ROLLBACK => "ROLLBACK"
  | QUERY_READ_ONLY => "QUERY_READ_ONLY" | QUERY_LIMIT_INVALID => "QUERY_LIMIT_INVALID" | CATALOG_LIMIT => "CATALOG_LIMIT" | CATALOG_VALUE => "CATALOG_VALUE"
  | CATALOG_PARAM => "CATALOG_PARAM" | CATALOG_CLOSED => "CATALOG_CLOSED" | TABLE_METADATA_INVALID => "TABLE_METADATA_INVALID"
  | TABLE_REFERENCE_INVALID => "TABLE_REFERENCE_INVALID" | TABLE_NOT_FOUND => "TABLE_NOT_FOUND" | TABLE_KIND_UNSUPPORTED => "TABLE_KIND_UNSUPPORTED"
  | TABLE_NAMESPACE_UNSUPPORTED => "TABLE_NAMESPACE_UNSUPPORTED" | TABLE_NAMESPACE_UNAVAILABLE => "TABLE_NAMESPACE_UNAVAILABLE"
  | TABLE_PAGE_INVALID => "TABLE_PAGE_INVALID" | TABLE_PAGE_UNSUPPORTED => "TABLE_PAGE_UNSUPPORTED" | TABLE_PAGE_METADATA_CHANGED => "TABLE_PAGE_METADATA_CHANGED"
  | ROW_SNAPSHOT_INVALID => "ROW_SNAPSHOT_INVALID" | ROW_SNAPSHOT_LIMIT => "ROW_SNAPSHOT_LIMIT" | ROW_INSERT_INVALID => "ROW_INSERT_INVALID"
  | ROW_INSERT_IDENTITY_REQUIRED => "ROW_INSERT_IDENTITY_REQUIRED" | ROW_UPDATE_INVALID => "ROW_UPDATE_INVALID" | ROW_UPDATE_LIMIT => "ROW_UPDATE_LIMIT"
  | ROW_CONFLICT => "ROW_CONFLICT" | ROW_IDENTITY_AMBIGUOUS => "ROW_IDENTITY_AMBIGUOUS" | ROW_SCHEMA_CHANGED => "ROW_SCHEMA_CHANGED"
  | ROW_WRITE_MISMATCH => "ROW_WRITE_MISMATCH" | ROW_MUTATION_UNSUPPORTED => "ROW_MUTATION_UNSUPPORTED" | ROW_COMMIT_REJECTED => "ROW_COMMIT_REJECTED"
  | ROW_COMMIT_INDETERMINATE => "ROW_COMMIT_INDETERMINATE" | ROW_ROLLBACK_FAILED => "ROW_ROLLBACK_FAILED" | GRID_TEMPORAL_VALUE => "GRID_TEMPORAL_VALUE"
  | GRID_TEMPORAL_PRECISION => "GRID_TEMPORAL_PRECISION" | LOCK_NOT_AVAILABLE => "LOCK_NOT_AVAILABLE" | DEADLOCK => "DEADLOCK" | DUPLICATE_KEY => "DUPLICATE_KEY"
  | FOREIGN_KEY => "FOREIGN_KEY" | CONSTRAINT => "CONSTRAINT" | READ_ONLY => "READ_ONLY" | CONNECTION_LOST => "CONNECTION_LOST" | DRIVER => "DRIVER"
  | SUBSCRIBER => "SUBSCRIBER" | FAULT => "FAULT" | NO_ROWS => "NO_ROWS" | OPTIMISTIC_LOCK => "OPTIMISTIC_LOCK"
  end.

(** What a method throws: an [OrmError] with its cause and its rollback error, an
    error of a database driver with the members that [driverError] reads, an error
    of the client's code, or an [AggregateError]. *)
Inductive fault :=
  | Orm (code : Code) (message : string) (cause rollback : option fault)
  | Driver_ (code : option string) (errcode errno : option Z) (fatal : bool) (message : string)
  | Script (e : err)
  | Aggregate (errors : list fault) (message : string).

(** [messageOf(error)] *)
Definition faultMessage (f : fault) : string :=
  match f with
  | Orm code message _ _ => str [codeName code; ": "; message]
  | Driver_ _ _ _ _ message => message
  | Script (OrmError code message) => str [codeName code; ": "; message]
  | Script (JsError message) | Aggregate _ message => message
  | Script _ => ""
  end.

Definition dialectName (dialect : DriverName) : string := match dialect with MySql => "mysql" | Postgres => "postgres" | Sqlite => "sqlite" end.

Section driver.
Variable sqliteResultCodeSuffix : Z -> string.

Definition connectionLost (name : DriverName) (code : option string) (errno : option Z) (fatal : bool) : bool :=
  match name with
  | MySql =>
      bool_decide (errno = Some 4031) ||
      (fatal && match code with None => true | Some c => includes c ["PROTOCOL_CONNECTION_LOST"; "ECONNRESET"; "EPIPE"] end)
  | Postgres => match code with Some c => starts_with "08" c || includes c ["57P01"; "57P02"; "57P05"] | None => false end
  | Sqlite => false
  end.

Definition sqliteBusy (name : DriverName) (errcode : option Z) : bool :=
  match name, errcode with Sqlite, Some n => Z.land n 255 =? 5 | _, _ => false end.

Definition given (code : option string) (codes : list string) : bool := match code with Some c => includes c codes | None => false end.
Definition numbered (errcode : option Z) (codes : list Z) : bool := match errcode with Some n => includes n codes | None => false end.

Definition driverError (name : DriverName) (error : fault) : fault :=
  match error with
  | Orm _ _ _ _ => error
  | Script (OrmError code message) => Orm code message None None
  | Driver_ code errcode errno fatal text =>
      let suffix := match name, errcode with Sqlite, Some n => sqliteResultCodeSuffix n | _, _ => "" end in
      let message := text +:+ suffix in
      let named := str [dialectName name; ": "; message] in
      let made c m := Orm c m (Some error) None in
      if connectionLost name code errno fatal then made CONNECTION_LOST named
      else if bool_decide (name = MySql) && match code with Some c => containsAny ["CERT"; "UNABLE_TO_VERIFY"; "SELF_SIGNED"; "HANDSHAKE_SSL_ERROR"] c | None => false end
      then made CONFIG (str ["mysql TLS connection failed: "; message])
      else if given code ["ER_LOCK_WAIT_TIMEOUT"; "ER_QUERY_INTERRUPTED"; "ER_QUERY_TIMEOUT"; "57014"] || numbered errcode [9] || sqliteBusy name errcode
      then made CANCELED named
      else if given code ["ER_LOCK_NOWAIT"; "55P03"] || numbered errcode [3572] then made LOCK_NOT_AVAILABLE named
      else if given code ["ER_DUP_ENTRY"; "23505"] || numbered errcode [2067; 1555] then made DUPLICATE_KEY named
      else if given code ["ER_NO_REFERENCED_ROW_2"; "ER_ROW_IS_REFERENCED_2"; "23503"] || numbered errcode [787] ||
              (numbered errcode [1811] && contains "FOREIGN KEY constraint failed" message) then made FOREIGN_KEY named
      else if given code ["ER_LOCK_DEADLOCK"; "40P01"; "40001"] then made DEADLOCK named
      else if given code ["ER_OPTION_PREVENTS_STATEMENT"; "ER_CANT_EXECUTE_IN_READ_ONLY_TRANSACTION"; "25006"] ||
              match errcode with Some n => Z.land n 255 =? 8 | None => false end then made READ_ONLY named
      else if given code ["ER_CHECK_CONSTRAINT_VIOLATED"; "ER_CONSTRAINT_FAILED"; "23514"] || numbered errcode [275] then made CONSTRAINT named
      else made DRIVER named
  | _ => Orm DRIVER (str [dialectName name; ": "; faultMessage error]) (Some error) None
  end.
End driver.

(** ** Programs *)

Definition Run (S A : Type) := S -> (A + fault) * S.

#[global] Instance Run_ret {S} : MRet (Run S) := fun A a s => (inl a, s).
#[global] Instance Run_bind {S} : MBind (Run S) := fun A B k m s => match m s with (inl a, s') => k a s' | (inr e, s') => (inr e, s') end.

Definition raise {S A} (e : fault) : Run S A := fun s => (inr e, s).
Definition refuse {S A} (code : Code) (message : string) : Run S A := raise (Orm code message None None).
Definition refuse_if {S} (b : bool) (code : Code) (message : string) : Run S unit := if b then refuse code message else mret tt.
Definition tried {S A} (m : Run S A) : Run S (A + fault) := fun s => let '(r, s') := m s in (inl r, s').

(** A result of the pure functions; their [OrmError] is one of this file. *)
Definition faultOf (e : err) : fault := match e with OrmError code message => Orm code message None None | e => Script e end.
Definition ofRes {S A} (r : res A) : Run S A := match r with Ok a => mret a | Err e => raise (faultOf e) end.

(** A loop with a body that may throw. *)
Section each.
Context {S A : Type} (f : A -> Run S unit).
Fixpoint each (l : list A) : Run S unit := match l with [] => mret tt | x :: l => _ ← f x; each l end.
End each.

(** [rollbackFailed] *)
Definition rollbackFailed (cause rollback : fault) : fault :=
  Orm ROLLBACK (str ["transaction failed ("; faultMessage cause; ") and rollback failed ("; faultMessage rollback; ")"]) (Some cause) (Some rollback).

(** [joinedErrors] *)
Definition joinedErrors (errors : list fault) : option fault :=
  match errors with
  | [] => None
  | [e] => Some e
  | e :: _ => Some (Orm CONFIG (join "; " (map faultMessage errors)) (Some e) None)
  end.

(** [error.code] *)
Definition codeOf (f : fault) : option Code := match f with Orm code _ _ _ => Some code | Script (OrmError code _) => Some code | _ => None end.
