(* ===== verification/CatalogRows.v ===== *)
(** * Rows and descriptors of the catalog connection ([catalog.ts])

    The names and statements, the checks of parameters, descriptors and
    assignments, and the revision of a row.  An [OrmError] is thrown with its
    message, which [orm] writes with its code in front where another error takes
    it in.  SHA-256 is a parameter of [revisionOf]. *)

From S2P Require Import Prelude Lex Values Decimal Times BindCheck Float32 Render CatalogValue.
From Stdlib Require Import Lia.

Section loop.
Context {A B S : Type} (f : S -> nat -> A -> res (B * S)).
(** [values.map((value, position) => ...)] of a callback that keeps a state. *)
Fixpoint mapWith (s : S) (i : nat) (l : list A) : res (list B) :=
  match l with [] => Ok [] | x :: l => '(y, s) ← f s i x; ys ← mapWith s (Datatypes.S i) l; Ok (y :: ys) end.
End loop.

Section each.
Context {A : Type} (f : nat -> A -> res unit).
Fixpoint eachFrom (i : nat) (l : list A) : res unit := match l with [] => Ok tt | x :: l => _ ← f i x; eachFrom (S i) l end.
End each.

(** ** Names and statements *)

Definition refError {A} : res A := Err (OrmError TABLE_REFERENCE_INVALID "expected 1..1024 UTF-8 bytes without NUL").

Definition checkName (name : string) : res unit :=
  if bool_decide (name = "") || (1024 <? slen name) || has_char (ascii_of_nat 0) name then refError else Ok tt.

Definition checkTable (ref : CatalogTableRef) : res unit := _ ← checkName (ref_namespace ref); checkName (ref_name ref).

Definition quoteIdent (name : string) (dialect : DriverName) : string :=
  let mark := match dialect with MySql => "`"%char | _ => dqc end in
  str [String mark ""; replace_all mark (String mark (String mark "")) name; String mark ""].

Definition quoteList (names : list string) (dialect : DriverName) : string := join "," (map (fun n => quoteIdent n dialect) names).

Definition qualified (ref : CatalogTableRef) (dialect : DriverName) : string :=
  str [quoteIdent (ref_namespace ref) dialect; "."; quoteIdent (ref_name ref) dialect].

Definition columnNames (metadata : CatalogTableMetadata) : list string := map cc_name (md_columns metadata).

(** A change: the index of the column and its new value. *)
Record Change := mkChange { ch_index : nat; ch_value : JsValue }.

Definition mysqlInputLocatorSql (metadata : CatalogTableMetadata) (changes : list Change) (dialect : DriverName) : res string :=
  predicates ← mapR (fun change =>
    match md_columns metadata !! ch_index change with
    | None => Err (OrmError ROW_SCHEMA_CHANGED "insertion descriptor changed")
    | Some column =>
        let quoted := quoteIdent (cc_name column) dialect in
        Ok (if decide (ch_value change = JNull) then str [quoted; " IS NULL"] else str [quoted; "=?"])
    end) changes;
  Ok (str ["SELECT "; quoteList (columnNames metadata) dialect; " FROM "; qualified (md_table metadata) dialect; " WHERE "; join " AND " predicates; " LIMIT 2 FOR UPDATE"]).

Definition mysqlInputLocatorParams (changes : list Change) : list JsValue :=
  map ch_value (filter (fun change => ch_value change <> JNull) changes).

Definition placeholder (index : nat) (dialect : DriverName) : string :=
  match dialect with Postgres => str ["$"; pretty (Z.of_nat index)] | _ => "?" end.

(** [<quoted>=<placeholder>] of each name, numbered from [first]. *)
Definition assignmentsFrom (first : nat) (names : list string) (dialect : DriverName) : list string :=
  imap (fun i name => str [quoteIdent name dialect; "="; placeholder (first + i) dialect]) names.

(** ** Parameters *)

Definition isBound (param : JsValue) : bool :=
  match param with JNull | JBool _ | JString _ | JBigint _ | JBytes _ | JInt _ | JNegZero | JFraction _ => true | _ => false end.

Definition checkParams (params : list JsValue) (code : Code) : res (list JsValue) :=
  mapWith (fun (_ : unit) i param =>
    if isBound param then Ok (param, tt)
    else Err (OrmError code (str ["parameter "; pretty (Z.of_nat (i + 1)); " has unsupported type "; typeof param; " or is not finite"]))) tt 0 params.

(** ** Descriptors *)

Definition indexOfColumn (metadata : CatalogTableMetadata) (name : string) : option nat :=
  fst <$> list_find (fun c => cc_name c = name) (md_columns metadata).

Definition METADATA_ROWS : nat := 2048.
Definition METADATA_BYTES : Z := Z.shiftl 4 20.
Definition PAGE_BYTES : Z := Z.shiftl 8 20.
Definition SNAPSHOT_BYTES : Z := Z.shiftl 8 20.
Definition DEFAULT_QUERY_ROWS : Z := 100000.
Definition DEFAULT_QUERY_BYTES : Z := Z.shiftl 64 20.

Definition invalidDescriptor {A} (reason : string) : res A := Err (OrmError ROW_SNAPSHOT_INVALID (str ["invalid original row or descriptor: "; reason])).

(** [messageOf(error)] of the error of [checkName]. *)
Definition refMessage : string := "TABLE_REFERENCE_INVALID: expected 1..1024 UTF-8 bytes without NUL".

Definition descriptorKeys (metadata : CatalogTableMetadata) : res (list nat) :=
  if negb (bool_decide (md_kind metadata = KTable)) && negb (bool_decide (md_kind metadata = KPartitioned)) then invalidDescriptor "the relation is not a table"
  else if negb (md_reliableRowIdentity metadata) || (length (md_primaryKey metadata) =? 0)%nat || (length (md_columns metadata) =? 0)%nat
          || (METADATA_ROWS <? length (md_columns metadata))%nat then invalidDescriptor "no reliable row identity"
  else
    _ ← mapWith (fun names _ column =>
      match checkName (cc_name column) with
      | Err _ => invalidDescriptor refMessage
      | Ok _ =>
          if includes (cc_name column) names || has_char (ascii_of_nat 0) (cc_nativeType column) then invalidDescriptor "duplicate column or invalid native type"
          else Ok (tt, cc_name column :: names)
      end) [] 0 (md_columns metadata);
    mapWith (fun keys _ key =>
      if includes key keys then invalidDescriptor "duplicate key column"
      else
        match list_find (fun c => cc_name c = key) (md_columns metadata) with
        | Some (index, column) => if cc_nullable column then invalidDescriptor "key column is missing or nullable" else Ok (index, key :: keys)
        | None => invalidDescriptor "key column is missing or nullable"
        end) [] 0 (md_primaryKey metadata).

Definition checkCells (metadata : CatalogTableMetadata) (cells : list JsValue) : res unit :=
  if negb (length cells =? length (md_columns metadata))%nat
  then Err (OrmError ROW_SNAPSHOT_INVALID (str ["row has "; pretty (Z.of_nat (length cells)); " cells for "; pretty (Z.of_nat (length (md_columns metadata))); " columns"]))
  else
    eachFrom (fun index cell =>
      match md_columns metadata !! index with
      | Some column =>
          if bool_decide (cell = JNull) && negb (cc_nullable column)
          then Err (OrmError ROW_SNAPSHOT_INVALID (str ["NULL in non-null column "; dq; cc_name column; dq]))
          else _ ← cellKey cell; Ok tt
      | None => _ ← cellKey cell; Ok tt
      end) 0 cells.

(** *** The JSON of a descriptor, its members in the order that [describe] builds *)

Definition jsonMembers (l : list (string * string)) : string := str ["{"; join "," (map (fun m => str [jsonString (fst m); ":"; snd m]) l); "}"].
Definition jsonList (l : list string) : string := str ["["; join "," l; "]"].
Definition jsonBool (b : bool) : string := if b then "true" else "false".
Definition jsonOption {A} (f : A -> string) (o : option A) : string := match o with Some a => f a | None => "null" end.

Definition kindName (k : CatalogTableKind) : string :=
  match k with
  | KTable => "table" | KPartitioned => "partitioned" | KView => "view" | KMaterializedView => "materialized_view"
  | KForeign => "foreign" | KVirtual => "virtual" | KShadow => "shadow"
  end.

Definition jsonColumn (c : CatalogColumn) : string :=
  jsonMembers [("name", jsonString (cc_name c)); ("nativeType", jsonString (cc_nativeType c)); ("nullable", jsonBool (cc_nullable c));
    ("generated", jsonBool (cc_generated c)); ("automaticKey", jsonBool (cc_automaticKey c));
    ("defaultExpression", jsonOption jsonString (cc_defaultExpression c)); ("expressionDefault", jsonBool (cc_expressionDefault c));
    ("checkPrecision", jsonOption pretty (cc_checkPrecision c))].

Definition jsonMetadata (m : CatalogTableMetadata) : string :=
  jsonMembers [("table", jsonMembers [("namespace", jsonString (ref_namespace (md_table m))); ("name", jsonString (ref_name (md_table m)))]);
    ("kind", jsonString (kindName (md_kind m))); ("columns", jsonList (map jsonColumn (md_columns m)));
    ("primaryKey", jsonList (map jsonString (md_primaryKey m))); ("reliableRowIdentity", jsonBool (md_reliableRowIdentity m))].

Definition sameDescriptor (a b : CatalogTableMetadata) : bool := bool_decide (jsonMetadata a = jsonMetadata b).

Section hash.
Variable sha256 : string -> string.

(** What a revision hashes: the descriptor and the length and key of each cell. *)
Definition revisionText (metadata : CatalogTableMetadata) (cells : list JsValue) : res string :=
  keys ← mapR cellKey cells;
  Ok (jsonMembers [("tag", jsonString "orm-catalog-row-v1"); ("metadata", jsonMetadata metadata)] +:+
      str (map (fun key => str [pretty (slen key); ":"; key]) keys)).

Definition revisionOf (metadata : CatalogTableMetadata) (cells : list JsValue) : res string :=
  encoded ← revisionText metadata cells;
  if SNAPSHOT_BYTES <? slen encoded then Err (OrmError ROW_SNAPSHOT_LIMIT "original row encoding exceeds its budget") else Ok (sha256 encoded).
End hash.

(** ** Assignments *)

Definition isWordByte (a : ascii) : bool := is_lower a || is_upper a || is_digit a || bool_decide (a = "_"%char).

(** Whether the text starts with the word and ends it. *)
Definition startsWord (word s : string) : bool :=
  match after word s with Some EmptyString => true | Some (String a _) => negb (isWordByte a) | None => false end.

Definition declaredTemporalPrecision (column : CatalogColumn) (dialect : DriverName) : option Z :=
  let base := toLowerCase (trim (cc_nativeType column)) in
  if negb (existsb (fun w => startsWord w base) ["time"; "datetime"; "timestamp"]) then None
  else
    match parenDigits base with
    | Some d => Some (digits_val 0 d)
    | None => match dialect with Sqlite => cc_checkPrecision column | Postgres => Some 6 | MySql => Some 0 end
    end.

(** [/\.(\d+)$/.exec(value)?.[1]?.length ?? 0] *)
Definition trailingDigits (value : string) : Z :=
  match rev (split_on "." value) with d :: _ :: _ => if negb (bool_decide (d = "")) && all_digits d then slen d else 0 | _ => 0 end.

(** [/^(?:<names>)\s*\((\d+)\)/i.exec(type)?.[1]] *)
Definition capacityOf (names : list string) (type : string) : option Z :=
  head (omap (fun n =>
    match after n (toLowerCase type) with
    | Some rest =>
        match trimStart rest with
        | String "(" rest => match digitRun rest with (d, String ")" _) => if decide (d = "") then None else Some (digits_val 0 d) | _ => None end
        | _ => None
        end
    | None => None
    end) names).

Definition exceedsDeclaredCapacity (column : CatalogColumn) (value : JsValue) : bool :=
  let bytes := capacityOf ["varbinary"; "binary"] (cc_nativeType column) in
  match value with
  | JString s =>
      match capacityOf ["varchar"; "character varying"] (cc_nativeType column) with
      | Some n => n <? Z.of_nat (codePoints s)
      | None => match bytes with Some n => n <? slen s | None => false end
      end
  | JBytes l => match bytes with Some n => n <? Z.of_nat (length l) | None => false end
  | _ => false
  end.

Record CatalogAssignment := mkAssignment { as_name : string; as_value : JsValue }.

Definition checkChanges (metadata : CatalogTableMetadata) (values : list CatalogAssignment) (code : Code) (dialect : DriverName) : res (list Change) :=
  if ((length values =? 0)%nat && negb (bool_decide (code = ROW_INSERT_INVALID))) || (length (md_columns metadata) <? length values)%nat
  then Err (OrmError code "invalid column assignments")
  else
    _ ← checkParams (map as_value values) CATALOG_PARAM;
    mapWith (fun seen _ assignment =>
      match list_find (fun c => cc_name c = as_name assignment) (md_columns metadata) with
      | None => Err (OrmError code (str ["unknown column "; dq; as_name assignment; dq]))
      | Some (index, column) =>
          let value := as_value assignment in
          let name := cc_name column in
          if includes name seen then Err (OrmError code (str ["duplicate column "; dq; name; dq]))
          else if cc_generated column then Err (OrmError code (str ["generated column "; dq; name; dq; " is not writable"]))
          else if bool_decide (value = JNull) && negb (cc_nullable column) then Err (OrmError code (str ["NULL in non-null column "; dq; name; dq]))
          else if exceedsDeclaredCapacity column value then Err (OrmError code (str ["value exceeds the declared capacity of column "; dq; name; dq]))
          else
            let tooPrecise :=
              match value, declaredTemporalPrecision column dialect with
              | JString s, Some precision => if precision <? trailingDigits s then Some (trailingDigits s, precision) else None
              | _, _ => None
              end in
            match tooPrecise with
            | Some (digits, precision) => Err (OrmError CODEC_ENCODE (str [name; " holds "; pretty digits; " fraction digits; its declared precision is "; pretty precision]))
            | None => Ok (mkChange index value, name :: seen)
            end
      end) [] 0 values.

(** ** Cells of the metadata queries *)

Definition metadataError {A} (parts : list string) : res A := Err (OrmError TABLE_METADATA_INVALID (str parts)).

Definition textOf (value : JsValue) (what : string) : res string :=
  match value with JString s => Ok s | _ => metadataError ["expected text for "; what; ", got "; typeof value] end.

Definition intOf (value : JsValue) (what : string) : res Z :=
  match integerNumber value with Some n => Ok n | None => metadataError ["expected an integer for "; what; ", got "; stringOf value] end.

Definition boolOf (value : JsValue) (what : string) : res bool :=
  match value with
  | JBool b => Ok b
  | JInt 0 | JNegZero => Ok false
  | JInt 1 => Ok true
  | _ => metadataError ["expected a boolean for "; what; ", got "; stringOf value]
  end.

Definition catalogKind (dialect : DriverName) (native : string) : res CatalogTableKind :=
  let kinds :=
    match dialect with
    | MySql => [("BASE TABLE", KTable); ("VIEW", KView); ("SYSTEM VIEW", KView)]
    | Postgres => [("r", KTable); ("v", KView); ("p", KPartitioned); ("m", KMaterializedView); ("f", KForeign)]
    | Sqlite => [("table", KTable); ("view", KView); ("virtual", KVirtual); ("shadow", KShadow)]
    end in
  match assoc native kinds with
  | Some kind => Ok kind
  | None => Err (OrmError TABLE_KIND_UNSUPPORTED (str ["relation kind "; dq; native; dq; " of "; match dialect with MySql => "mysql" | Postgres => "postgres" | Sqlite => "sqlite" end]))
  end.

(** [checkCurrent] *)
Definition checkCurrent (current : list (list JsValue)) (original : list JsValue) : res unit :=
  match current with
  | [] => Err (OrmError ROW_CONFLICT "original row is missing")
  | [row] => same ← sameRow row original; if (same : bool) then Ok tt else Err (OrmError ROW_CONFLICT "original values changed")
  | _ => Err (OrmError ROW_IDENTITY_AMBIGUOUS "key selected multiple rows")
  end.

(** * Cells, rows and revisions of the catalog

    Two cells have one key exactly when they are the same value of one type, so
    rows are compared by value, and the text that a revision hashes tells two rows
    of a table apart. *)

From S2P Require Import Documents Emit DocumentSet Keys DocumentFacts.

(** A cell as a read gives it: bytes are bytes, and the text of a number that is
    not written as an integer has a point or an exponent. *)
Definition cellForm (v : JsValue) : Prop :=
  match v with
  | JBytes l => Forall isByte l
  | JFraction t => has_char "." t = true \/ has_char "e" t = true
  | _ => True
  end.

Lemma cellForm_fraction t (z : Z) : has_char "." t = true \/ has_char "e" t = true -> t <> pretty z.
Proof. intros [H|H] ->; by rewrite pretty_no_char in H. Qed.

Lemma pretty_not_zero (z : Z) : pretty z <> "-0".
Proof.
  intros E. destruct z as [|p|p]; [done| |].
  - pose proof (digits_pretty (Z.pos p) ltac:(lia)) as (H & _ & _). by rewrite E in H.
  - change (pretty (Z.neg p)) with (String "-" (pretty (Z.pos p))) in E. injection E as E. pose proof (digits_pretty (Z.pos p) ltac:(lia)) as (_ & H & _).
    rewrite E in H. done.
Qed.

(** Equal keys, equal cells. *)
Lemma cellKey_inj a b k : cellForm a -> cellForm b -> cellKey a = Ok k -> cellKey b = Ok k -> a = b.
Proof.
  intros Ha Hb Ea Eb. destruct a as [| |x|m| |t| |m|s|l| |]; cbn [cellKey] in Ea; try done; apply (f_equal (fun r => match r with Ok x => x | Err _ => "" end)) in Ea; cbn in Ea; subst k;
    destruct b as [| |y|n| |u| |n|s'|l'| |]; cbn [cellKey] in Eb; try done; apply (f_equal (fun r => match r with Ok x => x | Err _ => "" end)) in Eb; cbn in Eb; rewrite ?string_app_nil_r in Eb; try (by destruct x, y);
    try (by destruct x); try (by destruct y); try (injection Eb as Eb);
    try (change ("" +:+ ?x) with x in Eb); try (change ("" +:+ ?x) with x in Eb); unfold str in Eb; rewrite ?string_app_nil_r in Eb.
  - f_equal. by apply pretty_Z_inj.
  - by apply eq_sym, pretty_not_zero in Eb.
  - by destruct (cellForm_fraction u m Hb).
  - by apply pretty_not_zero in Eb.
  - subst u. destruct Hb as [Hb|Hb]; done.
  - by destruct (cellForm_fraction t n Ha).
  - subst t. destruct Ha as [Ha|Ha]; done.
  - by f_equal.
  - f_equal. by apply pretty_Z_inj.
  - assert (E : str [pretty (slen s'); ":"; s'] +:+ "" = str [pretty (slen s); ":"; s] +:+ "") by (unfold str; rewrite !string_app_nil_r; exact Eb).
    apply frame_inj in E as [-> _]. done.
  - f_equal. by apply hexText_inj.
Qed.

Lemma sameCell_ok a b : cellForm a -> cellForm b -> sameCell a b = Ok true -> a = b.
Proof.
  intros Ha Hb. unfold sameCell. destruct (cellKey a) as [x|] eqn:Ea; [|done]. destruct (cellKey b) as [y|] eqn:Eb; [|done]. cbn.
  intros [= E%bool_decide_eq_true]. subst y. by eapply cellKey_inj.
Qed.

(** A cell that has a key; the others are no values of a read. *)
Definition keyed (v : JsValue) : Prop := exists k, cellKey v = Ok k.

Lemma sameCell_refl v : keyed v -> sameCell v v = Ok true.
Proof. intros [k Hk]. unfold sameCell. rewrite Hk. cbn. by rewrite bool_decide_eq_true_2. Qed.

Lemma everyCell_ok a b : Forall cellForm a -> Forall cellForm b -> length a = length b -> everyCell a b = Ok true -> a = b.
Proof.
  intros Ha. revert b. induction Ha as [|x a Hx _ IH]; intros b Hb Hl; destruct Hb as [|y b Hy Hb]; try done. cbn [everyCell].
  destruct (sameCell x y) as [[|]|] eqn:E; try done. cbn. intros H. f_equal; [by apply sameCell_ok|]. apply IH; [done| |done]. by injection Hl.
Qed.

Lemma everyCell_refl a : Forall keyed a -> everyCell a a = Ok true.
Proof. induction 1 as [|x a Hx _ IH]; [done|]. cbn [everyCell]. rewrite sameCell_refl by done. exact IH. Qed.

(** Frames behind each other are read back. *)
Lemma frames_inj l k : str (map (fun key => str [pretty (slen key); ":"; key]) l) = str (map (fun key => str [pretty (slen key); ":"; key]) k) -> l = k.
Proof.
  revert k. induction l as [|x l IH]; intros [|y k] E; cbn [map str] in E.
  - done.
  - exfalso. destruct (digits_pretty (slen y) (slen_nonneg y)) as (_ & _ & H). by destruct (pretty (slen y)).
  - exfalso. destruct (digits_pretty (slen x) (slen_nonneg x)) as (_ & _ & H). by destruct (pretty (slen x)).
  - apply frame_inj in E as [-> E]. f_equal. by apply IH.
Qed.

Lemma cellKeys_inj a b ks : Forall cellForm a -> Forall cellForm b -> mapR cellKey a = Ok ks -> mapR cellKey b = Ok ks -> a = b.
Proof.
  intros Ha. revert b ks. induction Ha as [|x a Hx _ IH]; intros b ks Hb; cbn [mapR].
  - intros [= <-]. destruct b as [|y b]; [done|]. cbn [mapR]. destruct (cellKey y); [|done]. cbn. by destruct (mapR cellKey b).
  - destruct (cellKey x) as [k|] eqn:Ex; [|done]. cbn. destruct (mapR cellKey a) as [l|] eqn:Ea; [|done]. intros [= <-].
    destruct Hb as [|y b Hy Hb]; [done|]. cbn [mapR]. destruct (cellKey y) as [k'|] eqn:Ey; [|done]. cbn. destruct (mapR cellKey b) as [l'|] eqn:Eb; [|done].
    intros [= -> ->]. f_equal; [by eapply cellKey_inj|by eapply IH].
Qed.

(** C17: Rows of a catalog are compared by value: two rows of readable cells are the same exactly when they hold the same values of the same types in order, and the texts that their revisions hash under one descriptor are equal exactly then. *)
Theorem sameRow_equal metadata a b :
  Forall cellForm a -> Forall cellForm b -> Forall keyed a -> Forall keyed b ->
  (sameRow a b = Ok true <-> a = b) /\ (revisionText metadata a = revisionText metadata b <-> a = b).
Proof.
  intros Ha Hb Ka Kb. split; (split; [|intros <-]).
  - unfold sameRow. destruct (Nat.eqb_spec (length a) (length b)) as [Hl|]; [|done]. by apply everyCell_ok.
  - unfold sameRow. rewrite Nat.eqb_refl. by apply everyCell_refl.
  - unfold revisionText. assert (Hk : forall l, Forall keyed l -> exists ks, mapR cellKey l = Ok ks).
    { induction 1 as [|x l [k Hx] _ [ks IH]]; [by eexists|]. cbn [mapR]. rewrite Hx. cbn. rewrite IH. by eexists. }
    destruct (Hk a Ka) as [ka Ea], (Hk b Kb) as [kb Eb]. rewrite Ea, Eb. cbn. intros E. apply (f_equal (fun r => match r with Ok x => x | Err _ => "" end)) in E.
    cbv beta iota in E. apply app_same_length in E as [_ E]; [|done]. apply frames_inj in E. subst kb. by eapply cellKeys_inj.
  - done.
Qed.

Example sameRow_equal_witness :
  let a := [JInt 7; JString "a:b"; JNull; JBytes [0; 255]; JFraction "0.5"; JBigint 9007199254740993] in
  let b := [JInt 7; JString "a:b"; JNull; JBytes [0; 255]; JFraction "0.5"; JString "9007199254740993"] in
  (sameRow a b = Ok true <-> a = b) /\ sameRow a b = Ok false.
Proof.
  intros a b. split; [|vm_compute; reflexivity].
  apply (sameRow_equal (mkMetadata (mkTableRef "main" "t") KTable [] [] false) a b).
  - repeat constructor; cbv; try done; by left.
  - repeat constructor; cbv; try done; by left.
  - repeat constructor; by eexists.
  - repeat constructor; by eexists.
Defined.
