(* ===== verification/ReadOnly.v ===== *)
(** * Read-only statements ([catalog.ts], [queryWords] to [validateReadOnly])

    The words of a query outside its literals, quoted identifiers and comments,
    and the check that it is one read.  A query is read from its front: the rest
    of it stands for the index, which is the length of what is in front. *)

From S2P Require Import Prelude Lex Values Times Render CatalogValue.
From Stdlib Require Import Lia.

(** ** Definitions *)

Definition newline_ : string := String (ascii_of_nat 10) "".


Definition READ_ONLY_START : list string := ["SELECT"; "WITH"; "VALUES"].
Definition WRITE_WORDS : list string :=
  ["INSERT"; "UPDATE"; "DELETE"; "MERGE"; "UPSERT"; "CREATE"; "DROP"; "ALTER"; "TRUNCATE"; "RENAME"; "GRANT"; "REVOKE"; "CALL"; "DO";
   "INTO"; "LOCK"; "SHARE"; "PROCEDURE"; "LOAD"; "COPY"; "ATTACH"; "DETACH"; "PRAGMA"; "VACUUM"; "REINDEX"; "ANALYZE"].

Definition isLetter (c : ascii) : bool := is_lower c || is_upper c.

(** The query behind a quoted part, from behind its opening quote on. *)
Fixpoint skipQuoted (quote : ascii) (backslash : bool) (s : string) : option string :=
  match s with
  | EmptyString => None
  | String c rest =>
      if backslash && bool_decide (c = "\"%char) then match rest with String _ r => skipQuoted quote backslash r | EmptyString => None end
      else if decide (c = quote) then match rest with String q r => if decide (q = quote) then skipQuoted quote backslash r else Some rest | EmptyString => Some "" end
      else skipQuoted quote backslash rest
  end.

(** The text behind the first [part]. *)
Fixpoint afterFirst (part s : string) : option string :=
  match after part s, s with
  | Some rest, _ => Some rest
  | None, String _ s => afterFirst part s
  | None, EmptyString => None
  end.

(** The characters at the front that [p] accepts. *)
Fixpoint runOf (p : ascii -> bool) (s : string) : string * string :=
  match s with String a rest => if p a then let '(d, r) := runOf p rest in (String a d, r) else ("", s) | EmptyString => ("", "") end.

Definition isBlank (c : ascii) : bool := includes (N_of_ascii c) [32; 9; 10; 13; 12; 11]%N.
Definition isWordChar (c : ascii) : bool := isLetter c || is_digit c || includes c ["_"%char; "$"%char].
Definition isNumberChar (c : ascii) : bool := isLetter c || is_digit c || includes c ["_"%char; "."%char].
Definition isQuote (c : ascii) : bool := includes c ["'"%char; dqc; "`"%char].

(** The upper-cased words and the semicolons of a query with the lengths of what
    is left from them on, and whether the query is read to its end. *)
Fixpoint queryScan (fuel : nat) (dialect : DriverName) (s : string) : list (string * nat) * bool :=
  match fuel, s with
  | O, _ | _, EmptyString => ([], true)
  | S fuel, String c rest =>
      if isBlank c then queryScan fuel dialect rest
      else if starts_with "--" s then
        match afterFirst newline_ s with None => ([], true) | Some r => queryScan fuel dialect r end
      else if starts_with "/*" s then
        if starts_with "/*!" s || starts_with "/*M!" s then ([], false)
        else match afterFirst "*/" (String.substring 2 (String.length s - 2) s) with None => ([], false) | Some r => queryScan fuel dialect r end
      else if isQuote c then
        match skipQuoted c (match dialect with MySql => negb (bool_decide (c = "`"%char)) | _ => false end) rest with
        | None => ([], false)
        | Some r => queryScan fuel dialect r
        end
      else if bool_decide (c = "_"%char) || isLetter c then
        let '(word, r) := runOf isWordChar s in
        let '(words, ended) := queryScan fuel dialect r in ((toUpperCase word, String.length s) :: words, ended)
      else if is_digit c then queryScan fuel dialect (snd (runOf isNumberChar s))
      else if decide (c = ";"%char) then let '(words, ended) := queryScan fuel dialect rest in ((";", String.length s) :: words, ended)
      else queryScan fuel dialect rest
  end.

Definition queryWords (query : string) (dialect : DriverName) : option (list string) :=
  match queryScan (String.length query) dialect query with (words, true) => Some (map fst words) | (_, false) => None end.

(** The index of the last semicolon that the scan of a SQLite query reports. *)
Definition lastSemicolon (query : string) : nat :=
  match last (filter (fun w => fst w = ";") (fst (queryScan (String.length query) Sqlite query))) with
  | Some (_, remaining) => String.length query - remaining
  | None => String.length query
  end.

Definition sqliteStoredRead (sql : string) (width : nat) : string :=
  let names := map (fun i => str ["c"; pretty (Z.of_nat i)]) (seq 0 width) in
  let cells := map (fun name => str ["typeof("; name; "),CASE typeof("; name; ") WHEN 'text' THEN CAST("; name; " AS BLOB) ELSE "; name; " END"]) names in
  str ["WITH q("; join "," names; ") AS ("; String.substring 0 (lastSemicolon sql) sql; newline_; ") SELECT "; join "," cells; " FROM q"].

Fixpoint sqliteStoredCells (values : list JsValue) : list JsValue :=
  match values with
  | kind :: value :: values =>
      match kind, value with
      | JString "text", JBytes l => if isUtf8 l then JString (bytesToText l) else value
      | _, _ => value
      end :: sqliteStoredCells values
  | [_] => [JUndefined]
  | [] => []
  end.

Definition refusedRead {A} : res A := Err (OrmError QUERY_READ_ONLY "expected one supported non-locking read query").

(** The loop over the words: a semicolon is the last of [words], and no word writes. *)
Fixpoint checkWords (words : list string) : res unit :=
  match words with
  | [] => Ok tt
  | word :: words =>
      if decide (word = ";") then match words with [] => Ok tt | _ => refusedRead end
      else if includes word WRITE_WORDS then refusedRead else checkWords words
  end.

Definition validateReadOnly (query : string) (dialect : DriverName) : res unit :=
  if decide (query = "") then refusedRead
  else
    match queryWords query dialect with
    | None | Some [] => refusedRead
    | Some ((word :: _) as words) => if includes word READ_ONLY_START then checkWords words else refusedRead
    end.

Example read_queries :
  map (fun q => bool_decide (validateReadOnly q Sqlite = Ok tt))
    ["SELECT 1"; "select 'a;b' ; "; "WITH q AS (SELECT 1) SELECT * FROM q"; "SELECT 1; SELECT 2"; "SELECT 'it''s' -- drop
 FROM t"; "DELETE FROM t"; "SELECT 1 /* x */ FOR SHARE"; "SELECT 'a"; "  "; "SELECT x.update FROM x"; "SELECT `drop` FROM t"] =
    [true; true; true; false; true; false; false; false; false; false; true].
Proof. by vm_compute. Qed.

(** * What a read-only check accepts

    [reads] is the lexical grammar that the check follows: blanks, comments,
    literals and quoted identifiers, words, numbers and other characters.  The
    check accepts exactly the queries of that grammar that start with a reading
    word, hold no writing word and no second statement.  The grammar is not the
    one of each database: [validateReadOnly_hides] shows a MySQL statement that
    writes a file, which the check takes for a comment. *)

From S2P Require Import Check.

(** ** The grammar *)

(** [part] is first found behind [body] in a text that goes on with it there. *)
Definition shortest (part body : string) : Prop := forall b1 b2, body = b1 +:+ b2 -> b2 <> "" -> starts_with part (b2 +:+ part) = false.

(** The inside of a literal: a quote is doubled, and a backslash takes the
    character behind it where the dialect says so. *)
Inductive quotedBody (quote : ascii) (backslash : bool) : string -> Prop :=
  | quoted_end : quotedBody quote backslash ""
  | quoted_char c s : c <> quote -> (backslash = true -> c <> "\"%char) -> quotedBody quote backslash s -> quotedBody quote backslash (String c s)
  | quoted_double s : (backslash = true -> quote <> "\"%char) -> quotedBody quote backslash s -> quotedBody quote backslash (String quote (String quote s))
  | quoted_escape c s : backslash = true -> quotedBody quote backslash s -> quotedBody quote backslash (String "\" (String c s)).

Definition escapes (d : DriverName) (quote : ascii) : bool := match d with MySql => negb (bool_decide (quote = "`"%char)) | _ => false end.

(** A text whose first character, if any, [p] refuses. *)
Definition stops (p : ascii -> bool) (s : string) : Prop := match s with String a _ => p a = false | EmptyString => True end.

(** A character that starts no other part of a query. *)
Definition plainChar (c : ascii) (s : string) : Prop :=
  isBlank c = false /\ isQuote c = false /\ isLetter c = false /\ is_digit c = false /\ c <> "_"%char /\ c <> ";"%char /\
  starts_with "--" (String c s) = false /\ starts_with "/*" (String c s) = false.

Inductive reads (d : DriverName) : string -> list string -> Prop :=
  | reads_end : reads d "" []
  | reads_blank c s ws : isBlank c = true -> reads d s ws -> reads d (String c s) ws
  | reads_comment body s ws : shortest newline_ body -> reads d s ws -> reads d ("--" +:+ body +:+ newline_ +:+ s) ws
  | reads_last_comment body : contains newline_ body = false -> reads d ("--" +:+ body) []
  | reads_block body s ws : shortest "*/" body -> starts_with "!" body = false -> starts_with "M!" body = false ->
      reads d s ws -> reads d ("/*" +:+ body +:+ "*/" +:+ s) ws
  | reads_quoted q body s ws : isQuote q = true -> quotedBody q (escapes d q) body -> stops (fun a => bool_decide (a = q)) s ->
      reads d s ws -> reads d (String q (body +:+ String q s)) ws
  | reads_word c w s ws : bool_decide (c = "_"%char) || isLetter c = true -> all_chars isWordChar w = true -> stops isWordChar s ->
      reads d s ws -> reads d (String c (w +:+ s)) (toUpperCase (String c w) :: ws)
  | reads_number c w s ws : is_digit c = true -> all_chars isNumberChar w = true -> stops isNumberChar s ->
      reads d s ws -> reads d (String c (w +:+ s)) ws
  | reads_semicolon s ws : reads d s ws -> reads d (String ";" s) (";" :: ws)
  | reads_plain c s ws : plainChar c s -> reads d s ws -> reads d (String c s) ws.

(** ** Parts of texts *)

Lemma after_app p r : after p (p +:+ r) = Some r.
Proof. induction p as [|a p IH]; [done|]. rewrite string_app_cons. cbn [after]. by rewrite decide_True. Qed.

Lemma after_inv p s r : after p s = Some r -> s = p +:+ r.
Proof.
  revert s. induction p as [|a p IH]; intros s; cbn [after]; [by intros [= ->]|]. destruct s as [|b s]; [done|]. destruct (decide (a = b)) as [->|]; [|done].
  intros H. by rewrite (IH s H).
Qed.

Lemma after_starts p s : starts_with p s = false <-> after p s = None.
Proof.
  revert s. induction p as [|a p IH]; intros [|b s]; cbn [after starts_with]; try (split; congruence). destruct (decide (a = b)) as [->|Hn].
  - rewrite bool_decide_eq_true_2 by done. apply IH.
  - rewrite bool_decide_eq_false_2 by done. by split.
Qed.

Lemma starts_front p b r : (String.length p <= String.length b)%nat -> starts_with p (b +:+ r) = starts_with p b.
Proof.
  revert b. induction p as [|a p IH]; intros [|c b] H; simpl in H; try done; [lia|]. rewrite string_app_cons. cbn [starts_with].
  rewrite IH; [done|lia].
Qed.

Lemma afterFirst_some part s r : part <> "" -> afterFirst part s = Some r <-> exists body, s = body +:+ part +:+ r /\ shortest part body.
Proof.
  intros Hp. split.
  - induction s as [|c s IH]; cbn [afterFirst].
    + destruct (after part "") eqn:E; [|done]. intros [= <-]. apply after_inv in E. exists "". split; [done|]. intros b1 b2 Hb Hne. by destruct b1, b2.
    + destruct (after part (String c s)) as [t|] eqn:E; [intros [= <-]; apply after_inv in E; exists ""; split; [done|]; intros b1 b2 Hb Hne; by destruct b1, b2|].
      intros H. apply IH in H as (body & -> & Hs). exists (String c body). split; [done|]. intros b1 b2 Hb Hne. destruct b1 as [|c' b1].
      * destruct b2 as [|c2 b2]; [done|]. injection Hb as <- <-. apply after_starts in E.
        rewrite <- (starts_front part _ r) by (rewrite string_length_app; simpl; lia). by rewrite string_app_assoc, string_app_cons.
      * injection Hb as <- Hb. by eapply Hs.
  - intros (body & -> & Hs). revert Hs. induction body as [|c body IH]; intros Hs.
    + change ("" +:+ ?x) with x. destruct part as [|a part]; [done|]. destruct (String a part +:+ r) as [|x y] eqn:E; [done|].
      cbn [afterFirst]. rewrite <- E, after_app. done.
    + rewrite string_app_cons. cbn [afterFirst]. assert (E : after part (String c (body +:+ part +:+ r)) = None).
      { apply after_starts. specialize (Hs "" (String c body) eq_refl ltac:(done)).
        rewrite <- (starts_front part _ r) in Hs by (rewrite string_length_app; simpl; lia). by rewrite string_app_assoc, string_app_cons in Hs. }
      rewrite E. apply IH. intros b1 b2 -> Hne. by apply (Hs (String c b1) b2).
Qed.

Lemma afterFirst_none part s : afterFirst part s = None <-> contains part s = false.
Proof.
  induction s as [|c s IH]; cbn [afterFirst contains].
  - destruct (after part "") eqn:E; [|apply after_starts in E; by rewrite E]. split; [done|]. intros H%orb_false_iff. destruct H as [H%after_starts _]. congruence.
  - destruct (after part (String c s)) eqn:E.
    + split; [done|]. intros [H%after_starts _]%orb_false_iff. congruence.
    + apply after_starts in E. rewrite E. exact IH.
Qed.

Lemma skipQuoted_some q b s r : (b = true -> q <> "\"%char) ->
  skipQuoted q b s = Some r <-> exists body, s = body +:+ String q r /\ quotedBody q b body /\ stops (fun a => bool_decide (a = q)) r.
Proof.
  intros Hq. split.
  - assert (Hn : (String.length s <= String.length s)%nat) by lia. revert Hn. generalize (String.length s) at 2 as n. intros n. revert s r.
    induction n as [|n IH]; intros [|c s] r Hl; cbn [skipQuoted]; try done; [simpl in Hl; lia|]. simpl in Hl. destruct (b && bool_decide (c = "\"%char)) eqn:Eb.
    + apply andb_true_iff in Eb as [Hb ->%bool_decide_eq_true]. destruct s as [|e s]; [done|]. simpl in Hl. intros H. apply IH in H as (body & -> & Hbody & Hr); [|lia].
      exists (String "\" (String e body)). split_and!; [done|by constructor|done].
    + assert (Hc : b = true -> c <> "\"%char) by (intros -> ->; done). destruct (decide (c = q)) as [->|Hn].
      * destruct s as [|e s]; [intros [= <-]; exists ""; split_and!; [done|constructor|done]|]. destruct (decide (e = q)) as [->|Hne].
        -- simpl in Hl. intros H. apply IH in H as (body & -> & Hbody & Hr); [|lia]. exists (String q (String q body)). split_and!; [done|by constructor|done].
        -- intros [= <-]. exists "". split_and!; [done|constructor|]. cbn. by apply bool_decide_eq_false.
      * intros H. apply IH in H as (body & -> & Hbody & Hr); [|lia]. exists (String c body). split_and!; [done|by constructor|done].
  - intros (body & -> & Hbody & Hr). induction Hbody as [|c s Hn Hc _ IH|s Hc _ IH|c s -> _ IH].
    + change ("" +:+ ?x) with x. cbn [skipQuoted]. destruct (b && _) eqn:Eb; [apply andb_true_iff in Eb as [Hb ->%bool_decide_eq_true]; by destruct (Hq Hb)|].
      rewrite decide_True by done. destruct r as [|e r]; [done|]. cbn in Hr. apply bool_decide_eq_false in Hr. by rewrite decide_False.
    + rewrite string_app_cons. cbn [skipQuoted]. destruct (b && _) eqn:Eb; [apply andb_true_iff in Eb as [Hb ->%bool_decide_eq_true]; by destruct (Hc Hb)|].
      by rewrite decide_False.
    + rewrite !string_app_cons. cbn [skipQuoted]. destruct (b && _) eqn:Eb; [apply andb_true_iff in Eb as [Hb ->%bool_decide_eq_true]; by destruct (Hc Hb)|].
      by rewrite !decide_True.
    + rewrite !string_app_cons. cbn [skipQuoted]. by rewrite bool_decide_eq_true_2.
Qed.

Lemma runOf_inv p s w r : runOf p s = (w, r) -> s = w +:+ r /\ all_chars p w = true /\ stops p r.
Proof.
  revert w. induction s as [|a s IH]; intros w; cbn [runOf]; [by intros [= <- <-]|]. destruct (p a) eqn:Ea; [|by intros [= <- <-]].
  destruct (runOf p s) as [d t]. intros [= <- <-]. destruct (IH d eq_refl) as (-> & Hd & Ht). split_and!; [done| |done]. cbn. by rewrite Ea.
Qed.

Lemma runOf_app p w r : all_chars p w = true -> stops p r -> runOf p (w +:+ r) = (w, r).
Proof.
  induction w as [|a w IH]; intros Hw Hr.
  - change ("" +:+ r) with r. destruct r as [|a r]; [done|]. cbn [runOf]. cbn in Hr. by rewrite Hr.
  - cbn [all_chars] in Hw. apply andb_true_iff in Hw as [Ha Hw]. rewrite string_app_cons. cbn [runOf]. by rewrite Ha, IH.
Qed.

Lemma starts_inv p s : starts_with p s = true -> exists t, s = p +:+ t.
Proof.
  intros H. destruct (after p s) as [t|] eqn:E; [apply after_inv in E; by exists t|]. apply after_starts in E. congruence.
Qed.

Lemma starts_app p t : starts_with p (p +:+ t) = true.
Proof. destruct (starts_with p (p +:+ t)) eqn:E; [done|]. apply after_starts in E. by rewrite after_app in E. Qed.

Lemma substring_whole s : String.substring 0 (String.length s) s = s.
Proof. induction s as [|a s IH]; [done|]. simpl. by rewrite IH. Qed.

Lemma isQuote_slash d q : isQuote q = true -> escapes d q = true -> q <> "\"%char.
Proof. intros Hq _ ->. by vm_compute in Hq. Qed.

(** The first character of a part decides which part it is. *)
Lemma isQuote_cases q : isQuote q = true -> isBlank q = false /\ (forall s, starts_with "--" (String q s) = false) /\ (forall s, starts_with "/*" (String q s) = false).
Proof. unfold isQuote, includes. intros H%bool_decide_eq_true. by repeat (apply elem_of_cons in H as [->|H]; [done|]); apply elem_of_nil in H. Qed.

Lemma wordStart_cases c : bool_decide (c = "_"%char) || isLetter c = true ->
  isBlank c = false /\ isQuote c = false /\ (forall s, starts_with "--" (String c s) = false) /\ (forall s, starts_with "/*" (String c s) = false) /\ isWordChar c = true.
Proof. destruct c as [[] [] [] [] [] [] [] []]; intros H; vm_compute in H; try done. Qed.

Lemma digit_cases c : is_digit c = true ->
  isBlank c = false /\ isQuote c = false /\ bool_decide (c = "_"%char) || isLetter c = false /\ (forall s, starts_with "--" (String c s) = false) /\
  (forall s, starts_with "/*" (String c s) = false) /\ isNumberChar c = true.
Proof. destruct c as [[] [] [] [] [] [] [] []]; intros H; vm_compute in H; try done. Qed.

Section scan.
Variable d : DriverName.

Lemma scan_reads fuel : forall s items, (String.length s <= fuel)%nat -> queryScan fuel d s = (items, true) -> reads d s (map fst items).
Proof.
  induction fuel as [|fuel IH]; intros [|c s] items Hl; cbn [queryScan]; try (intros [= <-]; apply reads_end); [simpl in Hl; lia|]. simpl in Hl.
  destruct (isBlank c) eqn:Eb; [intros H; apply reads_blank; [done|apply IH; [lia|done]]|].
  destruct (starts_with "--" (String c s)) eqn:Ec.
  { apply starts_inv in Ec as [t Et]. rewrite Et. change (afterFirst newline_ ("--" +:+ t)) with (afterFirst newline_ t).
    assert (Ht : String c s = String "-" (String "-" t)) by exact Et. injection Ht as -> ->. destruct (afterFirst newline_ t) as [r|] eqn:Ea.
    - apply afterFirst_some in Ea as (body & -> & Hb); [|done]. intros H. apply reads_comment; [done|]. apply IH; [|done].
      simpl in Hl. rewrite !string_length_app in Hl. lia.
    - apply afterFirst_none in Ea. intros [= <-]. by apply reads_last_comment. }
  destruct (starts_with "/*" (String c s)) eqn:Eo.
  { destruct (_ || _) eqn:Ex; [done|]. apply orb_false_iff in Ex as [Ex1 Ex2]. apply starts_inv in Eo as [t Et]. rewrite Et in *. change (String.length ("/*" +:+ t) - 2)%nat with (String.length t - 0)%nat.
    rewrite Nat.sub_0_r. change (String.substring 2 (String.length t) ("/*" +:+ t)) with (String.substring 0 (String.length t) t). rewrite substring_whole.
    assert (Ht : String c s = String "/" (String "*" t)) by exact Et. injection Ht as -> ->. destruct (afterFirst "*/" t) as [r|] eqn:Ea; [|done].
    apply afterFirst_some in Ea as (body & -> & Hb); [|done]. intros H. apply reads_block; [done| | |].
    - destruct (starts_with "!" body) eqn:E; [|done]. apply starts_inv in E as [u ->]. done.
    - destruct (starts_with "M!" body) eqn:E; [|done]. apply starts_inv in E as [u ->]. done.
    - apply IH; [|done]. simpl in Hl. rewrite !string_length_app in Hl. lia. }
  destruct (isQuote c) eqn:Eq.
  { fold (escapes d c). destruct (skipQuoted c _ s) as [r|] eqn:Es; [|done]. apply skipQuoted_some in Es as (body & -> & Hb & Hr); [|by apply isQuote_slash].
    intros H. apply reads_quoted; [done|done|done|]. apply IH; [|done]. rewrite string_length_app in Hl. simpl in Hl. lia. }
  destruct (bool_decide (c = "_"%char) || isLetter c) eqn:Ew.
  { destruct (wordStart_cases c Ew) as (_ & _ & _ & _ & Hc). cbn [runOf]. rewrite Hc. destruct (runOf isWordChar s) as [w r] eqn:Er.
    apply runOf_inv in Er as (-> & Hw & Hr). destruct (queryScan fuel d r) as [words ended] eqn:E. intros [= <- ->]. cbn [map fst].
    apply reads_word; [done|done|done|]. apply IH; [|done]. rewrite string_length_app in Hl. lia. }
  destruct (is_digit c) eqn:Ed.
  { destruct (digit_cases c Ed) as (_ & _ & _ & _ & _ & Hc). cbn [runOf]. rewrite Hc. destruct (runOf isNumberChar s) as [w r] eqn:Er.
    apply runOf_inv in Er as (-> & Hw & Hr). cbn [snd]. intros H. apply reads_number; [done|done|done|]. apply IH; [|done]. rewrite string_length_app in Hl. lia. }
  destruct (decide (c = ";"%char)) as [->|Hn].
  { destruct (queryScan fuel d s) as [words ended] eqn:E. intros [= <- ->]. apply reads_semicolon. apply IH; [lia|done]. }
  intros H. apply reads_plain; [|by apply IH; [lia|]]. apply orb_false_iff in Ew as [Ew%bool_decide_eq_false ?]. by split_and!.
Qed.

Lemma reads_scan s ws : reads d s ws -> forall fuel, (String.length s <= fuel)%nat -> exists items, queryScan fuel d s = (items, true) /\ map fst items = ws.
Proof.
  induction 1 as [|c s ws Hc _ IH|body s ws Hb _ IH|body Hb|body s ws Hb H1 H2 _ IH|q body s ws Hq Hb Hs _ IH|c w s ws Hc Hw Hs _ IH|c w s ws Hc Hw Hs _ IH|s ws _ IH|c s ws Hc _ IH];
    intros [|fuel] Hl; try (exists []; split; done); try (simpl in Hl; lia); simpl in Hl; try rewrite !string_length_app in Hl; cbn [queryScan].
  - rewrite Hc. apply IH. lia.
  - change ("--" +:+ ?x) with (String "-" (String "-" x)) at 1. cbn [queryScan]. change (isBlank "-") with false. cbv iota.
    change (starts_with "--" _) with true. cbv iota. change (afterFirst newline_ ("--" +:+ ?x)) with (afterFirst newline_ x).
    rewrite (proj2 (afterFirst_some newline_ _ s ltac:(done)) (ex_intro _ body (conj eq_refl Hb))). apply IH. simpl in Hl. lia.
  - change ("--" +:+ body) with (String "-" (String "-" body)) at 1. cbn [queryScan]. change (isBlank "-") with false. cbv iota.
    change (starts_with "--" _) with true. cbv iota. change (afterFirst newline_ ("--" +:+ ?x)) with (afterFirst newline_ x).
    rewrite (proj2 (afterFirst_none newline_ body) Hb). by exists [].
  - change ("/*" +:+ ?x) with (String "/" (String "*" x)) at 1. cbn [queryScan]. change (isBlank "/") with false. cbv iota.
    change (starts_with "--" _) with false. change (starts_with "/*" _) with true. cbv iota.
    set (t := body +:+ "*/" +:+ s). change (String.length ("/*" +:+ t) - 2)%nat with (String.length t - 0)%nat. rewrite Nat.sub_0_r.
    change (String.substring 2 (String.length t) ("/*" +:+ t)) with (String.substring 0 (String.length t) t). rewrite substring_whole.
    change (starts_with "/*!" ("/*" +:+ t)) with (starts_with "!" t). change (starts_with "/*M!" ("/*" +:+ t)) with (starts_with "M!" t).
    assert (Et : starts_with "!" t = false /\ starts_with "M!" t = false) by (clear -H1 H2; subst t; destruct body as [|a [|b body]]; done). destruct Et as [-> ->]. cbn [orb].
    rewrite (proj2 (afterFirst_some "*/" t s ltac:(done)) (ex_intro _ body (conj eq_refl Hb))). apply IH. simpl in Hl. lia.
  - destruct (isQuote_cases q Hq) as (Hb1 & Hb2 & Hb3). rewrite Hb1, Hb2, Hb3, Hq. cbv iota. fold (escapes d q).
    rewrite (proj2 (skipQuoted_some q (escapes d q) _ s (isQuote_slash d q Hq)) (ex_intro _ body (conj eq_refl (conj Hb Hs)))). apply IH. simpl in Hl. lia.
  - destruct (wordStart_cases c Hc) as (Hb1 & Hb2 & Hb3 & Hb4 & Hb5). rewrite Hb1, Hb2, Hb3, Hb4, Hc. cbv iota. cbn [runOf]. rewrite Hb5, runOf_app by done.
    destruct (IH fuel ltac:(lia)) as (items & -> & <-). eexists. split; [reflexivity|]. done.
  - destruct (digit_cases c Hc) as (Hb1 & Hb2 & Hb3 & Hb4 & Hb5 & Hb6). rewrite Hb1, Hb2, Hb3, Hb4, Hb5, Hc. cbv iota. cbn [runOf]. rewrite Hb6, runOf_app by done.
    cbn [snd]. apply IH. lia.
  - destruct (IH fuel ltac:(lia)) as (items & E & <-). rewrite E. eexists. split; [reflexivity|]. done.
  - destruct Hc as (Hb1 & Hb2 & Hb3 & Hb4 & Hb5 & Hb6 & Hb7 & Hb8). rewrite Hb1, Hb2, Hb3, Hb4, Hb7, Hb8. cbv iota.
    rewrite bool_decide_eq_false_2 by done. cbn [orb]. rewrite decide_False by done. apply IH. lia.
Qed.

(** The words of a query are the words of the grammar. *)
Lemma queryWords_reads query ws : queryWords query d = Some ws <-> reads d query ws.
Proof.
  unfold queryWords. split.
  - destruct (queryScan _ d query) as [items ended] eqn:E. destruct ended; [|done]. intros [= <-]. by eapply scan_reads.
  - intros H. destruct (reads_scan query ws H (String.length query) ltac:(lia)) as (items & -> & <-). done.
Qed.
End scan.

(** ** The check *)

(** One statement without a writing word: a semicolon is last. *)
Definition oneRead (words : list string) : Prop :=
  (exists first, head words = Some first /\ first ∈ READ_ONLY_START) /\ Forall (fun w => w ∉ WRITE_WORDS) words /\
  forall i, words !! i = Some ";" -> S i = length words.

Lemma checkWords_ok words : checkWords words = Ok tt <-> Forall (fun w => w ∉ WRITE_WORDS) words /\ forall i, words !! i = Some ";" -> S i = length words.
Proof.
  induction words as [|w words IH]; [split; [done|done]|]. cbn [checkWords]. destruct (decide (w = ";")) as [->|Hn].
  - destruct words as [|w' words]; (split; [|try done]).
    + intros _. split; [constructor; [|constructor]; by apply (bool_decide_unpack _)|]. intros [|i] H; [done|by destruct i].
    + done.
    + intros [_ H]. specialize (H 0%nat eq_refl). done.
  - unfold includes. case_bool_decide as Hw.
    + split; [done|]. intros [[H _]%Forall_cons _]. done.
    + rewrite IH. split; intros [Hf Hs]; (split; [|intros i Hi]).
      * by constructor.
      * destruct i as [|i]; [injection Hi as ->; done|]. cbn in Hi. cbn. f_equal. by apply Hs.
      * by apply Forall_cons in Hf as [_ ?].
      * specialize (Hs (S i) Hi). cbn in Hs. lia.
Qed.

(** C15: validateReadOnly accepts exactly the texts of the lexical grammar that are one statement, start with SELECT, WITH or VALUES and hold no writing word outside literals, quoted names and comments; every other text, an unterminated literal or comment included, is QUERY_READ_ONLY. *)
Theorem validateReadOnly_accepts query dialect :
  (validateReadOnly query dialect = Ok tt <-> exists words, reads dialect query words /\ oneRead words) /\
  (validateReadOnly query dialect = Ok tt \/ exists message, validateReadOnly query dialect = Err (OrmError QUERY_READ_ONLY message)).
Proof.
  assert (Hcheck : forall words, checkWords words = Ok tt \/ exists message, checkWords words = Err (OrmError QUERY_READ_ONLY message)).
  { induction words as [|w words IH]; cbn [checkWords]; [by left|]. repeat case_match; try done; try (by left); right; by eexists. }
  split.
  - unfold validateReadOnly. destruct (decide (query = "")) as [->|Hne].
    + split; [done|]. intros (words & H%queryWords_reads & (first & Hf & _) & _). injection H as <-. done.
    + destruct (queryWords query dialect) as [words|] eqn:E.
      * split.
        -- destruct words as [|w words]; [done|]. unfold includes. case_bool_decide as Hw; [|done]. intros [Hf Hs]%checkWords_ok.
           exists (w :: words). split; [by apply queryWords_reads|]. split; [by exists w|done].
        -- intros (words' & H%queryWords_reads & (first & Hf & Hstart) & Hwords). rewrite E in H. injection H as ->.
           destruct words' as [|w words']; [done|]. injection Hf as ->. unfold includes. rewrite bool_decide_eq_true_2 by done. by apply checkWords_ok.
      * split; [done|]. intros (words & H%queryWords_reads & _). congruence.
  - unfold validateReadOnly. destruct (decide _); [right; by eexists|]. destruct (queryWords _ _) as [[|w words]|]; [right; by eexists| |right; by eexists].
    destruct (includes w READ_ONLY_START); [apply Hcheck|right; by eexists].
Qed.

(** MySQL starts a comment at two dashes only before a blank, so this statement
    subtracts minus one and writes a file; the check takes the rest of its line
    for a comment. *)
Theorem validateReadOnly_hides : validateReadOnly "SELECT 1--1 INTO OUTFILE '/tmp/x'" MySql = Ok tt /\ validateReadOnly "SELECT 1 INTO OUTFILE '/tmp/x'" MySql <> Ok tt.
Proof. by vm_compute. Qed.
