(* ===== verification/Pools.v ===== *)
(** * Waiting for a connection ([driver.ts], [markdown.ts], [listen.ts])

    The parts of the drivers in which calls wait for each other: the pool of the one
    SQLite connection, the pool of flowmark sessions, and the connection of a LISTEN
    subscription.  Each is a state with the jobs that its promises have queued and a
    function of events: a call of a method, a turn of the event loop, which runs the
    first job, and what the outside does.  A theorem about all lists of events is one
    about all interleavings. *)

From S2P Require Import Prelude Lex Values Decimal Times BindCheck Check CatalogValue Faults.
From Stdlib Require Import Lia.
From stdpp Require Import list_tactics.

(** ** The pool of SQLite *)

Module SqlitePool.

(** A call of [execute] or [reserve], with the abort signal that it was given. *)
Record Caller := mkCaller { c_id : nat; c_reserve : bool; c_signal : option nat }.

Inductive Job :=
  | Resumed (c : Caller)  (* the promise of a waiter was resolved *)
  | Rejected (c : Caller) (* it was rejected by an abort *)
  | Idle (c : Caller)     (* [idle] returned to its caller *)
  | Refused (c : Caller). (* [idle] threw to its caller *)

Inductive Outcome := Session | Ran | Canceled.

(** [held] are the sessions that were not released and [settled] the calls that
    returned, in order. *)
Record State := mkState {
  busy : bool; waiters : list Caller; jobs : list Job; aborted : list nat; held : list nat; settled : list (nat * Outcome) }.

Definition init : State := mkState false [] [] [] [] [].

Definition isAborted (c : Caller) (s : State) : bool := match c_signal c with Some g => includes g (aborted s) | None => false end.

Definition setJobs (l : list Job) (s : State) : State := mkState (busy s) (waiters s) l (aborted s) (held s) (settled s).
Definition addJobs (l : list Job) (s : State) : State := setJobs (jobs s ++ l) s.
Definition setWaiters (l : list Caller) (s : State) : State := mkState (busy s) l (jobs s) (aborted s) (held s) (settled s).
Definition settle (c : Caller) (o : Outcome) (s : State) : State := mkState (busy s) (waiters s) (jobs s) (aborted s) (held s) (settled s ++ [(c_id c, o)]).

(** [idle] from the check of its loop. *)
Definition idle (c : Caller) (s : State) : State :=
  if busy s then if isAborted c s then addJobs [Refused c] s else setWaiters (waiters s ++ [c]) s
  else addJobs [Idle c] s.

(** [execute] and [reserve] up to their first wait. *)
Definition call (c : Caller) (s : State) : State :=
  if negb (c_reserve c) && isAborted c s then settle c Canceled s else idle c s.

(** The rest of [reserve] and of [execute]. *)
Definition resume (c : Caller) (s : State) : State :=
  if c_reserve c then settle c Session (mkState true (waiters s) (jobs s) (aborted s) (held s ++ [c_id c]) (settled s))
  else if isAborted c s then settle c Canceled s
  else settle c Ran s.

Definition turn (s : State) : State :=
  match jobs s with
  | [] => s
  | j :: js =>
      let s := setJobs js s in
      match j with
      | Resumed c => idle c s
      | Rejected c => addJobs [Refused c] s
      | Idle c => resume c s
      | Refused c => settle c Canceled s
      end
  end.

(** [release] of a session, once. *)
Definition release (i : nat) (s : State) : State :=
  if includes i (held s)
  then mkState false [] (jobs s ++ map Resumed (waiters s)) (aborted s) (filter (fun k => k <> i) (held s)) (settled s)
  else s.

(** An abort signal: its waiters leave the list. *)
Definition waitsFor (g : nat) (c : Caller) : bool := bool_decide (c_signal c = Some g).
Definition abort (g : nat) (s : State) : State :=
  mkState (busy s) (List.filter (fun c => negb (waitsFor g c)) (waiters s)) (jobs s ++ map Rejected (List.filter (waitsFor g) (waiters s)))
    (g :: aborted s) (held s) (settled s).

Inductive Event := Call (c : Caller) | Turn | Release (i : nat) | Abort (g : nat).

Definition on (s : State) (e : Event) : State :=
  match e with Call c => call c s | Turn => turn s | Release i => release i s | Abort g => abort g s end.
Definition run (es : list Event) : State := foldl on init es.

(** *** No call is forgotten *)

Definition callerOf (j : Job) : nat := match j with Resumed c | Rejected c | Idle c | Refused c => c_id c end.
Definition called (es : list Event) : list nat := omap (fun e => match e with Call c => Some (c_id c) | _ => None end) es.

(** The calls that have not returned and those that have. *)
Definition calls (s : State) : list nat := map c_id (waiters s) ++ map callerOf (jobs s) ++ (settled s).*1.

Definition Sound (s : State) : Prop := (busy s = false -> waiters s = []) /\ (busy s = true -> held s <> []).

Lemma idle_calls c s : calls (idle c s) ≡ₚ c_id c :: calls s.
Proof. unfold idle, calls. destruct (busy s); [destruct (isAborted c s)|]; cbn; rewrite ?map_app; cbn; solve_Permutation. Qed.
Lemma settle_calls c o s : calls (settle c o s) ≡ₚ c_id c :: calls s.
Proof. unfold calls. cbn. rewrite fmap_app. cbn. solve_Permutation. Qed.

Lemma partition_perm {A} (f : A -> bool) l : l ≡ₚ List.filter (fun x => negb (f x)) l ++ List.filter f l.
Proof. induction l as [|x l IH]; [done|]. cbn. destruct (f x); cbn; rewrite IH at 1; solve_Permutation. Qed.

Lemma on_calls s e : calls (on s e) ≡ₚ match e with Call c => [c_id c] | _ => [] end ++ calls s.
Proof.
  destruct e as [c| |i|g]; cbn [on].
  - unfold call. destruct (_ && _); [apply settle_calls|apply idle_calls].
  - unfold turn. destruct (jobs s) as [|j js] eqn:E; [done|].
    assert (H : calls s ≡ₚ callerOf j :: calls (setJobs js s)) by (unfold calls; rewrite E; cbn; solve_Permutation).
    cbn. rewrite H. destruct j as [c|c|c|c]; cbn [callerOf].
    + apply idle_calls.
    + unfold calls; cbn. rewrite map_app. cbn. solve_Permutation.
    + unfold resume. destruct (c_reserve c); [|destruct (isAborted c _)]; by rewrite settle_calls.
    + apply settle_calls.
  - unfold release. case_match; [|done]. unfold calls; cbn. rewrite map_app, map_map. cbn. change (map (fun x => c_id x) (waiters s)) with (map c_id (waiters s)). solve_Permutation.
  - unfold calls; cbn. rewrite map_app, map_map. cbn.
    transitivity (map c_id (waiters s) ++ map callerOf (jobs s) ++ (settled s).*1); [|done].
    rewrite (partition_perm (waitsFor g) (waiters s)) at 3. rewrite map_app. solve_Permutation.
Qed.

Lemma on_sound s e : Sound s -> Sound (on s e).
Proof.
  intros [Hf Ht]. destruct e as [c| |i|g]; cbn [on].
  - unfold call, idle, Sound. destruct (_ && _); [done|]. destruct (busy s) eqn:E; [destruct (isAborted c s)|]; cbn; rewrite E; auto; split; [done|auto].
  - unfold turn. destruct (jobs s) as [|j js]; [done|]. destruct j as [c|c|c|c]; unfold resume, idle, Sound; cbn.
    + destruct (busy s) eqn:E; [destruct (isAborted c _)|]; cbn; rewrite E; auto; split; [done|auto].
    + done.
    + destruct (c_reserve c); cbn; [split; [done|by destruct (held s)]|]. destruct (isAborted c _); done.
    + done.
  - unfold release. case_match; [|done]. by split.
  - split; cbn; intros H; [by rewrite (Hf H)|auto].
Qed.

Lemma called_snoc es e : called (es ++ [e]) = called es ++ match e with Call c => [c_id c] | _ => [] end.
Proof. unfold called. rewrite omap_app. by destruct e. Qed.

Lemma run_state es : Sound (run es) /\ calls (run es) ≡ₚ called es.
Proof.
  induction es as [|e es [IHs IHc]] using rev_ind; [by split|]. unfold run in *. rewrite foldl_app, called_snoc. cbn [foldl].
  split; [by apply on_sound|]. rewrite on_calls, IHc. solve_Permutation.
Qed.

(** *** One session at a time *)

Definition jobCaller (j : Job) : Caller := match j with Resumed c | Rejected c | Idle c | Refused c => c end.
Definition pending (s : State) : list Caller := waiters s ++ map jobCaller (jobs s).

(** The calls of [reserve] that have not returned. *)
Definition reserving (s : State) : nat := length (List.filter c_reserve (pending s)).

(** Each [reserve] is called when no other waits or is about to return. *)
Fixpoint oneByOne (s : State) (es : list Event) : bool :=
  match es with
  | [] => true
  | e :: es => match e with Call c => negb (c_reserve c) || (reserving s =? 0)%nat | _ => true end && oneByOne (on s e) es
  end.

Definition Exclusive (s : State) : Prop :=
  (reserving s <= 1)%nat /\ (length (held s) <= 1)%nat /\ (busy s = false -> held s = []) /\ (forall c, Idle c ∈ jobs s -> c_reserve c = true -> busy s = false).

Definition weight (c : Caller) : nat := if c_reserve c then 1 else 0.
Definition weights (l : list Caller) : nat := length (List.filter c_reserve l).
Arguments weights : simpl never.

Lemma weights_app l k : weights (l ++ k) = (weights l + weights k)%nat.
Proof. unfold weights. by rewrite List.filter_app, length_app. Qed.
Lemma weights_cons c l : weights (c :: l) = (weight c + weights l)%nat.
Proof. unfold weights, weight. cbn. by destruct (c_reserve c). Qed.
Lemma weights_nil : weights [] = 0%nat.
Proof. done. Qed.
Lemma weights_perm l k : l ≡ₚ k -> weights l = weights k.
Proof. induction 1; rewrite ?weights_cons; lia. Qed.
Lemma reserving_weights s : reserving s = (weights (waiters s) + weights (map jobCaller (jobs s)))%nat.
Proof. unfold reserving, pending. apply weights_app. Qed.

Lemma idle_reserve_counted c js : Idle c ∈ js -> c_reserve c = true -> (1 <= weights (map jobCaller js))%nat.
Proof.
  intros Hin Hc. apply elem_of_Permutation in Hin as [k Hk]. rewrite (weights_perm _ (c :: map jobCaller k)) by (by rewrite Hk).
  rewrite weights_cons. unfold weight. rewrite Hc. lia.
Qed.

Lemma idle_exclusive c s : Exclusive s -> (reserving s + weight c <= 1)%nat -> Exclusive (idle c s).
Proof.
  intros (Hr & Hh & Hb & Hj) Hc. rewrite reserving_weights in Hc. unfold idle, Exclusive. rewrite reserving_weights.
  destruct (busy s) eqn:E; [destruct (isAborted c s)|]; cbn; rewrite ?E, ?map_app, ?weights_app; cbn; rewrite ?weights_cons, ?weights_nil;
    (split; [lia|split; [done|split; [done|]]]); intros c' Hin Hc'; [|by apply (Hj c')|done].
  apply elem_of_app in Hin as [Hin|Hin]; [by apply (Hj c')|]. by apply list_elem_of_singleton in Hin.
Qed.

Lemma settle_exclusive c o s : Exclusive s -> Exclusive (settle c o s).
Proof. done. Qed.

Lemma turn_exclusive s : Exclusive s -> Exclusive (turn s).
Proof.
  intros He. unfold turn. destruct (jobs s) as [|j js] eqn:E; [done|]. destruct He as (Hr & Hh & Hb & Hj).
  rewrite reserving_weights, E in Hr. cbn [map] in Hr. rewrite weights_cons in Hr.
  assert (Hs : Exclusive (setJobs js s)).
  { unfold Exclusive. rewrite reserving_weights. cbn. split; [lia|]. split; [done|]. split; [done|]. intros c Hin. apply Hj. rewrite E. by right. }
  destruct j as [c|c|c|c]; cbn [jobCaller] in Hr.
  - apply idle_exclusive; [done|]. rewrite reserving_weights. cbn. lia.
  - destruct Hs as (Hr' & Hs). unfold Exclusive. rewrite reserving_weights. cbn. rewrite map_app, weights_app. cbn. rewrite weights_cons, weights_nil.
    split; [lia|]. split; [done|]. split; [done|]. intros c' Hin Hc'. apply elem_of_app in Hin as [Hin|Hin]; [|by apply list_elem_of_singleton in Hin].
    apply (Hj c'); [rewrite E; by right|done].
  - unfold resume. destruct (c_reserve c) eqn:Ec; [|destruct (isAborted c _); exact Hs].
    assert (Hf : busy s = false) by (apply (Hj c); [rewrite E; left|done]). unfold Exclusive. rewrite reserving_weights. cbn. rewrite (Hb Hf). cbn.
    unfold weight in Hr. rewrite Ec in Hr. split; [lia|]. split; [lia|]. split; [done|]. intros c' Hin Hc'. exfalso.
    pose proof (idle_reserve_counted c' js Hin Hc'). lia.
  - exact Hs.
Qed.

Lemma on_exclusive s e : Exclusive s -> match e with Call c => negb (c_reserve c) || (reserving s =? 0)%nat | _ => true end = true -> Exclusive (on s e).
Proof.
  intros He Ho. destruct e as [c| |i|g]; cbn [on].
  - unfold call. destruct (_ && _); [done|]. apply idle_exclusive; [done|]. destruct He as [Hr _]. unfold weight. destruct (c_reserve c); [|lia].
    apply Nat.eqb_eq in Ho. lia.
  - by apply turn_exclusive.
  - unfold release. destruct (includes i (held s)) eqn:E; [|done]. destruct He as (Hr & Hh & Hb & Hj). unfold Exclusive. rewrite reserving_weights in *. cbn.
    rewrite map_app, map_map, weights_app, weights_nil. change (map (fun x => jobCaller (Resumed x)) (waiters s)) with (map id (waiters s)). rewrite map_id.
    apply bool_decide_eq_true in E. assert (Hd : held s = [i]) by (destruct (held s) as [|x [|y l]]; [by apply elem_of_nil in E|by apply list_elem_of_singleton in E; subst|cbn in Hh; lia]).
    rewrite Hd. split; [lia|]. split; [|split; [|done]]; cbn; rewrite decide_False by tauto; cbn; [lia|done].
  - destruct He as (Hr & Hh & Hb & Hj). unfold Exclusive. rewrite reserving_weights in *. cbn. rewrite map_app, map_map, weights_app.
    change (map (fun x => jobCaller (Rejected x))) with (map (@id Caller)). rewrite map_id.
    rewrite (weights_perm _ _ (partition_perm (waitsFor g) (waiters s))), weights_app in Hr. split; [lia|]. split; [done|]. split; [done|].
    intros c Hin Hc. apply elem_of_app in Hin as [Hin|Hin]; [by apply (Hj c)|]. apply list_elem_of_fmap in Hin as (? & ? & _). done.
Qed.

Lemma oneByOne_exclusive es s : Exclusive s -> oneByOne s es = true -> Exclusive (foldl on s es).
Proof. revert s. induction es as [|e es IH]; intros s Hs Ho; [done|]. cbn in *. apply andb_true_iff in Ho as [H1 H2]. apply IH; [by apply on_exclusive|done]. Qed.

(** *** The theorems *)

(** No call of the SQLite pool is lost: each has returned, waits for the session
    that is held, or is about to go on; and when no session is held, nobody waits. *)
Theorem sqlitePool_settles es :
  let s := run es in called es ≡ₚ (settled s).*1 ++ map callerOf (jobs s) ++ map c_id (waiters s) /\ (waiters s = [] \/ held s <> []).
Proof.
  destruct (run_state es) as [[Hf Ht] Hc]. cbn zeta. split; [rewrite <- Hc; unfold calls; solve_Permutation|].
  destruct (busy (run es)); [right; by apply Ht|left; by apply Hf].
Qed.

(** When each [reserve] is called only after the others have returned, at most one
    session of the SQLite connection is held, whatever else runs between. *)
Theorem sqlitePool_exclusive es : oneByOne init es = true -> (length (held (run es)) <= 1)%nat.
Proof. intros H. apply (oneByOne_exclusive es init); [|done]. split; [cbn; lia|]. split; [cbn; lia|done]. Qed.

Definition reserve_ (i : nat) : Event := Call (mkCaller i true None).

Lemma sqlitePool_exclusive_witness :
  oneByOne init [reserve_ 0; Turn; reserve_ 1; Release 0; Turn; Turn] = true /\ (length (held (run [reserve_ 0; Turn; reserve_ 1; Release 0; Turn; Turn])) <= 1)%nat.
Proof. split; [reflexivity|]. apply (sqlitePool_exclusive [reserve_ 0; Turn; reserve_ 1; Release 0; Turn; Turn]). reflexivity. Defined.

(** [reserve] marks the connection busy only when its wait for [idle] has ended, a turn
    behind the check: two calls of one turn, and two waiters that one release wakes,
    hold the one connection together. *)
Theorem sqlitePool_overlap :
  held (run [reserve_ 0; reserve_ 1; Turn; Turn]) = [0; 1]%nat /\
  held (run [reserve_ 0; Turn; reserve_ 1; reserve_ 2; Release 0; Turn; Turn; Turn; Turn]) = [1; 2]%nat.
Proof. done. Qed.
End SqlitePool.

(** ** The pool of flowmark sessions *)

Module MarkdownPool.
Import SqlitePool(Caller, mkCaller, c_id, c_signal).

Record MarkdownSession := mkSession { s_id : nat; s_created : Z }.
Record PoolBounds := mkBounds { size : nat; idleSize : nat; lifetimeMs : Z }.

(** A waiter that was woken, and one whose wait was rejected. *)
Inductive Job := Woken (c : Caller) | Rejected (c : Caller).
Definition jobCaller (j : Job) : Caller := match j with Woken c | Rejected c => c end.

Inductive Outcome := Acquired (session : nat) | Failed | Canceled | Closed.

(** [idle] is the stack of idle sessions, the last one first, [opening] the calls whose
    connection is being made with the time it began, [held] the sessions lent out, [broken] the sessions that
    are broken and [clock] the time. *)
Record State := mkState {
  idle : list MarkdownSession; open_ : nat; inUse : nat; closed : bool; waiters : list Caller;
  jobs : list Job; aborted : list nat; opening : list (Caller * Z); held : list MarkdownSession; broken : list nat; fresh : nat; clock : Z;
  settled : list (nat * Outcome) }.

Definition init : State := mkState [] 0 0 false [] [] [] [] [] [] 0 0 [].

Definition setJobs (l : list Job) (s : State) : State :=
  mkState (idle s) (open_ s) (inUse s) (closed s) (waiters s) l (aborted s) (opening s) (held s) (broken s) (fresh s) (clock s) (settled s).
Definition setWaiters (l : list Caller) (s : State) : State :=
  mkState (idle s) (open_ s) (inUse s) (closed s) l (jobs s) (aborted s) (opening s) (held s) (broken s) (fresh s) (clock s) (settled s).
Definition setIdle (l : list MarkdownSession) (opened : nat) (s : State) : State :=
  mkState l opened (inUse s) (closed s) (waiters s) (jobs s) (aborted s) (opening s) (held s) (broken s) (fresh s) (clock s) (settled s).
Definition setUse (opened used : nat) (l : list (Caller * Z)) (k : list MarkdownSession) (s : State) : State :=
  mkState (idle s) opened used (closed s) (waiters s) (jobs s) (aborted s) l k (broken s) (fresh s) (clock s) (settled s).
Definition settle (c : Caller) (o : Outcome) (s : State) : State :=
  mkState (idle s) (open_ s) (inUse s) (closed s) (waiters s) (jobs s) (aborted s) (opening s) (held s) (broken s) (fresh s) (clock s) (settled s ++ [(c_id c, o)]).
Definition break (i : nat) (s : State) : State :=
  mkState (idle s) (open_ s) (inUse s) (closed s) (waiters s) (jobs s) (aborted s) (opening s) (held s) (i :: broken s) (fresh s) (clock s) (settled s).

Section pool.
Variable bounds : PoolBounds.

(** A session that [acquire] closes instead of lending it. *)
Definition spent (x : MarkdownSession) (s : State) : bool :=
  includes (s_id x) (broken s) || ((0 <? lifetimeMs bounds) && (lifetimeMs bounds <=? clock s - s_created x))%Z.

(** The loop over the idle sessions: the session found, those behind it and the number
    of sessions closed on the way. *)
Fixpoint popIdle (s : State) (l : list MarkdownSession) : option MarkdownSession * list MarkdownSession * nat :=
  match l with
  | [] => (None, [], 0%nat)
  | x :: l => if spent x s then let '(found, rest, n) := popIdle s l in (found, rest, S n) else (Some x, l, 0%nat)
  end.

Definition isAborted (c : Caller) (s : State) : bool := match c_signal c with Some g => includes g (aborted s) | None => false end.

Definition wait (c : Caller) (s : State) : State := if isAborted c s then setJobs (jobs s ++ [Rejected c]) s else setWaiters (waiters s ++ [c]) s.

Definition wakeOne (s : State) : State := match waiters s with [] => s | c :: l => setJobs (jobs s ++ [Woken c]) (setWaiters l s) end.

(** [acquire] from the check of its loop up to its next wait. *)
Definition acquire (c : Caller) (s : State) : State :=
  if negb (closed s) && (size bounds <=? inUse s)%nat then wait c s
  else if closed s then settle c Closed s
  else
    let '(found, rest, n) := popIdle s (idle s) in
    let s := setIdle rest (open_ s - n) s in
    match found with
    | Some x => settle c (Acquired (s_id x)) (setUse (open_ s) (S (inUse s)) (opening s) (held s ++ [x]) s)
    | None => setUse (S (open_ s)) (S (inUse s)) (opening s ++ [(c, clock s)]) (held s) s
    end.

(** The end of [dialStatements] of a connection that is being made. *)
Definition dialed (n : nat) (ok : bool) (s : State) : State :=
  match opening s !! n with
  | None => s
  | Some (c, created) =>
      let others := delete n (opening s) in
      if ok then
        settle c (Acquired (fresh s))
          (mkState (idle s) (open_ s) (inUse s) (closed s) (waiters s) (jobs s) (aborted s) others (held s ++ [mkSession (fresh s) created]) (broken s) (S (fresh s))
             (clock s) (settled s))
      else settle c Failed (wakeOne (setUse (open_ s - 1) (inUse s - 1) others (held s) s))
  end.

(** [release] of a session that is held, broken before with [discard]. *)
Definition release (i : nat) (discard : bool) (s : State) : State :=
  match List.find (fun x => bool_decide (s_id x = i)) (held s) with
  | None => s
  | Some x =>
      let s := if discard then break i s else s in
      let s := setUse (open_ s) (inUse s - 1) (opening s) (List.filter (fun y => negb (bool_decide (s_id y = i))) (held s)) s in
      wakeOne (if includes i (broken s) || closed s || (idleSize bounds <=? length (idle s))%nat then setIdle (idle s) (open_ s - 1) s else setIdle (x :: idle s) (open_ s) s)
  end.

Definition close (s : State) : State :=
  mkState [] (open_ s - length (idle s)) (inUse s) true [] (jobs s ++ map Woken (waiters s)) (aborted s) (opening s) (held s) (broken s) (fresh s) (clock s) (settled s).

Definition waitsFor (g : nat) (c : Caller) : bool := bool_decide (c_signal c = Some g).
Definition abort (g : nat) (s : State) : State :=
  mkState (idle s) (open_ s) (inUse s) (closed s) (List.filter (fun c => negb (waitsFor g c)) (waiters s))
    (jobs s ++ map Rejected (List.filter (waitsFor g) (waiters s))) (g :: aborted s) (opening s) (held s) (broken s) (fresh s) (clock s) (settled s).

Definition turn (s : State) : State :=
  match jobs s with
  | [] => s
  | j :: js => let s := setJobs js s in match j with Woken c => acquire c s | Rejected c => settle c Canceled s end
  end.

Definition pass (ms : Z) (s : State) : State :=
  mkState (idle s) (open_ s) (inUse s) (closed s) (waiters s) (jobs s) (aborted s) (opening s) (held s) (broken s) (fresh s) (clock s + ms) (settled s).

(** Calls, the event loop, and what the sockets, the clock and the signals do. *)
Inductive Event :=
  | Acquire (c : Caller) | Turn | Dialed (n : nat) (ok : bool) | Release (i : nat) (discard : bool) | Broken (i : nat)
  | Close | Abort (g : nat) | Pass (ms : Z).

Definition on (s : State) (e : Event) : State :=
  match e with
  | Acquire c => acquire c s | Turn => turn s | Dialed n ok => dialed n ok s | Release i discard => release i discard s
  | Broken i => break i s | Close => close s | Abort g => abort g s | Pass ms => pass ms s
  end.
Definition run (es : list Event) : State := foldl on init es.
End pool.


(** *** The bounds and the callers *)

Definition woken (js : list Job) : nat := length (List.filter (fun j => match j with Woken _ => true | Rejected _ => false end) js).
Arguments woken : simpl never.
Definition sessions (s : State) : list MarkdownSession := idle s ++ held s.

(** The counts of the pool agree with its lists, no session is lent twice, and callers
    wait only for sessions that are in use or that a woken caller is about to take;
    [k] sessions were given back and woke nobody yet. *)
Record Inv (bounds : PoolBounds) (k : nat) (s : State) : Prop := mkInv {
  inv_inUse : inUse s = (length (held s) + length (opening s))%nat;
  inv_open : open_ s = (inUse s + length (idle s))%nat;
  inv_size : (open_ s <= size bounds)%nat;
  inv_idle : (length (idle s) <= idleSize bounds)%nat;
  inv_distinct : NoDup (map s_id (sessions s));
  inv_fresh : Forall (fun x => (s_id x < fresh s)%nat) (sessions s);
  inv_waiters : waiters s <> [] -> (size bounds <= inUse s + woken (jobs s) + k)%nat;
  inv_closed : closed s = true -> waiters s = [] /\ idle s = [] }.

Lemma woken_app l k : woken (l ++ k) = (woken l + woken k)%nat.
Proof. unfold woken. by rewrite List.filter_app, length_app. Qed.
Lemma woken_rejected l : woken (map Rejected l) = 0%nat.
Proof. induction l; [done|]. unfold woken in *. cbn. done. Qed.

Lemma part_distinct l l' k : l ≡ₚ l' ++ k -> NoDup (map s_id l) -> NoDup (map s_id l').
Proof. intros Hp. rewrite Hp, map_app. by intros [H _]%NoDup_app. Qed.
Lemma part_fresh n l l' k : l ≡ₚ l' ++ k -> Forall (fun x => (s_id x < n)%nat) l -> Forall (fun x => (s_id x < n)%nat) l'.
Proof. intros Hp. rewrite Hp. by intros [H _]%Forall_app. Qed.
Lemma grown_distinct l l' x : l' ≡ₚ x :: l -> NoDup (map s_id l) -> s_id x ∉ map s_id l -> NoDup (map s_id l').
Proof. intros Hp H Hx. rewrite Hp. cbn. by constructor. Qed.

Section pool.
Variable bounds : PoolBounds.

Lemma inv_more k k' s : (k <= k')%nat -> Inv bounds k s -> Inv bounds k' s.
Proof. intros Hk [H1 H2 H3 H4 H5 H6 H7 H8]. split; try done. intros H. specialize (H7 H). lia. Qed.

Lemma settle_inv k c o s : Inv bounds k s -> Inv bounds k (settle c o s).
Proof. intros [H1 H2 H3 H4 H5 H6 H7 H8]. by split. Qed.

Lemma wakeOne_inv s : Inv bounds 1 s -> Inv bounds 0 (wakeOne s).
Proof.
  intros [H1 H2 H3 H4 H5 H6 H7 H8]. unfold wakeOne. destruct (waiters s) as [|c l] eqn:E.
  - split; try done; by rewrite E.
  - split; try done; cbn.
    + intros _. rewrite woken_app. change (woken [Woken c]) with 1%nat. specialize (H7 ltac:(done)). lia.
    + intros Hc. by destruct (H8 Hc).
Qed.

Lemma popIdle_spec s l found rest n : popIdle bounds s l = (found, rest, n) ->
  exists front, l = front ++ match found with Some x => [x] | None => [] end ++ rest /\ length front = n /\ Forall (fun x => spent bounds x s = true) front /\
    match found with Some x => spent bounds x s = false | None => rest = [] end.
Proof.
  revert found rest n. induction l as [|x l IH]; intros found rest n; cbn [popIdle]; [intros [= <- <- <-]; by exists []|].
  destruct (spent bounds x s) eqn:E.
  - destruct (popIdle bounds s l) as [[found' rest'] n'] eqn:E'. intros [= <- <- <-]. destruct (IH _ _ _ eq_refl) as (front & -> & <- & Hf & H).
    exists (x :: front). repeat split; [by constructor|done].
  - intros [= <- <- <-]. by exists [].
Qed.

Lemma acquire_inv c s : Inv bounds 1 s -> Inv bounds 0 (acquire bounds c s).
Proof.
  intros [H1 H2 H3 H4 H5 H6 H7 H8]. unfold acquire. destruct (negb (closed s) && (size bounds <=? inUse s)%nat) eqn:E.
  { apply andb_true_iff in E as [Ec Es%Nat.leb_le]. unfold wait. destruct (isAborted c s); split; try done; cbn; try (intros; lia).
    intros Hc. by rewrite Hc in Ec. }
  destruct (closed s) eqn:Ec.
  { apply settle_inv. split; try done; [|by rewrite Ec]. intros Hw. by destruct (H8 eq_refl). }
  cbn in E. apply Nat.leb_gt in E. destruct (popIdle bounds s (idle s)) as [[found rest] n] eqn:Ep. apply popIdle_spec in Ep as (front & Hl & <- & _ & Hfound).
  rewrite Hl in *. destruct found as [x|]; cbn [app] in *; rewrite !length_app in *; cbn [length] in *.
  - apply settle_inv. split; cbn [idle open_ inUse closed waiters jobs opening held fresh setUse setIdle]; rewrite ?length_app; cbn [length]; try lia.
    + apply (part_distinct (idle s ++ held s) _ front); [|done]. unfold sessions. cbn. rewrite Hl. cbn. solve_Permutation.
    + apply (part_fresh _ (idle s ++ held s) _ front); [|done]. unfold sessions. cbn. rewrite Hl. cbn. solve_Permutation.
    + intros Hw. specialize (H7 Hw). lia.
    + by rewrite Ec.
  - subst rest. split; cbn [idle open_ inUse closed waiters jobs opening held fresh setUse setIdle]; rewrite ?length_app; cbn [length] in *; try lia.
    + apply (part_distinct (idle s ++ held s) _ front); [|done]. unfold sessions. cbn. rewrite Hl. cbn. solve_Permutation.
    + apply (part_fresh _ (idle s ++ held s) _ front); [|done]. unfold sessions. cbn. rewrite Hl. cbn. solve_Permutation.
    + intros Hw. specialize (H7 Hw). lia.
    + by rewrite Ec.
Qed.

Lemma dialed_inv n ok s : (0 < size bounds)%nat -> Inv bounds 0 s -> Inv bounds 0 (dialed n ok s).
Proof.
  intros Hsize [H1 H2 H3 H4 H5 H6 H7 H8]. unfold dialed. destruct (opening s !! n) as [[c created]|] eqn:E; [|done].
  assert (Hd : (length (delete n (opening s)) = length (opening s) - 1)%nat) by (apply length_delete; by eexists).
  assert (Hn : (n < length (opening s))%nat) by by apply lookup_lt_Some in E.
  destruct ok; apply settle_inv.
  - split; cbn [idle open_ inUse closed waiters jobs opening held fresh]; rewrite ?length_app; cbn [length]; try done; try lia.
    + apply (grown_distinct (sessions s) _ (mkSession (fresh s) created)); [unfold sessions; cbn; solve_Permutation|done|]. cbn.
      intros (x & Hx & Hin)%list_elem_of_fmap. rewrite Forall_forall in H6. specialize (H6 x Hin). lia.
    + rewrite Forall_forall in *. unfold sessions in *. cbn in *. intros x Hin. rewrite !elem_of_app, list_elem_of_singleton in Hin.
      destruct Hin as [Hin|[Hin| ->]]; [| |cbn; lia]; (assert (x ∈ idle s ++ held s) as Hx by (rewrite elem_of_app; tauto)); specialize (H6 x Hx); lia.
  - apply wakeOne_inv. split; cbn [idle open_ inUse closed waiters jobs opening held fresh setUse]; try done; try lia. intros Hw. specialize (H7 Hw). lia.
Qed.

(** Taking the one session of an identity out of those that are held. *)
Lemma held_split i l x : List.find (fun y => bool_decide (s_id y = i)) l = Some x -> NoDup (map s_id l) ->
  s_id x = i /\ l ≡ₚ x :: List.filter (fun y => negb (bool_decide (s_id y = i))) l.
Proof.
  induction l as [|y l IH]; [done|]. cbn. intros Hf [Hy Hd]%NoDup_cons. destruct (decide (s_id y = i)) as [E|E].
  - rewrite bool_decide_true in Hf |- * by done. injection Hf as <-. split; [done|]. cbn. constructor.
    assert (H : forall z, z ∈ l -> s_id z <> i) by (intros z Hz <-; apply Hy; rewrite E; by apply list_elem_of_fmap_2).
    clear -H. induction l as [|z l IH]; [done|]. cbn. rewrite bool_decide_false by (apply H; left). cbn. constructor. apply IH. intros z' Hz'. apply H. by right.
  - rewrite bool_decide_false in Hf |- * by done. destruct (IH Hf Hd) as [Hx Hp]. split; [done|]. cbn. rewrite Hp at 1. solve_Permutation.
Qed.

Lemma break_inv k i s : Inv bounds k s -> Inv bounds k (break i s).
Proof. intros [H1 H2 H3 H4 H5 H6 H7 H8]. by split. Qed.

Lemma given_back i s x : List.find (fun y => bool_decide (s_id y = i)) (held s) = Some x -> Inv bounds 0 s ->
  Inv bounds 1 (let s' := setUse (open_ s) (inUse s - 1) (opening s) (List.filter (fun y => negb (bool_decide (s_id y = i))) (held s)) s in
    if includes i (broken s) || closed s || (idleSize bounds <=? length (idle s))%nat then setIdle (idle s) (open_ s - 1) s' else setIdle (x :: idle s) (open_ s) s').
Proof.
  intros Hf [H1 H2 H3 H4 H5 H6 H7 H8]. unfold sessions in *.
  destruct (held_split i (held s) x Hf) as [Hx Hp]; [rewrite map_app in H5; by apply NoDup_app in H5 as (_ & _ & H5)|].
  set (others := List.filter (fun y => negb (bool_decide (s_id y = i))) (held s)) in *. pose proof (Permutation_length Hp) as Hlen. cbn in Hlen.
  destruct (includes i (broken s) || closed s || (idleSize bounds <=? length (idle s))%nat) eqn:E; split;
    cbn [idle open_ inUse closed waiters jobs opening held fresh setUse setIdle length] in *; try lia; try (intros Hw; specialize (H7 Hw); lia).
  - apply (part_distinct (idle s ++ held s) _ [x]); [|done]. unfold sessions. cbn. rewrite Hp. solve_Permutation.
  - apply (part_fresh _ (idle s ++ held s) _ [x]); [|done]. unfold sessions. cbn. rewrite Hp. solve_Permutation.
  - done.
  - apply orb_false_iff in E as [_ E%Nat.leb_gt]. lia.
  - apply (part_distinct (idle s ++ held s) _ []); [|done]. unfold sessions. cbn. rewrite Hp. solve_Permutation.
  - apply (part_fresh _ (idle s ++ held s) _ []); [|done]. unfold sessions. cbn. rewrite Hp. solve_Permutation.
  - intros Hc. apply orb_false_iff in E as [E _]. rewrite Hc, orb_true_r in E. done.
Qed.

Lemma release_inv i discard s : Inv bounds 0 s -> Inv bounds 0 (release bounds i discard s).
Proof.
  intros Hi. unfold release. destruct (List.find _ (held s)) as [x|] eqn:Hf; [|done]. apply wakeOne_inv.
  destruct discard; [|exact (given_back i s x Hf Hi)]. exact (given_back i (break i s) x Hf (break_inv 0 i s Hi)).
Qed.

Lemma turn_inv s : Inv bounds 0 s -> Inv bounds 0 (turn bounds s).
Proof.
  intros Hi. unfold turn. destruct (jobs s) as [|j js] eqn:E; [done|]. destruct Hi as [H1 H2 H3 H4 H5 H6 H7 H8]. destruct j as [c|c].
  - apply acquire_inv. split; try done. cbn. intros Hw. specialize (H7 Hw). rewrite E in H7. change (woken (Woken c :: js)) with (S (woken js)) in H7. lia.
  - apply settle_inv. split; try done. cbn. intros Hw. specialize (H7 Hw). by rewrite E in H7.
Qed.

Lemma on_inv s e : (0 < size bounds)%nat -> Inv bounds 0 s -> Inv bounds 0 (on bounds s e).
Proof.
  intros Hsize Hi. destruct e as [c| |n ok|i discard|i| |g|ms]; cbn [on].
  - apply acquire_inv. by eapply inv_more; [|exact Hi]; lia.
  - by apply turn_inv.
  - by apply dialed_inv.
  - by apply release_inv.
  - by apply break_inv.
  - destruct Hi as [H1 H2 H3 H4 H5 H6 H7 H8]. split; cbn [idle open_ inUse closed waiters jobs opening held fresh close length]; try lia; try done.
    + apply (part_distinct (sessions s) _ (idle s)); [|done]. unfold sessions. cbn. solve_Permutation.
    + apply (part_fresh _ (sessions s) _ (idle s)); [|done]. unfold sessions. cbn. solve_Permutation.
  - destruct Hi as [H1 H2 H3 H4 H5 H6 H7 H8]. split; try done; cbn.
    + intros Hw. rewrite woken_app, woken_rejected. assert (H : waiters s <> []) by (by intros E; rewrite E in Hw). specialize (H7 H). lia.
    + intros Hc. destruct (H8 Hc) as [-> ->]. done.
  - destruct Hi as [H1 H2 H3 H4 H5 H6 H7 H8]. by split.
Qed.

Lemma run_inv es : (0 < size bounds)%nat -> Inv bounds 0 (run bounds es).
Proof.
  intros Hsize. unfold run. induction es as [|e es IH] using rev_ind; [|rewrite foldl_app; by apply on_inv].
  split; cbn; try lia; try done; constructor.
Qed.
End pool.

(** *** Every call is kept *)

Definition called (es : list Event) : list nat := omap (fun e => match e with Acquire c => Some (c_id c) | _ => None end) es.

(** The calls that have not returned and those that have. *)
Definition calls (s : State) : list nat :=
  map c_id (waiters s) ++ map (fun j => c_id (jobCaller j)) (jobs s) ++ map (fun p => c_id (fst p)) (opening s) ++ (settled s).*1.

Lemma pool_settle_calls c o s : calls (settle c o s) ≡ₚ c_id c :: calls s.
Proof. unfold calls. cbn. rewrite fmap_app. cbn. solve_Permutation. Qed.
Lemma wakeOne_calls s : calls (wakeOne s) ≡ₚ calls s.
Proof. unfold wakeOne. destruct (waiters s) as [|c l] eqn:E; [done|]. unfold calls. cbn. rewrite E, map_app. cbn. solve_Permutation. Qed.

Lemma acquire_calls bounds c s : calls (acquire bounds c s) ≡ₚ c_id c :: calls s.
Proof.
  unfold acquire. destruct (_ && _).
  { unfold wait. destruct (isAborted c s); unfold calls; cbn; rewrite map_app; cbn; solve_Permutation. }
  destruct (closed s); [apply pool_settle_calls|]. destruct (popIdle bounds s (idle s)) as [[[x|] rest] n]; [by rewrite pool_settle_calls|].
  unfold calls; cbn. rewrite map_app. cbn. solve_Permutation.
Qed.

Lemma pool_on_calls bounds s e : calls (on bounds s e) ≡ₚ match e with Acquire c => [c_id c] | _ => [] end ++ calls s.
Proof.
  destruct e as [c| |n ok|i discard|i| |g|ms]; cbn [on].
  - apply acquire_calls.
  - unfold turn. destruct (jobs s) as [|j js] eqn:E; [done|].
    assert (H : calls s ≡ₚ c_id (jobCaller j) :: calls (setJobs js s)) by (unfold calls; rewrite E; cbn; solve_Permutation).
    cbn. rewrite H. destruct j as [c|c]; [apply acquire_calls|apply pool_settle_calls].
  - unfold dialed. destruct (opening s !! n) as [[c created]|] eqn:E; [|done].
    assert (H : map (fun p => c_id (fst p)) (opening s) ≡ₚ c_id c :: map (fun p => c_id (fst p)) (delete n (opening s))) by (exact (Permutation.Permutation_map (fun p => c_id (fst p)) (delete_Permutation _ _ _ E))).
    destruct ok; rewrite pool_settle_calls; [|rewrite wakeOne_calls]; unfold calls; cbn; rewrite H; solve_Permutation.
  - unfold release. destruct (List.find _ _); [|done]. rewrite wakeOne_calls. by destruct discard, (_ || _).
  - done.
  - unfold calls; cbn. rewrite map_app, map_map. cbn. change (map (fun x => c_id x) (waiters s)) with (map c_id (waiters s)). solve_Permutation.
  - unfold calls; cbn. rewrite map_app, map_map. cbn.
    rewrite (SqlitePool.partition_perm (waitsFor g) (waiters s)) at 3. rewrite map_app. solve_Permutation.
  - done.
Qed.

Lemma run_calls bounds es : calls (run bounds es) ≡ₚ called es.
Proof.
  unfold run, called. induction es as [|e es IH] using rev_ind; [done|]. rewrite foldl_app, omap_app. cbn [foldl]. rewrite pool_on_calls, IH.
  destruct e; cbn; solve_Permutation.
Qed.

(** Whatever its sockets, signals and callers do, the pool of flowmark sessions has
    never more than its size of sessions open, keeps at most its number of idle ones,
    lends no session to two callers, and its statistics are those of its lists. *)
Theorem markdownPool_bounds n idleMax lifetime es :
  let bounds := mkBounds (S n) idleMax lifetime in let s := run bounds es in
  (open_ s <= S n /\ length (idle s) <= idleMax /\ open_ s = inUse s + length (idle s) /\ inUse s = length (held s) + length (opening s))%nat /\
  NoDup (map s_id (idle s ++ held s)).
Proof. destruct (run_inv (mkBounds (S n) idleMax lifetime) es) as [H1 H2 H3 H4 H5 H6 H7 H8]; [cbn; lia|]. cbn in *. auto. Qed.

(** No call of the pool of flowmark sessions is lost: each has returned, waits, opens
    a connection or is about to go on, and while one waits, the sessions that are in use
    and those that woken callers are about to take are as many as the pool may open. *)
Theorem markdownPool_settles n idleMax lifetime es :
  let s := run (mkBounds (S n) idleMax lifetime) es in
  called es ≡ₚ (settled s).*1 ++ map (fun p => c_id (fst p)) (opening s) ++ map (fun j => c_id (jobCaller j)) (jobs s) ++ map c_id (waiters s) /\
  (waiters s = [] \/ S n <= inUse s + woken (jobs s))%nat.
Proof.
  cbn zeta. split; [rewrite <- (run_calls (mkBounds (S n) idleMax lifetime)); unfold calls; solve_Permutation|].
  destruct (run_inv (mkBounds (S n) idleMax lifetime) es) as [_ _ _ _ _ _ H _]; [cbn; lia|]. destruct (waiters _); [by left|right]. specialize (H ltac:(done)). cbn in H. lia.
Qed.
End MarkdownPool.

(** ** The connection of a LISTEN subscription *)

Module Listener.

Record Notification := mkNotification { n_channel : string; n_payload : string; n_pid : Z }.

Inductive Outcome := Received (n : Notification) | Failed (e : fault).

(** [listening] are the receives whose abort listener is registered, with their signal,
    in the order of registration; receives are numbered by their calls. *)
Record State := mkState {
  queue : list Notification; waiter : option nat; closed : bool; failure : option fault;
  listening : list (nat * nat); aborted : list nat; next : nat; settled : list (nat * Outcome) }.

Definition init : State := mkState [] None false None [] [] 0 [].

Definition closedError : fault := Orm CONFIG "the LISTEN subscription is closed" None None.
Definition cancelled : fault := Orm CANCELED "the receive of the LISTEN subscription was cancelled" None None.

Definition log (i : nat) (o : Outcome) (s : State) : State :=
  mkState (queue s) (waiter s) (closed s) (failure s) (listening s) (aborted s) (next s) (settled s ++ [(i, o)]).

(** [settle]: the waiter is cleared, whichever receive it is. *)
Definition settle (i : nat) (o : Outcome) (s : State) : State :=
  log i o (mkState (queue s) None (closed s) (failure s) (filter (fun p => fst p <> i) (listening s)) (aborted s) (next s) (settled s)).

Definition markClosed (s : State) : State := mkState (queue s) (waiter s) true (failure s) (listening s) (aborted s) (next s) (settled s).
Definition setFailure (f : option fault) (s : State) : State := mkState (queue s) (waiter s) (closed s) f (listening s) (aborted s) (next s) (settled s).
Definition setQueue (q : list Notification) (s : State) : State := mkState q (waiter s) (closed s) (failure s) (listening s) (aborted s) (next s) (settled s).
Definition addReceive (s : State) : State := mkState (queue s) (waiter s) (closed s) (failure s) (listening s) (aborted s) (S (next s)) (settled s).

(** A notification of the client; one without a payload has the empty one. *)
Definition notified (channel : string) (payload : option string) (pid : Z) : Notification := mkNotification channel (default "" payload) pid.
Definition onNotification (n : Notification) (s : State) : State :=
  match waiter s with None => setQueue (queue s ++ [n]) s | Some w => settle w (Received n) s end.

(** An error of the client, as [onFailure] gives it. *)
Definition onError (f : fault) (s : State) : State :=
  let s := markClosed s in match waiter s with Some w => settle w (Failed f) s | None => setFailure (Some f) s end.

Definition isAborted (signal : option nat) (s : State) : bool := match signal with Some g => includes g (aborted s) | None => false end.

(** [receive]; [closing] is the error of the [close] that it may call. *)
Definition receive (signal : option nat) (closing : option fault) (s : State) : State :=
  let i := next s in
  let s := addReceive s in
  if closed s then
    match failure s with
    | Some f => log i (Failed f) (setFailure None s)
    | None => log i (Failed closedError) s
    end
  else
    match queue s with
    | n :: q => log i (Received n) (setQueue q s)
    | [] =>
        if isAborted signal s then log i (Failed (default cancelled closing)) (markClosed s)
        else
          mkState [] (Some i) false (failure s) (listening s ++ match signal with Some g => [(i, g)] | None => [] end) (aborted s) (next s) (settled s)
    end.

Definition abort (g : nat) (s : State) : State :=
  let s' := mkState (queue s) (waiter s) (closed s) (failure s) (listening s) (g :: aborted s) (next s) (settled s) in
  foldl (fun s p => markClosed (settle (fst p) (Failed cancelled) s)) s' (filter (fun p => snd p = g) (listening s)).

(** The statements of the subscription and its channels. *)
Definition quoteIdent (name : string) : string := str [dq; replace_all dqc (str [dq; dq]) name; dq].
Definition listenSql (channel : string) : string := str ["LISTEN "; quoteIdent channel].
Definition unlistenSql (channel : string) : string := str ["UNLISTEN "; quoteIdent channel].
Definition channelMessage : string := "a channel is 1 to 63 bytes without U+0000".
Definition checkChannel (channel : string) : res unit :=
  if (slen channel <? 1)%Z || (63 <? slen channel)%Z || negb (all_chars (fun a => negb (bool_decide (a = ascii_of_nat 0))) channel) then Err (OrmError CONFIG channelMessage) else Ok tt.

Inductive Event := Receive (signal : option nat) (closing : option fault) | Notify (n : Notification) | Error (f : fault) | Abort (g : nat) | Close.

Definition on (s : State) (e : Event) : State :=
  match e with
  | Receive signal closing => receive signal closing s | Notify n => onNotification n s | Error f => onError f s
  | Abort g => abort g s | Close => markClosed s
  end.
Definition run (es : list Event) : State := foldl on init es.

(** *** Delivery *)

Definition arrived (es : list Event) : list Notification := omap (fun e => match e with Notify n => Some n | _ => None end) es.
Definition received (s : State) : list Notification := omap (fun p => match snd p with Received n => Some n | Failed _ => None end) (settled s).

Record Inv (s : State) : Prop := mkInv {
  inv_waiter : waiter s <> None -> queue s = [];
  inv_waiting : forall w, waiter s = Some w -> (w < next s)%nat /\ w ∉ (settled s).*1;
  inv_listening : NoDup (listening s).*1 /\ forall i, i ∈ (listening s).*1 -> (i < next s)%nat /\ i ∉ (settled s).*1;
  inv_settled : NoDup (settled s).*1 /\ forall i, i ∈ (settled s).*1 -> (i < next s)%nat }.

Lemma elem_snoc {A} (x i : nat) (o : A) l : x ∈ (l ++ [(i, o)]).*1 <-> x ∈ l.*1 \/ x = i.
Proof. rewrite fmap_app, elem_of_app. cbn. by rewrite list_elem_of_singleton. Qed.

Lemma log_fresh i o s : NoDup (settled s).*1 -> i ∉ (settled s).*1 -> NoDup (settled (log i o s)).*1.
Proof. intros H Hi. cbn. rewrite fmap_app. apply NoDup_app. split; [done|]. split; [|apply NoDup_singleton]. intros x Hx Hn. apply list_elem_of_singleton in Hn. by subst. Qed.

Lemma settled_inv i o s : Inv s -> (i < next s)%nat -> i ∉ (settled s).*1 -> Inv (settle i o s).
Proof.
  intros [H1 H2 [H3 H3'] [H4 H4']] Hn Hi. split; cbn; [done|done| |].
  - split.
    + eapply sublist_NoDup; [exact H3|]. apply fmap_sublist, sublist_filter.
    + intros j (p & -> & [Hp Hin]%list_elem_of_filter)%list_elem_of_fmap. destruct (H3' p.1) as [Hj Hj']; [by apply list_elem_of_fmap_2|].
      split; [done|]. rewrite elem_snoc. intros [Hs|E]; [done|by apply Hp].
  - split; [by apply log_fresh|]. intros j. rewrite elem_snoc. intros [Hj| ->]; auto.
Qed.

Lemma settle_received i o s : received (settle i o s) = received s ++ match o with Received n => [n] | Failed _ => [] end.
Proof. unfold received. cbn. rewrite omap_app. by destruct o. Qed.

Lemma receive_inv signal closing s : Inv s -> Inv (receive signal closing s).
Proof.
  intros [H1 H2 [H3 H3'] [H4 H4']]. assert (Hn : next s ∉ (settled s).*1) by (intros H; specialize (H4' _ H); lia).
  assert (Hlog : forall o s', settled s' = settled s -> next s' = S (next s) -> NoDup (settled (log (next s) o s')).*1 /\ forall i, i ∈ (settled (log (next s) o s')).*1 -> (i < next (log (next s) o s'))%nat).
  { intros o s' Es En. split; [apply log_fresh; by rewrite Es|]. intros i. cbn. rewrite Es, En, elem_snoc.
    intros [Hi| ->]; [specialize (H4' i Hi)|]; lia. }
  assert (Hw : forall o s', settled s' = settled s -> next s' = S (next s) -> forall w, (w < next s)%nat /\ w ∉ (settled s).*1 -> (w < next (log (next s) o s'))%nat /\ w ∉ (settled (log (next s) o s')).*1).
  { intros o s' Es En w [Hl Hi]. cbn. rewrite Es, En, elem_snoc. split; [lia|]. intros [|]; [done|lia]. }
  unfold receive. destruct (closed s) eqn:Ec; cbn [closed addReceive]; rewrite Ec.
  { destruct (failure s) as [f|] eqn:Ef; cbn [failure addReceive]; rewrite Ef; (split; [exact H1|intros w E; apply Hw; [done|done|by apply H2]|split; [exact H3|intros i Hi; apply Hw; [done|done|by apply H3']]|by apply Hlog]). }
  destruct (queue s) as [|n q] eqn:Eq; cbn [queue addReceive]; rewrite Eq.
  - destruct (isAborted signal (addReceive s)).
    { split; cbn [waiter queue log markClosed addReceive]; [done|intros w E; apply Hw; [done|done|by apply H2]|split; [exact H3|intros i Hi; apply Hw; [done|done|by apply H3']]|by apply Hlog]. }
    split; cbn; [done| | |].
    + intros w [= <-]. split; [lia|done].
    + destruct signal as [g|]; rewrite ?app_nil_r.
      * split.
        -- rewrite fmap_app. apply NoDup_app. split; [done|]. split; [|apply NoDup_singleton]. intros i Hi Hi'. apply list_elem_of_singleton in Hi' as ->. destruct (H3' _ Hi). cbn in *. lia.
        -- intros i. rewrite elem_snoc. intros [Hi| ->]; [destruct (H3' i Hi); split; [lia|done]|split; [lia|done]].
      * split; [done|]. intros i Hi. destruct (H3' i Hi). split; [lia|done].
    + split; [done|]. intros i Hi. specialize (H4' i Hi). lia.
  - split; cbn [waiter queue log setQueue addReceive]; [|intros w E; apply Hw; [done|done|by apply H2]|split; [exact H3|intros i Hi; apply Hw; [done|done|by apply H3']]|by apply Hlog].
    intros Hq. specialize (H1 Hq). done.
Qed.

Lemma closed_inv s : Inv s -> Inv (markClosed s).
Proof. intros [H1 H2 H3 H4]. by split. Qed.

Lemma filter_keep {A} (P : A -> Prop) `{!forall x, Decision (P x)} (l : list A) : (forall x, x ∈ l -> P x) -> filter P l = l.
Proof. induction l as [|x l IH]; intros Hl; [done|]. rewrite filter_cons_True by (apply Hl; left). f_equal. apply IH. intros y Hy. apply Hl. by right. Qed.

Lemma abort_fold l s : Inv s -> l `sublist_of` listening s ->
  Inv (foldl (fun s p => markClosed (settle (fst p) (Failed cancelled) s)) s l) /\
  queue (foldl (fun s p => markClosed (settle (fst p) (Failed cancelled) s)) s l) = queue s /\
  received (foldl (fun s p => markClosed (settle (fst p) (Failed cancelled) s)) s l) = received s.
Proof.
  revert s. induction l as [|p l IH]; intros s Hi Hl; [done|]. cbn [foldl].
  pose proof Hi as [_ _ [Hd Hin] _].
  assert (Hp : p ∈ listening s) by (eapply elem_of_sublist; [left|exact Hl]). destruct (Hin p.1) as [Hn Hs]; [by apply list_elem_of_fmap_2|].
  destruct (IH (markClosed (settle p.1 (Failed cancelled) s))) as (IH1 & IH2 & IH3).
  - apply closed_inv. by apply settled_inv.
  - cbn. apply sublist_cons_l in Hl as (front & rest & El & Hl). rewrite El in Hd |- *. rewrite fmap_app in Hd. cbn in Hd.
    apply NoDup_app in Hd as (_ & Hf & [Hp' _]%NoDup_cons). rewrite filter_app, filter_cons_False by (by intros H; apply H).
    rewrite (filter_keep _ rest); [by apply sublist_inserts_l|].
    intros q Hq E. apply Hp'. rewrite <- E. by apply list_elem_of_fmap_2.
  - split; [done|]. split; [by rewrite IH2|]. rewrite IH3. change (received (markClosed ?x)) with (received x). rewrite settle_received. apply app_nil_r.
Qed.

Lemma received_log i o s : received (log i o s) = received s ++ match o with Received n => [n] | Failed _ => [] end.
Proof. unfold received. cbn. rewrite omap_app. by destruct o. Qed.

Lemma on_state s e : Inv s -> Inv (on s e) /\ received (on s e) ++ queue (on s e) = (received s ++ queue s) ++ match e with Notify n => [n] | _ => [] end.
Proof.
  intros Hi. destruct e as [signal closing|n|f|g|]; cbn [on].
  - split; [by apply receive_inv|]. unfold receive. rewrite app_nil_r. destruct (closed s) eqn:Ec; cbn [closed addReceive]; rewrite Ec.
    { destruct (failure s) eqn:Ef; cbn [failure addReceive]; rewrite Ef, received_log, app_nil_r; done. }
    destruct (queue s) as [|n q] eqn:Eq; cbn [queue addReceive]; rewrite Eq.
    + destruct (isAborted signal (addReceive s)); [|by rewrite !app_nil_r]. rewrite received_log, app_nil_r. cbn. by rewrite Eq.
    + rewrite received_log, <- app_assoc. done.
  - unfold onNotification. destruct (waiter s) as [w|] eqn:Ew.
    + destruct Hi as [H1 H2 H3 H4]. destruct (H2 w Ew) as [Hn Hs]. split; [by apply settled_inv|]. rewrite settle_received. cbn.
      rewrite (H1 ltac:(by rewrite Ew)), !app_nil_r. done.
    + split; [destruct Hi as [H1 H2 H3 H4]; by split; cbn; rewrite ?Ew|]. cbn. by rewrite app_assoc.
  - unfold onError. cbn. rewrite app_nil_r. destruct (waiter s) as [w|] eqn:Ew.
    + pose proof Hi as [H1 H2 H3 H4]. destruct (H2 w Ew) as [Hn Hs]. split; [by apply settled_inv; [apply closed_inv| |]|]. by rewrite settle_received, app_nil_r.
    + split; [destruct Hi as [H1 H2 H3 H4]; by split|done].
  - unfold abort. set (s' := mkState _ _ _ _ _ (g :: aborted s) _ _). destruct (abort_fold (filter (fun p => snd p = g) (listening s)) s') as (Ha & Hq & Hr).
    + destruct Hi as [H1 H2 H3 H4]. by split.
    + apply sublist_filter.
    + split; [exact Ha|]. rewrite Hq, Hr, app_nil_r. done.
  - split; [by apply closed_inv|by rewrite app_nil_r].
Qed.

Lemma run_delivers es : Inv (run es) /\ received (run es) ++ queue (run es) = arrived es.
Proof.
  unfold run, arrived. induction es as [|e es [IHi IHr]] using rev_ind.
  - split; [|done]. split; cbn; [done|done| |]; (split; [constructor|intros ? []%elem_of_nil]).
  - rewrite foldl_app, omap_app. cbn [foldl]. destruct (on_state _ e IHi) as [Hi Hr]. split; [done|]. rewrite Hr, IHr. by destruct e.
Qed.

(** *** The receives that end *)

(** Each receive is called when no other waits. *)
Fixpoint oneByOne (s : State) (es : list Event) : bool :=
  match es with
  | [] => true
  | e :: es => match e with Receive _ _ => bool_decide (waiter s = None) | _ => true end && oneByOne (on s e) es
  end.

(** Every receive has ended but the one that waits, whose abort listener is the only one. *)
Definition Ended (s : State) : Prop :=
  (forall i, (i < next s)%nat -> i ∈ (settled s).*1 \/ waiter s = Some i) /\ (forall p, p ∈ listening s -> waiter s = Some p.1).

Lemma settle_ended i o s : Ended s -> waiter s = Some i -> Ended (settle i o s).
Proof.
  intros [H1 H2] Hw. split; cbn.
  - intros j Hj. left. rewrite elem_snoc. destruct (H1 j Hj) as [|E]; [by left|right]. rewrite Hw in E. by injection E.
  - intros p [Hp Hin]%list_elem_of_filter. specialize (H2 p Hin). rewrite Hw in H2. by injection H2 as E.
Qed.

Lemma log_ended o s s' : Ended s -> settled s' = settled s -> next s' = S (next s) -> waiter s' = waiter s -> listening s' = listening s -> Ended (log (next s) o s').
Proof.
  intros [H1 H2] Es En Ew El. split; cbn; rewrite ?Es, ?En, ?Ew, ?El; [|done].
  intros i Hi. rewrite elem_snoc. destruct (decide (i = next s)) as [->|Hne]; [left; by right|]. destruct (H1 i); [lia|left; by left|by right].
Qed.

Lemma receive_ended signal closing s : Ended s -> waiter s = None -> Ended (receive signal closing s).
Proof.
  intros He Hw. unfold receive. destruct (closed s) eqn:Ec; cbn [closed addReceive]; rewrite Ec.
  { destruct (failure s) eqn:Ef; cbn [failure addReceive]; rewrite Ef; by apply log_ended. }
  destruct (queue s) as [|n q] eqn:Eq; cbn [queue addReceive]; rewrite Eq; [|by apply log_ended].
  destruct (isAborted signal (addReceive s)); [by apply log_ended|]. destruct He as [H1 H2]. split; cbn.
  - intros i Hi. destruct (decide (i = next s)) as [->|Hne]; [by right|]. left. destruct (H1 i) as [|E]; [lia|done|by rewrite Hw in E].
  - intros p. rewrite elem_of_app. intros [Hp|Hp]; [specialize (H2 p Hp); by rewrite Hw in H2|]. destruct signal; [by apply list_elem_of_singleton in Hp as ->|by apply elem_of_nil in Hp].
Qed.

Lemma abort_ended (l : list (nat * nat)) s : Ended s -> (length l <= 1)%nat -> (forall p, p ∈ l -> waiter s = Some p.1) ->
  Ended (foldl (fun s p => markClosed (settle (fst p) (Failed cancelled) s)) s l).
Proof.
  intros He Hl Hp. destruct l as [|p [|q l]]; [done| |cbn in Hl; lia]. cbn. apply (settle_ended p.1 (Failed cancelled)) in He; [exact He|]. apply Hp. left.
Qed.

Lemma on_ended s e : Inv s -> Ended s -> match e with Receive _ _ => bool_decide (waiter s = None) | _ => true end = true -> Ended (on s e).
Proof.
  intros Hi He Ho. destruct e as [signal closing|n|f|g|]; cbn [on]; try exact He.
  - apply bool_decide_eq_true in Ho. by apply receive_ended.
  - unfold onNotification. destruct (waiter s) as [w|] eqn:Ew; [by apply settle_ended|exact He].
  - unfold onError. cbn. destruct (waiter s) as [w|] eqn:Ew; [by apply settle_ended|exact He].
  - unfold abort. apply abort_ended; [exact He| |]; cbn.
    + destruct He as [_ H2], Hi as [_ _ [Hd _] _]. pose proof (sublist_filter (fun p : nat * nat => p.2 = g) (listening s)) as Hsub.
      destruct (filter _ (listening s)) as [|p [|q l]]; [cbn; lia|cbn; lia|exfalso].
      assert (Hp : waiter s = Some p.1) by (apply H2; eapply elem_of_sublist; [left|exact Hsub]).
      assert (Hq : waiter s = Some q.1) by (apply H2; eapply elem_of_sublist; [right; left|exact Hsub]).
      eapply sublist_NoDup in Hd; [|apply fmap_sublist, Hsub]. cbn in Hd. apply NoDup_cons in Hd as [Hn _]. apply Hn. rewrite Hp in Hq. injection Hq as ->. left.
    + intros p [_ Hin]%list_elem_of_filter. destruct He as [_ H2]. by apply H2.
Qed.

Lemma oneByOne_ended es s : Inv s -> Ended s -> oneByOne s es = true -> Ended (foldl on s es).
Proof.
  revert s. induction es as [|e es IH]; intros s Hi He Ho; [done|]. cbn in *. apply andb_true_iff in Ho as [H1 H2].
  apply IH; [by apply on_state|by apply on_ended|done].
Qed.

(** *** The theorems *)

(** A LISTEN subscription loses no notification and gives none twice: whatever is
    received, aborted and closed between, the received notifications and the queued
    ones are those that arrived, in order, and no receive ends twice. *)
Theorem listener_delivers es : received (run es) ++ queue (run es) = arrived es /\ NoDup (settled (run es)).*1.
Proof. destruct (run_delivers es) as [[_ _ _ [Hd _]] Hr]. done. Qed.

(** When each receive of a subscription is called after the one before it ended,
    every receive has ended but the last one, which waits. *)
Theorem listener_ends es : oneByOne init es = true -> forall i, (i < next (run es))%nat -> i ∈ (settled (run es)).*1 \/ waiter (run es) = Some i.
Proof.
  intros Ho. destruct (oneByOne_ended es init) as [H _]; [by destruct (run_delivers [])| |done|exact H].
  split; cbn; [intros i Hi; lia|intros p []%elem_of_nil].
Qed.

Definition note : Notification := notified "c" None 1.

Lemma listener_ends_witness :
  oneByOne init [Receive None None; Notify note; Receive None None] = true /\
  (0%nat ∈ (settled (run [Receive None None; Notify note; Receive None None])).*1 \/ waiter (run [Receive None None; Notify note; Receive None None]) = Some 0%nat).
Proof. split; [reflexivity|]. apply (listener_ends [Receive None None; Notify note; Receive None None]); [reflexivity|cbn; lia]. Defined.

(** A second receive takes the place of one that waits, which then never ends; and a
    receive whose signal was aborted ends with the error of the UNLISTEN, when that
    fails, and not with CANCELED. *)
Theorem listener_overlap :
  settled (run [Receive None None; Receive None None; Notify note; Close]) = [(1%nat, Received note)] /\
  waiter (run [Receive None None; Receive None None; Notify note; Close]) = None.
Proof. done. Qed.
Theorem listener_aborted f : settled (run [Abort 0; Receive (Some 0%nat) (Some f)]) = [(0%nat, Failed f)].
Proof. done. Qed.
End Listener.
