(* ===== verification/Transactions.v ===== *)
(** * Transactions of a connection ([database.ts], [events.ts], [utils.ts])

    Opening, ending and repeating a transaction, its savepoints, named locks and
    local values, its audit record, and the events of its statements, over the
    driver's session.  One connection has at most one open transaction of one flow
    here, so [activeFor] is the frame of the state while it is not finished.  The
    callback of a transaction is a tree of the calls it makes, each followed by what
    it does with the result; it makes them one after another.  The session, the
    subscribers and the insert of an audit record, which is a model's [create], are
    operations of the class [TxHost]. *)

From S2P Require Import Prelude Lex Values Decimal Times BindCheck Check Float32 Render CatalogValue Faults.
From Stdlib Require Import Lia.

(** ** Statements *)

Inductive ClientKind := KSelect | KInsert | KUpdate | KDelete | KSchema | KUtility.
Inductive StatementKind := KClient (k : ClientKind) | KBegin | KCommit | KRollback | KSavepoint | KRelease | KRollbackTo.

Inductive Isolation := ReadUncommitted | ReadCommitted | RepeatableRead | Serializable.
#[global] Instance Isolation_eq_dec : EqDecision Isolation.
Proof. solve_decision. Defined.

Definition isolationSql (i : Isolation) : string :=
  match i with ReadUncommitted => "READ UNCOMMITTED" | ReadCommitted => "READ COMMITTED" | RepeatableRead => "REPEATABLE READ" | Serializable => "SERIALIZABLE" end.

(** A statement that the transaction itself sends. *)
Inductive Own :=
  | SetLevel (level : string) | Begin (text : string) | StatementTimeout (ms : Z)
  | QueryOnly (on : bool) | ReadUncommittedMode (on : bool)
  | Commit | Rollback | Savepoint (name : string) | Release (name : string) | RollbackTo (name : string)
  | GetLock (key : string) | ReleaseLock (key : string) | AdvisoryLock (key : string)
  | SetVariable (key value : string) | ClearVariable (key : string) | SetConfig (key value : string)
  | BusyTimeout | SetBusyTimeout (ms : string) | RowLock.
#[global] Instance Own_eq_dec : EqDecision Own.
Proof. solve_decision. Defined.

Definition ROW_LOCK_TABLES : list string := ["orm__row_lock"].
Definition ROW_LOCK_DDL : string :=
  str ["CREATE TABLE IF NOT EXISTS "; dq; "orm__row_lock"; dq; " ("; dq; "id"; dq; " INTEGER PRIMARY KEY CHECK ("; dq; "id"; dq; " = 1))"].

Definition ownKind (s : Own) : StatementKind :=
  match s with
  | Begin _ => KBegin | Commit => KCommit | Rollback => KRollback
  | Savepoint _ => KSavepoint | Release _ => KRelease | RollbackTo _ => KRollbackTo
  | _ => KClient KUtility
  end.

Definition ownTables (s : Own) : list string := match s with RowLock => ROW_LOCK_TABLES | _ => [] end.

Definition onOff (on : bool) : string := if on then "1" else "0".

Definition ownSql (s : Own) : string :=
  match s with
  | SetLevel level => str ["SET TRANSACTION ISOLATION LEVEL "; level]
  | Begin text => text
  | StatementTimeout ms => str ["SET LOCAL statement_timeout = "; pretty ms]
  | QueryOnly on => str ["PRAGMA query_only = "; onOff on]
  | ReadUncommittedMode on => str ["PRAGMA read_uncommitted = "; onOff on]
  | Commit => "COMMIT"
  | Rollback => "ROLLBACK"
  | Savepoint name => str ["SAVEPOINT "; name]
  | Release name => str ["RELEASE SAVEPOINT "; name]
  | RollbackTo name => str ["ROLLBACK TO SAVEPOINT "; name]
  | GetLock _ => "SELECT GET_LOCK(?, 50)"
  | ReleaseLock _ => "SELECT RELEASE_LOCK(?)"
  | AdvisoryLock _ => "SELECT pg_advisory_xact_lock(hashtextextended($1, 0))"
  | SetVariable key _ => str ["SET @`orm."; key; "` = ?"]
  | ClearVariable key => str ["SET @`orm."; key; "` = NULL"]
  | SetConfig _ _ => "SELECT set_config($1, $2, true)"
  | BusyTimeout => "PRAGMA busy_timeout"
  | SetBusyTimeout ms => str ["PRAGMA busy_timeout="; ms]
  | RowLock => str ["INSERT INTO "; dq; "orm__row_lock"; dq; " ("; dq; "id"; dq; ") VALUES (1) ON CONFLICT ("; dq; "id"; dq; ") DO UPDATE SET "; dq; "id"; dq; "=excluded."; dq; "id"; dq]
  end.

Definition ownParams (s : Own) : list JsValue :=
  match s with
  | GetLock key | ReleaseLock key | AdvisoryLock key => [JString key]
  | SetVariable _ value => [JString value]
  | SetConfig key value => [JString key; JString value]
  | _ => []
  end.

(** ** The host *)

Record TxAnswer := mkTxAnswer { ta_rows : list (list JsValue); ta_affected : Z; ta_insertId : JsValue }.

(** An error of a driver library, with the members that [driverError] reads. *)
Record LibraryError := mkLibraryError { le_code : option string; le_errcode : option Z; le_errno : option Z; le_fatal : bool; le_message : string }.
Definition libraryFault (e : LibraryError) : fault := Driver_ (le_code e) (le_errcode e) (le_errno e) (le_fatal e) (le_message e).

Record StatementEvent := mkEvent {
  ev_sql : string; ev_binds : list JsValue; ev_kind : StatementKind; ev_tables : list string; ev_transaction : option Z; ev_error : option fault }.

(** The audit record that a transaction inserts and the one it inserted. *)
Record AuditInsert := mkAuditInsert { ai_table : string; ai_values : list (string * JsValue) }.
Record AuditRecord := mkAuditRecord { ar_table : string; ar_key : JsValue }.

Class TxHost (W : Type) := {
  txReserve : Run W unit;
  txOwn : Own -> W -> (TxAnswer + LibraryError) * W;
  txExecute : string -> list JsValue -> Run W TxAnswer;
  txPool : string -> Run W TxAnswer;
  txInTransaction : W -> option bool * W;
  txRelease : bool -> W -> W;
  txAborted : W -> bool;
  txSubscriber : nat -> StatementEvent -> Run W unit;
  txAuditValues : list (string * JsValue) -> Run W AuditInsert;
  txInsertAudit : AuditInsert -> Run W JsValue;
  txWait : Z -> W -> W }.

(** ** The state of a connection *)

Record BeginOptions := mkBeginOptions { bo_isolation : option Isolation; bo_readOnly : bool; bo_timeoutMs : Z }.

(** [TxFrame]; [inserted] has for an entity the keys of its generated inserts. *)
Record TxFrame := mkFrame {
  fr_number : Z; fr_options : BeginOptions; fr_finished : bool; fr_savepoints : Z;
  fr_locals : list (string * string); fr_locks : list string;
  fr_audit : option AuditRecord; fr_pendingAudit : option AuditInsert; fr_inserted : list (string * list Z) }.

Record Db (W : Type) := mkDb {
  db_world : W; db_closed : bool; db_rollbackFault : bool; db_statementFault : option (Code * string);
  db_subscribers : list nat; db_transactions : Z; db_rowLockTable : bool; db_frame : option TxFrame }.
Arguments mkDb {W} db_world db_closed db_rollbackFault db_statementFault db_subscribers db_transactions db_rowLockTable db_frame.
Arguments db_world {W} d.
Arguments db_closed {W} d.
Arguments db_rollbackFault {W} d.
Arguments db_statementFault {W} d.
Arguments db_subscribers {W} d.
Arguments db_transactions {W} d.
Arguments db_rowLockTable {W} d.
Arguments db_frame {W} d.

Definition setFrame {W} (f : option TxFrame) (d : Db W) : Db W :=
  mkDb (db_world d) (db_closed d) (db_rollbackFault d) (db_statementFault d) (db_subscribers d) (db_transactions d) (db_rowLockTable d) f.
Definition setWorld {W} (w : W) (d : Db W) : Db W :=
  mkDb w (db_closed d) (db_rollbackFault d) (db_statementFault d) (db_subscribers d) (db_transactions d) (db_rowLockTable d) (db_frame d).
Definition setStatementFault {W} (f : option (Code * string)) (d : Db W) : Db W :=
  mkDb (db_world d) (db_closed d) (db_rollbackFault d) f (db_subscribers d) (db_transactions d) (db_rowLockTable d) (db_frame d).
Definition clearRollbackFault {W} (d : Db W) : Db W :=
  mkDb (db_world d) (db_closed d) false (db_statementFault d) (db_subscribers d) (db_transactions d) (db_rowLockTable d) (db_frame d).
Definition countTransaction {W} (d : Db W) : Db W :=
  mkDb (db_world d) (db_closed d) (db_rollbackFault d) (db_statementFault d) (db_subscribers d) (db_transactions d + 1) (db_rowLockTable d) (db_frame d).
Definition markRowLockTable {W} (d : Db W) : Db W :=
  mkDb (db_world d) (db_closed d) (db_rollbackFault d) (db_statementFault d) (db_subscribers d) (db_transactions d) true (db_frame d).

Definition finished (f : TxFrame) : TxFrame :=
  mkFrame (fr_number f) (fr_options f) true (fr_savepoints f) (fr_locals f) (fr_locks f) (fr_audit f) (fr_pendingAudit f) (fr_inserted f).
Definition withSavepoints (n : Z) (f : TxFrame) : TxFrame :=
  mkFrame (fr_number f) (fr_options f) (fr_finished f) n (fr_locals f) (fr_locks f) (fr_audit f) (fr_pendingAudit f) (fr_inserted f).
Definition withLocals (l : list (string * string)) (f : TxFrame) : TxFrame :=
  mkFrame (fr_number f) (fr_options f) (fr_finished f) (fr_savepoints f) l (fr_locks f) (fr_audit f) (fr_pendingAudit f) (fr_inserted f).
Definition withLocks (l : list string) (f : TxFrame) : TxFrame :=
  mkFrame (fr_number f) (fr_options f) (fr_finished f) (fr_savepoints f) (fr_locals f) l (fr_audit f) (fr_pendingAudit f) (fr_inserted f).
Definition withAudit (a : option AuditRecord) (f : TxFrame) : TxFrame :=
  mkFrame (fr_number f) (fr_options f) (fr_finished f) (fr_savepoints f) (fr_locals f) (fr_locks f) a (fr_pendingAudit f) (fr_inserted f).
Definition withPending (p : option AuditInsert) (f : TxFrame) : TxFrame :=
  mkFrame (fr_number f) (fr_options f) (fr_finished f) (fr_savepoints f) (fr_locals f) (fr_locks f) (fr_audit f) p (fr_inserted f).
Definition withInserted (l : list (string * list Z)) (f : TxFrame) : TxFrame :=
  mkFrame (fr_number f) (fr_options f) (fr_finished f) (fr_savepoints f) (fr_locals f) (fr_locks f) (fr_audit f) (fr_pendingAudit f) l.

(** [Number(value)] *)
Definition numberOf (v : JsValue) : JsValue :=
  match v with
  | JNull => JInt 0
  | JBool b => JInt (if b then 1 else 0)
  | JString _ | JBytes _ | JBigint _ => numberOfText (stringOf v)
  | JInt _ | JNegZero | JFraction _ | JNonFinite _ => v
  | _ => JNonFinite "NaN"
  end.

(** [Number(result.rows[0]?.[0])] *)
Definition firstCell (a : TxAnswer) : JsValue := match ta_rows a with (v :: _) :: _ => v | _ => JUndefined end.
Definition firstNumber (a : TxAnswer) : JsValue := numberOf (firstCell a).

(** [/^[A-Za-z0-9_][A-Za-z0-9_.]{0,63}$/] *)
Definition keyChar (a : ascii) : bool := is_lower a || is_upper a || is_digit a || bool_decide (a = "_"%char).
Definition validKey (key : string) : bool :=
  match key with
  | String a rest => keyChar a && all_chars (fun c => keyChar c || bool_decide (c = "."%char)) rest && (slen rest <=? 63)
  | EmptyString => false
  end.

(** [statementKind]: the first word of the statement. *)
Definition statementKind (sql : string) : ClientKind :=
  let verb := toUpperCase (default "" (head (split_on " " (trimStart sql)))) in
  if decide (verb = "ALTER") then KSchema else if decide (verb = "INSERT") then KInsert
  else if decide (verb = "UPDATE") then KUpdate else if decide (verb = "DELETE") then KDelete else KSelect.

Definition subscriberError (e : fault) : bool := bool_decide (codeOf e = Some SUBSCRIBER).

(** ** Options and calls of a transaction *)

Record TransactionOptions := mkTxOptions {
  to_isolation : option Isolation; to_readOnly : option bool; to_timeoutMs : option Z; to_retry : option Z; to_audit : option (list (string * JsValue)) }.

(** A write of a plan: its statement with its binds, of which the key of the audit
    record may be one, and what the request says of it. *)
Inductive Bind := Value (v : JsValue) | AuditKey (table : string).

Record Write := mkWrite {
  wr_insert : bool; wr_update : bool; wr_sql : string; wr_tables : list string; wr_binds : list Bind;
  wr_batch : bool; wr_optimistic : bool; wr_upsert : bool; wr_entity : string; wr_identity : bool }.

Definition Written : Type := JsValue * Z.

(** The callback of a transaction.  A nested transaction has its own callback. *)
Inductive Client :=
  | Return (value : JsValue)
  | Throw (error : fault)
  | Execute (tables : list string) (sql : string) (params : list JsValue) (next : TxAnswer + fault -> Client)
  | WriteRow (w : Write) (next : Written + fault -> Client)
  | Lock (key : string) (next : unit + fault -> Client)
  | SetLocal (key value : string) (next : unit + fault -> Client)
  | Local (key : string) (next : string + fault -> Client)
  | LockRows (mode : string) (next : unit + fault -> Client)
  | Nested (options : TransactionOptions) (body : Client) (next : JsValue + fault -> Client).

Module Tx.
Section transaction.
Context {W : Type} {host : TxHost W} (sqliteResultCodeSuffix : Z -> string) (dialect : DriverName).

Abbreviation Do := (Run (Db W)).
Abbreviation mapped := (driverError sqliteResultCodeSuffix dialect).

Definition call {A} (m : Run W A) : Do A := fun d => let '(r, w) := m (db_world d) in (r, setWorld w d).
Definition get {A} (f : Db W -> A) : Do A := fun d => (inl (f d), d).
Definition modify (f : Db W -> Db W) : Do unit := fun d => (inl tt, f d).

(** [activeFor(db)] with the check of its callers. *)
Definition frame : Do TxFrame :=
  f ← get db_frame; match f with Some f => mret f | None => refuse INTERNAL "the transaction has no frame" end.
Definition onFrame (f : TxFrame -> TxFrame) : Do unit := modify (fun d => setFrame (option_map f (db_frame d)) d).

(** *** Statement events *)

(** [publish]: the subscribers in order; one that throws ends the calls. *)
Definition publish (event : StatementEvent) : Do unit :=
  subscribers ← get db_subscribers;
  each (fun i =>
    r ← tried (call (txSubscriber i event));
    match r with
    | inl _ => mret tt
    | inr e => raise (Orm SUBSCRIBER (str ["statement event subscriber failed: "; faultMessage e]) (Some e) None)
    end) subscribers.

Definition number : Do (option Z) := get (fun d => option_map fr_number (db_frame d)).

(** [observed]: a statement with its event. *)
Definition observed {A} (kind : StatementKind) (tables : list string) (sql : string) (binds : list JsValue) (transaction : option Z) (m : Do A) : Do A :=
  r ← tried m;
  match r with
  | inl a => _ ← publish (mkEvent sql binds kind tables transaction None); mret a
  | inr e => _ ← publish (mkEvent sql binds kind tables transaction (Some (mapped e))); raise (mapped e)
  end.

Definition sendOwn (s : Own) : Do TxAnswer := fun d =>
  let '(r, w) := txOwn s (db_world d) in (match r with inl a => inl a | inr e => inr (libraryFault e) end, setWorld w d).

(** [frame.control] *)
Definition control (s : Own) : Do TxAnswer := n ← number; observed (ownKind s) (ownTables s) (ownSql s) (ownParams s) n (sendOwn s).

(** [frame.run] *)
Definition run (s : Own) : Do TxAnswer := f ← frame; _ ← refuse_if (fr_finished f) CONFIG "transaction already finished"; control s.

(** [checkStatementFault] *)
Definition checkStatementFault (kind : StatementKind) (tables : list string) (sql : string) (binds : list JsValue) : Do unit :=
  fault ← get db_statementFault;
  match fault with
  | None => mret tt
  | Some (code, message) =>
      _ ← modify (setStatementFault None);
      n ← number;
      let error := Orm code message None None in
      _ ← publish (mkEvent sql binds kind tables n (Some error));
      raise error
  end.

(** [frame.statement] *)
Definition statement (s : Own) : Do TxAnswer := _ ← checkStatementFault (ownKind s) (ownTables s) (ownSql s) (ownParams s); control s.

(** [runStep] inside a transaction. *)
Definition execute (tables : list string) (sql : string) (params : list JsValue) : Do TxAnswer :=
  let kind := KClient (statementKind sql) in
  _ ← checkStatementFault kind tables sql params;
  n ← number;
  observed kind tables sql params n (call (txExecute sql params)).

(** [guarded]; the calls of a callback that run one after another never meet the
    other refusal, of a connection in use. *)
Definition guarded {A} (m : Do A) : Do A := f ← frame; _ ← refuse_if (fr_finished f) CONFIG "transaction already finished"; m.

(** *** Ending *)

Definition inTransaction : Do (option bool) := fun d => let '(b, w) := txInTransaction (db_world d) in (inl b, setWorld w d).
Definition release (discard : bool) : Do unit := modify (fun d => setWorld (txRelease discard (db_world d)) d).
Definition aborted : Do bool := get (fun d => txAborted (db_world d)).

(** [attempt]: a cleanup statement, whose failure joins [errors]. *)
Definition attempt (s : Own) (errors : list fault) : Do (option TxAnswer * list fault) :=
  r ← tried (control s);
  mret (match r with inl a => (Some a, errors) | inr e => (None, errors ++ [e]) end).

Fixpoint releaseLocks (keys : list string) (errors : list fault) : Do (list fault) :=
  match keys with
  | [] => mret errors
  | key :: keys =>
      '(released, errors) ← attempt (ReleaseLock key) errors;
      releaseLocks keys
        (match released with
         | Some a => if bool_decide (firstNumber a = JInt 1) then errors else errors ++ [Orm CONFIG (str ["lock "; key; " was not held at transaction end"]) None None]
         | None => errors
         end)
  end.

Fixpoint clearVariables (keys : list string) (errors : list fault) : Do (list fault) :=
  match keys with
  | [] => mret errors
  | key :: keys => '(_, errors) ← attempt (ClearVariable key) errors; clearVariables keys errors
  end.

Definition attemptIf (b : bool) (s : Own) (errors : list fault) : Do (list fault) :=
  if b then '(_, errors) ← attempt s errors; mret errors else mret errors.

Definition sqlite : bool := bool_decide (dialect = Sqlite).

Definition uncommitted (o : BeginOptions) : bool := bool_decide (bo_isolation o = Some ReadUncommitted).

(** The cleanup of [finish] with its errors. *)
Definition cleanup : Do (list fault) :=
  f ← frame;
  errors ← attemptIf (sqlite && bo_readOnly (fr_options f)) (QueryOnly false) [];
  errors ← attemptIf (sqlite && uncommitted (fr_options f)) (ReadUncommittedMode false) errors;
  _ ← onFrame (withLocks []);
  errors ← releaseLocks (fr_locks f) errors;
  if bool_decide (dialect = MySql) then clearVariables (sort_by id (map fst (fr_locals f))) errors else mret errors.

(** A COMMIT that failed: the outcome and whether the session is discarded. *)
Definition failedCommit (error : fault) : Do ((unit + fault) * bool) :=
  if subscriberError error then mret (inr error, false)
  else
    open ← inTransaction;
    match open with
    | Some true => r ← tried (control Rollback); mret (match r with inl _ => (inr error, false) | inr e => (inr (rollbackFailed error e), false) end)
    | None => mret (inr error, true)
    | Some false => mret (inr error, negb sqlite)
    end.

(** The end that is not a COMMIT. *)
Definition rollbackWith (commit : bool) (failure : option fault) (discard : bool) : Do ((unit + fault) * bool) :=
  skip ← (if sqlite then open ← inTransaction; mret (bool_decide (open = Some false)) else mret false);
  r ← tried (if (skip : bool) then mret tt else _ ← control Rollback; mret tt);
  mret (match r with
        | inl _ => (match failure with Some f => inr f | None => inl tt end, discard)
        | inr e =>
            (match failure with
             | None => inr e
             | Some f => if commit then inr (rollbackFailed f e) else match joinedErrors [f; e] with Some j => inr j | None => inr e end
             end, discard || negb (subscriberError e))
        end).

Definition ending (commit : bool) : Do ((unit + fault) * bool) :=
  errors ← cleanup;
  let failure := joinedErrors errors in
  let discard := existsb (fun e => negb (subscriberError e)) errors in
  match commit, failure with
  | true, None => r ← tried (control Commit); match r with inl _ => mret (inl tt, discard) | inr e => failedCommit e end
  | _, _ => rollbackWith commit failure discard
  end.

Definition finish (commit : bool) : Do unit :=
  f ← frame;
  if fr_finished f then mret tt
  else
    _ ← onFrame finished;
    cancelled ← aborted;
    if negb commit && negb sqlite && (cancelled : bool) then release true
    else
      '(outcome, discard) ← ending commit;
      _ ← release discard;
      match outcome with inl _ => mret tt | inr e => raise e end.

(** *** Opening *)

Definition rowLockTable : Do unit :=
  created ← get db_rowLockTable;
  if (created : bool) then mret tt
  else _ ← observed (KClient KUtility) ROW_LOCK_TABLES ROW_LOCK_DDL [] None (call (txPool ROW_LOCK_DDL)); modify markRowLockTable.

Definition isBegin (s : Own) : bool := match s with Begin _ => true | _ => false end.

(** The statements that open a transaction. *)
Definition opening (o : BeginOptions) : list Own :=
  match dialect with
  | MySql => (match bo_isolation o with Some i => [SetLevel (isolationSql i)] | None => [] end) ++ [Begin (if bo_readOnly o then "START TRANSACTION READ ONLY" else "START TRANSACTION")]
  | Postgres =>
      [Begin (str ["BEGIN"; match bo_isolation o with Some i => str [" ISOLATION LEVEL "; isolationSql i] | None => "" end; if bo_readOnly o then " READ ONLY" else ""])] ++
      (if 0 <? bo_timeoutMs o then [StatementTimeout (bo_timeoutMs o)] else [])
  | Sqlite =>
      [Begin (if bo_readOnly o then "BEGIN" else "BEGIN IMMEDIATE")] ++
      (if uncommitted o then [ReadUncommittedMode true] else []) ++ (if bo_readOnly o then [QueryOnly true] else [])
  end.

Fixpoint sendOpening (began : bool) (steps : list Own) : Do unit :=
  match steps with
  | [] => mret tt
  | s :: steps =>
      r ← tried (run s);
      match r with
      | inl _ => sendOpening (began || isBegin s) steps
      | inr error =>
          if began || (isBegin s && subscriberError error)
          then r ← tried (finish false); match r with inl _ => raise error | inr e => raise (rollbackFailed error e) end
          else _ ← onFrame finished; _ ← release true; raise error
      end
  end.

Definition begin (o : BeginOptions) : Do unit :=
  _ ← refuse_if ((0 <? bo_timeoutMs o) && negb (bool_decide (dialect = Postgres))) CAPABILITY_UNSUPPORTED "transaction timeoutMs is supported only by postgres";
  _ ← (if sqlite then rowLockTable else mret tt);
  _ ← call txReserve;
  _ ← modify countTransaction;
  n ← get db_transactions;
  _ ← modify (setFrame (Some (mkFrame n o false 0 [] [] None None [])));
  sendOpening false (opening o).

(** *** Savepoints *)

Inductive SavepointStep := StepSavepoint | StepRelease | StepRollbackTo.

Definition stepOwn (k : SavepointStep) (name : string) : Own :=
  match k with StepSavepoint => Savepoint name | StepRelease => Release name | StepRollbackTo => RollbackTo name end.

Definition savepointStep (k : SavepointStep) (name : string) : Do unit :=
  gone ← (match k with
          | StepSavepoint => mret false
          | _ => if sqlite then open ← inTransaction; mret (bool_decide (open = Some false)) else mret false
          end);
  if (gone : bool) then mret tt else _ ← run (stepOwn k name); mret tt.

(** The failures of a step, joined to those before it. *)
Definition tryStep (k : SavepointStep) (name : string) (errors : list fault) : Do (list fault) :=
  r ← tried (savepointStep k name); mret (match r with inl _ => errors | inr e => errors ++ [e] end).

(** Undoes the work behind a savepoint and releases it. *)
Definition undo (name : string) : Do (list fault) := errors ← tryStep StepRollbackTo name []; tryStep StepRelease name errors.

Definition savepoint {A} (body : Do A) : Do A :=
  _ ← onFrame (fun f => withSavepoints (fr_savepoints f + 1) f);
  f ← frame;
  let name := str ["orm_sp_"; pretty (fr_savepoints f)] in
  r ← tried (
    _ ← savepointStep StepSavepoint name;
    r ← tried body;
    match r with
    | inl result => _ ← savepointStep StepRelease name; mret result
    | inr error => errors ← undo name; match joinedErrors errors with None => raise error | Some e => raise (rollbackFailed error e) end
    end);
  _ ← (match r with inl _ => mret tt | inr _ => onFrame (fun f' => withInserted (fr_inserted f) (withAudit (fr_audit f) f')) end);
  _ ← onFrame (fun f' => withSavepoints (fr_savepoints f' - 1) f');
  match r with inl result => mret result | inr e => raise e end.

(** *** Locks and local values *)

(** The text of a number in a statement. *)
Definition numberText (v : JsValue) : string := stringOf v.

Definition busy (e : fault) : bool :=
  match e with Orm _ _ (Some (Driver_ _ errcode _ _ _)) _ => sqliteBusy Sqlite errcode | _ => false end.

(** The lock itself; only a lock statement that finds the database busy is
    LOCK_NOT_AVAILABLE. *)
Definition takeRowLock (noWait : bool) : Do unit :=
  _ ← (if noWait then _ ← run (SetBusyTimeout "0"); mret tt else mret tt);
  r ← tried (run RowLock);
  match r with
  | inl _ => mret tt
  | inr e =>
      match e with
      | Orm _ _ cause _ => if noWait && busy e then raise (Orm LOCK_NOT_AVAILABLE (faultMessage e) cause None) else raise e
      | _ => raise e
      end
  end.

Definition rowLock (mode : string) : Do unit :=
  if negb sqlite || bool_decide (mode = "") then mret tt
  else
    let noWait := ends_with "_nowait" mode in
    previous ← (if noWait then a ← run BusyTimeout; mret (numberText (firstNumber a)) else mret "0");
    r ← tried (takeRowLock noWait);
    _ ← (if noWait then
           restored ← tried (run (SetBusyTimeout previous));
           match restored, r with
           | inl _, _ => mret tt
           | inr e, inl _ => raise e
           | inr e, inr failure =>
               raise (Orm (default DRIVER (codeOf failure)) (faultMessage failure) (Some (Aggregate [failure; e] "SQLite busy_timeout restoration also failed")) None)
           end
         else mret tt);
    match r with inl _ => mret tt | inr e => raise e end.

Definition lock (key : string) : Do unit :=
  _ ← refuse_if (negb (validKey key)) CONFIG (str ["lock key "; key; " is invalid"]);
  match dialect with
  | MySql =>
      a ← statement (GetLock key);
      _ ← refuse_if (negb (bool_decide (firstNumber a = JInt 1))) DEADLOCK (str ["lock "; key; " was not acquired"]);
      onFrame (fun f => withLocks (fr_locks f ++ [key]) f)
  | Postgres => _ ← statement (AdvisoryLock key); mret tt
  | Sqlite => rowLock "update"
  end.

Definition setLocal (key value : string) : Do unit :=
  _ ← refuse_if (negb (validKey key)) CONFIG (str ["local key "; key; " is invalid"]);
  _ ← (match dialect with
       | Postgres => _ ← statement (SetConfig key value); mret tt
       | MySql => _ ← statement (SetVariable key value); mret tt
       | Sqlite => mret tt
       end);
  onFrame (fun f => withLocals (assoc_set key value (fr_locals f)) f).

Definition local (key : string) : Do string :=
  f ← frame;
  match assoc key (fr_locals f) with Some v => mret v | None => refuse NO_ROWS (str ["local value "; key; " is not set"]) end.

(** *** Writes and the audit record *)

Definition bindsAudit (w : Write) : bool := existsb (fun b => match b with AuditKey _ => true | Value _ => false end) (wr_binds w).

Definition auditSavepoint : string := "orm_audit".

(** [rollback] of [auditFor]; a failed write is thrown. *)
Definition undoAudit (failed : option fault) : Do unit :=
  errors ← undo auditSavepoint;
  match failed with
  | None => match joinedErrors errors with None => mret tt | Some e => raise e end
  | Some error => match joinedErrors errors with None => raise error | Some e => raise (rollbackFailed error e) end
  end.

Definition auditFor (w : Write) (guard : bool) : Do bool :=
  f ← frame;
  match fr_audit f, fr_pendingAudit f, bindsAudit w with
  | None, Some record, true =>
      if negb guard then
        key ← call (txInsertAudit record);
        _ ← onFrame (withAudit (Some (mkAuditRecord (ai_table record) key)));
        mret false
      else
        _ ← savepointStep StepSavepoint auditSavepoint;
        r ← tried (call (txInsertAudit record));
        match r with
        | inl key => _ ← onFrame (withAudit (Some (mkAuditRecord (ai_table record) key))); mret true
        | inr error => _ ← onFrame (withAudit None); _ ← undoAudit (Some error); raise error
        end
  | _, _, _ => mret false
  end.

(** The function that [auditFor] returned. *)
Definition settle (guarded : bool) (affected : Z) (failed : option fault) : Do unit :=
  if negb guarded then mret tt
  else
    match failed with
    | None => if 0 <? affected then savepointStep StepRelease auditSavepoint else _ ← onFrame (withAudit None); undoAudit None
    | Some error => _ ← onFrame (withAudit None); undoAudit (Some error)
    end.

(** [auditValue]: the key of the audit record. *)
Definition auditValue (table : string) : Do JsValue :=
  f ← frame;
  match fr_audit f with
  | None => refuse CONFIG "a write of an audited table needs an audit: run it in a transaction with audit values"
  | Some a =>
      if decide (ar_table a = table) then mret (ar_key a)
      else refuse CONFIG (str ["the audited table records its audits in "; table; ", but the audit of the transaction is a row of "; ar_table a])
  end.

Fixpoint args (binds : list Bind) : Do (list JsValue) :=
  match binds with
  | [] => mret []
  | b :: binds => v ← (match b with Value v => mret v | AuditKey table => auditValue table end); vs ← args binds; mret (v :: vs)
  end.

Definition writeStep (w : Write) : Do Written :=
  guarded (
    values ← args (wr_binds w);
    a ← execute (wr_tables w) (wr_sql w) values;
    if wr_insert w && contains " RETURNING " (wr_sql w) then
      mret (match firstCell a with JString t => JString t | v => numberOf v end, 1)
    else if wr_update w && wr_optimistic w && (ta_affected a =? 0) then refuse OPTIMISTIC_LOCK "the row changed after it was read"
    else
      mret (if wr_insert w && negb (wr_batch w) && negb (bool_decide (ta_insertId a = JNull)) then numberOf (ta_insertId a) else JNull,
            if wr_insert w && wr_upsert w then 1 else ta_affected a)).

(** The positive safe integer of a generated key. *)
Definition sequenceOf (key : JsValue) : option Z :=
  match (match key with JString t => if negb (bool_decide (t = "")) && all_chars is_digit t then numberOfText t else JUndefined | v => v end) with
  | JInt n => if isSafeInteger n && (0 <? n) then Some n else None
  | _ => None
  end.

Definition addKey (entity : string) (key : Z) (l : list (string * list Z)) : list (string * list Z) :=
  let keys := default [] (assoc entity l) in
  assoc_set entity (if includes key keys then keys else keys ++ [key]) l.

Definition recordInserted (w : Write) (key : JsValue) : Do unit :=
  if negb (wr_insert w) || wr_batch w || negb (wr_identity w) then mret tt
  else match sequenceOf key with Some n => onFrame (fun f => withInserted (addKey (wr_entity w) n (fr_inserted f)) f) | None => mret tt end.

Definition write (w : Write) : Do Written :=
  guard ← auditFor w (negb (wr_insert w));
  r ← tried (writeStep w);
  match r with
  | inr error => _ ← settle guard 0 (Some error); raise error
  | inl written => _ ← settle guard (snd written) None; _ ← recordInserted w (fst written); mret written
  end.

(** [wasInserted] *)
Definition wasInserted (entity : string) (sequence : Z) : Do bool :=
  f ← frame;
  _ ← refuse_if (bool_decide (entity = "") || negb (isSafeInteger sequence) || (sequence <=? 0)) CONFIG "inserted entity and positive key are required";
  mret (match assoc entity (fr_inserted f) with Some keys => includes sequence keys | None => false end).

(** *** Transactions *)

(** The count of an option, a non-negative safe integer. *)
Definition countOf (o : option Z) (given : Z) (message : string) : Do Z :=
  let n := default given o in
  _ ← refuse_if (negb (isSafeInteger n) || (n <? 0)) CONFIG message; mret n.

Definition retryMessage : string := "transaction retry must be a non-negative integer".
Definition timeoutMessage : string := "transaction timeoutMs must not be negative".

(** The check of [transaction] inside an active one. *)
Definition nestedOptions (o : TransactionOptions) : Do unit :=
  _ ← countOf (to_retry o) 3 retryMessage;
  _ ← countOf (to_timeoutMs o) 0 timeoutMessage;
  refuse_if (negb (bool_decide (to_isolation o = None)) || negb (bool_decide (to_readOnly o = None)) || negb (bool_decide (to_timeoutMs o = None)) ||
             match to_audit o with None => false | Some _ => true end)
    CONFIG "a nested transaction of the same connection accepts only the retry option".

(** The callback, call by call. *)
Fixpoint perform (c : Client) : Do JsValue :=
  match c with
  | Return value => mret value
  | Throw error => raise error
  | Execute tables sql params next => r ← tried (guarded (execute tables sql params)); perform (next r)
  | WriteRow w next => r ← tried (write w); perform (next r)
  | Lock key next => r ← tried (lock key); perform (next r)
  | SetLocal key value next => r ← tried (setLocal key value); perform (next r)
  | Local key next => r ← tried (local key); perform (next r)
  | LockRows mode next => r ← tried (rowLock mode); perform (next r)
  | Nested options body next => r ← tried (_ ← nestedOptions options; savepoint (perform body)); perform (next r)
  end.

(** [run]: one attempt. *)
Definition runOnce (callback : Client) (o : BeginOptions) (record : option AuditInsert) : Do JsValue :=
  closed ← get db_closed;
  _ ← refuse_if closed CONFIG "database is closed";
  _ ← begin o;
  _ ← onFrame (withPending record);
  r ← tried (perform callback);
  match r with
  | inl value => _ ← finish true; mret value
  | inr error =>
      c ← tried (finish false);
      match c with
      | inr cleanup => raise (rollbackFailed error cleanup)
      | inl _ =>
          fault ← get db_rollbackFault;
          if (fault : bool) then
            _ ← modify clearRollbackFault;
            raise (rollbackFailed error (Orm FAULT "test fault: the rollback of the transaction ran and is reported as failed" None None))
          else raise error
      end
  end.

(** [50 << attempt] *)
Definition backoff (attempt : nat) : Z := let n := (50 * 2 ^ (Z.of_nat attempt mod 32)) mod 2 ^ 32 in if n <? 2 ^ 31 then n else n - 2 ^ 32.

(** The attempts from the first: [more] may follow this one. *)
Fixpoint attempts (callback : Client) (o : BeginOptions) (record : option AuditInsert) (attempt more : nat) : Do JsValue :=
  r ← tried (runOnce callback o record);
  match r with
  | inl value => mret value
  | inr error =>
      if bool_decide (codeOf error = Some DEADLOCK) then
        match more with
        | O => raise error
        | S more => _ ← modify (fun d => setWorld (txWait (backoff attempt) (db_world d)) d); attempts callback o record (S attempt) more
        end
      else raise error
  end.

(** [transaction] outside an active one. *)
Definition transaction (callback : Client) (o : TransactionOptions) : Do JsValue :=
  retry ← countOf (to_retry o) 3 retryMessage;
  timeoutMs ← countOf (to_timeoutMs o) 0 timeoutMessage;
  record ← (match to_audit o with None => mret None | Some values => a ← call (txAuditValues values); mret (Some a) end);
  attempts callback (mkBeginOptions (to_isolation o) (default false (to_readOnly o)) timeoutMs) record 0 (Z.to_nat retry).
End transaction.
End Tx.
