(* ===== verification/TransactionFacts.v ===== *)
(** * What a transaction sends and what it leaves on its session

    Any host is recorded by a list of the calls it gets, and a monitor reads that
    list: what the answered statements have set on the session that is held, and
    whether a call came where none may come.  The theorems are about every callback,
    host, subscriber and option: a transaction commits at most once, and a session
    that goes back to the pool holds nothing of it. *)

From S2P Require Import Prelude Lex Values Render CatalogValue Faults Transactions.
From Stdlib Require Import Lia.

(** ** Recorded hosts *)

Inductive TxEvent :=
  | TReserve (ok : bool) | TOwn (s : Own) (answer : option TxAnswer) | TClient | TPool | TAsked (open : option bool)
  | TSubscriber (ok : bool) | TRelease (discard : bool) | TWait.

Definition returned {A E} (r : A + E) : bool := match r with inl _ => true | inr _ => false end.
Definition answerOf {A E} (r : A + E) : option A := match r with inl a => Some a | inr _ => None end.

Definition recording {W A} (e : A -> TxEvent) (m : W -> A * W) : W * list TxEvent -> A * (W * list TxEvent) :=
  fun '(w, es) => let '(a, w') := m w in (a, (w', es ++ [e a])).

#[global] Instance recordedTx {W} (h : TxHost W) : TxHost (W * list TxEvent) := {|
  txReserve := recording (fun r => TReserve (returned r)) txReserve;
  txOwn s := recording (fun r => TOwn s (answerOf r)) (txOwn s);
  txExecute sql params := recording (fun _ => TClient) (txExecute sql params);
  txPool sql := recording (fun _ => TPool) (txPool sql);
  txInTransaction := recording TAsked txInTransaction;
  txRelease discard s := (txRelease discard (fst s), snd s ++ [TRelease discard]);
  txAborted s := txAborted (fst s);
  txSubscriber i e := recording (fun r => TSubscriber (returned r)) (txSubscriber i e);
  txAuditValues values := fun '(w, es) => let '(r, w') := txAuditValues values w in (r, (w', es));
  txInsertAudit record := recording (fun _ => TClient) (txInsertAudit record);
  txWait n s := (txWait n (fst s), snd s ++ [TWait]) |}.

(** ** The monitor *)

(** What the last statement was, for a subscriber that fails on its event. *)
Inductive Last := LastOther | LastTook | LastRefused | LastRefusedCommit.

(** What a session holds: an open transaction, named locks, variables and the two
    modes of SQLite; [se_masked] says that a subscriber failed on the event of a
    statement that took a lock or a variable or that was refused. *)
Record Sess := mkSess {
  se_open : bool; se_reported : bool; se_locks : list string; se_vars : list string;
  se_queryOnly : bool; se_uncommitted : bool; se_last : Last; se_masked : bool }.

Definition freshSession : Sess := mkSess false false [] [] false false LastOther false.

Definition setOpen (b : bool) (s : Sess) : Sess := mkSess b (se_reported s) (se_locks s) (se_vars s) (se_queryOnly s) (se_uncommitted s) (se_last s) (se_masked s).
Definition setReported (s : Sess) : Sess := mkSess (se_open s) true (se_locks s) (se_vars s) (se_queryOnly s) (se_uncommitted s) (se_last s) (se_masked s).
Definition setLocks (l : list string) (s : Sess) : Sess := mkSess (se_open s) (se_reported s) l (se_vars s) (se_queryOnly s) (se_uncommitted s) (se_last s) (se_masked s).
Definition setVars (l : list string) (s : Sess) : Sess := mkSess (se_open s) (se_reported s) (se_locks s) l (se_queryOnly s) (se_uncommitted s) (se_last s) (se_masked s).
Definition setModes (q u : bool) (s : Sess) : Sess := mkSess (se_open s) (se_reported s) (se_locks s) (se_vars s) q u (se_last s) (se_masked s).
Definition setLast (l : Last) (s : Sess) : Sess := mkSess (se_open s) (se_reported s) (se_locks s) (se_vars s) (se_queryOnly s) (se_uncommitted s) l (se_masked s).
Definition setMasked (s : Sess) : Sess := mkSess (se_open s) (se_reported s) (se_locks s) (se_vars s) (se_queryOnly s) (se_uncommitted s) (se_last s) true.

Fixpoint removeOne (k : string) (l : list string) : list string :=
  match l with [] => [] | x :: l => if decide (x = k) then l else x :: removeOne k l end.

(** The effect of an answered statement.  A lock is taken when GET_LOCK answers 1; a
    session that answers RELEASE_LOCK does not hold it any more. *)
Definition effect (o : Own) (a : TxAnswer) (s : Sess) : Sess :=
  match o with
  | Begin _ => setOpen true s
  | Commit | Rollback => setOpen false s
  | QueryOnly on => setModes on (se_uncommitted s) s
  | ReadUncommittedMode on => setModes (se_queryOnly s) on s
  | GetLock key => if bool_decide (firstNumber a = JInt 1) then setLast LastTook (setLocks (key :: se_locks s) s) else s
  | ReleaseLock key => setLocks (removeOne key (se_locks s)) s
  | SetVariable key _ => setLast LastTook (setVars (key :: se_vars s) s)
  | ClearVariable key => setVars (filter (fun k => k <> key) (se_vars s)) s
  | _ => s
  end.

(** The session holds nothing; an open transaction is excused when the session itself
    reported it behind a refused COMMIT. *)
Definition cleanSession (s : Sess) : bool :=
  bool_decide (se_locks s = []) && bool_decide (se_vars s = []) && negb (se_queryOnly s) && negb (se_uncommitted s) && (negb (se_open s) || se_reported s).

Definition sessStep (s : Sess) (e : TxEvent) : Sess :=
  match e with
  | TReserve true => freshSession
  | TOwn o (Some a) => effect o a (setLast LastOther s)
  | TOwn Commit None => setLast LastRefusedCommit s
  | TOwn _ None => setLast LastRefused s
  | TClient => setLast LastOther s
  | TAsked (Some false) => setOpen false s
  | TAsked (Some true) => match se_last s with LastRefusedCommit => setReported s | _ => s end
  | TSubscriber false => match se_last s with LastOther => s | _ => setMasked s end
  | _ => s
  end.

(** The order of the calls: whether a session is held, whether its COMMIT was sent,
    how many were answered, how many sessions were taken, and whether a call came out
    of order or a session went back unclean. *)
Record Tally := mkTally { or_held : bool; or_ending : bool; or_commits : nat; or_taken : nat; or_bad : bool }.

Definition flagged (b : bool) (o : Tally) : Tally := mkTally (or_held o) (or_ending o) (or_commits o) (or_taken o) (or_bad o || b).

Definition tallyStep (s : Sess) (o : Tally) (e : TxEvent) : Tally :=
  match e with
  | TReserve true => mkTally true false (or_commits o) (S (or_taken o)) (or_bad o || or_held o)
  | TOwn Commit a =>
      mkTally (or_held o) true (if a then S (or_commits o) else or_commits o) (or_taken o) (or_bad o || negb (or_held o) || or_ending o || (0 <? or_commits o)%nat)
  | TOwn Rollback _ => flagged (negb (or_held o)) o
  | TOwn (QueryOnly _ | ReadUncommittedMode _ | ReleaseLock _ | ClearVariable _) _ => flagged (negb (or_held o) || or_ending o) o
  | TOwn _ _ | TClient => flagged (negb (or_held o) || or_ending o || (0 <? or_commits o)%nat) o
  | TRelease discard => mkTally false (or_ending o) (or_commits o) (or_taken o) (or_bad o || negb (or_held o) || negb (discard || se_masked s || cleanSession s))
  | TWait => flagged (or_held o || (0 <? or_commits o)%nat) o
  | _ => o
  end.

Record Ghost := mkGhost { gh_session : Sess; gh_order : Tally }.
Definition ghostStep (g : Ghost) (e : TxEvent) : Ghost := mkGhost (sessStep (gh_session g) e) (tallyStep (gh_session g) (gh_order g) e).
Definition noCalls : Ghost := mkGhost freshSession (mkTally false false 0 0 false).
Definition ghostOf (es : list TxEvent) : Ghost := foldl ghostStep noCalls es.

(** ** Triples over the frame and the monitor *)

Section triples.
Context {W : Type} {h : TxHost W}.

Abbreviation State := (Db (W * list TxEvent)).

Definition ghost (d : State) : Ghost := ghostOf (snd (db_world d)).

(** [m] started where [P] holds ends with a result where [Q] holds. *)
Definition triple {A} (P : option TxFrame -> Ghost -> Prop) (m : Run State A) (Q : A + fault -> option TxFrame -> Ghost -> Prop) : Prop :=
  forall d, P (db_frame d) (ghost d) -> let '(r, d') := m d in Q r (db_frame d') (ghost d').

Lemma triple_weaken {A} (P P' : option TxFrame -> Ghost -> Prop) (m : Run State A) (Q Q' : A + fault -> option TxFrame -> Ghost -> Prop) :
  triple P' m Q' -> (forall f g, P f g -> P' f g) -> (forall r f g, Q' r f g -> Q r f g) -> triple P m Q.
Proof. intros H HP HQ d Hd. specialize (H d (HP _ _ Hd)). destruct (m d) as [r d']. by apply HQ. Qed.

Lemma triple_ret {A} (a : A) (P : option TxFrame -> Ghost -> Prop) (Q : A + fault -> option TxFrame -> Ghost -> Prop) :
  (forall f g, P f g -> Q (inl a) f g) -> triple P (mret a) Q.
Proof. intros H d Hd. by apply H. Qed.
Lemma triple_raise {A} e (P : option TxFrame -> Ghost -> Prop) (Q : A + fault -> option TxFrame -> Ghost -> Prop) :
  (forall f g, P f g -> Q (inr e) f g) -> triple P (raise e) Q.
Proof. intros H d Hd. by apply H. Qed.

Lemma triple_bind {A B} P (m : Run State A) (k : A -> Run State B) R Q :
  triple P m R -> (forall a, triple (R (inl a)) (k a) Q) -> (forall e f g, R (inr e) f g -> Q (inr e) f g) -> triple P (m ≫= k) Q.
Proof.
  intros Hm Hk He d Hd. specialize (Hm d Hd). unfold mbind, Run_bind. destruct (m d) as [[a|e] d']; [|by apply He].
  specialize (Hk a d' Hm). by destruct (k a d').
Qed.

Lemma triple_pass {A B} (a : A) (k : A -> Run State B) P Q : triple P (k a) Q -> triple P (mret a ≫= k) Q.
Proof. exact id. Qed.
Lemma triple_stop {A B} e (k : A -> Run State B) (P : option TxFrame -> Ghost -> Prop) Q : (forall f g, P f g -> Q (inr e) f g) -> triple P (raise e ≫= k) Q.
Proof. intros H d Hd. by apply H. Qed.

Lemma triple_tried {A} P (m : Run State A) R (Q : (A + fault) + fault -> option TxFrame -> Ghost -> Prop) :
  triple P m R -> (forall r f g, R r f g -> Q (inl r) f g) -> triple P (tried m) Q.
Proof. intros Hm HQ d Hd. specialize (Hm d Hd). unfold tried. destruct (m d) as [r d']. by apply HQ. Qed.

Lemma triple_get {A} (x : State -> A) (P : option TxFrame -> Ghost -> Prop) (Q : A + fault -> option TxFrame -> Ghost -> Prop) :
  (forall a f g, P f g -> Q (inl a) f g) -> triple P (Tx.get x) Q.
Proof. intros H d Hd. by apply H. Qed.

Lemma triple_frame P : triple P Tx.frame (fun r f g => P f g /\ forall a, r = inl a -> f = Some a).
Proof.
  intros d Hd. unfold Tx.frame, Tx.get, mbind, Run_bind. destruct (db_frame d) as [a|] eqn:E; cbn; rewrite ?E; split; try done.
  by intros ? [= ->].
Qed.

Lemma triple_get_bind {A B} (x : State -> A) (k : A -> Run State B) P Q : (forall a, triple P (k a) Q) -> triple P (Tx.get x ≫= k) Q.
Proof. intros H d Hd. exact (H (x d) d Hd). Qed.

Lemma triple_frame_bind {B} (k : TxFrame -> Run State B) (P : option TxFrame -> Ghost -> Prop) Q :
  (forall f g, P f g -> is_Some f) -> (forall a, triple (fun f g => P f g /\ f = Some a) (k a) Q) -> triple P (Tx.frame ≫= k) Q.
Proof. intros Hs H d Hd. destruct (Hs _ _ Hd) as [a Ha]. specialize (H a d (conj Hd Ha)). unfold Tx.frame, Tx.get, mbind, Run_bind. by rewrite Ha. Qed.

Lemma triple_onFrame x (P : option TxFrame -> Ghost -> Prop) (Q : unit + fault -> option TxFrame -> Ghost -> Prop) :
  (forall f g, P f g -> Q (inl tt) (option_map x f) g) -> triple P (Tx.onFrame x) Q.
Proof. intros H d Hd. by apply H. Qed.

Lemma triple_if {A} (b : bool) P (m m' : Run State A) Q : (b = true -> triple P m Q) -> (b = false -> triple P m' Q) -> triple P (if b then m else m') Q.
Proof. destruct b; auto. Qed.

(** A call of the host, recorded. *)
Lemma ghost_snoc w es e : ghostOf (snd ((w, es ++ [e]) : W * list TxEvent)) = ghostStep (ghostOf es) e.
Proof. unfold ghostOf. cbn [snd]. by rewrite foldl_app. Qed.

Lemma triple_call {A} (e : A + fault -> TxEvent) (m : Run W A) (P : option TxFrame -> Ghost -> Prop) (Q : A + fault -> option TxFrame -> Ghost -> Prop) :
  (forall r f g, P f g -> Q r f (ghostStep g (e r))) -> triple P (Tx.call (recording e m)) Q.
Proof.
  intros H [[w es] cl rf sf su n rl f] Hd. unfold Tx.call, recording, setWorld, ghost in *. cbn in Hd |- *. destruct (m w) as [r w'].
  specialize (H r f _ Hd). cbn. unfold ghostOf in *. by rewrite foldl_app.
Qed.
End triples.

(** ** Statements and their events *)

Section statements.
Context {W : Type} {h : TxHost W} (suffix : Z -> string) (dialect : DriverName).

Abbreviation State := (Db (W * list TxEvent)).

Definition exactly (f0 : option TxFrame) (g0 : Ghost) (f : option TxFrame) (g : Ghost) : Prop := f = f0 /\ g = g0.

Lemma triple_from {A} P (m : Run State A) Q : (forall f0 g0, P f0 g0 -> triple (exactly f0 g0) m Q) -> triple P m Q.
Proof. intros H d Hd. exact (H _ _ Hd d (conj eq_refl eq_refl)). Qed.

Lemma ghostStep_told g : ghostStep g (TSubscriber true) = g.
Proof. by destruct g. Qed.

(** What [publish] and [control] come to. *)
Inductive Told (g0 : Ghost) : unit + fault -> Ghost -> Prop :=
  | told : Told g0 (inl tt) g0
  | told_failed e : subscriberError e = true -> Told g0 (inr e) (ghostStep g0 (TSubscriber false)).

Inductive Sent (o : Own) (g0 : Ghost) : TxAnswer + fault -> Ghost -> Prop :=
  | sent_answered a : Sent o g0 (inl a) (ghostStep g0 (TOwn o (Some a)))
  | sent_effective a e : subscriberError e = true -> Sent o g0 (inr e) (ghostStep (ghostStep g0 (TOwn o (Some a))) (TSubscriber false))
  | sent_refused e : subscriberError e = false -> Sent o g0 (inr e) (ghostStep g0 (TOwn o None))
  | sent_masked e : subscriberError e = true -> Sent o g0 (inr e) (ghostStep (ghostStep g0 (TOwn o None)) (TSubscriber false)).

Lemma triple_publish event f0 g0 : triple (exactly f0 g0) (Tx.publish event) (fun r f g => f = f0 /\ Told g0 r g).
Proof.
  unfold Tx.publish. apply triple_get_bind. intros l. induction l as [|i l IH]; cbn [each].
  { apply triple_ret. intros f g [-> ->]. split; [done|constructor]. }
  eapply (triple_bind _ _ _ (fun r f g => f = f0 /\ Told g0 r g)); [|intros []|by intros e f g H].
  - eapply triple_bind; [eapply (triple_tried _ _ (fun r f g => f = f0 /\ g = ghostStep g0 (TSubscriber (returned r)))
      (fun r f g => f = f0 /\ exists r', r = inl r' /\ g = ghostStep g0 (TSubscriber (returned r')))); [|by intros r f g [-> ->]; eauto]| |by intros e f g (_ & r & ? & _)].
    + apply triple_call. by intros r f g [-> ->].
    + intros r. apply triple_from. intros f1 g1 (-> & r' & [= <-] & ->). destruct r as [u|e].
      * apply triple_ret. intros f g [-> ->]. split; [done|]. rewrite ghostStep_told. constructor.
      * apply triple_raise. intros f g [-> ->]. split; [done|]. by constructor.
  - eapply triple_weaken; [apply IH| |done]. intros f g [-> H]. by inversion H.
Qed.

Lemma library_subscriber (e : LibraryError) : subscriberError (driverError suffix dialect (libraryFault e)) = false.
Proof. unfold driverError, libraryFault. by repeat case_match. Qed.

Lemma triple_sendOwn s f0 g0 :
  triple (exactly f0 g0) (Tx.sendOwn s) (fun r f g => f = f0 /\ g = ghostStep g0 (TOwn s (answerOf r)) /\ forall e, r = inr e -> exists l, e = libraryFault l).
Proof.
  intros [[w es] cl rf sf su n rl f] [<- <-]. unfold Tx.sendOwn, ghost, setWorld. cbn. unfold recording. destruct (txOwn s w) as [[a|e] w']; cbn; rewrite <- ghost_snoc with (w := w'); cbn.
  all: split; [done|split; [done|]]; intros e' [= <-]; by eexists.
Qed.

Lemma triple_control s f0 g0 : triple (exactly f0 g0) (Tx.control suffix dialect s) (fun r f g => f = f0 /\ Sent s g0 r g).
Proof.
  unfold Tx.control, Tx.number, Tx.observed. apply triple_get_bind. intros n.
  eapply triple_bind; [eapply (triple_tried _ _ _ (fun r f g => f = f0 /\ exists r', r = inl r' /\ g = ghostStep g0 (TOwn s (answerOf r')) /\ forall e, r' = inr e -> exists l, e = libraryFault l));
    [apply triple_sendOwn|]| |by intros e f g (_ & r & ? & _)].
  { intros r f g (-> & -> & Hr). eauto. }
  intros r. apply triple_from. intros f1 g1 (-> & r' & [= <-] & -> & Hr). destruct r as [a|e].
  - eapply triple_bind; [apply triple_publish| |].
    + intros []. apply triple_ret. intros f g [-> H]. split; [done|]. inversion H; subst. constructor.
    + intros e f g [-> H]. split; [done|]. inversion H; subst. by constructor.
  - destruct (Hr e eq_refl) as [l ->]. eapply triple_bind; [apply triple_publish| |].
    + intros []. apply triple_raise. intros f g [-> H]. split; [done|]. inversion H; subst. constructor. apply library_subscriber.
    + intros e f g [-> H]. split; [done|]. inversion H; subst. by constructor.
Qed.
End statements.

(** ** The callback *)

Section callback.
Context {W : Type} {h : TxHost W} (suffix : Z -> string) (dialect : DriverName) (o : BeginOptions) (taken : nat).

Abbreviation State := (Db (W * list TxEvent)).

(** The session holds no more than the frame knows of, unless a failure was masked. *)
Definition holds (fr : TxFrame) (s : Sess) : Prop :=
  se_masked s = true \/
  (se_locks s ≡ₚ fr_locks fr /\ (forall v, v ∈ se_vars s -> v ∈ (fr_locals fr).*1 /\ dialect = MySql) /\
   (se_queryOnly s = true -> dialect = Sqlite /\ bo_readOnly o = true) /\ (se_uncommitted s = true -> dialect = Sqlite /\ Tx.uncommitted o = true)).

Definition working (r : Tally) : Prop := r = mkTally true false 0 taken false.

(** An open transaction of the options [o]. *)
Definition Busy (f : option TxFrame) (g : Ghost) : Prop :=
  exists fr, f = Some fr /\ fr_finished fr = false /\ fr_options fr = o /\ working (gh_order g) /\ holds fr (gh_session g).

Lemma busy_some f g : Busy f g -> is_Some f.
Proof. intros (fr & -> & _). by eexists. Qed.

Definition stays {A} (m : Run State A) : Prop := triple Busy m (fun _ => Busy).

Lemma stays_ret {A} (a : A) : stays (mret a).
Proof. by apply triple_ret. Qed.
Lemma stays_raise {A} e : stays (raise e : Run State A).
Proof. by apply triple_raise. Qed.
Lemma stays_refuse {A} code message : stays (refuse code message : Run State A).
Proof. by apply triple_raise. Qed.
Lemma stays_refuse_if b code message : stays (refuse_if b code message : Run State unit).
Proof. destruct b; [apply stays_refuse|apply stays_ret]. Qed.
Lemma stays_bind {A B} (m : Run State A) (k : A -> Run State B) : stays m -> (forall a, stays (k a)) -> stays (m ≫= k).
Proof. intros Hm Hk. eapply triple_bind; [exact Hm|exact Hk|done]. Qed.
Lemma stays_tried {A} (m : Run State A) : stays m -> stays (tried m).
Proof. intros Hm. by eapply triple_tried. Qed.
Lemma stays_get {A} (x : State -> A) : stays (Tx.get x).
Proof. by apply triple_get. Qed.
Lemma stays_frame : stays (Tx.frame : Run State TxFrame).
Proof. eapply triple_weaken; [apply triple_frame|done|by intros r f g []]. Qed.

(** A change of the frame that keeps what the end of the transaction reads. *)
Lemma stays_onFrame x : (forall fr, fr_finished (x fr) = fr_finished fr /\ fr_options (x fr) = fr_options fr /\ fr_locks (x fr) = fr_locks fr /\ fr_locals (x fr) = fr_locals fr) ->
  stays (Tx.onFrame x : Run State unit).
Proof.
  intros Hx. apply triple_onFrame. intros f g (fr & -> & Hf & Ho & Hw & Hh). destruct (Hx fr) as (E1 & E2 & E3 & E4).
  exists (x fr). rewrite E1, E2. split; [done|]. unfold holds in *. by rewrite E3, E4.
Qed.

(** Calls that change nothing of what a session holds. *)
Definition plain (s : Own) : bool :=
  match s with Savepoint _ | Release _ | RollbackTo _ | AdvisoryLock _ | SetConfig _ _ | BusyTimeout | SetBusyTimeout _ | RowLock | StatementTimeout _ | SetLevel _ => true | _ => false end.

Lemma holds_last fr s l : holds fr s -> holds fr (setLast l s).
Proof. by destruct s. Qed.

Lemma holds_told fr s : holds fr s -> holds fr (sessStep s (TSubscriber false)).
Proof. intros H. cbn. destruct (se_last s); [done| | |]; by left. Qed.

Lemma holds_own fr s a x : plain x = true -> holds fr s -> holds fr (sessStep s (TOwn x a)).
Proof. intros Hp H. destruct a as [a|]; destruct x; try done; by apply holds_last. Qed.

Lemma working_own r s x a : plain x = true -> working r -> working (tallyStep s r (TOwn x a)).
Proof. intros Hp ->. by destruct x. Qed.

Lemma holds_refused fr s x : holds fr s -> holds fr (sessStep s (TOwn x None)).
Proof. intros H. destruct x; by apply holds_last. Qed.

Lemma stays_plain x : plain x = true -> stays (Tx.control suffix dialect x).
Proof.
  intros Hp. apply triple_from. intros f0 g0 (fr & -> & Hf & Ho & Hw & Hh). eapply triple_weaken; [apply triple_control|done|].
  intros r f g [-> Hs]. exists fr. split; [done|]. split; [done|]. split; [done|].
  inversion Hs; subst; cbn [ghostStep gh_order gh_session]; (split; [by apply working_own|]); repeat apply holds_told; by apply holds_own.
Qed.

Lemma stays_publish event : stays (Tx.publish event).
Proof.
  apply triple_from. intros f0 g0 (fr & -> & Hf & Ho & Hw & Hh). eapply triple_weaken; [apply triple_publish|done|].
  intros r f g [-> Hs]. exists fr. split; [done|]. split; [done|]. split; [done|]. inversion Hs; subst; [done|]. split; [done|]. by apply holds_told.
Qed.

Lemma stays_client {A} (m : Run W A) : stays (Tx.call (recording (fun _ => TClient) m)).
Proof.
  apply triple_call. intros r f g (fr & -> & Hf & Ho & Hw & Hh). exists fr. split; [done|]. split; [done|]. split; [done|].
  unfold working in *. cbn. rewrite Hw. split; [done|]. by apply holds_last.
Qed.

Lemma stays_asked : stays (Tx.inTransaction : Run State (option bool)).
Proof.
  intros [[w es] cl rf sf su n rl f] (fr & Hf & Hff & Ho & Hw & Hh). unfold Tx.inTransaction, ghost, setWorld in *. cbn in *. unfold recording. destruct (txInTransaction w) as [b w']. cbn.
  exists fr. split; [done|]. split; [done|]. split; [done|]. unfold ghostOf in *. rewrite foldl_app. cbn [foldl ghostStep gh_order gh_session].
  split; [done|]. destruct b as [[]|]; cbn; [|by destruct (foldl _ _ _) as [[] ?]|done]. by destruct (se_last _).
Qed.

Lemma stays_statementFault f : stays (Tx.modify (setStatementFault f) : Run State unit).
Proof. by intros d. Qed.

Lemma stays_checkStatementFault kind tables sql binds : stays (Tx.checkStatementFault kind tables sql binds).
Proof.
  unfold Tx.checkStatementFault, Tx.number. apply stays_bind; [apply stays_get|]. intros [[code message]|]; [|apply stays_ret].
  apply stays_bind; [apply stays_statementFault|intros _]. apply stays_bind; [apply stays_get|intros n]. apply stays_bind; [apply stays_publish|intros _]. apply stays_raise.
Qed.

Lemma stays_if {A} (b : bool) (m m' : Run State A) : stays m -> stays m' -> stays (if b then m else m').
Proof. by destruct b. Qed.
Lemma stays_insertAudit record : stays (Tx.call (txInsertAudit (TxHost := recordedTx h) record)).
Proof. apply stays_client. Qed.
Lemma stays_execute_call sql params : stays (Tx.call (txExecute (TxHost := recordedTx h) sql params)).
Proof. apply stays_client. Qed.
End callback.

Create HintDb stays.
#[export] Hint Resolve stays_ret stays_raise stays_refuse stays_refuse_if stays_get stays_frame stays_publish stays_asked stays_checkStatementFault
  stays_insertAudit stays_execute_call : stays.

(** A program built of such calls by binds, tries and matches. *)
Ltac stays :=
  repeat first
    [ solve [eauto with stays]
    | match goal with |- forall _, _ => intros ? end
    | match goal with |- stays _ _ _ (_ ≫= _) => apply stays_bind | |- stays _ _ _ (tried _) => apply stays_tried end
    | match goal with |- stays _ _ _ (match ?x with _ => _ end) => destruct x end
    | match goal with |- stays _ _ _ (let '_ := ?x in _) => destruct x end
    | apply stays_plain; reflexivity
    | apply stays_onFrame; intros ?; done ].

Section calls.
Context {W : Type} {h : TxHost W} (suffix : Z -> string) (dialect : DriverName) (o : BeginOptions) (taken : nat).

Abbreviation State := (Db (W * list TxEvent)).
Abbreviation keeps := (stays (W := W) dialect o taken).

Lemma stays_observed {A} kind tables sql binds n (m : Run State A) : keeps m -> keeps (Tx.observed suffix dialect kind tables sql binds n m).
Proof. intros H. unfold Tx.observed. stays. Qed.

Lemma stays_run x : plain x = true -> keeps (Tx.run suffix dialect x).
Proof. intros H. unfold Tx.run. stays. by apply stays_plain. Qed.
Lemma stays_statement x : plain x = true -> keeps (Tx.statement suffix dialect x).
Proof. intros H. unfold Tx.statement. stays. by apply stays_plain. Qed.

Lemma stays_execute tables sql params : keeps (Tx.execute suffix dialect tables sql params).
Proof. unfold Tx.execute, Tx.number. stays. by apply stays_observed, stays_execute_call. Qed.
Lemma stays_guarded {A} (m : Run State A) : keeps m -> keeps (Tx.guarded m).
Proof. intros H. unfold Tx.guarded. stays. Qed.
Hint Resolve stays_execute stays_guarded : stays.

Lemma stays_savepointStep k name : keeps (Tx.savepointStep suffix dialect k name).
Proof. unfold Tx.savepointStep. stays. by destruct k; apply stays_run. Qed.
Hint Resolve stays_savepointStep : stays.

Lemma stays_undo name : keeps (Tx.undo suffix dialect name).
Proof. unfold Tx.undo, Tx.tryStep. stays. Qed.
Hint Resolve stays_undo : stays.

Lemma stays_savepoint {A} (body : Run State A) : keeps body -> keeps (Tx.savepoint suffix dialect body).
Proof. intros H. unfold Tx.savepoint. stays. Qed.

Lemma stays_takeRowLock noWait : keeps (Tx.takeRowLock suffix dialect noWait).
Proof. unfold Tx.takeRowLock. stays. all: by apply stays_run. Qed.
Lemma stays_rowLock mode : keeps (Tx.rowLock suffix dialect mode).
Proof. unfold Tx.rowLock. stays. all: first [by apply stays_run|apply stays_takeRowLock]. Qed.
Hint Resolve stays_rowLock : stays.

Lemma stays_undoAudit failed : keeps (Tx.undoAudit suffix dialect failed).
Proof. unfold Tx.undoAudit. stays. Qed.
Hint Resolve stays_undoAudit : stays.
Lemma stays_auditFor w guard : keeps (Tx.auditFor suffix dialect w guard).
Proof. unfold Tx.auditFor. stays. Qed.
Lemma stays_settle guarded affected failed : keeps (Tx.settle suffix dialect guarded affected failed).
Proof. unfold Tx.settle. stays. Qed.
Lemma stays_args binds : keeps (Tx.args binds).
Proof. induction binds as [|[v|table] binds IH]; cbn [Tx.args]; unfold Tx.auditValue; stays. Qed.
Hint Resolve stays_auditFor stays_settle stays_args : stays.
Lemma stays_writeStep w : keeps (Tx.writeStep suffix dialect w).
Proof. unfold Tx.writeStep. apply stays_guarded. stays. Qed.
Lemma stays_recordInserted w key : keeps (Tx.recordInserted w key).
Proof. unfold Tx.recordInserted. stays. Qed.
Hint Resolve stays_writeStep stays_recordInserted : stays.
Lemma stays_write w : keeps (Tx.write suffix dialect w).
Proof. unfold Tx.write. stays. Qed.
Hint Resolve stays_write : stays.

(** GET_LOCK and SET: between the answer and the note of the frame, the session may
    hold one lock or variable more. *)
Lemma stays_lock_mysql key : dialect = MySql ->
  keeps (a ← Tx.statement suffix dialect (GetLock key);
         _ ← refuse_if (negb (bool_decide (firstNumber a = JInt 1))) DEADLOCK (str ["lock "; key; " was not acquired"]);
         Tx.onFrame (fun f => withLocks (fr_locks f ++ [key]) f)).
Proof.
  intros Hd. unfold Tx.statement. eapply (triple_bind _ _ _ (fun r f g => match r with
    | inl a => exists fr s, f = Some fr /\ fr_finished fr = false /\ fr_options fr = o /\ working taken (gh_order g) /\ holds dialect o fr s /\ gh_session g = sessStep s (TOwn (GetLock key) (Some a))
    | inr _ => Busy dialect o taken f g end)); [| |done].
  - eapply triple_bind; [apply stays_checkStatementFault|intros ?|done].
    apply triple_from. intros f0 g0 (fr & -> & Hf & Ho & Hw & Hh). eapply triple_weaken; [apply triple_control|done|].
    assert (Hw' : forall s a, working taken (tallyStep s (gh_order g0) (TOwn (GetLock key) a))) by (intros; unfold working in *; by rewrite Hw).
    intros r f g [-> Hs]. inversion Hs; subst; cbn [gh_order gh_session ghostStep]; exists fr.
    + exists (gh_session g0). exact (conj eq_refl (conj Hf (conj eq_refl (conj (Hw' _ _) (conj Hh eq_refl))))).
    + refine (conj eq_refl (conj Hf (conj eq_refl (conj (Hw' _ _) _)))). cbn. case_bool_decide; [by left|by apply holds_last].
    + refine (conj eq_refl (conj Hf (conj eq_refl (conj (Hw' _ _) _)))). by apply holds_refused.
    + refine (conj eq_refl (conj Hf (conj eq_refl (conj (Hw' _ _) _)))). apply holds_told. by apply holds_refused.
  - intros a. destruct (bool_decide _) eqn:E; cbn [negb refuse_if].
    + apply triple_pass, triple_onFrame. intros f g (fr & s & -> & Hf & Ho & Hw & Hh & Hg).
      exists (withLocks (fr_locks fr ++ [key]) fr). repeat split; try done. rewrite Hg. cbn. rewrite E. destruct Hh as [Hm|(Hl & Hv & Hq & Hu)]; [by left|right].
      split; [|done]. cbn. rewrite Hl. apply Permutation_cons_append.
    + apply triple_stop. intros f g (fr & s & -> & Hf & Ho & Hw & Hh & Hg). exists fr. repeat split; try done. rewrite Hg. cbn. rewrite E. by apply holds_last.
Qed.

Lemma stays_lock key : keeps (Tx.lock suffix dialect key).
Proof.
  unfold Tx.lock. apply stays_bind; [apply stays_refuse_if|intros _]. destruct dialect eqn:Hd; rewrite <- Hd; [by apply stays_lock_mysql| |apply stays_rowLock].
  stays. by apply stays_statement.
Qed.

Lemma elem_assoc_set {A} (k v : string) (x : A) l : v = k \/ v ∈ l.*1 -> v ∈ (assoc_set k x l).*1.
Proof.
  induction l as [|[k' y] l IH]; cbn; intros H.
  - destruct H as [->|[]%elem_of_nil]. left.
  - destruct (decide (k = k')) as [->|Hn]; cbn.
    + destruct H as [->|H]; [left|done].
    + destruct H as [->|[->|H]%elem_of_cons]; [right; by auto|left|right; by auto].
Qed.

(** A variable more in the frame than on the session does no harm. *)
Lemma stays_noteLocal key value : keeps (Tx.onFrame (fun f => withLocals (assoc_set key value (fr_locals f)) f)).
Proof.
  apply triple_onFrame. intros f g (fr & -> & Hf & Ho & Hw & Hh). eexists. split; [done|]. split; [done|]. split; [done|]. split; [done|].
  destruct Hh as [Hm|(Hl & Hv & Hq)]; [by left|right]. split; [done|]. split; [|done]. intros v Hv'. destruct (Hv v Hv') as [H1 H2]. split; [|done]. cbn. apply elem_assoc_set. by right.
Qed.

Lemma stays_setVariable key value : dialect = MySql ->
  keeps (_ ← Tx.statement suffix dialect (SetVariable key value); Tx.onFrame (fun f => withLocals (assoc_set key value (fr_locals f)) f)).
Proof.
  intros Hd. unfold Tx.statement. eapply (triple_bind _ _ _ (fun r f g => match r with
    | inl a => exists fr s, f = Some fr /\ fr_finished fr = false /\ fr_options fr = o /\ working taken (gh_order g) /\ holds dialect o fr s /\ gh_session g = sessStep s (TOwn (SetVariable key value) (Some a))
    | inr _ => Busy dialect o taken f g end)); [| |done].
  - eapply triple_bind; [apply stays_checkStatementFault|intros ?|done].
    apply triple_from. intros f0 g0 (fr & -> & Hf & Ho & Hw & Hh). eapply triple_weaken; [apply triple_control|done|].
    assert (Hw' : forall s a, working taken (tallyStep s (gh_order g0) (TOwn (SetVariable key value) a))) by (intros; unfold working in *; by rewrite Hw).
    intros r f g [-> Hs]. inversion Hs; subst; cbn [gh_order gh_session ghostStep]; exists fr.
    + exists (gh_session g0). exact (conj eq_refl (conj Hf (conj eq_refl (conj (Hw' _ _) (conj Hh eq_refl))))).
    + refine (conj eq_refl (conj Hf (conj eq_refl (conj (Hw' _ _) _)))). by left.
    + refine (conj eq_refl (conj Hf (conj eq_refl (conj (Hw' _ _) _)))). by apply holds_refused.
    + refine (conj eq_refl (conj Hf (conj eq_refl (conj (Hw' _ _) _)))). apply holds_told. by apply holds_refused.
  - intros a. apply triple_onFrame. intros f g (fr & s & -> & Hf & Ho & Hw & Hh & Hg).
    eexists. split; [done|]. split; [done|]. split; [done|]. split; [done|]. rewrite Hg. destruct Hh as [Hm|(Hl & Hv & Hq)]; [by left|right].
    split; [done|]. split; [|done]. cbn. intros v [->|Hv']%elem_of_cons; (split; [|done]); apply elem_assoc_set; [by left|]. right. by apply Hv.
Qed.

Lemma stays_setLocal key value : keeps (Tx.setLocal suffix dialect key value).
Proof.
  unfold Tx.setLocal. apply stays_bind; [apply stays_refuse_if|intros _]. destruct dialect eqn:Hd; rewrite <- Hd.
  - intros d Hd'. pose proof (stays_setVariable key value Hd d Hd') as H.
    unfold mbind, Run_bind in *. by destruct (Tx.statement suffix dialect (SetVariable key value) d) as [[a|e] d'].
  - apply stays_bind; [stays; by apply stays_statement|intros _]. apply stays_noteLocal.
  - apply stays_bind; [apply stays_ret|intros _]. apply stays_noteLocal.
Qed.

Lemma stays_local key : keeps (Tx.local key).
Proof. unfold Tx.local. stays. Qed.
Lemma stays_nestedOptions x : keeps (Tx.nestedOptions x).
Proof. unfold Tx.nestedOptions, Tx.countOf. stays. Qed.

Lemma stays_perform c : keeps (Tx.perform suffix dialect c).
Proof.
  induction c as [v|e|tables sql params next IH|w next IH|key next IH|key value next IH|key next IH|mode next IH|options body IHb next IH]; cbn [Tx.perform].
  1: apply stays_ret. 1: apply stays_raise.
  all: apply stays_bind; [apply stays_tried|intros r; apply IH].
  - stays.
  - apply stays_write.
  - apply stays_lock.
  - apply stays_setLocal.
  - apply stays_local.
  - apply stays_rowLock.
  - apply stays_bind; [apply stays_nestedOptions|intros _]. by apply stays_savepoint.
Qed.
End calls.

(** ** The end of a transaction *)

Section ending.
Context {W : Type} {h : TxHost W} (suffix : Z -> string) (dialect : DriverName) (o : BeginOptions) (taken : nat).

Abbreviation State := (Db (W * list TxEvent)).

(** A cleanup statement failed for another reason than its subscriber. *)
Definition failing (errors : list fault) : bool := existsb (fun e => negb (subscriberError e)) errors.

Definition tainted (errors : list fault) (s : Sess) : Prop := se_masked s = true \/ failing errors = true.

(** What the session still has of the transaction behind a part of the cleanup. *)
Definition Left (errors : list fault) (locks vars : list string) (q u : bool) (s : Sess) : Prop :=
  tainted errors s \/
  (se_locks s ≡ₚ locks /\ (forall v, v ∈ se_vars s -> v ∈ vars) /\ (se_queryOnly s = true -> q = true) /\ (se_uncommitted s = true -> u = true)).

Definition clearing (s : Own) : bool := match s with QueryOnly _ | ReadUncommittedMode _ | ReleaseLock _ | ClearVariable _ => true | _ => false end.

Lemma failing_snoc errors e : failing (errors ++ [e]) = failing errors || negb (subscriberError e).
Proof. unfold failing. rewrite existsb_app. cbn. by rewrite orb_false_r. Qed.

Lemma answered x a s : sessStep s (TOwn x (Some a)) = effect x a (setLast LastOther s).
Proof. by destruct x. Qed.

Lemma working_clearing s x a : clearing x = true -> tallyStep s (mkTally true false 0 taken false) (TOwn x a) = mkTally true false 0 taken false.
Proof. by destruct x. Qed.

Lemma clearing_last x a s : clearing x = true -> se_last (effect x a (setLast LastOther s)) = LastOther.
Proof. by destruct x. Qed.
Lemma clearing_masked x a s : clearing x = true -> se_masked (effect x a (setLast LastOther s)) = se_masked s.
Proof. by destruct x. Qed.

(** The statement was sent and had its effect, or its failure says that the session
    is not to be used again. *)
Inductive Cleared (x : Own) (errors : list fault) (s : Sess) : option TxAnswer * list fault -> Sess -> Prop :=
  | cleared oa errors' a : (failing errors = true -> failing errors' = true) -> Cleared x errors s (oa, errors') (effect x a (setLast LastOther s))
  | cleared_tainted oa errors' s' : tainted errors' s' -> Cleared x errors s (oa, errors') s'.

Lemma triple_attempt x errors f0 s0 : clearing x = true ->
  triple (exactly f0 (mkGhost s0 (mkTally true false 0 taken false))) (Tx.attempt suffix dialect x errors)
    (fun r f g => f = f0 /\ gh_order g = mkTally true false 0 taken false /\ exists p, r = inl p /\ Cleared x errors s0 p (gh_session g)).
Proof.
  intros Hx. unfold Tx.attempt.
  eapply (triple_bind _ _ _ (fun r f g => f = f0 /\ exists r', r = inl r' /\ Sent x (mkGhost s0 (mkTally true false 0 taken false)) r' g)); [|intros r|by intros e f g (_ & ? & ? & _)].
  { eapply triple_tried; [apply triple_control|]. intros r f g [-> H]. eauto. }
  apply triple_ret. intros f g (-> & r' & [= <-] & Hs). split; [done|].
  inversion Hs; subst; cbn [ghostStep gh_order gh_session]; rewrite ?working_clearing by done; (split; [done|]); (eexists; split; [done|]).
  - rewrite answered. by constructor.
  - rewrite answered. cbn [sessStep]. rewrite clearing_last by done. constructor. rewrite failing_snoc. by intros ->.
  - constructor 2. right. rewrite failing_snoc. match goal with H : subscriberError _ = _ |- _ => rewrite H end. by rewrite orb_true_r.
  - constructor 2. left. by destruct x.
Qed.
Lemma Left_last errors locks vars q u s l : Left errors locks vars q u (setLast l s) <-> Left errors locks vars q u s.
Proof. done. Qed.

Lemma removeOne_perm k l l' : l ≡ₚ k :: l' -> removeOne k l ≡ₚ l'.
Proof.
  revert l'. induction l as [|x l IH]; intros l' H; [by apply Permutation_nil_cons in H|]. cbn. case_decide as E.
  - subst. by apply (Permutation.Permutation_cons_inv (a := k)).
  - assert (Hin : x ∈ l') by (assert (Hx : x ∈ k :: l') by (rewrite <- H; left); apply elem_of_cons in Hx as [->|Hx]; [done|exact Hx]).
    apply elem_of_Permutation in Hin as [l2 Hl2]. rewrite Hl2 in *. constructor. apply IH.
    apply (Permutation.Permutation_cons_inv (a := x)). rewrite H. apply Permutation.perm_swap.
Qed.

(** What each cleanup statement clears. *)
Lemma left_lock key errors oa errors' locks vars q u s s' :
  Left errors (key :: locks) vars q u s -> Cleared (ReleaseLock key) errors s (oa, errors') s' -> Left errors' locks vars q u s'.
Proof.
  intros H Hc. inversion Hc; subst; [|by left]. destruct H as [[Hm|He]|(Hl & Hr)]; [by left; left|left; right; auto|right].
  split; [|done]. cbn. by apply removeOne_perm.
Qed.

Lemma left_var key errors oa errors' vars q u s s' :
  Left errors [] (key :: vars) q u s -> Cleared (ClearVariable key) errors s (oa, errors') s' -> Left errors' [] vars q u s'.
Proof.
  intros H Hc. inversion Hc; subst; [|by left]. destruct H as [[Hm|He]|(Hl & Hv & Hr)]; [by left; left|left; right; auto|right].
  split; [done|]. split; [|done]. cbn. intros v [Hn Hin]%list_elem_of_filter. apply Hv in Hin as [->|Hin]%elem_of_cons; done.
Qed.

Lemma left_queryOnly errors oa errors' locks vars q u s s' :
  Left errors locks vars q u s -> Cleared (QueryOnly false) errors s (oa, errors') s' -> Left errors' locks vars false u s'.
Proof.
  intros H Hc. inversion Hc; subst; [|by left]. destruct H as [[Hm|He]|(Hl & Hv & Hq & Hu)]; [by left; left|left; right; auto|right]. done.
Qed.

Lemma left_uncommitted errors oa errors' locks vars q u s s' :
  Left errors locks vars q u s -> Cleared (ReadUncommittedMode false) errors s (oa, errors') s' -> Left errors' locks vars q false s'.
Proof.
  intros H Hc. inversion Hc; subst; [|by left]. destruct H as [[Hm|He]|(Hl & Hv & Hq & Hu)]; [by left; left|left; right; auto|right]. done.
Qed.

Lemma left_more errors errors' locks vars q u s : (failing errors = true -> failing errors' = true) -> Left errors locks vars q u s -> Left errors' locks vars q u s.
Proof. intros He [[Hm|Hf]|H]; [by left; left|left; right; auto|by right]. Qed.

(** The frame [fr] is ending and the session has these things left. *)
Definition Ending (fr : TxFrame) (errors : list fault) (locks vars : list string) (q u : bool) (f : option TxFrame) (g : Ghost) : Prop :=
  f = Some fr /\ gh_order g = mkTally true false 0 taken false /\ Left errors locks vars q u (gh_session g).

Lemma triple_clear x errors fr locks vars q u locks' vars' q' u' :
  clearing x = true ->
  (forall oa errors' s s', Left errors locks vars q u s -> Cleared x errors s (oa, errors') s' -> Left errors' locks' vars' q' u' s') ->
  triple (Ending fr errors locks vars q u) (Tx.attempt suffix dialect x errors)
    (fun r f g => exists oa errors', r = inl (oa, errors') /\ Ending fr errors' locks' vars' q' u' f g).
Proof.
  intros Hx H. apply triple_from. intros f0 [s0 r0] (-> & Hr & Hl). cbn in Hr, Hl. subst r0. eapply triple_weaken; [by apply triple_attempt|done|].
  intros r f g (-> & Ho & [oa errors'] & -> & Hc). exists oa, errors'. split; [done|]. split; [done|]. split; [done|]. by eapply H.
Qed.

Lemma triple_attemptIf (b : bool) x errors fr locks vars q u q' u' :
  clearing x = true -> (b = false -> q = q' /\ u = u') ->
  (forall oa errors' s s', Left errors locks vars q u s -> Cleared x errors s (oa, errors') s' -> Left errors' locks vars q' u' s') ->
  triple (Ending fr errors locks vars q u) (Tx.attemptIf suffix dialect b x errors) (fun r f g => exists errors', r = inl errors' /\ Ending fr errors' locks vars q' u' f g).
Proof.
  intros Hx Hb H. unfold Tx.attemptIf. destruct b.
  - eapply triple_bind; [by eapply triple_clear| |by intros e f g (? & ? & ? & _)].
    intros [oa errors']. apply triple_ret. intros f g (? & ? & [= <- <-] & He). eauto.
  - destruct (Hb eq_refl) as [-> ->]. apply triple_ret. eauto.
Qed.

Lemma triple_releaseLocks keys errors fr vars q u :
  triple (Ending fr errors keys vars q u) (Tx.releaseLocks suffix dialect keys errors) (fun r f g => exists errors', r = inl errors' /\ Ending fr errors' [] vars q u f g).
Proof.
  revert errors. induction keys as [|key keys IH]; intros errors; cbn [Tx.releaseLocks]; [apply triple_ret; eauto|].
  eapply triple_bind; [eapply triple_clear; [done|intros ????; apply left_lock]| |by intros e f g (? & ? & ? & _)].
  intros [oa errors']. eapply triple_weaken; [apply IH| |done]. intros f g (? & ? & [= <- <-] & -> & Ho & Hl). split; [done|]. split; [done|].
  eapply left_more; [|exact Hl]. intros He. repeat case_match; try done. by rewrite failing_snoc, He.
Qed.

Lemma triple_clearVariables keys errors fr q u :
  triple (Ending fr errors [] keys q u) (Tx.clearVariables suffix dialect keys errors) (fun r f g => exists errors', r = inl errors' /\ Ending fr errors' [] [] q u f g).
Proof.
  revert errors. induction keys as [|key keys IH]; intros errors; cbn [Tx.clearVariables]; [apply triple_ret; eauto|].
  eapply triple_bind; [eapply triple_clear; [done|intros ????; apply left_var]| |by intros e f g (? & ? & ? & _)].
  intros [oa errors']. eapply triple_weaken; [apply IH| |done]. intros f g (? & ? & [= <- <-] & He). exact He.
Qed.
(** The session has nothing left but perhaps its open transaction. *)
Definition Bare (errors : list fault) (s : Sess) : Prop := Left errors [] [] false false s.

Definition kept (fr : TxFrame) : list string := if bool_decide (dialect = MySql) then sort_by id (map fst (fr_locals fr)) else [].

Lemma holds_left fr s : holds dialect o fr s ->
  Left [] (fr_locks fr) (kept fr) (Tx.sqlite dialect && bo_readOnly o) (Tx.sqlite dialect && Tx.uncommitted o) s.
Proof.
  intros [Hm|(Hl & Hv & Hq & Hu)]; [by left; left|right]. split; [done|]. unfold Tx.sqlite. split; [|split].
  - intros v Hin. destruct (Hv v Hin) as [H ->]. unfold kept. rewrite bool_decide_true by done. by rewrite sort_by_perm.
  - intros H. destruct (Hq H) as [-> ->]. done.
  - intros H. destruct (Hu H) as [-> ->]. done.
Qed.

(** [fr] is finished and its session is as the callback left it. *)
Definition Closing (f : option TxFrame) (g : Ghost) : Prop :=
  exists fr, f = Some fr /\ fr_finished fr = true /\ fr_options fr = o /\ working taken (gh_order g) /\ holds dialect o fr (gh_session g).

(** The transaction is over for the frame, and its session is still held. *)
Definition Over (errors : list fault) (f : option TxFrame) (g : Ghost) : Prop :=
  exists fr, f = Some fr /\ fr_finished fr = true /\ gh_order g = mkTally true false 0 taken false /\ Bare errors (gh_session g).

Lemma triple_cleanup : triple Closing (Tx.cleanup suffix dialect) (fun r f g => exists errors, r = inl errors /\ Over errors f g).
Proof.
  unfold Tx.cleanup. apply triple_frame_bind; [intros f g (fr & -> & _); by eexists|]. intros fr.
  apply triple_from. intros f0 g0 [(fr' & -> & Hf & Ho & Hw & Hh) [= ->]].
  eapply (triple_weaken _ (Ending fr [] (fr_locks fr) (kept fr) (Tx.sqlite dialect && bo_readOnly o) (Tx.sqlite dialect && Tx.uncommitted o)) _ _
    (fun r f g => exists errors, r = inl errors /\ Ending (withLocks [] fr) errors [] [] false false f g)).
  2: { intros f g [-> ->]. split; [done|]. split; [done|]. by apply holds_left. }
  2: { intros r f g (errors & -> & -> & Hr & Hl). exists errors. split; [done|]. by exists (withLocks [] fr). }
  rewrite Ho.
  eapply triple_bind; [eapply (triple_attemptIf _ _ _ _ _ _ _ _ false); [done|by intros ->|intros ????; apply left_queryOnly]| |by intros e f g (? & ? & _)].
  intros errors1. eapply (triple_bind _ _ _ (fun r f g => exists errors', r = inl errors' /\ Ending fr errors' (fr_locks fr) (kept fr) false false f g)); [| |by intros e f g (? & ? & _)].
  { eapply triple_weaken; [eapply (triple_attemptIf _ (ReadUncommittedMode false) errors1 fr _ _ false (Tx.sqlite dialect && Tx.uncommitted o) false false); [done|by intros ->|intros ????; apply left_uncommitted]| |intros r f g H; exact H].
    by intros f g (? & [= <-] & H). }
  intros errors2. eapply (triple_bind _ _ _ (fun r f g => r = inl tt /\ Ending (withLocks [] fr) errors2 (fr_locks fr) (kept fr) false false f g)); [| |by intros e f g []].
  { apply triple_onFrame. intros f g (? & [= <-] & -> & H). split; [done|by split]. }
  intros []. apply (triple_weaken _ (Ending (withLocks [] fr) errors2 (fr_locks fr) (kept fr) false false) _ _ (fun r f g => exists errors, r = inl errors /\ Ending (withLocks [] fr) errors [] [] false false f g)); [|by intros f g []|done]. eapply triple_bind; [apply triple_releaseLocks| |by intros e f g (? & ? & _)].
  intros errors3. unfold kept. case_bool_decide.
  - eapply triple_weaken; [apply triple_clearVariables| |intros r f g H'; exact H']. by intros f g (? & [= <-] & He).
  - apply triple_ret. intros f g (? & [= <-] & He). eauto.
Qed.

(** A transaction that ended with [outcome] made [c] COMMITs that were answered. *)
Definition accounted (commit : bool) (outcome : unit + fault) (c : nat) : Prop :=
  match outcome with
  | inl _ => c = if commit then 1%nat else 0%nat
  | inr e => c = 0%nat \/ (c = 1%nat /\ commit = true /\ subscriberError e = true)
  end.

(** A session that may go back, or that [discard] closes. *)
Definition settled (discard : bool) (s : Sess) : Prop := discard = true \/ se_masked s = true \/ cleanSession s = true.

Definition Ready (commit : bool) (outcome : unit + fault) (discard : bool) (f : option TxFrame) (g : Ghost) : Prop :=
  exists fr e c, f = Some fr /\ fr_finished fr = true /\ gh_order g = mkTally true e c taken false /\ accounted commit outcome c /\ settled discard (gh_session g).

Definition readied (commit : bool) (r : ((unit + fault) * bool) + fault) (f : option TxFrame) (g : Ghost) : Prop :=
  exists outcome discard, r = inl (outcome, discard) /\ Ready commit outcome discard f g.

Lemma triple_asked f0 g0 : triple (exactly f0 g0) (Tx.inTransaction : Run State (option bool)) (fun r f g => f = f0 /\ exists b, r = inl b /\ g = ghostStep g0 (TAsked b)).
Proof.
  intros [[w es] cl rf sf su n rl f] [<- <-]. unfold Tx.inTransaction, ghost, setWorld. cbn. unfold recording. destruct (txInTransaction w) as [b w']. cbn.
  split; [done|]. exists b. split; [done|]. unfold ghostOf. by rewrite foldl_app.
Qed.

Lemma bare_settled errors s : Bare errors s -> se_open s = false \/ se_reported s = true -> settled (failing errors) s.
Proof.
  intros [[H|H]|(Hl & Hv & Hq & Hu)] Ho; [by right; left|by left|right; right].
  unfold cleanSession. apply Permutation_nil_r in Hl. rewrite Hl, bool_decide_true by done.
  rewrite bool_decide_true; [|destruct (se_vars s) as [|v l]; [done|]; destruct (not_elem_of_nil v); apply Hv; left].
  destruct (se_queryOnly s); [by specialize (Hq eq_refl)|]. destruct (se_uncommitted s); [by specialize (Hu eq_refl)|]. by destruct Ho as [->| ->]; rewrite ?orb_true_r.
Qed.

(** ROLLBACK: the transaction is closed, or the session refused it. *)
Lemma rolled errors s0 e c r g : Bare errors s0 -> Sent Rollback (mkGhost s0 (mkTally true e c taken false)) r g ->
  gh_order g = mkTally true e c taken false /\
  (settled (failing errors) (gh_session g) \/ exists x, r = inr x /\ subscriberError x = false /\ Bare errors (gh_session g) /\ se_reported (gh_session g) = se_reported s0).
Proof.
  intros Hb Hs. inversion Hs; subst; (split; [done|]).
  1,2: left; apply bare_settled; [exact Hb|by left].
  - right. eexists. done.
  - left. right. by left.
Qed.

Lemma triple_control_tried x f0 g0 :
  triple (exactly f0 g0) (tried (Tx.control suffix dialect x)) (fun r f g => f = f0 /\ exists r', r = inl r' /\ Sent x g0 r' g).
Proof. eapply triple_tried; [apply triple_control|]. intros r f g [-> H]. eauto. Qed.

Lemma failedCommit_ready error fr s0 : fr_finished fr = true -> subscriberError error = false -> se_last s0 = LastRefusedCommit -> Bare [] s0 ->
  triple (exactly (Some fr) (mkGhost s0 (mkTally true true 0 taken false))) (Tx.failedCommit suffix dialect error) (readied true).
Proof.
  intros Hf He Hl Hb. unfold Tx.failedCommit. rewrite He.
  eapply triple_bind; [apply triple_asked| |by intros e f g (_ & ? & ? & _)]. intros b. apply triple_from. intros f0 g0 (-> & b' & [= <-] & ->).
  destruct b as [[]|].
  - unfold ghostStep. cbn [gh_session gh_order sessStep tallyStep]. rewrite Hl.
    eapply triple_bind; [apply triple_control_tried| |by intros e f g (_ & ? & ? & _)].
    intros r. apply triple_ret. intros f g (-> & r' & [= <-] & Hs). apply (rolled []) in Hs as [Ho Hs]; [|exact Hb].
    assert (Hset : settled false (gh_session g)) by (destruct Hs as [Hs|(x & _ & _ & Hs & Hr)]; [done|apply (bare_settled []); [done|right; by rewrite Hr]]).
    destruct r as [a|x]; eexists _, _; (split; [reflexivity|]); exists fr, true, 0%nat; repeat split; try done; by left.
  - apply triple_ret. intros f g [-> ->]. eexists _, _. split; [done|]. exists fr, true, 0%nat. repeat split; [done|by left|]. right.
    destruct (bare_settled [] (setOpen false s0)) as [|]; [exact Hb|by left|done|done].
  - apply triple_ret. intros f g [-> ->]. eexists _, _. split; [done|]. exists fr, true, 0%nat. repeat split; [done|by left|by left].
Qed.

Lemma settled_discard b c s : settled b s -> settled (b || c) s.
Proof. intros [->|H]; [by left|by right]. Qed.

Lemma rollbackWith_ready commit errors : (commit = true -> joinedErrors errors <> None) ->
  triple (Over errors) (Tx.rollbackWith suffix dialect commit (joinedErrors errors) (failing errors)) (readied commit).
Proof.
  intros Hj. apply triple_from. intros f0 [s0 r0] (fr & -> & Hf & Hr & Hb). cbn in Hr, Hb. subst r0.
  unfold Tx.rollbackWith.
  apply (triple_bind _ _ _ (fun r f g => f = Some fr /\ gh_order g = mkTally true false 0 taken false /\ exists skip, r = inl skip /\
    (if (skip : bool) then settled (failing errors) (gh_session g) else Bare errors (gh_session g)))).
  { destruct (Tx.sqlite dialect); [|by apply triple_ret; intros f g [-> ->]; eauto].
    eapply triple_bind; [apply triple_asked| |by intros e f g (_ & ? & ? & _)]. intros b. apply triple_ret. intros f g (-> & b' & [= <-] & ->).
    split; [done|]. split; [done|]. eexists. split; [done|]. case_bool_decide as E.
    - subst. apply bare_settled; [exact Hb|by left].
    - destruct b as [[]|]; try done. unfold ghostStep; cbn [sessStep gh_session]. by destruct (se_last s0). }
  2: by intros e f g (_ & _ & ? & ? & _).
  intros skip. eapply (triple_bind _ _ _ (fun r f g => f = Some fr /\ gh_order g = mkTally true false 0 taken false /\ exists r', r = inl r' /\
    (match r' with inl _ => settled (failing errors) (gh_session g) | inr x => settled (failing errors || negb (subscriberError x)) (gh_session g) end))).
  - apply triple_from. intros f0 [s1 r1] (-> & Ho & skip' & [= <-] & Hb'). cbn in Ho, Hb'. subst r1. destruct skip.
    { eapply triple_tried; [apply (triple_ret tt _ (fun r f g => r = inl tt /\ exactly (Some fr) (mkGhost s1 (mkTally true false 0 taken false)) f g)); done|].
      intros r f g (-> & -> & ->). eauto. }
    eapply triple_tried; [eapply (triple_bind _ _ _ (fun r f g => f = Some fr /\ Sent Rollback (mkGhost s1 (mkTally true false 0 taken false)) r g)
      (fun r f g => f = Some fr /\ exists r', Sent Rollback (mkGhost s1 (mkTally true false 0 taken false)) r' g /\ r = match r' with inl _ => inl tt | inr x => inr x end))|].
    + apply triple_control.
    + intros a. apply triple_ret. intros f g [-> H]. eauto.
    + intros e f g [-> H]. eauto.
    + intros r f g (-> & r' & Hs & ->). apply (rolled errors) in Hs as [Ho Hs]; [|exact Hb']. split; [done|]. split; [done|]. eexists. split; [done|].
      destruct r' as [a|x]; destruct Hs as [Hs|(x' & E & He & _)]; try done; [by apply settled_discard|]. injection E as <-. left. by rewrite He, orb_true_r.
  - intros r. apply triple_ret. intros f g (-> & Ho & r' & [= <-] & Hs).
    destruct r as [[]|x].
    + eexists _, _. split; [done|]. exists fr, false, 0%nat. repeat split; try done. unfold accounted. destruct (joinedErrors errors) eqn:E; [by left|]. destruct commit; [by destruct (Hj eq_refl)|done].
    + eexists _, _. split; [done|]. exists fr, false, 0%nat. repeat split; try done. unfold accounted. repeat case_match; simplify_eq; by left.
  - by intros e f g (_ & _ & ? & ? & _).
Qed.

Lemma ending_ready commit : triple Closing (Tx.ending suffix dialect commit) (readied commit).
Proof.
  unfold Tx.ending. eapply triple_bind; [apply triple_cleanup| |by intros e f g (? & ? & _)]. intros errors.
  apply (triple_weaken _ (Over errors) _ _ (readied commit)); [|by intros f g (? & [= <-] & H)|done].
  destruct commit; [|by apply rollbackWith_ready]. destruct (joinedErrors errors) eqn:E; [rewrite <- E; apply rollbackWith_ready; by rewrite E|].
  assert (errors = []) as -> by (by destruct errors as [|? []]). clear E.
  apply triple_from. intros f0 [s0 r0] (fr & -> & Hf & Hr & Hb). cbn in Hr, Hb. subst r0.
  eapply triple_bind; [apply triple_control_tried| |by intros e f g (_ & ? & ? & _)]. intros r. apply triple_from. intros f1 g1 (-> & r' & [= <-] & Hs).
  inversion Hs; subst; cbv iota beta.
  - apply triple_ret. intros f g [-> ->]. eexists _, _. split; [done|]. exists fr, true, 1%nat. repeat split; [done|]. apply (bare_settled []); [exact Hb|by left].
  - unfold Tx.failedCommit. rewrite H. apply triple_ret. intros f g [-> ->]. eexists _, _. split; [done|]. exists fr, true, 1%nat. repeat split; [done|by right|].
    apply (bare_settled []); [exact Hb|by left].
  - by apply failedCommit_ready.
  - unfold Tx.failedCommit. rewrite H. apply triple_ret. intros f g [-> ->]. eexists _, _. split; [done|]. exists fr, true, 0%nat. repeat split; [done|by left|]. right. by left.
Qed.

(** The session went back: the transaction of these options is over. *)
Definition Finished (commit : bool) (r : unit + fault) (f : option TxFrame) (g : Ghost) : Prop :=
  exists e c, gh_order g = mkTally false e c taken false /\ accounted commit r c.

Lemma triple_release outcome commit discard :
  triple (Ready commit outcome discard) (_ ← Tx.release discard; match outcome with inl _ => mret tt | inr e => raise e end) (fun r f g => r = outcome /\ Finished commit r f g).
Proof.
  intros [[w es] cl rf sf su n rl f] (fr & e & c & Hf & Hff & Ho & Ha & Hs). unfold ghost in *. cbn in Hf, Ho, Hs.
  enough (exists e c, gh_order (ghostStep (ghostOf es) (TRelease discard)) = mkTally false e c taken false /\ accounted commit outcome c) as (e' & c' & Ho' & Ha').
  { destruct outcome as [[]|x]; cbn; (split; [done|]); exists e', c'; unfold ghost, ghostOf in *; cbn; rewrite foldl_app; done. }
  exists e, c. split; [|done]. unfold ghostStep, ghostOf. cbn [gh_order]. rewrite Ho. cbn. by destruct Hs as [->|[->| ->]]; rewrite ?orb_true_r.
Qed.

Lemma finish_done commit : triple (Busy dialect o taken) (Tx.finish suffix dialect commit) (Finished commit).
Proof.
  unfold Tx.finish. apply triple_frame_bind; [apply busy_some|]. intros fr. apply triple_from. intros f0 g0 [(fr' & -> & Hf & Ho & Hw & Hh) [= ->]]. rewrite Hf.
  eapply (triple_bind _ _ _ (fun r f g => r = inl tt /\ f = Some (finished fr) /\ g = g0)); [apply triple_onFrame; by intros f g [-> ->]| |by intros e f g []].
  intros []. apply triple_get_bind. intros cancelled. destruct (negb commit && negb (Tx.sqlite dialect) && cancelled) eqn:E.
  - destruct commit; [done|]. eapply triple_weaken; [apply (triple_release (inl tt) false true)| |intros r f g [_ H]; exact H].
    intros f g (_ & -> & ->). exists (finished fr), false, 0%nat. repeat split; [exact Hw|by left].
  - eapply triple_bind; [eapply triple_weaken; [apply (ending_ready commit)| |intros r f g H; exact H]| |].
    + intros f g (_ & -> & ->). exists (finished fr). by repeat split.
    + intros [outcome discard]. eapply triple_weaken; [apply triple_release| |intros r f g [_ H]; exact H]. by intros f g (? & ? & [= <- <-] & H).
    + by intros e f g (? & ? & ? & _).
Qed.

(** *** Opening *)

Lemma stays_begin_statement text : stays dialect o taken (Tx.control suffix dialect (Begin text)).
Proof.
  apply triple_from. intros f0 g0 (fr & -> & Hf & Ho & Hw & Hh). eapply triple_weaken; [apply triple_control|done|].
  intros r f g [-> Hs]. exists fr. split; [done|]. split; [done|]. split; [done|]. unfold working in *.
  inversion Hs; subst; cbn [ghostStep gh_order gh_session]; rewrite Hw; (split; [done|]).
  1,2: destruct Hh as [Hm|Hh]; [by left|by right].
  - by apply holds_refused.
  - by apply holds_told, holds_refused.
Qed.

Lemma stays_mode x : (x = QueryOnly true /\ dialect = Sqlite /\ bo_readOnly o = true) \/ (x = ReadUncommittedMode true /\ dialect = Sqlite /\ Tx.uncommitted o = true) ->
  stays dialect o taken (Tx.control suffix dialect x).
Proof.
  intros Hx. apply triple_from. intros f0 g0 (fr & -> & Hf & Ho & Hw & Hh). eapply triple_weaken; [apply triple_control|done|].
  intros r f g [-> Hs]. exists fr. split; [done|]. split; [done|]. split; [done|]. unfold working in *.
  inversion Hs; subst; cbn [ghostStep gh_order gh_session]; rewrite Hw; (split; [by destruct Hx as [(-> & _)|(-> & _)]|]).
  3: by apply holds_refused.
  3: by apply holds_told, holds_refused.
  all: destruct Hx as [(-> & Hd & Hx)|(-> & Hd & Hx)]; destruct Hh as [Hm|(Hl & Hv & Hq & Hu)]; try (by left); right; cbn; auto.
Qed.

Lemma opening_cases x : x ∈ Tx.opening dialect o ->
  plain x = true \/ (exists text, x = Begin text) \/
  (x = QueryOnly true /\ dialect = Sqlite /\ bo_readOnly o = true) \/ (x = ReadUncommittedMode true /\ dialect = Sqlite /\ Tx.uncommitted o = true).
Proof.
  unfold Tx.opening. destruct dialect; repeat case_match; cbn; rewrite ?elem_of_cons, ?elem_of_nil; intros Hin;
    repeat destruct Hin as [Hin|Hin]; subst; try done; eauto 9.
Qed.

Lemma stays_opening x : x ∈ Tx.opening dialect o -> stays dialect o taken (Tx.run suffix dialect x).
Proof.
  intros Hin. unfold Tx.run. apply stays_bind; [apply stays_frame|intros fr]. apply stays_bind; [apply stays_refuse_if|intros _].
  apply opening_cases in Hin as [Hp|[[text ->]|Hm]]; [by apply stays_plain|apply stays_begin_statement|by apply stays_mode].
Qed.

(** The transaction is open, or it is over and failed without a COMMIT. *)
Definition opened (r : unit + fault) (f : option TxFrame) (g : Ghost) : Prop :=
  match r with inl _ => Busy dialect o taken f g | inr _ => exists e, gh_order g = mkTally false e 0 taken false end.

Lemma sendOpening_opened steps began : (forall x, x ∈ steps -> x ∈ Tx.opening dialect o) -> triple (Busy dialect o taken) (Tx.sendOpening suffix dialect began steps) opened.
Proof.
  revert began. induction steps as [|x steps IH]; intros began Hin; cbn [Tx.sendOpening]; [by apply triple_ret|].
  eapply (triple_bind _ _ _ (fun r f g => Busy dialect o taken f g /\ returned r = true)); [| |by intros e f g []].
  { eapply triple_tried; [apply stays_opening, Hin; left|done]. }
  intros r. eapply triple_weaken with (P' := Busy dialect o taken) (Q' := opened); [|by intros f g []|done]. destruct r as [a|error].
  { apply IH. intros y Hy. apply Hin. by right. }
  destruct (began || _).
  - eapply (triple_bind _ _ _ (fun r f g => exists r', r = inl r' /\ Finished false r' f g)); [| |by intros e f g (? & ? & _)].
    { eapply triple_tried; [apply finish_done|]. eauto. }
    intros r. apply triple_from. intros f0 g0 (r' & [= <-] & e & c & Ho & Ha).
    assert (c = 0%nat) as -> by (destruct r; cbn in Ha; [done|by destruct Ha as [->|(? & ? & ?)]]).
    destruct r as [u|x']; apply triple_raise; intros f g [-> ->]; by exists e.
  - apply triple_from. intros f0 g0 (fr & -> & Hf & Ho & Hw & Hh).
    eapply (triple_bind _ _ _ (fun r f g => r = inl tt /\ exactly (Some (finished fr)) g0 f g)); [apply triple_onFrame; by intros f g [-> ->]| |by intros e f g []]. intros [].
    eapply triple_weaken; [apply (triple_release (inr error) false true)| |].
    + intros f g (_ & -> & ->). exists (finished fr), false, 0%nat. repeat split; [exact Hw|by left|by left].
    + intros r f g (-> & e & c & He & [->|(_ & [=] & _)]). by exists e.
Qed.
End ending.

(** ** Attempts *)

Section transactions.
Context {W : Type} {h : TxHost W} (suffix : Z -> string) (dialect : DriverName).

Abbreviation State := (Db (W * list TxEvent)).

(** No session is held, no COMMIT was answered and [n] sessions were taken. *)
Definition Idle (n : nat) (f : option TxFrame) (g : Ghost) : Prop := exists e, gh_order g = mkTally false e 0 n false.

Lemma idle_publish n event : triple (Idle n) (Tx.publish event) (fun _ => Idle n).
Proof.
  apply triple_from. intros f0 [s r] [e He]. cbn in He. subst r. eapply triple_weaken; [apply triple_publish|done|].
  intros r f g [-> H]. inversion H; subst; by exists e.
Qed.

Lemma idle_rowLockTable n : triple (Idle n) (Tx.rowLockTable suffix dialect) (fun _ => Idle n).
Proof.
  unfold Tx.rowLockTable. apply triple_get_bind. intros [|]; [by apply triple_ret|]. unfold Tx.observed.
  eapply (triple_bind _ _ _ (fun _ => Idle n)); [|intros _; by intros d|done].
  eapply (triple_bind _ _ _ (fun _ => Idle n)); [eapply (triple_tried _ _ (fun _ => Idle n)); [apply triple_call|done]| |done].
  - intros r f [s q] [e He]. cbn in He. subst q. by exists e.
  - intros [a|e]; (eapply triple_bind; [apply idle_publish|intros []|done]); [by apply triple_ret|by apply triple_raise].
Qed.

(** [begin]: a transaction of these options is open on the next session, or nothing is. *)
Definition begun (o : BeginOptions) (n : nat) (r : unit + fault) (f : option TxFrame) (g : Ghost) : Prop :=
  match r with inl _ => Busy dialect o (S n) f g | inr _ => exists k, (k <= S n)%nat /\ Idle k f g end.

Lemma begin_begun o n : triple (Idle n) (Tx.begin suffix dialect o) (begun o n).
Proof.
  unfold Tx.begin. assert (Hout : forall e f g, Idle n f g -> begun o n (inr e) f g) by (intros e f g H; exists n; split; [lia|done]).
  eapply (triple_bind _ _ _ (fun _ => Idle n)); [unfold refuse_if; destruct (_ && _); [by apply triple_raise|by apply triple_ret]|intros _|by intros e f g H; apply Hout].
  eapply (triple_bind _ _ _ (fun _ => Idle n)); [destruct (Tx.sqlite dialect); [apply idle_rowLockTable|by apply triple_ret]|intros _|by intros e f g H; apply Hout].
  eapply (triple_bind _ _ _ (fun r f g => match r with inl _ => gh_session g = freshSession /\ gh_order g = mkTally true false 0 (S n) false | inr _ => Idle n f g end));
    [|intros []|by intros e f g H; apply Hout].
  { apply triple_call. intros [[]|x] f [s q] [e He]; cbn in He; subst q; [done|by exists e]. }
  intros d [Hs Ho].
  assert (Hb : forall d', db_frame d' = Some (mkFrame (db_transactions d + 1) o false 0 [] [] None None []) -> ghost d' = ghost d ->
      let '(r, d'') := Tx.sendOpening suffix dialect false (Tx.opening dialect o) d' in begun o n r (db_frame d'') (ghost d'')).
  { intros d' Hf Hg. pose proof (sendOpening_opened suffix dialect o (S n) (Tx.opening dialect o) false (fun _ H => H) d') as H.
    destruct (Tx.sendOpening suffix dialect false (Tx.opening dialect o) d') as [r d'']. specialize (H ltac:(
      rewrite Hf, Hg; eexists; split; [done|]; split; [done|]; split; [done|]; split; [exact Ho|]; right; rewrite Hs; split; [done|split; [intros ? []%elem_of_nil|done]])).
    destruct r; [exact H|]. by exists (S n). }
  exact (Hb (setFrame (Some (mkFrame (db_transactions d + 1) o false 0 [] [] None None [])) (countTransaction d)) eq_refl eq_refl).
Qed.

(** What attempts come to: a result of exactly one COMMIT, or an error of none, except
    for a COMMIT whose subscriber failed. *)
Definition Ended {A} (n : nat) (r : A + fault) (f : option TxFrame) (g : Ghost) : Prop :=
  exists e c k, gh_order g = mkTally false e c k false /\ (k <= n)%nat /\
    match r with inl _ => c = 1%nat | inr x => c = 0%nat \/ (c = 1%nat /\ subscriberError x = true) end.

Lemma ended_idle {A} n k x f g : Idle k f g -> (k <= n)%nat -> Ended (A := A) n (inr x) f g.
Proof. intros [e He] Hk. exists e, 0%nat, k. auto. Qed.

Lemma runOnce_ended callback o record n : triple (Idle n) (Tx.runOnce suffix dialect callback o record) (Ended (S n)).
Proof.
  unfold Tx.runOnce. apply triple_get_bind. intros closed.
  eapply (triple_bind _ _ _ (fun _ => Idle n)); [unfold refuse_if; destruct closed; [by apply triple_raise|by apply triple_ret]|intros _|].
  2: { intros e f g H. eapply ended_idle; [exact H|lia]. }
  eapply triple_bind; [apply begin_begun|intros []|by intros e f g (k & Hk & H); eapply ended_idle].
  apply (triple_bind _ _ _ (fun r f g => r = inl tt /\ Busy dialect o (S n) f g)); [|intros []|by intros e f g []].
  { intros d Hd. split; [done|]. exact (stays_onFrame dialect o (S n) (withPending record) (fun _ => conj eq_refl (conj eq_refl (conj eq_refl eq_refl))) d Hd). }
  eapply (triple_bind _ _ _ (fun r f g => returned r = true /\ Busy dialect o (S n) f g)); [| |by intros e f g []].
  { eapply triple_weaken; [eapply (triple_tried (Busy dialect o (S n)) _ _ (fun r f g => returned r = true /\ Busy dialect o (S n) f g)); [apply stays_perform|done]|by intros f g []|intros r f g H; exact H]. }
  intros [value|error]; (eapply triple_weaken; [|intros f g [_ H]; exact H|intros r f g H; exact H]).
  - eapply triple_bind; [apply finish_done|intros []|].
    + apply triple_ret. intros f g (e & c & He & ->). exists e, 1%nat, (S n). auto.
    + intros x f g (e & c & He & Ha). exists e, c, (S n). split; [done|]. split; [done|]. destruct Ha as [|(? & _ & ?)]; auto.
  - eapply (triple_bind _ _ _ (fun r f g => returned r = true /\ Idle (S n) f g)); [|intros [[]|x]|by intros e f g []].
    + eapply triple_tried; [apply finish_done|]. intros r f g (e & c & He & Ha). split; [done|]. exists e.
      destruct r as [[]|x]; cbn in Ha; [by subst|destruct Ha as [->|(? & ? & ?)]; done].
    + apply triple_get_bind. intros [|]; [|apply triple_raise; intros f g [_ H]; by eapply ended_idle].
      intros d [_ H]. eapply (ended_idle (A := JsValue)); [exact H|done].
    + apply triple_raise. intros f g [_ H]. by eapply ended_idle.
Qed.

Lemma deadlock_subscriber e : codeOf e = Some DEADLOCK -> subscriberError e = false.
Proof. unfold subscriberError. by intros ->. Qed.

Lemma attempts_ended callback o record attempt more n : triple (Idle n) (Tx.attempts suffix dialect callback o record attempt more) (Ended (S n + more)).
Proof.
  revert attempt n. induction more as [|more IH]; intros attempt n; cbn [Tx.attempts].
  all: eapply (triple_bind _ _ _ (fun r f g => exists r', r = inl r' /\ Ended (S n) r' f g)); [eapply triple_tried; [apply runOnce_ended|eauto]| |by intros e f g (? & ? & _)].
  all: intros r; apply triple_from; intros f0 [s0 r0] (r' & [= <-] & e & c & k & He & Hk & Hc); cbn in He; subst r0; destruct r as [v|x].
  - apply triple_ret. intros f g [-> ->]. exists e, c, k. repeat split; [lia|done].
  - case_bool_decide; apply triple_raise; intros f g [-> ->]; exists e, c, k; repeat split; try done; lia.
  - apply triple_ret. intros f g [-> ->]. exists e, c, k. repeat split; [lia|done].
  - case_bool_decide as Hd; [|apply triple_raise; intros f g [-> ->]; exists e, c, k; repeat split; try done; lia].
    assert (c = 0%nat) as -> by (destruct Hc as [|[_ Hc]]; [done|by rewrite deadlock_subscriber in Hc]).
    eapply (triple_bind _ _ _ (fun r f g => r = inl tt /\ Idle k f g)); [|intros []|by intros ? f g []].
    + intros [[w es] cl rf sf su m rl f] [Hf Hg]. split; [done|]. exists e. unfold ghost in *. cbn in *. unfold ghostOf in *. rewrite foldl_app, Hg. done.
    + eapply triple_weaken; [apply (IH (S attempt) k)|by intros f g []|]. intros r f g (e' & c' & k' & He' & Hk' & Hc'). exists e', c', k'. repeat split; [done|lia|done].
Qed.

(** The options were refused or the attempts ran. *)
Lemma transaction_ended callback options :
  triple (Idle 0) (Tx.transaction suffix dialect callback options) (Ended (S (Z.to_nat (default 3 (to_retry options))))).
Proof.
  unfold Tx.transaction. assert (Hout : forall x f g, Idle 0 f g -> Ended (A := JsValue) (S (Z.to_nat (default 3 (to_retry options)))) (inr x) f g)
    by (intros x f g H; eapply ended_idle; [exact H|lia]).
  assert (Hc : forall v given message, triple (Idle 0) (Tx.countOf v given message : Run State Z) (fun r f g => Idle 0 f g /\ forall n, r = inl n -> n = default given v)).
  { intros v given message. unfold Tx.countOf, refuse_if. destruct (_ || _); [by apply triple_stop|]. apply triple_pass, triple_ret. intros f g H. split; [done|]. by intros n [= <-]. }
  eapply triple_bind; [apply Hc|intros retry|by intros e f g [H _]; apply Hout].
  apply triple_from. intros f0 g0 [Hi Hr]. specialize (Hr _ eq_refl). subst retry. eapply (triple_weaken _ (Idle 0)); [|by intros f g [-> ->]|intros r f g H; exact H].
  eapply triple_bind; [apply Hc|intros timeoutMs|by intros e f g [H _]; apply Hout].
  eapply (triple_bind _ _ _ (fun _ => Idle 0)); [|intros record|by intros e f g H; apply Hout].
  - intros d [H _]. destruct (to_audit options) as [values|]; [|exact H].
    destruct d as [[w es] cl rf sf su n rl f]. unfold Tx.call, setWorld, mbind, Run_bind, ghost in *. cbn in *. by destruct (txAuditValues values w) as [[a|e] w'].
  - apply attempts_ended.
Qed.
End transactions.

(** ** Nested transactions *)

Section nested.
Context {W : Type} {h : TxHost W} (suffix : Z -> string) (dialect : DriverName).

(** The frame stays and so does the number of its open savepoints. *)
Definition steady {A} (m : Run (Db W) A) : Prop :=
  forall d fr, db_frame d = Some fr -> exists fr', db_frame (snd (m d)) = Some fr' /\ fr_savepoints fr' = fr_savepoints fr.

Lemma steady_ret {A} (a : A) : steady (mret a).
Proof. intros d fr H. by exists fr. Qed.
Lemma steady_raise {A} e : steady (raise e : Run (Db W) A).
Proof. intros d fr H. by exists fr. Qed.
Lemma steady_refuse {A} code message : steady (refuse code message : Run (Db W) A).
Proof. apply steady_raise. Qed.
Lemma steady_refuse_if b code message : steady (refuse_if b code message).
Proof. destruct b; [apply steady_refuse|apply steady_ret]. Qed.
Lemma steady_bind {A B} (m : Run (Db W) A) (k : A -> Run (Db W) B) : steady m -> (forall a, steady (k a)) -> steady (m ≫= k).
Proof.
  intros Hm Hk d fr H. destruct (Hm d fr H) as (fr1 & H1 & E1). unfold mbind, Run_bind. destruct (m d) as [[a|e] d1]; cbn in H1; [|by exists fr1].
  destruct (Hk a d1 fr1 H1) as (fr2 & H2 & E2). exists fr2. split; [done|]. by rewrite E2.
Qed.
Lemma steady_tried {A} (m : Run (Db W) A) : steady m -> steady (tried m).
Proof. intros Hm d fr H. destruct (Hm d fr H) as (fr1 & H1 & E1). unfold tried. destruct (m d). by exists fr1. Qed.
Lemma steady_get {A} (x : Db W -> A) : steady (Tx.get x).
Proof. intros d fr H. by exists fr. Qed.
Lemma steady_call {A} (m : Run W A) : steady (Tx.call m).
Proof. intros d fr H. unfold Tx.call. destruct (m (db_world d)). by exists fr. Qed.
Lemma steady_sendOwn s : steady (Tx.sendOwn s).
Proof. intros d fr H. unfold Tx.sendOwn. destruct (txOwn s (db_world d)). by exists fr. Qed.
Lemma steady_asked : steady Tx.inTransaction.
Proof. intros d fr H. unfold Tx.inTransaction. destruct (txInTransaction (db_world d)). by exists fr. Qed.
Lemma steady_fault f : steady (Tx.modify (setStatementFault f)).
Proof. intros d fr H. by exists fr. Qed.
Lemma steady_onFrame x : (forall fr, fr_savepoints (x fr) = fr_savepoints fr) -> steady (Tx.onFrame x).
Proof. intros Hx d fr H. exists (x fr). cbn. rewrite H. split; [done|apply Hx]. Qed.
Lemma steady_frame : steady Tx.frame.
Proof. intros d fr H. exists fr. unfold Tx.frame, Tx.get, mbind, Run_bind. by rewrite H. Qed.
Lemma steady_each {A} (f : A -> Run (Db W) unit) l : (forall a, steady (f a)) -> steady (each f l).
Proof. intros Hf. induction l as [|a l IH]; cbn [each]; [apply steady_ret|]. by apply steady_bind. Qed.
Lemma steady_guarded {A} (m : Run (Db W) A) : steady m -> steady (Tx.guarded m).
Proof. intros H. unfold Tx.guarded. apply steady_bind; [apply steady_frame|intros f]. by apply steady_bind; [apply steady_refuse_if|]. Qed.
End nested.

Create HintDb steady.
#[export] Hint Resolve steady_ret steady_raise steady_refuse steady_refuse_if steady_get steady_call steady_sendOwn steady_asked steady_fault steady_frame : steady.

(** The same for the programs that change nothing else of the frame. *)
Ltac steady :=
  repeat first
    [ solve [eauto with steady]
    | match goal with |- forall _, _ => intros ? end
    | match goal with |- steady (_ ≫= _) => apply steady_bind | |- steady (tried _) => apply steady_tried | |- steady (each _ _) => apply steady_each | |- steady (Tx.guarded _) => apply steady_guarded end
    | match goal with |- steady (match ?x with _ => _ end) => destruct x end
    | match goal with |- steady (let '_ := ?x in _) => destruct x end
    | apply steady_onFrame; intros ?; done ].

Section savepoints.
Context {W : Type} {h : TxHost W} (suffix : Z -> string) (dialect : DriverName).

Lemma steady_publish event : steady (Tx.publish event).
Proof. unfold Tx.publish. steady. Qed.
Hint Resolve steady_publish : steady.
Lemma steady_observed {A} kind tables sql binds n (m : Run (Db W) A) : steady m -> steady (Tx.observed suffix dialect kind tables sql binds n m).
Proof. intros H. unfold Tx.observed. steady. Qed.
Lemma steady_check kind tables sql binds : steady (Tx.checkStatementFault kind tables sql binds).
Proof. unfold Tx.checkStatementFault, Tx.number. steady. Qed.
Hint Resolve steady_observed steady_check : steady.
Lemma steady_run s : steady (Tx.run suffix dialect s).
Proof. unfold Tx.run, Tx.control, Tx.number. steady. Qed.
Lemma steady_statement s : steady (Tx.statement suffix dialect s).
Proof. unfold Tx.statement, Tx.control, Tx.number. steady. Qed.
Lemma steady_execute tables sql params : steady (Tx.execute suffix dialect tables sql params).
Proof. unfold Tx.execute, Tx.number. steady. Qed.
Hint Resolve steady_run steady_statement steady_execute : steady.
Lemma steady_savepointStep k name : steady (Tx.savepointStep suffix dialect k name).
Proof. unfold Tx.savepointStep. steady. Qed.
Hint Resolve steady_savepointStep : steady.
Lemma steady_undo name : steady (Tx.undo suffix dialect name).
Proof. unfold Tx.undo, Tx.tryStep. steady. Qed.
Hint Resolve steady_undo : steady.
Lemma steady_rowLock mode : steady (Tx.rowLock suffix dialect mode).
Proof. unfold Tx.rowLock, Tx.takeRowLock. steady. Qed.
Hint Resolve steady_rowLock : steady.
Lemma steady_lock key : steady (Tx.lock suffix dialect key).
Proof. unfold Tx.lock. apply steady_bind; [steady|intros _]. destruct dialect eqn:Hd; rewrite <- Hd; steady. Qed.
Lemma steady_setLocal key value : steady (Tx.setLocal suffix dialect key value).
Proof. unfold Tx.setLocal. apply steady_bind; [steady|intros _]. destruct dialect eqn:Hd; try rewrite <- Hd; steady. Qed.
Lemma steady_local key : steady (Tx.local key : Run (Db W) string).
Proof. unfold Tx.local. steady. Qed.
Lemma steady_args binds : steady (Tx.args binds : Run (Db W) (list JsValue)).
Proof. induction binds as [|[v|table] binds IH]; cbn [Tx.args]; unfold Tx.auditValue; steady. Qed.
Hint Resolve steady_args : steady.
Lemma steady_write w : steady (Tx.write suffix dialect w).
Proof. unfold Tx.write, Tx.auditFor, Tx.writeStep, Tx.settle, Tx.undoAudit, Tx.recordInserted. steady. Qed.
Hint Resolve steady_lock steady_setLocal steady_local steady_write : steady.

Lemma bind_inl {S A B} (m : Run S A) (k : A -> Run S B) s a s' : m s = (inl a, s') -> (m ≫= k) s = k a s'.
Proof. intros H. unfold mbind, Run_bind. by rewrite H. Qed.
Lemma bind_tried {S A B} (m : Run S A) (k : A + fault -> Run S B) s : (tried m ≫= k) s = let '(r, s') := m s in k r s'.
Proof. unfold mbind, Run_bind, tried. by destruct (m s). Qed.

(** A savepoint around steady calls. *)
Lemma savepoint_outcome {A} (body : Run (Db W) A) d fr : steady body -> db_frame d = Some fr ->
  let '(r, d') := Tx.savepoint suffix dialect body d in
  exists fr', db_frame d' = Some fr' /\ fr_savepoints fr' = fr_savepoints fr /\ match r with inl _ => True | inr _ => fr_audit fr' = fr_audit fr /\ fr_inserted fr' = fr_inserted fr end.
Proof.
  intros Hb Hf. set (fr1 := withSavepoints (fr_savepoints fr + 1) fr). set (d1 := setFrame (Some fr1) d).
  unfold Tx.savepoint. rewrite (bind_inl _ _ d tt d1) by (unfold Tx.onFrame, Tx.modify; by rewrite Hf).
  rewrite (bind_inl _ _ d1 fr1 d1) by done. cbv zeta. rewrite bind_tried.
  match goal with |- context [let '(r, s') := ?m d1 in _] => assert (Hin : steady m) by steady; specialize (Hin d1 fr1 eq_refl); destruct (m d1) as [r d2] end.
  destruct Hin as (fr2 & H2 & E2). cbn [snd] in H2. destruct r as [v|e].
  - unfold Tx.onFrame, Tx.modify, mret, Run_ret, mbind, Run_bind. cbn. rewrite H2. eexists. split; [done|]. cbn. rewrite E2. cbn. split; [lia|done].
  - unfold Tx.onFrame, Tx.modify, raise, mbind, Run_bind. cbn. rewrite H2. eexists. split; [done|]. cbn. rewrite E2. cbn. split; [lia|done].
Qed.

Lemma steady_savepoint {A} (body : Run (Db W) A) : steady body -> steady (Tx.savepoint suffix dialect body).
Proof. intros Hb d fr Hf. pose proof (savepoint_outcome body d fr Hb Hf) as H. destruct (Tx.savepoint _ _ _ d). destruct H as (fr' & H & E & _). by exists fr'. Qed.

Lemma steady_perform c : steady (Tx.perform suffix dialect c).
Proof.
  induction c as [v|e|tables sql params next IH|w next IH|key next IH|key value next IH|key next IH|mode next IH|options body IHb next IH]; cbn [Tx.perform]; steady.
  unfold Tx.nestedOptions, Tx.countOf. steady. by apply steady_savepoint.
Qed.
End savepoints.

(** ** The theorems *)

(** The connection with its host recorded from here. *)
Definition recorded {W} (d : Db W) : Db (W * list TxEvent) :=
  mkDb (db_world d, []) (db_closed d) (db_rollbackFault d) (db_statementFault d) (db_subscribers d) (db_transactions d) (db_rowLockTable d) (db_frame d).

(** The monitor behind a transaction. *)
Definition monitored {W} (d : Db (W * list TxEvent)) : Tally := gh_order (ghostOf (snd (db_world d))).

Lemma recorded_ended {W} {h : TxHost W} suffix dialect callback options (d : Db W) :
  let '(r, d') := Tx.transaction suffix dialect callback options (recorded d) in Ended (S (Z.to_nat (default 3 (to_retry options)))) r (db_frame d') (ghost d').
Proof. pose proof (transaction_ended suffix dialect callback options (recorded d)) as H. apply H. by exists false. Qed.

(** C12: A nested transaction, whatever its callback does and however it ends, leaves the
    number of open savepoints, which names the next one, as it was; and one that throws
    leaves the audit record and the keys of inserted rows of the outer transaction as
    they were before it, whichever of its own statements failed. *)
Theorem nested_restores {W} {h : TxHost W} suffix dialect callback (d : Db W) fr :
  let '(r, d') := Tx.savepoint suffix dialect (Tx.perform suffix dialect callback) (setFrame (Some fr) d) in
  exists fr', db_frame d' = Some fr' /\ fr_savepoints fr' = fr_savepoints fr /\
    match r with inl _ => True | inr _ => fr_audit fr' = fr_audit fr /\ fr_inserted fr' = fr_inserted fr end.
Proof. exact (savepoint_outcome suffix dialect _ (setFrame (Some fr) d) fr (steady_perform suffix dialect callback) eq_refl). Qed.

(** C10: Whatever a transaction's callback does, whatever its session answers and
    whichever subscribers fail: every session it takes is given back before the next
    one is taken and before it returns; a statement is only sent to a session that is
    held, none of the callback's behind the COMMIT; and a session that goes back to the
    pool is closed or holds nothing of the transaction (no open transaction, named
    lock, local variable or SQLite mode), except where a subscriber failed on the event
    of a statement that had taken something or had failed itself, or where the session
    itself said that the transaction is open behind a failed COMMIT. *)
Theorem transaction_sessions {W} {h : TxHost W} suffix dialect callback options (d : Db W) :
  let '(_, d') := Tx.transaction suffix dialect callback options (recorded d) in or_bad (monitored d') = false /\ or_held (monitored d') = false.
Proof.
  pose proof (recorded_ended suffix dialect callback options d) as H. destruct (Tx.transaction _ _ _ _ _) as [r d'].
  destruct H as (e & c & k & He & _). unfold monitored, ghost in *. by rewrite He.
Qed.

(** C11: A transaction that returns a value had exactly one COMMIT answered, in all its
    attempts together, and one that throws had none answered, except for the error of
    a subscriber that failed on the event of the COMMIT; and it takes at most one
    session more than its retry option says. *)
Theorem transaction_commits_once {W} {h : TxHost W} suffix dialect callback options (d : Db W) :
  let '(r, d') := Tx.transaction suffix dialect callback options (recorded d) in
  (or_taken (monitored d') <= S (Z.to_nat (default 3%Z (to_retry options))))%nat /\
  match r with
  | inl _ => or_commits (monitored d') = 1%nat
  | inr e => or_commits (monitored d') = 0%nat \/ (or_commits (monitored d') = 1%nat /\ codeOf e = Some SUBSCRIBER)
  end.
Proof.
  pose proof (recorded_ended suffix dialect callback options d) as H. destruct (Tx.transaction _ _ _ _ _) as [r d'].
  destruct H as (e & c & k & He & Hk & Hc). unfold monitored, ghost in *. rewrite He. split; [done|]. destruct r as [v|x]; [done|].
  destruct Hc as [->|[-> Hs]]; [by left|right]. split; [done|]. unfold subscriberError in Hs. by apply bool_decide_eq_true in Hs.
Qed.

(** ** Hosts of one answer *)

(** A host whose session answers [1], refuses [refused], and whose one subscriber
    fails on the events of [failing]. *)
Definition plainHost (refused failing : Own -> bool) (open : option bool) : TxHost unit := {|
  txReserve := mret tt;
  txOwn s w := (if refused s then inr (mkLibraryError None None None false "refused") else inl (mkTxAnswer [[JInt 1]] 0 JNull), w);
  txExecute sql params := mret (mkTxAnswer [] 1 JNull);
  txPool sql := mret (mkTxAnswer [] 0 JNull);
  txInTransaction w := (open, w);
  txRelease discard w := w;
  txAborted w := false;
  txSubscriber i e := if existsb (fun s => bool_decide (ownSql s = ev_sql e) && failing s) [Commit; Rollback; GetLock ""; SetVariable "a" ""] then raise (Script (JsError "no")) else mret tt;
  txAuditValues values := mret (mkAuditInsert "audits" values);
  txInsertAudit record := mret (JInt 7);
  txWait n w := w |}.

Definition plainDb : Db unit := mkDb tt false false None [0%nat] 0 false None.
Definition noOptions : TransactionOptions := mkTxOptions None None None None None.

Definition ranOn (h : TxHost unit) (dialect : DriverName) (callback : Client) : (JsValue + fault) * Ghost :=
  let '(r, d) := Tx.transaction (host := recordedTx h) (fun _ => "") dialect callback noOptions (recorded plainDb) in (r, ghostOf (snd (db_world d))).

Definition isGetLock (s : Own) : bool := match s with GetLock _ => true | _ => false end.
Definition isRollback (s : Own) : bool := match s with Rollback => true | _ => false end.
Definition never (s : Own) : bool := false.

(** A transaction that takes a lock, sets a local value and returns. *)
Definition locking : Client := Lock "orders" (fun _ => SetLocal "user" "7" (fun _ => Return JNull)).

Example locking_commits :
  ranOn (plainHost never never None) MySql locking = (inl JNull, mkGhost freshSession (mkTally false true 1 1 false)).
Proof. vm_compute. reflexivity. Qed.

(** A subscriber that fails on the event of GET_LOCK leaves the lock on the session
    that goes back to the pool: [lock] notes it behind the event. *)
Theorem lock_kept :
  let '(r, g) := ranOn (plainHost never isGetLock None) MySql locking in
  r = inl JNull /\ or_held (gh_order g) = false /\ se_locks (gh_session g) = ["orders"].
Proof. vm_compute. auto. Qed.

(** A ROLLBACK that failed and whose subscriber failed as well gives the session back
    with its transaction open, and not closed: [finish] takes the subscriber's error
    for a ROLLBACK that had its effect. *)
Theorem rollback_masked :
  let '(r, g) := ranOn (plainHost isRollback isRollback None) Postgres (Throw (Script (JsError "stop"))) in
  or_held (gh_order g) = false /\ se_open (gh_session g) = true /\ or_bad (gh_order g) = false.
Proof. vm_compute. auto. Qed.
