(* ===== verification/Catalog.v ===== *)
(** * The catalog connection ([catalog.ts], [Session] and [CatalogConnection])

    The sessions, reads and row changes of a catalog connection as programs over
    a world that the module does not own: the pool, the one session it holds at a
    time, and the clock are operations of the class [CatalogHost].  A statement
    that gives rows gives its whole answer as data; the sink reads it from the
    front and what it does not read is lost with the statement.  A call returns or
    throws and leaves the world that later calls see.  The names of SQLite's
    result codes, which the build generates, are a parameter, and so is SHA-256. *)

From S2P Require Import Prelude Lex Values Decimal Times BindCheck Keys Float32 Render CatalogValue Faults CatalogRows ReadOnly.
From Stdlib Require Import Lia.

(** ** The host *)

(** The answer of a statement: its columns, its rows in order, and the failure
    behind them, if any. *)
Record Answer := mkAnswer { an_columns : list DriverColumn; an_rows : list (list JsValue); an_failure : option fault }.

Record DriverResult := mkDriverResult { dr_affected : Z; dr_insertId : JsValue }.

Class CatalogHost (W : Type) := {
  reserve : Run W unit;
  hostControl : string -> Run W DriverResult;
  hostExecute : string -> list JsValue -> Run W DriverResult;
  hostScan : string -> list JsValue -> Run W Answer;
  inTransaction : W -> option bool;
  hostRelease : bool -> W -> W;
  closePool : Run W unit }.

(** The connection: whether it is closed and whether its session stopped a read. *)
Record Conn (W : Type) := mkConn { cn_world : W; cn_closed : bool; cn_stopped : bool }.
Arguments mkConn {W} cn_world cn_closed cn_stopped.
Arguments cn_world {W} c.
Arguments cn_closed {W} c.
Arguments cn_stopped {W} c.

(** ** Reading an answer *)

Section sink.
Context {T : Type} (columns : list DriverColumn) (maxRows maxBytes : Z) (convert : JsValue -> DriverColumn -> nat -> res (T * Z)) (keep : option Z).

(** The variables of [collect]. *)
Record Sink := mkSink { sk_rows : list (list T); sk_past : bool; sk_bytes : Z; sk_overflow : option string; sk_failure : option err }.

Definition emptySink : Sink := mkSink [] false 0 None None.

Definition columnAt (index : nat) : res DriverColumn :=
  match columns !! index with
  | Some column => Ok column
  | None => Err (OrmError TABLE_METADATA_INVALID (str ["no column at position "; pretty (Z.of_nat index)]))
  end.

(** The cells of a row and the bytes with them. *)
Fixpoint convertRow (bytes : Z) (index : nat) (values : list JsValue) : res (list T * Z) :=
  match values with
  | [] => Ok ([], bytes)
  | value :: values =>
      column ← columnAt index;
      '(cell, size) ← convert value column index;
      '(cells, bytes) ← convertRow (bytes + size) (S index) values;
      Ok (cell :: cells, bytes)
  end.

(** [deliver]: the variables after a row and whether the stream goes on. *)
Definition deliver (s : Sink) (values : list JsValue) : Sink * bool :=
  let count := Z.of_nat (length (sk_rows s)) in
  if match keep with Some k => k <=? count | None => false end then (mkSink (sk_rows s) true (sk_bytes s) (sk_overflow s) (sk_failure s), false)
  else if maxRows <=? count then
    (mkSink (sk_rows s) (sk_past s) (sk_bytes s) (Some (str ["result has more than "; pretty maxRows; " rows"])) (sk_failure s), false)
  else
    match convertRow (sk_bytes s) 0 values with
    | Err e => (mkSink (sk_rows s) (sk_past s) (sk_bytes s) (sk_overflow s) (Some e), false)
    | Ok (cells, bytes) =>
        if maxBytes <? bytes
        then (mkSink (sk_rows s) (sk_past s) bytes (Some (str ["result has more than "; pretty maxBytes; " bytes of values"])) (sk_failure s), false)
        else (mkSink (sk_rows s ++ [cells]) (sk_past s) bytes (sk_overflow s) (sk_failure s), true)
    end.

(** The rows from the front, up to the first that stops the stream. *)
Fixpoint feed (stop : list JsValue -> bool) (read : list JsValue -> list JsValue) (s : Sink) (rows : list (list JsValue)) : Sink * option (list JsValue * bool) :=
  match rows with
  | [] => (s, None)
  | values :: rows =>
      if stop values then (s, Some (values, true))
      else match deliver s (read values) with (s, true) => feed stop read s rows | (s, false) => (s, Some (values, false)) end
  end.
End sink.

(** ** Statements of the metadata *)

Definition KIND_SQL (dialect : DriverName) : string :=
  match dialect with
  | MySql => "SELECT TABLE_TYPE FROM information_schema.TABLES WHERE TABLE_SCHEMA=? AND TABLE_NAME=?"
  | Postgres => "SELECT c.relkind::text FROM pg_class c JOIN pg_namespace n ON n.oid=c.relnamespace WHERE n.nspname=$1 AND c.relname=$2"
  | Sqlite => "SELECT type FROM pragma_table_list WHERE schema=? AND name=?"
  end.

Definition COLUMNS_SQL (dialect : DriverName) : string :=
  match dialect with
  | MySql => "SELECT c.COLUMN_NAME,c.COLUMN_TYPE,c.IS_NULLABLE='YES',(c.GENERATION_EXPRESSION IS NOT NULL AND c.GENERATION_EXPRESSION<>''),COALESCE(pk.ORDINAL_POSITION,0),(c.EXTRA LIKE '%auto_increment%'),c.COLUMN_DEFAULT,(c.EXTRA LIKE '%DEFAULT_GENERATED%') FROM information_schema.COLUMNS c LEFT JOIN information_schema.KEY_COLUMN_USAGE pk ON pk.CONSTRAINT_SCHEMA=c.TABLE_SCHEMA AND pk.TABLE_NAME=c.TABLE_NAME AND pk.COLUMN_NAME=c.COLUMN_NAME AND pk.CONSTRAINT_NAME='PRIMARY' WHERE c.TABLE_SCHEMA=? AND c.TABLE_NAME=? ORDER BY c.ORDINAL_POSITION"
  | Postgres => "SELECT a.attname::text,format_type(a.atttypid,a.atttypmod),NOT a.attnotnull,(a.attgenerated<>'' OR a.attidentity='a'),COALESCE(k.ord,0),(a.attidentity<>''),CASE WHEN length(a.attgenerated)=0 THEN pg_get_expr(d.adbin,d.adrelid) END,(d.adbin IS NOT NULL AND length(a.attgenerated)=0) FROM pg_class c JOIN pg_namespace n ON n.oid=c.relnamespace JOIN pg_attribute a ON a.attrelid=c.oid LEFT JOIN pg_attrdef d ON d.adrelid=a.attrelid AND d.adnum=a.attnum LEFT JOIN pg_index i ON i.indrelid=c.oid AND i.indisprimary LEFT JOIN LATERAL unnest(i.indkey) WITH ORDINALITY AS k(attnum,ord) ON k.attnum=a.attnum WHERE n.nspname=$1 AND c.relname=$2 AND a.attnum>0 AND NOT a.attisdropped ORDER BY a.attnum"
  | Sqlite => str ["SELECT name,type,NOT "; dq; "notnull"; dq; ",hidden<>0,pk,0,dflt_value,(dflt_value IS NOT NULL) FROM pragma_table_xinfo(?,?) ORDER BY cid"]
  end.

Definition BEGIN_SQL (dialect : DriverName) (readOnly : bool) : string :=
  match dialect with
  | MySql => if readOnly then "START TRANSACTION READ ONLY" else "START TRANSACTION"
  | Postgres => if readOnly then "BEGIN READ ONLY" else "BEGIN"
  | Sqlite => if readOnly then "BEGIN" else "BEGIN IMMEDIATE"
  end.

(** A key column: its ordinal and its index. *)
Fixpoint insertOrdinal (k : Z * nat) (l : list (Z * nat)) : list (Z * nat) :=
  match l with [] => [k] | k' :: l => if fst k <=? fst k' then k :: k' :: l else k' :: insertOrdinal k l end.
Definition sortOrdinals (l : list (Z * nat)) : list (Z * nat) := foldr insertOrdinal [] l.

Definition the {S A} (o : option A) (code : Code) (message : string) : Run S A := match o with Some a => mret a | None => refuse code message end.

Definition setAt (columns : list CatalogColumn) (i : nat) (f : CatalogColumn -> CatalogColumn) : list CatalogColumn := alter f i columns.

Definition withPrecision (p : option Z) (c : CatalogColumn) : CatalogColumn :=
  mkCatalogColumn (cc_name c) (cc_nativeType c) (cc_nullable c) (cc_generated c) (cc_automaticKey c) (cc_defaultExpression c) (cc_expressionDefault c) p.
Definition asRowid (c : CatalogColumn) : CatalogColumn :=
  mkCatalogColumn (cc_name c) (cc_nativeType c) false (cc_generated c) true (cc_defaultExpression c) (cc_expressionDefault c) (cc_checkPrecision c).

(** ** Sessions *)

Module Session.
Section session.
Context {W : Type} {host : CatalogHost W} (dialect : DriverName).

Abbreviation Do := (Run (Conn W)).

Definition call {A} (m : Run W A) : Do A := fun c => let '(r, w) := m (cn_world c) in (r, mkConn w (cn_closed c) (cn_stopped c)).
Definition stop : Do unit := fun c => (inl tt, mkConn (cn_world c) (cn_closed c) true).

Definition control (sql : string) : Do DriverResult := call (hostControl sql).

Section collect.
Context {T : Type}.

(** The rows of a statement; the second read of a SQLite answer keeps the bytes
    of each text. *)
Definition collect (sql : string) (params : list JsValue) (maxRows maxBytes : Z) (convert : JsValue -> DriverColumn -> nat -> res (T * Z)) (keep : option Z)
  : Do (list DriverColumn * list (list T) * bool) :=
  bound ← ofRes (checkParams params CATALOG_PARAM);
  answer ← call (hostScan sql bound);
  let columns := an_columns answer in
  let lossyText values := match dialect with Sqlite => existsb (fun v => match v with JString s => contains replacement s | _ => false end) values | _ => false end in
  let '(s, stopped) := feed columns maxRows maxBytes convert keep lossyText id emptySink (an_rows answer) in
  sink ← match stopped, an_failure answer with
         | Some (_, true), _ =>
             answer ← call (hostScan (sqliteStoredRead sql (length columns)) bound);
             let '(s, stopped) := feed columns maxRows maxBytes convert keep (fun _ => false) sqliteStoredCells emptySink (an_rows answer) in
             match stopped, an_failure answer with None, Some f => raise f | _, _ => mret s end
         | None, Some f => raise f
         | _, _ => mret s
         end;
  match sk_failure sink, sk_overflow sink with
  | Some e, _ => _ ← stop; raise (faultOf e)
  | None, Some message => _ ← stop; refuse CATALOG_LIMIT message
  | None, None => mret (columns, sk_rows sink, sk_past sink)
  end.
End collect.

(** A whole read, without [keep]. *)
Definition rowsOf {T} (sql : string) (params : list JsValue) (maxRows maxBytes : Z) (convert : JsValue -> DriverColumn -> nat -> res (T * Z)) : Do (list DriverColumn * list (list T)) :=
  '(columns, rows, _) ← collect sql params maxRows maxBytes convert None; mret (columns, rows).

Definition rawCell (value : JsValue) (_ : DriverColumn) (_ : nat) : res (JsValue * Z) := Ok (value, sizeOf value).
Definition plainCell (value : JsValue) (column : DriverColumn) (_ : nat) : res (CatalogValue * Z) := cell ← plainValue value column; Ok (cell, sizeOf cell).

(** A temporal value of a query is the text of its grid cell. *)
Definition queryCell (value : JsValue) (column : DriverColumn) (_ : nat) : res (CatalogValue * Z) :=
  grid ← (if negb (bool_decide (value = JNull)) && negb (bool_decide (temporalKind dialect (dc_type column) = None))
          then g ← gridCell value column dialect; Ok (Some g) else Ok None);
  cell ← match grid with Some (GDate t) | Some (GTime t) | Some (GDatetime t) => Ok (JString t) | _ => plainValue value column end;
  Ok (cell, sizeOf cell).

Definition gridCell_ (value : JsValue) (column : DriverColumn) (_ : nat) : res (CatalogGridCell * Z) :=
  cell ← gridCell value column dialect; Ok (cell, gridSize cell).

Definition describedCell (described : list CatalogColumn) (value : JsValue) (column : DriverColumn) (index : nat) : res (CatalogValue * Z) :=
  cell ← describedValue value column (described !! index) dialect; Ok (cell, sizeOf cell).

Definition rawRows sql params maxRows maxBytes : Do (list DriverColumn * list (list JsValue)) := rowsOf sql params maxRows maxBytes rawCell.
Definition plainRows sql params maxRows maxBytes : Do (list DriverColumn * list (list CatalogValue)) := rowsOf sql params maxRows maxBytes plainCell.
Definition queryRows sql params maxRows maxBytes : Do (list DriverColumn * list (list CatalogValue)) := rowsOf sql params maxRows maxBytes queryCell.

Definition executeResult (sql : string) (params : list JsValue) : Do DriverResult :=
  bound ← ofRes (checkParams params CATALOG_PARAM);
  match bound with [] => control sql | _ => call (hostExecute sql bound) end.

Definition exec (sql : string) (params : list JsValue) : Do Z := r ← executeResult sql params; mret (dr_affected r).

(** Whether ROLLBACK has a transaction to end. *)
Definition open_ : Do bool := fun c => (inl match dialect with Sqlite => negb (bool_decide (inTransaction (cn_world c) = Some false)) | _ => true end, c).

Definition release (discard : bool) : Do unit := fun c => (inl tt, mkConn (hostRelease discard (cn_world c)) (cn_closed c) (cn_stopped c)).

(** *** Descriptors *)

(** The columns of the rows, and the key columns with their ordinals. *)
Fixpoint describedColumns (rows : list (list CatalogValue)) (columns : list CatalogColumn) (keys : list (Z * nat)) : res (list CatalogColumn * list (Z * nat)) :=
  match rows with
  | [] => Ok (columns, keys)
  | row :: rows =>
      match row with
      | [c0; c1; c2; c3; c4; c5; c6; c7] =>
          name ← textOf c0 "column name";
          _ ← checkName name;
          if includes name (map cc_name columns) then metadataError ["duplicate column "; dq; name; dq]
          else
            ordinal ← intOf c4 "key ordinal";
            if ordinal <? 0 then metadataError ["negative key ordinal"]
            else
              defaultExpression ← match c6 with JNull => Ok None | v => t ← textOf v (str ["default of column "; dq; name; dq]); Ok (Some t) end;
              nativeType ← textOf c1 (str ["native type of column "; dq; name; dq]);
              nullable ← boolOf c2 "nullable";
              generated ← boolOf c3 "generated";
              automaticKey ← boolOf c5 "automatic key";
              expressionDefault ← boolOf c7 "expression default";
              describedColumns rows (columns ++ [mkCatalogColumn name nativeType nullable generated automaticKey defaultExpression expressionDefault None])
                (if 0 <? ordinal then keys ++ [(ordinal, length columns)] else keys)
      | _ => metadataError ["column shape of "; pretty (Z.of_nat (length row)); " values"]
      end
  end.

(** The fraction digits that a SQLite table's own definition fixes. *)
Definition checkedColumns (ref : CatalogTableRef) (kind : CatalogTableKind) (columns : list CatalogColumn) : Do (list CatalogColumn) :=
  if negb (bool_decide (dialect = Sqlite) && bool_decide (kind = KTable)) then mret columns
  else
    '(_, tables) ← plainRows "SELECT sql FROM sqlite_master WHERE type = 'table' AND name = ?" [JString (ref_name ref)] 2 METADATA_BYTES;
    match tables with
    | [] => mret columns
    | [[JString definition]] =>
        mret (map (fun column =>
          let declared := toUpperCase (cc_nativeType column) in
          if bool_decide (declared = "TIME") || bool_decide (declared = "DATETIME") then withPrecision (checkPrecisionOf definition (cc_name column)) column else column) columns)
    | _ => refuse TABLE_METADATA_INVALID (str ["the definition of table "; dq; ref_name ref; dq; " is not one text"])
    end.

(** The rowid alias of a SQLite table: never NULL and generated by the database. *)
Definition rowidColumns (kind : CatalogTableKind) (args : list JsValue) (keys : list (Z * nat)) (columns : list CatalogColumn) : Do (list CatalogColumn) :=
  match dialect, keys with
  | Sqlite, [(_, index)] =>
      match columns !! index with
      | Some keyColumn =>
          if bool_decide (kind = KTable) && bool_decide (toUpperCase (cc_nativeType keyColumn) = "INTEGER") then
            '(_, indexRows) ← plainRows "SELECT count(*) FROM pragma_index_list(?,?) WHERE origin='pk'" args 1 METADATA_BYTES;
            match head indexRows with
            | Some [count] => n ← ofRes (intOf count "primary index count"); mret (if n =? 0 then setAt columns index asRowid else columns)
            | _ => refuse TABLE_METADATA_INVALID "primary index count"
            end
          else mret columns
      | None => mret columns
      end
  | _, _ => mret columns
  end.

(** Whether the ordinals are the positions from one. *)
Definition keyOrder (keys : list (Z * nat)) : res unit :=
  eachFrom (fun position key => if negb (fst key =? Z.of_nat position + 1) then metadataError ["key order"] else Ok tt) 0 keys.

Definition describe (ref : CatalogTableRef) : Do CatalogTableMetadata :=
  _ ← ofRes (checkTable ref);
  _ ← refuse_if (bool_decide (dialect = Sqlite) && negb (bool_decide (ref_namespace ref = "main"))) TABLE_NAMESPACE_UNSUPPORTED "SQLite requires main";
  '(_, kindRows) ← plainRows (KIND_SQL dialect) [JString (ref_namespace ref); JString (ref_name ref)] 2 METADATA_BYTES;
  kind ← match kindRows with
         | [] => refuse TABLE_NOT_FOUND (str [ref_namespace ref; "."; ref_name ref])
         | [[JString native]] => ofRes (catalogKind dialect native)
         | [[_]] => refuse TABLE_METADATA_INVALID "relation kind is not text"
         | _ => refuse TABLE_METADATA_INVALID "ambiguous relation"
         end;
  let args := match dialect with Sqlite => [JString (ref_name ref); JString (ref_namespace ref)] | _ => [JString (ref_namespace ref); JString (ref_name ref)] end in
  '(_, rows) ← plainRows (COLUMNS_SQL dialect) args (Z.of_nat METADATA_ROWS) METADATA_BYTES;
  '(columns, keys) ← ofRes (describedColumns rows [] []);
  columns ← checkedColumns ref kind columns;
  let keys := sortOrdinals keys in
  _ ← ofRes (keyOrder keys);
  columns ← rowidColumns kind args keys columns;
  keyColumns ← ofRes (mapR (fun key => match columns !! snd key with Some c => Ok c | None => metadataError ["key column index"] end) keys);
  let reliable := (bool_decide (kind = KTable) || bool_decide (kind = KPartitioned)) && (0 <? length keys)%nat && forallb (fun c => negb (cc_nullable c)) keyColumns in
  mret (mkMetadata ref kind columns (map cc_name keyColumns) reliable).

(** *** Keyed rows *)

Definition lookup (metadata : CatalogTableMetadata) (keys : list CatalogValue) (lock : bool) : Do (list (list CatalogValue)) :=
  let suffix := if lock && negb (bool_decide (dialect = Sqlite)) then " FOR UPDATE" else "" in
  let predicate := join " AND " (assignmentsFrom 1 (md_primaryKey metadata) dialect) in
  let sql := str ["SELECT "; quoteList (columnNames metadata) dialect; " FROM "; qualified (md_table metadata) dialect; " WHERE "; predicate; " LIMIT 2"; suffix] in
  '(columns, rows) ← rowsOf sql keys 2 PAGE_BYTES (describedCell (md_columns metadata));
  _ ← refuse_if (negb (length columns =? length (md_columns metadata))%nat) ROW_WRITE_MISMATCH "row shape differs from descriptor";
  mret rows.

Definition mysqlPartialRevokesOff : Do unit :=
  '(_, partial) ← rawRows "SELECT CAST(@@GLOBAL.partial_revokes AS SIGNED)" [] 1 4096;
  let off := match partial with [[v]] => match v with JInt 0 | JNegZero | JBigint 0 | JNull | JBool false => true
                                         | JString _ | JBytes _ => match numberOfText (stringOf v) with JInt 0 | JNegZero => true | _ => false end | _ => false end | _ => false end in
  refuse_if (negb off) ROW_MUTATION_UNSUPPORTED "MySQL partial-revoke visibility requires verification".

Definition unsupported {A} (reason : string) : Do A := refuse ROW_MUTATION_UNSUPPORTED reason.

(** What is before and behind the last [@]. *)
Definition accountParts (text : string) : option (string * string) :=
  match rev (split_on "@" text) with host :: (_ :: _) as l => Some (join "@" (rev (tail l)), default "" (head l)) | _ => None end.

Definition mysqlSafety (metadata : CatalogTableMetadata) : Do unit :=
  '(_, account) ← rawRows "SELECT CURRENT_USER()" [] 1 4096;
  text ← match account with [[v]] => ofRes (textOf v "MySQL account") | _ => unsupported "unverifiable MySQL account" end;
  '(user, host) ← match accountParts text with Some p => mret p | None => unsupported "unverifiable MySQL account" end;
  let grantee := JString (str ["'"; user; "'@'"; host; "'"]) in
  let namespace := JString (ref_namespace (md_table metadata)) in
  let name := JString (ref_name (md_table metadata)) in
  '(_, grants) ← rawRows
    (str ["SELECT PRIVILEGE_TYPE FROM information_schema.USER_PRIVILEGES WHERE GRANTEE=? AND PRIVILEGE_TYPE='TRIGGER' ";
          "UNION ALL SELECT PRIVILEGE_TYPE FROM information_schema.SCHEMA_PRIVILEGES WHERE GRANTEE=? AND TABLE_SCHEMA=? AND PRIVILEGE_TYPE='TRIGGER' ";
          "UNION ALL SELECT PRIVILEGE_TYPE FROM information_schema.TABLE_PRIVILEGES WHERE GRANTEE=? AND TABLE_SCHEMA=? AND TABLE_NAME=? AND PRIVILEGE_TYPE='TRIGGER'"])
    [grantee; grantee; namespace; grantee; namespace; name] 16 4096;
  _ ← (if existsb (fun row => bool_decide (row = [JString "TRIGGER"])) grants then mret tt else unsupported "MySQL trigger visibility is unverified");
  '(_, engine) ← rawRows "SELECT ENGINE FROM information_schema.TABLES WHERE TABLE_SCHEMA=? AND TABLE_NAME=?" [namespace; name] 2 4096;
  _ ← match engine with
      | [[JString e]] => if decide (toLowerCase e = "innodb") then mret tt else unsupported "MySQL requires InnoDB"
      | _ => unsupported "MySQL requires InnoDB"
      end;
  '(_, triggers) ← rawRows "SELECT TRIGGER_NAME FROM information_schema.TRIGGERS WHERE EVENT_OBJECT_SCHEMA=? AND EVENT_OBJECT_TABLE=? LIMIT 1" [namespace; name] 1 4096;
  match triggers with [] => mret tt | _ => unsupported "MySQL triggers require effect verification" end.
End session.
End Session.

(** ** The connection *)

(** An original row: the descriptor, the cells, the indexes of its key and its revision. *)
Record CatalogRowSnapshot := mkSnapshot { rs_metadata : CatalogTableMetadata; rs_cells : list CatalogValue; rs_keyIndexes : list nat; rs_revision : string }.

Definition cellAt (cells : list CatalogValue) (i : nat) : CatalogValue := default JNull (cells !! i).
Definition snapshotKeys (s : CatalogRowSnapshot) : list CatalogValue := map (cellAt (rs_cells s)) (rs_keyIndexes s).

Definition validSnapshot (s : CatalogRowSnapshot) : res unit :=
  if (length (rs_keyIndexes s) =? 0)%nat || negb (length (rs_cells s) =? length (md_columns (rs_metadata s)))%nat
  then Err (OrmError ROW_SNAPSHOT_INVALID "the snapshot was not captured by rowSnapshotFromPage") else Ok tt.

Record CatalogTablePage := mkPage {
  pg_metadata : CatalogTableMetadata; pg_columns : list CatalogColumn; pg_rows : list (list CatalogValue);
  pg_limit : Z; pg_offset : Z; pg_orderBy : list string; pg_hasMore : bool }.

(** The columns and rows of a change; a grid and a query have cells of other types. *)
Record CatalogMutationResult := mkMutation { mu_columns : list string; mu_rows : list (list CatalogValue) }.

Definition wholeNumber (v : JsValue) (low high : Z) : option Z := n ← integerNumber v; if (low <=? n) && (n <=? high) then Some n else None.

(** The cells of a row with the new values of the changes. *)
Definition changedCells (cells : list CatalogValue) (changes : list Change) : list CatalogValue :=
  foldl (fun cells change => <[ch_index change := ch_value change]> cells) cells changes.

Definition sameNames (columns : list DriverColumn) (described : list CatalogColumn) : bool := bool_decide (map dc_name columns = map cc_name described).

Definition queryBudget (dialect : DriverName) (query : string) (params : list JsValue) (maxRows maxBytes : option Z) : res (Z * Z) :=
  _ ← validateReadOnly query dialect;
  if (default 0 maxRows <? 0) || (default 0 maxBytes <? 0) then Err (OrmError QUERY_LIMIT_INVALID "limits must not be negative")
  else
    _ ← checkParams params CATALOG_PARAM;
    Ok (if default 0 maxRows =? 0 then DEFAULT_QUERY_ROWS else default 0 maxRows, if default 0 maxBytes =? 0 then DEFAULT_QUERY_BYTES else default 0 maxBytes).

Module Connection.
Section connection.
Context {W : Type} {host : CatalogHost W} (sqliteResultCodeSuffix : Z -> string) (sha256 : string -> string) (dialect : DriverName).

Abbreviation Do := (Run (Conn W)).
Abbreviation mapped := (driverError sqliteResultCodeSuffix dialect).

Definition closed : Do bool := fun c => (inl (cn_closed c), c).
Definition setClosed : Do unit := fun c => (inl tt, mkConn (cn_world c) true (cn_stopped c)).
Definition stopped : Do bool := fun c => (inl (cn_stopped c), c).

Definition close : Do unit := done ← closed; if (done : bool) then mret tt else _ ← setClosed; Session.call closePool.

Definition ensureOpen : Do unit := done ← closed; refuse_if done CATALOG_CLOSED "the catalog connection is closed".

(** [discard] closes the connection of a session. *)
Definition discard : Do unit := Session.release true.

(** A reserved connection with a new [Session]. *)
Definition fresh : Do unit := fun c => (inl tt, mkConn (cn_world c) (cn_closed c) false).
Definition newSession : Do unit := _ ← Session.call reserve; fresh.

Definition beginStatements (readOnly : bool) : Do unit :=
  _ ← (if decide (dialect = Sqlite) then _ ← Session.control (str ["PRAGMA query_only="; if readOnly then "ON" else "OFF"]); mret tt else mret tt);
  _ ← (if readOnly && bool_decide (dialect = MySql) then _ ← Session.control "SET TRANSACTION ISOLATION LEVEL READ COMMITTED"; mret tt else mret tt);
  _ ← Session.control (BEGIN_SQL dialect readOnly);
  (if decide (dialect = Postgres) then _ ← Session.control "DEALLOCATE ALL"; mret tt else mret tt).

Definition begin (readOnly : bool) : Do unit :=
  _ ← ensureOpen;
  _ ← newSession;
  r ← tried (beginStatements readOnly);
  match r with inl _ => mret tt | inr error => _ ← discard; raise (mapped error) end.

(** The rollback of [endSession] and of an unknown commit, with its error. *)
Definition rollback : Do (option fault) :=
  open ← Session.open_ dialect;
  if (open : bool) then
    r ← tried (Session.control "ROLLBACK");
    mret (match r with inl _ => None | inr e => Some (mapped e) end)
  else mret None.

Definition endSession (error : option fault) : Do (option fault) :=
  let failure := option_map mapped error in
  stopped ← stopped;
  rolled ← (if negb stopped || bool_decide (dialect = Sqlite) then rollback else mret None);
  _ ← discard;
  mret match rolled with
       | None => failure
       | Some r =>
           match failure with
           | None => Some (Orm ROW_ROLLBACK_FAILED (str ["rollback: "; faultMessage r]) (Some r) None)
           | Some f => Some (Orm ROW_ROLLBACK_FAILED (str [faultMessage f; "; rollback: "; faultMessage r]) (Some f) None)
           end
       end.

(** [throw await this.endSession(session, error)] *)
Definition endWith {A} (error : fault) : Do A := e ← endSession (Some error); match e with Some e => raise e | None => raise error end.

Definition read {A} (work : Do A) : Do A :=
  _ ← begin true;
  r ← tried work;
  match r with
  | inr error => endWith error
  | inl value => failure ← endSession None; match failure with Some f => raise f | None => mret value end
  end.

(** The codes of a commit that the server refused. *)
Definition rejected (f : fault) : bool := match f with Orm code _ _ _ => includes code [DUPLICATE_KEY; FOREIGN_KEY; CONSTRAINT; DEADLOCK] | _ => false end.

Definition commit {A} (value : A) : Do A :=
  r ← tried (Session.control "COMMIT");
  match r with
  | inl _ => _ ← discard; mret value
  | inr error =>
      let m := mapped error in
      if rejected m then endWith (Orm ROW_COMMIT_REJECTED (str ["native commit rejected: "; faultMessage m]) (Some m) None)
      else
        rolled ← (if decide (dialect = Sqlite) then rollback else mret None);
        _ ← discard;
        raise (Orm ROW_COMMIT_INDETERMINATE
          (str ["commit outcome unknown; do not retry: "; faultMessage m; match rolled with Some r => str ["; rollback failed: "; faultMessage r] | None => "" end]) (Some m) rolled)
  end.

Definition write {A} (work : Do A) : Do A :=
  _ ← begin false;
  r ← tried (_ ← (if decide (dialect = MySql) then Session.mysqlPartialRevokesOff dialect else mret tt); work);
  match r with inr error => endWith error | inl value => commit value end.

(** *** Reads *)

Definition currentNamespace : Do string :=
  _ ← ensureOpen;
  if decide (dialect = Sqlite) then mret "main"
  else
    read ('(_, rows) ← Session.plainRows dialect (match dialect with Postgres => "SELECT current_schema()" | _ => "SELECT DATABASE()" end) [] 2 METADATA_BYTES;
          match rows with
          | [[JString name]] => _ ← ofRes (checkName name); mret name
          | [[_]] => refuse TABLE_NAMESPACE_UNAVAILABLE "the connection reported no text namespace"
          | _ => refuse TABLE_NAMESPACE_UNAVAILABLE "the connection reported no single namespace"
          end).

Definition describeTable (table : CatalogTableRef) : Do CatalogTableMetadata := read (Session.describe dialect table).

Definition pageChanged {A} (message : string) : Do A := refuse TABLE_PAGE_METADATA_CHANGED message.

Definition pageSql (metadata : CatalogTableMetadata) (table : CatalogTableRef) (limit offset : Z) : string :=
  str ["SELECT "; quoteList (columnNames metadata) dialect; " FROM "; qualified table dialect;
       (if (0 <? length (md_primaryKey metadata))%nat then str [" ORDER BY "; quoteList (md_primaryKey metadata) dialect] else "");
       " LIMIT "; pretty (limit + 1); " OFFSET "; pretty offset].

(** The failure of the rows of a page, unless the descriptor tells that it changed. *)
Definition pageFailure {A} (table : CatalogTableRef) (metadata : CatalogTableMetadata) (failure : fault) : Do A :=
  match failure with
  | Orm CATALOG_LIMIT _ _ _ => raise failure
  | _ =>
      after_ ← tried (Session.describe dialect table);
      match after_ with
      | inl m => if sameDescriptor m metadata then raise failure else pageChanged "descriptor changed during read"
      | inr _ => raise failure
      end
  end.

Definition tablePage (table : CatalogTableRef) (limit offset : JsValue) : Do CatalogTablePage :=
  _ ← ofRes (checkTable table);
  match wholeNumber limit 1 1000, wholeNumber offset 0 1000000 with
  | Some limit, Some offset =>
      read (
        metadata ← Session.describe dialect table;
        _ ← refuse_if (length (md_columns metadata) =? 0)%nat TABLE_PAGE_UNSUPPORTED "relation has no selectable columns";
        r ← tried (Session.collect dialect (pageSql metadata table limit offset) [] (limit + 1) PAGE_BYTES (Session.describedCell dialect (md_columns metadata)) (Some limit));
        '(columns, rows, past) ← match r with inl raw => mret raw | inr failure => pageFailure table metadata failure end;
        _ ← (if sameNames columns (md_columns metadata) then mret tt else pageChanged "prepared columns differ from descriptor");
        after_ ← Session.describe dialect table;
        _ ← (if sameDescriptor after_ metadata then mret tt else pageChanged "descriptor changed during read");
        mret (mkPage metadata (md_columns metadata) rows limit offset (md_primaryKey metadata) past))
  | _, _ => refuse TABLE_PAGE_INVALID "limit requires 1..1000 and offset 0..1000000"
  end.

(** A write that the read-only scope of the database refuses. *)
Definition refusedWrite {A} (m : Do A) : Do A :=
  r ← tried m;
  match r with
  | inl a => mret a
  | inr (Orm READ_ONLY _ _ _ as error) => refuse QUERY_READ_ONLY (faultMessage error)
  | inr error => raise error
  end.

Definition readOnlyQuery (query : string) (params : list JsValue) (maxRows maxBytes : option Z) : Do (list string * list (list CatalogValue)) :=
  '(maxRows, maxBytes) ← ofRes (queryBudget dialect query params maxRows maxBytes);
  refusedWrite (read ('(columns, rows) ← Session.queryRows dialect query params maxRows maxBytes; mret (map dc_name columns, rows))).

Definition readOnlyGridQuery (query : string) (params : list JsValue) (maxRows maxBytes : option Z) : Do (list (string * string) * list (list CatalogGridCell)) :=
  '(maxRows, maxBytes) ← ofRes (queryBudget dialect query params maxRows maxBytes);
  refusedWrite (read ('(columns, rows) ← Session.rowsOf dialect query params maxRows maxBytes (Session.gridCell_ dialect);
                      mret (map (fun c => (dc_name c, dc_type c)) columns, rows))).

(** *** Snapshots *)

Definition snapshotError {A} (message : string) : res A := Err (OrmError ROW_SNAPSHOT_INVALID message).

Definition rowSnapshotFromPage (page : CatalogTablePage) (index : Z) : res CatalogRowSnapshot :=
  let metadata := pg_metadata page in
  let rows := pg_rows page in
  match checkTable (md_table metadata) with
  | Err _ => invalidDescriptor refMessage
  | Ok _ =>
      if (pg_limit page <? 1) || (1000 <? pg_limit page) || (pg_offset page <? 0) || (1000000 <? pg_offset page) then snapshotError "invalid page bounds"
      else if (pg_limit page <? Z.of_nat (length rows)) || (pg_hasMore page && negb (Z.of_nat (length rows) =? pg_limit page)) ||
              negb (bool_decide (pg_orderBy page = md_primaryKey metadata)) then snapshotError "page rows or order do not match its bounds"
      else
        keyIndexes ← descriptorKeys metadata;
        if negb (bool_decide (map cc_name (pg_columns page) = map cc_name (md_columns metadata))) then snapshotError "projection differs from descriptor"
        else
          match (if index <? 0 then None else rows !! Z.to_nat index) with
          | None => snapshotError (str ["row index "; pretty index; " outside the page"])
          | Some cells =>
              _ ← checkCells metadata cells;
              revision ← revisionOf sha256 metadata cells;
              Ok (mkSnapshot metadata cells keyIndexes revision)
          end
  end.
(** *** Row changes *)

Definition hasChange (changes : list Change) (index : nat) : bool := existsb (fun c => (ch_index c =? index)%nat) changes.
Definition changeValue (changes : list Change) (index : nat) : JsValue :=
  match list_find (fun c => ch_index c = index) changes with Some (_, c) => ch_value c | None => JNull end.

Definition automatic (metadata : CatalogTableMetadata) (index : nat) : bool := match md_columns metadata !! index with Some c => cc_automaticKey c | None => false end.
Definition hasDefault (metadata : CatalogTableMetadata) (index : nat) : bool :=
  match md_columns metadata !! index with Some c => cc_automaticKey c || negb (bool_decide (cc_defaultExpression c = None)) | None => false end.
Definition nameAt (metadata : CatalogTableMetadata) (index : nat) : string := match md_columns metadata !! index with Some c => cc_name c | None => "" end.

(** The omitted keys that the database gives, and the given key values. *)
Definition insertKeys (declared : CatalogTableMetadata) (keyIndexes : list nat) (changes : list Change) : res (list nat * list CatalogValue) :=
  let omittedKeys := filter (fun index => negb (hasChange changes index) && hasDefault declared index = true) keyIndexes in
  if bool_decide (dialect = MySql) && (1 <? length (filter (fun index => automatic declared index = true) omittedKeys))%nat
  then Err (OrmError ROW_MUTATION_UNSUPPORTED "multiple generated primary keys are not supported")
  else
    keys ← mapR (fun index =>
      if hasChange changes index then Ok (changeValue changes index)
      else if includes index omittedKeys then Ok JNull
      else Err (OrmError ROW_INSERT_IDENTITY_REQUIRED (str ["primary-key value of "; dq; nameAt declared index; dq; " is required"]))) keyIndexes;
    Ok (omittedKeys, keys).

Definition insertSql (descriptor : CatalogTableMetadata) (changes : list Change) : string :=
  let target := str ["INSERT INTO "; qualified (md_table descriptor) dialect] in
  let names := map (fun c => quoteIdent (nameAt descriptor (ch_index c)) dialect) changes in
  let marks := imap (fun i _ => placeholder (i + 1) dialect) changes in
  match changes with
  | [] => match dialect with MySql => str [target; " () VALUES ()"] | _ => str [target; " DEFAULT VALUES"] end
  | _ => str [target; " ("; join "," names; ") VALUES ("; join "," marks; ")"]
  end.

(** The conditions that find the inserted row by its keys, with their values. *)
Fixpoint keyPredicates (descriptor : CatalogTableMetadata) (changes : list Change) (insertId : JsValue) (keyIndexes : list nat) (bound : list CatalogValue) : res (list string * list CatalogValue) :=
  match keyIndexes with
  | [] => Ok ([], bound)
  | index :: keyIndexes =>
      match md_columns descriptor !! index with
      | None => Err (OrmError ROW_SCHEMA_CHANGED "insertion key descriptor changed")
      | Some column =>
          let quoted := quoteIdent (cc_name column) dialect in
          let marked := str [quoted; "="; placeholder (length bound + 1) dialect] in
          '(predicate, bound) ←
            (if hasChange changes index then Ok (marked, bound ++ [changeValue changes index])
             else if cc_automaticKey column then
               if decide (insertId = JNull) then Err (OrmError ROW_WRITE_MISMATCH "insert acknowledgement has no generated primary key")
               else v ← plainValue insertId (mkDriverColumn (cc_name column) (cc_nativeType column)); Ok (marked, bound ++ [v])
             else if negb (bool_decide (cc_defaultExpression column = None)) && negb (cc_expressionDefault column) then Ok (str [quoted; "=DEFAULT("; quoted; ")"], bound)
             else Err (OrmError ROW_IDENTITY_AMBIGUOUS (str ["no safe generated-key locator for "; dq; cc_name column; dq])));
          '(predicates, bound) ← keyPredicates descriptor changes insertId keyIndexes bound;
          Ok (predicate :: predicates, bound)
      end
  end.

Definition oneRow (rows : list (list CatalogValue)) (code : Code) (message : string) : Do (list CatalogValue) := match rows with [row] => mret row | _ => refuse code message end.

Definition checkProjection (columns : list DriverColumn) (descriptor : CatalogTableMetadata) (message : string) : Do unit :=
  refuse_if (negb (sameNames columns (md_columns descriptor))) ROW_WRITE_MISMATCH message.

Definition describedRows (descriptor : CatalogTableMetadata) (sql : string) (params : list CatalogValue) : Do (list DriverColumn * list (list CatalogValue)) :=
  Session.rowsOf dialect sql params 2 PAGE_BYTES (Session.describedCell dialect (md_columns descriptor)).

Definition affectedOne (affected : Z) : Do unit :=
  refuse_if (negb (affected =? 1)) ROW_WRITE_MISMATCH (str ["expected exactly one inserted row, got "; pretty affected]).

(** The three ways of inserting: by RETURNING, by the explicit input of the
    statement, and by the keys that were given or acknowledged. *)
Definition insertReturning (descriptor : CatalogTableMetadata) (changes : list Change) (keyIndexes : list nat) : Do (list (list CatalogValue)) :=
  '(columns, rows) ← describedRows descriptor (str [insertSql descriptor changes; " RETURNING "; quoteList (columnNames descriptor) dialect]) (map ch_value changes);
  _ ← checkProjection columns descriptor "returned insert projection differs from descriptor";
  returned ← oneRow rows ROW_WRITE_MISMATCH (str ["expected exactly one inserted row, got "; pretty (Z.of_nat (length rows))]);
  _ ← ofRes (checkCells descriptor returned);
  Session.lookup dialect descriptor (map (cellAt returned) keyIndexes) false.

Definition readInputLocator (descriptor : CatalogTableMetadata) (changes : list Change) : Do (list DriverColumn * list (list CatalogValue)) :=
  sql ← ofRes (mysqlInputLocatorSql descriptor changes dialect);
  describedRows descriptor sql (mysqlInputLocatorParams changes).

Definition insertLocated (descriptor : CatalogTableMetadata) (changes : list Change) : Do (list (list CatalogValue)) :=
  affected ← Session.exec (insertSql descriptor changes) (map ch_value changes);
  _ ← affectedOne affected;
  '(columns, rows) ← readInputLocator descriptor changes;
  _ ← checkProjection columns descriptor "generated insert locator projection differs from descriptor";
  row ← oneRow rows ROW_IDENTITY_AMBIGUOUS "expected exactly one inserted locator row";
  _ ← ofRes (checkCells descriptor row);
  mret rows.

Definition insertAcknowledged (descriptor : CatalogTableMetadata) (changes : list Change) (keyIndexes omittedKeys : list nat) : Do (list (list CatalogValue)) :=
  result ← Session.executeResult (insertSql descriptor changes) (map ch_value changes);
  _ ← affectedOne (dr_affected result);
  let autoKeys := filter (fun index => automatic descriptor index = true) omittedKeys in
  _ ← refuse_if ((0 <? length autoKeys)%nat && includes (dr_insertId result) [JNull; JInt 0; JNegZero; JBigint 0]) ROW_WRITE_MISMATCH
        "insert acknowledgement has no generated primary key";
  '(predicates, bound) ← ofRes (keyPredicates descriptor changes (dr_insertId result) keyIndexes []);
  let rowLock := if decide (dialect = Sqlite) then "" else " FOR UPDATE" in
  '(columns, rows) ← describedRows descriptor
    (str ["SELECT "; quoteList (columnNames descriptor) dialect; " FROM "; qualified (md_table descriptor) dialect; " WHERE "; join " AND " predicates; " LIMIT 2"; rowLock]) bound;
  _ ← checkProjection columns descriptor "generated key lookup projection differs from descriptor";
  row ← oneRow rows ROW_WRITE_MISMATCH "expected exactly one inserted row";
  _ ← ofRes (checkCells descriptor row);
  mret rows.

Definition controlled (b : bool) (sql : string) : Do unit := if b then _ ← Session.control sql; mret tt else mret tt.

Definition insertBody (declared : CatalogTableMetadata) (keyIndexes : list nat) (changes : list Change) (omittedKeys : list nat) (keys : list CatalogValue) : Do CatalogMutationResult :=
  let omitted := (0 <? length omittedKeys)%nat in
  _ ← controlled (bool_decide (dialect = MySql) && omitted) (str ["SELECT 1 FROM "; qualified (md_table declared) dialect; " LIMIT 0 FOR UPDATE"]);
  _ ← controlled (bool_decide (dialect = Postgres)) (str ["LOCK TABLE "; qualified (md_table declared) dialect; " IN ROW EXCLUSIVE MODE"]);
  _ ← (if omitted then mret tt
       else existing ← Session.lookup dialect declared keys true; refuse_if (0 <? length existing)%nat ROW_CONFLICT "insertion key already exists");
  descriptor ← Session.describe dialect (md_table declared);
  _ ← refuse_if (negb (sameDescriptor descriptor declared)) ROW_SCHEMA_CHANGED "insertion descriptor changed";
  _ ← (if decide (dialect = MySql) then Session.mysqlSafety dialect descriptor else mret tt);
  let expressionLocator := bool_decide (dialect = MySql) && existsb (fun index => match md_columns descriptor !! index with Some c => cc_expressionDefault c | None => false end) omittedKeys in
  _ ← (if expressionLocator
       then '(_, before) ← readInputLocator descriptor changes; refuse_if (0 <? length before)%nat ROW_IDENTITY_AMBIGUOUS "generated identity locator already matches rows"
       else mret tt);
  rows ← (if omitted && negb (bool_decide (dialect = MySql)) then insertReturning descriptor changes keyIndexes
          else if expressionLocator then insertLocated descriptor changes
          else insertAcknowledged descriptor changes keyIndexes omittedKeys);
  stored ← oneRow rows ROW_WRITE_MISMATCH "expected exactly one inserted row";
  after_ ← Session.describe dialect (md_table declared);
  _ ← refuse_if (negb (sameDescriptor after_ descriptor)) ROW_SCHEMA_CHANGED "insertion descriptor changed";
  _ ← each (fun change =>
         same ← ofRes (sameCell (default JUndefined (stored !! ch_index change)) (ch_value change));
         refuse_if (negb same) ROW_WRITE_MISMATCH (str ["stored inserted values of "; dq; nameAt descriptor (ch_index change); dq; " differ"])) changes;
  mret (mkMutation (columnNames descriptor) rows).

Definition insertRow (declared : CatalogTableMetadata) (values : list CatalogAssignment) : Do CatalogMutationResult :=
  keyIndexes ← ofRes (descriptorKeys declared);
  changes ← ofRes (checkChanges declared values ROW_INSERT_INVALID dialect);
  '(omittedKeys, keys) ← ofRes (insertKeys declared keyIndexes changes);
  write (insertBody declared keyIndexes changes omittedKeys keys).

Definition lockOriginal (original : CatalogRowSnapshot) (keys : list CatalogValue) : Do CatalogTableMetadata :=
  current ← Session.lookup dialect (rs_metadata original) keys true;
  descriptor ← Session.describe dialect (md_table (rs_metadata original));
  _ ← refuse_if (negb (sameDescriptor descriptor (rs_metadata original))) ROW_SCHEMA_CHANGED "original descriptor changed";
  _ ← ofRes (checkCurrent current (rs_cells original));
  _ ← (if decide (dialect = MySql) then Session.mysqlSafety dialect descriptor else mret tt);
  mret descriptor.

(** A pure check whose error an error of another code takes in. *)
Definition wrapped {A} (r : res A) (code : Code) (prefix : string) : Do A :=
  match r with Ok a => mret a | Err e => raise (Orm code (str [prefix; faultMessage (faultOf e)]) (Some (faultOf e)) None) end.

Definition updateSql (descriptor : CatalogTableMetadata) (changes : list Change) : string :=
  let sets := assignmentsFrom 1 (map (fun c => nameAt descriptor (ch_index c)) changes) dialect in
  let predicate := assignmentsFrom (length changes + 1) (md_primaryKey descriptor) dialect in
  str ["UPDATE "; qualified (md_table descriptor) dialect; " SET "; join "," sets; " WHERE "; join " AND " predicate].

(** The stored row has the values of [updated] but in generated columns. *)
Definition checkStored (descriptor : CatalogTableMetadata) (stored updated : list CatalogValue) : res unit :=
  eachFrom (fun index column =>
    if cc_generated column then Ok tt
    else
      same ← sameCell (default JUndefined (stored !! index)) (default JUndefined (updated !! index));
      if (same : bool) then Ok tt else Err (OrmError ROW_WRITE_MISMATCH (str ["stored ordinary values of "; dq; cc_name column; dq; " differ"]))) 0 (md_columns descriptor).

Definition updateBody (original : CatalogRowSnapshot) (changes : list Change) (updated : list CatalogValue) : Do CatalogMutationResult :=
  let keys := snapshotKeys original in
  descriptor ← lockOriginal original keys;
  affected ← Session.exec (updateSql descriptor changes) (map ch_value changes ++ keys);
  _ ← refuse_if ((1 <? affected) || ((affected =? 0) && negb (bool_decide (dialect = MySql)))) ROW_WRITE_MISMATCH (str ["unexpected affected row count "; pretty affected]);
  after_ ← Session.lookup dialect descriptor (map (cellAt updated) (rs_keyIndexes original)) false;
  _ ← refuse_if (negb (length after_ =? 1)%nat) ROW_WRITE_MISMATCH (str ["expected exactly one updated row, got "; pretty (Z.of_nat (length after_))]);
  afterDescriptor ← Session.describe dialect (md_table (rs_metadata original));
  _ ← refuse_if (negb (sameDescriptor afterDescriptor descriptor)) ROW_SCHEMA_CHANGED "original descriptor changed";
  stored ← oneRow after_ ROW_WRITE_MISMATCH "expected exactly one updated row";
  _ ← ofRes (checkStored descriptor stored updated);
  mret (mkMutation (columnNames descriptor) after_).

Definition updateRow (original : CatalogRowSnapshot) (values : list CatalogAssignment) : Do CatalogMutationResult :=
  _ ← ofRes (validSnapshot original);
  changes ← ofRes (checkChanges (rs_metadata original) values ROW_UPDATE_INVALID dialect);
  let updated := changedCells (rs_cells original) changes in
  _ ← (wrapped (checkCells (rs_metadata original) updated) ROW_UPDATE_INVALID "invalid updated row: ");
  _ ← (wrapped (revisionOf sha256 (rs_metadata original) updated) ROW_UPDATE_LIMIT "updated row budget exceeded: ");
  write (updateBody original changes updated).

Definition deleteBody (original : CatalogRowSnapshot) : Do Z :=
  let keys := snapshotKeys original in
  descriptor ← lockOriginal original keys;
  let predicate := assignmentsFrom 1 (md_primaryKey descriptor) dialect in
  affected ← Session.exec (str ["DELETE FROM "; qualified (md_table descriptor) dialect; " WHERE "; join " AND " predicate]) keys;
  _ ← refuse_if (negb (affected =? 1)) ROW_WRITE_MISMATCH (str ["expected exactly one deleted row, got "; pretty affected]);
  after_ ← Session.lookup dialect descriptor keys false;
  _ ← refuse_if (0 <? length after_)%nat ROW_WRITE_MISMATCH "deleted row remains";
  afterDescriptor ← Session.describe dialect (md_table (rs_metadata original));
  _ ← refuse_if (negb (sameDescriptor afterDescriptor descriptor)) ROW_SCHEMA_CHANGED "original descriptor changed";
  mret affected.

Definition deleteRow (original : CatalogRowSnapshot) : Do Z := _ ← ofRes (validSnapshot original); write (deleteBody original).
End connection.
End Connection.
