(* ===== verification/CatalogFacts.v ===== *)
(** * What a row change sends

    Any host is recorded by a list of the calls it gets.  On a recorded host,
    [insertRow], [updateRow] and [deleteRow] reserve one connection, send their
    statements inside one transaction, commit at most once and last, and release
    the connection once, at the end, by closing it; they return exactly when the
    commit was answered. *)

From S2P Require Import Prelude Lex Values Render CatalogValue Faults CatalogRows ReadOnly Catalog.
From Stdlib Require Import Lia.

(** ** Recorded hosts *)

Inductive Event := EReserve (ok : bool) | EControl (sql : string) (ok : bool) | EExecute (sql : string) | EScan (sql : string) | ERelease (discard : bool) | EClose.

Definition done_ {A} (r : A + fault) : bool := match r with inl _ => true | inr _ => false end.

Definition record {W A} (e : A + fault -> Event) (m : Run W A) : Run (W * list Event) A := fun '(w, es) => let '(r, w') := m w in (r, (w', es ++ [e r])).

#[global] Instance recorded {W} (h : CatalogHost W) : CatalogHost (W * list Event) := {|
  reserve := record (fun r => EReserve (done_ r)) reserve;
  hostControl sql := record (fun r => EControl sql (done_ r)) (hostControl sql);
  hostExecute sql params := record (fun _ => EExecute sql) (hostExecute sql params);
  hostScan sql params := record (fun _ => EScan sql) (hostScan sql params);
  inTransaction s := inTransaction (fst s);
  hostRelease discard s := (hostRelease discard (fst s), snd s ++ [ERelease discard]);
  closePool := record (fun _ => EClose) closePool |}.

(** A statement inside a transaction. *)
Definition ends (sql : string) : bool := includes sql ["COMMIT"; "ROLLBACK"].
Definition inner (e : Event) : Prop :=
  match e with EScan _ | EExecute _ => True | EControl sql _ => ends sql = false | EReserve _ | ERelease _ | EClose => False end.

(** The rollback, if one is sent. *)
Definition rolledBack (es : list Event) : Prop := es = [] \/ exists ok, es = [EControl "ROLLBACK" ok].

(** The calls of a row change, and whether it returns. *)
Inductive changeCalls : list Event -> bool -> Prop :=
  | calls_refused : changeCalls [] false
  | calls_unconnected : changeCalls [EReserve false] false
  | calls_ended es back : Forall inner es -> rolledBack back -> changeCalls (EReserve true :: es ++ back ++ [ERelease true]) false
  | calls_uncommitted es back : Forall inner es -> rolledBack back -> changeCalls (EReserve true :: es ++ [EControl "COMMIT" false] ++ back ++ [ERelease true]) false
  | calls_committed es : Forall inner es -> changeCalls (EReserve true :: es ++ [EControl "COMMIT" true; ERelease true]) true.

Section recorded.
Context {W : Type} {h : CatalogHost W}.

Abbreviation State := (Conn (W * list Event)).
Definition calls (c : State) : list Event := snd (cn_world c).

(** A program whose result and added calls are of [P]. *)
Definition says {A} (m : Run State A) (P : A + fault -> list Event -> Prop) : Prop := forall c, exists es, calls (snd (m c)) = calls c ++ es /\ P (fst (m c)) es.
Definition quiet {A} (m : Run State A) : Prop := says m (fun _ => Forall inner).

Lemma quiet_same {A} (m : Run State A) : (forall c, cn_world (snd (m c)) = cn_world c) -> quiet m.
Proof. intros H c. exists []. unfold calls. rewrite H, app_nil_r. by split. Qed.

Lemma quiet_ret {A} (a : A) : quiet (mret a).
Proof. by apply quiet_same. Qed.
Lemma quiet_raise {A} f : quiet (raise f : Run State A).
Proof. by apply quiet_same. Qed.
Lemma quiet_refuse {A} code message : quiet (refuse code message : Run State A).
Proof. by apply quiet_same. Qed.
Lemma quiet_refuse_if b code message : quiet (refuse_if b code message : Run State unit).
Proof. by destruct b; apply quiet_same. Qed.
Lemma quiet_ofRes {A} (r : res A) : quiet (ofRes r : Run State A).
Proof. by destruct r; apply quiet_same. Qed.

Lemma quiet_bind {A B} (m : Run State A) (k : A -> Run State B) : quiet m -> (forall a, quiet (k a)) -> quiet (m ≫= k).
Proof.
  intros Hm Hk c. unfold mbind, Run_bind. destruct (Hm c) as (es & He & Hi). destruct (m c) as [[a|e] c1]; cbn in He |- *; [|by exists es].
  destruct (Hk a c1) as (es' & He' & Hi'). exists (es ++ es'). rewrite He', He, app_assoc. split; [done|]. by apply Forall_app.
Qed.

Lemma quiet_tried {A} (m : Run State A) : quiet m -> quiet (tried m).
Proof. intros Hm c. destruct (Hm c) as (es & He & Hi). unfold tried. destruct (m c) as [r c1]. by exists es. Qed.

Lemma quiet_record {A} (e : A + fault -> Event) (m : Run W A) : (forall r, inner (e r)) -> quiet (Session.call (record e m)).
Proof.
  intros He c. unfold Session.call, record, calls. destruct c as [[w es] cl st]. cbn. destruct (m w) as [r w']. cbn. exists [e r]. split; [done|]. by repeat constructor.
Qed.

Lemma quiet_scan sql params : quiet (Session.call (hostScan sql params)).
Proof. by apply quiet_record. Qed.
Lemma quiet_execute sql params : quiet (Session.call (hostExecute sql params)).
Proof. by apply quiet_record. Qed.
Lemma quiet_control sql : ends sql = false -> quiet (Session.control sql).
Proof. intros H. by apply quiet_record. Qed.
Lemma quiet_stop : quiet (Session.stop : Run State unit).
Proof. by apply quiet_same. Qed.

Lemma quiet_each {A} (f : A -> Run State unit) l : (forall a, quiet (f a)) -> quiet (each f l).
Proof. intros Hf. induction l as [|a l IH]; [apply quiet_ret|]. cbn [each]. apply quiet_bind; [apply Hf|by intros _]. Qed.

(** *** The rules of [says] *)

Lemma says_ret {A} (a : A) P : P (inl a) [] -> says (mret a : Run State A) P.
Proof. intros H c. exists []. by rewrite app_nil_r. Qed.
Lemma says_raise {A} f (P : A + fault -> _) : P (inr f) [] -> says (raise f) P.
Proof. intros H c. exists []. by rewrite app_nil_r. Qed.
Lemma says_read {A} (f : State -> A) (P : A + fault -> _) : (forall a, P (inl a) []) -> says (fun c => (inl (f c), c)) P.
Proof. intros H c. exists []. split; [by rewrite app_nil_r|apply H]. Qed.

Lemma says_bind {A B} (m : Run State A) (k : A -> Run State B) P Q :
  says m P -> (forall a es, P (inl a) es -> says (k a) (fun r es' => Q r (es ++ es'))) -> (forall f es, P (inr f) es -> Q (inr f) es) -> says (m ≫= k) Q.
Proof.
  intros Hm Hk Hf c. unfold mbind, Run_bind. destruct (Hm c) as (es & He & HP). destruct (m c) as [[a|f] c1]; cbn in He, HP |- *; [|by exists es; auto].
  destruct (Hk a es HP c1) as (es' & He' & HQ). exists (es ++ es'). by rewrite He', He, app_assoc.
Qed.

Lemma says_tried {A} (m : Run State A) P (Q : (A + fault) + fault -> _) : says m P -> (forall r es, P r es -> Q (inl r) es) -> says (tried m) Q.
Proof. intros Hm HQ c. destruct (Hm c) as (es & He & HP). unfold tried. destruct (m c) as [r c1]. cbn in *. exists es. auto. Qed.

Lemma says_weaken {A} (m : Run State A) P Q : says m P -> (forall r es, P r es -> Q r es) -> says m Q.
Proof. intros Hm HQ c. destruct (Hm c) as (es & He & HP). exists es. auto. Qed.

Lemma says_control sql (P : DriverResult + fault -> _) : (forall r, P r [EControl sql (done_ r)]) -> says (Session.control sql) P.
Proof. intros H [[w es] cl st]. unfold Session.control, Session.call, calls. cbn. destruct (hostControl sql w) as [r w']. cbn. eauto. Qed.

Lemma says_discard (P : unit + fault -> _) : P (inl tt) [ERelease true] -> says (Connection.discard : Run State unit) P.
Proof. intros H [[w es] cl st]. exists [ERelease true]. by split. Qed.
End recorded.

Create HintDb quiet.
#[export] Hint Resolve quiet_ret quiet_raise quiet_refuse quiet_refuse_if quiet_ofRes quiet_scan quiet_execute quiet_stop : quiet.

(** A program built of quiet ones by binds and matches. *)
Ltac quiet :=
  repeat first
    [ solve [eauto with quiet]
    | match goal with |- forall _, _ => intros ? end
    | apply quiet_bind
    | match goal with |- quiet (match ?x with _ => _ end) => destruct x end
    | match goal with |- quiet (let '_ := ?x in _) => destruct x end ].

Section session.
Context {W : Type} {h : CatalogHost W} (dialect : DriverName).

Lemma quiet_collect {T} sql params maxRows maxBytes (convert : JsValue -> DriverColumn -> nat -> res (T * Z)) keep :
  quiet (Session.collect (host := recorded h) dialect sql params maxRows maxBytes convert keep).
Proof. unfold Session.collect. quiet. Qed.

Lemma quiet_rowsOf {T} sql params maxRows maxBytes (convert : JsValue -> DriverColumn -> nat -> res (T * Z)) :
  quiet (Session.rowsOf (host := recorded h) dialect sql params maxRows maxBytes convert).
Proof. unfold Session.rowsOf. apply quiet_bind; [apply quiet_collect|]. intros [[columns rows] past]. quiet. Qed.
End session.
#[export] Hint Resolve quiet_collect quiet_rowsOf : quiet.

Section statements.
Context {W : Type} {h : CatalogHost W} (dialect : DriverName).

Lemma quiet_plainRows sql params maxRows maxBytes : quiet (Session.plainRows (host := recorded h) dialect sql params maxRows maxBytes).
Proof. apply quiet_rowsOf. Qed.
Lemma quiet_rawRows sql params maxRows maxBytes : quiet (Session.rawRows (host := recorded h) dialect sql params maxRows maxBytes).
Proof. apply quiet_rowsOf. Qed.
Hint Resolve quiet_plainRows quiet_rawRows : quiet.

Lemma quiet_executeResult sql params : ends sql = false -> quiet (Session.executeResult (host := recorded h) sql params).
Proof. intros H. unfold Session.executeResult. apply quiet_bind; [apply quiet_ofRes|]. intros [|]; [by apply quiet_control|apply quiet_execute]. Qed.
Lemma quiet_exec sql params : ends sql = false -> quiet (Session.exec (host := recorded h) sql params).
Proof. intros H. unfold Session.exec. apply quiet_bind; [by apply quiet_executeResult|]. quiet. Qed.

Lemma quiet_describe ref : quiet (Session.describe (host := recorded h) dialect ref).
Proof. unfold Session.describe, Session.checkedColumns, Session.rowidColumns. quiet. Qed.
Lemma quiet_lookup metadata keys lock : quiet (Session.lookup (host := recorded h) dialect metadata keys lock).
Proof. unfold Session.lookup. quiet. Qed.
Lemma quiet_mysqlSafety metadata : quiet (Session.mysqlSafety (host := recorded h) dialect metadata).
Proof. unfold Session.mysqlSafety, Session.unsupported. quiet. Qed.
Lemma quiet_partialRevokes : quiet (Session.mysqlPartialRevokesOff (host := recorded h) dialect).
Proof. unfold Session.mysqlPartialRevokesOff. quiet. Qed.
End statements.
#[export] Hint Resolve quiet_describe quiet_lookup quiet_mysqlSafety quiet_partialRevokes : quiet.

Section bodies.
Context {W : Type} {h : CatalogHost W} (dialect : DriverName).

Lemma quiet_describedRows descriptor sql params : quiet (Connection.describedRows (host := recorded h) dialect descriptor sql params).
Proof. apply quiet_rowsOf. Qed.
Lemma quiet_checkProjection columns descriptor message : quiet (Connection.checkProjection columns descriptor message : Run (Conn (W * list Event)) unit).
Proof. apply quiet_refuse_if. Qed.
Lemma quiet_oneRow rows code message : quiet (Connection.oneRow rows code message : Run (Conn (W * list Event)) _).
Proof. unfold Connection.oneRow. quiet. Qed.
Lemma quiet_affectedOne n : quiet (Connection.affectedOne n : Run (Conn (W * list Event)) unit).
Proof. apply quiet_refuse_if. Qed.
Hint Resolve quiet_describedRows quiet_checkProjection quiet_oneRow quiet_affectedOne : quiet.

Lemma quiet_readInputLocator descriptor changes : quiet (Connection.readInputLocator (host := recorded h) dialect descriptor changes).
Proof. unfold Connection.readInputLocator. quiet. Qed.
Hint Resolve quiet_readInputLocator : quiet.

Lemma ends_insertSql descriptor changes : ends (Connection.insertSql dialect descriptor changes) = false.
Proof. unfold Connection.insertSql. destruct changes; [destruct dialect|]; done. Qed.

Lemma quiet_insertReturning descriptor changes keys : quiet (Connection.insertReturning (host := recorded h) dialect descriptor changes keys).
Proof. unfold Connection.insertReturning. quiet. Qed.
Lemma quiet_insertLocated descriptor changes : quiet (Connection.insertLocated (host := recorded h) dialect descriptor changes).
Proof. unfold Connection.insertLocated. apply quiet_bind; [apply quiet_exec, ends_insertSql|]. quiet. Qed.
Lemma quiet_insertAcknowledged descriptor changes keys omitted : quiet (Connection.insertAcknowledged (host := recorded h) dialect descriptor changes keys omitted).
Proof. unfold Connection.insertAcknowledged. apply quiet_bind; [apply quiet_executeResult, ends_insertSql|]. quiet. Qed.
Lemma quiet_controlled b sql : ends sql = false -> quiet (Connection.controlled (host := recorded h) b sql).
Proof. intros H. unfold Connection.controlled. destruct b; [|apply quiet_ret]. apply quiet_bind; [by apply quiet_control|]. quiet. Qed.
Hint Resolve quiet_insertReturning quiet_insertLocated quiet_insertAcknowledged : quiet.

Lemma quiet_insertBody declared keyIndexes changes omitted keys : quiet (Connection.insertBody (host := recorded h) dialect declared keyIndexes changes omitted keys).
Proof.
  unfold Connection.insertBody. do 2 (apply quiet_bind; [by apply quiet_controlled|intros _]). quiet.
  apply quiet_each. quiet.
Qed.

Lemma quiet_lockOriginal original keys : quiet (Connection.lockOriginal (host := recorded h) dialect original keys).
Proof. unfold Connection.lockOriginal. quiet. Qed.
Hint Resolve quiet_lockOriginal : quiet.

Lemma quiet_updateBody original changes updated : quiet (Connection.updateBody (host := recorded h) dialect original changes updated).
Proof. unfold Connection.updateBody. apply quiet_bind; [quiet|intros]. apply quiet_bind; [by apply quiet_exec|]. quiet. Qed.
Lemma quiet_deleteBody original : quiet (Connection.deleteBody (host := recorded h) dialect original).
Proof. unfold Connection.deleteBody. apply quiet_bind; [quiet|intros]. apply quiet_bind; [by apply quiet_exec|]. quiet. Qed.
End bodies.
#[export] Hint Resolve quiet_insertBody quiet_updateBody quiet_deleteBody : quiet.

(** ** The transaction of a change *)

Section transaction.
Context {W : Type} {h : CatalogHost W} (suffix : Z -> string) (sha256 : string -> string) (dialect : DriverName).

Definition beginCalls (r : unit + fault) (es : list Event) : Prop :=
  match r with
  | inl _ => exists es', es = EReserve true :: es' /\ Forall inner es'
  | inr _ => changeCalls es false
  end.

Lemma quiet_beginStatements readOnly : quiet (Connection.beginStatements (host := recorded h) dialect readOnly).
Proof.
  assert (Hc : forall sql, ends sql = false -> quiet (Session.control (host := recorded h) sql)) by apply quiet_control.
  unfold Connection.beginStatements. repeat (apply quiet_bind; [|intros]); destruct dialect, readOnly; cbn; quiet; by apply Hc.
Qed.

Lemma says_ensureOpen : says (Connection.ensureOpen : Run (Conn (W * list Event)) unit) (fun _ es => es = []).
Proof. intros c. exists []. split; [|done]. rewrite app_nil_r. unfold Connection.ensureOpen, Connection.closed, mbind, Run_bind. by destruct (cn_closed c). Qed.

Lemma says_newSession : says (Connection.newSession (host := recorded h)) (fun r es => es = [EReserve (done_ r)]).
Proof.
  intros [[w es] cl st]. unfold Connection.newSession, Session.call, Connection.fresh, mbind, Run_bind, calls. cbn.
  destruct (reserve w) as [[[]|f] w']; cbn; eauto.
Qed.

Lemma says_begin readOnly : says (Connection.begin (host := recorded h) suffix dialect readOnly) beginCalls.
Proof.
  unfold Connection.begin. eapply says_bind; [apply says_ensureOpen| |intros f es ->; constructor]. intros [] es ->. cbn.
  eapply says_bind; [apply says_newSession| |intros f es ->; constructor]. intros [] es ->. cbn.
  eapply says_bind; [eapply (says_tried _ _ (fun r es => exists r', r = inl r' /\ Forall inner es)); [apply quiet_beginStatements|eauto]| |by intros f es (r & ? & _)].
  intros r es (r' & [= <-] & Hes). destruct r as [[]|f]; [by apply says_ret; rewrite app_nil_r; exists es|].
  eapply says_bind; [by apply (says_discard (fun r es => es = [ERelease true]))| |by intros f' es' ->; apply (calls_ended es []); [|left]].
  intros _ es' ->. apply says_raise. rewrite app_nil_r. by apply (calls_ended es []); [|left].
Qed.

(** What [rollback] and [endSession] say; they never throw. *)
Definition returns {A} (P : list Event -> Prop) (r : A + fault) (es : list Event) : Prop := done_ r = true /\ P es.

Lemma says_rollback : says (Connection.rollback (host := recorded h) suffix dialect) (returns rolledBack).
Proof.
  unfold Connection.rollback. eapply says_bind; [by apply (says_read _ (returns (fun es => es = [])))| |by intros f es [? _]].
  intros open es [_ ->]. destruct open; [|by apply says_ret; split; [|left]].
  eapply says_bind; [eapply (says_tried _ _ (returns (fun es => exists ok, es = [EControl "ROLLBACK" ok])))| |by intros f es [? _]].
  - by apply (says_control _ (fun _ es => exists ok, es = [EControl "ROLLBACK" ok])); eauto.
  - by split.
  - intros r es [_ [ok ->]]. apply says_ret. split; [done|]. right. by exists ok.
Qed.

(** The calls of the end of a session. *)
Definition endCalls (es : list Event) : Prop := exists back, rolledBack back /\ es = back ++ [ERelease true].

Lemma says_endSession error : says (Connection.endSession (host := recorded h) suffix dialect error) (returns endCalls).
Proof.
  unfold Connection.endSession. eapply says_bind; [by apply (says_read _ (returns (fun es => es = [])))| |by intros f es [? _]].
  intros stopped es [_ ->]. cbn. eapply (says_bind _ _ (returns rolledBack)); [|intros rolled es Hes|].
  - destruct (_ || _); [apply says_rollback|by apply says_ret; split; [|left]].
  - eapply says_bind; [by apply (says_discard (returns (fun es => es = [ERelease true])))| |by intros f es' [? _]].
    intros _ es' [_ ->]. apply says_ret. rewrite app_nil_r. split; [done|]. destruct Hes as [_ Hes]. by exists es.
  - by intros f es [? _].
Qed.

Lemma says_endWith {A} error : says (Connection.endWith (host := recorded h) suffix dialect error : Run _ A) (fun r es => done_ r = false /\ endCalls es).
Proof.
  unfold Connection.endWith. eapply says_bind; [apply says_endSession| |by intros f es [? _]].
  intros e es [_ Hes]. destruct e; apply says_raise; by rewrite app_nil_r.
Qed.

(** The calls behind the statements of a change. *)
Inductive lastCalls : list Event -> bool -> Prop :=
  | last_ended es : endCalls es -> lastCalls es false
  | last_uncommitted es : endCalls es -> lastCalls (EControl "COMMIT" false :: es) false
  | last_committed : lastCalls [EControl "COMMIT" true; ERelease true] true.

Lemma says_commit {A} (value : A) : says (Connection.commit (host := recorded h) suffix dialect value) (fun r es => lastCalls es (done_ r)).
Proof.
  unfold Connection.commit.
  eapply says_bind; [eapply (says_tried _ _ (fun r es => exists r', r = inl r' /\ es = [EControl "COMMIT" (done_ r')]))| |by intros f es (r & ? & _)].
  { by apply (says_control _ (fun r es => es = [EControl "COMMIT" (done_ r)])). }
  { intros r es ->. eauto. }
  intros r es (r' & [= <-] & ->). destruct r as [r|error].
  - eapply says_bind; [by apply (says_discard (returns (fun es => es = [ERelease true])))| |by intros f es' [? _]].
    intros _ es' [_ ->]. apply says_ret. constructor.
  - cbv zeta. destruct (Connection.rejected _).
    { eapply says_weaken; [apply says_endWith|]. intros r es [-> Hes]. by constructor. }
    eapply (says_bind _ _ (returns rolledBack)); [|intros rolled es [_ Hes]|by intros f es [? _]].
    { destruct (decide _); [apply says_rollback|by apply says_ret; split; [|left]]. }
    eapply says_bind; [by apply (says_discard (returns (fun es => es = [ERelease true])))| |by intros f es' [? _]].
    intros _ es' [_ ->]. apply says_raise. rewrite app_nil_r. apply (last_uncommitted (es ++ [ERelease true])). by exists es.
Qed.

Lemma changeCalls_last es last ok : Forall inner es -> lastCalls last ok -> changeCalls (EReserve true :: es ++ last) ok.
Proof. intros Hes [l (back & Hb & ->)|l (back & Hb & ->)|]; by econstructor. Qed.

Lemma says_write {A} (work : Run _ A) : quiet work -> says (Connection.write (host := recorded h) suffix dialect work) (fun r es => changeCalls es (done_ r)).
Proof.
  intros Hw. unfold Connection.write. eapply says_bind; [apply says_begin| |by intros f es ?].
  intros [] es (es0 & -> & H0). eapply says_bind; [eapply (says_tried _ _ (fun r es => exists r', r = inl r' /\ Forall inner es))| |by intros f es (r & ? & _)].
  { instantiate (1 := fun _ => Forall inner). apply quiet_bind; [destruct (decide _); auto with quiet|by intros _]. }
  { eauto. }
  intros r es1 (r' & [= <-] & H1). cbn. eapply says_weaken with (P := fun r es => lastCalls es (done_ r)).
  - destruct r as [value|error]; [apply says_commit|]. eapply says_weaken; [apply says_endWith|]. intros r es [-> Hes]. by constructor.
  - intros r' last Hl. cbn. rewrite app_assoc. apply changeCalls_last; [by apply Forall_app|done].
Qed.

Lemma says_ofRes {A B} (r : res A) (k : A -> Run _ B) P : (forall f, P (inr f) []) -> (forall a, says (k a) P) -> says (W := W) (ofRes r ≫= k) P.
Proof. intros Hf Hk. destruct r as [a|e]; [apply Hk|]. by apply says_raise. Qed.

Lemma says_wrapped {A B} (r : res A) code prefix (k : A -> Run _ B) P :
  (forall f, P (inr f) []) -> (forall a, says (k a) P) -> says (W := W) (Connection.wrapped r code prefix ≫= k) P.
Proof. intros Hf Hk. destruct r as [a|e]; [apply Hk|]. by apply says_raise. Qed.
End transaction.

(** The row changes of a connection. *)
Inductive RowChange :=
  | InsertRow (declared : CatalogTableMetadata) (values : list CatalogAssignment)
  | UpdateRow (original : CatalogRowSnapshot) (values : list CatalogAssignment)
  | DeleteRow (original : CatalogRowSnapshot).

Definition changeRow {W} {host : CatalogHost W} (suffix : Z -> string) (sha256 : string -> string) (dialect : DriverName) (m : RowChange) : Run (Conn W) unit :=
  match m with
  | InsertRow declared values => _ ← Connection.insertRow suffix dialect declared values; mret tt
  | UpdateRow original values => _ ← Connection.updateRow suffix sha256 dialect original values; mret tt
  | DeleteRow original => _ ← Connection.deleteRow suffix dialect original; mret tt
  end.

Lemma says_dropped {W A} (m : Run (Conn (W * list Event)) A) P : says m (fun r es => P es (done_ r)) -> says (_ ← m; mret tt) (fun r es => P es (done_ r)).
Proof. intros Hm c. destruct (Hm c) as (es & He & HP). exists es. unfold mbind, Run_bind. by destruct (m c) as [[a|f] c1]. Qed.

Lemma says_changeRow {W} {h : CatalogHost W} suffix sha256 dialect m :
  says (changeRow (host := recorded h) suffix sha256 dialect m) (fun r es => changeCalls es (done_ r)).
Proof.
  destruct m; apply says_dropped; unfold Connection.insertRow, Connection.updateRow, Connection.deleteRow.
  all: repeat first [ apply says_ofRes; [by constructor|intros] | apply says_wrapped; [by constructor|intros] | case_match ]; apply says_write; auto with quiet.
Qed.

(** C13: whatever the database answers and wherever it fails, a row change of a
    catalog connection makes only these calls, in this order: none at all when the
    request is refused before it is sent or the connection is closed; else it
    reserves one connection and, when that succeeds, sends its statements, then at
    most one COMMIT, behind which no statement but a ROLLBACK is sent and that only
    when the COMMIT failed, and at last closes the connection of the session, once.
    It returns exactly when the COMMIT was answered. *)
Theorem rowChange_calls {W} (h : CatalogHost W) suffix sha256 dialect m w closed stopped :
  let '(r, c) := changeRow (host := recorded h) suffix sha256 dialect m (mkConn (w, []) closed stopped) in
  changeCalls (snd (cn_world c)) (done_ r).
Proof.
  destruct (says_changeRow (h := h) suffix sha256 dialect m (mkConn (w, []) closed stopped)) as (es & He & HP).
  destruct (changeRow _ _ _ _ _) as [r c]. unfold calls in He. cbn in He, HP. by rewrite He.
Qed.

(** * What a catalog read returns and what a change has checked

    The outcomes of the sink that reads an answer: every row in order within both
    limits, or the first rows and the one reason for which the read stopped.  And
    what the database answered when an update or a deletion returns: the locked row
    is the row of the snapshot, the stored row is the requested one. *)


(** ** The outcomes of the sink *)

Section sink.
Context {T : Type} (columns : list DriverColumn) (maxRows maxBytes : Z) (convert : JsValue -> DriverColumn -> nat -> res (T * Z)) (keep : option Z).
Context (stop : list JsValue -> bool) (read : list JsValue -> list JsValue).

(** The cells of rows, with the bytes behind them. *)
Fixpoint convertRows (bytes : Z) (rows : list (list JsValue)) : res (list (list T) * Z) :=
  match rows with
  | [] => Ok ([], bytes)
  | row :: rows =>
      '(cells, bytes) ← convertRow columns convert bytes 0 (read row);
      '(more, bytes) ← convertRows bytes rows;
      Ok (cells :: more, bytes)
  end.

(** Rows that were read within the limits. *)
Record Taken (rows : list (list JsValue)) (cells : list (list T)) (bytes : Z) : Prop := {
  taken_cells : convertRows 0 rows = Ok (cells, bytes);
  taken_length : length cells = length rows;
  taken_rows : Z.of_nat (length rows) <= Z.max 0 maxRows;
  taken_bytes : bytes <= Z.max 0 maxBytes;
  taken_kept : match keep with Some k => Z.of_nat (length rows) <= Z.max 0 k | None => True end;
  taken_on : Forall (fun row => stop row = false) rows }.

Definition sinkOf (cells : list (list T)) (past : bool) (bytes : Z) (overflow : option string) (failure : option err) : Sink := mkSink cells past bytes overflow failure.

(** How a read of an answer ends. *)
Inductive Fed (rows : list (list JsValue)) : Sink (T := T) -> option (list JsValue * bool) -> Prop :=
  | fed_all cells bytes : Taken rows cells bytes -> Fed rows (sinkOf cells false bytes None None) None
  | fed_again front row back cells bytes : rows = front ++ row :: back -> Taken front cells bytes -> stop row = true ->
      Fed rows (sinkOf cells false bytes None None) (Some (row, true))
  | fed_kept front row back cells bytes k : rows = front ++ row :: back -> Taken front cells bytes -> keep = Some k -> k <= Z.of_nat (length front) ->
      Fed rows (sinkOf cells true bytes None None) (Some (row, false))
  | fed_many front row back cells bytes : rows = front ++ row :: back -> Taken front cells bytes -> maxRows <= Z.of_nat (length front) ->
      Fed rows (sinkOf cells false bytes (Some (str ["result has more than "; pretty maxRows; " rows"])) None) (Some (row, false))
  | fed_large front row back cells bytes next bytes' : rows = front ++ row :: back -> Taken front cells bytes ->
      convertRow columns convert bytes 0 (read row) = Ok (next, bytes') -> maxBytes < bytes' ->
      Fed rows (sinkOf cells false bytes' (Some (str ["result has more than "; pretty maxBytes; " bytes of values"])) None) (Some (row, false))
  | fed_failed front row back cells bytes e : rows = front ++ row :: back -> Taken front cells bytes ->
      convertRow columns convert bytes 0 (read row) = Err e -> Fed rows (sinkOf cells false bytes None (Some e)) (Some (row, false)).

Lemma convertRows_snoc rows row bytes cells b next b' :
  convertRows bytes rows = Ok (cells, b) -> convertRow columns convert b 0 (read row) = Ok (next, b') ->
  convertRows bytes (rows ++ [row]) = Ok (cells ++ [next], b').
Proof.
  revert bytes cells. induction rows as [|r rows IH]; intros bytes cells H Hn; cbn in *.
  - injection H as <- <-. by rewrite Hn.
  - destruct (convertRow columns convert bytes 0 (read r)) as [[c b1]|e]; cbn in *; [|done].
    destruct (convertRows b1 rows) as [[cs b2]|e] eqn:E; cbn in *; [|done]. injection H as <- <-. by rewrite (IH _ _ E Hn).
Qed.

Lemma taken_nil : Taken [] [] 0.
Proof. split; cbn; try done; try lia. destruct keep; lia. Qed.

Lemma fed_from rows front cells bytes : Taken front cells bytes ->
  let '(s, stopped) := feed columns maxRows maxBytes convert keep stop read (sinkOf cells false bytes None None) rows in Fed (front ++ rows) s stopped.
Proof.
  revert front cells bytes. induction rows as [|row rows IH]; intros front cells bytes H; cbn [feed].
  { rewrite app_nil_r. by apply fed_all. }
  destruct (stop row) eqn:Hs; [by eapply fed_again|]. unfold deliver. cbn [sk_rows sinkOf sk_bytes sk_past sk_overflow sk_failure].
  rewrite (taken_length _ _ _ H). destruct (match keep with Some k => _ | None => false end) eqn:Hk.
  { destruct keep as [k|] eqn:Ek; [|done]. eapply fed_kept; [done|done|done|lia]. }
  destruct (_ <=? _) eqn:Hm; [eapply fed_many; [done|done|lia]|].
  destruct (convertRow _ _ _ _ _) as [[next bytes']|e] eqn:Ec; [|by eapply fed_failed].
  destruct (_ <? _) eqn:Hb; [eapply fed_large; [done|done|done|lia]|].
  replace (front ++ row :: rows) with ((front ++ [row]) ++ rows) by by rewrite <- app_assoc. apply IH. destruct H. split.
  - by eapply convertRows_snoc.
  - rewrite !length_app. cbn. lia.
  - rewrite length_app. cbn. lia.
  - lia.
  - rewrite length_app. cbn. destruct keep; [lia|done].
  - rewrite Forall_app. by repeat constructor.
Qed.

(** C16: a catalog read loses no row in silence.  The rows of the result are the
    converted rows of the answer from its front, in order, at most [maxRows] of at
    most [maxBytes]; the read goes to the end of the answer unless the next row is
    one that SQLite must send again, one past [keep], which sets [past], one over
    a limit, which sets the overflow message, or one whose value has no catalog
    form, which sets the failure. *)
Theorem feed_outcome rows :
  let '(s, stopped) := feed columns maxRows maxBytes convert keep stop read emptySink rows in Fed rows s stopped.
Proof. apply (fed_from rows [] [] 0 taken_nil). Qed.
End sink.

(** ** What a change that returns has checked *)

Section returns.
Context {S : Type}.

(** A sequence that returns has returned from each of its parts. *)
Lemma bind_returns {A B} (m : Run S A) (k : A -> Run S B) c b c2 : (m ≫= k) c = (inl b, c2) -> exists a c1, m c = (inl a, c1) /\ k a c1 = (inl b, c2).
Proof. unfold mbind, Run_bind. destruct (m c) as [[a|f] c1]; [|done]. eauto. Qed.

Lemma ofRes_returns {A} (r : res A) (c : S) a c1 : ofRes r c = (inl a, c1) -> r = Ok a /\ c1 = c.
Proof. destruct r; by intros [= <- <-]. Qed.
Lemma refuse_if_returns b code message (c : S) u c1 : refuse_if b code message c = (inl u, c1) -> b = false /\ c1 = c.
Proof. destruct b; by intros [= <- <-]. Qed.
Lemma tried_returns {A} (m : Run S A) c r c1 : tried m c = (inl r, c1) -> m c = (r, c1).
Proof. unfold tried. destruct (m c) as [r' c']. by intros [= <- <-]. Qed.
End returns.

(** Inverts the binds of the programs that return. *)
Ltac inv_binds :=
  repeat match goal with
    | H : (_ ≫= _) _ = (inl _, _) |- _ => apply bind_returns in H as (?a & ?s & ? & H); cbn beta in H
    | H : ofRes _ _ = (inl _, _) |- _ => apply ofRes_returns in H as [? ->]
    | H : refuse_if _ _ _ _ = (inl _, _) |- _ => apply refuse_if_returns in H as [? ->]
    | H : tried _ _ = (inl _, _) |- _ => apply tried_returns in H
    | H : mret _ _ = (inl _, _) |- _ => injection H as <- <-
    | H : raise _ _ = (inl _, _) |- _ => discriminate H
    end.

Section changes.
Context {W : Type} {host : CatalogHost W} (suffix : Z -> string) (sha256 : string -> string) (dialect : DriverName).

Lemma endWith_returns {A} error c (a : A) c' : Connection.endWith suffix dialect error c <> (inl a, c').
Proof. unfold Connection.endWith. intros H. inv_binds. by destruct a0. Qed.

Lemma commit_returns {A} (value : A) c a c' : Connection.commit suffix dialect value c = (inl a, c') ->
  a = value /\ exists r c1, Session.control "COMMIT" c = (inl r, c1).
Proof.
  unfold Connection.commit. intros H. inv_binds. destruct a0 as [r|error]; [inv_binds; eauto|].
  destruct (Connection.rejected _); [by apply endWith_returns in H|]. inv_binds.
Qed.

(** A write that returns has run its work between BEGIN and an answered COMMIT. *)
Lemma write_returns {A} (work : Run (Conn W) A) c a c' : Connection.write suffix dialect work c = (inl a, c') ->
  exists c0 c1 r c2, work c0 = (inl a, c1) /\ Session.control "COMMIT" c1 = (inl r, c2).
Proof.
  unfold Connection.write. intros H. inv_binds. destruct a1 as [value|error]; [|by apply endWith_returns in H].
  inv_binds. apply commit_returns in H as [-> (r & c1 & H)]. do 4 eexists. eauto.
Qed.

Lemma oneRow_returns rows code message (c : Conn W) row c1 : Connection.oneRow rows code message c = (inl row, c1) -> rows = [row] /\ c1 = c.
Proof. intros H. destruct rows as [|r [|]]; inversion H; by subst. Qed.

Lemma wrapped_returns {A} (r : res A) code prefix (c : Conn W) a c1 : Connection.wrapped r code prefix c = (inl a, c1) -> r = Ok a /\ c1 = c.
Proof. destruct r; by intros [= <- <-]. Qed.

Lemma eachFrom_ok {A} (f : nat -> A -> res unit) l i : eachFrom f i l = Ok tt -> forall j x, l !! j = Some x -> f (i + j)%nat x = Ok tt.
Proof.
  revert i. induction l as [|y l IH]; intros i H j x Hj; [done|]. cbn in H. destruct (f i y) as [[]|e] eqn:E; [|done]. cbn in H.
  destruct j as [|j]; cbn in Hj; [injection Hj as <-; by rewrite Nat.add_0_r|]. rewrite Nat.add_succ_r. exact (IH _ H j x Hj).
Qed.

(** The lock of a change from [c] to [c']: its first call, the locking lookup, gave
    one row, the row of the snapshot. *)
Definition lockedRow (original : CatalogRowSnapshot) (descriptor : CatalogTableMetadata) (c : Conn W) : Prop :=
  sameDescriptor descriptor (rs_metadata original) = true /\
  exists row c1, Session.lookup dialect (rs_metadata original) (snapshotKeys original) true c = (inl [row], c1) /\ sameRow row (rs_cells original) = Ok true.

Lemma lockOriginal_returns original c descriptor c' :
  Connection.lockOriginal dialect original (snapshotKeys original) c = (inl descriptor, c') -> lockedRow original descriptor c.
Proof.
  unfold Connection.lockOriginal. intros H. inv_binds. apply negb_false_iff in H2. split; [done|].
  destruct a as [|row [|]]; cbn in H3; [done| |done]. exists row, s. split; [done|]. destruct (sameRow row _) as [[]|]; by cbn in H3.
Qed.

(** A row with the cells of [updated] in every column that is not generated. *)
Definition storedRow (descriptor : CatalogTableMetadata) (stored updated : list CatalogValue) : Prop :=
  forall i column, md_columns descriptor !! i = Some column -> cc_generated column = false ->
  sameCell (default JUndefined (stored !! i)) (default JUndefined (updated !! i)) = Ok true.

Lemma checkStored_ok descriptor stored updated u : Connection.checkStored descriptor stored updated = Ok u -> storedRow descriptor stored updated.
Proof.
  destruct u. intros H i column Hi Hg. pose proof (eachFrom_ok _ _ _ H i column Hi) as Hs. cbn in Hs. rewrite Hg in Hs.
  destruct (sameCell _ _) as [[]|]; by cbn in Hs.
Qed.

(** C14: an update of a row that returns has changed the row of the snapshot into
    the row it returns.  Inside its transaction the locking read by the key of the
    snapshot gave one row, equal to the snapshot cell by cell; then one UPDATE of
    the changed columns by that key was answered with at most one row, none only by
    MySQL, which counts the rows that differ; the read right behind it by the new key gave
    exactly one row, with the requested value in every column that the database
    does not generate; the COMMIT was answered, and that row is the result. *)
Theorem updateRow_checked original values c result c' :
  Connection.updateRow suffix sha256 dialect original values c = (inl result, c') ->
  exists changes descriptor row affected c1 c2 c3 c4 c5 c6 r,
    let updated := changedCells (rs_cells original) changes in
    checkChanges (rs_metadata original) values ROW_UPDATE_INVALID dialect = Ok changes /\
    lockedRow original descriptor c1 /\
    Session.exec (Connection.updateSql dialect descriptor changes) (map ch_value changes ++ snapshotKeys original) c2 = (inl affected, c3) /\
    affected <= 1 /\ (affected = 0 -> dialect = MySql) /\
    Session.lookup dialect descriptor (map (cellAt updated) (rs_keyIndexes original)) false c3 = (inl [row], c4) /\
    storedRow descriptor row updated /\ Session.control "COMMIT" c5 = (inl r, c6) /\ result = mkMutation (columnNames descriptor) [row].
Proof.
  unfold Connection.updateRow. intros H. inv_binds. apply wrapped_returns in H2 as [_ ->]. apply wrapped_returns in H3 as [_ ->].
  apply write_returns in H as (c1 & c5 & r & c6 & H & HC). unfold Connection.updateBody in H. inv_binds.
  match goal with Ho : Connection.oneRow _ _ _ _ = _ |- _ => apply oneRow_returns in Ho as [-> ->] end.
  apply lockOriginal_returns in H2. apply orb_false_iff in H4 as [Ha1 Ha2].
  do 11 eexists. repeat split; [exact H1|apply H2|apply H2|exact H3|lia| |eassumption|by eapply checkStored_ok|exact HC].
  intros ->. cbn in Ha2. by apply negb_false_iff, bool_decide_eq_true in Ha2.
Qed.
End changes.

(** ** A scripted SQLite database

    One table [t] of a rowid key and a name; the world is the stored name. *)

Definition sampleAnswer (rows : list (list JsValue)) : Answer := mkAnswer (map (fun _ => mkDriverColumn "x" "") (default [] (head rows))) rows None.

Definition sampleScan (sql : string) (name : string) : list (list JsValue) :=
  if decide (sql = KIND_SQL Sqlite) then [[JString "table"]]
  else if decide (sql = COLUMNS_SQL Sqlite) then
    [[JString "id"; JString "INTEGER"; JInt 0; JInt 0; JInt 1; JInt 0; JNull; JInt 0];
     [JString "name"; JString "TEXT"; JInt 1; JInt 0; JInt 0; JInt 0; JNull; JInt 0]]
  else if contains "sqlite_master" sql then [[JString "CREATE TABLE t(id INTEGER PRIMARY KEY, name TEXT)"]]
  else if contains "pragma_index_list" sql then [[JInt 0]]
  else [[JInt 1; JString name]].

#[local] Instance sampleCatalog : CatalogHost string := {|
  reserve := mret tt;
  hostControl _ := mret (mkDriverResult 0 JNull);
  hostExecute _ params name := (inl (mkDriverResult 1 JNull), match params with JString name :: _ => name | _ => name end);
  hostScan sql _ name := (inl (sampleAnswer (sampleScan sql name)), name);
  inTransaction _ := Some true;
  hostRelease _ name := name;
  closePool := mret tt |}.

Definition sampleMetadata : CatalogTableMetadata :=
  mkMetadata (mkTableRef "main" "t") KTable
    [mkCatalogColumn "id" "INTEGER" false false true None false None; mkCatalogColumn "name" "TEXT" true false false None false None] ["id"] true.

Definition sampleSnapshot : CatalogRowSnapshot := mkSnapshot sampleMetadata [JInt 1; JString "Ann"] [0%nat] "".

Example sample_describe : fst (Connection.describeTable (fun _ => "") Sqlite (mkTableRef "main" "t") (mkConn "Ann" false false)) = inl sampleMetadata.
Proof. vm_compute. reflexivity. Qed.

(** A changed row is refused before any statement changes it. *)
Example sample_conflict :
  Connection.updateRow (fun _ => "") (fun s => s) Sqlite sampleSnapshot [mkAssignment "name" (JString "Bob")] (mkConn "Eve" false false) =
  (inr (Orm ROW_CONFLICT "original values changed" None None), mkConn "Eve" false false).
Proof. vm_compute. reflexivity. Qed.

Example updateRow_checked_witness :
  let updated := mkMutation ["id"; "name"] [[JInt 1; JString "Bob"]] in
  Connection.updateRow (fun _ => "") (fun s => s) Sqlite sampleSnapshot [mkAssignment "name" (JString "Bob")] (mkConn "Ann" false false) =
    (inl updated, mkConn "Bob" false false) /\
  exists descriptor c1, lockedRow Sqlite sampleSnapshot descriptor c1 /\ columnNames descriptor = ["id"; "name"].
Proof.
  intros updated. split; [vm_compute; reflexivity|].
  destruct (updateRow_checked (fun _ => "") (fun s => s) Sqlite sampleSnapshot [mkAssignment "name" (JString "Bob")] (mkConn "Ann" false false) updated
    (mkConn "Bob" false false)) as (changes & descriptor & row & affected & c1 & c2 & c3 & c4 & c5 & c6 & r & _ & Hl & _ & _ & _ & _ & _ & _ & Hu); [vm_compute; reflexivity|].
  exists descriptor, c1. split; [exact Hl|]. by injection Hu.
Defined.
