(* ===== verification/Sample.v ===== *)
(** * A small document set and requests of it

    The inputs at which the theorems of the other files are applied, and what
    the compiler and the readers do with them. *)

From S2P Require Import Prelude Ir Dialect Lex DialectFacts Documents Model Values Canonical Planner Validate EngineFacts PlannerBinds PlannerSteps Keys Relations Split GroupRows.

(** ** The documents *)

Definition column (name : string) (type : DbspecType) (nullable identity : bool) : DbspecColumn := mkColumn [] name type nullable identity None.

Definition author : DbspecTable :=
  mkTable [] "author"
    [column "id" TI32 false true; column "name" (TVarchar 40) false false; column "team" TI32 true false;
     column "deleted" (TDatetime 0) true false]
    (mkPrimaryKey [] ["id"]) [] [] [] [] (Some (mkSettingsBlock [] [mkSettingLine [] (SSoftDelete "deleted")] [])) [].

Definition book : DbspecTable :=
  mkTable [] "book"
    [column "id" TI32 false true; column "author_id" TI32 false false; column "title" (TVarchar 80) false false;
     column "price" (TDecimal 6 2) false false]
    (mkPrimaryKey [] ["id"]) [mkUnique [] "book_title" ["author_id"; "title"]] []
    [mkForeignKey [] "book_author" ["author_id"] "author" ["id"] Restrict Restrict] [] None [].

Definition library : list DbspecDocument := [mkDocument "library" false [] [author; book] [] []].

(** A stand-in for SHA-256: the statements below hold for any function. *)
Definition digest (text : string) : string := "0".

Definition emptyModel : RuntimeModel := mkModel "" "" "" [] [].
Definition libraryModel : RuntimeModel :=
  match modelOfDocuments digest library with Ok m => m | Err _ => emptyModel end.

Definition engineOf (dialect : string) : Engine :=
  match newEngine libraryModel dialect false with Ok e => e | Err _ => mkEngine emptyModel mysql false end.

(** ** Requests *)

Definition emptyQuery (entity : string) : RequestQuery :=
  mkQuery entity None None None None None None None None None None None false None None false.

Definition requestOf (q : RequestQuery) (kind : string) (params : Z) : Request := mkRequest q 1 "sha256:0" kind false None None None None None params.

Definition withWhere (items : list Item) (q : RequestQuery) : RequestQuery :=
  mkQuery (q_entity q) (q_columns q) (q_on q) (Some (mkGroup None false items)) (q_joins q) (q_relations q) (q_order q) (q_group_by q)
    (q_limit q) (q_force_index q) (q_lock q) (q_key_by q) (q_flatten q) (q_limit_per_parent q) (q_if_parent q) (q_no_cascade_delete q).
Definition withRelations (relations : list Relation) (q : RequestQuery) : RequestQuery :=
  mkQuery (q_entity q) (q_columns q) (q_on q) (q_where q) (q_joins q) (Some relations) (q_order q) (q_group_by q)
    (q_limit q) (q_force_index q) (q_lock q) (q_key_by q) (q_flatten q) (q_limit_per_parent q) (q_if_parent q) (q_no_cascade_delete q).
Definition withLimit (limit : Limit) (q : RequestQuery) : RequestQuery :=
  mkQuery (q_entity q) (q_columns q) (q_on q) (q_where q) (q_joins q) (q_relations q) (q_order q) (q_group_by q)
    (Some limit) (q_force_index q) (q_lock q) (q_key_by q) (q_flatten q) (q_limit_per_parent q) (q_if_parent q) (q_no_cascade_delete q).

Definition compares (conn : option string) (col op : string) (p : Z) : Item :=
  mkItem (Some (mkPred conn (Some col) (Some op) (Some p) None None None None None None)) None None.
Definition oneOf (conn : option string) (col : string) (ps : list Z) : Item :=
  mkItem (Some (mkPred conn (Some col) (Some "in") None (Some ps) None None None None None)) None None.
Definition nested (conn : option string) (items : list Item) : Item := mkItem None (Some (mkGroup conn false items)) None.

(** The books of each author, by a title. *)
Definition books : Relation :=
  mkRelation "books" (withWhere [compares None "title" "eq" 3] (emptyQuery "book")) (Some "many") (Some [mkKeyPair "id" "author_id"]).

(** Authors by three identifiers, with their books. *)
Definition authorsRequest : Request :=
  requestOf (withRelations [books] (withWhere [oneOf None "id" [0; 1; 2]] (emptyQuery "author"))) "all" 4.
Definition authorsParams : list JsValue := [JInt 7; JInt 8; JInt 9; JString "a"].

Definition planOf (dialect : string) (r : Request) : Plan :=
  match engineCompile (engineOf dialect) r with Ok p => p | Err _ => mkPlan "" "" [] end.
Definition compiledStep (dialect : string) (r : Request) (i : nat) : PlanStep :=
  match pl_steps (planOf dialect r) !! i with
  | Some st => st
  | None => mkStep 0 "" "" [] None [] None None
  end.

(** ** The canonical form *)

Definition canonical (r : Request) (params : list JsValue) : Request * list JsValue :=
  match canonicalize r params with Ok c => c | Err _ => (r, params) end.

Lemma canonicalize_idempotent_witness :
  let '(r, out) := canonical authorsRequest authorsParams in canonicalize r out = Ok (r, out).
Proof. apply (canonicalize_idempotent authorsRequest authorsParams); vm_compute; reflexivity. Defined.

Lemma canonicalize_slot_order_witness :
  let '(r, out) := canonical authorsRequest authorsParams in
  rq_n_params r = 5 /\ map (src_value out) (sources r) = map (src_value authorsParams) (sources authorsRequest).
Proof.
  destruct (canonicalize_slot_order authorsRequest authorsParams (fst (canonical authorsRequest authorsParams)) (snd (canonical authorsRequest authorsParams)))
    as (_ & H & _ & Hn); [vm_compute; reflexivity|]. split; [exact Hn|exact H].
Defined.

(** The values that another request gives under other numbers. *)
Definition shiftParams (p : Z) : Z := p + 1.

Lemma canonicalize_key_renumbering_witness :
  let r1 := fst (canonical authorsRequest authorsParams) in
  let r2 := fst (canonical (ren_request shiftParams authorsRequest) (JNull :: authorsParams)) in
  with_n_params r1 0 = with_n_params r2 0.
Proof.
  destruct (canonicalize_key_renumbering shiftParams authorsRequest authorsParams (JNull :: authorsParams)
    (fst (canonical authorsRequest authorsParams)) (snd (canonical authorsRequest authorsParams))
    (fst (canonical (ren_request shiftParams authorsRequest) (JNull :: authorsParams)))
    (snd (canonical (ren_request shiftParams authorsRequest) (JNull :: authorsParams)))) as [H _]; [vm_compute; reflexivity..|]. apply H.
Defined.

(** ** Plans *)

Lemma compile_placeholders_witness : exists texts, length texts = 4%nat /\ Forall safe texts /\
  st_sql (compiledStep "postgres" authorsRequest 0) = weave texts (map (d_placeholder postgres) (seq 1 3)).
Proof.
  apply (compile_placeholders libraryModel postgres false authorsRequest (planOf "postgres" authorsRequest)
    (compiledStep "postgres" authorsRequest 0)); [vm_compute; reflexivity|].
  apply (list_elem_of_lookup_2 _ 0%nat). vm_compute. reflexivity.
Defined.

Lemma engine_compile_terminates_witness : engineCompile (engineOf "mysql") authorsRequest <> Err OutOfFuel.
Proof. apply (engine_compile_terminates libraryModel "mysql" false). vm_compute. reflexivity. Defined.

Lemma compile_steps_wf_witness : stepsWf (pl_steps (planOf "sqlite" authorsRequest)).
Proof. apply (compile_steps_wf libraryModel sqlite false authorsRequest). vm_compute. reflexivity. Defined.

Lemma compile_roles_witness : exists n, map st_role (pl_steps (planOf "sqlite" authorsRequest)) = headRoles "all" ++ replicate n "relation".
Proof. apply (compile_roles libraryModel sqlite false authorsRequest). vm_compute. reflexivity. Defined.

(** ** Relation steps *)

Definition booksStep (dialect : string) : PlanStep := compiledStep dialect authorsRequest 1.
Definition authorRows : list (list JsValue) :=
  [[JInt 7; JString "x"; JNull; JNull]; [JInt 8; JString "y"; JNull; JNull]; [JInt 7; JString "x"; JNull; JNull]; [JInt 9; JString "z"; JNull; JNull]].
Definition bookRows : list (list JsValue) :=
  [[JInt 1; JInt 8; JString "a"; JBigint 150]; [JInt 2; JInt 7; JString "a"; JBigint 0]; [JInt 3; JInt 8; JString "a"; JBigint 1]].

Lemma parentValues_keys_witness : exists keys : list string, NoDup keys /\ length keys = 3%nat /\ parentValues (booksStep "sqlite") authorRows [] = Ok [JInt 7; JInt 8; JInt 9].
Proof.
  destruct (parentValues_keys (booksStep "sqlite") (mkParentRef 0 [mkKeyRef "id" 0] None) authorRows [] [JInt 7; JInt 8; JInt 9])
    as (rows & keys & E & Hn & F & _); [vm_compute; reflexivity..|].
  exists keys. split; [exact Hn|]. split; [|vm_compute; reflexivity]. rewrite <- (Forall2_length _ _ _ F).
  apply (f_equal length) in E. revert E. clear. unfold keyCells. simpl. induction rows as [|r [|s [|t [|u rows]]]]; simpl; congruence.
Defined.

Lemma groupByKey_rows_witness : exists byKey, groupByKey [mkKeyRef "author_id" 1] bookRows = Ok byKey /\ forall i,
  i ∈ default [] (assoc "n:8" byKey) <-> exists row, bookRows !! i = Some row /\ rowKey row [mkKeyRef "author_id" 1] = Ok (Some "n:8").
Proof.
  eexists. split; [vm_compute; reflexivity|]. intros i. apply (groupByKey_rows [mkKeyRef "author_id" 1] bookRows). vm_compute. reflexivity.
Defined.

Lemma booksStep_width dialect : dialect ∈ ["mysql"; "postgres"; "sqlite"] -> keyWidth (booksStep dialect) 1.
Proof.
  rewrite !elem_of_cons, elem_of_nil. intros [->|[->|[->|[]]]]; exists (mkParentRef 0 [mkKeyRef "id" 0] None); vm_compute; split; reflexivity.
Qed.

Lemma relationChunks_fit_witness : exists chunks, relationChunks (booksStep "sqlite") [JInt 7; JInt 8; JInt 9] "sqlite" = Ok chunks /\
  concat chunks = [JInt 7; JInt 8; JInt 9].
Proof.
  eexists. split; [vm_compute; reflexivity|]. apply (relationChunks_fit (booksStep "sqlite") _ "sqlite" _ 1 3).
  - apply booksStep_width. rewrite !elem_of_cons. auto.
  - reflexivity.
  - vm_compute. reflexivity.
Defined.

(** The texts of a statement between its placeholders. *)
Lemma noMark_texts texts : forallb (fun t => negb (has_char "?" t)) texts = true -> Forall noMark texts.
Proof. rewrite forallb_forall, Forall_forall. intros H t Ht%list_elem_of_In%H. by apply negb_true_iff in Ht. Qed.

Lemma noDollar_texts texts : forallb (fun t => negb (has_char "$" t) && negb (startsDigit t)) texts = true -> Forall noDollar texts.
Proof.
  rewrite forallb_forall, Forall_forall. intros H t Ht%list_elem_of_In%H. apply andb_true_iff in Ht as [H1%negb_true_iff H2%negb_true_iff].
  split; [done|]. by destruct t.
Qed.

Definition markTexts : list string := split_on "?" (st_sql (booksStep "mysql")).

Lemma expandParent_marks_witness : exists values : list JsValue, length values = 4%nat /\
  expandParent (booksStep "mysql") [JInt 7; JInt 8; JInt 9] =
    Ok (weave markTexts [parentList 1 (length values) (fun _ => "?"); "?"], values).
Proof.
  apply (expandParent_marks (booksStep "mysql") [JInt 7; JInt 8; JInt 9] 1 3 markTexts).
  - apply booksStep_width. rewrite !elem_of_cons. auto.
  - lia.
  - lia.
  - reflexivity.
  - vm_compute. reflexivity.
  - apply noMark_texts. vm_compute. reflexivity.
  - vm_compute. reflexivity.
  - vm_compute. reflexivity.
Defined.

(** The texts of the statement of PostgreSQL: the numbers are of one digit. *)
Definition dollarTexts : list string :=
  match split_on "$" (st_sql (booksStep "postgres")) with
  | t :: ts => t :: map (fun t => match t with String _ t => t | EmptyString => "" end) ts
  | [] => []
  end.

Lemma expandParent_numbers_witness : exists values : list JsValue, length values = 4%nat /\
  expandParent (booksStep "postgres") [JInt 7; JInt 8; JInt 9] =
    Ok (weave dollarTexts [parentList 1 (length values) (fun m => dollar (1 + m)); dollar (1 + length values)], values).
Proof.
  destruct (expandParent_numbers (booksStep "postgres") [JInt 7; JInt 8; JInt 9] 1 3 dollarTexts []
    (default (mkSlot "" 0 "" "" 0 "" [] "" None None None None false) (head (st_bind_slots (booksStep "postgres"))))
    (tail (st_bind_slots (booksStep "postgres")))) as (values & Hl & E).
  - apply booksStep_width. rewrite !elem_of_cons. auto.
  - lia.
  - lia.
  - reflexivity.
  - vm_compute. reflexivity.
  - split; [vm_compute; reflexivity|]. apply (bool_decide_unpack _). vm_compute. reflexivity.
  - vm_compute. reflexivity.
  - apply noDollar_texts. vm_compute. reflexivity.
  - vm_compute. reflexivity.
  - exists values. split; [exact Hl|]. rewrite E. f_equal. f_equal. rewrite Hl. vm_compute. reflexivity.
Defined.

(** ** A list longer than the bind limit *)

(** Authors by [n] identifiers. *)
Definition manyAuthors (n : nat) : Request :=
  requestOf (withWhere [oneOf None "id" (map Z.of_nat (seq 0 n))] (emptyQuery "author")) "all" (Z.of_nat n).
Definition manyParams (n : nat) : list JsValue := map (fun i => JInt (Z.of_nat i)) (seq 0 n).
Definition manyParts (n : nat) : list Request :=
  match rootInParts (manyAuthors n) (Z.of_nat n) "sqlite" (manyParams n) with Ok parts => parts | Err _ => [] end.

Lemma rootInParts_split_witness : exists slices : list (list Z),
  length (manyParts 1000) = length slices /\ forall l, l ∈ slices -> Z.of_nat (length l) <= 999.
Proof.
  destruct (rootInParts_split (manyAuthors 1000) 1000 "sqlite" (manyParams 1000) (manyParts 1000)) as (ps & slices & Hps & E & F & _).
  - reflexivity.
  - vm_compute. reflexivity.
  - exists slices. split; [rewrite E; apply length_map|]. intros l Hl. rewrite Forall_forall in F. destruct (F l Hl) as [Hb _].
    assert (length ps = 1000%nat) as Hn by (vm_compute in Hps; injection Hps as <-; reflexivity). rewrite Hn in Hb.
    change (driverLimit "sqlite") with 999 in Hb. lia.
Defined.

Definition groupEntries : list (string * JsValue) := [("team", JInt 4); ("row_count", JString "12")].

Lemma groupRow_values_witness : exists row, newGroupRow groupEntries = Ok row /\ forall v, groupValue row "team" = Ok v <-> v = JInt 4.
Proof.
  eexists. split; [vm_compute; reflexivity|]. intros v.
  destruct (groupRow_values groupEntries (mkGroupRow [("team", JInt 4); ("row_count", JInt 12)] 12)) as (_ & _ & _ & H); [vm_compute; reflexivity|].
  rewrite H. unfold groupEntries. rewrite !elem_of_cons, elem_of_nil. split; [|intros ->; right; split; [discriminate|auto]].
  intros [[[=] _]|[_ [[= ->]|[[=]|[]]]]]. reflexivity.
Defined.

(** * Behaviour that departs from what the code or its documents intend

    Each statement evaluates the modelled code at one input. *)


(** ** OR and the conditions that the planner adds *)

Definition eitherAuthor : list Item := [compares None "id" "eq" 0; compares (Some "or") "team" "eq" 1].

(** the planner joins its own condition to the where items with AND and no
    parentheses. A read whose items are joined by OR keeps rows that are soft
    deleted, since AND binds tighter than OR. *)
Theorem read_or_keeps_deleted :
  st_sql (compiledStep "mysql" (requestOf (withWhere eitherAuthor (emptyQuery "author")) "all" 2) 0) =
  "SELECT `a`.`id` AS `a__id`, `a`.`name` AS `a__name`, `a`.`team` AS `a__team`, `a`.`deleted` AS `a__deleted` FROM `author` AS `a` WHERE `a`.`deleted` IS NULL AND `a`.`id` = ? OR `a`.`team` = ?".
Proof. vm_compute. reflexivity. Qed.

(** a delete whose items are joined by OR matches soft-deleted rows again and
    writes a new deletion time to them. *)
Theorem delete_or_matches_deleted :
  st_sql (compiledStep "mysql" (requestOf (withWhere eitherAuthor (emptyQuery "author")) "delete" 2) 0) =
  "UPDATE `author` SET `deleted` = CURRENT_TIMESTAMP WHERE `author`.`id` = ? OR `author`.`team` = ? AND `author`.`deleted` IS NULL".
Proof. vm_compute. reflexivity. Qed.

(** ** Function names of the object prototype *)

Definition constructorOrder : RequestQuery :=
  let q := emptyQuery "author" in
  mkQuery (q_entity q) (q_columns q) (q_on q) (q_where q) (q_joins q) (q_relations q)
    (Some [mkOrder (Some "id") false false (Some (mkFunction "constructor" None))]) (q_group_by q)
    (q_limit q) (q_force_index q) (q_lock q) (q_key_by q) (q_flatten q) (q_limit_per_parent q) (q_if_parent q) (q_no_cascade_delete q).

(** a column function named like a member of the object prototype is not
    refused as unknown: the validator reads the inherited member and fails with
    an error of the runtime. *)
Theorem function_of_prototype : validate libraryModel (requestOf constructorOrder "all" 0) = Err JsTypeError.
Proof. vm_compute. reflexivity. Qed.

(** ** Keys of byte values *)

(** the split of a long IN list takes different byte strings that are not
    UTF-8 for one value, since it compares their lossy texts, and drops one. *)
Theorem split_drops_bytes :
  firstOfKey [JBytes [255]; JBytes [254]] [] [0; 1] = [0].
Proof. vm_compute. reflexivity. Qed.

(** ** The parent condition of a decimal column *)

Definition pricedStep : PlanStep :=
  mkStep 1 "relation" "" ["author"] None [] None (Some (mkParentRef 0 [mkKeyRef "author_id" 1] (Some (mkPlanIfParent "price" 3 0)))).

(** a parent row is skipped although its decimal column holds the parameter's
    value: the SQLite cell 150 of scale 2 is compared as text with "1.50". *)
Theorem if_parent_decimal_skips :
  parentValues pricedStep [[JInt 1; JInt 8; JString "a"; JBigint 150]] [JString "1.50"] = Ok [].
Proof. vm_compute. reflexivity. Qed.

(** ** Counts of a split read *)

(** Authors by [n] identifiers and a team, or by another team. *)
Definition manyOrTeam (n : nat) : Request :=
  requestOf (withWhere [oneOf None "id" (map Z.of_nat (seq 0 n)); nested (Some "and") [compares None "team" "eq" (Z.of_nat n)];
                        nested (Some "or") [compares None "team" "eq" (Z.of_nat n + 1)]] (emptyQuery "author")) "count" (Z.of_nat n + 2).

(** a count whose IN list stands beside an OR between two groups is split:
    the rows of the second alternative are counted by each of its parts. *)
Theorem split_counts_alternatives_twice :
  length <$> (match rootInParts (manyOrTeam 1000) 1002 "sqlite" (manyParams 1002) with Ok parts => Some parts | Err _ => None end) = Some 2%nat.
Proof. vm_compute. reflexivity. Qed.
